(* ===== verification/_CoqProject ===== *)
-Q . S2P
Prelude.v
Dict.v
PyStr.v
PySort.v
Floats.v
PyVal.v
Torch.v
PagedKV.v
MemoryCache.v
PrefixIndex.v
ContinuousBatching.v
Microbatch.v
KVCacheManager.v
SwarmInfo.v
Routing.v
BlockSelection.v
InferenceSession.v
SessionRecovery.v
Handlers.v
Observation.v
PrefixHandoff.v
StepIterator.v
PushHandler.v
FlowControl.v
TaskPool.v
Autograd.v
ChainRule.v
SpecTree.v
SpecDecode.v
SpecPrune.v
SpecCache.v
SpecRestore.v
SpecVerify.v
SpecGenerate.v
SpecRounds.v
SpecDrafter.v
SpecPrompt.v
SpecDrafted.v
SpecPruned.v
Decode.v
LiveSession.v
RemoteGeneration.v
LateArrivals.v
GenerateCall.v
Bytes.v
LosslessTransport.v
Quant.v
ExpertQuant.v
Experts.v
ExpertStores.v
ServerLoop.v
Decimal.v
LayerPlan.v
GpuStreams.v
KVOffload.v
SharedSlots.v
MixedCache.v
StepWire.v
