(* ===== verification/Prelude.v ===== *)
(** * BloomBee: a verification library of the serving core

    BloomBee runs a large language model over a swarm of volunteer servers, each with a
    few consecutive blocks of the model. This library models the parts of the system that
    decide: caches and their tables, schedulers, queues, protocols, routes, recoveries,
    wire formats. The numerical kernels are parameters. All paths below are relative to
    src/src/bloombee unless they begin with mvp_capabilities.

    ** The system

    A client (client/) opens a session through a chain of servers: the routing picks the
    chain from the announcements of the swarm, the session sends each step's hidden states
    through it and replaces servers that fail, and speculative decoding drafts trees of
    tokens that the servers verify in one step. A server (server/) has several connection
    handler processes and one runtime: a handler reserves attention cache, takes the
    steps of its sessions from the client's stream and from pushes of the previous server,
    submits them to a task pool, and pushes the outputs to the next server, as a whole or
    in micro-batches, through a lossless wrapper. The runtime owns the cache tensors.

    ** The files

    General: [Prelude] (results and exceptions, the state-and-exception monad [M], lists,
    tactics, hints), [Dict] (insertion-ordered dictionaries), [PyStr] (strings, [int],
    environment variables), [PySort] (stable sorting), [Floats] (binary64), [PyVal]
    (metadata values), [Bytes], [Torch] (slabs of rank 3 as the class [Slab]).

    The cache of a server:
    - [PagedKV]: server/paged_kv.py. Sequences own pages; writes are accepted or
      speculative. Every reachable table is well formed, what is written is read back,
      a rollback drops the speculation and nothing else.
    - [PrefixIndex]: server/prefix_index.py. An LRU index of token prefixes: its
      invariant, and that a lookup gives the longest indexed prefix.
    - [MemoryCache]: server/memory_cache.py. Handlers reserve tokens under two locks and
      the runtime follows by a pipe: conservation of tokens over all interleavings, on
      64-bit counters that wrap around and as long as they do not, the runtime's tables
      refine the handlers' log.
    - [KVCacheManager]: server/memory_cache_manager.py, its tables and the copy of a
      prefix; [PrefixHandoff]: the same copy as backend.py and handler.py ask for it,
      from the metadata of the step to the slabs; [Observation]: what the server reports
      of it (handler.py), and that a client can forge such a report.
    - [GpuStreams], [KVOffload], [SharedSlots]: the slab reads and writes of
      server/memory_cache_manager.py when micro-batches share working slots, with the
      transfers to host memory on CUDA streams: a read gives what was written, whatever
      the device does first.
    - [MixedCache]: the size and the layout of the cache of a session, on one device or
      with a part in host memory (handler.py, flexgen_utils/pytorch_backend.py): it
      implements a history of entries per sequence.

    The steps of a server:
    - [Handlers]: the sessions of server/handler.py over several processes and their
      event queues; delivery in order, and the routing tables. [StepIterator]: the
      generator of steps, equal to a filter on the history. [PushHandler]: rpc_push and
      the micro-batches, which follow a protocol of arrivals; [FlowControl]: server/s2s_flow.py, the limiter of pushes;
      [TaskPool]: server/task_pool.py.
    - [StepWire]: the requests of a step (client/inference_session.py), how a server reads
      them (server/block_functions.py) and the push to the next one (handler.py); a step
      that is pushed along a chain reaches each server as the client's would, on sessions
      opened by a step like it.
    - [Microbatch]: utils/microbatch_*.py and server/microbatch.py; ranges partition a
      batch and splitting then merging is the identity.
    - [ContinuousBatching]: mvp_capabilities/continuous_batching.py and
      client/live_continuous_batching.py; the live loop serves every request and the
      simulation refines it.

    The client:
    - [SwarmInfo], [Routing]: data_structures.py, utils/dht.py, client/routing/; spans of
      servers, routes whose delay, added up along them, is least, what a failure does and does not
      undo.
    - [BlockSelection]: server/block_selection.py in binary64 arithmetic: the blocks
      chosen are the worst served ones, and the rebalancing never raises.
    - [InferenceSession] (the code of client/inference_session.py) and [SessionRecovery]
      (its proofs): a step returns what the blocks compute on the whole history, whatever
      servers fail on the way, and with fewer failures than retries a generation ends.
    - [Autograd], [ChainRule]: client/sequential_autograd.py and the passes of
      server/block_functions.py; the gradient is the one of the chain rule.
    - [RemoteGeneration], [LateArrivals], [GenerateCall]: client/remote_generation.py, the
      greedy loops, the scheduler of rows that arrive late and the choice between them.
      [LiveSession] is the session's step with staged rows, [Decode] the ordinary
      inference step of server/backend.py that it runs on: every row continues its own
      prompt greedily, whatever the others do.

    Speculative generation:
    - [SpecTree], [SpecDecode]: models/llama/spe_dec_tree.py, spec_decoding_*.py; trees,
      linearisation, attention masks, verification of a path. [SpecDrafter]: the trees
      that the drafter grows, batch by batch.
    - [SpecCache]: the cache of a speculative step and its reorder; [SpecPrune]: the
      pruners of the last block, [SpecRestore]: the rows they keep on their way to the
      next server and the client.
    - [SpecVerify]: the rounds and the loop of models/llama/speculative_model.py;
      [SpecGenerate], [SpecRounds], [SpecPrompt]: the proofs that a round on the caches,
      the rounds, and a call from a prompt emit the greedy continuation of the target
      model; [SpecDrafted] with the trees of the drafter, [SpecPruned] with pruning.

    Weights, servers and plans:
    - [Quant], [ExpertQuant], [Experts], [ExpertStores]: utils/moe_expert_quant.py in the
      floating formats of torch; packing loses nothing and the pass over the experts
      counts every pick once.
    - [ServerLoop]: server/server.py, the blocks a server takes and what it announces,
      with its announcer's thread as a step relation.
    - [Decimal], [LayerPlan]: mvp_capabilities/layer_planner.py and chain_scheduler.py;
      the servers that a plan launches serve its layers without a gap.

    The wire: [LosslessTransport], utils/lossless_transport.py; unwrapping inverts
    wrapping, and no received bytes make the decoder exceed its bounds.

    ** How the code is rendered

    Methods are [M S A] computations: a state, and a value or an exception of [exn]; a
    raised exception keeps the state written before. Objects that the code shares live in
    a heap or store (trees, sessions, module infos). Processes and tasks are step
    relations whose steps are the stretches between two awaits, locks or queue operations;
    invariants are proved over their reflexive-transitive closure. Integers are [Z], as
    Python's; floats are [spec_float] with its rounding. Loops that are not structural
    carry fuel. The loops of [PagedKV], [ContinuousBatching], [SpecTree], [Routing],
    [InferenceSession], [Autograd] and [LayerPlan] have a lemma that the fuel given is
    enough ([OutOfFuel] is never returned). The generation loops end within a fuel that
    their theorems name: [max_new_tokens] rounds of speculation, and 2·B·max_new + 1
    passes over B rows that arrive late. The rebalancing simulation of [BlockSelection]
    has no bound in the code and its lemma holds for every fuel. The theorems on
    generation ask for the room that the caches need: for n prompt tokens, R rounds and
    trees of T nodes, n + R·(T + 1) + 2·T + 1 entries, and n + max_new - 1 without
    speculation.

    What is not in the repository is a class or a variable of a section, with its
    documented behaviour as laws where a theorem needs them, and a concrete instance on
    which the laws are proved and the witnesses evaluate: [Slab] and [Tensor] (torch),
    [TorchProb], [Codecs] (zstandard, zlib, ZipNN), the SHA-256 digests, [PeerIds] and
    [Blacklist] (hivemind), [PathFinder] (dijkstar's cheapest path), [RandomChoice] and the shuffle
    (numpy), [Swarm], [Remote] and [Routes] (remote servers and the manager seen from a
    session), [Backends] and [HiddenOps] (the blocks), clock readings, [repr] and
    [float] of a string; the target and the draft model, the pruner's head, the kernel of
    a linear layer, transformers' generator.

    ** Not modelled

    Tensor programs and their memory (the layers of models/, flexgen_utils/, tensor
    parallelism, caches on disk or compressed), for which torch has no definition here;
    the network, features and training of the learned pruner; what of server.py,
    handler.py and block_functions.py loads weights, serializes, logs or measures; cli/,
    hivemind's P2P and DHT; logs, timing reports and profilers; the scripts, benchmarks,
    dashboards and proof-status tools.
    PROJECT.json lists every part with its status. *)

From stdpp Require Import base gmap list strings numbers.
From Stdlib Require Import ZArith Lia.

Open Scope Z_scope.

(** ** Python exceptions, results, and state-with-exceptions *)

(** The exception classes the modelled code raises. [OutOfFuel] is not a Python
    exception: it is what a fuelled loop of the model returns when its fuel runs
    out; the header says for which fuel it is never the result. *)
Inductive exn :=
| PagedKVError | AllocationFailed | MissingBlocksError
| ValueError | KeyError | IndexError | RuntimeError | AssertionError
| TypeError | StructError | ZeroDivisionError | TorchError | QueueFull | Exception | OutOfFuel.

#[export] Instance exn_eq_dec : EqDecision exn.
Proof. solve_decision. Defined.

(** What a Python call returns: a value or a raised exception. *)
Inductive res (A : Type) :=
| Ok (a : A)
| Raise (e : exn).
Arguments Ok {A} a.
Arguments Raise {A} e.

#[export] Instance res_ret : MRet res := @Ok.
#[export] Instance res_bind : MBind res := λ A B f m,
  match m with Ok a => f a | Raise e => Raise e end.
#[export] Instance res_fmap : FMap res := λ A B f m,
  match m with Ok a => Ok (f a) | Raise e => Raise e end.
#[export] Instance res_throw : MThrow exn res := λ A e, Raise e.

Definition is_ok {A} (r : res A) : bool := match r with Ok _ => true | Raise _ => false end.

(** A method of a mutable object: the state it leaves and what it returns. A
    raised exception keeps the mutations made before it, as in Python. *)
Definition M (S A : Type) : Type := S → S * res A.

#[export] Instance M_ret S : MRet (M S) := λ A a s, (s, Ok a).
#[export] Instance M_bind S : MBind (M S) := λ A B f m s,
  match m s with
  | (s', Ok a) => f a s'
  | (s', Raise e) => (s', Raise e)
  end.
#[export] Instance M_throw S : MThrow exn (M S) := λ A e s, (s, Raise e).

Definition get {S} : M S S := λ s, (s, Ok s).
Definition put {S} (s : S) : M S unit := λ _, (s, Ok tt).
Definition modify {S} (f : S → S) : M S unit := λ s, (f s, Ok tt).
Definition lift {S A} (r : res A) : M S A := λ s, (s, r).
Definition of_option {A} (e : exn) (o : option A) : res A :=
  match o with Some a => Ok a | None => Raise e end.

(** [m] keeps the predicate [P] of the state, whatever it returns. *)
Definition preserves {S A} (P : S → Prop) (m : M S A) : Prop := ∀ s, P s → P (fst (m s)).

Lemma preserves_ret {S A} (P : S → Prop) (a : A) : preserves P (mret a : M S A).
Proof. intros s Hs. exact Hs. Qed.

Lemma preserves_throw {S A} (P : S → Prop) (e : exn) : preserves P (mthrow e : M S A).
Proof. intros s Hs. exact Hs. Qed.

Lemma preserves_bind {S A B} (P : S → Prop) (m : M S A) (f : A → M S B) :
  preserves P m → (∀ a, preserves P (f a)) → preserves P (m ≫= f).
Proof.
  intros Hm Hf s Hs. unfold mbind, M_bind. specialize (Hm s Hs).
  destruct (m s) as [s' [a|e]]; simpl in *; [by apply Hf|done].
Qed.

Lemma preserves_get {S} (P : S → Prop) : preserves P (@get S).
Proof. intros s Hs. exact Hs. Qed.

Lemma preserves_lift {S A} (P : S → Prop) (r : res A) : preserves P (lift r).
Proof. intros s Hs. exact Hs. Qed.

Lemma preserves_if {S A} (P : S → Prop) (b : bool) (m1 m2 : M S A) :
  preserves P m1 → preserves P m2 → preserves P (if b then m1 else m2).
Proof. by destruct b. Qed.

Create HintDb py discriminated.
#[export] Hint Resolve preserves_ret preserves_throw preserves_get preserves_lift : py.

(** ** Python lists *)

(** [l.pop()]: the last element and the rest, [None] on an empty list. *)
Fixpoint py_pop {A} (l : list A) : option (A * list A) :=
  match l with
  | [] => None
  | x :: l' =>
      match py_pop l' with
      | None => Some (x, [])
      | Some (y, l'') => Some (y, x :: l'')
      end
  end.

Definition zlen {A} (l : list A) : Z := Z.of_nat (length l).

(** [l[i]], a negative index counting from the end; [None] is IndexError. *)
Definition py_index {A} (l : list A) (i : Z) : option A :=
  if 0 <=? i then l !! Z.to_nat i
  else if 0 <=? zlen l + i then l !! Z.to_nat (zlen l + i) else None.

(** The bounds of a slice [l[a:b]] of a sequence of length [n]. *)
Definition slice_bound (n i : Z) : Z :=
  if i <? 0 then Z.max 0 (n + i) else Z.min i n.

Definition py_slice {A} (l : list A) (a b : Z) : list A :=
  let a' := slice_bound (zlen l) a in
  let b' := slice_bound (zlen l) b in
  take (Z.to_nat (b' - a')) (drop (Z.to_nat a') l).

(** [range(a, b)] *)
Definition py_range (a b : Z) : list Z := seqZ a (b - a).

Lemma exists_last_or_nil {A} (l : list A) : l = [] ∨ ∃ k y, l = k ++ [y].
Proof. induction l as [|y l _] using rev_ind; [by left|right; eauto]. Qed.

Lemma py_pop_snoc {A} (l : list A) x : py_pop (l ++ [x]) = Some (x, l).
Proof. induction l as [|y l IH]; simpl; [done|by rewrite IH]. Qed.

Lemma py_pop_Some {A} (l l' : list A) x : py_pop l = Some (x, l') ↔ l = l' ++ [x].
Proof.
  split; [|intros ->; apply py_pop_snoc].
  destruct (exists_last_or_nil l) as [->|(k & y & ->)]; [done|].
  rewrite py_pop_snoc. by intros [= -> ->].
Qed.

Lemma py_pop_None {A} (l : list A) : py_pop l = None ↔ l = [].
Proof.
  split; [|by intros ->]. destruct l as [|x l]; [done|]. simpl.
  by destruct (py_pop l) as [[]|].
Qed.

Lemma py_index_nonneg {A} (l : list A) i : 0 ≤ i → py_index l i = l !! Z.to_nat i.
Proof. intros. unfold py_index. by rewrite (proj2 (Z.leb_le 0 i)). Qed.

Lemma zlen_nonneg {A} (l : list A) : 0 ≤ zlen l.
Proof. unfold zlen. lia. Qed.

Lemma zlen_app {A} (l1 l2 : list A) : zlen (l1 ++ l2) = zlen l1 + zlen l2.
Proof. unfold zlen. rewrite length_app. lia. Qed.

Lemma zlen_cons {A} (x : A) l : zlen (x :: l) = 1 + zlen l.
Proof. unfold zlen. simpl. lia. Qed.

Lemma py_slice_nonneg {A} (l : list A) a b :
  0 ≤ a ≤ b → b ≤ zlen l → py_slice l a b = take (Z.to_nat (b - a)) (drop (Z.to_nat a) l).
Proof.
  intros Ha Hb. unfold py_slice, slice_bound.
  rewrite !(proj2 (Z.ltb_ge _ 0)) by lia. by rewrite !Z.min_l by lia.
Qed.

#[export] Hint Resolve zlen_nonneg : py.
Create Rewrite HintDb py_len.
#[export] Hint Rewrite @zlen_app @zlen_cons : py_len.

(** ** Running methods *)

Section monad.
Context {S A B : Type}.
Implicit Types (m : M S A) (f : A → M S B) (s : S).

Lemma bind_ok m f s s' a : m s = (s', Ok a) → (m ≫= f) s = f a s'.
Proof. intros E. unfold mbind, M_bind. by rewrite E. Qed.

Lemma bind_raise m f s s' e : m s = (s', Raise e) → (m ≫= f) s = (s', Raise e).
Proof. intros E. unfold mbind, M_bind. by rewrite E. Qed.

Lemma bind_inv_ok m f s s' b :
  (m ≫= f) s = (s', Ok b) → ∃ s1 a, m s = (s1, Ok a) ∧ f a s1 = (s', Ok b).
Proof. unfold mbind, M_bind. destruct (m s) as [s1 [a|e]]; [eauto|done]. Qed.

Lemma bind_inv_raise m f s s' e :
  (m ≫= f) s = (s', Raise e) →
  m s = (s', Raise e) ∨ ∃ s1 a, m s = (s1, Ok a) ∧ f a s1 = (s', Raise e).
Proof. unfold mbind, M_bind. destruct (m s) as [s1 [a|e']]; [eauto|]. intros [= -> ->]. by left. Qed.
End monad.

Lemma get_bind {S B} (f : S → M S B) s : (get ≫= f) s = f s s.
Proof. done. Qed.

Lemma put_bind {S B} (s' : S) (f : unit → M S B) s : (put s' ≫= f) s = f tt s'.
Proof. done. Qed.

Lemma modify_bind {S B} (g : S → S) (f : unit → M S B) s : (modify g ≫= f) s = f tt (g s).
Proof. done. Qed.

Lemma lift_ok_bind {S A B} (a : A) (f : A → M S B) s : (lift (Ok a) ≫= f) s = f a s.
Proof. done. Qed.

(** Run the leading primitive of a method whose outcome is known. *)
Ltac py_step :=
  first
    [ rewrite get_bind | rewrite put_bind | rewrite modify_bind | rewrite lift_ok_bind
    | match goal with E : ?m ?s = (_, Ok _) |- context [(?m ≫= _) ?s] => rewrite (bind_ok _ _ _ _ _ E) end
    | match goal with E : ?m ?s = (_, Raise _) |- context [(?m ≫= _) ?s] => rewrite (bind_raise _ _ _ _ _ E) end ].

(** Invert a successful run of a sequence of calls. *)
Ltac py_inv :=
  repeat match goal with
  | E : (get ≫= _) _ = _ |- _ => rewrite get_bind in E
  | E : (put _ ≫= _) _ = _ |- _ => rewrite put_bind in E
  | E : (modify _ ≫= _) _ = _ |- _ => rewrite modify_bind in E
  | E : (_ ≫= _) _ = (_, Ok _) |- _ => apply bind_inv_ok in E as (? & ? & ? & E)
  | E : lift _ _ = (_, Ok _) |- _ => unfold lift in E; injection E as ? ?; subst
  end.

(** Python's [assert] and guard clauses. *)
Definition guard_py {S} (b : bool) (e : exn) : M S unit := if b then mret tt else mthrow e.

Lemma of_option_Ok {A} e (o : option A) a : of_option e o = Ok a ↔ o = Some a.
Proof. by destruct o; simpl; naive_solver. Qed.

(** Quotient and remainder determine each other. *)
Lemma divmod_inj b q1 q2 r1 r2 :
  0 ≤ r1 < b → 0 ≤ r2 < b → q1 * b + r1 = q2 * b + r2 → q1 = q2 ∧ r1 = r2.
Proof.
  intros H1 H2 E. assert (q1 = q2) as ->; [|lia].
  rewrite (Z.div_unique (q1 * b + r1) b q1 r1), (Z.div_unique (q2 * b + r2) b q2 r2) by lia.
  by rewrite E.
Qed.

(** A comprehension that calls a fallible function on each element. *)
Lemma mapM_total {A B} (f : A → res B) (l : list A) :
  (∀ x, x ∈ l → ∃ y, f x = Ok y) → ∃ ys, mapM f l = Ok ys ∧ Forall2 (λ x y, f x = Ok y) l ys.
Proof.
  induction l as [|x l IH]; intros Hf; [by exists []|].
  destruct (Hf x) as [y Hy]; [by left|]. destruct IH as (ys & Hys & HF); [intros; apply Hf; by right|].
  exists (y :: ys). split; [|by constructor]. simpl. rewrite Hy. simpl. rewrite Hys. done.
Qed.

Lemma mapM_res_length {A B} (f : A → res B) l k : mapM f l = Ok k → length k = length l.
Proof.
  revert k. induction l as [|x l IH]; intros k; [by intros [= <-]|]. cbn.
  destruct (f x) as [y|]; [|done]. cbn. destruct (mapM f l) as [k'|]; [|done]. cbn.
  intros [= <-]. cbn. f_equal. by apply IH.
Qed.

Lemma mapM_Ok {A B} (f : A → res B) (g : A → B) (l : list A) :
  (∀ x, x ∈ l → f x = Ok (g x)) → mapM f l = Ok (g <$> l).
Proof.
  induction l as [|x l IH]; intros Hf; [done|]. simpl. rewrite Hf by (by left). simpl.
  rewrite IH; [done|]. intros; apply Hf; by right.
Qed.

Lemma Forall2_impl_in {A B} (P Q : A → B → Prop) l k :
  Forall2 P l k → (∀ x y, x ∈ l → y ∈ k → P x y → Q x y) → Forall2 Q l k.
Proof.
  induction 1 as [|x y l k Hxy HF IH]; intros HPQ; constructor.
  - apply HPQ; [by left|by left|done].
  - apply IH. intros x' y' Hx' Hy'. apply HPQ; by right.
Qed.

Lemma filter_keep {A} (P : A → Prop) `{∀ x, Decision (P x)} (l : list A) : Forall P l → filter P l = l.
Proof. induction 1 as [|x l Hx _ IH]; [done|]. rewrite filter_cons_True by done. by rewrite IH. Qed.

Lemma filter_empty {A} (P : A → Prop) `{∀ x, Decision (P x)} (l : list A) : Forall (λ x, ¬ P x) l → filter P l = [].
Proof. induction 1 as [|x l Hx _ IH]; [done|]. by rewrite filter_cons_False. Qed.

(** The greatest of a list and a start value. *)
Lemma foldl_max_ge (l : list Z) (a : Z) :
  a ≤ foldl Z.max a l ∧ (∀ x, x ∈ l → x ≤ foldl Z.max a l) ∧ foldl Z.max a l ∈ a :: l.
Proof.
  revert a. induction l as [|y l IH]; intros a; cbn.
  - split; [lia|]. split; [intros x Hx; by apply not_elem_of_nil in Hx|by left].
  - destruct (IH (Z.max a y)) as (H1 & H2 & H3). split; [lia|]. split.
    + intros x [->|Hx]%elem_of_cons; [lia|by apply H2].
    + apply elem_of_cons in H3 as [->|H3]; [|by right; right].
      destruct (Z.max_spec a y) as [[_ ->]|[_ ->]]; [right; by left|by left].
Qed.

(** A comprehension over the indices of a list. *)
Lemma mapM_seq_Ok {A} (f : nat → res A) (l : list A) (n : nat) : length l = n →
  (∀ k x, l !! k = Some x → f k = Ok x) → mapM f (seq 0 n) = Ok l.
Proof.
  intros <-. change (∀ k x, l !! k = Some x → f k = Ok x) with (∀ k x, l !! k = Some x → f (0 + k)%nat = Ok x).
  generalize 0%nat. induction l as [|y l IH]; intros i Hf; [done|]. cbn [length seq mapM].
  pose proof (Hf 0%nat y eq_refl) as Hy. rewrite Nat.add_0_r in Hy. rewrite Hy. cbn [mbind res_bind].
  rewrite IH; [done|]. intros k x Hk. rewrite Nat.add_succ_l, <- Nat.add_succ_r. by apply Hf.
Qed.
