(* ===== verification/Dict.v ===== *)
(** * Insertion-ordered dictionaries

    Python's [dict] and [collections.OrderedDict] as association lists in
    insertion order: assigning to a present key keeps its place, a new key goes
    last. The order is observable wherever the code iterates over keys or values,
    or evicts the oldest entry, so it is part of the model. *)

From stdpp Require Import base list sorting.
From Stdlib Require Import ZArith Lia.
From S2P Require Import Prelude.

Definition dict (K V : Type) : Type := list (K * V).

Section dict.
Context {K V : Type} `{EqDecision K}.
Implicit Types (d : dict K V) (k : K) (v : V).

(** [d.get(k)] *)
Fixpoint dict_get d k : option V :=
  match d with
  | [] => None
  | (k', v) :: d' => if decide (k' = k) then Some v else dict_get d' k
  end.

(** [k in d] *)
Definition dict_mem d k : bool := match dict_get d k with Some _ => true | None => false end.

(** [d[k] = v] *)
Fixpoint dict_set d k v : dict K V :=
  match d with
  | [] => [(k, v)]
  | (k', v') :: d' => if decide (k' = k) then (k, v) :: d' else (k', v') :: dict_set d' k v
  end.

(** [d.pop(k, None)], the dictionary it leaves *)
Fixpoint dict_del d k : dict K V :=
  match d with
  | [] => []
  | (k', v) :: d' => if decide (k' = k) then d' else (k', v) :: dict_del d' k
  end.

Definition dict_keys d : list K := d.*1.
Definition dict_values d : list V := d.*2.

(** [d.update(d')] *)
Definition dict_update d (d' : dict K V) : dict K V :=
  fold_left (λ acc kv, dict_set acc kv.1 kv.2) d' d.

(** A value built by Python code never holds a key twice. *)
Definition dict_wf d : Prop := NoDup (dict_keys d).

Lemma dict_get_set_eq d k v : dict_get (dict_set d k v) k = Some v.
Proof.
  induction d as [|[k' v'] d IH]; simpl; [by rewrite decide_True|].
  case_decide; simpl; [by rewrite decide_True|by rewrite decide_False].
Qed.

Lemma dict_get_set_ne d k k' v : k ≠ k' → dict_get (dict_set d k v) k' = dict_get d k'.
Proof.
  intros Hne. induction d as [|[j w] d IH]; simpl; [by rewrite decide_False|].
  case_decide; subst; simpl; [by rewrite !decide_False|]. by case_decide.
Qed.

Lemma dict_get_set d k k' v :
  dict_get (dict_set d k v) k' = if decide (k = k') then Some v else dict_get d k'.
Proof. case_decide; subst; [apply dict_get_set_eq|by apply dict_get_set_ne]. Qed.

Lemma dict_get_del_ne d k k' : k ≠ k' → dict_get (dict_del d k) k' = dict_get d k'.
Proof.
  intros Hne. induction d as [|[j w] d IH]; simpl; [done|].
  repeat (case_decide; subst; simpl); congruence.
Qed.

Lemma dict_get_None d k : dict_get d k = None ↔ k ∉ dict_keys d.
Proof.
  induction d as [|[j w] d IH]; simpl; [split; [intros _; apply not_elem_of_nil|done]|].
  rewrite not_elem_of_cons. case_decide; naive_solver.
Qed.

Lemma dict_get_del_eq d k : dict_wf d → dict_get (dict_del d k) k = None.
Proof.
  unfold dict_wf. induction d as [|[j w] d IH]; simpl; [done|].
  rewrite NoDup_cons. intros [Hj Hd]. case_decide; subst; simpl.
  - by apply dict_get_None.
  - rewrite decide_False by done. by apply IH.
Qed.

Lemma dict_get_Some_split d k v :
  dict_get d k = Some v → ∃ d1 d2, d = d1 ++ (k, v) :: d2 ∧ k ∉ dict_keys d1.
Proof.
  induction d as [|[j w] d IH]; simpl; [done|]. case_decide; subst.
  - intros [= ->]. exists [], d. split; [done|apply not_elem_of_nil].
  - intros (d1 & d2 & -> & Hk)%IH. exists ((j, w) :: d1), d2. split; [done|].
    unfold dict_keys in *. simpl. apply not_elem_of_cons. naive_solver.
Qed.

Lemma dict_set_split d1 d2 k v w :
  k ∉ dict_keys d1 → dict_set (d1 ++ (k, v) :: d2) k w = d1 ++ (k, w) :: d2.
Proof.
  induction d1 as [|[j u] d1 IH]; simpl; [by rewrite decide_True|].
  rewrite not_elem_of_cons. intros [? ?]. rewrite decide_False by done. by rewrite IH.
Qed.

Lemma dict_del_split d1 d2 k v :
  k ∉ dict_keys d1 → dict_del (d1 ++ (k, v) :: d2) k = d1 ++ d2.
Proof.
  induction d1 as [|[j u] d1 IH]; simpl; [by rewrite decide_True|].
  rewrite not_elem_of_cons. intros [? ?]. rewrite decide_False by done. by rewrite IH.
Qed.

Lemma dict_set_new d k v : dict_get d k = None → dict_set d k v = d ++ [(k, v)].
Proof. induction d as [|[j u] d IH]; simpl; [done|]. case_decide; [done|]. intros; by rewrite IH. Qed.

Lemma dict_del_notin d k : dict_get d k = None → dict_del d k = d.
Proof. induction d as [|[j u] d IH]; simpl; [done|]. case_decide; [done|]. intros; by rewrite IH. Qed.

Lemma dict_keys_set d k v :
  dict_keys (dict_set d k v) = if dict_mem d k then dict_keys d else dict_keys d ++ [k].
Proof.
  unfold dict_mem. destruct (dict_get d k) as [w|] eqn:E.
  - apply dict_get_Some_split in E as (d1 & d2 & -> & Hk).
    rewrite dict_set_split by done. unfold dict_keys. by rewrite !fmap_app.
  - rewrite dict_set_new by done. unfold dict_keys. by rewrite fmap_app.
Qed.

Lemma dict_set_wf d k v : dict_wf d → dict_wf (dict_set d k v).
Proof.
  unfold dict_wf. rewrite dict_keys_set. unfold dict_mem. destruct (dict_get d k) eqn:E; [done|].
  intros Hd. apply NoDup_app. split; [done|]. split; [|apply NoDup_singleton].
  intros x Hx Hxk. apply list_elem_of_singleton in Hxk as ->. by apply dict_get_None in E.
Qed.

Lemma dict_del_sublist d k : dict_del d k `sublist_of` d.
Proof.
  induction d as [|[j u] d IH]; simpl; [done|].
  case_decide; [by apply sublist_cons|by apply sublist_skip].
Qed.

Lemma dict_keys_del_sublist d k : dict_keys (dict_del d k) `sublist_of` dict_keys d.
Proof.
  unfold dict_keys. induction d as [|[j u] d IH]; simpl; [done|].
  case_decide; [by apply sublist_cons|by apply sublist_skip].
Qed.

Lemma dict_del_wf d k : dict_wf d → dict_wf (dict_del d k).
Proof. intros Hd. eapply sublist_NoDup; [apply Hd|apply dict_keys_del_sublist]. Qed.

Lemma dict_wf_nil : dict_wf [].
Proof. apply NoDup_nil_2. Qed.

(** Entries of a dictionary are the pairs [dict_get] finds. *)
Lemma dict_get_elem d k v : dict_wf d → (k, v) ∈ d → dict_get d k = Some v.
Proof.
  unfold dict_wf. induction d as [|[j w] d IH]; simpl; [by intros _ ?%not_elem_of_nil|].
  rewrite NoDup_cons, elem_of_cons. intros [Hj Hd] [[= -> ->]|Hin].
  - by rewrite decide_True.
  - rewrite decide_False; [by apply IH|]. intros ->. apply Hj.
    unfold dict_keys. apply list_elem_of_fmap. by exists (k, v).
Qed.

Lemma dict_elem_get d k v : dict_get d k = Some v → (k, v) ∈ d.
Proof.
  intros (d1 & d2 & -> & _)%dict_get_Some_split. apply elem_of_app. right. left.
Qed.

(** Setting or deleting an entry of a list of sums, for any value measure. *)
Lemma dict_sum_set_new (f : V → Z) d k v :
  dict_get d k = None →
  foldr (λ kv a, f kv.2 + a)%Z 0%Z (dict_set d k v) =
    (foldr (λ kv a, f kv.2 + a)%Z 0%Z d + f v)%Z.
Proof.
  intros Hk. rewrite dict_set_new by done. clear Hk.
  induction d as [|[j w] d IH]; simpl; [lia|]. rewrite IH. lia.
Qed.

Lemma dict_sum_del (f : V → Z) d k v :
  dict_get d k = Some v →
  foldr (λ kv a, f kv.2 + a)%Z 0%Z (dict_del d k) =
    (foldr (λ kv a, f kv.2 + a)%Z 0%Z d - f v)%Z.
Proof.
  induction d as [|[j w] d IH]; simpl; [done|]. case_decide; simpl.
  - intros [= ->]. lia.
  - intros Hk. rewrite IH by done. lia.
Qed.
Lemma Forall_dict_set (P : K * V → Prop) d k v :
  Forall P d → P (k, v) → Forall P (dict_set d k v).
Proof.
  intros Hd Hv. induction Hd as [|[j w] d Hj Hd IH]; simpl; [by repeat constructor|].
  case_decide; by repeat constructor.
Qed.

Lemma Forall_dict_get (P : K * V → Prop) d k v :
  Forall P d → dict_get d k = Some v → P (k, v).
Proof. intros Hd Hk. eapply list.Forall_forall; [done|]. by apply dict_elem_get. Qed.

Lemma Forall_dict_del (P : K * V → Prop) d k : Forall P d → Forall P (dict_del d k).
Proof. induction 1 as [|[j w] d Hj Hd IH]; simpl; [done|]. case_decide; by repeat constructor. Qed.

Lemma dict_get_del_Some d k k' v : dict_wf d → dict_get (dict_del d k) k' = Some v →
  k ≠ k' ∧ dict_get d k' = Some v.
Proof.
  intros Hd Hv. destruct (decide (k = k')) as [->|Hne]; [by rewrite dict_get_del_eq in Hv|].
  by rewrite dict_get_del_ne in Hv.
Qed.

Lemma dict_get_app d1 d2 k :
  dict_get (d1 ++ d2) k = match dict_get d1 k with Some v => Some v | None => dict_get d2 k end.
Proof. induction d1 as [|[j w] d1 IH]; simpl; [done|]. by case_decide. Qed.

Lemma dict_keys_app d1 d2 : dict_keys (d1 ++ d2) = dict_keys d1 ++ dict_keys d2.
Proof. unfold dict_keys. by rewrite fmap_app. Qed.

Lemma dict_wf_app_r d1 d2 : dict_wf (d1 ++ d2) → dict_wf d2.
Proof. unfold dict_wf. rewrite dict_keys_app. by intros (_ & _ & ?)%NoDup_app. Qed.

Lemma dict_update_new d (kvs : dict K V) :
  NoDup (dict_keys d ++ dict_keys kvs) → dict_update d kvs = d ++ kvs.
Proof.
  unfold dict_update. revert d. induction kvs as [|[k v] kvs IH]; intros d Hnd; simpl; [by rewrite app_nil_r|].
  rewrite dict_set_new.
  - rewrite IH; [by rewrite <- (assoc_L (++))|].
    rewrite dict_keys_app, <- (assoc_L (++)). done.
  - apply dict_get_None. intros Hin. apply NoDup_app in Hnd as (_ & Hd & _). apply (Hd k Hin). by left.
Qed.

(** A dictionary comprehension over distinct keys. *)
Lemma dict_update_nil (kvs : dict K V) : dict_wf kvs → dict_update [] kvs = kvs.
Proof. intros Hnd. by rewrite dict_update_new. Qed.
End dict.

#[export] Hint Resolve dict_set_wf dict_del_wf dict_wf_nil : py.
