(* ===== verification/PyStr.v ===== *)
(** * Python strings and environment variables

    What the configuration code uses of [str], [int] and [os.environ]: stripping,
    lower-casing and parsing of ASCII strings, and the environment as a function
    from names to optional values. *)

From stdpp Require Import numbers base strings list.
From Stdlib Require Import ZArith Ascii Lia.
From S2P Require Import Prelude.

(** [os.environ] *)
Definition environ : Type := string → option string.

(** [os.environ.get(name, default)] *)
Definition env_get (env : environ) (name dflt : string) : string := default dflt (env name).

Definition is_space (c : ascii) : bool :=
  let n := nat_of_ascii c in ((9 <=? n) && (n <=? 13) || (28 <=? n) && (n <=? 32))%nat.

Definition lower_ascii (c : ascii) : ascii :=
  let n := nat_of_ascii c in if ((65 <=? n) && (n <=? 90))%nat then ascii_of_nat (n + 32) else c.

Fixpoint drop_spaces (l : list ascii) : list ascii :=
  match l with
  | c :: l' => if is_space c then drop_spaces l' else l
  | [] => []
  end.

Definition strip_chars (l : list ascii) : list ascii := reverse (drop_spaces (reverse (drop_spaces l))).

(** [s.strip()] and [s.lower()] *)
Definition py_strip (s : string) : string :=
  String.string_of_list_ascii (strip_chars (String.list_ascii_of_string s)).
Definition py_lower (s : string) : string :=
  String.string_of_list_ascii (lower_ascii <$> String.list_ascii_of_string s).

Definition digit_val (c : ascii) : option Z :=
  let n := nat_of_ascii c in if ((48 <=? n) && (n <=? 57))%nat then Some (Z.of_nat n - 48) else None.

(** Digits, single underscores allowed between two of them. *)
Fixpoint parse_digits (acc : Z) (after_digit : bool) (l : list ascii) : option Z :=
  match l with
  | [] => if after_digit then Some acc else None
  | c :: l' =>
      match digit_val c with
      | Some d => parse_digits (10 * acc + d) true l'
      | None => if Ascii.eqb c "_" && after_digit then parse_digits acc false l' else None
      end
  end.

(** [int(s)] of an ASCII string, [None] for ValueError. *)
Definition py_int (s : string) : option Z :=
  match strip_chars (String.list_ascii_of_string s) with
  | "-"%char :: l => Z.opp <$> parse_digits 0 false l
  | "+"%char :: l => parse_digits 0 false l
  | l => parse_digits 0 false l
  end.

Lemma parse_digits_nonneg acc b l n : 0 ≤ acc → parse_digits acc b l = Some n → 0 ≤ n.
Proof.
  revert acc b. induction l as [|c l IH]; intros acc b Hacc; simpl; [destruct b; by intros [= <-] || done|].
  destruct (digit_val c) as [d|] eqn:E.
  - apply IH. unfold digit_val in E. destruct (_ && _) eqn:Hr; [|done]. injection E as <-.
    apply andb_true_iff in Hr as [Hr _]. apply Nat.leb_le in Hr. lia.
  - case_match; [by apply IH|done].
Qed.

Example py_int_ex : py_int " -1_024 " = Some (-1024) ∧ py_int "1__0" = None ∧ py_int "" = None ∧ py_int "+7" = Some 7.
Proof. repeat split. Qed.

(** [s.split(c)] for a separator of one character. *)
Fixpoint split_chars (c : ascii) (cur l : list ascii) : list (list ascii) :=
  match l with
  | [] => [reverse cur]
  | x :: l' => if Ascii.eqb x c then reverse cur :: split_chars c [] l' else split_chars c (x :: cur) l'
  end.
Definition py_split (c : ascii) (s : string) : list string :=
  String.string_of_list_ascii <$> split_chars c [] (String.list_ascii_of_string s).

(** [[item.strip().lower() for item in s.split(",") if item.strip()]] *)
Definition split_items (s : string) : list string :=
  filter (λ i, i ≠ ""%string) (py_strip <$> py_split "," s).

Example py_split_ex : py_split ":" "a::b" = ["a"; ""; "b"]%string ∧ split_items " x, ,y " = ["x"; "y"]%string.
Proof. split; reflexivity. Qed.
