(* ===== verification/PySort.v ===== *)
(** * Stable sorting

    [sorted(l, key=key)] and [l.sort(key=key, reverse=True)]: Python's sort is stable,
    also with [reverse=True], and on keys ordered by a strict weak order every stable
    sort gives the same list; this one inserts from the right. *)

From Stdlib Require Sorting.Sorted.
From stdpp Require Import numbers base list.
From Stdlib Require Import ZArith Lia.
From S2P Require Import Prelude.

Section sort_by.
Context {A : Type} (before : A → A → bool).

Fixpoint insert_by (x : A) (l : list A) : list A :=
  match l with
  | [] => [x]
  | y :: l' => if before y x then y :: insert_by x l' else x :: l
  end.
Definition sort_by (l : list A) : list A := foldr insert_by [] l.

Lemma insert_by_perm x l : insert_by x l ≡ₚ x :: l.
Proof.
  induction l as [|y l IH]; simpl; [done|]. destruct (before y x); [|done].
  rewrite IH. apply perm_swap.
Qed.

Lemma sort_by_perm l : sort_by l ≡ₚ l.
Proof. induction l as [|x l IH]; simpl; [done|]. by rewrite insert_by_perm, IH. Qed.

(** No element comes before an element it should follow. *)
Definition in_order : list A → Prop := Sorting.Sorted.StronglySorted (λ x y, before y x = false).

(** [before] is a strict weak order on the elements that satisfy [dom]. *)
Definition weak_order (dom : A → Prop) : Prop :=
  (∀ x y, dom x → dom y → before x y = true → before y x = false) ∧
  ∀ x y z, dom x → dom y → dom z → before y x = false → before z y = false → before z x = false.

Context (dom : A → Prop) (Hord : weak_order dom).

Lemma insert_by_sorted x l : Forall dom (x :: l) → in_order l → in_order (insert_by x l).
Proof.
  unfold in_order. intros [Hx Hl]%Forall_cons. induction l as [|y l IH]; intros Hs; simpl; [by repeat constructor|].
  apply Forall_cons in Hl as [Hy Hl]. apply Sorting.Sorted.StronglySorted_inv in Hs as [Hs Hf].
  rewrite list.Forall_forall in Hf, Hl. destruct Hord as [Hasym Htrans].
  destruct (before y x) eqn:E.
  - constructor; [apply IH; [by rewrite list.Forall_forall|done]|]. apply list.Forall_forall. intros z Hz.
    rewrite insert_by_perm, elem_of_cons in Hz. destruct Hz as [->|Hz]; [by apply Hasym|by apply Hf].
  - constructor; [constructor; [done|by rewrite list.Forall_forall]|]. constructor; [done|].
    apply list.Forall_forall. intros z Hz. eapply (Htrans x y z); auto.
Qed.

Lemma sort_by_sorted l : Forall dom l → in_order (sort_by l).
Proof.
  induction 1 as [|x l Hx Hl IH]; simpl; [constructor|]. apply insert_by_sorted; [|done].
  constructor; [done|]. by rewrite sort_by_perm.
Qed.

(** Elements of a class in which none comes before another keep their order. *)
Definition tied (f : A → bool) : Prop :=
  ∀ x y, dom x → dom y → f x = true → f y = true → before x y = false.

Lemma insert_by_stable (f : A → bool) x l : tied f → Forall dom (x :: l) →
  filter (λ y, f y = true) (insert_by x l) = filter (λ y, f y = true) (x :: l).
Proof.
  intros Hf [Hx Hl]%Forall_cons.
  induction l as [|y l IH]; cbn [insert_by]; [done|].
  apply Forall_cons in Hl as [Hy Hl]. destruct (before y x) eqn:E; [|done].
  rewrite filter_cons, IH, !filter_cons by done.
  destruct (decide (f x = true)) as [Hfx|]; [|done].
  destruct (decide (f y = true)) as [Hfy|]; [|done]. exfalso.
  by rewrite (Hf y x) in E.
Qed.

Lemma sort_by_stable (f : A → bool) l : tied f → Forall dom l →
  filter (λ y, f y = true) (sort_by l) = filter (λ y, f y = true) l.
Proof.
  intros Hf. induction 1 as [|x l Hx Hl IH]; [done|]. cbn [sort_by foldr]. fold (sort_by l).
  rewrite insert_by_stable; [|done|constructor; [done|by rewrite sort_by_perm]].
  by rewrite !filter_cons, IH.
Qed.
End sort_by.
