(* ===== verification/Floats.v ===== *)
(** * Python floats

    IEEE binary64 numbers as the Standard Library's [spec_float], with its correctly
    rounded arithmetic. On numbers (not NaN) [<=] is a total preorder and [-x] reverses
    it; sorting by a float key is stable. *)

From Stdlib Require Sorting.Sorted.
From stdpp Require Import numbers base list.
From Stdlib Require Import ZArith Lia SpecFloat.
From S2P Require Import Prelude PySort.

Definition float : Type := spec_float.
Definition float_one : float := S754_finite false 4503599627370496 (-52).

Definition fltb : float → float → bool := SFltb.
Definition fleb : float → float → bool := SFleb.
Definition fopp : float → float := SFopp.

Definition fadd : float → float → float := SFadd 53 1024.
Definition fsub : float → float → float := SFsub 53 1024.
Definition fmul : float → float → float := SFmul 53 1024.
(** numpy's division: by zero it gives an infinity or NaN. *)
Definition fdiv : float → float → float := SFdiv 53 1024.
Definition is_zero (x : float) : bool := match x with S754_zero _ => true | _ => false end.
(** [x / y] of Python floats *)
Definition py_div (x y : float) : res float := if is_zero y then Raise ZeroDivisionError else Ok (fdiv x y).
(** [min(x, y)] of Python floats *)
Definition fmin (x y : float) : float := if fltb y x then y else x.
Definition float_inf : float := S754_infinity false.

(** [float(n)] *)
Definition float_of_Z (n : Z) : float := binary_normalize 53 1024 n 0 false.

Definition is_num (x : float) : bool := match x with S754_nan => false | _ => true end.

(** Numbers compare lexicographically by class, signed exponent and signed mantissa. *)
Definition fkey (x : float) : Z * Z * Z :=
  match x with
  | S754_infinity s => (if s then -2 else 2, 0, 0)
  | S754_zero _ | S754_nan => (0, 0, 0)
  | S754_finite s m e => if s then (-1, - e, - Zpos m) else (1, e, Zpos m)
  end.

Definition key_le (a b : Z * Z * Z) : Prop :=
  a.1.1 < b.1.1 ∨ (a.1.1 = b.1.1 ∧ (a.1.2 < b.1.2 ∨ (a.1.2 = b.1.2 ∧ a.2 ≤ b.2))).

Lemma fleb_key x y : is_num x = true → is_num y = true → fleb x y = true ↔ key_le (fkey x) (fkey y).
Proof.
  unfold fleb, SFleb, key_le. destruct x as [sx|sx| |sx mx ex], y as [sy|sy| |sy my ey]; try done; intros _ _; simpl;
    try (destruct sx); try (destruct sy); simpl; try (split; [try lia; try done|try lia; try done]; fail);
    change (Pos.compare_cont Eq mx my) with (Pos.compare mx my);
    destruct (Z.compare_spec ex ey); simpl; try (destruct (Pos.compare_spec mx my); simpl); subst;
    (split; [intros; try done; try lia|intros; try done; lia]).
Qed.

Lemma fltb_fleb x y : is_num x = true → is_num y = true → fltb x y = negb (fleb y x).
Proof.
  intros Hx Hy. apply eq_true_iff_eq. rewrite negb_true_iff.
  rewrite <- not_true_iff_false, (fleb_key y x Hy Hx). unfold fltb, SFltb, key_le.
  destruct x as [sx|sx| |sx mx ex], y as [sy|sy| |sy my ey]; try done; simpl;
    try (destruct sx); try (destruct sy); simpl; try (split; [try lia; try done|try lia; try done]; fail);
    change (Pos.compare_cont Eq mx my) with (Pos.compare mx my);
    destruct (Z.compare_spec ex ey); simpl; try (destruct (Pos.compare_spec mx my); simpl); subst;
    (split; [intros; try done; try lia|intros; try done; lia]).
Qed.

Lemma fleb_refl x : is_num x = true → fleb x x = true.
Proof. intros Hx. apply fleb_key; [done..|]. unfold key_le. lia. Qed.

Lemma fleb_trans x y z : is_num x = true → is_num y = true → is_num z = true →
  fleb x y = true → fleb y z = true → fleb x z = true.
Proof. intros Hx Hy Hz. rewrite !fleb_key by done. unfold key_le. lia. Qed.

Lemma fleb_total x y : is_num x = true → is_num y = true → fleb x y = true ∨ fleb y x = true.
Proof. intros Hx Hy. rewrite !fleb_key by done. unfold key_le. lia. Qed.

Lemma is_num_opp x : is_num (fopp x) = is_num x.
Proof. by destruct x. Qed.

Lemma fleb_opp x y : is_num x = true → is_num y = true → fleb (fopp x) (fopp y) = fleb y x.
Proof.
  intros Hx Hy. apply eq_true_iff_eq. rewrite !fleb_key by (by rewrite ?is_num_opp).
  assert (∀ u, fkey (fopp u) = (- (fkey u).1.1, - (fkey u).1.2, - (fkey u).2)) as Hk.
  { intros [[]|[]| |[] m e]; simpl; try done; repeat f_equal; lia. }
  rewrite !Hk. unfold key_le. simpl. lia.
Qed.

(** ** Sorting by a float key

    [sorted(l, key=key)], on keys that are numbers. *)
Section sort.
Context {A : Type} (key : A → float).

Definition py_sorted (l : list A) : list A := sort_by (λ x y, fltb (key x) (key y)) l.

Lemma key_weak_order :
  weak_order (λ x y, fltb (key x) (key y)) (λ x, is_num (key x) = true).
Proof.
  split.
  - intros x y Hx Hy. rewrite !fltb_fleb, negb_true_iff, negb_false_iff by done. intros E.
    destruct (fleb_total (key x) (key y)) as [?|?]; [done|done|done|congruence].
  - intros x y z Hx Hy Hz. rewrite !fltb_fleb, !negb_false_iff by done. by apply fleb_trans.
Qed.

Lemma py_sorted_perm l : py_sorted l ≡ₚ l.
Proof. apply sort_by_perm. Qed.

Definition key_sorted : list A → Prop := Sorting.Sorted.StronglySorted (λ x y, fleb (key x) (key y) = true).

Lemma py_sorted_sorted l : Forall (λ y, is_num (key y) = true) l → key_sorted (py_sorted l).
Proof.
  intros Hl. pose proof (sort_by_sorted _ _ key_weak_order l Hl) as Hs. unfold key_sorted, py_sorted, in_order in *.
  rewrite <- (sort_by_perm (λ x y, fltb (key x) (key y))) in Hl.
  induction Hs as [|x k Hs IH Hf]; [constructor|]. apply Forall_cons in Hl as [Hx Hl].
  constructor; [by apply IH|]. rewrite list.Forall_forall in Hf, Hl |- *. intros y Hy.
  specialize (Hf y Hy). rewrite fltb_fleb, negb_false_iff in Hf; auto.
Qed.

(** Elements of equal keys keep their order. *)
Definition key_eqb (v : float) (x : A) : bool := fleb (key x) v && fleb v (key x).

Lemma py_sorted_stable v l : is_num v = true → Forall (λ y, is_num (key y) = true) l →
  filter (λ y, key_eqb v y = true) (py_sorted l) = filter (λ y, key_eqb v y = true) l.
Proof.
  intros Hv Hl. apply (sort_by_stable _ (λ x, is_num (key x) = true)); [|done].
  intros x y Hx Hy. unfold key_eqb. rewrite fltb_fleb, negb_false_iff, !andb_true_iff by done.
  intros [??] [??]. eapply (fleb_trans _ v); done.
Qed.
End sort.

(** ** Conversion of a positive integer gives a positive float *)

Lemma digits2_pos_bounds p : 2 ^ (Zpos (digits2_pos p) - 1) ≤ Zpos p.
Proof.
  induction p as [p IH|p IH|]; cbn [digits2_pos]; [| |done].
  all: rewrite Pos2Z.inj_succ; replace (Z.succ (Z.pos (digits2_pos p)) - 1) with (Z.succ (Z.pos (digits2_pos p) - 1)) by lia.
  all: rewrite Z.pow_succ_r by lia; lia.
Qed.

Lemma shr_1_m mrs : 0 ≤ shr_m mrs → shr_m (shr_1 mrs) = shr_m mrs / 2.
Proof.
  destruct mrs as [[|[p|p|]|p] r s]; cbn [shr_m shr_1]; intros ?; try done; try lia.
  - rewrite Pos2Z.inj_xI, Z.mul_comm, Z.div_add_l by done. change (1 / 2) with 0. lia.
  - rewrite Pos2Z.inj_xO, Z.mul_comm, Z.div_mul by done. done.
Qed.

Lemma iter_shr_m n mrs : 0 ≤ shr_m mrs → shr_m (iter_pos shr_1 n mrs) = shr_m mrs / 2 ^ Zpos n.
Proof.
  assert (∀ m k, 0 ≤ m → 0 ≤ k → 0 ≤ m / 2 ^ k) as Hnn by (intros; apply Z.div_pos; lia).
  revert mrs. induction n as [n IH|n IH|]; intros mrs Hm; cbn [iter_pos].
  - assert (shr_m (shr_1 mrs) = shr_m mrs / 2 ^ 1) as E1 by (by rewrite shr_1_m).
    assert (0 ≤ shr_m (shr_1 mrs)) as H1 by (rewrite E1; apply Hnn; lia).
    assert (0 ≤ shr_m (iter_pos shr_1 n (shr_1 mrs))) as H2 by (rewrite IH by done; apply Hnn; lia).
    rewrite (IH _ H2), (IH _ H1), E1, !Z.div_div, <- !Z.pow_add_r by lia. do 2 f_equal. lia.
  - assert (0 ≤ shr_m (iter_pos shr_1 n mrs)) as H1 by (rewrite IH by done; apply Hnn; lia).
    rewrite (IH _ H1), (IH _ Hm), !Z.div_div, <- !Z.pow_add_r by lia. do 2 f_equal. lia.
  - by rewrite shr_1_m.
Qed.

Lemma shr_fexp_pos q e l : -1074 ≤ e →
  0 < shr_m (shr_fexp 53 1024 (Zpos q) e l).1 ∧ -1074 ≤ (shr_fexp 53 1024 (Zpos q) e l).2.
Proof.
  intros He. unfold shr_fexp, shr, fexp, emin. cbn [Zdigits2].
  assert (shr_m (shr_record_of_loc (Z.pos q) l) = Z.pos q) as Hm by (by destruct l as [|[]]).
  destruct (Z.max _ _ - e) as [|n|n] eqn:En; cbn [fst snd]; rewrite ?Hm; [lia| |lia].
  rewrite iter_shr_m, Hm by (rewrite Hm; lia). split; [|lia]. apply Z.div_str_pos.
  pose proof (digits2_pos_bounds q). split; [lia|]. etransitivity; [|eassumption].
  apply Z.pow_le_mono_r; lia.
Qed.

Lemma binary_round_aux_pos q e : -1074 ≤ e → fltb (S754_zero false) (binary_round_aux 53 1024 false (Zpos q) e loc_Exact) = true.
Proof.
  intros He. unfold binary_round_aux. pose proof (shr_fexp_pos q e loc_Exact He) as [Hm He'].
  destruct (shr_fexp 53 1024 (Z.pos q) e loc_Exact) as [mrs e']. cbn [fst snd] in *.
  assert (0 < round_nearest_even (shr_m mrs) (loc_of_shr_record mrs)) as Hr.
  { unfold round_nearest_even. destruct (loc_of_shr_record mrs) as [|[]]; [lia| |lia|lia]. destruct (Z.even _); lia. }
  destruct (round_nearest_even _ _) as [|r|r]; [lia| |lia].
  pose proof (shr_fexp_pos r e' loc_Exact He') as [Hm2 _].
  destruct (shr_fexp 53 1024 (Z.pos r) e' loc_Exact) as [mrs2 e2]. cbn [fst] in Hm2.
  destruct (shr_m mrs2) as [|m|m]; [lia| |lia]. by destruct (e2 <=? _).
Qed.

Lemma float_of_Z_pos n : 0 < n → fltb (S754_zero false) (float_of_Z n) = true.
Proof.
  destruct n as [|p|p]; [done| |done]. intros _. unfold float_of_Z, binary_normalize, binary_round, shl_align.
  destruct (fexp 53 1024 (Z.pos (digits2_pos p) + 0) - 0) eqn:E; try (by apply binary_round_aux_pos).
  apply binary_round_aux_pos. unfold fexp, emin. lia.
Qed.

(** ** Sums of non-negative floats *)

(** Zero or positive, infinity included. *)
Definition fnonneg (x : float) : bool :=
  match x with S754_zero _ => true | S754_finite s _ _ | S754_infinity s => negb s | S754_nan => false end.

Lemma fnonneg_num x : fnonneg x = true → is_num x = true.
Proof. by destruct x. Qed.

Lemma shr_fexp_nonneg m e l : 0 ≤ m → 0 ≤ shr_m (shr_fexp 53 1024 m e l).1.
Proof.
  intros Hm. unfold shr_fexp, shr. assert (shr_m (shr_record_of_loc m l) = m) as Hr by (by destruct l as [|[]]).
  destruct (_ - e); cbn [fst]; rewrite ?Hr; try done.
  rewrite iter_shr_m, Hr by (by rewrite Hr). apply Z.div_pos; lia.
Qed.

Lemma binary_round_aux_nonneg m e l : 0 ≤ m → fnonneg (binary_round_aux 53 1024 false m e l) = true.
Proof.
  intros Hm. unfold binary_round_aux. pose proof (shr_fexp_nonneg m e l Hm) as H1.
  destruct (shr_fexp 53 1024 m e l) as [mrs e']. cbn [fst] in H1.
  assert (0 ≤ round_nearest_even (shr_m mrs) (loc_of_shr_record mrs)) as Hr.
  { unfold round_nearest_even. destruct (loc_of_shr_record mrs) as [|[]]; [lia| |lia|lia]. destruct (Z.even _); lia. }
  pose proof (shr_fexp_nonneg _ e' loc_Exact Hr) as H2.
  destruct (shr_fexp 53 1024 _ e' loc_Exact) as [mrs2 e2]. cbn [fst] in H2.
  destruct (shr_m mrs2) as [|p|p]; [done| |lia]. by destruct (e2 <=? _).
Qed.

Lemma binary_normalize_nonneg m e : 0 ≤ m → fnonneg (binary_normalize 53 1024 m e false) = true.
Proof.
  intros Hm. destruct m as [|p|p]; [done| |lia]. unfold binary_normalize, binary_round, shl_align.
  destruct (_ - e); by apply binary_round_aux_nonneg.
Qed.

Lemma fadd_nonneg x y : fnonneg x = true → fnonneg y = true → fnonneg (fadd x y) = true.
Proof.
  destruct x as [sx|[]| |[] mx ex], y as [sy|[]| |[] my ey]; try done; intros _ _; [by destruct sx, sy|].
  unfold fadd, SFadd. apply binary_normalize_nonneg. unfold cond_Zopp.
  destruct (shl_align mx ex _), (shl_align my ey _). cbn [fst]. lia.
Qed.

(** A quotient by a positive finite float. *)
Lemma fdiv_nonneg x my ey : fnonneg x = true → fnonneg (fdiv x (S754_finite false my ey)) = true.
Proof.
  destruct x as [sx|[]| |[] mx ex]; try done. intros _.
  unfold fdiv, SFdiv. cbn [xorb]. unfold SFdiv_core_binary. set (e' := Z.min _ _). set (s := _ - _ - e').
  assert (∀ m', 0 ≤ m' → fnonneg (let '(q, r) := Z.div_eucl m' (Z.pos my) in binary_round_aux 53 1024 false q e' (new_location (Z.pos my) r)) = true) as Hd.
  { intros m' Hm'. pose proof (Z_div_mod m' (Z.pos my) ltac:(lia)) as Hq. destruct (Z.div_eucl m' (Z.pos my)) as [q r].
    apply binary_round_aux_nonneg. destruct Hq as [-> Hr]. nia. }
  match goal with |- context [Z.div_eucl ?m _] => specialize (Hd m) end.
  destruct (Z.div_eucl _ _) as [q r]. apply Hd. destruct s; [lia|apply Z.shiftl_nonneg; lia|lia].
Qed.

(** On numbers, equality is mutual [<=]. *)
Lemma feqb_fleb x y : is_num x = true → is_num y = true → SFeqb x y = fleb x y && fleb y x.
Proof.
  intros Hx Hy. unfold SFeqb, fleb, SFleb.
  destruct x as [sx|sx| |sx mx ex], y as [sy|sy| |sy my ey]; try done; simpl; try (by destruct sx); try (by destruct sy);
    try (by destruct sx, sy).
  change (Pos.compare_cont Eq mx my) with (Pos.compare mx my). change (Pos.compare_cont Eq my mx) with (Pos.compare my mx).
  rewrite (Z.compare_antisym ey ex), (Pos.compare_antisym mx my).
  destruct sx, sy; try done; destruct (ey ?= ex)%Z; cbn; try done; by destruct (Pos.compare _ _).
Qed.
