(* ===== verification/PyVal.v ===== *)
(** * Metadata values

    The values of a metadata dictionary, as MessagePack carries them: None, booleans,
    integers, floats, strings, lists, and dictionaries with string keys; and what Python
    does with them: [int], [bool], [str], [==], [isinstance] tests. *)

From stdpp Require Import numbers base strings pretty list.
From Stdlib Require Import ZArith Lia SpecFloat.
From S2P Require Import Prelude Dict PyStr Floats.

Inductive value : Type :=
| VNone
| VBool (b : bool)
| VInt (n : Z)
| VFloat (f : float)
| VStr (s : string)
| VList (l : list value)
| VDict (d : list (string * value)).

Abbreviation metadata := (dict string value).

(** ** Numbers *)

(** [int(f)] of a float: towards zero; an infinity or NaN raises. *)
Definition float_trunc (f : float) : res Z :=
  match f with
  | S754_zero _ => Ok 0
  | S754_finite s m e =>
      let a := if 0 <=? e then Zpos m * 2 ^ e else Zpos m / 2 ^ (- e) in
      Ok (if s then - a else a)
  | _ => Raise ValueError
  end.

Definition bool_Z (b : bool) : Z := if b then 1 else 0.

(** [int(v)] *)
Definition py_int_of (v : value) : res Z :=
  match v with
  | VInt n => Ok n
  | VBool b => Ok (bool_Z b)
  | VFloat f => float_trunc f
  | VStr s => of_option ValueError (py_int s)
  | VNone | VList _ | VDict _ => Raise TypeError
  end.

(** [float(v)]; [parse] reads a string. An integer beyond the floats is an OverflowError. *)
Definition py_float_of (parse : string → res float) (v : value) : res float :=
  match v with
  | VFloat f => Ok f
  | VInt n => match float_of_Z n with S754_infinity _ => Raise ValueError | f => Ok f end
  | VBool b => Ok (float_of_Z (bool_Z b))
  | VStr s => parse s
  | VNone | VList _ | VDict _ => Raise TypeError
  end.

(** [bool(v)] *)
Definition truthy (v : value) : bool :=
  match v with
  | VNone => false
  | VBool b => b
  | VInt n => negb (n =? 0)
  | VFloat f => negb (is_zero f)
  | VStr s => negb (String.eqb s "")
  | VList l => match l with [] => false | _ => true end
  | VDict d => match d with [] => false | _ => true end
  end.

(** [str(v)]; [repr] shows floats and containers. *)
Definition py_str (repr : value → string) (v : value) : string :=
  match v with
  | VStr s => s
  | VInt n => pretty n
  | VBool true => "True"
  | VBool false => "False"
  | VNone => "None"
  | _ => repr v
  end.

(** ** Equality *)

(** An integer and a float are equal when they are the same number. *)
Definition float_eq_Z (f : float) (n : Z) : bool :=
  match f with
  | S754_zero _ => n =? 0
  | S754_finite s m e =>
      let m' := if s then Zneg m else Zpos m in
      if 0 <=? e then m' * 2 ^ e =? n else m' =? n * 2 ^ (- e)
  | _ => false
  end.

Definition as_number (v : value) : option (Z + float) :=
  match v with
  | VBool b => Some (inl (bool_Z b))
  | VInt n => Some (inl n)
  | VFloat f => Some (inr f)
  | _ => None
  end.

Definition number_eqb (x y : Z + float) : bool :=
  match x, y with
  | inl a, inl b => a =? b
  | inl a, inr f | inr f, inl a => float_eq_Z f a
  | inr f, inr g => SFeqb f g
  end.

(** [v == w]; dictionaries compare without regard to the order of their keys. *)
Fixpoint py_eqb (v w : value) {struct v} : bool :=
  match v, w with
  | VNone, VNone => true
  | VStr s, VStr t => String.eqb s t
  | VList l, VList l' =>
      (fix go l l' := match l, l' with
        | [], [] => true
        | x :: l, y :: l' => py_eqb x y && go l l'
        | _, _ => false
        end) l l'
  | VDict d, VDict d' =>
      (length d =? length d')%nat &&
      (fix go d := match d with
        | [] => true
        | (k, x) :: d => match dict_get d' k with Some y => py_eqb x y && go d | None => false end
        end) d
  | _, _ => match as_number v, as_number w with Some x, Some y => number_eqb x y | _, _ => false end
  end.

(** ** [isinstance] *)

Definition as_dict (v : option value) : option metadata := match v with Some (VDict d) => Some d | _ => None end.
Definition as_list (v : option value) : option (list value) := match v with Some (VList l) => Some l | _ => None end.
(** [v == s] for a string [s]; a missing key is None. *)
Definition is_str (v : option value) (s : string) : bool := match v with Some (VStr t) => String.eqb t s | _ => false end.
(** [v is True] *)
Definition is_true (v : option value) : bool := match v with Some (VBool true) => true | _ => false end.

(** [d.get(k, dflt)] *)
Definition get_default (d : metadata) (k : string) (dflt : value) : value := default dflt (dict_get d k).

(** [d.get(k)]: a missing key and a None are the same. *)
Definition get_some (d : metadata) (k : string) : option value :=
  match dict_get d k with Some VNone => None | o => o end.
