(* ===== verification/Torch.v ===== *)
(** * The tensor operations the paged cache relies on

    torch is not part of this repository. What [paged_kv.py] uses of it is an
    interface: the class [Slab] lists the operations on rank-3 tensors, and
    [SlabLaws] states their documented behaviour (in-place slice assignment never
    changes a shape; an in-range slice assignment with equal extents copies element
    by element and leaves everything else alone). [fslab] is a concrete instance,
    used to show that the laws can be met and to evaluate examples. *)

From stdpp Require Import numbers base list.
From Stdlib Require Import ZArith Lia.
From S2P Require Import Prelude.

Class Slab (T V : Type) := {
  slab_shape : T → list Z;
  (** [t[s, b, d]] *)
  slab_get : T → Z → Z → Z → V;
  (** [dst[s0:s1, b0:b1, :] = src[r0:r1]] *)
  slab_assign : T → Z * Z → Z * Z → T → Z * Z → res T;
  (** [dst[r0:r1] = src[s0:s1, b0:b1, :]] *)
  slab_extract : T → Z * Z → T → Z * Z → Z * Z → res T;
  (** [torch.empty(shape)], which raises on a negative dimension *)
  slab_empty : list Z → res T;
}.

Class SlabLaws (T V : Type) `{Slab T V} := {
  slab_assign_shape dst s b src r dst' :
    slab_assign dst s b src r = Ok dst' → slab_shape dst' = slab_shape dst;
  slab_assign_spec dst s0 s1 b0 b1 src r0 r1 S B D R :
    slab_shape dst = [S; B; D] → slab_shape src = [R; b1 - b0; D] →
    0 ≤ s0 ≤ s1 → s1 ≤ S → 0 ≤ b0 ≤ b1 → b1 ≤ B → 0 ≤ r0 → r1 ≤ R → s1 - s0 = r1 - r0 →
    ∃ dst', slab_assign dst (s0, s1) (b0, b1) src (r0, r1) = Ok dst' ∧
      ∀ s b d, slab_get dst' s b d =
        if bool_decide (s0 ≤ s < s1 ∧ b0 ≤ b < b1 ∧ 0 ≤ d < D)
        then slab_get src (r0 + (s - s0)) (b - b0) d else slab_get dst s b d;
  slab_extract_spec dst r0 r1 src s0 s1 b0 b1 S B D R :
    slab_shape src = [S; B; D] → slab_shape dst = [R; b1 - b0; D] →
    0 ≤ s0 ≤ s1 → s1 ≤ S → 0 ≤ b0 ≤ b1 → b1 ≤ B → 0 ≤ r0 → r1 ≤ R → s1 - s0 = r1 - r0 →
    ∃ dst', slab_extract dst (r0, r1) src (s0, s1) (b0, b1) = Ok dst' ∧
      slab_shape dst' = slab_shape dst ∧
      ∀ r b d, slab_get dst' r b d =
        if bool_decide (r0 ≤ r < r1 ∧ 0 ≤ b < b1 - b0 ∧ 0 ≤ d < D)
        then slab_get src (s0 + (r - r0)) (b0 + b) d else slab_get dst r b d;
  slab_empty_spec sh :
    Forall (λ n, 0 ≤ n) sh → ∃ e : T, slab_empty sh = Ok e ∧ slab_shape e = sh;
}.

(** ** A concrete tensor: a shape and its elements as a function of the indices *)

Record fslab (V : Type) := mkFslab { fs_shape : list Z; fs_data : Z → Z → Z → V }.
Arguments mkFslab {V} _ _.
Arguments fs_shape {V} _.
Arguments fs_data {V} _ _ _ _.

Section fslab.
Context {V : Type} `{Inhabited V}.

Definition fslab_assign (dst : fslab V) (s b : Z * Z) (src : fslab V) (r : Z * Z) : res (fslab V) :=
  match fs_shape dst, fs_shape src with
  | [Ns; B; D], [R; W; D'] =>
      if bool_decide (0 ≤ s.1 ≤ s.2 ∧ s.2 ≤ Ns ∧ 0 ≤ b.1 ≤ b.2 ∧ b.2 ≤ B ∧ 0 ≤ r.1 ∧ r.2 ≤ R
                      ∧ s.2 - s.1 = r.2 - r.1 ∧ W = b.2 - b.1 ∧ D' = D)
      then Ok (mkFslab [Ns; B; D] (λ i j d,
             if bool_decide (s.1 ≤ i < s.2 ∧ b.1 ≤ j < b.2 ∧ 0 ≤ d < D)
             then fs_data src (r.1 + (i - s.1)) (j - b.1) d else fs_data dst i j d))
      else Raise TorchError
  | _, _ => Raise TorchError
  end.

Definition fslab_extract (dst : fslab V) (r : Z * Z) (src : fslab V) (s b : Z * Z) : res (fslab V) :=
  match fs_shape dst, fs_shape src with
  | [R; W; D'], [Ns; B; D] =>
      if bool_decide (0 ≤ s.1 ≤ s.2 ∧ s.2 ≤ Ns ∧ 0 ≤ b.1 ≤ b.2 ∧ b.2 ≤ B ∧ 0 ≤ r.1 ∧ r.2 ≤ R
                      ∧ s.2 - s.1 = r.2 - r.1 ∧ W = b.2 - b.1 ∧ D' = D)
      then Ok (mkFslab [R; W; D'] (λ i j d,
             if bool_decide (r.1 ≤ i < r.2 ∧ 0 ≤ j < b.2 - b.1 ∧ 0 ≤ d < D)
             then fs_data src (s.1 + (i - r.1)) (b.1 + j) d else fs_data dst i j d))
      else Raise TorchError
  | _, _ => Raise TorchError
  end.

#[export] Instance fslab_slab : Slab (fslab V) V := {|
  slab_shape := fs_shape;
  slab_get := fs_data;
  slab_assign := fslab_assign;
  slab_extract := fslab_extract;
  slab_empty sh :=
    if forallb (λ n, 0 <=? n) sh then Ok (mkFslab sh (λ _ _ _, inhabitant)) else Raise TorchError;
|}.

#[export] Instance fslab_laws : SlabLaws (fslab V) V.
Proof.
  split; simpl.
  - intros [sh g] s b [sh' g'] r dst'. unfold fslab_assign. simpl.
    repeat case_match; intros; simplify_eq/=; done.
  - intros [sh g] s0 s1 b0 b1 [sh' g'] r0 r1 S B D R Hd Hs; intros.
    unfold fslab_assign. simpl in *. rewrite Hd, Hs. rewrite bool_decide_eq_true_2 by (simpl; lia).
    eexists. split; [done|]. done.
  - intros [sh g] r0 r1 [sh' g'] s0 s1 b0 b1 S B D R Hd Hs; intros.
    unfold fslab_extract. simpl in *. rewrite Hd, Hs. rewrite bool_decide_eq_true_2 by (simpl; lia).
    eexists. split; [done|]. done.
  - intros sh Hsh. rewrite (proj2 (forallb_forall _ sh)); [by eexists|].
    intros n Hn. apply Z.leb_le. rewrite Forall_forall in Hsh.
    by apply Hsh, list_elem_of_In.
Qed.
End fslab.
