(* ===== verification/PagedKV.v ===== *)
(** * The paged KV cache (server/paged_kv.py)

    [PagedKVTable] as a state machine over a pair of backing tensors: the free
    list (a stack whose top is its last element), the page table of every
    sequence, and the two lengths [l_acc <= l_seq]. Methods are [M PagedKVTable]
    computations, so a raised exception keeps the pages already handed out. *)

From stdpp Require Import numbers base list.
From Stdlib Require Import ZArith Lia.
From S2P Require Import Prelude Dict Torch.

Definition BLOCK_SIZE : Z := 16.

Record SeqState := mkSeqState {
  pages : list Z;   (* physical page ids, in order *)
  l_acc : Z;        (* committed accepted prefix length *)
  l_seq : Z;        (* logical length *)
}.

Record PagedKVTable (T : Type) := mkPagedKVTable {
  tbl_k : T;
  tbl_v : T;
  block_size : Z;
  num_pages : Z;
  free_list : list Z;
  seqs : dict Z SeqState;
}.
Arguments mkPagedKVTable {T} _ _ _ _ _ _.
Arguments tbl_k {T} _.
Arguments tbl_v {T} _.
Arguments block_size {T} _.
Arguments num_pages {T} _.
Arguments free_list {T} _.
Arguments seqs {T} _.

Section PagedKV.
Context {T V : Type} `{!Slab T V}.
Implicit Types (t : PagedKVTable T) (st : SeqState).

Definition set_k (k : T) t : PagedKVTable T :=
  mkPagedKVTable k (tbl_v t) (block_size t) (num_pages t) (free_list t) (seqs t).
Definition set_v (v : T) t : PagedKVTable T :=
  mkPagedKVTable (tbl_k t) v (block_size t) (num_pages t) (free_list t) (seqs t).
Definition set_free (fl : list Z) t : PagedKVTable T :=
  mkPagedKVTable (tbl_k t) (tbl_v t) (block_size t) (num_pages t) fl (seqs t).
Definition set_seqs (d : dict Z SeqState) t : PagedKVTable T :=
  mkPagedKVTable (tbl_k t) (tbl_v t) (block_size t) (num_pages t) (free_list t) d.
(** [self._seqs[seq_id]] mutated in place *)
Definition set_seq (seq_id : Z) (st : SeqState) t : PagedKVTable T :=
  set_seqs (dict_set (seqs t) seq_id st) t.

(** ** Construction *)

Definition init (backing_k backing_v : T) (bs : Z) : res (PagedKVTable T) :=
  if negb (bool_decide (slab_shape backing_k = slab_shape backing_v)) then Raise PagedKVError
  else if negb (zlen (slab_shape backing_k) =? 3) then Raise PagedKVError
  else
    s_total ← of_option IndexError (py_index (slab_shape backing_k) 0);
    if bs =? 0 then Raise ZeroDivisionError
    else if negb (s_total mod bs =? 0) then Raise PagedKVError
    else
      let n := s_total / bs in
      Ok (mkPagedKVTable backing_k backing_v bs n (reverse (py_range 0 n)) []).

(** ** Sequence lifecycle *)

Definition register_sequence (seq_id : Z) : M (PagedKVTable T) unit :=
  t ← get;
  if dict_mem (seqs t) seq_id then mthrow PagedKVError
  else put (set_seq seq_id (mkSeqState [] 0 0) t).

Definition release_sequence (seq_id : Z) : M (PagedKVTable T) unit :=
  t ← get;
  match dict_get (seqs t) seq_id with
  | None => mret tt
  | Some state =>
      put (set_free (free_list t ++ pages state) (set_seqs (dict_del (seqs t) seq_id) t))
  end.

Definition has_sequence t (seq_id : Z) : bool := dict_mem (seqs t) seq_id.

(** ** State accessors *)

(** [self._seqs[seq_id]] *)
Definition get_seq (seq_id : Z) : M (PagedKVTable T) SeqState :=
  t ← get; lift (of_option KeyError (dict_get (seqs t) seq_id)).

Definition get_l_seq (seq_id : Z) : M (PagedKVTable T) Z := st ← get_seq seq_id; mret (l_seq st).
Definition get_l_acc (seq_id : Z) : M (PagedKVTable T) Z := st ← get_seq seq_id; mret (l_acc st).
Definition num_free_pages t : Z := zlen (free_list t).
Definition num_used_pages (seq_id : Z) : M (PagedKVTable T) Z :=
  st ← get_seq seq_id; mret (zlen (pages st)).

(** ** Allocation *)

Definition pages_for (bs n : Z) : Z := (n + bs - 1) / bs.

(** [while len(state.pages) < pages_needed] *)
Fixpoint grow_pages (fuel : nat) (seq_id pages_needed : Z) : M (PagedKVTable T) unit :=
  state ← get_seq seq_id;
  if zlen (pages state) <? pages_needed then
    match fuel with
    | O => mthrow OutOfFuel
    | S fuel' =>
        t ← get;
        match py_pop (free_list t) with
        | None => mthrow PagedKVError
        | Some (page, rest) =>
            put (set_seq seq_id (mkSeqState (pages state ++ [page]) (l_acc state) (l_seq state))
                   (set_free rest t)) ;;
            grow_pages fuel' seq_id pages_needed
        end
    end
  else mret tt.

Definition ensure_capacity (seq_id target_len : Z) : M (PagedKVTable T) unit :=
  _ ← get_seq seq_id;
  t ← get;
  let pages_needed := pages_for (block_size t) target_len in
  grow_pages (Z.to_nat pages_needed) seq_id pages_needed.

(** ** Write *)

(** One round per page: [while pos < end_position]. *)
Fixpoint write_pages (fuel : nat) (seq_id : Z) (k_new v_new : T) (bh_slice : Z * Z)
    (pos src_offset end_position : Z) : M (PagedKVTable T) unit :=
  if pos <? end_position then
    match fuel with
    | O => mthrow OutOfFuel
    | S fuel' =>
        t ← get;
        state ← get_seq seq_id;
        let page_idx := pos / block_size t in
        let slot := pos mod block_size t in
        let tokens_this_page := Z.min (block_size t - slot) (end_position - pos) in
        phys_page ← lift (of_option IndexError (py_index (pages state) page_idx));
        let s_base := phys_page * block_size t + slot in
        k ← lift (slab_assign (tbl_k t) (s_base, s_base + tokens_this_page) bh_slice
                    k_new (src_offset, src_offset + tokens_this_page));
        modify (set_k k) ;;
        v ← lift (slab_assign (tbl_v t) (s_base, s_base + tokens_this_page) bh_slice
                    v_new (src_offset, src_offset + tokens_this_page));
        modify (set_v v) ;;
        write_pages fuel' seq_id k_new v_new bh_slice
          (pos + tokens_this_page) (src_offset + tokens_this_page) end_position
    end
  else mret tt.

(** The length updates at the end of [write] and [track_write]. *)
Definition advance (seq_id end_position : Z) (commit : bool) : M (PagedKVTable T) unit :=
  state ← get_seq seq_id;
  let l_seq' := if l_seq state <? end_position then end_position else l_seq state in
  let l_acc' := if commit && (l_acc state <? end_position) then end_position else l_acc state in
  modify (set_seq seq_id (mkSeqState (pages state) l_acc' l_seq')).

Definition write (seq_id start_position : Z) (k_new v_new : T) (bh_slice : Z * Z)
    (commit : bool) : M (PagedKVTable T) unit :=
  if negb (bool_decide (slab_shape k_new = slab_shape v_new)) then mthrow PagedKVError
  else if negb (zlen (slab_shape k_new) =? 3) then mthrow PagedKVError
  else
    s_new ← lift (of_option IndexError (py_index (slab_shape k_new) 0));
    if s_new =? 0 then mret tt
    else
      let end_position := start_position + s_new in
      ensure_capacity seq_id end_position ;;
      write_pages (Z.to_nat s_new) seq_id k_new v_new bh_slice start_position 0 end_position ;;
      advance seq_id end_position commit.

Definition track_write (seq_id start_position s_new : Z) (commit : bool)
    : M (PagedKVTable T) unit :=
  if s_new <=? 0 then mret tt
  else
    t ← get;
    (if dict_mem (seqs t) seq_id then mret tt else register_sequence seq_id) ;;
    let end_position := start_position + s_new in
    ensure_capacity seq_id end_position ;;
    advance seq_id end_position commit.

(** ** Commit and rollback *)

Definition commit (seq_id : Z) (up_to : option Z) : M (PagedKVTable T) unit :=
  state ← get_seq seq_id;
  let target := default (l_seq state) up_to in
  if l_seq state <? target then mthrow PagedKVError
  else if l_acc state <? target
  then modify (set_seq seq_id (mkSeqState (pages state) target (l_seq state)))
  else mret tt.

(** [while len(state.pages) > keep_pages] *)
Fixpoint drop_pages (fuel : nat) (seq_id keep_pages : Z) : M (PagedKVTable T) unit :=
  state ← get_seq seq_id;
  if keep_pages <? zlen (pages state) then
    match fuel with
    | O => mthrow OutOfFuel
    | S fuel' =>
        match py_pop (pages state) with
        | None => mthrow IndexError
        | Some (released, rest) =>
            modify (λ t, set_free (free_list t ++ [released])
                           (set_seq seq_id (mkSeqState rest (l_acc state) (l_seq state)) t)) ;;
            drop_pages fuel' seq_id keep_pages
        end
    end
  else mret tt.

Definition rollback (seq_id l_acc_target : Z) : M (PagedKVTable T) unit :=
  state ← get_seq seq_id;
  if l_acc state <? l_acc_target then mthrow PagedKVError
  else if l_acc_target <? 0 then mthrow PagedKVError
  else
    modify (set_seq seq_id (mkSeqState (pages state) l_acc_target l_acc_target)) ;;
    t ← get;
    let keep_pages := pages_for (block_size t) l_acc_target in
    drop_pages (length (pages state)) seq_id keep_pages.

(** ** Read *)

(** [while pos < length] of [gather_prefix] *)
Fixpoint gather_pages (fuel : nat) t (state : SeqState) (bh_slice : Z * Z)
    (k_out v_out : T) (pos len : Z) : res (T * T) :=
  if pos <? len then
    match fuel with
    | O => Raise OutOfFuel
    | S fuel' =>
        let page_idx := pos / block_size t in
        let slot := pos mod block_size t in
        let tokens_this_page := Z.min (block_size t - slot) (len - pos) in
        phys_page ← of_option IndexError (py_index (pages state) page_idx);
        let s_base := phys_page * block_size t + slot in
        k_out' ← slab_extract k_out (pos, pos + tokens_this_page)
                   (tbl_k t) (s_base, s_base + tokens_this_page) bh_slice;
        v_out' ← slab_extract v_out (pos, pos + tokens_this_page)
                   (tbl_v t) (s_base, s_base + tokens_this_page) bh_slice;
        gather_pages fuel' t state bh_slice k_out' v_out' (pos + tokens_this_page) len
    end
  else Ok (k_out, v_out).

Definition gather_prefix t (seq_id : Z) (bh_slice : Z * Z) (length : option Z)
    (out : option (T * T)) : res (T * T) :=
  state ← of_option KeyError (dict_get (seqs t) seq_id);
  let len := default (l_acc state) length in
  if l_acc state <? len then Raise PagedKVError
  else
    let bh_width := bh_slice.2 - bh_slice.1 in
    d ← of_option IndexError (py_index (slab_shape (tbl_k t)) (-1));
    bufs ← match out with
           | None => 
             k ← (slab_empty [len; bh_width; d] : res T);
             v ← (slab_empty [len; bh_width; d] : res T);
             Ok (k, v)
           | Some o => Ok o
           end;
    gather_pages (Z.to_nat len) t state bh_slice bufs.1 bufs.2 0 len.

(** ** Clients: a sequence of method calls on one table

    A caller may catch an exception and go on with the table as it was left. *)

Inductive paged_op :=
| OpRegister (seq_id : Z)
| OpRelease (seq_id : Z)
| OpWrite (seq_id start_position : Z) (k_new v_new : T) (bh_slice : Z * Z) (commit : bool)
| OpTrackWrite (seq_id start_position s_new : Z) (commit : bool)
| OpCommit (seq_id : Z) (up_to : option Z)
| OpRollback (seq_id l_acc_target : Z).

Definition run_op (o : paged_op) : M (PagedKVTable T) unit :=
  match o with
  | OpRegister k => register_sequence k
  | OpRelease k => release_sequence k
  | OpWrite k p kn vn bh c => write k p kn vn bh c
  | OpTrackWrite k p n c => track_write k p n c
  | OpCommit k u => commit k u
  | OpRollback k n => rollback k n
  end.

Definition run_ops (os : list paged_op) t : PagedKVTable T :=
  fold_left (λ t o, fst (run_op o t)) os t.
End PagedKV.

(** ** The table invariant

    Every page is either free or held by exactly one sequence, once; lengths are
    ordered and every sequence holds enough pages for its logical length. *)

Definition all_pages (d : dict Z SeqState) : list Z := d ≫= λ kv, pages kv.2.

Definition seq_wf (bs : Z) (st : SeqState) : Prop :=
  0 ≤ l_acc st ≤ l_seq st ∧ l_seq st ≤ bs * zlen (pages st).

Section PagedKV_wf.
Context {T V : Type} `{!Slab T V}.
Implicit Types (t : PagedKVTable T) (st : SeqState).

Record table_wf t : Prop := mkTableWf {
  wf_bs : 0 < block_size t;
  wf_keys : dict_wf (seqs t);
  wf_pages : free_list t ++ all_pages (seqs t) ≡ₚ seqZ 0 (num_pages t);
  wf_seqs : Forall (λ kv, seq_wf (block_size t) kv.2) (seqs t);
  wf_shape : slab_shape (tbl_k t) = slab_shape (tbl_v t) ∧
             ∃ w d, slab_shape (tbl_k t) = [num_pages t * block_size t; w; d];
}.
End PagedKV_wf.

Lemma all_pages_app d1 d2 : all_pages (d1 ++ d2) = all_pages d1 ++ all_pages d2.
Proof. unfold all_pages. by rewrite bind_app. Qed.

Lemma all_pages_cons k st d : all_pages ((k, st) :: d) = pages st ++ all_pages d.
Proof. done. Qed.

Lemma all_pages_set d k st st' :
  dict_get d k = Some st → all_pages (dict_set d k st') ++ pages st ≡ₚ pages st' ++ all_pages d.
Proof.
  intros (d1 & d2 & -> & Hk)%dict_get_Some_split. rewrite dict_set_split by done.
  rewrite !all_pages_app, !all_pages_cons. solve_Permutation.
Qed.

Lemma all_pages_set_same d k st st' :
  dict_get d k = Some st → pages st' = pages st → all_pages (dict_set d k st') = all_pages d.
Proof.
  intros (d1 & d2 & -> & Hk)%dict_get_Some_split Hp. rewrite dict_set_split by done.
  by rewrite !all_pages_app, !all_pages_cons, Hp.
Qed.

Lemma all_pages_del d k st :
  dict_get d k = Some st → pages st ++ all_pages (dict_del d k) ≡ₚ all_pages d.
Proof.
  intros (d1 & d2 & -> & Hk)%dict_get_Some_split. rewrite dict_del_split by done.
  rewrite !all_pages_app, !all_pages_cons. solve_Permutation.
Qed.

Lemma pages_for_le bs n m : 0 < bs → pages_for bs n ≤ m ↔ n ≤ bs * m.
Proof. intros. unfold pages_for. pose proof (Z.div_mod (n + bs - 1) bs). pose proof (Z.mod_pos_bound (n + bs - 1) bs). nia. Qed.

Section PagedKV_inv.
Context {T V : Type} `{!Slab T V, !SlabLaws T V}.
Implicit Types (t : PagedKVTable T) (st : SeqState).

(** Mutating a sequence in place keeps the invariant when its pages stay, and its
    lengths stay ordered and covered. *)
Lemma table_wf_set_seq t k st st' :
  table_wf t → dict_get (seqs t) k = Some st → pages st' = pages st →
  seq_wf (block_size t) st' → table_wf (set_seq k st' t).
Proof.
  intros [] Hk Hp Hst. split; simpl; [done|by auto with py| | |done].
  - by erewrite all_pages_set_same.
  - by apply Forall_dict_set.
Qed.

(** Moving one page from the top of the free list to a sequence. *)
Lemma table_wf_take_page t k st page rest :
  table_wf t → dict_get (seqs t) k = Some st → free_list t = rest ++ [page] →
  table_wf (set_seq k (mkSeqState (pages st ++ [page]) (l_acc st) (l_seq st)) (set_free rest t)).
Proof.
  intros [? ? Hpg Hseqs ?] Hk Hfl. split; simpl; [done|by auto with py| | |done].
  - rewrite <- Hpg, Hfl.
    assert (all_pages (dict_set (seqs t) k (mkSeqState (pages st ++ [page]) (l_acc st) (l_seq st)))
            ≡ₚ page :: all_pages (seqs t)) as ->.
    { apply (Permutation_app_inv_r (pages st)). rewrite all_pages_set by done. simpl. solve_Permutation. }
    solve_Permutation.
  - apply Forall_dict_set; [done|]. pose proof (Forall_dict_get _ _ _ _ Hseqs Hk) as (? & ?).
    simpl in *. split; simpl; [done|]. rewrite zlen_app. unfold zlen at 2. simpl. nia.
Qed.

(** Returning the last page of a sequence to the free list. *)
Lemma table_wf_drop_page t k st page rest :
  table_wf t → dict_get (seqs t) k = Some st → pages st = rest ++ [page] →
  l_seq st ≤ block_size t * zlen rest →
  table_wf (set_free (free_list t ++ [page])
              (set_seq k (mkSeqState rest (l_acc st) (l_seq st)) t)).
Proof.
  intros [? ? Hpg Hseqs ?] Hk Hst Hle. split; simpl; [done|by auto with py| | |done].
  - rewrite <- Hpg. rewrite <- (assoc_L (++)). f_equiv.
    apply (Permutation_app_inv_r (pages st)). rewrite <- (assoc_L (++)), all_pages_set by done.
    simpl. rewrite Hst. solve_Permutation.
  - apply Forall_dict_set; [done|]. pose proof (Forall_dict_get _ _ _ _ Hseqs Hk) as (? & ?).
    split; simpl in *; [done|lia].
Qed.
End PagedKV_inv.

(** ** Functional behaviour of the page loops *)

Section PagedKV_loops.
Context {T V : Type} `{!Slab T V, !SlabLaws T V}.
Implicit Types (t : PagedKVTable T) (st : SeqState).

(** [t'] is [t] with the sequence [k] changed to [st'], the free list to [fl]. *)
Record reseq t t' (k : Z) (st' : SeqState) (fl : list Z) : Prop := mkReseq {
  rs_wf : table_wf t';
  rs_seq : dict_get (seqs t') k = Some st';
  rs_other k' : k ≠ k' → dict_get (seqs t') k' = dict_get (seqs t) k';
  rs_free : free_list t' = fl;
  rs_k : tbl_k t' = tbl_k t;
  rs_v : tbl_v t' = tbl_v t;
  rs_bs : block_size t' = block_size t;
  rs_np : num_pages t' = num_pages t;
}.

Lemma reseq_trans t1 t2 t3 k st2 fl2 st3 fl3 :
  reseq t1 t2 k st2 fl2 → reseq t2 t3 k st3 fl3 → reseq t1 t3 k st3 fl3.
Proof.
  intros [] []. split; try done; try congruence. intros k' Hk'. by rewrite rs_other1, rs_other0.
Qed.

Lemma reseq_set_seq t k st st' :
  table_wf t → dict_get (seqs t) k = Some st → pages st' = pages st →
  seq_wf (block_size t) st' → reseq t (set_seq k st' t) k st' (free_list t).
Proof.
  intros. split; try done; [by eapply table_wf_set_seq|apply dict_get_set_eq|].
  intros. by apply dict_get_set_ne.
Qed.

Lemma get_seq_run t k st : dict_get (seqs t) k = Some st → get_seq k t = (t, Ok st).
Proof. intros E. unfold get_seq. by rewrite get_bind, E. Qed.

Lemma get_seq_none t k : dict_get (seqs t) k = None → get_seq k t = (t, Raise KeyError).
Proof. intros E. unfold get_seq. by rewrite get_bind, E. Qed.

Lemma grow_pages_spec fuel t k st needed :
  table_wf t → dict_get (seqs t) k = Some st → needed - zlen (pages st) ≤ Z.of_nat fuel →
  ∃ t' extra,
    reseq t t' k (mkSeqState (pages st ++ extra) (l_acc st) (l_seq st)) (free_list t') ∧
    free_list t = free_list t' ++ reverse extra ∧
    grow_pages fuel k needed t =
      (t', if bool_decide (needed - zlen (pages st) ≤ zlen (free_list t))
           then Ok tt else Raise PagedKVError) ∧
    zlen (pages st ++ extra) =
      Z.max (zlen (pages st)) (Z.min needed (zlen (pages st) + zlen (free_list t))).
Proof.
  revert t st. induction fuel as [|fuel IH]; intros t st Hwf Hk Hfuel;
    cbn [grow_pages]; rewrite (bind_ok _ _ _ _ _ (get_seq_run _ _ _ Hk));
    pose proof (zlen_nonneg (free_list t)); case_match eqn:Hlt;
    rewrite ?Z.ltb_lt, ?Z.ltb_ge in Hlt; try lia.
  1, 3: exists t, []; rewrite app_nil_r, bool_decide_eq_true_2 by lia;
    assert (mkSeqState (pages st) (l_acc st) (l_seq st) = st) as -> by (by destruct st);
    split; [by split|split; [by rewrite app_nil_r|split; [done|lia]]].
  rewrite get_bind. destruct (py_pop (free_list t)) as [[page rest]|] eqn:Hpop.
  - apply py_pop_Some in Hpop. rewrite put_bind.
    pose proof (table_wf_take_page _ _ _ _ _ Hwf Hk Hpop) as Hwf1.
    set (st1 := mkSeqState (pages st ++ [page]) (l_acc st) (l_seq st)) in *.
    set (t1 := set_seq k st1 (set_free rest t)) in *.
    assert (zlen (pages st1) = zlen (pages st) + 1) as Hlen by (simpl; by rewrite zlen_app).
    destruct (IH t1 st1) as (t' & extra & Hrs & Hfl & Hrun & Hz); [done|apply dict_get_set_eq|lia|].
    assert (zlen (free_list t) = zlen rest + 1) as Hflen by (by rewrite Hpop, zlen_app).
    assert (pages st1 ++ extra = pages st ++ page :: extra) as Happ
      by (simpl; by rewrite <- (assoc_L (++))).
    change (free_list t1) with rest in *.
    exists t', (page :: extra). rewrite <- Happ. split; [|split; [|split]].
    + eapply reseq_trans; [|exact Hrs]. split; try done; [apply dict_get_set_eq|].
      intros. by apply dict_get_set_ne.
    + rewrite Hpop, Hfl, reverse_cons. by rewrite (assoc_L (++)).
    + rewrite Hrun. f_equal.
      rewrite (bool_decide_ext (needed - zlen (pages st1) ≤ zlen rest)
                 (needed - zlen (pages st) ≤ zlen (free_list t))) by lia. done.
    + rewrite Hz. pose proof (zlen_nonneg rest). lia.
  - apply py_pop_None in Hpop. exists t, []. rewrite Hpop, app_nil_r in *.
    rewrite bool_decide_eq_false_2 by (unfold zlen in *; simpl; lia).
    assert (mkSeqState (pages st) (l_acc st) (l_seq st) = st) as -> by (by destruct st).
    split; [by split|split; [by rewrite app_nil_r|split; [done|]]]. unfold zlen. simpl. lia.
Qed.

Lemma drop_pages_spec fuel t k st keep :
  table_wf t → dict_get (seqs t) k = Some st → l_seq st ≤ block_size t * keep → 0 ≤ keep →
  zlen (pages st) - keep ≤ Z.of_nat fuel →
  ∃ t', drop_pages fuel k keep t = (t', Ok tt) ∧
    reseq t t' k (mkSeqState (take (Z.to_nat keep) (pages st)) (l_acc st) (l_seq st))
      (free_list t ++ reverse (drop (Z.to_nat keep) (pages st))).
Proof.
  revert t st. induction fuel as [|fuel IH]; intros t st Hwf Hk Hle Hkeep Hfuel;
    cbn [drop_pages]; rewrite (bind_ok _ _ _ _ _ (get_seq_run _ _ _ Hk)); case_match eqn:Hlt;
    rewrite ?Z.ltb_lt, ?Z.ltb_ge in Hlt; try lia.
  1, 3: exists t; split; [done|]; unfold zlen in Hlt; rewrite take_ge, drop_ge by lia;
    rewrite reverse_nil, app_nil_r; destruct st; by split.
  destruct (py_pop (pages st)) as [[page rest]|] eqn:Hpop.
  - apply py_pop_Some in Hpop. rewrite modify_bind.
    assert (zlen (pages st) = zlen rest + 1) as Hlen by (by rewrite Hpop, zlen_app).
    assert (0 < block_size t) by apply Hwf.
    assert (table_wf (set_free (free_list t ++ [page])
              (set_seq k (mkSeqState rest (l_acc st) (l_seq st)) t))) as Hwf1
      by (eapply table_wf_drop_page; [done|done|done|nia]).
    edestruct (IH _ (mkSeqState rest (l_acc st) (l_seq st)) Hwf1) as (t' & Hrun & Hrs);
      [apply dict_get_set_eq|done|done|simpl; lia|].
    exists t'. split; [exact Hrun|]. eapply reseq_trans.
    + split; try done; [apply dict_get_set_eq|]. intros. by apply dict_get_set_ne.
    + simpl in Hrs. unfold zlen in *. rewrite Hpop.
      rewrite take_app_le, drop_app_le, reverse_app by lia. simpl.
      by rewrite <- (assoc_L (++)) in Hrs.
  - apply py_pop_None in Hpop. rewrite Hpop in Hlt. unfold zlen in Hlt. simpl in Hlt. lia.
Qed.
End PagedKV_loops.

(** ** Addresses

    Token [pos] of a sequence lives in row [page * block_size + pos mod block_size]
    of the slab; pages are held once, so different tokens never share a row. *)

Definition seq_addr (bs : Z) (st : SeqState) (pos : Z) : option Z :=
  p ← pages st !! Z.to_nat (pos / bs); Some (p * bs + pos mod bs).

Section PagedKV_rows.
Context {T V : Type} `{!Slab T V, !SlabLaws T V}.
Implicit Types (t : PagedKVTable T) (st : SeqState).

(** The key (value) stored for token [pos], batch-head [b], component [d]. *)
Definition k_at t (seq_id pos b d : Z) : option V :=
  st ← dict_get (seqs t) seq_id; a ← seq_addr (block_size t) st pos;
  Some (slab_get (tbl_k t) a b d).
Definition v_at t (seq_id pos b d : Z) : option V :=
  st ← dict_get (seqs t) seq_id; a ← seq_addr (block_size t) st pos;
  Some (slab_get (tbl_v t) a b d).

(** [x'] is [x] with rows [pos, end) of sequence [st] taken from [src] at [off]. *)
Record written (bs : Z) st (x x' src : T) (b0 b1 D off pos end_ : Z) : Prop := mkWritten {
  wr_shape : slab_shape x' = slab_shape x;
  wr_in p a b d :
    pos ≤ p < end_ → seq_addr bs st p = Some a →
    slab_get x' a b d = if bool_decide (b0 ≤ b < b1 ∧ 0 ≤ d < D)
                        then slab_get src (off + (p - pos)) (b - b0) d else slab_get x a b d;
  wr_out a b d :
    (∀ p, pos ≤ p < end_ → seq_addr bs st p ≠ Some a) → slab_get x' a b d = slab_get x a b d;
}.

Definition addr_inj (bs : Z) st : Prop :=
  ∀ p q a, 0 ≤ p → 0 ≤ q → seq_addr bs st p = Some a → seq_addr bs st q = Some a → p = q.

Lemma written_nil bs st x src b0 b1 D off pos end_ :
  end_ ≤ pos → written bs st x x src b0 b1 D off pos end_.
Proof. intros. split; [done| |done]. intros. lia. Qed.

Lemma written_trans bs st x x1 x2 src b0 b1 D off pos mid end_ :
  addr_inj bs st → 0 ≤ pos ≤ mid → mid ≤ end_ →
  written bs st x x1 src b0 b1 D off pos mid →
  written bs st x1 x2 src b0 b1 D (off + (mid - pos)) mid end_ →
  written bs st x x2 src b0 b1 D off pos end_.
Proof.
  intros Hinj ? ? [Hs1 Hi1 Ho1] [Hs2 Hi2 Ho2]. split; [congruence| |].
  - intros p a b d Hp Ha. destruct (decide (p < mid)).
    + rewrite Ho2; [by apply Hi1; [lia|]|]. intros q Hq Hqa.
      assert (p = q) by (eapply Hinj; eauto; lia). lia.
    + rewrite (Hi2 p) by (try done; lia). case_bool_decide.
      * f_equal. lia.
      * apply Ho1. intros q Hq Hqa. assert (p = q) by (eapply Hinj; eauto; lia). lia.
  - intros a b d Ha. rewrite Ho2, Ho1; [done| |]; intros; apply Ha; lia.
Qed.

Lemma seq_addr_chunk bs st pos p page :
  0 < bs → 0 ≤ pos ≤ p → p < pos + (bs - pos mod bs) →
  pages st !! Z.to_nat (pos / bs) = Some page →
  seq_addr bs st p = Some (page * bs + pos mod bs + (p - pos)).
Proof.
  intros Hbs Hp Hlt Hpage. unfold seq_addr.
  pose proof (Z.mod_pos_bound pos bs Hbs). pose proof (Z.div_mod pos bs ltac:(lia)).
  assert (p / bs = pos / bs) as -> by (symmetry; apply (Z.div_unique p bs _ (pos mod bs + (p - pos))); lia).
  assert (p mod bs = pos mod bs + (p - pos)) as ->
    by (symmetry; apply (Z.mod_unique p bs (pos / bs)); lia).
  rewrite Hpage. simpl. f_equal. lia.
Qed.

(** One in-place slice assignment into a page. *)
Lemma assign_written bs st (x src : T) b0 b1 B D R off pos n page rows :
  0 < bs → 0 ≤ pos → 0 ≤ n ≤ bs - pos mod bs →
  pages st !! Z.to_nat (pos / bs) = Some page → 0 ≤ page → (page + 1) * bs ≤ rows →
  slab_shape x = [rows; B; D] → slab_shape src = [R; b1 - b0; D] →
  0 ≤ b0 ≤ b1 → b1 ≤ B → 0 ≤ off → off + n ≤ R →
  ∃ x', slab_assign x (page * bs + pos mod bs, page * bs + pos mod bs + n) (b0, b1)
          src (off, off + n) = Ok x' ∧
    written bs st x x' src b0 b1 D off pos (pos + n).
Proof.
  intros Hbs Hpos Hn Hpage Hp0 Hrows Hx Hsrc Hb Hb1 Hoff HR.
  pose proof (Z.mod_pos_bound pos bs Hbs).
  destruct (slab_assign_spec x (page * bs + pos mod bs) (page * bs + pos mod bs + n) b0 b1
              src off (off + n) rows B D R) as (x' & Hrun & Hget); [done|done|nia|nia|lia..|].
  exists x'. split; [done|]. split; [by eapply slab_assign_shape| |].
  - intros p a b d Hp Ha. rewrite (seq_addr_chunk bs st pos p page) in Ha by (done || lia). simplify_eq.
    rewrite Hget. repeat case_bool_decide; try lia; [|done]. f_equal. lia.
  - intros a b d Hno. rewrite Hget. case_bool_decide as Hin; [|done].
    destruct Hin as (Ha & _). exfalso. apply (Hno (pos + (a - (page * bs + pos mod bs)))); [lia|].
    rewrite (seq_addr_chunk bs st pos _ page) by (done || lia). f_equal. lia.
Qed.
End PagedKV_rows.

Section PagedKV_write.
Context {T V : Type} `{!Slab T V, !SlabLaws T V}.
Implicit Types (t : PagedKVTable T) (st : SeqState).

Lemma all_pages_in d k st p : dict_get d k = Some st → p ∈ pages st → p ∈ all_pages d.
Proof.
  intros Hk%dict_elem_get Hp. apply list_elem_of_bind. exists (k, st). done.
Qed.

Lemma table_wf_page t k st p :
  table_wf t → dict_get (seqs t) k = Some st → p ∈ pages st → 0 ≤ p < num_pages t.
Proof.
  intros [_ _ Hpg _ _] Hk Hp. assert (p ∈ seqZ 0 (num_pages t)) as Hin.
  { rewrite <- Hpg. apply elem_of_app. right. by eapply all_pages_in. }
  apply elem_of_seqZ in Hin. lia.
Qed.

Lemma all_pages_NoDup t : table_wf t → NoDup (all_pages (seqs t)).
Proof.
  intros [_ _ Hpg _ _]. assert (NoDup (free_list t ++ all_pages (seqs t))) as Hnd
    by (rewrite Hpg; apply NoDup_seqZ). by apply NoDup_app in Hnd as (_ & _ & ?).
Qed.

(** Tokens at the same address are the same token of the same sequence. *)
Lemma table_wf_addr_inj t k1 k2 st1 st2 p q a :
  table_wf t → dict_get (seqs t) k1 = Some st1 → dict_get (seqs t) k2 = Some st2 →
  0 ≤ p → 0 ≤ q →
  seq_addr (block_size t) st1 p = Some a → seq_addr (block_size t) st2 q = Some a →
  k1 = k2 ∧ p = q.
Proof.
  intros Hwf Hk1 Hk2 Hp Hq Ha1 Ha2. pose proof (wf_bs _ Hwf) as Hbs.
  pose proof (all_pages_NoDup _ Hwf) as Hnd. unfold seq_addr in *.
  apply bind_Some in Ha1 as (x & Hx & [= Hxa]). apply bind_Some in Ha2 as (y & Hy & [= Hya]).
  pose proof (Z.mod_pos_bound p _ Hbs). pose proof (Z.mod_pos_bound q _ Hbs).
  assert (x = y ∧ p mod block_size t = q mod block_size t) as [-> Hmod]
    by (eapply divmod_inj; [done|done|congruence]).
  destruct (dict_get_Some_split _ _ _ Hk1) as (d1 & d2 & Hd & Hn1).
  assert (k1 = k2) as <-.
  { destruct (decide (k1 = k2)) as [|Hne]; [done|exfalso].
    assert (y ∈ all_pages (d1 ++ d2)) as Hin.
    { eapply all_pages_in; [|eapply list_elem_of_lookup_2; exact Hy].
      rewrite <- (dict_del_split d1 d2 k1 st1), <- Hd by done. by rewrite dict_get_del_ne. }
    assert (NoDup (pages st1 ++ all_pages (d1 ++ d2))) as Hnd'.
    { assert (pages st1 ++ all_pages (d1 ++ d2) ≡ₚ all_pages (seqs t)) as ->; [|done].
      rewrite Hd, !all_pages_app, all_pages_cons. solve_Permutation. }
    apply NoDup_app in Hnd' as (_ & Hdisj & _).
    by eapply Hdisj; [eapply list_elem_of_lookup_2; exact Hx|]. }
  split; [done|]. simplify_eq.
  assert (NoDup (pages st1)) as Hnd1.
  { rewrite Hd, all_pages_app, all_pages_cons in Hnd.
    apply NoDup_app in Hnd as (_ & _ & Hnd). by apply NoDup_app in Hnd as (? & _ & _). }
  pose proof (NoDup_lookup _ _ _ _ Hnd1 Hx Hy) as Hdiv.
  pose proof (Z.div_pos p _ Hp Hbs). pose proof (Z.div_pos q _ Hq Hbs).
  apply Z2Nat.inj in Hdiv; [|done|done].
  rewrite (Z.div_mod p (block_size t)), (Z.div_mod q (block_size t)) by lia. lia.
Qed.

Lemma table_wf_set_kv t k' v' :
  table_wf t → slab_shape k' = slab_shape (tbl_k t) → slab_shape v' = slab_shape (tbl_v t) →
  table_wf (set_v v' (set_k k' t)).
Proof.
  intros [? ? ? ? (Hkv & w & d & ?)] Hk Hv. split; simpl; try done.
  split; [congruence|]. exists w, d. congruence.
Qed.

Lemma write_pages_spec fuel t k st k_new v_new b0 b1 B D R off pos end_ :
  table_wf t → dict_get (seqs t) k = Some st → 0 ≤ pos → end_ ≤ block_size t * zlen (pages st) →
  slab_shape (tbl_k t) = [num_pages t * block_size t; B; D] →
  slab_shape k_new = [R; b1 - b0; D] → slab_shape v_new = [R; b1 - b0; D] →
  0 ≤ b0 ≤ b1 → b1 ≤ B → 0 ≤ off → off + (end_ - pos) ≤ R → end_ - pos ≤ Z.of_nat fuel →
  ∃ k' v', write_pages fuel k k_new v_new (b0, b1) pos off end_ t
             = (set_v v' (set_k k' t), Ok tt) ∧
    written (block_size t) st (tbl_k t) k' k_new b0 b1 D off pos end_ ∧
    written (block_size t) st (tbl_v t) v' v_new b0 b1 D off pos end_.
Proof.
  revert t off pos. induction fuel as [|fuel IH];
    intros t off pos Hwf Hk Hpos Hend Hsh Hkn Hvn Hb HB Hoff HR Hfuel; cbn [write_pages];
    case_match eqn:Hlt; rewrite ?Z.ltb_lt, ?Z.ltb_ge in Hlt; try lia.
  1, 3: exists (tbl_k t), (tbl_v t); split; [by destruct t|split; by apply written_nil].
  pose proof (wf_bs _ Hwf) as Hbs. pose proof (Z.mod_pos_bound pos _ Hbs).
  pose proof (Z.div_mod pos (block_size t) ltac:(lia)).
  pose proof (Z.div_pos pos _ Hpos Hbs).
  rewrite get_bind, (bind_ok _ _ _ _ _ (get_seq_run _ _ _ Hk)). cbv zeta.
  set (n := Z.min _ _).
  destruct (lookup_lt_is_Some_2 (pages st) (Z.to_nat (pos / block_size t))) as [page Hpage];
    [unfold zlen in Hend; nia|].
  pose proof (table_wf_page _ _ _ page Hwf Hk ltac:(by eapply list_elem_of_lookup_2)).
  rewrite py_index_nonneg, Hpage by done. simpl of_option. rewrite lift_ok_bind.
  pose proof (wf_shape _ Hwf) as (Hkv & _).
  destruct (assign_written (block_size t) st (tbl_k t) k_new b0 b1 B D R off pos n page
              (num_pages t * block_size t)) as (k1 & Hk1 & Hwk);
    [by first [done | lia | nia]..|].
  destruct (assign_written (block_size t) st (tbl_v t) v_new b0 b1 B D R off pos n page
              (num_pages t * block_size t)) as (v1 & Hv1 & Hwv);
    [by first [done | lia | nia | congruence]..|].
  rewrite Hk1, lift_ok_bind, modify_bind. cbn [tbl_v set_k]. rewrite Hv1, lift_ok_bind, modify_bind.
  assert (table_wf (set_v v1 (set_k k1 t))) as Hwf1
    by (apply table_wf_set_kv; [done|apply Hwk|apply Hwv]).
  assert (addr_inj (block_size t) st) as Hinj.
  { intros p q a Hp Hq Hpa Hqa. by eapply (table_wf_addr_inj t k k). }
  destruct (IH _ (off + n) (pos + n) Hwf1 Hk) as (k2 & v2 & Hrun & Hwk2 & Hwv2);
    [by first [done | lia | simpl; rewrite (wr_shape _ _ _ _ _ _ _ _ _ _ _ Hwk)]..|].
  exists k2, v2. split; [exact Hrun|].
  replace (off + n) with (off + (pos + n - pos)) in * by lia. simpl in *.
  split; (eapply written_trans; [exact Hinj|..|eassumption|eassumption]; lia).
Qed.
End PagedKV_write.

(** ** Operations *)

Section PagedKV_ops.
Context {T V : Type} `{!Slab T V, !SlabLaws T V}.
Implicit Types (t : PagedKVTable T) (st : SeqState).

Lemma ensure_capacity_pages t k st n :
  table_wf t → dict_get (seqs t) k = Some st →
  ∃ t' extra,
    reseq t t' k (mkSeqState (pages st ++ extra) (l_acc st) (l_seq st)) (free_list t') ∧
    free_list t = free_list t' ++ reverse extra ∧
    ensure_capacity k n t =
      (t', if bool_decide (pages_for (block_size t) n - zlen (pages st) ≤ num_free_pages t)
           then Ok tt else Raise PagedKVError) ∧
    zlen (pages st ++ extra) =
      Z.max (zlen (pages st))
        (Z.min (pages_for (block_size t) n) (zlen (pages st) + zlen (free_list t))).
Proof.
  intros Hwf Hk. unfold ensure_capacity.
  rewrite (bind_ok _ _ _ _ _ (get_seq_run _ _ _ Hk)), get_bind. cbv zeta.
  apply grow_pages_spec; [done..|]. pose proof (zlen_nonneg (pages st)). lia.
Qed.

Lemma ensure_capacity_spec t k st n :
  table_wf t → dict_get (seqs t) k = Some st →
  ∃ t' extra,
    reseq t t' k (mkSeqState (pages st ++ extra) (l_acc st) (l_seq st)) (free_list t') ∧
    free_list t = free_list t' ++ reverse extra ∧
    ensure_capacity k n t =
      (t', if bool_decide (pages_for (block_size t) n - zlen (pages st) ≤ num_free_pages t)
           then Ok tt else Raise PagedKVError) ∧
    (pages_for (block_size t) n - zlen (pages st) ≤ num_free_pages t →
       n ≤ block_size t * zlen (pages st ++ extra)).
Proof.
  intros Hwf Hk.
  destruct (ensure_capacity_pages t k st n Hwf Hk) as (t' & extra & Hrs & Hfl & Hrun & Hz).
  exists t', extra. split; [done|]. split; [done|]. split; [done|].
  intros Hfit. apply pages_for_le; [apply Hwf|]. unfold num_free_pages in Hfit. lia.
Qed.

Lemma advance_spec t k st n c :
  table_wf t → dict_get (seqs t) k = Some st → n ≤ block_size t * zlen (pages st) →
  ∃ t', advance k n c t = (t', Ok tt) ∧
    reseq t t' k (mkSeqState (pages st) (if c then Z.max (l_acc st) n else l_acc st)
                    (Z.max (l_seq st) n)) (free_list t).
Proof.
  intros Hwf Hk Hn. unfold advance. rewrite (bind_ok _ _ _ _ _ (get_seq_run _ _ _ Hk)). cbv zeta.
  eexists. split; [done|].
  assert (seq_wf (block_size t) st) as [? ?]
    by exact (Forall_dict_get _ _ _ _ (wf_seqs _ Hwf) Hk).
  replace (if l_seq st <? n then n else l_seq st) with (Z.max (l_seq st) n)
    by (destruct (Z.ltb_spec (l_seq st) n); lia).
  replace (if c && (l_acc st <? n) then n else l_acc st)
    with (if c then Z.max (l_acc st) n else l_acc st)
    by (destruct c; simpl; [destruct (Z.ltb_spec (l_acc st) n)|]; lia).
  eapply reseq_set_seq; [done|done|done|]. split; simpl; [destruct c|]; lia.
Qed.

Lemma register_wf t k :
  table_wf t → dict_get (seqs t) k = None → table_wf (set_seq k (mkSeqState [] 0 0) t).
Proof.
  intros [] Hk. split; simpl; [done|by auto with py| | |done].
  - by rewrite dict_set_new, all_pages_app, all_pages_cons, !app_nil_r.
  - apply Forall_dict_set; [done|]. split; unfold zlen; simpl; lia.
Qed.

Lemma register_preserves k : preserves table_wf (register_sequence (T := T) k).
Proof.
  intros t Hwf. unfold register_sequence. rewrite get_bind. unfold dict_mem.
  case_match eqn:E; [done|]. case_match; [done|]. by apply register_wf.
Qed.

Lemma release_preserves k : preserves table_wf (release_sequence (T := T) k).
Proof.
  intros t Hwf. unfold release_sequence. rewrite get_bind. case_match eqn:E; [|done].
  destruct Hwf as [? ? Hpg Hsq ?]. split; simpl; [done|by auto with py| | |done].
  - rewrite <- Hpg, <- (assoc_L (++)). by rewrite all_pages_del.
  - apply Forall_forall. intros kv Hkv. rewrite Forall_forall in Hsq. apply Hsq.
    eapply elem_of_submseteq; [done|]. apply sublist_submseteq, dict_del_sublist.
Qed.

Lemma ensure_capacity_preserves k n : preserves table_wf (ensure_capacity (T := T) k n).
Proof.
  intros t Hwf. destruct (dict_get (seqs t) k) as [st|] eqn:E.
  - destruct (ensure_capacity_spec t k st n Hwf E) as (t' & extra & Hrs & _ & -> & _). apply Hrs.
  - unfold ensure_capacity. by rewrite (bind_raise _ _ _ _ _ (get_seq_none _ _ E)).
Qed.

(** Writing pages touches the backing tensors only. *)
Definition same_pages t0 t : Prop :=
  table_wf t ∧ seqs t = seqs t0 ∧ block_size t = block_size t0 ∧ free_list t = free_list t0.

Lemma same_pages_set_k t0 t k' :
  same_pages t0 t → slab_shape k' = slab_shape (tbl_k t) → same_pages t0 (set_k k' t).
Proof.
  intros ([? ? ? ? (? & w & d & ?)] & ? & ? & ?) Hk. split; [|done]. split; simpl; try done.
  split; [congruence|exists w, d; congruence].
Qed.

Lemma same_pages_set_v t0 t v' :
  same_pages t0 t → slab_shape v' = slab_shape (tbl_v t) → same_pages t0 (set_v v' t).
Proof.
  intros ([? ? ? ? (? & w & d & ?)] & ? & ? & ?) Hk. split; [|done]. split; simpl; try done.
  split; [congruence|exists w, d; congruence].
Qed.

Lemma write_pages_same fuel k k_new v_new bh pos off end_ t0 :
  preserves (same_pages t0) (write_pages (T := T) fuel k k_new v_new bh pos off end_).
Proof.
  revert pos off. induction fuel as [|fuel IH]; intros pos off t Hwf; cbn [write_pages];
    (case_match; [|done]); [done|]. rewrite get_bind.
  destruct (dict_get (seqs t) k) as [st|] eqn:Hk;
    [|by rewrite (bind_raise _ _ _ _ _ (get_seq_none _ _ Hk))].
  rewrite (bind_ok _ _ _ _ _ (get_seq_run _ _ _ Hk)). cbv zeta.
  destruct (py_index _ _) as [page|]; [|done]. simpl of_option. rewrite lift_ok_bind.
  destruct (slab_assign (tbl_k t) _ _ _ _) as [k1|] eqn:Ek; [|done].
  rewrite lift_ok_bind, modify_bind. apply slab_assign_shape in Ek.
  pose proof (same_pages_set_k _ _ _ Hwf Ek) as Hwf1.
  destruct (slab_assign (tbl_v _) _ _ _ _) as [v1|] eqn:Ev; [|done].
  rewrite lift_ok_bind, modify_bind. apply slab_assign_shape in Ev.
  apply IH. by apply same_pages_set_v.
Qed.

Lemma write_preserves k start k_new v_new bh c :
  preserves table_wf (write (T := T) k start k_new v_new bh c).
Proof.
  intros t Hwf. unfold write. case_match; [done|]. case_match; [done|].
  destruct (py_index _ 0) as [s_new|]; [|done]. simpl of_option. rewrite lift_ok_bind.
  case_match; [done|]. cbv zeta.
  destruct (dict_get (seqs t) k) as [st|] eqn:E.
  2:{ rewrite (bind_raise _ _ t t KeyError); [done|]. unfold ensure_capacity.
      by rewrite (bind_raise _ _ _ _ _ (get_seq_none _ _ E)). }
  destruct (ensure_capacity_spec t k st (start + s_new) Hwf E) as (t1 & extra & Hrs & _ & Hrun & Hcap).
  case_bool_decide; [|rewrite (bind_raise _ _ _ _ _ Hrun); apply Hrs].
  rewrite (bind_ok _ _ _ _ _ Hrun).
  pose proof (write_pages_same (Z.to_nat s_new) k k_new v_new bh start 0 (start + s_new) t1 t1)
    as Hsame. destruct Hsame as (Hwf2 & Hsq & Hbs & _); [split; [apply Hrs|done]|].
  destruct (write_pages _ _ _ _ _ _ _ _ t1) as [t2 [[]|e]] eqn:Hw;
    [rewrite (bind_ok _ _ _ _ _ Hw)|by rewrite (bind_raise _ _ _ _ _ Hw)]. simpl in *.
  edestruct (advance_spec t2 k) as (t3 & -> & Hrs3); [done|rewrite Hsq; apply Hrs| |apply Hrs3].
  rewrite Hbs, (rs_bs _ _ _ _ _ Hrs). by apply Hcap.
Qed.

Lemma track_write_preserves k start s_new c :
  preserves table_wf (track_write (T := T) k start s_new c).
Proof.
  intros t Hwf. unfold track_write. case_match; [done|]. rewrite get_bind. cbv zeta.
  assert (∃ t1 st, table_wf t1 ∧ dict_get (seqs t1) k = Some st ∧
            (if dict_mem (seqs t) k then mret tt else register_sequence k) t = (t1, Ok tt))
    as (t1 & st & Hwf1 & Hk & Hrun).
  { unfold dict_mem. destruct (dict_get (seqs t) k) as [st|] eqn:E; [by exists t, st|].
    eexists (set_seq k (mkSeqState [] 0 0) t), _. split; [by apply register_wf|].
    split; [apply dict_get_set_eq|]. unfold register_sequence. rewrite get_bind. unfold dict_mem.
    by rewrite E. }
  rewrite (bind_ok _ _ _ _ _ Hrun).
  destruct (ensure_capacity_spec t1 k st (start + s_new) Hwf1 Hk)
    as (t2 & extra & Hrs & _ & Hrun2 & Hcap).
  case_bool_decide; [|rewrite (bind_raise _ _ _ _ _ Hrun2); apply Hrs].
  rewrite (bind_ok _ _ _ _ _ Hrun2).
  edestruct (advance_spec t2 k) as (t3 & -> & Hrs3); [apply Hrs|apply Hrs| |apply Hrs3].
  rewrite (rs_bs _ _ _ _ _ Hrs). by apply Hcap.
Qed.

Lemma commit_preserves k up_to : preserves table_wf (commit (T := T) k up_to).
Proof.
  intros t Hwf. unfold commit. destruct (dict_get (seqs t) k) as [st|] eqn:Hk;
    [|by rewrite (bind_raise _ _ _ _ _ (get_seq_none _ _ Hk))].
  rewrite (bind_ok _ _ _ _ _ (get_seq_run _ _ _ Hk)). cbv zeta.
  case_match eqn:E1; [done|]. case_match eqn:E2; [|done].
  rewrite ?Z.ltb_lt, ?Z.ltb_ge in *.
  assert (seq_wf (block_size t) st) as [? ?] by exact (Forall_dict_get _ _ _ _ (wf_seqs _ Hwf) Hk).
  eapply table_wf_set_seq; [done|done|done|]. split; simpl; lia.
Qed.

Lemma rollback_spec t k st target :
  table_wf t → dict_get (seqs t) k = Some st →
  if bool_decide (0 ≤ target ≤ l_acc st) then
    ∃ t', rollback k target t = (t', Ok tt) ∧
      let keep := Z.to_nat (pages_for (block_size t) target) in
      reseq t t' k (mkSeqState (take keep (pages st)) target target)
        (free_list t ++ reverse (drop keep (pages st)))
  else rollback k target t = (t, Raise PagedKVError).
Proof.
  intros Hwf Hk. unfold rollback. rewrite (bind_ok _ _ _ _ _ (get_seq_run _ _ _ Hk)).
  case_bool_decide as Ht.
  2:{ destruct (Z.ltb_spec (l_acc st) target); [done|].
      destruct (Z.ltb_spec target 0); [done|lia]. }
  rewrite (proj2 (Z.ltb_ge _ _)), (proj2 (Z.ltb_ge target 0)) by lia.
  rewrite modify_bind, get_bind. cbv zeta.
  assert (seq_wf (block_size t) st) as [? ?] by exact (Forall_dict_get _ _ _ _ (wf_seqs _ Hwf) Hk).
  pose proof (wf_bs _ Hwf).
  assert (reseq t (set_seq k (mkSeqState (pages st) target target) t) k
            (mkSeqState (pages st) target target) (free_list t)) as Hrs1
    by (eapply reseq_set_seq; [done|done|done|split; simpl; lia]).
  pose proof (proj1 (pages_for_le (block_size t) target _ ltac:(lia)) (Z.le_refl _)).
  assert (0 ≤ pages_for (block_size t) target) by (unfold pages_for; apply Z.div_pos; lia).
  edestruct (drop_pages_spec (length (pages st)) _ k _ (pages_for (block_size t) target)
               (rs_wf _ _ _ _ _ Hrs1) (rs_seq _ _ _ _ _ Hrs1)) as (t' & Hrun & Hrs);
    [done|done|simpl; unfold zlen; lia|].
  exists t'. split; [exact Hrun|]. by eapply reseq_trans.
Qed.

Lemma rollback_preserves k target : preserves table_wf (rollback (T := T) k target).
Proof.
  intros t Hwf. destruct (dict_get (seqs t) k) as [st|] eqn:Hk.
  - pose proof (rollback_spec t k st target Hwf Hk) as Hsp. case_bool_decide.
    + destruct Hsp as (t' & -> & Hrs). apply Hrs.
    + by rewrite Hsp.
  - unfold rollback. by rewrite (bind_raise _ _ _ _ _ (get_seq_none _ _ Hk)).
Qed.
End PagedKV_ops.

(** ** Reading *)

Section PagedKV_read.
Context {T V : Type} `{!Slab T V, !SlabLaws T V}.
Implicit Types (t : PagedKVTable T) (st : SeqState).

(** [out'] is [out] with rows [pos, end) read from [x] through the page table. *)
Record copied (bs : Z) st (x out out' : T) (b0 b1 D pos end_ : Z) : Prop := mkCopied {
  cp_shape : slab_shape out' = slab_shape out;
  cp_in p a b d :
    pos ≤ p < end_ → seq_addr bs st p = Some a → 0 ≤ b < b1 - b0 → 0 ≤ d < D →
    slab_get out' p b d = slab_get x a (b0 + b) d;
  cp_out p b d : ¬ (pos ≤ p < end_) → slab_get out' p b d = slab_get out p b d;
}.

Lemma copied_trans bs st x o o1 o2 b0 b1 D pos mid end_ :
  pos ≤ mid ≤ end_ → copied bs st x o o1 b0 b1 D pos mid → copied bs st x o1 o2 b0 b1 D mid end_ →
  copied bs st x o o2 b0 b1 D pos end_.
Proof.
  intros ? [Hs1 Hi1 Ho1] [Hs2 Hi2 Ho2]. split; [congruence| |].
  - intros p a b d Hp Ha Hb Hd. destruct (decide (p < mid)).
    + rewrite Ho2 by lia. apply Hi1; [lia|done..].
    + apply Hi2; [lia|done..].
  - intros p b d Hp. rewrite Ho2, Ho1 by lia. done.
Qed.

Lemma extract_copied bs st (x o : T) b0 b1 B D R pos n page rows :
  0 < bs → 0 ≤ pos → 0 ≤ n ≤ bs - pos mod bs →
  pages st !! Z.to_nat (pos / bs) = Some page → 0 ≤ page → (page + 1) * bs ≤ rows →
  slab_shape x = [rows; B; D] → slab_shape o = [R; b1 - b0; D] →
  0 ≤ b0 ≤ b1 → b1 ≤ B → pos + n ≤ R →
  ∃ o', slab_extract o (pos, pos + n) x
          (page * bs + pos mod bs, page * bs + pos mod bs + n) (b0, b1) = Ok o' ∧
    copied bs st x o o' b0 b1 D pos (pos + n).
Proof.
  intros Hbs Hpos Hn Hpage Hp0 Hrows Hx Ho Hb Hb1 HR. pose proof (Z.mod_pos_bound pos bs Hbs).
  destruct (slab_extract_spec o pos (pos + n) x (page * bs + pos mod bs)
              (page * bs + pos mod bs + n) b0 b1 rows B D R) as (o' & Hrun & Hsh & Hget);
    [by first [done | lia | nia]..|].
  exists o'. split; [done|]. split; [done| |].
  - intros p a b d Hp Ha Hbb Hd. rewrite (seq_addr_chunk bs st pos p page) in Ha by (done || lia).
    simplify_eq. rewrite Hget, bool_decide_eq_true_2 by lia. done.
  - intros p b d Hp. rewrite Hget, bool_decide_eq_false_2 by lia. done.
Qed.

Lemma gather_pages_spec fuel t k st ko vo b0 b1 B D R pos len :
  table_wf t → dict_get (seqs t) k = Some st → 0 ≤ pos → len ≤ block_size t * zlen (pages st) →
  slab_shape (tbl_k t) = [num_pages t * block_size t; B; D] →
  slab_shape ko = [R; b1 - b0; D] → slab_shape vo = [R; b1 - b0; D] →
  0 ≤ b0 ≤ b1 → b1 ≤ B → len ≤ R → len - pos ≤ Z.of_nat fuel →
  ∃ ko' vo', gather_pages fuel t st (b0, b1) ko vo pos len = Ok (ko', vo') ∧
    copied (block_size t) st (tbl_k t) ko ko' b0 b1 D pos len ∧
    copied (block_size t) st (tbl_v t) vo vo' b0 b1 D pos len.
Proof.
  intros Hwf Hk. revert ko vo pos. induction fuel as [|fuel IH];
    intros ko vo pos Hpos Hlen Hsh Hko Hvo Hb HB HR Hfuel; cbn [gather_pages];
    case_match eqn:Hlt; rewrite ?Z.ltb_lt, ?Z.ltb_ge in Hlt; try lia.
  1, 3: exists ko, vo; split; [done|split; by split; [done|intros; lia|done]].
  pose proof (wf_bs _ Hwf) as Hbs. pose proof (Z.mod_pos_bound pos _ Hbs).
  pose proof (Z.div_mod pos (block_size t) ltac:(lia)). pose proof (Z.div_pos pos _ Hpos Hbs).
  cbv zeta. set (n := Z.min _ _).
  destruct (lookup_lt_is_Some_2 (pages st) (Z.to_nat (pos / block_size t))) as [page Hpage];
    [unfold zlen in Hlen; nia|].
  pose proof (table_wf_page t k st page Hwf Hk ltac:(by eapply list_elem_of_lookup_2)).
  pose proof (wf_shape _ Hwf) as (Hkv & _).
  rewrite py_index_nonneg, Hpage by done. simpl of_option. unfold mbind, res_bind.
  destruct (extract_copied (block_size t) st (tbl_k t) ko b0 b1 B D R pos n page
              (num_pages t * block_size t)) as (k1 & -> & Hck); [by first [done|lia|nia]..|].
  destruct (extract_copied (block_size t) st (tbl_v t) vo b0 b1 B D R pos n page
              (num_pages t * block_size t)) as (v1 & -> & Hcv);
    [by first [done|lia|nia|congruence]..|].
  destruct (IH k1 v1 (pos + n)) as (k2 & v2 & Hrun & Hck2 & Hcv2);
    [by first [done|lia|rewrite (cp_shape _ _ _ _ _ _ _ _ _ _ Hck)
              |rewrite (cp_shape _ _ _ _ _ _ _ _ _ _ Hcv)]..|].
  exists k2, v2. split; [exact Hrun|].
  split; (eapply copied_trans; [|eassumption|eassumption]; lia).
Qed.

(** Every token below the capacity of a sequence has a row. *)
Lemma seq_addr_Some bs st p :
  0 < bs → 0 ≤ p < bs * zlen (pages st) → ∃ a, seq_addr bs st p = Some a.
Proof.
  intros Hbs Hp. unfold seq_addr, zlen in *. pose proof (Z.div_mod p bs ltac:(lia)).
  pose proof (Z.mod_pos_bound p bs Hbs). pose proof (Z.div_pos p bs ltac:(lia) Hbs).
  destruct (lookup_lt_is_Some_2 (pages st) (Z.to_nat (p / bs))) as [page ->]; [nia|].
  by eexists.
Qed.

Lemma gather_prefix_spec t k st b0 b1 B D length :
  table_wf t → dict_get (seqs t) k = Some st →
  slab_shape (tbl_k t) = [num_pages t * block_size t; B; D] → 0 ≤ D →
  0 ≤ b0 ≤ b1 → b1 ≤ B → 0 ≤ default (l_acc st) length ≤ l_acc st →
  ∃ ko vo, gather_prefix t k (b0, b1) length None = Ok (ko, vo) ∧
    ∀ p b d, 0 ≤ p < default (l_acc st) length → 0 ≤ b < b1 - b0 → 0 ≤ d < D →
      Some (slab_get ko p b d) = k_at t k p (b0 + b) d ∧
      Some (slab_get vo p b d) = v_at t k p (b0 + b) d.
Proof.
  intros Hwf Hk Hsh HD Hb HB Hlen. unfold gather_prefix.
  rewrite Hk. simpl of_option. unfold mbind at 1, res_bind at 1. cbv zeta.
  rewrite (proj2 (Z.ltb_ge _ _)) by lia. rewrite Hsh.
  change (of_option IndexError (py_index [num_pages t * block_size t; B; D] (-1))) with (Ok D).
  assert (seq_wf (block_size t) st) as [? ?] by exact (Forall_dict_get _ _ _ _ (wf_seqs _ Hwf) Hk).
  destruct (slab_empty_spec (T := T) (V := V) [default (l_acc st) length; b1 - b0; D])
    as (e & He & Hse); [repeat constructor; lia|].
  unfold mbind, res_bind. cbn [fst snd]. rewrite He. cbn [fst snd].
  destruct (gather_pages_spec (Z.to_nat (default (l_acc st) length)) t k st e e b0 b1 B D
              (default (l_acc st) length) 0 (default (l_acc st) length))
    as (ko & vo & Hrun & Hck & Hcv); [by first [done|lia]..|].
  exists ko, vo. split; [exact Hrun|]. intros p b d Hp Hbb Hd. unfold k_at, v_at. rewrite Hk. simpl.
  destruct (seq_addr_Some (block_size t) st p) as [a Ha]; [apply Hwf|lia|]. rewrite Ha. simpl.
  by rewrite (cp_in _ _ _ _ _ _ _ _ _ _ Hck p a), (cp_in _ _ _ _ _ _ _ _ _ _ Hcv p a).
Qed.
End PagedKV_read.

(** ** The contract of the cache *)

Section PagedKV_contract.
Context {T V : Type} `{!Slab T V, !SlabLaws T V}.
Implicit Types (t : PagedKVTable T) (st : SeqState).

Lemma seq_addr_app bs st st' extra p a :
  pages st' = pages st ++ extra → seq_addr bs st p = Some a → seq_addr bs st' p = Some a.
Proof.
  intros Hp. unfold seq_addr. rewrite Hp. intros (x & Hx & Ha)%bind_Some.
  by erewrite lookup_app_l_Some.
Qed.

Lemma write_spec t k st start s_new k_new v_new b0 b1 B D c :
  table_wf t → dict_get (seqs t) k = Some st → 0 ≤ start → 0 < s_new →
  slab_shape (tbl_k t) = [num_pages t * block_size t; B; D] →
  slab_shape k_new = [s_new; b1 - b0; D] → slab_shape v_new = [s_new; b1 - b0; D] →
  0 ≤ b0 ≤ b1 → b1 ≤ B →
  pages_for (block_size t) (start + s_new) - zlen (pages st) ≤ num_free_pages t →
  ∃ t' st' extra, write k start k_new v_new (b0, b1) c t = (t', Ok tt) ∧ table_wf t' ∧
    block_size t' = block_size t ∧ num_pages t' = num_pages t ∧
    slab_shape (tbl_k t') = slab_shape (tbl_k t) ∧
    dict_get (seqs t') k = Some st' ∧ pages st' = pages st ++ extra ∧
    l_acc st' = (if c then Z.max (l_acc st) (start + s_new) else l_acc st) ∧
    l_seq st' = Z.max (l_seq st) (start + s_new) ∧
    (∀ k', k ≠ k' → dict_get (seqs t') k' = dict_get (seqs t) k') ∧
    written (block_size t) st' (tbl_k t) (tbl_k t') k_new b0 b1 D 0 start (start + s_new) ∧
    written (block_size t) st' (tbl_v t) (tbl_v t') v_new b0 b1 D 0 start (start + s_new).
Proof.
  intros Hwf Hk Hstart Hs Hsh Hkn Hvn Hb HB Hfit.
  unfold write. rewrite Hkn, Hvn, bool_decide_eq_true_2 by done.
  change (py_index [s_new; b1 - b0; D] 0) with (Some s_new). change (zlen [s_new; b1 - b0; D] =? 3) with true.
  cbn [negb of_option].
  rewrite lift_ok_bind, (proj2 (Z.eqb_neq s_new 0)) by lia. cbv zeta.
  destruct (ensure_capacity_spec t k st (start + s_new) Hwf Hk) as (t1 & extra & Hrs & _ & Hrun & Hcap).
  rewrite bool_decide_eq_true_2 in Hrun by done. rewrite (bind_ok _ _ _ _ _ Hrun).
  specialize (Hcap Hfit). destruct Hrs as [Hwf1 Hk1 Hoth _ Hkk Hvv Hbs Hnp].
  set (st1 := mkSeqState (pages st ++ extra) (l_acc st) (l_seq st)) in *.
  destruct (write_pages_spec (Z.to_nat s_new) t1 k st1 k_new v_new b0 b1 B D s_new 0 start
              (start + s_new)) as (k' & v' & Hw & Hwk & Hwv);
    [first [done|lia|by rewrite Hbs|by rewrite Hkk, Hnp, Hbs]..|].
  rewrite (bind_ok _ _ _ _ _ Hw).
  destruct (advance_spec (set_v v' (set_k k' t1)) k st1 (start + s_new) c) as (t' & -> & Hrs3);
    [|done|simpl; by rewrite Hbs|].
  { apply table_wf_set_kv; [done|apply Hwk|apply Hwv]. }
  destruct Hrs3 as [Hwf3 Hk3 Hoth3 _ Hkk3 Hvv3 Hbs3 Hnp3]. simpl in *.
  eexists t', _, extra. split; [done|]. split; [done|]. split; [congruence|]. split; [congruence|].
  split; [rewrite Hkk3, (wr_shape _ _ _ _ _ _ _ _ _ _ _ Hwk), Hkk; done|].
  split; [exact Hk3|]. split; [done|]. split; [done|]. split; [done|].
  split; [intros k2 Hne; rewrite Hoth3, Hoth by done; done|].
  rewrite Hkk3, Hvv3, <- Hkk, <- Hvv, <- Hbs.
  split; [destruct Hwk as [? Hi Ho]|destruct Hwv as [? Hi Ho]]; by split.
Qed.

(** A row of the slab after a write, seen through the page table. *)
Lemma written_at bs st' st (x x' src : T) b0 b1 D start end_ p b d a :
  written bs st' x x' src b0 b1 D 0 start end_ → seq_addr bs st' p = Some a →
  (start ≤ p < end_ → b0 ≤ b < b1 → 0 ≤ d < D →
     slab_get x' a b d = slab_get src (p - start) (b - b0) d).
Proof.
  intros [_ Hi _] Ha Hp Hb Hd. rewrite (Hi p) by done. by rewrite bool_decide_eq_true_2 by lia.
Qed.

Lemma written_frame t k st' (x x' src : T) b0 b1 D start end_ k2 st2 p b d a :
  table_wf t → dict_get (seqs t) k = Some st' → dict_get (seqs t) k2 = Some st2 →
  0 ≤ start → 0 ≤ p → seq_addr (block_size t) st2 p = Some a →
  (k2 ≠ k ∨ ¬ (start ≤ p < end_) ∨ ¬ (b0 ≤ b < b1)) →
  written (block_size t) st' x x' src b0 b1 D 0 start end_ →
  slab_get x' a b d = slab_get x a b d.
Proof.
  intros Hwf Hk Hk2 Hs Hp Ha Hne [_ Hi Ho].
  destruct (decide (k2 = k ∧ start ≤ p < end_)) as [[-> Hin]|Hout].
  - rewrite Hk in Hk2. simplify_eq. rewrite (Hi p) by done.
    rewrite bool_decide_eq_false_2 by naive_solver. done.
  - apply Ho. intros q Hq Hqa.
    destruct (table_wf_addr_inj t k2 k st2 st' p q a) as [-> ->]; [by first [done|lia]..|].
    apply Hout. done.
Qed.

(** [k_at] of a sequence whose page table kept its pages. *)
Lemma k_at_stable t t' k st st' extra p b d x :
  block_size t' = block_size t → dict_get (seqs t) k = Some st → dict_get (seqs t') k = Some st' →
  pages st' = pages st ++ extra → k_at t k p b d = Some x →
  ∃ a, seq_addr (block_size t) st p = Some a ∧ seq_addr (block_size t) st' p = Some a ∧
    x = slab_get (tbl_k t) a b d ∧ k_at t' k p b d = Some (slab_get (tbl_k t') a b d).
Proof.
  intros Hbs Hk Hk' Hp. unfold k_at. rewrite Hk, Hk'. simpl.
  intros (a & Ha & [= <-])%bind_Some. exists a. split; [done|].
  pose proof (seq_addr_app _ _ _ _ _ _ Hp Ha) as Ha'. rewrite Hbs, Ha'. done.
Qed.

Lemma v_at_stable t t' k st st' extra p b d x :
  block_size t' = block_size t → dict_get (seqs t) k = Some st → dict_get (seqs t') k = Some st' →
  pages st' = pages st ++ extra → v_at t k p b d = Some x →
  ∃ a, seq_addr (block_size t) st p = Some a ∧ seq_addr (block_size t) st' p = Some a ∧
    x = slab_get (tbl_v t) a b d ∧ v_at t' k p b d = Some (slab_get (tbl_v t') a b d).
Proof.
  intros Hbs Hk Hk' Hp. unfold v_at. rewrite Hk, Hk'. simpl.
  intros (a & Ha & [= <-])%bind_Some. exists a. split; [done|].
  pose proof (seq_addr_app _ _ _ _ _ _ Hp Ha) as Ha'. rewrite Hbs, Ha'. done.
Qed.

Lemma seq_addr_take bs st st' keep p :
  0 < bs → pages st' = take (Z.to_nat (pages_for bs keep)) (pages st) → 0 ≤ p < keep →
  seq_addr bs st' p = seq_addr bs st p.
Proof.
  intros Hbs Hp Hlt. unfold seq_addr. rewrite Hp.
  pose proof (proj1 (pages_for_le bs keep _ Hbs) (Z.le_refl _)).
  pose proof (Z.div_mod p bs ltac:(lia)). pose proof (Z.mod_pos_bound p bs Hbs).
  pose proof (Z.div_pos p bs ltac:(lia) Hbs).
  rewrite lookup_take_lt by nia. done.
Qed.
End PagedKV_contract.

(** ** Properties *)

Section PagedKV_properties.
Context {T V : Type} `{!Slab T V, !SlabLaws T V}.
Implicit Types (t : PagedKVTable T) (st : SeqState).

Lemma init_wf bk bv bs t0 : 0 < bs → init bk bv bs = Ok t0 → table_wf t0.
Proof.
  intros Hbs. unfold init. case_match eqn:E1; [done|]. case_match eqn:E2; [done|].
  apply negb_false_iff, bool_decide_eq_true in E1. apply negb_false_iff, Z.eqb_eq in E2.
  destruct (slab_shape bk) as [|n [|w [|d [|? ?]]]] eqn:Hsh; unfold zlen in E2; simpl in E2; try lia.
  change (py_index [n; w; d] 0) with (Some n). simpl. case_match; [done|].
  case_match eqn:E4; [done|]. intros [= <-].
  apply negb_false_iff, Z.eqb_eq in E4. pose proof (Z.div_mod n bs ltac:(lia)).
  split; simpl; [done|by auto with py| |by constructor|].
  - rewrite app_nil_r, reverse_Permutation. unfold py_range. by rewrite Z.sub_0_r.
  - split; [congruence|]. exists w, d. rewrite Hsh. f_equal. lia.
Qed.

(** C1: Page accounting. Whatever sequence of calls a client makes on a freshly
    built table (including calls that raise, and whose exception it swallows),
    every page is held exactly once: the free list and the page tables of all
    sequences together are a permutation of all page ids, committed lengths never
    exceed logical lengths, and every sequence owns pages for its whole length. *)
Theorem reachable_table_wf (ops : list paged_op) bk bv bs t0 :
  0 < bs → init bk bv bs = Ok t0 → table_wf (run_ops ops t0).
Proof.
  intros Hbs Hinit. apply init_wf in Hinit; [|done]. revert t0 Hinit.
  induction ops as [|o ops IH]; intros t0 Hwf; [done|]. apply (IH (fst (run_op o t0))).
  destruct o; simpl;
    [apply register_preserves|apply release_preserves|apply write_preserves
    |apply track_write_preserves|apply commit_preserves|apply rollback_preserves]; done.
Qed.

(** C2: Read your writes, and nothing else changes. A write of [s_new] tokens at
    [start] that fits in the free pages succeeds; afterwards the written rows read
    back the new keys and values, while every other token, batch-head row and
    sequence reads exactly what it read before, across page boundaries. *)
Theorem write_reads_back t k st start s_new k_new v_new b0 b1 B D c :
  table_wf t → dict_get (seqs t) k = Some st → 0 ≤ start → 0 < s_new →
  slab_shape (tbl_k t) = [num_pages t * block_size t; B; D] →
  slab_shape k_new = [s_new; b1 - b0; D] → slab_shape v_new = [s_new; b1 - b0; D] →
  0 ≤ b0 ≤ b1 → b1 ≤ B →
  pages_for (block_size t) (start + s_new) - zlen (pages st) ≤ num_free_pages t →
  ∃ t', write k start k_new v_new (b0, b1) c t = (t', Ok tt) ∧ table_wf t' ∧
    (∀ p b d, start ≤ p < start + s_new → b0 ≤ b < b1 → 0 ≤ d < D →
       k_at t' k p b d = Some (slab_get k_new (p - start) (b - b0) d) ∧
       v_at t' k p b d = Some (slab_get v_new (p - start) (b - b0) d)) ∧
    (∀ k2 p b d, 0 ≤ p → (k2 ≠ k ∨ ¬ (start ≤ p < start + s_new) ∨ ¬ (b0 ≤ b < b1)) →
       (∀ x, k_at t k2 p b d = Some x → k_at t' k2 p b d = Some x) ∧
       (∀ x, v_at t k2 p b d = Some x → v_at t' k2 p b d = Some x)).
Proof.
  intros Hwf Hk Hstart Hs Hsh Hkn Hvn Hb HB Hfit.
  destruct (write_spec t k st start s_new k_new v_new b0 b1 B D c)
    as (t' & st' & extra & Hrun & Hwf' & Hbs & Hnp & Hsh' & Hk' & Hpg & Hacc & Hseq & Hoth & Hwk & Hwv);
    [done..|].
  exists t'. split; [done|]. split; [done|].
  assert (seq_wf (block_size t') st') as [? ?] by exact (Forall_dict_get _ _ _ _ (wf_seqs _ Hwf') Hk').
  split.
  - intros p b d Hp Hbb Hd.
    destruct (seq_addr_Some (block_size t') st' p) as [a Ha]; [apply Hwf'|lia|].
    unfold k_at, v_at. rewrite Hk'. simpl. rewrite Ha. simpl. rewrite Hbs in Ha.
    by rewrite (written_at _ _ st' _ _ _ _ _ _ _ _ _ _ _ _ Hwk Ha),
               (written_at _ _ st' _ _ _ _ _ _ _ _ _ _ _ _ Hwv Ha).
  - intros k2 p b d Hp Hne.
    assert (∀ x y, k_at t k2 p b d = Some x ∨ v_at t k2 p b d = Some y →
      ∃ st2 st2' ex, dict_get (seqs t) k2 = Some st2 ∧ dict_get (seqs t') k2 = Some st2' ∧
                     pages st2' = pages st2 ++ ex) as Hex.
    { intros x y Hxy. destruct (decide (k = k2)) as [<-|Hkk]; [by exists st, st', extra|].
      unfold k_at, v_at in Hxy. rewrite Hoth by done.
      destruct (dict_get (seqs t) k2) as [st2|]; [|naive_solver].
      exists st2, st2, []. by rewrite app_nil_r. }
    split; intros x Hx.
    + destruct (Hex x x (or_introl Hx)) as (st2 & st2' & ex & Hk2 & Hk2' & Hp2).
      destruct (k_at_stable t t' k2 st2 st2' ex p b d x) as (a & Ha & Ha' & -> & ->); [done..|].
      f_equal. rewrite <- Hbs in Ha', Hwk.
      apply (written_frame t' k st' _ _ k_new b0 b1 D start (start + s_new) k2 st2' p b d a); done.
    + destruct (Hex x x (or_intror Hx)) as (st2 & st2' & ex & Hk2 & Hk2' & Hp2).
      destruct (v_at_stable t t' k2 st2 st2' ex p b d x) as (a & Ha & Ha' & -> & ->); [done..|].
      f_equal. rewrite <- Hbs in Ha', Hwv.
      apply (written_frame t' k st' _ _ v_new b0 b1 D start (start + s_new) k2 st2' p b d a); done.
Qed.

(** A committed write is what [gather_prefix] returns. After a committed write
    at [start], gathering the default (accepted) prefix returns tensors whose rows
    from [start] on are the written keys and values. *)
Lemma committed_write_gathers t k st start s_new k_new v_new b0 b1 B D :
  table_wf t → dict_get (seqs t) k = Some st → 0 ≤ start → 0 < s_new → 0 ≤ D →
  l_acc st ≤ start + s_new →
  slab_shape (tbl_k t) = [num_pages t * block_size t; B; D] →
  slab_shape k_new = [s_new; b1 - b0; D] → slab_shape v_new = [s_new; b1 - b0; D] →
  0 ≤ b0 ≤ b1 → b1 ≤ B →
  pages_for (block_size t) (start + s_new) - zlen (pages st) ≤ num_free_pages t →
  ∃ t' ko vo, write k start k_new v_new (b0, b1) true t = (t', Ok tt) ∧
    gather_prefix t' k (b0, b1) None None = Ok (ko, vo) ∧
    ∀ p b d, start ≤ p < start + s_new → 0 ≤ b < b1 - b0 → 0 ≤ d < D →
      slab_get ko p b d = slab_get k_new (p - start) b d ∧
      slab_get vo p b d = slab_get v_new (p - start) b d.
Proof.
  intros Hwf Hk Hstart Hs HD Hacc0 Hsh Hkn Hvn Hb HB Hfit.
  destruct (write_spec t k st start s_new k_new v_new b0 b1 B D true)
    as (t' & st' & extra & Hrun & Hwf' & Hbs & Hnp & Hsh' & Hk' & Hpg & Hacc & Hseq & Hoth & Hwk & Hwv);
    [done..|].
  assert (seq_wf (block_size t') st') as [? ?] by exact (Forall_dict_get _ _ _ _ (wf_seqs _ Hwf') Hk').
  destruct (gather_prefix_spec t' k st' b0 b1 B D None) as (ko & vo & Hg & Hrd);
    [done..|by rewrite Hsh', Hnp, Hbs|done|done|done|simpl; lia|].
  exists t', ko, vo. split; [done|]. split; [done|]. intros p b d Hp Hbb Hd.
  destruct (Hrd p b d) as [Hrk Hrv]; [simpl; lia|done|done|].
  destruct (seq_addr_Some (block_size t') st' p) as [a Ha]; [apply Hwf'|lia|].
  unfold k_at in Hrk. unfold v_at in Hrv. rewrite Hk' in Hrk, Hrv. simpl in Hrk, Hrv.
  rewrite Ha in Hrk, Hrv. simpl in Hrk, Hrv. rewrite Hbs in Ha. simplify_eq.
  rewrite Hrk, Hrv. replace b with (b0 + b - b0) at 2 4 by lia.
  by rewrite (written_at _ _ st' _ _ _ _ _ _ _ _ _ _ _ _ Hwk Ha) by lia;
     rewrite (written_at _ _ st' _ _ _ _ _ _ _ _ _ _ _ _ Hwv Ha) by lia.
Qed.

(** C3: Rollback drops exactly the speculation. Rolling a sequence back to an
    accepted length succeeds, sets both lengths to it, returns precisely the pages
    that hold no kept token to the free list, leaves every kept token and every
    other sequence as they were, and reads past the target raise; a target that is
    negative or beyond the committed prefix raises and changes nothing. *)
Theorem rollback_drops_speculation t k st target :
  table_wf t → dict_get (seqs t) k = Some st →
  if bool_decide (0 ≤ target ≤ l_acc st) then
    ∃ t', rollback k target t = (t', Ok tt) ∧ table_wf t' ∧
      num_free_pages t' =
        num_free_pages t + Z.max 0 (zlen (pages st) - pages_for (block_size t) target) ∧
      (∃ st', dict_get (seqs t') k = Some st' ∧ l_acc st' = target ∧ l_seq st' = target) ∧
      (∀ p b d, 0 ≤ p < target →
         k_at t' k p b d = k_at t k p b d ∧ v_at t' k p b d = v_at t k p b d) ∧
      (∀ k2 p b d, k2 ≠ k →
         k_at t' k2 p b d = k_at t k2 p b d ∧ v_at t' k2 p b d = v_at t k2 p b d) ∧
      (∀ bh len out, target < len → gather_prefix t' k bh (Some len) out = Raise PagedKVError)
  else rollback k target t = (t, Raise PagedKVError).
Proof.
  intros Hwf Hk. pose proof (rollback_spec t k st target Hwf Hk) as Hsp.
  case_bool_decide as Ht; [|done]. destruct Hsp as (t' & Hrun & [Hwf' Hk' Hoth Hfl Hkk Hvv Hbs Hnp]).
  exists t'. split; [done|]. split; [done|]. pose proof (wf_bs _ Hwf) as Hbs0.
  assert (0 ≤ pages_for (block_size t) target) by (unfold pages_for; apply Z.div_pos; lia).
  split; [|split; [by eexists|split; [|split]]].
  - unfold num_free_pages. rewrite Hfl, zlen_app. unfold zlen.
    rewrite length_reverse, length_drop. lia.
  - intros p b d Hp. unfold k_at, v_at. rewrite Hk, Hk', Hkk, Hvv, Hbs. simpl.
    by rewrite (seq_addr_take _ st _ target).
  - intros k2 p b d Hne. unfold k_at, v_at. by rewrite Hoth, Hkk, Hvv, Hbs.
  - intros bh len out Hlen. unfold gather_prefix. rewrite Hk'. simpl.
    by rewrite (proj2 (Z.ltb_lt _ _)).
Qed.

(** [track_write] succeeds exactly when the free list can supply the missing
    pages. Otherwise it raises [PagedKVError] with the free list emptied into the
    sequence, and the lengths still those of before. *)
Lemma track_write_capacity t k st start s_new c :
  table_wf t → dict_get (seqs t) k = Some st → 0 < s_new →
  ∃ t' st', table_wf t' ∧ dict_get (seqs t') k = Some st' ∧
    if bool_decide (pages_for (block_size t) (start + s_new) - zlen (pages st) ≤ num_free_pages t)
    then track_write k start s_new c t = (t', Ok tt) ∧
         l_seq st' = Z.max (l_seq st) (start + s_new) ∧
         l_acc st' = (if c then Z.max (l_acc st) (start + s_new) else l_acc st) ∧
         zlen (pages st') = Z.max (zlen (pages st)) (pages_for (block_size t) (start + s_new))
    else track_write k start s_new c t = (t', Raise PagedKVError) ∧
         l_seq st' = l_seq st ∧ l_acc st' = l_acc st ∧ free_list t' = [].
Proof.
  intros Hwf Hk Hs. unfold track_write. rewrite (proj2 (Z.leb_gt _ _)) by done.
  rewrite get_bind. unfold dict_mem. rewrite Hk. cbv zeta.
  rewrite (bind_ok _ _ t t tt) by done.
  destruct (ensure_capacity_pages t k st (start + s_new) Hwf Hk)
    as (t1 & extra & [Hwf1 Hk1 _ _ _ _ Hbs _] & Hfl & Hrun & Hz).
  pose proof (zlen_nonneg (free_list t)). unfold num_free_pages in *.
  destruct (decide (pages_for (block_size t) (start + s_new) - zlen (pages st) ≤ zlen (free_list t))) as [Hfit|Hfit];
    [rewrite bool_decide_eq_true_2 in Hrun by done; rewrite bool_decide_eq_true_2 by done
    |rewrite bool_decide_eq_false_2 in Hrun by done; rewrite bool_decide_eq_false_2 by done].
  - rewrite (bind_ok _ _ _ _ _ Hrun).
    edestruct (advance_spec t1 k _ (start + s_new) c Hwf1 Hk1) as (t' & -> & [Hwf' Hk' _ _ _ _ _ _]).
    { rewrite Hbs. simpl. apply pages_for_le; [apply Hwf|]. lia. }
    eexists t', _. split; [done|]. split; [done|]. simpl. split; [done|]. split; [done|].
    split; [done|]. lia.
  - rewrite (bind_raise _ _ _ _ _ Hrun).
    eexists t1, _. split; [done|]. split; [done|]. split; [done|]. split; [done|]. split; [done|].
    assert (zlen (free_list t) = zlen (free_list t1) + zlen extra) as Hfz
      by (rewrite Hfl, zlen_app; unfold zlen; by rewrite length_reverse).
    rewrite zlen_app in Hz. destruct (free_list t1); [done|].
    rewrite zlen_cons in Hfz. pose proof (zlen_nonneg l). lia.
Qed.
End PagedKV_properties.

(** ** A small table: two pages of four tokens, one registered sequence *)

Definition demo_slab : fslab Z := mkFslab [8; 1; 2] (λ _ _ _, 0).
Definition demo_new : fslab Z := mkFslab [6; 1; 2] (λ s _ d, 100 + 10 * s + d).
Definition demo_table : PagedKVTable (fslab Z) :=
  mkPagedKVTable demo_slab demo_slab 4 2 [] [(7, mkSeqState [0; 1] 6 6)].
Definition demo_empty : PagedKVTable (fslab Z) :=
  mkPagedKVTable demo_slab demo_slab 4 2 [1; 0] [(7, mkSeqState [] 0 0)].

Lemma demo_table_wf : table_wf demo_table.
Proof.
  split; simpl; [lia| |done| |].
  - apply NoDup_singleton.
  - repeat constructor; unfold zlen; simpl; lia.
  - split; [done|]. by exists 1, 2.
Qed.

Lemma demo_empty_wf : table_wf demo_empty.
Proof.
  split; simpl; [lia| | | |].
  - apply NoDup_singleton.
  - apply Permutation_swap.
  - repeat constructor; unfold zlen; simpl; lia.
  - split; [done|]. by exists 1, 2.
Qed.

Lemma reachable_table_wf_witness :
  table_wf (run_ops [OpRegister 7; OpTrackWrite 7 0 100 true; OpWrite 7 0 demo_new demo_new (0, 1) false;
                     OpCommit 7 None; OpRollback 7 3; OpRelease 7]
              (mkPagedKVTable demo_slab demo_slab 4 2 [1; 0] [])).
Proof. apply (reachable_table_wf _ demo_slab demo_slab 4); [lia|reflexivity]. Defined.

Lemma write_reads_back_witness :
  ∃ t', write 7 0 demo_new demo_new (0, 1) false demo_empty = (t', Ok tt) ∧
        k_at t' 7 5 0 1 = Some 151.
Proof.
  destruct (write_reads_back demo_empty 7 (mkSeqState [] 0 0) 0 6 demo_new demo_new 0 1 1 2 false)
    as (t' & Hrun & _ & Hin & _); [apply demo_empty_wf|done..|].
  exists t'. split; [done|]. destruct (Hin 5 0 1) as [-> _]; [lia..|]. reflexivity.
Defined.

Lemma committed_write_gathers_witness :
  ∃ t' ko vo, write 7 0 demo_new demo_new (0, 1) true demo_empty = (t', Ok tt) ∧
    gather_prefix t' 7 (0, 1) None None = Ok (ko, vo) ∧ slab_get vo 4 0 1 = 141.
Proof.
  destruct (committed_write_gathers demo_empty 7 (mkSeqState [] 0 0) 0 6 demo_new demo_new 0 1 1 2)
    as (t' & ko & vo & Hrun & Hg & Hin); [apply demo_empty_wf|done..|].
  exists t', ko, vo. split; [done|]. split; [done|]. destruct (Hin 4 0 1) as [_ ->]; [lia..|]. reflexivity.
Defined.

Lemma rollback_drops_speculation_witness :
  (∃ t', rollback 7 3 demo_table = (t', Ok tt) ∧ num_free_pages t' = 1) ∧
  rollback 7 7 demo_table = (demo_table, Raise PagedKVError).
Proof.
  split.
  - destruct (rollback_drops_speculation demo_table 7 (mkSeqState [0; 1] 6 6) 3)
      as (t' & Hrun & _ & Hn & _); [apply demo_table_wf|done|]. exists t'. by split.
  - exact (rollback_drops_speculation demo_table 7 (mkSeqState [0; 1] 6 6) 7 demo_table_wf eq_refl).
Defined.

Lemma track_write_capacity_witness :
  ∃ t', track_write 7 0 9 true demo_empty = (t', Raise PagedKVError) ∧ free_list t' = [].
Proof.
  destruct (track_write_capacity demo_empty 7 (mkSeqState [] 0 0) 0 9 true)
    as (t' & st' & _ & _ & Hrun & _ & _ & Hfl); [apply demo_empty_wf|done|lia|]. by exists t'.
Defined.
