(* ===== verification/MemoryCache.v ===== *)
(** * The attention-cache allocator (server/memory_cache.py, cache_descriptors.py)

    Connection handlers (one process each) reserve cache tokens and free them; the
    runtime process materializes and drops the tensors when it reads the pipe. The
    counters (64-bit integers that wrap around), the pipe and the two locks are shared; the
    handle maps are per process.
    Operations are functions on the world; [step] interleaves them at the points
    where the code releases a lock or awaits. *)

From stdpp Require Import numbers base strings relations list.
From Stdlib Require Import ZArith Lia.
From S2P Require Import Prelude Dict Torch PagedKV.

(** ** Descriptors (cache_descriptors.py) *)

(** [LinearStateTensorDescriptor]; its dtype and device are opaque to the allocator. *)
Record LinearStateTensorDescriptor := mkLinear { kind : string; size : list Z }.

Definition cache_allocation_tokens (d : LinearStateTensorDescriptor) : Z :=
  match size d with n :: _ => n | [] => 0 end.
Definition numel (d : LinearStateTensorDescriptor) : Z := foldl Z.mul 1 (size d).

(** A descriptor is a linear-attention state, or hivemind's [TensorDescriptor] of an
    attention slab, which only has a shape. *)
Inductive descriptor := DLinear (d : LinearStateTensorDescriptor) | DKV (shape : list Z).

Definition is_linear_state_descriptor (d : descriptor) : bool :=
  match d with DLinear _ => true | DKV _ => false end.
Definition d_shape (d : descriptor) : list Z :=
  match d with DLinear l => size l | DKV s => s end.

(** [KVCacheManager.get_allocation_size_tokens]; [descr.shape[-1]] is evaluated even
    when the descriptor has its own count. *)
Definition get_allocation_size_tokens (descriptors : list descriptor) : res Z :=
  foldl (λ acc d,
    n ← acc;
    last_dim ← (of_option IndexError (py_index (d_shape d) (-1)) : res Z);
    Ok (Z.max (match d with DLinear l => cache_allocation_tokens l | DKV _ => last_dim end) n))
    (Ok 0) descriptors.

(** ** Shared state and per-process maps *)

(** A pipe message: handles with the descriptors to create, or [None] to delete. *)
Definition message : Type := list Z * option (list descriptor).

Record proc_maps := mkProc {
  handle_to_allocation : dict Z (list Z);
  allocation_tokens : dict (list Z) Z;
}.

Record shared := mkShared {
  max_size_tokens : Z;
  current_size_tokens : Z;
  enqueued_size_tokens : Z;
  handle_counter : Z;
  pipe : list message;
}.

(** Storing an integer in a [ctypes.c_int64], the type of the three counters: nothing checks
    for overflow, the value wraps around. *)
Definition c_int64 (n : Z) : Z := (n + 2 ^ 63) `mod` 2 ^ 64 - 2 ^ 63.

Definition tokens_left (s : shared) : Z := max_size_tokens s - current_size_tokens s.

(** [handles = tuple(int(self.handle_counter) + i for i in range(len(descriptors)))]; the
    additions are on Python integers, which do not wrap. *)
Definition new_handles (s : shared) (ds : list descriptor) : list Z :=
  seqZ (handle_counter s) (zlen ds).

(** The critical section of [_schedule_alloc], under [_lock_metadata]. *)
Definition commit_alloc (n : Z) (ds : list descriptor) (s : shared) (p : proc_maps) : shared * proc_maps :=
  let handles := new_handles s ds in
  (mkShared (max_size_tokens s) (c_int64 (current_size_tokens s + n)) (enqueued_size_tokens s)
     (c_int64 (handle_counter s + zlen handles)) (pipe s ++ [(handles, Some ds)]),
   mkProc (foldl (λ d h, dict_set d h handles) (handle_to_allocation p) handles)
     (dict_set (allocation_tokens p) handles n)).

(** The first loop of [force_free]: the allocation group of each handle, once. *)
Fixpoint collect_groups (p : proc_maps) (atn : option Z) (handles : list Z) (seen : list (list Z))
    : list (list Z) :=
  match handles with
  | [] => []
  | h :: hs =>
      match dict_get (handle_to_allocation p) h, atn with
      | None, Some _ => collect_groups p atn hs seen
      | og, _ =>
          let group := default [h] og in
          if bool_decide (group ∈ seen) then collect_groups p atn hs seen
          else group :: collect_groups p atn hs (group :: seen)
      end
  end.

(** The second loop: pop each group; returns the maps, the tokens and the handles. *)
Fixpoint free_groups (atn : option Z) (groups : list (list Z)) (p : proc_maps)
    : proc_maps * Z * list Z :=
  match groups with
  | [] => (p, 0, [])
  | g :: gs =>
      let group_tokens := dict_get (allocation_tokens p) g in
      let p1 := mkProc (handle_to_allocation p) (dict_del (allocation_tokens p) g) in
      match group_tokens, atn with
      | None, Some _ => free_groups atn gs p1
      | _, _ =>
          let p2 := mkProc (foldl dict_del (handle_to_allocation p1) g) (allocation_tokens p1) in
          let '(p', tokens, hs) := free_groups atn gs p2 in
          (p', default 0 group_tokens + tokens, g ++ hs)
      end
  end.

Definition force_free (handles : list Z) (atn : option Z) (s : shared) (p : proc_maps)
    : shared * proc_maps :=
  match handles with
  | [] => (s, p)
  | _ =>
      let '(p', tokens_to_free, handles_to_free) := free_groups atn (collect_groups p atn handles []) p in
      (mkShared (max_size_tokens s)
         (if tokens_to_free =? 0 then current_size_tokens s
          else c_int64 (Z.max 0 (current_size_tokens s - tokens_to_free)))
         (enqueued_size_tokens s) (handle_counter s)
         (match handles_to_free with [] => pipe s | _ => pipe s ++ [(handles_to_free, None)] end),
       p')
  end.

(** ** The runtime process *)

Section runtime.
Context {T V : Type} `{!Slab T V}.

(** A cache the device backend allocated: the data of its two tensors, [None] where
    it is not a plain torch tensor. *)
Definition cache : Type := option T * option T.

(** [self.device.allocate] and [self.device.init_cache_one_gpu_batch] *)
Context (device_allocate : descriptor → cache).
Context (paged_kv_enabled : bool).

Record runtime_state := mkRuntime {
  allocated_tensors : dict Z cache;
  paged_tables : dict Z (PagedKVTable T);
}.

Definition register_paged_view (h : Z) (c : cache) (tables : dict Z (PagedKVTable T))
    : dict Z (PagedKVTable T) :=
  match c with
  | (Some k_data, Some v_data) =>
      if negb (zlen (slab_shape k_data) =? 3)
         || negb (bool_decide (slab_shape k_data = slab_shape v_data)) then tables
      else
        match py_index (slab_shape k_data) 0 with
        | None => tables
        | Some s_total =>
            if negb (s_total mod BLOCK_SIZE =? 0) then tables
            else
              match init k_data v_data BLOCK_SIZE with
              | Ok t => dict_set tables h t
              | Raise _ => tables
              end
        end
  | _ => tables
  end.

Definition create_one (r : runtime_state) (hd : Z * descriptor) : runtime_state :=
  let c := device_allocate hd.2 in
  let tensors := dict_set (allocated_tensors r) hd.1 c in
  if is_linear_state_descriptor hd.2 then mkRuntime tensors (paged_tables r)
  else mkRuntime tensors
         (if paged_kv_enabled then register_paged_view hd.1 c (paged_tables r) else paged_tables r).

Definition delete_one (r : runtime_state) (h : Z) : runtime_state :=
  mkRuntime (dict_del (allocated_tensors r) h) (dict_del (paged_tables r) h).

Definition process_message (r : runtime_state) (m : message) : res runtime_state :=
  match m.2 with
  | Some recv_data =>
      if negb (zlen m.1 =? zlen recv_data) then Raise AssertionError
      else Ok (foldl create_one r (zip m.1 recv_data))
  | None => Ok (foldl delete_one r m.1)
  end.

(** [while self._pipe_recv.poll()] *)
Fixpoint drain (msgs : list message) (r : runtime_state) : res runtime_state :=
  match msgs with
  | [] => Ok r
  | m :: ms => r' ← process_message r m; drain ms r'
  end.

Definition missing (r : runtime_state) (handles : list Z) : list Z :=
  filter (λ h, dict_mem (allocated_tensors r) h = false) handles.

(** [while missing_handles: process_message(recv())] on messages arriving later;
    [None] when the call is still blocked after them. *)
Fixpoint wait_missing (later : list message) (handles : list Z) (r : runtime_state)
    : option (res (runtime_state * list message)) :=
  match missing r handles with
  | [] => Some (Ok (r, later))
  | _ =>
      match later with
      | [] => None
      | m :: ms =>
          match process_message r m with
          | Raise e => Some (Raise e)
          | Ok r' => wait_missing ms handles r'
          end
      end
  end.

(** [use_cache]: the caches it yields, [None] when it blocks for ever. *)
Definition use_cache (handles : list Z) (available later : list message) (r : runtime_state)
    : option (res (runtime_state * list (option cache))) :=
  match drain available r with
  | Raise e => Some (Raise e)
  | Ok r1 =>
      match wait_missing later handles r1 with
      | None => None
      | Some (Raise e) => Some (Raise e)
      | Some (Ok (r2, _)) => Some (Ok (r2, dict_get (allocated_tensors r2) <$> handles))
      end
  end.

Definition paged_view (r : runtime_state) (h : Z) : option (PagedKVTable T) := dict_get (paged_tables r) h.
End runtime.
Arguments mkRuntime {T} _ _.
Arguments allocated_tensors {T} _.
Arguments paged_tables {T} _.

(** ** Interleavings *)

(** Where an allocation request is in [_schedule_alloc]: counted as enqueued, past the
    immediate test, holding [_lock_acquire_memory], allowed to allocate (the lock is
    released and the tokens are no longer enqueued), or finished. *)
Inductive phase := Enqueued | Contending | Locked | Granted | Done (handles : list Z) | Failed.

Record request := mkReq {
  r_proc : nat;
  r_descrs : list descriptor;
  r_tokens : Z;
  (** [None]: wait for ever; [Some 0]: fail at once; otherwise seconds. *)
  r_timeout : option Z;
  r_phase : phase;
}.

Record world := mkWorld {
  w_shared : shared;
  w_procs : list proc_maps;
  w_requests : list request;
}.

Definition set_phase (ph : phase) (r : request) : request :=
  mkReq (r_proc r) (r_descrs r) (r_tokens r) (r_timeout r) ph.
Definition set_requests (rs : list request) (w : world) : world := mkWorld (w_shared w) (w_procs w) rs.
Definition add_enqueued (n : Z) (s : shared) : shared :=
  mkShared (max_size_tokens s) (current_size_tokens s) (c_int64 (enqueued_size_tokens s + n))
    (handle_counter s) (pipe s).

Definition init_world (max : Z) (nprocs : nat) : world :=
  mkWorld (mkShared max 0 0 0 []) (replicate nprocs (mkProc [] [])) [].

(** A failing request leaves the [finally] clause: its tokens are dequeued. *)
Definition fail_request (i : nat) (r : request) (w : world) : world :=
  mkWorld (add_enqueued (- r_tokens r) (w_shared w)) (w_procs w)
    (<[i := set_phase Failed r]> (w_requests w)).

(** [h] belongs to an allocation some process has not freed. *)
Definition live (w : world) (h : Z) : Prop :=
  Exists (λ p, is_Some (dict_get (handle_to_allocation p) h)) (w_procs w).

(** [own]: processes only free, by handle alone, what they allocated or what is dead. *)
Inductive step (own : bool) : world → world → Prop :=
| step_request w p ds n timeout :
    (* allocate_cache, for at least one block: [_enqueued_tokens += n] *)
    (p < length (w_procs w))%nat → ds ≠ [] → get_allocation_size_tokens ds = Ok n →
    step own w (mkWorld (add_enqueued n (w_shared w)) (w_procs w)
              (w_requests w ++ [mkReq p ds n timeout Enqueued]))
| step_immediate w i r :
    (* [timeout == 0 and current + enqueued > max] *)
    w_requests w !! i = Some r → r_phase r = Enqueued → r_timeout r = Some 0 →
    max_size_tokens (w_shared w) < current_size_tokens (w_shared w) + enqueued_size_tokens (w_shared w) →
    step own w (fail_request i r w)
| step_contend w i r :
    w_requests w !! i = Some r → r_phase r = Enqueued →
    (r_timeout r = Some 0 →
     current_size_tokens (w_shared w) + enqueued_size_tokens (w_shared w) ≤ max_size_tokens (w_shared w)) →
    step own w (set_requests (<[i := set_phase Contending r]> (w_requests w)) w)
| step_lock w i r :
    w_requests w !! i = Some r → r_phase r = Contending →
    Forall (λ r', r_phase r' ≠ Locked) (w_requests w) →
    step own w (set_requests (<[i := set_phase Locked r]> (w_requests w)) w)
| step_grant w i r :
    (* the test succeeds, at once or after waiting; lock released, tokens dequeued *)
    w_requests w !! i = Some r → r_phase r = Locked →
    current_size_tokens (w_shared w) + r_tokens r ≤ max_size_tokens (w_shared w) →
    step own w (mkWorld (add_enqueued (- r_tokens r) (w_shared w)) (w_procs w)
              (<[i := set_phase Granted r]> (w_requests w)))
| step_refuse w i r :
    (* the test fails: immediate request, too large, or the wait timed out *)
    w_requests w !! i = Some r → r_phase r = Locked →
    max_size_tokens (w_shared w) < current_size_tokens (w_shared w) + r_tokens r →
    (r_timeout r ≠ None ∨ max_size_tokens (w_shared w) < r_tokens r) →
    step own w (fail_request i r w)
| step_timeout w i r t :
    (* [asyncio.TimeoutError] while waiting for the lock or holding it, or the event was not
       set in time, whatever memory there is by now *)
    w_requests w !! i = Some r → r_phase r = Contending ∨ r_phase r = Locked → r_timeout r = Some t → t ≠ 0 →
    step own w (fail_request i r w)
| step_cancel w i r :
    (* the task is cancelled at one of its two awaits; the lock, if held, is released *)
    w_requests w !! i = Some r → r_phase r = Contending ∨ r_phase r = Locked →
    step own w (fail_request i r w)
| step_commit w i r p :
    w_requests w !! i = Some r → r_phase r = Granted → w_procs w !! r_proc r = Some p →
    let sp := commit_alloc (r_tokens r) (r_descrs r) (w_shared w) p in
    step own w (mkWorld sp.1 (<[r_proc r := sp.2]> (w_procs w))
              (<[i := set_phase (Done (new_handles (w_shared w) (r_descrs r))) r]> (w_requests w)))
| step_free w q p handles atn :
    w_procs w !! q = Some p →
    (own = true → atn = None →
     ∀ h, h ∈ handles → is_Some (dict_get (handle_to_allocation p) h) ∨ ¬ live w h) →
    let sp := force_free handles atn (w_shared w) p in
    step own w (mkWorld sp.1 (<[q := sp.2]> (w_procs w)) (w_requests w)).

Definition reachable (own : bool) (max : Z) (nprocs : nat) (w : world) : Prop :=
  rtc (step own) (init_world max nprocs) w.

(** Fewer than [2 ^ 63] tokens and fewer than [2 ^ 63] caches were ever asked for: a request
    stays in the list when it is done. *)
Definition total (f : request → Z) (rs : list request) : Z := foldr (λ r acc, f r + acc) 0 rs.
Definition fits (w : world) : Prop :=
  total r_tokens (w_requests w) < 2 ^ 63 ∧ total (λ r, zlen (r_descrs r)) (w_requests w) < 2 ^ 63.

(** ** Machine integers *)

Lemma c_int64_small n : 0 ≤ n < 2 ^ 63 → c_int64 n = n.
Proof. intros Hn. unfold c_int64. rewrite Z.mod_small; lia. Qed.

(** ** One process's maps *)

Definition proc_sum (p : proc_maps) : Z := foldr (λ kv acc, kv.2 + acc) 0 (allocation_tokens p).

Record proc_ok (p : proc_maps) : Prop := mkProcOk {
  po_wf1 : dict_wf (allocation_tokens p);
  po_wf2 : dict_wf (handle_to_allocation p);
  po_group h g : dict_get (handle_to_allocation p) h = Some g →
    h ∈ g ∧ is_Some (dict_get (allocation_tokens p) g);
  po_tokens g n : dict_get (allocation_tokens p) g = Some n →
    0 ≤ n ∧ ∀ h, h ∈ g → dict_get (handle_to_allocation p) h = Some g;
}.

Lemma sum_app (d1 d2 : dict (list Z) Z) :
  foldr (λ kv acc, kv.2 + acc) 0 (d1 ++ d2) =
  foldr (λ kv acc, kv.2 + acc) 0 d1 + foldr (λ kv acc, kv.2 + acc) 0 d2.
Proof. induction d1 as [|kv d1 IH]; simpl; [done|]. rewrite IH. lia. Qed.

Lemma sum_nonneg (d : dict (list Z) Z) :
  dict_wf d → (∀ g n, dict_get d g = Some n → 0 ≤ n) → 0 ≤ foldr (λ kv acc, kv.2 + acc) 0 d.
Proof.
  intros Hwf Hn.
  assert (Forall (λ kv : list Z * Z, 0 ≤ kv.2) d) as HF.
  { apply list.Forall_forall. intros [g n] Hin. apply (Hn g). by apply dict_get_elem. }
  clear -HF. induction HF; simpl; lia.
Qed.

Lemma proc_sum_nonneg p : proc_ok p → 0 ≤ proc_sum p.
Proof. intros Hp. apply sum_nonneg; [apply Hp|]. intros g n Hg. by apply (po_tokens p Hp g n). Qed.

Lemma sum_del (d : dict (list Z) Z) g :
  foldr (λ kv acc, kv.2 + acc) 0 d = default 0 (dict_get d g) + foldr (λ kv acc, kv.2 + acc) 0 (dict_del d g).
Proof.
  destruct (dict_get d g) as [n|] eqn:E.
  - apply dict_get_Some_split in E as (d1 & d2 & -> & Hk). rewrite dict_del_split by done.
    rewrite !sum_app. simpl. lia.
  - rewrite dict_del_notin by done. simpl. lia.
Qed.

(** Deleting several keys. *)
Lemma dels_wf {V} (d : dict Z V) hs : dict_wf d → dict_wf (foldl dict_del d hs).
Proof. revert d. induction hs as [|h hs IH]; intros d Hd; [done|]. apply IH. by apply dict_del_wf. Qed.

Lemma dels_get {V} (d : dict Z V) hs h :
  dict_wf d → dict_get (foldl dict_del d hs) h = if decide (h ∈ hs) then None else dict_get d h.
Proof.
  revert d. induction hs as [|h' hs IH]; intros d Hd; simpl; [done|].
  rewrite IH by (by apply dict_del_wf). case_decide as H1; case_decide as H2; try done.
  - destruct H2. by right.
  - apply elem_of_cons in H2 as [->|]; [by apply dict_get_del_eq|done].
  - apply dict_get_del_ne. intros ->. apply H2. by left.
Qed.

Lemma sets_get (d : dict Z (list Z)) hs g h :
  dict_get (foldl (λ d h, dict_set d h g) d hs) h = if decide (h ∈ hs) then Some g else dict_get d h.
Proof.
  revert d. induction hs as [|h' hs IH]; intros d; simpl; [done|].
  rewrite IH. case_decide as H1; case_decide as H2; try done.
  - destruct H2. by right.
  - apply elem_of_cons in H2 as [->|]; [by rewrite dict_get_set_eq|done].
  - apply dict_get_set_ne. intros ->. apply H2. by left.
Qed.

Lemma sets_wf (d : dict Z (list Z)) hs g : dict_wf d → dict_wf (foldl (λ d h, dict_set d h g) d hs).
Proof. revert d. induction hs as [|h hs IH]; intros d Hd; [done|]. apply IH. by apply dict_set_wf. Qed.

(** A group [force_free] may pop: an allocation, or handles nobody here knows. *)
Definition poppable (p : proc_maps) (g : list Z) : Prop :=
  is_Some (dict_get (allocation_tokens p) g) ∨
  ((∀ h, h ∈ g → dict_get (handle_to_allocation p) h = None) ∧ dict_get (allocation_tokens p) g = None).

Lemma pop_group_ok p g :
  proc_ok p → poppable p g →
  let p' := mkProc (foldl dict_del (handle_to_allocation p) g) (dict_del (allocation_tokens p) g) in
  proc_ok p' ∧
  (∀ h g', dict_get (handle_to_allocation p') h = Some g' ↔
           dict_get (handle_to_allocation p) h = Some g' ∧ g' ≠ g) ∧
  (∀ g', g' ≠ g → poppable p g' → poppable p' g').
Proof.
  intros [H1 H2 H3 H4] Hpop p'.
  assert (∀ h g', dict_get (handle_to_allocation p') h = Some g' ↔
           dict_get (handle_to_allocation p) h = Some g' ∧ g' ≠ g) as Hget.
  { intros h g'. simpl. rewrite dels_get by done. case_decide as Hin; split; try done.
    - intros [Hh Hne]. exfalso. destruct Hpop as [[n Hn]|[Hno _]].
      + destruct (H4 g n Hn) as [_ Hall]. rewrite (Hall h Hin) in Hh. congruence.
      + by rewrite (Hno h Hin) in Hh.
    - intros Hh. split; [done|]. intros ->. destruct (H3 h g Hh) as [? _]. done.
    - by intros [? _]. }
  split; [|split; [done|]].
  - split; simpl; [by apply dict_del_wf|by apply dels_wf| |].
    + intros h g' Hh. apply Hget in Hh as [Hh Hne]. destruct (H3 h g' Hh) as [? ?].
      split; [done|]. by rewrite dict_get_del_ne.
    + intros g' n Hg. apply dict_get_del_Some in Hg as [Hne Hg]; [|done].
      destruct (H4 g' n Hg) as [? Hall]. split; [done|]. intros h Hh. apply Hget.
      split; [by apply Hall|by intros ->].
  - intros g' Hne [[n Hn]|[Hno Hn]].
    + left. simpl. rewrite dict_get_del_ne by done. by eexists.
    + right. simpl. split; [|by rewrite dict_get_del_ne].
      intros h Hh. rewrite dels_get by done. case_decide; [done|by apply Hno].
Qed.

Lemma free_groups_ok atn gs p :
  proc_ok p → NoDup gs → Forall (poppable p) gs →
  let '(p', tokens, hs) := free_groups atn gs p in
  proc_ok p' ∧ (proc_sum p = proc_sum p' + tokens ∧ 0 ≤ tokens) ∧
  (∀ h g, dict_get (handle_to_allocation p') h = Some g ↔
          dict_get (handle_to_allocation p) h = Some g ∧ g ∉ gs) ∧
  (∀ h, h ∈ hs ↔ ∃ g, g ∈ gs ∧ h ∈ g ∧ (atn = None ∨ is_Some (dict_get (allocation_tokens p) g))).
Proof.
  revert p. induction gs as [|g gs IH]; intros p Hp Hnd Hpop; simpl.
  { split; [done|]. split; [lia|]. split; [set_solver|]. intros h. set_solver. }
  apply NoDup_cons in Hnd as [Hg Hnd]. apply Forall_cons in Hpop as [Hg0 Hpop].
  destruct (pop_group_ok p g Hp Hg0) as (Hok & Hget & Hstay).
  assert (∀ g', g' ∈ gs → g' ≠ g) as Hne by (intros g' Hin ->; done).
  destruct (dict_get (allocation_tokens p) g) as [n|] eqn:En.
  - set (p2 := mkProc _ _) in *. specialize (IH p2 Hok Hnd).
    destruct (free_groups atn gs p2) as [[p' tokens] hs]. destruct IH as (Hok' & Hsum & Hget' & Hhs).
    { apply list.Forall_forall. intros g' Hin. apply Hstay; [by apply Hne|].
      by apply (proj1 (list.Forall_forall _ _) Hpop). }
    split; [done|]. split; [|split].
    + unfold proc_sum at 1. rewrite (sum_del _ g), En. simpl.
      change (foldr _ 0 (dict_del (allocation_tokens p) g)) with (proc_sum p2).
      destruct (po_tokens p Hp g n En). lia.
    + intros h g'. rewrite Hget', Hget, not_elem_of_cons. naive_solver.
    + intros h. rewrite elem_of_app, Hhs. setoid_rewrite elem_of_cons.
      assert (∀ g', g' ∈ gs → dict_get (allocation_tokens p2) g' = dict_get (allocation_tokens p) g') as Hd.
      { intros g' Hin. simpl. apply dict_get_del_ne. by intros <-. }
      split.
      * intros [Hh|(g' & Hin & Hh & Hs)]; [exists g; split; [by left|split; [done|right; by rewrite En]]|].
        exists g'. rewrite Hd in Hs by done. naive_solver.
      * intros (g' & [->|Hin] & Hh & Hs); [by left|]. right. exists g'. rewrite Hd by done. done.
  - assert (∀ h, h ∈ g → dict_get (handle_to_allocation p) h = None) as Hno.
    { destruct Hg0 as [[? ?]|[? _]]; [congruence|done]. }
    destruct atn as [a|].
    + set (p1 := mkProc (handle_to_allocation p) _) in *.
      assert (p1 = p) as ->.
      { unfold p1. destruct p. simpl in *. by rewrite dict_del_notin. }
      specialize (IH p Hp Hnd Hpop). destruct (free_groups (Some a) gs p) as [[p' tokens] hs].
      destruct IH as (? & ? & Hget' & Hhs). split; [done|]. split; [done|]. split.
      * intros h g'. rewrite Hget', not_elem_of_cons. split; [|naive_solver].
        intros [Hh Hn]. split; [done|]. split; [|done]. intros ->.
        destruct (po_group p Hp h g Hh) as [_ [m Hm]]. congruence.
      * intros h. rewrite Hhs. setoid_rewrite elem_of_cons. split; [naive_solver|].
        intros (g' & [->|Hin] & Hh & [?|[m Hm]]); try done; [congruence|]. exists g'. naive_solver.
    + set (p2 := mkProc (foldl _ _ _) _) in *. specialize (IH p2 Hok Hnd).
      destruct (free_groups None gs p2) as [[p' tokens] hs]. destruct IH as (Hok' & Hsum & Hget' & Hhs).
      { apply list.Forall_forall. intros g' Hin. apply Hstay; [by apply Hne|].
        by apply (proj1 (list.Forall_forall _ _) Hpop). }
      split; [done|]. split; [|split].
      * unfold proc_sum at 1. rewrite (sum_del _ g), En. simpl.
        change (foldr _ 0 (dict_del (allocation_tokens p) g)) with (proc_sum p2). lia.
      * intros h g'. rewrite Hget', Hget, not_elem_of_cons. naive_solver.
      * intros h. rewrite elem_of_app, Hhs. setoid_rewrite elem_of_cons. naive_solver.
Qed.

Lemma collect_groups_ok p atn handles seen :
  proc_ok p →
  NoDup (collect_groups p atn handles seen) ∧
  (∀ g, g ∈ collect_groups p atn handles seen → g ∉ seen) ∧
  (∀ g, g ∈ collect_groups p atn handles seen →
     (∃ h, h ∈ handles ∧ dict_get (handle_to_allocation p) h = Some g) ∨
     (atn = None ∧ ∃ h, h ∈ handles ∧ g = [h] ∧ dict_get (handle_to_allocation p) h = None)).
Proof.
  intros Hp. revert seen. induction handles as [|h hs IH]; intros seen; simpl.
  { split; [constructor|]. split; by intros g ?%not_elem_of_nil. }
  assert (∀ group, (dict_get (handle_to_allocation p) h = Some group ∨
      (atn = None ∧ group = [h] ∧ dict_get (handle_to_allocation p) h = None)) →
    let l := if bool_decide (group ∈ seen) then collect_groups p atn hs seen
             else group :: collect_groups p atn hs (group :: seen) in
    NoDup l ∧ (∀ g, g ∈ l → g ∉ seen) ∧
    (∀ g, g ∈ l →
      (∃ h', h' ∈ h :: hs ∧ dict_get (handle_to_allocation p) h' = Some g) ∨
      (atn = None ∧ ∃ h', h' ∈ h :: hs ∧ g = [h'] ∧ dict_get (handle_to_allocation p) h' = None))) as Hgen.
  { intros group Hgr. case_bool_decide as Hs; simpl.
    - destruct (IH seen) as (? & ? & Hk). split; [done|]. split; [done|]. intros g Hg.
      destruct (Hk g Hg) as [(h' & ? & ?)|(? & h' & ? & ?)]; [left|right]; try (split; [done|]); exists h';
        (split; [by right|done]).
    - destruct (IH (group :: seen)) as (Hnd & Hns & Hk). split; [|split].
      + apply NoDup_cons. split; [|done]. intros Hin. apply (Hns group Hin). by left.
      + intros g [->|Hin]%elem_of_cons; [done|]. intros Hc. apply (Hns g Hin). by right.
      + intros g [->|Hin]%elem_of_cons.
        * destruct Hgr as [Hgr|(? & ? & ?)]; [left; exists h; split; [by left|done]|].
          right. split; [done|]. exists h. split; [by left|done].
        * destruct (Hk g Hin) as [(h' & ? & ?)|(? & h' & ? & ?)]; [left|right]; try (split; [done|]);
            exists h'; (split; [by right|done]). }
  destruct (dict_get (handle_to_allocation p) h) as [g0|] eqn:E.
  - destruct atn as [a|]; apply (Hgen g0); by left.
  - destruct atn as [a|]; [|apply (Hgen [h]); right; done].
    destruct (IH seen) as (? & ? & Hk). split; [done|]. split; [done|]. intros g Hg.
    destruct (Hk g Hg) as [(h' & ? & ?)|(? & h' & ? & ?)]; [left|right]; try (split; [done|]); exists h';
      (split; [by right|done]).
Qed.

Lemma collect_groups_complete p atn handles seen h g :
  h ∈ handles → dict_get (handle_to_allocation p) h = Some g → g ∉ seen →
  g ∈ collect_groups p atn handles seen.
Proof.
  revert seen. induction handles as [|h' hs IH]; intros seen; [by intros ?%not_elem_of_nil|].
  intros Hin Hg Hs. simpl. apply elem_of_cons in Hin as [<-|Hin].
  - rewrite Hg. simpl. destruct atn; (rewrite bool_decide_eq_false_2 by done; by left).
  - assert (∀ group, g ∈ (if bool_decide (group ∈ seen) then collect_groups p atn hs seen
             else group :: collect_groups p atn hs (group :: seen))) as Hgen.
    { intros group. case_bool_decide; [by apply IH|].
      destruct (decide (g = group)) as [->|Hne]; [by left|]. right. apply IH; [done|done|].
      intros [?|?]%elem_of_cons; done. }
    destruct (dict_get (handle_to_allocation p) h') as [g'|];
      [destruct atn; apply (Hgen g')|destruct atn; [by apply IH|apply (Hgen [h'])]].
Qed.

(** ** The invariant of every interleaving *)

Definition procs_sum (ps : list proc_maps) : Z := foldr (λ p acc, proc_sum p + acc) 0 ps.

Definition is_pending (r : request) : bool :=
  match r_phase r with Enqueued | Contending | Locked => true | _ => false end.
Definition is_granted (r : request) : bool := match r_phase r with Granted => true | _ => false end.

Definition phase_sum (f : request → bool) (rs : list request) : Z :=
  foldr (λ r acc, (if f r then r_tokens r else 0) + acc) 0 rs.

Definition is_done (r : request) : bool := match r_phase r with Done _ => true | _ => false end.
Definition done_caches (r : request) : Z := if is_done r then zlen (r_descrs r) else 0.

Record world_ok (w : world) : Prop := mkWorldOk {
  wo_procs : Forall proc_ok (w_procs w);
  wo_current : current_size_tokens (w_shared w) = procs_sum (w_procs w);
  wo_enqueued : enqueued_size_tokens (w_shared w) = phase_sum is_pending (w_requests w);
  wo_done : procs_sum (w_procs w) ≤ phase_sum is_done (w_requests w);
  wo_counter : handle_counter (w_shared w) = total done_caches (w_requests w);
  wo_tokens : Forall (λ r, 0 ≤ r_tokens r ∧ r_descrs r ≠ []) (w_requests w);
  wo_bound k p h g : w_procs w !! k = Some p → dict_get (allocation_tokens p) g = Some h →
    ∀ x, x ∈ g → x < handle_counter (w_shared w);
  wo_owner j k p q h : w_procs w !! j = Some p → w_procs w !! k = Some q →
    is_Some (dict_get (handle_to_allocation p) h) → is_Some (dict_get (handle_to_allocation q) h) → j = k;
}.

Lemma procs_sum_insert ps k p p' :
  ps !! k = Some p → procs_sum (<[k := p']> ps) = procs_sum ps - proc_sum p + proc_sum p'.
Proof.
  revert k. induction ps as [|q ps IH]; intros [|k] Hk; simplify_eq/=; [lia|].
  unfold procs_sum in *. simpl. rewrite IH by done. lia.
Qed.

Lemma phase_sum_app f l1 l2 : phase_sum f (l1 ++ l2) = phase_sum f l1 + phase_sum f l2.
Proof. unfold phase_sum. induction l1; simpl; [done|]. lia. Qed.

Lemma phase_sum_insert f rs i r r' :
  rs !! i = Some r →
  phase_sum f (<[i := r']> rs) =
    phase_sum f rs - (if f r then r_tokens r else 0) + (if f r' then r_tokens r' else 0).
Proof.
  revert i. induction rs as [|q rs IH]; intros [|i] Hi; simplify_eq/=; [lia|].
  unfold phase_sum in *. simpl. rewrite IH by done. lia.
Qed.

Lemma total_app f l1 l2 : total f (l1 ++ l2) = total f l1 + total f l2.
Proof. unfold total. induction l1; simpl; [done|]. lia. Qed.

Lemma total_insert f rs i r r' : rs !! i = Some r → total f (<[i := r']> rs) = total f rs - f r + f r'.
Proof.
  revert i. induction rs as [|q rs IH]; intros [|i] Hi; simplify_eq/=; [lia|].
  unfold total in *. simpl. rewrite IH by done. lia.
Qed.

Lemma total_mono f g rs : Forall (λ r, f r ≤ g r) rs → total f rs ≤ total g rs.
Proof. unfold total. induction 1; simpl; lia. Qed.

Lemma phase_sum_total f rs : phase_sum f rs = total (λ r, if f r then r_tokens r else 0) rs.
Proof. done. Qed.

(** The sums over some of the requests are numbers that a counter can hold. *)
Lemma phase_sum_bounds f rs : Forall (λ r, 0 ≤ r_tokens r ∧ r_descrs r ≠ []) rs → 0 ≤ phase_sum f rs ≤ total r_tokens rs.
Proof. unfold phase_sum, total. induction 1 as [|r rs [Hr _] _ IH]; simpl; [lia|]. destruct (f r); lia. Qed.

Lemma done_caches_bounds rs : 0 ≤ total done_caches rs ≤ total (λ r, zlen (r_descrs r)) rs.
Proof.
  unfold total. induction rs as [|r rs IH]; simpl; [lia|]. unfold done_caches at 1 3.
  pose proof (zlen_nonneg (r_descrs r)). destruct (is_done r); lia.
Qed.

Lemma alloc_size_nonneg ds n : get_allocation_size_tokens ds = Ok n → 0 ≤ n.
Proof.
  unfold get_allocation_size_tokens.
  assert (∀ acc n, (∀ a, acc = Ok a → 0 ≤ a) →
    foldl (λ acc d, n ← acc; last_dim ← (of_option IndexError (py_index (d_shape d) (-1)) : res Z);
      Ok (Z.max (match d with DLinear l => cache_allocation_tokens l | DKV _ => last_dim end) n)) acc ds
    = Ok n → 0 ≤ n) as Hgen.
  { induction ds as [|d ds IH]; intros acc m Hacc; [apply Hacc|]. simpl. apply IH.
    intros a. destruct acc as [b|]; [|done]. simpl. destruct (py_index _ _); [|done]. simpl.
    intros [= <-]. specialize (Hacc b eq_refl). lia. }
  apply Hgen. by intros a [= <-].
Qed.

(** Steps that only change phases and the enqueued counter. *)
Lemma world_ok_phase w i r ph dn :
  world_ok w → w_requests w !! i = Some r →
  dn = (if is_pending (set_phase ph r) then r_tokens r else 0) - (if is_pending r then r_tokens r else 0) →
  is_done r = false → is_done (set_phase ph r) = false →
  total r_tokens (<[i := set_phase ph r]> (w_requests w)) < 2 ^ 63 →
  world_ok (mkWorld (add_enqueued dn (w_shared w)) (w_procs w) (<[i := set_phase ph r]> (w_requests w))).
Proof.
  intros [] Hi Hdn Hd1 Hd2 Hfit.
  assert (Forall (λ r, 0 ≤ r_tokens r ∧ r_descrs r ≠ []) (<[i := set_phase ph r]> (w_requests w))) as Htok.
  { apply Forall_insert; [done|]. by apply (Forall_lookup_1 _ _ _ _ wo_tokens0 Hi). }
  split; simpl; try done.
  - pose proof (phase_sum_bounds is_pending _ Htok) as Hb. revert Hb.
    rewrite (phase_sum_insert _ _ _ r) by done. rewrite wo_enqueued0. simpl. intros Hb. rewrite c_int64_small; lia.
  - by rewrite (phase_sum_insert _ _ _ r), Hd1, Hd2, Z.sub_0_r, Z.add_0_r by done.
  - rewrite (total_insert _ _ _ r) by done. unfold done_caches at 2 3. rewrite Hd1, Hd2. lia.
Qed.

Lemma commit_proc_ok n ds s p :
  proc_ok p → 0 ≤ n → (∀ g m, dict_get (allocation_tokens p) g = Some m → ∀ h, h ∈ g → h < handle_counter s) →
  ds ≠ [] →
  let p' := (commit_alloc n ds s p).2 in
  proc_ok p' ∧ proc_sum p' = proc_sum p + n ∧
  ∀ h, is_Some (dict_get (handle_to_allocation p') h) ↔
       is_Some (dict_get (handle_to_allocation p) h) ∨ h ∈ new_handles s ds.
Proof.
  intros [H1 H2 H3 H4] Hn Hlt Hds p'. set (hs := new_handles s ds) in *.
  assert (∀ h, h ∈ hs → handle_counter s ≤ h) as Hge by (intros h [? _]%elem_of_seqZ; lia).
  assert (∀ h, dict_get (handle_to_allocation p') h = if decide (h ∈ hs) then Some hs else dict_get (handle_to_allocation p) h) as Hget.
  { intros h. apply sets_get. }
  assert (dict_get (allocation_tokens p) hs = None) as Hnew.
  { destruct (dict_get (allocation_tokens p) hs) as [m|] eqn:E; [|done]. exfalso.
    assert (handle_counter s ∈ hs) as Hin.
    { apply elem_of_seqZ. unfold zlen. destruct ds; [done|]. simpl. lia. }
    pose proof (Hlt _ m E _ Hin). lia. }
  split; [|split].
  - split; simpl; [by apply dict_set_wf|by apply sets_wf| |].
    + intros h g. change (foldl _ _ _) with (handle_to_allocation p'). rewrite Hget.
      case_decide as Hin; [intros [= <-]; split; [done|]; rewrite dict_get_set_eq; by eexists|].
      intros Hh. destruct (H3 h g Hh) as [? ?]. split; [done|].
      rewrite dict_get_set_ne; [done|]. by intros <-.
    + intros g m. change (foldl _ _ _) with (handle_to_allocation p'). fold hs.
      rewrite dict_get_set. case_decide as Hg.
      * intros [= <-]. split; [done|]. intros h Hh. rewrite Hget, decide_True by congruence. congruence.
      * intros Hm. destruct (H4 g m Hm) as [? Hall]. split; [done|]. intros h Hh. rewrite Hget.
        rewrite decide_False; [by apply Hall|]. intros Hc. pose proof (Hge h Hc). pose proof (Hlt g m Hm h Hh). lia.
  - unfold proc_sum. simpl. fold hs. rewrite dict_set_new by done. rewrite sum_app. simpl. lia.
  - intros h. rewrite Hget. case_decide; [split; [by right|by eexists]|]. naive_solver.
Qed.

Lemma force_free_ok handles atn s p :
  proc_ok p → proc_sum p ≤ current_size_tokens s < 2 ^ 63 →
  let sp := force_free handles atn s p in
  proc_ok sp.2 ∧ current_size_tokens sp.1 = current_size_tokens s - proc_sum p + proc_sum sp.2 ∧
  enqueued_size_tokens sp.1 = enqueued_size_tokens s ∧ handle_counter sp.1 = handle_counter s ∧
  max_size_tokens sp.1 = max_size_tokens s ∧ proc_sum sp.2 ≤ proc_sum p ∧
  ∃ (gs : list (list Z)) (hs : list Z),
    (∀ h g, dict_get (handle_to_allocation sp.2) h = Some g ↔
            dict_get (handle_to_allocation p) h = Some g ∧ g ∉ gs) ∧
    pipe sp.1 = (if bool_decide (hs = []) then pipe s else pipe s ++ [(hs, None)]) ∧
    (∀ h g, dict_get (handle_to_allocation p) h = Some g → g ∈ gs ↔ h ∈ hs) ∧
    (∀ h, h ∈ hs → dict_get (handle_to_allocation p) h = None → h ∈ handles ∧ atn = None).
Proof.
  intros Hp Hle sp. destruct handles as [|h0 handles'] eqn:Eh.
  { split; [done|]. simpl. split; [lia|]. do 4 (split; [done|]).
    exists [], []. split; [|split; [done|split]].
    - intros h g. rewrite elem_of_nil. naive_solver.
    - intros h g _. by rewrite !elem_of_nil.
    - by intros h ?%elem_of_nil. }
  rewrite <- Eh in *. assert (sp = let '(p', tokens_to_free, handles_to_free) := free_groups atn (collect_groups p atn handles []) p in
      (mkShared (max_size_tokens s)
         (if tokens_to_free =? 0 then current_size_tokens s
          else c_int64 (Z.max 0 (current_size_tokens s - tokens_to_free)))
         (enqueued_size_tokens s) (handle_counter s)
         (match handles_to_free with [] => pipe s | _ => pipe s ++ [(handles_to_free, None)] end),
       p')) as -> by (unfold sp; rewrite Eh; done). clear Eh.
  set (gs := collect_groups p atn handles []).
  destruct (collect_groups_ok p atn handles [] Hp) as (Hnd & _ & Hk). fold gs in Hnd, Hk.
  pose proof (free_groups_ok atn gs p Hp Hnd) as Hfree.
  destruct (free_groups atn gs p) as [[p' tokens] hs].
  destruct Hfree as (Hok & Hsum & Hget & Hhs).
  { apply list.Forall_forall. intros g Hg.
    destruct (Hk g Hg) as [(h & _ & Hh)|(_ & h & _ & -> & Hh)].
    - left. by destruct (po_group p Hp h g Hh).
    - right. split; [by intros h' ->%list_elem_of_singleton|].
      destruct (dict_get (allocation_tokens p) [h]) eqn:E; [|done].
      destruct (po_tokens p Hp _ _ E) as [_ Hall]. rewrite Hall in Hh by (by left). done. }
  pose proof (proc_sum_nonneg p' Hok) as H0. destruct Hsum as [Hsum Htok].
  assert (∀ h g', g' ∈ gs → h ∈ g' →
    dict_get (handle_to_allocation p) h = Some g' ∨
    (h ∈ handles ∧ atn = None ∧ dict_get (handle_to_allocation p) h = None)) as Hcase.
  { intros h g' Hg' Hh. destruct (Hk g' Hg') as [(h' & _ & Hh')|(Hat & h' & Hin & -> & Hno)].
    - left. destruct (po_group p Hp h' g' Hh') as [_ [n Hn]]. by destruct (po_tokens p Hp g' n Hn) as [_ ?]; auto.
    - right. apply list_elem_of_singleton in Hh as ->. done. }
  split; [done|]. simpl. split.
  { destruct (Z.eqb_spec tokens 0); [lia|]. rewrite c_int64_small; lia. }
  do 3 (split; [done|]). split; [lia|]. exists gs, hs. split; [done|]. split; [by destruct hs|]. split.
  - intros h g Hh. destruct (po_group p Hp h g Hh) as [Hin Hsome]. rewrite Hhs. split.
    + intros Hg. exists g. split; [done|]. split; [done|]. by right.
    + intros (g' & Hg' & Hh' & _). destruct (Hcase h g' Hg' Hh') as [?|(_ & _ & ?)]; [|congruence].
      assert (g' = g) as -> by congruence. done.
  - intros h Hin Hno. apply Hhs in Hin as (g' & Hg' & Hh' & _).
    destruct (Hcase h g' Hg' Hh') as [?|(? & ? & _)]; [congruence|done].
Qed.

Lemma handle_lt w k p h :
  world_ok w → w_procs w !! k = Some p → is_Some (dict_get (handle_to_allocation p) h) →
  h < handle_counter (w_shared w).
Proof.
  intros Hw Hk [g Hg]. pose proof (Forall_lookup_1 _ _ _ _ (wo_procs w Hw) Hk) as Hp.
  destruct (po_group p Hp h g Hg) as [Hin [n Hn]]. by apply (wo_bound w Hw k p n g).
Qed.

Lemma procs_sum_ge ps k p : Forall proc_ok ps → ps !! k = Some p → proc_sum p ≤ procs_sum ps.
Proof.
  intros HF. revert k. induction HF as [|q ps Hq HF IH]; intros [|k] Hk; simplify_eq/=.
  - assert (0 ≤ procs_sum ps); [|unfold procs_sum in *; simpl; lia].
    clear -HF. unfold procs_sum. induction HF; simpl; [lia|]. pose proof (proc_sum_nonneg x H). lia.
  - pose proof (IH k Hk). pose proof (proc_sum_nonneg q Hq). unfold procs_sum in *. simpl. lia.
Qed.

(** The shared counter of tokens is one that a 64-bit integer holds. *)
Lemma current_small w : world_ok w → fits w → 0 ≤ current_size_tokens (w_shared w) < 2 ^ 63.
Proof.
  intros Hw [Hf _]. pose proof (phase_sum_bounds is_done _ (wo_tokens w Hw)). pose proof (wo_done w Hw). rewrite (wo_current w Hw).
  split; [|lia]. pose proof (wo_procs w Hw) as HF. clear -HF. unfold procs_sum. induction HF as [|p ps Hp HF IH]; simpl; [lia|].
  pose proof (proc_sum_nonneg p Hp). lia.
Qed.

Lemma free_premise w q p : world_ok w → fits w → w_procs w !! q = Some p → proc_sum p ≤ current_size_tokens (w_shared w) < 2 ^ 63.
Proof.
  intros Hw Hf Hp. split; [|by apply current_small]. rewrite (wo_current w Hw). apply (procs_sum_ge _ q); [apply Hw|done].
Qed.

Lemma new_handles_length s ds : zlen (new_handles s ds) = zlen ds.
Proof. unfold new_handles, zlen. rewrite length_seqZ. lia. Qed.

(** The counters after a commit have not wrapped. *)
Lemma commit_counters w i r : world_ok w → fits w → w_requests w !! i = Some r → r_phase r = Granted →
  c_int64 (current_size_tokens (w_shared w) + r_tokens r) = current_size_tokens (w_shared w) + r_tokens r ∧
  c_int64 (handle_counter (w_shared w) + zlen (new_handles (w_shared w) (r_descrs r)))
    = handle_counter (w_shared w) + zlen (new_handles (w_shared w) (r_descrs r)).
Proof.
  intros Hw [Hf1 Hf2] Hi Hph. set (r' := set_phase (Done []) r). pose proof (zlen_nonneg (r_descrs r)) as Hz.
  destruct (Forall_lookup_1 _ _ _ _ (wo_tokens w Hw) Hi) as [Hn Hds]. pose proof (current_small w Hw (conj Hf1 Hf2)) as Hc.
  assert (Hd : is_done r = false) by (unfold is_done; by rewrite Hph).
  assert (Htok : Forall (λ r, 0 ≤ r_tokens r ∧ r_descrs r ≠ []) (<[i := r']> (w_requests w))) by (apply Forall_insert; [apply Hw|done]).
  pose proof (phase_sum_bounds is_done _ Htok) as Hb. pose proof (done_caches_bounds (<[i := r']> (w_requests w))) as Hh.
  rewrite (phase_sum_insert _ _ _ r), (total_insert _ _ _ r), Hd in Hb by done. change (is_done r') with true in Hb. cbn in Hb.
  assert (done_caches r = 0 ∧ done_caches r' = zlen (r_descrs r)) as [Hr Hr'] by (unfold done_caches; by rewrite Hd).
  rewrite !(total_insert _ _ _ r), Hr, Hr' in Hh by done. cbn in Hh.
  pose proof (wo_done w Hw). rewrite new_handles_length. split; (rewrite c_int64_small; [done|]).
  - rewrite (wo_current w Hw) in *. lia.
  - rewrite (wo_counter w Hw). pose proof (done_caches_bounds (w_requests w)). lia.
Qed.

Lemma commit_world_ok w i r p :
  world_ok w → fits w → w_requests w !! i = Some r → r_phase r = Granted → w_procs w !! r_proc r = Some p →
  let sp := commit_alloc (r_tokens r) (r_descrs r) (w_shared w) p in
  world_ok (mkWorld sp.1 (<[r_proc r := sp.2]> (w_procs w))
              (<[i := set_phase (Done (new_handles (w_shared w) (r_descrs r))) r]> (w_requests w))).
Proof.
  intros Hw Hfit Hi Hph Hp sp. destruct (Forall_lookup_1 _ _ _ _ (wo_tokens w Hw) Hi) as [Hn Hds].
  destruct (commit_counters w i r Hw Hfit Hi Hph) as [Hc64 Hh64].
  pose proof (Forall_lookup_1 _ _ _ _ (wo_procs w Hw) Hp) as Hpok.
  destruct (commit_proc_ok (r_tokens r) (r_descrs r) (w_shared w) p Hpok Hn) as (Hok & Hsum & Hlive); [|done|].
  { intros g m Hg h Hh. by apply (wo_bound w Hw _ p m g Hp Hg). }
  fold sp in Hok, Hsum, Hlive.
  assert (current_size_tokens sp.1 = current_size_tokens (w_shared w) + r_tokens r) as Hc by exact Hc64.
  assert (enqueued_size_tokens sp.1 = enqueued_size_tokens (w_shared w)) as He by done.
  assert (handle_counter sp.1 = handle_counter (w_shared w) + zlen (new_handles (w_shared w) (r_descrs r)))
    as Hcnt by exact Hh64.
  assert (allocation_tokens sp.2 = dict_set (allocation_tokens p) (new_handles (w_shared w) (r_descrs r)) (r_tokens r))
    as Halloc by done.
  clearbody sp. split; simpl.
  - apply Forall_insert; [apply Hw|done].
  - rewrite Hc, (procs_sum_insert _ _ _ _ Hp), Hsum, <- (wo_current w Hw). lia.
  - rewrite He, (phase_sum_insert _ _ _ r) by done. rewrite (wo_enqueued w Hw).
    unfold is_pending. rewrite Hph. simpl. lia.
  - rewrite (procs_sum_insert _ _ _ _ Hp), (phase_sum_insert _ _ _ r) by done. unfold is_done at 2 3. rewrite Hph. simpl.
    pose proof (wo_done w Hw). lia.
  - rewrite Hcnt, (total_insert _ _ _ r), new_handles_length, (wo_counter w Hw) by done. unfold done_caches at 3 4, is_done. rewrite Hph. simpl. lia.
  - apply Forall_insert; [apply Hw|]. done.
  - assert (handle_counter (w_shared w) ≤ handle_counter (w_shared w) + zlen (new_handles (w_shared w) (r_descrs r)))
      by (pose proof (zlen_nonneg (new_handles (w_shared w) (r_descrs r))); lia).
    rewrite Hcnt. intros k q m g Hk Hg x Hx. destruct (decide (k = r_proc r)) as [->|Hne].
    + rewrite list_lookup_insert_eq in Hk by (by eapply lookup_lt_Some). injection Hk as <-.
      rewrite Halloc, dict_get_set in Hg. case_decide as Hgn.
      * subst g. apply elem_of_seqZ in Hx. unfold zlen at 1, new_handles. rewrite length_seqZ.
        unfold zlen in *. lia.
      * pose proof (wo_bound w Hw _ p m g Hp Hg x Hx). lia.
    + rewrite list_lookup_insert_ne in Hk by done. pose proof (wo_bound w Hw _ q m g Hk Hg x Hx). lia.
  - assert (∀ k q h, k ≠ r_proc r → w_procs w !! k = Some q → is_Some (dict_get (handle_to_allocation q) h) →
              is_Some (dict_get (handle_to_allocation sp.2) h) → False) as Hsep.
    { intros k q h Hne Hk Hq Hh. apply Hlive in Hh as [Hh|Hh].
      - apply Hne. by apply (wo_owner w Hw k (r_proc r) q p h).
      - pose proof (handle_lt w k q h Hw Hk Hq). apply elem_of_seqZ in Hh. lia. }
    intros j k q1 q2 h Hj Hk H1 H2.
    destruct (decide (j = r_proc r)) as [->|Hj0], (decide (k = r_proc r)) as [->|Hk0]; [done| | |].
    + rewrite list_lookup_insert_eq in Hj by (by eapply lookup_lt_Some). injection Hj as <-.
      rewrite list_lookup_insert_ne in Hk by done. by destruct (Hsep k q2 h).
    + rewrite list_lookup_insert_eq in Hk by (by eapply lookup_lt_Some). injection Hk as <-.
      rewrite list_lookup_insert_ne in Hj by done. by destruct (Hsep j q1 h).
    + rewrite list_lookup_insert_ne in Hj, Hk by done. by apply (wo_owner w Hw j k q1 q2 h).
Qed.

Lemma free_world_ok w q p handles atn :
  world_ok w → fits w → w_procs w !! q = Some p →
  let sp := force_free handles atn (w_shared w) p in
  world_ok (mkWorld sp.1 (<[q := sp.2]> (w_procs w)) (w_requests w)).
Proof.
  intros Hw Hfit Hp sp. pose proof (Forall_lookup_1 _ _ _ _ (wo_procs w Hw) Hp) as Hpok.
  destruct (force_free_ok handles atn (w_shared w) p Hpok (free_premise w q p Hw Hfit Hp)) as (Hok & Hcur & Henq & Hcnt & Hmax & Hle & gs & hs & Hget & _).
  fold sp in Hok, Hcur, Henq, Hcnt, Hmax, Hle, Hget. clearbody sp. split; simpl.
  - apply Forall_insert; [apply Hw|done].
  - rewrite Hcur, (procs_sum_insert _ _ _ _ Hp), (wo_current w Hw). lia.
  - rewrite Henq. apply Hw.
  - rewrite (procs_sum_insert _ _ _ _ Hp). pose proof (wo_done w Hw). lia.
  - rewrite Hcnt. apply Hw.
  - apply Hw.
  - rewrite Hcnt. intros k q' m g Hk Hg x Hx. destruct (decide (k = q)) as [->|Hne].
    + rewrite list_lookup_insert_eq in Hk by (by eapply lookup_lt_Some). injection Hk as <-.
      destruct (po_tokens sp.2 Hok g m Hg) as [_ Hall]. specialize (Hall x Hx). apply Hget in Hall as [Hh _].
      by apply (handle_lt w q p x Hw Hp).
    + rewrite list_lookup_insert_ne in Hk by done. by apply (wo_bound w Hw k q' m g).
  - assert (∀ k q' h, (<[q := sp.2]> (w_procs w)) !! k = Some q' → is_Some (dict_get (handle_to_allocation q') h) →
              ∃ q0, w_procs w !! k = Some q0 ∧ is_Some (dict_get (handle_to_allocation q0) h)) as Hback.
    { intros k q' h Hk Hh. destruct (decide (k = q)) as [->|Hne].
      - rewrite list_lookup_insert_eq in Hk by (by eapply lookup_lt_Some). injection Hk as <-.
        exists p. split; [done|]. destruct Hh as [g Hg]. apply Hget in Hg as [? _]. by eexists.
      - rewrite list_lookup_insert_ne in Hk by done. by exists q'. }
    intros j k q1 q2 h Hj Hk H1 H2. destruct (Hback j q1 h Hj H1) as (p1 & ? & ?).
    destruct (Hback k q2 h Hk H2) as (p2 & ? & ?). by apply (wo_owner w Hw j k p1 p2 h).
Qed.

(** What has been asked for only grows. *)
Lemma step_fits own w w' : step own w w' → fits w' → fits w.
Proof.
  assert (∀ w i r ph s ps, w_requests w !! i = Some r → fits (mkWorld s ps (<[i := set_phase ph r]> (w_requests w))) → fits w) as Hset.
  { unfold fits. cbn [w_requests]. intros w0 i r ph s ps Hi. rewrite !(total_insert _ _ _ r) by done. cbn. intros [? ?]. split; lia. }
  intros Hs. destruct Hs as [w p ds n t Hp Hds Hn| | | | | | | | |]; try by eapply Hset.
  - unfold fits. cbn [w_requests]. rewrite !total_app. pose proof (alloc_size_nonneg ds n Hn). pose proof (zlen_nonneg ds). simpl. intros [? ?]. split; lia.
  - done.
Qed.

Lemma add_enqueued_0 w : world_ok w → fits w → add_enqueued 0 (w_shared w) = w_shared w.
Proof.
  intros Hw [Hf _]. unfold add_enqueued. rewrite Z.add_0_r, c_int64_small; [by destruct (w_shared w)|].
  rewrite (wo_enqueued w Hw). pose proof (phase_sum_bounds is_pending _ (wo_tokens w Hw)). lia.
Qed.

(** A request that is not done moves to a phase that is not either. *)
Lemma set_phase_ok w i r ph dn : world_ok w → fits w → w_requests w !! i = Some r →
  dn = (if is_pending (set_phase ph r) then r_tokens r else 0) - (if is_pending r then r_tokens r else 0) →
  is_done r = false → is_done (set_phase ph r) = false →
  world_ok (mkWorld (add_enqueued dn (w_shared w)) (w_procs w) (<[i := set_phase ph r]> (w_requests w))).
Proof. intros Hw [Hf _] Hi Hdn H1 H2. apply world_ok_phase; try done. rewrite (total_insert _ _ _ r) by done. cbn. lia. Qed.

Lemma step_world_ok own w w' : world_ok w → fits w' → step own w w' → world_ok w'.
Proof.
  intros Hw Hfit' Hs. pose proof (step_fits own w w' Hs Hfit') as Hfit.
  destruct Hs as [w p ds n t Hp Hds Hn|w i r Hi Hph Ht Hm|w i r Hi Hph Ht|w i r Hi Hph Hl
    |w i r Hi Hph Hm|w i r Hi Hph Hm Ht|w i r t Hi Hph Ht Ht0|w i r Hi Hph|w i r p Hi Hph Hp|w q p hs atn Hp Hown].
  - pose proof (alloc_size_nonneg ds n Hn) as Hn0. destruct Hfit' as [Hf' _].
    assert (Forall (λ r, 0 ≤ r_tokens r ∧ r_descrs r ≠ []) (w_requests w ++ [mkReq p ds n t Enqueued])) as Htok.
    { apply Forall_app. split; [apply Hw|]. by repeat constructor. }
    pose proof (phase_sum_bounds is_pending _ Htok) as Hb. cbn [w_requests] in Hf'. pose proof (wo_enqueued w Hw) as He.
    destruct Hw. split; simpl; try done.
    + revert Hb. rewrite phase_sum_app. unfold phase_sum at 2 4. simpl. intros Hb. rewrite c_int64_small; lia.
    + rewrite phase_sum_app. unfold phase_sum at 2. simpl. lia.
    + by rewrite total_app, Z.add_0_r.
  - apply (set_phase_ok w i r); try done; unfold is_pending, is_done; rewrite ?Hph; simpl; (done || lia).
  - unfold set_requests. rewrite <- (add_enqueued_0 w Hw Hfit). apply set_phase_ok; try done; unfold is_pending, is_done; rewrite ?Hph; simpl; (done || lia).
  - unfold set_requests. rewrite <- (add_enqueued_0 w Hw Hfit). apply set_phase_ok; try done; unfold is_pending, is_done; rewrite ?Hph; simpl; (done || lia).
  - apply set_phase_ok; try done; unfold is_pending, is_done; rewrite ?Hph; simpl; (done || lia).
  - apply (set_phase_ok w i r); try done; unfold is_pending, is_done; rewrite ?Hph; simpl; (done || lia).
  - apply (set_phase_ok w i r); try done; unfold is_pending, is_done; destruct Hph as [-> | ->]; simpl; (done || lia).
  - apply (set_phase_ok w i r); try done; unfold is_pending, is_done; destruct Hph as [-> | ->]; simpl; (done || lia).
  - by apply commit_world_ok.
  - by apply free_world_ok.
Qed.

Lemma init_world_ok max n : world_ok (init_world max n).
Proof.
  assert (∀ k p, replicate n (mkProc [] []) !! k = Some p → p = mkProc [] []) as Hrep
    by (intros k p [-> _]%lookup_replicate; done).
  assert (procs_sum (replicate n (mkProc [] [])) = 0) as Hsum by (clear; induction n; simpl; [done|]; unfold procs_sum in *; simpl; by rewrite IHn).
  split; simpl; try done.
  - apply list.Forall_forall. intros p [k Hk]%list_elem_of_lookup. rewrite (Hrep k p Hk).
    split; simpl; try done; apply dict_wf_nil.
  - by rewrite Hsum.
  - intros k p m g Hk. rewrite (Hrep k p Hk). done.
  - intros j k p q h Hj. rewrite (Hrep j p Hj). intros _ [? ?]. done.
Qed.

(** An invariant of the worlds in which no counter has wrapped. *)
Lemma rtc_fits (R : world → world → Prop) (P : world → Prop) x y :
  (∀ a b, R a b → fits b → fits a) → (∀ a b, fits a → fits b → P a → R a b → P b) → P x → rtc R x y → fits y → P y.
Proof.
  intros Hf HR Hx Hr. induction Hr as [|a b c Hab Hbc IH]; [done|]. intros Hc.
  assert (fits b) as Hb by (clear -Hf Hbc Hc; induction Hbc; [done|]; eauto). apply IH; [|done].
  apply (HR a b); eauto.
Qed.

Lemma reachable_ok own max n w : reachable own max n w → fits w → world_ok w.
Proof.
  apply rtc_fits; [apply step_fits|intros a b _ Hb Ha Hs; by eapply step_world_ok|apply init_world_ok].
Qed.

(** ** Serial runs *)

Definition no_granted (w : world) : Prop := Forall (λ r, is_granted r = false) (w_requests w).

(** No event falls between the end of the memory test and the commit that follows it:
    the case of a single handler process, whose coroutine does not await there. *)
Definition serial_step (w w' : world) : Prop := step false w w' ∧ (no_granted w ∨ no_granted w').

Definition within_capacity (w : world) : Prop :=
  current_size_tokens (w_shared w) + phase_sum is_granted (w_requests w) ≤ max_size_tokens (w_shared w).

Lemma phase_sum_none f rs : Forall (λ r, f r = false) rs → phase_sum f rs = 0.
Proof. unfold phase_sum. induction 1 as [|r rs Hr _ IH]; simpl; [done|]. rewrite Hr. lia. Qed.

Lemma phase_sum_nonneg f rs : Forall (λ r, 0 ≤ r_tokens r) rs → 0 ≤ phase_sum f rs.
Proof. unfold phase_sum. induction 1; simpl; [lia|]. case_match; lia. Qed.

(** Changing a request that was not granted to a phase that is not granted. *)
Lemma granted_sum_phase w i r ph :
  w_requests w !! i = Some r → is_granted r = false → is_granted (set_phase ph r) = false →
  phase_sum is_granted (<[i := set_phase ph r]> (w_requests w)) = phase_sum is_granted (w_requests w).
Proof. intros Hi H1 H2. rewrite (phase_sum_insert _ _ _ r) by done. rewrite H1, H2. lia. Qed.

Lemma serial_step_capacity w w' :
  fits w' → world_ok w ∧ within_capacity w → serial_step w w' → world_ok w' ∧ within_capacity w'.
Proof.
  intros Hfit' [Hw Hc] [Hs Hser]. split; [by eapply step_world_ok|]. unfold within_capacity in *. pose proof (step_fits _ _ _ Hs Hfit') as Hfit.
  destruct Hs as [w p ds n t Hp Hds Hn|w i r Hi Hph Ht Hm|w i r Hi Hph Ht|w i r Hi Hph Hl
    |w i r Hi Hph Hm|w i r Hi Hph Hm Ht|w i r t Hi Hph Ht Ht0|w i r Hi Hph|w i r p Hi Hph Hp|w q p hs atn Hp Hown];
    cbn [w_shared w_requests set_requests fail_request add_enqueued max_size_tokens current_size_tokens
         commit_alloc fst].
  - rewrite phase_sum_app. unfold phase_sum at 2. simpl. lia.
  - rewrite granted_sum_phase; unfold is_granted; rewrite ?Hph; done.
  - rewrite granted_sum_phase; unfold is_granted; rewrite ?Hph; done.
  - rewrite granted_sum_phase; unfold is_granted; rewrite ?Hph; done.
  - destruct Hser as [Hno|Hno].
    + rewrite (phase_sum_insert _ _ _ r) by done. rewrite (phase_sum_none _ _ Hno).
      unfold is_granted. rewrite Hph. simpl. lia.
    + exfalso. apply (Forall_lookup_1 _ _ i (set_phase Granted r)) in Hno; [done|].
      simpl. apply list_lookup_insert_eq. by eapply lookup_lt_Some.
  - rewrite granted_sum_phase; unfold is_granted; rewrite ?Hph; done.
  - rewrite granted_sum_phase; unfold is_granted; [done..| |done]; by destruct Hph as [-> | ->].
  - rewrite granted_sum_phase; unfold is_granted; [done..| |done]; by destruct Hph as [-> | ->].
  - change (current_size_tokens sp.1) with (c_int64 (current_size_tokens (w_shared w) + r_tokens r)).
    destruct (commit_counters w i r Hw Hfit Hi Hph) as [-> _].
    rewrite (phase_sum_insert _ _ _ r) by done. unfold is_granted at 2 3. rewrite Hph. simpl. lia.
  - destruct (force_free_ok hs atn (w_shared w) p) as (_ & Hcur & _ & _ & Hmax & Hle & _).
    { by apply (Forall_lookup_1 _ _ _ _ (wo_procs w Hw) Hp). }
    { by apply (free_premise w q p). }
    fold sp in Hcur, Hmax, Hle. rewrite Hmax, Hcur. lia.
Qed.

(** ** The runtime's tensors follow the accounting *)

Section agreement.
Context {T V : Type} `{!Slab T V}.
Context (device_allocate : descriptor → cache (T := T)) (paged_kv_enabled : bool).
Notation RT := (runtime_state (T := T)).
Notation Drain := (drain device_allocate paged_kv_enabled).
Notation Process := (process_message device_allocate paged_kv_enabled).

Lemma drain_app ms1 ms2 (r : RT) :
  Drain (ms1 ++ ms2) r = (r1 ← Drain ms1 r; Drain ms2 r1).
Proof.
  revert r. induction ms1 as [|m ms1 IH]; intros r; [done|]. simpl.
  destruct (Process r m) as [r'|e]; simpl; [apply IH|done].
Qed.

Lemma creates_mem l (r : RT) h :
  dict_mem (allocated_tensors (foldl (create_one device_allocate paged_kv_enabled) r l)) h =
  bool_decide (h ∈ l.*1) || dict_mem (allocated_tensors r) h.
Proof.
  revert r. induction l as [|[h' d] l IH]; intros r; [by rewrite bool_decide_eq_false_2 by apply not_elem_of_nil|].
  simpl. rewrite IH.
  assert (dict_mem (allocated_tensors (create_one device_allocate paged_kv_enabled r (h', d))) h =
          bool_decide (h = h') || dict_mem (allocated_tensors r) h) as ->.
  { assert (allocated_tensors (create_one device_allocate paged_kv_enabled r (h', d)) =
            dict_set (allocated_tensors r) h' (device_allocate d)) as ->
      by (unfold create_one; by case_match).
    unfold dict_mem. rewrite dict_get_set. repeat (case_decide || case_bool_decide); subst; done. }
  rewrite orb_assoc. f_equal. repeat case_bool_decide; set_solver.
Qed.

Lemma deletes_mem hs (r : RT) h :
  dict_wf (allocated_tensors r) →
  dict_mem (allocated_tensors (foldl delete_one r hs)) h =
  negb (bool_decide (h ∈ hs)) && dict_mem (allocated_tensors r) h.
Proof.
  intros Hwf. assert (allocated_tensors (foldl delete_one r hs) = foldl dict_del (allocated_tensors r) hs) as ->.
  { clear Hwf. revert r. induction hs as [|h' hs IH]; intros r; [done|]. simpl. by rewrite IH. }
  unfold dict_mem. rewrite dels_get by done. by case_decide; case_bool_decide.
Qed.

Lemma runtime_wf_step (r : RT) m r' :
  dict_wf (allocated_tensors r) → Process r m = Ok r' → dict_wf (allocated_tensors r').
Proof.
  intros Hwf. unfold process_message. destruct (m.2) as [ds|].
  - case_match; [done|]. intros [= <-]. generalize (zip m.1 ds). intros l. revert r Hwf.
    induction l as [|[h d] l IH]; intros r Hwf; [done|]. apply IH. unfold create_one.
    case_match; simpl; by apply dict_set_wf.
  - intros [= <-]. revert r Hwf. induction (m.1) as [|h hs IH]; intros r Hwf; [done|]. apply IH.
    simpl. by apply dict_del_wf.
Qed.

(** The runtime, having read every message, holds exactly the live handles. *)
Definition in_sync (w : world) : Prop :=
  ∃ r, Drain (pipe (w_shared w)) (mkRuntime [] []) = Ok r ∧ dict_wf (allocated_tensors r) ∧
    ∀ h, dict_mem (allocated_tensors r) h = true ↔ live w h.

Lemma live_insert w q p p' rs s h :
  w_procs w !! q = Some p →
  live (mkWorld s (<[q := p']> (w_procs w)) rs) h ↔
  is_Some (dict_get (handle_to_allocation p') h) ∨
  ∃ k p0, k ≠ q ∧ w_procs w !! k = Some p0 ∧ is_Some (dict_get (handle_to_allocation p0) h).
Proof.
  intros Hq. unfold live. simpl. rewrite Exists_exists. split.
  - intros (p1 & [k Hk]%list_elem_of_lookup & Hh). destruct (decide (k = q)) as [->|Hne].
    + rewrite list_lookup_insert_eq in Hk by (by eapply lookup_lt_Some). injection Hk as <-. by left.
    + rewrite list_lookup_insert_ne in Hk by done. right. eauto.
  - intros [Hh|(k & p0 & Hne & Hk & Hh)].
    + exists p'. split; [|done]. apply (list_elem_of_lookup_2 _ q). apply list_lookup_insert_eq.
      by eapply lookup_lt_Some.
    + exists p0. split; [|done]. apply (list_elem_of_lookup_2 _ k). by rewrite list_lookup_insert_ne.
Qed.

Lemma live_split w q p h :
  w_procs w !! q = Some p →
  live w h ↔ is_Some (dict_get (handle_to_allocation p) h) ∨
  ∃ k p0, k ≠ q ∧ w_procs w !! k = Some p0 ∧ is_Some (dict_get (handle_to_allocation p0) h).
Proof.
  intros Hq. rewrite <- (live_insert w q p p (w_requests w) (w_shared w) h Hq).
  rewrite list_insert_id by done. by destruct w.
Qed.

Lemma step_in_sync w w' : world_ok w → fits w → in_sync w → step true w w' → in_sync w'.
Proof.
  intros Hw Hfit Hsync Hs.
  assert (∀ s' rs, pipe s' = pipe (w_shared w) → in_sync (mkWorld s' (w_procs w) rs)) as Hsame.
  { intros s' rs Hp. destruct Hsync as (r & Hr & Hwf & Hl). exists r. simpl. rewrite Hp. done. }
  destruct Hs as [w p ds n t Hp Hds Hn|w i r Hi Hph Ht Hm|w i r Hi Hph Ht|w i r Hi Hph Hl
    |w i r Hi Hph Hm|w i r Hi Hph Hm Ht|w i r t Hi Hph Ht Ht0|w i r Hi Hph|w i r p Hi Hph Hp|w q p hs atn Hp Hown];
    try (apply Hsame; done).
  - destruct Hsync as (rt & Hr & Hwf & Hl).
    destruct (Forall_lookup_1 _ _ _ _ (wo_tokens w Hw) Hi) as [Hn Hds].
    destruct (commit_proc_ok (r_tokens r) (r_descrs r) (w_shared w) p) as (_ & _ & Hlive); [|done| |done|].
    { by apply (Forall_lookup_1 _ _ _ _ (wo_procs w Hw) Hp). }
    { intros g m Hg h Hh. by apply (wo_bound w Hw _ p m g Hp Hg). }
    set (hs := new_handles (w_shared w) (r_descrs r)) in *.
    assert (length hs = length (r_descrs r)) as Hlen.
    { unfold hs, new_handles. rewrite length_seqZ. unfold zlen. lia. }
    assert (pipe sp.1 = pipe (w_shared w) ++ [(hs, Some (r_descrs r))]) as Hpipe by done.
    fold sp in Hlive. clearbody sp.
    eexists. simpl. rewrite Hpipe, drain_app, Hr. simpl. unfold process_message. simpl.
    unfold zlen. rewrite Hlen, Z.eqb_refl. simpl. split; [done|]. split.
    + apply (runtime_wf_step rt (hs, Some (r_descrs r))); [done|].
      unfold process_message. simpl. unfold zlen. by rewrite Hlen, Z.eqb_refl.
    + intros h. rewrite creates_mem, fst_zip by lia. rewrite (live_insert w _ p) by done.
      rewrite Hlive, orb_true_iff, bool_decide_eq_true, Hl, (live_split w (r_proc r) p) by done.
      naive_solver.
  - destruct Hsync as (rt & Hr & Hwf & Hl).
    destruct (force_free_ok hs atn (w_shared w) p) as (_ & _ & _ & _ & _ & _ & gs & fs & Hget & Hpipe & Hfs & Hunk).
    { by apply (Forall_lookup_1 _ _ _ _ (wo_procs w Hw) Hp). }
    { by apply (free_premise w q p). }
    fold sp in Hget, Hpipe. clearbody sp.
    assert (∀ h, live (mkWorld sp.1 (<[q := sp.2]> (w_procs w)) (w_requests w)) h ↔ live w h ∧ h ∉ fs) as Hlive.
    { intros h. rewrite (live_insert w q p), (live_split w q p) by done. split.
      - intros [[g Hg]|Hother].
        + apply Hget in Hg as [Hg Hn]. split; [left; by eexists|]. by rewrite <- (Hfs h g Hg).
        + split; [by right|]. intros Hin. destruct (dict_get (handle_to_allocation p) h) as [g|] eqn:E.
          * destruct Hother as (k & p0 & Hne & Hk & Hh). apply Hne.
            apply (wo_owner w Hw k q p0 p h); [done|done|done|by rewrite E].
          * destruct (Hunk h Hin E) as [Hh Hat]. destruct (Hown eq_refl Hat h Hh) as [[? ?]|Hdead]; [congruence|].
            apply Hdead. apply (live_split w q p); [done|]. by right.
      - intros [[[g Hg]|Hother] Hn]; [left|by right]. exists g. apply Hget. split; [done|].
        intros Hin. apply Hn. by apply (Hfs h g Hg). }
    destruct (decide (fs = [])) as [->|Hne].
    + exists rt. simpl in Hpipe |- *. rewrite Hpipe. split; [done|]. split; [done|].
      intros h. rewrite Hlive, Hl. split; [intros ?; split; [done|apply not_elem_of_nil]|by intros [? _]].
    + rewrite bool_decide_eq_false_2 in Hpipe by done. eexists. simpl. rewrite Hpipe, drain_app, Hr. simpl.
      split; [done|]. split; [by apply (runtime_wf_step rt (fs, None))|].
      intros h. rewrite deletes_mem by done. rewrite Hlive, andb_true_iff, negb_true_iff, bool_decide_eq_false, Hl.
      naive_solver.
Qed.

Lemma init_in_sync max n : in_sync (init_world max n).
Proof.
  exists (mkRuntime [] []). split; [done|]. split; [apply dict_wf_nil|]. intros h. split; [done|].
  unfold live. simpl. rewrite Exists_exists. intros (p & [k [-> _]%lookup_replicate]%list_elem_of_lookup & [? ?]). done.
Qed.
End agreement.

(** ** Properties *)

(** C9: Token conservation. In every interleaving of any number of handler processes, freeing
    whatever handles they like, with any requests failing, timing out or being cancelled, and
    as long as fewer than [2 ^ 63] tokens and caches have been asked for since the start, the
    shared 64-bit counter is the sum of the tokens of the allocations not yet freed, and the
    enqueued counter the sum of the requests still waiting; neither goes negative, and no handle
    belongs to two processes. *)
Theorem tokens_conserved own max n w :
  reachable own max n w → fits w →
  current_size_tokens (w_shared w) = procs_sum (w_procs w) ∧ 0 ≤ current_size_tokens (w_shared w) ∧
  enqueued_size_tokens (w_shared w) = phase_sum is_pending (w_requests w) ∧
  0 ≤ enqueued_size_tokens (w_shared w) ∧
  ∀ j k p q h, w_procs w !! j = Some p → w_procs w !! k = Some q →
    is_Some (dict_get (handle_to_allocation p) h) → is_Some (dict_get (handle_to_allocation q) h) → j = k.
Proof.
  intros Hr Hf. pose proof (reachable_ok own max n w Hr Hf) as Hw. split; [apply Hw|]. split; [by apply current_small|].
  split; [apply Hw|]. split; [|apply Hw]. rewrite (wo_enqueued w Hw). by apply phase_sum_bounds, Hw.
Qed.

(** Beyond that the counter of handles wraps around, and a handle that another process still holds
    can be given out again. *)
Lemma wrapped_handles :
  let s := mkShared 64 16 0 (2 ^ 64 - 1) [] in
  c_int64 (handle_counter s) = -1 ∧
  handle_counter (commit_alloc 1 [DKV [1]; DKV [1]] (mkShared 64 16 0 (2 ^ 63 - 1) []) (mkProc [] [])).1 = - 2 ^ 63 + 1 ∧
  new_handles (mkShared 64 16 0 (c_int64 (handle_counter s)) []) [DKV [1]; DKV [1]] = [-1; 0].
Proof. vm_compute. done. Qed.

(** Capacity. When no event falls between a request's memory test and its commit,
    as with one handler process, the cache never exceeds its size. Nothing enforces
    that between processes: the lock is released before the counter is increased, and
    two processes can together allocate twice the cache. *)
Lemma capacity_needs_serial_commits :
  (∀ max n w, 0 ≤ max → rtc serial_step (init_world max n) w → fits w →
     current_size_tokens (w_shared w) ≤ max_size_tokens (w_shared w)) ∧
  ∃ w, reachable true 4 2 w ∧ max_size_tokens (w_shared w) = 4 ∧ current_size_tokens (w_shared w) = 8.
Proof.
  split.
  - intros max n w Hmax Hr Hfit.
    assert (world_ok w ∧ within_capacity w) as [Hw Hc].
    { apply (rtc_fits serial_step (λ w, world_ok w ∧ within_capacity w) (init_world max n));
        [intros a b [Hs _]; by eapply step_fits|intros a b _ Hb; by apply serial_step_capacity| |done|done].
      split; [apply init_world_ok|]. unfold within_capacity, phase_sum. simpl. lia. }
    unfold within_capacity in Hc.
    assert (0 ≤ phase_sum is_granted (w_requests w)); [|lia].
    apply phase_sum_nonneg. eapply Forall_impl; [apply Hw|]. by intros r [? _].
  - pose (d := DKV [1; 2; 3; 4]).
    eexists. split; [|split].
    + eapply rtc_l; [apply (step_request _ _ 0 [d] 4 None); [simpl; lia|done|reflexivity]|].
      eapply rtc_l; [apply (step_request _ _ 1 [d] 4 None); [simpl; lia|done|reflexivity]|].
      eapply rtc_l; [apply (step_contend _ _ 0); [reflexivity|reflexivity|done]|].
      eapply rtc_l; [apply (step_contend _ _ 1); [reflexivity|reflexivity|done]|].
      eapply rtc_l; [apply (step_lock _ _ 0); [reflexivity|reflexivity|by repeat constructor]|].
      eapply rtc_l; [apply (step_grant _ _ 0); [reflexivity|reflexivity|done]|].
      eapply rtc_l; [apply (step_lock _ _ 1); [reflexivity|reflexivity|by repeat constructor]|].
      eapply rtc_l; [apply (step_grant _ _ 1); [reflexivity|reflexivity|done]|].
      eapply rtc_l; [eapply (step_commit _ _ 0); reflexivity|].
      eapply rtc_l; [eapply (step_commit _ _ 1); reflexivity|]. apply rtc_refl.
    + reflexivity.
    + reflexivity.
Qed.

(** The runtime follows the accounting. When processes free only handles they
    allocated (or dead ones), a runtime that has read every message of the pipe holds
    a tensor for exactly the handles of unfreed allocations, so [use_cache] on live
    handles returns without waiting and yields a tensor for each. *)
Lemma runtime_agrees {T V} `{!Slab T V} (device_allocate : descriptor → cache (T := T)) paged max n w handles :
  reachable true max n w → fits w → (∀ h, h ∈ handles → live w h) →
  ∃ r cs, use_cache device_allocate paged handles (pipe (w_shared w)) [] (mkRuntime [] []) =
            Some (Ok (r, Some <$> cs)) ∧ length cs = length handles ∧
    ∀ h, dict_mem (allocated_tensors r) h = true ↔ live w h.
Proof.
  intros Hr Hfit Hh.
  assert (world_ok w ∧ in_sync device_allocate paged w) as [Hw (r & Hdr & Hwf & Hl)].
  { apply (rtc_fits (step true) (λ w, world_ok w ∧ in_sync device_allocate paged w) (init_world max n)); [apply step_fits| | |done|done].
    - intros a b Hfa Hfb [Ha Hs] Hab. split; [by eapply step_world_ok|by eapply step_in_sync].
    - split; [apply init_world_ok|apply init_in_sync]. }
  assert (∀ h, h ∈ handles → ∃ c, dict_get (allocated_tensors r) h = Some c) as Hc.
  { intros h Hin. specialize (Hl h). unfold dict_mem in Hl. destruct (dict_get _ h); [by eexists|].
    apply Hh in Hin. by apply Hl in Hin. }
  unfold use_cache. rewrite Hdr.
  assert (missing r handles = []) as Hm.
  { unfold missing. destruct (filter _ handles) as [|h l] eqn:E; [done|]. exfalso.
    assert (h ∈ filter (λ h, dict_mem (allocated_tensors r) h = false) handles) as Hin by (rewrite E; by left).
    apply list_elem_of_filter in Hin as [Hf Hin]. by rewrite (proj2 (Hl h) (Hh h Hin)) in Hf. }
  assert (wait_missing device_allocate paged [] handles r = Some (Ok (r, []))) as -> by (simpl; by rewrite Hm).
  assert (∃ cs, dict_get (allocated_tensors r) <$> handles = Some <$> cs) as [cs Hcs].
  { clear -Hc. induction handles as [|h hs IH]; [by exists []|].
    destruct (Hc h) as [c Hch]; [by left|]. destruct IH as [cs Hcs]; [intros; apply Hc; by right|].
    exists (c :: cs). simpl. f_equal; [done|exact Hcs]. }
  exists r, cs. rewrite Hcs. split; [done|]. split; [|done].
  apply (f_equal length) in Hcs. by rewrite !length_fmap in Hcs.
Qed.

(** ** One allocation, committed *)

Definition demo_descr : descriptor := DKV [1; 2; 3; 16].
Definition demo_world : world :=
  mkWorld (mkShared 64 16 0 1 [([0], Some [demo_descr])])
    [mkProc [(0, [0])] [([0], 16)]] [mkReq 0 [demo_descr] 16 (Some 0) (Done [0])].

Lemma demo_world_reachable own : reachable own 64 1 demo_world.
Proof.
  eapply rtc_l; [apply (step_request _ _ 0 [demo_descr] 16 (Some 0)); [simpl; lia|done|reflexivity]|].
  eapply rtc_l; [apply (step_contend _ _ 0); [reflexivity|reflexivity|done]|].
  eapply rtc_l; [apply (step_lock _ _ 0); [reflexivity|reflexivity|by repeat constructor]|].
  eapply rtc_l; [apply (step_grant _ _ 0); [reflexivity|reflexivity|done]|].
  eapply rtc_l; [eapply (step_commit _ _ 0); reflexivity|]. apply rtc_refl.
Qed.

Lemma demo_world_fits : fits demo_world.
Proof. split; vm_compute; reflexivity. Qed.

Lemma tokens_conserved_witness :
  reachable false 64 1 demo_world ∧ procs_sum (w_procs demo_world) = 16.
Proof.
  split; [apply demo_world_reachable|].
  destruct (tokens_conserved false 64 1 demo_world (demo_world_reachable false) demo_world_fits) as (Hs & _).
  rewrite <- Hs. reflexivity.
Defined.

Lemma runtime_agrees_witness :
  ∃ r cs, use_cache (λ d, (Some (mkFslab [16; 1; 2] (λ _ _ _, 0)), Some (mkFslab [16; 1; 2] (λ _ _ _, 0))))
            true [0] (pipe (w_shared demo_world)) [] (mkRuntime [] []) = Some (Ok (r, Some <$> cs)) ∧
    length cs = 1%nat ∧ is_Some (paged_view r 0).
Proof.
  destruct (runtime_agrees (λ d, (Some (mkFslab [16; 1; 2] (λ _ _ _, 0)), Some (mkFslab [16; 1; 2] (λ _ _ _, 0))))
              true 64 1 demo_world [0] (demo_world_reachable true) demo_world_fits) as (r & cs & Hr & Hlen & _).
  { intros h ->%list_elem_of_singleton. unfold live. simpl. left. by eexists. }
  exists r, cs. split; [exact Hr|]. split; [exact Hlen|]. vm_compute in Hr. injection Hr as <- _. by eexists.
Defined.
