(* ===== verification/PrefixIndex.v ===== *)
(** * The server-side prefix index (server/prefix_index.py)

    [KVPrefixIndex]: an LRU dictionary from the SHA-256 of a token prefix to the
    cache handle holding its KV, with a budget counted in tokens. The hash function
    is a parameter (nothing is assumed of it: a lookup compares the stored tokens
    again); the JSON text that is hashed is computed as the code does. *)

From stdpp Require Import numbers base strings pretty list.
From Stdlib Require Import ZArith Lia.
From S2P Require Import Prelude Dict.

(** What an iterable of token ids may yield: an [int], or anything else ([bool]
    included), which is refused. *)
Inductive token := TokInt (n : Z) | TokOther.

Definition normalize_token (x : token) : option Z :=
  match x with TokInt n => Some n | TokOther => None end.

Definition normalize_tokens (tokens : list token) : res (list Z) :=
  match mapM normalize_token tokens with
  | None => Raise ValueError
  | Some [] => Raise ValueError
  | Some out => Ok out
  end.

(** [json.dumps(tokens, separators=(",", ":"))] *)
Definition json_dumps_ints (l : list Z) : string :=
  ("[" +:+ String.concat "," (pretty <$> l) +:+ "]")%string.

Record KVPrefixIndexEntry (Meta : Type) := mkEntry {
  token_prefix : list Z;
  handle : Z;
  prefix_length : Z;
  token_sha256 : string;
  metadata : dict string Meta;
}.
Arguments mkEntry {Meta} _ _ _ _ _.
Arguments token_prefix {Meta} _.
Arguments handle {Meta} _.
Arguments prefix_length {Meta} _.
Arguments token_sha256 {Meta} _.
Arguments metadata {Meta} _.

Record KVPrefixIndex (Meta : Type) := mkIndex {
  max_size_tokens : option Z;
  entries : dict string (KVPrefixIndexEntry Meta);
  current_size_tokens : Z;
}.
Arguments mkIndex {Meta} _ _ _.
Arguments max_size_tokens {Meta} _.
Arguments entries {Meta} _.
Arguments current_size_tokens {Meta} _.

Section PrefixIndex.
Context {Meta : Type} (sha256_hexdigest : string → string).
Notation Entry := (KVPrefixIndexEntry Meta).
Notation Index := (KVPrefixIndex Meta).
Implicit Types (ix : Index) (e : Entry).

(** [prefix_tokens_sha256] of tokens already normalized. *)
Definition digest (l : list Z) : string := sha256_hexdigest (json_dumps_ints l).

Definition prefix_tokens_sha256 (tokens : list token) : res string :=
  normalized ← normalize_tokens tokens; Ok (digest normalized).

Definition new_index (max_size : option Z) : Index := mkIndex max_size [] 0.

(** [while self.current_size_tokens > self.max_size_tokens and self._entries] *)
Fixpoint evict (max cur : Z) (d : dict string Entry) : dict string Entry * Z :=
  match d with
  | [] => ([], cur)
  | (k, removed) :: d' =>
      if max <? cur then evict max (cur - prefix_length removed) d' else (d, cur)
  end.

Definition evict_if_needed ix : Index :=
  match max_size_tokens ix with
  | None => ix
  | Some max =>
      let '(d, cur) := evict max (current_size_tokens ix) (entries ix) in
      mkIndex (max_size_tokens ix) d cur
  end.

(** [self._entries.pop(key, None)] with the size update that follows it. *)
Definition pop_entry (key : string) ix : Index :=
  match dict_get (entries ix) key with
  | None => ix
  | Some previous =>
      mkIndex (max_size_tokens ix) (dict_del (entries ix) key)
        (current_size_tokens ix - prefix_length previous)
  end.

Definition register (tokens : list token) (h : Z) (plen : option Z)
    (meta : option (dict string Meta)) : M Index Entry :=
  toks ← lift (normalize_tokens tokens);
  let len := default (zlen toks) plen in
  if (len <=? 0) || (zlen toks <? len) then mthrow ValueError
  else
    let indexed_tokens := take (Z.to_nat len) toks in
    let key := digest indexed_tokens in
    modify (pop_entry key) ;;
    let entry := mkEntry indexed_tokens h len key (default [] meta) in
    modify (λ ix, mkIndex (max_size_tokens ix) (dict_set (entries ix) key entry)
                    (current_size_tokens ix + len)) ;;
    modify evict_if_needed ;;
    mret entry.

(** [self._entries.move_to_end(key)] *)
Definition move_to_end (key : string) ix : Index :=
  match dict_get (entries ix) key with
  | None => ix
  | Some e =>
      mkIndex (max_size_tokens ix) (dict_del (entries ix) key ++ [(key, e)]) (current_size_tokens ix)
  end.

(** [for length in range(len(query), min_len - 1, -1)] *)
Fixpoint lookup_from (query : list Z) (min_len len : nat) : M Index (option Entry) :=
  if (len <? min_len)%nat then mret None
  else
    match len with
    | O => mret None
    | S len' =>
        let prefix := take len query in
        let key := digest prefix in
        ix ← get;
        match dict_get (entries ix) key with
        | None => lookup_from query min_len len'
        | Some entry =>
            if bool_decide (token_prefix entry = prefix)
            then modify (move_to_end key) ;; mret (Some entry)
            else lookup_from query min_len len'
        end
    end.

Definition lookup (tokens : list token) (min_prefix_length : Z) : M Index (option Entry) :=
  query ← lift (normalize_tokens tokens);
  let min_len := Z.max 1 min_prefix_length in
  lookup_from query (Z.to_nat min_len) (length query).

Definition remove (tokens : list token) : M Index (option Entry) :=
  key ← lift (prefix_tokens_sha256 tokens);
  ix ← get;
  modify (pop_entry key) ;;
  mret (dict_get (entries ix) key).

Inductive index_op :=
| IxRegister (tokens : list token) (h : Z) (plen : option Z) (meta : option (dict string Meta))
| IxLookup (tokens : list token) (min_prefix_length : Z)
| IxRemove (tokens : list token).

(** The index after a call, whatever it returned or raised. *)
Definition run_index (o : index_op) ix : Index :=
  match o with
  | IxRegister tk h pl m => fst (register tk h pl m ix)
  | IxLookup tk n => fst (lookup tk n ix)
  | IxRemove tk => fst (remove tk ix)
  end.

(** ** Invariant: keys are the hashes of the stored tokens, sizes add up *)

Definition size_sum (d : dict string Entry) : Z := foldr (λ kv acc, prefix_length kv.2 + acc) 0 d.

Definition entry_wf (kv : string * Entry) : Prop :=
  kv.1 = digest (token_prefix kv.2) ∧ prefix_length kv.2 = zlen (token_prefix kv.2) ∧
  0 < prefix_length kv.2.

Definition within_budget ix : Prop :=
  match max_size_tokens ix with None => True | Some max => current_size_tokens ix ≤ Z.max 0 max end.

Record index_wf ix : Prop := mkIndexWf {
  ix_keys : dict_wf (entries ix);
  ix_entries : Forall entry_wf (entries ix);
  ix_size : current_size_tokens ix = size_sum (entries ix);
}.

Lemma size_sum_app d1 d2 : size_sum (d1 ++ d2) = size_sum d1 + size_sum d2.
Proof. unfold size_sum. induction d1 as [|kv d1 IH]; simpl; [done|]. rewrite IH. lia. Qed.

Lemma size_sum_nonneg d : Forall entry_wf d → 0 ≤ size_sum d.
Proof. unfold size_sum. induction 1 as [|kv d (_ & _ & ?) _ IH]; simpl; lia. Qed.

Lemma size_sum_del d k e : dict_get d k = Some e → size_sum (dict_del d k) = size_sum d - prefix_length e.
Proof.
  intros (d1 & d2 & -> & Hk)%dict_get_Some_split. rewrite dict_del_split by done.
  rewrite !size_sum_app. unfold size_sum at 4. simpl. fold (size_sum d2). lia.
Qed.

Lemma evict_spec max d :
  Forall entry_wf d →
  ∃ d0 d', d = d0 ++ d' ∧ evict max (size_sum d) d = (d', size_sum d') ∧
    size_sum d' ≤ Z.max 0 max ∧
    (d0 = [] ∨ ∃ x, last d0 = Some x ∧ max < prefix_length x.2 + size_sum d').
Proof.
  induction 1 as [|[k e] d He Hd IH]; simpl.
  - exists [], []. repeat split; [simpl; lia|by left].
  - replace (size_sum d) with (prefix_length e + size_sum d - prefix_length e) in IH by lia.
    case_match eqn:Hlt; rewrite ?Z.ltb_lt, ?Z.ltb_ge in Hlt.
    + destruct IH as (d0 & d' & -> & Hev & Hle & Hmin). exists ((k, e) :: d0), d'.
      split; [done|]. split; [done|]. split; [done|]. right.
      destruct Hmin as [->|(x & Hx & ?)].
      * exists (k, e). split; [done|]. simpl. done.
      * exists x. split; [|done]. by destruct d0.
    + exists [], ((k, e) :: d). repeat split; simpl; [lia|by left].
Qed.

Lemma index_wf_drop ix d0 d' :
  index_wf ix → entries ix = d0 ++ d' → index_wf (mkIndex (max_size_tokens ix) d' (size_sum d')).
Proof.
  intros [Hk He Hs] Hd. split; simpl; [|by rewrite Hd in He; apply Forall_app in He as []|done].
  rewrite Hd in Hk. by apply dict_wf_app_r in Hk.
Qed.

Lemma evict_if_needed_spec ix :
  index_wf ix →
  ∃ d0, entries ix = d0 ++ entries (evict_if_needed ix) ∧ index_wf (evict_if_needed ix) ∧
    within_budget (evict_if_needed ix) ∧ max_size_tokens (evict_if_needed ix) = max_size_tokens ix ∧
    (d0 = [] ∨ ∃ x max, last d0 = Some x ∧ max_size_tokens ix = Some max ∧
       max < prefix_length x.2 + current_size_tokens (evict_if_needed ix)).
Proof.
  intros Hwf. unfold evict_if_needed, within_budget. destruct (max_size_tokens ix) as [max|] eqn:Hm.
  - destruct (evict_spec max (entries ix)) as (d0 & d' & Hd & Hev & Hle & Hmin); [apply Hwf|].
    rewrite (ix_size _ Hwf), Hev. exists d0. simpl. rewrite <- Hm at 1.
    split; [done|]. split; [by eapply index_wf_drop|]. split; [done|]. split; [done|].
    destruct Hmin as [?|(x & ? & ?)]; [by left|right; by exists x, max].
  - exists []. rewrite Hm. split; [done|]. split; [done|]. split; [done|]. split; [done|]. by left.
Qed.

Lemma pop_entry_wf key ix : index_wf ix → index_wf (pop_entry key ix).
Proof.
  intros [Hk He Hs]. unfold pop_entry. case_match eqn:E; [|done]. split; simpl.
  - by apply dict_del_wf.
  - by apply Forall_dict_del.
  - by rewrite Hs, (size_sum_del _ _ _ E).
Qed.

Lemma pop_entry_get key key' ix :
  index_wf ix → dict_get (entries (pop_entry key ix)) key' =
    if decide (key = key') then None else dict_get (entries ix) key'.
Proof.
  intros Hwf. unfold pop_entry. case_match eqn:E; simpl; case_decide; subst; try done.
  - apply dict_get_del_eq, Hwf.
  - by apply dict_get_del_ne.
Qed.

Lemma insert_entry_wf ix e :
  index_wf ix → dict_get (entries ix) (token_sha256 e) = None → entry_wf (token_sha256 e, e) →
  index_wf (mkIndex (max_size_tokens ix) (dict_set (entries ix) (token_sha256 e) e)
              (current_size_tokens ix + prefix_length e)).
Proof.
  intros [Hk He Hs] Hnew Hwf. split; simpl; [by apply dict_set_wf|by apply Forall_dict_set|].
  rewrite dict_set_new by done. rewrite size_sum_app, Hs. unfold size_sum at 3. simpl. lia.
Qed.

Lemma move_to_end_wf key ix : index_wf ix → index_wf (move_to_end key ix).
Proof.
  intros [Hk He Hs]. unfold move_to_end. case_match eqn:E; [|done].
  assert (dict_get (dict_del (entries ix) key) key = None) as Hnone by (by apply dict_get_del_eq).
  rewrite <- (dict_set_new _ _ _ Hnone). split; simpl.
  - by apply dict_set_wf, dict_del_wf.
  - apply Forall_dict_set; [by apply Forall_dict_del|]. by apply (Forall_dict_get _ _ _ _ He).
  - rewrite dict_set_new by done. rewrite size_sum_app, (size_sum_del _ _ _ E), Hs.
    unfold size_sum at 3. simpl. lia.
Qed.

(** What a successful [register] leaves, before and after the eviction. *)
Lemma register_ok ix tokens toks h plen meta :
  index_wf ix → normalize_tokens tokens = Ok toks →
  0 < default (zlen toks) plen ≤ zlen toks →
  let len := default (zlen toks) plen in
  let e := mkEntry (take (Z.to_nat len) toks) h len (digest (take (Z.to_nat len) toks)) (default [] meta) in
  let key := token_sha256 e in
  let ix1 := mkIndex (max_size_tokens ix) (entries (pop_entry key ix) ++ [(key, e)])
               (current_size_tokens (pop_entry key ix) + len) in
  register tokens h plen meta ix = (evict_if_needed ix1, Ok e) ∧ index_wf ix1.
Proof.
  intros Hwf Hn Hlen len e key ix1. unfold register. rewrite Hn, lift_ok_bind. fold len.
  replace ((len <=? 0) || (zlen toks <? len)) with false
    by (symmetry; apply orb_false_iff; rewrite Z.leb_gt, Z.ltb_ge; unfold len; lia).
  rewrite !modify_bind. fold e. change (digest _) with key.
  assert (dict_get (entries (pop_entry key ix)) key = None) as Hnew
    by (rewrite pop_entry_get by done; by rewrite decide_True).
  assert (max_size_tokens (pop_entry key ix) = max_size_tokens ix) as Hmax
    by (unfold pop_entry; by case_match).
  assert (entry_wf (key, e)) as He.
  { split; [done|]. split; simpl; [|unfold len; lia].
    unfold zlen in *. rewrite length_take. unfold len in *. lia. }
  pose proof (insert_entry_wf (pop_entry key ix) e (pop_entry_wf key ix Hwf) Hnew He) as Hins.
  rewrite Hmax in *. fold key in Hins. rewrite dict_set_new in * by done. done.
Qed.

Lemma register_raises ix tokens h plen meta :
  (normalize_tokens tokens = Raise ValueError ∨
   ∃ toks, normalize_tokens tokens = Ok toks ∧ ¬ 0 < default (zlen toks) plen ≤ zlen toks) →
  register tokens h plen meta ix = (ix, Raise ValueError).
Proof.
  unfold register. intros [->|(toks & -> & Hlen)]; [done|]. rewrite lift_ok_bind. cbv zeta.
  case_match eqn:E; [done|]. apply orb_false_iff in E. rewrite Z.leb_gt, Z.ltb_ge in E. lia.
Qed.

Lemma normalize_tokens_cases tokens :
  normalize_tokens tokens = Raise ValueError ∨
  ∃ toks, normalize_tokens tokens = Ok toks ∧ toks ≠ [].
Proof. unfold normalize_tokens. repeat case_match; eauto. Qed.

(** ** Lookup *)

Lemma entry_at_digest ix kv : index_wf ix → kv ∈ entries ix →
  dict_get (entries ix) (digest (token_prefix kv.2)) = Some kv.2.
Proof.
  intros [Hk He _] Hin. destruct kv as [k e]. simpl.
  pose proof (proj1 (list.Forall_forall _ _) He _ Hin) as (Hke & _). simpl in Hke. rewrite <- Hke.
  by apply dict_get_elem.
Qed.

Lemma entry_prefix_take ix kv query :
  index_wf ix → kv ∈ entries ix → token_prefix kv.2 `prefix_of` query →
  token_prefix kv.2 = take (Z.to_nat (prefix_length kv.2)) query ∧
  (0 < Z.to_nat (prefix_length kv.2) ≤ length query)%nat.
Proof.
  intros [_ He _] Hin [rest ->]. pose proof (proj1 (list.Forall_forall _ _) He _ Hin) as (_ & Hlen & Hpos).
  rewrite Hlen in *. unfold zlen in *. rewrite Nat2Z.id, length_app. split; [|lia].
  by rewrite take_app_length.
Qed.

Lemma lookup_from_spec ix query min_len n :
  index_wf ix → (0 < min_len)%nat → (n ≤ length query)%nat →
  (∃ e l, (min_len ≤ l ≤ n)%nat ∧ lookup_from query min_len n ix =
            (move_to_end (digest (take l query)) ix, Ok (Some e)) ∧
          dict_get (entries ix) (digest (take l query)) = Some e ∧ token_prefix e = take l query ∧
          ∀ kv l', kv ∈ entries ix → (l < l' ≤ n)%nat → token_prefix kv.2 ≠ take l' query) ∨
  (lookup_from query min_len n ix = (ix, Ok None) ∧
   ∀ kv l', kv ∈ entries ix → (min_len ≤ l' ≤ n)%nat → token_prefix kv.2 ≠ take l' query).
Proof.
  intros Hwf Hmin. induction n as [|n IH]; intros Hn; cbn [lookup_from].
  { right. rewrite (proj2 (Nat.ltb_lt _ _)) by lia. split; [done|]. lia. }
  destruct (Nat.ltb_spec (S n) min_len) as [?|Hge]; [right; split; [done|lia]|].
  rewrite get_bind.
  assert (∀ kv, kv ∈ entries ix → token_prefix kv.2 = take (S n) query →
            dict_get (entries ix) (digest (take (S n) query)) = Some kv.2 ) as Hat
    by (intros kv Hin <-; by apply entry_at_digest).
  assert ((∀ kv, kv ∈ entries ix → token_prefix kv.2 ≠ take (S n) query) →
    (∃ e l, (min_len ≤ l ≤ S n)%nat ∧ lookup_from query min_len n ix =
            (move_to_end (digest (take l query)) ix, Ok (Some e)) ∧
          dict_get (entries ix) (digest (take l query)) = Some e ∧ token_prefix e = take l query ∧
          ∀ kv l', kv ∈ entries ix → (l < l' ≤ S n)%nat → token_prefix kv.2 ≠ take l' query) ∨
    (lookup_from query min_len n ix = (ix, Ok None) ∧
     ∀ kv l', kv ∈ entries ix → (min_len ≤ l' ≤ S n)%nat → token_prefix kv.2 ≠ take l' query)) as Hskip.
  { intros Hno.
    destruct (IH ltac:(lia)) as [(e & l & Hl & Hr & Hg & Ht & Hlong)|(Hr & Hnone)]; [left|right].
    - exists e, l. split; [lia|]. split; [done|]. split; [done|]. split; [done|].
      intros kv l' Hin Hl'. destruct (decide (l' = S n)) as [->|]; [by apply Hno|]. apply Hlong; [done|lia].
    - split; [done|]. intros kv l' Hin Hl'.
      destruct (decide (l' = S n)) as [->|]; [by apply Hno|]. apply Hnone; [done|lia]. }
  destruct (dict_get (entries ix) (digest (take (S n) query))) as [e|] eqn:Hg.
  - case_bool_decide as Ht.
    + left. exists e, (S n). split; [lia|]. split; [done|]. split; [done|]. split; [done|]. intros; lia.
    + apply Hskip. intros kv Hin Hkv. specialize (Hat _ Hin Hkv). simplify_eq.
  - apply Hskip. intros kv Hin Hkv. by specialize (Hat _ Hin Hkv).
Qed.

Lemma lookup_from_wf query min_len n : preserves index_wf (lookup_from query min_len n).
Proof.
  induction n as [|n IH]; intros ix Hwf; cbn [lookup_from]; case_match; try done.
  rewrite get_bind. case_match; [|by apply IH]. case_bool_decide; [|by apply IH].
  by apply move_to_end_wf.
Qed.

Lemma move_to_end_facts key ix :
  index_wf ix → current_size_tokens (move_to_end key ix) = current_size_tokens ix ∧
    max_size_tokens (move_to_end key ix) = max_size_tokens ix ∧
    ∀ e, dict_get (entries ix) key = Some e → last (entries (move_to_end key ix)) = Some (key, e).
Proof.
  intros Hwf. unfold move_to_end. destruct (dict_get (entries ix) key); simpl; [|done].
  split; [done|]. split; [done|]. intros e' [= ->]. by rewrite last_snoc.
Qed.

Lemma lookup_from_size query min_len n ix :
  index_wf ix → let ix' := fst (lookup_from query min_len n ix) in
  current_size_tokens ix' = current_size_tokens ix ∧ max_size_tokens ix' = max_size_tokens ix.
Proof.
  intros Hwf. induction n as [|n IH]; cbn [lookup_from]; case_match; try done.
  rewrite get_bind. case_match; [|by apply IH]. case_bool_decide; [|by apply IH]. simpl.
  by destruct (move_to_end_facts (digest (take (S n) query)) ix) as (? & ? & _).
Qed.

Lemma pop_entry_budget key ix : index_wf ix → within_budget ix → within_budget (pop_entry key ix).
Proof.
  intros [Hk He Hs] Hb. unfold within_budget, pop_entry in *. destruct (dict_get (entries ix) key) eqn:E; [|done]. simpl.
  destruct (max_size_tokens ix); [|done]. pose proof (Forall_dict_get _ _ _ _ He E) as (_ & _ & ?). simpl in *. lia.
Qed.

(** ** Properties *)

(** C4: The LRU index keeps its invariant. After any sequence of calls (refused ones
    included) each entry sits under the hash of its own tokens, no key twice, the
    recorded size is the sum of the entries' lengths, and it never exceeds the
    budget. *)
Theorem index_ops_wf (ops : list index_op) max_size :
  let ix := fold_left (λ ix o, run_index o ix) ops (new_index max_size) in
  index_wf ix ∧ within_budget ix ∧ max_size_tokens ix = max_size.
Proof.
  assert (∀ ix, index_wf ix ∧ within_budget ix ∧ max_size_tokens ix = max_size →
    let ix := fold_left (λ ix o, run_index o ix) ops ix in
    index_wf ix ∧ within_budget ix ∧ max_size_tokens ix = max_size) as Hgen.
  2:{ apply Hgen. unfold within_budget. simpl. split; [|split; [destruct max_size; simpl; first [done|lia]|done]].
      split; [apply dict_wf_nil|constructor|done]. }
  induction ops as [|o ops IH]; intros ix (Hwf & Hb & Hm); [done|]. apply (IH (run_index o ix)).
  destruct o as [tk h pl meta|tk n|tk]; simpl.
  - destruct (normalize_tokens_cases tk) as [Hn|(toks & Hn & _)].
    { rewrite register_raises by (by left). done. }
    destruct (decide (0 < default (zlen toks) pl ≤ zlen toks)) as [Hl|Hl].
    2:{ rewrite register_raises; [done|]. right. by exists toks. }
    destruct (register_ok ix tk toks h pl meta Hwf Hn Hl) as [-> Hwf1]. simpl.
    destruct (evict_if_needed_spec _ Hwf1) as (d0 & _ & ? & ? & Hm1 & _).
    split; [done|]. split; [done|]. etrans; [exact Hm1|exact Hm].
  - unfold lookup. destruct (normalize_tokens tk) as [q|]; [|done]. rewrite lift_ok_bind.
    cbv zeta.
    destruct (lookup_from_size q (Z.to_nat (1 `max` n)) (length q) ix Hwf) as [Hc Hmx].
    split; [by apply lookup_from_wf|]. unfold within_budget. rewrite Hmx, Hc. done.
  - unfold remove. destruct (prefix_tokens_sha256 tk); [|done]. rewrite lift_ok_bind. simpl.
    split; [by apply pop_entry_wf|]. split; [by apply pop_entry_budget|].
    unfold pop_entry. by case_match.
Qed.

(** C5: [lookup] finds the longest indexed prefix of the query of at least the
    minimum length and makes it the most recently used entry; it returns [None]
    exactly when no indexed prefix is that long. Hash collisions cannot make it
    return the wrong handle. *)
Theorem lookup_longest ix tokens query min_len :
  index_wf ix → normalize_tokens tokens = Ok query →
  ∃ ix' r, lookup tokens min_len ix = (ix', Ok r) ∧
    match r with
    | Some e =>
        (∃ key, (key, e) ∈ entries ix ∧ last (entries ix') = Some (key, e)) ∧
        token_prefix e `prefix_of` query ∧ Z.max 1 min_len ≤ prefix_length e ∧
        ∀ kv, kv ∈ entries ix → token_prefix kv.2 `prefix_of` query →
              prefix_length kv.2 ≤ prefix_length e
    | None =>
        ix' = ix ∧ ∀ kv, kv ∈ entries ix → token_prefix kv.2 `prefix_of` query →
                         prefix_length kv.2 < Z.max 1 min_len
    end.
Proof.
  intros Hwf Hn. unfold lookup. rewrite Hn, lift_ok_bind. cbv zeta.
  destruct (lookup_from_spec ix query (Z.to_nat (1 `max` min_len)) (length query) Hwf)
    as [(e & l & Hl & -> & Hg & Ht & Hlong)|(-> & Hnone)]; [lia|done| |].
  - eexists _, (Some e). split; [done|].
    pose proof (dict_elem_get _ _ _ Hg) as Hin.
    pose proof (Forall_dict_get _ _ _ _ (ix_entries _ Hwf) Hg) as (_ & Hlen & _). simpl in Hlen.
    rewrite Ht in Hlen. unfold zlen in Hlen. rewrite length_take in Hlen.
    split; [|split; [|split]].
    + exists (digest (take l query)). split; [done|].
      by destruct (move_to_end_facts (digest (take l query)) ix Hwf) as (_ & _ & Hlast); apply Hlast.
    + rewrite Ht. exists (drop l query). by rewrite take_drop.
    + lia.
    + intros kv Hkv Hp. destruct (entry_prefix_take _ _ _ Hwf Hkv Hp) as [Heq Hb].
      destruct (decide (prefix_length kv.2 ≤ prefix_length e)) as [|Hgt]; [done|].
      exfalso. apply (Hlong kv (Z.to_nat (prefix_length kv.2)) Hkv); [lia|done].
  - exists ix, None. split; [done|]. split; [done|]. intros kv Hkv Hp.
    destruct (entry_prefix_take _ _ _ Hwf Hkv Hp) as [Heq Hb].
    destruct (decide (prefix_length kv.2 < 1 `max` min_len)) as [|Hge]; [done|].
    exfalso. apply (Hnone kv (Z.to_nat (prefix_length kv.2)) Hkv); [lia|done].
Qed.

(** C6: Register then look up. A whole prompt that fits the budget is found again,
    with the handle it was registered under. One longer than the budget is not: the
    eviction it triggers empties the whole index, the new entry included, although
    [register] returns that entry as if it were indexed. *)
Theorem register_then_lookup ix tokens toks h meta :
  index_wf ix → normalize_tokens tokens = Ok toks →
  ∃ ix' e, register tokens h None meta ix = (ix', Ok e) ∧ handle e = h ∧ token_prefix e = toks ∧
    if match max_size_tokens ix with Some max => max <? zlen toks | None => false end
    then entries ix' = [] ∧ current_size_tokens ix' = 0
    else ∃ ix'', lookup tokens 1 ix' = (ix'', Ok (Some e)).
Proof.
  intros Hwf Hn.
  destruct (normalize_tokens_cases tokens) as [?|(toks' & Hn' & Hne)]; [congruence|].
  rewrite Hn in Hn'. injection Hn' as <-.
  assert (0 < zlen toks) as Hpos by (destruct toks; [done|unfold zlen; simpl; lia]).
  destruct (register_ok ix tokens toks h None meta Hwf Hn) as [Hrun Hwf1]; [simpl; lia|].
  simpl in Hrun, Hwf1. rewrite (take_ge toks) in Hrun, Hwf1 by (unfold zlen; lia).
  set (e := mkEntry toks h (zlen toks) (digest toks) (default [] meta)) in *.
  set (ix1 := mkIndex _ _ _) in *.
  destruct (evict_if_needed_spec ix1 Hwf1) as (d0 & Hd & Hwf' & Hb & Hm & Hmin).
  eexists _, e. split; [exact Hrun|]. split; [done|]. split; [done|].
  set (ix' := evict_if_needed ix1) in *. simpl in Hd.
  change (max_size_tokens ix1) with (max_size_tokens ix) in *.
  destruct (exists_last_or_nil (entries ix')) as [Hnil|(d' & x & Hx)].
  - rewrite (ix_size _ Hwf'), Hnil. rewrite Hnil, app_nil_r in Hd. subst d0.
    case_match eqn:Hover; [done|]. exfalso. destruct Hmin as [Hmin|(x & max & Hl & Hmx & Hlt)].
    + by apply app_eq_nil in Hmin as [_ ?].
    + rewrite last_snoc in Hl. rewrite (ix_size _ Hwf'), Hnil in Hlt. simplify_eq.
      rewrite Hmx in Hover. apply Z.ltb_ge in Hover. simpl in Hlt. lia.
  - rewrite Hx, (assoc_L (++)) in Hd. apply app_inj_tail in Hd as [_ <-].
    assert ((digest toks, e) ∈ entries ix') as Hin by (rewrite Hx; apply elem_of_app; right; constructor).
    assert (0 ≤ size_sum d') as Hd'.
    { apply size_sum_nonneg. pose proof (ix_entries _ Hwf') as HF. rewrite Hx in HF.
      by apply Forall_app in HF as []. }
    case_match eqn:Hover.
    + exfalso. destruct (max_size_tokens ix) as [max|] eqn:Hmx; [|done]. apply Z.ltb_lt in Hover.
      unfold within_budget in Hb. rewrite Hm, (ix_size _ Hwf'), Hx, size_sum_app in Hb.
      unfold size_sum at 2 in Hb. simpl in Hb. lia.
    + unfold lookup. rewrite Hn, lift_ok_bind. cbv zeta.
      destruct (lookup_from_spec ix' toks (Z.to_nat (1 `max` 1)) (length toks) Hwf')
        as [(e' & l & Hl & -> & Hg & Ht & Hlong)|(_ & Hnone)]; [lia|done| |].
      * eexists. do 2 f_equal. destruct (decide (l = length toks)) as [->|].
        -- rewrite take_ge in Hg by lia. pose proof (dict_get_elem _ _ _ (ix_keys _ Hwf') Hin). congruence.
        -- exfalso. eapply (Hlong _ (length toks) Hin); [lia|]. by rewrite take_ge by lia.
      * exfalso. eapply (Hnone _ (length toks) Hin); [unfold zlen in Hpos; lia|]. by rewrite take_ge by lia.
Qed.

End PrefixIndex.

(** ** A small index: identity for the hash, a budget of four tokens *)

Definition demo_index : KVPrefixIndex unit :=
  mkIndex (Some 4) [("[1,2]"%string, mkEntry [1; 2] 40 2 "[1,2]"%string []);
                    ("[1]"%string, mkEntry [1] 41 1 "[1]"%string [])] 3.

Lemma demo_index_wf : index_wf id demo_index.
Proof.
  split; [|by repeat constructor|done]. apply (bool_decide_unpack _). by vm_compute.
Qed.

Lemma lookup_longest_witness :
  ∃ ix' e, lookup id [TokInt 1; TokInt 2; TokInt 3] 1 demo_index = (ix', Ok (Some e)) ∧ prefix_length e = 2.
Proof.
  destruct (lookup_longest id demo_index [TokInt 1; TokInt 2; TokInt 3] [1; 2; 3] 1 demo_index_wf eq_refl)
    as (ix' & r & Hrun & Hr).
  destruct r as [e|].
  - exists ix', e. split; [done|]. destruct Hr as (_ & [rest Hp] & _ & Hmax).
    vm_compute in Hrun. by injection Hrun as _ <-.
  - by vm_compute in Hrun.
Defined.

Lemma register_then_lookup_witness :
  (∃ ix', register id [TokInt 7; TokInt 8] 42 None None demo_index =
            (ix', Ok (mkEntry [7; 8] 42 2 "[7,8]"%string []))) ∧
  ∃ ix' e, register id (map TokInt [1; 2; 3; 4; 5]) 42 None None demo_index = (ix', Ok e) ∧ entries ix' = [].
Proof.
  split.
  - destruct (register_then_lookup id demo_index [TokInt 7; TokInt 8] [7; 8] 42 None demo_index_wf eq_refl)
      as (ix' & e & Hrun & _). exists ix'. rewrite Hrun. vm_compute in Hrun. by injection Hrun as _ <-.
  - destruct (register_then_lookup id demo_index (map TokInt [1; 2; 3; 4; 5]) [1; 2; 3; 4; 5] 42 None
                demo_index_wf eq_refl) as (ix' & e & Hrun & _ & _ & Hnil & _). by exists ix', e.
Defined.
