(* ===== verification/ContinuousBatching.v ===== *)
(** * Continuous batching (mvp_capabilities/continuous_batching.py and
    client/live_continuous_batching.py)

    The decode scheduler as a fuelled loop over explicit queues. Both files contain
    the same loop; they differ in how a batch is served: the simulator reads the next
    target token of each request, the live loop asks an injected [step_batch]. The
    loop is written once, over a [serve] argument, and instantiated twice. *)

From stdpp Require Import numbers base strings gmap sorting list.
From Stdlib Require Import ZArith Lia.
From S2P Require Import Prelude Dict.

(** [DecodeRequest] and [LiveDecodeRequest] (whose first field is called
    [input_token_ids]). *)
Record DecodeRequest := mkRequest {
  request_id : string;
  prompt_token_ids : list Z;
  target_token_ids : list Z;
  arrival_tick : Z;
}.

#[export] Instance DecodeRequest_eq_dec : EqDecision DecodeRequest.
Proof. solve_decision. Defined.

Definition new_request (id : string) (prompt target : list Z) (arrival : Z) : res DecodeRequest :=
  if bool_decide (id = ""%string) then Raise ValueError
  else if bool_decide (prompt = []) then Raise ValueError
  else if arrival <? 0 then Raise ValueError
  else Ok (mkRequest id prompt target arrival).

(** ** Padded batches *)

Record padded_batch := mkPadded {
  input_ids : list (list Z);
  attention_mask : list (list Z);
  sequence_lengths : list Z;
}.

Definition build_padded_batch (sequences : list (list Z)) (pad_token_id : Z) : padded_batch :=
  match sequences with
  | [] => mkPadded [] [] []
  | _ =>
      let max_len := max_list (length <$> sequences) in
      mkPadded ((λ s, s ++ replicate (max_len - length s) pad_token_id) <$> sequences)
               ((λ s, replicate (length s) 1 ++ replicate (max_len - length s) 0) <$> sequences)
               (zlen <$> sequences)
  end.

Definition validate_requests (requests : list DecodeRequest) : res unit :=
  (fix go (seen : gset string) (l : list DecodeRequest) : res unit :=
     match l with
     | [] => Ok tt
     | r :: l' =>
         if bool_decide (request_id r ∈ seen) then Raise ValueError
         else go ({[ request_id r ]} ∪ seen) l'
     end) ∅ requests.

(** [sorted(enumerate(requests), key=lambda item: (item[1].arrival_tick, item[0]))] *)
Definition key_le (a b : nat * DecodeRequest) : Prop :=
  arrival_tick a.2 < arrival_tick b.2 ∨ (arrival_tick a.2 = arrival_tick b.2 ∧ (a.1 ≤ b.1)%nat).

#[export] Instance key_le_dec a b : Decision (key_le a b).
Proof. unfold key_le. apply _. Defined.

Definition ordered (requests : list DecodeRequest) : list DecodeRequest :=
  (merge_sort key_le (imap pair requests)).*2.

(** ** The loop's state *)

Record req_state := mkReqState {
  rs_request : DecodeRequest;
  rs_position : Z;
  rs_generated : list Z;
}.

Record step_row := mkStep {
  st_tick : Z;
  st_request_ids : list string;
  st_positions : list Z;
  st_input_token_ids : list Z;
  st_output_token_ids : list Z;
  st_finished_request_ids : list string;
}.

Record loop_state := mkLoop {
  pending : list DecodeRequest;
  state : dict string req_state;
  active : list string;
  active_set : gset string;
  completed : list string;
  timeline : list step_row;
  tick : Z;
}.

Definition init_loop (requests : list DecodeRequest) : loop_state :=
  let p := ordered requests in
  mkLoop p
    (fold_left (λ d r, dict_set d (request_id r) (mkReqState r 0 [])) requests [])
    [] ∅ [] [] (match p with r :: _ => arrival_tick r | [] => 0 end).

(** [while pending and pending[0].arrival_tick <= tick] *)
Fixpoint admit_arrived (now : Z) (p : list DecodeRequest) (act : list string) (acts : gset string)
    (comp : list string) : list DecodeRequest * list string * gset string * list string :=
  match p with
  | r :: p' =>
      if arrival_tick r <=? now then
        if bool_decide (target_token_ids r = []) then admit_arrived now p' act acts (comp ++ [request_id r])
        else admit_arrived now p' (act ++ [request_id r]) ({[ request_id r ]} ∪ acts) comp
      else (p, act, acts, comp)
  | [] => (p, act, acts, comp)
  end.

(** [for _ in range(max_batch): if not active: break; ...]; a [set.remove] of an
    absent element raises KeyError. *)
Fixpoint take_batch (n : nat) (act : list string) (acts : gset string)
    : res (list string * list string * gset string) :=
  match n, act with
  | S n', request_id :: act' =>
      if bool_decide (request_id ∈ acts) then
        '(batch, act'', acts'') ← take_batch n' act' (acts ∖ {[ request_id ]});
        Ok (request_id :: batch, act'', acts'')
      else Raise KeyError
  | _, _ => Ok ([], act, acts)
  end.

(** [for request_id in requeue: if request_id not in active_set: ...] *)
Definition requeue (rq : list string) (act : list string) (acts : gset string)
    : list string * gset string :=
  fold_left (λ '(a, s) id, if bool_decide (id ∈ s) then (a, s) else (a ++ [id], {[ id ]} ∪ s))
    rq (act, acts).

(** What serving a batch yields: the row's columns, the finished and the unfinished
    requests, and the new per-request states. *)
Record served := mkServed {
  sv_positions : list Z;
  sv_input_token_ids : list Z;
  sv_output_token_ids : list Z;
  sv_finished : list string;
  sv_requeue : list string;
  sv_state : dict string req_state;
}.

Section loop.
Context (serve : Z → list string → dict string req_state → res served).
Context (max_batch : Z).

Fixpoint run_loop (fuel : nat) (s : loop_state) : res loop_state :=
  if bool_decide (pending s = [] ∧ active s = []) then Ok s
  else
    match fuel with
    | O => Raise OutOfFuel
    | S fuel' =>
        let '(pend, act, acts, comp) :=
          admit_arrived (tick s) (pending s) (active s) (active_set s) (completed s) in
        match act with
        | [] =>
            match pend with
            | r :: _ =>
                run_loop fuel' (mkLoop pend (state s) act acts comp (timeline s)
                                  (Z.max (tick s + 1) (arrival_tick r)))
            | [] => Ok (mkLoop pend (state s) act acts comp (timeline s) (tick s))
            end
        | _ =>
            '(batch, act1, acts1) ← take_batch (Z.to_nat max_batch) act acts;
            sv ← serve (tick s) batch (state s);
            let '(act2, acts2) := requeue (sv_requeue sv) act1 acts1 in
            run_loop fuel'
              (mkLoop pend (sv_state sv) act2 acts2 (comp ++ sv_finished sv)
                 (timeline s ++ [mkStep (tick s) batch (sv_positions sv) (sv_input_token_ids sv)
                                   (sv_output_token_ids sv) (sv_finished sv)])
                 (tick s + 1))
        end
    end.
End loop.

(** One round per token and per idle jump: see [run_loop_total]. *)
Definition loop_fuel (requests : list DecodeRequest) : nat :=
  sum_list_with (λ r, length (target_token_ids r)) requests + 2 * length requests + 1.

(** The last element of a non-empty list, [l[-1]]. *)
Definition last_of (l : list Z) : res Z := of_option IndexError (last l).

Definition next_input (rs : req_state) : res Z :=
  if rs_position rs =? 0 then last_of (prompt_token_ids (rs_request rs)) else last_of (rs_generated rs).

Definition push_token (rs : req_state) (tok : Z) : req_state :=
  mkReqState (rs_request rs) (rs_position rs + 1) (rs_generated rs ++ [tok]).

Definition is_last (rs : req_state) : bool :=
  zlen (target_token_ids (rs_request rs)) <=? rs_position rs + 1.

(** ** The simulator: the batch body of [simulate_continuous_decode] *)

Fixpoint serve_targets (batch : list string) (st : dict string req_state) : res served :=
  match batch with
  | [] => Ok (mkServed [] [] [] [] [] st)
  | id :: batch' =>
      rs ← of_option KeyError (dict_get st id);
      inp ← next_input rs;
      tok ← of_option IndexError (py_index (target_token_ids (rs_request rs)) (rs_position rs));
      sv ← serve_targets batch' (dict_set st id (push_token rs tok));
      Ok (mkServed (rs_position rs :: sv_positions sv) (inp :: sv_input_token_ids sv)
            (tok :: sv_output_token_ids sv)
            (if is_last rs then id :: sv_finished sv else sv_finished sv)
            (if is_last rs then sv_requeue sv else id :: sv_requeue sv)
            (sv_state sv))
  end.

Record report := mkReport {
  verification_passed : bool;
  request_count : Z;
  max_batch_size : Z;
  report_timeline : list step_row;
  outputs_by_request : dict string (list Z);
  expected_by_request : dict string (list Z);
  completed_request_ids : list string;
}.

(** The dictionaries of the report; both are comprehensions over [requests]. *)
Definition collect_outputs (requests : list DecodeRequest) (st : dict string req_state)
    : res (dict string (list Z)) :=
  rows ← mapM (λ r, rs ← (of_option KeyError (dict_get st (request_id r)) : res req_state);
                    Ok (request_id r, rs_generated rs)) requests;
  Ok (dict_update [] rows).

Definition expected_outputs (requests : list DecodeRequest) : dict string (list Z) :=
  dict_update [] ((λ r, (request_id r, target_token_ids r)) <$> requests).

Definition make_report (requests : list DecodeRequest) (max_batch : Z) (s : loop_state) : res report :=
  outs ← collect_outputs requests (state s);
  let exp := expected_outputs requests in
  Ok (mkReport (bool_decide (outs = exp) && (zlen (completed s) =? zlen requests))
        (zlen requests) max_batch (timeline s) outs exp (completed s)).

Definition simulate_continuous_decode (requests : list DecodeRequest) (max_batch : Z) : res report :=
  if max_batch <? 1 then Raise ValueError
  else
    _ ← validate_requests requests;
    s ← run_loop (λ _, serve_targets) max_batch (loop_fuel requests) (init_loop requests);
    make_report requests max_batch s.

(** Serial decoding makes one batch per token. *)
Definition serial_batches (requests : list DecodeRequest) : Z :=
  foldr (λ r acc, zlen (target_token_ids r) + acc) 0 requests.

(** ** The adapter plan *)

Record tick_batch := mkTickBatch {
  tb_tick : Z;
  tb_request_ids : list string;
  tb_positions : list Z;
  tb_input_batch : padded_batch;
  tb_expected_output_token_ids : list Z;
  tb_finished_request_ids : list string;
}.

Definition build_live_loop_adapter_plan (requests : list DecodeRequest) (max_batch : Z)
    (opt_in_enabled : bool) (pad_token_id : Z) : res (report * list tick_batch) :=
  scheduler ← simulate_continuous_decode requests max_batch;
  Ok (scheduler,
      if opt_in_enabled then
        (λ step, mkTickBatch (st_tick step) (st_request_ids step) (st_positions step)
           (build_padded_batch ((λ t, [t]) <$> st_input_token_ids step) pad_token_id)
           (st_output_token_ids step) (st_finished_request_ids step)) <$> report_timeline scheduler
      else []).

(** ** The live loop: batches served by an injected [step_batch] *)

Record LiveDecodeRow := mkRow {
  row_request_id : string;
  row_tick : Z;
  row_position : Z;
  row_input_token_id : Z;
}.

(** What [step_batch] may return: a mapping by request id, or a sequence. *)
Inductive step_output :=
| OutMapping (d : dict string Z)
| OutSequence (l : list Z).

Definition normalize_outputs (rows : list LiveDecodeRow) (outputs : step_output)
    : res (dict string Z) :=
  match outputs with
  | OutMapping d =>
      kvs ← mapM (λ r, t ← (of_option KeyError (dict_get d (row_request_id r)) : res Z);
                       Ok (row_request_id r, t)) rows;
      Ok (dict_update [] kvs)
  | OutSequence l =>
      if negb (zlen l =? zlen rows) then Raise ValueError
      else Ok (dict_update [] (zip (row_request_id <$> rows) l))
  end.

Definition live_row (now : Z) (st : dict string req_state) (id : string) : res LiveDecodeRow :=
  rs ← of_option KeyError (dict_get st id);
  inp ← next_input rs;
  Ok (mkRow id now (rs_position rs) inp).

(** The second pass over the rows: append each row's token to its request. *)
Fixpoint live_update (rows : list LiveDecodeRow) (out : dict string Z) (st : dict string req_state)
    : res served :=
  match rows with
  | [] => Ok (mkServed [] [] [] [] [] st)
  | row :: rows' =>
      let id := row_request_id row in
      rs ← of_option KeyError (dict_get st id);
      tok ← of_option KeyError (dict_get out id);
      let rs' := mkReqState (rs_request rs) (row_position row + 1) (rs_generated rs ++ [tok]) in
      sv ← live_update rows' out (dict_set st id rs');
      let fin := zlen (target_token_ids (rs_request rs)) <=? row_position row + 1 in
      Ok (mkServed (row_position row :: sv_positions sv) (row_input_token_id row :: sv_input_token_ids sv)
            (tok :: sv_output_token_ids sv)
            (if fin then id :: sv_finished sv else sv_finished sv)
            (if fin then sv_requeue sv else id :: sv_requeue sv)
            (sv_state sv))
  end.

Definition serve_live (step_batch : list LiveDecodeRow → res step_output) (now : Z)
    (batch : list string) (st : dict string req_state) : res served :=
  rows ← mapM (live_row now st) batch;
  outputs ← step_batch rows;
  out ← normalize_outputs rows outputs;
  live_update rows out st.

(** [LiveContinuousDecodeLoop(max_batch_size=...).run(requests, step_batch=...)] *)
Definition live_run (step_batch : list LiveDecodeRow → res step_output)
    (requests : list DecodeRequest) (max_batch : Z) : res report :=
  if max_batch <? 1 then Raise ValueError
  else
    _ ← validate_requests requests;
    s ← run_loop (serve_live step_batch) max_batch (loop_fuel requests) (init_loop requests);
    make_report requests max_batch s.

(** ** Serving a batch whose tokens are known *)

Fixpoint serve_tokens (batch : list string) (toks : list Z) (st : dict string req_state) : res served :=
  match batch, toks with
  | id :: batch', tok :: toks' =>
      rs ← of_option KeyError (dict_get st id);
      inp ← next_input rs;
      sv ← serve_tokens batch' toks' (dict_set st id (push_token rs tok));
      Ok (mkServed (rs_position rs :: sv_positions sv) (inp :: sv_input_token_ids sv)
            (tok :: sv_output_token_ids sv)
            (if is_last rs then id :: sv_finished sv else sv_finished sv)
            (if is_last rs then sv_requeue sv else id :: sv_requeue sv)
            (sv_state sv))
  | _, _ => Ok (mkServed [] [] [] [] [] st)
  end.

(** A request that still has a token to produce. *)
Record live (rs : req_state) : Prop := mkLive {
  live_pos : rs_position rs = zlen (rs_generated rs);
  live_lt : rs_position rs < zlen (target_token_ids (rs_request rs));
  live_prompt : prompt_token_ids (rs_request rs) ≠ [];
}.

Definition remaining (d : dict string req_state) : Z :=
  foldr (λ kv acc, zlen (target_token_ids (rs_request kv.2)) - rs_position kv.2 + acc) 0 d.

Lemma remaining_app d1 d2 : remaining (d1 ++ d2) = remaining d1 + remaining d2.
Proof. unfold remaining. induction d1 as [|kv d1 IH]; simpl; [done|]. rewrite IH. lia. Qed.

Lemma remaining_push d id rs tok :
  dict_get d id = Some rs → remaining (dict_set d id (push_token rs tok)) = remaining d - 1.
Proof.
  intros (d1 & d2 & -> & Hk)%dict_get_Some_split. rewrite dict_set_split by done.
  rewrite !remaining_app. unfold remaining at 2 4. simpl. lia.
Qed.

Lemma dict_keys_set_mem {V} (d : dict string V) k v w :
  dict_get d k = Some w → dict_keys (dict_set d k v) = dict_keys d.
Proof. intros E. rewrite dict_keys_set. unfold dict_mem. by rewrite E. Qed.

Lemma last_of_ne l : l ≠ [] → ∃ x, last_of l = Ok x.
Proof. destruct (exists_last_or_nil l) as [->|(k & y & ->)]; [done|]. unfold last_of. rewrite last_snoc. by exists y. Qed.

Lemma next_input_live rs : live rs → ∃ inp, next_input rs = Ok inp.
Proof.
  intros [Hp _ Hpr]. unfold next_input. case_match eqn:E; apply last_of_ne; [done|].
  apply Z.eqb_neq in E. intros Hnil. rewrite Hnil in Hp. by rewrite Hp in E.
Qed.

Record served_ok (batch : list string) (toks : list Z) (st : dict string req_state) (sv : served) : Prop := {
  so_keys : dict_keys (sv_state sv) = dict_keys st;
  so_other id : id ∉ batch → dict_get (sv_state sv) id = dict_get st id;
  so_push i id tok rs :
    batch !! i = Some id → toks !! i = Some tok → dict_get st id = Some rs →
    dict_get (sv_state sv) id = Some (push_token rs tok);
  so_perm : sv_requeue sv ++ sv_finished sv ≡ₚ batch;
  so_fin id : id ∈ sv_finished sv → ∃ rs, dict_get st id = Some rs ∧ is_last rs = true;
  so_req id : id ∈ sv_requeue sv → ∃ rs, dict_get st id = Some rs ∧ is_last rs = false;
  so_rem : remaining (sv_state sv) = remaining st - zlen batch;
}.

Lemma serve_tokens_ok batch toks st :
  NoDup batch → length toks = length batch →
  (∀ id, id ∈ batch → ∃ rs, dict_get st id = Some rs ∧ live rs) →
  ∃ sv, serve_tokens batch toks st = Ok sv ∧ served_ok batch toks st sv.
Proof.
  revert toks st. induction batch as [|id batch IH]; intros toks st Hnd Hlen Hlive.
  { destruct toks; [|done]. eexists. split; [done|]. split; simpl; try done; try set_solver.
    unfold zlen. simpl. lia. }
  destruct toks as [|tok toks]; [done|]. injection Hlen as Hlen. apply NoDup_cons in Hnd as [Hni Hnd].
  destruct (Hlive id) as (rs & Hrs & Hl); [by left|]. cbn [serve_tokens]. rewrite Hrs. simpl.
  destruct (next_input_live rs Hl) as [inp ->]. simpl.
  set (st1 := dict_set st id (push_token rs tok)).
  assert (∀ id', id' ∈ batch → dict_get st1 id' = dict_get st id') as Hst1
    by (intros id' Hin; apply dict_get_set_ne; naive_solver).
  destruct (IH toks st1) as (sv & -> & [Hkeys Hoth Hpush Hperm Hfin Hreq Hrem]); [done|done| |].
  { intros id' Hin. rewrite Hst1 by done. apply Hlive. by right. }
  eexists. split; [done|]. split; simpl.
  - rewrite Hkeys. by apply (dict_keys_set_mem _ _ _ rs).
  - intros id' [Hne Hn]%not_elem_of_cons. rewrite Hoth by done. by apply dict_get_set_ne.
  - intros [|i] id' tok' rs' Hb Ht Hg; simplify_eq/=.
    + rewrite Hoth by done. apply dict_get_set_eq.
    + apply (Hpush i); [done..|]. by rewrite Hst1 by (by eapply list_elem_of_lookup_2).
  - destruct (is_last rs); rewrite <- Hperm; solve_Permutation.
  - intros id' Hin. destruct (is_last rs) eqn:E; [apply elem_of_cons in Hin as [->|Hin]; [by exists rs|]|];
      destruct (Hfin _ Hin) as (rs' & Hg & ?); exists rs'; (split; [|done]); rewrite <- Hg; symmetry;
      apply Hst1; rewrite <- Hperm; apply elem_of_app; by right.
  - intros id' Hin. destruct (is_last rs) eqn:E; [|apply elem_of_cons in Hin as [->|Hin]; [by exists rs|]];
      destruct (Hreq _ Hin) as (rs' & Hg & ?); exists rs'; (split; [|done]); rewrite <- Hg; symmetry;
      apply Hst1; rewrite <- Hperm; apply elem_of_app; by left.
  - rewrite Hrem. unfold st1. rewrite (remaining_push _ _ rs) by done. rewrite zlen_cons. lia.
Qed.

(** ** The queues *)

Definition set_of (l : list string) (s : gset string) : Prop := ∀ id, id ∈ s ↔ id ∈ l.

Lemma take_batch_ok n act acts :
  NoDup act → set_of act acts →
  ∃ rest acts', take_batch n act acts = Ok (take n act, rest, acts') ∧ rest = drop n act ∧
    set_of rest acts'.
Proof.
  revert act acts. induction n as [|n IH]; intros act acts Hnd Hset.
  { rewrite take_0, drop_0. destruct act; eauto. }
  destruct act as [|id act]; [by exists [], acts|]. cbn [take_batch].
  apply NoDup_cons in Hnd as [Hni Hnd]. rewrite bool_decide_eq_true_2 by (apply Hset; by left).
  destruct (IH act (acts ∖ {[ id ]})) as (rest & acts' & -> & -> & Hs); [done| |].
  { intros id'. pose proof (Hset id') as Hs'. rewrite elem_of_difference, elem_of_singleton, Hs', elem_of_cons.
    split; [by intros [[?|?] ?]|]. intros ?. split; [by right|]. by intros ->. }
  eexists _, _. by split.
Qed.

Lemma requeue_ok rq act acts :
  NoDup (act ++ rq) → set_of act acts →
  ∃ acts', requeue rq act acts = (act ++ rq, acts') ∧ set_of (act ++ rq) acts'.
Proof.
  unfold requeue. revert act acts. induction rq as [|id rq IH]; intros act acts Hnd Hset; simpl.
  { rewrite app_nil_r. eauto. }
  rewrite bool_decide_eq_false_2.
  - destruct (IH (act ++ [id]) ({[ id ]} ∪ acts)) as (acts' & Hr & Hs).
    + by rewrite <- (assoc_L (++)).
    + intros id'. pose proof (Hset id') as Hs'.
      rewrite elem_of_union, elem_of_singleton, elem_of_app, list_elem_of_singleton, Hs'.
      naive_solver.
    + rewrite <- (assoc_L (++)) in Hr, Hs. by exists acts'.
  - pose proof (Hset id) as Hs'. rewrite Hs'. intros Hin. apply NoDup_app in Hnd as (_ & Hd & _). apply (Hd id Hin). by left.
Qed.

(** ** The loop invariant *)

Section loop_proofs.
Context (requests : list DecodeRequest) (max_batch : Z).
(** What is known of the tokens generated so far for a request. *)
Context (good : DecodeRequest → list Z → Prop).
Context (serve : Z → list string → dict string req_state → res served).

(** Every request of the batch still has a token to produce. *)
Definition servable (st : dict string req_state) (batch : list string) : Prop :=
  ∀ id, id ∈ batch → ∃ rs, dict_get st id = Some rs ∧ live rs ∧ rs_request rs ∈ requests ∧
                           request_id (rs_request rs) = id.

Hypothesis Hmax : 1 ≤ max_batch.
Hypothesis Hids : NoDup (request_id <$> requests).
Hypothesis Hprompt : Forall (λ r, prompt_token_ids r ≠ []) requests.
Hypothesis Hserve : ∀ now batch st,
  NoDup batch → batch ≠ [] → servable st batch →
  ∃ toks, length toks = length batch ∧ serve now batch st = serve_tokens batch toks st ∧
    ∀ i id tok rs, batch !! i = Some id → toks !! i = Some tok → dict_get st id = Some rs →
      good (rs_request rs) (rs_generated rs) → request_id (rs_request rs) = id →
      good (rs_request rs) (rs_generated rs ++ [tok]).

Definition state_ok (r : DecodeRequest) (rs : req_state) : Prop :=
  rs_request rs = r ∧ rs_position rs = zlen (rs_generated rs) ∧
  rs_position rs ≤ zlen (target_token_ids r) ∧ good r (rs_generated rs).

Definition row_ok (step : step_row) : Prop :=
  1 ≤ zlen (st_request_ids step) ≤ max_batch ∧ NoDup (st_request_ids step).

Record loop_inv (s : loop_state) : Prop := mkInv {
  li_part : (request_id <$> pending s) ++ active s ++ completed s ≡ₚ request_id <$> requests;
  li_set : set_of (active s) (active_set s);
  li_state r : r ∈ requests → ∃ rs, dict_get (state s) (request_id r) = Some rs ∧ state_ok r rs;
  li_pending r : r ∈ pending s →
    r ∈ requests ∧ dict_get (state s) (request_id r) = Some (mkReqState r 0 []);
  li_active id : id ∈ active s →
    ∃ rs, dict_get (state s) id = Some rs ∧ rs_position rs < zlen (target_token_ids (rs_request rs));
  li_completed id : id ∈ completed s →
    ∃ rs, dict_get (state s) id = Some rs ∧ rs_position rs = zlen (target_token_ids (rs_request rs));
  li_keys : dict_keys (state s) = request_id <$> requests;
  li_rows : Forall row_ok (timeline s);
}.

Lemma loop_inv_NoDup s : loop_inv s →
  NoDup ((request_id <$> pending s) ++ active s ++ completed s).
Proof. intros Hi. by rewrite (li_part _ Hi). Qed.

Lemma loop_inv_live s id : loop_inv s → id ∈ active s →
  ∃ rs, dict_get (state s) id = Some rs ∧ live rs ∧ rs_request rs ∈ requests ∧
        request_id (rs_request rs) = id ∧ good (rs_request rs) (rs_generated rs).
Proof.
  intros Hi Hin. destruct (li_active _ Hi _ Hin) as (rs & Hg & Hlt).
  assert (id ∈ request_id <$> requests) as (r & -> & Hr)%list_elem_of_fmap.
  { rewrite <- (li_part _ Hi), !elem_of_app. naive_solver. }
  destruct (li_state _ Hi _ Hr) as (rs' & Hg' & Hreq & Hpos & Hle & Hgood).
  assert (rs' = rs) as -> by congruence. rewrite Hg in Hg'. subst r.
  exists rs. split; [done|]. split; [|done]. split; [done|done|].
  by apply (proj1 (list.Forall_forall _ _) Hprompt).
Qed.

Lemma admit_arrived_inv now p act acts comp st tl t :
  loop_inv (mkLoop p st act acts comp tl t) →
  let '(p', act', acts', comp') := admit_arrived now p act acts comp in
  loop_inv (mkLoop p' st act' acts' comp' tl t) ∧
  (p' = [] ∨ ∃ r q, p' = r :: q ∧ now < arrival_tick r) ∧ (length p' ≤ length p)%nat ∧
  (length p' = length p → p' = p).
Proof.
  revert act acts comp. induction p as [|r p IH]; intros act acts comp Hi; simpl.
  { split; [done|]. split; [by left|]. done. }
  destruct (arrival_tick r <=? now) eqn:Hle.
  2:{ split; [done|]. split; [right; exists r, p; split; [done|by apply Z.leb_gt]|]. done. }
  assert (loop_inv (mkLoop p st act acts (comp ++ [request_id r]) tl t) ∧ target_token_ids r = [] ∨
          loop_inv (mkLoop p st (act ++ [request_id r]) ({[ request_id r ]} ∪ acts) comp tl t) ∧
          target_token_ids r ≠ []) as Hstep.
  { destruct Hi as [Hpart Hset Hst Hpend Hact Hcomp Hkeys Hrows]; simpl in *.
    destruct (Hpend r) as [Hr Hrs]; [by left|].
    destruct (decide (target_token_ids r = [])) as [Ht|Ht]; [left|right]; (split; [|done]);
      split; simpl; try done.
    - rewrite <- Hpart. solve_Permutation.
    - intros r' Hr'. apply Hpend. by right.
    - intros id [Hin|Hin%list_elem_of_singleton]%elem_of_app; [by apply Hcomp|subst].
      eexists. split; [done|]. simpl. by rewrite Ht.
    - rewrite <- Hpart. solve_Permutation.
    - intros id. pose proof (Hset id) as Hs'.
      rewrite elem_of_union, elem_of_singleton, elem_of_app, list_elem_of_singleton, Hs'.
      naive_solver.
    - intros r' Hr'. apply Hpend. by right.
    - intros id [Hin|Hin%list_elem_of_singleton]%elem_of_app; [by apply Hact|subst].
      eexists. split; [done|]. simpl. destruct (target_token_ids r); [done|]. unfold zlen. simpl. lia. }
  destruct Hstep as [[Hi' Ht]|[Hi' Ht]].
  - rewrite bool_decide_eq_true_2 by done. apply IH in Hi'. repeat case_match. simplify_eq.
    destruct Hi' as (? & ? & ? & _). split; [done|]. split; [done|]. split; [lia|]. lia.
  - rewrite bool_decide_eq_false_2 by done. apply IH in Hi'. repeat case_match. simplify_eq.
    destruct Hi' as (? & ? & ? & _). split; [done|]. split; [done|]. split; [lia|]. lia.
Qed.

Lemma served_inv p st act acts comp tl t batch rest acts1 toks sv row t' acts2 :
  loop_inv (mkLoop p st act acts comp tl t) →
  act = batch ++ rest → served_ok batch toks st sv → length toks = length batch →
  (∀ i id tok rs, batch !! i = Some id → toks !! i = Some tok → dict_get st id = Some rs →
      good (rs_request rs) (rs_generated rs) → request_id (rs_request rs) = id →
      good (rs_request rs) (rs_generated rs ++ [tok])) →
  set_of rest acts1 → set_of (rest ++ sv_requeue sv) acts2 → row_ok row →
  loop_inv (mkLoop p (sv_state sv) (rest ++ sv_requeue sv) acts2 (comp ++ sv_finished sv) (tl ++ [row]) t').
Proof.
  intros Hi Hact [Hkeys Hoth Hpush Hperm Hfin Hreq _] Hlen Hgood Hs1 Hs2 Hrow.
  pose proof (loop_inv_NoDup _ Hi) as Hnd. simpl in Hnd. rewrite Hact in Hnd.
  apply NoDup_app in Hnd as (_ & Hpd & Hnd). apply NoDup_app in Hnd as (Hnd & Hcd & _).
  apply NoDup_app in Hnd as (_ & Hbr & _).
  assert (∀ id, id ∈ batch → ∃ rs tok, dict_get st id = Some rs ∧ live rs ∧
            dict_get (sv_state sv) id = Some (push_token rs tok) ∧ request_id (rs_request rs) = id ∧
            good (rs_request rs) (rs_generated rs ++ [tok])) as Hb.
  { intros id Hin. assert (id ∈ act) as Hina by (rewrite Hact; apply elem_of_app; by left).
    destruct (loop_inv_live _ _ Hi Hina) as (rs & Hg & Hl & _ & Hid & Hgd). simpl in Hg.
    apply list_elem_of_lookup in Hin as [i Hlk].
    destruct (lookup_lt_is_Some_2 toks i) as [tok Htok].
    { rewrite Hlen. by eapply lookup_lt_Some. }
    exists rs, tok. split; [done|]. split; [done|]. split; [by eapply Hpush|]. split; [done|]. by eapply Hgood. }
  destruct Hi as [Hpart Hset Hst Hpend Hac Hcomp Hk Hrows]; simpl in *. split; simpl.
  - rewrite <- Hpart, Hact, <- Hperm. solve_Permutation.
  - done.
  - intros r Hr. destruct (Hst r Hr) as (rs & Hg & Hok).
    destruct (decide (request_id r ∈ batch)) as [Hin|Hin]; [|rewrite Hoth by done; by exists rs].
    destruct (Hb _ Hin) as (rs' & tok & Hg' & [Hp Hlt _] & -> & Hid & Hgd).
    assert (rs' = rs) as -> by congruence. destruct Hok as (Hrq & Hpos & Hle & _). rewrite Hrq in *.
    eexists. split; [done|]. split; [done|]. simpl. rewrite zlen_app. unfold zlen at 2. simpl.
    split; [lia|]. split; [lia|done].
  - intros r Hr. destruct (Hpend r Hr) as [Hrin Hg]. split; [done|]. rewrite Hoth; [done|].
    intros Hin. apply (Hpd (request_id r)).
    + apply list_elem_of_fmap. by exists r.
    + apply elem_of_app. left. apply elem_of_app. by left.
  - intros id [Hin|Hin]%elem_of_app.
    + rewrite Hoth; [apply Hac; rewrite Hact; apply elem_of_app; by right|]. intros Hin'. by apply (Hbr id).
    + destruct (Hb id) as (rs & tok & Hg & [Hp Hlt _] & -> & _).
      { rewrite <- Hperm. apply elem_of_app. by left. }
      destruct (Hreq _ Hin) as (rs' & Hg' & Hnl). assert (rs' = rs) as -> by congruence.
      eexists. split; [done|]. unfold is_last in Hnl. apply Z.leb_gt in Hnl. simpl. lia.
  - intros id [Hin|Hin]%elem_of_app.
    + rewrite Hoth; [by apply Hcomp|]. intros Hin'. apply (Hcd id); [|done]. apply elem_of_app. by left.
    + destruct (Hb id) as (rs & tok & Hg & [Hp Hlt _] & -> & _).
      { rewrite <- Hperm. apply elem_of_app. by right. }
      destruct (Hfin _ Hin) as (rs' & Hg' & Hl). assert (rs' = rs) as -> by congruence.
      eexists. split; [done|]. unfold is_last in Hl. apply Z.leb_le in Hl. simpl. lia.
  - by rewrite Hkeys.
  - apply Forall_app. by split; [|constructor].
Qed.

Lemma serve_step p st act acts comp tl t :
  loop_inv (mkLoop p st act acts comp tl t) → act ≠ [] →
  ∃ batch act1 acts1 sv act2 acts2,
    NoDup batch ∧ batch ≠ [] ∧ servable st batch ∧
    take_batch (Z.to_nat max_batch) act acts = Ok (batch, act1, acts1) ∧
    serve t batch st = Ok sv ∧ requeue (sv_requeue sv) act1 acts1 = (act2, acts2) ∧
    remaining (sv_state sv) < remaining st ∧
    loop_inv (mkLoop p (sv_state sv) act2 acts2 (comp ++ sv_finished sv)
      (tl ++ [mkStep t batch (sv_positions sv) (sv_input_token_ids sv) (sv_output_token_ids sv)
                (sv_finished sv)]) (t + 1)).
Proof.
  intros Hi Hne. set (n := Z.to_nat max_batch).
  pose proof (loop_inv_NoDup _ Hi) as Hnd. simpl in Hnd.
  apply NoDup_app in Hnd as (_ & _ & Hnd). apply NoDup_app in Hnd as (Hnd & _ & _).
  destruct (take_batch_ok n act acts Hnd (li_set _ Hi)) as (rest & acts1 & Htake & -> & Hs1).
  assert (act = take n act ++ drop n act) as Hact by (by rewrite take_drop).
  assert (NoDup (take n act)) as Hndb by (rewrite Hact in Hnd; by apply NoDup_app in Hnd as []).
  assert (1 ≤ zlen (take n act) ≤ max_batch) as Hlenb.
  { unfold zlen. rewrite length_take. unfold n. destruct act; [done|]. simpl length. lia. }
  assert (servable st (take n act)) as Hsable.
  { intros id Hin. destruct (loop_inv_live _ id Hi) as (rs & ? & ? & ? & ? & _); [|by exists rs].
    simpl. rewrite Hact. apply elem_of_app. by left. }
  assert (take n act ≠ []) as Hbne.
  { intros Hnil. rewrite Hnil in Hlenb. unfold zlen in Hlenb. simpl in Hlenb. lia. }
  destruct (Hserve t (take n act) st) as (toks & Hlen & Hsv & Hgood); [done..|].
  destruct (serve_tokens_ok (take n act) toks st) as (sv & Hrun & Hok); [done|done| |].
  { intros id Hin. destruct (Hsable id Hin) as (rs & ? & ? & _). by exists rs. }
  destruct (requeue_ok (sv_requeue sv) (drop n act) acts1) as (acts2 & Hrq & Hs2); [|done|].
  { rewrite Hact in Hnd. rewrite <- (so_perm _ _ _ _ Hok) in Hnd.
    assert (NoDup ((drop n act ++ sv_requeue sv) ++ sv_finished sv)) as Hnd'.
    { assert ((drop n act ++ sv_requeue sv) ++ sv_finished sv ≡ₚ
              (sv_requeue sv ++ sv_finished sv) ++ drop n act) as -> by solve_Permutation. done. }
    by apply NoDup_app in Hnd' as []. }
  exists (take n act), (drop n act), acts1, sv, (drop n act ++ sv_requeue sv), acts2.
  do 4 (split; [done|]). split; [congruence|]. split; [done|].
  split; [rewrite (so_rem _ _ _ _ Hok); lia|].
  by eapply served_inv.
Qed.

Definition idle_flag (s : loop_state) : Z :=
  match pending s with r :: _ => if tick s <? arrival_tick r then 1 else 0 | [] => 0 end.

Definition measure (s : loop_state) : Z :=
  remaining (state s) + 2 * zlen (pending s) + idle_flag s.

Lemma loop_inv_tick p st act acts comp tl t t' :
  loop_inv (mkLoop p st act acts comp tl t) → loop_inv (mkLoop p st act acts comp tl t').
Proof. intros []. by split. Qed.

Lemma remaining_bounds s : loop_inv s → 0 ≤ remaining (state s) ∧ (active s ≠ [] → 1 ≤ remaining (state s)).
Proof.
  intros Hi.
  assert (Forall (λ kv : string * req_state, rs_position kv.2 ≤ zlen (target_token_ids (rs_request kv.2)))
            (state s)) as HF.
  { apply list.Forall_forall. intros [k rs] Hin. simpl.
    assert (dict_wf (state s)) as Hwf by (unfold dict_wf; by rewrite (li_keys _ Hi)).
    pose proof (dict_get_elem _ _ _ Hwf Hin) as Hg.
    assert (k ∈ request_id <$> requests) as (r & -> & Hr)%list_elem_of_fmap.
    { rewrite <- (li_keys _ Hi). apply list_elem_of_fmap. by exists (k, rs). }
    destruct (li_state _ Hi r Hr) as (rs' & Hg' & Hrq & _ & Hle & _).
    assert (rs' = rs) as -> by congruence. by rewrite Hrq. }
  assert (∀ d, Forall (λ kv : string * req_state, rs_position kv.2 ≤ zlen (target_token_ids (rs_request kv.2))) d →
            0 ≤ remaining d) as Hnn.
  { unfold remaining. induction 1; simpl; lia. }
  split; [by apply Hnn|]. destruct (active s) as [|id act] eqn:Ha; [done|]. intros _.
  destruct (li_active _ Hi id) as (rs & Hg & Hlt); [rewrite Ha; by left|].
  apply dict_get_Some_split in Hg as (d1 & d2 & Hd & _). rewrite Hd in HF |- *.
  apply Forall_app in HF as [H1 H2]. apply Forall_cons in H2 as [_ H2].
  rewrite remaining_app. change (remaining ((id, rs) :: d2))
    with (zlen (target_token_ids (rs_request rs)) - rs_position rs + remaining d2).
  apply Hnn in H1, H2. lia.
Qed.

(** With enough fuel the loop ends, and it ends with empty queues. *)
Lemma run_loop_total fuel s :
  loop_inv s → measure s ≤ Z.of_nat fuel →
  ∃ s', run_loop serve max_batch fuel s = Ok s' ∧ loop_inv s' ∧ pending s' = [] ∧ active s' = [].
Proof.
  revert s. induction fuel as [|fuel IH]; intros s Hi Hm; cbn [run_loop];
    destruct (remaining_bounds _ Hi) as [Hr0 Hr1];
    assert (0 ≤ idle_flag s) as Hf0 by (unfold idle_flag; repeat case_match; lia);
    pose proof (zlen_nonneg (pending s)) as Hp0; case_bool_decide as Hend; try by (exists s; naive_solver).
  { unfold measure in Hm. exfalso. apply Hend. split.
    - destruct (pending s); [done|]. rewrite zlen_cons in Hm. pose proof (zlen_nonneg l). lia.
    - destruct (active s); [done|]. specialize (Hr1 ltac:(done)). lia. }
  destruct s as [p st act acts comp tl t]. simpl.
  pose proof (admit_arrived_inv t p act acts comp st tl t Hi) as Hadm.
  destruct (admit_arrived t p act acts comp) as [[[p' act'] acts'] comp'].
  destruct Hadm as (Hi' & Hhd & Hlen & Hsame).
  assert (2 * zlen p' + (match p' with [] => 0 | _ => 1 end) ≤ 2 * zlen p + idle_flag (mkLoop p st act acts comp tl t)) as Hmeas.
  { destruct (decide (length p' = length p)) as [He|Hne]; unfold zlen.
    - rewrite (Hsame He) in *. unfold idle_flag. simpl. destruct Hhd as [->|(r & q & -> & Hlt)]; [lia|].
      rewrite (proj2 (Z.ltb_lt _ _)) by done. lia.
    - simpl in Hf0. destruct p'; lia. }
  unfold measure in Hm. cbn [state pending] in Hm. destruct act' as [|a act'].
  - destruct p' as [|r p']; [by eexists|]. apply IH; [by eapply loop_inv_tick|].
    unfold measure, idle_flag. simpl. rewrite (proj2 (Z.ltb_ge _ _)) by lia. lia.
  - destruct (serve_step _ _ _ _ _ _ _ Hi' ltac:(done))
      as (batch & act1 & acts1 & sv & act2 & acts2 & _ & _ & _ & -> & Hsv & Hrq & Hrem & Hi2).
    simpl. rewrite Hsv. simpl. rewrite Hrq. apply IH; [done|].
    assert (idle_flag (mkLoop p' (sv_state sv) act2 acts2 (comp' ++ sv_finished sv)
      (tl ++ [mkStep t batch (sv_positions sv) (sv_input_token_ids sv) (sv_output_token_ids sv)
                (sv_finished sv)]) (t + 1)) ≤ match p' with [] => 0 | _ => 1 end) as Hfl.
    { unfold idle_flag. simpl. destruct p'; [done|]. case_match; lia. }
    unfold measure. cbn [state pending]. simpl in Hr0. lia.
Qed.

(** Two ways of serving that agree on servable batches run the same loop. *)
Lemma run_loop_ext serve' fuel s :
  loop_inv s →
  (∀ now batch st, NoDup batch → batch ≠ [] → servable st batch → serve' now batch st = serve now batch st) →
  run_loop serve' max_batch fuel s = run_loop serve max_batch fuel s.
Proof.
  intros Hi Hext. revert s Hi. induction fuel as [|fuel IH]; intros s Hi; cbn [run_loop]; [done|].
  case_bool_decide; [done|]. destruct s as [p st act acts comp tl t]. simpl.
  pose proof (admit_arrived_inv t p act acts comp st tl t Hi) as Hadm.
  destruct (admit_arrived t p act acts comp) as [[[p' act'] acts'] comp']. destruct Hadm as (Hi' & _).
  destruct act' as [|a act'].
  - destruct p'; [done|]. apply IH. by eapply loop_inv_tick.
  - destruct (serve_step _ _ _ _ _ _ _ Hi' ltac:(done))
      as (batch & act1 & acts1 & sv & act2 & acts2 & Hnd & Hne & Hsable & -> & Hsv & Hrq & Hrem & Hi2).
    simpl. rewrite Hext, Hsv by done. simpl. rewrite Hrq. by apply IH.
Qed.
End loop_proofs.

(** ** Starting and finishing the loop *)

Lemma validate_requests_ok requests :
  NoDup (request_id <$> requests) → validate_requests requests = Ok tt.
Proof.
  intros Hnd. unfold validate_requests.
  assert (∀ l (seen : gset string), NoDup (request_id <$> l) → (∀ r, r ∈ l → request_id r ∉ seen) →
    (fix go (seen : gset string) (l : list DecodeRequest) : res unit :=
       match l with
       | [] => Ok tt
       | r :: l' => if bool_decide (request_id r ∈ seen) then Raise ValueError
                    else go ({[ request_id r ]} ∪ seen) l'
       end) seen l = Ok tt) as Hgo; [|apply Hgo; [done|set_solver]].
  induction l as [|r l IH]; intros seen Hl Hs; [done|]. simpl in Hl. apply NoDup_cons in Hl as [Hr Hl].
  rewrite bool_decide_eq_false_2 by (apply Hs; by left). apply IH; [done|].
  intros r' Hr'. rewrite elem_of_union, elem_of_singleton. intros [He|Hin].
  - apply Hr. rewrite <- He. apply list_elem_of_fmap. by exists r'.
  - by apply (Hs r'); [right|].
Qed.

Lemma imap_pair_snd {A} (l : list A) : (imap pair l).*2 = l.
Proof.
  apply list_eq. intros i. rewrite list_lookup_fmap, list_lookup_imap. by destruct (l !! i).
Qed.

Lemma ordered_perm requests : ordered requests ≡ₚ requests.
Proof. unfold ordered. rewrite merge_sort_Permutation. by rewrite imap_pair_snd. Qed.

Lemma init_state_eq requests :
  NoDup (request_id <$> requests) →
  state (init_loop requests) = (λ r, (request_id r, mkReqState r 0 [])) <$> requests.
Proof.
  intros Hnd. simpl.
  transitivity (dict_update [] ((λ r, (request_id r, mkReqState r 0 [])) <$> requests)).
  - unfold dict_update. generalize (@nil (string * req_state)).
    induction requests as [|r l IH]; intros d; simpl; [done|].
    apply NoDup_cons in Hnd as [_ Hnd]. by apply IH.
  - apply dict_update_nil. unfold dict_wf, dict_keys. by rewrite <- list_fmap_compose.
Qed.

Lemma init_loop_inv requests mb good :
  NoDup (request_id <$> requests) → (∀ r, good r []) → loop_inv requests mb good (init_loop requests).
Proof.
  intros Hnd Hgood.
  assert (∀ r, r ∈ requests →
            dict_get (state (init_loop requests)) (request_id r) = Some (mkReqState r 0 [])) as Hget.
  { intros r Hr. rewrite init_state_eq by done. apply dict_get_elem.
    - unfold dict_wf, dict_keys. by rewrite <- list_fmap_compose.
    - apply list_elem_of_fmap. by exists r. }
  split; simpl; try done.
  - rewrite ordered_perm. by rewrite app_nil_r.
  - intros id. by rewrite elem_of_empty, elem_of_nil.
  - intros r Hr. eexists. split; [by apply Hget|]. split; [done|]. split; [done|].
    split; [apply zlen_nonneg|apply Hgood].
  - intros r Hr. rewrite ordered_perm in Hr. split; [done|]. by apply Hget.
  - by intros id ?%not_elem_of_nil.
  - by intros id ?%not_elem_of_nil.
  - change (dict_keys (state (init_loop requests)) = request_id <$> requests).
    rewrite init_state_eq by done. unfold dict_keys. by rewrite <- list_fmap_compose.
Qed.

Lemma init_measure requests :
  NoDup (request_id <$> requests) → measure (init_loop requests) ≤ Z.of_nat (loop_fuel requests).
Proof.
  intros Hnd. unfold measure, loop_fuel. rewrite init_state_eq by done.
  assert (zlen (pending (init_loop requests)) = zlen requests) as ->.
  { unfold zlen. simpl. by rewrite ordered_perm. }
  assert (remaining ((λ r, (request_id r, mkReqState r 0 [])) <$> requests)
          = Z.of_nat (sum_list_with (λ r, length (target_token_ids r)) requests)) as ->.
  { clear. induction requests as [|r l IH]; [done|].
    change (zlen (target_token_ids r) - 0 + remaining ((λ r, (request_id r, mkReqState r 0 [])) <$> l)
            = Z.of_nat (sum_list_with (λ r, length (target_token_ids r)) (r :: l))).
    rewrite IH. simpl. unfold zlen. lia. }
  assert (idle_flag (init_loop requests) ≤ 1) by (unfold idle_flag; repeat case_match; lia).
  unfold zlen. lia.
Qed.

(** The report of a loop that ended. *)
Lemma final_report requests mb good s :
  NoDup (request_id <$> requests) → loop_inv requests mb good s → pending s = [] → active s = [] →
  ∃ rep, make_report requests mb s = Ok rep ∧ completed_request_ids rep = completed s ∧
    completed s ≡ₚ request_id <$> requests ∧ report_timeline rep = timeline s ∧
    ∃ outs : list (list Z), outputs_by_request rep = zip (request_id <$> requests) outs ∧
      Forall2 (λ r gen, length gen = length (target_token_ids r) ∧ good r gen) requests outs ∧
      verification_passed rep = bool_decide (outs = target_token_ids <$> requests).
Proof.
  intros Hnd Hi Hp Ha. pose proof (li_part _ _ _ _ Hi) as Hpart. rewrite Hp, Ha in Hpart. simpl in Hpart.
  set (gen_of r := match dict_get (state s) (request_id r) with Some rs => rs_generated rs | None => [] end).
  assert (∀ r, r ∈ requests → ∃ rs, dict_get (state s) (request_id r) = Some rs ∧
            gen_of r = rs_generated rs ∧ length (rs_generated rs) = length (target_token_ids r) ∧
            good r (rs_generated rs)) as Hgen.
  { intros r Hr. destruct (li_state _ _ _ _ Hi r Hr) as (rs & Hg & Hrq & Hpos & _ & Hgd).
    exists rs. split; [done|]. unfold gen_of. rewrite Hg. split; [done|]. split; [|done].
    destruct (li_completed _ _ _ _ Hi (request_id r)) as (rs' & Hg' & Hc).
    { rewrite Hpart. apply list_elem_of_fmap. by exists r. }
    assert (rs' = rs) as -> by congruence. rewrite Hrq in Hc. unfold zlen in *. lia. }
  clearbody gen_of. unfold make_report, collect_outputs.
  rewrite (mapM_Ok _ (λ r, (request_id r, gen_of r))).
  2:{ intros r Hr. destruct (Hgen r Hr) as (rs & -> & -> & _). done. }
  assert (∀ f : DecodeRequest → list Z, dict_update [] ((λ r, (request_id r, f r)) <$> requests)
            = zip (request_id <$> requests) (f <$> requests)) as Hupd.
  { intros f. rewrite dict_update_nil.
    - clear. induction requests as [|r l IH]; [done|]. simpl. f_equal. exact IH.
    - unfold dict_wf, dict_keys. by rewrite <- list_fmap_compose. }
  simpl. unfold expected_outputs. rewrite !Hupd. eexists. split; [done|]. simpl.
  split; [done|]. split; [done|]. split; [done|]. exists (gen_of <$> requests). split; [done|]. split.
  - apply list.Forall2_fmap_r.
    apply Forall_Forall2_diag, list.Forall_forall. intros r Hr.
    destruct (Hgen r Hr) as (rs & _ & Heq & ? & ?). unfold compose. by rewrite Heq.
  - assert (zlen (completed s) = zlen requests) as ->.
    { unfold zlen. rewrite Hpart. by rewrite length_fmap. }
    rewrite Z.eqb_refl, andb_true_r. apply bool_decide_ext. split; [|by intros ->].
    assert (∀ (ks : list string) (l1 l2 : list (list Z)), length l1 = length ks → length l2 = length ks →
              zip ks l1 = zip ks l2 → l1 = l2) as Hzip.
    { induction ks as [|k ks IH]; intros [|x l1] [|y l2]; try done. intros [= ?] [= ?] [= -> ?].
      f_equal. by apply IH. }
    apply Hzip; by rewrite !length_fmap.
Qed.

(** ** Serving through [step_batch] *)

(** What a well-behaved [step_batch] returns for [rows], and the token it gives to
    the [i]-th row. *)
Definition answers (rows : list LiveDecodeRow) (o : step_output) : Prop :=
  match o with
  | OutMapping d => ∀ row, row ∈ rows → is_Some (dict_get d (row_request_id row))
  | OutSequence l => length l = length rows
  end.

Definition answer (rows : list LiveDecodeRow) (o : step_output) (i : nat) : option Z :=
  match o with
  | OutMapping d => row ← rows !! i; dict_get d (row_request_id row)
  | OutSequence l => l !! i
  end.

Lemma normalize_answers rows o :
  NoDup (row_request_id <$> rows) → answers rows o →
  ∃ out, normalize_outputs rows o = Ok out ∧
    ∀ i row, rows !! i = Some row →
      ∃ tok, answer rows o i = Some tok ∧ dict_get out (row_request_id row) = Some tok.
Proof.
  intros Hnd Hans. destruct o as [d|l]; simpl in *.
  - set (f row := default 0 (dict_get d (row_request_id row))).
    assert (∀ row, row ∈ rows → dict_get d (row_request_id row) = Some (f row)) as Hf.
    { intros row Hr. unfold f. by destruct (Hans row Hr) as [t ->]. }
    rewrite (mapM_Ok _ (λ row, (row_request_id row, f row))) by (intros row Hr; by rewrite Hf).
    eexists. split; [done|]. intros i row Hlk. rewrite Hlk. simpl.
    assert (row ∈ rows) as Hr by (by eapply list_elem_of_lookup_2).
    exists (f row). split; [by apply Hf|].
    assert (dict_wf ((λ row, (row_request_id row, f row)) <$> rows)) as Hwf
      by (unfold dict_wf, dict_keys; by rewrite <- list_fmap_compose).
    rewrite dict_update_nil by done. apply dict_get_elem; [done|]. apply list_elem_of_fmap. by exists row.
  - unfold zlen. rewrite Hans, Z.eqb_refl. simpl.
    assert ((zip (row_request_id <$> rows) l).*1 = row_request_id <$> rows) as Hk
      by (apply fst_zip; rewrite length_fmap; lia).
    assert (dict_wf (zip (row_request_id <$> rows) l)) as Hwf by (unfold dict_wf, dict_keys; by rewrite Hk).
    eexists. split; [done|]. intros i row Hlk.
    destruct (lookup_lt_is_Some_2 l i) as [tok Htok]; [rewrite Hans; by eapply lookup_lt_Some|].
    exists tok. split; [done|]. rewrite dict_update_nil by done. apply dict_get_elem; [done|].
    apply (list_elem_of_lookup_2 _ i). rewrite lookup_zip_with, list_lookup_fmap, Hlk. simpl. by rewrite Htok.
Qed.

Lemma live_update_tokens rows out st now toks :
  NoDup (row_request_id <$> rows) →
  Forall2 (λ row tok, dict_get out (row_request_id row) = Some tok ∧
                      live_row now st (row_request_id row) = Ok row) rows toks →
  live_update rows out st = serve_tokens (row_request_id <$> rows) toks st.
Proof.
  intros Hnd HF. revert st HF. revert toks. induction rows as [|row rows IH]; intros toks st HF.
  { by inversion HF; subst. }
  inversion_clear HF as [|? tok ? toks' [Hout Hrow] HF']. simpl in Hnd. apply NoDup_cons in Hnd as [Hni Hnd].
  cbn [live_update fmap list_fmap serve_tokens]. unfold live_row in Hrow.
  destruct (dict_get st (row_request_id row)) as [rs|] eqn:Hg; [|done]. simpl in Hrow |- *.
  destruct (next_input rs) as [inp|]; [|done]. simpl in Hrow |- *.
  rewrite Hout. simpl. injection Hrow as <-. simpl.
  rewrite (IH Hnd toks'); [done|]. clear IH. rename HF' into HF.
  assert (∀ row', row' ∈ rows → row_request_id row ≠ row_request_id row') as Hne.
  { intros row' Hin He. apply Hni. rewrite He. apply list_elem_of_fmap. by exists row'. }
  eapply Forall2_impl_in; [exact HF|]. intros row' tok' Hin _ [? Hr]. split; [done|]. simpl.
  unfold live_row in *. by rewrite dict_get_set_ne by (by apply Hne).
Qed.

(** [step_batch] answers every batch of distinct requests. *)
Definition step_ok (step_batch : list LiveDecodeRow → res step_output) : Prop :=
  ∀ rows, NoDup (row_request_id <$> rows) → ∃ o, step_batch rows = Ok o ∧ answers rows o.

Section live.
Context (step_batch : list LiveDecodeRow → res step_output).
Hypothesis Hstep : step_ok step_batch.

(** Every token of [gen] answers a row that carried the request's id, the token's
    index and the token before it (the last prompt token for the first). *)
Definition fed (r : DecodeRequest) (gen : list Z) : Prop :=
  ∀ i tok, gen !! i = Some tok →
    ∃ rows o j row, step_batch rows = Ok o ∧ rows !! j = Some row ∧ answer rows o j = Some tok ∧
      row_request_id row = request_id r ∧ row_position row = Z.of_nat i ∧
      Ok (row_input_token_id row) =
        (if decide (i = O) then last_of (prompt_token_ids r) else last_of (take i gen)).

Lemma fed_nil r : fed r [].
Proof. intros i tok. by rewrite lookup_nil. Qed.

Lemma serve_live_ok requests now batch st :
  NoDup batch → servable requests st batch →
  ∃ rows o toks,
    Forall2 (λ id row, live_row now st id = Ok row) batch rows ∧ row_request_id <$> rows = batch ∧
    step_batch rows = Ok o ∧ answers rows o ∧ length toks = length batch ∧
    (∀ i tok, toks !! i = Some tok → answer rows o i = Some tok) ∧
    serve_live step_batch now batch st = serve_tokens batch toks st.
Proof.
  intros Hnd Hsable.
  destruct (mapM_total (live_row now st) batch) as (rows & Hrows & HF).
  { intros id Hin. destruct (Hsable id Hin) as (rs & Hg & Hl & _). unfold live_row. rewrite Hg. simpl.
    destruct (next_input_live rs Hl) as [inp ->]. by eexists. }
  assert (row_request_id <$> rows = batch) as Hids.
  { clear - HF. induction HF as [|id row batch rows Hr HF IH]; [done|]. simpl. f_equal; [|exact IH].
    unfold live_row in Hr. destruct (dict_get st id) as [rs|]; [|done]. simpl in Hr.
    destruct (next_input rs); [|done]. by injection Hr as <-. }
  destruct (Hstep rows) as (o & Ho & Hans); [by rewrite Hids|].
  destruct (normalize_answers rows o) as (out & Hout & Hlk); [by rewrite Hids|done|].
  set (toks := (λ row, default 0 (dict_get out (row_request_id row))) <$> rows).
  exists rows, o, toks. split; [done|]. split; [done|]. split; [done|]. split; [done|].
  split; [unfold toks; rewrite <- Hids; by rewrite !length_fmap|]. split.
  - intros i tok. unfold toks. rewrite list_lookup_fmap. intros (row & Hi & ->)%fmap_Some.
    destruct (Hlk i row Hi) as (tok & Ha & Hg). by rewrite Hg.
  - unfold serve_live. rewrite Hrows. simpl. rewrite Ho. simpl. rewrite Hout. simpl.
    rewrite <- Hids. apply (live_update_tokens _ _ _ now); [by rewrite Hids|].
    unfold toks. apply list.Forall2_fmap_r, Forall_Forall2_diag, list.Forall_forall.
    intros row Hin. unfold compose. apply list_elem_of_lookup in Hin as [i Hi].
    destruct (Hlk i row Hi) as (tok & Ha & Hg). rewrite Hg. split; [done|].
    pose proof (Forall2_lookup_r _ _ _ _ _ HF Hi) as (id & Hid & Hr).
    assert (row_request_id row = id) as ->; [|done].
    rewrite <- Hids, list_lookup_fmap, Hi in Hid. simpl in Hid. congruence.
Qed.

Lemma serve_live_good requests now batch st :
  NoDup batch → batch ≠ [] → servable requests st batch →
  ∃ toks, length toks = length batch ∧ serve_live step_batch now batch st = serve_tokens batch toks st ∧
    ∀ i id tok rs, batch !! i = Some id → toks !! i = Some tok → dict_get st id = Some rs →
      fed (rs_request rs) (rs_generated rs) → request_id (rs_request rs) = id →
      fed (rs_request rs) (rs_generated rs ++ [tok]).
Proof.
  intros Hnd _ Hsable.
  destruct (serve_live_ok requests now batch st Hnd Hsable)
    as (rows & o & toks & HF & Hids & Ho & Hans & Hlen & Htok & Hrun).
  exists toks. split; [done|]. split; [done|]. intros i id tok rs Hid Ht Hg Hfed Hreq j tok' Hj.
  destruct (Hsable id) as (rs' & Hg' & [Hpos Hlt Hpr] & _); [by eapply list_elem_of_lookup_2|].
  assert (rs' = rs) as -> by congruence.
  destruct (decide (j < length (rs_generated rs))%nat) as [Hjl|Hjl].
  - rewrite lookup_app_l in Hj by done.
    destruct (Hfed j tok' Hj) as (rows' & o' & j' & row' & H1 & H2 & H3 & H4 & H5 & H6).
    exists rows', o', j', row'. rewrite take_app_le by lia. done.
  - assert (j = length (rs_generated rs)) as ->.
    { apply lookup_lt_Some in Hj. rewrite length_app in Hj. simpl in Hj. lia. }
    rewrite list_lookup_middle in Hj by done. injection Hj as <-.
    destruct (Forall2_lookup_l _ _ _ _ _ HF Hid) as (row & Hrow & Hlive).
    exists rows, o, i, row. split; [done|]. split; [done|]. split; [by apply Htok|].
    unfold live_row in Hlive. rewrite Hg in Hlive. simpl in Hlive.
    destruct (next_input rs) as [inp|] eqn:Hin; [|done]. simpl in Hlive. injection Hlive as <-. simpl.
    split; [done|]. split; [rewrite Hpos; done|]. rewrite <- Hin. unfold next_input. rewrite Hpos.
    rewrite take_app_length. unfold zlen. case_decide as Hz; [by rewrite Hz|].
    rewrite (proj2 (Z.eqb_neq _ _)) by lia. done.
Qed.
End live.

(** ** Properties *)

Definition well_formed (requests : list DecodeRequest) : Prop :=
  NoDup (request_id <$> requests) ∧ Forall (λ r, prompt_token_ids r ≠ []) requests.

Lemma live_run_report step_batch requests mb :
  step_ok step_batch → well_formed requests → 1 ≤ mb →
  ∃ rep outs, live_run step_batch requests mb = Ok rep ∧
    completed_request_ids rep ≡ₚ request_id <$> requests ∧
    Forall (row_ok mb) (report_timeline rep) ∧
    outputs_by_request rep = zip (request_id <$> requests) outs ∧
    Forall2 (λ r gen, length gen = length (target_token_ids r) ∧ fed step_batch r gen) requests outs ∧
    verification_passed rep = bool_decide (outs = target_token_ids <$> requests).
Proof.
  intros Hstep [Hnd Hpr] Hmb. unfold live_run. rewrite (proj2 (Z.ltb_ge _ _)) by done.
  rewrite validate_requests_ok by done. simpl.
  pose proof (init_loop_inv requests mb (fed step_batch) Hnd (fed_nil _)) as Hinit.
  destruct (run_loop_total requests mb (fed step_batch) (serve_live step_batch) Hmb Hnd Hpr
              (serve_live_good step_batch Hstep requests) (loop_fuel requests) (init_loop requests) Hinit)
    as (s & -> & Hi & Hp & Ha); [by apply init_measure|].
  destruct (final_report _ _ _ _ Hnd Hi Hp Ha) as (rep & Hrep & Hc & Hperm & Htl & outs & Ho & HF & Hv).
  simpl. exists rep, outs. split; [done|]. rewrite Hc, Htl. split; [done|].
  split; [apply Hi|]. done.
Qed.

(** The step that answers every row with its request's next target token. *)
Definition target_of (requests : list DecodeRequest) (row : LiveDecodeRow) : Z :=
  default 0 (r ← list_find (λ r, request_id r = row_request_id row) requests;
             py_index (target_token_ids r.2) (row_position row)).

Definition oracle_step (requests : list DecodeRequest) (rows : list LiveDecodeRow) : res step_output :=
  Ok (OutSequence (target_of requests <$> rows)).

Lemma oracle_step_ok requests : step_ok (oracle_step requests).
Proof. intros rows _. eexists. split; [done|]. simpl. by rewrite length_fmap. Qed.

Lemma target_of_eq requests r row :
  NoDup (request_id <$> requests) → r ∈ requests → row_request_id row = request_id r →
  0 ≤ row_position row < zlen (target_token_ids r) →
  target_token_ids r !! Z.to_nat (row_position row) = Some (target_of requests row).
Proof.
  intros Hnd Hr Hid Hpos. unfold target_of.
  destruct (list_find _ requests) as [[i r']|] eqn:E.
  - apply list_find_Some in E as (Hi & Hid' & _). simpl.
    apply list_elem_of_lookup in Hr as [i' Hi'].
    assert (i = i') as ->.
    { apply (NoDup_lookup _ _ _ (request_id r) Hnd); rewrite list_lookup_fmap;
        [rewrite Hi; simpl; f_equal; congruence|by rewrite Hi']. }
    assert (r' = r) as -> by congruence. rewrite py_index_nonneg by lia.
    destruct (lookup_lt_is_Some_2 (target_token_ids r) (Z.to_nat (row_position row))) as [t Ht].
    { unfold zlen in Hpos. lia. }
    by rewrite Ht.
  - apply list_find_None in E. exfalso.
    by apply (proj1 (list.Forall_forall _ _) E _ Hr).
Qed.

Lemma serve_targets_tokens batch st toks :
  NoDup batch →
  Forall2 (λ id tok, ∃ rs, dict_get st id = Some rs ∧
             py_index (target_token_ids (rs_request rs)) (rs_position rs) = Some tok) batch toks →
  serve_targets batch st = serve_tokens batch toks st.
Proof.
  intros Hnd HF. revert st HF. revert toks. induction batch as [|id batch IH]; intros toks st HF.
  { by inversion HF; subst. }
  inversion_clear HF as [|? tok ? toks' (rs & Hg & Ht) HF']. apply NoDup_cons in Hnd as [Hni Hnd].
  cbn [serve_targets serve_tokens]. rewrite Hg. simpl. destruct (next_input rs); [|done]. simpl.
  rewrite Ht. simpl. rewrite (IH Hnd toks'); [done|].
  eapply Forall2_impl_in; [exact HF'|]. intros id' tok' Hin _ (rs' & ? & ?). exists rs'.
  split; [|done]. rewrite dict_get_set_ne; [done|]. by intros ->.
Qed.

Lemma simulate_eq_live requests mb :
  well_formed requests → 1 ≤ mb →
  live_run (oracle_step requests) requests mb = simulate_continuous_decode requests mb.
Proof.
  intros [Hnd Hpr] Hmb. unfold live_run, simulate_continuous_decode.
  rewrite (proj2 (Z.ltb_ge _ _)) by done. rewrite validate_requests_ok by done. simpl.
  rewrite <- (run_loop_ext requests mb (fed (oracle_step requests)) (serve_live (oracle_step requests))
              Hmb Hnd Hpr (serve_live_good _ (oracle_step_ok requests) requests) (λ _, serve_targets));
    [done|by apply init_loop_inv; [|apply fed_nil]|].
  intros now batch st Hndb Hne Hsable.
  destruct (serve_live_ok _ (oracle_step_ok requests) requests now batch st Hndb Hsable)
    as (rows & o & toks & HF & Hids & Ho & Hans & Hlen & Htok & ->).
  apply serve_targets_tokens; [done|].
  apply Forall2_same_length_lookup_2; [done|]. intros i id tok Hid Ht.
  destruct (Hsable id) as (rs & Hg & [Hpos Hlt _] & Hin & Hrid); [by eapply list_elem_of_lookup_2|].
  exists rs. split; [done|]. specialize (Htok i tok Ht).
  injection Ho as <-. simpl in Htok. rewrite list_lookup_fmap in Htok.
  apply fmap_Some in Htok as (row & Hrow & ->).
  destruct (Forall2_lookup_l _ _ _ _ _ HF Hid) as (row' & Hrow' & Hlive).
  assert (row' = row) as -> by congruence. unfold live_row in Hlive. rewrite Hg in Hlive. simpl in Hlive.
  destruct (next_input rs) as [inp|]; [|done]. simpl in Hlive. injection Hlive as <-.
  pose proof (zlen_nonneg (rs_generated rs)).
  rewrite py_index_nonneg by lia. apply (target_of_eq requests (rs_request rs) (mkRow id now (rs_position rs) inp)); [done..|].
  simpl. lia.
Qed.

(** Tokens fed by the oracle are the target's. *)
Lemma fed_oracle requests r gen :
  NoDup (request_id <$> requests) → r ∈ requests → length gen = length (target_token_ids r) →
  fed (oracle_step requests) r gen → gen = target_token_ids r.
Proof.
  intros Hnd Hr Hlen Hfed. apply (list_eq_same_length _ _ (length gen)); [done|done|].
  intros i x y Hi Hx Hy. destruct (Hfed i x Hx) as (rows & o & j & row & Ho & Hrow & Hans & Hid & Hpos & _).
  injection Ho as <-. simpl in Hans. rewrite list_lookup_fmap, Hrow in Hans. injection Hans as <-.
  pose proof (target_of_eq requests r row Hnd Hr Hid) as Ht. rewrite Hpos, Nat2Z.id in Ht.
  rewrite Ht in Hy by (unfold zlen; lia). congruence.
Qed.

(** C7: The live loop terminates and serves everybody. For distinct requests and a
    [step_batch] that answers each batch, [run] returns; every request completes
    exactly once and has exactly as many tokens as its target; each batch is
    non-empty, has no repeated request and at most [max_batch_size] of them; and each
    token was the answer to a row carrying its request, its index and the token
    before it. *)
Theorem live_run_serves step_batch requests mb :
  step_ok step_batch → well_formed requests → 1 ≤ mb →
  ∃ rep outs, live_run step_batch requests mb = Ok rep ∧
    completed_request_ids rep ≡ₚ request_id <$> requests ∧
    Forall (row_ok mb) (report_timeline rep) ∧
    outputs_by_request rep = zip (request_id <$> requests) outs ∧
    Forall2 (λ r gen, length gen = length (target_token_ids r) ∧ fed step_batch r gen) requests outs ∧
    verification_passed rep = bool_decide (outs = target_token_ids <$> requests).
Proof. apply live_run_report. Qed.

(** The simulator is the live loop driven by the targets. For distinct requests
    the simulation, batch by batch, is exactly what the live loop does when its
    [step_batch] returns each request's next target token: same timeline, same
    completions, same outputs. Its verdict is always passed: every request gets its
    target tokens in order. *)
Lemma simulation_refines_live requests mb :
  well_formed requests → 1 ≤ mb →
  live_run (oracle_step requests) requests mb = simulate_continuous_decode requests mb ∧
  ∃ rep, simulate_continuous_decode requests mb = Ok rep ∧ verification_passed rep = true ∧
    outputs_by_request rep = zip (request_id <$> requests) (target_token_ids <$> requests) ∧
    completed_request_ids rep ≡ₚ request_id <$> requests ∧ Forall (row_ok mb) (report_timeline rep).
Proof.
  intros Hwf Hmb. rewrite <- simulate_eq_live by done. split; [done|]. destruct Hwf as [Hnd Hpr].
  destruct (live_run_report (oracle_step requests) requests mb (oracle_step_ok _) (conj Hnd Hpr) Hmb)
    as (rep & outs & Hrun & Hc & Hrows & Ho & HF & Hv).
  assert (outs = target_token_ids <$> requests) as Houts.
  { apply list_eq_Forall2, Forall2_fmap_r, Forall2_flip. eapply Forall2_impl_in; [exact HF|].
    intros r gen Hr _ [Hlen Hfed]. by apply (fed_oracle requests). }
  exists rep. split; [done|]. rewrite Hv, Ho, Houts. split; [by apply bool_decide_eq_true_2|]. done.
Qed.

(** Padding loses nothing. Every padded row has the length of the longest
    sequence, the mask has the same shape and holds one for each real token, and
    cutting a row at its recorded length gives back the sequence. *)
Lemma padded_batch_rectangular sequences pad :
  let b := build_padded_batch sequences pad in
  let width := max_list (length <$> sequences) in
  Forall (λ row, length row = width) (input_ids b) ∧
  Forall (λ row, length row = width) (attention_mask b) ∧
  zip_with (λ row n, take (Z.to_nat n) row) (input_ids b) (sequence_lengths b) = sequences ∧
  (λ mask, foldr Z.add 0 mask) <$> attention_mask b = sequence_lengths b.
Proof.
  cbv zeta. assert (∀ s, s ∈ sequences → (length s ≤ max_list (length <$> sequences))%nat) as Hle.
  { intros s Hs. apply max_list_elem_of_le, list_elem_of_fmap. by exists s. }
  unfold build_padded_batch. destruct sequences as [|s0 ss]; [done|].
  remember (s0 :: ss) as seqs eqn:E. clear E s0 ss. cbn [input_ids attention_mask sequence_lengths].
  generalize dependent (max_list (length <$> seqs)). intros width Hle.
  split; [|split; [|split]].
  - apply Forall_fmap, list.Forall_forall. intros s Hs. unfold compose.
    rewrite length_app, length_replicate. pose proof (Hle s Hs). lia.
  - apply Forall_fmap, list.Forall_forall. intros s Hs. unfold compose.
    rewrite length_app, !length_replicate. pose proof (Hle s Hs). lia.
  - clear Hle. induction seqs as [|s seqs IH]; [done|]. simpl. f_equal; [|exact IH]. unfold zlen.
    by rewrite Nat2Z.id, take_app_length.
  - clear Hle. rewrite <- list_fmap_compose. apply list_fmap_ext. intros _ s _. unfold compose.
    rewrite foldr_app. assert (∀ n, foldr Z.add 0 (replicate n 0) = 0) as -> by (induction n; simpl; lia).
    unfold zlen. induction (length s); simpl; lia.
Qed.

(** ** Three staggered requests, one without tokens *)

Definition demo_requests : list DecodeRequest :=
  [mkRequest "a" [101] [10; 11; 12] 0; mkRequest "b" [201; 202] [20; 21] 1; mkRequest "c" [5] [] 7].

Lemma demo_requests_wf : well_formed demo_requests.
Proof. split; [by apply (bool_decide_unpack _)|by repeat constructor]. Qed.

Lemma live_run_serves_witness :
  ∃ rep, live_run (λ rows, Ok (OutSequence (row_position <$> rows))) demo_requests 2 = Ok rep ∧
    outputs_by_request rep = [("a", [0; 1; 2]); ("b", [0; 1]); ("c", [])]%string.
Proof.
  destruct (live_run_serves (λ rows, Ok (OutSequence (row_position <$> rows))) demo_requests 2)
    as (rep & outs & Hrun & _); [|apply demo_requests_wf|lia|].
  { intros rows _. eexists. split; [done|]. simpl. by rewrite length_fmap. }
  exists rep. split; [done|]. vm_compute in Hrun. by injection Hrun as <-.
Defined.

Lemma simulation_refines_live_witness :
  live_run (oracle_step demo_requests) demo_requests 2 = simulate_continuous_decode demo_requests 2 ∧
  is_ok (simulate_continuous_decode demo_requests 2) = true.
Proof.
  destruct (simulation_refines_live demo_requests 2 demo_requests_wf) as [He (rep & Hr & _)]; [lia|].
  split; [exact He|]. by rewrite Hr.
Defined.
