(* ===== verification/Microbatch.v ===== *)
(** * Micro-batches (utils/microbatch_config.py, microbatch_ops.py,
    microbatch_schema.py and server/microbatch.py)

    The switches read from the environment, the ranges a batch is cut into, the
    splitting and merging of tensors, and the request-level fields that later
    micro-batches inherit from the first one. Tensors of any rank are the interface
    [Tensor]; [ftensor] is a concrete instance. *)

From stdpp Require Import numbers base strings list.
From Stdlib Require Import ZArith Lia.
From S2P Require Import Prelude Dict PyStr PyVal.

(** ** Configuration *)

Definition ENV_ENABLE_MICROBATCH : string := "BLOOMBEE_ENABLE_MICROBATCH_PIPELINE".
Definition ENV_MICRO_BATCH_SIZE : string := "BLOOMBEE_MICRO_BATCH_SIZE".
Definition ENV_ENABLE_GPU_MULTIPLEXING : string := "BLOOMBEE_MICRO_ENABLE_GPU_MULTIPLEXING".
Definition DEFAULT_MICRO_BATCH_SIZE : Z := 0.

Definition is_microbatch_flag_enabled (env : environ) : bool :=
  bool_decide (env_get env ENV_ENABLE_MICROBATCH "0" = "1"%string).

Definition get_micro_batch_size (env : environ) : Z :=
  if negb (is_microbatch_flag_enabled env) then 0
  else
    let env_value := env_get env ENV_MICRO_BATCH_SIZE "" in
    let dflt := if 0 <? DEFAULT_MICRO_BATCH_SIZE then DEFAULT_MICRO_BATCH_SIZE else 0 in
    if bool_decide (env_value = ""%string) then dflt
    else
      match py_int env_value with
      | Some size => if size <? 1 then 0 else size
      | None => dflt
      end.

Definition is_microbatch_enabled (env : environ) : bool :=
  is_microbatch_flag_enabled env && (0 <? get_micro_batch_size env).

Definition is_microbatch_gpu_multiplexing_enabled (env : environ) : bool :=
  bool_decide (env_get env ENV_ENABLE_GPU_MULTIPLEXING "0" = "1"%string).

Record mb_config := mkMbConfig {
  cfg_enabled : bool;
  cfg_micro_batch_size : Z;
  cfg_gpu_multiplexing : bool;
  cfg_mode : string;
}.

Definition get_micro_batch_config (env : environ) : mb_config :=
  let enabled := is_microbatch_enabled env in
  let gpu_multiplexing := is_microbatch_gpu_multiplexing_enabled env in
  mkMbConfig enabled (get_micro_batch_size env) gpu_multiplexing
    (if negb enabled then "legacy" else if gpu_multiplexing then "multiplexing" else "overlap_only")%string.

Definition get_current_path (env : environ) : string := cfg_mode (get_micro_batch_config env).

(** ** Ranges *)

Definition should_split_batch (env : environ) (batch_size : Z) : bool :=
  if negb (is_microbatch_enabled env) then false
  else
    let micro_batch_size := get_micro_batch_size env in
    if micro_batch_size <=? 0 then false else micro_batch_size <? batch_size.

(** [while start < batch_size] *)
Fixpoint ranges_from (fuel : nat) (mbs batch_size start : Z) : list (Z * Z) :=
  if start <? batch_size then
    match fuel with
    | O => []
    | S fuel' =>
        let end_ := Z.min (start + mbs) batch_size in
        (start, end_) :: ranges_from fuel' mbs batch_size end_
    end
  else [].

Definition compute_micro_batch_ranges (env : environ) (batch_size : Z) : list (Z * Z) :=
  let micro_batch_size := get_micro_batch_size env in
  if batch_size <=? 0 then []
  else if micro_batch_size <=? 0 then [(0, batch_size)]
  else ranges_from (Z.to_nat batch_size) micro_batch_size batch_size 0.

(** [resolve_expected_num_microbatches]; [None] for an argument [int] refuses. *)
Definition resolve_expected_num_microbatches (env : environ) (full_batch_size : Z)
    (total_micro_batches : option (option Z)) (configured : option (option Z)) : Z :=
  let fallback :=
    let micro_batch_size :=
      match configured with
      | None => get_micro_batch_size env
      | Some c => default 0 c
      end in
    if 0 <? micro_batch_size
    then Z.max 1 ((full_batch_size + micro_batch_size - 1) / micro_batch_size)
    else 1 in
  match total_micro_batches with
  | Some (Some n) => Z.max 1 n
  | _ => fallback
  end.

(** ** Tensors of any rank *)

(** [idx] is a position of a tensor of that shape. *)
Definition in_shape (shape idx : list Z) : Prop := Forall2 (λ n i, 0 ≤ i < n) shape idx.

Class Tensor (T V : Type) := {
  t_shape : T → list Z;
  t_get : T → list Z → V;
  (** [t[start:end]], [t[:, start:end]] or [t.narrow(dim, start, end - start)] *)
  t_slice : T → nat → Z → Z → res T;
  (** [torch.cat(ts, dim=dim)] *)
  t_cat : list T → nat → res T;
  (** [torch.full(shape, v, dtype=..., device=...)]; [torch.zeros] when [v] is zero *)
  t_full : list Z → V → res T;
  (** [dst[tuple(slices)] = src], [None] being [slice(None)] *)
  t_setitem : T → list (option (Z * Z)) → T → res T;
}.

(** The sizes of [ts] along [dim], added up. *)
Definition dim_total {T V} `{Tensor T V} (ts : list T) (dim : nat) : Z :=
  foldr (λ t acc, default 0 (t_shape t !! dim) + acc) 0 ts.

Definition agree_but {A} (dim : nat) (l1 l2 : list A) : Prop :=
  length l1 = length l2 ∧ ∀ i, i ≠ dim → l1 !! i = l2 !! i.

Class TensorLaws (T V : Type) `{Tensor T V} := {
  t_slice_spec t dim a b n :
    t_shape t !! dim = Some n → 0 ≤ a ≤ b → b ≤ n →
    ∃ t', t_slice t dim a b = Ok t' ∧ t_shape t' = <[dim := b - a]> (t_shape t) ∧
      ∀ idx, in_shape (t_shape t') idx → t_get t' idx = t_get t (alter (Z.add a) dim idx);
  t_cat_spec t ts dim :
    (dim < length (t_shape t))%nat → Forall (λ t', agree_but dim (t_shape t) (t_shape t')) ts →
    Forall (λ t', 0 ≤ default 0 (t_shape t' !! dim)) (t :: ts) →
    ∃ r, t_cat (t :: ts) dim = Ok r ∧ t_shape r = <[dim := dim_total (t :: ts) dim]> (t_shape t) ∧
      ∀ i t' idx, (t :: ts) !! i = Some t' → in_shape (t_shape t') idx →
        t_get r (alter (Z.add (dim_total (take i (t :: ts)) dim)) dim idx) = t_get t' idx;
  t_full_spec shape v :
    Forall (λ n, 0 ≤ n) shape →
    ∃ t, t_full shape v = Ok t ∧ t_shape t = shape ∧ ∀ idx, in_shape shape idx → t_get t idx = v;
  (** The slices start at zero and have the extents of [src]; [dst] is at least as large. *)
  t_setitem_spec dst slices src :
    Forall2 (λ n m, 0 ≤ m ≤ n) (t_shape dst) (t_shape src) →
    Forall2 (λ s nm, match s with None => nm.1 = nm.2 | Some ab => ab = (0, nm.2) end)
      slices (zip (t_shape dst) (t_shape src)) →
    ∃ t, t_setitem dst slices src = Ok t ∧ t_shape t = t_shape dst ∧
      ∀ idx, in_shape (t_shape dst) idx →
        (in_shape (t_shape src) idx → t_get t idx = t_get src idx) ∧
        (¬ in_shape (t_shape src) idx → t_get t idx = t_get dst idx);
}.

Section split_merge.
Context {T V : Type} `{!Tensor T V}.

(** ** Splitting and merging *)

Definition split_tensor_to_microbatches (env : environ) (tensor : option T) (dim : nat)
    : res (list (option T)) :=
  match tensor with
  | None => Ok [None]
  | Some t =>
      batch_size ← of_option IndexError (t_shape t !! dim);
      if negb (should_split_batch env batch_size) then Ok [Some t]
      else mapM (λ '(a, b), c ← t_slice t dim a b; Ok (Some c)) (compute_micro_batch_ranges env batch_size)
  end.

(** [all(out.shape[axis] == first.shape[axis] for axis in range(first.ndim) if axis != dim)] *)
Definition same_but (dim : nat) (s1 s2 : list Z) : bool :=
  bool_decide (length s1 = length s2) &&
  forallb (λ axis, bool_decide (axis = dim) || bool_decide (s1 !! axis = s2 !! axis)) (seq 0 (length s1)).

(** [max_shape[axis] = max(max_shape[axis], int(size))] for each axis but [dim] *)
Definition max_shape_step (dim : nat) (max_shape shape : list Z) : list Z :=
  imap (λ axis m, if bool_decide (axis = dim) then m else Z.max m (default m (shape !! axis))) max_shape.

Fixpoint max_shape_of (dim : nat) (max_shape : list Z) (outs : list T) : res (list Z) :=
  match outs with
  | [] => Ok max_shape
  | o :: outs' =>
      if bool_decide (length (t_shape o) = length max_shape)
      then max_shape_of dim (max_shape_step dim max_shape (t_shape o)) outs'
      else Raise ValueError
  end.

Definition pad_output (dim : nat) (pad : V) (max_shape : list Z) (out : T) : res T :=
  let padded_shape :=
    imap (λ axis n, if bool_decide (axis = dim) then n else default n (max_shape !! axis)) (t_shape out) in
  if bool_decide (t_shape out = padded_shape) then Ok out
  else
    padded ← t_full padded_shape pad;
    t_setitem padded
      (imap (λ axis n, if bool_decide (axis = dim) then None else Some (0, n)) (t_shape out)) out.

(** The part the two merges share; they differ in the padding and in when they
    return early. *)
Definition merge_valid (valid : list T) (dim : nat) (pad : V) : res (option T) :=
  match valid with
  | [] => Ok None
  | first :: rest =>
      if forallb (λ o, same_but dim (t_shape first) (t_shape o)) rest then Some <$> t_cat valid dim
      else
        max_shape ← max_shape_of dim (t_shape first) rest;
        padded ← mapM (pad_output dim pad max_shape) valid;
        Some <$> t_cat padded dim
  end.

Definition merge_microbatch_outputs (zero : V) (outputs : list (option T)) (dim : nat) : res (option T) :=
  match outputs with
  | [o] => Ok o
  | _ => merge_valid (omap id outputs) dim zero
  end.

Definition merge_microbatch_keep_indices (pad_value : V) (outputs : list (option T)) (dim : nat)
    : res (option T) :=
  match omap id outputs with
  | [] => Ok None
  | [o] => Ok (Some o)
  | valid => merge_valid valid dim pad_value
  end.
End split_merge.

(** ** Micro-batch inputs (server/microbatch.py) *)

(** A request field: absent, a tensor, or any other object. *)
Inductive field (T O : Type) :=
| FNone
| FTensor (t : T)
| FOther (o : O).
Arguments FNone {T O}.
Arguments FTensor {T O} t.
Arguments FOther {T O} o.

Section inputs.
Context {T V O : Type} `{!Tensor T V}.
Notation Field := (field T O).

Definition numel (t : T) : Z := foldr Z.mul 1 (t_shape t).
Definition is_dummy (t : T) : bool := numel t =? 0.

Definition slice_batch_aligned (value : Field) (mb_start mb_end full_batch_size : Z) : res Field :=
  match value with
  | FTensor t =>
      if is_dummy t then Ok value
      else
        match t_shape t with
        | [] => Ok value
        | n :: _ => if n =? full_batch_size then FTensor <$> t_slice t 0 mb_start mb_end else Ok value
        end
  | _ => Ok value
  end.

(** [slice_keep_indices] has the same cases. *)
Definition slice_keep_indices (keep_indices : Field) (mb_start mb_end full_batch_size : Z) : res Field :=
  match keep_indices with
  | FNone => Ok FNone
  | FOther o => Ok (FOther o)
  | FTensor t =>
      if is_dummy t || bool_decide (t_shape t = []) then Ok keep_indices
      else
        n ← of_option IndexError (py_index (t_shape t) 0);
        if n =? full_batch_size then FTensor <$> t_slice t 0 mb_start mb_end else Ok keep_indices
  end.

Record microbatch_inputs := mkInputs {
  mi_hidden_states : T;
  mi_hypo_ids : option T;
  mi_tree_attention_mask : Field;
  mi_kv_cache_position_ids : Field;
  mi_draft_tokens : Field;
  mi_prefill_length : Field;
  mi_keep_indices : Field;
  mi_active_mask : Field;
  mi_batch_offset : Z;
  mi_full_batch_size : Z;
  mi_micro_batch_size : Z;
}.

Definition slice_microbatch_inputs (hidden_states : T) (hypo_ids : option T)
    (tree_attention_mask kv_cache_position_ids draft_tokens prefill_length keep_indices active_mask : Field)
    (mb_start mb_end full_batch_size : Z) : res microbatch_inputs :=
  let slice f := slice_batch_aligned f mb_start mb_end full_batch_size in
  hypo ← match hypo_ids with
         | None => Ok None
         | Some h => if is_dummy h then Ok (Some h) else Some <$> t_slice h 0 mb_start mb_end
         end;
  hidden ← t_slice hidden_states 0 mb_start mb_end;
  tam ← slice tree_attention_mask;
  kvp ← slice kv_cache_position_ids;
  dt ← slice draft_tokens;
  pl ← slice prefill_length;
  ki ← slice_keep_indices keep_indices mb_start mb_end full_batch_size;
  am ← slice active_mask;
  Ok (mkInputs hidden hypo tam kvp dt pl ki am mb_start full_batch_size (mb_end - mb_start)).
End inputs.

(** ** Inference metadata *)

Record metadata_kwargs (A : Type) := mkKwargs {
  kw_tree_attention_mask : option A;
  kw_kv_cache_position_ids : option A;
  kw_draft_tokens : option A;
  kw_prefill_length : option A;
  kw_keep_indices : option A;
  kw_need_pruning : option A;
  kw_is_spec_dec : option A;
  kw_active_mask : option A;
  kw_kv_prefix_reuse_enabled : bool;
  kw_kv_prefix_reuse_common_prefix_token_count : option Z;
  kw_kv_prefix_reuse_request_count : option Z;
  kw_batch_offset : Z;
  kw_full_batch_size : Z;
  kw_micro_batch_size : Z;
}.

Record inference_metadata (A : Type) := mkMetadata {
  md_uid : string;
  md_prefix_length : Z;
  md_cache_handles : list Z;
  md_active_adapter : option string;
  md_kwargs : metadata_kwargs A;
}.
Arguments mkMetadata {A} _ _ _ _ _.
Arguments md_uid {A} _.
Arguments md_cache_handles {A} _.

(** [int(count or 0)] *)
Definition build_inference_metadata {A} (uid : string) (cache_handles : list Z) (prefix_length : Z)
    (active_adapter : option string) (kw : metadata_kwargs A) : inference_metadata A :=
  mkMetadata uid prefix_length cache_handles active_adapter
    (mkKwargs A (kw_tree_attention_mask A kw) (kw_kv_cache_position_ids A kw) (kw_draft_tokens A kw)
       (kw_prefill_length A kw) (kw_keep_indices A kw) (kw_need_pruning A kw) (kw_is_spec_dec A kw)
       (kw_active_mask A kw) (kw_kv_prefix_reuse_enabled A kw)
       (Some (default 0 (kw_kv_prefix_reuse_common_prefix_token_count A kw)))
       (Some (default 0 (kw_kv_prefix_reuse_request_count A kw)))
       (kw_batch_offset A kw) (kw_full_batch_size A kw) (kw_micro_batch_size A kw)).

(** [zip] stops at the shorter list. *)
Definition build_inference_metadata_batch {A} (requested_uids : list string)
    (cache_handles : list (list Z)) (prefix_length : Z) (active_adapter : option string)
    (kw : metadata_kwargs A) : list (inference_metadata A) :=
  zip_with (λ uid handles, build_inference_metadata uid handles prefix_length active_adapter kw)
    requested_uids cache_handles.

Definition build_cross_stage_push_metadata (step_metadata : option metadata)
    (mb_idx mb_offset mb_size full_batch_size : Z) (sender_blocks : string) (total_micro_batches
     compute_start_timestamp_us compute_end_timestamp_us push_timestamp_us : Z)
    (extra_fields : option metadata) : metadata :=
  let push := dict_update (default [] step_metadata)
    [("micro_batch_idx", VInt mb_idx); ("micro_batch_offset", VInt mb_offset);
     ("micro_batch_size", VInt mb_size); ("full_batch_size", VInt full_batch_size);
     ("sender_blocks", VStr sender_blocks); ("total_micro_batches", VInt total_micro_batches);
     ("stage_compute_start_timestamp_us", VInt compute_start_timestamp_us);
     ("stage_compute_end_timestamp_us", VInt compute_end_timestamp_us);
     ("stage_push_timestamp_us", VInt push_timestamp_us)]%string in
  dict_update push (default [] extra_fields).

(** ** Request-level fields (utils/microbatch_schema.py) *)

(** A cached field: what the first micro-batch sent, or a default. *)
Inductive ctx_val (A : Type) :=
| CNone                       (* None *)
| CNones (n : Z)              (* [None] * n *)
| CInt (n : Z)
| CBool (b : bool)
| CArange (n : Z)             (* torch.arange(n, dtype=torch.int64) *)
| CVal (a : A).
Arguments CNone {A}.
Arguments CNones {A} n.
Arguments CInt {A} n.
Arguments CBool {A} b.
Arguments CArange {A} n.
Arguments CVal {A} a.

Section schema.
Context {A : Type}.
Notation Val := (ctx_val A).

Definition REQUIRED_FIELDS : list string := ["hidden_states"; "keep_indices"]%string.
Definition REQUEST_LEVEL_FIELDS : list string :=
  ["prompts"; "hypo_ids"; "tree_attention_mask"; "kv_cache_position_ids"; "draft_tokens";
   "prefill_length"; "is_spec_dec"; "need_pruning"]%string.

Definition get_default_prompts (batch_size num_backends : Z) : Val := CNones num_backends.
Definition get_default_hypo_ids (batch_size : Z) : Val := CArange batch_size.
Definition get_default_tree_attention_mask : Val := CNone.
Definition get_default_kv_cache_position_ids : Val := CNone.
Definition get_default_draft_tokens : Val := CNone.
Definition get_default_prefill_length : Val := CInt 0.
Definition get_default_is_spec_dec : Val := CBool false.
Definition get_default_need_pruning : Val := CBool false.
Definition get_default_keep_indices (seq_length : Z) : Val := CArange seq_length.

Record RequestContext := mkContext {
  rc_request_id : string;
  rc_step_id : option string;
  cached_fields : dict string Val;
  num_backends : Z;
  is_initialized : bool;
}.

Definition new_context (request_id : string) (step_id : option string) : RequestContext :=
  mkContext request_id step_id [] 0 false.

(** The request-level fields in the order of the micro-batch payload. *)
Record request_fields := mkFields {
  f_prompts : Val;
  f_hypo_ids : Val;
  f_tree_attention_mask : Val;
  f_kv_cache_position_ids : Val;
  f_draft_tokens : Val;
  f_prefill_length : Val;
  f_is_spec_dec : Val;
  f_need_pruning : Val;
}.

Definition cache_from_mb0 (f : request_fields) (n : Z) (c : RequestContext) : RequestContext :=
  mkContext (rc_request_id c) (rc_step_id c)
    [("prompts", f_prompts f); ("hypo_ids", f_hypo_ids f);
     ("tree_attention_mask", f_tree_attention_mask f);
     ("kv_cache_position_ids", f_kv_cache_position_ids f); ("draft_tokens", f_draft_tokens f);
     ("prefill_length", f_prefill_length f); ("is_spec_dec", f_is_spec_dec f);
     ("need_pruning", f_need_pruning f)]%string n true.

Definition get_field (c : RequestContext) (name : string) (dflt : Val) : Val :=
  default dflt (dict_get (cached_fields c) name).
Definition has_field (c : RequestContext) (name : string) : bool := dict_mem (cached_fields c) name.

(** [fill_microbatch_defaults] for a hidden-state tensor of shape
    [[batch_size, seq_length, ...]]; the hidden states are passed through. *)
Definition fill_microbatch_defaults (batch_size seq_length : Z) (mb_keep_indices : option Val)
    (ctx : option RequestContext) (nb : Z) : Val * request_fields :=
  let keep_indices := default (get_default_keep_indices seq_length) mb_keep_indices in
  let defaults :=
    mkFields (get_default_prompts batch_size nb) (get_default_hypo_ids batch_size)
      get_default_tree_attention_mask get_default_kv_cache_position_ids get_default_draft_tokens
      get_default_prefill_length get_default_is_spec_dec get_default_need_pruning in
  match ctx with
  | Some c =>
      if is_initialized c then
        (keep_indices,
         mkFields (get_field c "prompts" (f_prompts defaults)) (get_field c "hypo_ids" (f_hypo_ids defaults))
           (get_field c "tree_attention_mask" (f_tree_attention_mask defaults))
           (get_field c "kv_cache_position_ids" (f_kv_cache_position_ids defaults))
           (get_field c "draft_tokens" (f_draft_tokens defaults))
           (get_field c "prefill_length" (f_prefill_length defaults))
           (get_field c "is_spec_dec" (f_is_spec_dec defaults))
           (get_field c "need_pruning" (f_need_pruning defaults)))
      else (keep_indices, defaults)
  | None => (keep_indices, defaults)
  end.
End schema.

Record queue_item (P : Type) := mkQueueItem {
  qi_type : string;
  qi_request_id : string;
  qi_step_id : option string;
  qi_mb_idx : Z;
  qi_expected_num_mb : Z;
  qi_payload : P;
  qi_metadata : metadata;
  qi_offset : Z;
  qi_size : Z;
  qi_full_batch_size : Z;
}.
Arguments mkQueueItem {P} _ _ _ _ _ _ _ _ _ _.
Arguments qi_type {P} _.

Definition create_microbatch_queue_item {P} (request_id : string) (step_id : option string)
    (mb_idx expected_num_mb : Z) (payload : P) (metadata : metadata)
    (offset size full_batch_size : Z) : queue_item P :=
  mkQueueItem "micro_batch" request_id step_id mb_idx expected_num_mb payload metadata offset size
    full_batch_size.

(** The queue holds these items and full-batch requests, which are no dictionaries
    of type micro_batch. *)
Definition is_microbatch_queue_item {P} (item : queue_item P) : bool :=
  bool_decide (qi_type item = "micro_batch"%string).

(** ** Ranges: proofs *)

(** [rs] cuts [[a, b)] into consecutive non-empty pieces of at most [mbs] rows. *)
Fixpoint cuts (mbs a b : Z) (rs : list (Z * Z)) : Prop :=
  match rs with
  | [] => a = b
  | (x, y) :: rs' => x = a ∧ a < y ≤ b ∧ y - a ≤ mbs ∧ cuts mbs y b rs'
  end.

Lemma ranges_from_cuts fuel mbs b a :
  0 < mbs → a ≤ b → b - a ≤ Z.of_nat fuel → cuts mbs a b (ranges_from fuel mbs b a).
Proof.
  intros Hm. revert a. induction fuel as [|fuel IH]; intros a Hab Hf; cbn [ranges_from];
    destruct (Z.ltb_spec a b); simpl; try lia.
  split; [done|]. split; [lia|]. split; [lia|]. apply IH; lia.
Qed.

Lemma ranges_from_length fuel mbs b a :
  0 < mbs → a ≤ b → b - a ≤ Z.of_nat fuel →
  zlen (ranges_from fuel mbs b a) = (b - a + mbs - 1) / mbs.
Proof.
  intros Hm. revert a. induction fuel as [|fuel IH]; intros a Hab Hf; cbn [ranges_from];
    destruct (Z.ltb_spec a b); try lia.
  1, 3: assert (a = b) as -> by lia; rewrite Z.div_small by lia; done.
  rewrite zlen_cons, IH by lia. destruct (Z.le_ge_cases b (a + mbs)) as [Hle|Hge].
  - rewrite Z.min_r by lia. rewrite (Z.div_small (b - b + mbs - 1)) by lia.
    apply (Z.div_unique _ _ _ (b - a - 1)); lia.
  - rewrite Z.min_l by lia. replace (b - a + mbs - 1) with (b - (a + mbs) + mbs - 1 + 1 * mbs) by lia.
    rewrite Z.div_add by lia. lia.
Qed.

Lemma cuts_sizes mbs a b rs : cuts mbs a b rs → foldr (λ r acc, r.2 - r.1 + acc) 0 rs = b - a.
Proof.
  revert a. induction rs as [|[x y] rs IH]; intros a; simpl; [lia|].
  intros (-> & ? & ? & Hc). rewrite (IH _ Hc). lia.
Qed.

Lemma get_micro_batch_size_nonneg env : 0 ≤ get_micro_batch_size env.
Proof.
  unfold get_micro_batch_size. case_match; [done|]. cbv zeta. case_bool_decide; [done|].
  destruct (py_int _) as [n|]; [|done]. case_match eqn:E; [done|]. apply Z.ltb_ge in E. lia.
Qed.

(** ** Splitting and merging: proofs *)

Section split_merge_proofs.
Context {T V : Type} `{!Tensor T V, !TensorLaws T V}.

Lemma same_but_spec dim s1 s2 : same_but dim s1 s2 = true ↔ agree_but dim s1 s2.
Proof.
  unfold same_but, agree_but. rewrite andb_true_iff, bool_decide_eq_true, forallb_forall.
  split; intros [Hlen Hall]; (split; [done|]).
  - intros i Hne. destruct (decide (i < length s1)%nat) as [Hlt|Hge].
    + specialize (Hall i). rewrite in_seq in Hall. specialize (Hall ltac:(lia)).
      apply orb_true_iff in Hall as [?%bool_decide_eq_true|?%bool_decide_eq_true]; done.
    + by rewrite !lookup_ge_None_2 by lia.
  - intros i _. apply orb_true_iff. rewrite !bool_decide_eq_true.
    destruct (decide (i = dim)); [by left|right; by apply Hall].
Qed.

Lemma agree_but_insert {A} dim (x y : A) s : agree_but dim (<[dim := x]> s) (<[dim := y]> s).
Proof. split; [by rewrite !length_insert|]. intros i Hi. by rewrite !list_lookup_insert_ne. Qed.

Lemma in_shape_insert_alter dim n m f s idx :
  s !! dim = Some n → in_shape s idx → (∀ i, idx !! dim = Some i → 0 ≤ f i < m) →
  in_shape (<[dim := m]> s) (alter f dim idx).
Proof.
  intros Hs Hin Hf. unfold in_shape in *. revert dim Hs Hf.
  induction Hin as [|k i s idx Hki Hin IH]; intros [|dim] Hs Hf; simplify_eq/=.
  - constructor; [by apply Hf|done].
  - constructor; [done|]. by apply IH.
Qed.

Lemma alter_sub_add (dim : nat) (a : Z) (idx : list Z) : alter (Z.add a) dim (alter (λ j, j - a) dim idx) = idx.
Proof.
  revert dim.
  induction idx as [|i idx IH]; intros [|dim]; simpl; [done|done|f_equal; lia|f_equal; apply IH].
Qed.

Lemma cuts_find mbs a b rs ts dim j :
  cuts mbs a b rs → a ≤ j < b →
  Forall2 (λ r t, t_shape (T := T) t !! dim = Some (r.2 - r.1)) rs ts →
  ∃ k r t, rs !! k = Some r ∧ ts !! k = Some t ∧ r.1 ≤ j < r.2 ∧
           a + dim_total (take k ts) dim = r.1.
Proof.
  intros Hc Hj HF. revert a Hc Hj. induction HF as [|[x y] t rs ts Ht HF IH]; intros a; simpl; [lia|].
  intros (-> & Hxy & _ & Hc) Hj. destruct (decide (j < y)) as [Hlt|Hge].
  - exists 0%nat, (a, y), t. simpl. unfold dim_total. simpl. repeat split; lia.
  - destruct (IH y Hc) as (k & r & t' & Hr & Ht' & Hin & Hd); [lia|].
    exists (S k), r, t'. split; [done|]. split; [done|]. split; [done|].
    unfold dim_total in *. simpl. rewrite Ht. simpl in *. lia.
Qed.

Lemma cuts_in mbs a b rs r : cuts mbs a b rs → r ∈ rs → a ≤ r.1 < r.2 ∧ r.2 ≤ b.
Proof.
  revert a. induction rs as [|[x y] rs IH]; intros a; simpl; [by intros _ ?%not_elem_of_nil|].
  intros (-> & Hxy & _ & Hc) [->|Hin]%elem_of_cons; simpl; [lia|]. pose proof (IH _ Hc Hin). lia.
Qed.

Lemma cuts_dim_total mbs a b rs ts dim :
  cuts mbs a b rs → Forall2 (λ r t, t_shape (T := T) t !! dim = Some (r.2 - r.1)) rs ts →
  dim_total ts dim = b - a.
Proof.
  intros Hc HF. rewrite <- (cuts_sizes _ _ _ _ Hc). unfold dim_total. clear Hc.
  induction HF as [|r t rs ts Ht HF IH]; [done|]. simpl. by rewrite Ht, IH.
Qed.

(** Slicing at consecutive ranges and concatenating gives the tensor back. *)
Lemma slices_cat mbs t dim n rs :
  t_shape t !! dim = Some n → cuts mbs 0 n rs → rs ≠ [] →
  ∃ ts r, Forall2 (λ r t', t_slice t dim r.1 r.2 = Ok t') rs ts ∧ t_cat ts dim = Ok r ∧
    t_shape r = t_shape t ∧
    (∀ t1 t2, t1 ∈ ts → t2 ∈ ts → agree_but dim (t_shape t1) (t_shape t2)) ∧
    ∀ idx, in_shape (t_shape t) idx → t_get r idx = t_get t idx.
Proof.
  intros Hn Hc Hne.
  destruct (mapM_total (λ r, t_slice t dim r.1 r.2) rs) as (ts & _ & HF).
  { intros r Hr. destruct (cuts_in _ _ _ _ _ Hc Hr).
    destruct (t_slice_spec t dim r.1 r.2 n) as (t' & Ht' & _); [done|lia|lia|]. by exists t'. }
  assert (Forall2 (λ r t', t_shape t' = <[dim := r.2 - r.1]> (t_shape t) ∧
            ∀ idx, in_shape (t_shape t') idx → t_get t' idx = t_get t (alter (Z.add r.1) dim idx)) rs ts)
    as Hsp.
  { eapply Forall2_impl_in; [exact HF|]. intros r t' Hr _ Ht'.
    destruct (cuts_in _ _ _ _ _ Hc Hr).
    destruct (t_slice_spec t dim r.1 r.2 n) as (t'' & Ht'' & ? & ?); [done|lia|lia|].
    assert (t'' = t') as -> by (rewrite Ht' in Ht''; congruence). done. }
  assert (dim < length (t_shape t))%nat as Hdim by (by eapply lookup_lt_Some).
  assert (Forall2 (λ r t', t_shape t' !! dim = Some (r.2 - r.1)) rs ts) as Hd.
  { eapply Forall2_impl; [exact Hsp|]. intros r t' [-> _]. by apply list_lookup_insert_eq. }
  assert (∀ t1, t1 ∈ ts → ∃ k, t_shape t1 = <[dim := k]> (t_shape t)) as Hshape.
  { intros t1 [i Hi]%list_elem_of_lookup.
    destruct (Forall2_lookup_r _ _ _ _ _ Hsp Hi) as (r & _ & Hr & _). by eexists. }
  assert (∀ t1 t2, t1 ∈ ts → t2 ∈ ts → agree_but dim (t_shape t1) (t_shape t2)) as Hag.
  { intros t1 t2 H1 H2. destruct (Hshape _ H1) as [k1 ->], (Hshape _ H2) as [k2 ->].
    apply agree_but_insert. }
  destruct ts as [|t0 ts]; [by inversion HF; subst|].
  destruct (t_cat_spec t0 ts dim) as (r & Hr & Hsh & Hget).
  { destruct (Hshape t0) as [k ->]; [by left|]. by rewrite length_insert. }
  { apply list.Forall_forall. intros t' Ht'. apply Hag; [by left|by right]. }
  { apply list.Forall_forall. intros t' [i Hi]%list_elem_of_lookup.
    destruct (Forall2_lookup_r _ _ _ _ _ Hd Hi) as (rg & Hrg & ->).
    destruct (cuts_in _ _ _ _ _ Hc (list_elem_of_lookup_2 _ _ _ Hrg)). simpl. lia. }
  exists (t0 :: ts), r. split; [done|]. split; [done|]. split; [|split; [done|]].
  - rewrite Hsh, (cuts_dim_total _ _ _ _ _ _ Hc Hd). destruct (Hshape t0) as [k ->]; [by left|].
    rewrite list_insert_insert_eq, Z.sub_0_r. by apply list_insert_id.
  - intros idx Hidx. destruct (Forall2_lookup_l _ _ _ _ _ Hidx Hn) as (j & Hj & Hjn).
    destruct (cuts_find _ _ _ _ _ _ j Hc Hjn Hd) as (k & rg & t' & Hrg & Ht' & Hin & Htot).
    destruct (Forall2_lookup_lr _ _ _ _ _ _ Hsp Hrg Ht') as [Hs' Hg'].
    set (idx' := alter (λ j, j - rg.1) dim idx).
    assert (in_shape (t_shape t') idx') as Hidx'.
    { rewrite Hs'. apply (in_shape_insert_alter dim n); [done|done|]. intros i Hi.
      assert (i = j) as -> by congruence. lia. }
    rewrite <- (alter_sub_add dim rg.1 idx). fold idx'. rewrite <- Hg' by done.
    rewrite <- (Hget k t' idx') by done. do 3 f_equal. lia.
Qed.
End split_merge_proofs.

Lemma omap_id_Some {A} (l : list A) : omap id (Some <$> l) = l.
Proof. induction l as [|x l IH]; [done|]. simpl. f_equal. apply IH. Qed.

(** C8: Micro-batch ranges. For a positive batch the ranges cut it into consecutive
    non-empty pieces no larger than the configured size, exactly as many as the
    pipeline's consumers expect, and more than one precisely when the batch is to be
    split. *)
Theorem ranges_partition env B :
  0 < B →
  let mbs := get_micro_batch_size env in
  let rs := compute_micro_batch_ranges env B in
  cuts (if 0 <? mbs then mbs else B) 0 B rs ∧
  zlen rs = resolve_expected_num_microbatches env B None None ∧
  (should_split_batch env B = true ↔ 2 ≤ zlen rs).
Proof.
  intros HB mbs rs. pose proof (get_micro_batch_size_nonneg env) as H0. fold mbs in H0.
  assert (0 < mbs → is_microbatch_enabled env = true) as Hen.
  { intros Hm. unfold is_microbatch_enabled. fold mbs. rewrite (proj2 (Z.ltb_lt _ _)) by done.
    unfold mbs, get_micro_batch_size in Hm. destruct (is_microbatch_flag_enabled env); simpl in *; [done|lia]. }
  unfold rs, compute_micro_batch_ranges, resolve_expected_num_microbatches, should_split_batch. fold mbs.
  rewrite (proj2 (Z.leb_gt B 0)) by done. destruct (Z.ltb_spec 0 mbs) as [Hm|Hm].
  - rewrite (proj2 (Z.leb_gt mbs 0)), Hen by done. simpl.
    rewrite ranges_from_length by lia. split; [apply ranges_from_cuts; lia|].
    replace (B - 0 + mbs - 1) with (B + mbs - 1) by lia.
    assert (1 ≤ (B + mbs - 1) / mbs) by (apply Z.div_le_lower_bound; lia).
    split; [lia|]. rewrite Z.ltb_lt. split; intros Hs.
    + apply Z.div_le_lower_bound; lia.
    + destruct (decide (mbs < B)); [done|]. assert ((B + mbs - 1) / mbs < 2); [|lia].
      apply Z.div_lt_upper_bound; lia.
  - assert (mbs = 0) as -> by lia. simpl. split; [lia|]. split; [done|].
    split; [by case_match|done].
Qed.

(** Splitting and merging is the identity. Cutting a tensor into micro-batches
    along its batch dimension and merging the outputs gives a tensor of the same
    shape with the same elements, whatever the environment. *)
Lemma split_merge_roundtrip {T V} `{!Tensor T V, !TensorLaws T V} env (zero : V) t dim n :
  t_shape t !! dim = Some n →
  ∃ chunks r, split_tensor_to_microbatches env (Some t) dim = Ok chunks ∧
    merge_microbatch_outputs zero chunks dim = Ok (Some r) ∧ t_shape r = t_shape t ∧
    ∀ idx, in_shape (t_shape t) idx → t_get r idx = t_get t idx.
Proof.
  intros Hn. unfold split_tensor_to_microbatches. rewrite Hn. simpl.
  destruct (should_split_batch env n) eqn:Hs; simpl; [|by exists [Some t], t].
  assert (0 < get_micro_batch_size env < n) as [Hm Hmn].
  { unfold should_split_batch in Hs. repeat case_match; try done. rewrite Z.leb_gt in *.
    apply Z.ltb_lt in Hs. lia. }
  unfold compute_micro_batch_ranges. rewrite !(proj2 (Z.leb_gt _ 0)) by lia.
  set (mbs := get_micro_batch_size env) in *. set (rs := ranges_from (Z.to_nat n) mbs n 0).
  pose proof (ranges_from_cuts (Z.to_nat n) mbs n 0 Hm ltac:(lia) ltac:(lia)) as Hc. fold rs in Hc.
  assert (2 ≤ zlen rs) as Hlen.
  { unfold rs. rewrite ranges_from_length by lia. apply Z.div_le_lower_bound; lia. }
  destruct (slices_cat mbs t dim n rs) as (ts & r & HF & Hcat & Hsh & Hag & Hget); [done|done|by intros ->|].
  exists (Some <$> ts), r. split; [|split; [|done]].
  - clear -HF. induction HF as [|[a b] t' rs ts Ht HF IH]; [done|]. simpl in *. rewrite Ht. simpl.
    rewrite IH. done.
  - apply Forall2_length in HF. unfold zlen in Hlen.
    destruct ts as [|t1 [|t2 ts]]; simpl in HF; try lia.
    change (merge_valid (omap id (Some <$> (t1 :: t2 :: ts))) dim zero = Ok (Some r)).
    rewrite omap_id_Some.
    unfold merge_valid.
    rewrite (proj2 (forallb_forall _ (t2 :: ts))); [by rewrite Hcat|].
    intros t' Ht'. apply same_but_spec, Hag; [by left|right; by apply list_elem_of_In].
Qed.

(** ** Merging outputs of different shapes *)

Section pad_proofs.
Context {T V : Type} `{!Tensor T V, !TensorLaws T V}.

Definition max_shapes (dim : nat) (s : list Z) (l : list (list Z)) : list Z :=
  fold_left (max_shape_step dim) l s.

Definition padded_shape (dim : nat) (maxs s : list Z) : list Z :=
  imap (λ axis n, if bool_decide (axis = dim) then n else default n (maxs !! axis)) s.

Lemma max_shape_of_ok dim s (outs : list T) :
  Forall (λ o, length (t_shape o) = length s) outs →
  max_shape_of dim s outs = Ok (max_shapes dim s (t_shape <$> outs)).
Proof.
  intros HF. revert s HF. induction outs as [|o outs IH]; intros s HF; [done|].
  apply Forall_cons in HF as [Ho HF]. cbn [max_shape_of]. rewrite bool_decide_eq_true_2 by done.
  apply IH. unfold max_shape_step. by rewrite length_imap.
Qed.

Lemma max_shapes_spec dim s l :
  Forall (λ s', length s' = length s) l →
  length (max_shapes dim s l) = length s ∧
  ∀ i n, i ≠ dim → max_shapes dim s l !! i = Some n →
    (∀ s', s' ∈ s :: l → ∃ k, s' !! i = Some k ∧ k ≤ n) ∧ (∃ s', s' ∈ s :: l ∧ s' !! i = Some n).
Proof.
  unfold max_shapes. revert s. induction l as [|s1 l IH]; intros s HF.
  - split; [done|]. simpl. intros i n _ Hi. split; [|by exists s; split; [left|]].
    intros s' ->%list_elem_of_singleton. exists n. by split.
  - apply Forall_cons in HF as [H1 HF]. simpl.
    destruct (IH (max_shape_step dim s s1)) as [Hlen Hm].
    { eapply Forall_impl; [exact HF|]. intros s' ->. unfold max_shape_step. by rewrite length_imap. }
    split; [rewrite Hlen; unfold max_shape_step; by rewrite length_imap|].
    intros i n Hne Hi. destruct (Hm i n Hne Hi) as [Hall (s' & Hs' & Hn)].
    assert (i < length s)%nat as Hlt.
    { apply lookup_lt_Some in Hi. rewrite Hlen in Hi. unfold max_shape_step in Hi. by rewrite length_imap in Hi. }
    destruct (lookup_lt_is_Some_2 s i Hlt) as [a Ha].
    destruct (lookup_lt_is_Some_2 s1 i) as [b Hb]; [by rewrite H1|].
    assert (max_shape_step dim s s1 !! i = Some (Z.max a b)) as Hstep.
    { unfold max_shape_step. rewrite list_lookup_imap, Ha. simpl.
      rewrite bool_decide_eq_false_2 by done. by rewrite Hb. }
    split.
    + intros s2 [->|[->|Hin]%elem_of_cons]%elem_of_cons.
      * destruct (Hall (max_shape_step dim s s1)) as (k & Hk & Hle); [by left|].
        rewrite Hstep in Hk. injection Hk as <-. exists a. split; [done|lia].
      * destruct (Hall (max_shape_step dim s s1)) as (k & Hk & Hle); [by left|].
        rewrite Hstep in Hk. injection Hk as <-. exists b. split; [done|lia].
      * apply Hall. by right.
    + apply elem_of_cons in Hs' as [->|Hin].
      * rewrite Hstep in Hn. injection Hn as Hn. destruct (Z.max_spec a b) as [[_ He]|[_ He]].
        -- exists s1. split; [right; by left|]. congruence.
        -- exists s. split; [by left|]. congruence.
      * exists s'. split; [right; by right|done].
Qed.

Lemma padded_shape_lookup dim maxs s i :
  length maxs = length s → padded_shape dim maxs s !! i = if decide (i = dim) then s !! i else maxs !! i.
Proof.
  intros Hlen. unfold padded_shape. rewrite list_lookup_imap. destruct (s !! i) as [n|] eqn:Hs; simpl.
  - case_decide; [by rewrite bool_decide_eq_true_2|]. rewrite bool_decide_eq_false_2 by done.
    apply lookup_lt_Some in Hs. destruct (lookup_lt_is_Some_2 maxs i) as [m Hm]; [lia|]. by rewrite Hm.
  - apply lookup_ge_None in Hs. case_decide; [done|]. symmetry. apply lookup_ge_None. lia.
Qed.

Lemma pad_output_spec dim pad maxs out :
  length maxs = length (t_shape out) → Forall (λ n, 0 ≤ n) (t_shape out) →
  (∀ i m n, i ≠ dim → maxs !! i = Some m → t_shape out !! i = Some n → n ≤ m) →
  ∃ p, pad_output dim pad maxs out = Ok p ∧ t_shape p = padded_shape dim maxs (t_shape out) ∧
    ∀ idx, in_shape (t_shape p) idx →
      (in_shape (t_shape out) idx → t_get p idx = t_get out idx) ∧
      (¬ in_shape (t_shape out) idx → t_get p idx = pad).
Proof.
  intros Hlen Hnn Hle. unfold pad_output. fold (padded_shape dim maxs (t_shape out)). cbv zeta.
  case_bool_decide as Heq.
  { exists out. split; [done|]. split; [done|]. intros idx Hidx. split; done. }
  assert (Forall2 (λ n m, 0 ≤ m ≤ n) (padded_shape dim maxs (t_shape out)) (t_shape out)) as Hbig.
  { apply Forall2_same_length_lookup_2; [unfold padded_shape; by rewrite length_imap|].
    intros i n m Hn Hm. rewrite padded_shape_lookup in Hn by done.
    pose proof (Forall_lookup_1 _ _ _ _ Hnn Hm) as Hm0. simpl in Hm0.
    case_decide as Hd; [assert (n = m) by congruence; lia|].
    split; [done|]. by apply (Hle i). }
  destruct (t_full_spec (padded_shape dim maxs (t_shape out)) pad) as (d & -> & Hd & Hget).
  { apply Forall_lookup_2. intros i n Hn. destruct (Forall2_lookup_l _ _ _ _ _ Hbig Hn) as (m & _ & ?). lia. }
  simpl. destruct (t_setitem_spec d
    (imap (λ axis n, if bool_decide (axis = dim) then None else Some (0, n)) (t_shape out)) out)
    as (p & -> & Hp & Hpget); [by rewrite Hd| |].
  { rewrite Hd. apply Forall2_same_length_lookup_2.
    - rewrite length_imap, length_zip. unfold padded_shape. rewrite length_imap. lia.
    - intros i s [n m] Hs Hnm. rewrite list_lookup_imap in Hs.
      apply lookup_zip_with_Some in Hnm as (n' & m' & [= -> ->] & Hn & Hm). rewrite Hm in Hs.
      simpl in Hs. injection Hs as <-. case_bool_decide as Hi; [|done]. simpl.
      rewrite padded_shape_lookup, decide_True in Hn by done. congruence. }
  exists p. split; [done|]. split; [by rewrite Hp|]. intros idx Hidx. rewrite Hp in Hidx.
  destruct (Hpget idx Hidx) as [Hin Hout]. split; [done|]. intros Hn. rewrite Hout by done.
  apply Hget. by rewrite Hd in Hidx.
Qed.

(** Both paths of the merge pad to the common shape and concatenate. *)
Lemma merge_valid_general first rest dim pad :
  (dim < length (t_shape first))%nat →
  Forall (λ o, length (t_shape o) = length (t_shape first)) rest →
  merge_valid (first :: rest) dim pad =
    (padded ← mapM (pad_output dim pad (max_shapes dim (t_shape first) (t_shape <$> rest))) (first :: rest);
     Some <$> t_cat padded dim).
Proof.
  intros Hdim Hlen. unfold merge_valid. rewrite max_shape_of_ok by done.
  destruct (forallb _ rest) eqn:Hsame; [|done].
  set (maxs := max_shapes _ _ _).
  assert (∀ o, o ∈ first :: rest → agree_but dim (t_shape first) (t_shape o)) as Hag.
  { intros o [->|Ho]%elem_of_cons; [done|]. apply same_but_spec.
    apply (proj1 (forallb_forall _ _) Hsame). by apply list_elem_of_In. }
  destruct (max_shapes_spec dim (t_shape first) (t_shape <$> rest)) as [Hml Hm].
  { apply Forall_fmap. exact Hlen. }
  fold maxs in Hml, Hm.
  rewrite (mapM_Ok _ id); [by rewrite list_fmap_id|]. intros o Ho. unfold pad_output. cbv zeta.
  fold (padded_shape dim maxs (t_shape o)). destruct (Hag o Ho) as [Hol Hoi].
  rewrite bool_decide_eq_true_2; [done|]. apply list_eq. intros i.
  rewrite padded_shape_lookup by congruence. case_decide as Hi; [done|].
  destruct (maxs !! i) as [n|] eqn:Hn.
  - destruct (Hm i n Hi Hn) as [_ (s' & Hs' & Hsn)]. rewrite <- (Hoi i Hi).
    apply elem_of_cons in Hs' as [->|(o' & -> & Ho')%list_elem_of_fmap]; [done|].
    destruct (Hag o') as [_ Hoi']; [by right|]. by rewrite (Hoi' i Hi).
  - apply lookup_ge_None in Hn. apply lookup_ge_None. lia.
Qed.

Lemma dim_total_take_padded dim maxs (outs ps : list T) k :
  Forall2 (λ o p, t_shape p = padded_shape dim maxs (t_shape o)) outs ps →
  Forall (λ o, length maxs = length (t_shape o)) outs →
  dim_total (take k ps) dim = dim_total (take k outs) dim.
Proof.
  intros HF Hl. revert k. induction HF as [|o p outs ps Hp HF IH]; intros [|k]; try done.
  apply Forall_cons in Hl as [Ho Hl]. unfold dim_total in *. simpl. rewrite IH by done.
  rewrite Hp, padded_shape_lookup by done. by rewrite decide_True.
Qed.

Lemma in_shape_lookup s idx :
  in_shape s idx ↔ length idx = length s ∧ ∀ i n j, s !! i = Some n → idx !! i = Some j → 0 ≤ j < n.
Proof.
  unfold in_shape. split.
  - intros HF. split; [symmetry; by eapply Forall2_length|]. intros i n j Hn Hj.
    by apply (Forall2_lookup_lr _ _ _ _ _ _ HF Hn Hj).
  - intros [Hl Hi]. by apply Forall2_same_length_lookup_2.
Qed.

(** The padded outputs of a merge, and their concatenation. *)
Lemma merge_padded_cat first rest dim pad :
  (dim < length (t_shape first))%nat →
  Forall (λ o, length (t_shape o) = length (t_shape first)) rest →
  Forall (λ o, Forall (λ n, 0 ≤ n) (t_shape o)) (first :: rest) →
  let outs := first :: rest in
  let maxs := max_shapes dim (t_shape first) (t_shape <$> rest) in
  ∃ ps r, merge_valid outs dim pad = Ok (Some r) ∧
    t_shape r = <[dim := dim_total outs dim]> maxs ∧ length maxs = length (t_shape first) ∧
    Forall2 (λ o p, t_shape p = padded_shape dim maxs (t_shape o) ∧
      ∀ idx, in_shape (t_shape p) idx →
        (in_shape (t_shape o) idx → t_get p idx = t_get o idx) ∧
        (¬ in_shape (t_shape o) idx → t_get p idx = pad)) outs ps ∧
    ∀ k p idx, ps !! k = Some p → in_shape (t_shape p) idx →
      t_get r (alter (Z.add (dim_total (take k outs) dim)) dim idx) = t_get p idx.
Proof.
  intros Hdim Hlen Hnn outs maxs.
  destruct (max_shapes_spec dim (t_shape first) (t_shape <$> rest)) as [Hml Hm].
  { apply Forall_fmap. exact Hlen. }
  fold maxs in Hml, Hm.
  assert (Forall (λ o, length maxs = length (t_shape o)) outs) as Hlens.
  { constructor; [done|]. eapply Forall_impl; [exact Hlen|]. intros o Ho. simpl in Ho. congruence. }
  unfold outs. rewrite merge_valid_general by done. fold maxs outs.
  assert (∀ o, o ∈ outs → ∃ p, pad_output dim pad maxs o = Ok p ∧
    t_shape p = padded_shape dim maxs (t_shape o) ∧
      ∀ idx, in_shape (t_shape p) idx →
        (in_shape (t_shape o) idx → t_get p idx = t_get o idx) ∧
        (¬ in_shape (t_shape o) idx → t_get p idx = pad)) as Hpad.
  { intros o Ho. apply pad_output_spec.
    - by apply (proj1 (list.Forall_forall _ _) Hlens).
    - by apply (proj1 (list.Forall_forall _ _) Hnn).
    - intros i m n Hi Hmi Hni. destruct (Hm i m Hi Hmi) as [Hall _].
      destruct (Hall (t_shape o)) as (k & Hk & Hle); [|assert (n = k) by congruence; lia].
      apply elem_of_cons in Ho as [->|Ho]; [by left|right]. apply list_elem_of_fmap. by exists o. }
  destruct (mapM_total (pad_output dim pad maxs) outs) as (ps & -> & HF).
  { intros o Ho. destruct (Hpad o Ho) as (p & Hp & _). by exists p. }
  assert (Forall2 (λ o p, t_shape p = padded_shape dim maxs (t_shape o) ∧
      ∀ idx, in_shape (t_shape p) idx →
        (in_shape (t_shape o) idx → t_get p idx = t_get o idx) ∧
        (¬ in_shape (t_shape o) idx → t_get p idx = pad)) outs ps) as HF2.
  { eapply Forall2_impl_in; [exact HF|]. intros o p Ho _ Hp.
    destruct (Hpad o Ho) as (p' & Hp' & ?). assert (p' = p) as -> by congruence. done. }
  assert (Forall2 (λ o p, t_shape p = padded_shape dim maxs (t_shape o)) outs ps) as HF3.
  { eapply Forall2_impl; [exact HF2|]. by intros o p [? _]. }
  assert (∀ p, p ∈ ps → length (t_shape p) = length maxs ∧ ∀ i, i ≠ dim → t_shape p !! i = maxs !! i) as Hps.
  { intros p [k Hk]%list_elem_of_lookup. destruct (Forall2_lookup_r _ _ _ _ _ HF3 Hk) as (o & Ho & ->).
    pose proof (Forall_lookup_1 _ _ _ _ Hlens Ho) as Hlo. simpl in Hlo.
    split; [unfold padded_shape; rewrite length_imap; congruence|]. intros i Hi.
    rewrite padded_shape_lookup by done. by rewrite decide_False. }
  simpl. destruct ps as [|p0 ps]; [by inversion HF|].
  destruct (t_cat_spec p0 ps dim) as (r & -> & Hsh & Hget).
  { destruct (Hps p0) as [-> _]; [by left|]. lia. }
  { apply list.Forall_forall. intros p Hp. destruct (Hps p0) as [Hl0 H0]; [by left|].
    destruct (Hps p) as [Hl1 H1]; [by right|]. split; [congruence|]. intros i Hi. by rewrite H0, H1. }
  { apply list.Forall_forall. intros p [k Hk]%list_elem_of_lookup.
    destruct (Forall2_lookup_r _ _ _ _ _ HF3 Hk) as (o & Ho & ->).
    pose proof (Forall_lookup_1 _ _ _ _ Hlens Ho) as Hlo. simpl in Hlo.
    rewrite padded_shape_lookup, decide_True by done.
    destruct (t_shape o !! dim) as [n|] eqn:Hn; [|done]. simpl.
    pose proof (Forall_lookup_1 _ _ _ _ Hnn Ho) as Hno. by apply (Forall_lookup_1 _ _ _ _ Hno Hn). }
  simpl. exists (p0 :: ps), r. split; [done|]. split; [|split; [done|split; [done|]]].
  - rewrite Hsh. pose proof (dim_total_take_padded dim maxs outs (p0 :: ps) (length outs) HF3 Hlens) as Ht.
    rewrite take_ge, take_ge in Ht by (rewrite ?(Forall2_length _ _ _ HF3); done). rewrite Ht.
    destruct (Hps p0) as [Hl0 H0]; [by left|]. apply list_eq. intros i.
    destruct (decide (i = dim)) as [->|Hi].
    + rewrite !list_lookup_insert_eq by lia. done.
    + rewrite !list_lookup_insert_ne by done. by apply H0.
  - intros k p idx Hk Hidx. rewrite <- (Hget k p idx Hk Hidx).
    by rewrite (dim_total_take_padded dim maxs outs (p0 :: ps) k HF3 Hlens).
Qed.
End pad_proofs.

(** Merging pads, never mixes. Outputs of one rank (two or more of them) merge
    into a tensor that has their rows one after the other along the batch dimension
    and, along every other axis, the largest of their sizes; each output's elements
    are found at their place, shifted by the rows before it, and every other
    position of its rows holds the padding value. *)
Lemma merge_pads {T V} `{!Tensor T V, !TensorLaws T V} (zero : V) first rest dim :
  rest ≠ [] → (dim < length (t_shape first))%nat →
  Forall (λ o, length (t_shape o) = length (t_shape first)) rest →
  Forall (λ o, Forall (λ n, 0 ≤ n) (t_shape o)) (first :: rest) →
  let outs := first :: rest in
  ∃ r, merge_microbatch_outputs zero (Some <$> outs) dim = Ok (Some r) ∧
    length (t_shape r) = length (t_shape first) ∧
    t_shape r !! dim = Some (dim_total outs dim) ∧
    (∀ i n, i ≠ dim → t_shape r !! i = Some n →
      (∀ o, o ∈ outs → ∃ k, t_shape o !! i = Some k ∧ k ≤ n) ∧ ∃ o, o ∈ outs ∧ t_shape o !! i = Some n) ∧
    ∀ k o idx, outs !! k = Some o →
      let idx' := alter (Z.add (dim_total (take k outs) dim)) dim idx in
      (in_shape (t_shape o) idx → t_get r idx' = t_get o idx) ∧
      (¬ in_shape (t_shape o) idx → (∀ j m, t_shape o !! dim = Some m → idx !! dim = Some j → 0 ≤ j < m) →
       in_shape (t_shape r) idx' → t_get r idx' = zero).
Proof.
  intros Hne Hdim Hlen Hnn outs.
  assert (merge_microbatch_outputs zero (Some <$> outs) dim = merge_valid outs dim zero) as ->.
  { destruct rest as [|o2 rest]; [done|].
    change (merge_valid (omap id (Some <$> outs)) dim zero = merge_valid outs dim zero).
    by rewrite omap_id_Some. }
  destruct (merge_padded_cat first rest dim zero Hdim Hlen Hnn) as (ps & r & Hr & Hsh & Hml & HF & Hget).
  fold outs in Hr, Hsh, HF, Hget. set (maxs := max_shapes dim (t_shape first) (t_shape <$> rest)) in *.
  destruct (max_shapes_spec dim (t_shape first) (t_shape <$> rest)) as [_ Hm].
  { apply Forall_fmap. exact Hlen. }
  fold maxs in Hm. exists r. split; [done|]. rewrite Hsh.
  split; [by rewrite length_insert|]. split; [apply list_lookup_insert_eq; lia|]. split.
  - intros i n Hi. rewrite list_lookup_insert_ne by done. intros Hn.
    destruct (Hm i n Hi Hn) as [Hall (s' & Hs' & Hsn)]. split.
    + intros o Ho. apply Hall. apply elem_of_cons in Ho as [->|Ho]; [by left|right].
      apply list_elem_of_fmap. by exists o.
    + apply elem_of_cons in Hs' as [->|(o & -> & Ho)%list_elem_of_fmap];
        [exists first; split; [by left|done]|exists o; split; [by right|done]].
  - intros k o idx Hk. destruct (Forall2_lookup_l _ _ _ _ _ HF Hk) as (p & Hp & Hpsh & Hpget).
    assert (length maxs = length (t_shape o)) as Hlo.
    { rewrite Hml. symmetry. apply list_elem_of_lookup_2 in Hk. apply elem_of_cons in Hk as [->|Ho]; [done|].
      by apply (proj1 (list.Forall_forall _ _) Hlen). }
    assert (∀ i n, t_shape p !! i = Some n → if decide (i = dim) then t_shape o !! i = Some n else maxs !! i = Some n)
      as Hpi.
    { intros i n. rewrite Hpsh, padded_shape_lookup by done. by case_decide. }
    assert (length (t_shape p) = length (t_shape o)) as Hlp by (rewrite Hpsh; unfold padded_shape; by rewrite length_imap).
    split.
    + intros Hin. assert (in_shape (t_shape p) idx) as Hinp.
      { apply in_shape_lookup in Hin as [Hl Hin]. apply in_shape_lookup. split; [congruence|].
        intros i n j Hn Hj. specialize (Hpi i n Hn). case_decide; [by apply (Hin i)|].
        destruct (Hm i n) as [Hall _]; [done|done|].
        destruct (Hall (t_shape o)) as (k' & Hk' & Hle).
        { apply list_elem_of_lookup_2 in Hk. apply elem_of_cons in Hk as [->|Ho]; [by left|right].
          apply list_elem_of_fmap. by exists o. }
        pose proof (Hin i k' j Hk' Hj). lia. }
      rewrite (Hget k p idx Hp Hinp). by apply Hpget.
    + intros Hnin Hd Hin. assert (in_shape (t_shape p) idx) as Hinp.
      { apply in_shape_lookup in Hin as [Hl Hin]. apply in_shape_lookup.
        rewrite length_alter, length_insert in Hl. split; [lia|].
        intros i n j Hn Hj. specialize (Hpi i n Hn). case_decide as Hi; [subst i; by apply (Hd j n)|].
        apply (Hin i n j); [by rewrite list_lookup_insert_ne|by rewrite list_lookup_alter_ne]. }
      rewrite (Hget k p idx Hp Hinp). by apply Hpget.
Qed.

(** Later micro-batches inherit the first one's fields. Once a request context has
    cached the first micro-batch's fields, filling any later micro-batch returns
    exactly those fields, [None] included (a default never replaces them), and only
    missing [keep_indices] are defaulted; without an initialised context every field
    is the default. *)
Lemma fill_uses_mb0 {A} (f : @request_fields A) n ctx bs sl ki nb :
  fill_microbatch_defaults bs sl ki (Some (cache_from_mb0 f n ctx)) nb =
    (default (CArange sl) ki, f) ∧
  (∀ name, has_field (cache_from_mb0 f n ctx) name = bool_decide (name ∈ REQUEST_LEVEL_FIELDS)) ∧
  fill_microbatch_defaults (A := A) bs sl ki None nb =
    (default (CArange sl) ki,
     mkFields (CNones nb) (CArange bs) CNone CNone CNone (CInt 0) (CBool false) (CBool false)) ∧
  ∀ rid sid, fill_microbatch_defaults (A := A) bs sl ki (Some (new_context rid sid)) nb =
             fill_microbatch_defaults bs sl ki None nb.
Proof.
  split; [by destruct f|]. split; [|done]. intros name. unfold has_field, dict_mem.
  destruct (dict_get _ name) eqn:E; symmetry.
  - apply bool_decide_eq_true. apply dict_elem_get in E.
    assert (name ∈ dict_keys (cached_fields (cache_from_mb0 f n ctx))) as Hin; [|exact Hin].
    apply list_elem_of_fmap. by eexists (name, _).
  - apply bool_decide_eq_false. by apply dict_get_None in E.
Qed.

(** ** A concrete tensor *)

Record ftensor (V : Type) := mkFtensor { ft_shape : list Z; ft_data : list Z → V }.
Arguments mkFtensor {V} _ _.
Arguments ft_shape {V} _.
Arguments ft_data {V} _ _.

#[export] Instance in_shape_dec shape idx : Decision (in_shape shape idx).
Proof. unfold in_shape. apply _. Defined.

Section ftensor.
Context {V : Type} `{Inhabited V}.
Notation FT := (ftensor V).

Fixpoint cat_data (ts : list FT) (dim : nat) (idx : list Z) : V :=
  match ts with
  | [] => inhabitant
  | t :: ts' =>
      let n := default 0 (ft_shape t !! dim) in
      if default 0 (idx !! dim) <? n then ft_data t idx
      else cat_data ts' dim (alter (λ j, j - n) dim idx)
  end.

Definition cat_total (ts : list FT) (dim : nat) : Z :=
  foldr (λ t acc, default 0 (ft_shape t !! dim) + acc) 0 ts.

#[export] Instance ftensor_tensor : Tensor (ftensor V) V := {|
  t_shape := ft_shape;
  t_get := ft_data;
  t_slice t dim a b :=
    match ft_shape t !! dim with
    | Some n =>
        if bool_decide (0 ≤ a ≤ b ∧ b ≤ n)
        then Ok (mkFtensor (<[dim := b - a]> (ft_shape t)) (λ idx, ft_data t (alter (Z.add a) dim idx)))
        else Raise TorchError
    | None => Raise IndexError
    end;
  t_cat ts dim :=
    match ts with
    | [] => Raise TorchError
    | t :: ts' =>
        if forallb (λ t', same_but dim (ft_shape t) (ft_shape t')) ts'
        then Ok (mkFtensor (<[dim := cat_total ts dim]> (ft_shape t)) (cat_data ts dim))
        else Raise TorchError
    end;
  t_full shape v :=
    if forallb (λ n, 0 <=? n) shape then Ok (mkFtensor shape (λ _, v)) else Raise TorchError;
  t_setitem dst slices src :=
    Ok (mkFtensor (ft_shape dst)
          (λ idx, if decide (in_shape (ft_shape src) idx) then ft_data src idx else ft_data dst idx));
|}.

Lemma cat_data_spec (ts : list FT) dim i t idx :
  Forall (λ t', 0 ≤ default 0 (ft_shape t' !! dim)) ts →
  ts !! i = Some t → in_shape (ft_shape t) idx → (dim < length (ft_shape t))%nat →
  cat_data ts dim (alter (Z.add (cat_total (take i ts) dim)) dim idx) = ft_data t idx.
Proof.
  intros Hnn Hi Hidx Hdim.
  destruct (lookup_lt_is_Some_2 (ft_shape t) dim Hdim) as [n Hn].
  destruct (Forall2_lookup_l _ _ _ _ _ Hidx Hn) as (j & Hj & Hjn). simpl in Hjn.
  revert i Hi. induction Hnn as [|t0 ts Ht0 Hnn IH]; intros i Hi; [done|].
  destruct i as [|i]; simplify_eq/=.
  - assert (alter (Z.add (cat_total (take 0 (t :: ts)) dim)) dim idx = idx) as He.
    { apply list_alter_id. by intros []. }
    simpl in He. rewrite He, Hj, Hn. simpl. by rewrite (proj2 (Z.ltb_lt _ _)) by lia.
  - set (n0 := default 0 (ft_shape t0 !! dim)) in *.
    change (cat_total (t0 :: take i ts) dim) with (n0 + cat_total (take i ts) dim).
    assert (0 ≤ cat_total (take i ts) dim) as Hc.
    { clear -Hnn. revert i. induction Hnn as [|t' ts Ht Hnn IH]; intros [|i]; try done.
      unfold cat_total in *. simpl. specialize (IH i). lia. }
    rewrite list_lookup_alter_eq, Hj. simpl. rewrite (proj2 (Z.ltb_ge _ _)) by lia.
    rewrite <- (IH i Hi). f_equal. apply list_eq. intros i'.
    destruct (decide (i' = dim)) as [->|Hne].
    + rewrite !list_lookup_alter_eq, Hj. simpl. f_equal. lia.
    + by rewrite !list_lookup_alter_ne.
Qed.

#[export] Instance ftensor_laws : TensorLaws (ftensor V) V.
Proof.
  split; simpl.
  - intros t dim a b n -> Hab Hb. rewrite bool_decide_eq_true_2 by done. by eexists.
  - intros t ts dim Hdim Hag Hnn.
    rewrite (proj2 (forallb_forall _ ts)).
    2:{ intros t' Ht'. apply same_but_spec. apply (proj1 (list.Forall_forall _ _) Hag).
        by apply list_elem_of_In. }
    eexists. split; [done|]. split; [done|]. intros i t' idx Hi Hidx.
    apply (cat_data_spec (t :: ts)); [done|done|done|].
    pose proof (list_elem_of_lookup_2 _ _ _ Hi) as Ht'. apply elem_of_cons in Ht' as [->|Ht']; [done|].
    destruct (proj1 (list.Forall_forall _ _) Hag _ Ht') as [Hl _]. by rewrite <- Hl.
  - intros shape v Hs. rewrite (proj2 (forallb_forall _ shape)); [by eexists|].
    intros n Hn. apply Z.leb_le. apply (proj1 (list.Forall_forall _ _) Hs). by apply list_elem_of_In.
  - intros dst slices src Hbig _. eexists. split; [done|]. split; [done|]. intros idx _. simpl.
    split; intros; by case_decide.
Qed.
End ftensor.

(** ** Examples: a 5-row batch in micro-batches of two *)

Definition demo_env : environ := λ name,
  if bool_decide (name = ENV_ENABLE_MICROBATCH) then Some "1"%string
  else if bool_decide (name = ENV_MICRO_BATCH_SIZE) then Some " 2 "%string else None.

Definition demo_tensor (rows cols : Z) : ftensor Z :=
  mkFtensor [rows; cols] (λ idx, foldl (λ acc i, 10 * acc + i) 0 idx).

Lemma ranges_partition_witness :
  compute_micro_batch_ranges demo_env 5 = [(0, 2); (2, 4); (4, 5)] ∧
  zlen (compute_micro_batch_ranges demo_env 5) = resolve_expected_num_microbatches demo_env 5 None None.
Proof. split; [by vm_compute|]. destruct (ranges_partition demo_env 5) as (_ & Hl & _); [lia|exact Hl]. Defined.

Lemma split_merge_roundtrip_witness :
  ∃ chunks r, split_tensor_to_microbatches demo_env (Some (demo_tensor 5 3)) 0 = Ok chunks ∧
    merge_microbatch_outputs 0 chunks 0 = Ok (Some r) ∧ length chunks = 3%nat ∧ t_get r [3; 2] = 32.
Proof.
  destruct (split_merge_roundtrip demo_env 0 (demo_tensor 5 3) 0 5)
    as (chunks & r & Hs & Hm & Hsh & Hget); [reflexivity|].
  exists chunks, r. split; [exact Hs|]. split; [exact Hm|]. split.
  - vm_compute in Hs. by injection Hs as <-.
  - rewrite Hget; [done|]. apply (bool_decide_unpack _). by vm_compute.
Defined.

Lemma merge_pads_witness :
  ∃ r, merge_microbatch_outputs (-1) [Some (demo_tensor 2 3); Some (demo_tensor 1 2)] 0 = Ok (Some r) ∧
    t_get r [2; 1] = 1 ∧ t_get r [2; 2] = -1.
Proof.
  destruct (merge_pads (-1) (demo_tensor 2 3) [demo_tensor 1 2] 0) as (r & Hr & Hlen & Hdim & Hax & Hget);
    [done|simpl; lia|by repeat constructor|repeat constructor; lia|].
  exists r. split; [exact Hr|].
  destruct (Hget 1%nat (demo_tensor 1 2) [0; 1]) as [H1 _]; [reflexivity|].
  destruct (Hget 1%nat (demo_tensor 1 2) [0; 2]) as [_ H2]; [reflexivity|]. split.
  - apply H1. apply (bool_decide_unpack _). by vm_compute.
  - apply H2.
    + apply (bool_decide_unpack _). by vm_compute.
    + intros j m [= <-] [= <-]. lia.
    + clear -Hr. vm_compute in Hr. injection Hr as <-. apply (bool_decide_unpack _). by vm_compute.
Defined.
