(* ===== verification/KVCacheManager.v ===== *)
(** * The KV cache manager (server/memory_cache_manager.py)

    The parts of [KVCacheManager] that are pure or touch only the allocator's tables:
    where a micro-batch lives in the cache slab, how many source rows a batch item
    has, the hooks that mirror writes, rollbacks and commits into the paged tables,
    and the copy of a shared prefix from one handle's slab to another's. *)

From stdpp Require Import numbers base strings list.
From Stdlib Require Import ZArith Lia.
From S2P Require Import Prelude Dict Torch PagedKV PyStr Microbatch.

(** ** Working slots *)

Record policy := mkPolicy {
  gpu_batch_size : Z;
  num_gpu_batches : Z;
  cache_gpu_percent : Z;
  cache_cpu_percent : Z;
  cache_disk_percent : Z;
  compress_cache : bool;
}.

Definition get_working_slot_batch_size (p : policy) : Z := Z.max 1 (gpu_batch_size p).

Definition get_working_slot_count (p : policy) (cache_batch_capacity : Z) : Z :=
  let configured_slots := Z.max 1 (num_gpu_batches p) in
  let slot_batch_size := get_working_slot_batch_size p in
  if cache_batch_capacity <=? 0 then 1
  else
    let actual_slots := Z.max 1 ((cache_batch_capacity + slot_batch_size - 1) / slot_batch_size) in
    Z.max 1 (Z.min configured_slots actual_slots).

(** [(working_slot, slot_batch_start, active_batch_size, slot_batch_capacity)] *)
Definition resolve_working_slot (p : policy) (mb_index cache_batch_capacity : Z)
    (actual_batch_size : option Z) : Z * Z * Z * Z :=
  let slot_batch_size := get_working_slot_batch_size p in
  let slot_count := get_working_slot_count p cache_batch_capacity in
  let working_slot := Z.max 0 mb_index mod slot_count in
  let slot_batch_start := working_slot * slot_batch_size in
  let slot_batch_capacity := Z.max 0 (Z.min slot_batch_size (cache_batch_capacity - slot_batch_start)) in
  let active_batch_size :=
    match actual_batch_size with
    | Some n => if n <=? 0 then slot_batch_capacity else Z.min n slot_batch_capacity
    | None => slot_batch_capacity
    end in
  (working_slot, slot_batch_start, active_batch_size, slot_batch_capacity).

(** [num_key_value_heads] and [num_key_value_groups] of the block's configuration. *)
Record block_config := mkBlockConfig {
  num_key_value_heads : option Z;
  num_key_value_groups : option Z;
  hidden_size : Z;
}.

Definition source_heads_per_batch (cfg : block_config)
    (attention_heads source_bh full_batch_size micro_batch_size : Z) : Z :=
  let attention_heads := Z.max 1 attention_heads in
  let by_config :=
    let kv_heads :=
      match num_key_value_heads cfg with
      | Some n => n
      | None =>
          let groups := default 1 (num_key_value_groups cfg) in
          if (1 <? groups) && (attention_heads mod groups =? 0) then attention_heads / groups
          else attention_heads
      end in
    if (0 <? kv_heads) && (kv_heads <=? attention_heads) && (source_bh mod kv_heads =? 0)
    then kv_heads else attention_heads in
  if (0 <? full_batch_size) && (0 <? micro_batch_size) && (source_bh mod micro_batch_size =? 0) then
    let heads := source_bh / micro_batch_size in
    if (0 <? heads) && (heads <=? attention_heads) then heads else by_config
  else by_config.

Definition compute_microbatch_index (p : policy) (batch_offset : Z)
    (micro_batch_size full_batch_size : option Z) : Z :=
  let policy_mb := Z.max 1 (gpu_batch_size p) in
  let runtime_mb :=
    match micro_batch_size with Some n => if 0 <? n then n else policy_mb | None => policy_mb end in
  let total_b := default 0 full_batch_size in
  let is_expected_tail_mb :=
    (0 <? total_b) && (runtime_mb <? policy_mb) && (0 <=? batch_offset)
    && (batch_offset + runtime_mb =? total_b) in
  let use_policy_mapping := (runtime_mb =? policy_mb) || is_expected_tail_mb in
  let configured_mb := if use_policy_mapping then policy_mb else runtime_mb in
  Z.max 0 (batch_offset / Z.max 1 configured_mb).

(** [get_cache_device]: which device holds the cache, and whether compressed. *)
Inductive cache_device := DevGpu | DevCpu | DevDisk | DevMixed | DevCompressed (d : cache_device).

Definition get_cache_device (p : policy) : res cache_device :=
  let device :=
    if cache_gpu_percent p =? 100 then DevGpu
    else if cache_cpu_percent p =? 100 then DevCpu
    else if cache_disk_percent p =? 100 then DevDisk
    else DevMixed in
  if compress_cache p
  then match device with DevMixed => Raise AssertionError | _ => Ok (DevCompressed device) end
  else Ok device.

(** [torch.float16] takes two bytes. *)
Definition size_per_token (cfg : block_config) : res Z :=
  match num_key_value_groups cfg with
  | None => Raise TypeError
  | Some g => if g =? 0 then Raise ZeroDivisionError else Ok (2 * hidden_size cfg / g * 2)
  end.

(** ** The paged-table hooks

    [tables] are the distinct table objects aliased onto the active cache; each hook
    mutates them in place and swallows the exceptions of a sequence's update. *)

Section hooks.
Context {T V : Type} `{!Slab T V}.
Notation Table := (PagedKVTable T).

(** [_infer_seq_ids_and_tokens] of a key of that shape; [[], 0] on any failure. *)
Definition infer_seq_ids_and_tokens (cfg : block_config) (attention_heads : Z) (key_shape : list Z)
    : list Z * Z :=
  match key_shape with
  | [bh; _; s_new] =>
      let h := if attention_heads =? 0 then 32 else attention_heads in
      let source_heads := source_heads_per_batch cfg h bh 0 0 in
      if (source_heads <=? 0) || negb (bh mod source_heads =? 0) then ([], 0)
      else (py_range 0 (bh / source_heads), s_new)
  | _ => ([], 0)
  end.

Definition track_table (seq_ids : list Z) (start_position s_new : Z) (commit : bool) (t : Table) : Table :=
  foldl (λ t seq_id, fst (track_write seq_id start_position s_new commit t)) t seq_ids.

Definition track_paged_write (enabled : bool) (seq_ids : list Z) (s_new start_position : Z) (commit : bool)
    (tables : list Table) : list Table :=
  if negb enabled then tables
  else if (s_new <=? 0) || bool_decide (seq_ids = []) then tables
  else track_table seq_ids start_position s_new commit <$> tables.

(** One sequence of [_rollback_paged_to]. *)
Definition rollback_seq (l_acc_target seq_id : Z) : M Table unit :=
  current_acc ← get_l_acc seq_id;
  let target := Z.min l_acc_target current_acc in
  let target := if target <? 0 then 0 else target in
  rollback seq_id target.

Definition rollback_table (l_acc_target : Z) (t : Table) : Table :=
  foldl (λ t seq_id, fst (rollback_seq l_acc_target seq_id t)) t (dict_keys (seqs t)).

Definition rollback_paged_to (enabled : bool) (l_acc_target : Z) (tables : list Table) : list Table :=
  if negb enabled then tables else rollback_table l_acc_target <$> tables.

(** One sequence of [_commit_paged_to]. *)
Definition commit_seq (l_acc_target seq_id : Z) : M Table unit :=
  current_seq ← get_l_seq seq_id;
  commit seq_id (Some (Z.min l_acc_target current_seq)).

Definition commit_table (l_acc_target : Z) (t : Table) : Table :=
  foldl (λ t seq_id, fst (commit_seq l_acc_target seq_id t)) t (dict_keys (seqs t)).

Definition commit_paged_to (enabled : bool) (l_acc_target : Z) (tables : list Table) : list Table :=
  if negb enabled then tables else commit_table l_acc_target <$> tables.

(** ** Copying a prefix between handles *)

(** The allocator's tensors by handle; [None] where the slab is not a plain tensor. *)
Definition slabs : Type := dict Z (option T * option T).

Definition shape_at (t : T) (axis : nat) : Z := default 0 (slab_shape t !! axis).

Definition normalize_bh_slice (value : Z * Z) (max_bh : Z) : res (Z * Z) :=
  if (value.1 <? 0) || (value.2 <=? value.1) then Raise ValueError
  else if max_bh <? value.2 then Raise ValueError
  else Ok value.

(** The two slices the arguments stand for. *)
Definition resolve_slices (src_k dst_k : T) (bh_slice source_bh_slice destination_bh_slice : option (Z * Z))
    : res ((Z * Z) * (Z * Z)) :=
  let shared_bh_limit := Z.min (shape_at src_k 1) (shape_at dst_k 1) in
  match source_bh_slice, destination_bh_slice with
  | None, None =>
      match bh_slice with
      | None => Ok ((0, shared_bh_limit), (0, shared_bh_limit))
      | Some s => sl ← normalize_bh_slice s shared_bh_limit; Ok (sl, sl)
      end
  | Some s, Some d =>
      match bh_slice with
      | Some _ => Raise ValueError
      | None =>
          source_slice ← normalize_bh_slice s (shape_at src_k 1);
          destination_slice ← normalize_bh_slice d (shape_at dst_k 1);
          if negb (source_slice.2 - source_slice.1 =? destination_slice.2 - destination_slice.1)
          then Raise ValueError else Ok (source_slice, destination_slice)
      end
  | _, _ => Raise ValueError
  end.

(** [t[:n, a:b].detach().clone()] *)
Definition clone_prefix (t : T) (n : Z) (sl : Z * Z) : res T :=
  buf ← (slab_empty [n; sl.2 - sl.1; shape_at t 2] : res T);
  slab_extract buf (0, n) t (0, n) sl.

Record copy_report := mkCopyReport {
  server_recovered_prefix_token_count : Z;
  cache_write_destination_bh_slice : Z * Z;
  cache_read_source_bh_slice : Z * Z;
}.

(** The checks of [copy_prefix_from_handle], in the order of the code. *)
Definition copy_checks (source_handle destination_handle prefix_length : Z)
    (bh_slice source_bh_slice destination_bh_slice : option (Z * Z)) (store : slabs)
    : res (T * T * T * T * (Z * Z) * (Z * Z)) :=
  if prefix_length <=? 0 then Raise ValueError
  else
    src ← of_option KeyError (dict_get store source_handle);
    dst ← of_option KeyError (dict_get store destination_handle);
    src_k ← of_option TypeError src.1;
    src_v ← of_option TypeError src.2;
    dst_k ← of_option TypeError dst.1;
    dst_v ← of_option TypeError dst.2;
    if negb (forallb (λ t : T, zlen (slab_shape t) =? 3) [src_k; src_v; dst_k; dst_v]) then Raise ValueError
    else if negb (bool_decide (slab_shape src_k = slab_shape src_v))
            || negb (bool_decide (slab_shape dst_k = slab_shape dst_v)) then Raise ValueError
    else if negb (shape_at src_k 2 =? shape_at dst_k 2) then Raise ValueError
    else if (shape_at src_k 0 <? prefix_length) || (shape_at dst_k 0 <? prefix_length) then Raise ValueError
    else
      '(source_slice, destination_slice) ←
        resolve_slices src_k dst_k bh_slice source_bh_slice destination_bh_slice;
      if (source_handle =? destination_handle)
         && negb ((source_slice.2 <=? destination_slice.1) || (destination_slice.2 <=? source_slice.1))
      then Raise ValueError
      else Ok (src_k, src_v, dst_k, dst_v, source_slice, destination_slice).

Definition copy_prefix_from_handle (source_handle destination_handle prefix_length : Z)
    (bh_slice source_bh_slice destination_bh_slice : option (Z * Z)) : M slabs copy_report :=
  store ← get;
  '(src_k, src_v, dst_k, dst_v, source_slice, destination_slice) ←
    lift (copy_checks source_handle destination_handle prefix_length bh_slice source_bh_slice
            destination_bh_slice store);
  src_k_prefix ← lift (clone_prefix src_k prefix_length source_slice);
  src_v_prefix ← lift (clone_prefix src_v prefix_length source_slice);
  dst_k' ← lift (slab_assign dst_k (0, prefix_length) destination_slice src_k_prefix (0, prefix_length));
  modify (λ st, dict_set st destination_handle (Some dst_k', Some dst_v)) ;;
  dst_v' ← lift (slab_assign dst_v (0, prefix_length) destination_slice src_v_prefix (0, prefix_length));
  modify (λ st, dict_set st destination_handle (Some dst_k', Some dst_v')) ;;
  mret (mkCopyReport prefix_length destination_slice source_slice).
End hooks.
Arguments slabs T : clear implicits.

(** ** Slots and indices: proofs *)

Lemma working_slot_bounds p cap :
  0 < cap → let size := get_working_slot_batch_size p in let count := get_working_slot_count p cap in
  0 < size ∧ 0 < count ∧ (count - 1) * size < cap.
Proof.
  intros Hcap size count. assert (0 < size) as Hs by (unfold size, get_working_slot_batch_size; lia).
  unfold count, get_working_slot_count. rewrite (proj2 (Z.leb_gt _ _)) by done. fold size.
  set (actual := (cap + size - 1) / size).
  assert (1 ≤ actual) as H1 by (apply Z.div_le_lower_bound; lia).
  assert ((actual - 1) * size < cap) as H2.
  { unfold actual. pose proof (Z.div_mod (cap + size - 1) size ltac:(lia)).
    pose proof (Z.mod_pos_bound (cap + size - 1) size Hs). nia. }
  split; [done|]. split; [lia|]. nia.
Qed.

(** Slot placement. On a cache with room, every micro-batch index is placed in a
    slot whose rows lie inside the cache, has at least one row and never more active
    rows than the slot holds; two micro-batches share rows only by sharing the slot. *)
Lemma slots_disjoint p mb1 mb2 cap actual :
  0 < cap →
  let '(slot1, start1, active1, rows1) := resolve_working_slot p mb1 cap actual in
  let '(slot2, start2, active2, rows2) := resolve_working_slot p mb2 cap actual in
  0 ≤ slot1 < get_working_slot_count p cap ∧ 0 ≤ start1 ∧ 0 < active1 ≤ rows1 ∧ start1 + rows1 ≤ cap ∧
  (slot1 = slot2 ∨ start1 + rows1 ≤ start2 ∨ start2 + rows2 ≤ start1) ∧
  (0 ≤ mb1 → 0 ≤ mb2 → mb1 mod get_working_slot_count p cap = mb2 mod get_working_slot_count p cap ↔
   slot1 = slot2).
Proof.
  intros Hcap. unfold resolve_working_slot. destruct (working_slot_bounds p cap Hcap) as (Hs & Hc & Hl).
  set (size := get_working_slot_batch_size p) in *. set (count := get_working_slot_count p cap) in *.
  pose proof (Z.mod_pos_bound (Z.max 0 mb1) count Hc). pose proof (Z.mod_pos_bound (Z.max 0 mb2) count Hc).
  set (s1 := Z.max 0 mb1 mod count) in *. set (s2 := Z.max 0 mb2 mod count) in *. cbv zeta.
  assert (0 < Z.max 0 (Z.min size (cap - s1 * size))) by nia.
  split; [done|]. split; [nia|]. split.
  { destruct actual as [n|]; [|lia]. destruct (Z.leb_spec n 0); lia. }
  split; [nia|]. split.
  - destruct (Z.lt_total s1 s2) as [?|[?|?]]; [right; left|by left|right; right]; nia.
  - intros ? ?. unfold s1, s2. by rewrite !Z.max_r by done.
Qed.

Lemma ranges_from_lookup fuel mbs B start k a b :
  0 < mbs → ranges_from fuel mbs B start !! k = Some (a, b) →
  a = start + Z.of_nat k * mbs ∧ b = Z.min (a + mbs) B ∧ a < B.
Proof.
  intros Hm. revert start k. induction fuel as [|fuel IH]; intros start k; cbn [ranges_from];
    (destruct (Z.ltb_spec start B); [|done]); [done|].
  destruct k as [|k]; simpl.
  - intros [= <- <-]. lia.
  - intros (Ha & Hb & HB)%IH.
    destruct (Z.le_ge_cases B (start + mbs)) as [Hle|Hge].
    + rewrite Z.min_r in Ha by lia. lia.
    + rewrite Z.min_l in Ha by lia. lia.
Qed.

(** Micro-batch indices agree with the split. When the policy's batch size is the
    configured micro-batch size, the cache maps the [k]-th range of a split batch, the
    shorter last one included, to index [k]. *)
Lemma microbatch_index_of_range env p B k a b :
  0 < get_micro_batch_size env → gpu_batch_size p = get_micro_batch_size env →
  compute_micro_batch_ranges env B !! k = Some (a, b) →
  compute_microbatch_index p a (Some (b - a)) (Some B) = Z.of_nat k.
Proof.
  intros Hm Hp Hk. unfold compute_micro_batch_ranges in Hk.
  destruct (B <=? 0); [done|]. rewrite (proj2 (Z.leb_gt _ _)) in Hk by done.
  set (mbs := get_micro_batch_size env) in *.
  apply ranges_from_lookup in Hk as (Ha & Hb & HB); [|done].
  unfold compute_microbatch_index. rewrite Hp, (Z.max_r 1 mbs) by lia. cbn [default].
  assert (0 <? b - a = true) as -> by (apply Z.ltb_lt; lia).
  assert (a / mbs = Z.of_nat k) as Hdiv by (rewrite Ha, Z.add_0_l; apply Z.div_mul; lia).
  destruct (Z.eqb_spec (b - a) mbs) as [->|Hne]; simpl.
  - rewrite (Z.max_r 1 mbs), Hdiv by lia. lia.
  - assert (a + (b - a) = B) as -> by lia. rewrite Z.eqb_refl, andb_true_r.
    rewrite (proj2 (Z.ltb_lt 0 B)), (proj2 (Z.ltb_lt (b - a) mbs)), (proj2 (Z.leb_le 0 a)) by lia.
    simpl. rewrite (Z.max_r 1 mbs), Hdiv by lia. lia.
Qed.

(** Source heads. The inferred number of source rows per batch item is positive, at
    most the attention heads, and divides the source rows unless it is the fallback,
    the attention heads themselves; a runtime batch that divides the rows into at
    most that many heads is used first. *)
Lemma source_heads_bounds cfg heads bh full mb :
  let r := source_heads_per_batch cfg heads bh full mb in
  0 < r ≤ Z.max 1 heads ∧ (bh mod r = 0 ∨ r = Z.max 1 heads) ∧
  (0 < full → 0 < mb → bh mod mb = 0 → 0 < bh / mb ≤ Z.max 1 heads → r * mb = bh).
Proof.
  cbv zeta. unfold source_heads_per_batch. set (H := Z.max 1 heads). assert (1 ≤ H) by lia.
  set (kv := match num_key_value_heads cfg with Some n => n | None => _ end). clearbody kv.
  match goal with |- context [if ?b then kv else H] => set (byc := if b then kv else H) end.
  assert (0 < byc ≤ H ∧ (bh mod byc = 0 ∨ byc = H)) as [Hb1 Hb2].
  { unfold byc. destruct (_ && _) eqn:E; [|split; [lia|by right]].
    apply andb_true_iff in E as [E E3]. apply andb_true_iff in E as [E1 E2].
    apply Z.ltb_lt in E1. apply Z.leb_le in E2. apply Z.eqb_eq in E3. split; [lia|by left]. }
  clearbody byc. destruct (_ && _) eqn:E.
  - apply andb_true_iff in E as [E E3]. apply andb_true_iff in E as [E1 E2].
    apply Z.ltb_lt in E1, E2. apply Z.eqb_eq in E3. pose proof (Z.div_mod bh mb ltac:(lia)) as Hdm.
    destruct (_ && _) eqn:E4.
    + apply andb_true_iff in E4 as [E4 E5]. apply Z.ltb_lt in E4. apply Z.leb_le in E5.
      split; [lia|]. split; [|intros; lia]. left.
      rewrite Hdm at 1. rewrite E3, Z.add_0_r. apply Z_mod_mult.
    + split; [done|]. split; [done|]. intros _ _ _ Hr. apply andb_false_iff in E4 as [E4|E4];
        [apply Z.ltb_ge in E4|apply Z.leb_gt in E4]; lia.
  - split; [done|]. split; [done|]. intros H1 H2 H3 _. exfalso.
    rewrite (proj2 (Z.ltb_lt 0 full)), (proj2 (Z.ltb_lt 0 mb)), (proj2 (Z.eqb_eq (bh mod mb) 0)) in E by done. done.
Qed.

(** ** The hooks: proofs *)

Section hooks_proofs.
Context {T V : Type} `{!Slab T V, !SlabLaws T V}.
Notation Table := (PagedKVTable T).
Implicit Types (t : Table) (st : SeqState).

Definition rolled (l : Z) st : Z := Z.max 0 (Z.min l (l_acc st)).

Lemma rollback_seq_spec t k st l :
  table_wf t → dict_get (seqs t) k = Some st →
  let t' := fst (rollback_seq l k t) in
  table_wf t' ∧ (∃ st', dict_get (seqs t') k = Some st' ∧ l_acc st' = rolled l st ∧ l_seq st' = rolled l st) ∧
  ∀ k', k' ≠ k → dict_get (seqs t') k' = dict_get (seqs t) k'.
Proof.
  intros Hwf Hk t'. unfold t', rollback_seq, get_l_acc.
  assert (seq_wf (block_size t) st) as [? ?] by exact (Forall_dict_get _ _ _ _ (wf_seqs _ Hwf) Hk).
  rewrite (bind_ok _ _ t t (l_acc st)) by (by rewrite (bind_ok _ _ _ _ _ (get_seq_run _ _ _ Hk))). cbv zeta.
  assert ((if Z.min l (l_acc st) <? 0 then 0 else Z.min l (l_acc st)) = rolled l st) as ->.
  { unfold rolled. destruct (Z.ltb_spec (Z.min l (l_acc st)) 0); lia. }
  pose proof (rollback_spec t k st (rolled l st) Hwf Hk) as Hr.
  rewrite bool_decide_eq_true_2 in Hr by (unfold rolled; lia).
  destruct Hr as (t1 & -> & [Hwf1 Hk1 Hoth _ _ _ _ _]). simpl. split; [done|].
  split; [by eexists|]. intros k' Hne. by apply Hoth.
Qed.

Lemma commit_seq_spec t k st l :
  table_wf t → dict_get (seqs t) k = Some st →
  let t' := fst (commit_seq l k t) in
  table_wf t' ∧ (∃ st', dict_get (seqs t') k = Some st' ∧
    l_acc st' = Z.max (l_acc st) (Z.min l (l_seq st)) ∧ l_seq st' = l_seq st) ∧
  ∀ k', k' ≠ k → dict_get (seqs t') k' = dict_get (seqs t) k'.
Proof.
  intros Hwf Hk t'. split.
  { unfold t', commit_seq, get_l_seq.
    rewrite (bind_ok _ _ t t (l_seq st)) by (by rewrite (bind_ok _ _ _ _ _ (get_seq_run _ _ _ Hk))).
    by apply commit_preserves. }
  unfold t', commit_seq, get_l_seq.
  rewrite (bind_ok _ _ t t (l_seq st)) by (by rewrite (bind_ok _ _ _ _ _ (get_seq_run _ _ _ Hk))).
  unfold commit. rewrite (bind_ok _ _ _ _ _ (get_seq_run _ _ _ Hk)). simpl.
  rewrite (proj2 (Z.ltb_ge (l_seq st) _)) by lia.
  destruct (Z.ltb_spec (l_acc st) (Z.min l (l_seq st))); simpl.
  - split; [eexists; split; [apply dict_get_set_eq|simpl; lia]|]. intros k' Hne. by apply dict_get_set_ne.
  - split; [exists st; split; [done|lia]|done].
Qed.

(** Updating every sequence once, whatever the update. *)
Lemma fold_seqs_spec (f : Z → Table → Table) (P : SeqState → SeqState → Prop) ks t :
  (∀ t k st, table_wf t → dict_get (seqs t) k = Some st →
     table_wf (f k t) ∧ (∃ st', dict_get (seqs (f k t)) k = Some st' ∧ P st st') ∧
     ∀ k', k' ≠ k → dict_get (seqs (f k t)) k' = dict_get (seqs t) k') →
  table_wf t → NoDup ks → (∀ k, k ∈ ks → is_Some (dict_get (seqs t) k)) →
  let t' := foldl (λ t k, f k t) t ks in
  table_wf t' ∧
  (∀ k st, k ∈ ks → dict_get (seqs t) k = Some st → ∃ st', dict_get (seqs t') k = Some st' ∧ P st st') ∧
  (∀ k, k ∉ ks → dict_get (seqs t') k = dict_get (seqs t) k).
Proof.
  intros Hf. revert t. induction ks as [|k ks IH]; intros t Hwf Hnd Hin; simpl.
  { split; [done|]. split; [by intros ? ? ?%not_elem_of_nil|done]. }
  apply NoDup_cons in Hnd as [Hk Hnd]. destruct (Hin k) as [st Hst]; [by left|].
  destruct (Hf t k st Hwf Hst) as (Hwf1 & (st1 & Hst1 & HP) & Hoth).
  destruct (IH (f k t) Hwf1 Hnd) as (Hwf' & Hks & Hnks).
  { intros k' Hk'. rewrite Hoth; [apply Hin; by right|]. by intros ->. }
  split; [done|]. split.
  - intros k' st' [->|Hk']%elem_of_cons Hst'.
    + rewrite Hnks by done. exists st1. split; [done|]. congruence.
    + apply Hks; [done|]. rewrite Hoth; [done|]. by intros ->.
  - intros k' [Hne Hk']%not_elem_of_cons. rewrite Hnks by done. by apply Hoth.
Qed.

Lemma dict_get_keys t k st : dict_get (seqs t) k = Some st → k ∈ dict_keys (seqs t).
Proof. intros H%dict_elem_get. apply list_elem_of_fmap. by exists (k, st). Qed.

Lemma keys_get t k : k ∈ dict_keys (seqs t) → is_Some (dict_get (seqs t) k).
Proof.
  intros Hin. destruct (dict_get (seqs t) k) eqn:E; [by eexists|]. by apply dict_get_None in E.
Qed.

(** ** Copying a prefix: proofs *)

Lemma shape3 (t : T) w : zlen (slab_shape t) = 3 → slab_shape t = w → w = [shape_at t 0; shape_at t 1; shape_at t 2].
Proof.
  intros Hl Hw. unfold shape_at. rewrite Hw in *. destruct w as [|a [|b [|c [|? ?]]]]; unfold zlen in Hl; simpl in Hl; lia || done.
Qed.

Lemma clone_prefix_spec (t : T) n sl :
  zlen (slab_shape t) = 3 → 0 ≤ n ≤ shape_at t 0 → 0 ≤ sl.1 ≤ sl.2 → sl.2 ≤ shape_at t 1 → 0 ≤ shape_at t 2 →
  ∃ c, clone_prefix t n sl = Ok c ∧ slab_shape c = [n; sl.2 - sl.1; shape_at t 2] ∧
    ∀ r b d, 0 ≤ r < n → 0 ≤ b < sl.2 - sl.1 → 0 ≤ d < shape_at t 2 →
      slab_get c r b d = slab_get t r (sl.1 + b) d.
Proof.
  intros Hl Hn Hs Hb Hd. unfold clone_prefix.
  destruct (slab_empty_spec (T := T) [n; sl.2 - sl.1; shape_at t 2]) as (buf & -> & Hbuf);
    [repeat constructor; lia|]. simpl. destruct sl as [a b]. simpl in *.
  destruct (slab_extract_spec buf 0 n t 0 n a b (shape_at t 0) (shape_at t 1) (shape_at t 2) n)
    as (c & -> & Hc & Hget); [by apply (shape3 t)|done|lia..|].
  exists c. split; [done|]. split; [congruence|]. intros r j d Hr Hj Hdd.
  rewrite Hget, bool_decide_eq_true_2 by lia. f_equal. lia.
Qed.

Record copy_ok (store : slabs T) (src dst n : Z) (src_k src_v dst_k dst_v : T) (ss ds : Z * Z) : Prop := {
  co_src : dict_get store src = Some (Some src_k, Some src_v);
  co_dst : dict_get store dst = Some (Some dst_k, Some dst_v);
  co_rank : zlen (slab_shape src_k) = 3 ∧ zlen (slab_shape dst_k) = 3;
  co_same : slab_shape src_k = slab_shape src_v ∧ slab_shape dst_k = slab_shape dst_v;
  co_dim : shape_at src_k 2 = shape_at dst_k 2;
  co_len : 0 < n ≤ shape_at src_k 0 ∧ n ≤ shape_at dst_k 0;
  co_width : ss.2 - ss.1 = ds.2 - ds.1;
  co_disjoint : src = dst → ss.2 ≤ ds.1 ∨ ds.2 ≤ ss.1;
}.

Lemma normalize_bh_slice_Ok v m sl :
  normalize_bh_slice v m = Ok sl → sl = v ∧ 0 ≤ sl.1 < sl.2 ∧ sl.2 ≤ m.
Proof.
  unfold normalize_bh_slice. destruct (_ || _) eqn:E; [done|]. destruct (Z.ltb_spec m v.2); [done|].
  intros [= <-]. apply orb_false_iff in E as [E1 E2]. rewrite Z.ltb_ge in E1. rewrite Z.leb_gt in E2. split; [done|lia].
Qed.

Lemma resolve_slices_Ok (src_k dst_k : T) bh sbh dbh ss ds :
  0 ≤ shape_at src_k 1 → 0 ≤ shape_at dst_k 1 → resolve_slices src_k dst_k bh sbh dbh = Ok (ss, ds) →
  0 ≤ ss.1 ≤ ss.2 ∧ ss.2 ≤ shape_at src_k 1 ∧ 0 ≤ ds.1 ≤ ds.2 ∧ ds.2 ≤ shape_at dst_k 1 ∧
  ss.2 - ss.1 = ds.2 - ds.1.
Proof.
  intros H1 H2. unfold resolve_slices. destruct sbh as [s|], dbh as [d|]; try done.
  - destruct bh; [done|]. destruct (normalize_bh_slice s _) as [s'|] eqn:Es; [|done]. simpl.
    destruct (normalize_bh_slice d _) as [d'|] eqn:Ed; [|done]. simpl.
    destruct (Z.eqb_spec (s'.2 - s'.1) (d'.2 - d'.1)); [|done]. intros [= <- <-].
    apply normalize_bh_slice_Ok in Es as (_ & ? & ?), Ed as (_ & ? & ?). lia.
  - destruct bh as [s|]; [|intros [= <- <-]; simpl; lia].
    destruct (normalize_bh_slice s _) as [s'|] eqn:Es; [|done]. intros [= <- <-].
    apply normalize_bh_slice_Ok in Es as (_ & ? & ?). lia.
Qed.

Lemma copy_checks_get src dst n bh sbh dbh (store : slabs T) sk sv dk dv ss ds :
  copy_checks src dst n bh sbh dbh store = Ok (sk, sv, dk, dv, ss, ds) →
  dict_get store src = Some (Some sk, Some sv) ∧ dict_get store dst = Some (Some dk, Some dv).
Proof.
  unfold copy_checks. destruct (n <=? 0); [done|].
  destruct (dict_get store src) as [[[?|] [?|]]|]; try done;
    destruct (dict_get store dst) as [[[?|] [?|]]|]; try done. simpl.
  do 4 (case_match; [done|]).
  destruct (resolve_slices _ _ _ _ _) as [[? ?]|]; [|done]. simpl. case_match; [done|].
  by intros [= -> -> -> -> _ _].
Qed.

Lemma copy_checks_Ok src dst n bh sbh dbh (store : slabs T) sk sv dk dv ss ds :
  copy_checks src dst n bh sbh dbh store = Ok (sk, sv, dk, dv, ss, ds) →
  Forall (λ x : T, Forall (λ n, 0 ≤ n) (slab_shape x)) [sk; dk] →
  copy_ok store src dst n sk sv dk dv ss ds ∧
  0 ≤ ss.1 ≤ ss.2 ∧ ss.2 ≤ shape_at sk 1 ∧ 0 ≤ ds.1 ≤ ds.2 ∧ ds.2 ≤ shape_at dk 1 ∧ 0 ≤ shape_at sk 2.
Proof.
  unfold copy_checks. destruct (Z.leb_spec n 0); [done|].
  destruct (dict_get store src) as [[sk0 sv0]|] eqn:Es; [|done]. simpl.
  destruct (dict_get store dst) as [[dk0 dv0]|] eqn:Ed; [|done]. simpl.
  destruct sk0 as [sk0|], sv0 as [sv0|], dk0 as [dk0|], dv0 as [dv0|]; try done. simpl.
  destruct (_ && _) eqn:Er; [|done]. simpl.
  destruct (negb _ || negb _) eqn:Esh; [done|].
  destruct (Z.eqb_spec (shape_at sk0 2) (shape_at dk0 2)) as [Hdim|]; [|done]. simpl.
  destruct (_ || _) eqn:El in |- *; [done|].
  destruct (resolve_slices _ _ _ _ _) as [[ss' ds']|] eqn:Esl; [|done]. simpl.
  destruct (_ && _) eqn:Eov in |- *; [done|]. intros [= <- <- <- <- <- <-] HF.
  apply Forall_cons in HF as [Hn1 HF]. apply Forall_cons in HF as [Hn2 _].
  assert (∀ (x : T) i, Forall (λ n, 0 ≤ n) (slab_shape x) → 0 ≤ shape_at x i) as Hnn.
  { intros x i Ht. unfold shape_at. destruct (slab_shape x !! i) eqn:E; [|done].
    by apply (Forall_lookup_1 _ _ _ _ Ht E). }
  apply resolve_slices_Ok in Esl; [|by apply Hnn..].
  rewrite !andb_true_iff in Er. destruct Er as (R1 & R2 & R3 & R4 & _).
  rewrite Z.eqb_eq in R1, R3. apply orb_false_iff in Esh as [S1 S2].
  apply negb_false_iff, bool_decide_eq_true in S1, S2.
  apply orb_false_iff in El as [L1 L2]. rewrite Z.ltb_ge in L1, L2.
  split; [|pose proof (Hnn sk0 2%nat Hn1); lia].
  split; first [done|lia].
Qed.

(** The paged hooks. Rolling a table back to a length leaves every sequence with
    both lengths at the smaller of that length and its committed one (never below
    zero), and committing raises every sequence's committed length to at most its
    logical length and never lowers it; no update raises, sequences come and go
    unchanged, and the page invariant is kept. *)
Lemma paged_hooks t l :
  table_wf t →
  table_wf (rollback_table l t) ∧ table_wf (commit_table l t) ∧
  ∀ k,
    match dict_get (seqs t) k with
    | Some st =>
        (∃ st', dict_get (seqs (rollback_table l t)) k = Some st' ∧
                l_acc st' = rolled l st ∧ l_seq st' = rolled l st) ∧
        (∃ st', dict_get (seqs (commit_table l t)) k = Some st' ∧
                l_acc st' = Z.max (l_acc st) (Z.min l (l_seq st)) ∧ l_seq st' = l_seq st)
    | None =>
        dict_get (seqs (rollback_table l t)) k = None ∧ dict_get (seqs (commit_table l t)) k = None
    end.
Proof.
  intros Hwf. pose proof (wf_keys t Hwf) as Hnd. unfold dict_wf in Hnd.
  destruct (fold_seqs_spec (λ k t, fst (rollback_seq l k t))
              (λ st st', l_acc st' = rolled l st ∧ l_seq st' = rolled l st)
              (dict_keys (seqs t)) t) as (Hr1 & Hr2 & Hr3);
    [intros; by apply rollback_seq_spec|done|done|apply keys_get|].
  destruct (fold_seqs_spec (λ k t, fst (commit_seq l k t))
              (λ st st', l_acc st' = Z.max (l_acc st) (Z.min l (l_seq st)) ∧ l_seq st' = l_seq st)
              (dict_keys (seqs t)) t) as (Hc1 & Hc2 & Hc3);
    [intros; by apply commit_seq_spec|done|done|apply keys_get|].
  split; [done|]. split; [done|]. intros k. destruct (dict_get (seqs t) k) as [st|] eqn:Hk.
  - pose proof (dict_get_keys t k st Hk). split; [by apply Hr2|by apply Hc2].
  - apply dict_get_None in Hk as Hn. split; [by rewrite <- Hk, <- (Hr3 k Hn)|by rewrite <- Hk, <- (Hc3 k Hn)].
Qed.

(** [copy_prefix_from_handle] refuses and leaves the slabs alone, or copies the prefix. *)
Lemma copy_prefix_correct src dst n bh sbh dbh (store : slabs T) :
  (∀ h k v, dict_get store h = Some (Some k, Some v) →
     Forall (λ n, 0 ≤ n) (slab_shape k) ∧ Forall (λ n, 0 ≤ n) (slab_shape v)) →
  match copy_prefix_from_handle src dst n bh sbh dbh store with
  | (store', Raise _) => store' = store
  | (store', Ok rep) =>
      let ss := cache_read_source_bh_slice rep in
      let ds := cache_write_destination_bh_slice rep in
      server_recovered_prefix_token_count rep = n ∧ ss.2 - ss.1 = ds.2 - ds.1 ∧
      (∀ h, h ≠ dst → dict_get store' h = dict_get store h) ∧
      ∃ sk sv dk dv dk' dv',
        dict_get store src = Some (Some sk, Some sv) ∧ dict_get store dst = Some (Some dk, Some dv) ∧
        dict_get store' dst = Some (Some dk', Some dv') ∧
        ∀ r b d, 0 ≤ d < shape_at dk 2 →
          if bool_decide (0 ≤ r < n ∧ ds.1 ≤ b < ds.2)
          then slab_get dk' r b d = slab_get sk r (ss.1 + (b - ds.1)) d ∧
               slab_get dv' r b d = slab_get sv r (ss.1 + (b - ds.1)) d
          else slab_get dk' r b d = slab_get dk r b d ∧ slab_get dv' r b d = slab_get dv r b d
  end.
Proof.
  intros Hnn. unfold copy_prefix_from_handle. rewrite get_bind.
  destruct (copy_checks src dst n bh sbh dbh store) as [[[[[[sk sv] dk] dv] ss] ds]|e] eqn:Hck; [|done].
  rewrite lift_ok_bind.
  destruct (copy_checks_get _ _ _ _ _ _ _ _ _ _ _ _ _ Hck) as [Hsrc Hdst].
  destruct (copy_checks_Ok _ _ _ _ _ _ _ _ _ _ _ _ _ Hck) as (Hok & Hss & Hssb & Hds & Hdsb & Hd0).
  { repeat constructor; [apply (Hnn src _ _ Hsrc)|apply (Hnn dst _ _ Hdst)]. }
  destruct Hok as [_ _ [Hr1 Hr2] [Hs1 Hs2] Hdim [Hn1 Hn2] Hw _].
  assert (∀ i, shape_at sv i = shape_at sk i) as Hsv by (intros; unfold shape_at; by rewrite Hs1).
  assert (∀ i, shape_at dv i = shape_at dk i) as Hdv by (intros; unfold shape_at; by rewrite Hs2).
  destruct (clone_prefix_spec sk n ss) as (ck & Hck1 & Hck2 & Hck3); [done|lia|lia|lia|lia|].
  destruct (clone_prefix_spec sv n ss) as (cv & Hcv1 & Hcv2 & Hcv3);
    [by rewrite <- Hs1|rewrite Hsv; lia|lia|rewrite Hsv; lia|rewrite Hsv; lia|].
  rewrite Hck1, lift_ok_bind, Hcv1, lift_ok_bind. destruct ss as [s1 s2], ds as [d1 d2]. simpl in *.
  destruct (slab_assign_spec dk 0 n d1 d2 ck 0 n (shape_at dk 0) (shape_at dk 1) (shape_at dk 2) n)
    as (dk' & -> & Hgk); [by apply (shape3 dk)|by rewrite Hck2, Hw, Hdim|lia..|].
  rewrite lift_ok_bind, modify_bind.
  destruct (slab_assign_spec dv 0 n d1 d2 cv 0 n (shape_at dk 0) (shape_at dk 1) (shape_at dk 2) n)
    as (dv' & -> & Hgv); [rewrite <- Hs2; by apply (shape3 dk)|by rewrite Hcv2, Hsv, Hw, Hdim|lia..|].
  rewrite lift_ok_bind, modify_bind. simpl. split; [done|]. split; [done|]. split.
  { intros h Hne. by rewrite !dict_get_set_ne. }
  exists sk, sv, dk, dv, dk', dv'. split; [done|]. split; [done|]. split; [apply dict_get_set_eq|].
  intros r b d Hd. rewrite Hgk, Hgv. case_bool_decide as Hin.
  - rewrite !bool_decide_eq_true_2 by lia. rewrite Hck3, Hcv3 by (rewrite ?Hsv; lia).
    split; f_equal; lia.
  - rewrite !bool_decide_eq_false_2 by lia. done.
Qed.

(** A copy that returns was asked for a positive length, and reports the slices it was given. *)
Lemma copy_prefix_slices src dst n sl dl (store store' : slabs T) rep :
  copy_prefix_from_handle src dst n None (Some sl) (Some dl) store = (store', Ok rep) →
  0 < n ∧ cache_read_source_bh_slice rep = sl ∧ cache_write_destination_bh_slice rep = dl.
Proof.
  unfold copy_prefix_from_handle. rewrite get_bind.
  destruct (copy_checks src dst n None (Some sl) (Some dl) store) as [[[[[[sk sv] dk] dv] ss] ds]|e] eqn:Hck; [|done].
  assert (0 < n ∧ ss = sl ∧ ds = dl) as (Hn & -> & ->).
  { clear -Hck. unfold copy_checks in Hck. destruct (Z.leb_spec n 0); [done|]. split; [done|].
    destruct (dict_get store src) as [[[?|] [?|]]|]; try done;
      destruct (dict_get store dst) as [[[?|] [?|]]|]; try done. simpl in Hck.
    do 4 (case_match; [done|]). unfold normalize_bh_slice in Hck.
    repeat (case_match; try done; simpl in Hck). by injection Hck as _ _ _ _ <- <-. }
  rewrite lift_ok_bind. intros E. py_inv. unfold mret, M_ret in E. by injection E as _ <-.
Qed.

(** Prefix copy. [copy_prefix_from_handle] either refuses before touching anything,
    or copies: the first [prefix_length] rows of the destination's slice read as the
    source's slice did, keys and values, all other elements of the destination and
    every other slab are unchanged, even when source and destination are one handle. *)
Lemma copy_prefix_copies src dst n bh sbh dbh (store : slabs T) :
  (∀ h k v, dict_get store h = Some (Some k, Some v) →
     Forall (λ n, 0 ≤ n) (slab_shape k) ∧ Forall (λ n, 0 ≤ n) (slab_shape v)) →
  match copy_prefix_from_handle src dst n bh sbh dbh store with
  | (store', Raise _) => store' = store
  | (store', Ok rep) =>
      let ss := cache_read_source_bh_slice rep in
      let ds := cache_write_destination_bh_slice rep in
      server_recovered_prefix_token_count rep = n ∧ ss.2 - ss.1 = ds.2 - ds.1 ∧
      (∀ h, h ≠ dst → dict_get store' h = dict_get store h) ∧
      ∃ sk sv dk dv dk' dv',
        dict_get store src = Some (Some sk, Some sv) ∧ dict_get store dst = Some (Some dk, Some dv) ∧
        dict_get store' dst = Some (Some dk', Some dv') ∧
        ∀ r b d, 0 ≤ d < shape_at dk 2 →
          if bool_decide (0 ≤ r < n ∧ ds.1 ≤ b < ds.2)
          then slab_get dk' r b d = slab_get sk r (ss.1 + (b - ds.1)) d ∧
               slab_get dv' r b d = slab_get sv r (ss.1 + (b - ds.1)) d
          else slab_get dk' r b d = slab_get dk r b d ∧ slab_get dv' r b d = slab_get dv r b d
  end.
Proof. apply copy_prefix_correct. Qed.
End hooks_proofs.

(** ** Examples *)

Definition demo_policy : policy := mkPolicy 2 2 100 0 0 false.

Lemma slots_disjoint_witness :
  resolve_working_slot demo_policy 0 3 None = (0, 0, 2, 2) ∧
  resolve_working_slot demo_policy 1 3 None = (1, 2, 1, 1) ∧ 0 < 3 ∧ 2 + 1 ≤ 3.
Proof.
  pose proof (slots_disjoint demo_policy 1 0 3 None ltac:(lia)) as H.
  split; [reflexivity|]. split; [reflexivity|]. split; [lia|].
  vm_compute resolve_working_slot in H. by destruct H as (_ & _ & _ & Hb & _).
Defined.

Lemma microbatch_index_of_range_witness :
  compute_microbatch_index demo_policy 4 (Some 1) (Some 5) = 2.
Proof. apply (microbatch_index_of_range demo_env demo_policy 5 2 4 5); [reflexivity|reflexivity|reflexivity]. Defined.

Lemma paged_hooks_witness :
  ∃ st', dict_get (seqs (rollback_table 3 demo_table)) 7 = Some st' ∧ l_acc st' = 3.
Proof.
  destruct (paged_hooks demo_table 3 demo_table_wf) as (_ & _ & Hk). specialize (Hk 7). simpl in Hk.
  destruct Hk as [(st' & Hst & Hacc & _) _]. exists st'. split; [exact Hst|]. rewrite Hacc. reflexivity.
Defined.

Definition demo_store : slabs (fslab Z) :=
  [(1, (Some (mkFslab [4; 2; 1] (λ r b _, 10 * r + b)), Some (mkFslab [4; 2; 1] (λ r b _, 10 * r + b))));
   (2, (Some (mkFslab [4; 2; 1] (λ _ _ _, -1)), Some (mkFslab [4; 2; 1] (λ _ _ _, -1))))].

Lemma copy_prefix_copies_witness :
  ∃ store' rep, copy_prefix_from_handle 1 2 3 None (Some (1, 2)) (Some (0, 1)) demo_store = (store', Ok rep) ∧
    ∃ dk' dv', dict_get store' 2 = Some (Some dk', Some dv') ∧ slab_get dk' 2 0 0 = 21.
Proof.
  pose proof (copy_prefix_copies 1 2 3 None (Some (1, 2)) (Some (0, 1)) demo_store) as H.
  destruct (copy_prefix_from_handle 1 2 3 None (Some (1, 2)) (Some (0, 1)) demo_store) as [store' [rep|e]] eqn:E.
  - destruct H as (_ & _ & _ & sk & sv & dk & dv & dk' & dv' & Hs & Hd & Hd' & Hget).
    { intros h k v Hh. unfold demo_store in Hh. simpl in Hh. repeat case_decide; simplify_eq; split; repeat constructor; lia. }
    exists store', rep. split; [done|]. exists dk', dv'. split; [done|].
    injection Hs as <- <-. injection Hd as <- <-.
    assert (cache_write_destination_bh_slice rep = (0, 1) ∧ cache_read_source_bh_slice rep = (1, 2)) as [Hw Hr].
    { clear -E. unfold copy_prefix_from_handle in E. vm_compute in E. by injection E as _ <-. }
    specialize (Hget 2 0 0 ltac:(unfold shape_at; simpl; lia)). rewrite Hw, Hr in Hget.
    rewrite bool_decide_eq_true_2 in Hget by (simpl; lia). destruct Hget as [-> _]. reflexivity.
  - exfalso. vm_compute in E. done.
Defined.
