(* ===== verification/SwarmInfo.v ===== *)
(** * Who serves which block (data_structures.py, utils/dht.py,
    client/routing/sequence_info.py)

    Servers announce their blocks in the DHT; the client turns the announcements of
    consecutive blocks into one span per server, lists the spans by length, and by the
    blocks they contain. [RemoteModuleInfo] objects are shared between a sequence and
    its slices, so they live in a store and a sequence holds their addresses. hivemind's
    peer ids and the validation of an announcement (pydantic) are parameters. *)

From stdpp Require Import numbers base sets strings pretty list.
From Stdlib Require Import ZArith Ascii Lia ZifyBool SpecFloat.
From S2P Require Import Prelude Dict PySort PyStr Floats.

(** ** Data structures (data_structures.py) *)

(** What the code uses of hivemind's [PeerID]. *)
Class PeerIds (P : Type) := {
  peer_eq_dec :: EqDecision P;
  peer_ltb : P → P → bool;
  from_base58 : string → res P;
  to_base58 : P → string;
}.

(** [uid.split(UID_DELIMITER)] into exactly two parts, the second an integer. *)
Definition parse_uid (uid : string) : res (string * Z) :=
  if existsb (Ascii.eqb " ") (String.list_ascii_of_string uid) then Raise AssertionError
  else
    match py_split "." uid with
    | [dht_prefix; index] => i ← of_option ValueError (py_int index); mret (dht_prefix, i)
    | _ => Raise ValueError
    end.

Example parse_uid_ex : parse_uid "bloom.4" = Ok ("bloom"%string, 4) ∧ parse_uid "bloom.h.4" = Raise ValueError.
Proof. split; reflexivity. Qed.

Inductive ServerState := OFFLINE | JOINING | ONLINE.

#[export] Instance server_state_eq_dec : EqDecision ServerState.
Proof. solve_decision. Defined.

Definition state_value (s : ServerState) : Z :=
  match s with OFFLINE => 0 | JOINING => 1 | ONLINE => 2 end.

Record ServerInfo := mkServerInfo {
  state : ServerState;
  throughput : float;
  start_block : option Z;
  end_block : option Z;
  public_name : option string;
  version : option string;
  network_rps : option float;
  forward_rps : option float;
  inference_rps : option float;
  adapters : list string;
  torch_dtype : option string;
  quant_type : option string;
  using_relay : option bool;
  cache_tokens_left : option Z;
  next_pings : option (dict string float);
}.

(** What pydantic has checked of a [ServerInfo]: block numbers and token counts are
    not negative, rates are finite and not negative (zero is accepted). *)
Definition RPS (x : float) : bool := fleb (S754_zero false) x && fltb x float_inf.
Definition info_valid (i : ServerInfo) : bool :=
  RPS (throughput i) &&
  forallb (λ o, match o with Some n => 0 <=? n | None => true end) [start_block i; end_block i; cache_tokens_left i] &&
  forallb (λ o, match o with Some x => RPS x | None => true end) [network_rps i; forward_rps i; inference_rps i] &&
  match next_pings i with Some d => forallb (λ kv, fleb (S754_zero false) kv.2) d | None => true end.

Record RemoteModuleInfo (P : Type) := mkModule { uid : string; servers : dict P ServerInfo }.
Arguments mkModule {P} _ _.
Arguments uid {P} _.
Arguments servers {P} _.

Record RemoteSpanInfo (P : Type) := mkSpan { peer_id : P; start : Z; end_ : Z; server_info : ServerInfo }.
Arguments mkSpan {P} _ _ _ _.
Arguments peer_id {P} _.
Arguments start {P} _.
Arguments end_ {P} _.
Arguments server_info {P} _.

Section swarm.
Context {P : Type} `{PeerIds P}.
Implicit Types (p : P) (si : ServerInfo) (sp : RemoteSpanInfo P) (m : RemoteModuleInfo P).

(** The properties [length] and [state] of a span. *)
Definition span_length sp : Z := end_ sp - start sp.
Definition span_state sp : ServerState := state (server_info sp).
Definition set_end sp (e : Z) : RemoteSpanInfo P := mkSpan (peer_id sp) (start sp) e (server_info sp).

(** ** Reading the DHT (utils/dht.py) *)

(** The entries of one DHT value: an entry whose peer id or record does not parse is
    skipped, any other exception propagates; [from_tuple] is [ServerInfo.from_tuple]. *)
Section dht.
Context {V : Type} (from_tuple : V → res ServerInfo) (active_adapter : option string).

Definition read_entry (servers : dict P ServerInfo) (kv : string * V) : res (dict P ServerInfo) :=
  match (p ← from_base58 kv.1; si ← from_tuple kv.2; mret (p, si) : res (P * ServerInfo)) with
  | Ok (p, si) =>
      let skip := match active_adapter with
                  | Some a => negb (String.eqb a "") && negb (existsb (String.eqb a) (adapters si)) | None => false end in
      Ok (if skip then servers else dict_set servers p si)
  | Raise TypeError | Raise ValueError => Ok servers
  | Raise e => Raise e
  end.

Fixpoint read_entries (servers : dict P ServerInfo) (l : dict string V) : res (dict P ServerInfo) :=
  match l with
  | [] => Ok servers
  | kv :: l' => s ← read_entry servers kv; read_entries s l'
  end.

(** [found] is what [node.get_many] returned: for every uid nothing, a value that is no
    dictionary ([Some None]), or a dictionary. *)
Definition get_remote_module_infos (uids : list string) (found : string → option (option (dict string V))) :
    res (list (RemoteModuleInfo P)) :=
  mapM (λ u, match found u with
             | Some (Some d) => s ← read_entries [] d; mret (mkModule u s)
             | _ => mret (mkModule u [])
             end) uids.
End dht.

(** ** Spans *)

(** [sorted(module_info.servers.items())]: the keys are distinct, so only they are compared. *)
Definition sorted_items (d : dict P ServerInfo) : list (P * ServerInfo) :=
  sort_by (λ a b, peer_ltb a.1 b.1) d.

Definition first_span (offset num block_idx : Z) p si : RemoteSpanInfo P :=
  match start_block si, end_block si with
  | Some s, Some e => mkSpan p (Z.max (s - offset) 0) (Z.min (e - offset) num) si
  | _, _ => mkSpan p block_idx (block_idx + 1) si
  end.

(** One server of one block. *)
Definition span_step (min_state : ServerState) (offset num block_idx : Z) (spans : dict P (RemoteSpanInfo P))
    (kv : P * ServerInfo) : dict P (RemoteSpanInfo P) :=
  let '(p, si) := kv in
  if state_value (state si) <? state_value min_state then spans
  else
    match dict_get spans p with
    | None => dict_set spans p (first_span offset num block_idx p si)
    | Some sp =>
        if state_value (span_state sp) <? state_value (state si)
        then dict_set spans p (first_span offset num block_idx p si)
        else if decide (span_state sp = state si)
        then dict_set spans p (set_end sp (Z.max (end_ sp) (block_idx + 1)))
        else spans
    end.

Fixpoint span_blocks (min_state : ServerState) (offset num block_idx : Z) (l : list (RemoteModuleInfo P))
    (spans : dict P (RemoteSpanInfo P)) : dict P (RemoteSpanInfo P) :=
  match l with
  | [] => spans
  | m :: l' =>
      span_blocks min_state offset num (block_idx + 1) l'
        (fold_left (span_step min_state offset num block_idx) (sorted_items (servers m)) spans)
  end.

Definition block_offset (module_infos : list (RemoteModuleInfo P)) : res Z :=
  match module_infos with m :: _ => snd <$> parse_uid (uid m) | [] => Ok 0 end.

Definition compute_spans (module_infos : list (RemoteModuleInfo P)) (min_state : ServerState) :
    res (dict P (RemoteSpanInfo P)) :=
  offset ← block_offset module_infos;
  mret (span_blocks min_state offset (zlen module_infos) 0 module_infos []).

(** ** Sequence information (client/routing/sequence_info.py) *)

Record RemoteSequenceInfo := mkSequence {
  block_uids : list string;
  block_infos : list nat;
  spans_by_priority : list (RemoteSpanInfo P);
  spans_containing_block : list (list (RemoteSpanInfo P));
  last_updated_time : option float;
}.

Notation store := (list (RemoteModuleInfo P)).

(** [lists[i].append(x)], a negative index counting from the end. *)
Definition append_at {A} (lists : list (list A)) (i : Z) (x : A) : res (list (list A)) :=
  let j := if 0 <=? i then i else zlen lists + i in
  if (0 <=? j) && (j <? zlen lists) then Ok (alter (λ l, l ++ [x]) (Z.to_nat j) lists) else Raise IndexError.

Fixpoint append_range {A} (lists : list (list A)) (ixs : list Z) (x : A) : res (list (list A)) :=
  match ixs with
  | [] => Ok lists
  | i :: ixs' => lists' ← append_at lists i x; append_range lists' ixs' x
  end.

Fixpoint file_spans (lists : list (list (RemoteSpanInfo P))) (l : list (RemoteSpanInfo P)) :
    res (list (list (RemoteSpanInfo P))) :=
  match l with
  | [] => Ok lists
  | sp :: l' => lists' ← append_range lists (py_range (start sp) (end_ sp)) sp; file_spans lists' l'
  end.

Definition by_length (l : list (RemoteSpanInfo P)) : list (RemoteSpanInfo P) :=
  sort_by (λ a b, span_length b <? span_length a) l.

Definition sort_spans (infos : list (RemoteModuleInfo P)) :
    res (list (RemoteSpanInfo P) * list (list (RemoteSpanInfo P))) :=
  spans ← compute_spans infos ONLINE;
  let priority := by_length (dict_values spans) in
  containing ← file_spans (replicate (length infos) []) priority;
  mret (priority, containing).

(** The objects at a sequence's addresses. *)
Definition infos_of (st : store) (l : list nat) : res (list (RemoteModuleInfo P)) :=
  mapM (λ a, of_option KeyError (st !! a)) l.

(** [make_empty]: one new object per uid. *)
Definition make_empty (uids : list string) (st : store) : store * RemoteSequenceInfo :=
  (st ++ ((λ u, mkModule u []) <$> uids),
   mkSequence uids (seq (length st) (length uids)) [] (replicate (length uids) []) None).

(** [info[a:b]]: the slice shares the objects. *)
Definition seq_getitem (self : RemoteSequenceInfo) (a b : Z) (st : store) : res RemoteSequenceInfo :=
  let addrs := py_slice (block_infos self) a b in
  infos ← infos_of st addrs;
  '(priority, containing) ← sort_spans infos;
  mret (mkSequence (py_slice (block_uids self) a b) addrs priority containing (last_updated_time self)).

Definition set_servers (s : dict P ServerInfo) m : RemoteModuleInfo P := mkModule (uid m) s.

(** The loop of [update_]: it stops at the first uid that differs. *)
Fixpoint assign_servers (uids : list string) (addrs : list nat) (news : list (RemoteModuleInfo P)) : M store unit :=
  match uids, addrs, news with
  | u :: uids', a :: addrs', m :: news' =>
      guard_py (String.eqb u (uid m)) AssertionError;;
      modify (alter (set_servers (servers m)) a);;
      assign_servers uids' addrs' news'
  | _, _, _ => mret tt
  end.

Definition update_ (self : RemoteSequenceInfo) (news : list (RemoteModuleInfo P)) (now : float) :
    M store RemoteSequenceInfo :=
  guard_py (zlen news =? zlen (block_uids self)) AssertionError;;
  assign_servers (block_uids self) (block_infos self) news;;
  st ← get;
  infos ← lift (infos_of st (block_infos self));
  '(priority, containing) ← lift (sort_spans infos);
  mret (mkSequence (block_uids self) (block_infos self) priority containing (Some now)).
End swarm.

(** ** Lemmas: one peer at a time *)

Section lemmas.
Context {P : Type} `{PeerIds P}.
Implicit Types (p : P) (si : ServerInfo) (sp : RemoteSpanInfo P) (m : RemoteModuleInfo P).

(** What [span_step] does to the span of the peer it names. *)
Definition peer_next (min_state : ServerState) (offset num block_idx : Z) p (o : option (RemoteSpanInfo P)) si :
    option (RemoteSpanInfo P) :=
  if state_value (state si) <? state_value min_state then o
  else
    match o with
    | None => Some (first_span offset num block_idx p si)
    | Some sp =>
        if state_value (span_state sp) <? state_value (state si) then Some (first_span offset num block_idx p si)
        else if decide (span_state sp = state si) then Some (set_end sp (Z.max (end_ sp) (block_idx + 1)))
        else o
    end.

Fixpoint peer_blocks (min_state : ServerState) (offset num block_idx : Z) p (l : list (option ServerInfo))
    (o : option (RemoteSpanInfo P)) : option (RemoteSpanInfo P) :=
  match l with
  | [] => o
  | s :: l' =>
      peer_blocks min_state offset num (block_idx + 1) p l'
        (match s with Some si => peer_next min_state offset num block_idx p o si | None => o end)
  end.

Lemma span_step_get ms off num i spans p si q :
  dict_get (span_step ms off num i spans (p, si)) q =
    if decide (p = q) then peer_next ms off num i p (dict_get spans p) si else dict_get spans q.
Proof.
  unfold span_step, peer_next. destruct (_ <? _); [by case_decide; subst|].
  destruct (dict_get spans p) as [sp|] eqn:E; [|by rewrite dict_get_set; case_decide].
  destruct (_ <? _); [by rewrite dict_get_set; case_decide|].
  destruct (decide (span_state sp = state si)); [by rewrite dict_get_set; case_decide|].
  case_decide; by subst.
Qed.

Lemma span_step_keys ms off num i spans kv :
  dict_wf spans → dict_wf (span_step ms off num i spans kv).
Proof. intros Hwf. destruct kv as [p si]. unfold span_step. repeat case_match; auto with py. Qed.

Lemma fold_span_step_get ms off num i items spans q : dict_wf items →
  dict_get (fold_left (span_step ms off num i) items spans) q =
    match dict_get items q with
    | Some si => peer_next ms off num i q (dict_get spans q) si | None => dict_get spans q end.
Proof.
  unfold dict_wf. revert spans. induction items as [|[p si] items IH]; intros spans Hwf; [done|].
  apply NoDup_cons in Hwf as [Hp Hwf]. cbn [fold_left dict_get]. rewrite IH, span_step_get by done.
  case_decide; subst; [|done]. assert (dict_get items q = None) as ->; [by apply dict_get_None|done].
Qed.

Lemma dict_get_perm (d1 d2 : dict P ServerInfo) p : dict_wf d2 → d1 ≡ₚ d2 → dict_get d1 p = dict_get d2 p.
Proof.
  intros Hwf Hp. assert (dict_wf d1) as Hwf1 by (unfold dict_wf, dict_keys in *; by rewrite Hp).
  destruct (dict_get d1 p) as [v|] eqn:E1.
  - symmetry. apply dict_get_elem; [done|]. rewrite <- Hp. by apply dict_elem_get.
  - symmetry. apply dict_get_None. apply dict_get_None in E1. unfold dict_keys in *. by rewrite <- Hp.
Qed.

Lemma sorted_items_get d p : dict_wf d → dict_get (sorted_items d) p = dict_get d p.
Proof. intros. apply dict_get_perm; [done|apply sort_by_perm]. Qed.

Lemma sorted_items_wf d : dict_wf d → dict_wf (sorted_items d).
Proof. unfold dict_wf, dict_keys, sorted_items. by rewrite sort_by_perm. Qed.

Definition servers_wf (infos : list (RemoteModuleInfo P)) : Prop := Forall (λ m, dict_wf (servers m)) infos.

(** What the blocks say of one peer. *)
Definition announced (infos : list (RemoteModuleInfo P)) p : list (option ServerInfo) :=
  (λ m, dict_get (servers m) p) <$> infos.

Lemma span_blocks_get ms off num i infos spans p : servers_wf infos →
  dict_get (span_blocks ms off num i infos spans) p =
    peer_blocks ms off num i p (announced infos p) (dict_get spans p).
Proof.
  intros Hwf. revert i spans. induction Hwf as [|m infos Hm Hwf IH]; intros i spans; [done|].
  cbn [span_blocks announced fmap list_fmap peer_blocks]. rewrite IH. f_equal.
  rewrite fold_span_step_get, sorted_items_get by auto using sorted_items_wf. done.
Qed.

Lemma span_blocks_wf ms off num i infos spans : dict_wf spans → dict_wf (span_blocks ms off num i infos spans).
Proof.
  revert i spans. induction infos as [|m infos IH]; intros i spans Hwf; [done|]. cbn [span_blocks]. apply IH.
  revert spans Hwf. induction (sorted_items (servers m)) as [|kv items IHi]; intros spans Hwf; [done|].
  cbn [fold_left]. apply IHi. by apply span_step_keys.
Qed.

(** A span of [p] computed from the announcements of [p]. *)
Record span_ok (ms : ServerState) (num : Z) p (l : list (option ServerInfo)) sp : Prop := mkSpanOk {
  so_peer : peer_id sp = p;
  so_start : 0 ≤ start sp;
  so_end : end_ sp ≤ num;
  so_info : Some (server_info sp) ∈ l;
  so_state : state_value ms ≤ state_value (span_state sp);
}.

Lemma first_span_ok ms off num i p si l :
  0 ≤ i < num → Some si ∈ l → state_value ms ≤ state_value (state si) →
  span_ok ms num p l (first_span off num i p si).
Proof.
  intros Hi Hin Hs. unfold first_span. repeat case_match; split; simpl; try done; try lia.
Qed.

Lemma peer_next_ok ms off num i p l si o :
  0 ≤ i < num → Some si ∈ l → (∀ sp, o = Some sp → span_ok ms num p l sp) →
  ∀ sp, peer_next ms off num i p o si = Some sp → span_ok ms num p l sp.
Proof.
  intros Hi Hin Ho sp. unfold peer_next. destruct (_ <? _) eqn:E; [by apply Ho|]. apply Z.ltb_ge in E.
  destruct o as [sp'|]; [|intros [= <-]; by apply first_span_ok].
  destruct (_ <? _); [intros [= <-]; by apply first_span_ok|].
  case_decide; [|by apply Ho]. intros [= <-]. destruct (Ho sp' eq_refl). split; simpl; try done. lia.
Qed.

Lemma peer_blocks_ok ms off num i p l l' o :
  0 ≤ i → i + zlen l' ≤ num → l' ⊆ l → (∀ sp, o = Some sp → span_ok ms num p l sp) →
  ∀ sp, peer_blocks ms off num i p l' o = Some sp → span_ok ms num p l sp.
Proof.
  revert i o. induction l' as [|s l' IH]; intros i o Hi Hn Hsub Ho sp; cbn [peer_blocks]; [by apply Ho|].
  rewrite zlen_cons in Hn. pose proof (zlen_nonneg l'). apply IH; [lia|lia|set_solver|].
  destruct s as [si|]; [|done]. apply peer_next_ok; [lia|set_solver|done].
Qed.

(** A peer has a span iff some block announces it in a state that counts. *)
Lemma peer_blocks_some ms off num i p l o :
  is_Some (peer_blocks ms off num i p l o) ↔
    is_Some o ∨ ∃ si, Some si ∈ l ∧ state_value ms ≤ state_value (state si).
Proof.
  revert i o. induction l as [|s l IH]; intros i o; cbn [peer_blocks].
  { split; [by left|]. intros [?|(si & Hin%not_elem_of_nil & _)]; done. }
  rewrite IH. setoid_rewrite elem_of_cons. destruct s as [si|]; [|naive_solver].
  assert (is_Some (peer_next ms off num i p o si) ↔ is_Some o ∨ state_value ms ≤ state_value (state si)) as ->.
  { unfold peer_next. destruct (_ <? _) eqn:E.
    - apply Z.ltb_lt in E. split; [by left|intros [?|?]; [done|lia]].
    - apply Z.ltb_ge in E. split; [by right|intros _]. repeat case_match; eauto. }
  naive_solver.
Qed.

(** [p] announces the record [si] at the blocks from [a] to [b] and nothing elsewhere,
    and the range in the record, if there is one, is those blocks. *)
Record consistent (off : Z) (l : list (option ServerInfo)) (a b : Z) si : Prop := mkConsistent {
  co_range : 0 ≤ a < b ∧ b ≤ zlen l;
  co_blocks : ∀ j o, l !! j = Some o → o = if (a <=? Z.of_nat j) && (Z.of_nat j <? b) then Some si else None;
  co_online : state si = ONLINE;
  co_announced : match start_block si, end_block si with
                 | Some s, Some e => Z.max (s - off) 0 = a ∧ Z.min (e - off) (zlen l) = b | _, _ => True end;
}.

Lemma peer_blocks_consistent off num p si a b l i o :
  state si = ONLINE → 0 ≤ a < b → b ≤ num → 0 ≤ i → num = i + zlen l →
  match start_block si, end_block si with
  | Some s, Some e => Z.max (s - off) 0 = a ∧ Z.min (e - off) num = b | _, _ => True end →
  (∀ j x, l !! j = Some x → x = if (a <=? i + Z.of_nat j) && (i + Z.of_nat j <? b) then Some si else None) →
  (if i <=? a then o = None else ∃ e, o = Some (mkSpan p a e si) ∧ e ≤ b ∧ Z.min i b ≤ e) →
  peer_blocks ONLINE off num i p l o = Some (mkSpan p a b si).
Proof.
  intros Hon Hab Hb Hi Hnum Hann. revert i o Hi Hnum. induction l as [|x l IH]; intros i o Hi Hnum Hl Ho; cbn [peer_blocks].
  { change (zlen (@nil (option ServerInfo))) with 0 in Hnum. destruct (Z.leb_spec i a); [lia|].
    destruct Ho as (e & -> & He & He'). do 2 f_equal. lia. }
  rewrite zlen_cons in Hnum. pose proof (zlen_nonneg l). apply IH; [lia|lia| |].
  { intros j y Hy. rewrite (Hl (S j) y Hy). f_equal. replace (i + Z.of_nat (S j)) with (i + 1 + Z.of_nat j) by lia. done. }
  pose proof (Hl 0%nat x eq_refl) as Hx. rewrite Z.add_0_r in Hx. clear IH.
  destruct (Z.leb_spec (i + 1) a).
  { rewrite (proj2 (Z.leb_gt a i)) in Hx by lia. subst x. by rewrite (proj2 (Z.leb_le i a)) in Ho by lia. }
  rewrite (proj2 (Z.leb_le a i)) in Hx by lia. cbn [andb] in Hx.
  destruct (Z.ltb_spec i b); subst x.
  - unfold peer_next. rewrite Hon. cbn [state_value]. cbn. destruct (Z.leb_spec i a).
    + subst o. assert (i = a) as -> by lia. unfold first_span. repeat case_match; destruct_and?; subst; eexists; split; try done; lia.
    + destruct Ho as (e & -> & He & He'). unfold span_state, set_end. cbn. rewrite Hon. cbn.
      eexists. split; [done|]. lia.
  - destruct (Z.leb_spec i a); [lia|]. destruct Ho as (e & -> & He & He'). eexists. split; [done|]. lia.
Qed.

(** A peer that announces no range: its span runs from the first to the last block at
    which it is online, whatever it does in between. *)
Definition online_at (l : list (option ServerInfo)) (j : nat) : Prop :=
  ∃ si, l !! j = Some (Some si) ∧ state si = ONLINE.
Definition no_range (l : list (option ServerInfo)) : Prop :=
  ∀ si, Some si ∈ l → start_block si = None ∨ end_block si = None.

Lemma online_at_cons x l j : online_at (x :: l) j ↔
  (j = 0%nat ∧ ∃ si, x = Some si ∧ state si = ONLINE) ∨ ∃ k, j = S k ∧ online_at l k.
Proof. unfold online_at. destruct j; simpl; naive_solver. Qed.

Lemma first_span_no_range off num i p si : start_block si = None ∨ end_block si = None →
  first_span off num i p si = mkSpan p i (i + 1) si.
Proof. unfold first_span. intros [->| ->]; by repeat case_match. Qed.

Lemma peer_next_online off num i p si o : state si = ONLINE →
  (∀ sp, o = Some sp → span_state sp = ONLINE) → start_block si = None ∨ end_block si = None →
  peer_next ONLINE off num i p o si = Some match o with
    | Some sp => set_end sp (Z.max (end_ sp) (i + 1)) | None => mkSpan p i (i + 1) si end.
Proof.
  intros Hon Ho Hr. unfold peer_next. rewrite Hon. cbn.
  destruct o as [sp|]; [|by rewrite first_span_no_range]. by rewrite (Ho sp eq_refl).
Qed.

Lemma peer_next_not_online off num i p si o : state si ≠ ONLINE → peer_next ONLINE off num i p o si = o.
Proof. intros Hs. unfold peer_next. by destruct (state si). Qed.

Lemma peer_blocks_no_range off num p l i o sp : no_range l →
  (∀ s0, o = Some s0 → span_state s0 = ONLINE ∧ end_ s0 ≤ i) →
  peer_blocks ONLINE off num i p l o = Some sp →
  (∀ j, online_at l j → i + Z.of_nat j < end_ sp) ∧
  ((∃ j, online_at l j ∧ end_ sp = i + Z.of_nat j + 1) ∨ ∃ s0, o = Some s0 ∧ end_ sp = end_ s0) ∧
  match o with
  | Some s0 => start sp = start s0
  | None => ∃ j, online_at l j ∧ start sp = i + Z.of_nat j ∧ ∀ k, online_at l k → (j ≤ k)%nat
  end.
Proof.
  revert i o. induction l as [|x l IH]; intros i o Hr Ho; cbn [peer_blocks].
  { intros ->. split; [by intros j (? & ? & ?)|]. split; [right; eauto|done]. }
  assert (no_range l) as Hr' by (intros si Hsi; apply Hr; by right).
  setoid_rewrite online_at_cons.
  assert ((∃ si, x = Some si ∧ state si = ONLINE) ∨ ¬ (∃ si, x = Some si ∧ state si = ONLINE)) as [(si & -> & Hon)|Hoff].
  { destruct x as [si|]; [destruct (decide (state si = ONLINE))|]; naive_solver. }
  - rewrite peer_next_online; [|done|intros; by apply Ho|apply Hr; by left]. intros E.
    apply IH in E as (Hend & Hlast & Hst); [|done|].
    2: { intros s0 [= <-]. destruct o as [s|]; simpl; [|split; [done|lia]]. destruct (Ho s eq_refl). split; [done|lia]. }
    assert (i + 1 ≤ end_ sp ∧ ((∃ j, online_at l j ∧ end_ sp = i + 1 + Z.of_nat j + 1) ∨ end_ sp = i + 1)) as [Hge Hl].
    { destruct Hlast as [(j & Hj & He)|(s0 & [= <-] & ->)]; [split; [lia|left; eauto]|].
      destruct o as [s|]; simpl; [|lia]. destruct (Ho s eq_refl). lia. }
    split; [|split].
    + intros j [[-> _]|(k & -> & Hk)]; [lia|]. specialize (Hend k Hk). lia.
    + left. destruct Hl as [(j & Hj & He)|He].
      * exists (S j). split; [right; eauto|lia].
      * exists 0%nat. split; [left; eauto|lia].
    + destruct o as [s|]; [done|]. exists 0%nat. split; [apply online_at_cons; left; eauto|]. cbn in Hst. split; [lia|intros; lia].
  - assert (match x with Some si => peer_next ONLINE off num i p o si | None => o end = o) as ->.
    { destruct x as [si|]; [|done]. apply peer_next_not_online. naive_solver. }
    intros E. apply IH in E as (Hend & Hlast & Hst); [|done|intros s0 Hs0; destruct (Ho s0 Hs0); split; [done|lia]].
    split; [|split].
    + intros j [[-> ?]|(k & -> & Hk)]; [done|]. specialize (Hend k Hk). lia.
    + destruct Hlast as [(j & Hj & He)|?]; [left|by right]. exists (S j). split; [right; eauto|lia].
    + destruct o as [s|]; [done|]. destruct Hst as (j & Hj & Hs & Hmin). exists (S j).
      split; [apply online_at_cons; right; eauto|]. split; [lia|].
      intros k [[-> ?]|(k' & -> & Hk')]%online_at_cons; [done|]. apply Hmin in Hk'. lia.
Qed.
End lemmas.

(** ** Lemmas: filing the spans by block *)

Section filing.
Context {P : Type} `{PeerIds P}.
Implicit Types (p : P) (sp : RemoteSpanInfo P).

Definition contains sp (b : nat) : bool := (start sp <=? Z.of_nat b) && (Z.of_nat b <? end_ sp).

Lemma append_at_spec {A} (lists : list (list A)) i x : 0 ≤ i < zlen lists →
  append_at lists i x = Ok (alter (λ l, l ++ [x]) (Z.to_nat i) lists).
Proof.
  intros [H0 H1]. unfold append_at. rewrite (proj2 (Z.leb_le 0 i)) by lia.
  rewrite (proj2 (Z.leb_le 0 i)), (proj2 (Z.ltb_lt i _)) by lia. done.
Qed.

Lemma append_range_spec {A} (lists : list (list A)) a k x : 0 ≤ a → a + Z.of_nat k ≤ zlen lists →
  ∃ lists', append_range lists (seqZ a (Z.of_nat k)) x = Ok lists' ∧ length lists' = length lists ∧
    ∀ b l, lists !! b = Some l →
      lists' !! b = Some (l ++ if (a <=? Z.of_nat b) && (Z.of_nat b <? a + Z.of_nat k) then [x] else []).
Proof.
  revert lists a. induction k as [|k IH]; intros lists a Ha Hk.
  { exists lists. split; [done|]. split; [done|]. intros b l Hb.
    replace ((a <=? Z.of_nat b) && (Z.of_nat b <? a + Z.of_nat 0)) with false by lia. by rewrite app_nil_r. }
  rewrite seqZ_cons by lia. cbn [append_range]. rewrite append_at_spec by lia. cbn [mbind res_bind].
  replace (Z.pred (Z.of_nat (S k))) with (Z.of_nat k) by lia.
  destruct (IH (alter (λ l, l ++ [x]) (Z.to_nat a) lists) (Z.succ a)) as (lists' & E & Hlen & Hget);
    [lia|unfold zlen in *; rewrite length_alter; lia|].
  rewrite E. exists lists'. rewrite length_alter in Hlen. split; [done|]. split; [done|]. intros b l Hb.
  destruct (decide (b = Z.to_nat a)) as [->|Hne].
  - rewrite (Hget (Z.to_nat a) (l ++ [x])) by (by rewrite list_lookup_alter_eq, Hb).
    replace ((Z.succ a <=? Z.of_nat (Z.to_nat a)) && _) with false by lia.
    replace ((a <=? Z.of_nat (Z.to_nat a)) && _) with true by lia. by rewrite app_nil_r.
  - rewrite (Hget b l) by (by rewrite list_lookup_alter_ne).
    assert (((Z.succ a <=? Z.of_nat b) && (Z.of_nat b <? Z.succ a + Z.of_nat k)) =
      ((a <=? Z.of_nat b) && (Z.of_nat b <? a + Z.of_nat (S k)))) as -> by lia. done.
Qed.

Lemma file_spans_spec (l : list (RemoteSpanInfo P)) lists :
  Forall (λ sp, 0 ≤ start sp ∧ end_ sp ≤ zlen lists) l →
  ∃ lists', file_spans lists l = Ok lists' ∧ length lists' = length lists ∧
    ∀ b k, lists !! b = Some k → lists' !! b = Some (k ++ filter (λ sp, contains sp b = true) l).
Proof.
  revert lists. induction l as [|sp l IH]; intros lists; cbn [file_spans].
  { intros _. exists lists. split; [done|]. split; [done|]. intros. by rewrite app_nil_r. }
  intros [[Hs He] Hl]%Forall_cons. unfold py_range.
  assert (∃ k, seqZ (start sp) (end_ sp - start sp) = seqZ (start sp) (Z.of_nat k) ∧
    start sp + Z.of_nat k ≤ Z.max (start sp) (zlen lists) ∧
    (k = 0%nat ∧ end_ sp ≤ start sp ∨ end_ sp = start sp + Z.of_nat k)) as (k & -> & Hk & Hk').
  { destruct (Z.le_gt_cases (end_ sp) (start sp)).
    - exists 0%nat. rewrite !seqZ_nil by lia. split; [done|]. split; [lia|]. by left.
    - exists (Z.to_nat (end_ sp - start sp)). rewrite Z2Nat.id by lia. split; [done|]. split; [lia|]. right. lia. }
  assert (∃ l1, append_range lists (seqZ (start sp) (Z.of_nat k)) sp = Ok l1 ∧ length l1 = length lists ∧
    ∀ b x, lists !! b = Some x → l1 !! b = Some (x ++ if contains sp b then [sp] else [])) as (l1 & -> & Hlen & Hget).
  { destruct k as [|k].
    - exists lists. split; [done|]. split; [done|]. intros b x Hb. unfold contains.
      replace ((start sp <=? Z.of_nat b) && (Z.of_nat b <? end_ sp)) with false by lia. by rewrite app_nil_r.
    - destruct (append_range_spec lists (start sp) (S k) sp) as (l1 & E & Hlen & Hget); [done|lia|].
      exists l1. split; [done|]. split; [done|]. intros b x Hb. rewrite (Hget b x Hb). unfold contains.
      replace (end_ sp) with (start sp + Z.of_nat (S k)) by lia. done. }
  cbn [mbind res_bind]. destruct (IH l1) as (l2 & -> & Hlen2 & Hget2); [by unfold zlen in *; rewrite Hlen|].
  exists l2. split; [done|]. split; [lia|]. intros b x Hb.
  rewrite (Hget2 b _ (Hget b x Hb)), <- (assoc_L (++)). do 2 f_equal. rewrite filter_cons.
  destruct (contains sp b); [by rewrite decide_True|by rewrite decide_False].
Qed.

Lemma by_length_order :
  weak_order (λ a b : RemoteSpanInfo P, span_length b <? span_length a) (λ _, True).
Proof.
  split.
  - intros x y _ _ ?%Z.ltb_lt. apply Z.ltb_ge. lia.
  - intros x y z _ _ _ ?%Z.ltb_ge ?%Z.ltb_ge. apply Z.ltb_ge. lia.
Qed.

Lemma by_length_sorted (l : list (RemoteSpanInfo P)) :
  Sorting.Sorted.StronglySorted (λ x y, span_length y ≤ span_length x) (by_length l).
Proof.
  pose proof (sort_by_sorted _ _ by_length_order l) as Hs. unfold by_length, in_order in *.
  specialize (Hs ltac:(by apply list.Forall_true)). induction Hs as [|x k Hs IH Hf]; [constructor|].
  constructor; [done|]. rewrite list.Forall_forall in Hf |- *. intros y Hy. by apply Z.ltb_ge, Hf.
Qed.
End filing.

(** ** Properties *)

(** What [_sort_spans] returns for the announcements [infos], whose first uid has index
    [off]: one span per peer that is online somewhere, the longest first, each inside
    the sequence and with a record its peer announced; and per block the spans that
    contain it, in the same order. *)
Record spans_of {P} `{PeerIds P} (infos : list (RemoteModuleInfo P)) (off : Z)
    (priority : list (RemoteSpanInfo P)) (containing : list (list (RemoteSpanInfo P))) : Prop := mkSpansOf {
  sf_peers : NoDup (peer_id <$> priority);
  sf_online : ∀ p, p ∈ peer_id <$> priority ↔
    ∃ m si, m ∈ infos ∧ dict_get (servers m) p = Some si ∧ state si = ONLINE;
  sf_sorted : Sorting.Sorted.StronglySorted (λ x y, span_length y ≤ span_length x) priority;
  sf_spans : ∀ sp, sp ∈ priority → 0 ≤ start sp ∧ end_ sp ≤ zlen infos ∧ span_state sp = ONLINE ∧
    ∃ m, m ∈ infos ∧ dict_get (servers m) (peer_id sp) = Some (server_info sp);
  sf_length : length containing = length infos;
  sf_containing : ∀ b, (b < length infos)%nat →
    containing !! b = Some (filter (λ sp, contains sp b = true) priority);
  sf_consistent : ∀ p a b si, consistent off (announced infos p) a b si → mkSpan p a b si ∈ priority;
  sf_no_range : ∀ sp, sp ∈ priority → no_range (announced infos (peer_id sp)) →
    (∃ j, start sp = Z.of_nat j ∧ online_at (announced infos (peer_id sp)) j) ∧
    (∃ j, end_ sp = Z.of_nat j + 1 ∧ online_at (announced infos (peer_id sp)) j) ∧
    ∀ j, online_at (announced infos (peer_id sp)) j → start sp ≤ Z.of_nat j < end_ sp;
}.

Section sort_spans.
Context {P : Type} `{PeerIds P}.
Implicit Types (p : P) (sp : RemoteSpanInfo P) (infos : list (RemoteModuleInfo P)).

Lemma announced_elem infos p si : Some si ∈ announced infos p ↔ ∃ m, m ∈ infos ∧ dict_get (servers m) p = Some si.
Proof. unfold announced. rewrite list_elem_of_fmap. naive_solver. Qed.

Lemma announced_length infos p : zlen (announced infos p) = zlen infos.
Proof. unfold announced, zlen. by rewrite length_fmap. Qed.

Notation spans_at off infos := (span_blocks ONLINE off (zlen infos) 0 infos []).

Lemma spans_at_get off infos p : servers_wf infos →
  dict_get (spans_at off infos) p = peer_blocks ONLINE off (zlen infos) 0 p (announced infos p) None.
Proof. intros. by rewrite span_blocks_get. Qed.

Lemma spans_at_ok off infos p sp : servers_wf infos → dict_get (spans_at off infos) p = Some sp →
  span_ok ONLINE (zlen infos) p (announced infos p) sp.
Proof.
  intros Hwf. rewrite spans_at_get by done. apply peer_blocks_ok; [done|by rewrite announced_length|done|done].
Qed.

Lemma span_ok_online num p l sp : span_ok ONLINE num p l sp → span_state sp = ONLINE.
Proof. intros [_ _ _ _ Hs]. by destruct (span_state sp). Qed.

Lemma spans_at_value off infos sp : servers_wf infos →
  sp ∈ dict_values (spans_at off infos) ↔ dict_get (spans_at off infos) (peer_id sp) = Some sp.
Proof.
  intros Hwf. assert (dict_wf (spans_at off infos)) as Hd by (apply span_blocks_wf, dict_wf_nil).
  unfold dict_values. rewrite list_elem_of_fmap. split.
  - intros ([p sp'] & -> & Hin). apply dict_get_elem in Hin; [|done]. simpl.
    pose proof (so_peer _ _ _ _ _ (spans_at_ok _ _ _ _ Hwf Hin)). by subst.
  - intros Hg. exists (peer_id sp, sp). split; [done|]. by apply dict_elem_get.
Qed.

Lemma spans_at_peers off infos : servers_wf infos →
  peer_id <$> dict_values (spans_at off infos) = dict_keys (spans_at off infos).
Proof.
  intros Hwf. assert (dict_wf (spans_at off infos)) as Hd by (apply span_blocks_wf, dict_wf_nil).
  unfold dict_values, dict_keys. rewrite <- list_fmap_compose. apply list_fmap_ext.
  intros i [p sp] Hi. simpl. eapply so_peer, spans_at_ok; [done|]. apply dict_get_elem; [done|].
  by eapply list_elem_of_lookup_2.
Qed.

Lemma sort_spans_of infos off : servers_wf infos → block_offset infos = Ok off →
  ∃ priority containing, sort_spans infos = Ok (priority, containing) ∧ spans_of infos off priority containing.
Proof.
  intros Hwf Hoff. unfold sort_spans, compute_spans. rewrite Hoff. cbn [mbind res_bind mret res_ret].
  set (prio := by_length (dict_values (spans_at off infos))).
  assert (prio ≡ₚ dict_values (spans_at off infos)) as Hperm by apply sort_by_perm.
  assert (∀ sp, sp ∈ prio → dict_get (spans_at off infos) (peer_id sp) = Some sp) as Hget.
  { intros sp. rewrite Hperm. by apply spans_at_value. }
  assert (∀ sp, sp ∈ prio → span_ok ONLINE (zlen infos) (peer_id sp) (announced infos (peer_id sp)) sp) as Hok.
  { intros sp Hsp. by apply (spans_at_ok off), Hget. }
  assert (zlen (replicate (length infos) (@nil (RemoteSpanInfo P))) = zlen infos) as Hrep.
  { unfold zlen. by rewrite length_replicate. }
  destruct (file_spans_spec prio (replicate (length infos) [])) as (cont & -> & Hlen & Hcont).
  { apply list.Forall_forall. intros sp Hsp. rewrite Hrep. destruct (Hok sp Hsp). done. }
  exists prio, cont. split; [done|]. rewrite length_replicate in Hlen. split.
  - rewrite Hperm, spans_at_peers by done. apply span_blocks_wf, dict_wf_nil.
  - intros p. rewrite Hperm, spans_at_peers by done.
    transitivity (is_Some (dict_get (spans_at off infos) p)).
    { rewrite <- not_eq_None_Some, dict_get_None. split; [intros ? Hn; by apply Hn|].
      intros Hn. destruct (decide (p ∈ dict_keys (spans_at off infos))); [done|tauto]. }
    rewrite spans_at_get, peer_blocks_some by done. setoid_rewrite announced_elem. split.
    + intros [[? ?]|(si & (m & Hm & Hg) & Hs)]; [done|]. exists m, si. split; [done|]. split; [done|]. by destruct (state si).
    + intros (m & si & Hm & Hg & Hs). right. exists si. rewrite Hs. split; [eauto|done].
  - apply by_length_sorted.
  - intros sp Hsp. destruct (Hok sp Hsp) as [_ Hs He Hi Hst]. split; [done|]. split; [done|].
    split; [by eapply span_ok_online, Hok|]. by apply announced_elem.
  - done.
  - intros b Hb. rewrite (Hcont b []); [done|]. by apply lookup_replicate.
  - intros p a b si [Hr Hb Hon Hann]. rewrite Hperm. apply spans_at_value; [done|]. simpl.
    rewrite spans_at_get by done. rewrite announced_length in Hr, Hann.
    apply (peer_blocks_consistent off (zlen infos) p si a b); try done; try lia.
    + by rewrite announced_length.
    + by destruct (Z.leb_spec 0 a); [|lia].
  - intros sp Hsp Hr. pose proof (Hget sp Hsp) as Hg. rewrite spans_at_get in Hg by done.
    apply peer_blocks_no_range in Hg as (Hend & Hlast & j & Hj & Hst & Hmin); [|done|done].
    split; [exists j; split; [lia|done]|]. split.
    + destruct Hlast as [(k & Hk & ->)|(? & ? & _)]; [|done]. exists k. split; [lia|done].
    + intros k Hk. specialize (Hend k Hk). specialize (Hmin k Hk). lia.
Qed.
End sort_spans.

(** ** Sequences and their store *)

(** The objects of a sequence exist, are distinct, and carry its uids. *)
Record seq_wf {P} (st : list (RemoteModuleInfo P)) (self : @RemoteSequenceInfo P) : Prop := mkSeqWf {
  sq_objects : Forall2 (λ u a, ∃ m, st !! a = Some m ∧ uid m = u) (block_uids self) (block_infos self);
  sq_distinct : NoDup (block_infos self);
}.

Section sequence.
Context {P : Type} `{PeerIds P}.
Implicit Types (st : list (RemoteModuleInfo P)) (self : @RemoteSequenceInfo P) (news : list (RemoteModuleInfo P)).

Lemma infos_of_Forall2 st addrs infos :
  Forall2 (λ a m, st !! a = Some m) addrs infos → infos_of st addrs = Ok infos.
Proof.
  unfold infos_of. induction 1 as [|a m addrs infos Ha HF IH]; [done|]. simpl. rewrite Ha. simpl. by rewrite IH.
Qed.

Lemma assign_servers_spec uids addrs news st : NoDup addrs →
  Forall2 (λ u a, ∃ m, st !! a = Some m ∧ uid m = u) uids addrs → uid <$> news = uids →
  ∃ st', assign_servers uids addrs news st = (st', Ok tt) ∧ length st' = length st ∧
    Forall2 (λ a m, st' !! a = Some m) addrs news ∧ ∀ a, a ∉ addrs → st' !! a = st !! a.
Proof.
  intros Hnd HF. revert st news addrs Hnd HF. induction uids as [|u uids IH]; intros st news addrs Hnd HF Hu.
  { apply Forall2_nil_inv_l in HF as ->. apply fmap_nil_inv in Hu as ->. exists st. by repeat split. }
  apply Forall2_cons_inv_l in HF as (a & addrs' & (m & Hm & Hum) & HF & ->).
  destruct news as [|n news]; [done|]. injection Hu as Hn Hu. apply NoDup_cons in Hnd as [Ha Hnd].
  cbn [assign_servers]. rewrite (proj2 (String.eqb_eq u (uid n))) by done. unfold guard_py.
  rewrite (bind_ok (mret tt) _ st st tt), modify_bind by done.
  destruct (IH (alter (set_servers (servers n)) a st) news addrs') as (st' & E & Hlen & Hnew & Hold); [done| |exact Hu|].
  { apply Forall2_same_length_lookup_2; [by eapply Forall2_length|]. intros i u' a' Hu' Ha'.
    rewrite list_lookup_alter_ne; [exact (Forall2_lookup_lr _ _ _ _ _ _ HF Hu' Ha')|]. intros ->. apply Ha. by eapply list_elem_of_lookup_2. }
  exists st'. rewrite length_alter in Hlen. split; [done|]. split; [done|]. split.
  - constructor; [|done]. rewrite Hold, list_lookup_alter_eq, Hm by done. simpl. unfold set_servers.
    rewrite Hum, <- Hn. by destruct n.
  - intros b Hb. apply not_elem_of_cons in Hb as [Hne Hb]. rewrite Hold by done. by apply list_lookup_alter_ne.
Qed.

Lemma update_ok self news now st off : seq_wf st self → uid <$> news = block_uids self →
  servers_wf news → block_offset news = Ok off →
  ∃ st' priority containing,
    update_ self news now st = (st', Ok (mkSequence (block_uids self) (block_infos self) priority containing (Some now))) ∧
    spans_of news off priority containing ∧
    Forall2 (λ a m, st' !! a = Some m) (block_infos self) news ∧
    (∀ a, a ∉ block_infos self → st' !! a = st !! a) ∧ length st' = length st.
Proof.
  intros [Hobj Hnd] Hu Hwf Hoff.
  destruct (assign_servers_spec (block_uids self) (block_infos self) news st) as (st' & E & Hlen & Hnew & Hold); [done..|].
  destruct (sort_spans_of news off) as (prio & cont & Es & Hs); [done..|].
  exists st', prio, cont. split; [|done]. unfold update_.
  rewrite (proj2 (Z.eqb_eq (zlen news) (zlen (block_uids self)))) by (unfold zlen; by rewrite <- Hu, length_fmap).
  unfold guard_py. rewrite (bind_ok (mret tt) _ st st tt), (bind_ok _ _ _ _ _ E), get_bind by done.
  rewrite (infos_of_Forall2 _ _ _ Hnew), lift_ok_bind, Es, lift_ok_bind. done.
Qed.

Lemma make_empty_wf uids st : let (st', self) := make_empty uids st in seq_wf st' self.
Proof.
  cbn. split; cbn; [|apply NoDup_seq].
  apply Forall2_same_length_lookup_2; [by rewrite length_seq|]. intros i u a Hu Ha.
  apply lookup_seq in Ha as [-> _]. exists (mkModule u []). split; [|done].
  rewrite lookup_app_r, Nat.add_comm, Nat.add_sub by lia. by rewrite list_lookup_fmap, Hu.
Qed.

Lemma py_slice_sublist {A} (l : list A) a b : ∃ i j, py_slice l a b = take i (drop j l) ∧
  i = Z.to_nat (slice_bound (zlen l) b - slice_bound (zlen l) a) ∧ j = Z.to_nat (slice_bound (zlen l) a).
Proof. unfold py_slice. eauto. Qed.

(** A slice is well formed in the same store. *)
Lemma seq_getitem_wf self a b st s' : seq_wf st self → seq_getitem self a b st = Ok s' → seq_wf st s'.
Proof.
  intros [Hobj Hnd] E. unfold seq_getitem in E. destruct (infos_of _ _); [|done]. cbn in E.
  destruct (sort_spans _) as [[prio cont]|]; [|done]. injection E as <-. split; cbn.
  - unfold py_slice. replace (zlen (block_uids self)) with (zlen (block_infos self)) by (unfold zlen; by rewrite (Forall2_length _ _ _ Hobj)).
    by apply Forall2_take, Forall2_drop.
  - unfold py_slice. eapply sublist_NoDup; [done|]. etransitivity; [apply sublist_take|apply sublist_drop].
Qed.

Lemma assign_servers_mismatch uids addrs news st :
  length addrs = length uids → length news = length uids → uid <$> news ≠ uids →
  ∃ st', assign_servers uids addrs news st = (st', Raise AssertionError).
Proof.
  revert addrs news st. induction uids as [|u uids IH]; intros addrs news st Ha Hn Hne.
  { destruct news; done. }
  destruct addrs as [|a addrs], news as [|n news]; try done. cbn [assign_servers].
  destruct (String.eqb_spec u (uid n)) as [Hu|Hu]; unfold guard_py; [|eexists; by apply bind_raise].
  rewrite (bind_ok (mret tt) _ st st tt), modify_bind by done.
  apply IH; [by injection Ha|by injection Hn|]. intros Heq. apply Hne. simpl. by rewrite Hu, <- Heq.
Qed.

Lemma update_raises self news now st : seq_wf st self →
  uid <$> news ≠ block_uids self → ∃ st', update_ self news now st = (st', Raise AssertionError).
Proof.
  intros [Hobj _] Hne. unfold update_. destruct (Z.eqb_spec (zlen news) (zlen (block_uids self))) as [Hl|Hl].
  - unfold guard_py. rewrite (bind_ok (mret tt) _ st st tt) by done.
    destruct (assign_servers_mismatch (block_uids self) (block_infos self) news st) as [st' E];
      [by rewrite (Forall2_length _ _ _ Hobj)|unfold zlen in Hl; lia|done|].
    exists st'. by apply bind_raise.
  - exists st. by apply bind_raise.
Qed.

Lemma update_offset_raises self news now st e : seq_wf st self → uid <$> news = block_uids self →
  block_offset news = Raise e → ∃ st', update_ self news now st = (st', Raise e).
Proof.
  intros [Hobj Hnd] Hu Hoff.
  destruct (assign_servers_spec (block_uids self) (block_infos self) news st) as (st' & E & Hlen & Hnew & Hold); [done..|].
  exists st'. unfold update_.
  rewrite (proj2 (Z.eqb_eq (zlen news) (zlen (block_uids self)))) by (unfold zlen; by rewrite <- Hu, length_fmap).
  unfold guard_py. rewrite (bind_ok (mret tt) _ st st tt), (bind_ok _ _ _ _ _ E), get_bind by done.
  rewrite (infos_of_Forall2 _ _ _ Hnew), lift_ok_bind. apply bind_raise. unfold lift, sort_spans, compute_spans.
  by rewrite Hoff.
Qed.
End sequence.

(** C14: A refresh of the sequence information. When the DHT answers for the blocks of
    the sequence, [update_] stores the answer in the shared objects (every sequence that
    shares an object sees it, no other object changes) and recomputes the spans: one
    per peer that is online at some block, the longest first, inside the sequence, equal
    to the blocks announced by a server that announces consistently, running from the
    first to the last online block of a server that announces no range; and every block
    is filed with exactly the spans that contain it. A uid that does not parse raises
    its error, and an answer for other blocks raises AssertionError. *)
Theorem update_spans {P} `{PeerIds P} (self : @RemoteSequenceInfo P) news now st :
  seq_wf st self → servers_wf news →
  if decide (uid <$> news = block_uids self) then
    match block_offset news with
    | Ok off => ∃ st' self',
        update_ self news now st = (st', Ok self') ∧
        block_uids self' = block_uids self ∧ block_infos self' = block_infos self ∧
        seq_wf st' self' ∧ infos_of st' (block_infos self') = Ok news ∧
        (∀ a, a ∉ block_infos self → st' !! a = st !! a) ∧ length st' = length st ∧
        spans_of news off (spans_by_priority self') (spans_containing_block self')
    | Raise e => ∃ st', update_ self news now st = (st', Raise e)
    end
  else ∃ st', update_ self news now st = (st', Raise AssertionError).
Proof.
  intros Hwf Hnews. destruct (decide _) as [Hu|Hne]; [|by apply update_raises].
  destruct (block_offset news) as [off|e] eqn:Hoff; [|by eapply update_offset_raises].
  destruct (update_ok self news now st off) as (st' & prio & cont & E & Hs & Hnew & Hold & Hlen); [done..|].
  eexists st', _. split; [exact E|]. cbn. split; [done|]. split; [done|]. split.
  - destruct Hwf as [Hobj Hnd]. split; cbn; [|done]. rewrite <- Hu. apply Forall2_fmap_l, Forall2_flip.
    eapply Forall2_impl; [exact Hnew|]. intros a m Ha. exists m. done.
  - split; [by apply infos_of_Forall2|]. done.
Qed.

(** A concrete kind of peer ids: integers, written in decimal. *)
Definition z_peers : PeerIds Z := {|
  peer_eq_dec := Z.eq_dec;
  peer_ltb := Z.ltb;
  from_base58 s := of_option ValueError (py_int s);
  to_base58 p := pretty p;
|}.

Section example.
#[local] Existing Instance z_peers.

Definition ex_info (s : ServerState) (range : option (Z * Z)) (rps : float) : ServerInfo :=
  mkServerInfo s float_one (fst <$> range) (snd <$> range) None None None None (Some rps) [] None None None None None.
Definition ex_uids : list string := ["m.4"; "m.5"; "m.6"]%string.
Definition ex_news : list (RemoteModuleInfo Z) :=
  [mkModule "m.4" [(7, ex_info ONLINE (Some (3, 6)) float_one); (2, ex_info ONLINE None float_one)];
   mkModule "m.5" [(7, ex_info ONLINE (Some (3, 6)) float_one); (9, ex_info JOINING None float_one)];
   mkModule "m.6" [(2, ex_info ONLINE None float_one)]].
Definition ex_empty := make_empty (P := Z) ex_uids [].

Example update_ex :
  let '(st, self) := ex_empty in
  match update_ self ex_news float_one st with
  | (_, Ok s) => (List.map (λ sp, (peer_id sp, start sp, end_ sp)) (spans_by_priority s),
                  List.map (List.map peer_id) (spans_containing_block s))
  | _ => ([], [])
  end = ([(2, 0, 3); (7, 0, 2)], [[2; 7]; [2; 7]; [2]]).
Proof. vm_compute. reflexivity. Qed.

Lemma update_spans_witness :
  seq_wf ex_empty.1 ex_empty.2 ∧ servers_wf ex_news ∧ uid <$> ex_news = block_uids ex_empty.2 ∧
  ∃ st' self', update_ ex_empty.2 ex_news float_one ex_empty.1 = (st', Ok self') ∧
    spans_of ex_news 4 (spans_by_priority self') (spans_containing_block self').
Proof.
  assert (seq_wf ex_empty.1 ex_empty.2) as Hwf.
  { split; cbn; [repeat constructor; eexists; split; reflexivity|]. repeat constructor; set_solver. }
  assert (servers_wf ex_news) as Hnews.
  { repeat constructor; cbn; set_solver. }
  split; [exact Hwf|]. split; [exact Hnews|]. split; [reflexivity|].
  pose proof (update_spans ex_empty.2 ex_news float_one ex_empty.1 Hwf Hnews) as Ht.
  rewrite decide_True in Ht by reflexivity.
  change (block_offset ex_news) with (Ok 4 : res Z) in Ht.
  destruct Ht as (st' & self' & E & _ & _ & _ & _ & _ & _ & Hs). exists st', self'. split; [exact E|exact Hs].
Defined.
End example.
