(* ===== verification/Routing.v ===== *)
(** * The client's routing (client/routing/sequence_manager.py)

    [RemoteSequenceManager] keeps the sequence information fresh from the DHT, drops
    servers that are not allowed or temporarily banned, and finds routes: the path of
    least delay through a graph of (server, block) nodes, or random servers weighted by
    length. The path search (dijkstar, a cheapest path), the blacklist (hivemind) and the random choice
    (numpy) are parameters; the graph is the sequence of [add_edge] calls the code
    makes. The objects of the sequence information and the blacklist are shared by the
    managers of sub-sequences. *)

From stdpp Require Import numbers base sets strings pretty list.
From Stdlib Require Import ZArith Lia ZifyBool SpecFloat.
From S2P Require Import Prelude Dict PyStr Floats SwarmInfo.

(** ** What the code uses of other packages *)

(** hivemind's [Blacklist]. *)
Class Blacklist (B P : Type) := {
  bl_contains : B → P → bool;
  bl_register_failure : B → P → B;
  bl_register_success : B → P → B;
}.

(** The nodes of the graph: ["start"], ["end"], and pairs [(peer_id, block_idx)]. *)
Inductive node (P : Type) := NStart | NEnd | NBlock (p : P) (b : Z).
Arguments NStart {P}.
Arguments NEnd {P}.
Arguments NBlock {P} p b.

#[export] Instance node_eq_dec {P} `{EqDecision P} : EqDecision (node P).
Proof. solve_decision. Defined.

(** [graph.add_edge(u, v, delay)]; the graph is the list of these calls. *)
Record edge (P : Type) := mkEdge { e_from : node P; e_to : node P; e_delay : float }.
Arguments mkEdge {P} _ _ _.
Arguments e_from {P} _.
Arguments e_to {P} _.
Arguments e_delay {P} _.

Definition has_edge {P} (g : list (edge P)) (u v : node P) : Prop := ∃ d, mkEdge u v d ∈ g.

(** [ns] are the nodes of a path from [u] to [v]. *)
Fixpoint is_path {P} (g : list (edge P)) (u v : node P) (ns : list (node P)) : Prop :=
  match ns with
  | [] => False
  | x :: ns' => x = u ∧ match ns' with [] => u = v | y :: _ => has_edge g u y ∧ is_path g y v ns' end
  end.

(** The delay of the edge from [u] to [v], of the last call that added it. *)
Definition edge_delay {P} `{EqDecision P} (g : list (edge P)) (u v : node P) : option float :=
  e_delay <$> last (filter (λ d, e_from d = u ∧ e_to d = v) g).

(** The delays along the nodes of a path; the cost of a path adds them up from its start. *)
Fixpoint path_delays {P} `{EqDecision P} (g : list (edge P)) (ns : list (node P)) : list float :=
  match ns with
  | [] => []
  | u :: ns' => match ns' with [] => [] | v :: _ => default (S754_zero false) (edge_delay g u v) :: path_delays g ns' end
  end.
Definition total_delay (l : list float) : float := foldl fadd (S754_zero false) l.

(** [dijkstar.find_path(graph, u, v).nodes], which raises [NoPathError] if there is none and
    whose path has the least cost of all, for costs that are not negative. *)
Class PathFinder (P : Type) := find_path : list (edge P) → node P → node P → res (list (node P)).
Class PathFinderLaws (P : Type) `{EqDecision P} `{PathFinder P} : Prop := {
  find_path_sound g u v ns : find_path g u v = Ok ns → is_path g u v ns;
  find_path_complete g u v ns : is_path g u v ns → ∃ ns', find_path g u v = Ok ns';
  find_path_least g u v ns ns' : Forall (λ d, fnonneg (e_delay d) = true) g →
    find_path g u v = Ok ns → is_path g u v ns' → NoDup ns' →
    fleb (total_delay (path_delays g ns)) (total_delay (path_delays g ns')) = true;
}.

(** [np.random.choice(a, p=weights / weights.sum())] on the generator state [G]. *)
Class RandomChoice (G A : Type) := choice : list A → list float → M G A.
Class RandomChoiceLaws (G A : Type) `{RandomChoice G A} : Prop :=
  choice_element l w g : l ≠ [] → length w = length l → Forall (λ x, fltb (S754_zero false) x = true) w →
    ∃ g' x, choice l w g = (g', Ok x) ∧ x ∈ l.

(** ** The manager *)

Definition default_delay : float := S754_finite false 5404319552844595 (-55).
Definition overhead_delay : float := S754_finite false 5188146770730811 (-58).
Definition max_delay : float := float_of_Z 5.
Definition alloc_delay : float := float_of_Z 10.
Definition default_inference_rps : float := float_of_Z 300.
Definition weight_eps : float := S754_finite false 4722366482869645 (-72).

Record manager (P : Type) := mkManager {
  sequence_info : @RemoteSequenceInfo P;
  allowed_servers : option (list P);
  blocked_servers : option (list P);
  active_adapter : option string;
  ready : bool;
}.
Arguments mkManager {P} _ _ _ _ _.
Arguments sequence_info {P} _.
Arguments allowed_servers {P} _.
Arguments blocked_servers {P} _.
Arguments active_adapter {P} _.
Arguments ready {P} _.

Section routing.
Context {P : Type} `{PeerIds P} {B : Type} `{Blacklist B P}.

(** What the managers of one family share. *)
Record shared := mkShared { objects : list (RemoteModuleInfo P); banned_peers : B }.

Definition set_info (i : @RemoteSequenceInfo P) (m : manager P) : manager P :=
  mkManager i (allowed_servers m) (blocked_servers m) (active_adapter m) (ready m).
Definition set_ready (b : bool) (m : manager P) : manager P :=
  mkManager (sequence_info m) (allowed_servers m) (blocked_servers m) (active_adapter m) b.

Implicit Types (w : shared) (m : manager P) (sp : RemoteSpanInfo P) (p : P).

(** [__init__] with a state that has the sequence information [i], or without ([None]). *)
Definition new_manager (uids : list string) (i : option (@RemoteSequenceInfo P))
    (allowed blocked : option (list P)) (adapter : option string) : M shared (manager P) :=
  guard_py (0 <? zlen uids) AssertionError;;
  match i with
  | None =>
      w ← get;
      let '(st, info) := make_empty uids (objects w) in
      put (mkShared st (banned_peers w));;
      mret (mkManager info allowed blocked adapter false)
  | Some info =>
      match last_updated_time info with
      | None => mret (mkManager info allowed blocked adapter false)
      | Some _ =>
          guard_py (bool_decide (uids = block_uids info)) AssertionError;;
          mret (mkManager info allowed blocked adapter true)
      end
  end.

(** [manager[a:b]] *)
Definition manager_slice m (a b : Z) : M shared (manager P) :=
  w ← get;
  info ← lift (seq_getitem (sequence_info m) a b (objects w));
  new_manager (py_slice (block_uids (sequence_info m)) a b) (Some info)
    (allowed_servers m) (blocked_servers m) (active_adapter m).

(** [manager[i]] is [manager[i:i+1]], also for a negative [i]. *)
Definition manager_item m (i : Z) : M shared (manager P) := manager_slice m i (i + 1).

(** *** Refreshing *)

Definition in_list (l : list P) p : bool := existsb (λ q, bool_decide (q = p)) l.

Definition is_allowed m p : bool :=
  match allowed_servers m with None => true | Some l => in_list l p end &&
  match blocked_servers m with None => true | Some l => negb (in_list l p) end.

(** The allow and block lists, then the temporary bans unless nobody would be left. *)
Definition filter_servers (bl : B) m (servers : dict P ServerInfo) : dict P ServerInfo :=
  let kept := List.filter (λ kv, is_allowed m kv.1) servers in
  let valid := List.filter (λ kv, negb (bl_contains bl kv.1)) kept in
  if zlen valid <? zlen kept then match valid with [] => kept | _ => valid end else kept.

Definition filter_info (bl : B) m (i : RemoteModuleInfo P) : RemoteModuleInfo P :=
  set_servers (filter_servers bl m (servers i)) i.

(** The servers that may be pinged: first block, middle blocks, last block. *)
Definition ping_candidates (i : @RemoteSequenceInfo P) : res (list P * list P * list P) :=
  match py_index (spans_containing_block i) 0, py_index (spans_containing_block i) (-1) with
  | Some first, Some last =>
      Ok (peer_id <$> first, peer_id <$> mjoin (py_slice (spans_containing_block i) 1 (-1)), peer_id <$> last)
  | _, _ => Raise IndexError
  end.

Section update.
Context {V : Type} (from_tuple : V → res ServerInfo).

(** One refresh; [found] is the answer of the DHT, [now] the clock. *)
Definition update_manager (found : string → option (option (dict string V))) (now : float) :
    M (shared * manager P) unit :=
  '(w, m) ← get;
  infos ← lift (get_remote_module_infos from_tuple (active_adapter m) (block_uids (sequence_info m)) found);
  let news := filter_info (banned_peers w) m <$> infos in
  match update_ (sequence_info m) news now (objects w) with
  | (st, Raise e) => put (mkShared st (banned_peers w), m);; mthrow e
  | (st, Ok info) =>
      put (mkShared st (banned_peers w), set_info info m);;
      lift (ping_candidates info);;
      modify (λ wm, (wm.1, set_ready true wm.2))
  end.

(** [update(wait=True)]: the background thread refreshes until it succeeds; what it
    raises is logged. [answers] are the DHT's successive answers; when they are used up
    the caller is still waiting. *)
Fixpoint wait_ready (answers : list ((string → option (option (dict string V))) * float)) : M (shared * manager P) unit :=
  '(w, m) ← get;
  if ready m then mret tt
  else
    match answers with
    | [] => mthrow OutOfFuel
    | (found, now) :: answers' => λ s, let (s', _) := update_manager found now s in wait_ready answers' s'
    end.
End update.

(** [on_request_failure]: [info.servers.pop(peer_id, None)] on every block. *)
Definition pop_server (o : option P) (i : RemoteModuleInfo P) : RemoteModuleInfo P :=
  match o with Some p => set_servers (dict_del (servers i) p) i | None => i end.

Definition no_servers (i : RemoteModuleInfo P) : bool := match servers i with [] => true | _ => false end.

Definition on_request_failure (o : option P) : M (shared * manager P) unit :=
  '(w, m) ← get;
  let bl := match o with Some p => bl_register_failure (banned_peers w) p | None => banned_peers w end in
  let st := fold_left (λ st a, alter (pop_server o) a st) (block_infos (sequence_info m)) (objects w) in
  let should_update := existsb (λ a, match st !! a with Some i => no_servers i | None => false end)
                         (block_infos (sequence_info m)) in
  put (mkShared st bl, if should_update then set_ready false m else m).

Definition on_request_success p : M (shared * manager P) unit :=
  modify (λ wm, (mkShared (objects wm.1) (bl_register_success (banned_peers wm.1) p), wm.2)).

(** *** Delays *)

(** [_rtt_to_delay] *)
Definition rtt_to_delay (rtt : option float) : float :=
  match rtt with None => default_delay | Some r => fmin (fdiv r (float_of_Z 2)) max_delay end.

(** [_has_cache_for] *)
Definition has_cache_for sp (cache_tokens_needed : option Z) : bool :=
  match cache_tokens_needed, cache_tokens_left (server_info sp) with
  | Some n, Some tokens_left => n * 2 * span_length sp <=? tokens_left
  | _, _ => true
  end.

(** Reaching the server of [sp] over a link of round-trip time [rtt]. *)
Definition hop_delay (rtt : option float) sp (cache_tokens_needed : option Z) : float :=
  let delay := fadd (rtt_to_delay rtt) overhead_delay in
  if has_cache_for sp cache_tokens_needed then delay else fadd delay alloc_delay.

(** *** The inference graph *)

Section graph.
Context (info : @RemoteSequenceInfo P) (client_server_rtts : dict P float) (cache_tokens_needed : option Z).

(** [spans_containing_block[i]] *)
Definition spans_at (i : Z) : res (list (RemoteSpanInfo P)) :=
  of_option IndexError (py_index (spans_containing_block info) i).

Fixpoint missing_blocks (blocks : list Z) : res (list Z) :=
  match blocks with
  | [] => Ok []
  | b :: blocks' =>
      match spans_at b with
      | Raise e => Raise e
      | Ok spans =>
          match missing_blocks blocks' with
          | Raise e => Raise e
          | Ok missing => Ok match spans with [] => b :: missing | _ => missing end
          end
      end
  end.

Definition check_missing (start_index end_index : Z) : res unit :=
  match missing_blocks (py_range start_index end_index) with
  | Ok [] => Ok tt
  | Ok _ => Raise MissingBlocksError
  | Raise e => Raise e
  end.

(** Client to server. *)
Definition start_edges (start_index : Z) (spans : list (RemoteSpanInfo P)) : list (edge P) :=
  (λ sp, mkEdge NStart (NBlock (peer_id sp) start_index)
           (hop_delay (dict_get client_server_rtts (peer_id sp)) sp cache_tokens_needed)) <$> spans.

(** Server to client. *)
Definition end_edges (end_index : Z) (spans : list (RemoteSpanInfo P)) : list (edge P) :=
  (λ sp, mkEdge (NBlock (peer_id sp) end_index) NEnd
           (rtt_to_delay (dict_get client_server_rtts (peer_id sp)))) <$> spans.

(** From the servers that end before [block_idx] to the servers that hold it. *)
Definition switch_edges (block_idx : Z) (cur next : list (RemoteSpanInfo P)) : list (edge P) :=
  cur_span ← List.filter (λ sp, end_ sp =? block_idx) cur;
  next_span ← next;
  let rtt := match next_pings (server_info cur_span) with
             | Some pings => dict_get pings (to_base58 (peer_id next_span)) | None => None end in
  [mkEdge (NBlock (peer_id cur_span) block_idx) (NBlock (peer_id next_span) block_idx)
     (hop_delay rtt next_span cache_tokens_needed)].

Fixpoint all_switch_edges (blocks : list Z) : res (list (edge P)) :=
  match blocks with
  | [] => Ok []
  | b :: blocks' =>
      match spans_at (b - 1), spans_at b, all_switch_edges blocks' with
      | Ok cur, Ok next, Ok edges => Ok (switch_edges b cur next ++ edges)
      | Raise e, _, _ | _, Raise e, _ | _, _, Raise e => Raise e
      end
  end.

(** Computing one block after another on the same server. *)
Definition inference_delay sp : res float :=
  py_div (float_of_Z 1) (match inference_rps (server_info sp) with Some x => x | None => default_inference_rps end).

Fixpoint compute_edges (start_index end_index : Z) (spans : list (RemoteSpanInfo P)) : res (list (edge P)) :=
  match spans with
  | [] => Ok []
  | sp :: spans' =>
      let blocks := py_range (Z.max (start sp) start_index) (Z.min (end_ sp) end_index) in
      here ← mapM (λ b, delay ← inference_delay sp;
                        mret (mkEdge (NBlock (peer_id sp) b) (NBlock (peer_id sp) (b + 1)) delay)) blocks;
      rest ← compute_edges start_index end_index spans';
      mret (here ++ rest)
  end.

Definition build_inference_graph (start_index end_index : Z) : res (list (edge P)) :=
  check_missing start_index end_index;;
  first ← spans_at start_index;
  last ← spans_at (end_index - 1);
  switches ← all_switch_edges (py_range (start_index + 1) end_index);
  computes ← compute_edges start_index end_index (spans_by_priority info);
  mret (start_edges start_index first ++ end_edges end_index last ++ switches ++ computes).

(** *** Routes of least delay *)

(** [{span.peer_id: span.server_info for block_idx in ... for span in ...}] *)
Fixpoint server_infos (blocks : list Z) (acc : dict P ServerInfo) : res (dict P ServerInfo) :=
  match blocks with
  | [] => Ok acc
  | b :: blocks' =>
      spans ← spans_at b;
      server_infos blocks' (fold_left (λ d sp, dict_set d (peer_id sp) (server_info sp)) spans acc)
  end.

(** The loop over [path.nodes[1:-1]]; [acc] is [span_sequence] reversed. *)
Fixpoint group_nodes (infos : dict P ServerInfo) (acc : list (RemoteSpanInfo P)) (nodes : list (node P)) :
    res (list (RemoteSpanInfo P)) :=
  match nodes with
  | [] => Ok (reverse acc)
  | NBlock p b :: nodes' =>
      let new := si ← of_option KeyError (dict_get infos p); group_nodes infos (mkSpan p b b si :: acc) nodes' in
      match acc with
      | sp :: acc' => if decide (peer_id sp = p) then group_nodes infos (set_end sp b :: acc') nodes' else new
      | [] => new
      end
  | _ => Raise ValueError
  end.

Definition make_sequence_with_min_latency `{PathFinder P} (start_index end_index : Z) : res (list (RemoteSpanInfo P)) :=
  if start_index =? end_index then Ok []
  else
    check_missing start_index end_index;;
    infos ← server_infos (py_range start_index end_index) [];
    graph ← build_inference_graph start_index end_index;
    nodes ← find_path graph NStart NEnd;
    spans ← group_nodes infos [] (py_slice nodes 1 (-1));
    mret (List.filter (λ sp, 0 <? span_length sp) spans).

(** *** Random routes *)

Definition span_weight sp : float :=
  match dict_get client_server_rtts (peer_id sp) with
  | Some r => if SFeqb r float_inf then weight_eps else float_of_Z (span_length sp)
  | None => float_of_Z (span_length sp)
  end.

Fixpoint max_throughput_loop {G} `{RandomChoice G (RemoteSpanInfo P)} (fuel : nat) (current_index end_index : Z)
    (span_sequence : list (RemoteSpanInfo P)) : M G (list (RemoteSpanInfo P)) :=
  if current_index <? end_index then
    match fuel with
    | O => mthrow OutOfFuel
    | S fuel' =>
        candidate_spans ← lift (spans_at current_index);
        match candidate_spans with
        | [] => mthrow MissingBlocksError
        | _ =>
            chosen_span ← choice candidate_spans (span_weight <$> candidate_spans);
            guard_py ((start chosen_span <=? current_index) && (current_index <? end_ chosen_span)) AssertionError;;
            max_throughput_loop fuel' (end_ chosen_span) end_index
              (span_sequence ++ [mkSpan (peer_id chosen_span) current_index (end_ chosen_span) (server_info chosen_span)])
        end
    end
  else mret span_sequence.

Definition make_sequence_with_max_throughput {G} `{RandomChoice G (RemoteSpanInfo P)} (start_index end_index : Z) :
    M G (list (RemoteSpanInfo P)) :=
  max_throughput_loop (Z.to_nat (end_index - start_index)) start_index end_index [].
End graph.

(** [make_sequence], once the manager is ready; [mode] is the code's string. *)
Definition make_sequence {G} `{RandomChoice G (RemoteSpanInfo P)} `{PathFinder P} m (rtts : dict P float)
    (start_index : Z) (end_index : option Z) (mode : string) (cache_tokens_needed : option Z) :
    M G (list (RemoteSpanInfo P)) :=
  let e := match end_index with Some e => e | None => zlen (block_uids (sequence_info m)) end in
  if String.eqb mode "min_latency" then
    lift (make_sequence_with_min_latency (sequence_info m) rtts cache_tokens_needed start_index e)
  else if String.eqb mode "max_throughput" then
    make_sequence_with_max_throughput (sequence_info m) rtts start_index e
  else mthrow RuntimeError.
End routing.

Lemma elem_of_bfilter {A} (f : A → bool) (l : list A) x : x ∈ List.filter f l ↔ x ∈ l ∧ f x = true.
Proof. rewrite !list_elem_of_In. apply List.filter_In. Qed.

(** ** Lemmas: routes *)

(** Consecutive non-empty pieces from [a] to [b]. *)
Fixpoint tiles {P} (a b : Z) (route : list (RemoteSpanInfo P)) : Prop :=
  match route with
  | [] => a = b
  | h :: route' => start h = a ∧ a < end_ h ∧ tiles (end_ h) b route'
  end.

Lemma tiles_snoc {P} a b c h (route : list (RemoteSpanInfo P)) : tiles a b route → start h = b → b < c → end_ h = c → tiles a c (route ++ [h]).
Proof.
  intros Ht Hh Hlt <-. revert a Ht. induction route as [|x route IH]; intros a; simpl; [intros ->; done|]. naive_solver.
Qed.

Lemma tiles_filter {P} a b (route : list (RemoteSpanInfo P)) : tiles a b route → List.filter (λ sp, 0 <? span_length sp) route = route.
Proof.
  revert a. induction route as [|h route IH]; intros a; simpl; [done|]. intros (<- & Hlt & Ht).
  unfold span_length at 1. rewrite (proj2 (Z.ltb_lt 0 (end_ h - start h))) by lia. f_equal. by eapply IH.
Qed.

Lemma py_slice_inner {A} (x y : A) l : py_slice (x :: l ++ [y]) 1 (-1) = l.
Proof.
  assert (zlen (x :: l ++ [y]) = 2 + zlen l) as E.
  { autorewrite with py_len. change (zlen (@nil A)) with 0. lia. }
  pose proof (zlen_nonneg l). unfold py_slice, slice_bound. rewrite E. cbn [Z.ltb Z.compare].
  rewrite Z.min_l, Z.max_r by lia. replace (Z.to_nat (2 + zlen l + -1 - 1)) with (length l) by (unfold zlen; lia).
  change (drop (Z.to_nat 1) (x :: l ++ [y])) with (l ++ [y]). by rewrite take_app_length.
Qed.

(** ** Lemmas: the graph *)

Section graph_proofs.
Context {P : Type} `{PeerIds P} (info : @RemoteSequenceInfo P) (infos : list (RemoteModuleInfo P)) (off : Z).
Context (rtts : dict P float) (cache_tokens_needed : option Z).
Context (Hinfo : spans_of infos off (spans_by_priority info) (spans_containing_block info)).
Notation prio := (spans_by_priority info).
Implicit Types (p : P) (sp : RemoteSpanInfo P) (b : Z).

Definition holds sp b : Prop := start sp ≤ b < end_ sp.
Definition holding b : list (RemoteSpanInfo P) := filter (λ sp, contains sp (Z.to_nat b) = true) prio.

Lemma holding_elem sp b : 0 ≤ b → sp ∈ holding b ↔ sp ∈ prio ∧ holds sp b.
Proof.
  intros Hb. unfold holding, holds. rewrite list_elem_of_filter. unfold contains.
  rewrite Z2Nat.id, andb_true_iff, Z.leb_le, Z.ltb_lt by done. tauto.
Qed.

Lemma spans_at_holding b : 0 ≤ b < zlen infos → spans_at info b = Ok (holding b).
Proof.
  intros Hb. unfold spans_at. rewrite py_index_nonneg by lia.
  rewrite (sf_containing _ _ _ _ Hinfo) by (unfold zlen in Hb; lia). done.
Qed.

Lemma same_peer sp sp' : sp ∈ prio → sp' ∈ prio → peer_id sp = peer_id sp' → sp = sp'.
Proof.
  intros (i & Hi)%list_elem_of_lookup_1 (j & Hj)%list_elem_of_lookup_1 E.
  assert (i = j) as ->; [|congruence].
  eapply (NoDup_lookup _ i j (peer_id sp) (sf_peers _ _ _ _ Hinfo)); rewrite list_lookup_fmap; [by rewrite Hi|by rewrite Hj, E].
Qed.

Lemma prio_bounds sp : sp ∈ prio → 0 ≤ start sp ∧ end_ sp ≤ zlen infos.
Proof. intros Hsp. destruct (sf_spans _ _ _ _ Hinfo sp Hsp) as (? & ? & _). done. Qed.

(** Every block of the range is held by somebody. *)
Definition covered (s e : Z) : Prop := ∀ b, s ≤ b < e → holding b ≠ [].

#[global] Instance covered_dec s e : Decision (covered s e).
Proof.
  destruct (decide (Forall (λ b, holding b ≠ []) (seqZ s (e - s)))) as [Hf|Hf]; [left|right].
  - intros b Hb. rewrite list.Forall_forall in Hf. apply Hf, elem_of_seqZ. lia.
  - intros Hc. apply Hf, list.Forall_forall. intros b Hb%elem_of_seqZ. apply Hc. lia.
Defined.

Lemma missing_blocks_spec blocks : (∀ b, b ∈ blocks → 0 ≤ b < zlen infos) →
  missing_blocks info blocks = Ok (filter (λ b, holding b = []) blocks).
Proof.
  induction blocks as [|b blocks IH]; intros Hb; [done|]. cbn [missing_blocks].
  rewrite spans_at_holding by (apply Hb; by left). rewrite IH by (intros; apply Hb; by right).
  rewrite filter_cons. destruct (holding b) eqn:E; [by rewrite decide_True|by rewrite decide_False].
Qed.

Lemma check_missing_spec s e : 0 ≤ s → e ≤ zlen infos →
  check_missing info s e = if decide (covered s e) then Ok tt else Raise MissingBlocksError.
Proof.
  intros Hs He. unfold check_missing, py_range. rewrite missing_blocks_spec by (intros b Hb%elem_of_seqZ; lia).
  destruct (filter _ _) as [|b l] eqn:E.
  - rewrite decide_True; [done|]. intros b Hb Hn.
    assert (b ∈ filter (λ b, holding b = []) (seqZ s (e - s))) as Hin; [|rewrite E in Hin; by apply not_elem_of_nil in Hin].
    apply list_elem_of_filter. split; [done|]. apply elem_of_seqZ. lia.
  - rewrite decide_False; [done|]. intros Hc.
    assert (b ∈ filter (λ b, holding b = []) (seqZ s (e - s))) as [Hn Hb]%list_elem_of_filter; [rewrite E; by left|].
    apply elem_of_seqZ in Hb. apply (Hc b); [lia|done].
Qed.

Lemma all_switch_edges_spec blocks : (∀ b, b ∈ blocks → 1 ≤ b < zlen infos) →
  all_switch_edges info cache_tokens_needed blocks =
    Ok (mjoin ((λ b, switch_edges cache_tokens_needed b (holding (b - 1)) (holding b)) <$> blocks)).
Proof.
  induction blocks as [|b blocks IH]; intros Hb; [done|]. cbn [all_switch_edges].
  pose proof (Hb b ltac:(by left)). rewrite !spans_at_holding by lia.
  rewrite IH by (intros; apply Hb; by right). done.
Qed.

(** A server whose announced rate is zero. *)
Definition zero_rps sp : bool := match inference_rps (server_info sp) with Some x => is_zero x | None => false end.
Definition touches (s e : Z) sp : bool := Z.max (start sp) s <? Z.min (end_ sp) e.

Lemma inference_delay_spec sp :
  if zero_rps sp then inference_delay sp = Raise ZeroDivisionError else ∃ d, inference_delay sp = Ok d.
Proof.
  unfold zero_rps, inference_delay, py_div. destruct (inference_rps (server_info sp)) as [x|]; [|by eexists].
  destruct (is_zero x); by eexists.
Qed.

Lemma compute_edges_spec s e l :
  if existsb (λ sp, touches s e sp && zero_rps sp) l then compute_edges s e l = Raise ZeroDivisionError
  else ∃ es, compute_edges s e l = Ok es ∧
    (∀ u v, has_edge es u v ↔ ∃ sp b, sp ∈ l ∧ holds sp b ∧ s ≤ b < e ∧
       u = NBlock (peer_id sp) b ∧ v = NBlock (peer_id sp) (b + 1)).
Proof.
  induction l as [|sp l IH]; cbn [existsb compute_edges].
  { exists []. split; [done|]. intros u v. split; [intros [d Hd%not_elem_of_nil]; done|].
    intros (sp & b & Hin%not_elem_of_nil & _). done. }
  unfold touches at 1. unfold py_range.
  set (lo := Z.max (start sp) s). set (hi := Z.min (end_ sp) e). pose proof (inference_delay_spec sp) as Hd.
  destruct (Z.ltb_spec lo hi) as [Hlt|Hge], (zero_rps sp); cbn [andb orb].
  - rewrite seqZ_cons by lia. cbn [mapM]. rewrite Hd. done.
  - destruct Hd as [d Hd].
    rewrite (mapM_Ok _ (λ b, mkEdge (NBlock (peer_id sp) b) (NBlock (peer_id sp) (b + 1)) d)) by (intros; by rewrite Hd).
    cbn [mbind res_bind]. destruct (existsb _ l); [by rewrite IH|]. destruct IH as (es & -> & Hes).
    cbn. eexists. split; [reflexivity|]. intros u v. unfold has_edge in *. setoid_rewrite elem_of_app.
    setoid_rewrite list_elem_of_fmap. setoid_rewrite elem_of_cons. setoid_rewrite elem_of_seqZ.
    split.
    + intros [x [(b & [= -> -> ->] & Hb)|Hin]].
      * exists sp, b. unfold holds. split; [by left|]. repeat split; lia.
      * destruct (proj1 (Hes u v) (ex_intro _ x Hin)) as (sp' & b & ? & Hrest). exists sp', b. split; [by right|done].
    + intros (sp' & b & [-> |Hin] & Hh & Hb & -> & ->).
      * exists d. left. exists b. split; [done|]. unfold holds in Hh. lia.
      * destruct (proj2 (Hes (NBlock (peer_id sp') b) (NBlock (peer_id sp') (b + 1)))) as [x Hx]; [exists sp', b; done|].
        exists x. by right.
  - rewrite seqZ_nil by lia. cbn. destruct (existsb _ l); [by rewrite IH|]. destruct IH as (es & -> & Hes).
    exists es. split; [done|]. intros u v. rewrite Hes. setoid_rewrite elem_of_cons. split; [naive_solver|].
    intros (sp' & b & [-> |Hin] & Hh & Hb & ?); [unfold holds in Hh; lia|eauto 8].
  - rewrite seqZ_nil by lia. cbn. destruct (existsb _ l); [by rewrite IH|]. destruct IH as (es & -> & Hes).
    exists es. split; [done|]. intros u v. rewrite Hes. setoid_rewrite elem_of_cons. split; [naive_solver|].
    intros (sp' & b & [-> |Hin] & Hh & Hb & ?); [unfold holds in Hh; lia|eauto 8].
Qed.

(** The edges of the graph. *)
Inductive link (s e : Z) : node P → node P → Prop :=
| link_start sp : sp ∈ prio → holds sp s → link s e NStart (NBlock (peer_id sp) s)
| link_end sp : sp ∈ prio → holds sp (e - 1) → link s e (NBlock (peer_id sp) e) NEnd
| link_switch sp sp' b : s < b < e → sp ∈ prio → holds sp (b - 1) → end_ sp = b → sp' ∈ prio → holds sp' b →
    link s e (NBlock (peer_id sp) b) (NBlock (peer_id sp') b)
| link_block sp b : s ≤ b < e → sp ∈ prio → holds sp b → link s e (NBlock (peer_id sp) b) (NBlock (peer_id sp) (b + 1)).

Notation build s e := (build_inference_graph info rtts cache_tokens_needed s e).

Lemma has_edge_app (g1 g2 : list (edge P)) u v : has_edge (g1 ++ g2) u v ↔ has_edge g1 u v ∨ has_edge g2 u v.
Proof. unfold has_edge. setoid_rewrite elem_of_app. naive_solver. Qed.

Lemma has_edge_fmap {A} (f : A → node P) (h : A → node P) (d : A → float) (l : list A) u v :
  has_edge ((λ x, mkEdge (f x) (h x) (d x)) <$> l) u v ↔ ∃ x, x ∈ l ∧ u = f x ∧ v = h x.
Proof. unfold has_edge. setoid_rewrite list_elem_of_fmap. naive_solver. Qed.

Lemma has_edge_switch b cur next u v : has_edge (switch_edges cache_tokens_needed b cur next) u v ↔
  ∃ sp sp', sp ∈ cur ∧ end_ sp = b ∧ sp' ∈ next ∧ u = NBlock (peer_id sp) b ∧ v = NBlock (peer_id sp') b.
Proof.
  unfold has_edge, switch_edges. setoid_rewrite list_elem_of_bind. setoid_rewrite list_elem_of_bind.
  setoid_rewrite list_elem_of_singleton. setoid_rewrite elem_of_bfilter. setoid_rewrite Z.eqb_eq. split.
  - intros (d & sp & (sp' & [= -> -> ->] & Hn) & Hc & Hb). exists sp, sp'. done.
  - intros (sp & sp' & Hc & Hb & Hn & -> & ->). eexists _, sp. split; [|done]. exists sp'. done.
Qed.

Lemma has_edge_join {A} (f : A → list (edge P)) (l : list A) u v :
  has_edge (mjoin (f <$> l)) u v ↔ ∃ x, x ∈ l ∧ has_edge (f x) u v.
Proof.
  unfold has_edge. setoid_rewrite list_elem_of_join. setoid_rewrite list_elem_of_fmap. naive_solver.
Qed.

Lemma build_spec s e : 0 ≤ s < e → e ≤ zlen infos → covered s e →
  if existsb (λ sp, touches s e sp && zero_rps sp) prio then build s e = Raise ZeroDivisionError
  else ∃ g, build s e = Ok g ∧ ∀ u v, has_edge g u v ↔ link s e u v.
Proof.
  intros Hs He Hc. unfold build_inference_graph. rewrite check_missing_spec, decide_True by (done || lia).
  cbn [mbind res_bind]. rewrite !spans_at_holding by lia. cbn [mbind res_bind].
  rewrite all_switch_edges_spec by (unfold py_range; intros b Hb%elem_of_seqZ; lia). cbn [mbind res_bind].
  pose proof (compute_edges_spec s e prio) as Hce. destruct (existsb _ prio); [by rewrite Hce|].
  destruct Hce as (es & -> & Hes). cbn [mbind res_bind mret res_ret]. eexists. split; [reflexivity|].
  intros u v. rewrite !has_edge_app, Hes. unfold start_edges, end_edges. rewrite !has_edge_fmap, has_edge_join.
  setoid_rewrite has_edge_switch. unfold py_range. setoid_rewrite elem_of_seqZ. split.
  - intros [(sp & Hsp & -> & ->)|[(sp & Hsp & -> & ->)|[(b & Hb & sp & sp' & Hsp & Hend & Hsp' & -> & ->)|(sp & b & Hsp & Hh & Hb & -> & ->)]]].
    + apply holding_elem in Hsp as [? ?]; [|lia]. by constructor.
    + apply holding_elem in Hsp as [? ?]; [|lia]. by constructor.
    + apply holding_elem in Hsp as [? ?], Hsp' as [? ?]; [|lia..]. apply link_switch; try done. lia.
    + by apply link_block.
  - intros [sp Hsp Hh|sp Hsp Hh|sp sp' b Hb Hsp Hh Hend Hsp' Hh'|sp b Hb Hsp Hh].
    + left. exists sp. split; [|done]. apply holding_elem; [lia|done].
    + right; left. exists sp. split; [|done]. apply holding_elem; [lia|done].
    + right; right; left. exists b. split; [lia|]. exists sp, sp'. rewrite !holding_elem by lia. done.
    + right; right; right. exists sp, b. done.
Qed.

(** *** The delays of the edges *)

(** The announced span of a peer. *)
Definition announced_span p : option (RemoteSpanInfo P) := List.find (λ sp, bool_decide (peer_id sp = p)) prio.

Lemma announced_span_prio sp : sp ∈ prio → announced_span (peer_id sp) = Some sp.
Proof.
  intros Hsp. unfold announced_span. destruct (List.find _ prio) as [x|] eqn:E.
  - apply List.find_some in E as [Hx Hp%bool_decide_eq_true]. apply list_elem_of_In in Hx. f_equal. by apply same_peer.
  - pose proof (List.find_none _ _ E sp) as Hn. cbn in Hn. rewrite bool_decide_true in Hn by done. by discriminate Hn; apply list_elem_of_In.
Qed.

Lemma announced_span_in p sp : announced_span p = Some sp → sp ∈ prio.
Proof. intros [Hx _]%List.find_some. by apply list_elem_of_In. Qed.

(** What a route costs, in seconds. A link takes half its round trip, at most five, 0.15 when
    nobody knows; a hop takes its link, 0.018 for serialization and ten when the server has no
    room in its cache for two tensors of the tokens needed for each of its blocks; a block takes
    the inverse of the announced rate, or of 300; and the last server answers the client. *)
Definition link_seconds (rtt : option float) : float :=
  match rtt with
  | None => fdiv (float_of_Z 15) (float_of_Z 100)
  | Some r => if fltb (float_of_Z 5) (fdiv r (float_of_Z 2)) then float_of_Z 5 else fdiv r (float_of_Z 2)
  end.
Definition lacks_room sp : bool :=
  match cache_tokens_needed, cache_tokens_left (server_info sp) with
  | Some n, Some tokens => tokens <? n * 2 * (end_ sp - start sp)
  | _, _ => false
  end.
Definition hop_seconds (rtt : option float) sp : float :=
  let linked := fadd (link_seconds rtt) (fdiv (float_of_Z 18) (float_of_Z 1000)) in
  if lacks_room sp then fadd linked (float_of_Z 10) else linked.
Definition block_seconds sp : float :=
  match inference_rps (server_info sp) with
  | Some x => if is_zero x then S754_zero false else fdiv (float_of_Z 1) x
  | None => fdiv (float_of_Z 1) (float_of_Z 300)
  end.

Definition client_rtt p : option float := dict_get rtts p.
Definition server_rtt sp p : option float :=
  match next_pings (server_info sp) with Some pings => dict_get pings (to_base58 p) | None => None end.

(** The delays along a route, in order; [prev] is the server before it. *)
Fixpoint route_delays (prev : option (RemoteSpanInfo P)) (route : list (RemoteSpanInfo P)) : list float :=
  match route with
  | [] => match prev with Some sp => [link_seconds (client_rtt (peer_id sp))] | None => [] end
  | h :: route' =>
      let sp := default h (announced_span (peer_id h)) in
      hop_seconds (match prev with Some q => server_rtt q (peer_id sp) | None => client_rtt (peer_id sp) end) sp ::
      replicate (Z.to_nat (end_ h - start h)) (block_seconds sp) ++ route_delays (Some sp) route'
  end.

(** The delay of a pair of nodes that an edge joins. *)
Definition link_delay (u v : node P) : float :=
  let on p f := match announced_span p with Some sp => f sp | None => S754_zero false end in
  match u, v with
  | NStart, NBlock p _ => on p (hop_seconds (client_rtt p))
  | NBlock p _, NEnd => link_seconds (client_rtt p)
  | NBlock p b, NBlock q c => if b =? c then on p (λ sp, on q (hop_seconds (server_rtt sp q))) else on p block_seconds
  | _, _ => S754_zero false
  end.
Definition delays_right (es : list (edge P)) : Prop := Forall (λ d, e_delay d = link_delay (e_from d) (e_to d)) es.

Lemma rtt_to_delay_seconds rtt : rtt_to_delay rtt = link_seconds rtt.
Proof. by destruct rtt. Qed.

Lemma hop_delay_seconds rtt sp : hop_delay rtt sp cache_tokens_needed = hop_seconds rtt sp.
Proof.
  unfold hop_delay, hop_seconds, has_cache_for, lacks_room, span_length. rewrite rtt_to_delay_seconds.
  destruct cache_tokens_needed as [n|]; [|done]. destruct (cache_tokens_left _) as [l|]; [|done].
  rewrite Z.leb_antisym. by destruct (l <? _).
Qed.

Lemma inference_delay_seconds sp d : inference_delay sp = Ok d → d = block_seconds sp.
Proof.
  unfold inference_delay, block_seconds, py_div. destruct (inference_rps _) as [x|]; [destruct (is_zero x); [done|]|]; by intros [= <-].
Qed.

Lemma compute_delays_right a b l es : (∀ sp, sp ∈ l → sp ∈ prio) → compute_edges a b l = Ok es → delays_right es.
Proof.
  revert es. induction l as [|sp l IH]; intros es Hl; cbn [compute_edges]; [by intros [= <-]; constructor|].
  set (blocks := py_range _ _). destruct (mapM _ blocks) as [here|] eqn:Eh; [|done]. cbn [mbind res_bind].
  destruct (compute_edges a b l) as [rest|] eqn:Er; [|done]. intros [= <-]. apply Forall_app. split.
  2:{ apply IH; [intros; apply Hl; by right|done]. }
  clear Er IH. revert here Eh. induction blocks as [|c blocks IH]; intros here; cbn [mapM]; [by intros [= <-]; constructor|].
  destruct (inference_delay sp) as [d|] eqn:Ed; [|done]. cbn [mbind res_bind mret res_ret].
  destruct (mapM _ blocks) as [here'|] eqn:Eh; [|done]. intros [= <-]. constructor; [|by apply IH].
  cbn [e_delay e_from e_to link_delay]. rewrite (proj2 (Z.eqb_neq c (c + 1))) by lia.
  rewrite announced_span_prio by (apply Hl; by left). by apply inference_delay_seconds.
Qed.

Lemma build_delays_right a b g0 : 0 ≤ a < b → b ≤ zlen infos → build a b = Ok g0 → delays_right g0.
Proof.
  intros Ha Hb. unfold build_inference_graph. destruct (check_missing info a b); [|done]. cbn [mbind res_bind].
  rewrite !spans_at_holding by lia. cbn [mbind res_bind]. rewrite all_switch_edges_spec by (unfold py_range; intros c Hc%elem_of_seqZ; lia).
  cbn [mbind res_bind]. destruct (compute_edges a b prio) as [es|] eqn:Ec; [|done]. intros [= <-].
  repeat apply Forall_app_2; [| | |by eapply compute_delays_right].
  - apply Forall_fmap, Forall_forall. intros sp [Hsp _]%holding_elem; [|lia]. cbn. by rewrite announced_span_prio, hop_delay_seconds.
  - apply Forall_fmap, Forall_forall. intros sp _. cbn. apply rtt_to_delay_seconds.
  - apply Forall_forall. intros d (es' & Hd & (c & -> & Hc)%list_elem_of_fmap)%list_elem_of_join. unfold py_range in Hc. apply elem_of_seqZ in Hc.
    unfold switch_edges in Hd. apply list_elem_of_bind in Hd as (sp & Hd & Hsp). apply elem_of_bfilter in Hsp as [Hsp _].
    apply list_elem_of_bind in Hd as (sp' & ->%list_elem_of_singleton & Hsp'). apply holding_elem in Hsp as [Hsp _], Hsp' as [Hsp' _]; [|lia..].
    cbn. by rewrite Z.eqb_refl, !announced_span_prio, hop_delay_seconds.
Qed.

(** Announcements that passed validation and measured round trips give delays that are not
    negative. *)
Definition measured : Prop := Forall (λ kv, fnonneg kv.2 = true) rtts ∧ ∀ sp, sp ∈ prio → info_valid (server_info sp) = true.

Lemma RPS_finite x : RPS x = true → is_zero x = false → ∃ m ex, x = S754_finite false m ex.
Proof. destruct x as [sx|[]| |[] m ex]; try done. by eexists _, _. Qed.

Lemma link_seconds_nonneg rtt : (∀ r, rtt = Some r → fnonneg r = true) → fnonneg (link_seconds rtt) = true.
Proof.
  intros Hr. destruct rtt as [r|]; [|done]. unfold link_seconds. destruct (fltb _ _); [done|].
  destruct (float_of_Z 2) as [| | |[] m ex] eqn:E2; try done. by apply fdiv_nonneg, Hr.
Qed.

Lemma dict_get_nonneg {K} `{EqDecision K} (d : dict K float) k r : Forall (λ kv, fnonneg kv.2 = true) d → dict_get d k = Some r → fnonneg r = true.
Proof. intros Hd Hk%dict_elem_get. rewrite list.Forall_forall in Hd. by apply (Hd (k, r)). Qed.

Lemma hop_seconds_nonneg rtt sp : (∀ r, rtt = Some r → fnonneg r = true) → fnonneg (hop_seconds rtt sp) = true.
Proof.
  intros Hr. unfold hop_seconds. pose proof (link_seconds_nonneg rtt Hr). destruct (lacks_room sp); repeat apply fadd_nonneg; done.
Qed.

Lemma link_delay_nonneg u v : measured → fnonneg (link_delay u v) = true.
Proof.
  intros [Hr Hval]. assert (∀ p r, client_rtt p = Some r → fnonneg r = true) as Hc by (intros p r; by apply dict_get_nonneg).
  unfold link_delay. destruct u as [| |p b], v as [| |q c]; try done.
  - destruct (announced_span q); [|done]. apply hop_seconds_nonneg, Hc.
  - apply link_seconds_nonneg, Hc.
  - destruct (b =? c), (announced_span p) as [sp|] eqn:Ep; try done; apply announced_span_in in Ep; specialize (Hval sp Ep);
      unfold info_valid in Hval; rewrite !andb_true_iff in Hval; destruct Hval as [[[_ _] Hrps] Hpings].
    + destruct (announced_span q) as [sq|]; [|done]. apply hop_seconds_nonneg. unfold server_rtt. intros r.
      destruct (next_pings (server_info sp)) as [d|]; [|done]. apply dict_get_nonneg. rewrite forallb_forall in Hpings.
      apply Forall_forall. intros kv Hkv. apply list_elem_of_In in Hkv. apply Hpings in Hkv. by destruct (kv.2) as [|[]| |[]].
    + unfold block_seconds. cbn in Hrps. rewrite !andb_true_iff in Hrps. destruct Hrps as (_ & _ & Hrps & _).
      destruct (inference_rps (server_info sp)) as [x|]; [|done]. destruct (is_zero x) eqn:Hz; [done|].
      destruct (RPS_finite x Hrps Hz) as (m & ex & ->). by apply fdiv_nonneg.
Qed.

(** *** A path exists *)

Context (g : list (edge P)) (s e : Z).
Context (Hs : 0 ≤ s < e) (He : e ≤ zlen infos) (Hcov : covered s e).
Context (Hg : ∀ u v, has_edge g u v ↔ link s e u v).

Lemma path_cons u v w ns : has_edge g u v → is_path g v w ns → is_path g u w (u :: ns).
Proof. intros Hu Hp. destruct ns as [|y ns]; [done|]. simpl. pose proof Hp as [-> _]. done. Qed.

Lemma path_from_block k sp b : sp ∈ prio → start sp ≤ b ≤ end_ sp → start sp ≤ b - 1 ∨ holds sp b ∧ b < e →
  s ≤ b ≤ e → (s < b ∨ holds sp b) → e - b ≤ Z.of_nat k →
  ∃ ns, is_path g (NBlock (peer_id sp) b) NEnd ns.
Proof.
  revert sp b. induction k as [k IH] using (well_founded_induction lt_wf). intros sp b Hsp Hb Hprev Hse Hsb Hk.
  destruct (decide (b = e)) as [->|Hne].
  { exists [NBlock (peer_id sp) e; NEnd]. apply (path_cons _ NEnd); [|done]. apply Hg. constructor; [done|].
    unfold holds in *. lia. }
  destruct (decide (b = end_ sp)) as [->|Hne'].
  - destruct (holding (end_ sp)) as [|sp' l] eqn:E; [by destruct (Hcov (end_ sp)); [lia|]|].
    assert (sp' ∈ holding (end_ sp)) as Hin by (rewrite E; by left).
    apply holding_elem in Hin as [Hsp' Hh']; [|lia].
    destruct (decide (e - end_ sp - 1 ≤ 0)) as [Hlast|].
    + exists [NBlock (peer_id sp) (end_ sp); NBlock (peer_id sp') (end_ sp); NBlock (peer_id sp') (end_ sp + 1); NEnd].
      assert (e = end_ sp + 1) as Hee by lia.
      apply (path_cons _ (NBlock (peer_id sp') (end_ sp))); [apply Hg; apply link_switch; try done; unfold holds in *; lia|].
      apply (path_cons _ (NBlock (peer_id sp') (end_ sp + 1))); [apply Hg; apply link_block; [lia|done|done]|].
      apply (path_cons _ NEnd); [|done]. apply Hg. rewrite <- Hee. constructor; [done|]. unfold holds in *. lia.
    + destruct (IH (Z.to_nat (e - end_ sp - 1)) ltac:(lia) sp' (end_ sp + 1)) as [ns Hns]; try done; unfold holds in *; try lia.
      exists (NBlock (peer_id sp) (end_ sp) :: NBlock (peer_id sp') (end_ sp) :: ns).
      apply (path_cons _ (NBlock (peer_id sp') (end_ sp))); [apply Hg; apply link_switch; try done; unfold holds in *; lia|].
      eapply path_cons; [|exact Hns]. apply Hg. apply link_block; [lia|done|done].
  - destruct (IH (Z.to_nat (e - b - 1)) ltac:(lia) sp (b + 1)) as [ns Hns]; try done; unfold holds in *; try lia.
    exists (NBlock (peer_id sp) b :: ns). eapply path_cons; [|exact Hns]. apply Hg.
    apply link_block; [lia|done|unfold holds; lia].
Qed.

Lemma path_exists : ∃ ns, is_path g NStart NEnd ns.
Proof.
  destruct (holding s) as [|sp l] eqn:E; [by destruct (Hcov s); [lia|]|].
  assert (sp ∈ holding s) as Hin by (rewrite E; by left). apply holding_elem in Hin as [Hsp Hh]; [|lia].
  destruct (path_from_block (Z.to_nat (e - s)) sp s) as [ns Hns]; try done; unfold holds in *; try lia.
  exists (NStart :: ns). eapply path_cons; [|exact Hns]. apply Hg. by constructor.
Qed.

(** *** A path is a route *)

(** A hop runs inside the span of its server; it runs to the end of that span. *)
Definition hop_in (h : RemoteSpanInfo P) : Prop :=
  ∃ sp, sp ∈ prio ∧ peer_id sp = peer_id h ∧ server_info sp = server_info h ∧ start sp ≤ start h ∧ end_ h ≤ end_ sp.
Definition to_end (h : RemoteSpanInfo P) : Prop := ∃ sp, sp ∈ prio ∧ peer_id sp = peer_id h ∧ end_ sp = end_ h.

Lemma path_last ns u : is_path g u NEnd ns → ∃ k, ns = k ++ [NEnd].
Proof.
  revert u. induction ns as [|x ns IH]; intros u; simpl; [done|]. intros [-> Hp]. destruct ns as [|y ns].
  - exists []. by subst.
  - destruct Hp as [_ Hp]. destruct (IH y Hp) as [k ->]. by exists (u :: k).
Qed.

Lemma group_nodes_route sinfos mid : (∀ sp, sp ∈ prio → touches s e sp = true → dict_get sinfos (peer_id sp) = Some (server_info sp)) →
  ∀ sp a b acc, is_path g (NBlock (peer_id sp) b) NEnd (NBlock (peer_id sp) b :: mid ++ [NEnd]) →
  sp ∈ prio → start sp ≤ a → a ≤ b ≤ end_ sp → a < end_ sp → a < e →
  tiles s a (reverse acc) → Forall (λ h, hop_in h ∧ to_end h) acc →
  ∃ init last, group_nodes sinfos (mkSpan (peer_id sp) a b (server_info sp) :: acc) mid = Ok (init ++ [last]) ∧
    tiles s e (init ++ [last]) ∧ Forall hop_in (init ++ [last]) ∧ Forall to_end init.
Proof.
  intros Hsi. induction mid as [|x mid IH]; intros sp a b acc Hp Hsp Ha Hab Hae Hae' Ht Hacc.
  - destruct Hp as (_ & Hedge & _). apply Hg in Hedge. inversion Hedge as [|sp' Hsp' Hh Ep|?|?]; subst b.
    exists (reverse acc), (mkSpan (peer_id sp) a e (server_info sp)). cbn [group_nodes]. rewrite reverse_cons.
    split; [by rewrite Ep|]. split; [by eapply tiles_snoc|].
    split; [|apply Forall_reverse; eapply Forall_impl; [exact Hacc|naive_solver]].
    apply Forall_app. split; [apply Forall_reverse; eapply Forall_impl; [exact Hacc|naive_solver]|].
    repeat constructor. exists sp. simpl. repeat split; (done || lia).
  - destruct Hp as (_ & Hedge & Hp). apply Hg in Hedge. cbn [group_nodes].
    inversion Hedge as [|sp1 Hsp1 Hh1 Ep|sp1 sp2 c Hc Hsp1 Hh1 Hend Hsp2 Hh2 Ep Ex|sp1 c Hc Hsp1 Hh1 Ep Ex]; subst.
    + destruct Hp as [_ Hp]. exfalso. destruct mid as [|y mid]; simpl in Hp; destruct Hp as [Hn%Hg _]; inversion Hn.
    + assert (sp1 = sp) as -> by (by eapply same_peer). rewrite decide_False.
      2: { cbn. intros Eq. assert (sp = sp2) as -> by (by eapply same_peer). unfold holds in *. lia. }
      assert (touches s e sp2 = true) as Htouch by (unfold touches, holds in *; lia).
      rewrite (Hsi sp2 Hsp2 Htouch). cbn [of_option mbind res_bind].
      unfold holds in *. apply IH; try done; try lia.
      * rewrite reverse_cons. eapply tiles_snoc; [done|done|lia|done].
      * constructor; [|done]. split; exists sp; simpl; repeat split; (done || lia).
    + assert (sp1 = sp) as -> by (by eapply same_peer). rewrite decide_True by done.
      unfold set_end. cbn [peer_id start server_info]. unfold holds in *. apply IH; try done; lia.
Qed.

Definition infos_right (d : dict P ServerInfo) : Prop :=
  ∀ sp, sp ∈ prio → dict_get d (peer_id sp) = None ∨ dict_get d (peer_id sp) = Some (server_info sp).

Lemma fold_infos_spec l acc : (∀ sp, sp ∈ l → sp ∈ prio) → infos_right acc →
  let d := fold_left (λ d sp, dict_set d (peer_id sp) (server_info sp)) l acc in
  infos_right d ∧ ∀ sp, sp ∈ prio → is_Some (dict_get acc (peer_id sp)) ∨ sp ∈ l → is_Some (dict_get d (peer_id sp)).
Proof.
  revert acc. induction l as [|x l IH]; intros acc Hl Hacc; cbn [fold_left].
  { split; [done|]. intros sp _ [?|Hn%not_elem_of_nil]; done. }
  destruct (IH (dict_set acc (peer_id x) (server_info x))) as [H1 H2].
  - intros; apply Hl; by right.
  - intros sp Hsp. rewrite dict_get_set. case_decide as Ep; [|by apply Hacc].
    right. assert (x = sp) as ->; [|done]. eapply same_peer; [apply Hl; by left|done|done].
  - split; [done|]. intros sp Hsp Hor. apply H2; [done|]. rewrite dict_get_set. case_decide; [left; by eexists|].
    destruct Hor as [?|[->|?]%elem_of_cons]; [by left|done|by right].
Qed.

Lemma server_infos_spec blocks acc : (∀ b, b ∈ blocks → 0 ≤ b < zlen infos) →
  infos_right acc →
  ∃ d, server_infos info blocks acc = Ok d ∧ infos_right d ∧
    (∀ sp, sp ∈ prio → is_Some (dict_get acc (peer_id sp)) ∨ (∃ b, b ∈ blocks ∧ holds sp b) →
       is_Some (dict_get d (peer_id sp))).
Proof.
  revert acc. induction blocks as [|b blocks IH]; intros acc Hb Hacc; cbn [server_infos].
  { exists acc. split; [done|]. split; [done|]. intros sp _ [?|(b & Hn%not_elem_of_nil & _)]; done. }
  rewrite spans_at_holding by (apply Hb; by left). cbn [mbind res_bind].
  destruct (fold_infos_spec (holding b) acc) as [H1 H2]; [|done|].
  { intros sp Hsp. apply holding_elem in Hsp as [? _]; [done|]. specialize (Hb b ltac:(by left)). lia. }
  destruct (IH (fold_left (λ d sp, dict_set d (peer_id sp) (server_info sp)) (holding b) acc)) as (d & -> & Hd1 & Hd2);
    [intros; apply Hb; by right|done|].
  exists d. split; [done|]. split; [done|]. intros sp Hsp Hor. apply Hd2; [done|].
  destruct Hor as [?|(c & [->|Hc]%elem_of_cons & Hh)]; [left; apply H2; [done|by left]| |right; eauto].
  left. apply H2; [done|]. right. apply holding_elem; [|done]. specialize (Hb b ltac:(by left)). lia.
Qed.

Lemma path_route sinfos nodes :
  (∀ sp, sp ∈ prio → touches s e sp = true → dict_get sinfos (peer_id sp) = Some (server_info sp)) →
  is_path g NStart NEnd nodes →
  ∃ init last, group_nodes sinfos [] (py_slice nodes 1 (-1)) = Ok (init ++ [last]) ∧
    tiles s e (init ++ [last]) ∧ Forall hop_in (init ++ [last]) ∧ Forall to_end init.
Proof.
  intros Hsi Hp. destruct (path_last _ _ Hp) as [k ->].
  destruct k as [|x k]; [destruct Hp; done|]. pose proof Hp as [-> Hp']. cbn in Hp'.
  destruct k as [|y k]; cbn in Hp'.
  { destruct Hp' as [Hedge%Hg _]. inversion Hedge. }
  destruct Hp' as [Hedge%Hg Hp']. inversion Hedge as [sp Hsp Hh Ey| | |]; subst y.
  rewrite <- app_comm_cons, py_slice_inner. cbn [group_nodes].
  assert (touches s e sp = true) as Ht by (unfold touches, holds in *; lia).
  rewrite (Hsi sp Hsp Ht). cbn [of_option mbind res_bind]. unfold holds in Hh.
  apply (group_nodes_route sinfos k Hsi sp s s []); try done; lia.
Qed.

(** *** The delays of paths and of routes *)

Context (Hdel : delays_right g).

Lemma edge_delay_link u v : has_edge g u v → edge_delay g u v = Some (link_delay u v).
Proof.
  intros [d Hd]. unfold edge_delay. destruct (last (filter _ g)) as [x|] eqn:E.
  - apply last_Some_elem_of, list_elem_of_filter in E as [[<- <-] Hx]. unfold delays_right in Hdel. rewrite list.Forall_forall in Hdel. cbn. by rewrite Hdel.
  - apply last_None in E. assert (mkEdge u v d ∈ filter (λ d, e_from d = u ∧ e_to d = v) g) as Hin; [by apply list_elem_of_filter|].
    rewrite E in Hin. by apply not_elem_of_nil in Hin.
Qed.

Lemma path_delays_cons u v w ns : has_edge g u v → is_path g v w ns → path_delays g (u :: ns) = link_delay u v :: path_delays g ns.
Proof.
  intros Hu Hp. destruct ns as [|y ns]; [done|]. destruct Hp as [-> Hp]. cbn [path_delays]. by rewrite (edge_delay_link _ _ Hu).
Qed.

(** The route of a path is as long, in seconds, as the path. *)
Lemma group_nodes_delays sinfos mid : (∀ sp, sp ∈ prio → touches s e sp = true → dict_get sinfos (peer_id sp) = Some (server_info sp)) →
  ∀ sp a b acc, is_path g (NBlock (peer_id sp) b) NEnd (NBlock (peer_id sp) b :: mid ++ [NEnd]) → sp ∈ prio → start sp ≤ b ≤ end_ sp →
  ∃ c rest, group_nodes sinfos (mkSpan (peer_id sp) a b (server_info sp) :: acc) mid =
      Ok (reverse acc ++ mkSpan (peer_id sp) a c (server_info sp) :: rest) ∧ b ≤ c ∧
    path_delays g (NBlock (peer_id sp) b :: mid ++ [NEnd]) =
      replicate (Z.to_nat (c - b)) (block_seconds sp) ++ route_delays (Some sp) rest.
Proof.
  intros Hsi. induction mid as [|x mid IH]; intros sp a b acc Hp Hsp Hb.
  - exists b, []. cbn [group_nodes app]. rewrite reverse_cons, Z.sub_diag. split; [done|]. split; [lia|].
    destruct Hp as (_ & Hedge & _). by rewrite (path_delays_cons _ _ NEnd [NEnd] Hedge).
  - destruct Hp as (_ & Hedge & Hp). cbn [app]. rewrite (path_delays_cons _ x NEnd (x :: mid ++ [NEnd]) Hedge Hp). apply Hg in Hedge. cbn [group_nodes].
    inversion Hedge as [|sp1 Hsp1 Hh1 Ep|sp1 sp2 c Hc Hsp1 Hh1 Hend Hsp2 Hh2 Ep Ex|sp1 c Hc Hsp1 Hh1 Ep Ex]; subst.
    + destruct Hp as [_ Hp]. exfalso. destruct mid as [|y mid]; simpl in Hp; destruct Hp as [Hn%Hg _]; inversion Hn.
    + assert (sp1 = sp) as -> by (by eapply same_peer). rewrite decide_False.
      2: { cbn. intros Eq. assert (sp = sp2) as -> by (by eapply same_peer). unfold holds in *. lia. }
      assert (touches s e sp2 = true) as Htouch by (unfold touches, holds in *; lia).
      rewrite (Hsi sp2 Hsp2 Htouch). cbn [of_option mbind res_bind]. unfold holds in *.
      destruct (IH sp2 (end_ sp) (end_ sp) (mkSpan (peer_id sp) a (end_ sp) (server_info sp) :: acc)) as (c & rest & -> & Hle & ->); [done|done|lia|].
      exists (end_ sp), (mkSpan (peer_id sp2) (end_ sp) c (server_info sp2) :: rest). rewrite reverse_cons, <- (assoc_L (++)), Z.sub_diag.
      split; [done|]. split; [lia|]. cbn [link_delay replicate Z.to_nat app route_delays peer_id start end_].
      by rewrite Z.eqb_refl, !announced_span_prio by done.
    + assert (sp1 = sp) as -> by (by eapply same_peer). rewrite decide_True by done. unfold set_end. cbn [peer_id start server_info].
      unfold holds in *. destruct (IH sp a (b + 1) acc) as (c & rest & -> & Hle & ->); [done|done|lia|].
      exists c, rest. split; [done|]. split; [lia|]. replace (Z.to_nat (c - b)) with (S (Z.to_nat (c - (b + 1)))) by lia.
      cbn [link_delay replicate app]. by rewrite (proj2 (Z.eqb_neq b (b + 1))), announced_span_prio by (done || lia).
Qed.

Lemma path_route_delays sinfos nodes route :
  (∀ sp, sp ∈ prio → touches s e sp = true → dict_get sinfos (peer_id sp) = Some (server_info sp)) →
  is_path g NStart NEnd nodes → group_nodes sinfos [] (py_slice nodes 1 (-1)) = Ok route →
  path_delays g nodes = route_delays None route.
Proof.
  intros Hsi Hp. destruct (path_last _ _ Hp) as [k ->].
  destruct k as [|x k]; [destruct Hp; done|]. pose proof Hp as [-> Hp']. cbn in Hp'.
  destruct k as [|y k]; cbn in Hp'; [destruct Hp' as [Hedge%Hg _]; inversion Hedge|].
  destruct Hp' as [Hedge Hp']. rewrite <- app_comm_cons, py_slice_inner. cbn [group_nodes app].
  rewrite (path_delays_cons _ y NEnd (y :: k ++ [NEnd]) Hedge Hp'). apply Hg in Hedge. inversion Hedge as [sp Hsp Hh Ey| | |]; subst y.
  assert (touches s e sp = true) as Ht by (unfold touches, holds in *; lia).
  rewrite (Hsi sp Hsp Ht). cbn [of_option mbind res_bind]. unfold holds in Hh.
  destruct (group_nodes_delays sinfos k Hsi sp s s []) as (c & rest & -> & Hc & ->); [done|done|lia|].
  intros [= <-]. cbn [reverse app route_delays peer_id start end_ link_delay]. by rewrite announced_span_prio.
Qed.

(** *** A route is a path *)

Fixpoint route_nodes (route : list (RemoteSpanInfo P)) : list (node P) :=
  match route with
  | [] => [NEnd]
  | h :: route' => (NBlock (peer_id h) <$> seqZ (start h) (end_ h - start h + 1)) ++ route_nodes route'
  end.

(** The blocks that one server computes. *)
Lemma run_path sp (k : nat) a v ns : sp ∈ prio → start sp ≤ a → a + Z.of_nat k ≤ end_ sp → s ≤ a → a + Z.of_nat k ≤ e →
  is_path g (NBlock (peer_id sp) (a + Z.of_nat k)) v (NBlock (peer_id sp) (a + Z.of_nat k) :: ns) →
  is_path g (NBlock (peer_id sp) a) v ((NBlock (peer_id sp) <$> seqZ a (Z.of_nat k + 1)) ++ ns) ∧
  path_delays g ((NBlock (peer_id sp) <$> seqZ a (Z.of_nat k + 1)) ++ ns) =
    replicate k (block_seconds sp) ++ path_delays g (NBlock (peer_id sp) (a + Z.of_nat k) :: ns).
Proof.
  intros Hsp. revert a. induction k as [|k IH]; intros a H1 H2 H3 H4 Hp.
  - change (Z.of_nat 0) with 0 in *. rewrite Z.add_0_r in Hp |- *. by rewrite seqZ_cons, seqZ_nil by lia.
  - rewrite seqZ_cons, fmap_cons by lia. replace (Z.pred (Z.of_nat (S k) + 1)) with (Z.of_nat k + 1) by lia. cbn [app].
    replace (a + Z.of_nat (S k)) with (Z.succ a + Z.of_nat k) in * by lia.
    destruct (IH (Z.succ a)) as [Hp' Hd]; [lia..|done|].
    assert (has_edge g (NBlock (peer_id sp) a) (NBlock (peer_id sp) (Z.succ a))) as He'.
    { apply Hg. unfold Z.succ. apply link_block; [lia|done|unfold holds; lia]. }
    split; [by eapply path_cons|]. rewrite (path_delays_cons _ _ _ _ He' Hp'), Hd. cbn [link_delay replicate app].
    by rewrite (proj2 (Z.eqb_neq a (Z.succ a))), announced_span_prio by (done || lia).
Qed.

(** A hop of a route with the announced span that it runs in. *)
Lemma hop_span h : hop_in h → ∃ sp, sp ∈ prio ∧ peer_id sp = peer_id h ∧ announced_span (peer_id h) = Some sp ∧ start sp ≤ start h ∧ end_ h ≤ end_ sp.
Proof. intros (sp & Hsp & Hpe & _ & H1 & H2). exists sp. by rewrite <- Hpe, announced_span_prio. Qed.

Lemma hop_to_end h sp : announced_span (peer_id h) = Some sp → to_end h → end_ sp = end_ h.
Proof. intros Ha (sp' & Hsp' & Hpe & <-). rewrite <- Hpe, announced_span_prio in Ha by done. by injection Ha as ->. Qed.

Lemma route_nodes_in route a x : tiles a e route → x ∈ route_nodes route →
  x = NEnd ∨ ∃ p b, x = NBlock p b ∧ a ≤ b ∧ ∀ h rest, route = h :: rest → b = a → p = peer_id h.
Proof.
  revert a. induction route as [|h route IH]; intros a; cbn [route_nodes tiles]; [by intros _ ->%list_elem_of_singleton; left|].
  intros (<- & Hlt & Ht) [(b & -> & Hb%elem_of_seqZ)%list_elem_of_fmap|Hx]%elem_of_app; [right|].
  - exists (peer_id h), b. split; [done|]. split; [lia|]. by intros ? ? [= <- <-].
  - destruct (IH _ Ht Hx) as [->|(p & b & -> & Hb & _)]; [by left|right]. exists p, b. split; [done|]. split; [lia|]. intros; lia.
Qed.

Lemma route_path route h a : tiles a e (h :: route) → s ≤ a → Forall hop_in (h :: route) →
  (∀ init last, h :: route = init ++ [last] → Forall to_end init) →
  is_path g (NBlock (peer_id h) a) NEnd (route_nodes (h :: route)) ∧ NoDup (route_nodes (h :: route)) ∧
  ∀ sp, announced_span (peer_id h) = Some sp →
    path_delays g (route_nodes (h :: route)) = replicate (Z.to_nat (end_ h - start h)) (block_seconds sp) ++ route_delays (Some sp) route.
Proof.
  revert h a. induction route as [|h' route IH]; intros h a (Hst & Hlt & Ht) Hsa [Hh Hin]%Forall_cons Hend;
    destruct (hop_span h Hh) as (sp & Hsp & Hpe & Hann & H1 & H2).
  - cbn [route_nodes]. cbn [tiles] in Ht. subst a. rewrite <- Hpe in *.
    assert (has_edge g (NBlock (peer_id sp) e) NEnd) as Hedge by (apply Hg; constructor; [done|unfold holds; lia]).
    assert (is_path g (NBlock (peer_id sp) e) NEnd [NBlock (peer_id sp) e; NEnd]) as Hpath by by apply (path_cons _ NEnd).
    replace (end_ h - start h + 1) with (Z.of_nat (Z.to_nat (e - start h)) + 1) by lia.
    destruct (run_path sp (Z.to_nat (e - start h)) (start h) NEnd [NEnd]) as [Hp Hd]; [done|lia..| |].
    { by replace (start h + Z.of_nat (Z.to_nat (e - start h))) with e by lia. }
    split; [done|]. split.
    + apply NoDup_app. split; [apply NoDup_fmap_2, NoDup_seqZ; intros ? ? [= ->]; done|]. split; [|apply NoDup_singleton].
      intros x (b & -> & _)%list_elem_of_fmap. by intros [=]%list_elem_of_singleton.
    + intros sp' Hsp'. rewrite Hann in Hsp'. injection Hsp' as <-. rewrite Hd. replace (end_ h) with e by done.
      replace (start h + Z.of_nat (Z.to_nat (e - start h))) with e by lia. by rewrite (path_delays_cons _ NEnd NEnd [NEnd]).
  - change (route_nodes (h :: h' :: route)) with ((NBlock (peer_id h) <$> seqZ (start h) (end_ h - start h + 1)) ++ route_nodes (h' :: route)).
    assert (to_end h) as Hte.
    { destruct (exists_last (l := h' :: route) ltac:(done)) as (init & last & E). specialize (Hend (h :: init) last).
      rewrite E in Hend. by apply Forall_cons in Hend as [? _]. }
    pose proof (hop_to_end h sp Hann Hte) as Hee.
    destruct (IH h' (end_ h)) as (Hp' & Hnd' & Hd'); [done|lia|done|by intros init last E; specialize (Hend (h :: init) last); rewrite E in Hend; apply Forall_cons in Hend as [_ ?]|].
    apply Forall_cons in Hin as [Hh' _]. destruct (hop_span h' Hh') as (sp' & Hsp' & Hpe' & Hann' & H1' & H2').
    destruct Ht as (Hst' & Hlt' & Ht'). subst a. rewrite <- Hpe, <- Hpe' in *.
    assert (tiles (end_ h) e (h' :: route)) as Htiles by done.
    assert (end_ h' ≤ e) as Hle by (clear -Ht'; revert Ht'; generalize (end_ h'); induction route as [|x r IHr]; intros c; cbn [tiles]; [lia|intros (? & ? & Hr%IHr); lia]).
    assert (has_edge g (NBlock (peer_id sp) (end_ h)) (NBlock (peer_id sp') (end_ h))) as Hedge.
    { apply Hg, link_switch; try done; unfold holds; lia. }
    pose proof (path_cons _ _ _ _ Hedge Hp') as Hpath.
    replace (end_ h - start h + 1) with (Z.of_nat (Z.to_nat (end_ h - start h)) + 1) by lia.
    destruct (run_path sp (Z.to_nat (end_ h - start h)) (start h) NEnd (route_nodes (h' :: route))) as [Hp Hd]; [done|lia..| |].
    { by replace (start h + Z.of_nat (Z.to_nat (end_ h - start h))) with (end_ h) by lia. }
    split; [done|]. split.
    + apply NoDup_app. split; [apply NoDup_fmap_2, NoDup_seqZ; intros ? ? [= ->]; done|]. split; [|done].
      intros x (b & -> & Hb%elem_of_seqZ)%list_elem_of_fmap Hx.
      destruct (route_nodes_in _ (end_ h) _ Htiles Hx) as [?|(q & c & [= <- <-] & Hc & Hq)]; [done|].
      specialize (Hq h' route eq_refl ltac:(lia)). rewrite <- Hpe' in Hq.
      assert (sp = sp') as -> by by eapply same_peer. lia.
    + intros x Hx. rewrite Hann in Hx. injection Hx as <-. rewrite Hd.
      replace (start h + Z.of_nat (Z.to_nat (end_ h - start h))) with (end_ h) by lia. f_equal.
      rewrite (path_delays_cons _ _ _ _ Hedge Hp'), (Hd' sp' Hann'). cbn [link_delay route_delays].
      by rewrite Z.eqb_refl, !announced_span_prio, <- Hpe', announced_span_prio by done.
Qed.
(** A route of the properties below is a simple path of as many seconds. *)
Lemma route_as_path init last : 0 ≤ s → tiles s e (init ++ [last]) → Forall hop_in (init ++ [last]) → Forall to_end init →
  ∃ ns, is_path g NStart NEnd ns ∧ NoDup ns ∧ path_delays g ns = route_delays None (init ++ [last]).
Proof.
  intros Hs0 Ht Hin Hend. destruct (init ++ [last]) as [|h route] eqn:E; [by destruct init|].
  destruct (route_path route h s Ht ltac:(lia) Hin) as (Hp & Hnd & Hdr).
  { intros i l El. rewrite <- E in El. by apply app_inj_tail in El as [-> _]. }
  apply Forall_cons in Hin as [Hh _]. destruct (hop_span h Hh) as (sp & Hsp & Hpe & Hann & H1 & H2).
  pose proof Ht as (Hst & Hlt & _).
  assert (has_edge g NStart (NBlock (peer_id h) s)) as Hedge.
  { apply Hg. rewrite <- Hpe. constructor; [done|]. unfold holds. lia. }
  exists (NStart :: route_nodes (h :: route)). split; [by eapply path_cons|]. split.
  - constructor; [|done]. intros Hx. by destruct (route_nodes_in (h :: route) s NStart Ht Hx) as [?|(? & ? & ? & _)].
  - rewrite (path_delays_cons _ _ _ _ Hedge Hp), (Hdr sp Hann). cbn [route_delays link_delay]. rewrite Hann. cbn [default from_option id]. by rewrite Hpe.
Qed.
End graph_proofs.

(** A search for a route of minimal latency, on every branch; the route is that of the path
    found. *)
Lemma min_latency_spec {P} `{PeerIds P} `{!PathFinder P} `{!PathFinderLaws P} (info : @RemoteSequenceInfo P) infos off rtts
    cache_tokens_needed s e :
  spans_of infos off (spans_by_priority info) (spans_containing_block info) → 0 ≤ s < e → e ≤ zlen infos →
  let r := make_sequence_with_min_latency info rtts cache_tokens_needed s e in
  if negb (bool_decide (covered info s e)) then r = Raise MissingBlocksError
  else if existsb (λ sp, touches s e sp && zero_rps sp) (spans_by_priority info) then r = Raise ZeroDivisionError
  else ∃ init last g nodes, r = Ok (init ++ [last]) ∧ tiles s e (init ++ [last]) ∧
    Forall (hop_in info) (init ++ [last]) ∧ Forall (to_end info) init ∧
    (∀ u v, has_edge g u v ↔ link info s e u v) ∧ delays_right info rtts cache_tokens_needed g ∧
    find_path g NStart NEnd = Ok nodes ∧ path_delays g nodes = route_delays info rtts cache_tokens_needed None (init ++ [last]).
Proof.
  intros Hinfo Hs He. cbv zeta. unfold make_sequence_with_min_latency. rewrite (proj2 (Z.eqb_neq s e)) by lia.
  rewrite (check_missing_spec info infos off Hinfo s e) by lia.
  destruct (decide (covered info s e)) as [Hc|Hc]; [rewrite bool_decide_true by done|by rewrite bool_decide_false by done].
  cbn [negb mbind res_bind].
  destruct (server_infos_spec info infos off Hinfo (py_range s e) []) as (d & -> & Hd1 & Hd2);
    [unfold py_range; intros b Hb%elem_of_seqZ; lia|by intros ? ?; left|]. cbn [mbind res_bind].
  pose proof (build_spec info infos off rtts cache_tokens_needed Hinfo s e ltac:(lia) He Hc) as Hb.
  destruct (existsb _ _); [by rewrite Hb|]. destruct Hb as (g & Eg & Hg).
  pose proof (build_delays_right info infos off rtts cache_tokens_needed Hinfo s e g ltac:(lia) He Eg) as Hdel. rewrite Eg. cbn [mbind res_bind].
  destruct (path_exists info g s e ltac:(lia) Hc Hg) as [ns Hns].
  destruct (find_path_complete g NStart NEnd ns Hns) as [nodes Hn]. rewrite Hn. cbn [mbind res_bind].
  pose proof (find_path_sound _ _ _ _ Hn) as Hpath.
  assert (∀ sp, sp ∈ spans_by_priority info → touches s e sp = true → dict_get d (peer_id sp) = Some (server_info sp)) as Hsi.
  { intros sp Hsp Htouch. destruct (Hd1 sp Hsp) as [Hnone|]; [|done].
    destruct (Hd2 sp Hsp) as [x Hx]; [|congruence]. right. exists (Z.max (start sp) s).
    unfold py_range, touches, holds in *. rewrite elem_of_seqZ. lia. }
  destruct (path_route info infos off Hinfo g s e ltac:(lia) He Hc Hg d nodes Hsi Hpath) as (init & last & Er & Ht & Hin & Hend).
  rewrite Er. cbn. exists init, last, g, nodes. erewrite tiles_filter by done. do 7 (split; [done|]).
  eapply path_route_delays; try eassumption; lia.
Qed.

(** ** Properties *)

(** C15: Routes of least delay. On sequence information as a refresh leaves it, whose
    announcements passed validation, a route from block [s] to block [e] is [[]] for an empty
    range; MissingBlocksError exactly when some block of the range is held by no online server;
    ZeroDivisionError when a server that holds a block of the range announces an inference rate
    of zero; and in every other case a route is found: consecutive non-empty hops from [s] to
    [e], each inside the span its server holds, every hop but the last running to the end of
    that span. No other such route has a smaller delay, the sum, in the order of the route and
    in binary64, of the seconds for every link, for the cache a server lacks, for every block
    and for the way back. The path search returns a cheapest path. *)
Theorem min_latency_route {P} `{PeerIds P} `{!PathFinder P} `{!PathFinderLaws P} (info : @RemoteSequenceInfo P) infos off rtts
    cache_tokens_needed s e :
  spans_of infos off (spans_by_priority info) (spans_containing_block info) → measured info rtts → 0 ≤ s ≤ e → e ≤ zlen infos →
  let r := make_sequence_with_min_latency info rtts cache_tokens_needed s e in
  let delay route := total_delay (route_delays info rtts cache_tokens_needed None route) in
  if s =? e then r = Ok []
  else if negb (bool_decide (covered info s e)) then r = Raise MissingBlocksError
  else if existsb (λ sp, touches s e sp && zero_rps sp) (spans_by_priority info) then r = Raise ZeroDivisionError
  else ∃ init last, r = Ok (init ++ [last]) ∧ tiles s e (init ++ [last]) ∧
    Forall (hop_in info) (init ++ [last]) ∧ Forall (to_end info) init ∧
    ∀ init' last', tiles s e (init' ++ [last']) → Forall (hop_in info) (init' ++ [last']) → Forall (to_end info) init' →
      fleb (delay (init ++ [last])) (delay (init' ++ [last'])) = true.
Proof.
  intros Hinfo Hm Hs He. cbv zeta. destruct (Z.eqb_spec s e) as [->|Hne]; [unfold make_sequence_with_min_latency; by rewrite Z.eqb_refl|].
  pose proof (min_latency_spec info infos off rtts cache_tokens_needed s e Hinfo ltac:(lia) He) as Hr. cbv zeta in Hr.
  destruct (negb _); [done|]. destruct (existsb _ _); [done|].
  destruct Hr as (init & last & g & nodes & E & Ht & Hin & Hend & Hg & Hdel & Hn & Hroute).
  exists init, last. do 4 (split; [done|]). intros init' last' Ht' Hin' Hend'.
  destruct (route_as_path info infos off rtts cache_tokens_needed Hinfo g s e Hg Hdel init' last') as (ns & Hp & Hnd & Hd); try done; [lia|].
  rewrite <- Hroute, <- Hd. eapply find_path_least; try done.
  eapply Forall_impl; [exact Hdel|]. cbn. intros x ->. by apply link_delay_nonneg.
Qed.

(** ** A concrete path search

    A cheapest one of all paths of at most as many edges as the graph has; it meets the laws
    because a path can be made simple. *)

Section search.
Context {P : Type} `{EqDecision P}.
Implicit Types (g : list (edge P)) (u v : node P).

Fixpoint all_paths g (fuel : nat) u v : list (list (node P)) :=
  (if decide (u = v) then [[v]] else []) ++
  match fuel with
  | O => []
  | S fuel' => d ← g; if decide (e_from d = u) then cons u <$> all_paths g fuel' (e_to d) v else []
  end.

Lemma all_paths_sound g fuel u v ns : ns ∈ all_paths g fuel u v → is_path g u v ns.
Proof.
  revert u ns. induction fuel as [|fuel IH]; intros u ns; cbn [all_paths]; rewrite elem_of_app;
    (intros [Hv|Hns]; [case_decide; [apply list_elem_of_singleton in Hv as ->; by subst|by apply not_elem_of_nil in Hv]|]).
  - by apply not_elem_of_nil in Hns.
  - apply list_elem_of_bind in Hns as ([a b w] & Hns & Hd). cbn in Hns. case_decide as Ha; [subst a|by apply not_elem_of_nil in Hns].
    apply list_elem_of_fmap in Hns as (ns' & -> & Hns'%IH). destruct ns' as [|y ns']; [done|].
    simpl. split; [done|]. pose proof Hns' as [-> _]. split; [by eexists|done].
Qed.

Lemma all_paths_complete g fuel u v ns : is_path g u v ns → (length ns ≤ S fuel)%nat → ns ∈ all_paths g fuel u v.
Proof.
  revert u ns. induction fuel as [|fuel IH]; intros u ns Hp Hl; cbn [all_paths]; apply elem_of_app.
  - destruct ns as [|x [|y ns]]; simpl in *; [done| |lia]. destruct Hp as [-> ->]. left. rewrite decide_True by done. by left.
  - destruct ns as [|x [|y ns]]; [done|destruct Hp as [-> ->]; left; rewrite decide_True by done; by left|].
    destruct Hp as (-> & [w Hw] & Hp). right. apply list_elem_of_bind. exists (mkEdge u y w). split; [|done]. cbn.
    rewrite decide_True by done. apply list_elem_of_fmap. exists (y :: ns). split; [done|]. apply IH; [exact Hp|]. simpl in *. lia.
Qed.

(** The first of the cheapest elements. *)
Fixpoint cheapest {A} (cost : A → float) (l : list A) : option A :=
  match l with
  | [] => None
  | x :: l' => match cheapest cost l' with Some y => Some (if fleb (cost x) (cost y) then x else y) | None => Some x end
  end.

Lemma cheapest_spec {A} (cost : A → float) l : Forall (λ x, is_num (cost x) = true) l →
  match cheapest cost l with
  | Some m => m ∈ l ∧ ∀ y, y ∈ l → fleb (cost m) (cost y) = true
  | None => l = []
  end.
Proof.
  induction 1 as [|x l Hx Hl IH]; [done|]. cbn [cheapest]. destruct (cheapest cost l) as [m|].
  - destruct IH as [Hm Hmin]. assert (is_num (cost m) = true) as Hnm by (rewrite list.Forall_forall in Hl; by apply Hl).
    destruct (fleb (cost x) (cost m)) eqn:E.
    + split; [by left|]. intros y [->|Hy]%elem_of_cons; [by apply fleb_refl|]. eapply (fleb_trans _ (cost m)); try done; [|by apply Hmin].
      rewrite list.Forall_forall in Hl. by apply Hl.
    + split; [by right|]. intros y [->|Hy]%elem_of_cons; [|by apply Hmin]. by destruct (fleb_total (cost x) (cost m) Hx Hnm) as [?|?]; [congruence|].
  - subst l. split; [by left|]. intros y ->%list_elem_of_singleton. by apply fleb_refl.
Qed.

Lemma total_delay_nonneg l : Forall (λ x, fnonneg x = true) l → fnonneg (total_delay l) = true.
Proof.
  intros Hl. unfold total_delay. assert (∀ a, fnonneg a = true → fnonneg (foldl fadd a l) = true) as Hg; [|by apply Hg].
  induction Hl as [|x l Hx _ IH]; [done|]. intros a Ha. by apply IH, fadd_nonneg.
Qed.

Lemma path_delays_nonneg g ns : Forall (λ d, fnonneg (e_delay d) = true) g → Forall (λ x, fnonneg x = true) (path_delays g ns).
Proof.
  intros Hg. induction ns as [|u ns IH]; [constructor|]. cbn [path_delays]. destruct ns as [|v ns]; [constructor|].
  constructor; [|exact IH]. unfold edge_delay. destruct (last _) as [d|] eqn:E; [|done].
  apply last_Some_elem_of, list_elem_of_filter in E as [_ Hd]. rewrite list.Forall_forall in Hg. by apply Hg.
Qed.

Lemma path_suffix g u v l1 x l2 : is_path g u v (l1 ++ x :: l2) → is_path g x v (x :: l2).
Proof.
  revert u. induction l1 as [|y l1 IH]; intros u; simpl.
  - intros [-> Hp]. done.
  - intros [-> Hp]. destruct l1 as [|z l1]; simpl in *; [by destruct Hp as [_ Hp]|].
    destruct Hp as [_ Hp]. by apply (IH z).
Qed.

Lemma simple_path g u v ns : is_path g u v ns → ∃ ns', is_path g u v ns' ∧ NoDup ns'.
Proof.
  revert u. induction ns as [|x ns IH]; intros u; [done|]. intros [-> Hp]. destruct ns as [|y ns].
  { exists [u]. split; [done|apply NoDup_singleton]. }
  destruct Hp as [Hedge (ns' & Hp & Hnd)%IH]. destruct (decide (u ∈ ns')) as [Hin|Hin].
  - apply list_elem_of_split in Hin as (l1 & l2 & ->). exists (u :: l2). split; [by eapply path_suffix|].
    by apply NoDup_app in Hnd as (_ & _ & ?).
  - exists (u :: ns'). split; [|by constructor]. destruct ns' as [|z ns']; [done|].
    pose proof Hp as [-> _]. done.
Qed.

Lemma path_sources g u v ns x : is_path g u v (ns ++ [x]) → ∀ y, y ∈ ns → y ∈ e_from <$> g.
Proof.
  revert u. induction ns as [|z ns IH]; intros u Hp y Hy; [by apply not_elem_of_nil in Hy|].
  destruct Hp as [-> Hp]. destruct (ns ++ [x]) as [|z' l] eqn:E; [by destruct ns|].
  destruct Hp as [[d Hd] Hp]. apply elem_of_cons in Hy as [->|Hy].
  - apply list_elem_of_fmap. by exists (mkEdge u z' d).
  - by eapply IH.
Qed.

Lemma simple_path_length g u v ns : is_path g u v ns → NoDup ns → (length ns ≤ S (length g))%nat.
Proof.
  intros Hp Hnd. destruct (exists_last_or_nil ns) as [->|(k & x & ->)]; [done|].
  apply NoDup_app in Hnd as (Hnd & _ & _). pose proof (path_sources _ _ _ _ _ Hp) as Hs.
  pose proof (submseteq_length _ _ (NoDup_submseteq _ _ Hnd Hs)) as Hl.
  rewrite length_fmap in Hl. rewrite length_app. simpl. lia.
Qed.

(** A path whose cost is not a number is not compared. *)
Definition cheapest_path : PathFinder P := λ g u v,
  let paths := all_paths g (length g) u v in
  let num := List.filter (λ ns, is_num (total_delay (path_delays g ns))) paths in
  of_option RuntimeError (match cheapest (λ ns, total_delay (path_delays g ns)) num with Some ns => Some ns | None => head paths end).

Lemma cheapest_path_laws : @PathFinderLaws P _ cheapest_path.
Proof.
  assert (∀ g u v, let num := List.filter (λ ns, is_num (total_delay (path_delays g ns))) (all_paths g (length g) u v) in
    Forall (λ ns, is_num (total_delay (path_delays g ns)) = true) num) as Hnum.
  { intros g u v num. apply Forall_forall. by intros ns [_ ?]%elem_of_bfilter. }
  assert (∀ g u v ns, is_path g u v ns → NoDup ns → ns ∈ all_paths g (length g) u v) as Hall.
  { intros g u v ns Hp Hnd. apply all_paths_complete; [done|]. by eapply simple_path_length. }
  split; unfold find_path, cheapest_path; intros g u v ns.
  - pose proof (cheapest_spec _ _ (Hnum g u v)) as Hc. destruct (cheapest _ _) as [m|].
    + intros [= <-]. destruct Hc as [[Hm _]%elem_of_bfilter _]. by eapply all_paths_sound.
    + intros E%of_option_Ok. apply (all_paths_sound g (length g)). apply head_Some in E as [l ->]. by left.
  - intros (ns' & Hp & Hnd)%simple_path. specialize (Hall g u v ns' Hp Hnd).
    destruct (cheapest _ _) as [m|]; [by eexists|]. destruct (all_paths g (length g) u v) as [|x l]; [by apply not_elem_of_nil in Hall|by eexists].
  - intros ns' Hg Hf Hp Hnd. pose proof (cheapest_spec _ _ (Hnum g u v)) as Hc. specialize (Hall g u v ns' Hp Hnd).
    assert (ns' ∈ List.filter (λ ns, is_num (total_delay (path_delays g ns))) (all_paths g (length g) u v)) as Hin.
    { apply elem_of_bfilter. split; [done|]. by apply fnonneg_num, total_delay_nonneg, path_delays_nonneg. }
    destruct (cheapest _ _) as [m|]; [|rewrite Hc in Hin; by apply not_elem_of_nil in Hin].
    injection Hf as <-. by apply Hc.
Qed.
End search.

(** ** Random routes *)

Section random.
Context {P : Type} `{PeerIds P} (info : @RemoteSequenceInfo P) (infos : list (RemoteModuleInfo P)) (off : Z).
Context (rtts : dict P float) {G : Type} `{RandomChoiceLaws G (RemoteSpanInfo P)}.
Context (Hinfo : spans_of infos off (spans_by_priority info) (spans_containing_block info)).

Lemma span_weight_pos (sp : RemoteSpanInfo P) b : holds sp b → fltb (S754_zero false) (span_weight rtts sp) = true.
Proof.
  unfold holds, span_weight, span_length. intros Hh.
  assert (fltb (S754_zero false) (float_of_Z (end_ sp - start sp)) = true) as Hw by (apply float_of_Z_pos; lia).
  destruct (dict_get rtts (peer_id sp)) as [r|]; [|done]. by destruct (SFeqb r float_inf).
Qed.

(** The route drawn so far covers [s] to [cur]; a run either completes it or meets a
    block that nobody holds. *)
Lemma max_throughput_spec fuel s e cur acc gen : 0 ≤ cur → e ≤ zlen infos → e - cur ≤ Z.of_nat fuel →
  tiles s cur acc → Forall (hop_in info) acc → Forall (to_end info) acc →
  ∃ gen', (∃ c b, tiles s c (acc ++ b) ∧ e ≤ c ∧ Forall (hop_in info) (acc ++ b) ∧ Forall (to_end info) (acc ++ b) ∧
             (∀ h, h ∈ b → start h < e) ∧
             max_throughput_loop info rtts fuel cur e acc gen = (gen', Ok (acc ++ b))) ∨
          (∃ b, cur ≤ b < e ∧ holding info b = [] ∧
             max_throughput_loop info rtts fuel cur e acc gen = (gen', Raise MissingBlocksError)).
Proof.
  revert cur acc gen. induction fuel as [|fuel IH]; intros cur acc gen Hcur He Hf Ht Hin Hend; cbn [max_throughput_loop];
    destruct (Z.ltb_spec cur e) as [Hlt|Hge]; try lia.
  1,3: exists gen; left; exists cur, []; rewrite app_nil_r; do 4 (split; [done|]); split; [by intros h ?%not_elem_of_nil|done].
  rewrite (spans_at_holding info infos off Hinfo cur), lift_ok_bind by lia.
  destruct (holding info cur) as [|sp0 l] eqn:Eh.
  { exists gen. right. exists cur. split; [lia|]. done. }
  rewrite <- Eh.
  assert (∀ sp, sp ∈ holding info cur → sp ∈ spans_by_priority info ∧ holds sp cur) as Hall
    by (intros sp; by apply holding_elem).
  destruct (choice_element (holding info cur) (span_weight rtts <$> holding info cur) gen) as (gen1 & sp & E & Hsp);
    [by rewrite Eh|by rewrite length_fmap| |].
  { apply Forall_fmap, list.Forall_forall. intros sp Hsp. by eapply span_weight_pos, Hall. }
  rewrite (bind_ok _ _ _ _ _ E). destruct (Hall sp Hsp) as [Hp Hh]. unfold holds in Hh.
  rewrite (proj2 (Z.leb_le _ _)), (proj2 (Z.ltb_lt _ _)) by lia. cbn [andb]. unfold guard_py.
  rewrite (bind_ok (mret tt) _ gen1 gen1 tt) by done.
  set (h := mkSpan (peer_id sp) cur (end_ sp) (server_info sp)).
  destruct (IH (end_ sp) (acc ++ [h]) gen1) as (gen' & [(c & b & Hti & Hec & Hi & Hto & Hst & Hr)|(b & Hb & Hn & Hr)]).
  - lia.
  - done.
  - lia.
  - eapply (tiles_snoc s cur); [exact Ht|reflexivity|lia|reflexivity].
  - apply Forall_app. split; [done|]. repeat constructor. exists sp. cbn. repeat split; (done || lia).
  - apply Forall_app. split; [done|]. repeat constructor. exists sp. done.
  - exists gen'. left. exists c, (h :: b). rewrite <- (assoc_L (++)) in *. cbn [app] in *.
    do 4 (split; [done|]). split; [|done]. intros x [->|Hx]%elem_of_cons; [done|by apply Hst].
  - exists gen'. right. exists b. split; [lia|]. done.
Qed.
End random.

Lemma tiles_cover {P} (route : list (RemoteSpanInfo P)) a c b :
  tiles a c route → a ≤ b < c → ∃ h, h ∈ route ∧ start h ≤ b < end_ h.
Proof.
  revert a. induction route as [|h route IH]; intros a; simpl; [lia|]. intros (Hs & Hlt & Ht) Hb.
  destruct (decide (b < end_ h)); [exists h; split; [by left|lia]|].
  destruct (IH (end_ h) Ht) as (h' & ? & ?); [lia|]. exists h'. split; [by right|done].
Qed.

Lemma route_covered {P} `{PeerIds P} (info : @RemoteSequenceInfo P) route s e c :
  0 ≤ s → tiles s c route → e ≤ c → Forall (hop_in info) route → covered info s e.
Proof.
  intros Hs Ht He Hin b Hb Hn. destruct (tiles_cover route s c b Ht) as (h & Hh & Hr); [lia|].
  rewrite list.Forall_forall in Hin. destruct (Hin h Hh) as (sp & Hsp & _ & _ & Hst & Hend).
  assert (sp ∈ holding info b) as Hin'; [|rewrite Hn in Hin'; by apply not_elem_of_nil in Hin'].
  apply holding_elem; [lia|]. split; [done|]. unfold holds. lia.
Qed.

(** Random routes. Whatever is drawn, a route of maximal throughput from [s] to [e]
    is found exactly when every block of the range is held by an online server:
    consecutive non-empty hops that start at [s], cover the range (the last may run past
    it), start before [e] and run to the end of the span their server holds. Otherwise
    MissingBlocksError is raised; no other exception is, and the loop ends after at most
    [e - s] draws. *)
Lemma max_throughput_route {P} `{PeerIds P} {G} `{RandomChoiceLaws G (RemoteSpanInfo P)}
    (info : @RemoteSequenceInfo P) infos off rtts s e gen :
  spans_of infos off (spans_by_priority info) (spans_containing_block info) → 0 ≤ s → e ≤ zlen infos →
  ∃ gen' r, make_sequence_with_max_throughput info rtts s e gen = (gen', r) ∧
    if decide (covered info s e)
    then ∃ route c, r = Ok route ∧ tiles s c route ∧ e ≤ c ∧ Forall (hop_in info) route ∧
      Forall (to_end info) route ∧ ∀ h, h ∈ route → start h < e
    else r = Raise MissingBlocksError.
Proof.
  intros Hinfo Hs He. unfold make_sequence_with_max_throughput.
  destruct (max_throughput_spec info infos off rtts Hinfo (Z.to_nat (e - s)) s e s [] gen)
    as (gen' & [(c & b & Hti & Hec & Hi & Hto & Hst & Hr)|(b & Hb & Hn & Hr)]); try done; [lia| |].
  - exists gen', (Ok b). split; [exact Hr|]. rewrite decide_True by (by eapply route_covered). by exists b, c.
  - exists gen', (Raise MissingBlocksError). split; [exact Hr|].
    rewrite decide_False; [done|]. intros Hc. by apply (Hc b).
Qed.

(** ** Refreshing and failures *)

Section refresh.
Context {P : Type} `{PeerIds P} {B : Type} `{Blacklist B P} {V : Type} (from_tuple : V → res ServerInfo).
Implicit Types (m : manager P) (d : dict P ServerInfo) (p : P) (bl : B).

Lemma read_entries_wf adapter d l d' : read_entries from_tuple adapter d l = Ok d' → dict_wf d → dict_wf d'.
Proof.
  revert d. induction l as [|kv l IH]; intros d; cbn [read_entries]; [by intros [= ->]|].
  destruct (read_entry from_tuple adapter d kv) as [d1|e] eqn:E; [|done]. cbn [mbind res_bind].
  intros Hl Hwf. apply (IH _ Hl). unfold read_entry in E.
  destruct (p ← from_base58 kv.1; si ← from_tuple kv.2; mret (p, si)) as [[p si]|x].
  - injection E as <-. case_match; [done|by apply dict_set_wf].
  - destruct x; try done; by injection E as <-.
Qed.

Lemma get_remote_spec adapter uids found infos : get_remote_module_infos from_tuple adapter uids found = Ok infos →
  uid <$> infos = uids ∧ servers_wf infos.
Proof.
  unfold get_remote_module_infos, servers_wf. revert infos.
  induction uids as [|u uids IH]; intros infos; cbn [mapM]; [by intros [= <-]|].
  destruct (match found u with Some (Some d) => _ | _ => _ end) as [i|e] eqn:E; [|done]. cbn [mbind res_bind].
  destruct (mapM _ uids) as [k|e]; [|done]. intros [= <-]. destruct (IH k eq_refl) as [Hu Hwf].
  assert (uid i = u ∧ dict_wf (servers i)) as [Hi Hd].
  { destruct (found u) as [[l|]|]; [|injection E as <-; split; [done|apply dict_wf_nil]..].
    destruct (read_entries _ _ [] l) as [s|] eqn:Es; [|done]. injection E as <-. split; [done|].
    eapply read_entries_wf; [done|apply dict_wf_nil]. }
  split; [cbn; by rewrite Hi, Hu|by constructor].
Qed.

Lemma bfilter_wf (f : P * ServerInfo → bool) d : dict_wf d → dict_wf (List.filter f d).
Proof.
  unfold dict_wf, dict_keys. induction d as [|kv d IH]; [done|]. cbn. intros [Hn Hnd]%NoDup_cons.
  destruct (f kv); [|by apply IH]. cbn. constructor; [|by apply IH]. intros Hin. apply Hn.
  apply list_elem_of_fmap in Hin as (x & -> & Hx). apply list_elem_of_fmap. exists x. split; [done|].
  by apply elem_of_bfilter in Hx as [? _].
Qed.

Lemma filter_servers_wf bl m d : dict_wf d → dict_wf (filter_servers bl m d).
Proof.
  intros Hd. unfold filter_servers. destruct (_ <? _); [|by apply bfilter_wf].
  destruct (List.filter _ (List.filter _ d)) eqn:E; [by apply bfilter_wf|]. rewrite <- E. by do 2 apply bfilter_wf.
Qed.

Lemma bfilter_full {A} (f : A → bool) (l : list A) : zlen (List.filter f l) = zlen l → ∀ x, x ∈ l → f x = true.
Proof.
  induction l as [|y l IH]; cbn [List.filter]; [by intros _ x ?%not_elem_of_nil|].
  pose proof (List.filter_length_le f l) as Hle. destruct (f y) eqn:E.
  - rewrite !zlen_cons. intros Hl x [->|Hx]%elem_of_cons; [done|]. apply IH; [lia|done].
  - rewrite zlen_cons. unfold zlen. lia.
Qed.

(** An entry survives iff its peer is allowed and is not banned, or nobody else would
    be left. *)
Lemma filter_servers_spec bl m d kv : kv ∈ filter_servers bl m d ↔
  kv ∈ d ∧ is_allowed m kv.1 = true ∧
  (bl_contains bl kv.1 = false ∨ ∀ q, q ∈ d → is_allowed m q.1 = true → bl_contains bl q.1 = true).
Proof.
  unfold filter_servers. set (kept := List.filter (λ kv, is_allowed m kv.1) d).
  set (valid := List.filter (λ kv, negb (bl_contains bl kv.1)) kept).
  assert (∀ q, q ∈ kept ↔ q ∈ d ∧ is_allowed m q.1 = true) as Hkept
    by (intros q; exact (elem_of_bfilter (λ kv, is_allowed m kv.1) d q)).
  assert (∀ q, q ∈ valid ↔ q ∈ kept ∧ bl_contains bl q.1 = false) as Hvalid.
  { intros q. unfold valid. rewrite elem_of_bfilter, negb_true_iff. done. }
  destruct (Z.ltb_spec (zlen valid) (zlen kept)) as [Hlt|Hge].
  - destruct valid as [|v valid'] eqn:Ev.
    + rewrite Hkept. split; [|naive_solver]. intros [Hd Ha]. split; [done|]. split; [done|]. right.
      intros q Hq Hqa. destruct (bl_contains bl q.1) eqn:E; [done|].
      assert (q ∈ []) as Hn%not_elem_of_nil; [|done]. apply Hvalid. rewrite Hkept. done.
    + rewrite <- Ev in *. rewrite Hvalid, Hkept. split; [naive_solver|].
      intros (Hd & Ha & [Hb|Hall]); [done|]. exfalso.
      assert (v ∈ valid) as Hv by (rewrite Ev; by left). rewrite Hvalid, Hkept in Hv.
      destruct Hv as [[Hvd Hva] Hvb]. rewrite (Hall v Hvd Hva) in Hvb. done.
  - rewrite Hkept. split; [|naive_solver]. intros [Hd Ha]. split; [done|]. split; [done|]. left.
    assert (zlen valid = zlen kept) as Hl.
    { pose proof (List.filter_length_le (λ kv, negb (bl_contains bl kv.1)) kept). unfold valid, zlen in *. lia. }
    assert (kv ∈ kept) as Hk by (by rewrite Hkept). pose proof (bfilter_full _ _ Hl kv Hk) as Hn.
    by rewrite negb_true_iff in Hn.
Qed.

Lemma filter_news_wf bl m infos : servers_wf infos → servers_wf (filter_info bl m <$> infos).
Proof. intros Hwf. apply Forall_fmap. eapply Forall_impl; [exact Hwf|]. intros i Hi. by apply filter_servers_wf. Qed.

Lemma filter_news_uids bl m (infos : list (RemoteModuleInfo P)) : uid <$> (filter_info bl m <$> infos) = uid <$> infos.
Proof. rewrite <- list_fmap_compose. done. Qed.

Lemma ping_candidates_ok (i : @RemoteSequenceInfo P) : spans_containing_block i ≠ [] → is_ok (ping_candidates i) = true.
Proof.
  intros Hne. unfold ping_candidates. destruct (spans_containing_block i) as [|x l] eqn:E; [done|].
  rewrite py_index_nonneg by done. cbn [lookup list_lookup Z.to_nat].
  assert (py_index (x :: l) (-1) = (x :: l) !! length l) as ->.
  { unfold py_index. cbn [Z.leb Z.compare]. rewrite zlen_cons. pose proof (zlen_nonneg l).
    rewrite (proj2 (Z.leb_le 0 _)) by lia. f_equal. unfold zlen. lia. }
  destruct (lookup_lt_is_Some_2 (x :: l) (length l)) as [y ->]; [simpl; lia|done].
Qed.

(** A refresh that the DHT answers. *)
Lemma update_manager_spec found now w m infos off : seq_wf (objects w) (sequence_info m) →
  block_uids (sequence_info m) ≠ [] →
  get_remote_module_infos from_tuple (active_adapter m) (block_uids (sequence_info m)) found = Ok infos →
  block_offset infos = Ok off →
  let news := filter_info (banned_peers w) m <$> infos in
  ∃ w' i, update_manager from_tuple found now (w, m) = ((w', set_ready true (set_info i m)), Ok tt) ∧
    banned_peers w' = banned_peers w ∧ seq_wf (objects w') i ∧
    block_uids i = block_uids (sequence_info m) ∧ block_infos i = block_infos (sequence_info m) ∧
    Forall2 (λ a x, objects w' !! a = Some x) (block_infos i) news ∧
    (∀ a, a ∉ block_infos i → objects w' !! a = objects w !! a) ∧
    spans_of news off (spans_by_priority i) (spans_containing_block i).
Proof.
  intros Hwf Hne Hget Hoff news. destruct (get_remote_spec _ _ _ _ Hget) as [Hu Hsw].
  assert (block_offset news = Ok off) as Hoff'.
  { unfold news, filter_info. destruct infos as [|x infos']; [done|]. cbn in *. done. }
  destruct (update_ok (sequence_info m) news now (objects w) off Hwf) as (st' & prio & cont & E & Hs & Hnew & Hold & Hlen);
    [unfold news; by rewrite filter_news_uids|by apply filter_news_wf|done|].
  eexists (mkShared st' (banned_peers w)), _. split.
  - unfold update_manager. rewrite get_bind. cbn beta iota. rewrite Hget, lift_ok_bind. cbn zeta. fold news. rewrite E.
    rewrite put_bind. cbn beta. set (i := mkSequence _ _ _ _ _).
    assert (is_ok (ping_candidates i) = true) as Hping.
    { apply ping_candidates_ok. cbn. intros Hn. apply Hne. pose proof (sf_length _ _ _ _ Hs) as Hl. rewrite Hn in Hl.
      unfold news in Hl. rewrite length_fmap in Hl. destruct infos; [by rewrite <- Hu|done]. }
    destruct (ping_candidates i) as [c|]; [|done]. rewrite lift_ok_bind. reflexivity.
  - cbn. split; [done|]. split.
    + destruct Hwf as [Hobj Hnd]. split; cbn; [|done]. rewrite <- Hu, <- (filter_news_uids (banned_peers w) m).
      apply Forall2_fmap_l, Forall2_flip. eapply Forall2_impl; [exact Hnew|]. intros a x Ha. by exists x.
    + done.
Qed.

Lemma fold_pop_lookup (o : option P) addrs (st : list (RemoteModuleInfo P)) a : NoDup addrs →
  fold_left (λ st a, alter (pop_server o) a st) addrs st !! a =
    if decide (a ∈ addrs) then pop_server o <$> st !! a else st !! a.
Proof.
  intros Hnd. revert st. induction Hnd as [|b addrs Hb Hnd IH]; intros st; cbn [fold_left].
  - rewrite decide_False; [done|]. apply not_elem_of_nil.
  - rewrite IH. destruct (decide (a = b)) as [->|Hne].
    + rewrite decide_False by done. rewrite decide_True by (by left). apply list_lookup_alter_eq.
    + rewrite list_lookup_alter_ne by done. destruct (decide (a ∈ addrs)).
      * by rewrite decide_True by (by right).
      * rewrite decide_False; [done|]. by rewrite elem_of_cons; intros [?|?].
Qed.

(** A failure keeps every span; the peer leaves the blocks, and the manager refreshes
    at once only if some block is left without a server. *)
Lemma on_request_failure_spec o w m : seq_wf (objects w) (sequence_info m) →
  ∃ w' m', on_request_failure o (w, m) = ((w', m'), Ok tt) ∧
    sequence_info m' = sequence_info m ∧
    banned_peers w' = match o with Some p => bl_register_failure (banned_peers w) p | None => banned_peers w end ∧
    (∀ a, objects w' !! a = if decide (a ∈ block_infos (sequence_info m))
                            then pop_server o <$> objects w !! a else objects w !! a) ∧
    (ready m' = true ↔ ready m = true ∧
       ∀ a i, a ∈ block_infos (sequence_info m) → objects w' !! a = Some i → servers i ≠ []).
Proof.
  intros [Hobj Hnd]. eexists _, _. split; [unfold on_request_failure; rewrite get_bind; reflexivity|]. cbn [fst snd objects banned_peers].
  set (st := fold_left _ _ _). set (upd := existsb _ _).
  assert (∀ a, st !! a = if decide (a ∈ block_infos (sequence_info m)) then pop_server o <$> objects w !! a else objects w !! a)
    as Hst by (intros; by apply fold_pop_lookup).
  split; [by destruct upd|]. split; [done|]. split; [done|].
  assert (upd = false ↔ ∀ a i, a ∈ block_infos (sequence_info m) → st !! a = Some i → servers i ≠ []) as Hupd.
  { unfold upd. rewrite <- not_true_iff_false, existsb_exists. split.
    - intros Hn a i Ha Hi Hs. apply Hn. exists a. rewrite <- list_elem_of_In. split; [done|]. rewrite Hi.
      unfold no_servers. by rewrite Hs.
    - intros Hall (a & Ha & Hb). rewrite <- list_elem_of_In in Ha. destruct (st !! a) as [i|] eqn:E; [|done].
      apply (Hall a i Ha E). unfold no_servers in Hb. by destruct (servers i). }
  destruct upd; cbn; [|naive_solver]. split; [done|]. intros [_ Hall]. apply Hupd in Hall. done.
Qed.
End refresh.

(** Every hop of a found route runs inside an online span. *)
Lemma route_hops {P} `{PeerIds P} {G} `{RandomChoiceLaws G (RemoteSpanInfo P)} `{!PathFinder P} `{!PathFinderLaws P}
    (m : manager P) infos off rtts s e mode cache_tokens_needed (gen gen' : G) route :
  spans_of infos off (spans_by_priority (sequence_info m)) (spans_containing_block (sequence_info m)) →
  0 ≤ s ≤ e → e ≤ zlen infos →
  make_sequence m rtts s (Some e) mode cache_tokens_needed gen = (gen', Ok route) → Forall (hop_in (sequence_info m)) route.
Proof.
  intros Hinfo Hs He. unfold make_sequence. destruct (String.eqb mode "min_latency"); [|destruct (String.eqb mode "max_throughput"); [|done]].
  - intros [= _ E]. destruct (Z.eqb_spec s e) as [->|Hne].
    { unfold make_sequence_with_min_latency in E. rewrite Z.eqb_refl in E. injection E as <-. constructor. }
    pose proof (min_latency_spec _ infos off rtts cache_tokens_needed s e Hinfo ltac:(lia) He) as Hr. cbv zeta in Hr. rewrite E in Hr.
    destruct (negb _); [done|]. destruct (existsb _ _); [done|]. by destruct Hr as (init & last & g & nodes & [= ->] & _ & ? & _).
  - intros E. destruct (max_throughput_route _ infos off rtts s e gen Hinfo ltac:(lia) He) as (gen1 & r & E' & Hr).
    rewrite E in E'. injection E' as <- <-. destruct (decide _); [|done]. by destruct Hr as (route' & c' & [= <-] & _ & _ & ? & _).
Qed.

(** Until the next refresh every route is found as before a failure, the failed peer
    included: only the servers of the blocks lose it, and routes are made of spans. *)
Lemma failure_keeps_routes {P} `{PeerIds P} {B} `{Blacklist B P} {G} `{RandomChoice G (RemoteSpanInfo P)} `{PathFinder P}
    (o : option P) (w : @shared P B) (m : manager P) :
  seq_wf (objects w) (sequence_info m) →
  ∃ w' m', on_request_failure o (w, m) = ((w', m'), Ok tt) ∧
    ∀ rtts s e mode cache_tokens_needed (gen : G),
      make_sequence m' rtts s e mode cache_tokens_needed gen = make_sequence m rtts s e mode cache_tokens_needed gen.
Proof.
  intros Hwf. destruct (on_request_failure_spec o w m Hwf) as (w' & m' & E & Hi & _).
  exists w', m'. split; [exact E|]. intros. unfold make_sequence. by rewrite Hi.
Qed.

(** A failure keeps the sequence well-formed. *)
Lemma pop_seq_wf {P} `{PeerIds P} (o : option P) (st st' : list (RemoteModuleInfo P)) (i : @RemoteSequenceInfo P) : seq_wf st i →
  (∀ a, st' !! a = if decide (a ∈ block_infos i) then pop_server o <$> st !! a else st !! a) → seq_wf st' i.
Proof.
  intros [HF Hnd] Hobj. split; [|done]. apply Forall2_same_length_lookup_2; [by eapply Forall2_length|].
  intros j u a Hu Ha. destruct (Forall2_lookup_lr _ _ _ _ _ _ HF Hu Ha) as (x & Hx & Hux).
  rewrite Hobj, decide_True by (by eapply list_elem_of_lookup_2). rewrite Hx. cbn. eexists. split; [done|]. by destruct o.
Qed.

(** C16: A failed request and the refresh after it. [on_request_failure] registers the
    failure with the blacklist and removes the peer from the servers of every block of the
    sequence, and nobody else; the manager stops being ready (and refreshes at once) exactly
    when some block is left with no server. A refresh that the DHT answers makes it ready
    again; the servers of a block are then the announced ones that are allowed and not
    banned, or all the allowed ones when every one of them is banned, the spans are those of
    these servers, and every hop of every route found on them, of either mode, is of a peer
    whose record was announced online for some block, that is allowed, and that is not banned
    unless every allowed peer announced for that block is. *)
Theorem failure_then_refresh {P} `{PeerIds P} {B} `{Blacklist B P} {V} (from_tuple : V → res ServerInfo)
    {G} `{RandomChoiceLaws G (RemoteSpanInfo P)} `{!PathFinder P} `{!PathFinderLaws P} (o : option P) (w : @shared P B) (m : manager P) :
  seq_wf (objects w) (sequence_info m) → block_uids (sequence_info m) ≠ [] →
  ∃ w' m', on_request_failure o (w, m) = ((w', m'), Ok tt) ∧
    banned_peers w' = match o with Some p => bl_register_failure (banned_peers w) p | None => banned_peers w end ∧
    (∀ a i, objects w !! a = Some i →
       objects w' !! a = Some (if decide (a ∈ block_infos (sequence_info m)) then pop_server o i else i)) ∧
    (ready m' = true ↔ ready m = true ∧
       ∀ a i, a ∈ block_infos (sequence_info m) → objects w' !! a = Some i → servers i ≠ []) ∧
    ∀ found now infos off,
      get_remote_module_infos from_tuple (active_adapter m') (block_uids (sequence_info m')) found = Ok infos →
      block_offset infos = Ok off →
      let usable i p := is_allowed m' p = true ∧ (bl_contains (banned_peers w') p = false ∨
        ∀ q, q ∈ servers i → is_allowed m' q.1 = true → bl_contains (banned_peers w') q.1 = true) in
      ∃ w'' m'', update_manager from_tuple found now (w', m') = ((w'', m''), Ok tt) ∧ ready m'' = true ∧
        (∃ news, infos_of (objects w'') (block_infos (sequence_info m'')) = Ok news ∧
          spans_of news off (spans_by_priority (sequence_info m'')) (spans_containing_block (sequence_info m'')) ∧
          Forall2 (λ i n, uid n = uid i ∧ ∀ kv, kv ∈ servers n ↔ kv ∈ servers i ∧ usable i kv.1) infos news) ∧
        ∀ rtts s e mode cache_tokens_needed (gen gen' : G) route, 0 ≤ s ≤ e → e ≤ zlen infos →
          make_sequence m'' rtts s (Some e) mode cache_tokens_needed gen = (gen', Ok route) →
          Forall (λ h, span_state h = ONLINE ∧ ∃ i, i ∈ infos ∧ (peer_id h, server_info h) ∈ servers i ∧ usable i (peer_id h)) route.
Proof.
  intros Hwf Hne. destruct (on_request_failure_spec o w m Hwf) as (w' & m' & E & Hi & Hbl & Hobj & Hready).
  assert (seq_wf (objects w') (sequence_info m')) as Hwf' by (rewrite Hi; by eapply pop_seq_wf).
  exists w', m'. split; [exact E|]. split; [exact Hbl|].
  split; [intros a i Hx; rewrite Hobj, Hx; by destruct (decide _)|]. split; [exact Hready|].
  intros found now infos off Hget Hoff usable.
  destruct (update_manager_spec from_tuple found now w' m' infos off Hwf') as (w'' & i & Eu & _ & _ & _ & _ & Hnew & _ & Hs);
    [by rewrite Hi|done|done|].
  exists w'', (set_ready true (set_info i m')). split; [exact Eu|]. split; [done|]. split.
  - exists (filter_info (banned_peers w') m' <$> infos). split; [by apply infos_of_Forall2|]. split; [exact Hs|].
    apply Forall2_fmap_r, Forall_Forall2_diag, list.Forall_forall. intros x _. split; [done|].
    intros kv. apply filter_servers_spec.
  - intros rtts s e mode n gen gen' route Hse He Hroute. eapply Forall_impl.
    { eapply (route_hops (set_ready true (set_info i m'))); [exact Hs|exact Hse|unfold zlen in *; by rewrite length_fmap|exact Hroute]. }
    intros h (sp & Hsp & <- & Hsi & _). destruct (sf_spans _ _ _ _ Hs sp Hsp) as (_ & _ & Hon & x & Hx & Hget').
    unfold span_state in *. rewrite <- Hsi. split; [exact Hon|].
    apply list_elem_of_fmap in Hx as (i0 & -> & Hi0). exists i0. split; [exact Hi0|].
    apply dict_elem_get, filter_servers_spec in Hget' as (? & ? & ?). done.
Qed.

(** ** Concrete parameters *)

Section example.
#[local] Existing Instance z_peers.

Definition list_blacklist : Blacklist (list Z) Z := {|
  bl_contains l p := existsb (Z.eqb p) l;
  bl_register_failure l p := p :: l;
  bl_register_success l p := List.filter (λ q, negb (q =? p)) l;
|}.

(** Always the first candidate. *)
Definition first_choice {A} : RandomChoice unit A := λ l w g, (g, of_option ValueError (head l)).

Lemma first_choice_laws {A} : @RandomChoiceLaws unit A first_choice.
Proof.
  intros l w g Hl _ _. destruct l as [|x l]; [done|]. exists g, x. split; [reflexivity|by left].
Qed.

#[local] Existing Instances list_blacklist cheapest_path cheapest_path_laws first_choice first_choice_laws.

(** Peer 7 serves blocks 3 to 5 of the model, peer 2 blocks 5 and 6; the sequence is
    blocks 4 to 6. *)
Definition ex_route_news : list (RemoteModuleInfo Z) :=
  [mkModule "m.4" [(7, ex_info ONLINE (Some (3, 6)) float_one)];
   mkModule "m.5" [(7, ex_info ONLINE (Some (3, 6)) float_one); (2, ex_info ONLINE (Some (5, 7)) float_one)];
   mkModule "m.6" [(2, ex_info ONLINE (Some (5, 7)) float_one)]].
Definition ex_sequence (news : list (RemoteModuleInfo Z)) : @RemoteSequenceInfo Z :=
  let '(prio, cont) := match sort_spans news with Ok r => r | Raise _ => ([], []) end in
  mkSequence (uid <$> news) [0; 1; 2]%nat prio cont None.

Definition hops (r : res (list (RemoteSpanInfo Z))) : res (list (Z * Z * Z)) :=
  match r with Ok l => Ok (List.map (λ h, (peer_id h, start h, end_ h)) l) | Raise e => Raise e end.

Example route_ex :
  hops (make_sequence_with_min_latency (ex_sequence ex_route_news) [] None 0 3) = Ok [(7, 0, 2); (2, 2, 3)] ∧
  hops (snd (make_sequence_with_max_throughput (ex_sequence ex_route_news) [] 0 1 tt)) = Ok [(7, 0, 2)].
Proof. split; vm_compute; reflexivity. Qed.

(** One server that announces a rate of zero makes every route fail. *)
Example zero_rate_ex :
  let zero := [mkModule "m.4" [(7, ex_info ONLINE None float_one); (9, ex_info ONLINE None (S754_zero false))]] in
  info_valid (ex_info ONLINE None (S754_zero false)) = true ∧
  hops (make_sequence_with_min_latency (ex_sequence zero) [] None 0 1) = Raise ZeroDivisionError.
Proof. split; vm_compute; reflexivity. Qed.

Lemma ex_spans_of : spans_of ex_route_news 4 (spans_by_priority (ex_sequence ex_route_news))
  (spans_containing_block (ex_sequence ex_route_news)).
Proof.
  destruct (sort_spans_of ex_route_news 4) as (prio & cont & E & Hs); [repeat constructor; cbn; set_solver|reflexivity|].
  assert (sort_spans ex_route_news = Ok (spans_by_priority (ex_sequence ex_route_news),
    spans_containing_block (ex_sequence ex_route_news))) as E' by (vm_compute; reflexivity).
  set (a := spans_by_priority _) in *. set (b := spans_containing_block _) in *. clearbody a b.
  rewrite E' in E. by injection E as -> ->.
Qed.

(** Of two servers of a block the nearer one is taken, unless its cache has no room. *)
Definition ex_roomy (tokens : Z) : ServerInfo :=
  mkServerInfo ONLINE float_one None None None None None None (Some float_one) [] None None None (Some tokens) None.
Example nearer_ex :
  let near tokens := [mkModule "m.4" [(7, ex_info ONLINE None float_one); (9, ex_roomy tokens)]] in
  let route tokens := hops (make_sequence_with_min_latency (ex_sequence (near tokens)) [(7, float_one)] (Some 100) 0 1) in
  route 200 = Ok [(9, 0, 1)] ∧ route 199 = Ok [(7, 0, 1)].
Proof. split; vm_compute; reflexivity. Qed.

Lemma min_latency_route_witness :
  measured (ex_sequence ex_route_news) [(7, float_one)] ∧
  ∃ init last, make_sequence_with_min_latency (ex_sequence ex_route_news) [(7, float_one)] (Some 100) 0 3 = Ok (init ++ [last]) ∧
    tiles 0 3 (init ++ [last]).
Proof.
  assert (measured (ex_sequence ex_route_news) [(7, float_one)]) as Hm.
  { split; [repeat constructor|]. intros sp Hsp. cut (forallb (λ sp, info_valid (server_info sp)) (spans_by_priority (ex_sequence ex_route_news)) = true);
      [|vm_compute; reflexivity]. rewrite forallb_forall. intros Hall. apply Hall, list_elem_of_In, Hsp. }
  split; [exact Hm|].
  pose proof (min_latency_route (ex_sequence ex_route_news) ex_route_news 4 [(7, float_one)] (Some 100) 0 3 ex_spans_of Hm ltac:(lia)
    ltac:(vm_compute; discriminate)) as Ht. cbn zeta in Ht.
  replace (0 =? 3) with false in Ht by reflexivity.
  replace (negb _) with false in Ht by (vm_compute; reflexivity).
  replace (existsb _ _) with false in Ht by (vm_compute; reflexivity).
  destruct Ht as (init & last & E & Ht & _). exists init, last. split; [exact E|exact Ht].
Defined.

Lemma max_throughput_route_witness :
  covered (ex_sequence ex_route_news) 0 3 ∧
  ∃ route c, make_sequence_with_max_throughput (ex_sequence ex_route_news) [] 0 3 tt = (tt, Ok route) ∧
    tiles 0 c route ∧ 3 ≤ c.
Proof.
  assert (bool_decide (covered (ex_sequence ex_route_news) 0 3) = true) as Hc by (vm_compute; reflexivity).
  apply bool_decide_eq_true in Hc. split; [exact Hc|].
  pose proof (max_throughput_route (ex_sequence ex_route_news) ex_route_news 4 [] 0 3 tt ex_spans_of ltac:(lia)
    ltac:(vm_compute; discriminate)) as ([] & r & E & Hr). rewrite decide_True in Hr by exact Hc.
  destruct Hr as (route & c & -> & Ht & Hc' & _). exists route, c. split; [exact E|]. split; [exact Ht|exact Hc'].
Defined.

(** A record that parses is the record. *)
Definition ex_from_tuple (i : ServerInfo) : res ServerInfo := Ok i.
Definition ex_found (u : string) : option (option (dict string ServerInfo)) :=
  (λ i, Some (List.map (λ kv, (pretty kv.1, kv.2)) (servers i))) <$> List.find (λ i, String.eqb (uid i) u) ex_route_news.
Definition ex_manager : manager Z := mkManager (ex_sequence ex_route_news) None None None true.
Definition ex_shared : @shared Z (list Z) := mkShared ex_route_news [].

Lemma failure_then_refresh_witness :
  seq_wf (objects ex_shared) (sequence_info ex_manager) ∧
  ∃ w' m', on_request_failure (Some 7) (ex_shared, ex_manager) = ((w', m'), Ok tt) ∧ ready m' = false ∧
  ∃ w'' m'', update_manager ex_from_tuple ex_found float_one (w', m') = ((w'', m''), Ok tt) ∧ ready m'' = true.
Proof.
  assert (seq_wf (objects ex_shared) (sequence_info ex_manager)) as Hwf.
  { split; [repeat constructor; eexists; split; reflexivity|]. repeat constructor; cbn; set_solver. }
  split; [exact Hwf|].
  destruct (failure_then_refresh ex_from_tuple (G := unit) (Some 7) ex_shared ex_manager Hwf ltac:(discriminate))
    as (w' & m' & E & _ & Hobj & Hready & Hrefresh).
  exists w', m'. split; [exact E|]. split.
  - destruct (ready m') eqn:Er; [|reflexivity]. destruct (proj1 Hready eq_refl) as [_ Hall]. exfalso.
    refine (Hall 0%nat _ ltac:(left) (Hobj 0%nat _ eq_refl) _). reflexivity.
  - assert (sequence_info m' = sequence_info ex_manager ∧ active_adapter m' = None) as [Hi Ha].
    { vm_compute in E. injection E as <- <-. split; reflexivity. }
    destruct (Hrefresh ex_found float_one ex_route_news 4) as (w'' & m'' & Eu & Hr & _).
    + rewrite Hi, Ha. vm_compute. reflexivity.
    + reflexivity.
    + exists w'', m''. split; [exact Eu|exact Hr].
Defined.
End example.
