(* ===== verification/BlockSelection.v ===== *)
(** * Which blocks a server serves (server/block_selection.py)

    A joining server takes the window of blocks whose sorted throughputs are least; a
    running one simulates every server moving to its best place, and moves when the
    swarm would be balanced better by more than a margin. Throughputs are binary64
    floats with the code's operations in the code's order; numpy's shuffle is a
    parameter. *)

From stdpp Require Import numbers base sets strings pretty list.
From Stdlib Require Import ZArith Lia ZifyBool SpecFloat.
From S2P Require Import Prelude Dict PySort Floats SwarmInfo.

(** [throughputs[a:b] += x], with Python's slice bounds. *)
Definition add_slice (op : float → float → float) (arr : list float) (a b : Z) (x : float) : list float :=
  imap (λ i y, if (slice_bound (zlen arr) a <=? Z.of_nat i) && (Z.of_nat i <? slice_bound (zlen arr) b)
               then op y x else y) arr.

(** Python's comparison of lists of floats. *)
Fixpoint list_ltb (l1 l2 : list float) : bool :=
  match l1, l2 with
  | _, [] => false
  | [], _ :: _ => true
  | x :: l1', y :: l2' => if SFeqb x y then list_ltb l1' l2' else fltb x y
  end.
Fixpoint list_eqb (l1 l2 : list float) : bool :=
  match l1, l2 with
  | [], [] => true
  | x :: l1', y :: l2' => SFeqb x y && list_eqb l1' l2'
  | _, _ => false
  end.

(** Comparison of the pairs [(sorted(window), i)]. *)
Definition option_ltb (p q : list float * Z) : bool :=
  if list_eqb p.1 q.1 then p.2 <? q.2 else list_ltb p.1 q.1.

(** [min(iterable)]: the first of the least elements; [None] is ValueError. *)
Definition py_min {A} (ltb : A → A → bool) (l : list A) : option A :=
  match l with
  | [] => None
  | x :: l' => Some (fold_left (λ best y, if ltb y best then y else best) l' x)
  end.

Definition window (throughputs : list float) (num_blocks i : Z) : list float :=
  py_sorted (λ x, x) (py_slice throughputs i (i + num_blocks)).

Definition choose_best_start (throughputs : list float) (num_blocks : Z) : res Z :=
  of_option ValueError
    (snd <$> py_min option_ltb
       ((λ i, (window throughputs num_blocks i, i)) <$> py_range 0 (zlen throughputs - num_blocks + 1))).

(** [throughputs.min()] *)
Definition array_min (l : list float) : res float :=
  match l with [] => Raise ValueError | x :: l' => Ok (fold_left fmin l' x) end.

Definition eps : float := S754_finite false 4611686018427388 (-62).
Definition one_plus_eps : float := fadd float_one eps.
Definition float_zero : float := S754_zero false.

Section selection.
Context {P : Type} `{PeerIds P}.
Implicit Types (p : P) (sp : RemoteSpanInfo P) (infos : list (RemoteModuleInfo P)).

(** The property [throughput] of a span. *)
Definition span_throughput sp : float := throughput (server_info sp).

Definition compute_throughputs (spans : dict P (RemoteSpanInfo P)) (total_blocks : Z) : list float :=
  fold_left (λ arr sp, add_slice fadd arr (start sp) (end_ sp) (span_throughput sp))
    (sort_by (λ a b, peer_ltb (peer_id a) (peer_id b)) (dict_values spans))
    (replicate (Z.to_nat total_blocks) float_zero).

Definition choose_best_blocks (num_blocks : Z) infos : res (list Z) :=
  spans ← compute_spans infos JOINING;
  s ← choose_best_start (compute_throughputs spans (zlen infos)) num_blocks;
  mret (py_range s (s + num_blocks)).

(** [_move_span] *)
Definition move_span sp (new_start : Z) : RemoteSpanInfo P :=
  mkSpan (peer_id sp) new_start (new_start + span_length sp) (server_info sp).

(** [throughputs[span.start : span.end] -= span.throughput * (1 + eps)], [+= span.throughput * eps]
    and [+= span.throughput]. *)
Definition take_out (t : list float) sp : list float :=
  add_slice fsub t (start sp) (end_ sp) (fmul (span_throughput sp) one_plus_eps).
Definition give_back (t : list float) sp : list float :=
  add_slice fadd t (start sp) (end_ sp) (fmul (span_throughput sp) eps).
Definition put_in (t : list float) sp : list float :=
  add_slice fadd t (start sp) (end_ sp) (span_throughput sp).

(** *** The simulation *)

Record swarm := mkSwarm { spans : dict P (RemoteSpanInfo P); throughputs : list float }.

(** One server of the inner loop: [(swarm, moved)] to [(swarm, moved)]. *)
Definition move_server (s : swarm) (moved : bool) p : res (swarm * bool) :=
  sp ← of_option KeyError (dict_get (spans s) p);
  let t1 := take_out (throughputs s) sp in
  new_start ← choose_best_start t1 (span_length sp);
  let sp' := if start sp =? new_start then sp else move_span sp new_start in
  mret (mkSwarm (dict_set (spans s) p sp') (put_in (give_back t1 sp) sp'), if start sp =? new_start then moved else true).

Fixpoint move_servers (s : swarm) (moved : bool) (l : list P) : res (swarm * bool) :=
  match l with
  | [] => Ok (s, moved)
  | p :: l' => '(s', moved') ← move_server s moved p; move_servers s' moved' l'
  end.

(** [while moved]: [shuffle] is [np.random.shuffle] on the generator [G]. Nothing in the
    code bounds the number of rounds. *)
Fixpoint rebalance {G} (shuffle : list P → G → G * list P) (fuel : nat) (s : swarm) : M G swarm :=
  match fuel with
  | O => mthrow OutOfFuel
  | S fuel' =>
      λ g, let '(g', servers) := shuffle (dict_keys (spans s)) g in
           match move_servers s false servers with
           | Ok (s', true) => rebalance shuffle fuel' s' g'
           | Ok (s', false) => (g', Ok s')
           | Raise e => (g', Raise e)
           end
  end.

Definition should_choose_other_blocks {G} (shuffle : list P → G → G * list P) (fuel : nat)
    (local_peer_id : P) infos (balance_quality : float) : M G bool :=
  if fltb float_one balance_quality then mret true
  else
    sps ← lift (compute_spans infos JOINING);
    let t0 := compute_throughputs sps (zlen infos) in
    initial_throughput ← lift (array_min t0);
    match dict_get sps local_peer_id with
    | None => mthrow AssertionError
    | Some sp =>
        let t1 := take_out t0 sp in
        least ← lift (array_min t1);
        if fltb eps initial_throughput && fleb least float_zero then mret false
        else
          new_start ← lift (choose_best_start t1 (span_length sp));
          if start sp =? new_start then mret false
          else
            let sp' := move_span sp new_start in
            s ← rebalance shuffle fuel (mkSwarm (dict_set sps local_peer_id sp') (put_in (give_back t1 sp) sp'));
            new_throughput ← lift (array_min (throughputs s));
            if fltb new_throughput initial_throughput || fltb new_throughput eps then mret false
            else mret (fltb (fdiv initial_throughput new_throughput) (fsub balance_quality eps))
    end.
End selection.

(** ** Lemmas: the best window *)

Definition nums (l : list float) : Prop := Forall (λ x, is_num x = true) l.

Ltac float_cases :=
  repeat match goal with
  | Hx : is_num ?x = true, Hy : is_num ?y = true |- context [SFeqb ?x ?y] => rewrite (feqb_fleb x y Hx Hy)
  | Hx : is_num ?x = true, Hy : is_num ?y = true |- context [fltb ?x ?y] => rewrite (fltb_fleb x y Hx Hy)
  end.

Lemma list_eqb_ltb l k : nums l → nums k → list_eqb l k = negb (list_ltb l k) && negb (list_ltb k l).
Proof.
  intros Hl. revert k. induction Hl as [|x l Hx Hl IH]; intros k Hk; destruct Hk as [|y k Hy Hk]; cbn; try done.
  float_cases. rewrite IH by done.
  destruct (fleb x y) eqn:E1, (fleb y x) eqn:E2; cbn; done.
Qed.

Lemma list_ltb_asym l k : nums l → nums k → list_ltb l k = true → list_ltb k l = false.
Proof.
  intros Hl. revert k. induction Hl as [|x l Hx Hl IH]; intros k Hk; destruct Hk as [|y k Hy Hk]; cbn; try done.
  float_cases. destruct (fleb x y) eqn:E1, (fleb y x) eqn:E2; cbn; try done; [by apply IH|].
  destruct (fleb_total x y); congruence.
Qed.

Lemma list_ltb_trans l k j : nums l → nums k → nums j →
  list_ltb k l = false → list_ltb j k = false → list_ltb j l = false.
Proof.
  intros Hl. revert k j. induction Hl as [|x l Hx Hl IH]; intros k j Hk Hj.
  { intros _ _. by destruct j. }
  destruct Hk as [|y k Hy Hk]; [done|]. destruct Hj as [|z j Hz Hj]; [done|]. cbn. float_cases.
  destruct (fleb x y) eqn:E1, (fleb y x) eqn:E2; cbn; try done; destruct (fleb z y) eqn:E3, (fleb y z) eqn:E4; cbn; try done.
  all: try (assert (fleb z x = true) as -> by (by eapply (fleb_trans z y x)));
    try (assert (fleb x z = true) as -> by (by eapply (fleb_trans x y z))); cbn; try done.
  - by apply IH.
  - destruct (fleb z x) eqn:E5; [|done]. assert (fleb z y = true); [by eapply (fleb_trans z x y)|congruence].
  - destruct (fleb z x) eqn:E5; [|done]. assert (fleb y x = true); [by eapply (fleb_trans y z x)|congruence].
  - destruct (fleb z x) eqn:E5; [|done]. assert (fleb z y = true); [by eapply (fleb_trans z x y)|congruence].
Qed.

Lemma option_weak_order : weak_order option_ltb (λ p, nums p.1).
Proof.
  split.
  - intros [l i] [k j] Hl Hk. unfold option_ltb. cbn in *. rewrite !list_eqb_ltb by done. rewrite (andb_comm (negb (list_ltb k l))).
    destruct (_ && _); [lia|]. by apply list_ltb_asym.
  - intros [l i] [k j] [m h] Hl Hk Hm. unfold option_ltb. cbn in *. rewrite !list_eqb_ltb by done.
    pose proof (list_ltb_trans l k m Hl Hk Hm) as T1. pose proof (list_ltb_trans k m l Hk Hm Hl) as T2.
    pose proof (list_ltb_trans m l k Hm Hl Hk) as T3.
    destruct (list_ltb k l), (list_ltb l k), (list_ltb m k), (list_ltb k m), (list_ltb m l), (list_ltb l m); cbn; try done; try lia;
      naive_solver.
Qed.

Lemma py_min_spec {A} (ltb : A → A → bool) dom l : weak_order ltb dom → (∀ x, dom x → ltb x x = false) → Forall dom l → l ≠ [] →
  ∃ m, py_min ltb l = Some m ∧ m ∈ l ∧ ∀ y, y ∈ l → ltb y m = false.
Proof.
  intros [Hasym Htrans] Hirr Hl Hne. destruct l as [|x l]; [done|]. clear Hne. cbn [py_min]. eexists. split; [reflexivity|].
  apply Forall_cons in Hl as [Hx Hl].
  assert (∀ done best, dom best → Forall dom done → best ∈ done → (∀ y, y ∈ done → ltb y best = false) →
    let m := fold_left (λ best y, if ltb y best then y else best) l best in
    m ∈ done ++ l ∧ ∀ y, y ∈ done ++ l → ltb y m = false) as Hfold.
  { induction Hl as [|z l Hz Hl IH]; intros dn best Hb Hdn Hin Hmin; cbn [fold_left].
    { rewrite app_nil_r. done. }
    replace (dn ++ z :: l) with ((dn ++ [z]) ++ l) by (by rewrite <- (assoc_L (++))).
    rewrite list.Forall_forall in Hdn.
    destruct (ltb z best) eqn:E; apply IH; try done.
    - apply Forall_app. split; [by apply list.Forall_forall|by repeat constructor].
    - apply elem_of_app. right. by left.
    - intros y [Hy|Hy]%elem_of_app; [|apply list_elem_of_singleton in Hy as ->; by apply Hirr].
      eapply (Htrans z best y); auto.
    - apply Forall_app. split; [by apply list.Forall_forall|by repeat constructor].
    - apply elem_of_app. by left.
    - intros y [Hy|Hy]%elem_of_app; [by apply Hmin|by apply list_elem_of_singleton in Hy as ->]. }
  apply (Hfold [x] x); [done|by repeat constructor|by left|]. intros y Hy. apply list_elem_of_singleton in Hy as ->. by apply Hirr.
Qed.

Lemma window_nums t n i : nums t → nums (window t n i).
Proof.
  intros Ht. unfold window, nums. rewrite py_sorted_perm. unfold py_slice. by apply Forall_take, Forall_drop.
Qed.

Lemma option_ltb_irrefl p : nums p.1 → option_ltb p p = false.
Proof.
  intros Hp. unfold option_ltb. destruct (list_eqb p.1 p.1) eqn:E; [lia|].
  destruct (list_ltb p.1 p.1) eqn:El; [|done]. pose proof (list_ltb_asym _ _ Hp Hp El). congruence.
Qed.

(** The chosen window is the first of the least ones. *)
Lemma choose_best_start_spec t n : nums t →
  if zlen t <? n then choose_best_start t n = Raise ValueError
  else ∃ s, choose_best_start t n = Ok s ∧ 0 ≤ s ≤ zlen t - n ∧
    ∀ i, 0 ≤ i ≤ zlen t - n → option_ltb (window t n i, i) (window t n s, s) = false.
Proof.
  intros Ht. unfold choose_best_start, py_range.
  destruct (Z.ltb_spec (zlen t) n) as [Hlt|Hge]; [by rewrite seqZ_nil by lia|].
  set (opts := (λ i, (window t n i, i)) <$> seqZ 0 (zlen t - n + 1 - 0)).
  assert (∀ o, o ∈ opts ↔ ∃ i, o = (window t n i, i) ∧ 0 ≤ i ≤ zlen t - n) as Hopts.
  { intros o. unfold opts. rewrite list_elem_of_fmap. setoid_rewrite elem_of_seqZ.
    split; intros (i & -> & Hi); exists i; split; (done || lia). }
  destruct (py_min_spec option_ltb (λ p, nums p.1) opts option_weak_order option_ltb_irrefl) as (m & -> & Hm & Hmin).
  - apply list.Forall_forall. intros o (i & -> & _)%Hopts. by apply window_nums.
  - unfold opts. rewrite seqZ_cons by lia. done.
  - apply Hopts in Hm as (s & -> & Hs). exists s. split; [done|]. split; [done|]. intros i Hi. apply Hmin, Hopts. eauto.
Qed.

(** ** Lemmas: throughputs of the blocks *)

Lemma slice_bound_id n i : 0 ≤ i ≤ n → slice_bound n i = i.
Proof. intros. unfold slice_bound. rewrite (proj2 (Z.ltb_ge i 0)) by lia. lia. Qed.

Lemma add_slice_length op arr a b x : length (add_slice op arr a b x) = length arr.
Proof. unfold add_slice. apply length_imap. Qed.

Lemma add_slice_lookup op arr a b x (i : nat) : 0 ≤ a → 0 ≤ b ≤ zlen arr →
  add_slice op arr a b x !! i =
    (λ y, if (a <=? Z.of_nat i) && (Z.of_nat i <? b) then op y x else y) <$> arr !! i.
Proof.
  intros Ha Hb. unfold add_slice. rewrite list_lookup_imap. destruct (arr !! i) as [y|] eqn:E; [|done]. cbn. f_equal.
  apply lookup_lt_Some in E. rewrite (slice_bound_id _ b) by lia. unfold slice_bound.
  rewrite (proj2 (Z.ltb_ge a 0)) by lia. unfold zlen in *.
  destruct (Z.leb_spec a (Z.of_nat i)), (Z.leb_spec (a `min` Z.of_nat (length arr)) (Z.of_nat i)); try done; lia.
Qed.

Lemma add_slice_nonneg arr a b x : fnonneg x = true → Forall (λ y, fnonneg y = true) arr →
  Forall (λ y, fnonneg y = true) (add_slice fadd arr a b x).
Proof.
  intros Hx Harr. apply Forall_lookup. intros i z Hz. unfold add_slice in Hz. rewrite list_lookup_imap in Hz.
  apply fmap_Some in Hz as (y & Hy & ->). rewrite Forall_lookup in Harr. specialize (Harr i y Hy).
  destruct (_ && _); [by apply fadd_nonneg|done].
Qed.

Lemma RPS_nonneg x : RPS x = true → fnonneg x = true.
Proof. by destruct x as [[]|[]| |[]]. Qed.

Section throughput.
Context {P : Type} `{PeerIds P}.
Implicit Types (p : P) (sp : RemoteSpanInfo P) (infos : list (RemoteModuleInfo P)).

(** The announcements have passed pydantic. *)
Definition infos_valid infos : Prop := ∀ m p si, m ∈ infos → dict_get (servers m) p = Some si → info_valid si = true.

Lemma peer_blocks_end ms num i p l o : 0 ≤ i → 0 ≤ num →
  (∀ si, Some si ∈ l → match end_block si with Some e => 0 ≤ e | None => True end) →
  (∀ sp, o = Some sp → 0 ≤ end_ sp) → ∀ sp, peer_blocks ms 0 num i p l o = Some sp → 0 ≤ end_ sp.
Proof.
  intros Hi Hnum Hl. revert i o Hi. induction l as [|x l IH]; intros i o Hi Ho sp; cbn [peer_blocks]; [by apply Ho|].
  apply IH; [intros si Hsi; apply Hl; by right|lia|]. destruct x as [si|]; [|done]. unfold peer_next.
  assert (0 ≤ end_ (first_span 0 num i p si)) as Hf.
  { unfold first_span. pose proof (Hl si ltac:(by left)). repeat case_match; cbn; lia. }
  destruct (_ <? _); [done|]. destruct o as [s0|]; [|by intros s1 [= <-]]. destruct (_ <? _); [by intros s1 [= <-]|].
  case_decide; [|done]. intros s1 [= <-]. cbn. specialize (Ho s0 eq_refl). lia.
Qed.

Definition in_range (num : Z) sp : Prop := 0 ≤ start sp ∧ 0 ≤ end_ sp ≤ num ∧ fnonneg (span_throughput sp) = true.

Lemma spans_in_range ms infos : servers_wf infos → infos_valid infos →
  Forall (in_range (zlen infos)) (dict_values (span_blocks ms 0 (zlen infos) 0 infos [])).
Proof.
  intros Hwf Hval. apply list.Forall_forall. intros sp Hsp. apply list_elem_of_fmap in Hsp as ([p sp'] & -> & Hin). cbn.
  apply dict_get_elem in Hin; [|apply span_blocks_wf, dict_wf_nil].
  rewrite span_blocks_get in Hin by done. pose proof (zlen_nonneg infos).
  pose proof (peer_blocks_ok ms 0 (zlen infos) 0 p (announced infos p) (announced infos p) None ltac:(done)
    ltac:(by rewrite announced_length) ltac:(done) ltac:(done) sp' Hin) as [_ Hst Hend Hi _].
  assert (∀ si, Some si ∈ announced infos p → info_valid si = true) as Hv.
  { intros si (m & Hm & Hg)%announced_elem. by eapply Hval. }
  split; [done|]. split.
  - split; [|done]. eapply (peer_blocks_end ms (zlen infos) 0 p (announced infos p) None); try done.
    intros si Hsi%Hv. unfold info_valid in Hsi. cbn in Hsi. destruct (end_block si); [|done]. lia.
  - unfold span_throughput. apply RPS_nonneg. apply Hv in Hi. unfold info_valid in Hi. rewrite !andb_true_iff in Hi. tauto.
Qed.

(** The throughput of block [b]: the sum, in the order of the list. *)
Definition block_throughput (l : list (RemoteSpanInfo P)) (b : nat) (x : float) : float :=
  fold_left (λ acc sp, if contains sp b then fadd acc (span_throughput sp) else acc) l x.

Lemma fold_throughputs l arr : Forall (in_range (zlen arr)) l → Forall (λ y, fnonneg y = true) arr →
  let t := fold_left (λ arr sp, add_slice fadd arr (start sp) (end_ sp) (span_throughput sp)) l arr in
  length t = length arr ∧ Forall (λ y, fnonneg y = true) t ∧ ∀ b, t !! b = block_throughput l b <$> arr !! b.
Proof.
  revert arr. induction l as [|sp l IH]; intros arr Hl Harr; cbn [fold_left block_throughput].
  { split; [done|]. split; [done|]. intros b. by destruct (arr !! b). }
  apply Forall_cons in Hl as [(Hs & He & Hx) Hl].
  destruct (IH (add_slice fadd arr (start sp) (end_ sp) (span_throughput sp))) as (H1 & H2 & H3).
  - unfold zlen in *. by rewrite add_slice_length.
  - by apply add_slice_nonneg.
  - rewrite add_slice_length in H1. split; [done|]. split; [done|]. intros b.
    rewrite H3, add_slice_lookup, <- option_fmap_compose by done. done.
Qed.

Lemma compute_throughputs_spec (spans : dict P (RemoteSpanInfo P)) n : 0 ≤ n → Forall (in_range n) (dict_values spans) →
  let t := compute_throughputs spans n in
  zlen t = n ∧ nums t ∧ ∀ b, (Z.of_nat b < n) →
    t !! b = Some (block_throughput (sort_by (λ a b, peer_ltb (peer_id a) (peer_id b)) (dict_values spans)) b float_zero).
Proof.
  intros Hn Hr. cbv zeta. unfold compute_throughputs.
  assert (zlen (replicate (Z.to_nat n) float_zero) = n) as Hrep by (unfold zlen; rewrite length_replicate; lia).
  destruct (fold_throughputs (sort_by (λ a b, peer_ltb (peer_id a) (peer_id b)) (dict_values spans))
    (replicate (Z.to_nat n) float_zero)) as (Hl & Hnn & Hget).
  - by rewrite Hrep, sort_by_perm.
  - by apply Forall_replicate.
  - split; [unfold zlen in *; by rewrite Hl|]. split; [eapply Forall_impl; [exact Hnn|apply fnonneg_num]|].
    intros b Hb. rewrite Hget. rewrite lookup_replicate_2 by lia. done.
Qed.
End throughput.

(** ** Properties *)

(** The first of the sorted throughputs of a window is its least. *)
Lemma window_head t n i : nums t → 0 ≤ i → 0 < n → i + n ≤ zlen t →
  ∃ (b : nat) x rest, window t n i = x :: rest ∧ i ≤ Z.of_nat b < i + n ∧ t !! b = Some x ∧
    ∀ (c : nat) y, i ≤ Z.of_nat c < i + n → t !! c = Some y → fleb x y = true.
Proof.
  intros Ht Hi Hn Hle. set (l := py_slice t i (i + n)).
  assert (∀ y, y ∈ l ↔ ∃ c : nat, i ≤ Z.of_nat c < i + n ∧ t !! c = Some y) as Hl.
  { intros y. unfold l, py_slice. rewrite !slice_bound_id by lia. rewrite list_elem_of_lookup. split.
    - intros (j & Hj). apply lookup_take_Some in Hj as [Hj Hlt]. rewrite lookup_drop in Hj. eexists. split; [|exact Hj]. lia.
    - intros (c & Hc & Hy). exists (c - Z.to_nat i)%nat. apply lookup_take_Some. rewrite lookup_drop.
      split; [by replace (Z.to_nat i + (c - Z.to_nat i))%nat with c by lia|lia]. }
  assert (nums l) as Hnl by (unfold l, py_slice; by apply Forall_take, Forall_drop).
  pose proof (py_sorted_perm (λ x, x) l) as Hperm. pose proof (py_sorted_sorted (λ x, x) l Hnl) as Hs.
  unfold window. fold l. destruct (py_sorted (λ x, x) l) as [|x rest].
  - apply Permutation_nil in Hperm. destruct (lookup_lt_is_Some_2 t (Z.to_nat i)) as [y Hy]; [unfold zlen in *; lia|].
    assert (y ∈ l) as Hin by (apply Hl; exists (Z.to_nat i); split; [lia|done]). rewrite Hperm in Hin. by apply not_elem_of_nil in Hin.
  - assert (x ∈ l) as (b & Hb & Hx)%Hl by (rewrite <- Hperm; by left). exists b, x, rest. split; [done|]. split; [done|]. split; [done|].
    intros c y Hc Hy. assert (y ∈ x :: rest) as Hin by (rewrite Hperm; apply Hl; eauto).
    unfold nums in *. rewrite list.Forall_forall in Hnl.
    apply elem_of_cons in Hin as [->|Hin]; [apply fleb_refl, Hnl, Hl; eauto|].
    apply Sorting.Sorted.StronglySorted_inv in Hs as [_ Hs]. rewrite list.Forall_forall in Hs. by apply Hs.
Qed.

(** The least window has the least head. *)
Lemma option_ltb_head x l y k i j : is_num x = true → is_num y = true →
  option_ltb (x :: l, i) (y :: k, j) = false → fleb y x = true.
Proof.
  intros Hx Hy. unfold option_ltb. cbn [fst snd list_eqb list_ltb]. rewrite feqb_fleb, fltb_fleb by done.
  destruct (fleb x y), (fleb y x); try done; cbn; by intros.
Qed.

(** C17: The best blocks. For announcements that passed validation, distinct peers in each
    block, in a model whose first block has index 0, the throughput of every block is the sum,
    in the order of the peer ids, of the throughputs of the servers whose spans contain it,
    joining servers included; and [choose_best_blocks] raises ValueError if the model has fewer
    blocks than asked for, and otherwise returns consecutive blocks inside the model: no
    window has sorted throughputs that are lexicographically less, no earlier one has the
    same, and no block of the model is served worse than the worst served block chosen. *)
Theorem choose_best_blocks_least {P} `{PeerIds P} num_blocks (infos : list (RemoteModuleInfo P)) :
  servers_wf infos → infos_valid infos → block_offset infos = Ok 0 →
  ∃ spans, compute_spans infos JOINING = Ok spans ∧
    let t := compute_throughputs spans (zlen infos) in
    (∀ b, Z.of_nat b < zlen infos → t !! b = Some (block_throughput
       (sort_by (λ a b, peer_ltb (peer_id a) (peer_id b)) (dict_values spans)) b float_zero)) ∧
    if zlen infos <? num_blocks then choose_best_blocks num_blocks infos = Raise ValueError
    else ∃ s, choose_best_blocks num_blocks infos = Ok (py_range s (s + num_blocks)) ∧
      0 ≤ s ≤ zlen infos - num_blocks ∧
      (∀ i, 0 ≤ i ≤ zlen infos - num_blocks →
         list_ltb (window t num_blocks i) (window t num_blocks s) = false ∧
         (list_eqb (window t num_blocks i) (window t num_blocks s) = true → s ≤ i)) ∧
      (0 < num_blocks → ∃ (b : nat) x, s ≤ Z.of_nat b < s + num_blocks ∧ t !! b = Some x ∧
         ∀ (c : nat) y, t !! c = Some y → fleb x y = true).
Proof.
  intros Hwf Hval Hoff. unfold choose_best_blocks, compute_spans. rewrite Hoff. cbn [mbind res_bind mret res_ret].
  eexists. split; [reflexivity|]. cbv zeta. set (spans := span_blocks _ _ _ _ _ _).
  destruct (compute_throughputs_spec spans (zlen infos)) as (Hlen & Hnums & Hget);
    [apply zlen_nonneg|by apply spans_in_range|].
  split; [exact Hget|]. pose proof (choose_best_start_spec _ num_blocks Hnums) as Hs. rewrite Hlen in Hs.
  destruct (zlen infos <? num_blocks); [by rewrite Hs|]. destruct Hs as (s & -> & Hs & Hmin). exists s. split; [done|].
  split; [done|]. set (t := compute_throughputs _ _) in *. split.
  - intros i Hi. specialize (Hmin i Hi). unfold option_ltb in Hmin. cbn [fst snd] in Hmin.
    rewrite list_eqb_ltb in Hmin |- * by (by apply window_nums). destruct (list_ltb (window t num_blocks i) (window t num_blocks s)); [done|].
    split; [done|]. intros E. rewrite E in Hmin. lia.
  - intros Hn. destruct (window_head t num_blocks s) as (b & x & rest & Hw & Hb & Hx & _); [done|lia..|].
    exists b, x. split; [done|]. split; [done|]. intros c y Hy.
    pose proof (lookup_lt_Some _ _ _ Hy) as Hc. assert (Z.of_nat c < zlen t) as Hct by (unfold zlen; lia).
    set (i := Z.min (Z.of_nat c) (zlen infos - num_blocks)).
    destruct (window_head t num_blocks i) as (b' & x' & rest' & Hw' & _ & Hx' & Hle); [done|lia..|].
    specialize (Hmin i ltac:(lia)). rewrite Hw, Hw' in Hmin.
    assert (∀ j z, t !! j = Some z → is_num z = true) as Hnum by (unfold nums in Hnums; intros j z; rewrite Forall_lookup in Hnums; apply Hnums).
    apply (fleb_trans x x' y); eauto using option_ltb_head. apply (Hle c); [lia|done].
Qed.

(** ** The simulation *)

Section simulation.
Context {P : Type} `{PeerIds P}.
Implicit Types (p : P) (sp : RemoteSpanInfo P) (infos : list (RemoteModuleInfo P)).

(** A span that lies inside the model. *)
Definition placed (n : Z) sp : Prop := 0 ≤ start sp ≤ end_ sp ∧ end_ sp ≤ n.

(** The same servers, each with as many blocks as before, all inside the model. *)
Record moved_from (n : Z) (sps : dict P (RemoteSpanInfo P)) (s : swarm (P := P)) : Prop := mkMovedFrom {
  mf_size : zlen (throughputs s) = n;
  mf_keys : dict_keys (spans s) = dict_keys sps;
  mf_spans : ∀ p sp, dict_get (spans s) p = Some sp →
    placed n sp ∧ ∃ sp0, dict_get sps p = Some sp0 ∧ span_length sp = span_length sp0 ∧
      peer_id sp = peer_id sp0 ∧ server_info sp = server_info sp0;
}.

Lemma py_min_total {A} (ltb : A → A → bool) l : l ≠ [] → ∃ m, py_min ltb l = Some m ∧ m ∈ l.
Proof.
  intros Hne. destruct l as [|x l]; [done|]. clear Hne. cbn [py_min]. eexists. split; [reflexivity|].
  revert x. induction l as [|y l IH]; intros x; cbn [fold_left]; [by left|].
  specialize (IH (if ltb y x then y else x)). rewrite !elem_of_cons in *. destruct (ltb y x); naive_solver.
Qed.

Lemma choose_best_start_total t n : 0 ≤ n ≤ zlen t →
  ∃ s, choose_best_start t n = Ok s ∧ 0 ≤ s ≤ zlen t - n.
Proof.
  intros Hn. unfold choose_best_start, py_range.
  destruct (py_min_total option_ltb ((λ i, (window t n i, i)) <$> seqZ 0 (zlen t - n + 1 - 0))) as (m & -> & Hm).
  { rewrite seqZ_cons by lia. done. }
  apply list_elem_of_fmap in Hm as (s & -> & Hs%elem_of_seqZ). exists s. split; [done|lia].
Qed.

Lemma zlen_add_slice op arr a b x : zlen (add_slice op arr a b x) = zlen arr.
Proof. unfold zlen. by rewrite add_slice_length. Qed.

Lemma move_server_ok n sps s moved p : moved_from n sps s → p ∈ dict_keys sps →
  ∃ s' moved', move_server s moved p = Ok (s', moved') ∧ moved_from n sps s'.
Proof.
  intros [Hsize Hkeys Hspans] Hp. unfold move_server.
  destruct (dict_get (spans s) p) as [sp|] eqn:E; [|by apply dict_get_None in E; rewrite Hkeys in E].
  destruct (Hspans p sp E) as (Hpl & sp0 & E0 & Hlen & Hpi & Hsi). unfold placed, span_length in *.
  cbn [of_option mbind res_bind].
  set (t1 := take_out _ _). destruct (choose_best_start_total t1 (end_ sp - start sp)) as (ns & Hns & Hr);
    [unfold t1, take_out; rewrite zlen_add_slice; lia|]. unfold span_length. rewrite Hns. cbn [mbind res_bind].
  eexists _, _. split; [reflexivity|]. unfold t1, take_out in Hr. rewrite zlen_add_slice in Hr.
  split; cbn [throughputs spans].
  - unfold put_in, give_back, t1, take_out. by rewrite !zlen_add_slice.
  - rewrite dict_keys_set. unfold dict_mem. by rewrite E.
  - intros q sq. rewrite dict_get_set. case_decide as Eq; [|by apply Hspans]. subst q. intros [= <-].
    destruct (start sp =? ns); [|unfold move_span, span_length; cbn [start end_ peer_id server_info]].
    + split; [done|]. exists sp0. done.
    + split; [unfold placed; cbn; lia|]. exists sp0. repeat split; (done || lia).
Qed.

Lemma move_servers_ok n sps s moved l : moved_from n sps s → (∀ p, p ∈ l → p ∈ dict_keys sps) →
  ∃ s' moved', move_servers s moved l = Ok (s', moved') ∧ moved_from n sps s'.
Proof.
  revert s moved. induction l as [|p l IH]; intros s moved Hs Hl; cbn [move_servers]; [by eexists _, _|].
  destruct (move_server_ok n sps s moved p) as (s1 & m1 & -> & Hs1); [done|apply Hl; by left|].
  cbn [mbind res_bind]. apply IH; [done|]. intros q Hq. apply Hl. by right.
Qed.

(** Whatever the order of the servers in every round. *)
Definition shuffles {G} (shuffle : list P → G → G * list P) : Prop := ∀ l g, (shuffle l g).2 ≡ₚ l.

Lemma rebalance_ok {G} (shuffle : list P → G → G * list P) fuel n sps s g : shuffles shuffle → moved_from n sps s →
  ∃ g' r, rebalance shuffle fuel s g = (g', r) ∧
    match r with Ok s' => moved_from n sps s' | Raise x => x = OutOfFuel end.
Proof.
  intros Hsh. revert s g. induction fuel as [|fuel IH]; intros s g Hs; cbn [rebalance]; [by eexists _, _|].
  pose proof (Hsh (dict_keys (spans s)) g) as Hp. destruct (shuffle _ g) as [g1 l]. cbn in Hp.
  destruct (move_servers_ok n sps s false l Hs) as (s1 & m1 & -> & Hs1).
  { intros p. by rewrite Hp, (mf_keys _ _ _ Hs). }
  destruct m1; [by apply IH|by eexists _, _].
Qed.

(** Servers announce ranges that are not reversed and start inside the model. *)
Definition ranges_sane infos : Prop := ∀ m p si, m ∈ infos → dict_get (servers m) p = Some si →
  match start_block si, end_block si with Some s, Some e => s ≤ e ∧ s ≤ zlen infos | _, _ => True end.

Lemma peer_blocks_placed ms num i p l o : 0 ≤ i → i + zlen l ≤ num →
  (∀ si, Some si ∈ l → match end_block si with Some e => 0 ≤ e | None => True end ∧
     match start_block si, end_block si with Some s, Some e => s ≤ e ∧ s ≤ num | _, _ => True end) →
  (∀ sp, o = Some sp → placed num sp) → ∀ sp, peer_blocks ms 0 num i p l o = Some sp → placed num sp.
Proof.
  intros Hi Hnum Hl. revert i o Hi Hnum. induction l as [|x l IH]; intros i o Hi Hnum Ho sp; cbn [peer_blocks]; [by apply Ho|].
  rewrite zlen_cons in Hnum. pose proof (zlen_nonneg l).
  apply IH; [intros si Hsi; apply Hl; by right|lia|lia|]. destruct x as [si|]; [|done]. unfold peer_next.
  assert (placed num (first_span 0 num i p si)) as Hf.
  { unfold first_span, placed. destruct (Hl si ltac:(by left)) as [H1 H2]. repeat case_match; cbn; lia. }
  destruct (_ <? _); [done|]. destruct o as [s0|]; [|by intros s1 [= <-]]. destruct (_ <? _); [by intros s1 [= <-]|].
  case_decide; [|done]. intros s1 [= <-]. specialize (Ho s0 eq_refl). unfold placed in *. cbn. lia.
Qed.

Lemma spans_placed ms infos : servers_wf infos → infos_valid infos → ranges_sane infos →
  ∀ p sp, dict_get (span_blocks ms 0 (zlen infos) 0 infos []) p = Some sp → placed (zlen infos) sp.
Proof.
  intros Hwf Hval Hsane p sp. rewrite span_blocks_get by done.
  apply peer_blocks_placed; [done|by rewrite announced_length| |done].
  intros si (m & Hm & Hg)%announced_elem. split; [|by eapply Hsane].
  pose proof (Hval m p si Hm Hg) as Hv. unfold info_valid in Hv. cbn in Hv. destruct (end_block si); [lia|done].
Qed.
End simulation.

(** Rebalancing is safe. Whatever the order in which the servers are shuffled, and
    however long the simulation runs, [should_choose_other_blocks] answers True for a
    quality above one; otherwise it raises AssertionError exactly when the server is not
    among the announced ones, and in every other case it answers or is still simulating
    (it never raises). It answers False when the server is where it would be placed, or
    when its leaving would leave a served block unserved. The simulation keeps every
    server, the number of its blocks, and all of them inside the model. *)
Lemma choose_other_blocks_safe {P} `{PeerIds P} {G} (shuffle : list P → G → G * list P) fuel p
    (infos : list (RemoteModuleInfo P)) quality g :
  shuffles shuffle → servers_wf infos → infos_valid infos → ranges_sane infos → block_offset infos = Ok 0 → infos ≠ [] →
  ∃ sps, compute_spans infos JOINING = Ok sps ∧
    (∀ s g1, moved_from (zlen infos) sps s → ∃ g2 r, rebalance shuffle fuel s g1 = (g2, r) ∧
       match r with Ok s' => moved_from (zlen infos) sps s' | Raise x => x = OutOfFuel end) ∧
    let r := (should_choose_other_blocks shuffle fuel p infos quality g).2 in
    if fltb float_one quality then r = Ok true
    else match dict_get sps p with
         | None => r = Raise AssertionError
         | Some sp =>
             let t := compute_throughputs sps (zlen infos) in
             (is_ok r = true ∨ r = Raise OutOfFuel) ∧
             (choose_best_start (take_out t sp) (span_length sp) = Ok (start sp) → r = Ok false) ∧
             (∀ before after, array_min t = Ok before → array_min (take_out t sp) = Ok after →
                fltb eps before && fleb after float_zero = true → r = Ok false)
         end.
Proof.
  intros Hsh Hwf Hval Hsane Hoff Hne. unfold should_choose_other_blocks, compute_spans. rewrite Hoff. cbn [mbind res_bind mret res_ret].
  set (n := zlen infos). set (sps := span_blocks _ _ _ _ _ _). exists sps. split; [done|].
  split; [intros s g1 Hs; by apply rebalance_ok|]. cbv zeta.
  destruct (fltb float_one quality); [done|]. rewrite lift_ok_bind.
  destruct (compute_throughputs_spec sps n) as (Hlen & _ & _); [apply zlen_nonneg|by apply spans_in_range|].
  assert (∀ t, zlen t = n → ∃ x, array_min t = Ok x) as Hmin.
  { intros t Ht. destruct t as [|x t]; [|by eexists]. destruct infos; [done|]. unfold n in Ht. rewrite zlen_cons in Ht.
    pose proof (zlen_nonneg infos). change (zlen (@nil float)) with 0 in Ht. lia. }
  destruct (Hmin _ Hlen) as [before Hb]. rewrite Hb, lift_ok_bind.
  destruct (dict_get sps p) as [sp|] eqn:E; [|done].
  assert (zlen (take_out (compute_throughputs sps n) sp) = n) as Hlen1 by (unfold take_out; by rewrite zlen_add_slice).
  destruct (Hmin _ Hlen1) as [after Ha]. rewrite Ha, lift_ok_bind.
  pose proof (spans_placed JOINING infos Hwf Hval Hsane) as Hpl. fold n in Hpl. fold sps in Hpl.
  pose proof (Hpl p sp E) as Hp. unfold placed in Hp.
  destruct (choose_best_start_total (take_out (compute_throughputs sps n) sp) (span_length sp)) as (ns & Hns & Hr);
    [rewrite Hlen1; unfold span_length; lia|].
  split; [|split].
  - destruct (_ && _); [by left|]. rewrite Hns, lift_ok_bind. destruct (start sp =? ns); [by left|].
    destruct (rebalance_ok shuffle fuel n sps
      (mkSwarm (dict_set sps p (move_span sp ns)) (put_in (give_back (take_out (compute_throughputs sps n) sp) sp) (move_span sp ns))) g Hsh)
      as (g' & r & Er & Hok).
    { split; cbn [throughputs spans].
      - unfold put_in, give_back. by rewrite !zlen_add_slice.
      - rewrite dict_keys_set. unfold dict_mem. by rewrite E.
      - intros q sq. rewrite dict_get_set. case_decide as Eq; [subst q|].
        + intros [= <-]. unfold placed, move_span, span_length in *. cbn. rewrite Hlen1 in Hr. split; [lia|].
          exists sp. split; [done|]. split; [unfold span_length; cbn; lia|done].
        + intros Hq. split; [by eapply Hpl|]. by exists sq. }
    destruct r as [s'|x].
    + rewrite (bind_ok _ _ _ _ _ Er). destruct (Hmin (throughputs s') (mf_size _ _ _ Hok)) as [x Hx].
      rewrite Hx, lift_ok_bind. left. by destruct (_ || _).
    + rewrite (bind_raise _ _ _ _ _ Er). right. cbn. by rewrite Hok.
  - intros Hbest. destruct (_ && _); [done|]. rewrite Hbest, lift_ok_bind. by rewrite Z.eqb_refl.
  - intros b a [= <-] [= <-] ->. done.
Qed.

Section example.
#[local] Existing Instance z_peers.

(** Peer 1 serves blocks 0 and 1, peer 2 block 0; nobody serves block 2. *)
Definition ex_blocks : list (RemoteModuleInfo Z) :=
  [mkModule "m.0" [(2, ex_info ONLINE (Some (0, 1)) float_one); (1, ex_info ONLINE (Some (0, 2)) float_one)];
   mkModule "m.1" [(1, ex_info ONLINE (Some (0, 2)) float_one)];
   mkModule "m.2" []].
Definition ex_shuffle (l : list Z) (g : unit) : unit * list Z := (g, l).

Example choose_ex :
  choose_best_blocks 1 ex_blocks = Ok [2] ∧ choose_best_blocks 2 ex_blocks = Ok [1; 2] ∧
  choose_best_blocks 4 ex_blocks = Raise ValueError ∧
  (should_choose_other_blocks ex_shuffle 10 2 ex_blocks (S754_finite false 6755399441055744 (-53)) tt).2 = Ok true ∧
  (should_choose_other_blocks ex_shuffle 10 5 ex_blocks float_zero tt).2 = Raise AssertionError.
Proof. vm_compute. repeat split. Qed.

Lemma ex_blocks_wf : servers_wf ex_blocks.
Proof. repeat constructor; cbn; set_solver. Qed.

Lemma ex_blocks_each (Q : ServerInfo → Prop) :
  Forall (λ m, Forall (λ kv, Q kv.2) (servers m)) ex_blocks →
  ∀ m p si, m ∈ ex_blocks → dict_get (servers m) p = Some si → Q si.
Proof.
  intros HQ m p si Hm Hg. rewrite list.Forall_forall in HQ. specialize (HQ m Hm). rewrite list.Forall_forall in HQ.
  by apply (HQ (p, si)), dict_elem_get.
Qed.

Lemma ex_blocks_valid : infos_valid ex_blocks.
Proof. intros m p si. apply (ex_blocks_each (λ si, info_valid si = true)). repeat constructor. Qed.

Lemma ex_blocks_sane : ranges_sane ex_blocks.
Proof.
  intros m p si. apply (ex_blocks_each (λ si, match start_block si, end_block si with
    | Some s, Some e => s ≤ e ∧ s ≤ zlen ex_blocks | _, _ => True end)).
  repeat first [apply Forall_nil_2 | apply Forall_cons_2]; vm_compute; split; discriminate.
Qed.

Lemma choose_best_blocks_least_witness : ∃ s, choose_best_blocks 2 ex_blocks = Ok (py_range s (s + 2)) ∧ 0 ≤ s ≤ 1.
Proof.
  destruct (choose_best_blocks_least 2 ex_blocks ex_blocks_wf ex_blocks_valid eq_refl) as (sps & _ & _ & Ht).
  change (zlen ex_blocks <? 2) with false in Ht. destruct Ht as (s & E & Hs & _). exists s. split; [exact E|exact Hs].
Defined.

Lemma choose_other_blocks_safe_witness :
  is_ok (should_choose_other_blocks ex_shuffle 10 2 ex_blocks float_one tt).2 = true ∨
  (should_choose_other_blocks ex_shuffle 10 2 ex_blocks float_one tt).2 = Raise OutOfFuel.
Proof.
  destruct (choose_other_blocks_safe ex_shuffle 10 2 ex_blocks float_one tt (λ l g, ltac:(reflexivity)) ex_blocks_wf
    ex_blocks_valid ex_blocks_sane eq_refl ltac:(discriminate)) as (sps & E & _ & Ht).
  vm_compute in E. injection E as <-. cbn zeta in Ht.
  replace (fltb float_one float_one) with false in Ht by reflexivity.
  exact (proj1 Ht).
Defined.
End example.
