(* ===== verification/InferenceSession.v ===== *)
(** * The client's inference session (client/inference_session.py)

    A session sends the hidden states of each step through a chain of servers; when a
    server fails its part of the chain is replaced, and the new server gets the whole
    history of inputs so that it can rebuild its cache. Hidden states are lists of
    columns, one per token (the code's dimension 1). Servers and the sequence manager
    are an interface: an operation takes the state of the world and may raise. The
    session objects live in a heap, as [next_session] refers to them. Live continuous
    batching, deep prompts, serialization and logs are left out. *)

From stdpp Require Import numbers base sets strings list.
From Stdlib Require Import ZArith Lia ZifyBool.
From S2P Require Import Prelude SwarmInfo Routing.

(** ** Helpers *)

(** [inputs[:, -n:]]; a count of zero gives all of them. *)
Definition last_cols {A} (n : Z) (l : list A) : list A := py_slice l (- n) (zlen l).

(** [_server_session_tokens_to_advance] on a tensor of at least two dimensions. *)
Definition server_session_tokens_to_advance {A} (sent_inputs : list A) (current_step_tokens : Z) (is_spec_dec : bool) : Z :=
  if is_spec_dec then current_step_tokens else zlen sent_inputs.

Definition trim_recovered_history_for_existing_downstream {A} (inputs : list A)
    (current_step_tokens downstream_position : Z) (is_spec_dec : bool) : list A :=
  if is_spec_dec || (current_step_tokens <=? 0) || (downstream_position <=? 0) then inputs
  else if zlen inputs <=? current_step_tokens then inputs
  else last_cols current_step_tokens inputs.

(** ** The interface of the servers and of the sequence manager *)

(** A request of one step, and what comes back: [None] when fewer than two tensors. *)
Record request (P C : Type) := mkRequest {
  rq_session : Z;
  rq_inputs : list C;
  rq_start_from_position : Z;
  rq_first : bool;
  rq_is_spec_dec : bool;
  rq_next_servers : list (P * Z * Z * Z);
}.
Arguments mkRequest {P C} _ _ _ _ _ _.
Arguments rq_session {P C} _.
Arguments rq_inputs {P C} _.
Arguments rq_start_from_position {P C} _.
Arguments rq_first {P C} _.
Arguments rq_is_spec_dec {P C} _.
Arguments rq_next_servers {P C} _.

Class Swarm (W P C : Type) := {
  sw_create : RemoteSpanInfo P → M W Z;
  sw_step : request P C → M W (option (list C));
  sw_await_pushed : Z → M W (option (list C));
  sw_close : Z → bool → M W unit;
  sw_make_sequence : Z → Z → M W (list (RemoteSpanInfo P));
  sw_on_request_failure : option P → W → W;
  sw_on_request_success : P → W → W;
}.

(** ** State *)

(** [_ServerInferenceSession] *)
Record server_session (P C : Type) := mkSession {
  ss_span : RemoteSpanInfo P;
  ss_id : Z;
  ss_stepped : bool;
  ss_closed : bool;
  ss_position : Z;
  ss_history : option (list C);
  ss_next : option nat;
}.
Arguments mkSession {P C} _ _ _ _ _ _ _.
Arguments ss_span {P C} _.
Arguments ss_id {P C} _.
Arguments ss_stepped {P C} _.
Arguments ss_closed {P C} _.
Arguments ss_position {P C} _.
Arguments ss_history {P C} _.
Arguments ss_next {P C} _.

(** [InferenceSession]; the configuration is what the sequence manager carries. *)
Record client_config := mkConfig {
  num_blocks : Z;
  max_length : Z;
  max_retries : option Z;
  use_server_to_server : bool;
  push_only_downstream_decode : bool;
}.

Record client (W P C : Type) := mkClient {
  heap : list (server_session P C);
  server_sessions : list nat;
  position : Z;
  closed : bool;
  world : W;
}.
Arguments mkClient {W P C} _ _ _ _ _.
Arguments heap {W P C} _.
Arguments server_sessions {W P C} _.
Arguments position {W P C} _.
Arguments closed {W P C} _.
Arguments world {W P C} _.

Section session.
Context {W P C : Type} `{Swarm W P C} (cfg : client_config).
Implicit Types (s : server_session P C) (c : client W P C) (a : nat).

Definition new_session (sp : RemoteSpanInfo P) (id : Z) : server_session P C := mkSession sp id false false 0 None None.
Definition set_stepped s : server_session P C := mkSession (ss_span s) (ss_id s) true (ss_closed s) (ss_position s) (ss_history s) (ss_next s).
Definition set_closed s : server_session P C := mkSession (ss_span s) (ss_id s) (ss_stepped s) true (ss_position s) (ss_history s) (ss_next s).
Definition set_pos (p : Z) s : server_session P C := mkSession (ss_span s) (ss_id s) (ss_stepped s) (ss_closed s) p (ss_history s) (ss_next s).
Definition set_history (h : option (list C)) s : server_session P C :=
  mkSession (ss_span s) (ss_id s) (ss_stepped s) (ss_closed s) (ss_position s) h (ss_next s).
Definition set_next (n : option nat) s : server_session P C :=
  mkSession (ss_span s) (ss_id s) (ss_stepped s) (ss_closed s) (ss_position s) (ss_history s) n.

Definition set_heap (h : list (server_session P C)) c : client W P C :=
  mkClient h (server_sessions c) (position c) (closed c) (world c).
Definition set_sessions (l : list nat) c : client W P C := mkClient (heap c) l (position c) (closed c) (world c).
Definition set_position (p : Z) c : client W P C := mkClient (heap c) (server_sessions c) p (closed c) (world c).
Definition set_world (w : W) c : client W P C := mkClient (heap c) (server_sessions c) (position c) (closed c) w.

(** An operation of the world, seen by the client. *)
Definition on_world {A} (m : M W A) : M (client W P C) A := λ c, let (w, r) := m (world c) in (set_world w c, r).

Definition update_session (a : nat) (f : server_session P C → server_session P C) : M (client W P C) unit :=
  modify (λ c, set_heap (alter f a (heap c)) c).
Definition get_session (a : nat) : M (client W P C) (server_session P C) :=
  c ← get; lift (of_option KeyError (heap c !! a)).

(** ** [_ServerInferenceSession] *)

(** The setter of [position] truncates the history. *)
Definition move_position (p : Z) s : server_session P C :=
  let s' := set_pos p s in
  match ss_history s with
  | Some h => if p <=? zlen h then set_history (if 0 <? p then Some (py_slice h 0 p) else None) s' else s'
  | None => s'
  end.

(** [_collect_next_servers]: the chain of sessions that have stepped. *)
Fixpoint collect_next_servers (fuel : nat) (h : list (server_session P C)) (o : option nat) : list (P * Z * Z * Z) :=
  match fuel, o with
  | S fuel', Some a =>
      match h !! a with
      | Some s =>
          if ss_stepped s
          then (peer_id (ss_span s), ss_id s, start (ss_span s), end_ (ss_span s)) :: collect_next_servers fuel' h (ss_next s)
          else []
      | None => []
      end
  | _, _ => []
  end.

(** The history after the inputs of a step. *)
Definition add_history (n_input_tokens : Z) (inputs : list C) s : list C :=
  match ss_history s with
  | None => inputs
  | Some h => if zlen h =? ss_position s then h ++ last_cols n_input_tokens inputs else h
  end.

(** [step]: the outputs of the blocks of the session. *)
Definition session_step (a : nat) (inputs : list C) (kv_numel : option Z) (is_spec_dec : bool) :
    M (client W P C) (option (list C)) :=
  s ← get_session a;
  if ss_closed s then mthrow Exception
  else
    let n_input_tokens := if is_spec_dec then default 0 kv_numel else zlen inputs in
    let history := add_history n_input_tokens inputs s in
    update_session a (set_history (Some history));;
    let sent := if ss_stepped s then inputs else history in
    let tokens_to_advance := server_session_tokens_to_advance sent n_input_tokens is_spec_dec in
    let push_only_decode := use_server_to_server cfg && push_only_downstream_decode cfg && ss_stepped s &&
                            (0 <? start (ss_span s)) && negb is_spec_dec in
    outputs ←
      (if push_only_decode then on_world (sw_await_pushed (ss_id s))
       else
         c ← get;
         let next_servers := if use_server_to_server cfg
                             then collect_next_servers (length (heap c)) (heap c) (ss_next s) else [] in
         update_session a set_stepped;;
         on_world (sw_step (mkRequest (ss_id s) sent
           (if is_spec_dec then ss_position s + n_input_tokens else ss_position s)
           (negb (ss_stepped s)) is_spec_dec next_servers)));
    update_session a (λ s, set_pos (ss_position s + tokens_to_advance) s);;
    mret outputs.

(** [close]; a connection that cannot be closed leaves the session open. *)
Definition session_close (a : nat) : M (client W P C) unit :=
  s ← get_session a;
  if ss_closed s then mret tt
  else on_world (sw_close (ss_id s) (ss_stepped s));; update_session a set_closed.

(** ** [InferenceSession] *)

(** The setter of [position]. *)
Definition set_client_position (p : Z) : M (client W P C) unit :=
  modify (λ c, set_position p (set_heap (fold_left (λ h a, alter (move_position p) a h) (server_sessions c) (heap c)) c)).

(** [_exit_server_sessions]: exceptions are swallowed. *)
Definition swallow (m : M (client W P C) unit) : M (client W P C) unit :=
  λ c, let (c', _) := m c in (c', Ok tt).
Fixpoint close_all (l : list nat) : M (client W P C) unit :=
  match l with
  | [] => mret tt
  | a :: l' => swallow (session_close a);; close_all l'
  end.
Definition exit_server_sessions (l : list nat) : M (client W P C) unit := close_all (reverse l).

(** [_enter_server_sessions]: on an error the sessions made so far are closed. *)
Fixpoint enter_from (made : list nat) (chosen_spans : list (RemoteSpanInfo P)) : M (client W P C) (list nat) :=
  match chosen_spans with
  | [] => mret made
  | sp :: spans' => λ c,
      match on_world (sw_create sp) c with
      | (c1, Ok id) => enter_from (made ++ [length (heap c1)]) spans' (set_heap (heap c1 ++ [new_session sp id]) c1)
      | (c1, Raise e) => let (c2, _) := exit_server_sessions made c1 in (c2, Raise e)
      end
  end.
Definition enter_server_sessions : list (RemoteSpanInfo P) → M (client W P C) (list nat) := enter_from [].

(** [updated_spans[-1].end = min(updated_spans[-1].end, update_end)] *)
Definition cap_last (update_end : Z) (spans : list (RemoteSpanInfo P)) : res (list (RemoteSpanInfo P)) :=
  match py_pop spans with
  | Some (sp, front) => Ok (front ++ [set_end sp (Z.min (end_ sp) update_end)])
  | None => Raise IndexError
  end.

(** The links of the sessions from position [i] of the list on, [k] of them. *)
Fixpoint link_sessions (l : list nat) (i : nat) (k : nat) (h : list (server_session P C)) : list (server_session P C) :=
  match k with
  | O => h
  | S k' =>
      let h' := match l !! i, l !! (S i) with Some a, Some b => alter (set_next (Some b)) a h | _, _ => h end in
      link_sessions l (S i) k' h'
  end.

(** The end of [_update_sequence]: the new sessions take the place of the old one and of its links. *)
Definition install_sessions (server_idx : nat) (old : option nat) (updated_spans : list (RemoteSpanInfo P))
    (updated_sessions : list nat) : M (client W P C) unit :=
  match old, updated_sessions with
  | Some a, b :: _ => s ← get_session a; update_session b (set_history (ss_history s))
  | Some _, [] => mthrow IndexError
  | None, _ => mret tt
  end;;
  c ← get;
  let l := take server_idx (server_sessions c) ++ updated_sessions ++ drop (S server_idx) (server_sessions c) in
  let first := Nat.pred server_idx in
  let bound := Nat.min (server_idx + length updated_spans) (length l - 1) in
  put (set_heap (link_sessions l first (bound - first) (heap c)) (set_sessions l c)).

(** [_update_sequence] *)
Definition update_sequence (server_idx : nat) (block_idx : Z) : M (client W P C) unit :=
  c0 ← get;
  exit_server_sessions (take 1 (drop server_idx (server_sessions c0)));;
  c ← get;
  let old := server_sessions c !! server_idx in
  update_end ← match old with
               | Some a => s ← get_session a; mret (end_ (ss_span s)) | None => mret (num_blocks cfg) end;
  spans ← on_world (sw_make_sequence block_idx update_end);
  updated_spans ← lift (cap_last update_end spans);
  updated_sessions ← enter_server_sessions updated_spans;
  install_sessions server_idx old updated_spans updated_sessions.

(** The body of the [try] of one attempt, up to the choice of the session. *)
Definition choose_session (server_idx attempt_no : nat) (block_idx : Z) : M (client W P C) nat :=
  c ← get;
  (if match server_sessions c with [] => true | _ => false end || (1 <=? Z.of_nat attempt_no)
   then update_sequence server_idx block_idx else mret tt);;
  c ← get;
  lift (of_option IndexError (server_sessions c !! server_idx)).

(** The rest of the [try]: the outputs and the next block. *)
Definition run_session (a : nat) (n_input_tokens : Z) (inputs : list C) : M (client W P C) (list C * Z) :=
  s ← get_session a;
  let server_inputs := trim_recovered_history_for_existing_downstream inputs n_input_tokens (ss_position s) false in
  outputs ← session_step a server_inputs None false;
  outputs ← lift (of_option ValueError outputs);
  modify (λ c, set_world (sw_on_request_success (peer_id (ss_span s)) (world c)) c);;
  mret (outputs, end_ (ss_span s)).

(** The attempts at one server; the delays between them do not change the state. *)
Fixpoint attempts (fuel attempt_no server_idx : nat) (block_idx n_input_tokens : Z) (inputs : list C) :
    M (client W P C) (list C * Z) :=
  match fuel with
  | O => mthrow OutOfFuel
  | S fuel' => λ c,
      let retry (failed : option P) (e : exn) (c1 : client W P C) :=
        let c2 := set_world (sw_on_request_failure failed (world c1)) c1 in
        if bool_decide (max_retries cfg = Some (Z.of_nat attempt_no + 1)) then (c2, Raise e)
        else attempts fuel' (S attempt_no) server_idx block_idx n_input_tokens inputs c2 in
      match choose_session server_idx attempt_no block_idx c with
      | (c1, Raise e) => retry None e c1
      | (c1, Ok a) =>
          match run_session a n_input_tokens inputs c1 with
          | (c2, Ok r) => (c2, Ok r)
          | (c2, Raise e) => retry (peer_id ∘ ss_span <$> heap c2 !! a) e c2
          end
      end
  end.

(** [while block_idx < self.num_blocks] *)
Fixpoint run_blocks (fuel retries server_idx : nat) (block_idx n_input_tokens : Z) (inputs : list C) : M (client W P C) (list C) :=
  if block_idx <? num_blocks cfg then
    match fuel with
    | O => mthrow OutOfFuel
    | S fuel' =>
        '(outputs, block_idx') ← attempts retries 0 server_idx block_idx n_input_tokens inputs;
        run_blocks fuel' retries (S server_idx) block_idx' n_input_tokens outputs
    end
  else mret inputs.

(** The outputs of the current step only. *)
Definition final_trim (n_input_tokens : Z) (outputs : list C) : res (list C) :=
  if (0 <? n_input_tokens) && (n_input_tokens <? zlen outputs) then Ok (last_cols n_input_tokens outputs)
  else if (0 <? n_input_tokens) && (zlen outputs <? n_input_tokens) then Raise RuntimeError
  else Ok outputs.

(** [step] of a regular (not speculative) step; [retries] bounds the attempts at one server. *)
Definition step (retries : nat) (inputs : list C) : M (client W P C) (list C) :=
  c ← get;
  guard_py (negb (closed c)) AssertionError;;
  let n_input_tokens := zlen inputs in
  if max_length cfg <? position c + n_input_tokens then mthrow ValueError
  else
    outputs ← run_blocks (Z.to_nat (num_blocks cfg)) retries 0 0 n_input_tokens inputs;
    modify (λ c, set_position (position c + n_input_tokens) c);;
    lift (final_trim n_input_tokens outputs).

Definition close : M (client W P C) unit :=
  c ← get;
  if closed c then mret tt
  else
    exit_server_sessions (server_sessions c);;
    modify (λ c, mkClient (heap c) [] (position c) true (world c)).

Definition new_client (w : W) : client W P C := mkClient [] [] 0 false w.
End session.
