(* ===== verification/SessionRecovery.v ===== *)
(** * Recovery of an inference session from failures of servers

    What the interface of the swarm promises, as laws of an abstract model (the blocks as
    functions of whole sequences, the caches of the open sessions, the failures to come);
    the invariant of the client between steps and inside one; that the attempts at a
    server, the loop over the servers and a step keep it; a generation as a whole. The
    last section has a swarm that fails by script, on which the laws hold. *)

From stdpp Require Import numbers base gmap sets strings list.
From Stdlib Require Import ZArith Lia ZifyBool.
From S2P Require Import Prelude Floats SwarmInfo Routing InferenceSession.

(** ** What the interface promises *)

(** [forward b e] is what blocks [b] to [e] compute of a whole sequence of columns;
    [held w id] is the range of blocks and the cached inputs of an open session;
    [failures] bounds the calls that may still fail. *)
Class SwarmModel (W C : Type) := {
  forward : Z → Z → list C → list C;
  held : W → Z → option (Z * Z * list C);
  failures : W → nat;
}.

Definition grows_to {C} (o o' : option (Z * Z * list C)) : Prop :=
  ∀ b e xs, o = Some (b, e, xs) → ∃ ys, o' = Some (b, e, xs ++ ys).

(** The world goes on: no new failures, and the caches of the sessions in [I] only grow. *)
Definition world_le `{SwarmModel W C} (I : Z → Prop) (w w' : W) : Prop :=
  (failures w' ≤ failures w)%nat ∧ ∀ id, I id → grows_to (held w id) (held w' id).

Class SwarmLaws (W P C : Type) `{Swarm W P C} `{SwarmModel W C} : Prop := {
  forward_length b e (xs : list C) : length (forward b e xs) = length xs;
  forward_take b e n (xs : list C) : forward b e (take n xs) = take n (forward b e xs);
  forward_id b (xs : list C) : forward b b xs = xs;
  forward_compose b m e (xs : list C) : b ≤ m ≤ e → forward m e (forward b m xs) = forward b e xs;
  create_law sp w :
    let '(w', r) := sw_create sp w in
    world_le (λ _, True) w w' ∧
    match r with
    | Ok id => held w id = None ∧ held w' id = Some (start sp, end_ sp, [])
    | Raise _ => (failures w' < failures w)%nat
    end;
  step_law rq w :
    let '(w', r) := sw_step rq w in
    world_le (λ id, id ≠ rq_session rq) w w' ∧
    match r with
    | Ok (Some out) =>
        ∀ b e xs, held w (rq_session rq) = Some (b, e, xs) → rq_is_spec_dec rq = false →
          0 ≤ rq_start_from_position rq ≤ zlen xs →
          let k := Z.to_nat (rq_start_from_position rq) in
          held w' (rq_session rq) = Some (b, e, take k xs ++ rq_inputs rq) ∧
          out = drop k (forward b e (take k xs ++ rq_inputs rq))
    | _ => (failures w' < failures w)%nat
    end;
  close_law id stepped w : world_le (λ id', id' ≠ id) w (sw_close id stepped w).1;
  make_sequence_law b e w :
    let '(w', r) := sw_make_sequence b e w in
    world_le (λ _, True) w w' ∧
    match r with
    | Ok l => b < e → ∃ init last, l = init ++ [last] ∧ tiles b (start last) init ∧ start last < e ≤ end_ last
    | Raise _ => (failures w' < failures w)%nat
    end;
  failure_law o w : world_le (λ _, True) w (sw_on_request_failure o w);
  success_law p w : world_le (λ _, True) w (sw_on_request_success p w);
}.

Section world_le.
Context `{SwarmModel W C}.
Implicit Types (o : option (Z * Z * list C)) (w : W).

Lemma grows_to_refl o : grows_to o o.
Proof. intros b e xs ->. exists []. by rewrite app_nil_r. Qed.

Lemma grows_to_trans o o1 o2 : grows_to o o1 → grows_to o1 o2 → grows_to o o2.
Proof.
  intros H1 H2 b e xs (ys & (zs & ->)%H2)%H1. exists (ys ++ zs). by rewrite app_assoc.
Qed.

Lemma world_le_refl I w : world_le I w w.
Proof. split; [lia|intros; apply grows_to_refl]. Qed.

Lemma world_le_trans I w w1 w2 : world_le I w w1 → world_le I w1 w2 → world_le I w w2.
Proof. intros [? E1] [? E2]. split; [lia|]. intros id Hi. eapply grows_to_trans; eauto. Qed.

Lemma world_le_weaken (I J : Z → Prop) w w' : (∀ id, J id → I id) → world_le I w w' → world_le J w w'.
Proof. intros HIJ [? E]. split; [lia|auto]. Qed.
End world_le.

(** ** Chains of sessions *)

Section chains.
Context {W P C : Type} `{SL : SwarmLaws W P C} (cfg : client_config).
Implicit Types (s : server_session P C) (c : client W P C) (a : nat) (Q : W → server_session P C → Prop).

(** The sessions at the addresses [l] hold consecutive ranges of blocks from [b] to [e]. *)
Fixpoint seg c Q (l : list nat) (b e : Z) : Prop :=
  match l with
  | [] => b = e
  | a :: l' => ∃ s, heap c !! a = Some s ∧ start (ss_span s) = b ∧ b < end_ (ss_span s) ∧ Q (world c) s ∧
                 seg c Q l' (end_ (ss_span s)) e
  end.

Definition ids c (l : list nat) : list (option Z) := (λ a, ss_id <$> heap c !! a) <$> l.

(** The session at [a] is as before, up to its link, and its server has kept the cache. *)
Definition kept c c' a : Prop :=
  ∃ s n, heap c !! a = Some s ∧ heap c' !! a = Some (set_next n s) ∧
    grows_to (held (world c) (ss_id s)) (held (world c') (ss_id s)).

Definition stable Q : Prop :=
  ∀ w w' s n, Q w s → grows_to (held w (ss_id s)) (held w' (ss_id s)) → Q w' (set_next n s).

Definition holds (w : W) s (xs : list C) : Prop :=
  ∃ ys, held w (ss_id s) = Some (start (ss_span s), end_ (ss_span s), xs ++ ys).

(** A session that has seen the inputs [X] of the whole chain. *)
Definition warm (X : list C) (w : W) s : Prop :=
  ss_closed s = false ∧ ss_stepped s = true ∧ ss_position s = zlen X ∧
  ss_history s = Some (forward 0 (start (ss_span s)) X) ∧ holds w s (forward 0 (start (ss_span s)) X).

(** A session that has not stepped; the history it may have got is that of [Y]. *)
Definition fresh (Y : list C) (w : W) s : Prop :=
  ss_closed s = false ∧ ss_stepped s = false ∧ ss_position s = 0 ∧
  (ss_history s = None ∨ ss_history s = Some (forward 0 (start (ss_span s)) Y)) ∧ holds w s [].

Lemma seg_app c Q l1 l2 b e : seg c Q (l1 ++ l2) b e ↔ ∃ m, seg c Q l1 b m ∧ seg c Q l2 m e.
Proof.
  revert b. induction l1 as [|a l1 IH]; intros b; cbn [seg app].
  - split; [intros ?; by exists b|by intros (m & -> & ?)].
  - setoid_rewrite IH. split.
    + intros (s & Hs & Hb & He & HQ & m & Hl1 & Hl2). exists m. split; [by exists s|done].
    + intros (m & (s & Hs & Hb & He & HQ & Hl1) & Hl2). exists s. repeat split; try done. by exists m.
Qed.

Lemma seg_le c Q l b e : seg c Q l b e → b ≤ e.
Proof.
  revert b. induction l as [|a l IH]; intros b; cbn [seg]; [lia|].
  intros (s & _ & _ & Hb & _ & Hl%IH). lia.
Qed.

Lemma seg_nil c Q l b : seg c Q l b b → l = [].
Proof.
  destruct l as [|a l]; [done|]. intros (s & _ & _ & Hb & _ & Hl). pose proof (seg_le _ _ _ _ _ Hl). lia.
Qed.

Lemma seg_same c c' Q l b e : heap c' = heap c → world c' = world c → seg c' Q l b e ↔ seg c Q l b e.
Proof.
  intros Hh Hw. revert b. induction l as [|a l IH]; intros b; [done|]. cbn [seg]. rewrite Hh, Hw. by setoid_rewrite IH.
Qed.

Lemma seg_elem c Q l b e a : seg c Q l b e → a ∈ l → ∃ s, heap c !! a = Some s ∧ Q (world c) s.
Proof.
  revert b. induction l as [|a' l IH]; intros b; [by intros _ ?%not_elem_of_nil|].
  intros (s & Hs & _ & _ & HQ & Hl) [->|Ha]%elem_of_cons; eauto.
Qed.

Lemma seg_mono c Q Q' l b e : (∀ s, Q (world c) s → Q' (world c) s) → seg c Q l b e → seg c Q' l b e.
Proof.
  intros HQ. revert b. induction l as [|a' l IH]; intros b; [done|].
  intros (s & ? & ? & ? & ? & ?). exists s. eauto 10.
Qed.

Lemma seg_kept c c' Q l b e : stable Q → Forall (kept c c') l → seg c Q l b e → seg c' Q l b e.
Proof.
  intros HQ HF. revert b. induction HF as [|a l (s & n & E & E' & Hx) HF IH]; intros b; [done|].
  intros (s' & Es & Hb & He & Hs & Hl). assert (s' = s) as -> by congruence.
  exists (set_next n s). cbn. repeat split; eauto.
Qed.

Lemma ids_kept c c' l : Forall (kept c c') l → ids c' l = ids c l.
Proof.
  intros HF. apply Forall_fmap_ext_1. eapply Forall_impl; [exact HF|].
  intros a (s & n & -> & -> & _). done.
Qed.

Lemma kept_trans c c1 c2 a : kept c c1 a → kept c1 c2 a → kept c c2 a.
Proof.
  intros (s & n & E & E1 & Hx) (s' & n' & E1' & E2 & Hx'). assert (s' = set_next n s) as -> by congruence.
  exists s, n'. repeat split; [done|done|by eapply grows_to_trans].
Qed.

Lemma Forall_kept_trans c c1 c2 l : Forall (kept c c1) l → Forall (kept c1 c2) l → Forall (kept c c2) l.
Proof. rewrite !Forall_forall. intros Hc1 Hc2 a Ha. eapply kept_trans; eauto. Qed.

Lemma warm_stable X : stable (warm X).
Proof.
  intros w w' s n (? & ? & ? & ? & ys & Hh) Hx. repeat split; try done.
  destruct (Hx _ _ _ Hh) as [zs Hz]. exists (ys ++ zs). cbn. by rewrite Hz, app_assoc.
Qed.

Lemma fresh_stable Y : stable (fresh Y).
Proof.
  intros w w' s n (? & ? & ? & ? & ys & Hh) Hx. repeat split; try done.
  destruct (Hx _ _ _ Hh) as [zs Hz]. exists (ys ++ zs). done.
Qed.

(** ** Frames *)

(** What a call leaves of the client: the fields of the session, the sessions at the
    addresses in [L] and the caches of the sessions in [I]. *)
Record framed (L : nat → Prop) (I : Z → Prop) c c' : Prop := {
  fr_sessions : server_sessions c' = server_sessions c;
  fr_position : position c' = position c;
  fr_closed : closed c' = closed c;
  fr_length : (length (heap c) ≤ length (heap c'))%nat;
  fr_heap a s : L a → heap c !! a = Some s → heap c' !! a = Some s;
  fr_world : world_le I (world c) (world c');
}.

Lemma framed_refl L I c : framed L I c c.
Proof. split; try done. apply world_le_refl. Qed.

Lemma framed_trans L I c c1 c2 : framed L I c c1 → framed L I c1 c2 → framed L I c c2.
Proof.
  intros [] []. split; try congruence; [lia|eauto|by eapply world_le_trans].
Qed.

Lemma framed_weaken (L L' : nat → Prop) (I I' : Z → Prop) c c' :
  (∀ a, L' a → L a) → (∀ id, I' id → I id) → framed L I c c' → framed L' I' c c'.
Proof. intros HL HI []. split; eauto using world_le_weaken. Qed.

Lemma framed_kept (L : nat → Prop) (I : Z → Prop) c c' a s :
  framed L I c c' → L a → heap c !! a = Some s → I (ss_id s) → kept c c' a.
Proof.
  intros Hf HL Hs HI. exists s, (ss_next s). split; [done|]. split.
  - rewrite (fr_heap _ _ _ _ Hf _ _ HL Hs). by destruct s.
  - by apply (fr_world _ _ _ _ Hf).
Qed.

Lemma framed_world L I w c : world_le I (world c) w → framed L I c (set_world w c).
Proof. intros ?. by split. Qed.

Lemma framed_alter (L : nat → Prop) I a f c : ¬ L a → framed L I c (set_heap (alter f a (heap c)) c).
Proof.
  intros Ha. split; try done; cbn.
  - by rewrite length_alter.
  - intros a' s HL Hs. rewrite list_lookup_alter_ne; [done|]. by intros ->.
  - apply world_le_refl.
Qed.

Lemma get_session_ok a c s : heap c !! a = Some s → get_session a c = (c, Ok s).
Proof. intros Hs. unfold get_session. rewrite get_bind. by rewrite Hs. Qed.

Lemma get_session_bind {B} a c s (f : _ → M _ B) : heap c !! a = Some s → (get_session a ≫= f) c = f s c.
Proof. intros Hs. apply bind_ok. by apply get_session_ok. Qed.

(** Closing a session touches that session only. *)
Lemma session_close_framed a c s : heap c !! a = Some s →
  framed (λ a', a' ≠ a) (λ id, id ≠ ss_id s) c (session_close a c).1 ∧
  ∃ b, heap (session_close a c).1 !! a =
    Some (mkSession (ss_span s) (ss_id s) (ss_stepped s) b (ss_position s) (ss_history s) (ss_next s)).
Proof.
  intros Hs. unfold session_close. rewrite (get_session_bind _ _ _ _ Hs). destruct (ss_closed s) eqn:Ec.
  { split; [apply framed_refl|]. exists true. cbn. rewrite Hs, <- Ec. by destruct s. }
  unfold mbind, M_bind, on_world. pose proof (close_law (ss_id s) (ss_stepped s) (world c)) as Hw.
  destruct (sw_close _ _ _) as [w [[]|e]]; cbn in Hw |- *; (split; [|]).
  - eapply framed_trans; [by apply framed_world|]. apply (framed_alter _ _ a set_closed (set_world w c)). by intros [].
  - exists true. cbn. by rewrite list_lookup_alter_eq, Hs.
  - by apply framed_world.
  - exists (ss_closed s). rewrite Hs. by destruct s.
Qed.

Lemma close_all_framed (L : nat → Prop) (I : Z → Prop) l c :
  Forall (λ a, ¬ L a ∧ ∃ s, heap c !! a = Some s ∧ ¬ I (ss_id s)) l →
  framed L I c (close_all l c).1 ∧ (close_all l c).2 = Ok tt.
Proof.
  revert c. induction l as [|a l IH]; intros c Hl; [split; [apply framed_refl|done]|].
  inversion Hl as [|? ? (Ha & s & Hs & Hi) Hl']; subst. cbn [close_all]. unfold swallow at 1 2, mbind, M_bind.
  destruct (session_close_framed a c s Hs) as [Hf [b Hb]].
  destruct (session_close a c) as [c' r]. cbn in Hf, Hb |- *.
  destruct (IH c') as [Hf' Hr].
  - eapply Forall_impl; [exact Hl'|]. intros a' (Ha' & s' & Hs' & Hi'). split; [done|].
    destruct (decide (a' = a)) as [->|Hne].
    + eexists. split; [exact Hb|]. by assert (s' = s) as -> by congruence.
    + exists s'. split; [by apply (fr_heap _ _ _ _ Hf)|done].
  - split; [|done]. eapply framed_trans; [|exact Hf'].
    eapply framed_weaken; [..|exact Hf]; cbn; [by intros ? ? ->|by intros ? ? ->].
Qed.

(** A session that [_enter_server_sessions] makes. *)
Definition new (w : W) s : Prop := ss_history s = None ∧ fresh [] w s.

Lemma new_stable : stable new.
Proof. intros w w' s n [Hh Hf] Hx. split; [done|by eapply fresh_stable]. Qed.

(** What is kept when sessions are opened: the heap and every open session. *)
Definition opening c c' : Prop :=
  framed (λ a, (a < length (heap c))%nat) (λ id, is_Some (held (world c) id)) c c'.

Record entered c0 c (l : list nat) (b e : Z) : Prop := {
  en_framed : opening c0 c;
  en_seg : seg c new l b e;
  en_nodup : NoDup (ids c l);
  en_addr : Forall (λ a, (length (heap c0) ≤ a < length (heap c))%nat) l;
  en_fresh : Forall (λ a, ∀ s, heap c !! a = Some s → held (world c0) (ss_id s) = None) l;
}.

Lemma grows_to_None w w' (I : Z → Prop) id : world_le I w w' → I id → held w' id = None → held w id = None.
Proof.
  intros [_ Hx] Hi Hn. destruct (held w id) as [[[b e] xs]|] eqn:E; [|done].
  destruct (Hx id Hi _ _ _ E) as [ys ?]. congruence.
Qed.

Lemma ids_app c l1 l2 : ids c (l1 ++ l2) = ids c l1 ++ ids c l2.
Proof. apply fmap_app. Qed.

Lemma elem_of_ids c Q l b e i : seg c Q l b e → i ∈ ids c l →
  ∃ a s, a ∈ l ∧ heap c !! a = Some s ∧ i = Some (ss_id s) ∧ Q (world c) s.
Proof.
  intros Hs (a & -> & Ha)%list_elem_of_fmap. destruct (seg_elem _ _ _ _ _ _ Hs Ha) as (s & E & HQ).
  exists a, s. by rewrite E.
Qed.

Lemma framed_seg L I c c' Q l b e : stable Q → framed L I c c' →
  Forall (λ a, L a ∧ ∀ s, heap c !! a = Some s → I (ss_id s)) l → seg c Q l b e → Forall (kept c c') l.
Proof.
  intros HQ Hf Hl Hseg. apply Forall_forall. intros a Ha.
  destruct (seg_elem _ _ _ _ _ _ Hseg Ha) as (s & Hs & _).
  pose proof (proj1 (Forall_forall _ _) Hl _ Ha) as [HL Hi]. eapply framed_kept; eauto.
Qed.

Lemma entered_snoc c0 c l b m sp :
  entered c0 c l b m → start sp = m → start sp < end_ sp →
  let (w, r) := sw_create sp (world c) in
  (failures w ≤ failures (world c))%nat ∧
  match r with
  | Ok id => entered c0 (set_heap (heap c ++ [new_session sp id]) (set_world w c)) (l ++ [length (heap c)]) b (end_ sp)
  | Raise _ => entered c0 (set_world w c) l b m ∧ (failures w < failures (world c))%nat
  end.
Proof.
  intros [Hf Hs Hn Ha Hfr] Hb He. pose proof (create_law sp (world c)) as Hl.
  destruct (sw_create sp (world c)) as [w r]. destruct Hl as [Hw Hr]. split; [apply Hw|].
  assert (Hw0 : framed (λ a, (a < length (heap c0))%nat) (λ id, is_Some (held (world c0) id)) c0 (set_world w c)).
  { eapply framed_trans; [exact Hf|]. apply framed_world. eapply world_le_weaken; [|exact Hw]. done. }
  assert (HK : ∀ h, Forall (kept c (set_heap (heap c ++ h) (set_world w c))) l).
  { intros h. apply Forall_forall. intros a Hal. destruct (seg_elem _ _ _ _ _ _ Hs Hal) as (s & Hsa & _).
    exists s, (ss_next s). split; [done|]. split; [|by apply Hw].
    cbn. rewrite lookup_app_l by (by eapply lookup_lt_Some). rewrite Hsa. by destruct s. }
  destruct r as [id|e].
  - destruct Hr as [Hnone Hheld]. set (c' := set_heap _ _).
    assert (Hlast : heap c' !! length (heap c) = Some (new_session sp id)) by (by apply list_lookup_middle).
    assert (Hlt : ∀ a, a ∈ l → (a < length (heap c))%nat) by (intros a Hal; by apply (proj1 (Forall_forall _ _) Ha a Hal)).
    assert (Hold : ∀ a, (a < length (heap c))%nat → heap c' !! a = heap c !! a) by (intros; by apply lookup_app_l).
    split.
    + eapply framed_trans; [exact Hw0|]. split; try done; cbn; [rewrite length_app; lia| |apply world_le_refl].
      intros a s Hlta Hsa. by rewrite lookup_app_l by (by eapply lookup_lt_Some).
    + apply seg_app. exists m. split; [by eapply seg_kept; [apply new_stable|apply HK|]|].
      cbn [seg]. exists (new_session sp id). repeat split; try done; cbn; [lia|by left|]. exists []. by cbn.
    + rewrite ids_app. apply NoDup_app. split; [by rewrite (ids_kept c c' l (HK _))|]. split; [|apply NoDup_singleton].
      rewrite (ids_kept c c' l (HK _)). intros i Hi E%list_elem_of_singleton. rewrite Hlast in E. cbn in E.
      destruct (elem_of_ids _ _ _ _ _ _ Hs Hi) as (a & s & _ & _ & -> & _ & _ & _ & _ & _ & ys & Hh). congruence.
    + apply Forall_app. split; [eapply Forall_impl; [exact Ha|]|apply Forall_singleton]; cbn; rewrite length_app; cbn; [lia|].
      destruct (fr_length _ _ _ _ Hf); cbn in *; lia.
    + apply Forall_app. split; [|apply Forall_singleton].
      * apply Forall_forall. intros a Hal s. rewrite Hold by auto. by apply (proj1 (Forall_forall _ _) Hfr a Hal).
      * intros s. rewrite Hlast. intros [= <-]. cbn. destruct (held (world c0) id) as [[[b' e'] xs]|] eqn:E; [|done].
        destruct (proj2 (fr_world _ _ _ _ Hf) id) with b' e' xs as [ys Hy]; [by rewrite E|done|congruence].
  - split; [|done]. specialize (HK []). rewrite app_nil_r in HK.
    assert (Forall (kept c (set_world w c)) l) as HK' by (destruct c; exact HK).
    split; [done|by eapply seg_kept; [apply new_stable| |]|by rewrite (ids_kept _ _ _ HK')|done|done].
Qed.

Lemma exit_entered c0 c l b e : entered c0 c l b e →
  let (c', r) := exit_server_sessions l c in
  opening c0 c' ∧ (failures (world c') ≤ failures (world c))%nat ∧ r = Ok tt.
Proof.
  intros [Hf Hs _ Ha Hfr]. unfold exit_server_sessions.
  destruct (close_all_framed (λ a, (a < length (heap c0))%nat) (λ id, is_Some (held (world c0) id)) (reverse l) c) as [Hf' Hr].
  - apply Forall_reverse, Forall_forall. intros a Hal.
    destruct (seg_elem _ _ _ _ _ _ Hs Hal) as (s & Hsa & _).
    pose proof (proj1 (Forall_forall _ _) Ha a Hal) as Hla. cbn beta in Hla. pose proof (proj1 (Forall_forall _ _) Hfr a Hal s Hsa) as Hn.
    split; [lia|]. exists s. split; [done|]. rewrite Hn. apply is_Some_None.
  - destruct (close_all _ c) as [c' r]. split; [by eapply framed_trans|]. split; [apply (fr_world _ _ _ _ Hf')|done].
Qed.

(** [_enter_server_sessions] opens all the sessions or none. *)
Lemma enter_from_spec spans : ∀ c0 c l b m e,
  entered c0 c l b m → tiles m e spans →
  let (c', r) := enter_from l spans c in
  match r with
  | Ok l' => entered c0 c' l' b e ∧ length l' = (length l + length spans)%nat ∧
               (failures (world c') ≤ failures (world c))%nat
  | Raise _ => opening c0 c' ∧ (failures (world c') < failures (world c))%nat
  end.
Proof.
  induction spans as [|sp spans IH]; intros c0 c l b m e Hen Ht; cbn [enter_from tiles] in *.
  { subst. split; [exact Hen|cbn; lia]. }
  destruct Ht as (Hb & He & Ht). unfold on_world.
  pose proof (entered_snoc c0 c l b m sp Hen Hb ltac:(lia)) as Hsn.
  destruct (sw_create sp (world c)) as [w [id|ex]]; destruct Hsn as [Hle Hsn].
  - specialize (IH _ _ _ _ _ _ Hsn Ht). cbn [heap set_world]. destruct (enter_from _ _ _) as [c' [l'|ex]]; cbn in IH.
    + destruct IH as (IH & Hlen & Hfl). split; [done|]. rewrite Hlen, length_app. cbn. lia.
    + destruct IH as [IH Hfl]. split; [done|]. lia.
  - destruct Hsn as [Hsn Hlt]. pose proof (exit_entered _ _ _ _ _ Hsn) as He'.
    destruct (exit_server_sessions l _) as [c' r]. destruct He' as (Hf & Hfl & _). split; [done|]. cbn in Hfl. lia.
Qed.

Lemma entered_nil c b : entered c c [] b b.
Proof. split; try constructor; try done; apply world_le_refl. Qed.

(** ** Choosing a route and opening it *)

Lemma cap_last_spec b e init (last : RemoteSpanInfo P) :
  tiles b (start last) init → start last < e ≤ end_ last →
  ∃ last', cap_last e (init ++ [last]) = Ok (init ++ [last']) ∧ tiles b e (init ++ [last']).
Proof.
  intros Ht He. unfold cap_last. rewrite py_pop_snoc. eexists. split; [reflexivity|].
  eapply tiles_snoc; [exact Ht|reflexivity|lia|cbn; lia].
Qed.

Lemma open_route_bind {B} (K : list (RemoteSpanInfo P) → list nat → M (client W P C) B) b e c :
  b < e →
  let m := spans ← on_world (sw_make_sequence b e); us ← lift (cap_last e spans); l ← enter_server_sessions us; K us l in
  (∃ c1 us l, entered c c1 l b e ∧ length l = length us ∧ us ≠ [] ∧ (failures (world c1) ≤ failures (world c))%nat ∧
    m c = K us l c1) ∨
  (∃ c1 ex, opening c c1 ∧ (failures (world c1) < failures (world c))%nat ∧ m c = (c1, Raise ex)).
Proof.
  intros Hbe. cbv zeta. unfold on_world, mbind, M_bind. pose proof (make_sequence_law b e (world c)) as Hl.
  destruct (sw_make_sequence b e (world c)) as [w [spans|ex]]; destruct Hl as [Hw Hl].
  2:{ right. exists (set_world w c), ex. split; [|done]. apply framed_world. by eapply world_le_weaken; [|exact Hw]. }
  destruct (Hl Hbe) as (init & last & -> & Ht & He).
  destruct (cap_last_spec b e init last Ht He) as (last' & -> & Ht'). cbn [lift].
  assert (opening c (set_world w c)) as Ho by (apply framed_world; by eapply world_le_weaken; [|exact Hw]).
  assert (entered c (set_world w c) [] b b) as Hen by (split; try constructor; done || apply Ho).
  pose proof (enter_from_spec (init ++ [last']) _ _ _ _ _ _ Hen Ht') as Hs. unfold enter_server_sessions.
  destruct Hw as [Hfl _]. destruct (enter_from [] _ _) as [c1 [l|ex]]; cbn in Hs.
  - left. destruct Hs as (Hs & Hlen & Hle). exists c1, (init ++ [last']), l. split; [done|]. split; [done|].
    split; [by destruct init|]. split; [lia|done].
  - right. destruct Hs as [Hs Hlt]. exists c1, ex. split; [|split; [lia|done]]. exact Hs.
Qed.

Lemma link_sessions_lookup l i k (h : list (server_session P C)) a s :
  h !! a = Some s → ∃ n, link_sessions l i k h !! a = Some (set_next n s).
Proof.
  revert i h s. induction k as [|k IH]; intros i h s Hs; cbn [link_sessions].
  { exists (ss_next s). rewrite Hs. by destruct s. }
  destruct (l !! i) as [x|]; [|by apply IH]. destruct (l !! S i) as [y|]; [|by apply IH].
  destruct (decide (x = a)) as [->|Hne].
  - destruct (IH (S i) (alter (set_next (Some y)) a h) (set_next (Some y) s)) as [n Hn];
      [by rewrite list_lookup_alter_eq, Hs|]. by exists n.
  - apply IH. by rewrite list_lookup_alter_ne.
Qed.

(** New links and another list of sessions. *)
Lemma relink_kept c l l' i k a s :
  heap c !! a = Some s → kept c (set_heap (link_sessions l i k (heap c)) (set_sessions l' c)) a.
Proof.
  intros Hs. destruct (link_sessions_lookup l i k (heap c) a s Hs) as [n Hn].
  exists s, n. split; [done|]. split; [exact Hn|apply grows_to_refl].
Qed.

(** The sessions of a list are open, and no two share an address or an identifier. *)
Definition opened c (l : list nat) : Prop :=
  NoDup (ids c l) ∧ Forall (λ a, ∃ s, heap c !! a = Some s ∧ is_Some (held (world c) (ss_id s))) l.

Lemma update_empty c : server_sessions c = [] → 0 < num_blocks cfg →
  let (c', r) := update_sequence cfg 0 0 c in
  position c' = position c ∧ closed c' = closed c ∧
  match r with
  | Ok _ => server_sessions c' ≠ [] ∧ NoDup (ids c' (server_sessions c')) ∧ seg c' new (server_sessions c') 0 (num_blocks cfg) ∧
      (failures (world c') ≤ failures (world c))%nat
  | Raise _ => server_sessions c' = [] ∧ (failures (world c') < failures (world c))%nat
  end.
Proof.
  intros Hs HN. unfold update_sequence. rewrite get_bind, Hs. cbn [take drop].
  rewrite (bind_ok _ _ c c tt) by done. rewrite get_bind, Hs. cbn zeta. rewrite lookup_nil.
  rewrite (bind_ok _ _ c c (num_blocks cfg)) by done.
  destruct (open_route_bind (install_sessions 0 None) 0 (num_blocks cfg) c HN)
    as [(c1 & us & l & Hen & Hlen & Hne & Hfl & ->)|(c1 & ex & Ho & Hlt & ->)].
  - unfold install_sessions. rewrite (bind_ok _ _ c1 c1 tt) by done. rewrite get_bind. unfold put. cbn.
    destruct Hen as [Ho Hseg Hnd _ _]. rewrite (fr_sessions _ _ _ _ Ho), Hs. cbn. rewrite app_nil_r.
    set (c' := set_heap _ _).
    assert (Forall (kept c1 c') l) as HK.
    { apply Forall_forall. intros a Ha. destruct (seg_elem _ _ _ _ _ _ Hseg Ha) as (s & Hsa & _). by apply (relink_kept c1 _ _ _ _ _ s). }
    destruct Ho. split; [done|]. split; [done|]. split; [by destruct l, us|].
    split; [by rewrite <- (ids_kept _ _ _ HK) in Hnd|]. split; [by eapply seg_kept; [apply new_stable|exact HK|]|done].
  - destruct Ho. rewrite Hs in *. done.
Qed.

Lemma kept_lookup c c' a s : kept c c' a → heap c !! a = Some s → ∃ n, heap c' !! a = Some (set_next n s).
Proof. intros (s' & n & E & E' & _) Hs. assert (s' = s) as -> by congruence. by exists n. Qed.

Lemma opened_kept c c' l : opened c l → Forall (kept c c') l → opened c' l.
Proof.
  intros [Hnd Hop] HK. split; [by rewrite (ids_kept _ _ _ HK)|]. rewrite Forall_forall in Hop, HK |- *.
  intros a Ha. destruct (Hop a Ha) as (s & Hs & [[b e] xs] & Hh). destruct (HK a Ha) as (s' & n & E & E' & Hx).
  assert (s' = s) as -> by congruence. destruct (Hx _ _ _ Hh) as [ys Hy].
  exists (set_next n s). split; [done|]. cbn. by rewrite Hy.
Qed.

Lemma opening_kept c c' l : opened c l → opening c c' → Forall (kept c c') l.
Proof.
  intros [_ Hop] Ho. eapply Forall_impl; [exact Hop|]. intros a (s & Hs & Hh).
  eapply framed_kept; [exact Ho|by eapply lookup_lt_Some|exact Hs|exact Hh].
Qed.

Lemma exit_one a c s : heap c !! a = Some s →
  ∃ c' b, exit_server_sessions [a] c = (c', Ok tt) ∧ framed (λ a', a' ≠ a) (λ id, id ≠ ss_id s) c c' ∧
    heap c' !! a = Some (mkSession (ss_span s) (ss_id s) (ss_stepped s) b (ss_position s) (ss_history s) (ss_next s)).
Proof.
  intros Hs. destruct (session_close_framed a c s Hs) as [Hf [b Hb]].
  exists (session_close a c).1, b. split; [|done]. cbn. unfold swallow, mbind, M_bind. by destruct (session_close a c).
Qed.

Lemma install_some c pre a rest s us n news sn :
  heap c !! a = Some s → heap c !! n = Some sn → server_sessions c = pre ++ a :: rest →
  ∃ c' k, install_sessions (length pre) (Some a) us (n :: news) c = (c', Ok tt) ∧
    server_sessions c' = pre ++ (n :: news) ++ rest ∧ position c' = position c ∧ closed c' = closed c ∧ world c' = world c ∧
    (∀ a' s', a' ≠ n → heap c !! a' = Some s' → kept c c' a') ∧
    heap c' !! n = Some (set_next k (set_history (ss_history s) sn)).
Proof.
  intros Ha Hn Hs. unfold install_sessions. set (c1 := set_heap (alter (set_history (ss_history s)) n (heap c)) c).
  rewrite (bind_ok _ _ c c1 tt); [|by rewrite (get_session_bind _ _ _ _ Ha)]. rewrite get_bind. unfold put. cbn zeta.
  change (server_sessions c1) with (server_sessions c). rewrite Hs, take_app_length, (drop_app_ge pre) by lia.
  replace (S (length pre) - length pre)%nat with 1%nat by lia. cbn [drop].
  set (l := pre ++ _). set (k := (_ - _)%nat).
  destruct (link_sessions_lookup l (Nat.pred (length pre)) k (heap c1) n (set_history (ss_history s) sn)) as [m Hm].
  { cbn. by rewrite list_lookup_alter_eq, Hn. }
  eexists _, m. split; [reflexivity|]. do 4 (split; [done|]). split; [|exact Hm].
  intros a' s' Hne Ha'. destruct (link_sessions_lookup l (Nat.pred (length pre)) k (heap c1) a' s') as [j Hj];
    [cbn; by rewrite list_lookup_alter_ne|]. exists s', j. split; [done|]. split; [exact Hj|apply grows_to_refl].
Qed.

Lemma new_old_ids c0 c l l' b e i : entered c0 c l b e → opened c0 l' → i ∈ ids c l → i ∈ ids c0 l' → False.
Proof.
  intros Hen [_ Hop] (a & -> & Ha)%list_elem_of_fmap (a' & E & Ha')%list_elem_of_fmap.
  destruct (seg_elem _ _ _ _ _ _ (en_seg _ _ _ _ _ Hen) Ha) as (s & Hs & _).
  pose proof (proj1 (Forall_forall _ _) (en_fresh _ _ _ _ _ Hen) a Ha s Hs) as Hn.
  destruct (proj1 (Forall_forall _ _) Hop a' Ha') as (s' & Hs' & Hh).
  rewrite Hs, Hs' in E. injection E as E. rewrite <- E, Hn in Hh. by destruct Hh.
Qed.

Lemma update_replace c pre a rest s Y :
  server_sessions c = pre ++ a :: rest → heap c !! a = Some s → start (ss_span s) < end_ (ss_span s) →
  opened c (pre ++ rest) → Some (ss_id s) ∉ ids c (pre ++ rest) → a ∉ pre ++ rest →
  ss_history s = None ∨ ss_history s = Some (forward 0 (start (ss_span s)) Y) →
  let (c', r) := update_sequence cfg (length pre) (start (ss_span s)) c in
  position c' = position c ∧ closed c' = closed c ∧ Forall (kept c c') (pre ++ rest) ∧
  match r with
  | Ok _ => ∃ n news sn, server_sessions c' = pre ++ (n :: news) ++ rest ∧ NoDup (ids c' (pre ++ (n :: news) ++ rest)) ∧
      seg c' (fresh Y) (n :: news) (start (ss_span s)) (end_ (ss_span s)) ∧
      heap c' !! n = Some sn ∧ ss_history sn = ss_history s ∧
      (failures (world c') ≤ failures (world c))%nat
  | Raise _ => server_sessions c' = server_sessions c ∧
      (∃ s', heap c' !! a = Some s' ∧ ss_span s' = ss_span s ∧ ss_id s' = ss_id s ∧ ss_history s' = ss_history s) ∧
      (failures (world c') < failures (world c))%nat
  end.
Proof.
  intros Hs Ha Hlt Hop Hid Hadr Hh. unfold update_sequence. rewrite get_bind, Hs.
  rewrite drop_app_length. cbn [take]. destruct (exit_one a c s Ha) as (c1 & bc & Ec & Hf & Ha1).
  rewrite (bind_ok _ _ _ _ _ Ec), get_bind, (fr_sessions _ _ _ _ Hf), Hs. cbn zeta.
  rewrite list_lookup_middle by done.
  assert (HK1 : Forall (kept c c1) (pre ++ rest)).
  { apply Forall_forall. intros a' Hin. destruct Hop as [_ Hop]. rewrite Forall_forall in Hop.
    destruct (Hop a' Hin) as (s' & Hs' & _). eapply framed_kept; [exact Hf|by intros ->|exact Hs'|].
    cbn. intros E. apply Hid. apply list_elem_of_fmap. exists a'. rewrite Hs'. cbn. by rewrite E. }
  pose proof (opened_kept _ _ _ Hop HK1) as Hop1. rewrite (bind_ok _ _ c1 c1 (end_ (ss_span s)));
    [|by rewrite (get_session_bind _ _ _ _ Ha1)].
  destruct (open_route_bind (install_sessions (length pre) (Some a)) _ _ c1 Hlt)
    as [(c2 & us & l & Hen & Hlen & Hne & Hfl & ->)|(c2 & ex & Ho & Hlt2 & ->)];
    pose proof (fr_world _ _ _ _ Hf) as [Hw1 _].
  - destruct l as [|n news]; [by destruct us|]. pose proof (en_framed _ _ _ _ _ Hen) as Ho.
    pose proof (opening_kept _ _ _ Hop1 Ho) as HK2. pose proof (en_seg _ _ _ _ _ Hen) as Hseg.
    destruct Hseg as (sn & Hn & Hnb & Hne' & [Hnh Hnf] & Hnews).
    pose proof (fr_heap _ _ _ _ Ho _ _ (lookup_lt_Some _ _ _ Ha1) Ha1) as Ha2.
    assert (Hs2 : server_sessions c2 = pre ++ a :: rest) by (rewrite (fr_sessions _ _ _ _ Ho), (fr_sessions _ _ _ _ Hf); done).
    destruct (install_some _ _ _ _ _ us _ news _ Ha2 Hn Hs2) as (c3 & k & -> & Hs3 & Hp3 & Hc3 & Hw3 & HK3 & Hn3).
    split; [rewrite Hp3, (fr_position _ _ _ _ Ho); apply Hf|]. split; [rewrite Hc3, (fr_closed _ _ _ _ Ho); apply Hf|].
    assert (HKr : Forall (kept c2 c3) (pre ++ rest)).
    { apply Forall_forall. intros a' Hin. destruct (proj1 (Forall_forall _ _) HK2 a' Hin) as (s' & j & E & E' & _).
      apply (HK3 a' (set_next j s')); [|done]. apply lookup_lt_Some in E.
      pose proof (en_addr _ _ _ _ _ Hen) as Had. inversion Had; subst. lia. }
    assert (HKn : Forall (kept c2 c3) news).
    { apply Forall_forall. intros a' Hin. destruct (seg_elem _ _ _ _ _ _ Hnews Hin) as (s' & E & _).
      apply (HK3 a' s'); [|done]. pose proof (NoDup_fmap_1 _ _ (en_nodup _ _ _ _ _ Hen)) as Hnd.
      intros ->. by apply NoDup_cons in Hnd as [? _]. }
    split; [by eapply Forall_kept_trans, Forall_kept_trans|].
    exists n, news, (set_next k (set_history (ss_history s) sn)). split; [done|].
    split; [|split; [|split; [done|split; [done|rewrite Hw3; lia]]]].
    + assert (ids c3 (n :: news) = ids c2 (n :: news)) as E.
      { change (n :: news) with ([n] ++ news). rewrite !ids_app, (ids_kept _ _ _ HKn). cbn. by rewrite Hn, Hn3. }
      rewrite !ids_app, (Permutation_app_swap_app _ (ids c3 (n :: news))), E, <- ids_app, (ids_kept _ _ _ HKr).
      destruct (opened_kept _ _ _ Hop1 HK2) as [Hnd2 _].
      apply NoDup_app. split; [apply (en_nodup _ _ _ _ _ Hen)|split; [|done]].
      intros i Hi1 Hi2. rewrite (ids_kept _ _ _ HK2) in Hi2. destruct (new_old_ids _ _ _ _ _ _ _ Hen Hop1 Hi1 Hi2).
    + exists (set_next k (set_history (ss_history s) sn)). repeat split; try done; cbn.
      * apply Hnf. * apply Hnf. * apply Hnf.
      * rewrite Hnb. exact Hh.
      * destruct Hnf as (_ & _ & _ & _ & ys & Hys). exists ys. cbn. by rewrite Hw3.
      * eapply seg_kept; [apply fresh_stable|exact HKn|]. eapply seg_mono; [|exact Hnews].
        intros s' [Hn' (? & ? & ? & _ & ?)]. repeat split; try done. by left.
  - pose proof (opening_kept _ _ _ Hop1 Ho) as HK2. pose proof Ho as [Hss Hp Hc _ Hhp _].
    split; [rewrite Hp; apply Hf|]. split; [rewrite Hc; apply Hf|]. split; [by eapply Forall_kept_trans|].
    split; [rewrite Hss, <- Hs; apply Hf|]. split; [|lia].
    eexists. split; [apply Hhp; [by eapply lookup_lt_Some|exact Ha1]|done].
Qed.
End chains.

(** ** One server *)

Section columns.
Context {W P C : Type} `{SL : SwarmLaws W P C} (X x : list C).
#[local] Abbreviation full b := (forward 0 b (X ++ x)).
#[local] Abbreviation short b := (drop (length X) (forward 0 b (X ++ x))).

Lemma zlen_forward b e (l : list C) : zlen (forward b e l) = zlen l.
Proof. unfold zlen. by rewrite forward_length. Qed.

Lemma zlen_short b : zlen (short b) = zlen x.
Proof. unfold zlen. rewrite length_drop, forward_length, length_app. lia. Qed.

Lemma last_cols_drop {A} (l : list A) n : 0 < n ≤ zlen l → last_cols n l = drop (Z.to_nat (zlen l - n)) l.
Proof.
  intros Hn. unfold last_cols, py_slice, slice_bound. pose proof (zlen_nonneg l).
  rewrite (proj2 (Z.ltb_lt (- n) 0)), (proj2 (Z.ltb_ge (zlen l) 0)), Z.min_id, Z.max_r by lia.
  replace (zlen l + - n) with (zlen l - n) by lia. apply take_ge. rewrite length_drop. unfold zlen in *. lia.
Qed.

Lemma last_cols_full b : x ≠ [] → last_cols (zlen x) (full b) = short b.
Proof.
  intros Hx. rewrite last_cols_drop; rewrite zlen_forward, zlen_app.
  - f_equal. unfold zlen. lia.
  - pose proof (zlen_nonneg X). destruct x; [done|]. rewrite zlen_cons. pose proof (zlen_nonneg l). lia.
Qed.

Lemma last_cols_short b : x ≠ [] → last_cols (zlen x) (short b) = short b.
Proof.
  intros Hx. rewrite last_cols_drop; rewrite zlen_short; [by rewrite Z.sub_diag|].
  destruct x; [done|]. rewrite zlen_cons. pose proof (zlen_nonneg l). lia.
Qed.

Lemma history_short b : forward 0 b X ++ short b = full b.
Proof.
  rewrite <- (take_drop (length X) (full b)) at 2. f_equal. rewrite <- forward_take. by rewrite take_app_length.
Qed.

(** What the next server may get: all the columns or those of the step. *)
Definition input_at (b : Z) (inputs : list C) : Prop := inputs = full b ∨ inputs = short b.

(** Trimmed for a warm server, it is the columns of the step. *)
Lemma trim_warm b inputs : x ≠ [] → input_at b inputs →
  trim_recovered_history_for_existing_downstream inputs (zlen x) (zlen X) false = short b.
Proof.
  intros Hx Hin. unfold trim_recovered_history_for_existing_downstream. cbn [orb].
  destruct (Z.leb_spec (zlen x) 0) as [Hle|_].
  { destruct x; [done|]. rewrite zlen_cons in Hle. pose proof (zlen_nonneg l). lia. }
  cbn [orb]. destruct (Z.leb_spec (zlen X) 0) as [Hle|Hlt].
  { assert (length X = 0%nat) as E by (unfold zlen in Hle; lia).
    destruct Hin as [->| ->]; by rewrite E, drop_0. }
  destruct Hin as [->| ->].
  - rewrite zlen_forward, zlen_app. destruct (Z.leb_spec (zlen X + zlen x) (zlen x)); [lia|]. by apply last_cols_full.
  - rewrite zlen_short, Z.leb_refl. done.
Qed.

Lemma trim_fresh (inputs : list C) n : trim_recovered_history_for_existing_downstream inputs n 0 false = inputs.
Proof. unfold trim_recovered_history_for_existing_downstream. by rewrite orb_true_r. Qed.
End columns.

Section server.
Context {W P C : Type} `{SL : SwarmLaws W P C} (cfg : client_config).
Hypothesis no_push_only : push_only_downstream_decode cfg = false.
Implicit Types (s : server_session P C) (c : client W P C) (a : nat).

Definition sent_inputs (inputs : list C) s : list C :=
  if ss_stepped s then inputs else add_history (zlen inputs) inputs s.

Lemma session_step_run a inputs c s : heap c !! a = Some s → ss_closed s = false →
  ∃ nexts c1, framed (λ a', a' ≠ a) (λ _, True) c c1 ∧ world c1 = world c ∧
    heap c1 !! a = Some (set_stepped (set_history (Some (add_history (zlen inputs) inputs s)) s)) ∧
    session_step cfg a inputs None false c =
      let (w, r) := sw_step (mkRequest (ss_id s) (sent_inputs inputs s) (ss_position s) (negb (ss_stepped s)) false nexts) (world c) in
      match r with
      | Ok o => (set_heap (alter (λ s', set_pos (ss_position s' + zlen (sent_inputs inputs s)) s') a (heap c1)) (set_world w c1), Ok o)
      | Raise e => (set_world w c1, Raise e)
      end.
Proof.
  intros Hs Hc. unfold session_step. rewrite (get_session_bind _ _ _ _ Hs), Hc.
  set (h := add_history _ inputs s). set (c1 := set_heap (alter (set_history (Some h)) a (heap c)) c).
  exists (if use_server_to_server cfg then collect_next_servers (length (heap c1)) (heap c1) (ss_next s) else []),
    (set_heap (alter set_stepped a (heap c1)) c1).
  split; [|split; [done|split; [by cbn; rewrite !list_lookup_alter_eq, Hs|]]].
  { eapply framed_trans; [apply (framed_alter _ _ a (set_history (Some h)) c)|apply (framed_alter _ _ a set_stepped c1)];
      intros Hn; by apply Hn. }
  rewrite no_push_only, andb_false_r. cbn [andb].
  unfold update_session, on_world, modify, get, mbind, M_bind. cbn beta iota zeta.
  fold c1. unfold sent_inputs. fold h. cbn [world set_heap c1].
  destruct (sw_step _ _) as [w [o|e]]; done.
Qed.

Context (X x : list C) (x_nonempty : x ≠ []).
#[local] Abbreviation Y := (X ++ x).

(** A session that the step may use on [inputs]. *)
Definition usable (inputs : list C) (w : W) s : Prop :=
  let b := start (ss_span s) in
  input_at X x b inputs ∧
  (warm X w s ∨ fresh Y w s ∧ (inputs = forward 0 b Y ∨ ss_history s = Some (forward 0 b Y))).

Definition trimmed (inputs : list C) s : list C :=
  trim_recovered_history_for_existing_downstream inputs (zlen x) (ss_position s) false.

(** What the request of a usable session carries: the server's cache becomes that of [Y]. *)
Lemma usable_request inputs w s : usable inputs w s →
  let b := start (ss_span s) in let e := end_ (ss_span s) in
  let ins := trimmed inputs s in let sent := sent_inputs ins s in
  add_history (zlen ins) ins s = forward 0 b Y ∧ ss_position s + zlen sent = zlen Y ∧
  ∃ cached k, held w (ss_id s) = Some (b, e, cached) ∧ ss_position s = Z.of_nat k ∧ (k ≤ length cached)%nat ∧
    take k cached ++ sent = forward 0 b Y ∧ (k = length X ∨ k = 0%nat).
Proof.
  intros [Hin Hu]. cbv zeta. unfold trimmed.
  assert (0 < zlen Y) as HY.
  { destruct x as [|y l]; [done|]. rewrite zlen_app, zlen_cons. pose proof (zlen_nonneg X). pose proof (zlen_nonneg l). lia. }
  destruct Hu as [(_ & Hst & Hp & Hh & ys & Hys)|[(_ & Hst & Hp & Hh & ys & Hys) Hc]].
  - rewrite Hp, (trim_warm X x (start (ss_span s))) by done. unfold add_history, sent_inputs. rewrite Hst, Hh, Hp, zlen_forward, Z.eqb_refl.
    rewrite zlen_short, last_cols_short, history_short by done. split; [done|].
    split; [by rewrite zlen_app|]. exists (forward 0 (start (ss_span s)) X ++ ys), (length X).
    split; [done|]. split; [done|]. rewrite length_app, forward_length. split; [lia|].
    rewrite take_app_le by (rewrite forward_length; lia). rewrite take_ge by (rewrite forward_length; lia).
    split; [apply history_short|by left].
  - rewrite Hp, trim_fresh. unfold add_history, sent_inputs. rewrite Hst.
    assert (match ss_history s with
            | Some h => if zlen h =? ss_position s then h ++ last_cols (zlen inputs) inputs else h
            | None => inputs end = forward 0 (start (ss_span s)) Y) as E.
    { destruct Hh as [Hh|Hh]; rewrite Hh in *; [by destruct Hc|].
      rewrite Hp, zlen_forward. by destruct (Z.eqb_spec (zlen Y) 0); [lia|]. }
    unfold add_history. rewrite E. split; [done|]. split; [by rewrite zlen_forward|].
    exists ys, 0%nat. split; [done|]. split; [done|]. split; [lia|]. split; [done|by right].
Qed.

(** One attempt at a usable session: it returns the columns of the blocks it holds, or
    the call failed and the session has the history of the step. *)
Lemma run_session_spec a inputs c s : heap c !! a = Some s → usable inputs (world c) s →
  0 ≤ start (ss_span s) ≤ end_ (ss_span s) →
  let (c', r) := run_session cfg a (zlen x) inputs c in
  framed (λ a', a' ≠ a) (λ id, id ≠ ss_id s) c c' ∧
  ∃ s', heap c' !! a = Some s' ∧ ss_span s' = ss_span s ∧ ss_id s' = ss_id s ∧
  match r with
  | Ok (out, b') => b' = end_ (ss_span s) ∧ warm Y (world c') s' ∧ input_at X x b' out ∧
      (ss_stepped s = false → out = forward 0 b' Y)
  | Raise _ => ss_history s' = Some (forward 0 (start (ss_span s)) Y) ∧ (failures (world c') < failures (world c))%nat
  end.
Proof.
  intros Hs Hu Hbe. unfold run_session. rewrite (get_session_bind _ _ _ _ Hs). cbv zeta. fold (trimmed inputs s).
  destruct (usable_request _ _ _ Hu) as (Hh & Hp & cached & k & Hheld & Hk & Hkl & Ht & Hko).
  destruct (session_step_run a (trimmed inputs s) c s Hs) as (nexts & c1 & Hf1 & Hw1 & Hs1 & E);
    [destruct Hu as [_ [Hu|[Hu _]]]; apply Hu|].
  apply (framed_weaken _ (λ a', a' ≠ a) _ (λ id, id ≠ ss_id s)) in Hf1; [|done|done].
  rewrite Hh in Hs1. set (rq := mkRequest _ _ _ _ _ _) in E. pose proof (step_law rq (world c)) as Hl.
  destruct (sw_step rq (world c)) as [w [o|ex]]; destruct Hl as [Hw Hl].
  2:{ rewrite (bind_raise _ _ _ _ _ E). split.
      - eapply framed_trans; [exact Hf1|]. apply framed_world. by rewrite Hw1.
      - eexists. split; [exact Hs1|]. done. }
  rewrite (bind_ok _ _ _ _ _ E). set (c2 := set_heap _ _).
  assert (framed (λ a', a' ≠ a) (λ id, id ≠ ss_id s) c c2) as Hf2.
  { eapply framed_trans; [exact Hf1|].
    eapply framed_trans; [apply framed_world; by rewrite Hw1|]. apply (framed_alter _ _ a _ (set_world w c1)). intros Hn; by apply Hn. }
  assert (∃ s2, heap c2 !! a = Some s2 ∧ ss_span s2 = ss_span s ∧ ss_id s2 = ss_id s ∧ ss_closed s2 = ss_closed s ∧
    ss_stepped s2 = true ∧ ss_position s2 = zlen Y ∧ ss_history s2 = Some (forward 0 (start (ss_span s)) Y)) as
    (s2 & Hs2 & Hsp & Hid & Hcl & Hst & Hpo & Hhi).
  { eexists. split; [by cbn; rewrite list_lookup_alter_eq, Hs1|]. done. }
  destruct o as [out|].
  2:{ cbn [of_option]. rewrite (bind_raise _ _ _ c2 ValueError) by done. split; [done|].
      exists s2. repeat split; try done. }
  cbn [of_option]. rewrite lift_ok_bind, modify_bind.
  pose proof (success_law (peer_id (ss_span s)) w) as Hsu. split.
  { eapply framed_trans; [exact Hf2|]. apply framed_world. eapply world_le_weaken; [|exact Hsu]. done. }
  exists s2. split; [done|]. split; [done|]. split; [done|]. cbn [M_ret mret].
  destruct (Hl _ _ _ Hheld eq_refl) as [Hheld' ->]; cbn [rq_start_from_position rq rq_inputs rq_session] in *.
  { unfold zlen. lia. }
  rewrite Hk, Nat2Z.id, Ht in Hheld' |- *. rewrite forward_compose by lia.
  split; [done|]. split; [|split].
  - split; [rewrite Hcl; destruct Hu as [_ [Hu|[Hu _]]]; apply Hu|]. split; [done|]. split; [done|]. split; [by rewrite Hhi, Hsp|].
    destruct (proj2 Hsu (ss_id s) I _ _ _ Hheld') as [ys Hy]. exists ys. by rewrite Hid, Hsp, <- Hy.
  - destruct Hko as [->| ->]; [by right|left; by rewrite drop_0].
  - intros Hf. destruct Hu as [_ [(_ & Hst' & _)|[(_ & _ & Hp0 & _) _]]]; [congruence|].
    assert (k = 0%nat) as -> by lia. by rewrite drop_0.
Qed.

(** ** The loop over the servers *)

#[local] Abbreviation N := (num_blocks cfg).

(** The sessions that a step has still to visit: those that replace a server, then the others. *)
Definition ahead c (rest : list nat) (b : Z) : Prop :=
  ∃ news olds m, rest = news ++ olds ∧ seg c (fresh Y) news b m ∧ seg c (warm X) olds m N.

(** The step is at block [b]: the servers in [pre] have done their part. *)
Definition ready c (pre rest : list nat) (b : Z) (inputs : list C) : Prop :=
  server_sessions c = pre ++ rest ∧ NoDup (ids c (pre ++ rest)) ∧ seg c (warm Y) pre 0 b ∧ ahead c rest b ∧
  input_at X x b inputs ∧ ∀ a s, head rest = Some a → heap c !! a = Some s → usable inputs (world c) s.

(** The call to the session at [a] has failed; it has the history. *)
Definition broken c (pre : list nat) a (rest : list nat) (b : Z) (inputs : list C) : Prop :=
  server_sessions c = pre ++ a :: rest ∧ NoDup (ids c (pre ++ a :: rest)) ∧ seg c (warm Y) pre 0 b ∧ input_at X x b inputs ∧
  ∃ s, heap c !! a = Some s ∧ start (ss_span s) = b ∧ b < end_ (ss_span s) ∧
    ss_history s = Some (forward 0 b Y) ∧ ahead c rest (end_ (ss_span s)).

(** No server has been contacted yet. *)
Definition idle c (pre : list nat) (b : Z) (inputs : list C) : Prop :=
  server_sessions c = [] ∧ pre = [] ∧ b = 0 ∧ X = [] ∧ inputs = x.

Definition trying c (k : nat) (pre : list nat) (b : Z) (inputs : list C) : Prop :=
  (k = 0%nat ∧ ∃ a rest, ready c pre (a :: rest) b inputs) ∨
  ((0 < k)%nat ∧ ∃ a rest, broken c pre a rest b inputs) ∨ idle c pre b inputs.

Lemma warm_holds Z w s : warm Z w s → is_Some (held w (ss_id s)).
Proof. intros (_ & _ & _ & _ & ys & ->). done. Qed.

Lemma fresh_holds Z w s : fresh Z w s → is_Some (held w (ss_id s)).
Proof. intros (_ & _ & _ & _ & ys & ->). done. Qed.

Lemma ahead_kept c c' rest b : Forall (kept c c') rest → ahead c rest b → ahead c' rest b.
Proof.
  intros HK (news & olds & m & -> & Hn & Ho). apply Forall_app in HK as [? ?].
  exists news, olds, m. split; [done|]. split; (eapply seg_kept; [|done|done]); [apply fresh_stable|apply warm_stable].
Qed.

Lemma seg_opened c (Q : W → server_session P C → Prop) l b e : (∀ w s, Q w s → is_Some (held w (ss_id s))) → seg c Q l b e →
  Forall (λ a, ∃ s, heap c !! a = Some s ∧ is_Some (held (world c) (ss_id s))) l.
Proof.
  intros HQ Hseg. apply Forall_forall. intros a Ha. destruct (seg_elem _ _ _ _ _ _ Hseg Ha) as (s & Hs & Hh). eauto.
Qed.

Lemma ahead_opened c rest b : ahead c rest b →
  Forall (λ a, ∃ s, heap c !! a = Some s ∧ is_Some (held (world c) (ss_id s))) rest.
Proof.
  intros (news & olds & m & -> & Hn & Ho).
  apply Forall_app. split; (eapply seg_opened; [|done]); eauto using fresh_holds, warm_holds.
Qed.

Lemma others_kept c c' a s l : framed (λ a', a' ≠ a) (λ id, id ≠ ss_id s) c c' → heap c !! a = Some s →
  Forall (λ a, ∃ s, heap c !! a = Some s ∧ is_Some (held (world c) (ss_id s))) l → Some (ss_id s) ∉ ids c l →
  Forall (kept c c') l.
Proof.
  intros Hf Hs Hl Hid. rewrite Forall_forall in Hl |- *. intros a' Ha'. destruct (Hl a' Ha') as (s' & Hs' & _).
  eapply framed_kept; [exact Hf| |exact Hs'|].
  - cbn. intros ->. apply Hid, list_elem_of_fmap. exists a. by rewrite Hs.
  - cbn. intros E. apply Hid, list_elem_of_fmap. exists a'. rewrite Hs'. cbn. by rewrite E.
Qed.

Lemma ids_middle c pre a rest s : heap c !! a = Some s → NoDup (ids c (pre ++ a :: rest)) →
  NoDup (ids c (pre ++ rest)) ∧ Some (ss_id s) ∉ ids c (pre ++ rest).
Proof.
  intros Hs. rewrite !ids_app. cbn. rewrite Hs. cbn. rewrite <- Permutation_middle.
  intros [? ?]%NoDup_cons. done.
Qed.

Lemma ids_middle_kept c c' pre a rest s s' : heap c !! a = Some s → heap c' !! a = Some s' → ss_id s' = ss_id s →
  Forall (kept c c') (pre ++ rest) → ids c' (pre ++ a :: rest) = ids c (pre ++ a :: rest).
Proof.
  intros Hs Hs' Hid [HK1 HK2]%Forall_app. rewrite !ids_app, (ids_kept _ _ _ HK1). f_equal. cbn.
  rewrite Hs, Hs'. cbn. rewrite Hid. f_equal. by apply ids_kept.
Qed.

Lemma ahead_head c rest b a s : ahead c rest b → head rest = Some a → heap c !! a = Some s →
  start (ss_span s) = b ∧ (warm X (world c) s ∨ fresh Y (world c) s).
Proof.
  intros ([|a' news] & olds & m & -> & Hn & Ho) Ha Hs; cbn in Ha.
  - cbn in Hn. subst m. destruct olds as [|a' olds]; [done|]. injection Ha as ->. destruct Ho as (s' & Hs' & ? & _ & Hw & _).
    assert (s' = s) as -> by congruence. by split; [|left].
  - injection Ha as ->. destruct Hn as (s' & Hs' & ? & _ & Hw & _).
    assert (s' = s) as -> by congruence. by split; [|right].
Qed.

Lemma run_ready c pre a rest b inputs : ready c pre (a :: rest) b inputs →
  let (c', r) := run_session cfg a (zlen x) inputs c in
  position c' = position c ∧ closed c' = closed c ∧ (failures (world c') ≤ failures (world c))%nat ∧
  match r with
  | Ok (out, b') => b < b' ∧ ready c' (pre ++ [a]) rest b' out
  | Raise _ => broken c' pre a rest b inputs ∧ (failures (world c') < failures (world c))%nat
  end.
Proof.
  intros (Hss & Hnd & Hpre & Hah & Hin & Hu).
  assert (∃ s, heap c !! a = Some s ∧ start (ss_span s) = b ∧ b < end_ (ss_span s) ∧ ahead c rest (end_ (ss_span s)) ∧
    (ss_stepped s = true → seg c (warm X) rest (end_ (ss_span s)) N)) as (s & Hs & Hb & Hbe & Hrest & Hst).
  { destruct Hah as ([|a' news] & olds & m & E & Hn & Ho); cbn in E.
    - subst olds. cbn in Hn. subst m. destruct Ho as (s & Hs & Hb & He & Hw & Ho). exists s. do 3 (split; [done|]).
      split; [|done]. exists [], rest, (end_ (ss_span s)). done.
    - injection E as -> ->. destruct Hn as (s & Hs & Hb & He & Hw & Hn). exists s. do 3 (split; [done|]). split.
      + exists news, olds, m. done.
      + destruct Hw as (_ & ? & _). congruence. }
  pose proof (seg_le _ _ _ _ _ Hpre) as Hb0.
  pose proof (run_session_spec a inputs c s Hs (Hu _ _ eq_refl Hs) ltac:(lia)) as Hr.
  destruct (run_session cfg a (zlen x) inputs c) as [c' r]. destruct Hr as (Hf & s' & Hs' & Hsp & Hid & Hr).
  destruct (ids_middle _ _ _ _ _ Hs Hnd) as [_ Hnin].
  assert (Forall (kept c c') (pre ++ rest)) as HK.
  { eapply others_kept; [exact Hf|exact Hs| |exact Hnin]. apply Forall_app. split; [|by eapply ahead_opened].
    eapply seg_opened; [|exact Hpre]. eauto using warm_holds. }
  pose proof (ids_middle_kept _ _ _ _ _ _ _ Hs Hs' Hid HK) as Hids.
  apply Forall_app in HK as [HKp HKr].
  assert (seg c' (warm Y) pre 0 b) as Hpre' by (eapply seg_kept; [apply warm_stable|done|done]).
  split; [apply Hf|]. split; [apply Hf|]. split; [apply (fr_world _ _ _ _ Hf)|].
  destruct r as [[out b']|ex].
  - destruct Hr as (-> & Hw & Ho & Hfull). split; [lia|]. unfold ready. rewrite <- app_assoc. cbn [app].
    split; [by rewrite (fr_sessions _ _ _ _ Hf)|]. split; [by rewrite Hids|]. split.
    { apply seg_app. exists b. split; [done|]. exists s'. rewrite Hsp. done. }
    split; [by eapply ahead_kept|]. split; [done|]. intros a2 s2 Ha2 Hs2.
    pose proof (ahead_kept _ _ _ _ HKr Hrest) as Hrest'. destruct (ss_stepped s).
    + assert (seg c' (warm X) rest (end_ (ss_span s)) N) as Hseg by (eapply seg_kept; [apply warm_stable|done|by apply Hst]).
      destruct rest as [|a3 rest]; [done|]. injection Ha2 as ->. destruct Hseg as (s3 & Hs3 & Hb3 & _ & Hw3 & _).
      assert (s3 = s2) as -> by congruence. split; [by rewrite Hb3|by left].
    + destruct (ahead_head _ _ _ _ _ Hrest' Ha2 Hs2) as [Hb2 Hc]. split; [by rewrite Hb2|].
      destruct Hc as [?|?]; [by left|right]. split; [done|left]. rewrite Hb2. by apply Hfull.
  - destruct Hr as [Hh Hlt]. split; [|done]. split; [by rewrite (fr_sessions _ _ _ _ Hf)|]. split; [by rewrite Hids|].
    split; [done|]. split; [done|]. exists s'. rewrite Hsp. split; [done|]. split; [done|]. split; [done|].
    split; [by rewrite Hh, Hb|]. by eapply ahead_kept.
Qed.

Lemma broken_world c pre a rest b inputs w : world_le (λ _, True) (world c) w →
  broken c pre a rest b inputs → broken (set_world w c) pre a rest b inputs.
Proof.
  intros Hw (Hss & Hnd & Hpre & Hin & s & Hs & Hb & Hbe & Hh & Hah).
  assert (∀ l, Forall (λ a, ∃ s, heap c !! a = Some s ∧ is_Some (held (world c) (ss_id s))) l → Forall (kept c (set_world w c)) l) as HK.
  { intros l Hl. eapply Forall_impl; [exact Hl|]. intros a' (s' & Hs' & _). exists s', (ss_next s').
    split; [done|]. split; [cbn; rewrite Hs'; by destruct s'|]. by apply Hw. }
  split; [done|]. split; [done|]. split.
  { eapply seg_kept; [apply warm_stable| |exact Hpre]. eapply HK, seg_opened; [|exact Hpre]. eauto using warm_holds. }
  split; [done|]. exists s. do 4 (split; [done|]). eapply ahead_kept; [|exact Hah]. by eapply HK, ahead_opened.
Qed.

Lemma update_broken c pre a rest b inputs : broken c pre a rest b inputs →
  let (c', r) := update_sequence cfg (length pre) b c in
  position c' = position c ∧ closed c' = closed c ∧
  match r with
  | Ok _ => (∃ n rest', ready c' pre (n :: rest') b inputs) ∧ (failures (world c') ≤ failures (world c))%nat
  | Raise _ => broken c' pre a rest b inputs ∧ (failures (world c') < failures (world c))%nat
  end.
Proof.
  intros (Hss & Hnd & Hpre & Hin & s & Hs & <- & Hbe & Hh & Hah).
  destruct (ids_middle _ _ _ _ _ Hs Hnd) as [Hnd' Hnin].
  assert (opened c (pre ++ rest)) as Hop.
  { split; [done|]. apply Forall_app. split; [|by eapply ahead_opened]. eapply seg_opened; [|exact Hpre]. eauto using warm_holds. }
  assert (a ∉ pre ++ rest) as Ha.
  { intros Ha. apply Hnin, list_elem_of_fmap. exists a. by rewrite Hs. }
  pose proof (update_replace cfg c pre a rest s Y Hss Hs Hbe Hop Hnin Ha (or_intror Hh)) as Hu.
  destruct (update_sequence _ _ _ _) as [c' r]. destruct Hu as (Hp & Hc & HK & Hu). split; [done|]. split; [done|].
  pose proof HK as [HKp HKr]%Forall_app.
  assert (seg c' (warm Y) pre 0 (start (ss_span s))) as Hpre' by (eapply seg_kept; [apply warm_stable|done|done]).
  pose proof (ahead_kept _ _ _ _ HKr Hah) as Hah'.
  destruct r as [[]|ex].
  - destruct Hu as (n & news & sn & Hs3 & Hnd3 & Hseg & Hn & Hnh & Hfl). split; [|done]. exists n, (news ++ rest).
    split; [done|]. split; [done|]. split; [done|]. split; [|split; [done|]].
    + destruct Hah' as (news' & olds & m & -> & Hn' & Ho). exists ((n :: news) ++ news'), olds, m.
      split; [by rewrite <- app_assoc|]. split; [|done]. apply seg_app. eauto.
    + intros a' s' [= <-] Hs'. destruct Hseg as (sn' & Hn2 & Hb' & _ & Hf' & _).
      assert (sn' = s') as -> by congruence. assert (sn = s') as -> by congruence.
      split; [by rewrite Hb'|]. right. split; [done|]. right. by rewrite Hnh, Hb'.
  - destruct Hu as (Hs3 & (s' & Hs' & Hsp & Hid & Hh') & Hlt). split; [|done].
    split; [by rewrite Hs3|]. split; [by rewrite (ids_middle_kept _ _ _ _ _ _ _ Hs Hs' Hid HK)|].
    split; [done|]. split; [done|]. exists s'. rewrite Hsp, Hh'. do 4 (split; [done|]). done.
Qed.

Lemma ready_new c n rest : X = [] → server_sessions c = n :: rest → NoDup (ids c (n :: rest)) →
  seg c new (n :: rest) 0 N → ready c [] (n :: rest) 0 x.
Proof.
  intros HX Hs Hnd Hseg. assert (input_at X x 0 x) as Hin by (left; by rewrite forward_id, HX).
  assert (seg c (fresh Y) (n :: rest) 0 N) as Hseg'.
  { eapply seg_mono; [|exact Hseg]. intros s [Hn (? & ? & ? & _ & ?)]. repeat split; try done. by left. }
  split; [done|]. split; [done|]. split; [done|]. split; [|split; [done|]].
  - exists (n :: rest), [], N. by rewrite app_nil_r.
  - intros a s [= <-] Hsa. destruct Hseg' as (s' & Hs' & Hb & _ & Hf & _). assert (s' = s) as -> by congruence.
    split; [by rewrite Hb|]. right. split; [done|]. left. by rewrite Hb, forward_id, HX.
Qed.

Lemma choose_trying c k pre b inputs : 0 < N → trying c k pre b inputs →
  let (c', r) := choose_session cfg (length pre) k b c in
  position c' = position c ∧ closed c' = closed c ∧
  match r with
  | Ok a => (∃ rest, ready c' pre (a :: rest) b inputs) ∧ (failures (world c') ≤ failures (world c))%nat
  | Raise _ => trying c' (S k) pre b inputs ∧ (failures (world c') < failures (world c))%nat
  end.
Proof.
  intros HN Ht. unfold choose_session. rewrite get_bind.
  destruct Ht as [[-> (a & rest & Hr)]|[[Hk (a & rest & Hr)]|(Hs & -> & -> & HX & ->)]].
  - pose proof Hr as (Hs & _). rewrite Hs. replace (match pre ++ a :: rest with [] => true | _ => false end) with false by (by destruct pre).
    rewrite orb_false_l. change (1 <=? Z.of_nat 0) with false. rewrite (bind_ok _ _ c c tt) by done. rewrite get_bind, Hs.
    rewrite list_lookup_middle by done. cbn. split; [done|]. split; [done|]. eauto.
  - rewrite (proj2 (Z.leb_le 1 (Z.of_nat k))), orb_true_r by lia. pose proof (update_broken _ _ _ _ _ _ Hr) as Hu.
    destruct (update_sequence _ _ _ c) as [c' [[]|ex]] eqn:E; destruct Hu as (Hp & Hc & Hu).
    + rewrite (bind_ok _ _ _ _ _ E), get_bind. destruct Hu as [(n & rest' & Hu) Hfl]. pose proof Hu as (Hs & _).
      rewrite Hs, list_lookup_middle by done. cbn. eauto.
    + rewrite (bind_raise _ _ _ _ _ E). destruct Hu as [Hu Hlt]. split; [done|]. split; [done|]. split; [|done].
      right. left. split; [lia|]. eauto.
  - rewrite Hs. cbn [orb length]. pose proof (update_empty cfg c Hs HN) as Hu.
    destruct (update_sequence _ _ _ c) as [c' [[]|ex]] eqn:E; destruct Hu as (Hp & Hc & Hu).
    + rewrite (bind_ok _ _ _ _ _ E), get_bind. destruct Hu as (Hne & Hnd & Hseg & Hfl).
      destruct (server_sessions c') as [|n rest] eqn:Es; [done|]. cbn. split; [done|]. split; [done|]. split; [|done].
      exists rest. by apply ready_new.
    + rewrite (bind_raise _ _ _ _ _ E). destruct Hu as [Hu Hlt]. split; [done|]. split; [done|]. split; [|done].
      right. right. done.
Qed.

(** The attempts at one server end with its part of the chain done, unless the number of
    retries is bounded or the fuel is less than the failures to come. *)
Lemma attempts_spec fuel : ∀ k c pre b inputs, 0 < N → trying c k pre b inputs →
  let (c', r) := attempts cfg fuel k (length pre) b (zlen x) inputs c in
  position c' = position c ∧ closed c' = closed c ∧ (failures (world c') ≤ failures (world c))%nat ∧
  match r with
  | Ok (out, b') => b < b' ∧ ∃ a rest, ready c' (pre ++ [a]) rest b' out
  | Raise _ => max_retries cfg ≠ None ∨ (fuel ≤ failures (world c))%nat
  end.
Proof.
  induction fuel as [|fuel IH]; intros k c pre b inputs HN Ht; cbn [attempts].
  { cbn. repeat split; try done. right. lia. }
  assert (HR : ∀ o e c1, position c1 = position c → closed c1 = closed c → (failures (world c1) < failures (world c))%nat →
    (∀ w, world_le (λ _, True) (world c1) w → trying (set_world w c1) (S k) pre b inputs) →
    let (c', r) := (let c2 := set_world (sw_on_request_failure o (world c1)) c1 in
        if bool_decide (max_retries cfg = Some (Z.of_nat k + 1)) then (c2, Raise e)
        else attempts cfg fuel (S k) (length pre) b (zlen x) inputs c2) in
    position c' = position c ∧ closed c' = closed c ∧ (failures (world c') ≤ failures (world c))%nat ∧
    match r with
    | Ok (out, b') => b < b' ∧ ∃ a rest, ready c' (pre ++ [a]) rest b' out
    | Raise _ => max_retries cfg ≠ None ∨ (S fuel ≤ failures (world c))%nat
    end).
  { intros o e c1 Hp Hc Hlt Htr. cbn zeta. pose proof (failure_law o (world c1)) as Hw. pose proof Hw as [Hfl _].
    case_bool_decide as Hm.
    - cbn. split; [done|]. split; [done|]. split; [lia|]. left. by rewrite Hm.
    - specialize (IH (S k) _ pre b inputs HN (Htr _ Hw)).
      destruct (attempts _ _ _ _ _ _ _ _) as [c' r]. destruct IH as (Hp' & Hc' & Hfl' & IH). cbn in *.
      split; [congruence|]. split; [congruence|]. split; [lia|]. destruct r as [[out b']|ex]; [done|].
      destruct IH; [by left|right; lia]. }
  pose proof (choose_trying c k pre b inputs HN Ht) as Hch.
  destruct (choose_session cfg (length pre) k b c) as [c1 [a|e]]; destruct Hch as (Hp & Hc & Hch).
  - destruct Hch as [(rest & Hr) Hfl]. pose proof (run_ready _ _ _ _ _ _ Hr) as Hru.
    destruct (run_session cfg a (zlen x) inputs c1) as [c2 [[out b']|e]]; destruct Hru as (Hp2 & Hc2 & Hfl2 & Hru).
    + split; [congruence|]. split; [congruence|]. split; [lia|]. destruct Hru. eauto.
    + destruct Hru as [Hbr Hlt]. apply HR; [congruence|congruence|lia|].
      intros w Hw. right. left. split; [lia|]. exists a, rest. by apply broken_world.
  - destruct Hch as [Htr Hlt]. apply HR; [congruence|congruence|lia|].
    intros w Hw. destruct Htr as [[? _]|[[? (a & rest & Hbr)]|Hid]]; [done| |].
    + right. left. split; [lia|]. exists a, rest. by apply broken_world.
    + by right; right.
Qed.

Lemma run_blocks_spec retries fuel : ∀ c pre b inputs, 0 < N → (N - b ≤ Z.of_nat fuel) →
  (∃ rest, ready c pre rest b inputs) ∨ idle c pre b inputs →
  let (c', r) := run_blocks cfg fuel retries (length pre) b (zlen x) inputs c in
  position c' = position c ∧ closed c' = closed c ∧ (failures (world c') ≤ failures (world c))%nat ∧
  match r with
  | Ok out => input_at X x N out ∧ NoDup (ids c' (server_sessions c')) ∧ seg c' (warm Y) (server_sessions c') 0 N
  | Raise _ => max_retries cfg ≠ None ∨ (retries ≤ failures (world c))%nat
  end.
Proof.
  revert fuel. assert (Hend : ∀ c pre b inputs, N ≤ b → (∃ rest, ready c pre rest b inputs) ∨ idle c pre b inputs → 0 < N →
    input_at X x N inputs ∧ NoDup (ids c (server_sessions c)) ∧ seg c (warm Y) (server_sessions c) 0 N).
  { intros c pre b inputs Hb [(rest & Hs & Hnd & Hpre & Hah & Hin & _)|(_ & _ & -> & _)] HN; [|lia].
    destruct Hah as (news & olds & m & -> & Hn & Ho).
    pose proof (seg_le _ _ _ _ _ Hn). pose proof (seg_le _ _ _ _ _ Ho). assert (b = N ∧ m = N) as [-> ->] by lia.
    rewrite (seg_nil _ _ _ _ Hn), (seg_nil _ _ _ _ Ho), app_nil_r in *. rewrite Hs. done. }
  induction fuel as [|fuel IH]; intros c pre b inputs HN Hfu Hst; cbn [run_blocks].
  all: destruct (Z.ltb_spec b N) as [Hb|Hb]; [|cbn; eauto 10].
  { lia. }
  assert (trying c 0 pre b inputs) as Ht.
  { destruct Hst as [(rest & Hr)|Hid]; [|by right; right]. left. split; [done|].
    destruct rest as [|a rest]; [|eauto]. destruct Hr as (_ & _ & _ & (news & olds & m & E & Hn & Ho) & _).
    symmetry in E. apply app_nil in E as [-> ->]. cbn in *. lia. }
  pose proof (attempts_spec retries 0 c pre b inputs HN Ht) as Ha.
  destruct (attempts _ _ _ _ _ _ _ _) as [c1 [[out b']|e]] eqn:E; destruct Ha as (Hp & Hc & Hfl & Ha).
  - rewrite (bind_ok _ _ _ _ _ E). destruct Ha as (Hlt & a & rest & Hr).
    specialize (IH c1 (pre ++ [a]) b' out HN ltac:(lia) ltac:(left; eauto)).
    rewrite length_app in IH. cbn [length] in IH. rewrite Nat.add_1_r in IH.
    destruct (run_blocks _ _ _ _ _ _ _ _) as [c2 r]. destruct IH as (Hp2 & Hc2 & Hfl2 & IH).
    split; [congruence|]. split; [congruence|]. split; [lia|]. destruct r; [done|]. destruct IH; [by left|right; lia].
  - rewrite (bind_raise _ _ _ _ _ E). done.
Qed.

(** ** Steps *)

(** The session has run on [Z]: the chain of its servers covers all the blocks, and each
    server has the inputs of its blocks in its cache. *)
Definition session_ok (Z : list C) c : Prop :=
  position c = zlen Z ∧ closed c = false ∧
  ((Z = [] ∧ server_sessions c = []) ∨
   (NoDup (ids c (server_sessions c)) ∧ seg c (warm Z) (server_sessions c) 0 N)).

Lemma final_trim_spec inputs : input_at X x N inputs → final_trim (zlen x) inputs = Ok (drop (length X) (forward 0 N Y)).
Proof.
  assert (0 < zlen x) as Hx. { destruct x as [|y l]; [done|]. rewrite zlen_cons. pose proof (zlen_nonneg l). lia. }
  pose proof (zlen_nonneg X). intros [->| ->]; unfold final_trim; rewrite (proj2 (Z.ltb_lt 0 _)) by lia; cbn [andb].
  - rewrite zlen_forward, zlen_app. destruct (Z.ltb_spec (zlen x) (zlen X + zlen x)) as [Hl|Hl].
    + by rewrite last_cols_full.
    + destruct (Z.ltb_spec (zlen X + zlen x) (zlen x)); [lia|]. assert (length X = 0%nat) as -> by (unfold zlen in *; lia). done.
  - rewrite zlen_short, Z.ltb_irrefl. done.
Qed.

Lemma step_spec retries c : 0 < N → session_ok X c →
  let (c', r) := step cfg retries x c in
  if max_length cfg <? zlen X + zlen x then c' = c ∧ r = Raise ValueError
  else (failures (world c') ≤ failures (world c))%nat ∧
    match r with
    | Ok out => out = drop (length X) (forward 0 N Y) ∧ session_ok Y c'
    | Raise _ => max_retries cfg ≠ None ∨ (retries ≤ failures (world c))%nat
    end.
Proof.
  intros HN (Hp & Hc & Hs). unfold step. rewrite get_bind, Hc. cbn [negb guard_py].
  rewrite (bind_ok _ _ c c tt) by done. cbv zeta. rewrite Hp. destruct (_ <? _) eqn:El; [done|].
  assert ((∃ rest, ready c [] rest 0 x) ∨ idle c [] 0 x) as Hst.
  { destruct Hs as [[HX Hs]|[Hnd Hseg]]; [by right|left]. exists (server_sessions c).
    assert (input_at X x 0 x) as Hin by (right; by rewrite forward_id, drop_app_length).
    split; [done|]. split; [done|]. split; [done|]. split; [|split; [done|]].
    - exists [], (server_sessions c), 0. done.
    - intros a s Ha Hsa. destruct (server_sessions c) as [|a' l]; [done|]. injection Ha as ->.
      destruct Hseg as (s' & Hs' & Hb & _ & Hw & _). assert (s' = s) as -> by congruence.
      split; [by rewrite Hb|by left]. }
  pose proof (run_blocks_spec retries (Z.to_nat N) c [] 0 x HN ltac:(lia) Hst) as Hr. cbn [length] in Hr.
  destruct (run_blocks _ _ _ _ _ _ _ _) as [c1 [out|e]] eqn:E; destruct Hr as (Hp1 & Hc1 & Hfl & Hr).
  - rewrite (bind_ok _ _ _ _ _ E), modify_bind. destruct Hr as (Hin & Hnd & Hseg). unfold lift. rewrite final_trim_spec by done.
    cbn. split; [done|]. split; [done|]. split; [cbn; rewrite zlen_app; lia|]. split; [cbn; congruence|]. right.
    split; [done|]. by rewrite (seg_same c1).
  - rewrite (bind_raise _ _ _ _ _ E). done.
Qed.
End server.

(** ** A whole generation *)

(** The steps of a session, one chunk of columns after the other. *)
Fixpoint run_steps {W P C} `{Swarm W P C} (cfg : client_config) (retries : nat) (chunks : list (list C)) :
    M (client W P C) (list C) :=
  match chunks with
  | [] => mret []
  | x :: chunks' => o ← step cfg retries x; os ← run_steps cfg retries chunks'; mret (o ++ os)
  end.

Lemma run_steps_spec {W P C} `{SwarmLaws W P C} cfg retries chunks : ∀ (X : list C) (c : client W P C),
  push_only_downstream_decode cfg = false → 0 < num_blocks cfg → max_retries cfg = None →
  Forall (λ x, x ≠ []) chunks → (failures (world c) < retries)%nat → session_ok cfg X c →
  zlen X + zlen (concat chunks) ≤ max_length cfg →
  ∃ c', run_steps cfg retries chunks c = (c', Ok (drop (length X) (forward 0 (num_blocks cfg) (X ++ concat chunks)))) ∧
    session_ok cfg (X ++ concat chunks) c'.
Proof.
  induction chunks as [|x chunks IH]; intros X c Hpo HN Hmr Hne Hfl Hok Hlen; cbn [run_steps concat] in *.
  { exists c. rewrite app_nil_r. split; [|done]. by rewrite drop_ge by (by rewrite forward_length). }
  apply Forall_cons in Hne as [Hx Hne]. rewrite zlen_app in Hlen. pose proof (zlen_nonneg (concat chunks)).
  pose proof (step_spec cfg Hpo X x Hx retries c HN Hok) as Hs.
  rewrite (proj2 (Z.ltb_ge _ _)) in Hs by lia.
  destruct (step cfg retries x c) as [c1 [o|e]] eqn:E; destruct Hs as [Hfl1 Hs].
  2:{ destruct Hs; [done|lia]. }
  destruct Hs as [-> Hok1]. rewrite (bind_ok _ _ _ _ _ E).
  destruct (IH (X ++ x) c1 Hpo HN Hmr Hne ltac:(lia) Hok1) as (c2 & E2 & Hok2); [rewrite zlen_app; lia|].
  rewrite (bind_ok _ _ _ _ _ E2). exists c2. rewrite app_assoc. split; [|done]. cbn. f_equal. f_equal.
  assert (forward 0 (num_blocks cfg) (X ++ x) =
    take (length (X ++ x)) (forward 0 (num_blocks cfg) ((X ++ x) ++ concat chunks))) as ->
    by (by rewrite <- forward_take, take_app_length).
  set (F := forward _ _ _). rewrite <- (take_drop (length (X ++ x)) F) at 3.
  rewrite drop_app_le; [done|]. rewrite length_take. unfold F. rewrite forward_length, !length_app. lia.
Qed.

(** ** Properties *)

(** C18: One step of an inference session on a failing swarm. Suppose the session has run
    on the inputs [X]. A step on [x] that exceeds the maximal length is a ValueError and
    changes nothing. Otherwise, whatever servers fail during the step and are replaced by
    chains of other servers, the step returns what all the blocks compute of [X ++ x], for
    the columns of [x], and every server of the new chain has the inputs of its blocks in
    its cache; an exception is raised only if the number of retries is bounded, or after
    more failures than the fuel allows. *)
Theorem step_recovers {W P C} `{SwarmLaws W P C} cfg retries (X x : list C) (c : client W P C) :
  push_only_downstream_decode cfg = false → 0 < num_blocks cfg → x ≠ [] → session_ok cfg X c →
  let (c', r) := step cfg retries x c in
  if max_length cfg <? zlen X + zlen x then c' = c ∧ r = Raise ValueError
  else (failures (world c') ≤ failures (world c))%nat ∧
    match r with
    | Ok out => out = drop (length X) (forward 0 (num_blocks cfg) (X ++ x)) ∧ session_ok cfg (X ++ x) c'
    | Raise _ => max_retries cfg ≠ None ∨ (retries ≤ failures (world c))%nat
    end.
Proof. intros Hp HN Hx Hs. by apply step_spec. Qed.

(** C19: A whole generation. With unbounded retries and a swarm that fails finitely often,
    the steps of a new session on any sequence of non-empty chunks within the maximal
    length all return, and what they return is together what one pass of all the blocks
    over the whole input computes. *)
Theorem generation_completes {W P C} `{SwarmLaws W P C} cfg retries (chunks : list (list C)) (w : W) :
  push_only_downstream_decode cfg = false → 0 < num_blocks cfg → max_retries cfg = None →
  Forall (λ x, x ≠ []) chunks → (failures w < retries)%nat → zlen (concat chunks) ≤ max_length cfg →
  ∃ c', run_steps cfg retries chunks (new_client w : client W P C) = (c', Ok (forward 0 (num_blocks cfg) (concat chunks))) ∧
    session_ok cfg (concat chunks) c'.
Proof.
  intros Hp HN Hm Hc Hf Hl. apply (run_steps_spec cfg retries chunks [] (new_client w)); try done.
  split; [done|]. split; [done|]. by left.
Qed.

(** ** A swarm that fails *)

(** Each block replaces a column by the sum of the columns up to it. The calls follow a
    script: [true] is a failure. A route of more than one block is split after its first. *)
Fixpoint ex_sums (acc : Z) (l : list Z) : list Z :=
  match l with [] => [] | x :: l' => (acc + x) :: ex_sums (acc + x) l' end.
Definition ex_run (b e : Z) (l : list Z) : list Z := Nat.iter (Z.to_nat (e - b)) (ex_sums 0) l.

Record ex_world := mkExWorld { script : list bool; next_id : Z; caches : gmap Z (Z * Z * list Z) }.
Definition ex_set_caches (f : gmap Z (Z * Z * list Z) → gmap Z (Z * Z * list Z)) (w : ex_world) : ex_world :=
  mkExWorld (script w) (next_id w) (f (caches w)).
Definition ex_held (w : ex_world) (id : Z) : option (Z * Z * list Z) :=
  if id <? next_id w then caches w !! id else None.

Definition ex_flaky {A} (m : M ex_world A) (on_error : ex_world → ex_world) : M ex_world A := λ w,
  match script w with
  | true :: l => (on_error (mkExWorld l (next_id w) (caches w)), Raise RuntimeError)
  | l => m (mkExWorld (tail l) (next_id w) (caches w))
  end.
Definition ex_create (sp : RemoteSpanInfo Z) : M ex_world Z := λ w,
  (mkExWorld (script w) (next_id w + 1) (<[next_id w := (start sp, end_ sp, [])]> (caches w)), Ok (next_id w)).
Definition ex_serve (rq : request Z Z) : M ex_world (option (list Z)) := λ w,
  match ex_held w (rq_session rq) with
  | Some (b, e, xs) =>
      let k := Z.to_nat (rq_start_from_position rq) in
      let ys := take k xs ++ rq_inputs rq in
      (ex_set_caches <[rq_session rq := (b, e, ys)]> w, Ok (Some (drop k (ex_run b e ys))))
  | None => (w, Ok (Some []))
  end.
Definition ex_route (b e : Z) : list (RemoteSpanInfo Z) :=
  let sp b e := mkSpan b b e (ex_info ONLINE None float_one) in
  if b + 1 <? e then [sp b (b + 1); sp (b + 1) (e + 1)] else [sp b e].

#[export] Instance ex_swarm : Swarm ex_world Z Z := {
  sw_create sp := ex_flaky (ex_create sp) id;
  sw_step rq := ex_flaky (ex_serve rq) (ex_set_caches (delete (rq_session rq)));
  sw_await_pushed id w := (w, Raise RuntimeError);
  sw_close id _ w := (ex_set_caches (delete id) w, Ok tt);
  sw_make_sequence b e := ex_flaky (mret (ex_route b e)) id;
  sw_on_request_failure _ w := w;
  sw_on_request_success _ w := w;
}.
#[export] Instance ex_model : SwarmModel ex_world Z := {
  forward := ex_run;
  held := ex_held;
  failures w := length (List.filter (λ b, b) (script w));
}.

Lemma ex_sums_length acc l : length (ex_sums acc l) = length l.
Proof. revert acc. induction l as [|x l IH]; intros acc; [done|]. cbn. by rewrite IH. Qed.

Lemma ex_sums_take acc n l : ex_sums acc (take n l) = take n (ex_sums acc l).
Proof. revert acc n. induction l as [|x l IH]; intros acc [|n]; [done..|]. cbn. by rewrite IH. Qed.

Lemma ex_flaky_spec {A} (m : M ex_world A) on_error w (I : Z → Prop) (Q : ex_world → A → Prop) :
  (∀ w, script (on_error w) = script w ∧ world_le I w (on_error w)) →
  (∀ w', (∀ id, ex_held w' id = ex_held w id) →
    let (w2, r) := m w' in world_le I w' w2 ∧ match r with Ok a => Q w2 a | Raise _ => False end) →
  let (w', r) := ex_flaky m on_error w in
  world_le I w w' ∧ match r with Ok a => Q w' a | Raise _ => (failures w' < failures w)%nat end.
Proof.
  intros He Hm. unfold ex_flaky. destruct w as [[|[] l] n c]; cbn [script next_id caches tail].
  - specialize (Hm (mkExWorld [] n c) ltac:(done)). destruct (m _) as [w2 [a|e]]; [exact Hm|by destruct Hm].
  - destruct (He (mkExWorld l n c)) as [Hs [Hf Hx]]. cbn in Hf, Hx, Hs |- *. rewrite Hs in *. cbn. split; [split|].
    + cbn. rewrite Hs. lia.
    + done.
    + lia.
  - specialize (Hm (mkExWorld l n c) ltac:(done)). destruct (m _) as [w2 [a|e]]; [exact Hm|by destruct Hm].
Qed.

#[export] Instance ex_laws : SwarmLaws ex_world Z Z.
Proof.
  split.
  - intros b e xs. unfold forward, ex_model, ex_run.
    induction (Z.to_nat _) as [|n IH]; [done|]. by rewrite Nat.iter_succ, ex_sums_length.
  - intros b e n xs. unfold forward, ex_model, ex_run.
    induction (Z.to_nat _) as [|k IH]; [done|]. by rewrite !Nat.iter_succ, IH, ex_sums_take.
  - intros b xs. unfold forward, ex_model, ex_run. by rewrite Z.sub_diag.
  - intros b m e xs Hm. unfold forward, ex_model, ex_run. replace (Z.to_nat (e - b)) with (Z.to_nat (e - m) + Z.to_nat (m - b))%nat by lia.
    by rewrite Nat.iter_add.
  - intros sp w. 
    pose proof (ex_flaky_spec (ex_create sp) id w (λ _, True) (λ w' id, ex_held w id = None ∧ ex_held w' id = Some (start sp, end_ sp, []))) as Hs.
    cbn [sw_create ex_swarm]. apply Hs; clear Hs.
    + intros w'. split; [done|apply world_le_refl].
    + intros w' Hw. unfold ex_create. split; [split; [done|]|split].
      * intros id _ b e xs. unfold held, ex_model, ex_held. cbn. destruct (Z.ltb_spec id (next_id w')); [|done].
        rewrite (proj2 (Z.ltb_lt _ _)), lookup_insert_ne by lia. intros ->. exists []. by rewrite app_nil_r.
      * rewrite <- Hw. unfold ex_held. by rewrite Z.ltb_irrefl.
      * unfold ex_held. cbn. by rewrite (proj2 (Z.ltb_lt _ _)), lookup_insert_eq by lia.
  - intros rq w.
    pose proof (ex_flaky_spec (ex_serve rq) (ex_set_caches (delete (rq_session rq))) w (λ id, id ≠ rq_session rq)
      (λ w' o, ∃ out, o = Some out ∧ ∀ b e xs, ex_held w (rq_session rq) = Some (b, e, xs) →
        let k := Z.to_nat (rq_start_from_position rq) in
        ex_held w' (rq_session rq) = Some (b, e, take k xs ++ rq_inputs rq) ∧
        out = drop k (ex_run b e (take k xs ++ rq_inputs rq)))) as Hs.
    cbn [sw_step ex_swarm]. destruct (ex_flaky _ _ w) as [w2 r]. destruct Hs as [Hw Hr].
    + intros w'. split; [done|]. split; [done|]. intros id Hid b e xs. cbn. unfold ex_held. cbn.
      destruct (id <? next_id w'); [|done]. rewrite lookup_delete_ne by done. intros ->. exists []. by rewrite app_nil_r.
    + intros w' Hw. unfold ex_serve. rewrite Hw. destruct (ex_held w (rq_session rq)) as [[[b e] xs]|] eqn:E.
      * split; [split; [done|]|].
        -- intros id Hid b' e' xs'. cbn. unfold ex_held. cbn. destruct (id <? next_id w'); [|done].
           rewrite lookup_insert_ne by done. intros ->. exists []. by rewrite app_nil_r.
        -- eexists. split; [reflexivity|]. intros ? ? ? [= <- <- <-]. split; [|done].
           rewrite <- Hw in E. unfold ex_held in *. cbn. destruct (_ <? _); [|done]. by rewrite lookup_insert_eq.
      * split; [apply world_le_refl|]. eexists. split; [reflexivity|]. done.
    + split; [done|]. destruct r as [[out|]|e]; [|by destruct Hr as (? & ? & _)|done].
      destruct Hr as (? & [= <-] & Hr). intros b e xs Hh _ _. by apply Hr.
  - intros id st w. split; [done|]. intros id' Hid b e xs. cbn. unfold ex_held. cbn. destruct (id' <? next_id w); [|done].
    rewrite lookup_delete_ne by done. intros ->. exists []. by rewrite app_nil_r.
  - intros b e w.
    pose proof (ex_flaky_spec (mret (ex_route b e)) id w (λ _, True) (λ _ l, l = ex_route b e)) as Hs.
    cbn [sw_make_sequence ex_swarm]. destruct (ex_flaky _ _ w) as [w2 r]. destruct Hs as [Hw Hr].
    + intros w'. split; [done|apply world_le_refl].
    + intros w' _. cbn. split; [apply world_le_refl|done].
    + split; [done|]. destruct r as [l|ex]; [|done]. subst l. intros Hbe. unfold ex_route. destruct (Z.ltb_spec (b + 1) e).
      * eexists [_], _. split; [reflexivity|]. cbn. lia.
      * eexists [], _. split; [reflexivity|]. cbn. lia.
  - intros o w. apply world_le_refl.
  - intros p w. apply world_le_refl.
Qed.

Definition ex_session_cfg : client_config := mkConfig 3 10 None true false.
Definition ex_start : ex_world := mkExWorld [true; false; false; false; true; false; true; false; false; true; true] 0 ∅.

(** Three blocks and five failures: the steps return, and the sums of the sums of the sums come out. *)
Example ex_generation : (run_steps ex_session_cfg 6 [[1; 2]; [3]; [4; 5]] (new_client ex_start)).2 =
  Ok (ex_run 0 3 [1; 2; 3; 4; 5]).
Proof. vm_compute. reflexivity. Qed.

Lemma generation_completes_witness : ∃ c', 
  run_steps ex_session_cfg 6 [[1; 2]; [3]; [4; 5]] (new_client ex_start) = (c', Ok (ex_run 0 3 [1; 2; 3; 4; 5])).
Proof.
  destruct (generation_completes (P := Z) ex_session_cfg 6 [[1; 2]; [3]; [4; 5]] ex_start) as (c' & E & _);
    [reflexivity|reflexivity|reflexivity|repeat (constructor; [discriminate|]); constructor|vm_compute; lia|vm_compute; discriminate|].
  exists c'. exact E.
Defined.

Lemma step_recovers_witness :
  session_ok ex_session_cfg [] (new_client (P := Z) ex_start) ∧
  (step ex_session_cfg 6 [1; 2] (new_client (P := Z) ex_start)).2 = Ok [1; 5].
Proof.
  assert (session_ok ex_session_cfg [] (new_client (P := Z) ex_start)) as Hok by (split; [done|split; [done|by left]]).
  split; [exact Hok|].
  pose proof (step_recovers (P := Z) ex_session_cfg 6 [] [1; 2] _ eq_refl eq_refl ltac:(discriminate) Hok) as Hs.
  destruct (step _ _ _ _) as [c' [out|e]]; cbn in Hs; destruct Hs as [_ Hs].
  - destruct Hs as [-> _]. reflexivity.
  - exfalso. destruct Hs as [Hs|Hs]; [by apply Hs|lia].
Defined.
