(* ===== verification/Handlers.v ===== *)
(** * Sessions across connection handlers (server/handler.py)

    A server runs several handler processes. An inference session lives in one of them;
    the others learn of it through event queues, one per process, and forward the pushes
    they receive. The operations are methods on the handlers and their queues; the
    processes interleave in a step relation. An event queue is a multiprocessing queue:
    it is bounded, it keeps the order of the events of each producer, and the consumer
    may see those of different producers in any order. *)

From stdpp Require Import numbers base gmap sets strings list.
From Stdlib Require Import ZArith Lia.
From S2P Require Import Prelude.

(** ** State *)

(** [Event] and its payload. *)
Inductive event (R : Type) :=
| NEW_SESSION (session_id : string) (handler_index : nat)
| END_SESSION (session_id : string) (handler_index : nat)
| PUSH (session_id : string) (request : R)
| SHUTDOWN.
Arguments NEW_SESSION {R} _ _.
Arguments END_SESSION {R} _ _.
Arguments PUSH {R} _ _.
Arguments SHUTDOWN {R}.

(** The session state of [TransformerConnectionHandler]. *)
Record handler (R : Type) := mkHandler {
  session_queues : gmap string (list R);
  session_handlers : gmap string nat;
  listening : bool;
}.
Arguments mkHandler {R} _ _ _.
Arguments session_queues {R} _.
Arguments session_handlers {R} _.
Arguments listening {R} _.

(** All the handlers, and the event queue of each with the producer of each event. *)
Record cluster (R : Type) := mkCluster {
  handlers : list (handler R);
  event_queues : list (list (nat * event R));
}.
Arguments mkCluster {R} _ _.
Arguments handlers {R} _.
Arguments event_queues {R} _.

(** [max_queue_size] of server/server.py *)
Definition max_queue_size : nat := 500.

Section ops.
Context {R : Type}.
Implicit Types (c : cluster R) (h : handler R) (s : string) (i j k : nat) (r : R).

Definition set_queues q h : handler R := mkHandler q (session_handlers h) (listening h).
Definition set_table t h : handler R := mkHandler (session_queues h) t (listening h).
Definition set_listening b h : handler R := mkHandler (session_queues h) (session_handlers h) b.

Definition update_handler i (f : handler R → handler R) : M (cluster R) unit :=
  modify (λ c, mkCluster (alter f i (handlers c)) (event_queues c)).
Definition get_handler i : M (cluster R) (handler R) :=
  c ← get; lift (of_option IndexError (handlers c !! i)).

(** [self._handler_event_queues[k].put_nowait(ev)] by handler [i] *)
Definition put_event i k (ev : event R) : M (cluster R) unit :=
  c ← get;
  q ← lift (of_option IndexError (event_queues c !! k));
  guard_py (bool_decide (length q < max_queue_size)%nat) QueueFull;;
  modify (λ c, mkCluster (handlers c) (alter (λ q, q ++ [(i, ev)]) k (event_queues c))).

(** The loops over the other handlers' queues. *)
Fixpoint broadcast_from i (ev : event R) (ks : list nat) : M (cluster R) unit :=
  match ks with
  | [] => mret tt
  | k :: ks => (if bool_decide (k = i) then mret tt else put_event i k ev);; broadcast_from i ev ks
  end.
Definition broadcast i (ev : event R) : M (cluster R) unit :=
  c ← get; broadcast_from i ev (seq 0 (length (event_queues c))).

(** The [finally] block of [_managed_session]. The sentinel put on the popped queue is
    seen by nobody but the cancelled reader. *)
Definition leave_session i s : M (cluster R) unit :=
  h ← get_handler i;
  lift (of_option KeyError (session_queues h !! s));;
  update_handler i (λ h, set_queues (delete s (session_queues h)) h);;
  h ← get_handler i;
  lift (of_option KeyError (session_handlers h !! s));;
  update_handler i (λ h, set_table (delete s (session_handlers h)) h);;
  broadcast i (END_SESSION s i).

(** The [try] block up to the [yield]. *)
Definition announce_session i s : M (cluster R) unit :=
  update_handler i (λ h, set_queues (<[s := []]> (session_queues h)) h);;
  update_handler i (λ h, set_table (<[s := i]> (session_handlers h)) h);;
  broadcast i (NEW_SESSION s i).

(** [try: m finally: f], up to the end of [m]: when [m] raises, [f] runs, and its own
    exception takes the place of the first. *)
Definition try_finally {A} (m : M (cluster R) A) (f : M (cluster R) unit) : M (cluster R) A := λ c,
  match m c with
  | (c', Ok a) => (c', Ok a)
  | (c', Raise e) => (f;; mthrow e) c'
  end.

(** [_managed_session], up to the [yield] *)
Definition enter_session i s : M (cluster R) unit :=
  h ← get_handler i;
  guard_py (bool_decide (session_queues h !! s = None)) AssertionError;;
  try_finally (announce_session i s) (leave_session i s).

(** [_put_into_session_queue]; [false] when the push is ignored. *)
Definition put_into_session_queue i s r : M (cluster R) bool :=
  h ← get_handler i;
  match session_handlers h !! s with
  | None => mret false
  | Some k =>
      if bool_decide (k = i) then
        lift (of_option KeyError (session_queues h !! s));;
        update_handler i (λ h, set_queues (alter (λ q, q ++ [r]) s (session_queues h)) h);;
        mret true
      else put_event i k (PUSH s r);; mret true
  end.

(** [_get_from_session_queue]; [None] while the reader waits. *)
Definition get_from_session_queue i s : M (cluster R) (option R) :=
  h ← get_handler i;
  owner ← lift (of_option KeyError (session_handlers h !! s));
  guard_py (bool_decide (owner = i)) AssertionError;;
  q ← lift (of_option KeyError (session_queues h !! s));
  match q with
  | [] => mret None
  | r :: q' =>
      update_handler i (λ h, set_queues (<[s := q']> (session_queues h)) h);;
      mret (Some r)
  end.

(** One event of [_listen_to_event_queue]. *)
Definition handle_event (ev : event R) h : handler R :=
  match ev with
  | SHUTDOWN => set_listening false h
  | NEW_SESSION s payload => set_table (<[s := payload]> (session_handlers h)) h
  | END_SESSION s _ => set_table (delete s (session_handlers h)) h
  | PUSH s r => set_queues (alter (λ q, q ++ [r]) s (session_queues h)) h
  end.

(** The first event of producer [k] that waits in a queue, and the rest. *)
Fixpoint take_event k (q : list (nat * event R)) : option (event R * list (nat * event R)) :=
  match q with
  | [] => None
  | (k', ev) :: q' =>
      if bool_decide (k' = k) then Some (ev, q')
      else match take_event k q' with
           | Some (ev', q'') => Some (ev', (k', ev) :: q'')
           | None => None
           end
  end.

(** An iteration of the loop of [_listen_to_event_queue] that finds an event of producer [k]. *)
Definition listen i k c : option (cluster R) :=
  match handlers c !! i, event_queues c !! i with
  | Some h, Some q =>
      if listening h then
        match take_event k q with
        | Some (ev, q') => Some (mkCluster (<[i := handle_event ev h]> (handlers c)) (<[i := q']> (event_queues c)))
        | None => None
        end
      else None
  | _, _ => None
  end.

Definition new_handler : handler R := mkHandler ∅ ∅ true.
Definition new_cluster (num_handlers : nat) : cluster R :=
  mkCluster (replicate num_handlers new_handler) (replicate num_handlers []).
End ops.

(** ** Interleavings *)

Section steps.
Context {R : Type}.
#[local] Abbreviation Req := (nat * R)%type (only parsing).

(** What happened: a push that handler [i] received and did not ignore, a request a
    session's reader took. *)
Inductive label := LSent (i : nat) (s : string) (r : Req) | LGot (i : nat) (s : string) (r : Req).

(** A global state: the cluster, the handler each session id was used in, what happened. *)
Record gstate := mkG { clus : cluster Req; owner : gmap string nat; log : list label }.

(** A request is stamped with the handler that receives it. Session ids are fresh: a
    client draws them with [uuid4]. The exceptions an operation raises go to its caller;
    the cluster keeps what was done before. *)
Inductive gstep : gstate → gstate → Prop :=
| step_enter c o l i s c' e : (i < length (handlers c))%nat → o !! s = None →
    enter_session i s c = (c', e) →
    gstep (mkG c o l) (mkG c' (<[s := i]> o) l)
| step_leave c o l i s h c' e : handlers c !! i = Some h → is_Some (session_queues h !! s) →
    leave_session i s c = (c', e) →
    gstep (mkG c o l) (mkG c' o l)
| step_push c o l i s r c' e : (i < length (handlers c))%nat → put_into_session_queue i s (i, r) c = (c', e) →
    gstep (mkG c o l) (mkG c' o (if e is Ok true then l ++ [LSent i s (i, r)] else l))
| step_get c o l i s c' e : get_from_session_queue i s c = (c', e) →
    gstep (mkG c o l) (mkG c' o (if e is Ok (Some r) then l ++ [LGot i s r] else l))
| step_listen c o l i k c' : listen i k c = Some c' →
    gstep (mkG c o l) (mkG c' o l)
| step_shutdown c o l i q : event_queues c !! i = Some q → (length q < max_queue_size)%nat →
    gstep (mkG c o l)
      (mkG (mkCluster (handlers c) (<[i := q ++ [(length (handlers c), SHUTDOWN)]]> (event_queues c))) o l).

Definition ginit (n : nat) : gstate := mkG (new_cluster n) ∅ [].
Definition reachable (n : nat) (g : gstate) : Prop := rtc gstep (ginit n) g.
End steps.

(** ** Views of a state *)

Section views.
Context {R : Type}.
#[local] Abbreviation Req := (nat * R)%type (only parsing).
Implicit Types (evs : list (event Req)) (l : list (@label R)) (rs : list Req).

(** The events of producer [k] in a queue, oldest first. *)
Definition events_of {A} (k : nat) (q : list (nat * event A)) : list (event A) :=
  omap (λ p, if bool_decide (p.1 = k) then Some p.2 else None) q.

(** What a table says of session [s] once the events are handled. *)
Definition drain_event {A} (s : string) (o : option nat) (ev : event A) : option nat :=
  match ev with
  | NEW_SESSION t k => if bool_decide (t = s) then Some k else o
  | END_SESSION t _ => if bool_decide (t = s) then None else o
  | _ => o
  end.
Definition drain {A} (s : string) (o : option nat) (evs : list (event A)) : option nat :=
  foldl (drain_event s) o evs.

Definition pushes (s : string) evs : list Req :=
  omap (λ ev, match ev with PUSH t r => if bool_decide (t = s) then Some r else None | _ => None end) evs.

(** The requests of a list that handler [k] received. *)
Definition from (k : nat) rs : list Req := filter (λ r, r.1 = k) rs.

(** The pushes for session [s] that handler [k] accepted, and those its reader took. *)
Definition sent (k : nat) (s : string) l : list Req :=
  omap (λ a, match a with
    | LSent k' t r => if bool_decide (k' = k ∧ t = s) then Some r else None
    | _ => None end) l.
Definition got (s : string) l : list Req :=
  omap (λ a, match a with LGot _ t r => if bool_decide (t = s) then Some r else None | _ => None end) l.

Definition label_session (a : @label R) : string := match a with LSent _ s _ | LGot _ s _ => s end.

Lemma events_of_app {A} k (q1 q2 : list (nat * event A)) : events_of k (q1 ++ q2) = events_of k q1 ++ events_of k q2.
Proof. apply omap_app. Qed.
Lemma drain_queue_app {A} s o (e1 e2 : list (event A)) : drain s o (e1 ++ e2) = drain s (drain s o e1) e2.
Proof. apply foldl_app. Qed.
Lemma pushes_app s e1 e2 : pushes s (e1 ++ e2) = pushes s e1 ++ pushes s e2.
Proof. apply omap_app. Qed.
Lemma from_app k rs1 rs2 : from k (rs1 ++ rs2) = from k rs1 ++ from k rs2.
Proof. apply filter_app. Qed.
Lemma sent_app k s l1 l2 : sent k s (l1 ++ l2) = sent k s l1 ++ sent k s l2.
Proof. apply omap_app. Qed.
Lemma got_app s l1 l2 : got s (l1 ++ l2) = got s l1 ++ got s l2.
Proof. apply omap_app. Qed.

Lemma elem_of_events_of {A} k (ev : event A) q : ev ∈ events_of k q ↔ (k, ev) ∈ q.
Proof.
  unfold events_of. rewrite list_elem_of_omap. split.
  - intros ([k' ev'] & Hin & E). cbn in E. case_bool_decide; simplify_eq. done.
  - intros Hin. exists (k, ev). split; [done|]. cbn. by rewrite bool_decide_true.
Qed.

(** An event about another session changes nothing of [s]. *)
Definition about {A} (ev : event A) : option string :=
  match ev with NEW_SESSION t _ | END_SESSION t _ | PUSH t _ => Some t | SHUTDOWN => None end.

Lemma drain_other {A} s o (evs : list (event A)) : (∀ ev, ev ∈ evs → about ev ≠ Some s) → drain s o evs = o.
Proof.
  revert o. induction evs as [|ev evs IH]; intros o Ha; [done|].
  change (drain s (drain_event s o ev) evs = o). rewrite IH by (intros ev' Hev'; apply Ha; by right).
  specialize (Ha ev ltac:(by left)). destruct ev; cbn in *; try done; case_bool_decide; naive_solver.
Qed.

Lemma pushes_other s evs : (∀ ev, ev ∈ evs → about ev ≠ Some s) → pushes s evs = [].
Proof.
  induction evs as [|ev evs IH]; intros Ha; [done|].
  unfold pushes. cbn [omap list_omap]. fold (pushes s evs).
  rewrite IH by (intros ev' Hev'; apply Ha; by right).
  specialize (Ha ev ltac:(by left)). destruct ev; cbn in *; try done. case_bool_decide; naive_solver.
Qed.

Lemma sent_other k s l : (∀ a, a ∈ l → label_session a ≠ s) → sent k s l = [].
Proof.
  induction l as [|a l IH]; intros Ha; [done|].
  unfold sent. cbn [omap list_omap]. fold (sent k s l).
  rewrite IH by (intros a' Hin; apply Ha; by right).
  specialize (Ha a ltac:(by left)). destruct a; cbn in *; try done. case_bool_decide; naive_solver.
Qed.

Lemma got_other s l : (∀ a, a ∈ l → label_session a ≠ s) → got s l = [].
Proof.
  induction l as [|a l IH]; intros Ha; [done|].
  unfold got. cbn [omap list_omap]. fold (got s l).
  rewrite IH by (intros a' Hin; apply Ha; by right).
  specialize (Ha a ltac:(by left)). destruct a; cbn in *; try done. case_bool_decide; naive_solver.
Qed.

(** Taking the first event of a producer. *)
Lemma take_event_Some {A} k (q q' : list (nat * event A)) ev : take_event k q = Some (ev, q') →
  events_of k q = ev :: events_of k q' ∧ (∀ k', k' ≠ k → events_of k' q = events_of k' q') ∧
  (∀ p, p ∈ q' → p ∈ q) ∧ (k, ev) ∈ q.
Proof.
  revert q'. induction q as [|[k1 ev1] q IH]; intros q'; [done|]. cbn [take_event].
  case_bool_decide as Hk.
  - intros [= -> ->]. subst k1. unfold events_of. cbn. rewrite bool_decide_true by done.
    repeat split; [|intros; by right|by left].
    intros k' Hk'. by rewrite bool_decide_false by congruence.
  - destruct (take_event k q) as [[ev' q'']|] eqn:Ht; [|done]. intros [= -> <-].
    destruct (IH q'' eq_refl) as (IH1 & IH2 & IH3 & IH4). unfold events_of in *. cbn. repeat split.
    + by rewrite bool_decide_false by done.
    + intros k' Hk'. rewrite (IH2 k' Hk'). done.
    + intros p [->|Hp]%elem_of_cons; [by left|right; by apply IH3].
    + by right.
Qed.
End views.

(** ** What each operation does *)

Section op_specs.
Context {A : Type}.
Implicit Types (c : cluster A) (h : handler A) (s : string) (i j k : nat).

(** [c'] is [c] with events of [P] put at the end of the queues. *)
Definition queues_grow (P : nat → list (nat * event A) → Prop) c c' : Prop :=
  length (event_queues c') = length (event_queues c) ∧
  ∀ k q, event_queues c !! k = Some q → ∃ ex, event_queues c' !! k = Some (q ++ ex) ∧ P k ex.

(** What handler [i]'s broadcast of [ev] adds to the queue of [k]; [done] when the loop ended. *)
Definition told i (ev : event A) (ks : list nat) (complete : bool) k (ex : list (nat * event A)) : Prop :=
  (ex = [] ∨ k ≠ i ∧ k ∈ ks ∧ ex = [(i, ev)]) ∧ (complete = true → k ≠ i → k ∈ ks → ex = [(i, ev)]).

Lemma put_event_spec i k ev c c' e : put_event i k ev c = (c', e) →
  handlers c' = handlers c ∧ queues_grow (λ j ex, ex = if bool_decide (j = k) && is_ok e then [(i, ev)] else []) c c' ∧
  (k < length (event_queues c) → e = Ok tt ∨ e = Raise QueueFull)%nat.
Proof.
  assert (Hsame : queues_grow (λ j ex, ex = []) c c) by (split; [done|intros j q Hq; exists []; by rewrite app_nil_r]).
  assert (Hno : queues_grow (λ j ex, ex = if bool_decide (j = k) && false then [(i, ev)] else []) c c).
  { destruct Hsame as [H1 H2]. split; [done|]. intros j q Hj. destruct (H2 j q Hj) as (ex & ? & ->).
    exists []. split; [done|]. by rewrite andb_false_r. }
  unfold put_event. rewrite get_bind. destruct (event_queues c !! k) as [q|] eqn:Hk; cbn [of_option].
  - rewrite lift_ok_bind. unfold guard_py. case_bool_decide as Hfull.
    + intros [= <- <-]. split; [done|]. split; [|by left]. split; [apply length_alter|].
      intros j q' Hj. cbn [event_queues is_ok]. rewrite andb_true_r.
      destruct (decide (j = k)) as [->|Hne].
      * exists [(i, ev)]. rewrite list_lookup_alter_eq, Hk. simplify_eq. by rewrite bool_decide_true.
      * exists []. rewrite list_lookup_alter_ne, app_nil_r by done. by rewrite bool_decide_false.
    + intros [= <- <-]. split; [done|]. split; [done|by right].
  - intros [= <- <-]. split; [done|]. split; [done|]. intros Hlt. apply lookup_ge_None in Hk. lia.
Qed.

Lemma broadcast_from_spec i ev ks c c' e : NoDup ks → (∀ k, k ∈ ks → (k < length (event_queues c))%nat) →
  broadcast_from i ev ks c = (c', e) →
  handlers c' = handlers c ∧ queues_grow (told i ev ks (is_ok e)) c c' ∧ (e = Ok tt ∨ e = Raise QueueFull).
Proof.
  revert c. induction ks as [|k ks IH]; intros c Hnd Hlt.
  { intros [= <- <-]. split; [done|]. split; [|auto]. split; [done|]. intros j q Hq.
    exists []. rewrite app_nil_r. split; [done|]. split; [by left|]. intros _ _ Hin. by apply not_elem_of_nil in Hin. }
  apply NoDup_cons in Hnd as [Hk Hnd]. cbn [broadcast_from].
  destruct (decide (k = i)) as [->|Hki].
  - rewrite (bool_decide_true (i = i)) by done. intros E. change (broadcast_from i ev ks c = (c', e)) in E.
    destruct (IH c Hnd ltac:(intros; apply Hlt; by right) E) as (Hh & [Hl Hq] & He). split; [done|]. split; [|done].
    split; [done|]. intros j q Hj. destruct (Hq j q Hj) as (ex & Hex & [Hor Hok]). exists ex. split; [done|].
    split.
    + destruct Hor as [?|(? & ? & ?)]; [by left|right]. split; [done|]. split; [by right|done].
    + intros Hc Hji [->|Hin]%elem_of_cons; [done|]. by apply Hok.
  - rewrite bool_decide_false by done. destruct (put_event i k ev c) as [c1 e1] eqn:Hput.
    destruct (put_event_spec _ _ _ _ _ _ Hput) as (Hh1 & [Hl1 Hq1] & He1).
    destruct (He1 ltac:(apply Hlt; by left)) as [->| ->].
    + rewrite (bind_ok _ _ _ _ _ Hput). intros E. destruct (IH c1 Hnd ltac:(intros; rewrite Hl1; apply Hlt; by right) E) as (Hh & [Hl Hq] & He).
      split; [congruence|]. split; [|done]. split; [congruence|].
      intros j q Hj. destruct (Hq1 j q Hj) as (ex1 & Hex1 & Hd1). cbn in Hd1. rewrite andb_true_r in Hd1.
      destruct (Hq j (q ++ ex1) Hex1) as (ex2 & Hex2 & [Hor Hok]).
      exists (ex1 ++ ex2). rewrite app_assoc. split; [done|]. case_bool_decide as Hjk.
      * subst j. destruct Hor as [->|(_ & Hin & _)]; [|done]. rewrite app_nil_r, Hd1.
        split; [right; split; [done|split; [by left|done]]|done].
      * subst ex1. cbn. split.
        -- destruct Hor as [?|(? & ? & ?)]; [by left|right]. split; [done|]. split; [by right|done].
        -- intros Hc Hji [->|Hin]%elem_of_cons; [done|]. by apply Hok.
    + rewrite (bind_raise _ _ _ _ _ Hput). intros [= <- <-]. split; [done|]. split; [|by right].
      split; [done|]. intros j q Hj. destruct (Hq1 j q Hj) as (ex & Hex & Hd). cbn in Hd.
      rewrite andb_false_r in Hd. subst ex. exists []. split; [done|]. split; [by left|done].
Qed.

Lemma broadcast_spec i ev c c' e : broadcast i ev c = (c', e) →
  handlers c' = handlers c ∧ queues_grow (told i ev (seq 0 (length (event_queues c))) (is_ok e)) c c' ∧
  (e = Ok tt ∨ e = Raise QueueFull).
Proof.
  unfold broadcast. rewrite get_bind. apply broadcast_from_spec; [apply NoDup_seq|].
  intros k [_ Hk]%elem_of_seq. lia.
Qed.
End op_specs.

(** ** Opening and closing a session *)

Section sessions.
Context {A : Type}.
Implicit Types (c : cluster A) (h : handler A) (s : string) (i j k : nat).

Definition opened i s h : handler A := mkHandler (<[s := []]> (session_queues h)) (<[s := i]> (session_handlers h)) (listening h).
Definition closed s h : handler A := mkHandler (delete s (session_queues h)) (delete s (session_handlers h)) (listening h).

Lemma alter_as_insert {B} (f : B → B) i (l : list B) x : l !! i = Some x → alter f i l = <[i := f x]> l.
Proof.
  intros Hx. apply list_eq. intros j. destruct (decide (j = i)) as [->|Hne].
  - rewrite list_lookup_alter_eq, Hx, list_lookup_insert_eq by (by eapply lookup_lt_Some). done.
  - by rewrite list_lookup_alter_ne, list_lookup_insert_ne by congruence.
Qed.

Lemma get_handler_run i h c : handlers c !! i = Some h → get_handler i c = (c, Ok h).
Proof. intros Hh. unfold get_handler. rewrite get_bind, Hh. done. Qed.

Lemma update_handler_run i f h c : handlers c !! i = Some h →
  update_handler i f c = (mkCluster (<[i := f h]> (handlers c)) (event_queues c), Ok tt).
Proof. intros Hh. unfold update_handler, modify. by rewrite (alter_as_insert _ _ _ h). Qed.

Definition all_queues c : list nat := seq 0 (length (event_queues c)).

Lemma leave_spec i s h c c' e : handlers c !! i = Some h → is_Some (session_queues h !! s) → is_Some (session_handlers h !! s) →
  leave_session i s c = (c', e) →
  handlers c' = <[i := closed s h]> (handlers c) ∧
  queues_grow (told i (END_SESSION s i) (all_queues c) (is_ok e)) c c' ∧ (e = Ok tt ∨ e = Raise QueueFull).
Proof.
  intros Hh [q Hq] [k Hk] E. unfold leave_session in E.
  assert (Hi : (i < length (handlers c))%nat) by (by eapply lookup_lt_Some).
  rewrite (bind_ok _ _ _ _ _ (get_handler_run _ _ _ Hh)) in E. rewrite Hq in E. cbn [of_option] in E. rewrite lift_ok_bind in E.
  rewrite (bind_ok _ _ _ _ _ (update_handler_run _ _ _ _ Hh)) in E.
  match type of E with (_ ≫= _) ?c1 = _ => assert (Hh1 : handlers c1 !! i = Some (set_queues (delete s (session_queues h)) h)) by (apply list_lookup_insert_eq, Hi) end.
  rewrite (bind_ok _ _ _ _ _ (get_handler_run _ _ _ Hh1)) in E. cbn [set_queues session_handlers] in E.
  rewrite Hk in E. cbn [of_option] in E. rewrite lift_ok_bind in E.
  rewrite (bind_ok _ _ _ _ _ (update_handler_run _ _ _ _ Hh1)) in E.
  cbn [handlers event_queues set_queues set_table session_queues session_handlers listening] in E.
  rewrite list_insert_insert_eq in E. apply broadcast_spec in E as (E1 & E2 & E3). done.
Qed.

Lemma announce_spec i s h c c' e : handlers c !! i = Some h → announce_session i s c = (c', e) →
  handlers c' = <[i := opened i s h]> (handlers c) ∧
  queues_grow (told i (NEW_SESSION s i) (all_queues c) (is_ok e)) c c' ∧ (e = Ok tt ∨ e = Raise QueueFull).
Proof.
  intros Hh E. unfold announce_session in E.
  assert (Hi : (i < length (handlers c))%nat) by (by eapply lookup_lt_Some).
  rewrite (bind_ok _ _ _ _ _ (update_handler_run _ _ _ _ Hh)) in E.
  match type of E with (_ ≫= _) ?c1 = _ => assert (Hh1 : handlers c1 !! i = Some (set_queues (<[s := []]> (session_queues h)) h)) by (apply list_lookup_insert_eq, Hi) end.
  rewrite (bind_ok _ _ _ _ _ (update_handler_run _ _ _ _ Hh1)) in E.
  cbn [handlers event_queues set_queues set_table session_queues session_handlers listening] in E.
  rewrite list_insert_insert_eq in E. apply broadcast_spec in E as (E1 & E2 & E3). done.
Qed.

(** The events a session that opens or closes at [i] may add to a queue. *)
Definition session_event i s (p : nat * event A) : Prop := p = (i, NEW_SESSION s i) ∨ p = (i, END_SESSION s i).
Definition session_events i s (open : bool) k (ex : list (nat * event A)) : Prop :=
  Forall (session_event i s) ex ∧ (k = i → ex = []) ∧ (open = true → k ≠ i → ex = [(i, NEW_SESSION s i)]).

Lemma told_session_events i s c ev b k ex : session_event i s (i, ev) → told i ev (all_queues c) b k ex →
  session_events i s false k ex.
Proof.
  intros Hev [[->|(Hk & _ & ->)] _]; (split; [|split]); try done.
  by apply Forall_singleton.
Qed.

(** What an attempt to open a session leaves: the open session, announced to every other
    handler, or the state before it with some notices of a session nobody has. *)
Lemma enter_spec i s h c c' e : handlers c !! i = Some h → session_queues h !! s = None → session_handlers h !! s = None →
  enter_session i s c = (c', e) →
  handlers c' = <[i := if is_ok e then opened i s h else h]> (handlers c) ∧
  queues_grow (session_events i s (is_ok e)) c c' ∧ (e = Ok tt ∨ e = Raise QueueFull).
Proof.
  intros Hh Hq Ht E. unfold enter_session in E. rewrite (bind_ok _ _ _ _ _ (get_handler_run _ _ _ Hh)) in E.
  assert (Hi : (i < length (handlers c))%nat) by (by eapply lookup_lt_Some).
  rewrite bool_decide_true in E by done. unfold guard_py in E.
  change (try_finally (announce_session i s) (leave_session i s) c = (c', e)) in E. unfold try_finally in E.
  destruct (announce_session i s c) as [c1 e1] eqn:Ha.
  apply (announce_spec _ _ h) in Ha as (Hh1 & [Hl1 Hg1] & He1); [|done].
  destruct He1 as [->| ->].
  - injection E as <- <-. cbn [is_ok] in *. split; [done|]. split; [|by left]. split; [done|].
    intros k q Hk. destruct (Hg1 k q Hk) as (ex & Hex & Hor & Hall). exists ex. split; [done|].
    split; [|split].
    + destruct Hor as [->|(_ & _ & ->)]; [constructor|apply Forall_singleton; by left].
    + intros ->. by destruct Hor as [?|(? & _)].
    + intros _ Hki. apply Hall; [done|done|]. apply elem_of_seq. apply lookup_lt_Some in Hk. lia.
  - destruct (leave_session i s c1) as [c2 e2] eqn:Hlv.
    pose proof Hlv as Hsp. apply (leave_spec _ _ (opened i s h)) in Hsp as (Hh2 & [Hl2 Hg2] & He2); first last.
    { eexists. apply lookup_insert_eq. } { eexists. apply lookup_insert_eq. }
    { rewrite Hh1. by apply list_lookup_insert_eq. }
    assert (Hc : closed s (opened i s h) = h).
    { destruct h as [hq ht hl]. unfold closed, opened. cbn in *. by rewrite !delete_insert_id. }
    rewrite Hc, Hh1, list_insert_insert_eq in Hh2.
    assert (c' = c2 ∧ e = Raise QueueFull) as [-> ->].
    { destruct He2 as [->| ->]; [rewrite (bind_ok _ _ _ _ _ Hlv) in E|rewrite (bind_raise _ _ _ _ _ Hlv) in E];
        by injection E as <- <-. }
    cbn [is_ok]. split; [done|]. split; [|by right]. split; [congruence|].
    intros k q Hk. destruct (Hg1 k q Hk) as (ex1 & Hex1 & Ht1). destruct (Hg2 k _ Hex1) as (ex2 & Hex2 & Ht2).
    exists (ex1 ++ ex2). rewrite app_assoc. split; [done|].
    apply told_session_events with (s := s) in Ht1 as (F1 & N1 & _); [|by left].
    apply told_session_events with (s := s) in Ht2 as (F2 & N2 & _); [|by right].
    split; [by apply Forall_app|]. split; [|done]. intros Hki. by rewrite N1, N2.
Qed.
End sessions.

(** ** The invariant *)

Section invariant.
Context {R : Type}.
#[local] Abbreviation Req := (nat * R)%type (only parsing).
Implicit Types (c : cluster Req) (h : handler Req) (s : string) (i j k : nat) (o : gmap string nat) (l : list (@label R)).

(** A queued event of producer [k], in the queue of [j], is about a session of [k], or is
    a push for a session of [j]. *)
Definition event_ok o j k (ev : event Req) : Prop :=
  match ev with
  | NEW_SESSION s i | END_SESSION s i => i = k ∧ k ≠ j ∧ o !! s = Some k
  | PUSH s r => k ≠ j ∧ o !! s = Some j ∧ r.1 = k
  | SHUTDOWN => True
  end.

(** The requests of handler [k] for a session of [i]: taken by the reader, in the session's
    queue, on their way. *)
Definition deliveries i k s l (qs : list Req) (q : list (nat * event Req)) : list Req :=
  from k (got s l) ++ from k qs ++ pushes s (events_of k q).

Record consistent (g : gstate (R:=R)) : Prop := {
  inv_len : length (event_queues (clus g)) = length (handlers (clus g));
  inv_own i h s : handlers (clus g) !! i = Some h →
    is_Some (session_queues h !! s) ↔ session_handlers h !! s = Some i;
  inv_table j h s k : handlers (clus g) !! j = Some h → session_handlers h !! s = Some k → owner g !! s = Some k;
  inv_range s k : owner g !! s = Some k → (k < length (handlers (clus g)))%nat;
  inv_events j q k ev : event_queues (clus g) !! j = Some q → (k, ev) ∈ q → event_ok (owner g) j k ev;
  inv_known i h s j h' q : i ≠ j → handlers (clus g) !! i = Some h → is_Some (session_queues h !! s) →
    handlers (clus g) !! j = Some h' → event_queues (clus g) !! j = Some q →
    drain s (session_handlers h' !! s) (events_of i q) = Some i;
  inv_log a : a ∈ log g → is_Some (owner g !! label_session a);
  inv_delivery i h s qs q k : handlers (clus g) !! i = Some h → session_queues h !! s = Some qs →
    event_queues (clus g) !! i = Some q → sent k s (log g) = deliveries i k s (log g) qs q
}.

Lemma inv_open_owner g i h s : consistent g → handlers (clus g) !! i = Some h →
  is_Some (session_queues h !! s) → owner g !! s = Some i.
Proof. intros Hg Hh Hs. eapply inv_table; [done|exact Hh|]. by apply (inv_own g Hg i h s Hh). Qed.

Lemma event_ok_about o j k ev s : event_ok o j k ev → about ev = Some s → o !! s = Some k ∨ o !! s = Some j.
Proof. destruct ev; cbn; intros Hok E; simplify_eq; try (destruct Hok as (? & ? & ?)); auto. Qed.

(** A fresh session id is mentioned nowhere. *)
Lemma inv_fresh g s : consistent g → owner g !! s = None →
  (∀ j h, handlers (clus g) !! j = Some h → session_queues h !! s = None ∧ session_handlers h !! s = None) ∧
  (∀ j q k ev, event_queues (clus g) !! j = Some q → (k, ev) ∈ q → about ev ≠ Some s) ∧
  (∀ a, a ∈ log g → label_session a ≠ s).
Proof.
  intros Hg Ho. split; [|split].
  - intros j h Hh. assert (session_handlers h !! s = None) as Ht.
    { destruct (session_handlers h !! s) as [k|] eqn:Ht; [|done]. rewrite (inv_table g Hg j h s k Hh Ht) in Ho. done. }
    split; [|done]. apply eq_None_not_Some. intros Hs. apply (inv_own g Hg j h s Hh) in Hs. congruence.
  - intros j q k ev Hq Hin Ha. destruct (event_ok_about _ _ _ _ _ (inv_events g Hg j q k ev Hq Hin) Ha); congruence.
  - intros a Hin Ha. destruct (inv_log g Hg a Hin) as [k Hk]. congruence.
Qed.

(** *** Opening and closing *)

Section session_change.
Context c o l i s h h' c' (open : bool).
Context (Hg : consistent (mkG c o l)) (Hh : handlers c !! i = Some h) (Hh' : handlers c' = <[i := h']> (handlers c)).
Context (Hoth : ∀ t, t ≠ s → session_queues h' !! t = session_queues h !! t ∧ session_handlers h' !! t = session_handlers h !! t).
Context (Hsq : session_queues h' !! s = (if open then Some [] else None)).
Context (Hst : session_handlers h' !! s = (if open then Some i else None)).
Context (Hgrow : queues_grow (session_events i s open) c c').
Context (Hfresh : open = true → o !! s = None) (Hos : o !! s = None ∨ o !! s = Some i).

Lemma change_handler j hj : handlers c' !! j = Some hj → (j = i ∧ hj = h') ∨ (j ≠ i ∧ handlers c !! j = Some hj).
Proof.
  rewrite Hh'. destruct (decide (j = i)) as [->|Hne].
  - rewrite list_lookup_insert_eq by (by eapply lookup_lt_Some). intros [= <-]. by left.
  - rewrite list_lookup_insert_ne by done. by right.
Qed.

Lemma change_queue j q' : event_queues c' !! j = Some q' →
  ∃ q ex, event_queues c !! j = Some q ∧ q' = q ++ ex ∧ session_events i s open j ex.
Proof.
  intros Hq'. destruct Hgrow as [Hlen Hex]. assert (is_Some (event_queues c !! j)) as [q Hq].
  { apply lookup_lt_is_Some. rewrite <- Hlen. by eapply lookup_lt_Some. }
  destruct (Hex j q Hq) as (ex & He & Hse). exists q, ex. split; [done|]. split; [congruence|done].
Qed.

(** Another session's entries are those of before. *)
Lemma change_other j hj t : t ≠ s → handlers c' !! j = Some hj →
  ∃ hj0, handlers c !! j = Some hj0 ∧ session_queues hj !! t = session_queues hj0 !! t ∧
    session_handlers hj !! t = session_handlers hj0 !! t.
Proof.
  intros Hts Hj. destruct (change_handler j hj Hj) as [[-> ->]|[_ Hj']]; [|by exists hj].
  exists h. split; [done|by apply Hoth].
Qed.

(** The session is nowhere but, when it opens, at [i]. *)
Lemma change_self j hj : handlers c' !! j = Some hj → is_Some (session_queues hj !! s) → j = i ∧ hj = h' ∧ open = true.
Proof.
  intros Hj Hs. destruct (change_handler j hj Hj) as [[-> ->]|[Hji Hj']].
  - rewrite Hsq in Hs. destruct open; [done|by destruct Hs].
  - pose proof (inv_open_owner _ j hj s Hg Hj' Hs) as Ho. cbn in Ho. destruct Hos; congruence.
Qed.

Lemma change_events j (ex : list (nat * event Req)) k ev : session_events i s open j ex → (k, ev) ∈ ex →
  j ≠ i ∧ k = i ∧ (ev = NEW_SESSION s i ∨ ev = END_SESSION s i).
Proof.
  intros (HF & Hn & _) Hin. rewrite Forall_forall in HF. split.
  - intros ->. rewrite Hn in Hin by done. by apply not_elem_of_nil in Hin.
  - destruct (HF _ Hin) as [[= -> ->]|[= -> ->]]; auto.
Qed.

Lemma change_events_other j (ex : list (nat * event Req)) t k ev : session_events i s open j ex → t ≠ s → ev ∈ events_of k ex → about ev ≠ Some t.
Proof.
  intros Hse Hts Hin. apply elem_of_events_of in Hin.
  destruct (change_events _ _ _ _ Hse Hin) as (_ & _ & [->| ->]); cbn; congruence.
Qed.

Lemma change_owner t k : o !! t = Some k → (<[s := i]> o : gmap string nat) !! t = Some k.
Proof.
  intros Ht. destruct (decide (t = s)) as [->|Hne]; [|by rewrite lookup_insert_ne].
  rewrite lookup_insert_eq. destruct Hos; congruence.
Qed.

Lemma change_own j hj t : handlers c' !! j = Some hj →
  is_Some (session_queues hj !! t) ↔ session_handlers hj !! t = Some j.
Proof.
  intros Hj. destruct (decide (t = s)) as [->|Hts].
  - destruct (change_handler j hj Hj) as [[-> ->]|[Hji Hj']]; [|by apply (inv_own _ Hg j hj s Hj')].
    rewrite Hsq, Hst. destruct open; split; intros Hx; try done; by destruct Hx.
  - destruct (change_other j hj t Hts Hj) as (hj0 & Hj0 & -> & ->). by apply (inv_own _ Hg j hj0 t Hj0).
Qed.

Lemma change_table j hj t k : handlers c' !! j = Some hj → session_handlers hj !! t = Some k →
  (<[s := i]> o : gmap string nat) !! t = Some k.
Proof.
  intros Hj Ht. destruct (change_handler j hj Hj) as [[-> ->]|[Hji Hj']];
    [|by apply change_owner, (inv_table _ Hg j hj t k Hj')].
  destruct (decide (t = s)) as [->|Hts].
  - rewrite Hst in Ht. destruct open; [|done]. injection Ht as <-. apply lookup_insert_eq.
  - destruct (Hoth t Hts) as [_ E]. rewrite E in Ht. by apply change_owner, (inv_table _ Hg i h t k Hh).
Qed.

Lemma change_known a ha t j hj q' : a ≠ j → handlers c' !! a = Some ha → is_Some (session_queues ha !! t) →
  handlers c' !! j = Some hj → event_queues c' !! j = Some q' →
  drain t (session_handlers hj !! t) (events_of a q') = Some a.
Proof.
  intros Haj Ha Hta Hj Hq'. destruct (change_queue j q' Hq') as (q & ex & Hq & -> & Hse).
  rewrite events_of_app, drain_queue_app. destruct (decide (t = s)) as [->|Hts].
  - destruct (change_self a ha Ha Hta) as (-> & _ & Hopen).
    destruct Hse as (_ & _ & Hall). rewrite (Hall Hopen ltac:(congruence)).
    unfold events_of. cbn. rewrite bool_decide_true by done. cbn. by rewrite bool_decide_true.
  - rewrite (drain_other t _ (events_of a ex)) by (intros ev; by eapply change_events_other).
    destruct (change_other a ha t Hts Ha) as (ha0 & Ha0 & E & _). rewrite E in Hta.
    destruct (change_other j hj t Hts Hj) as (hj0 & Hj0 & _ & ->). by apply (inv_known _ Hg a ha0 t j hj0 q).
Qed.

Lemma change_delivery a ha t qs q' k : handlers c' !! a = Some ha → session_queues ha !! t = Some qs →
  event_queues c' !! a = Some q' → sent k t l = deliveries a k t l qs q'.
Proof.
  intros Ha Hqs Hq'. destruct (change_queue a q' Hq') as (q & ex & Hq & -> & Hse).
  unfold deliveries. rewrite events_of_app, pushes_app. destruct (decide (t = s)) as [->|Hts].
  - destruct (change_self a ha Ha ltac:(eauto)) as (-> & -> & Hopen).
    rewrite Hsq, Hopen in Hqs. injection Hqs as <-.
    destruct (inv_fresh _ s Hg (Hfresh Hopen)) as (_ & Hfe & Hfl). cbn in Hfl.
    destruct Hse as (_ & Hn & _). rewrite (Hn eq_refl). cbn.
    rewrite sent_other, got_other, pushes_other; [done| |done|done].
    intros ev Hin. apply elem_of_events_of in Hin. by eapply Hfe.
  - rewrite (pushes_other t (events_of k ex)) by (intros ev; by eapply change_events_other).
    rewrite app_nil_r. destruct (change_other a ha t Hts Ha) as (ha0 & Ha0 & E & _).
    rewrite E in Hqs. by apply (inv_delivery _ Hg a ha0 t qs q k).
Qed.

Lemma consistent_change : consistent (mkG c' (<[s := i]> o) l).
Proof.
  split; cbn [clus owner log].
  - destruct Hgrow as [-> _]. rewrite Hh', length_insert. apply (inv_len _ Hg).
  - intros. by apply change_own.
  - intros. by eapply change_table.
  - intros t k Hk. rewrite Hh', length_insert. destruct (decide (t = s)) as [->|Hts].
    + rewrite lookup_insert_eq in Hk. injection Hk as <-. by eapply lookup_lt_Some.
    + rewrite lookup_insert_ne in Hk by done. by apply (inv_range _ Hg t).
  - intros j q' k ev Hq' Hin. destruct (change_queue j q' Hq') as (q & ex & Hq & -> & Hse).
    apply elem_of_app in Hin as [Hin|Hin].
    + pose proof (inv_events _ Hg j q k ev Hq Hin) as Hok. cbn [owner] in Hok.
      destruct ev; cbn [event_ok] in *; try done; destruct Hok as (? & ? & ?); auto using change_owner.
    + destruct (change_events _ _ _ _ Hse Hin) as (Hji & -> & [->| ->]); cbn [event_ok];
        (split; [done|split; [congruence|apply lookup_insert_eq]]).
  - intros. by eapply change_known.
  - intros a Hin. destruct (inv_log _ Hg a Hin) as [k Hk]. exists k. by apply change_owner.
  - intros. by eapply change_delivery.
Qed.
End session_change.

(** *** Messages *)

(** Handler [j] and its queue move on: no session opens or closes there, and the table
    once drained says the same of every session of another handler. *)
Definition flow o j h (q : list (nat * event Req)) h' (q' : list (nat * event Req)) : Prop :=
  (∀ s, is_Some (session_queues h' !! s) ↔ is_Some (session_queues h !! s)) ∧
  (∀ s, session_handlers h' !! s = Some j ↔ session_handlers h !! s = Some j) ∧
  (∀ s k, session_handlers h' !! s = Some k → session_handlers h !! s = Some k ∨ o !! s = Some k) ∧
  (∀ k ev, (k, ev) ∈ q' → (k, ev) ∈ q ∨ event_ok o j k ev) ∧
  (∀ k s, o !! s = Some k → k ≠ j →
    drain s (session_handlers h' !! s) (events_of k q') = drain s (session_handlers h !! s) (events_of k q)).

Lemma flow_refl o j h q : flow o j h q h q.
Proof. split; [done|]. split; [done|]. split; [by left|]. split; [by left|done]. Qed.

Lemma consistent_flow c o l c' l' : consistent (mkG c o l) →
  length (handlers c') = length (handlers c) → length (event_queues c') = length (event_queues c) →
  (∀ j h q h' q', handlers c !! j = Some h → event_queues c !! j = Some q →
    handlers c' !! j = Some h' → event_queues c' !! j = Some q' → flow o j h q h' q') →
  (∀ a, a ∈ l' → a ∈ l ∨ is_Some (o !! label_session a)) →
  (∀ i h s qs q k, handlers c' !! i = Some h → session_queues h !! s = Some qs →
    event_queues c' !! i = Some q → sent k s l' = deliveries i k s l' qs q) →
  consistent (mkG c' o l').
Proof.
  intros Hg Hlh Hlq Hflow Hlog Hdel. pose proof (inv_len _ Hg) as Hlen. cbn in Hlen.
  assert (Hold : ∀ j, (∃ h', handlers c' !! j = Some h') ∨ (∃ q', event_queues c' !! j = Some q') →
    ∃ h q h' q', handlers c !! j = Some h ∧ event_queues c !! j = Some q ∧
      handlers c' !! j = Some h' ∧ event_queues c' !! j = Some q' ∧ flow o j h q h' q').
  { intros j Hj. assert (j < length (handlers c))%nat as Hlt.
    { destruct Hj as [[h' Hj]|[q' Hj]]; apply lookup_lt_Some in Hj; lia. }
    destruct (lookup_lt_is_Some_2 (handlers c) j ltac:(lia)) as [h Hh].
    destruct (lookup_lt_is_Some_2 (event_queues c) j ltac:(lia)) as [q Hq].
    destruct (lookup_lt_is_Some_2 (handlers c') j ltac:(lia)) as [h' Hh'].
    destruct (lookup_lt_is_Some_2 (event_queues c') j ltac:(lia)) as [q' Hq'].
    exists h, q, h', q'. do 4 (split; [done|]). by apply Hflow. }
  split; cbn [clus owner log].
  - congruence.
  - intros j h' s Hh'. destruct (Hold j ltac:(eauto)) as (h & q & h1 & q' & Hh & Hq & Hh1 & Hq' & F1 & F2 & _).
    simplify_eq. rewrite F1, F2. by apply (inv_own _ Hg j h s Hh).
  - intros j h' s k Hh' Hs. destruct (Hold j ltac:(eauto)) as (h & q & h1 & q' & Hh & Hq & Hh1 & Hq' & _ & _ & F3 & _).
    simplify_eq. destruct (F3 s k Hs); [by apply (inv_table _ Hg j h s k Hh)|done].
  - intros s k Hk. rewrite Hlh. by apply (inv_range _ Hg s).
  - intros j q' k ev Hq' Hin. destruct (Hold j ltac:(eauto)) as (h & q & h1 & q1 & Hh & Hq & Hh1 & Hq1 & _ & _ & _ & F4 & _).
    simplify_eq. destruct (F4 k ev Hin); [by apply (inv_events _ Hg j q k ev Hq)|done].
  - intros i h' s j hj' q' Hij Hh' Hs Hj' Hq'.
    destruct (Hold j ltac:(eauto)) as (hj & q & h1 & q1 & Hhj & Hq & Hh1 & Hq1 & _ & _ & _ & _ & F5). simplify_eq.
    destruct (Hold i ltac:(eauto)) as (h & qi & h2 & q2 & Hh & Hqi & Hh2 & Hq2 & G1 & _). simplify_eq.
    apply G1 in Hs. pose proof (inv_open_owner _ i h s Hg Hh Hs) as Ho. cbn in Ho.
    rewrite (F5 i s Ho Hij). by apply (inv_known _ Hg i h s j hj q).
  - intros a Hin. destruct (Hlog a Hin); [by apply (inv_log _ Hg)|done].
  - done.
Qed.

(** Nothing but the request queue of session [s] of [i] changes. *)
Lemma flow_queue o i h q s qs f : session_queues h !! s = Some qs →
  flow o i h q (set_queues (alter f s (session_queues h)) h) q.
Proof.
  intros Hs. destruct (flow_refl o i h q) as (_ & F2 & F3 & F4 & F5). split; [|done].
  intros t. cbn. destruct (decide (t = s)) as [->|Hts].
  - rewrite lookup_alter_eq, Hs. by split; intros _; eexists.
  - by rewrite lookup_alter_ne.
Qed.

(** Events put at the end of a queue that say nothing of open sessions. *)
Lemma flow_grow o j h q ex : (∀ p, p ∈ ex → event_ok o j p.1 p.2) →
  (∀ k ev, (k, ev) ∈ ex → match ev with PUSH _ _ | SHUTDOWN => True | _ => False end) →
  flow o j h q h (q ++ ex).
Proof.
  intros Hok Hev. destruct (flow_refl o j h q) as (F1 & F2 & F3 & F4 & F5). do 3 (split; [done|]). split.
  - intros k ev [Hin|Hin]%elem_of_app; [by left|right]. by apply (Hok (k, ev)).
  - intros k s _ _. rewrite events_of_app, drain_queue_app.
    assert (∀ t, drain s t (events_of k ex) = t) as ->; [|done].
    assert (∀ ev, ev ∈ events_of k ex → match ev with PUSH _ _ | SHUTDOWN => True | _ => False end) as Hev'.
    { intros ev Hin. apply elem_of_events_of in Hin. by eapply Hev. }
    revert Hev'. generalize (events_of k ex) as evs. clear.
    induction evs as [|ev evs IH]; intros Hev t; [done|].
    change (drain s (drain_event s t ev) evs = t).
    pose proof (Hev ev ltac:(by left)) as H0. destruct ev; cbn; try done; apply IH; intros; apply Hev; by right.
Qed.

Lemma from_one k (r : Req) : from k [r] = if decide (r.1 = k) then [r] else [].
Proof. done. Qed.

Lemma sent_snoc k s l a : sent k s (l ++ [a]) = sent k s l ++ sent k s [a].
Proof. apply sent_app. Qed.

(** A push forwarded to the handler of the session. *)
Lemma consistent_forward c o l i k s r c' e h : consistent (mkG c o l) →
  handlers c !! i = Some h → session_handlers h !! s = Some k → k ≠ i →
  put_event i k (PUSH s (i, r)) c = (c', e) →
  consistent (mkG c' o (if is_ok e then l ++ [LSent i s (i, r)] else l)).
Proof.
  intros Hg Hh Hs Hki Hput. apply put_event_spec in Hput as (Hhs & [Hlq Hgrow] & _).
  pose proof (inv_table _ Hg i h s k Hh Hs) as Ho. cbn in Ho.
  apply (consistent_flow c o l); try congruence.
  - intros j hj q hj' q' Hj Hq Hj' Hq'. rewrite Hhs in Hj'. simplify_eq.
    destruct (Hgrow j q Hq) as (ex & Hex & ->). simplify_eq.
    case_bool_decide as Hjk; destruct (is_ok e); cbn [andb]; rewrite ?app_nil_r; try apply flow_refl.
    apply flow_grow; [intros p|intros k0 ev]; intros Hin; apply list_elem_of_singleton in Hin; simplify_eq; cbn; auto.
  - intros a Hin. destruct (is_ok e); [|by left]. apply elem_of_app in Hin as [|Hin]; [by left|right].
    apply list_elem_of_singleton in Hin as ->. cbn. eauto.
  - intros a ha t qs q' k0 Ha Hqs Hq'. rewrite Hhs in Ha.
    assert (is_Some (event_queues c !! a)) as [q Hq].
    { apply lookup_lt_is_Some. rewrite <- Hlq. by eapply lookup_lt_Some. }
    destruct (Hgrow a q Hq) as (ex & Hex & Hexe). simplify_eq.
    pose proof (inv_delivery _ Hg a ha t qs q k0 Ha Hqs Hq) as Hd. cbn [log] in Hd.
    pose proof (inv_open_owner _ a ha t Hg Ha ltac:(eauto)) as Hoa. cbn [owner] in Hoa.
    unfold deliveries in *. rewrite events_of_app, pushes_app.
    destruct (is_ok e); [|by rewrite andb_false_r, app_nil_r].
    rewrite sent_app, got_app, Hd, app_nil_r, andb_true_r, <- !app_assoc. do 3 f_equal.
    unfold sent, events_of, pushes. destruct (decide (t = s)) as [->|Hts].
    + assert (a = k) as -> by congruence. rewrite (bool_decide_true (k = k)) by done. cbn.
      destruct (decide (i = k0)) as [->|Hik].
      * rewrite !bool_decide_true by done. cbn. by rewrite bool_decide_true.
      * rewrite (bool_decide_false (i = k0)), bool_decide_false by (try intros [? ?]; congruence). done.
    + cbn. rewrite bool_decide_false by (intros [? ?]; congruence). case_bool_decide; [|done]. cbn.
      case_bool_decide; [|done]. cbn. by rewrite bool_decide_false.
Qed.

(** A handler's request queue for a session grows or shrinks. *)
Lemma consistent_queue c o l i h s qs f l' : consistent (mkG c o l) →
  handlers c !! i = Some h → session_queues h !! s = Some qs →
  (∀ a, a ∈ l' → a ∈ l ∨ label_session a = s) →
  (∀ k q, event_queues c !! i = Some q → sent k s l = deliveries i k s l qs q → sent k s l' = deliveries i k s l' (f qs) q) →
  (∀ k t, t ≠ s → sent k t l' = sent k t l ∧ got t l' = got t l) →
  consistent (mkG (mkCluster (<[i := set_queues (alter f s (session_queues h)) h]> (handlers c)) (event_queues c)) o l').
Proof.
  intros Hg Hh Hs Hl' Hf Hoth. assert (Hi : (i < length (handlers c))%nat) by (by eapply lookup_lt_Some).
  assert (Hcase : ∀ j hj', <[i := set_queues (alter f s (session_queues h)) h]> (handlers c) !! j = Some hj' →
    (j = i ∧ hj' = set_queues (alter f s (session_queues h)) h) ∨ (j ≠ i ∧ handlers c !! j = Some hj')).
  { intros j hj'. destruct (decide (j = i)) as [->|Hne].
    - rewrite list_lookup_insert_eq by done. intros [= <-]. by left.
    - rewrite list_lookup_insert_ne by done. by right. }
  apply (consistent_flow c o l); cbn [handlers event_queues]; [done|apply length_insert|done| | |].
  - intros j hj q hj' q' Hj Hq Hj' Hq'. simplify_eq.
    destruct (Hcase j hj' Hj') as [[-> ->]|[Hji Hj2]]; simplify_eq; [by apply (flow_queue _ _ _ _ _ qs)|apply flow_refl].
  - intros a Hin. destruct (Hl' a Hin) as [| ->]; [by left|right].
    pose proof (inv_open_owner _ i h s Hg Hh ltac:(eauto)) as Ho. cbn [owner] in Ho. eauto.
  - intros a ha t qs' q k Ha Hqs' Hq.
    assert (∀ h0, handlers c !! a = Some h0 → t ≠ s → session_queues h0 !! t = Some qs' →
      sent k t l' = deliveries a k t l' qs' q) as Hsame.
    { intros h0 Ha0 Hts Hq0. destruct (Hoth k t Hts) as [-> E]. unfold deliveries. rewrite E.
      by apply (inv_delivery _ Hg a h0 t qs' q k). }
    destruct (Hcase a ha Ha) as [[-> ->]|[Hai Ha']]; destruct (decide (t = s)) as [->|Hts].
    + cbn in Hqs'. rewrite lookup_alter_eq, Hs in Hqs'. injection Hqs' as <-.
      apply Hf; [done|]. by apply (inv_delivery _ Hg i h s qs q k).
    + apply (Hsame h); [done|done|]. cbn in Hqs'. by rewrite lookup_alter_ne in Hqs'.
    + pose proof (inv_open_owner _ a ha s Hg Ha' ltac:(eauto)) as Ho1. cbn [owner] in Ho1.
      pose proof (inv_open_owner _ i h s Hg Hh ltac:(eauto)) as Ho2. cbn [owner] in Ho2. congruence.
    + by apply (Hsame ha).
Qed.

(** A queue holds no events of its own handler but the order to stop. *)
Lemma own_events c o l i q s ev : consistent (mkG c o l) → event_queues c !! i = Some q →
  ev ∈ events_of i q → about ev ≠ Some s.
Proof.
  intros Hg Hq Hin. apply elem_of_events_of in Hin. pose proof (inv_events _ Hg i q i ev Hq Hin) as Hok.
  destruct ev; cbn in *; [by destruct Hok as (_ & [] & _)|by destruct Hok as (_ & [] & _)|by destruct Hok as ([] & _)|done].
Qed.

Lemma consistent_push c o l i s r c' e : consistent (mkG c o l) → (i < length (handlers c))%nat →
  put_into_session_queue i s (i, r) c = (c', e) →
  consistent (mkG c' o (if e is Ok true then l ++ [LSent i s (i, r)] else l)) ∧
  ((∃ b, e = Ok b) ∨ e = Raise QueueFull).
Proof.
  intros Hg Hi E. unfold put_into_session_queue in E. destruct (lookup_lt_is_Some_2 _ _ Hi) as [h Hh].
  rewrite (bind_ok _ _ _ _ _ (get_handler_run _ _ _ Hh)) in E.
  destruct (session_handlers h !! s) as [k|] eqn:Hs; [|injection E as <- <-; eauto].
  case_bool_decide as Hki.
  - subst k. destruct (proj2 (inv_own _ Hg i h s Hh) Hs) as [qs Hqs]. rewrite Hqs in E. cbn [of_option] in E.
    rewrite lift_ok_bind, (bind_ok _ _ _ _ _ (update_handler_run _ _ _ _ Hh)) in E. injection E as <- <-.
    split; [|eauto]. apply (consistent_queue c o l i h s qs); try done.
    + intros a [|Hin]%elem_of_app; [by left|right]. by apply list_elem_of_singleton in Hin as ->.
    + intros k q Hq Hd. unfold deliveries in *. rewrite sent_snoc, got_app, Hd, app_nil_r, from_app, <- !app_assoc.
      do 2 f_equal. destruct (decide (i = k)) as [->|Hik].
      * rewrite pushes_other by (intros ev Hev; by eapply own_events). rewrite from_one, decide_True by done.
        unfold sent. cbn. by rewrite bool_decide_true.
      * rewrite from_one, decide_False by done. unfold sent. cbn.
        rewrite bool_decide_false by (intros [? ?]; congruence). by rewrite app_nil_r.
    + intros k t Hts. rewrite sent_app, got_app. unfold sent, got. cbn.
      rewrite bool_decide_false by (intros [? ?]; congruence). by rewrite !app_nil_r.
  - destruct (put_event i k (PUSH s (i, r)) c) as [c1 e1] eqn:Hput.
    pose proof (consistent_forward _ _ _ _ _ _ _ _ _ _ Hg Hh Hs Hki Hput) as Hc.
    unfold mbind, M_bind in E. rewrite Hput in E.
    destruct e1 as [[]|x]; injection E as <- <-; [eauto|]. split; [done|].
    destruct (put_event_spec _ _ _ _ _ _ Hput) as (_ & _ & Hfull).
    assert (k < length (event_queues c))%nat as Hk.
    { pose proof (inv_len _ Hg) as Hl. cbn in Hl. rewrite Hl. by apply (inv_range _ Hg s), (inv_table _ Hg i h s). }
    right. destruct (Hfull Hk); congruence.
Qed.

Lemma consistent_get c o l i s c' e : consistent (mkG c o l) → get_from_session_queue i s c = (c', e) →
  consistent (mkG c' o (if e is Ok (Some r) then l ++ [LGot i s r] else l)).
Proof.
  intros Hg E. unfold get_from_session_queue in E. destruct (handlers c !! i) as [h|] eqn:Hh; first last.
  { unfold get_handler, mbind, M_bind, get, lift in E. rewrite Hh in E. by injection E as <- <-. }
  rewrite (bind_ok _ _ _ _ _ (get_handler_run _ _ _ Hh)) in E.
  destruct (session_handlers h !! s) as [k|] eqn:Hs; [|by injection E as <- <-].
  cbn [of_option] in E. rewrite lift_ok_bind in E. unfold guard_py in E.
  case_bool_decide as Hki; [|by injection E as <- <-]. subst k.
  destruct (proj2 (inv_own _ Hg i h s Hh) Hs) as [qs Hqs]. cbn in Hqs. rewrite Hqs in E.
  change ((q ← lift (of_option KeyError (Some qs));
    match q with
    | [] => mret None
    | r :: q' =>
        update_handler i (λ h, set_queues (<[s := q']> (session_queues h)) h);;
        mret (Some r)
    end) c = (c', e)) in E.
  cbn [of_option] in E. rewrite lift_ok_bind in E.
  destruct qs as [|r qs]; [by injection E as <- <-|].
  rewrite (bind_ok _ _ _ _ _ (update_handler_run _ _ _ _ Hh)) in E. injection E as <- <-.
  replace (<[s:=qs]> (session_queues h)) with (alter (λ _, qs) s (session_queues h)).
  2: { apply map_eq. intros t. destruct (decide (t = s)) as [->|Hts].
       - by rewrite lookup_alter_eq, lookup_insert_eq, Hqs.
       - by rewrite lookup_alter_ne, lookup_insert_ne. }
  apply (consistent_queue c o l i h s (r :: qs)); try done.
  - intros a [|Hin]%elem_of_app; [by left|right]. by apply list_elem_of_singleton in Hin as ->.
  - intros k q Hq Hd. unfold deliveries in *. rewrite sent_app, got_app, from_app, Hd, <- !app_assoc.
    change (r :: qs) with ([r] ++ qs). rewrite from_app, <- app_assoc.
    unfold sent, got. cbn [omap list_omap]. by rewrite bool_decide_true, app_nil_r by done.
  - intros k t Hts. rewrite sent_app, got_app. unfold sent, got. cbn.
    rewrite bool_decide_false by congruence. by rewrite !app_nil_r.
Qed.

(** An event handled. *)
Lemma handle_event_table (ev : event Req) h s :
  session_handlers (handle_event ev h) !! s = drain_event s (session_handlers h !! s) ev.
Proof.
  destruct ev as [t k|t k|t r|]; cbn; try done; case_bool_decide as Hts; subst;
    by rewrite ?lookup_insert_eq, ?lookup_delete_eq, ?lookup_insert_ne, ?lookup_delete_ne.
Qed.

Lemma handle_event_queue (ev : event Req) h s :
  session_queues (handle_event ev h) !! s = (λ qs, qs ++ pushes s [ev]) <$> session_queues h !! s.
Proof.
  assert (∀ x : option (list Req), x = (λ qs, qs ++ []) <$> x) as Hid by (intros [x|]; cbn; by rewrite ?app_nil_r).
  destruct ev as [t k|t k|t r|]; cbn; [apply Hid|apply Hid| |apply Hid].
  unfold pushes. cbn. case_bool_decide as Hts; [subst t; apply lookup_alter_eq|rewrite lookup_alter_ne by done; apply Hid].
Qed.

Lemma flow_handle o i k h q q' ev : (∀ s k, session_handlers h !! s = Some k → o !! s = Some k) →
  event_ok o i k ev → take_event k q = Some (ev, q') → flow o i h q (handle_event ev h) q'.
Proof.
  intros Htab Hok Ht. destruct (take_event_Some _ _ _ _ Ht) as (Hk & Hk' & Hin & _).
  assert (Hd : ∀ s x, drain_event s (session_handlers h !! s) ev = x → x = session_handlers h !! s ∨ (o !! s = Some k ∧ (x = None ∨ x = Some k) ∧ k ≠ i)).
  { intros s x <-. destruct ev; cbn; try (by left); case_bool_decide; subst; destruct Hok as (-> & ? & ?); auto. }
  split; [|split; [|split; [|split]]].
  - intros s. rewrite handle_event_queue, fmap_is_Some. done.
  - intros s. rewrite handle_event_table. destruct (Hd s _ eq_refl) as [->|(Ho & Hx & Hki)]; [done|].
    split; intros E; [destruct Hx; congruence|]. apply Htab in E. congruence.
  - intros s k0. rewrite handle_event_table. destruct (Hd s _ eq_refl) as [->|(Ho & [->| ->] & _)]; [by left|done|right; congruence].
  - intros k0 ev0 H0. left. by apply (Hin (k0, ev0)).
  - intros k0 s Ho Hk0. rewrite handle_event_table. destruct (decide (k0 = k)) as [->|Hne].
    + by rewrite Hk.
    + rewrite (Hk' k0 Hne). f_equal. destruct (Hd s _ eq_refl) as [->|(Ho' & _)]; [done|congruence].
Qed.

Lemma consistent_listen c o l i k c' : consistent (mkG c o l) → listen i k c = Some c' → consistent (mkG c' o l).
Proof.
  intros Hg E. unfold listen in E. destruct (handlers c !! i) as [h|] eqn:Hh; [|done].
  destruct (event_queues c !! i) as [q|] eqn:Hq; [|done]. destruct (listening h); [|done].
  destruct (take_event k q) as [[ev q']|] eqn:Ht; [|done]. injection E as <-.
  destruct (take_event_Some _ _ _ _ Ht) as (Hk & Hk' & Hin & Hkin).
  pose proof (inv_events _ Hg i q k ev Hq Hkin) as Hok. cbn [owner] in Hok.
  assert (Hi : (i < length (handlers c))%nat) by (by eapply lookup_lt_Some).
  assert (Hi' : (i < length (event_queues c))%nat) by (by eapply lookup_lt_Some).
  apply (consistent_flow c o l); cbn [handlers event_queues]; [done|apply length_insert|apply length_insert| |by left|].
  - intros j hj qj hj' qj' Hj Hqj. destruct (decide (j = i)) as [->|Hji].
    + rewrite !list_lookup_insert_eq by done. intros [= <-] [= <-]. simplify_eq.
      apply (flow_handle _ _ k); [|done..]. intros s k0. by apply (inv_table _ Hg i).
    + rewrite !list_lookup_insert_ne by done. intros. simplify_eq. apply flow_refl.
  - intros a ha s qs qa k0. destruct (decide (a = i)) as [->|Hai].
    + rewrite !list_lookup_insert_eq by done. intros [= <-] Hqs [= <-].
      rewrite handle_event_queue in Hqs. apply fmap_Some in Hqs as (qs0 & Hqs0 & ->).
      pose proof (inv_delivery _ Hg i h s qs0 q k0 Hh Hqs0 Hq) as Hd. cbn [log] in Hd.
      rewrite Hd. unfold deliveries. rewrite from_app, <- app_assoc. do 2 f_equal.
      assert (pushes s [ev] = [] ∨ ∃ r, ev = PUSH s r ∧ pushes s [ev] = [r] ∧ r.1 = k) as Hp.
      { unfold pushes. destruct ev; cbn; auto. case_bool_decide; [subst|by left]. right. destruct Hok as (_ & _ & ?). eauto. }
      destruct (decide (k0 = k)) as [->|Hne].
      * rewrite Hk. change (ev :: events_of k q') with ([ev] ++ events_of k q'). rewrite pushes_app. f_equal.
        destruct Hp as [->|(r & -> & -> & Hr)]; [done|]. by rewrite from_one, decide_True.
      * rewrite (Hk' k0 Hne). destruct Hp as [->|(r & -> & -> & Hr)]; [done|]. by rewrite from_one, decide_False by congruence.
    + rewrite !list_lookup_insert_ne by done. intros Ha Hqs Hqa. by apply (inv_delivery _ Hg a ha s qs qa k0).
Qed.

Lemma consistent_shutdown c o l i q : consistent (mkG c o l) → event_queues c !! i = Some q →
  consistent (mkG (mkCluster (handlers c) (<[i := q ++ [(length (handlers c), SHUTDOWN)]]> (event_queues c))) o l).
Proof.
  intros Hg Hq. assert (Hi : (i < length (event_queues c))%nat) by (by eapply lookup_lt_Some).
  apply (consistent_flow c o l); cbn [handlers event_queues]; [done|done|apply length_insert| |by left|].
  - intros j hj qj hj' qj' Hj Hqj Hj'. simplify_eq. destruct (decide (j = i)) as [->|Hji].
    + rewrite list_lookup_insert_eq by done. intros [= <-]. simplify_eq.
      apply flow_grow; [intros p|intros k0 ev]; intros Hin; apply list_elem_of_singleton in Hin; simplify_eq; done.
    + rewrite list_lookup_insert_ne by done. intros. simplify_eq. apply flow_refl.
  - intros a ha s qs qa k0 Ha Hqs. destruct (decide (a = i)) as [->|Hai].
    + rewrite list_lookup_insert_eq by done. intros [= <-].
      pose proof (inv_delivery _ Hg i ha s qs q k0 Ha Hqs Hq) as Hd. cbn [log] in Hd. rewrite Hd. unfold deliveries. rewrite events_of_app, pushes_app.
      rewrite (pushes_other s (events_of k0 [(_, SHUTDOWN)])), app_nil_r; [done|].
      intros ev Hin. apply elem_of_events_of, list_elem_of_singleton in Hin. by simplify_eq.
    + rewrite list_lookup_insert_ne by done. intros Hqa. by apply (inv_delivery _ Hg a ha s qs qa k0).
Qed.

Lemma consistent_enter c o l i s c' e : consistent (mkG c o l) → (i < length (handlers c))%nat → o !! s = None →
  enter_session i s c = (c', e) → consistent (mkG c' (<[s := i]> o) l) ∧ (e = Ok tt ∨ e = Raise QueueFull).
Proof.
  intros Hg Hi Ho E. destruct (lookup_lt_is_Some_2 _ _ Hi) as [h Hh].
  destruct (proj1 (inv_fresh _ s Hg Ho) i h Hh) as [Hq Ht].
  destruct (enter_spec _ _ _ _ _ _ Hh Hq Ht E) as (Hhs & Hgrow & He). split; [|done].
  apply (consistent_change c o l i s h _ c' (is_ok e) Hg Hh Hhs); [| | |done|done|by left]; destruct (is_ok e);
    try done; try apply lookup_insert_eq.
  intros t Hts. cbn. by rewrite !lookup_insert_ne.
Qed.

Lemma consistent_leave c o l i s h c' e : consistent (mkG c o l) → handlers c !! i = Some h →
  is_Some (session_queues h !! s) → leave_session i s c = (c', e) →
  consistent (mkG c' o l) ∧ (e = Ok tt ∨ e = Raise QueueFull).
Proof.
  intros Hg Hh Hs E. pose proof (proj1 (inv_own _ Hg i h s Hh) Hs) as Ht. cbn in Ht.
  pose proof (inv_open_owner _ _ _ _ Hg Hh Hs) as Ho. cbn [owner] in Ho.
  destruct (leave_spec _ _ _ _ _ _ Hh Hs ltac:(eauto) E) as (Hhs & [Hl Hgrow] & He). split; [|done].
  rewrite <- (insert_id o s i Ho).
  apply (consistent_change c o l i s h _ c' false Hg Hh Hhs); try apply lookup_delete_eq; [| |done|by right].
  - intros t Hts. cbn. by rewrite !lookup_delete_ne.
  - split; [done|]. intros k q Hq. destruct (Hgrow k q Hq) as (ex & Hex & Htold). exists ex. split; [done|].
    eapply told_session_events in Htold; [exact Htold|by right].
Qed.

Lemma consistent_step g g' : consistent g → gstep g g' → consistent g'.
Proof.
  intros Hg Hstep. destruct Hstep.
  - by eapply consistent_enter.
  - by eapply consistent_leave.
  - by eapply consistent_push.
  - by eapply consistent_get.
  - by eapply consistent_listen.
  - by eapply consistent_shutdown.
Qed.

Lemma consistent_init n : consistent (ginit n).
Proof.
  assert (Hh : ∀ i h, replicate n new_handler !! i = Some h → h = new_handler (R:=Req)).
  { intros i h Hi. by apply lookup_replicate in Hi as [-> _]. }
  split; cbn.
  - by rewrite !length_replicate.
  - intros i h s ->%Hh. cbn. rewrite !lookup_empty. split; [by intros []|done].
  - intros j h s k ->%Hh. cbn. by rewrite lookup_empty.
  - done.
  - intros j q k ev [-> _]%lookup_replicate. by intros ?%not_elem_of_nil.
  - intros i h s j h' q _ ->%Hh. cbn. rewrite lookup_empty. by intros [].
  - by intros a ?%not_elem_of_nil.
  - intros i h s qs q k ->%Hh. done.
Qed.

Lemma consistent_reachable n g : reachable n g → consistent g.
Proof.
  intros Hr. unfold reachable in Hr. remember (ginit n) as g0 eqn:E0.
  assert (consistent g0) as H0 by (subst; apply consistent_init). clear E0.
  induction Hr as [|g1 g2 g3 Hst _ IH]; [done|]. apply IH. by eapply consistent_step.
Qed.
End invariant.

(** ** Properties *)

Section claims.
Context {R : Type}.

(** C22: A push that a handler accepted for an open session is never lost, duplicated or
    overtaken by a later push that the same handler received: what handler [k] accepted,
    in order, is what the session's reader has taken, then what waits in its queue, then
    what is on its way in the event queue of the session's handler. *)
Theorem session_delivery n (g : gstate (R:=R)) i k s h qs q : reachable n g →
  handlers (clus g) !! i = Some h → session_queues h !! s = Some qs → event_queues (clus g) !! i = Some q →
  sent k s (log g) = from k (got s (log g)) ++ from k qs ++ pushes s (events_of k q).
Proof. intros Hr Hh Hs Hq. by apply (inv_delivery g (consistent_reachable n g Hr) i h s qs q k). Qed.

(** In every interleaving the tables of the handlers agree with the sessions. A
    handler holds a session exactly when its own table names it; a table never names a
    wrong handler for an open session; once a handler has read the events of the
    session's handler its table names it; and a push or the end of a session meets no
    missing key: only a full event queue makes it raise. *)
Lemma session_routing n (g : gstate (R:=R)) i h s : reachable n g → handlers (clus g) !! i = Some h →
  (is_Some (session_queues h !! s) ↔ session_handlers h !! s = Some i) ∧
  (is_Some (session_queues h !! s) →
    (∀ j h' k, handlers (clus g) !! j = Some h' → session_handlers h' !! s = Some k → k = i) ∧
    (∀ j h' q, handlers (clus g) !! j = Some h' → event_queues (clus g) !! j = Some q → events_of i q = [] →
      session_handlers h' !! s = Some i) ∧
    (∀ c' e, leave_session i s (clus g) = (c', e) → e = Ok tt ∨ e = Raise QueueFull)) ∧
  (∀ r c' e, put_into_session_queue i s (i, r) (clus g) = (c', e) → (∃ b, e = Ok b) ∨ e = Raise QueueFull).
Proof.
  intros Hr Hh. pose proof (consistent_reachable n g Hr) as Hg. split; [by apply (inv_own g Hg)|]. split.
  - intros Hs. pose proof (inv_open_owner g i h s Hg Hh Hs) as Ho. split; [|split].
    + intros j h' k Hj Ht. pose proof (inv_table g Hg j h' s k Hj Ht). congruence.
    + intros j h' q Hj Hq Hev. destruct (decide (i = j)) as [->|Hij].
      * rewrite Hh in Hj. injection Hj as <-. by apply (inv_own g Hg j h s Hh).
      * pose proof (inv_known g Hg i h s j h' q Hij Hh Hs Hj Hq) as Hd. by rewrite Hev in Hd.
    + intros c' e E. destruct g as [c o l]. by apply (consistent_leave c o l i s h c' e).
  - intros r c' e E. destruct g as [c o l]. eapply (consistent_push c o l i s r c' e); [done| |done].
    by eapply lookup_lt_Some.
Qed.
End claims.

(** ** Examples *)

Module demo.
(** Handler 0 opens a session; handler 1 learns of it and forwards a push, handler 0
    receives another; the reader takes the first. *)
Definition sid : string := "session".
Definition c1 : cluster (nat * Z) := (enter_session 0 sid (new_cluster 2)).1.
Definition c2 := default c1 (listen 1 0 c1).
Definition c3 := (put_into_session_queue 1 sid (1%nat, 7) c2).1.
Definition c4 := default c3 (listen 0 1 c3).
Definition c5 := (put_into_session_queue 0 sid (0%nat, 8) c4).1.
Definition c6 := (put_into_session_queue 1 sid (1%nat, 9) c5).1.
Definition c7 := (get_from_session_queue 0 sid c6).1.
Definition g : gstate := mkG c7 {[sid := 0%nat]} [LSent 1 sid (1%nat, 7); LSent 0 sid (0%nat, 8); LSent 1 sid (1%nat, 9); LGot 0 sid (1%nat, 7)].

Lemma reaches : reachable 2 g.
Proof.
  unfold reachable, ginit.
  eapply rtc_l; [apply (step_enter _ _ _ 0%nat sid c1 (Ok tt)); [vm_compute; lia|done|vm_compute; reflexivity]|].
  eapply rtc_l; [apply (step_listen _ _ _ 1%nat 0%nat c2); vm_compute; reflexivity|].
  eapply rtc_l; [apply (step_push _ _ _ 1%nat sid 7 c3 (Ok true)); [vm_compute; lia|vm_compute; reflexivity]|].
  eapply rtc_l; [apply (step_listen _ _ _ 0%nat 1%nat c4); vm_compute; reflexivity|].
  eapply rtc_l; [apply (step_push _ _ _ 0%nat sid 8 c5 (Ok true)); [vm_compute; lia|vm_compute; reflexivity]|].
  eapply rtc_l; [apply (step_push _ _ _ 1%nat sid 9 c6 (Ok true)); [vm_compute; lia|vm_compute; reflexivity]|].
  eapply rtc_l; [apply (step_get _ _ _ 0%nat sid c7 (Ok (Some (1%nat, 7)))); vm_compute; reflexivity|].
  apply rtc_refl.
Qed.
End demo.

Lemma session_delivery_witness :
  sent 1 demo.sid (log demo.g) = [(1%nat, 7)] ++ [] ++ [(1%nat, 9)].
Proof.
  rewrite (session_delivery 2 demo.g 0 1 demo.sid
    (mkHandler {[demo.sid := [(0%nat, 8)]]} {[demo.sid := 0%nat]} true) [(0%nat, 8)] [(1%nat, PUSH demo.sid (1%nat, 9))] demo.reaches);
    vm_compute; reflexivity.
Defined.

Lemma session_routing_witness : ∃ h, handlers (clus demo.g) !! 0%nat = Some h ∧ session_handlers h !! demo.sid = Some 0%nat.
Proof.
  exists (mkHandler {[demo.sid := [(0%nat, 8)]]} {[demo.sid := 0%nat]} true). split; [vm_compute; reflexivity|].
  apply (session_routing 2 demo.g 0 _ demo.sid demo.reaches); [vm_compute; reflexivity|]. vm_compute. eauto.
Defined.
