(* ===== verification/Observation.v ===== *)
(** * What a server reports of prefix reuse and live batching (server/handler.py)

    A client may send metadata about prefix reuse and continuous batching; behind an
    opt-in flag the server normalises it, copies a shared prefix between the rows of a
    cache, and reports what it did. The functions read and write metadata dictionaries;
    the cache manager is a record of its operations. *)

From stdpp Require Import numbers base gmap sets strings pretty list.
From Stdlib Require Import ZArith Lia ZifyBool.
From S2P Require Import Prelude Dict PyStr Floats PyVal.

Open Scope string_scope.
Open Scope list_scope.
Open Scope Z_scope.

Definition KV_PREFIX_REUSE_ENV_FLAG := "BLOOMBEE_ENABLE_KV_PREFIX_REUSE".
Definition KV_PREFIX_REUSE_CLAIM_BOUNDARY := "kv_prefix_reuse_prefill_metadata_no_live_cache_reuse".
Definition KV_PREFIX_REUSE_SERVER_CLAIM_BOUNDARY := "kv_prefix_reuse_server_cache_read_observed_no_speedup".
Definition LIVE_CONTINUOUS_BATCHING_ENV_FLAG := "BLOOMBEE_ENABLE_LIVE_CONTINUOUS_BATCHING".
Definition LIVE_CONTINUOUS_BATCHING_CLAIM_BOUNDARY :=
  "live_continuous_inference_session_tick_rows_no_server_parity_or_speedup".
Definition LIVE_CONTINUOUS_BATCHING_SERVER_CLAIM_BOUNDARY :=
  "live_continuous_batching_server_metadata_observed_no_parity_or_speedup".

Definition flag_set (env : environ) (flag : string) : bool := String.eqb (env_get env flag "0") "1".

(** ** Metadata of a request *)

(** The loop over the tick batches of the live payload. *)
Fixpoint find_reuse (batches : list value) : option metadata :=
  match batches with
  | [] => None
  | VDict raw :: rest =>
      match as_dict (dict_get raw "kv_prefix_reuse") with
      | Some payload => Some payload
      | None => find_reuse rest
      end
  | _ :: rest => find_reuse rest
  end.

(** [payload.get("tick_batches", [])] as it is iterated: a list, or a dictionary's or a
    string's parts, none of which is a dictionary; other values cannot be iterated. *)
Definition tick_batches_of (d : metadata) : res (list value) :=
  match get_default d "tick_batches" (VList []) with
  | VList l => Ok l
  | VDict _ | VStr _ => Ok []
  | _ => Raise TypeError
  end.

Definition extract_kv_prefix_reuse_metadata (env : environ) (md : metadata) : res (option metadata) :=
  if negb (flag_set env KV_PREFIX_REUSE_ENV_FLAG) then Ok None
  else
    payload ← match as_dict (dict_get md "kv_prefix_reuse") with
      | Some p => Ok (Some p)
      | None =>
          match as_dict (dict_get md "live_continuous_batching") with
          | Some live => find_reuse <$> tick_batches_of live
          | None => Ok None
          end
      end;
    match payload with
    | None => Ok None
    | Some payload =>
        if negb (is_str (dict_get payload "claim_boundary") KV_PREFIX_REUSE_CLAIM_BOUNDARY) then Ok None
        else Ok (Some (dict_update payload
          [("server_observed_metadata", VBool true); ("live_kv_cache_reuse_proven", VBool false);
           ("speedup_proven", VBool false); ("can_update_demo_status", VBool false)]))
    end.

(** A Python [try] whose [except Exception] returns None. *)
Definition try_none {A} (r : res (option A)) : option A := match r with Ok o => o | Raise _ => None end.

Section normalize.
Context (repr : value → string).

Record tick_batch := mkTickBatch {
  tb_tick : Z;
  tb_request_ids : list string;
  tb_positions : list Z;
  tb_input_token_ids : list Z;
  tb_active_mask : option (list bool);
}.

Definition as_list_of_length (v : option value) (n : nat) : option (list value) :=
  l ← as_list v; if (length l =? n)%nat then Some l else None.

(** [_normalize_live_continuous_tick_batch] *)
Definition normalize_live_continuous_tick_batch (raw : value) : option tick_batch :=
  raw ← as_dict (Some raw);
  request_ids ← as_list (dict_get raw "request_ids");
  if bool_decide (request_ids = []) then None
  else
    positions ← as_list_of_length (dict_get raw "positions") (length request_ids);
    input_token_ids ← as_list_of_length (dict_get raw "input_token_ids") (length request_ids);
    b ← try_none (
      tick ← py_int_of (get_default raw "tick" (VInt 0));
      let normalized_request_ids := py_str repr <$> request_ids in
      normalized_positions ← mapM py_int_of positions;
      normalized_input_token_ids ← mapM py_int_of input_token_ids;
      match get_some raw "active_mask" with
      | None => Ok (Some (mkTickBatch tick normalized_request_ids normalized_positions normalized_input_token_ids None))
      | Some mask =>
          match as_list_of_length (Some mask) (length request_ids) with
          | None => Ok None
          | Some mask => Ok (Some (mkTickBatch tick normalized_request_ids normalized_positions
                                     normalized_input_token_ids (Some (truthy <$> mask))))
          end
      end);
    if bool_decide (NoDup (tb_request_ids b)) then Some b else None.

Definition tick_batch_dict (b : tick_batch) : value :=
  VDict ([("tick", VInt (tb_tick b)); ("request_ids", VList (VStr <$> tb_request_ids b));
          ("positions", VList (VInt <$> tb_positions b)); ("input_token_ids", VList (VInt <$> tb_input_token_ids b))] ++
         match tb_active_mask b with Some m => [("active_mask", VList (VBool <$> m))] | None => [] end).

(** The loop that collects the request ids in order of appearance. *)
Fixpoint collect_ids (seen : list string) (ids : list string) : list string :=
  match ids with
  | [] => seen
  | i :: ids => collect_ids (if bool_decide (i ∈ seen) then seen else seen ++ [i]) ids
  end.

Definition extract_live_continuous_batching_metadata (env : environ) (md : metadata) : res (option metadata) :=
  if negb (flag_set env LIVE_CONTINUOUS_BATCHING_ENV_FLAG) then Ok None
  else match as_dict (dict_get md "live_continuous_batching") with
  | None => Ok None
  | Some payload =>
      if negb (is_str (dict_get payload "claim_boundary") LIVE_CONTINUOUS_BATCHING_CLAIM_BOUNDARY) then Ok None
      else if negb (is_str (dict_get payload "opt_in_flag") LIVE_CONTINUOUS_BATCHING_ENV_FLAG) then Ok None
      else if negb (is_true (dict_get payload "opt_in_enabled")) then Ok None
      else
        raw ← tick_batches_of payload;
        let tick_batches := omap normalize_live_continuous_tick_batch raw in
        if bool_decide (length tick_batches = 0%nat) then Ok None
        else
          let request_ids := collect_ids [] (mjoin (tb_request_ids <$> tick_batches)) in
          Ok (Some [("source", VStr "bloombee.server.handler");
            ("claim_boundary", VStr LIVE_CONTINUOUS_BATCHING_SERVER_CLAIM_BOUNDARY);
            ("opt_in_flag", VStr LIVE_CONTINUOUS_BATCHING_ENV_FLAG); ("opt_in_enabled", VBool true);
            ("request_count", VInt (zlen request_ids)); ("tick_batches", VList (tick_batch_dict <$> tick_batches));
            ("server_observed_live_continuous_batches",
              VBool (existsb (λ b, 1 <? zlen (tb_request_ids b)) tick_batches));
            ("live_server_proven", VBool true); ("speedup_proven", VBool false);
            ("wallclock_speedup_proven", VBool false); ("can_update_demo_status", VBool false);
            ("can_update_proof_status", VBool false)])
  end.
End normalize.

(** ** Handing a prefix over *)

Definition is_int (v : option value) : option Z := match v with Some (VInt n) => Some n | _ => None end.

(** What one event of the metadata says of the common prefix. *)
Definition event_prefix_count (event : value) : option Z :=
  d ← as_dict (Some event);
  match is_int (dict_get d "common_prefix_token_count") with
  | Some n => Some n
  | None => zlen <$> as_list (dict_get d "common_prefix_token_ids")
  end.

(** [max] of a non-empty list *)
Definition max_list (x : Z) (l : list Z) : Z := foldl Z.max x l.

Definition common_prefix_token_count_from_kv_metadata (observed : option value) : Z :=
  match as_dict observed with
  | None => 0
  | Some d =>
      match as_list (dict_get d "events") with
      | None => 0
      | Some events => match omap event_prefix_count events with [] => 0 | c :: cs => max_list c cs end
      end
  end.

Definition cache_handle_count (cache_handles : list (list Z)) : Z := foldr (λ g acc, zlen g + acc) 0 cache_handles.

Fixpoint first_cache_handle (cache_handles : list (list Z)) : option Z :=
  match cache_handles with
  | [] => None
  | (h :: _) :: _ => Some h
  | [] :: rest => first_cache_handle rest
  end.

Definition row_bh_width_from_cache_shape (shape : list Z) (batch_size : Z) : option Z :=
  if batch_size <? 2 then None
  else match shape with
  | s0 :: s1 :: _ :: rest =>
      if (4 <=? zlen shape) && (batch_size <=? s0) then Some s1
      else if (batch_size <=? s1) && (s1 mod batch_size =? 0) then Some (s1 / batch_size)
      else None
  | _ => None
  end.

Definition normalize_handoff_bh_slice (v : option value) : option (Z * Z) :=
  match v with
  | Some (VList [a; b]) =>
      try_none (
        start ← py_int_of a; end_ ← py_int_of b;
        if (start <? 0) || (end_ <=? start) then Ok None else Ok (Some (start, end_)))
  | _ => None
  end.

Definition handoff_slices_non_overlapping (source_slice destination_slice : Z * Z) : bool :=
  (source_slice.2 <=? destination_slice.1) || (destination_slice.2 <=? source_slice.1).

(** [v or 0] *)
Definition or_zero (v : value) : value := if truthy v then v else VInt 0.

(** [try: int(v or 0)], 0 when it raises *)
Definition int_or_zero (v : value) : Z := match py_int_of (or_zero v) with Ok n => n | Raise _ => 0 end.

(** What the handler uses of the cache manager: the shape of a handle's first slab, and
    [copy_prefix_from_handle] with the source and destination slices. *)
Record cache_ops (S : Type) := mkCacheOps {
  first_slab_shape : S → Z → option (list Z);
  copy_prefix : Z → Z → Z → Z * Z → Z * Z → M S metadata;
}.
Arguments first_slab_shape {S} _.
Arguments copy_prefix {S} _.

Section handoff.
Context {S : Type} (ops : cache_ops S) (describe : exn → string).
Context (step_metadata : metadata) (cache_handles : list (list Z)) (batch_size : Z).

(** The session's metadata and the cache manager. *)
Abbreviation state := (metadata * S)%type (only parsing).

Definition set_key (k : string) (v : value) : M state unit := modify (λ st, (dict_set st.1 k v, st.2)).
Definition on_cache {A} (m : M S A) : M state A := λ st, let (s, r) := m st.2 in ((st.1, s), r).

Definition step_prefix : value := get_default step_metadata "_prefix_length" (VInt 0).

Definition diagnose (reason : string) (extra : metadata) : M state unit :=
  n ← lift (py_int_of (or_zero step_prefix));
  set_key "kv_prefix_reuse_server_handoff_diagnostic" (VDict (dict_update
    [("source", VStr "bloombee.server.handler");
     ("claim_boundary", VStr "kv_prefix_reuse_server_handoff_diagnostic_no_proof");
     ("reason", VStr reason); ("server_observed_kv_cache_reuse", VBool false);
     ("live_kv_cache_reuse_proven", VBool false); ("speedup_proven", VBool false);
     ("can_update_demo_status", VBool false); ("batch_size", VInt batch_size); ("step_prefix_length", VInt n)] extra)).

(** The length of prefix to hand over. *)
Definition handoff_length (step_prefix_length common_prefix_count : Z) : Z :=
  let prefix_length := if 0 <? step_prefix_length then step_prefix_length else common_prefix_count in
  if 0 <? common_prefix_count then
    if 0 <? prefix_length then Z.min prefix_length common_prefix_count else common_prefix_count
  else prefix_length.

(** [try: copy_fn(...)] *)
Definition try_copy (handle n : Z) (source_slice destination_slice : Z * Z) : M state (metadata + exn) := λ st,
  match on_cache (copy_prefix ops handle handle n source_slice destination_slice) st with
  | (st', Ok d) => (st', Ok (inl d))
  | (st', Raise e) => (st', Ok (inr e))
  end.

(** [d.setdefault(k, v)] *)
Definition setdefault (d : metadata) (k : string) (v : value) : metadata := if dict_mem d k then d else dict_set d k v.

(** The body once handle, shape and slices are known. *)
Definition hand_over (common_prefix_count prefix_length handle : Z) (shape : list Z) (row_bh_width : Z)
    : M state (option metadata) :=
  let extra := [("common_prefix_token_count", VInt common_prefix_count); ("prefix_length", VInt prefix_length);
    ("cache_read_source_handle_id", VInt handle); ("cache_tensor_shape", VList (VInt <$> shape))] in
  r ← try_copy handle prefix_length (0, row_bh_width) (row_bh_width, row_bh_width * 2);
  match r with
  | inr e =>
      set_key "kv_prefix_reuse_server_handoff_error" (VStr (describe e));;
      diagnose "copy_prefix_from_handle_failed" (extra ++ [("error", VStr (describe e))]);;
      mret None
  | inl handoff =>
      if negb (is_true (dict_get handoff "server_handle_handoff_observed")) then
        diagnose "copy_prefix_from_handle_not_observed" extra;; mret None
      else
        let handoff := setdefault handoff "client_claimed_prefix_token_count" (VInt common_prefix_count) in
        let handoff := setdefault handoff "source" (VStr "bloombee.server.handler") in
        set_key "kv_prefix_reuse_server_handoff" (VDict handoff);;
        modify (λ st : state, (dict_del st.1 "kv_prefix_reuse_server_handoff_diagnostic", st.2));;
        mret (Some handoff)
  end.

(** The checks before, in the order of the code. *)
Definition attempt_handoff (md : metadata) (s : S) : M state (option metadata) :=
  let observed := dict_get md "kv_prefix_reuse_server_observed" in
  match as_dict observed with
  | None => mret None
  | Some _ =>
      let common := common_prefix_token_count_from_kv_metadata observed in
      let prefix_length := handoff_length (int_or_zero step_prefix) common in
      let refuse (reason : string) (extra : metadata) : M state (option metadata) :=
        diagnose reason (("common_prefix_token_count", VInt common) :: extra);; mret None in
      if prefix_length <=? 0 then refuse "missing_positive_prefix_length" []
      else
        let known := [("prefix_length", VInt prefix_length)] in
        if batch_size <? 2 then refuse "batch_size_below_two" known
        else match first_cache_handle cache_handles with
        | None => refuse "missing_cache_handle" known
        | Some handle =>
            let known := known ++ [("cache_read_source_handle_id", VInt handle)] in
            match first_slab_shape ops s handle with
            | None => refuse "missing_cache_tensor_shape" known
            | Some shape =>
                let unsupported := refuse "unsupported_cache_tensor_shape"
                  (known ++ [("cache_tensor_shape", VList (VInt <$> shape))]) in
                match row_bh_width_from_cache_shape shape batch_size with
                | None => unsupported
                | Some row_bh_width =>
                    if row_bh_width <=? 0 then unsupported
                    else hand_over common prefix_length handle shape row_bh_width
                end
            end
        end
  end.

Definition maybe_record_kv_prefix_reuse_handoff (env : environ) : M state (option metadata) :=
  if negb (flag_set env KV_PREFIX_REUSE_ENV_FLAG) then mret None
  else
    st ← get;
    let existing := as_dict (dict_get st.1 "kv_prefix_reuse_server_handoff") in
    match existing with
    | Some d => if is_true (dict_get d "server_handle_handoff_observed") then mret (Some d) else attempt_handoff st.1 st.2
    | None => attempt_handoff st.1 st.2
    end.

(** ** The report *)

Definition required_keys : list string :=
  ["cache_read_source_handle_id"; "cache_write_destination_handle_id"; "server_recovered_prefix_token_count";
   "kv_prefix_byte_checksum_sha256"].

Definition slice_value (sl : Z * Z) : value := VList [VInt sl.1; VInt sl.2].
Definition opt_entry {A} (k : string) (f : A → value) (o : option A) : metadata :=
  match o with Some a => [(k, f a)] | None => [] end.

Context (repr : value → string) (requested_uids : list string).

(** [handoff[k]], which is known to be there *)
Definition item (d : metadata) (k : string) : value := get_default d k VNone.

(** The report of a handoff [handoff]: the checks, then the dictionary. *)
Definition report_handoff (observed : option value) (handoff : metadata) : res (option metadata) :=
  if negb (forallb (dict_mem handoff) required_keys) then Ok None
  else
    let same_handle := py_eqb (item handoff "cache_read_source_handle_id") (item handoff "cache_write_destination_handle_id") in
    let source_slice := normalize_handoff_bh_slice (dict_get handoff "cache_read_source_bh_slice") in
    let destination_slice := normalize_handoff_bh_slice (dict_get handoff "cache_write_destination_bh_slice") in
    let slices_ok := match source_slice, destination_slice with
      | Some s, Some d => handoff_slices_non_overlapping s d
      | _, _ => false
      end in
    if same_handle && negb slices_ok then Ok None
    else
      let prefix_length := int_or_zero (get_default handoff "prefix_length" step_prefix) in
      if prefix_length <=? 0 then Ok None
      else if cache_handle_count cache_handles <=? 0 then Ok None
      else
        let common := common_prefix_token_count_from_kv_metadata observed in
        recovered ← py_int_of (or_zero (get_default handoff "server_recovered_prefix_token_count" (VInt 0)));
        let reused := if 0 <? recovered then recovered
          else if negb (common =? 0) then Z.min prefix_length common else prefix_length in
        Ok (Some ([("source", VStr "bloombee.server.handler");
          ("claim_boundary", VStr KV_PREFIX_REUSE_SERVER_CLAIM_BOUNDARY);
          ("opt_in_flag", VStr KV_PREFIX_REUSE_ENV_FLAG); ("opt_in_enabled", VBool true);
          ("server_observed_metadata", VBool true); ("server_observed_kv_cache_reuse", VBool true);
          ("live_kv_cache_reuse_proven", VBool true); ("server_handle_handoff_observed", VBool true);
          ("cache_read_source_handle_id", item handoff "cache_read_source_handle_id");
          ("cache_write_destination_handle_id", item handoff "cache_write_destination_handle_id");
          ("kv_prefix_byte_checksum_sha256", item handoff "kv_prefix_byte_checksum_sha256");
          ("speedup_proven", VBool false); ("can_update_demo_status", VBool false);
          ("prefix_length", VInt prefix_length); ("common_prefix_token_count", VInt common);
          ("server_recovered_prefix_token_count", VInt recovered); ("reused_prefix_token_count", VInt reused);
          ("cache_handle_group_count", VInt (zlen cache_handles));
          ("cache_handle_count", VInt (cache_handle_count cache_handles));
          ("requested_block_count", VInt (zlen requested_uids)); ("requested_uids", VList (VStr <$> requested_uids));
          ("step_id", VStr (py_str repr (get_default step_metadata "step_id" (VStr "unknown"))))] ++
          opt_entry "cache_read_source_bh_slice" slice_value source_slice ++
          opt_entry "cache_write_destination_bh_slice" slice_value destination_slice)).

Definition build_kv_cache_reuse_observation (env : environ) (md : metadata) : res (option metadata) :=
  if negb (flag_set env KV_PREFIX_REUSE_ENV_FLAG) then Ok None
  else match as_dict (dict_get md "kv_prefix_reuse_server_observed") with
  | None => Ok None
  | Some _ =>
      match as_dict (dict_get md "kv_prefix_reuse_server_handoff") with
      | None => Ok None
      | Some handoff =>
          if negb (is_true (dict_get handoff "server_handle_handoff_observed")) then Ok None
          else report_handoff (dict_get md "kv_prefix_reuse_server_observed") handoff
      end
  end.

Definition build_rpc_inference_response_metadata (env : environ) (md : metadata) : res metadata :=
  let live := opt_entry "live_continuous_batching_server_observed" VDict
    (as_dict (dict_get md "live_continuous_batching_server_observed")) in
  kv_observed ← build_kv_cache_reuse_observation env md;
  Ok (live ++ match kv_observed with
    | Some d => [("kv_prefix_reuse_server_observed", VDict d)]
    | None => opt_entry "kv_prefix_reuse_server_diagnostic" VDict
                (as_dict (dict_get md "kv_prefix_reuse_server_handoff_diagnostic"))
    end).

(** The part of [rpc_inference] that, for a step of the session, takes over what the
    runtime wrote into the step's metadata or tries the handoff, and builds the metadata
    of the response. *)
Definition respond_step (env : environ) : M state metadata :=
  let runtime_handoff := as_dict (dict_get step_metadata "kv_prefix_reuse_server_handoff") in
  let runtime_diagnostic := as_dict (dict_get step_metadata "kv_prefix_reuse_server_handoff_diagnostic") in
  let no_handoff : M state unit :=
    match runtime_diagnostic with
    | Some d => set_key "kv_prefix_reuse_server_handoff_diagnostic" (VDict d)
    | None => maybe_record_kv_prefix_reuse_handoff env;; mret tt
    end in
  match runtime_handoff with
  | Some d =>
      if is_true (dict_get d "server_handle_handoff_observed") then
        set_key "kv_prefix_reuse_server_handoff" (VDict d);;
        modify (λ st : state, (dict_del st.1 "kv_prefix_reuse_server_handoff_diagnostic", st.2))
      else no_handoff
  | None => no_handoff
  end;;
  st ← get; lift (build_rpc_inference_response_metadata env st.1).
End handoff.

(** ** Proofs *)

Lemma collect_ids_spec ids seen : NoDup seen →
  NoDup (collect_ids seen ids) ∧ ∀ i, i ∈ collect_ids seen ids ↔ i ∈ seen ∨ i ∈ ids.
Proof.
  revert seen. induction ids as [|i ids IH]; intros seen Hs; cbn [collect_ids].
  { split; [done|]. intros i. rewrite elem_of_nil. tauto. }
  case_bool_decide as Hi.
  - destruct (IH seen Hs) as [H1 H2]. split; [done|]. intros j. rewrite H2, elem_of_cons.
    split; [tauto|]. intros [|[->|]]; auto.
  - destruct (IH (seen ++ [i])) as [H1 H2].
    { apply NoDup_app. split; [done|]. split; [|apply NoDup_singleton].
      intros j Hj ->%list_elem_of_singleton. done. }
    split; [done|]. intros j. rewrite H2, elem_of_app, list_elem_of_singleton, elem_of_cons. tauto.
Qed.

(** The requests counted are the distinct ones. *)
Lemma collect_ids_size ids : length (collect_ids [] ids) = size (list_to_set ids : gset string).
Proof.
  destruct (collect_ids_spec ids [] ltac:(constructor)) as [Hnd Hin].
  rewrite <- (size_list_to_set (C := gset string) (collect_ids [] ids)) by done.
  f_equal. apply leibniz_equiv. intros i. rewrite !elem_of_list_to_set, Hin, elem_of_nil. tauto.
Qed.

Lemma as_list_of_length_Some v n l : as_list_of_length v n = Some l → length l = n.
Proof.
  unfold as_list_of_length. destruct (as_list v) as [l'|]; [|done]. cbn.
  destruct (Nat.eqb_spec (length l') n); [|done]. by intros [= ->].
Qed.

(** A tick batch that passes has one position and one token per request, and no request twice. *)
Definition batch_ok (b : tick_batch) : Prop :=
  tb_request_ids b ≠ [] ∧ NoDup (tb_request_ids b) ∧ length (tb_positions b) = length (tb_request_ids b) ∧
  length (tb_input_token_ids b) = length (tb_request_ids b) ∧
  ∀ m, tb_active_mask b = Some m → length m = length (tb_request_ids b).

Lemma normalize_ok repr raw b : normalize_live_continuous_tick_batch repr raw = Some b → batch_ok b.
Proof.
  unfold normalize_live_continuous_tick_batch. destruct (as_dict (Some raw)) as [d|]; [|done]. cbn.
  destruct (as_list (dict_get d "request_ids")) as [ids|]; [|done]. cbn. case_bool_decide as Hids; [done|].
  destruct (as_list_of_length (dict_get d "positions") _) as [ps|] eqn:Hps; [|done]. cbn.
  destruct (as_list_of_length (dict_get d "input_token_ids") _) as [ts|] eqn:Hts; [|done]. cbn.
  apply as_list_of_length_Some in Hps, Hts.
  destruct (py_int_of _) as [tick|]; [|done]. cbn.
  destruct (mapM py_int_of ps) as [ps'|] eqn:Ep; [|done]. cbn. apply mapM_res_length in Ep.
  destruct (mapM py_int_of ts) as [ts'|] eqn:Et; [|done]. cbn. apply mapM_res_length in Et.
  assert (py_str repr <$> ids ≠ []) as Hne by (destruct ids; [by destruct Hids|done]).
  destruct (get_some d "active_mask") as [mask|].
  - destruct mask as [| | | | |l|]; try done. cbn.
    destruct (Nat.eqb_spec (length l) (length ids)) as [Hm|]; [|done]. cbn.
    case_bool_decide as Hnd; [|done]. intros [= <-]. unfold batch_ok. cbn. rewrite length_fmap.
    repeat split; try done; try congruence. intros m' [= <-]. by rewrite length_fmap.
  - cbn. case_bool_decide as Hnd; [|done]. intros [= <-]. unfold batch_ok. cbn. rewrite length_fmap.
    repeat split; try done; congruence.
Qed.

(** Live batching is reported only when the server was told to observe it and the
    client's payload carries the agreed marks; every tick batch reported has distinct
    requests with a position and a token each, the requests are counted without
    repetition, and a live batch is claimed exactly when some tick had two requests. *)
Lemma live_observation repr env md d : extract_live_continuous_batching_metadata repr env md = Ok (Some d) →
  env_get env LIVE_CONTINUOUS_BATCHING_ENV_FLAG "0" = "1" ∧
  ∃ payload bs, dict_get md "live_continuous_batching" = Some (VDict payload) ∧
    is_str (dict_get payload "claim_boundary") LIVE_CONTINUOUS_BATCHING_CLAIM_BOUNDARY = true ∧
    is_true (dict_get payload "opt_in_enabled") = true ∧
    bs ≠ [] ∧ Forall batch_ok bs ∧ dict_get d "tick_batches" = Some (VList (tick_batch_dict <$> bs)) ∧
    dict_get d "request_count" =
      Some (VInt (Z.of_nat (size (list_to_set (mjoin (tb_request_ids <$> bs)) : gset string)))) ∧
    (dict_get d "server_observed_live_continuous_batches" = Some (VBool true) ↔
      ∃ b r1 r2, b ∈ bs ∧ r1 ≠ r2 ∧ r1 ∈ tb_request_ids b ∧ r2 ∈ tb_request_ids b).
Proof.
  unfold extract_live_continuous_batching_metadata, flag_set.
  destruct (String.eqb_spec (env_get env LIVE_CONTINUOUS_BATCHING_ENV_FLAG "0") "1") as [Henv|]; [|done]. cbn [negb].
  destruct (dict_get md "live_continuous_batching") as [[| | | | | |payload]|] eqn:Hmd; try done. cbn [as_dict].
  destruct (is_str _ LIVE_CONTINUOUS_BATCHING_CLAIM_BOUNDARY) eqn:Hb; [|done]. cbn [negb].
  destruct (is_str _ LIVE_CONTINUOUS_BATCHING_ENV_FLAG); [|done]. cbn [negb].
  destruct (is_true _) eqn:Ho; [|done]. cbn [negb]. destruct (tick_batches_of payload) as [raw|]; [|done]. cbn [mbind res_bind].
  set (bs := omap _ raw). case_bool_decide as Hlen; [done|]. intros [= <-]. split; [done|].
  assert (Hok : Forall batch_ok bs).
  { apply Forall_forall. intros b (x & _ & Hx)%list_elem_of_omap. by eapply normalize_ok. }
  exists payload, bs. split; [done|]. split; [done|]. split; [done|].
  split; [by intros Hnil; rewrite Hnil in Hlen|]. split; [done|]. split; [done|].
  split; [cbn; unfold zlen; by rewrite collect_ids_size|]. cbn. split.
  - intros [= E]. apply existsb_exists in E as (b & Hb' & Hl). apply list_elem_of_In in Hb'.
    rewrite Forall_forall in Hok. destruct (Hok b Hb') as (_ & Hnd & _). unfold zlen in Hl.
    destruct (tb_request_ids b) as [|r1 [|r2 l]] eqn:Hids; cbn in Hl; try lia.
    exists b, r1, r2. apply NoDup_cons in Hnd as [Hr _]. rewrite Hids. split; [done|].
    split; [intros ->; apply Hr; by left|]. split; [by left|right; by left].
  - intros (b & r1 & r2 & Hb' & Hne & Hr1 & Hr2). do 2 f_equal. apply existsb_exists. exists b.
    split; [by apply list_elem_of_In|]. apply Z.ltb_lt. unfold zlen.
    destruct (tb_request_ids b) as [|x [|y l]]; [by apply not_elem_of_nil in Hr1| |cbn; lia].
    apply list_elem_of_singleton in Hr1, Hr2. congruence.
Qed.

(** Every report claims the reuse proven. *)
Lemma report_handoff_claims step_metadata cache_handles repr uids observed handoff rep :
  report_handoff step_metadata cache_handles repr uids observed handoff = Ok (Some rep) →
  dict_get rep "live_kv_cache_reuse_proven" = Some (VBool true) ∧ 0 < cache_handle_count cache_handles.
Proof.
  unfold report_handoff. destruct (forallb _ _); [|done]. cbn [negb].
  destruct (_ && _); [done|]. destruct (_ <=? 0); [done|]. destruct (Z.leb_spec (cache_handle_count cache_handles) 0); [done|].
  destruct (py_int_of _); [|done]. cbn [mbind res_bind]. intros [= <-]. done.
Qed.

(** The report of a proven prefix reuse can rest on nothing but the client's word: a
    step whose metadata already holds a handoff marked as observed is reported as proven
    reuse, with whatever handles and checksum it names, and the cache is not touched. *)
Lemma client_handoff_trusted {S} (ops : cache_ops S) describe step_metadata cache_handles batch_size repr uids env md s
    handoff observed rep :
  flag_set env KV_PREFIX_REUSE_ENV_FLAG = true →
  dict_get step_metadata "kv_prefix_reuse_server_handoff" = Some (VDict handoff) →
  is_true (dict_get handoff "server_handle_handoff_observed") = true →
  dict_get md "kv_prefix_reuse_server_observed" = Some (VDict observed) →
  report_handoff step_metadata cache_handles repr uids (Some (VDict observed)) handoff = Ok (Some rep) →
  ∃ md' resp, respond_step ops describe step_metadata cache_handles batch_size repr uids env (md, s) = ((md', s), Ok resp) ∧
    dict_get resp "kv_prefix_reuse_server_observed" = Some (VDict rep) ∧
    dict_get rep "live_kv_cache_reuse_proven" = Some (VBool true).
Proof.
  intros Hflag Hh Ho Hobs Hrep. unfold respond_step. rewrite Hh. cbn [as_dict]. rewrite Ho.
  set (md1 := dict_del (dict_set md "kv_prefix_reuse_server_handoff" (VDict handoff)) "kv_prefix_reuse_server_handoff_diagnostic").
  assert (Hg1 : dict_get md1 "kv_prefix_reuse_server_handoff" = Some (VDict handoff)).
  { unfold md1. by rewrite dict_get_del_ne, dict_get_set_eq. }
  assert (Hg2 : dict_get md1 "kv_prefix_reuse_server_observed" = Some (VDict observed)).
  { unfold md1. by rewrite dict_get_del_ne, dict_get_set_ne. }
  assert (Hb : build_kv_cache_reuse_observation step_metadata cache_handles repr uids env md1 = Ok (Some rep)).
  { unfold build_kv_cache_reuse_observation. rewrite Hflag, Hg1, Hg2. cbn [negb as_dict]. by rewrite Ho. }
  set (live := opt_entry "live_continuous_batching_server_observed" VDict
    (as_dict (dict_get md1 "live_continuous_batching_server_observed"))).
  exists md1, (live ++ [("kv_prefix_reuse_server_observed", VDict rep)]). split; [|split].
  - change (lift (build_rpc_inference_response_metadata step_metadata cache_handles repr uids env md1) (md1, s) =
      (md1, s, Ok (live ++ [("kv_prefix_reuse_server_observed", VDict rep)]))).
    unfold build_rpc_inference_response_metadata, lift. by rewrite Hb.
  - unfold live. by destruct (as_dict (dict_get md1 "live_continuous_batching_server_observed")).
  - by apply report_handoff_claims in Hrep as [Hc _].
Qed.

(** ** Examples *)

Definition demo_env : environ := λ name,
  if String.eqb name KV_PREFIX_REUSE_ENV_FLAG || String.eqb name LIVE_CONTINUOUS_BATCHING_ENV_FLAG then Some "1" else None.

Definition demo_row (tick : Z) (ids : list string) : value :=
  VDict [("tick", VInt tick); ("request_ids", VList (VStr <$> ids)); ("positions", VList ((λ _, VInt 0) <$> ids));
         ("input_token_ids", VList ((λ _, VInt 1) <$> ids))].

Definition demo_live : metadata :=
  [("live_continuous_batching", VDict
     [("claim_boundary", VStr LIVE_CONTINUOUS_BATCHING_CLAIM_BOUNDARY);
      ("opt_in_flag", VStr LIVE_CONTINUOUS_BATCHING_ENV_FLAG); ("opt_in_enabled", VBool true);
      ("tick_batches", VList [demo_row 0 ["a"]; demo_row 1 ["a"; "b"]; demo_row 2 ["c"; "c"]])])].

Lemma live_observation_witness : ∃ d bs,
  extract_live_continuous_batching_metadata (λ _, "?") demo_env demo_live = Ok (Some d) ∧
  dict_get d "tick_batches" = Some (VList (tick_batch_dict <$> bs)) ∧ Forall batch_ok bs.
Proof.
  destruct (extract_live_continuous_batching_metadata (λ _, "?") demo_env demo_live) as [[d|]|] eqn:E;
    [|exfalso; vm_compute in E; discriminate|exfalso; vm_compute in E; discriminate].
  destruct (live_observation (λ _, "?") demo_env demo_live d E) as (_ & p & bs & _ & _ & _ & _ & Hok & Hbs & _).
  exists d, bs. done.
Defined.

(** A cache manager without any tensor. *)
Definition no_cache : cache_ops unit := mkCacheOps unit (λ _ _, None) (λ _ _ _ _ _, mthrow KeyError).

Definition forged : metadata :=
  [("server_handle_handoff_observed", VBool true); ("cache_read_source_handle_id", VInt 1);
   ("cache_write_destination_handle_id", VInt 2); ("server_recovered_prefix_token_count", VInt 1000);
   ("prefix_length", VInt 1000); ("kv_prefix_byte_checksum_sha256", VStr "00")].

Lemma client_handoff_trusted_witness : ∃ md' resp rep,
  respond_step no_cache (λ _, "") [("kv_prefix_reuse_server_handoff", VDict forged)] [[1]] 1 (λ _, "?") ["block.0"] demo_env
    ([("kv_prefix_reuse_server_observed", VDict [])], tt) = ((md', tt), Ok resp) ∧
  dict_get resp "kv_prefix_reuse_server_observed" = Some (VDict rep) ∧
  dict_get rep "live_kv_cache_reuse_proven" = Some (VBool true).
Proof.
  destruct (report_handoff [("kv_prefix_reuse_server_handoff", VDict forged)] [[1]] (λ _, "?") ["block.0"]
    (Some (VDict [])) forged) as [[rep|]|] eqn:E;
    [|exfalso; vm_compute in E; discriminate|exfalso; vm_compute in E; discriminate].
  destruct (client_handoff_trusted no_cache (λ _, "") [("kv_prefix_reuse_server_handoff", VDict forged)] [[1]] 1 (λ _, "?")
    ["block.0"] demo_env [("kv_prefix_reuse_server_observed", VDict [])] tt forged [] rep) as (md' & resp & H);
    [reflexivity|reflexivity|reflexivity|reflexivity|exact E|].
  exists md', resp, rep. exact H.
Defined.
