(* ===== verification/PrefixHandoff.v ===== *)
(** * Prefix reuse from the step's metadata to the cache (server/block_functions.py,
    server/backend.py, server/memory_cache_manager.py)

    The server reads from a step's metadata whether prefix reuse is armed; the backend
    then copies the shared prefix from the first row of the cache to the second, through
    [copy_prefix_from_handle]. The handler's own attempt (Observation.v) uses the same
    call; both are proved against the cache manager's slabs. *)

From stdpp Require Import numbers base strings pretty list.
From Stdlib Require Import ZArith Lia ZifyBool.
From S2P Require Import Prelude Dict Torch PyStr Floats PyVal Microbatch KVCacheManager Observation.

Open Scope string_scope.
Open Scope list_scope.
Open Scope Z_scope.

(** ** Reading the step's metadata *)

(** [_to_int] *)
Definition to_int (v : value) (dflt : Z) : Z := match py_int_of v with Ok n => n | Raise _ => dflt end.

(** A count, or the length of a list when the count is below [least]. *)
Definition count_or_length (least : Z) (d : metadata) (count_key list_key : string) : Z :=
  let count := int_or_zero (get_default d count_key (VInt 0)) in
  if count <? least then match as_list (dict_get d list_key) with Some l => zlen l | None => count end else count.

(** The positive counts of the events. *)
Definition event_counts (least : Z) (events : list value) (count_key list_key : string) : list Z :=
  filter (λ n, 0 < n) (omap (λ e, match e with VDict d => Some (count_or_length least d count_key list_key) | _ => None end) events).

(** The fields [kv_prefix_reuse_common_prefix_token_count] and [kv_prefix_reuse_request_count]
    of the dictionary; [None] is the empty one. *)
Definition kv_prefix_reuse_metadata_kwargs (md : metadata) : option (Z * Z) :=
  match as_dict (dict_get md "kv_prefix_reuse_server_observed") with
  | None => None
  | Some observed =>
      let events := as_list (dict_get observed "events") in
      let common := count_or_length 1 observed "common_prefix_token_count" "common_prefix_token_ids" in
      let common :=
        if common <=? 0 then
          match events with
          | Some evs =>
              match event_counts 1 evs "common_prefix_token_count" "common_prefix_token_ids" with
              | [] => 0
              | c :: cs => max_list c cs
              end
          | None => common
          end
        else common in
      let requests := int_or_zero (get_default observed "request_count" (VInt 0)) in
      let requests :=
        if requests <? 2 then
          match events with
          | Some evs =>
              match event_counts 2 evs "request_count" "requests" with
              | [] => requests
              | c :: cs => max_list c cs
              end
          | None => requests
          end
        else requests in
      if (common <=? 0) || (requests <? 2) then None else Some (common, requests)
  end.

Record fullbatch := mkFullbatch {
  fb_batch_offset : Z;
  fb_full_batch_size : Z;
  fb_micro_batch_size : Z;
  fb_reuse : option (Z * Z);
}.

Definition fullbatch_metadata_kwargs (md : metadata) (batch_size : Z) : fullbatch :=
  let live_batch := Z.max 1 batch_size in
  let full := to_int (get_default md "full_batch_size" VNone) live_batch in
  let full := if full <=? 0 then live_batch else full in
  let offset := to_int (get_default md "batch_offset" (get_default md "offset" (VInt 0))) 0 in
  let offset := if offset <? 0 then 0 else offset in
  let default_micro := if offset <? full then Z.min live_batch (full - offset) else live_batch in
  let micro := to_int (get_default md "micro_batch_size" (get_default md "size" (VInt default_micro))) default_micro in
  let micro := if micro <=? 0 then default_micro else micro in
  mkFullbatch offset full micro (kv_prefix_reuse_metadata_kwargs md).

Definition live_active_mask_from_step_metadata (md : metadata) (batch_size : Z) : option (list bool) :=
  if batch_size <=? 0 then None
  else
    live ← as_dict (dict_get md "live_continuous_batching");
    tick_batches ← as_list (dict_get live "tick_batches");
    tick_batch ← as_dict (tick_batches !! 0%nat);
    raw_mask ← as_list (dict_get tick_batch "active_mask");
    if zlen raw_mask =? batch_size then Some (truthy <$> raw_mask)
    else
      let batch_offset := to_int (get_default md "batch_offset" (VInt 0)) 0 in
      let micro_batch_size := to_int (get_default md "micro_batch_size" (VInt batch_size)) batch_size in
      if (batch_offset <? 0) || negb (micro_batch_size =? batch_size) then None
      else if zlen raw_mask <? batch_offset + batch_size then None
      else Some (truthy <$> py_slice raw_mask batch_offset (batch_offset + batch_size)).

(** ** The backend's handoff *)

Section runtime.
Context {S A : Type} (ops : cache_ops S) (describe : exn → string).
Context (info : inference_metadata A).

Abbreviation common_count := (default 0 (kw_kv_prefix_reuse_common_prefix_token_count A (md_kwargs A info))) (only parsing).
Abbreviation request_count := (default 0 (kw_kv_prefix_reuse_request_count A (md_kwargs A info))) (only parsing).

(** [_kv_handoff_diagnostic], under its key *)
Definition kv_handoff_diagnostic (reason : string) (batch_size : Z) (extra : metadata) : metadata :=
  [("kv_prefix_reuse_server_handoff_diagnostic", VDict (dict_update
    [("source", VStr "bloombee.server.backend");
     ("claim_boundary", VStr "kv_prefix_reuse_server_handoff_diagnostic_no_proof");
     ("reason", VStr reason); ("server_observed_kv_cache_reuse", VBool false);
     ("live_kv_cache_reuse_proven", VBool false); ("speedup_proven", VBool false);
     ("can_update_demo_status", VBool false); ("batch_size", VInt batch_size);
     ("common_prefix_token_count", VInt common_count); ("prefix_length", VInt common_count)] extra))].

(** The call of the copy, and what the code makes of its outcome. *)
Definition runtime_copy (batch_size handle w : Z) (known : metadata) : M S metadata := λ s,
  match copy_prefix ops handle handle common_count (0, w) (w, w * 2) s with
  | (s', Raise e) =>
      (s', Ok (kv_handoff_diagnostic "copy_prefix_from_handle_failed" batch_size (known ++ [("error", VStr (describe e))])))
  | (s', Ok handoff) =>
      (s', Ok (if negb (is_true (dict_get handoff "server_handle_handoff_observed"))
               then kv_handoff_diagnostic "copy_prefix_from_handle_not_observed" batch_size known
               else [("kv_prefix_reuse_server_handoff", VDict
                      (setdefault (setdefault handoff "source" (VStr "bloombee.server.backend"))
                         "client_claimed_prefix_token_count" (VInt common_count)))]))
  end.

(** From the shape of the cache on. *)
Definition runtime_attempt (batch_size handle : Z) : M S metadata := λ s,
  let known := [("cache_read_source_handle_id", VInt handle)] in
  match first_slab_shape ops s handle with
  | None => (s, Ok (kv_handoff_diagnostic "missing_cache_tensor_shape" batch_size known))
  | Some shape =>
      let known := known ++ [("cache_tensor_shape", VList (VInt <$> shape))] in
      let full_batch_size := if kw_full_batch_size A (md_kwargs A info) =? 0 then batch_size
                             else kw_full_batch_size A (md_kwargs A info) in
      let width := match row_bh_width_from_cache_shape shape full_batch_size with
        | Some w => if w <=? 0 then None else Some w
        | None => None
        end in
      match width with
      | None => (s, Ok (kv_handoff_diagnostic "unsupported_cache_tensor_shape" batch_size known))
      | Some w => runtime_copy batch_size handle w known s
      end
  end.

(** [_maybe_record_runtime_kv_prefix_reuse_handoff] *)
Definition runtime_handoff (env : environ) (batch_size : Z) : M S metadata :=
  if negb (kw_kv_prefix_reuse_enabled A (md_kwargs A info)) then
    mret (if flag_set env KV_PREFIX_REUSE_ENV_FLAG && (2 <=? batch_size)
          then kv_handoff_diagnostic "runtime_kv_prefix_metadata_not_armed" batch_size
                 [("kv_prefix_reuse_enabled", VBool false); ("kv_prefix_reuse_request_count", VInt request_count)]
          else [])
  else if (request_count <? 2) || (batch_size <? 2) then mret (kv_handoff_diagnostic "batch_size_below_two" batch_size [])
  else if common_count <=? 0 then mret (kv_handoff_diagnostic "missing_positive_prefix_length" batch_size [])
  else match md_cache_handles info with
  | [] => mret (kv_handoff_diagnostic "missing_cache_handle" batch_size [])
  | handle :: _ => runtime_attempt batch_size handle
  end.
End runtime.

(** ** The cache manager's operations *)

Section slabs.
Context {T V : Type} `{!Slab T V, !SlabLaws T V}.
(** The hex digest of SHA-256 over the bytes of two tensors, and the shape of a handle
    whose slab is no plain tensor. *)
Context (digest : T → T → string) (other_shape : Z → option (list Z)).

(** The dictionary [copy_prefix_from_handle] returns. *)
Definition handoff_dict (src dst n : Z) (rep : copy_report) (checksum : string) : metadata :=
  [("server_handle_handoff_observed", VBool true); ("cache_read_source_handle_id", VInt src);
   ("cache_write_destination_handle_id", VInt dst); ("server_recovered_prefix_token_count", VInt n);
   ("prefix_length", VInt n); ("bh_slice", slice_value (cache_write_destination_bh_slice rep));
   ("cache_read_source_bh_slice", slice_value (cache_read_source_bh_slice rep));
   ("cache_write_destination_bh_slice", slice_value (cache_write_destination_bh_slice rep));
   ("kv_prefix_byte_checksum_sha256", VStr checksum)].

(** The checksum is of the prefix as it was read. *)
Definition prefix_checksum (store : slabs T) (src n : Z) (sl : Z * Z) : string :=
  match dict_get store src with
  | Some (Some k, Some v) =>
      match clone_prefix k n sl, clone_prefix v n sl with
      | Ok k', Ok v' => digest k' v'
      | _, _ => ""
      end
  | _ => ""
  end.

Definition copy_slabs (src dst n : Z) (source_slice destination_slice : Z * Z) : M (slabs T) metadata := λ store,
  match copy_prefix_from_handle src dst n None (Some source_slice) (Some destination_slice) store with
  | (store', Ok rep) => (store', Ok (handoff_dict src dst n rep (prefix_checksum store src n (cache_read_source_bh_slice rep))))
  | (store', Raise e) => (store', Raise e)
  end.

Definition slab_shape_of (store : slabs T) (handle : Z) : option (list Z) :=
  match dict_get store handle with
  | Some (Some k, _) => Some (slab_shape k)
  | Some (None, _) => other_shape handle
  | None => None
  end.

Definition slab_ops : cache_ops (slabs T) := mkCacheOps _ slab_shape_of copy_slabs.
End slabs.

(** ** Proofs *)

Section proofs.
Context {T V : Type} `{!Slab T V, !SlabLaws T V}.
Context (digest : T → T → string) (other_shape : Z → option (list Z)).
Implicit Types (st : slabs T).

Definition shapes_ok st : Prop := ∀ h k v, dict_get st h = Some (Some k, Some v) →
  Forall (λ n, 0 ≤ n) (slab_shape k) ∧ Forall (λ n, 0 ≤ n) (slab_shape v).

(** The first [n] positions of the second row of a cache read as those of the first row
    did; everything else is as it was. A row has [w] columns. *)
Definition handed_over st st' (handle n w : Z) : Prop :=
  0 < n ∧ 0 < w ∧ (∀ h, h ≠ handle → dict_get st' h = dict_get st h) ∧
  ∃ k v k' v', dict_get st handle = Some (Some k, Some v) ∧ dict_get st' handle = Some (Some k', Some v') ∧
    ∀ r b d, 0 ≤ d < shape_at k 2 →
      if bool_decide (0 ≤ r < n ∧ w ≤ b < w * 2)
      then slab_get k' r b d = slab_get k r (b - w) d ∧ slab_get v' r b d = slab_get v r (b - w) d
      else slab_get k' r b d = slab_get k r b d ∧ slab_get v' r b d = slab_get v r b d.

Lemma copy_slabs_spec h n w st st' r : shapes_ok st → 0 < w →
  copy_slabs digest h h n (0, w) (w, w * 2) st = (st', r) →
  match r with
  | Ok d => handed_over st st' h n w ∧ is_true (dict_get d "server_handle_handoff_observed") = true ∧
      dict_get d "prefix_length" = Some (VInt n)
  | Raise _ => st' = st
  end.
Proof.
  intros Hsh Hw. unfold copy_slabs. pose proof (copy_prefix_correct h h n None (Some (0, w)) (Some (w, w * 2)) st Hsh) as Hc.
  destruct (copy_prefix_from_handle _ _ _ _ _ _ st) as [st1 [rep|e]] eqn:E; intros [= <- <-]; [|done].
  apply copy_prefix_slices in E as (Hn & Hs & Hd). rewrite Hs, Hd in Hc. cbn in Hc.
  destruct Hc as (_ & _ & Hoth & sk & sv & dk & dv & dk' & dv' & Hsrc & Hdst & Hnew & Hget).
  rewrite Hsrc in Hdst. injection Hdst as <- <-. split; [|done].
  split; [done|]. split; [done|]. split; [done|]. exists sk, sv, dk', dv'. split; [done|]. split; [done|].
  intros r b d Hd'. specialize (Hget r b d Hd'). by rewrite Z.add_0_l in Hget.
Qed.

Lemma setdefault_get d k v k' : k ≠ k' → dict_get (setdefault d k v) k' = dict_get d k'.
Proof. intros Hne. unfold setdefault. destruct (dict_mem d k); [done|]. by apply dict_get_set_ne. Qed.

Abbreviation ops := (slab_ops digest other_shape) (only parsing).

(** *** The handler *)

Section handler.
Context (describe : exn → string) (step_metadata : metadata) (cache_handles : list (list Z)) (batch_size : Z).

(** A diagnosis writes metadata only. *)
Lemma diagnose_state reason extra (x x' : metadata * slabs T) r :
  diagnose step_metadata batch_size reason extra x = (x', r) → x'.2 = x.2.
Proof.
  unfold diagnose. destruct (py_int_of (or_zero (step_prefix step_metadata))) as [n|e].
  - intros [= <- _]. done.
  - intros [= <- _]. done.
Qed.

Lemma diagnose_none reason extra (x x' : metadata * slabs T) r :
  (diagnose step_metadata batch_size reason extra;; mret None) x = (x', r : res (option metadata)) →
  x'.2 = x.2 ∧ ∀ d, r ≠ Ok (Some d).
Proof.
  destruct (diagnose step_metadata batch_size reason extra x) as [x1 [[]|e]] eqn:E;
    [rewrite (bind_ok _ _ _ _ _ E)|rewrite (bind_raise _ _ _ _ _ E)]; intros [= <- <-];
    (split; [by eapply diagnose_state|done]).
Qed.

Definition outcome (st : slabs T) (x' : metadata * slabs T) (r : res (option metadata)) : Prop :=
  match r with
  | Ok (Some d) => ∃ handle n w, first_cache_handle cache_handles = Some handle ∧ handed_over st x'.2 handle n w ∧
      dict_get d "prefix_length" = Some (VInt n) ∧ dict_get x'.1 "kv_prefix_reuse_server_handoff" = Some (VDict d)
  | _ => x'.2 = st
  end.

Lemma outcome_none reason extra md st x' r :
  (diagnose step_metadata batch_size reason extra;; mret None) (md, st) = (x', r) → outcome st x' r.
Proof.
  intros E. apply diagnose_none in E as [E1 E2]. destruct r as [[d|]|]; cbn in *; try done. by destruct (E2 d).
Qed.

Lemma hand_over_spec common n handle shape w md st x' r : shapes_ok st → 0 < w → first_cache_handle cache_handles = Some handle →
  hand_over ops describe step_metadata batch_size common n handle shape w (md, st) = (x', r) → outcome st x' r.
Proof.
  intros Hsh Hw Hfirst. unfold hand_over.
  destruct (copy_slabs digest handle handle n (0, w) (w, w * 2) st) as [st1 rc] eqn:Hc.
  pose proof (copy_slabs_spec handle n w st st1 rc Hsh Hw Hc) as Hspec.
  assert (try_copy ops handle n (0, w) (w, w * 2) (md, st) = ((md, st1), Ok (match rc with Ok d => inl d | Raise e => inr e end))) as Ht.
  { unfold try_copy, on_cache. cbn [fst snd]. unfold slab_ops at 1. cbn [copy_prefix]. rewrite Hc. by destruct rc. }
  rewrite (bind_ok _ _ _ _ _ Ht). destruct rc as [d|e].
  - destruct Hspec as (Hho & Hobs & Hlen). rewrite Hobs. cbn [negb]. intros [= <- <-].
    exists handle, n, w. split; [done|]. split; [done|]. split; [by rewrite !setdefault_get|].
    cbn [fst]. by rewrite dict_get_del_ne, dict_get_set_eq.
  - subst st1. unfold set_key at 1. rewrite modify_bind. cbn [fst snd]. intros E. by apply outcome_none in E.
Qed.

Lemma attempt_handoff_spec md st x' r : shapes_ok st →
  attempt_handoff ops describe step_metadata cache_handles batch_size md st (md, st) = (x', r) → outcome st x' r.
Proof.
  intros Hsh. unfold attempt_handoff. destruct (as_dict _) as [obs|]; [|by intros [= <- <-]].
  destruct (_ <=? 0); [apply outcome_none|]. destruct (batch_size <? 2); [apply outcome_none|].
  destruct (first_cache_handle cache_handles) as [handle|] eqn:Hf; [|apply outcome_none].
  destruct (first_slab_shape ops st handle) as [shape|]; [|apply outcome_none].
  destruct (row_bh_width_from_cache_shape shape batch_size) as [w|]; [|apply outcome_none].
  destruct (Z.leb_spec w 0); [apply outcome_none|]. by apply hand_over_spec.
Qed.
End handler.

(** *** The backend *)

Lemma runtime_handoff_spec {A} (info : inference_metadata A) describe env batch_size st st' r : shapes_ok st →
  runtime_handoff ops describe info env batch_size st = (st', r) →
  ∃ out, r = Ok out ∧
    match dict_get out "kv_prefix_reuse_server_handoff" with
    | Some d => ∃ handle n w, md_cache_handles info !! 0%nat = Some handle ∧ handed_over st st' handle n w
    | None => st' = st
    end.
Proof.
  intros Hsh. assert (Hdiag : ∀ reason extra, st' = st → r = Ok (kv_handoff_diagnostic info reason batch_size extra) →
    ∃ out, r = Ok out ∧ match dict_get out "kv_prefix_reuse_server_handoff" with
      | Some d => ∃ handle n w, md_cache_handles info !! 0%nat = Some handle ∧ handed_over st st' handle n w
      | None => st' = st end) by (intros reason extra -> ->; eexists; by split).
  unfold runtime_handoff. destruct (negb _).
  { destruct (_ && _); intros [= <- <-]; [by eapply Hdiag|by exists []]. }
  destruct (_ || _); [by intros [= <- <-]; eapply Hdiag|].
  destruct (Z.leb_spec (default 0 (kw_kv_prefix_reuse_common_prefix_token_count A (md_kwargs A info))) 0); [by intros [= <- <-]; eapply Hdiag|].
  destruct (md_cache_handles info) as [|handle hs] eqn:Hhs; [by intros [= <- <-]; eapply Hdiag|].
  unfold runtime_attempt. destruct (first_slab_shape ops st handle) as [shape|]; [|by intros [= <- <-]; eapply Hdiag].
  set (full := if _ =? 0 then _ else _). clearbody full.
  destruct (row_bh_width_from_cache_shape shape full) as [w|]; [|by intros [= <- <-]; eapply Hdiag].
  destruct (Z.leb_spec w 0); [by intros [= <- <-]; eapply Hdiag|]. unfold runtime_copy, slab_ops. cbn [copy_prefix].
  destruct (copy_slabs digest handle handle _ (0, w) (w, w * 2) st) as [st1 [d|e]] eqn:Hc;
    apply copy_slabs_spec in Hc; try done; intros [= <- <-].
  - destruct Hc as (Hho & Hobs & _). eexists. split; [done|]. rewrite Hobs. cbn. exists handle. eexists. exists w. by split.
  - subst st1. by eapply Hdiag.
Qed.

(** Handing a prefix over is fail-closed. Neither the handler nor the backend changes
    the cache unless it reports a handoff, and a handoff reported now is one that was
    made: the first [n] positions of the second row are those of the first row, with
    everything else unchanged. *)
Lemma handoff_fail_closed {A} describe step_metadata cache_handles batch_size env md st (info : inference_metadata A) :
  shapes_ok st →
  (∀ d, dict_get md "kv_prefix_reuse_server_handoff" = Some (VDict d) →
    is_true (dict_get d "server_handle_handoff_observed") = false) →
  (let '((md', st'), r) :=
     maybe_record_kv_prefix_reuse_handoff ops describe step_metadata cache_handles batch_size env (md, st) in
   match r with
   | Ok (Some d) => ∃ handle n w, first_cache_handle cache_handles = Some handle ∧ handed_over st st' handle n w ∧
       dict_get d "prefix_length" = Some (VInt n) ∧ dict_get md' "kv_prefix_reuse_server_handoff" = Some (VDict d)
   | _ => st' = st
   end) ∧
  (let '(st', r) := runtime_handoff ops describe info env batch_size st in
   ∃ out, r = Ok out ∧
     match dict_get out "kv_prefix_reuse_server_handoff" with
     | Some d => ∃ handle n w, md_cache_handles info !! 0%nat = Some handle ∧ handed_over st st' handle n w
     | None => st' = st
     end).
Proof.
  intros Hsh Hstale. split.
  - destruct (maybe_record_kv_prefix_reuse_handoff _ _ _ _ _ _ _) as [[md' st'] r] eqn:E.
    change (outcome cache_handles st (md', st') r).
    unfold maybe_record_kv_prefix_reuse_handoff in E. destruct (negb _); [by injection E as <- <- <-|].
    rewrite get_bind in E. cbn [fst snd] in E.
    destruct (as_dict (dict_get md "kv_prefix_reuse_server_handoff")) as [d|] eqn:Hd.
    + destruct (dict_get md "kv_prefix_reuse_server_handoff") as [[| | | | | |d']|]; try done. injection Hd as ->.
      rewrite (Hstale d eq_refl) in E. by eapply attempt_handoff_spec.
    + by eapply attempt_handoff_spec.
  - destruct (runtime_handoff _ _ _ _ _ _) as [st' r] eqn:E. by eapply runtime_handoff_spec.
Qed.

(** The fields of a full batch are usable whatever the metadata hold, and default to the
    batch itself; reuse is armed only for two requests or more with a common prefix; an
    active mask has an entry per row. *)
Lemma step_batch_bounds md batch_size : 0 < batch_size →
  let f := fullbatch_metadata_kwargs md batch_size in
  0 ≤ fb_batch_offset f ∧ 1 ≤ fb_full_batch_size f ∧ 1 ≤ fb_micro_batch_size f ∧
  (md = [] → f = mkFullbatch 0 batch_size batch_size None) ∧
  (∀ common requests, fb_reuse f = Some (common, requests) → 0 < common ∧ 2 ≤ requests) ∧
  (∀ mask, live_active_mask_from_step_metadata md batch_size = Some mask → zlen mask = batch_size).
Proof.
  intros Hb f. unfold f, fullbatch_metadata_kwargs. cbn [fb_batch_offset fb_full_batch_size fb_micro_batch_size fb_reuse].
  split; [case_match; lia|]. split; [case_match; lia|]. split; [repeat case_match; lia|]. split; [|split].
  - intros ->. unfold fullbatch_metadata_kwargs, to_int, get_default, kv_prefix_reuse_metadata_kwargs. cbn [dict_get default py_int_of as_dict].
    rewrite (Z.max_r 1 batch_size) by lia. rewrite (proj2 (Z.leb_gt batch_size 0)) by lia.
    cbn. rewrite (proj2 (Z.ltb_lt 0 batch_size)) by lia. rewrite Z.sub_0_r, Z.min_id.
    by rewrite (proj2 (Z.leb_gt batch_size 0)) by lia.
  - intros common requests. unfold kv_prefix_reuse_metadata_kwargs. destruct (as_dict _) as [obs|]; [|done].
    cbv zeta. match goal with |- (if (?c <=? 0) || (?q <? 2) then _ else _) = _ → _ => generalize c, q end.
    intros c q. destruct (Z.leb_spec c 0); [done|]. destruct (Z.ltb_spec q 2); [done|]. cbn. intros [= <- <-]. lia.
  - intros mask. unfold live_active_mask_from_step_metadata. destruct (batch_size <=? 0); [done|].
    destruct (as_dict _) as [live|]; [|done]. cbn [mbind option_bind].
    destruct (as_list _) as [tbs|]; [|done]. cbn [mbind option_bind].
    destruct (as_dict (tbs !! 0%nat)) as [tb|]; [|done]. cbn [mbind option_bind].
    destruct (as_list _) as [raw|]; [|done]. cbn [mbind option_bind].
    destruct (Z.eqb_spec (zlen raw) batch_size) as [Heq|].
    { intros [= <-]. unfold zlen in *. by rewrite length_fmap. }
    destruct (Z.ltb_spec (to_int (get_default md "batch_offset" (VInt 0)) 0) 0); [done|].
    destruct (negb _); [done|]. cbn [orb].
    set (off := to_int _ 0) in *. clearbody off. destruct (Z.ltb_spec (zlen raw) (off + batch_size)); [done|].
    intros [= <-]. rewrite py_slice_nonneg by lia. unfold zlen in *. rewrite length_fmap, length_take, length_drop. lia.
Qed.
End proofs.

(** ** Examples *)

Definition demo_cache : slabs (fslab Z) :=
  [(1, (Some (mkFslab [4; 2; 1] (λ r b _, 10 * r + b)), Some (mkFslab [4; 2; 1] (λ r b _, 10 * r + b))))].

Definition demo_info : inference_metadata unit :=
  mkMetadata "block.0" 3 [1] None
    (mkKwargs unit None None None None None None None None true (Some 3) (Some 2) 0 2 2).

Lemma handoff_fail_closed_witness : ∃ st' out,
  runtime_handoff (slab_ops (λ _ _, "digest") (λ _, None)) (λ _, "") demo_info demo_env 2 demo_cache = (st', Ok out) ∧
  ∃ n w, handed_over demo_cache st' 1 n w.
Proof.
  destruct (handoff_fail_closed (λ _ _, "digest") (λ _, None) (λ _, "") [] [[1]] 2 demo_env [] demo_cache demo_info) as [_ H].
  - intros h k v Hh. unfold demo_cache in Hh. simpl in Hh. repeat case_decide; simplify_eq; split; repeat constructor; lia.
  - done.
  - destruct (runtime_handoff _ _ _ _ _ _) as [st' r] eqn:E. destruct H as (out & -> & H).
    exists st', out. split; [done|].
    destruct (dict_get out "kv_prefix_reuse_server_handoff") as [d|] eqn:Hd.
    + destruct H as (handle & n & w & Hh & Hho). injection Hh as <-. eauto.
    + exfalso. vm_compute in E. injection E as _ <-. vm_compute in Hd. done.
Defined.
