(* ===== verification/StepIterator.v ===== *)
(** * The steps of an inference session (server/handler.py, [_iterate_inference_steps])

    A session's steps arrive from two sides: from the client's stream and, pushed by the
    previous server, through the session queue, whole or in micro-batches. The generator
    routes each step through one path and drops repetitions. Its state are three sets; it
    is modelled as a function from the arrivals to what it yields, and proved equal to a
    filter that looks at the history alone. *)

From stdpp Require Import numbers base gmap sets strings list.
From Stdlib Require Import ZArith Lia ZifyBool.
From S2P Require Import Prelude Dict PyStr Floats PyVal Microbatch Observation.

Open Scope string_scope.
Open Scope list_scope.
Open Scope Z_scope.

(** A request of the protocol; its metadata decoded, [None] when the field is empty. *)
Record expert_request (T : Type) := mkRequest {
  rq_uid : string;
  rq_tensors : list T;
  rq_metadata : option metadata;
}.
Arguments mkRequest {T} _ _ _.
Arguments rq_uid {T} _.
Arguments rq_tensors {T} _.
Arguments rq_metadata {T} _.

(** What the generator receives: a micro-batch of the queue, or a request. *)
Inductive incoming (T : Type) :=
| Micro (item : queue_item (expert_request T))
| Direct (r : expert_request T).
Arguments Micro {T} item.
Arguments Direct {T} r.

(** How long the wait for a request took, when, and where the request came from. *)
Record wait_info := mkWait {
  queue_wait_ms : float;
  queue_source : string;
  queue_wait_start_us : Z;
  queue_wait_end_us : Z;
}.

(** The local variables of the generator. *)
Record iter_state := mkIter {
  processed_step_ids : gset string;
  microbatch_step_ids : gset string;
  processed_microbatch_ids : gset (option string * Z);
  n_pushes : Z;
  n_late_pushes : Z;
}.
Definition iter_init : iter_state := mkIter ∅ ∅ ∅ 0 0.

(** [metadata.get("step_id")]: a string, as clients draw it, or nothing. *)
Definition step_id_of (md : metadata) : option string :=
  match dict_get md "step_id" with Some (VStr s) => Some s | _ => None end.

Section iterator.
Context {T : Type} (env : environ) (repr : value → string).

(** The two opt-in observations, written into the metadata. *)
Definition observe (md : metadata) : res metadata :=
  kv ← extract_kv_prefix_reuse_metadata env md;
  let md1 := match kv with Some d => dict_set md "kv_prefix_reuse_server_observed" (VDict d) | None => md end in
  live ← extract_live_continuous_batching_metadata repr env md1;
  Ok (match live with Some d => dict_set md1 "live_continuous_batching_server_observed" (VDict d) | None => md1 end).

Definition stamp_wait (w : wait_info) (md : metadata) : metadata :=
  dict_update md [("_queue_wait_ms", VFloat (queue_wait_ms w)); ("_queue_source", VStr (queue_source w));
    ("_queue_wait_start_us", VInt (queue_wait_start_us w)); ("_queue_wait_end_us", VInt (queue_wait_end_us w))].

(** What is yielded for a micro-batch. *)
Definition micro_metadata (w : wait_info) (item : queue_item (expert_request T)) (md : metadata) : metadata :=
  stamp_wait w (dict_update md
    [("type", VStr "micro_batch"); ("mb_idx", VInt (qi_mb_idx _ item));
     ("expected_num_mb", VInt (qi_expected_num_mb _ item)); ("offset", VInt (qi_offset _ item));
     ("size", VInt (qi_size _ item)); ("full_batch_size", VInt (qi_full_batch_size _ item)); ("pushed", VBool true)]).

(** The outcome of an item: the state after it and what is yielded, or the end. *)
Inductive verdict :=
| Continue (st : iter_state) (out : option (expert_request T * metadata))
| Break.

Definition handle_micro (st : iter_state) (w : wait_info) (item : queue_item (expert_request T)) : res verdict :=
  let md := qi_metadata _ item in
  let mb_step_id := step_id_of md in
  let mb_idx := qi_mb_idx _ item in
  md ← observe md;
  let late := match mb_step_id with
    | Some s => bool_decide (s ∈ processed_step_ids st) && bool_decide (s ∉ microbatch_step_ids st)
    | None => false
    end in
  if late then Ok (Continue st None)
  else if bool_decide ((mb_step_id, mb_idx) ∈ processed_microbatch_ids st) then Ok (Continue st None)
  else
    let st' := mkIter (processed_step_ids st)
      (match mb_step_id with Some s => {[s]} ∪ microbatch_step_ids st | None => microbatch_step_ids st end)
      ({[(mb_step_id, mb_idx)]} ∪ processed_microbatch_ids st) (n_pushes st) (n_late_pushes st) in
    Ok (Continue st' (Some (qi_payload _ item, micro_metadata w item md))).

(** The share of late pushes that is logged. *)
Definition late_percentage (late pushes : Z) : res float := py_div (float_of_Z late) (float_of_Z pushes).

Definition handle_direct (st : iter_state) (w : wait_info) (r : expert_request T) : res verdict :=
  md ← observe (default [] (rq_metadata r));
  let step_id := step_id_of md in
  let pushed := truthy (get_default md "pushed" VNone) in
  if truthy (get_default md "is_mb_start_signal" VNone) then Ok (Continue st None)
  else
    let st := if pushed then mkIter (processed_step_ids st) (microbatch_step_ids st) (processed_microbatch_ids st)
                               (n_pushes st + 1) (n_late_pushes st) else st in
    match step_id with
    | None => Ok (Continue st (Some (r, stamp_wait w md)))
    | Some s =>
        if bool_decide (s ∈ microbatch_step_ids st) then Ok (Continue st None)
        else if bool_decide (s ∈ processed_step_ids st) then
          if pushed then
            let st := mkIter (processed_step_ids st) (microbatch_step_ids st) (processed_microbatch_ids st)
                        (n_pushes st) (n_late_pushes st + 1) in
            late_percentage (n_late_pushes st) (n_pushes st);;
            Ok (Continue st None)
          else Ok (Continue st None)
        else Ok (Continue (mkIter ({[s]} ∪ processed_step_ids st) (microbatch_step_ids st)
                             (processed_microbatch_ids st) (n_pushes st) (n_late_pushes st))
                   (Some (r, stamp_wait w md)))
    end.

(** [request.tensors or (request.metadata and not request.tensors)] *)
Definition has_content (r : expert_request T) : bool :=
  bool_decide (rq_tensors r ≠ []) || match rq_metadata r with Some _ => true | None => false end.

Definition handle (st : iter_state) (w : wait_info) (x : incoming T) : res verdict :=
  match x with
  | Micro item => if is_microbatch_queue_item item then handle_micro st w item else Ok Break
  | Direct r => if has_content r then handle_direct st w r else Ok Break
  end.

(** ** Waiting *)

(** What a wait ends with: a request or the end mark, the end of the client's stream, or
    the timeout. *)
Inductive arrival :=
| Arrived (w : wait_info) (x : option (incoming T))
| StreamEnd
| StepTimeout.

(** How the loop ends: done, timed out, with an exception, or still waiting. *)
Inductive outcome := Finished | TimedOut | Raised (e : exn) | Waiting.

(** A wait as the event loop sees it: which of the two tasks are done. *)
Record wait_result := mkWaitResult { w_ms : float; w_start : Z; w_end : Z; w_push : bool; w_stream : bool }.

(** The requests in the order the loop takes them: the push queue first when both are
    ready. The fetched but unused one stays for the next wait. *)
Fixpoint arrivals (waits : list wait_result) (pushes : list (option (incoming T))) (stream : list (incoming T)) : list arrival :=
  match waits with
  | [] => []
  | w :: ws =>
      let info source := mkWait (w_ms w) source (w_start w) (w_end w) in
      match (if w_push w then pushes else []), w_stream w, stream with
      | p :: ps, _, _ => Arrived (info "push_queue") p :: arrivals ws ps stream
      | [], true, r :: rs => Arrived (info "stream") (Some r) :: arrivals ws pushes rs
      | [], true, [] => [StreamEnd]
      | [], false, _ => [StepTimeout]
      end
  end.

Fixpoint iterate (st : iter_state) (w : wait_info) (x : option (incoming T)) (rest : list arrival)
    : list (expert_request T * metadata) * outcome :=
  match x with
  | None => ([], Finished)
  | Some x =>
      match handle st w x with
      | Raise e => ([], Raised e)
      | Ok Break => ([], Finished)
      | Ok (Continue st' out) =>
          let ys := match out with Some y => [y] | None => [] end in
          match rest with
          | [] => (ys, Waiting)
          | Arrived w' x' :: rest' => let (zs, oc) := iterate st' w' x' rest' in (ys ++ zs, oc)
          | StreamEnd :: _ => (ys, Raised RuntimeError)
          | StepTimeout :: _ => (ys, TimedOut)
          end
      end
  end.

(** [_iterate_inference_steps] on its first request. *)
Definition iterate_inference_steps (first_request : expert_request T) (rest : list arrival)
    : list (expert_request T * metadata) * outcome :=
  iterate iter_init (mkWait (SpecFloat.S754_zero false) "initial" 0 0) (Some (Direct first_request)) rest.
End iterator.
Arguments verdict T : clear implicits.
Arguments arrival T : clear implicits.

(** ** A reference without state *)

(** The path a request asks for, for step [s]: the queue of micro-batches or whole. *)
Inductive path := Queue | Whole.
#[export] Instance path_eq_dec : EqDecision path.
Proof. solve_decision. Defined.

Section reference.
Context {T : Type} (env : environ) (repr : value → string).
Implicit Types (x : incoming T) (h : list (incoming T)).

Definition is_signal (r : expert_request T) : bool := truthy (get_default (default [] (rq_metadata r)) "is_mb_start_signal" VNone).

Definition micro_key x : option (option string * Z) :=
  match x with Micro item => Some (step_id_of (qi_metadata _ item), qi_mb_idx _ item) | Direct _ => None end.

Definition path_of (s : string) x : option path :=
  match x with
  | Micro item => if bool_decide (step_id_of (qi_metadata _ item) = Some s) then Some Queue else None
  | Direct r => if negb (is_signal r) && bool_decide (step_id_of (default [] (rq_metadata r)) = Some s) then Some Whole else None
  end.

(** The path of a step is the one its first request asked for. *)
Definition route (s : string) h : option path := head (omap (path_of s) h).

(** Whether a request is yielded after the history [h]. *)
Definition wanted h x : bool :=
  match x with
  | Micro item =>
      let key := (step_id_of (qi_metadata _ item), qi_mb_idx _ item) in
      match key.1 with Some s => bool_decide (route s h ≠ Some Whole) | None => true end &&
      bool_decide (key ∉ omap micro_key h)
  | Direct r =>
      negb (is_signal r) &&
      match step_id_of (default [] (rq_metadata r)) with Some s => bool_decide (route s h = None) | None => true end
  end.

(** What is yielded for a request. *)
Definition emission (w : wait_info) x : res (expert_request T * metadata) :=
  match x with
  | Micro item => md ← observe env repr (qi_metadata _ item); Ok (qi_payload _ item, micro_metadata w item md)
  | Direct r => md ← observe env repr (default [] (rq_metadata r)); Ok (r, stamp_wait w md)
  end.

Definition ends x : bool :=
  match x with Micro item => negb (is_microbatch_queue_item item) | Direct r => negb (has_content r) end.

Fixpoint reference h (w : wait_info) (x : option (incoming T)) (rest : list (arrival T))
    : list (expert_request T * metadata) * outcome :=
  match x with
  | None => ([], Finished)
  | Some x =>
      if ends x then ([], Finished)
      else match emission w x with
      | Raise e => ([], Raised e)
      | Ok y =>
          let ys := if wanted h x then [y] else [] in
          match rest with
          | [] => (ys, Waiting)
          | Arrived w' x' :: rest' => let (zs, oc) := reference (h ++ [x]) w' x' rest' in (ys ++ zs, oc)
          | StreamEnd :: _ => (ys, Raised RuntimeError)
          | StepTimeout :: _ => (ys, TimedOut)
          end
      end
  end.

(** The three sets after a history. *)
Record tracks (st : iter_state) h : Prop := {
  tr_whole s : s ∈ processed_step_ids st ↔ route s h = Some Whole;
  tr_queue s : s ∈ microbatch_step_ids st ↔ route s h = Some Queue;
  tr_key i s : (Some s, i) ∈ processed_microbatch_ids st ↔ route s h = Some Queue ∧ (Some s, i) ∈ omap micro_key h;
  tr_none i : (None, i) ∈ processed_microbatch_ids st ↔ (None, i) ∈ omap micro_key h;
  tr_pushes : 0 ≤ n_late_pushes st ∧ 0 ≤ n_pushes st
}.

Lemma route_snoc s h x : route s (h ++ [x]) = match route s h with Some p => Some p | None => path_of s x end.
Proof.
  unfold route. rewrite omap_app. destruct (omap (path_of s) h) as [|p ps]; [|done]. cbn. by destruct (path_of s x).
Qed.

Lemma observe_get md md' k : k ≠ "kv_prefix_reuse_server_observed" → k ≠ "live_continuous_batching_server_observed" →
  observe env repr md = Ok md' → dict_get md' k = dict_get md k.
Proof.
  intros H1 H2. unfold observe. destruct (extract_kv_prefix_reuse_metadata env md) as [kv|]; [|done]. cbn [mbind res_bind].
  destruct (extract_live_continuous_batching_metadata repr env _) as [live|]; [|done]. cbn [mbind res_bind].
  intros [= <-]. destruct live, kv; by rewrite ?dict_get_set_ne by congruence.
Qed.

Lemma observe_step md md' : observe env repr md = Ok md' → step_id_of md' = step_id_of md.
Proof. intros E. unfold step_id_of. by rewrite (observe_get md md' "step_id"). Qed.

(** The share of late pushes is never a division by zero. *)
Lemma late_percentage_ok late pushes : 0 < pushes → ∃ f, late_percentage late pushes = Ok f.
Proof.
  intros Hp. unfold late_percentage, py_div. pose proof (float_of_Z_pos pushes Hp) as H.
  destruct (float_of_Z pushes); cbn in *; eauto. done.
Qed.

Lemma micro_keys_snoc h x : omap micro_key (h ++ [x]) = omap micro_key h ++ match micro_key x with Some k => [k] | None => [] end.
Proof. rewrite omap_app. cbn. by destruct (micro_key x). Qed.

(** Requests that change no set. *)
Lemma tracks_skip st st' h x : tracks st h →
  processed_step_ids st' = processed_step_ids st → microbatch_step_ids st' = microbatch_step_ids st →
  processed_microbatch_ids st' = processed_microbatch_ids st → 0 ≤ n_late_pushes st' → 0 ≤ n_pushes st' →
  (∀ s, route s (h ++ [x]) = route s h) →
  (∀ key, micro_key x = Some key → key ∈ omap micro_key h ∨ ∃ s, key.1 = Some s ∧ route s h = Some Whole) →
  tracks st' (h ++ [x]).
Proof.
  intros [H1 H2 H3 H4 H5] E1 E2 E3 Hl Hp Hr Hk. split.
  - intros s. by rewrite E1, Hr.
  - intros s. by rewrite E2, Hr.
  - intros i s. rewrite E3, Hr, H3, micro_keys_snoc, elem_of_app.
    destruct (micro_key x) as [key|] eqn:Hx; [|rewrite elem_of_nil; tauto]. rewrite list_elem_of_singleton.
    split; [tauto|]. intros [Hq [|<-]]; [done|]. destruct (Hk _ eq_refl) as [|(s' & [= <-] & Hs)]; [done|congruence].
  - intros i. rewrite E3, H4, micro_keys_snoc, elem_of_app.
    destruct (micro_key x) as [key|] eqn:Hx; [|rewrite elem_of_nil; tauto]. rewrite list_elem_of_singleton.
    split; [tauto|]. intros [|<-]; [done|]. by destruct (Hk _ eq_refl) as [|(s' & ? & _)].
  - done.
Qed.

(** A step of which a micro-batch was seen has a path. *)
Lemma key_route s i h : (Some s, i) ∈ omap micro_key h → route s h ≠ Some Whole → route s h = Some Queue.
Proof.
  intros (x & Hx & Hk)%list_elem_of_omap Hnw. destruct x as [it|]; [|done]. cbn in Hk. injection Hk as Hk _.
  unfold route in *. destruct (omap (path_of s) h) as [|[] ps] eqn:Hps; cbn in *; [|done|done].
  exfalso. assert (Queue ∈ omap (path_of s) h) as Hq; [|rewrite Hps in Hq; by apply not_elem_of_nil in Hq].
  apply list_elem_of_omap. exists (Micro it). split; [done|]. cbn. by rewrite bool_decide_true.
Qed.

(** A micro-batch that is yielded. *)
Lemma tracks_micro st h item : tracks st h → let step := step_id_of (qi_metadata _ item) in
  (∀ s, step = Some s → route s h ≠ Some Whole) →
  tracks (mkIter (processed_step_ids st)
    (match step with Some s => {[s]} ∪ microbatch_step_ids st | None => microbatch_step_ids st end)
    ({[(step, qi_mb_idx _ item)]} ∪ processed_microbatch_ids st) (n_pushes st) (n_late_pushes st)) (h ++ [Micro item]).
Proof.
  intros [H1 H2 H3 H4 H5] step Hnw. set (i := qi_mb_idx _ item).
  assert (Hroute : ∀ t, route t (h ++ [Micro item]) = if decide (step = Some t) then Some Queue else route t h).
  { intros t. rewrite route_snoc. cbn. fold step. case_decide as Hst.
    - specialize (Hnw t Hst). rewrite bool_decide_true by done. destruct (route t h) as [[]|]; done.
    - rewrite bool_decide_false by done. by destruct (route t h). }
  assert (Hkeys : ∀ key, key ∈ omap micro_key (h ++ [Micro item]) ↔ key ∈ omap micro_key h ∨ key = (step, i)).
  { intros key. rewrite micro_keys_snoc, elem_of_app. cbn. by rewrite list_elem_of_singleton. }
  split; cbn [processed_step_ids microbatch_step_ids processed_microbatch_ids n_pushes n_late_pushes].
  - intros t. rewrite Hroute, H1. case_decide as Hst; [|done]. split; [|done]. intros Hw. by destruct (Hnw t Hst).
  - intros t. rewrite Hroute. case_decide as Hst; destruct step as [s|]; simplify_eq.
    + split; [done|]. intros _. by apply elem_of_union_l, elem_of_singleton.
    + rewrite elem_of_union, elem_of_singleton, H2. split; [intros [->|]; [done|done]|by right].
    + apply H2.
  - intros j t. rewrite elem_of_union, elem_of_singleton, H3, Hroute, Hkeys. case_decide as Hst.
    + rewrite Hst. split.
      * intros [[= ->]|[_ Hin]]; (split; [done|]); [by right|by left].
      * intros [_ [Hin|[= ->]]]; [right|by left]. split; [|done].
        by apply (key_route t j); [|apply Hnw].
    + split; [intros [[= <- ->]|[? ?]]; [done|by auto]|]. intros [? [?|[= <- ->]]]; [by right|done].
  - intros j. rewrite elem_of_union, elem_of_singleton, H4, Hkeys. tauto.
  - done.
Qed.

Lemma handle_micro_spec st h w item md' : tracks st h → observe env repr (qi_metadata _ item) = Ok md' →
  ∃ st', handle_micro env repr st w item =
      Ok (Continue st' (if wanted h (Micro item) then Some (qi_payload _ item, micro_metadata w item md') else None)) ∧
    tracks st' (h ++ [Micro item]).
Proof.
  intros Htr Ho. unfold handle_micro. rewrite Ho. cbn [mbind res_bind].
  set (step := step_id_of (qi_metadata _ item)). set (i := qi_mb_idx _ item).
  pose proof Htr as [H1 H2 H3 H4 H5].
  assert (Hlate : (match step with Some s => bool_decide (s ∈ processed_step_ids st) && bool_decide (s ∉ microbatch_step_ids st) | None => false end)
    = match step with Some s => bool_decide (route s h = Some Whole) | None => false end).
  { destruct step as [s|]; [|done]. rewrite (bool_decide_ext _ _ (H1 s)).
    case_bool_decide as Hw; [|done]. apply bool_decide_true. rewrite H2. congruence. }
  rewrite Hlate. unfold wanted. fold step i. cbn [fst].
  assert (Hsame : ∀ s, step ≠ Some s → route s (h ++ [Micro item]) = route s h).
  { intros s Hs. rewrite route_snoc. destruct (route s h); [done|]. cbn. by rewrite bool_decide_false. }
  destruct (match step with Some s => bool_decide (route s h = Some Whole) | None => false end) eqn:Hw.
  { destruct step as [s|] eqn:Hs; [|done]. apply bool_decide_eq_true in Hw.
    rewrite bool_decide_false by (intros Hne; by apply Hne). exists st. split; [done|].
    apply (tracks_skip st); try done; try apply H5.
    - intros t. rewrite route_snoc. destruct (decide (t = s)) as [->|Hne]; [by rewrite Hw|].
      destruct (route t h) eqn:Ht; [done|]. cbn. fold step. rewrite bool_decide_false; [done|congruence].
    - intros key [= <-]. right. exists s. split; [by fold step|done]. }
  assert (Hand : match step with Some s => bool_decide (route s h ≠ Some Whole) | None => true end = true).
  { destruct step; [|done]. apply bool_decide_eq_false in Hw. by apply bool_decide_true. }
  rewrite Hand. cbn [andb].
  assert (Hkey : (step, i) ∈ processed_microbatch_ids st ↔ (step, i) ∈ omap micro_key h ∧
    (∀ s, step = Some s → route s h = Some Queue)).
  { destruct step as [s|].
    - rewrite H3. split; [intros [? ?]; split; [done|by intros s' [= <-]]|intros [? Hq]; split; [by apply Hq|done]].
    - rewrite H4. split; [by intros|by intros [? _]]. }
  assert (Hin : (step, i) ∈ omap micro_key h → ∀ s, step = Some s → route s h = Some Queue).
  { intros Hin s Hs. rewrite Hs in Hw, Hin. apply bool_decide_eq_false in Hw.
    by apply (key_route s i). }
  destruct (bool_decide ((step, i) ∈ processed_microbatch_ids st)) eqn:Hdup.
  { apply bool_decide_eq_true, Hkey in Hdup as [Hd Hq].
    rewrite bool_decide_false by (intros Hne; by apply Hne). exists st. split; [done|].
    apply (tracks_skip st); try done; try apply H5.
    - intros t. destruct (decide (step = Some t)) as [Hst|]; [|by apply Hsame].
      rewrite route_snoc. by rewrite (Hq t Hst).
    - intros key [= <-]. by left. }
  apply bool_decide_eq_false in Hdup.
  assert (Hnin : (step, i) ∉ omap micro_key h) by (intros Hc; apply Hdup, Hkey; auto).
  rewrite (bool_decide_true ((step, i) ∉ _)) by done. eexists. split; [done|].
  apply tracks_micro; [done|]. fold step. intros s Hs. rewrite Hs in Hw. by apply bool_decide_eq_false in Hw.
Qed.


(** Only the sets matter. *)
Lemma tracks_same st st' h : tracks st h →
  processed_step_ids st' = processed_step_ids st → microbatch_step_ids st' = microbatch_step_ids st →
  processed_microbatch_ids st' = processed_microbatch_ids st → 0 ≤ n_late_pushes st' → 0 ≤ n_pushes st' → tracks st' h.
Proof. intros [H1 H2 H3 H4 H5] E1 E2 E3 Hl Hp. split; try done; intros; rewrite ?E1, ?E2, ?E3; auto. Qed.

(** A whole request that is yielded. *)
Lemma tracks_whole st h r s : tracks st h → is_signal r = false → step_id_of (default [] (rq_metadata r)) = Some s →
  route s h = None →
  tracks (mkIter ({[s]} ∪ processed_step_ids st) (microbatch_step_ids st) (processed_microbatch_ids st)
            (n_pushes st) (n_late_pushes st)) (h ++ [Direct r]).
Proof.
  intros [H1 H2 H3 H4 H5] Hsig Hs Hr.
  assert (Hrs : route s (h ++ [Direct r]) = Some Whole).
  { rewrite route_snoc, Hr. cbn. rewrite Hsig. cbn. by rewrite bool_decide_true. }
  assert (Hother : ∀ t, t ≠ s → route t (h ++ [Direct r]) = route t h).
  { intros t Ht. rewrite route_snoc. destruct (route t h); [done|]. cbn. rewrite Hsig. cbn.
    rewrite bool_decide_false; [done|congruence]. }
  split; cbn [processed_step_ids microbatch_step_ids processed_microbatch_ids n_pushes n_late_pushes].
  - intros t. rewrite elem_of_union, elem_of_singleton, H1. destruct (decide (t = s)) as [->|Ht].
    + rewrite Hrs. tauto.
    + rewrite Hother by done. tauto.
  - intros t. rewrite H2. destruct (decide (t = s)) as [->|Ht]; [by rewrite Hrs, Hr|by rewrite Hother].
  - intros j t. rewrite H3, micro_keys_snoc. cbn. rewrite app_nil_r.
    destruct (decide (t = s)) as [->|Ht]; [rewrite Hrs, Hr; by split; intros [? _]|by rewrite Hother].
  - intros j. rewrite H4, micro_keys_snoc. cbn. by rewrite app_nil_r.
  - done.
Qed.

Lemma handle_direct_spec st h w r md' : tracks st h → observe env repr (default [] (rq_metadata r)) = Ok md' →
  ∃ st', handle_direct env repr st w r = Ok (Continue st' (if wanted h (Direct r) then Some (r, stamp_wait w md') else None)) ∧
    tracks st' (h ++ [Direct r]).
Proof.
  intros Htr Ho. unfold handle_direct. rewrite Ho. cbn [mbind res_bind].
  set (md := default [] (rq_metadata r)) in *. rewrite (observe_step md md' Ho).
  assert (truthy (get_default md' "is_mb_start_signal" VNone) = is_signal r) as ->.
  { unfold is_signal, get_default. fold md. by rewrite (observe_get md md' "is_mb_start_signal"). }
  generalize (truthy (get_default md' "pushed" VNone)) as pushed. intros pushed.
  pose proof Htr as [H1 H2 H3 H4 [H5 H6]]. unfold wanted. fold md.
  assert (Hnokey : ∀ key, micro_key (Direct r) = Some key → key ∈ omap micro_key h ∨ ∃ s, key.1 = Some s ∧ route s h = Some Whole) by done.
  destruct (is_signal r) eqn:Hsig; cbn [negb andb].
  { exists st. split; [done|]. apply (tracks_skip st); try done.
    intros s. rewrite route_snoc. cbn. rewrite Hsig. cbn. by destruct (route s h). }
  set (st1 := if pushed then _ else st).
  assert (Hst1 : processed_step_ids st1 = processed_step_ids st ∧ microbatch_step_ids st1 = microbatch_step_ids st ∧
    processed_microbatch_ids st1 = processed_microbatch_ids st ∧ 0 ≤ n_late_pushes st1 ∧ 0 ≤ n_pushes st1 ∧
    (pushed = true → 0 < n_pushes st1)).
  { unfold st1. destruct pushed; cbn; repeat (split; [done || lia|]); lia. }
  clearbody st1. destruct Hst1 as (E1 & E2 & E3 & E4 & E5 & E6).
  assert (Hroute : ∀ s, step_id_of md ≠ Some s ∨ route s h ≠ None → route s (h ++ [Direct r]) = route s h).
  { intros s Hs. rewrite route_snoc. destruct (route s h); [done|]. cbn. rewrite Hsig. cbn. fold md.
    rewrite bool_decide_false; [done|]. by destruct Hs. }
  destruct (step_id_of md) as [s|] eqn:Hs; first last.
  { eexists. split; [done|]. apply (tracks_skip st); try done. intros t. apply Hroute. by left. }
  assert (Hother : ∀ t, t ≠ s → route t (h ++ [Direct r]) = route t h) by (intros t Ht; apply Hroute; left; congruence).
  assert (Hskip : ∀ st', processed_step_ids st' = processed_step_ids st → microbatch_step_ids st' = microbatch_step_ids st →
    processed_microbatch_ids st' = processed_microbatch_ids st → 0 ≤ n_late_pushes st' → 0 ≤ n_pushes st' →
    route s h ≠ None → tracks st' (h ++ [Direct r])).
  { intros st' ? ? ? ? ? Hr. apply (tracks_skip st); try done. intros t.
    destruct (decide (t = s)) as [->|]; [apply Hroute; by right|by apply Hother]. }
  rewrite E1, E2. destruct (bool_decide (s ∈ microbatch_step_ids st)) eqn:Hm.
  { apply bool_decide_eq_true, H2 in Hm. rewrite (bool_decide_false (route s h = None)) by congruence.
    exists st1. split; [done|]. apply Hskip; try done. congruence. }
  apply bool_decide_eq_false in Hm. destruct (bool_decide (s ∈ processed_step_ids st)) eqn:Hp.
  { apply bool_decide_eq_true, H1 in Hp. rewrite (bool_decide_false (route s h = None)) by congruence.
    assert (route s h ≠ None) by congruence. destruct pushed.
    - destruct (late_percentage_ok (n_late_pushes st1 + 1) (n_pushes st1)) as [f Hf]; [by apply E6|].
      cbn [n_late_pushes n_pushes]. rewrite Hf. cbn [mbind res_bind]. eexists. split; [done|].
      apply Hskip; cbn; try done. lia.
    - exists st1. split; [done|]. by apply Hskip. }
  apply bool_decide_eq_false in Hp.
  assert (route s h = None) as Hr by (destruct (route s h) as [[]|] eqn:Hr; [by apply H2 in Hr|by apply H1 in Hr|done]).
  rewrite bool_decide_true by done. eexists. split; [done|].
  apply (tracks_whole (mkIter (processed_step_ids st) (microbatch_step_ids st) (processed_microbatch_ids st1)
    (n_pushes st1) (n_late_pushes st1))); [by apply (tracks_same st)|done|done|done].
Qed.

Lemma handle_spec st h w x : tracks st h → ends x = false →
  match emission w x with
  | Raise e => handle env repr st w x = Raise e
  | Ok y => ∃ st', handle env repr st w x = Ok (Continue st' (if wanted h x then Some y else None)) ∧ tracks st' (h ++ [x])
  end.
Proof.
  intros Htr Hend. destruct x as [item|r]; cbn [ends emission handle] in *; apply negb_false_iff in Hend; rewrite Hend.
  - destruct (observe env repr (qi_metadata _ item)) as [md'|e] eqn:Ho; cbn [mbind res_bind].
    + by apply handle_micro_spec.
    + unfold handle_micro. by rewrite Ho.
  - destruct (observe env repr (default [] (rq_metadata r))) as [md'|e] eqn:Ho; cbn [mbind res_bind].
    + by apply handle_direct_spec.
    + unfold handle_direct. by rewrite Ho.
Qed.

Lemma handle_ends st w x : ends x = true → handle env repr st w x = Ok Break.
Proof. destruct x as [item|r]; cbn; intros Hend; apply negb_true_iff in Hend; by rewrite Hend. Qed.

Lemma iterate_reference st h w (x : option (incoming T)) rest : tracks st h → iterate env repr st w x rest = reference h w x rest.
Proof.
  revert st h w x. induction rest as [|a rest IH]; intros st h w x Htr.
  - destruct x as [x|]; [|done]. cbn [iterate reference]. destruct (ends x) eqn:He; [by rewrite handle_ends|].
    pose proof (handle_spec st h w x Htr He) as Hs. destruct (emission w x) as [y|e]; [|by rewrite Hs].
    destruct Hs as (st' & -> & _). by destruct (wanted h x).
  - destruct x as [x|]; [|done]. cbn [iterate reference]. destruct (ends x) eqn:He; [by rewrite handle_ends|].
    pose proof (handle_spec st h w x Htr He) as Hs. destruct (emission w x) as [y|e]; [|by rewrite Hs].
    destruct Hs as (st' & -> & Htr'). destruct a as [w' x'| |]; [|by destruct (wanted h x)|by destruct (wanted h x)].
    rewrite (IH st' (h ++ [x]) w' x' Htr'). by destruct (wanted h x).
Qed.

Lemma tracks_init : tracks iter_init [].
Proof.
  split; cbn.
  - intros s. by split; [intros ?%not_elem_of_empty|].
  - intros s. by split; [intros ?%not_elem_of_empty|].
  - intros i s. by split; [intros ?%not_elem_of_empty|intros [? _]].
  - intros i. by split; [intros ?%not_elem_of_empty|intros ?%not_elem_of_nil].
  - done.
Qed.

(** *** What the reference yields *)

(** The requests about step [s]. *)
Definition about (s : string) (xs : list (incoming T)) : list path := omap (path_of s) xs.

(** What a history still allows for a step. *)
Definition allowed h (s : string) (ps : list path) : Prop :=
  match route s h with
  | Some Whole => ps = []
  | Some Queue => Forall (eq Queue) ps
  | None => ps = [] ∨ ps = [Whole] ∨ (Forall (eq Queue) ps)
  end.

Lemma allowed_cons h s x ps : allowed (h ++ [x]) s ps →
  allowed h s ((if wanted h x then about s [x] else []) ++ ps).
Proof.
  unfold allowed. rewrite route_snoc.
  assert (Hw : wanted h x = true → path_of s x = Some Whole → route s h = None).
  { destruct x as [item|r]; cbn; [intros _; by destruct (bool_decide _)|]. destruct (is_signal r); [done|]. cbn.
    destruct (decide (step_id_of (default [] (rq_metadata r)) = Some s)) as [Hs|Hs]; [|by rewrite (bool_decide_false _ Hs)]. rewrite Hs. intros Hr _. by apply bool_decide_eq_true in Hr. }
  assert (Hq : wanted h x = true → path_of s x = Some Queue → route s h ≠ Some Whole).
  { destruct x as [item|r]; cbn; [|intros _; by destruct (negb _ && _)].
    destruct (decide (step_id_of (qi_metadata _ item) = Some s)) as [Hs|Hs]; [|by rewrite (bool_decide_false _ Hs)]. rewrite Hs.
    intros [Hr _]%andb_prop _. by apply bool_decide_eq_true in Hr. }
  unfold about. cbn [omap list_omap]. destruct (route s h) as [[]|] eqn:Hr.
  - intros Hps. destruct (wanted h x), (path_of s x) as [[]|]; cbn; try done; [by constructor|]. by specialize (Hw eq_refl eq_refl).
  - intros ->. rewrite app_nil_r. destruct (wanted h x), (path_of s x) as [[]|]; cbn; try done;
      [by specialize (Hq eq_refl eq_refl)|by specialize (Hw eq_refl eq_refl)].
  - destruct (path_of s x) as [[]|]; destruct (wanted h x); cbn; intros Hps; subst; auto.
Qed.

(** The items yielded of the arrivals [rest] after the history [h]. *)
Definition good_items h (arr : list (arrival T)) (items : list (wait_info * incoming T))
    (ys : list (expert_request T * metadata)) : Prop :=
  items `sublist_of` omap (λ a, match a with Arrived w x => pair w <$> x | _ => None end) arr ∧
  Forall2 (λ i y, emission i.1 i.2 = Ok y) items ys ∧
  (∀ s, allowed h s (about s (items.*2))) ∧
  NoDup (omap micro_key (items.*2)) ∧ (∀ k, k ∈ omap micro_key (items.*2) → k ∉ omap micro_key h).

Lemma good_nil h arr : good_items h arr [] [].
Proof.
  split; [apply sublist_nil_l|]. split; [done|]. split.
  - intros s. unfold allowed. destruct (route s h) as [[]|]; cbn; auto.
  - split; [constructor|]. intros k Hk. by apply not_elem_of_nil in Hk.
Qed.

Lemma good_cons h w x rest items ys y : emission w x = Ok y → good_items (h ++ [x]) rest items ys →
  good_items h (Arrived w (Some x) :: rest) ((if wanted h x then [(w, x)] else []) ++ items)
    ((if wanted h x then [y] else []) ++ ys).
Proof.
  intros Hem (Hsub & Hf & Ha & Hnd & Hk). split; [|split; [|split; [|split]]].
  - cbn. destruct (wanted h x); cbn; [by apply sublist_skip|by apply sublist_cons].
  - destruct (wanted h x); [by constructor|done].
  - intros s. specialize (Ha s). apply allowed_cons in Ha. destruct (wanted h x); [|done].
    unfold about in *. cbn [fmap list_fmap app snd]. cbn [omap list_omap] in *. destruct (path_of s x); done.
  - destruct (wanted h x) eqn:Hw; [|done]. cbn. destruct (micro_key x) as [k|] eqn:Hkx; [|done].
    apply NoDup_cons. split; [|done]. intros Hin. apply (Hk k Hin). rewrite micro_keys_snoc, Hkx, elem_of_app, list_elem_of_singleton. by right.
  - intros k. destruct (wanted h x) eqn:Hw; cbn.
    + destruct (micro_key x) as [k'|] eqn:Hkx.
      * intros [->|Hin]%elem_of_cons; [|intros Hin'; apply (Hk k Hin); rewrite micro_keys_snoc, elem_of_app; by left].
        destruct x as [item|]; [|done]. cbn in Hw, Hkx. injection Hkx as <-. apply andb_prop in Hw as [_ Hw].
        by apply bool_decide_eq_true in Hw.
      * intros Hin Hin'. apply (Hk k Hin). rewrite micro_keys_snoc, elem_of_app. by left.
    + intros Hin Hin'. apply (Hk k Hin). rewrite micro_keys_snoc, elem_of_app. by left.
Qed.

Lemma good_last h w x rest y : emission w x = Ok y →
  ∃ items, good_items h (Arrived w (Some x) :: rest) items (if wanted h x then [y] else []).
Proof.
  intros Hem. pose proof (good_cons h w x rest [] [] y Hem (good_nil _ _)) as Hg. rewrite !app_nil_r in Hg. eauto.
Qed.

Lemma reference_items h w (x : option (incoming T)) rest ys oc : reference h w x rest = (ys, oc) →
  ∃ items, good_items h (Arrived w x :: rest) items ys.
Proof.
  revert h w x ys oc. induction rest as [|a rest IH]; intros h w x ys oc; cbn [reference];
    (destruct x as [x|]; [|intros [= <- _]; exists []; apply good_nil]);
    (destruct (ends x); [intros [= <- _]; exists []; apply good_nil|]);
    (destruct (emission w x) as [y|e] eqn:Hem; [|intros [= <- _]; exists []; apply good_nil]).
  - intros [= <- _]. by apply good_last.
  - destruct a as [w' x'| |].
    + destruct (reference (h ++ [x]) w' x' rest) as [zs oc'] eqn:Hr. intros [= <- _].
      destruct (IH _ _ _ _ _ Hr) as [items Hitems]. eexists. by eapply good_cons.
    + intros [= <- _]. by apply good_last.
    + intros [= <- _]. by apply good_last.
Qed.

(** The generator is its reference. Whatever arrives, in whatever order, it yields
    exactly the requests the history lets through: a micro-batch when its step did not go
    whole and the micro-batch was not seen, a whole request when it is the first of its
    step and no start signal; and it stops as the loop does. Counting late pushes never
    raises. *)
Lemma steps_follow_history first_request rest :
  iterate_inference_steps env repr first_request rest =
  reference [] (mkWait (SpecFloat.S754_zero false) "initial" 0 0) (Some (Direct first_request)) rest.
Proof. apply iterate_reference, tracks_init. Qed.

(** C23: Every step is computed once. Of all that arrives, what is yielded is a part in
    the order of arrival; the requests yielded for a step are either one whole request or
    micro-batches only, and no micro-batch of a step is yielded twice. *)
Theorem step_once first_request rest ys oc :
  iterate_inference_steps env repr first_request rest = (ys, oc) →
  ∃ items, items `sublist_of` omap (λ a, match a with Arrived w x => pair w <$> x | _ => None end)
      (Arrived (mkWait (SpecFloat.S754_zero false) "initial" 0 0) (Some (Direct first_request)) :: rest) ∧
    Forall2 (λ i y, emission i.1 i.2 = Ok y) items ys ∧
    (∀ s, about s (items.*2) = [] ∨ about s (items.*2) = [Whole] ∨ Forall (eq Queue) (about s (items.*2))) ∧
    NoDup (omap micro_key (items.*2)).
Proof.
  intros E. unfold iterate_inference_steps in E. rewrite (iterate_reference _ [] _ _ _ tracks_init) in E.
  destruct (reference_items _ _ _ _ _ _ E) as (items & H1 & H2 & H3 & H4 & _). exists items. done.
Qed.
End reference.

(** ** Examples *)

Definition demo_request (step : string) (extra : metadata) : expert_request Z :=
  mkRequest "block.0" [0] (Some (("step_id", VStr step) :: extra)).
Definition demo_micro (step : string) (i : Z) : incoming Z :=
  Micro (create_microbatch_queue_item "session" (Some step) i 2 (demo_request step []) [("step_id", VStr step)] 0 1 2).
Definition demo_wait : wait_info := mkWait (SpecFloat.S754_zero false) "push_queue" 0 0.

(** Step a goes whole, so its late micro-batch is dropped; step b goes in micro-batches,
    each once, and its whole request is dropped. *)
Definition demo_rest : list (arrival Z) :=
  (λ x, Arrived demo_wait (Some x)) <$>
    [demo_micro "a" 0; demo_micro "b" 0; Direct (demo_request "b" []); demo_micro "b" 0; demo_micro "b" 1;
     Direct (demo_request "a" [("pushed", VBool true)])].

Lemma step_once_witness : ∃ ys (items : list (wait_info * incoming Z)),
  iterate_inference_steps (λ _, None) (λ _, "") (demo_request "a" []) demo_rest = (ys, Waiting) ∧ length ys = 3%nat ∧
  NoDup (omap (micro_key (T := Z)) (items.*2)) ∧ length items = 3%nat.
Proof.
  destruct (iterate_inference_steps (λ _, None) (λ _, "") (demo_request "a" []) demo_rest) as [ys oc] eqn:E.
  destruct (step_once (λ _, None) (λ _, "") (demo_request "a" []) demo_rest ys oc E) as (items & _ & Hf & _ & Hnd).
  exists ys, items. apply Forall2_length in Hf. vm_compute in E. injection E as <- <-.
  split; [reflexivity|]. split; [reflexivity|]. split; [exact Hnd|exact Hf].
Defined.
