(* ===== verification/PushHandler.v ===== *)
(** * Pushes from server to server (server/handler.py, [rpc_push])

    A server pushes its outputs straight to the next one: whole, or one micro-batch at a
    time. The receiver drops micro-batches it has seen, measures the transport, counts
    them and puts them into the queue of the session (Handlers.v), where the step iterator
    (StepIterator.v) takes them. Clock readings are arguments; the length of a buffer is a
    parameter. *)

From stdpp Require Import numbers base gmap sets strings list.
From Stdlib Require Import ZArith Lia ZifyBool SpecFloat.
From S2P Require Import Prelude Dict PyStr Floats PyVal Microbatch Handlers StepIterator.

Open Scope string_scope.
Open Scope list_scope.
Open Scope Z_scope.

(** ** State *)

Abbreviation mb_key_t := (string * option string)%type (only parsing).

(** The tracking dictionaries of a handler. Times are nanoseconds of the monotonic clock.
    The table of link telemetry is left out: it is always empty, see
    [record_s2s_network_sample]. *)
Record push_state := mkPush {
  mb_expected : gmap mb_key_t Z;
  mb_received : gmap mb_key_t Z;
  mb_processed : gmap mb_key_t (gset Z);
  mb_processed_timestamps : gmap mb_key_t Z;
}.
Definition push_init : push_state := mkPush ∅ ∅ ∅ ∅.

(** [_MB_PROCESSED_TTL], 120 seconds *)
Definition MB_PROCESSED_TTL : Z := 120 * 10 ^ 9.

(** The clock readings of one call, in the order they are taken. *)
Record clocks := mkClocks {
  rpc_receive_us : Z; (* taken by [rpc_push] *)
  receive_us : Z;     (* taken by [_handle_microbatch_push] *)
  inserted : Z;       (* time.monotonic() of a new entry *)
  now : Z;            (* time.monotonic() of the cleanup *)
  queue_put_us : Z;
  ack_us : Z;
}.

(** ** Reading the metadata *)

(** [metadata.get(k, dflt)] of a position or size, which senders write as integers. *)
Definition int_field (md : metadata) (k : string) (dflt : Z) : Z :=
  match dict_get md k with Some (VInt n) => n | _ => dflt end.

(** [self._to_int(metadata.get(k), dflt)] *)
Definition to_int_field (md : metadata) (k : string) (dflt : Z) : Z :=
  match py_int_of (get_default md k VNone) with Ok n => n | Raise _ => dflt end.

(** [metadata["session_id"]], a string *)
Definition session_id_of (md : metadata) : res string :=
  match dict_get md "session_id" with Some (VStr s) => Ok s | _ => Raise KeyError end.

Definition total_micro_batches_of (md : metadata) : option (option Z) :=
  match get_some md "total_micro_batches" with
  | None => None
  | Some v => Some (match py_int_of v with Ok n => Some n | Raise _ => None end)
  end.

(** ** Transport times *)

Definition fzero : float := S754_zero false.
Definition minus_one : float := fopp float_one.
(** [max(0.0, x)] *)
Definition max_zero (x : float) : float := if fltb fzero x then x else fzero.
(** [max(0.0, us / 1000.0)] *)
Definition us_to_ms (us : Z) : float := max_zero (fdiv (float_of_Z us) (float_of_Z 1000)).
(** [us_to_ms(b - a)] when [a] was recorded and is not after [b], else -1. *)
Definition elapsed_ms (a b : Z) : float := if (0 <? a) && (a <=? b) then us_to_ms (b - a) else minus_one.
(** [x if x >= 0.0 else y] *)
Definition if_measured (x y : float) : float := if fleb fzero x then x else y.

Definition clock_sync_ok (md : metadata) : bool := 0 <? to_int_field md "sender_to_receiver_clock_samples" 0.

(** The time on the wire, with the estimated offset of the sender's clock. *)
Definition wire_ms_of (md : metadata) (receive : Z) : float :=
  let send := to_int_field md "clock_sync_sender_send_us" 0 in
  if clock_sync_ok md && (0 <? send)
  then us_to_ms (receive - (send + to_int_field md "sender_to_receiver_clock_offset_us" 0))
  else minus_one.

(** [raw_transfer_ms] of the two channels *)
Definition full_batch_transfer_ms (md : metadata) (receive : Z) : float :=
  elapsed_ms (to_int_field md "clock_sync_sender_send_us" 0) receive.
Definition micro_batch_transfer_ms (md : metadata) (receive : Z) : float :=
  elapsed_ms (to_int_field md "stage_push_timestamp_us" 0) receive.

Definition effective_latency_ms (raw_transfer_ms wire_ms : float) : float :=
  if fltb fzero wire_ms then wire_ms else raw_transfer_ms.

(** [_record_s2s_network_sample]. The first sample of a link builds an [S2SLinkTelemetry]
    with keyword arguments; the class is no dataclass and has no [__init__] that takes
    them, so the call is a TypeError and the table never gets an entry. *)
Definition record_s2s_network_sample (raw_transfer_ms wire_ms : float) : res unit :=
  if fleb (effective_latency_ms raw_transfer_ms wire_ms) fzero then Ok tt else Raise TypeError.

Section push.
Context {T : Type} (env : environ).
(** The bytes of a tensor's buffer, [float] of a string. *)
Context (nbytes : T → Z) (parse_float : string → res float).

Definition payload_bytes (r : expert_request T) : Z := foldr (λ t acc, nbytes t + acc) 0 (rq_tensors r).

Definition float_field (md : metadata) (k : string) (dflt : value) : res float :=
  py_float_of parse_float (get_default md k dflt).

(** The transport times written into the metadata of a micro-batch, for the timing report. *)
Definition stamp_micro_batch (md : metadata) (receive : Z) (r : expert_request T) : res metadata :=
  let raw := micro_batch_transfer_ms md receive in
  let wire := wire_ms_of md receive in
  let ser_end := to_int_field md "s2s_sender_serialize_end_us" 0 in
  let serialize := elapsed_ms (to_int_field md "s2s_sender_serialize_start_us" 0) ser_end in
  let prep := elapsed_ms ser_end (to_int_field md "clock_sync_sender_send_us" 0) in
  gpu2cpu ← float_field md "s2s_sender_gpu2cpu_ms" (VFloat (if_measured serialize fzero));
  cpu2nic ← float_field md "s2s_sender_cpu2nic_ms" (VFloat (if_measured prep fzero));
  Ok (dict_update md
    [("_s2s_sender_gpu2cpu_ms", VFloat gpu2cpu); ("_s2s_sender_cpu2nic_ms", VFloat cpu2nic);
     ("_s2s_wire_ms", VFloat (if_measured wire (if_measured raw fzero)));
     ("_s2s_payload_bytes", VInt (payload_bytes r))]).

(** The same for a whole batch. *)
Definition stamp_full_batch (md : metadata) (receive : Z) (r : expert_request T) : res metadata :=
  let raw := full_batch_transfer_ms md receive in
  let wire := wire_ms_of md receive in
  gpu2cpu ← float_field md "s2s_sender_gpu2cpu_ms"
    (get_default md "_t_gpu2cpu_ms" (get_default md "_serialize_ms" (VFloat fzero)));
  cpu2nic ← float_field md "s2s_sender_cpu2nic_ms" (VFloat fzero);
  Ok (dict_update md
    [("_s2s_sender_gpu2cpu_ms", VFloat gpu2cpu); ("_s2s_sender_cpu2nic_ms", VFloat cpu2nic);
     ("_s2s_wire_ms", VFloat (if_measured wire (if_measured raw fzero)));
     ("_s2s_payload_bytes", VInt (payload_bytes r))]).

(** ** The handlers *)

(** The cluster and the tracking of the handler that runs. *)
Definition server : Type := cluster (incoming T) * push_state.

Definition on_cluster {A} (m : M (cluster (incoming T)) A) : M server A := λ x,
  let (c, r) := m x.1 in ((c, x.2), r).
Definition update_push (f : push_state → push_state) : M server unit := modify (λ x : server, (x.1, f x.2)).

Definition set_expected m p := mkPush m (mb_received p) (mb_processed p) (mb_processed_timestamps p).
Definition set_received m p := mkPush (mb_expected p) m (mb_processed p) (mb_processed_timestamps p).
Definition set_processed m p := mkPush (mb_expected p) (mb_received p) m (mb_processed_timestamps p).
Definition set_timestamps m p := mkPush (mb_expected p) (mb_received p) (mb_processed p) m.

(** The entries older than the TTL go. *)
Definition drop_stale (now : Z) (p : push_state) : push_state :=
  let fresh := λ k, match mb_processed_timestamps p !! k with Some t => bool_decide (now - t ≤ MB_PROCESSED_TTL) | None => true end in
  set_timestamps (filter (λ kv, fresh kv.1 = true) (mb_processed_timestamps p))
    (set_processed (filter (λ kv, fresh kv.1 = true) (mb_processed p)) p).

(** The entry of the idempotency check, made when it is missing. *)
Definition ensure_processed (key : mb_key_t) (ck : clocks) (p : push_state) : push_state :=
  match mb_processed p !! key with
  | Some _ => p
  | None =>
      drop_stale (now ck)
        (set_timestamps (<[key := inserted ck]> (mb_processed_timestamps p))
           (set_processed (<[key := ∅]> (mb_processed p)) p))
  end.

(** The tracking of a micro-batch that is queued, and of a step all of whose are. *)
Definition start_tracking (key : mb_key_t) (expected : Z) (p : push_state) : push_state :=
  match mb_expected p !! key with
  | Some _ => p
  | None => set_received (<[key := 0]> (mb_received p)) (set_expected (<[key := expected]> (mb_expected p)) p)
  end.
Definition count_received (key : mb_key_t) (p : push_state) : push_state :=
  set_received (<[key := default 0 (mb_received p !! key) + 1]> (mb_received p)) p.
Definition finish_tracking (key : mb_key_t) (p : push_state) : push_state :=
  mkPush (delete key (mb_expected p)) (delete key (mb_received p)) (delete key (mb_processed p))
    (delete key (mb_processed_timestamps p)).

Definition expected_of (md : metadata) : Z :=
  resolve_expected_num_microbatches env (int_field md "full_batch_size" (int_field md "micro_batch_size" 1))
    (total_micro_batches_of md) None.

(** The item that goes into the session's queue. *)
Definition micro_batch_item (session : string) (md md' : metadata) (r : expert_request T) : incoming T :=
  let size := int_field md "micro_batch_size" 1 in
  Micro (create_microbatch_queue_item session (step_id_of md) (int_field md "micro_batch_idx" 0) (expected_of md) r md'
           (int_field md "micro_batch_offset" 0) size (int_field md "full_batch_size" size)).

(** The rest of [_handle_microbatch_push] for a micro-batch that was not seen: transport
    times, tracking, the session's queue. *)
Definition accept_microbatch (i : nat) (ck : clocks) (session : string) (md : metadata) (r : expert_request T) : M server unit :=
  let key := (session, step_id_of md) in
  let md1 := dict_set md "s2s_receiver_receive_us" (VInt (receive_us ck)) in
  lift (record_s2s_network_sample (micro_batch_transfer_ms md (receive_us ck)) (wire_ms_of md (receive_us ck)));;
  md2 ← lift (stamp_micro_batch md1 (receive_us ck) r);
  update_push (start_tracking key (expected_of md));;
  update_push (count_received key);;
  x ← get;
  let received_count := default 0 (mb_received x.2 !! key) in
  let md3 := dict_set md2 "s2s_receiver_queue_put_us" (VInt (queue_put_us ck)) in
  on_cluster (put_into_session_queue i session (micro_batch_item session md md3 r));;
  if expected_of md <=? received_count then update_push (finish_tracking key) else mret tt.

Definition handle_microbatch_push (i : nat) (ck : clocks) (md : metadata) (r : expert_request T) : M server unit :=
  session ← lift (session_id_of md);
  let key := (session, step_id_of md) in
  let mb_idx := int_field md "micro_batch_idx" 0 in
  update_push (ensure_processed key ck);;
  x ← get;
  seen ← lift (of_option KeyError (mb_processed x.2 !! key));
  if bool_decide (mb_idx ∈ seen) then mret tt
  else
    update_push (λ p, set_processed (<[key := {[mb_idx]} ∪ seen]> (mb_processed p)) p);;
    accept_microbatch i ck session md r.

(** [_check_uids] *)
Definition check_uids (backends : list string) (uid : string) : res (list string) :=
  let uids := py_split (Ascii.ascii_of_nat 32) uid in
  if forallb (λ u, bool_decide (u ∈ backends)) uids then Ok uids else Raise RuntimeError.

(** [_build_rpc_push_ack_response] *)
Definition build_rpc_push_ack_response (ck : clocks) : metadata :=
  [("clock_sync_receiver_recv_us", VInt (rpc_receive_us ck)); ("clock_sync_receiver_ack_us", VInt (ack_us ck))].

Definition rpc_push (backends : list string) (i : nat) (ck : clocks) (r : expert_request T) : M server metadata :=
  lift (check_uids backends (rq_uid r));;
  let md := default [] (rq_metadata r) in
  session ← lift (session_id_of md);
  if truthy (get_default md "is_microbatch_push" (VBool false)) then
    handle_microbatch_push i ck md r;;
    mret (build_rpc_push_ack_response ck)
  else
    r' ← (if truthy (get_default md "pushed" VNone) then
            lift (record_s2s_network_sample (full_batch_transfer_ms md (rpc_receive_us ck)) (wire_ms_of md (rpc_receive_us ck)));;
            md' ← lift (stamp_full_batch md (rpc_receive_us ck) r);
            mret (mkRequest (rq_uid r) (rq_tensors r) (Some md'))
          else mret r);
    on_cluster (put_into_session_queue i session (Direct r'));;
    mret (build_rpc_push_ack_response ck).
End push.

(** ** Proofs *)

Section proofs.
Context {T : Type} (env : environ) (nbytes : T → Z) (parse_float : string → res float).
Implicit Types (p : push_state) (c : cluster (incoming T)) (key : mb_key_t) (seen : gset Z).

Abbreviation handle := (handle_microbatch_push (T := T) env nbytes parse_float) (only parsing).

Lemma ensure_processed_get key ck p : now ck - inserted ck ≤ MB_PROCESSED_TTL →
  mb_processed (ensure_processed key ck p) !! key = Some (default ∅ (mb_processed p !! key)).
Proof.
  intros Ht. unfold ensure_processed. destruct (mb_processed p !! key) as [seen|] eqn:Hk; [by rewrite Hk|].
  cbn. apply map_lookup_filter_Some. split; [apply lookup_insert_eq|]. cbn. rewrite lookup_insert_eq.
  by rewrite bool_decide_true.
Qed.

Lemma ensure_processed_same key ck p seen : mb_processed p !! key = Some seen → ensure_processed key ck p = p.
Proof. intros Hk. unfold ensure_processed. by rewrite Hk. Qed.

Lemma update_push_bind {B} f (k : unit → M (server (T := T)) B) c p : (update_push f ≫= k) (c, p) = k tt (c, f p).
Proof. done. Qed.

(** The call up to the test for a repetition. *)
Lemma handle_seen i ck md r s c p : session_id_of md = Ok s → now ck - inserted ck ≤ MB_PROCESSED_TTL →
  let key := (s, step_id_of md) in
  let seen := default ∅ (mb_processed p !! key) in
  let p1 := ensure_processed key ck p in
  let idx := int_field md "micro_batch_idx" 0 in
  handle i ck md r (c, p) =
    if bool_decide (idx ∈ seen) then ((c, p1), Ok tt)
    else accept_microbatch env nbytes parse_float i ck s md r
           (c, set_processed (<[key := {[idx]} ∪ seen]> (mb_processed p1)) p1).
Proof.
  intros Hs Ht key seen p1 idx. unfold handle_microbatch_push. rewrite Hs, lift_ok_bind. fold key idx.
  rewrite update_push_bind, get_bind. cbn [fst snd].
  rewrite (ensure_processed_get key ck p Ht). cbn [of_option]. rewrite lift_ok_bind. fold seen p1.
  by case_bool_decide.
Qed.

(** A micro-batch whose transport was measured never arrives. The push raises a
    TypeError after the micro-batch was marked as seen and before it was queued; the
    sender's retry is acknowledged as a repetition. No queue of any handler changes. *)
Lemma measured_push_lost i ck md r s c p : session_id_of md = Ok s → now ck - inserted ck ≤ MB_PROCESSED_TTL →
  int_field md "micro_batch_idx" 0 ∉ default ∅ (mb_processed p !! (s, step_id_of md)) →
  fleb (effective_latency_ms (micro_batch_transfer_ms md (receive_us ck)) (wire_ms_of md (receive_us ck))) fzero = false →
  ∃ p', handle i ck md r (c, p) = ((c, p'), Raise TypeError) ∧
    ∀ ck' md' r', session_id_of md' = Ok s → step_id_of md' = step_id_of md → now ck' - inserted ck' ≤ MB_PROCESSED_TTL →
      int_field md' "micro_batch_idx" 0 = int_field md "micro_batch_idx" 0 →
      handle i ck' md' r' (c, p') = ((c, p'), Ok tt).
Proof.
  intros Hs Ht Hnew Hlat. rewrite (handle_seen _ _ _ _ s) by done. rewrite bool_decide_false by done.
  eexists. split.
  - unfold accept_microbatch, record_s2s_network_sample. rewrite Hlat. reflexivity.
  - intros ck' md' r' Hs' Hstep Ht' Hidx. rewrite (handle_seen _ _ _ _ s) by done. rewrite Hstep, Hidx.
    set (key := (s, step_id_of md)). cbn [mb_processed set_processed]. rewrite lookup_insert_eq.
    match goal with |- context [default ∅ (Some ?x)] => change (default ∅ (Some x)) with x end.
    rewrite bool_decide_true by (apply elem_of_union_l, elem_of_singleton; done).
    erewrite ensure_processed_same by (cbn; apply lookup_insert_eq). done.
Qed.

(** *** The pushes of one step

    The protocol that the pushes follow, without the dictionaries: the numbers seen and how
    many micro-batches were queued. *)

Record arrivals := mkArrivals { arr_seen : gset Z; arr_queued : Z }.
Definition no_arrivals : arrivals := mkArrivals ∅ 0.

(** One push of micro-batch [idx] of [n], whose transport times are taken and read with the
    result [timing]: a repetition is acknowledged, and nothing else; any other push is marked
    as seen, and raises what its timing raises, or is queued and counted; when all [n] are
    queued the step is forgotten. The result and whether the micro-batch is queued. *)
Definition arrive (a : arrivals) (idx n : Z) (timing : res unit) : arrivals * res unit * bool :=
  if bool_decide (idx ∈ arr_seen a) then (a, Ok tt, false)
  else
    let seen := {[idx]} ∪ arr_seen a in
    match timing with
    | Raise e => (mkArrivals seen (arr_queued a), Raise e, false)
    | Ok _ => (if n <=? arr_queued a + 1 then no_arrivals else mkArrivals seen (arr_queued a + 1), Ok tt, true)
    end.

(** Several of them: the results, and the numbers that are queued. *)
Fixpoint arrive_all (a : arrivals) (l : list (Z * Z * res unit)) : arrivals * list (res unit) * list Z :=
  match l with
  | [] => (a, [], [])
  | (idx, n, timing) :: l =>
      let '(a1, r, queued) := arrive a idx n timing in
      let '(a2, rs, idxs) := arrive_all a1 l in
      (a2, r :: rs, if queued : bool then idx :: idxs else idxs)
  end.

Abbreviation a_push := (clocks * metadata * expert_request T)%type (only parsing).

Definition idx_of (x : a_push) : Z := int_field x.1.2 "micro_batch_idx" 0.

(** Taking the times of a push and reading those that it carries. *)
Definition timing_of (x : a_push) : res unit :=
  record_s2s_network_sample (micro_batch_transfer_ms x.1.2 (receive_us x.1.1)) (wire_ms_of x.1.2 (receive_us x.1.1));;
  stamp_micro_batch nbytes parse_float (dict_set x.1.2 "s2s_receiver_receive_us" (VInt (receive_us x.1.1))) (receive_us x.1.1) x.2;;
  Ok tt.

Definition arrival_of (x : a_push) : Z * Z * res unit := (idx_of x, expected_of env x.1.2, timing_of x).

(** A push of a micro-batch of step [step] of session [s]. Its two readings of the clock are
    no more than 120 seconds apart. *)
Record step_push (s : string) (step : option string) (x : a_push) : Prop := {
  sp_session : session_id_of x.1.2 = Ok s;
  sp_step : step_id_of x.1.2 = step;
  sp_clock : now x.1.1 - inserted x.1.1 ≤ MB_PROCESSED_TTL;
}.

Definition untracked p key : Prop :=
  mb_expected p !! key = None ∧ mb_received p !! key = None ∧ mb_processed p !! key = None ∧
  mb_processed_timestamps p !! key = None.

(** The dictionaries hold the arrivals of a step; nothing when none was seen. *)
Definition tracks p key (a : arrivals) : Prop :=
  if decide (arr_seen a = ∅) then untracked p key ∧ arr_queued a = 0
  else mb_processed p !! key = Some (arr_seen a) ∧ default 0 (mb_received p !! key) = arr_queued a ∧
       (mb_expected p !! key = None → mb_received p !! key = None).

(** Handler [i] holds session [s], with the queue [q]. *)
Definition holds c i s (q : list (incoming T)) : Prop :=
  ∃ h, handlers c !! i = Some h ∧ session_handlers h !! s = Some i ∧ session_queues h !! s = Some q.

Lemma put_local c i s q item : holds c i s q →
  ∃ c', put_into_session_queue i s item c = (c', Ok true) ∧ holds c' i s (q ++ [item]).
Proof.
  intros (h & Hh & Ht & Hq). unfold put_into_session_queue. rewrite (bind_ok _ _ _ _ _ (get_handler_run _ _ _ Hh)), Ht.
  rewrite bool_decide_true, Hq by done. cbn [of_option].
  rewrite lift_ok_bind, (bind_ok _ _ _ _ _ (update_handler_run _ _ _ _ Hh)). eexists. split; [done|].
  exists (set_queues (alter (λ q, q ++ [item]) s (session_queues h)) h). split; [|split].
  - apply list_lookup_insert_eq. by eapply lookup_lt_Some.
  - done.
  - cbn. by rewrite lookup_alter_eq, Hq.
Qed.

Lemma tracks_seen p key a : tracks p key a → default ∅ (mb_processed p !! key) = arr_seen a.
Proof. unfold tracks. destruct (decide (arr_seen a = ∅)) as [->|]; [by intros [(_ & _ & -> & _) _]|by intros (-> & _)]. Qed.

Lemma tracks_counts p key a : tracks p key a → default 0 (mb_received p !! key) = arr_queued a ∧
  (mb_expected p !! key = None → mb_received p !! key = None).
Proof. unfold tracks. case_decide; [by intros [(_ & -> & _) ->]|by intros (_ & ? & ?)]. Qed.

Lemma tracks_cons p key idx seen q : mb_processed p !! key = Some ({[idx]} ∪ seen) → default 0 (mb_received p !! key) = q →
  (mb_expected p !! key = None → mb_received p !! key = None) → tracks p key (mkArrivals ({[idx]} ∪ seen) q).
Proof. intros. unfold tracks. cbn. rewrite decide_False; [done|]. set_solver. Qed.

Lemma ensure_processed_tracking key ck p : mb_expected (ensure_processed key ck p) = mb_expected p ∧
  mb_received (ensure_processed key ck p) = mb_received p.
Proof. unfold ensure_processed. by destruct (mb_processed p !! key). Qed.

(** The stamps leave the step id alone. *)
Lemma stamp_micro_batch_step md receive (r : expert_request T) md' : stamp_micro_batch nbytes parse_float md receive r = Ok md' →
  dict_get md' "step_id" = dict_get md "step_id".
Proof.
  unfold stamp_micro_batch. destruct (float_field parse_float md "s2s_sender_gpu2cpu_ms" _) as [a|]; [|done].
  cbn [mbind res_bind]. destruct (float_field parse_float md "s2s_sender_cpu2nic_ms" _) as [b|]; [|done].
  cbn [mbind res_bind]. intros [= <-]. by rewrite !dict_get_set_ne by done.
Qed.

(** The rest of the call, for a micro-batch that was not seen. *)
Lemma accept_spec i ck s step md r c p q seen k : step_push s step (ck, md, r) → holds c i s q →
  let idx := int_field md "micro_batch_idx" 0 in
  mb_processed p !! (s, step) = Some ({[idx]} ∪ seen) → default 0 (mb_received p !! (s, step)) = k →
  (mb_expected p !! (s, step) = None → mb_received p !! (s, step) = None) →
  ∃ c' p' items, accept_microbatch env nbytes parse_float i ck s md r (c, p) =
      ((c', p'), match timing_of (ck, md, r) with Ok _ => Ok tt | Raise e => Raise e end) ∧
    holds c' i s (q ++ items) ∧
    match timing_of (ck, md, r) with
    | Raise _ => items = [] ∧ p' = p
    | Ok _ => (micro_key <$> items) = [Some (step, idx)] ∧
        if expected_of env md <=? k + 1 then untracked p' (s, step) else tracks p' (s, step) (mkArrivals ({[idx]} ∪ seen) (k + 1))
    end.
Proof.
  intros [Hs Hst _] Hh idx Hp Hk Hex. cbn [fst snd] in *. unfold accept_microbatch, timing_of. cbn [fst snd]. rewrite Hst.
  destruct (record_s2s_network_sample _ _) as [[]|e]; [|by exists c, p, []; rewrite app_nil_r].
  rewrite lift_ok_bind. cbn [mbind res_bind]. destruct (stamp_micro_batch _ _ _ _ _) as [md2|e] eqn:Hmd2; [|by exists c, p, []; rewrite app_nil_r].
  rewrite lift_ok_bind, !update_push_bind, get_bind. cbn [mbind res_bind]. set (key := (s, step)) in *.
  set (p2 := count_received key (start_tracking key (expected_of env md) p)).
  assert (is_Some (mb_expected p2 !! key) ∧ mb_received p2 !! key = Some (k + 1) ∧ mb_processed p2 !! key = Some ({[idx]} ∪ seen)) as (F1 & F2 & F3).
  { unfold p2, count_received, start_tracking. destruct (mb_expected p !! key) as [x|] eqn:Ex; cbn.
    - rewrite lookup_insert_eq, Hk, Ex, Hp. done.
    - rewrite !lookup_insert_eq. rewrite Hex in Hk by done. cbn in *. subst k. done. }
  clearbody p2. cbn [fst snd]. rewrite F2. cbn [default from_option id].
  set (item := micro_batch_item env s md _ r). destruct (put_local c i s q item Hh) as (c' & Hput & Hh').
  assert (Hon : on_cluster (put_into_session_queue i s item) (c, p2) = ((c', p2), Ok true)) by (unfold on_cluster; cbn; by rewrite Hput).
  rewrite (bind_ok _ _ _ _ _ Hon). exists c'.
  assert (Hkey : micro_key item = Some (step, idx)).
  { change (Some (step_id_of (dict_set md2 "s2s_receiver_queue_put_us" (VInt (queue_put_us ck))), idx) = Some (step, idx)).
    do 2 f_equal. rewrite <- Hst. unfold step_id_of. rewrite dict_get_set_ne by done.
    rewrite (stamp_micro_batch_step _ _ _ _ Hmd2). by rewrite dict_get_set_ne. }
  destruct (expected_of env md <=? k + 1).
  - exists (finish_tracking key p2), [item]. split; [done|]. split; [done|]. split; [change ([micro_key item] = [Some (step, idx)]); by rewrite Hkey|].
    unfold untracked. cbn. by rewrite !lookup_delete_eq.
  - exists p2, [item]. split; [done|]. split; [done|]. split; [change ([micro_key item] = [Some (step, idx)]); by rewrite Hkey|].
    apply tracks_cons; [done|by rewrite F2|]. intros Hn. by destruct F1 as [? F1]; rewrite F1 in Hn.
Qed.

(** A push follows the protocol. *)
Lemma push_arrives i s step a c p q x : step_push s step x → tracks p (s, step) a → holds c i s q →
  ∃ c' p' items, handle i x.1.1 x.1.2 x.2 (c, p) =
      ((c', p'), (arrive a (idx_of x) (expected_of env x.1.2) (timing_of x)).1.2) ∧
    holds c' i s (q ++ items) ∧ tracks p' (s, step) (arrive a (idx_of x) (expected_of env x.1.2) (timing_of x)).1.1 ∧
    (micro_key <$> items) = if (arrive a (idx_of x) (expected_of env x.1.2) (timing_of x)).2 then [Some (step, idx_of x)] else [].
Proof.
  destruct x as [[ck md] r]. intros Hx Htr Hh. pose proof Hx as [Hs Hst Hck]. unfold arrive, idx_of. cbn [fst snd] in *.
  pose proof (handle_seen i ck md r s c p Hs Hck) as Hrun. cbv zeta in Hrun. rewrite Hst, (tracks_seen _ _ _ Htr) in Hrun.
  set (idx := int_field md "micro_batch_idx" 0) in *. set (key := (s, step)) in *.
  destruct (tracks_counts _ _ _ Htr) as [Hk Hex]. destruct (ensure_processed_tracking key ck p) as [He Hr].
  case_bool_decide as Hin.
  - exists c, p, []. rewrite app_nil_r. cbn [fst snd]. split; [|done]. rewrite Hrun. do 2 f_equal.
    unfold tracks in Htr. destruct (decide (arr_seen a = ∅)) as [E|]; [by rewrite E in Hin; apply not_elem_of_empty in Hin|].
    destruct Htr as (Hp & _). by rewrite (ensure_processed_same _ _ _ _ Hp).
  - rewrite Hrun. set (p1 := set_processed _ _).
    assert (mb_expected p1 !! key = mb_expected p !! key ∧ mb_received p1 !! key = mb_received p !! key ∧
      mb_processed p1 !! key = Some ({[idx]} ∪ arr_seen a)) as (E1 & E2 & E3).
    { cbn. rewrite He, Hr. split; [done|]. split; [done|]. apply lookup_insert_eq. }
    clearbody p1. rewrite <- E1, <- E2 in Hex. rewrite <- E2 in Hk.
    destruct (accept_spec i ck s step md r c p1 q (arr_seen a) (arr_queued a) Hx Hh E3 Hk Hex) as (c' & p' & items & Hrun' & Hh' & Hres).
    exists c', p', items. rewrite Hrun'. destruct (timing_of (ck, md, r)) as [[]|e]; cbn [fst snd].
    + destruct Hres as [Hitems Htr']. split; [done|]. split; [done|]. split; [|done].
      destruct (_ <=? _); [|done]. unfold tracks. cbn. by rewrite decide_True.
    + destruct Hres as [-> ->]. split; [done|]. split; [done|]. split; [|done]. by apply tracks_cons.
Qed.

(** The pushes one after the other, each with its own result; none stops the next. *)
Fixpoint push_each i (l : list a_push) (x : server (T := T)) : server (T := T) * list (res unit) :=
  match l with
  | [] => (x, [])
  | y :: l => let '(x1, r) := handle i y.1.1 y.1.2 y.2 x in let '(x2, rs) := push_each i l x1 in (x2, r :: rs)
  end.

(** The distinct numbers of a list in the order of their first occurrence. *)
Fixpoint first_arrivals seen (l : list Z) : list Z :=
  match l with
  | [] => []
  | x :: l => if bool_decide (x ∈ seen) then first_arrivals seen l else x :: first_arrivals ({[x]} ∪ seen) l
  end.

(** When every time is read and fewer than [n] numbers come before the last push, the numbers
    are queued once, in the order of their first arrival. *)
Lemma arrive_all_once a n l : arr_queued a = Z.of_nat (size (arr_seen a)) →
  (∀ l1 x l2, l = l1 ++ x :: l2 → Z.of_nat (size (list_to_set l1 ∪ arr_seen a : gset Z)) < n) →
  let '(a', rs, idxs) := arrive_all a ((λ idx, (idx, n, Ok tt)) <$> l) in
  Forall (λ r, r = Ok tt) rs ∧ idxs = first_arrivals (arr_seen a) l ∧
  (l ≠ [] → n ≤ Z.of_nat (size (list_to_set l ∪ arr_seen a : gset Z)) → a' = no_arrivals).
Proof.
  revert a. induction l as [|idx l IH]; intros a Hq Hpre; [done|]. cbn [fmap list_fmap arrive_all first_arrivals].
  pose proof (Hpre [] idx l eq_refl) as Hlt. cbn [list_to_set] in Hlt. rewrite union_empty_l_L in Hlt.
  replace (list_to_set (idx :: l) ∪ arr_seen a : gset Z) with (list_to_set l ∪ ({[idx]} ∪ arr_seen a) : gset Z) by set_solver.
  assert (∀ l1 x l2, l = l1 ++ x :: l2 → Z.of_nat (size (list_to_set l1 ∪ ({[idx]} ∪ arr_seen a) : gset Z)) < n) as Hpre'.
  { intros l1 x l2 E. specialize (Hpre (idx :: l1) x l2 ltac:(by rewrite E)).
    by replace (list_to_set (idx :: l1) ∪ arr_seen a : gset Z) with (list_to_set l1 ∪ ({[idx]} ∪ arr_seen a) : gset Z) in Hpre by set_solver. }
  unfold arrive. case_bool_decide as Hin.
  - replace ({[idx]} ∪ arr_seen a : gset Z) with (arr_seen a) in * by set_solver.
    specialize (IH a Hq Hpre'). cbn [fmap list_fmap] in IH. destruct (arrive_all a _) as [[a' rs] idxs]. destruct IH as (Hrs & -> & Hend).
    split; [by constructor|]. split; [done|]. intros _ Hn. apply Hend; [|done]. intros ->. cbn [list_to_set] in Hn.
    rewrite union_empty_l_L in Hn. lia.
  - assert (Hsz : size ({[idx]} ∪ arr_seen a) = S (size (arr_seen a))).
    { rewrite size_union by (by apply disjoint_singleton_l). by rewrite size_singleton. }
    destruct (Z.leb_spec n (arr_queued a + 1)) as [Hle|Hgt].
    + destruct l as [|y l]; [by repeat constructor|]. specialize (Hpre' [] y l eq_refl). cbn [list_to_set] in Hpre'.
      rewrite union_empty_l_L, Hsz in Hpre'. lia.
    + specialize (IH (mkArrivals ({[idx]} ∪ arr_seen a) (arr_queued a + 1))). cbn [arr_seen arr_queued] in IH.
      specialize (IH ltac:(rewrite Hsz; lia) Hpre'). destruct (arrive_all _ _) as [[a' rs] idxs]. destruct IH as (Hrs & -> & Hend).
      split; [by constructor|]. split; [done|]. intros _ Hn. apply Hend; [|done]. intros ->. cbn [list_to_set] in Hn.
      rewrite union_empty_l_L, Hsz in Hn. lia.
Qed.

End proofs.

(** ** Examples *)

Definition demo_clocks : clocks := mkClocks 3000 3000 0 0 3001 3002.
Definition demo_md (idx : Z) (extra : metadata) : metadata :=
  [("session_id", VStr "session"); ("step_id", VStr "step"); ("micro_batch_idx", VInt idx); ("total_micro_batches", VInt 2)] ++ extra.
Definition demo_push (idx : Z) : clocks * metadata * expert_request Z :=
  (demo_clocks, demo_md idx [], mkRequest "block.0" [] (Some (demo_md idx []))).
Definition demo_cluster : cluster (incoming Z) := (enter_session 0 "session" (new_cluster 1)).1.
Definition no_parse (s : string) : res float := Raise ValueError.

Lemma measured_push_lost_witness : ∃ p',
  handle_microbatch_push (λ _, None) (λ _ : Z, 0) no_parse 0 demo_clocks (demo_md 0 [("stage_push_timestamp_us", VInt 1000)])
    (mkRequest "block.0" [] None) (demo_cluster, push_init) = ((demo_cluster, p'), Raise TypeError) ∧
  handle_microbatch_push (λ _, None) (λ _ : Z, 0) no_parse 0 demo_clocks (demo_md 0 []) (mkRequest "block.0" [] None)
    (demo_cluster, p') = ((demo_cluster, p'), Ok tt).
Proof.
  destruct (measured_push_lost (λ _, None) (λ _ : Z, 0) no_parse 0 demo_clocks (demo_md 0 [("stage_push_timestamp_us", VInt 1000)])
    (mkRequest "block.0" [] None) "session" demo_cluster push_init) as (p' & Hp & Hretry);
    [reflexivity|vm_compute; discriminate|apply not_elem_of_empty|vm_compute; reflexivity|].
  exists p'. split; [exact Hp|]. apply Hretry; [reflexivity|reflexivity|vm_compute; discriminate|reflexivity].
Defined.

(** A push stamped by its sender, whose transport is measured. *)
Definition demo_measured (idx : Z) : clocks * metadata * expert_request Z :=
  let md := demo_md idx [("stage_push_timestamp_us", VInt 1000)] in (demo_clocks, md, mkRequest "block.0" [] (Some md)).

Lemma demo_step_push idx : step_push "session" (Some "step") (demo_push idx) ∧ step_push "session" (Some "step") (demo_measured idx).
Proof. by split. Qed.

