(* ===== verification/FlowControl.v ===== *)
(** * Concurrency of pushes (server/s2s_flow.py, [AdaptivePushConcurrency])

    A limiter in front of the pushes to the next server: at most [limit] are in flight,
    the others wait on a condition variable, and the limit follows the measured waits,
    send times and failures. The tasks that use it interleave in a step relation. *)

From stdpp Require Import numbers base relations.
From Stdlib Require Import ZArith Lia ZifyBool SpecFloat.
From S2P Require Import Prelude Floats.

(** ** The limiter *)

Record limiter_config := mkLimiterConfig {
  min_limit : Z;
  max_limit : Z;
  ewma_alpha : float;
  decision_interval : Z;
}.

Record limiter := mkLimiter {
  limit : Z;
  in_flight : Z;
  ewma_wait_ms : float;
  ewma_send_ms : float;
  release_events : Z;
  recent_failures : Z;
  consecutive_failures : Z;
}.

(** The arguments of [__init__] as it stores them; the interval is at least one. *)
Definition new_config (min_limit max_limit : Z) (ewma_alpha : float) (decision_interval : Z) : limiter_config :=
  mkLimiterConfig min_limit max_limit ewma_alpha (Z.max 1 decision_interval).

Definition new_limiter (cfg : limiter_config) (initial_limit : Z) : limiter :=
  mkLimiter (Z.max (min_limit cfg) (Z.min (max_limit cfg) initial_limit)) 0 (S754_zero false) (S754_zero false) 0 0 0.

Definition update_ewma (cfg : limiter_config) (prev sample : float) : float :=
  if fleb prev (S754_zero false) then sample
  else fadd (fmul prev (fsub float_one (ewma_alpha cfg))) (fmul sample (ewma_alpha cfg)).

(** The test of the loop of [acquire]. *)
Definition must_wait (l : limiter) : bool := limit l <=? in_flight l.

(** The slot is taken. *)
Definition take_slot (l : limiter) : limiter :=
  mkLimiter (limit l) (in_flight l + 1) (ewma_wait_ms l) (ewma_send_ms l) (release_events l) (recent_failures l) (consecutive_failures l).

(** The end of [acquire], after the lock: the wait is averaged in. *)
Definition record_wait (cfg : limiter_config) (wait_ms : float) (l : limiter) : limiter :=
  mkLimiter (limit l) (in_flight l) (update_ewma cfg (ewma_wait_ms l) wait_ms) (ewma_send_ms l) (release_events l)
    (recent_failures l) (consecutive_failures l).

Definition ms (n : Z) : float := float_of_Z n.

(** The decision on the limit: the new limit and whether the run of failures is reset. *)
Definition decide_limit (cfg : limiter_config) (l : limiter) : Z * bool :=
  if (2 <=? consecutive_failures l) || (3 <=? recent_failures l) then (Z.max (min_limit cfg) (limit l - 1), true)
  else if fltb (ms 8) (ewma_wait_ms l) && fltb (ewma_send_ms l) (ms 220) && (Z.max 1 (limit l - 1) <=? in_flight l)
  then (Z.min (max_limit cfg) (limit l + 1), false)
  else if fltb (ms 320) (ewma_send_ms l) && fltb (ewma_wait_ms l) (ms 2)
  then (Z.max (min_limit cfg) (limit l - 1), false)
  else (limit l, false).

(** [release], under the lock; it ends with [notify_all]. *)
Definition release (cfg : limiter_config) (send_time_ms : float) (success : bool) (l : limiter) : limiter :=
  let send := if fltb (S754_zero false) send_time_ms then send_time_ms else S754_zero false in
  let consecutive := if success then 0 else consecutive_failures l + 1 in
  let recent := if success then Z.max 0 (recent_failures l - 1) else Z.min 16 (recent_failures l + 1) in
  let l1 := mkLimiter (limit l) (Z.max 0 (in_flight l - 1)) (ewma_wait_ms l) (update_ewma cfg (ewma_send_ms l) send)
              (release_events l + 1) recent consecutive in
  if release_events l1 mod decision_interval cfg =? 0 then
    let (limit', reset) := decide_limit cfg l1 in
    mkLimiter limit' (in_flight l1) (ewma_wait_ms l1) (ewma_send_ms l1) (release_events l1) (recent_failures l1)
      (if reset then 0 else consecutive_failures l1)
  else l1.

(** ** Tasks *)

(** The limiter with the tasks that wait on its condition, those that were notified and
    test again, and those that hold a slot. *)
Record pushers := mkPushers { lim : limiter; waiting : nat; notified : nat; holding : nat }.

Section tasks.
Context (cfg : limiter_config).

Inductive pstep : pushers → pushers → Prop :=
| p_enter l w n h : must_wait l = false → pstep (mkPushers l w n h) (mkPushers (take_slot l) w n (S h))
| p_wait l w n h : must_wait l = true → pstep (mkPushers l w n h) (mkPushers l (S w) n h)
| p_wake_enter l w n h : must_wait l = false → pstep (mkPushers l w (S n) h) (mkPushers (take_slot l) w n (S h))
| p_wake_wait l w n h : must_wait l = true → pstep (mkPushers l w (S n) h) (mkPushers l (S w) n h)
| p_record l w n h wait : pstep (mkPushers l w n h) (mkPushers (record_wait cfg wait l) w n h)
| p_release l w n h send success :
    pstep (mkPushers l w n (S h)) (mkPushers (release cfg send success l) 0 (w + n) h).

Definition pinit (initial : Z) : pushers := mkPushers (new_limiter cfg initial) 0 0 0.
Definition preachable (initial : Z) (g : pushers) : Prop := rtc pstep (pinit initial) g.

(** ** Invariants *)

Record limiter_ok (g : pushers) : Prop := {
  lo_limit : min_limit cfg ≤ limit (lim g) ≤ max_limit cfg;
  lo_flight : in_flight (lim g) = Z.of_nat (holding g);
  lo_bound : in_flight (lim g) ≤ max_limit cfg;
  lo_wait : (0 < waiting g)%nat → limit (lim g) ≤ in_flight (lim g);
  lo_failures : 0 ≤ recent_failures (lim g) ≤ 16 ∧ 0 ≤ consecutive_failures (lim g)
}.

Lemma decide_limit_range l : min_limit cfg ≤ limit l ≤ max_limit cfg →
  min_limit cfg ≤ (decide_limit cfg l).1 ≤ max_limit cfg ∧ -1 ≤ (decide_limit cfg l).1 - limit l ≤ 1.
Proof. intros Hl. unfold decide_limit. repeat case_match; cbn; lia. Qed.

Lemma release_spec send success l : let l' := release cfg send success l in
  in_flight l' = Z.max 0 (in_flight l - 1) ∧
  (min_limit cfg ≤ limit l ≤ max_limit cfg → min_limit cfg ≤ limit l' ≤ max_limit cfg ∧ -1 ≤ limit l' - limit l ≤ 1) ∧
  recent_failures l' = (if success then Z.max 0 (recent_failures l - 1) else Z.min 16 (recent_failures l + 1)) ∧
  (0 ≤ consecutive_failures l → 0 ≤ consecutive_failures l') ∧
  ((release_events l + 1) mod decision_interval cfg ≠ 0 → limit l' = limit l).
Proof.
  cbv zeta. unfold release. cbn [release_events in_flight ewma_wait_ms ewma_send_ms recent_failures consecutive_failures].
  set (l1 := mkLimiter (limit l) _ _ _ _ _ _).
  destruct (Z.eqb_spec ((release_events l + 1) mod decision_interval cfg) 0) as [He|He].
  - pose proof (decide_limit_range l1) as Hd. destruct (decide_limit cfg l1) as [lm reset]. cbn in *.
    split; [done|]. split; [done|]. split; [done|]. split; [|done]. destruct reset, success; lia.
  - cbn. split; [done|]. split; [lia|]. split; [done|]. split; [|done]. destruct success; lia.
Qed.

Lemma limiter_ok_step g g' : limiter_ok g → pstep g g' → limiter_ok g'.
Proof.
  intros [H1 H2 H3 H4 H5] Hs.
  destruct Hs as [l w n h Hm|l w n h Hm|l w n h Hm|l w n h Hm|l w n h wait|l w n h send success]; unfold must_wait in *;
    cbn in *; try (split; cbn; lia).
  destruct (release_spec send success l) as (R1 & R2 & R3 & R4 & _). specialize (R2 H1). specialize (R4 (proj2 H5)).
  split; cbn; [lia|lia|lia|lia|]. destruct success; lia.
Qed.

Lemma preachable_ok initial g : min_limit cfg ≤ max_limit cfg → 0 ≤ max_limit cfg → preachable initial g → limiter_ok g.
Proof.
  intros Hmm Hm Hr. assert (limiter_ok (pinit initial)) as H0 by (split; cbn; lia).
  unfold preachable in Hr. remember (pinit initial) as g0 eqn:E. clear E.
  induction Hr as [|g1 g2 g3 Hst _ IH]; [done|]. apply IH. by eapply limiter_ok_step.
Qed.

(** C25: The limiter is safe and loses no wake-up. In every interleaving the limit stays
    between its bounds, the pushes in flight are exactly the tasks that hold a slot and
    never more than the maximum, and a task is left waiting only while the limit is
    reached: so as long as anybody waits, a notified task can test again or a slot is
    held whose release notifies all. *)
Theorem limiter_safe initial g : 0 < min_limit cfg ≤ max_limit cfg → preachable initial g →
  min_limit cfg ≤ limit (lim g) ≤ max_limit cfg ∧
  in_flight (lim g) = Z.of_nat (holding g) ∧ (Z.of_nat (holding g) ≤ max_limit cfg) ∧
  ((0 < waiting g)%nat → must_wait (lim g) = true ∧ (0 < holding g)%nat) ∧
  (∀ send success g', (0 < holding g)%nat →
     g' = mkPushers (release cfg send success (lim g)) 0 (waiting g + notified g) (pred (holding g)) →
     pstep g g' ∧ in_flight (lim g') = in_flight (lim g) - 1 ∧ -1 ≤ limit (lim g') - limit (lim g) ≤ 1).
Proof.
  intros Hmm Hr. destruct (preachable_ok initial g ltac:(lia) ltac:(lia) Hr) as [H1 H2 H3 H4 H5].
  destruct g as [l w n h]. cbn in *. split; [done|]. split; [done|]. split; [lia|]. split.
  - intros Hw. unfold must_wait. specialize (H4 Hw). split; [lia|lia].
  - intros send success g' Hh ->. destruct h as [|h]; [lia|]. cbn. split; [constructor|].
    destruct (release_spec send success l) as (R1 & R2 & _). specialize (R2 H1). lia.
Qed.
End tasks.

(** ** Examples *)

(** One slot: the second task waits and enters when the first releases. *)
Definition demo_config : limiter_config := new_config 1 2 (fdiv float_one (float_of_Z 5)) 1.

Lemma limiter_safe_witness : ∃ g, preachable demo_config 1 g ∧ notified g = 1%nat ∧ 1 ≤ limit (lim g) ≤ 2.
Proof.
  eexists (mkPushers _ 0 1 0). assert (preachable demo_config 1 (mkPushers (release demo_config (float_of_Z 10) true
    (take_slot (new_limiter demo_config 1))) 0 1 0)) as Hr.
  { eapply rtc_l; [by apply p_enter|]. eapply rtc_l; [by apply p_wait|].
    eapply rtc_l; [apply (p_release _ _ 1 0 0 (float_of_Z 10) true)|]. apply rtc_refl. }
  split; [exact Hr|]. split; [reflexivity|].
  apply (limiter_safe demo_config 1 _ ltac:(cbn; lia) Hr).
Defined.
