(* ===== verification/TaskPool.v ===== *)
(** * The task pool of a server (server/task_pool.py, server/task_prioritizer.py)

    Connection handlers submit tasks; a thread moves them into a priority queue; the
    runtime takes the most urgent one and later sends its result or exception back
    through the task's future. Handlers, thread and runtime interleave in a step relation; a
    submission, a move, a load and an answer are each one step of it.
    Moving tensors between devices and the transfer timings are left out. *)

From stdpp Require Import numbers base gmap sets list relations.
From Stdlib Require Import ZArith Lia ZifyBool SpecFloat.
From S2P Require Import Prelude Floats.

(** ** Tasks *)

(** A task's tensors are known by their shapes; its future by its uid. *)
Record task := mkTask {
  priority : float;
  time_submitted : float;
  uid : nat;
  args : list (list Z);
}.

(** [(a, b) < (c, d)] on pairs of floats; tasks compare by priority and time. *)
Definition pair_ltb (x y : float * float) : bool :=
  if SFeqb x.1 y.1 then fltb x.2 y.2 else fltb x.1 y.1.
Definition task_key (t : task) : float * float := (priority t, time_submitted t).

Definition get_task_size (t : task) : Z :=
  match args t with
  | (a :: b :: _) :: _ => a * b
  | _ => 1
  end.

(** [DummyTaskPrioritizer.prioritize] *)
Definition prioritize (is_inference : bool) : float := if is_inference then float_of_Z 1 else float_of_Z 2.

(** ** The pool *)

Inductive future := Pending | Result | Failed.

Record pool := mkPool {
  submitted : list (option task);      (* [None] tells the thread to stop *)
  ordered : list task;                 (* the priority queue, in no particular order *)
  dispatched : gmap nat task;
  unfinished : nat;                    (* the messages in the pipe *)
  pool_priority : float * float;
  futures : gmap nat future;
  running : bool;
}.

Definition pool_init : pool := mkPool [] [] ∅ 0 (S754_infinity false, S754_infinity false) ∅ true.

Section pool.
Context (max_batch_size : Z).
Implicit Types (p : pool) (t : task).

(** [submit_task] with the task it builds; the future is new. *)
Definition submit_task t p : pool :=
  if max_batch_size <? get_task_size t then
    mkPool (submitted p) (ordered p) (dispatched p) (unfinished p) (pool_priority p) (<[uid t := Failed]> (futures p)) (running p)
  else
    mkPool (submitted p ++ [Some t]) (ordered p) (dispatched p) (S (unfinished p))
      (if pair_ltb (task_key t) (pool_priority p) then task_key t else pool_priority p)
      (<[uid t := Pending]> (futures p)) (running p).

(** An iteration of [run]. *)
Definition run_once p : option pool :=
  if running p then
    match submitted p with
    | [] => None
    | None :: rest => Some (mkPool rest (ordered p) (dispatched p) (unfinished p) (pool_priority p) (futures p) false)
    | Some t :: rest => Some (mkPool rest (t :: ordered p) (dispatched p) (unfinished p) (pool_priority p) (futures p) true)
    end
  else None.

Definition shutdown p : pool :=
  mkPool (submitted p ++ [None]) (ordered p) (dispatched p) (unfinished p) (pool_priority p) (futures p) (running p).

(** [t] may come out of the priority queue [q] first: no task is before it. *)
Definition is_first t (q : list task) : Prop := ∀ t', t' ∈ q → pair_ltb (task_key t') (task_key t) = false.

(** [load_batch_to_runtime] once the priority queue gave [t] and [rest] remains, whose
    first is [first]; it waits for the message in the pipe. *)
Definition load_batch t (rest : list task) (first : option task) p : option pool :=
  match unfinished p with
  | O => None
  | S n => Some (mkPool (submitted p) rest (<[uid t := t]> (dispatched p)) n
                   (match first with Some f => task_key f | None => pool_priority p end) (futures p) (running p))
  end.

(** [future.set_result] and [set_exception]: a future that is done raises. *)
Definition set_future (u : nat) (f : future) : M pool unit := λ p,
  match futures p !! u with
  | Some Pending => (mkPool (submitted p) (ordered p) (dispatched p) (unfinished p) (pool_priority p) (<[u := f]> (futures p)) (running p), Ok tt)
  | _ => (p, Raise RuntimeError)
  end.

Definition pop_dispatched (u : nat) : M pool (option task) := λ p,
  (mkPool (submitted p) (ordered p) (delete u (dispatched p)) (unfinished p) (pool_priority p) (futures p) (running p),
   Ok (dispatched p !! u)).

Definition send_outputs_from_runtime (u : nat) : M pool unit :=
  o ← pop_dispatched u; match o with None => mret tt | Some t => set_future (uid t) Result end.
Definition send_exception_from_runtime (u : nat) : M pool unit :=
  o ← pop_dispatched u; match o with None => mret tt | Some t => set_future (uid t) Failed end.

(** [empty] *)
Definition pool_empty p : bool := bool_decide (unfinished p = 0%nat).

(** ** Interleavings *)

Inductive tstep : pool → pool → Prop :=
| t_submit p t : futures p !! uid t = None → tstep p (submit_task t p)
| t_run p p' : run_once p = Some p' → tstep p p'
| t_shutdown p : tstep p (shutdown p)
| t_load p t rest first p' : ordered p ≡ₚ t :: rest → is_first t rest →
    (match first with Some f => f ∈ rest ∧ is_first f rest | None => rest = [] end) →
    load_batch t rest first p = Some p' → tstep p p'
| t_outputs p u p' r : send_outputs_from_runtime u p = (p', r) → tstep p p'
| t_exception p u p' r : send_exception_from_runtime u p = (p', r) → tstep p p'.

Definition treachable p : Prop := rtc tstep pool_init p.

(** ** Conservation *)

(** The tasks on their way to the runtime. *)
Definition queued p : list nat := (uid <$> omap id (submitted p)) ++ (uid <$> ordered p).

Record conserved p : Prop := {
  cv_nodup : NoDup (queued p);
  cv_disjoint u : u ∈ queued p → dispatched p !! u = None;
  cv_uid u t : dispatched p !! u = Some t → uid t = u;
  cv_pending u : futures p !! u = Some Pending ↔ u ∈ queued p ∨ is_Some (dispatched p !! u);
  cv_pipe : unfinished p = length (queued p)
}.

Lemma queued_submit t p : omap id (submitted p ++ [Some t]) = omap id (submitted p) ++ [t].
Proof. by rewrite omap_app. Qed.

Lemma submit_conserved t p : conserved p → futures p !! uid t = None → conserved (submit_task t p).
Proof.
  intros [H1 H2 H3 H4 H5] Hf. unfold submit_task.
  assert (uid t ∉ queued p ∧ dispatched p !! uid t = None) as [Hnq Hnd].
  { split; [|apply eq_None_not_Some]; intros Hc; assert (futures p !! uid t = Some Pending) by (apply H4; auto); congruence. }
  destruct (max_batch_size <? get_task_size t).
  - split; cbn; try done. intros u. destruct (decide (u = uid t)) as [->|Hne].
    + rewrite lookup_insert_eq, Hnd. split; [done|]. intros [Hc|[? ?]]; done.
    + rewrite lookup_insert_ne by done. apply H4.
  - set (p' := mkPool _ _ _ _ _ _ _).
    assert (Hq : queued p' ≡ₚ uid t :: queued p).
    { unfold queued, p'. cbn [submitted ordered]. rewrite queued_submit, fmap_app. cbn. rewrite <- app_assoc. cbn.
      by rewrite <- Permutation_middle. }
    split; unfold p'; cbn [dispatched futures unfinished]; fold p'.
    + rewrite Hq. by apply NoDup_cons.
    + intros u. rewrite Hq, elem_of_cons. intros [->|Hu]; [done|by apply H2].
    + done.
    + intros u. rewrite Hq, elem_of_cons. destruct (decide (u = uid t)) as [->|Hne].
      * rewrite lookup_insert_eq. tauto.
      * rewrite lookup_insert_ne, H4 by done. tauto.
    + rewrite Hq. cbn. by rewrite H5.
Qed.

Lemma run_conserved p p' : conserved p → run_once p = Some p' → conserved p'.
Proof.
  intros [H1 H2 H3 H4 H5]. unfold run_once. destruct (running p); [|done].
  destruct (submitted p) as [|[t|] rest] eqn:Hs; [done| |]; intros [= <-].
  - set (p' := mkPool _ _ _ _ _ _ _). assert (Hq : queued p' ≡ₚ queued p).
    { unfold queued, p'. cbn [submitted ordered]. rewrite Hs. cbn. by rewrite <- Permutation_middle. }
    split; unfold p'; cbn [dispatched futures unfinished]; fold p'; try done.
    + by rewrite Hq.
    + intros u. rewrite Hq. apply H2.
    + intros u. by rewrite Hq, H4.
    + by rewrite Hq.
  - unfold queued in *. rewrite Hs in *. by split.
Qed.

Lemma load_conserved t rest first p p' : conserved p → ordered p ≡ₚ t :: rest → load_batch t rest first p = Some p' → conserved p'.
Proof.
  intros [H1 H2 H3 H4 H5] Hord. unfold load_batch. destruct (unfinished p) as [|n] eqn:Hn; [done|]. intros [= <-].
  set (p' := mkPool _ _ _ _ _ _ _). assert (Hq : queued p ≡ₚ uid t :: queued p').
  { unfold queued, p'. cbn [submitted ordered]. rewrite Hord. cbn. by rewrite <- Permutation_middle. }
  rewrite Hq in H1. apply NoDup_cons in H1 as [Hnin Hnd].
  assert (dispatched p !! uid t = None) as Hdt by (apply H2; rewrite Hq; by left).
  split; unfold p'; cbn [dispatched futures unfinished]; fold p'.
  - done.
  - intros u Hu. rewrite lookup_insert_ne by (intros <-; done). apply H2. rewrite Hq. by right.
  - intros u t'. destruct (decide (u = uid t)) as [->|Hne]; [rewrite lookup_insert_eq; by intros [= <-]|].
    rewrite lookup_insert_ne by done. apply H3.
  - intros u. rewrite H4, Hq, elem_of_cons. destruct (decide (u = uid t)) as [->|Hne].
    + rewrite lookup_insert_eq. split; [right; eauto|by left; left].
    + rewrite lookup_insert_ne by done. tauto.
  - rewrite Hq, length_cons in H5. by injection H5.
Qed.

(** Sending a result or an exception: the future is pending, or the task is unknown. *)
Lemma send_conserved u f p : f ≠ Pending → conserved p →
  let m := (o ← pop_dispatched u; match o with None => mret tt | Some t => set_future (uid t) f end) in
  ∃ p', m p = (p', Ok tt) ∧ conserved p' ∧
    futures p' = (if decide (is_Some (dispatched p !! u)) then <[u := f]> (futures p) else futures p).
Proof.
  intros Hf [H1 H2 H3 H4 H5] m. unfold m, mbind, M_bind, pop_dispatched.
  destruct (dispatched p !! u) as [t|] eqn:Hd.
  - pose proof (H3 u t Hd) as Hu. unfold set_future. rewrite Hu. cbn [futures].
    rewrite (proj2 (H4 u)) by (right; eauto). eexists. split; [done|]. cbn. split; [|by rewrite decide_True by eauto].
    assert (Hnq : u ∉ queued p) by (intros Hc; by rewrite (H2 u Hc) in Hd).
    split; cbn [dispatched futures unfinished]; [exact H1| | | |exact H5].
    + intros u' Hu'. destruct (decide (u' = u)) as [->|Hne]; [apply lookup_delete_eq|]. rewrite lookup_delete_ne by done. by apply H2.
    + intros u' t' Hl. destruct (decide (u' = u)) as [->|Hne]; [by rewrite lookup_delete_eq in Hl|].
      rewrite lookup_delete_ne in Hl by done. by apply H3.
    + intros u'. destruct (decide (u' = u)) as [->|Hne].
      * rewrite lookup_insert_eq, lookup_delete_eq. split; [congruence|]. intros [Hc|[? ?]]; done.
      * rewrite lookup_insert_ne, lookup_delete_ne by done. apply H4.
  - eexists. split; [done|]. split; [|by rewrite decide_False by (intros [? ?]; done)].
    cbn. rewrite delete_id by done. by split.
Qed.

Lemma conserved_step p p' : conserved p → tstep p p' → conserved p'.
Proof.
  intros Hc Hs. destruct Hs as [p t Hf|p p' Hr|p|p t rest first p' Ho _ _ Hl|p u p' r Hr|p u p' r Hr].
  - by apply submit_conserved.
  - by eapply run_conserved.
  - destruct Hc as [H1 H2 H3 H4 H5]. unfold shutdown.
    assert (queued (shutdown p) = queued p) as Hq by (unfold queued, shutdown; cbn; rewrite omap_app; cbn; by rewrite app_nil_r).
    unfold shutdown in Hq. split; rewrite ?Hq; done.
  - by eapply load_conserved.
  - destruct (send_conserved u Result p) as (p1 & E & Hc1 & _); [done|done|]. unfold send_outputs_from_runtime in Hr. congruence.
  - destruct (send_conserved u Failed p) as (p1 & E & Hc1 & _); [done|done|]. unfold send_exception_from_runtime in Hr. congruence.
Qed.

Lemma conserved_init : conserved pool_init.
Proof.
  split; cbn; [constructor| | | |done].
  - intros u _. apply lookup_empty.
  - intros u t. by rewrite lookup_empty.
  - intros u. rewrite !lookup_empty. split; [done|]. intros [?%not_elem_of_nil|[? ?]]; done.
Qed.

Lemma conserved_reachable p : treachable p → conserved p.
Proof.
  intros Hr. unfold treachable in Hr. remember pool_init as p0 eqn:E. assert (conserved p0) as H0 by (subst; apply conserved_init).
  clear E. induction Hr as [|p1 p2 p3 Hst _ IH]; [done|]. apply IH. by eapply conserved_step.
Qed.

(** A future that is done stays as it is. *)
Lemma resolved_stays p p' u f : conserved p → tstep p p' → f ≠ Pending → futures p !! u = Some f → futures p' !! u = Some f.
Proof.
  intros Hc Hs Hf Hu.
  assert (Hsend : ∀ u' g p1 (r : res unit), g ≠ Pending →
    (o ← pop_dispatched u'; match o with None => mret tt | Some t => set_future (uid t) g end) p = (p1, r) → futures p1 !! u = Some f).
  { intros u' g p1 r Hg E. destruct (send_conserved u' g p Hg Hc) as (p2 & E2 & _ & Hfut). rewrite E2 in E. injection E as <- _.
    rewrite Hfut. destruct (decide (is_Some (dispatched p !! u'))) as [Hd|]; [|done].
    destruct (decide (u = u')) as [->|]; [|by rewrite lookup_insert_ne].
    assert (futures p !! u' = Some Pending) by (apply (cv_pending p Hc); by right). congruence. }
  destruct Hs as [p t Hn|p p' Hr|p|p t rest first p' Ho _ _ Hl|p u' p' r Hr|p u' p' r Hr].
  - assert (uid t ≠ u) by congruence. unfold submit_task. destruct (_ <? _); cbn; by rewrite lookup_insert_ne.
  - unfold run_once in Hr. destruct (running p); [|done]. by destruct (submitted p) as [|[]]; simplify_eq/=.
  - done.
  - unfold load_batch in Hl. destruct (unfinished p); by simplify_eq/=.
  - by eapply (Hsend _ Result).
  - by eapply (Hsend _ Failed).
Qed.

(** C26: The pool keeps every task until it is answered, once. In every interleaving of
    handlers, thread and runtime the futures still open are those of the tasks that wait
    or were dispatched, each in one place; the pipe counts the waiting ones; sending a
    result or an exception never meets a future that is done; and a future that is done
    is never written again. *)
Theorem pool_conserves p : treachable p →
  (∀ u, futures p !! u = Some Pending ↔ u ∈ queued p ∨ is_Some (dispatched p !! u)) ∧
  NoDup (queued p) ∧ (∀ u, u ∈ queued p → dispatched p !! u = None) ∧
  (pool_empty p = true ↔ queued p = []) ∧
  (∀ u, (send_outputs_from_runtime u p).2 = Ok tt ∧ (send_exception_from_runtime u p).2 = Ok tt) ∧
  (∀ p' u f, tstep p p' → f ≠ Pending → futures p !! u = Some f → futures p' !! u = Some f).
Proof.
  intros Hr. pose proof (conserved_reachable p Hr) as Hc. pose proof Hc as [H1 H2 H3 H4 H5].
  split; [done|]. split; [done|]. split; [done|]. split; [|split].
  - unfold pool_empty. rewrite bool_decide_eq_true, H5. apply length_zero_iff_nil.
  - intros u. split.
    + destruct (send_conserved u Result p) as (p1 & E & _); [done|done|]. unfold send_outputs_from_runtime. by rewrite E.
    + destruct (send_conserved u Failed p) as (p1 & E & _); [done|done|]. unfold send_exception_from_runtime. by rewrite E.
  - intros p' u f. by apply resolved_stays.
Qed.

(** The priority of a pool need not be that of any task in it. When the last task
    leaves, its priority stays behind; a pool that then holds nothing but a forward task
    still claims the urgency, and the age, of the inference task that is long answered. *)
Lemma stale_priority : 1 ≤ max_batch_size →
  ∃ p t, treachable p ∧ submitted p = [] ∧ ordered p = [t] ∧ task_key t = (prioritize false, float_of_Z 20) ∧
    pool_priority p = (prioritize true, float_of_Z 10) ∧ pair_ltb (pool_priority p) (task_key t) = true.
Proof.
  intros Hmax. set (t1 := mkTask (prioritize true) (float_of_Z 10) 0 []). set (t2 := mkTask (prioritize false) (float_of_Z 20) 1 []).
  assert (Hs : ∀ t p, args t = [] → submit_task t p = mkPool (submitted p ++ [Some t]) (ordered p) (dispatched p) (S (unfinished p))
    (if pair_ltb (task_key t) (pool_priority p) then task_key t else pool_priority p) (<[uid t := Pending]> (futures p)) (running p)).
  { intros t p Ha. unfold submit_task, get_task_size. rewrite Ha. by rewrite (proj2 (Z.ltb_ge _ _)). }
  do 2 eexists. split.
  - unfold treachable.
    eapply rtc_l; [apply (t_submit pool_init t1); done|]. rewrite Hs by done.
    eapply rtc_l; [eapply t_run; reflexivity|].
    eapply rtc_l; [eapply (t_load _ t1 [] None); [reflexivity|by intros ? ?%not_elem_of_nil|done|reflexivity]|].
    eapply rtc_l; [eapply (t_outputs _ 0%nat); vm_compute; reflexivity|].
    eapply rtc_l; [apply (t_submit _ t2); vm_compute; reflexivity|]. rewrite Hs by done.
    eapply rtc_l; [eapply t_run; reflexivity|]. apply rtc_refl.
  - split_and!; vm_compute; reflexivity.
Qed.
End pool.

(** ** Examples *)

Lemma stale_priority_witness : ∃ p, treachable 512 p ∧ pool_priority p = (prioritize true, float_of_Z 10).
Proof. destruct (stale_priority 512 ltac:(lia)) as (p & t & Hr & _ & _ & _ & Hp & _). exists p. split; [exact Hr|exact Hp]. Defined.

Lemma pool_conserves_witness : ∃ p, treachable 512 p ∧ queued p = [3%nat] ∧ futures p !! 3%nat = Some Pending.
Proof.
  set (t := mkTask (prioritize true) (float_of_Z 10) 3 [[2; 5; 8]]).
  exists (submit_task 512 t pool_init). assert (Hr : treachable 512 (submit_task 512 t pool_init)) by (eapply rtc_l; [by apply t_submit|apply rtc_refl]).
  split; [exact Hr|]. split; [reflexivity|]. destruct (pool_conserves 512 _ Hr) as [Hf _].
  apply Hf. left. by apply list_elem_of_singleton.
Defined.
