(* ===== verification/Autograd.v ===== *)
(** * Forward and backward passes over the swarm

    The server's part (server/block_functions.py: run_rpc_forward, run_rpc_backward), which
    runs a chain of blocks with deep prompts, and the client's part
    (client/sequential_autograd.py), which runs a chain of servers, replaces those that
    fail and splits a batch. A tensor of hidden states is abstract on the server; for the
    client's batches it is a list of rows. Conversions of devices and types, timing,
    logs and the task pools are left out. *)

From stdpp Require Import numbers base sets list.
From Stdlib Require Import ZArith Lia ZifyBool.
From S2P Require Import Prelude SwarmInfo Routing InferenceSession.

(** ** What torch and the blocks do *)

(** Operations on hidden states [T], the prompt [Pr] of a block and its gradient [GP]:
    [hidden_states[:, : prompt.shape[1]] += prompt] and
    [grad_outputs[:, : prompt.shape[1]].unsqueeze(0)]. *)
Class HiddenOps (T Pr GP : Type) := {
  shape : T → list Z;
  add_prompt : Pr → T → T;
  prompt_grad : Pr → T → GP;
}.

(** The forward and backward pools of the backend of a block. *)
Class Backends (W T : Type) := {
  be_forward : Z → T → M W T;
  be_backward : Z → T → T → M W T;
}.

Section server.
Context {W T Pr GP : Type} `{HiddenOps T Pr GP} `{Backends W T}.
Implicit Types (x g : T) (p : option Pr) (l : list (Z * option Pr)).

Definition with_prompt p x : T := match p with Some p => add_prompt p x | None => x end.

(** One prompt per backend; [None] is the dummy. *)
Definition split_prompts (n : nat) (prompts : option (list Pr)) : list (option Pr) :=
  match prompts with None => replicate n None | Some ps => Some <$> ps end.

(** The loop of [run_rpc_forward]. *)
Fixpoint forward_chain l (hidden_states : T) : M W T :=
  match l with
  | [] => mret hidden_states
  | (b, p) :: l' =>
      y ← be_forward b (with_prompt p hidden_states);
      guard_py (zlen (shape y) =? 3) AssertionError;;
      forward_chain l' y
  end.

Definition run_rpc_forward (requested_backends : list Z) (hidden_states : T) (prompts : option (list Pr)) : M W T :=
  guard_py (negb (bool_decide (requested_backends = []))) IndexError;;
  guard_py (zlen (shape hidden_states) =? 3) AssertionError;;
  forward_chain (zip requested_backends (split_prompts (length requested_backends) prompts)) hidden_states.

(** The forward chain of [run_rpc_backward], over all blocks but the last. *)
Fixpoint forward_inputs l (inputs : T) (inter_inputs : list T) : M W (T * list T) :=
  match l with
  | [] => mret (inputs, inter_inputs)
  | (b, p) :: l' =>
      guard_py (zlen (shape inputs) =? 3) AssertionError;;
      let x := with_prompt p inputs in
      y ← be_forward b x;
      forward_inputs l' y (inter_inputs ++ [x])
  end.

(** Its loop over the blocks in reverse. *)
Fixpoint backward_chain (l : list (T * option Pr * Z)) (grad_outputs : T) (grad_prompts_reversed : list GP) : M W (T * list GP) :=
  match l with
  | [] => mret (grad_outputs, grad_prompts_reversed)
  | (x, p, b) :: l' =>
      g ← be_backward b x grad_outputs;
      backward_chain l' g (grad_prompts_reversed ++ match p with Some p => [prompt_grad p g] | None => [] end)
  end.

(** The gradients of the inputs and, unless they are dummy, of the prompts, one per block. *)
Definition run_rpc_backward (requested_backends : list Z) (inputs grad_outputs : T) (prompts : option (list Pr)) :
    M W (T * list (list GP)) :=
  guard_py (negb (bool_decide (requested_backends = []))) IndexError;;
  let ps := split_prompts (length requested_backends) prompts in
  '(inputs, inter_inputs) ← forward_inputs (zip (removelast requested_backends) (removelast ps)) inputs [];
  last_prompt ← lift (of_option IndexError (py_index ps (-1)));
  let inter_inputs := inter_inputs ++ [with_prompt last_prompt inputs] in
  guard_py ((zlen inter_inputs =? zlen ps) && (zlen ps =? zlen requested_backends)) AssertionError;;
  '(g, grad_prompts_reversed) ←
    backward_chain (zip (zip (reverse inter_inputs) (reverse ps)) (reverse requested_backends)) grad_outputs [];
  mret (g, match grad_prompts_reversed with [] => [] | _ => [reverse grad_prompts_reversed] end).
End server.

(** ** The client *)

(** Servers and the sequence manager, as in the inference session: a forward or backward
    call to the server of a span carries the prompts of the blocks of the span. *)
Class Remote (W P T Pr GP : Type) := {
  rm_make_sequence : Z → Z → M W (list (RemoteSpanInfo P));
  rm_forward : RemoteSpanInfo P → T → option (list Pr) → M W T;
  rm_backward : RemoteSpanInfo P → T → T → option (list Pr) → M W (T * list (list GP));
  rm_on_failure : option P → W → W;
  rm_on_success : P → W → W;
}.

(** Such calls when the transport between client and servers is taken away: the server of
    a span runs the backends of its blocks; routes are made by the sequence manager. *)
Class Routes (W P : Type) := {
  rt_make_sequence : Z → Z → M W (list (RemoteSpanInfo P));
  rt_on_failure : option P → W → W;
  rt_on_success : P → W → W;
}.

#[export] Instance servers_remote {W P T Pr GP} `{HiddenOps T Pr GP} `{Backends W T} `{Routes W P} : Remote W P T Pr GP := {
  rm_make_sequence := rt_make_sequence;
  rm_forward sp x ps := run_rpc_forward (seqZ (start sp) (end_ sp - start sp)) x ps;
  rm_backward sp x g ps := run_rpc_backward (seqZ (start sp) (end_ sp - start sp)) x g ps;
  rm_on_failure := rt_on_failure;
  rm_on_success := rt_on_success;
}.

Section client.
Context {W P T Pr GP : Type} `{HiddenOps T Pr GP} `{Remote W P T Pr GP}.
Context (num_blocks : Z) (max_retries : option Z).
Implicit Types (x g : T) (spans : list (RemoteSpanInfo P)) (prompts : option (list Pr)).

(** [prompts[a:b]] *)
Definition slice_prompts prompts (a b : Z) : option (list Pr) := (λ ps, py_slice ps a b) <$> prompts.

(** The handler of a failed attempt: what is done before the next one, or the error again. *)
Definition retry {A} (attempt_no : nat) (failed : option P) (e : exn) (again : M W A) : M W A := λ w,
  let w' := rm_on_failure failed w in
  if bool_decide (max_retries = Some (Z.of_nat attempt_no + 1)) then (w', Raise e) else again w'.

(** The span of the next server; in the first attempt a route that is left is followed. *)
Definition next_span (attempt_no : nat) spans (block_idx end_index : Z) : M W (RemoteSpanInfo P * list (RemoteSpanInfo P)) :=
  spans ← (if bool_decide (spans = []) || (1 <=? Z.of_nat attempt_no)
           then route ← rm_make_sequence block_idx end_index; lift (cap_last end_index route)
           else mret spans);
  match spans with [] => mthrow IndexError | span :: spans' => mret (span, spans') end.

Definition forward_span (span : RemoteSpanInfo P) x prompts : M W T :=
  outputs ← rm_forward span x (slice_prompts prompts (start span) (end_ span));
  guard_py (bool_decide (shape outputs = shape x)) AssertionError;;
  modify (rm_on_success (peer_id span));;
  mret outputs.

(** The attempts at one server; the delays between them do not change the state. *)
Fixpoint forward_attempts (fuel attempt_no : nat) spans (block_idx end_index : Z) x prompts :
    M W (T * RemoteSpanInfo P * list (RemoteSpanInfo P)) :=
  match fuel with
  | O => mthrow OutOfFuel
  | S fuel' => λ w,
      match next_span attempt_no spans block_idx end_index w with
      | (w1, Raise e) => retry attempt_no None e (forward_attempts fuel' (S attempt_no) spans block_idx end_index x prompts) w1
      | (w1, Ok (span, spans')) =>
          match forward_span span x prompts w1 with
          | (w2, Ok y) => (w2, Ok (y, span, spans'))
          | (w2, Raise e) =>
              retry attempt_no (Some (peer_id span)) e (forward_attempts fuel' (S attempt_no) spans' block_idx end_index x prompts) w2
          end
      end
  end.

(** [while block_idx < end_index]: the outputs, the inputs of each server and its span. *)
Fixpoint forward_loop (fuel retries : nat) spans (block_idx end_index : Z) x prompts (inters : list T) done :
    M W (T * list T * list (RemoteSpanInfo P)) :=
  if block_idx <? end_index then
    match fuel with
    | O => mthrow OutOfFuel
    | S fuel' =>
        '(y, span, spans') ← forward_attempts retries 0 spans block_idx end_index x prompts;
        forward_loop fuel' retries spans' (end_ span) end_index y prompts (inters ++ [x]) (done ++ [span])
    end
  else mret (x, inters, done).

Definition sequential_forward (retries : nat) x prompts (start_index : Z) (end_index : option Z) :
    M W (T * list T * list (RemoteSpanInfo P)) :=
  guard_py (zlen (shape x) =? 3) AssertionError;;
  let e := default num_blocks end_index in
  guard_py ((0 <=? start_index) && (e <=? num_blocks)) AssertionError;;
  guard_py (match prompts with None => true | Some ps => zlen ps =? num_blocks end) AssertionError;;
  forward_loop (Z.to_nat (e - start_index)) retries [] start_index e x prompts [] [].

(** The two lists that [sequential_backward] pops and extends. *)
Definition backup (retries : nat) x prompts (span : RemoteSpanInfo P) : M W (list T * list (RemoteSpanInfo P)) :=
  '(_, backup_inputs, backup_sequences) ← sequential_forward retries x prompts (start span) (Some (end_ span));
  guard_py (zlen backup_inputs =? zlen backup_sequences) AssertionError;;
  first ← lift (of_option IndexError (head backup_sequences));
  guard_py (start first =? start span) AssertionError;;
  final ← lift (of_option IndexError (last backup_sequences));
  guard_py (end_ final =? end_ span) AssertionError;;
  mret (backup_inputs, backup_sequences).

(** The span of an attempt and its inputs: after a failure the last of a new route. *)
Definition current_span (retries attempt_no : nat) x (span : RemoteSpanInfo P) prompts (inters : list T) spans :
    M W (T * RemoteSpanInfo P * list T * list (RemoteSpanInfo P)) :=
  if 1 <=? Z.of_nat attempt_no then
    '(backup_inputs, backup_sequences) ← backup retries x prompts span;
    '(x', inters') ← lift (of_option IndexError (py_pop (inters ++ backup_inputs)));
    '(span', spans') ← lift (of_option IndexError (py_pop (spans ++ backup_sequences)));
    mret (x', span', inters', spans')
  else mret (x, span, inters, spans).

(** The attempts at the last span; they return the lists that remain. *)
Fixpoint backward_attempts (fuel retries attempt_no : nat) x (span : RemoteSpanInfo P) g prompts (inters : list T) spans :
    M W (T * list (list GP) * list T * list (RemoteSpanInfo P)) :=
  match fuel with
  | O => mthrow OutOfFuel
  | S fuel' => λ w,
      match current_span retries attempt_no x span prompts inters spans w with
      | (w1, Raise e) => retry attempt_no (Some (peer_id span)) e
          (backward_attempts fuel' retries (S attempt_no) x span g prompts inters spans) w1
      | (w1, Ok (x', span', inters', spans')) =>
          match rm_backward span' x' g (slice_prompts prompts (start span') (end_ span')) w1 with
          | (w2, Ok (g', gps)) => (rm_on_success (peer_id span') w2, Ok (g', gps, inters', spans'))
          | (w2, Raise e) => retry attempt_no (Some (peer_id span')) e
              (backward_attempts fuel' retries (S attempt_no) x' span' g prompts inters' spans') w2
          end
      end
  end.

(** [while len(forward_sequences) > 0 and len(intermediate_inputs) > 0] *)
Fixpoint backward_loop (fuel retries : nat) g prompts (inters : list T) spans (grad_prompts_reversed : list (list GP)) :
    M W (T * list (list GP) * list (RemoteSpanInfo P)) :=
  match py_pop inters, py_pop spans with
  | Some (x, inters'), Some (span, spans') =>
      match fuel with
      | O => mthrow OutOfFuel
      | S fuel' =>
          '(g', gps, inters', spans') ← backward_attempts retries retries 0 x span g prompts inters' spans';
          backward_loop fuel' retries g' prompts inters' spans' (grad_prompts_reversed ++ gps)
      end
  | _, _ => mret (g, grad_prompts_reversed, spans)
  end.

(** The gradients, and what is left of [forward_sequences], which the caller owns. *)
Definition sequential_backward (fuel retries : nat) g (inters : list T) prompts spans :
    M W (T * option (list GP) * list (RemoteSpanInfo P)) :=
  guard_py (zlen inters =? zlen spans) AssertionError;;
  '(g', grads, spans') ← backward_loop fuel retries g prompts inters spans [];
  mret (g', match grads with [] => None | _ => Some (concat (reverse grads)) end, spans').
End client.

(** ** Batches: [_RemoteSequentialAutogradFunction] *)

Definition MAX_TOKENS_IN_BATCH : Z := 1024.

(** [tensor.split(n)]: rows [k * n] to [(k + 1) * n] for each [k]; one piece of an empty tensor. *)
Definition piece {A} (n k : nat) (l : list A) : list A := take n (drop (k * n) l).
Definition num_pieces (n len : nat) : nat := Nat.max 1 ((len + n - 1) / n).
Definition split_rows {A} (n : nat) (l : list A) : list (list A) :=
  (λ k, piece n k l) <$> seq 0 (num_pieces n (length l)).
(** [prompts.split(n, dim=1)], for the rows of each block. *)
Definition split_layers {A} (n : nat) (ps : list (list A)) : list (list (list A)) :=
  (λ k, piece n k <$> ps) <$> seq 0 (num_pieces n (match ps with [] => O | p :: _ => length p end)).
(** [torch.cat(tensors, dim=1)] *)
Definition cat_layers {A} (ls : list (list (list A))) : list (list A) :=
  match ls with [] => [] | l :: ls => fold_left (zip_with app) ls l end.

Record pass_ctx (P T Pr : Type) := mkCtx {
  prompt_batches : list (option (list Pr));
  intermediate_inputs : list (list T);
  sequences : list (list (RemoteSpanInfo P));
}.
Arguments mkCtx {P T Pr} _ _ _.
Arguments prompt_batches {P T Pr} _.
Arguments intermediate_inputs {P T Pr} _.
Arguments sequences {P T Pr} _.

Section batches.
Context {W P R Q G : Type} `{HiddenOps (list R) (list Q) (list G)} `{Remote W P (list R) (list Q) (list G)}.
Context (num_blocks : Z) (max_retries : option Z) (retries : nat).

(** [max(MAX_TOKENS_IN_BATCH // inputs.shape[1], 1)] *)
Definition batch_size (x : list R) : res nat :=
  n ← of_option IndexError (py_index (shape x) 1);
  if n =? 0 then Raise ZeroDivisionError else Ok (Z.to_nat (Z.max (MAX_TOKENS_IN_BATCH / n) 1)).

(** The batches run one after the other here; the code gathers them as tasks of one loop. *)
Definition autograd_forward (inputs : list R) (prompts : option (list (list Q))) : M W (list R * pass_ctx P (list R) (list Q)) :=
  n ← lift (batch_size inputs);
  let input_batches := split_rows n inputs in
  let prompt_batches := match prompts with
                        | None => replicate (length input_batches) None
                        | Some ps => Some <$> split_layers n ps
                        end in
  outputs ← mapM (λ b : list R * option (list (list Q)), sequential_forward num_blocks max_retries retries b.1 b.2 0 None)
    (zip input_batches prompt_batches);
  guard_py (zlen outputs =? zlen input_batches) AssertionError;;
  mret (concat (outputs.*1.*1), mkCtx prompt_batches outputs.*1.*2 outputs.*2).

(** The gradients of the inputs and of the prompts, and what is left of the context. *)
Definition autograd_backward (ctx : pass_ctx P (list R) (list Q)) (grad_outputs : list R) :
    M W (list R * option (list (list G)) * pass_ctx P (list R) (list Q)) :=
  n ← lift (batch_size grad_outputs);
  let grad_output_batches := split_rows n grad_outputs in
  guard_py ((zlen (intermediate_inputs ctx) =? zlen grad_output_batches) &&
            (zlen grad_output_batches =? zlen (sequences ctx))) AssertionError;;
  outputs ← mapM (λ b : list R * list (list R) * option (list (list Q)) * list (RemoteSpanInfo P),
      let '(g, inters, ps, spans) := b in
      sequential_backward num_blocks max_retries (Z.to_nat num_blocks) retries g inters ps spans)
    (zip (zip (zip grad_output_batches (intermediate_inputs ctx)) (prompt_batches ctx)) (sequences ctx));
  let grad_prompt_batches := outputs.*1.*2 in
  mret (concat (outputs.*1.*1),
        (if existsb (λ p, match p with None => true | Some _ => false end) grad_prompt_batches then None
         else Some (cat_layers (omap id grad_prompt_batches))),
        mkCtx (prompt_batches ctx) (intermediate_inputs ctx) outputs.*2).
End batches.
