(* ===== verification/ChainRule.v ===== *)
(** * Gradients through a failing swarm

    The reference is the chain rule over blocks as pure functions; the server's chains and
    the client's passes are proved against it, the client over servers that run this
    repository's chains. The last section has blocks that square their rows and servers
    that fail by script. *)

From stdpp Require Import numbers base sets list.
From Stdlib Require Import ZArith Lia ZifyBool.
From S2P Require Import Prelude SwarmInfo Routing InferenceSession SessionRecovery Autograd.

(** ** The reference: the blocks as functions, and the chain rule *)

Class BlockModel (W T : Type) := {
  fwd : Z → T → T;
  bwd : Z → T → T → T;
  pass_failures : W → nat;
}.

Section reference.
Context {W T Pr GP : Type} `{HiddenOps T Pr GP} `{BlockModel W T}.
Implicit Types (x g : T) (l : list (Z * option Pr)).

Fixpoint chain_fwd l x : T :=
  match l with [] => x | (b, p) :: l' => chain_fwd l' (fwd b (with_prompt p x)) end.

(** The gradients of the inputs of a chain and of its prompts. *)
Fixpoint chain_bwd l x g : T * list GP :=
  match l with
  | [] => (g, [])
  | (b, p) :: l' =>
      let x' := with_prompt p x in
      let '(g1, gps) := chain_bwd l' (fwd b x') g in
      let g2 := bwd b x' g1 in
      (g2, match p with Some p => prompt_grad p g2 :: gps | None => gps end)
  end.

(** The inputs of the blocks of a chain, prompts added. *)
Fixpoint chain_inputs l x : list T :=
  match l with [] => [] | (b, p) :: l' => with_prompt p x :: chain_inputs l' (fwd b (with_prompt p x)) end.

Lemma chain_fwd_app l1 l2 x : chain_fwd (l1 ++ l2) x = chain_fwd l2 (chain_fwd l1 x).
Proof. revert x. induction l1 as [|[b p] l1 IH]; intros x; [done|apply IH]. Qed.

Lemma chain_bwd_app l1 l2 x g :
  chain_bwd (l1 ++ l2) x g =
    let '(g2, gps2) := chain_bwd l2 (chain_fwd l1 x) g in
    let '(g1, gps1) := chain_bwd l1 x g2 in (g1, gps1 ++ gps2).
Proof.
  revert x. induction l1 as [|[b p] l1 IH]; intros x; cbn; [by destruct (chain_bwd l2 x g)|].
  rewrite IH. destruct (chain_bwd l2 _ g) as [g2 gps2]. destruct (chain_bwd l1 _ g2) as [g1 gps1]. by destruct p.
Qed.

Lemma chain_inputs_app l1 l2 x : chain_inputs (l1 ++ l2) x = chain_inputs l1 x ++ chain_inputs l2 (chain_fwd l1 x).
Proof. revert x. induction l1 as [|[b p] l1 IH]; intros x; [done|]. cbn. by rewrite IH. Qed.

Lemma chain_inputs_length l x : length (chain_inputs l x) = length l.
Proof. revert x. induction l as [|[b p] l IH]; intros x; [done|]. cbn. by rewrite IH. Qed.
End reference.

(** What is left of the failures after a call. *)
Definition call_ok `{BlockModel W T} {A} (w : W) (out : W * res A) (Q : A → Prop) : Prop :=
  let (w', r) := out in
  (pass_failures w' ≤ pass_failures w)%nat ∧
  match r with Ok a => Q a | Raise _ => (pass_failures w' < pass_failures w)%nat end.

Class ShapeLaws (W T Pr GP : Type) `{HiddenOps T Pr GP} `{BlockModel W T} : Prop := {
  shape_fwd b (x : T) : shape (fwd b x) = shape x;
  shape_prompt p (x : T) : shape (add_prompt p x) = shape x;
}.

Section shapes.
Context {W T Pr GP : Type} `{ShapeLaws W T Pr GP}.
Implicit Types (x : T) (l : list (Z * option Pr)).

Lemma shape_with_prompt (p : option Pr) x : shape (with_prompt p x) = shape x.
Proof. destruct p; [apply shape_prompt|done]. Qed.

Lemma shape_chain l x : shape (chain_fwd l x) = shape x.
Proof.
  revert x. induction l as [|[b p] l IH]; intros x; [done|]. cbn. by rewrite IH, shape_fwd, shape_with_prompt.
Qed.

End shapes.

Class BackendLaws (W T Pr GP : Type) `{HiddenOps T Pr GP} `{Backends W T} `{BlockModel W T} : Prop := {
  backend_shape :: ShapeLaws W T Pr GP;
  be_forward_law b (x : T) (w : W) : call_ok w (be_forward b x w) (λ y, y = fwd b x);
  be_backward_law b (x g : T) (w : W) : call_ok w (be_backward b x g w) (λ g', g' = bwd b x g);
}.

Lemma call_ok_ret `{BlockModel W T} {A} (w : W) (a : A) (Q : A → Prop) : Q a → call_ok w ((mret a : M W A) w) Q.
Proof. split; [lia|done]. Qed.

Lemma call_ok_bind `{BlockModel W T} {A B} (m : M W A) (f : A → M W B) (w : W) (Q : A → Prop) (R : B → Prop) :
  call_ok w (m w) Q → (∀ a w', Q a → call_ok w' (f a w') R) → call_ok w ((m ≫= f) w) R.
Proof.
  unfold mbind, M_bind. intros Hm Hf. destruct (m w) as [w1 [a|e]]; destruct Hm as [Hle Hm]; [|done].
  specialize (Hf a w1 Hm). destruct (f a w1) as [w2 r]. destruct Hf as [Hle2 Hf]. split; [lia|]. destruct r; [done|lia].
Qed.

Lemma call_ok_guard `{BlockModel W T} {A} (b : bool) e (f : unit → M W A) (w : W) (R : A → Prop) :
  b = true → call_ok w (f tt w) R → call_ok w ((guard_py b e ≫= f) w) R.
Proof. intros -> Hf. exact Hf. Qed.

Lemma call_ok_mono `{BlockModel W T} {A} (out : W * res A) (w : W) (Q R : A → Prop) :
  (∀ a, Q a → R a) → call_ok w out Q → call_ok w out R.
Proof. unfold call_ok. destruct out as [w' [a|e]]; intros HQ [? ?]; split; auto. Qed.

Lemma zip_reverse {A B} (l : list A) (k : list B) : length l = length k → zip (reverse l) (reverse k) = reverse (zip l k).
Proof.
  revert k. induction l as [|x l IH]; intros [|y k] E; try done. cbn in E.
  cbn [zip_with]. rewrite !reverse_cons, zip_with_app by (rewrite !length_reverse; lia). by rewrite IH by lia.
Qed.

(** ** The server *)

Section server_proofs.
Context {W T Pr GP : Type} `{BackendLaws W T Pr GP}.
Implicit Types (x g : T) (l : list (Z * option Pr)) (w : W).

Lemma forward_chain_spec l x w : zlen (shape x) = 3 → call_ok w (forward_chain l x w) (λ y, y = chain_fwd l x).
Proof.
  revert x w. induction l as [|[b p] l IH]; intros x w Hx; [by apply call_ok_ret|]. cbn [forward_chain chain_fwd].
  eapply call_ok_bind; [apply be_forward_law|]. intros y w' ->. apply call_ok_guard.
  - by rewrite shape_fwd, shape_with_prompt, Hx.
  - apply IH. by rewrite shape_fwd, shape_with_prompt.
Qed.

Lemma forward_inputs_spec l x acc w : zlen (shape x) = 3 →
  call_ok w (forward_inputs l x acc w) (λ r, r = (chain_fwd l x, acc ++ chain_inputs l x)).
Proof.
  revert x acc w. induction l as [|[b p] l IH]; intros x acc w Hx.
  { apply call_ok_ret. cbn. by rewrite app_nil_r. }
  cbn [forward_inputs chain_fwd chain_inputs]. apply call_ok_guard; [by rewrite Hx|].
  eapply call_ok_bind; [apply be_forward_law|]. intros y w' ->.
  eapply call_ok_mono; [|apply IH; by rewrite shape_fwd, shape_with_prompt].
  cbn. intros r ->. by rewrite <- app_assoc.
Qed.

Lemma backward_chain_spec l x g acc w :
  call_ok w (backward_chain (reverse (zip (zip (chain_inputs l x) l.*2) l.*1)) g acc w)
    (λ r, r = ((chain_bwd l x g).1, acc ++ reverse (chain_bwd l x g).2)).
Proof.
  revert g acc w. induction l as [|[b p] l IH] using rev_ind; intros g acc w.
  { apply call_ok_ret. cbn. by rewrite app_nil_r. }
  rewrite chain_inputs_app, !fmap_app, !zip_with_app, reverse_app
    by (rewrite ?length_zip_with, ?chain_inputs_length, ?length_fmap; lia).
  cbn. eapply call_ok_bind; [apply be_backward_law|]. intros g' w' ->.
  eapply call_ok_mono; [|apply IH]. intros r ->. rewrite chain_bwd_app. cbn [chain_bwd].
  destruct (chain_bwd l x _) as [g1 gps1]. destruct p as [p|]; cbn [fst snd]; [|by rewrite !app_nil_r].
  by rewrite reverse_snoc, <- app_assoc.
Qed.

(** The blocks of a request with their prompts. *)
Definition blocks_of (bs : list Z) (prompts : option (list Pr)) : list (Z * option Pr) :=
  zip bs (split_prompts (length bs) prompts).
Definition prompts_fit (n : nat) (prompts : option (list Pr)) : Prop :=
  match prompts with None => True | Some ps => length ps = n end.

Lemma split_prompts_length n prompts : prompts_fit n prompts → length (split_prompts n prompts) = n.
Proof. destruct prompts as [ps|]; cbn; [by rewrite length_fmap|by rewrite length_replicate]. Qed.

Lemma run_rpc_forward_spec bs x prompts w : bs ≠ [] → zlen (shape x) = 3 →
  call_ok w (run_rpc_forward bs x prompts w) (λ y, y = chain_fwd (blocks_of bs prompts) x).
Proof.
  intros Hbs Hx. unfold run_rpc_forward. apply call_ok_guard; [by rewrite bool_decide_false|].
  apply call_ok_guard; [by rewrite Hx|]. by apply forward_chain_spec.
Qed.

Lemma run_rpc_backward_spec bs x g prompts w : bs ≠ [] → prompts_fit (length bs) prompts → zlen (shape x) = 3 →
  call_ok w (run_rpc_backward bs x g prompts w) (λ r,
    let (g', gps) := chain_bwd (blocks_of bs prompts) x g in
    r = (g', match gps with [] => [] | _ => [gps] end)).
Proof.
  intros Hbs Hfit Hx. unfold run_rpc_backward, blocks_of. apply call_ok_guard; [by rewrite bool_decide_false|]. cbv zeta.
  pose proof (split_prompts_length _ _ Hfit) as Hlen. set (ps := split_prompts _ _) in *. clearbody ps.
  destruct (exists_last_or_nil bs) as [->|(bs0 & b & ->)]; [done|].
  destruct (exists_last_or_nil ps) as [->|(ps0 & p & ->)]; [rewrite length_app in Hlen; cbn in Hlen; lia|].
  rewrite !length_app in Hlen. cbn in Hlen. rewrite !removelast_last.
  eapply call_ok_bind; [by apply forward_inputs_spec|]. intros [x1 inters] w1 [= -> ->].
  assert (py_index (ps0 ++ [p]) (-1) = Some p) as ->.
  { unfold py_index. rewrite zlen_app. cbn. unfold zlen.
    rewrite (proj2 (Z.leb_le 0 _)) by (cbn; lia). rewrite lookup_app_r by (cbn; lia).
    by replace (Z.to_nat _ - length ps0)%nat with 0%nat by (cbn; lia). }
  cbn [of_option]. rewrite lift_ok_bind. set (l0 := zip bs0 ps0).
  assert (zip (bs0 ++ [b]) (ps0 ++ [p]) = l0 ++ [(b, p)]) as El by (by rewrite zip_with_app by lia).
  assert (chain_inputs l0 x ++ [with_prompt p (chain_fwd l0 x)] = chain_inputs (l0 ++ [(b, p)]) x) as Ei
    by (by rewrite chain_inputs_app).
  rewrite ?app_nil_l; cbv zeta; cbn [app]; rewrite Ei, El. set (l := l0 ++ [(b, p)]) in *.
  assert (l.*2 = ps0 ++ [p] ∧ l.*1 = bs0 ++ [b]) as [Ep Eb].
  { rewrite <- El. split; [rewrite snd_zip|rewrite fst_zip]; rewrite ?length_app; cbn; done || lia. }
  assert (length l = length bs0 + 1)%nat as Ell by (unfold l, l0; rewrite length_app, length_zip_with; cbn; lia).
  apply call_ok_guard.
  { unfold zlen. rewrite chain_inputs_length, Ell, !length_app. cbn. lia. }
  rewrite <- Ep, <- Eb. rewrite !zip_reverse by (rewrite ?length_zip_with, ?chain_inputs_length, ?length_fmap; lia).
  eapply call_ok_bind; [apply backward_chain_spec|]. intros [g' gr] w2 [= -> ->]. apply call_ok_ret.
  cbn [app]. rewrite ?reverse_involutive. destruct (chain_bwd l x g) as [g' gps]. cbn [fst snd]. f_equal.
  destruct gps as [|y gps]; [done|]. rewrite reverse_cons. by destruct (reverse gps).
Qed.
End server_proofs.

(** ** The client *)

Class RemoteLaws (W P T Pr GP : Type) `{HiddenOps T Pr GP} `{Remote W P T Pr GP} `{BlockModel W T} : Prop := {
  remote_shape :: ShapeLaws W T Pr GP;
  rm_make_sequence_law b e (w : W) : call_ok w (rm_make_sequence b e w) (λ l, b < e →
    ∃ init last, l = init ++ [last] ∧ tiles b (start last) init ∧ start last < e ≤ end_ last);
  rm_forward_law (sp : RemoteSpanInfo P) (x : T) ps (w : W) :
    let n := Z.to_nat (end_ sp - start sp) in
    start sp < end_ sp → zlen (shape x) = 3 → prompts_fit n ps →
    call_ok w (rm_forward sp x ps w) (λ y, y = chain_fwd (blocks_of (seqZ (start sp) (end_ sp - start sp)) ps) x);
  rm_backward_law (sp : RemoteSpanInfo P) (x g : T) ps (w : W) :
    let n := Z.to_nat (end_ sp - start sp) in
    start sp < end_ sp → zlen (shape x) = 3 → prompts_fit n ps →
    call_ok w (rm_backward sp x g ps w) (λ r,
      let (g', gps) := chain_bwd (blocks_of (seqZ (start sp) (end_ sp - start sp)) ps) x g in
      r = (g', match gps with [] => [] | _ => [gps] end));
  rm_failure_law o (w : W) : (pass_failures (rm_on_failure o w) ≤ pass_failures w)%nat;
  rm_success_law p (w : W) : (pass_failures (rm_on_success p w) ≤ pass_failures w)%nat;
}.

Section client_proofs.
Context {W P T Pr GP : Type} `{RL : RemoteLaws W P T Pr GP} (N : Z) (max_retries : option Z).
Context (prompts : option (list Pr)) (prompts_all : prompts_fit (Z.to_nat N) prompts) (N_nonneg : 0 ≤ N).
Implicit Types (x g : T) (w : W) (spans : list (RemoteSpanInfo P)).

(** Blocks [s] to [e] with their prompts. *)
Definition blocks (s e : Z) : list (Z * option Pr) := blocks_of (seqZ s (e - s)) (slice_prompts prompts s e).

Lemma slice_fits s e : 0 ≤ s ≤ e → e ≤ N → prompts_fit (Z.to_nat (e - s)) (slice_prompts prompts s e).
Proof.
  intros Hs He. destruct prompts as [ps|]; [|done]. cbn in *.
  rewrite py_slice_nonneg by (unfold zlen; lia). rewrite length_take, length_drop. lia.
Qed.

Lemma blocks_lookup s e : 0 ≤ s ≤ e → e ≤ N →
  blocks s e = (λ i, (i, ps ← prompts; ps !! Z.to_nat i)) <$> seqZ s (e - s).
Proof.
  intros Hs He. unfold blocks, blocks_of. rewrite length_seqZ. apply list_eq. intros i.
  rewrite list_lookup_fmap, lookup_zip_with.
  destruct (seqZ s (e - s) !! i) as [z|] eqn:Ez; [|done]. apply lookup_seqZ in Ez as [-> Hi]. cbn.
  destruct prompts as [ps|]; cbn in *.
  - rewrite list_lookup_fmap, py_slice_nonneg by (unfold zlen; lia).
    rewrite lookup_take_lt by lia. rewrite lookup_drop. replace (Z.to_nat (s + Z.of_nat i)) with (Z.to_nat s + i)%nat by lia.
    destruct (ps !! (Z.to_nat s + i)%nat) eqn:E; [done|]. apply lookup_ge_None in E. lia.
  - by rewrite lookup_replicate_2 by lia.
Qed.

Lemma blocks_app s m e : 0 ≤ s ≤ m → m ≤ e → e ≤ N → blocks s e = blocks s m ++ blocks m e.
Proof.
  intros Hs Hm He. rewrite !blocks_lookup by lia. rewrite <- fmap_app. f_equal.
  replace (e - s) with ((m - s) + (e - m)) by lia. rewrite seqZ_app by lia. by replace (s + (m - s)) with m by lia.
Qed.

Lemma blocks_nil s : blocks s s = [].
Proof. unfold blocks, blocks_of. by rewrite Z.sub_diag. Qed.

Lemma tiles_le s e spans : tiles s e spans → s ≤ e.
Proof.
  revert s. induction spans as [|sp spans IH]; intros s; cbn; [lia|]. intros (_ & Hs & Ht%IH). lia.
Qed.

Lemma tiles_app s e l1 l2 : tiles s e (l1 ++ l2) ↔ ∃ m, tiles s m l1 ∧ tiles m e (l2 : list (RemoteSpanInfo P)).
Proof.
  revert s. induction l1 as [|sp l1 IH]; intros s; cbn.
  - split; [intros ?; by exists s|by intros (m & -> & ?)].
  - rewrite IH. split; [intros (? & ? & m & ? & ?); by exists m|intros (m & (? & ? & ?) & ?); eauto].
Qed.

(** The inputs of the servers of a route. *)
Fixpoint inputs_of x spans : list T :=
  match spans with [] => [] | sp :: spans' => x :: inputs_of (chain_fwd (blocks (start sp) (end_ sp)) x) spans' end.

Lemma inputs_of_length x spans : length (inputs_of x spans) = length spans.
Proof. revert x. induction spans as [|sp spans IH]; intros x; [done|]. cbn. by rewrite IH. Qed.

Lemma inputs_of_app x l1 l2 s m : 0 ≤ s → m ≤ N → tiles s m l1 →
  inputs_of x (l1 ++ l2) = inputs_of x l1 ++ inputs_of (chain_fwd (blocks s m) x) l2.
Proof.
  revert x s. induction l1 as [|sp l1 IH]; intros x s Hs Hm; cbn.
  - intros ->. by rewrite blocks_nil.
  - intros (Hst & Hlt & Ht). rewrite (IH _ (end_ sp)) by (done || lia). f_equal. f_equal. f_equal.
    pose proof (tiles_le _ _ _ Ht). rewrite <- chain_fwd_app. rewrite Hst, <- blocks_app by lia. done.
Qed.

Lemma next_span_spec k spans b e w : b < e → (k = 0%nat → spans = [] ∨ tiles b e spans) →
  call_ok w (next_span k spans b e w) (λ r, let (sp, spans') := r in
    start sp = b ∧ b < end_ sp ≤ e ∧ tiles (end_ sp) e spans').
Proof.
  intros Hbe Hk. unfold next_span.
  assert (∀ (l : list (RemoteSpanInfo P)) w', tiles b e l → call_ok w' ((match l with [] => mthrow IndexError | sp :: l' => mret (sp, l') end : M W _) w')
    (λ r, let (sp, spans') := r in start sp = b ∧ b < end_ sp ≤ e ∧ tiles (end_ sp) e spans')) as Hl.
  { intros [|sp l] w'; cbn; [lia|]. intros (Hs & Hlt & Ht). pose proof (tiles_le _ _ _ Ht).
    apply call_ok_ret. done. }
  destruct (bool_decide (spans = []) || (1 <=? Z.of_nat k)) eqn:E.
  - eapply call_ok_bind; [|intros l w'; exact (Hl l w')].
    eapply call_ok_bind; [apply rm_make_sequence_law|]. cbn. intros l w' Hr.
    destruct (Hr Hbe) as (init & last & -> & Ht & He).
    destruct (cap_last_spec b e init last Ht He) as (last' & -> & Ht'). by apply call_ok_ret.
  - apply orb_false_iff in E as [E1 E2]. rewrite bool_decide_eq_false in E1.
    eapply call_ok_bind; [apply (call_ok_ret w spans (λ l, tiles b e l))|intros l w'; exact (Hl l w')].
    destruct Hk as [?|?]; [lia|done|done].
Qed.

Lemma forward_span_spec sp x w : zlen (shape x) = 3 → 0 ≤ start sp < end_ sp → end_ sp ≤ N →
  call_ok w (forward_span sp x prompts w) (λ y, y = chain_fwd (blocks (start sp) (end_ sp)) x).
Proof.
  intros Hx Hs He. unfold forward_span. eapply call_ok_bind; [apply rm_forward_law; [lia|done|apply slice_fits; lia]|].
  intros y w' ->. apply call_ok_guard; [apply bool_decide_true, shape_chain|]. cbn. split; [apply rm_success_law|done].
Qed.

(** A loop that retries: it fails only if the retries are bounded or its fuel is used up. *)
Definition within {A} (fuel : nat) (w : W) (out : W * res A) (Q : A → Prop) : Prop :=
  let (w', r) := out in
  (pass_failures w' ≤ pass_failures w)%nat ∧
  match r with Ok a => Q a | Raise _ => max_retries ≠ None ∨ (fuel ≤ pass_failures w)%nat end.

Lemma within_ret {A} fuel w (a : A) (Q : A → Prop) : Q a → within fuel w ((mret a : M W A) w) Q.
Proof. split; [lia|done]. Qed.

Lemma within_bind {A B} fuel (m : M W A) (f : A → M W B) w (Q : A → Prop) (R : B → Prop) :
  within fuel w (m w) Q → (∀ a w', Q a → within fuel w' (f a w') R) → within fuel w ((m ≫= f) w) R.
Proof.
  unfold mbind, M_bind. intros Hm Hf. destruct (m w) as [w1 [a|e]]; destruct Hm as [Hle Hm]; [|done].
  specialize (Hf a w1 Hm). destruct (f a w1) as [w2 r]. destruct Hf as [Hle2 Hf]. split; [lia|]. destruct r; [done|].
  destruct Hf; [by left|right; lia].
Qed.

Lemma within_guard {A} fuel (b : bool) e (f : unit → M W A) w (R : A → Prop) :
  b = true → within fuel w (f tt w) R → within fuel w ((guard_py b e ≫= f) w) R.
Proof. intros -> Hf. exact Hf. Qed.

Lemma within_mono {A} fuel w (out : W * res A) (Q R : A → Prop) : (∀ a, Q a → R a) → within fuel w out Q → within fuel w out R.
Proof. unfold within. destruct out as [w' [a|e]]; intros HQ [? ?]; split; auto. Qed.

Lemma retry_spec {A} n n' k o e (again : M W A) w w1 (Q : A → Prop) :
  (pass_failures w1 ≤ pass_failures w)%nat → (n ≤ S n')%nat →
  (pass_failures w1 < pass_failures w)%nat ∨ max_retries ≠ None ∨ (n ≤ pass_failures w)%nat →
  (∀ w', (pass_failures w' ≤ pass_failures w1)%nat → within n' w' (again w') Q) →
  within n w (retry max_retries k o e again w1) Q.
Proof.
  intros Hle Hn Hc Ha. unfold retry. pose proof (rm_failure_law o w1) as Hf. case_bool_decide as Hm.
  - split; [lia|]. left. by rewrite Hm.
  - specialize (Ha _ Hf). destruct (again _) as [w2 r]. destruct Ha as [Hle2 Ha]. split; [lia|].
    destruct r; [done|]. destruct Ha as [?|Ha]; [by left|]. destruct Hc as [?|[?|?]]; [right; lia|by left|right; lia].
Qed.

Lemma forward_attempts_spec fuel : ∀ k spans b e x w, 0 ≤ b < e → e ≤ N → zlen (shape x) = 3 →
  (k = 0%nat → spans = [] ∨ tiles b e spans) →
  within fuel w (forward_attempts max_retries fuel k spans b e x prompts w) (λ r, let '(y, sp, spans') := r in
    start sp = b ∧ b < end_ sp ≤ e ∧ tiles (end_ sp) e spans' ∧ y = chain_fwd (blocks b (end_ sp)) x).
Proof.
  induction fuel as [|fuel IH]; intros k spans b e x w Hb He Hx Hk; cbn [forward_attempts].
  { split; [done|]. right. lia. }
  pose proof (next_span_spec k spans b e w ltac:(lia) Hk) as Hn.
  destruct (next_span k spans b e w) as [w1 [[sp spans']|ex]]; destruct Hn as [Hle Hn].
  2:{ eapply retry_spec; [done|done|left; lia|]. intros w' _. apply IH; try done. }
  destruct Hn as (Hst & Hen & Ht). pose proof (forward_span_spec sp x w1 Hx ltac:(lia) ltac:(lia)) as Hf.
  destruct (forward_span sp x prompts w1) as [w2 [y|ex]]; destruct Hf as [Hle2 Hf].
  - split; [lia|]. by rewrite Hf, Hst.
  - eapply retry_spec; [lia|done|left; lia|]. intros w' _. apply IH; try done.
Qed.

(** The chain of servers that has run from [b] to [e]. *)
Definition ran x (b e : Z) (r : T * list T * list (RemoteSpanInfo P)) : Prop :=
  let '(y, inters, spans) := r in
  tiles b e spans ∧ inters = inputs_of x spans ∧ y = chain_fwd (blocks b e) x.

Lemma forward_loop_spec retries x0 s e fuel : ∀ spans b x inters done w, 0 ≤ s ≤ b → b ≤ e → e ≤ N → zlen (shape x0) = 3 →
  (e - b ≤ Z.of_nat fuel) → spans = [] ∨ tiles b e spans → ran x0 s b (x, inters, done) →
  within retries w (forward_loop max_retries fuel retries spans b e x prompts inters done w) (ran x0 s e).
Proof.
  induction fuel as [|fuel IH]; intros spans b x inters done w Hs Hb He Hx Hf Hsp (Ht & Hi & Hy); cbn [forward_loop];
    destruct (Z.ltb_spec b e) as [Hlt|Hge]; try lia.
  1,3: assert (b = e) as -> by lia; by apply within_ret.
  eapply within_bind; [apply forward_attempts_spec; [lia|lia|by rewrite Hy, shape_chain|done]|].
  intros [[y sp] spans'] w' (Hst & Hen & Ht' & Hyy). apply IH; try done; [lia|lia|lia|by right|].
  split; [|split].
  - apply tiles_app. exists b. split; [done|]. cbn. lia.
  - rewrite (inputs_of_app _ _ _ s b) by (done || lia). rewrite Hi, Hy. done.
  - rewrite Hyy, Hy, <- chain_fwd_app, <- blocks_app by lia. done.
Qed.

Lemma sequential_forward_spec retries x s e w : 0 ≤ s ≤ default N e → default N e ≤ N → zlen (shape x) = 3 →
  within retries w (sequential_forward N max_retries retries x prompts s e w) (ran x s (default N e)).
Proof.
  intros Hs He Hx. unfold sequential_forward. apply within_guard; [by rewrite Hx|]. cbv zeta.
  apply within_guard; [lia|]. apply within_guard.
  { destruct prompts as [ps|]; [|done]. cbn in prompts_all. unfold zlen. lia. }
  apply forward_loop_spec; try done; try lia; [by left|]. split; [done|]. split; [done|]. by rewrite blocks_nil.
Qed.

(** ** The backward pass of the client *)

(** What a backward pass has still to do: the servers from [s] to [m], with their inputs. *)
Definition pending x0 (s m : Z) (inters : list T) spans : Prop := tiles s m spans ∧ inters = inputs_of x0 spans.

Lemma pending_snoc x0 s m inters spans sp : 0 ≤ s → m ≤ N → pending x0 s m inters (spans ++ [sp]) →
  ∃ inters', inters = inters' ++ [chain_fwd (blocks s (start sp)) x0] ∧ pending x0 s (start sp) inters' spans ∧
    s ≤ start sp < end_ sp ∧ end_ sp = m.
Proof.
  intros Hs Hm [Ht Hi]. apply tiles_app in Ht as (b & Ht & Hst & Hlt & Hen). cbn in Hen. subst b.
  pose proof (tiles_le _ _ _ Ht). exists (inputs_of x0 spans). subst inters. rewrite (inputs_of_app _ _ _ s (start sp)) by (done || lia).
  split; [done|]. split; [done|]. lia.
Qed.

Lemma backup_spec retries x s0 (sp : RemoteSpanInfo P) w : 0 ≤ start sp < end_ sp → end_ sp ≤ N → zlen (shape x) = 3 → s0 = start sp →
  within retries w (backup N max_retries retries x prompts sp w) (λ r, let (inters, spans) := r in
    tiles s0 (end_ sp) spans ∧ inters = inputs_of x spans).
Proof.
  intros Hs He Hx ->. unfold backup. eapply within_bind; [by apply sequential_forward_spec; cbn; [lia|lia|]|].
  intros [[y inters] spans] w' (Ht & Hi & _). cbn in Ht. apply within_guard; [unfold zlen; rewrite Hi, inputs_of_length; lia|].
  destruct (exists_last_or_nil spans) as [->|(init & final & ->)]; [cbn in Ht; lia|].
  assert (∃ first, head (init ++ [final]) = Some first ∧ start first = start sp) as (first & -> & Hfirst).
  { destruct init as [|sp0 init]; cbn in Ht |- *; eexists; (split; [reflexivity|]); apply Ht. }
  cbn [of_option]. rewrite lift_ok_bind. apply within_guard; [by apply Z.eqb_eq|].
  rewrite last_snoc. cbn [of_option]. rewrite lift_ok_bind. apply within_guard; [|by apply within_ret].
  apply tiles_app in Ht as (m & _ & _ & _ & Hen). by apply Z.eqb_eq.
Qed.

(** The gradients as a message: one tensor of the prompts' gradients, unless there is none. *)
Definition grads_of (ps : list GP) : list (list GP) := match ps with [] => [] | _ => [ps] end.

Lemma current_span_spec retries x0 s k x (sp : RemoteSpanInfo P) inters spans w :
  0 ≤ s → end_ sp ≤ N → zlen (shape x0) = 3 → start sp < end_ sp → pending x0 s (start sp) inters spans →
  x = chain_fwd (blocks s (start sp)) x0 →
  within retries w (current_span N max_retries retries k x sp prompts inters spans w)
    (λ r, let '(x', sp', inters', spans') := r in
      end_ sp' = end_ sp ∧ start sp' < end_ sp' ∧ pending x0 s (start sp') inters' spans' ∧
      x' = chain_fwd (blocks s (start sp')) x0).
Proof.
  intros Hs He Hx Hlt Hp Ex. pose proof (tiles_le _ _ _ (proj1 Hp)) as Hle. unfold current_span.
  destruct (1 <=? Z.of_nat k); [|by apply within_ret].
  eapply within_bind; [apply (backup_spec retries x (start sp)); [lia|lia|by rewrite Ex, shape_chain|done]|].
  intros [bi bs] w' [Ht Hbi].
  destruct (exists_last_or_nil bs) as [->|(init & sp' & ->)]; [cbn in Ht; lia|].
  assert (pending x0 s (end_ sp) (inters ++ bi) (spans ++ init ++ [sp'])) as Hp2.
  { destruct Hp as [Hts ->]. split; [apply tiles_app; eauto|].
    rewrite (inputs_of_app _ _ _ s (start sp)) by (done || lia). by rewrite Hbi, Ex. }
  rewrite app_assoc in Hp2 |- *. destruct (pending_snoc _ _ _ _ _ _ Hs He Hp2) as (inters' & -> & Hp' & Hb & Hen).
  rewrite !py_pop_snoc. cbn [of_option]. rewrite !lift_ok_bind. apply within_ret. split; [done|]. split; [lia|]. done.
Qed.

Lemma backward_attempts_spec retries x0 s fuel : ∀ k x (sp : RemoteSpanInfo P) g inters spans w,
  0 ≤ s → end_ sp ≤ N → zlen (shape x0) = 3 → start sp < end_ sp → pending x0 s (start sp) inters spans →
  x = chain_fwd (blocks s (start sp)) x0 →
  within (Nat.min fuel retries) w (backward_attempts N max_retries fuel retries k x sp g prompts inters spans w)
    (λ r, let '(g', gps, inters', spans') := r in
      ∃ m, pending x0 s m inters' spans' ∧ m < end_ sp ∧
        (g', gps) = let (g1, ps) := chain_bwd (blocks m (end_ sp)) (chain_fwd (blocks s m) x0) g in (g1, grads_of ps)).
Proof.
  intros k. revert k. induction fuel as [|fuel IH]; intros k x sp g inters spans w Hs He Hx Hlt Hp Ex; cbn [backward_attempts].
  { split; [done|]. right. lia. }
  pose proof (tiles_le _ _ _ (proj1 Hp)) as Hle.
  pose proof (current_span_spec retries x0 s k x sp inters spans w Hs He Hx Hlt Hp Ex) as Hb.
  destruct (current_span _ _ _ _ _ _ _ _ _ w) as [w1 [[[[x' sp'] inters'] spans']|ex]]; destruct Hb as [Hle1 Hb].
  2:{ eapply (retry_spec _ (Nat.min fuel retries)); [done|lia|destruct Hb; [by right; left|right; right; lia]|].
      intros w' _. apply IH; done. }
  destruct Hb as (He' & Hlt' & Hp' & Ex'). pose proof (tiles_le _ _ _ (proj1 Hp')) as Hle'.
  pose proof (rm_backward_law sp' x' g (slice_prompts prompts (start sp') (end_ sp')) w1 Hlt'
    ltac:(by rewrite Ex', shape_chain) ltac:(apply slice_fits; lia)) as Hr.
  destruct (rm_backward _ _ _ _ w1) as [w2 [[g' gps]|ex]]; destruct Hr as [Hle2 Hr].
  - pose proof (rm_success_law (peer_id sp') w2). split; [lia|]. exists (start sp').
    split; [done|]. split; [lia|]. fold (blocks (start sp') (end_ sp')) in Hr. rewrite <- Ex', <- He'.
    destruct (chain_bwd _ _ _) as [g1 ps]. by rewrite Hr.
  - eapply (retry_spec _ (Nat.min fuel retries)); [lia|lia|left; lia|].
    intros w' _. rewrite <- He'. apply IH; try done. lia.
Qed.

Lemma backward_loop_spec retries x0 s fuel : ∀ e g inters spans acc w,
  0 ≤ s → e ≤ N → zlen (shape x0) = 3 → pending x0 s e inters spans → e - s ≤ Z.of_nat fuel → Forall (λ l, l ≠ []) acc →
  within retries w (backward_loop N max_retries fuel retries g prompts inters spans acc w)
    (λ r, let '(g', grads, spans') := r in
      spans' = [] ∧ Forall (λ l, l ≠ []) grads ∧
      (g', concat (reverse grads)) = let (g1, ps) := chain_bwd (blocks s e) x0 g in (g1, ps ++ concat (reverse acc))).
Proof.
  induction fuel as [|fuel IH]; intros e g inters spans acc w Hs He Hx Hp Hf Hacc; cbn [backward_loop];
    destruct (exists_last_or_nil spans) as [->|(spans0 & sp & ->)].
  1,3: destruct Hp as [Ht Hi]; cbn in Ht, Hi; subst inters e; cbn; split; [lia|]; by rewrite blocks_nil.
  all: destruct (pending_snoc _ _ _ _ _ _ Hs He Hp) as (inters0 & -> & Hp' & Hb & Hen); rewrite !py_pop_snoc.
  { pose proof (tiles_le _ _ _ (proj1 Hp')). lia. }
  eapply within_bind.
  { eapply within_mono; [|rewrite <- (Nat.min_id retries) at 1; apply backward_attempts_spec; try done; lia].
    intros a Ha. exact Ha. }
  intros [[[g' gps] inters'] spans'] w' (m & Hpm & Hm & Eg). pose proof (tiles_le _ _ _ (proj1 Hpm)).
  rewrite Hen in Eg, Hm.
  eapply within_mono; [|apply (IH m); try done; try lia].
  - intros [[g2 grads] spans2] (-> & Hne & E). split; [done|]. split; [done|]. rewrite E.
    rewrite (blocks_app s m e), chain_bwd_app by lia. destruct (chain_bwd (blocks m e) _ g) as [g1 ps].
    injection Eg as -> ->. destruct (chain_bwd (blocks s m) x0 g1) as [g3 ps3]. f_equal.
    rewrite reverse_app, concat_app, <- app_assoc. f_equal. f_equal. destruct ps; [done|]. cbn. by rewrite app_nil_r.
  - apply Forall_app. split; [done|]. destruct (chain_bwd (blocks m e) _ g) as [g1 ps]. injection Eg as -> ->.
    destruct ps; constructor; done.
Qed.

Lemma sequential_backward_spec retries x0 s e fuel g inters spans w :
  0 ≤ s → e ≤ N → zlen (shape x0) = 3 → pending x0 s e inters spans → e - s ≤ Z.of_nat fuel →
  within retries w (sequential_backward N max_retries fuel retries g inters prompts spans w)
    (λ r, r = let (g', ps) := chain_bwd (blocks s e) x0 g in (g', match ps with [] => None | _ => Some ps end, [])).
Proof.
  intros Hs He Hx Hp Hf. unfold sequential_backward. apply within_guard.
  { unfold zlen. rewrite (proj2 Hp), inputs_of_length. lia. }
  eapply within_bind; [by apply (backward_loop_spec retries x0 s fuel e)|].
  intros [[g' grads] spans'] w' (-> & Hne & E). apply within_ret.
  destruct (chain_bwd _ _ _) as [g1 ps]. rewrite app_nil_r in E. injection E as -> E.
  destruct grads as [|l grads]; [by rewrite <- E|].
  assert (ps ≠ []) as Hps; [|by destruct ps; [done|rewrite E]].
  rewrite <- E. rewrite reverse_cons, concat_app. intros [_ Hl]%app_nil. cbn in Hl. rewrite app_nil_r in Hl.
  inversion Hne; subst. done.
Qed.
End client_proofs.

(** ** Batches *)

(** The rows of a batch do not see each other. *)
Class RowLaws (W R Q G : Type) `{HiddenOps (list R) (list Q) (list G)} `{BlockModel W (list R)} : Prop := {
  fwd_piece b n k (x : list R) : fwd b (piece n k x) = piece n k (fwd b x);
  bwd_piece b n k (x g : list R) : length g = length x → bwd b (piece n k x) (piece n k g) = piece n k (bwd b x g);
  add_piece n k (p : list Q) (x : list R) : length p = length x → add_prompt (piece n k p) (piece n k x) = piece n k (add_prompt p x);
  grad_piece n k (p : list Q) (g : list R) : length p = length g → prompt_grad (piece n k p) (piece n k g) = piece n k (prompt_grad p g);
  fwd_rows b (x : list R) : length (fwd b x) = length x;
  bwd_rows b (x g : list R) : length g = length x → length (bwd b x g) = length x;
  add_rows (p : list Q) (x : list R) : length (add_prompt p x) = length x;
  grad_rows (p : list Q) (g : list R) : length p = length g → length (prompt_grad p g) = length g;
  shape_piece n k (x : list R) : zlen (shape (piece n k x)) = zlen (shape x);
}.

Section pieces.
Context {A : Type}.
Implicit Types (l : list A).

Lemma concat_pieces n a cnt l : concat ((λ k, piece n k l) <$> seq a cnt) = take (cnt * n) (drop (a * n) l).
Proof.
  revert a. induction cnt as [|cnt IH]; intros a; [done|]. cbn [seq fmap list_fmap concat]. rewrite IH. unfold piece.
  replace (S a * n)%nat with (a * n + n)%nat by lia. rewrite <- drop_drop.
  replace (S cnt * n)%nat with (n + cnt * n)%nat by lia. by rewrite take_take_drop.
Qed.

Lemma num_pieces_enough n len : (0 < n)%nat → (len ≤ num_pieces n len * n)%nat.
Proof.
  intros Hn. unfold num_pieces.
  pose proof (Nat.div_mod (len + n - 1) n ltac:(lia)). pose proof (Nat.mod_upper_bound (len + n - 1) n ltac:(lia)). nia.
Qed.

Lemma concat_split n l : (0 < n)%nat → concat (split_rows n l) = l.
Proof.
  intros Hn. unfold split_rows. rewrite concat_pieces, drop_0. apply take_ge. by apply num_pieces_enough.
Qed.

Lemma cat_layers_map {B} (f : B → list A → list A) (ks : list B) (gps : list (list A)) : ks ≠ [] →
  cat_layers ((λ k, f k <$> gps) <$> ks) = (λ p, concat ((λ k, f k p) <$> ks)) <$> gps.
Proof.
  destruct ks as [|k ks]; [done|]. intros _. cbn.
  assert (∀ h : list A → list A, fold_left (zip_with app) ((λ k, f k <$> gps) <$> ks) (h <$> gps) =
    (λ p, h p ++ concat ((λ k, f k p) <$> ks)) <$> gps) as Hf; [|exact (Hf (f k))].
  induction ks as [|k' ks IH]; intros h; cbn.
  - apply list_fmap_ext. intros i p _. by rewrite app_nil_r.
  - replace (zip_with app (h <$> gps) (f k' <$> gps)) with ((λ p, h p ++ f k' p) <$> gps).
    + rewrite IH. apply list_fmap_ext. intros i p _. by rewrite <- app_assoc.
    + clear. induction gps as [|p gps IHg]; [done|]. cbn. by rewrite IHg.
Qed.

Lemma split_rows_length n l : length (split_rows n l) = num_pieces n (length l).
Proof. unfold split_rows. by rewrite length_fmap, length_seq. Qed.
End pieces.

Section batch_proofs.
Context {W P R Q G : Type} `{RL : RemoteLaws W P (list R) (list Q) (list G)} `{!RowLaws W R Q G}.
Context (N : Z) (max_retries : option Z) (retries : nat) (N_pos : 0 < N).
Implicit Types (x g : list R) (l : list (Z * option (list Q))).

Definition piece_prompt (n k : nat) (bp : Z * option (list Q)) : Z * option (list Q) := (bp.1, piece n k <$> bp.2).
Definition rows_fit (len : nat) l : Prop := Forall (λ bp : Z * option (list Q), match bp.2 with Some p => length p = len | None => True end) l.

Lemma with_piece n k (p : option (list Q)) x : (match p with Some p => length p = length x | None => True end) →
  with_prompt (piece n k <$> p) (piece n k x) = piece n k (with_prompt p x).
Proof. destruct p; [|done]. cbn. apply add_piece. Qed.

Lemma with_rows (p : option (list Q)) x : length (with_prompt p x) = length x.
Proof. destruct p; [apply add_rows|done]. Qed.

Lemma chain_fwd_piece n k l x : rows_fit (length x) l →
  chain_fwd (piece_prompt n k <$> l) (piece n k x) = piece n k (chain_fwd l x).
Proof.
  revert x. induction l as [|[b p] l IH]; intros x Hl; [done|]. inversion Hl as [|? ? Hp Hl']; subst. cbn in *.
  rewrite with_piece by done. rewrite fwd_piece. apply IH. by rewrite fwd_rows, with_rows.
Qed.

Lemma chain_fwd_rows l x : length (chain_fwd l x) = length x.
Proof. revert x. induction l as [|[b p] l IH]; intros x; [done|]. cbn. by rewrite IH, fwd_rows, with_rows. Qed.

Lemma chain_bwd_piece n k l x g : rows_fit (length x) l → length g = length x →
  chain_bwd (piece_prompt n k <$> l) (piece n k x) (piece n k g) =
    prod_map (piece n k) (fmap (piece n k)) (chain_bwd l x g) ∧
  length (chain_bwd l x g).1 = length x ∧ Forall (λ p, length p = length x) (chain_bwd l x g).2.
Proof.
  revert x. induction l as [|[b p] l IH]; intros x Hl Hg; [done|]. inversion Hl as [|? ? Hp Hl']; subst. cbn [snd] in Hp.
  rewrite fmap_cons. change (piece_prompt n k (b, p)) with (b, piece n k <$> p). cbn [chain_bwd].
  rewrite with_piece by done. rewrite fwd_piece.
  pose proof (with_rows p x) as Hwr. set (x' := with_prompt p x) in *. pose proof (fwd_rows b x') as Hfr.
  destruct (IH (fwd b x')) as (E & Hr & Hgr); [by rewrite Hfr, Hwr|by rewrite Hfr, Hwr|].
  destruct (chain_bwd l (fwd b x') g) as [g1 gps]. cbn [prod_map fst snd] in E, Hr, Hgr. rewrite E. cbn [prod_map fst snd].
  rewrite bwd_piece by (rewrite Hr, Hfr; done).
  pose proof (bwd_rows b x' g1 ltac:(by rewrite Hr, Hfr)) as Hbr.
  split; [|split].
  - destruct p as [p|]; [|done]. cbn. rewrite grad_piece; [done|]. change (add_prompt p x) with x'. by rewrite Hbr, Hwr.
  - cbn [fst]. congruence.
  - rewrite Hfr, Hwr in Hgr. destruct p as [p|]; cbn [snd]; [|done]. constructor; [|done]. rewrite grad_rows; congruence.
Qed.

(** The prompts of a batch. *)
Lemma blocks_piece n k (ps : list (list Q)) s e :
  blocks (Some (piece n k <$> ps)) s e = piece_prompt n k <$> blocks (Some ps) s e.
Proof.
  unfold blocks, blocks_of, slice_prompts, split_prompts. cbn.
  assert (py_slice (piece n k <$> ps) s e = piece n k <$> py_slice ps s e) as ->.
  { unfold py_slice, zlen. rewrite length_fmap, <- fmap_drop, <- fmap_take. done. }
  generalize (seqZ s (e - s)), (py_slice ps s e). intros zs. induction zs as [|z zs IH]; intros [|p l]; try done.
  cbn. by rewrite <- IH.
Qed.


Context (prompts : option (list (list Q))) (x : list R).
Context (prompts_fits : match prompts with
                        | None => True
                        | Some ps => length ps = Z.to_nat N ∧ Forall (λ p, length p = length x) ps
                        end).
Context (x_shape : zlen (shape x) = 3).

Definition batch_prompts (n k : nat) : option (list (list Q)) := (λ ps : list (list Q), piece n k <$> ps) <$> prompts.

Lemma batch_blocks n k s e : blocks (batch_prompts n k) s e = piece_prompt n k <$> blocks prompts s e.
Proof.
  unfold batch_prompts. destruct prompts as [ps|]; [apply blocks_piece|]. cbn. unfold blocks, blocks_of. cbn.
  generalize (seqZ s (e - s)). intros zs. induction zs as [|z zs IH]; [done|]. cbn. by rewrite <- IH.
Qed.

Lemma batch_fits n k : prompts_fit (Z.to_nat N) (batch_prompts n k).
Proof. unfold batch_prompts. destruct prompts as [ps|]; [|done]. cbn. rewrite length_fmap. apply prompts_fits. Qed.

Lemma blocks_rows_fit s e : rows_fit (length x) (blocks prompts s e).
Proof.
  unfold rows_fit, blocks, blocks_of. apply Forall_forall. intros [b p] Hb%elem_of_zip_r.
  destruct prompts as [ps|]; cbn in Hb |- *.
  - apply list_elem_of_fmap in Hb as (p' & -> & Hp). destruct prompts_fits as [_ Hf]. rewrite Forall_forall in Hf.
    apply Hf. unfold py_slice in Hp. apply elem_of_take in Hp as (i & Hp & _). rewrite lookup_drop in Hp.
    by apply list_elem_of_lookup_2 in Hp.
  - by apply elem_of_replicate in Hb as [-> _].
Qed.

Lemma within_mapM {K A B} fuel (f : A → M W B) (P' : K → A → Prop) (Q' : K → B → Prop) ks es w :
  Forall2 P' ks es → (∀ k a w, P' k a → within max_retries fuel w (f a w) (Q' k)) →
  within max_retries fuel w (mapM f es w) (λ r, Forall2 Q' ks r).
Proof.
  intros HF Hf. revert w. induction HF as [|k a ks es Ha HF IH]; intros w; [by apply within_ret; constructor|].
  cbn. eapply within_bind; [by apply Hf|]. intros b w' Hb. eapply within_bind; [apply IH|]. intros bs w2 Hbs.
  apply within_ret. by constructor.
Qed.

(** The batches of a pass and what the forward pass keeps of them. *)
Definition ctx_ok (n : nat) (ctx : pass_ctx P (list R) (list Q)) : Prop :=
  let ks := seq 0 (num_pieces n (length x)) in
  prompt_batches ctx = batch_prompts n <$> ks ∧
  ∃ outs, intermediate_inputs ctx = outs.*1 ∧ sequences ctx = outs.*2 ∧
    Forall2 (λ k o, pending (batch_prompts n k) (piece n k x) 0 N o.1 o.2) ks outs.

Lemma split_batches n : let ks := seq 0 (num_pieces n (length x)) in
  match prompts with None => replicate (length (split_rows n x)) None | Some ps => Some <$> split_layers n ps end =
    batch_prompts n <$> ks.
Proof.
  cbn. unfold batch_prompts. destruct prompts as [[|p ps]|]; cbn.
  - destruct prompts_fits as [E _]. cbn in E. lia.
  - unfold split_layers. destruct prompts_fits as [_ Hf]. inversion Hf as [|? ? Hp]; subst. rewrite Hp.
    by rewrite <- list_fmap_compose.
  - rewrite split_rows_length. generalize 0%nat (num_pieces n (length x)). intros a m. revert a.
    induction m as [|m IH]; intros a; [done|]. cbn. by rewrite <- IH.
Qed.

Lemma autograd_forward_spec n w : batch_size x = Ok n → (0 < n)%nat →
  within max_retries retries w (autograd_forward N max_retries retries x prompts w)
    (λ r, r.1 = chain_fwd (blocks prompts 0 N) x ∧ ctx_ok n r.2).
Proof.
  intros Hn Hpos. unfold autograd_forward. rewrite Hn, lift_ok_bind. cbv zeta. rewrite split_batches.
  set (ks := seq 0 (num_pieces n (length x))).
  assert (zip (split_rows n x) (batch_prompts n <$> ks) = (λ k, (piece n k x, batch_prompts n k)) <$> ks) as ->.
  { unfold split_rows. fold ks. clearbody ks. clear. induction ks as [|k ks IH]; [done|]. cbn. by rewrite <- IH. }
  eapply within_bind.
  { apply (within_mapM _ _ (λ k a, a = (piece n k x, batch_prompts n k)) (λ k r, ran (batch_prompts n k) (piece n k x) 0 N r) ks).
    - clearbody ks. clear. induction ks; constructor; done.
    - intros k a w' ->. cbn. apply (sequential_forward_spec N max_retries (batch_prompts n k) (batch_fits n k) ltac:(lia) retries (piece n k x) 0 None w');
        cbn; [lia|lia|by rewrite shape_piece]. }
  intros outs w' HF. apply within_guard.
  { apply Forall2_length in HF. unfold zlen. rewrite split_rows_length, <- HF. unfold ks. rewrite length_seq. lia. }
  apply within_ret. cbn [fst snd]. split.
  - rewrite <- (concat_split n (chain_fwd (blocks prompts 0 N) x)) by done. f_equal. unfold split_rows.
    rewrite (chain_fwd_rows (blocks prompts 0 N) x). fold ks.
    clearbody ks. induction HF as [|k [[y i] d] ks outs (Ht & Hi & Hy) HF IH]; [done|]. cbn. rewrite <- IH. f_equal.
    rewrite Hy, batch_blocks. apply chain_fwd_piece, blocks_rows_fit.
  - split; [done|]. exists (zip outs.*1.*2 outs.*2). cbn.
    rewrite fst_zip, snd_zip by (rewrite !length_fmap; lia). split; [done|]. split; [done|]. fold ks. clearbody ks.
    induction HF as [|k [[y i] d] ks outs (Ht & Hi & Hy) HF IH]; [constructor|]. cbn. constructor; [|exact IH]. by split.
Qed.

Lemma outputs_map {A B} (F : nat → A * B) (ks : list nat) (r : list (A * B)) : Forall2 (λ k b, b = F k) ks r → r = F <$> ks.
Proof. induction 1 as [|k b ks r -> HF IH]; [done|]. cbn. by rewrite <- IH. Qed.

Lemma autograd_backward_spec n ctx g w : batch_size g = Ok n → (0 < n)%nat → length g = length x → ctx_ok n ctx →
  within max_retries retries w (autograd_backward N max_retries retries ctx g w) (λ r,
    r.1 = (let (g', ps) := chain_bwd (blocks prompts 0 N) x g in (g', match ps with [] => None | _ => Some ps end)) ∧
    r.2 = mkCtx (prompt_batches ctx) (intermediate_inputs ctx) ((λ _, []) <$> sequences ctx)).
Proof.
  intros Hn Hpos Hg (Hps & outs & Hi & Hs & HF). unfold autograd_backward. rewrite Hn, lift_ok_bind. cbv zeta.
  pose proof (Forall2_length _ _ _ HF) as Hlen. rewrite length_seq in Hlen.
  set (ks := seq 0 (num_pieces n (length x))) in *.
  assert (ks ≠ []) as Hks.
  { intros E. apply (f_equal length) in E. unfold ks in E. rewrite length_seq in E. unfold num_pieces in E. cbn in E. lia. }
  apply within_guard.
  { unfold zlen. rewrite Hi, Hs, !length_fmap, split_rows_length, Hg, <- Hlen. lia. }
  destruct (chain_bwd (blocks prompts 0 N) x g) as [g' gps] eqn:Eg.
  pose proof (λ k, chain_bwd_piece n k (blocks prompts 0 N) x g (blocks_rows_fit 0 N) Hg) as Hk.
  rewrite Eg in Hk. cbn [fst snd prod_map] in Hk.
  set (F := λ k, (piece n k g', match piece n k <$> gps with [] => None | _ => Some (piece n k <$> gps) end, [] : list (RemoteSpanInfo P))).
  assert (split_rows n g = (λ k, piece n k g) <$> ks) as Esp by (unfold split_rows, ks; by rewrite Hg).
  eapply within_bind.
  { apply (within_mapM _ _ (λ k e, ∃ o, pending (batch_prompts n k) (piece n k x) 0 N o.1 o.2 ∧ e = (piece n k g, o.1, batch_prompts n k, o.2))
      (λ k r, r = F k) ks).
    - rewrite Esp, Hps, Hi, Hs. fold ks. clear -HF. clearbody ks. induction HF as [|k o ks outs Ho HF IH]; [constructor|]. cbn.
      constructor; [by exists o|exact IH].
    - intros k e w' (o & Ho & ->). cbn.
      pose proof (sequential_backward_spec N max_retries (batch_prompts n k) (batch_fits n k) ltac:(lia) retries (piece n k x) 0 N
        (Z.to_nat N) (piece n k g) o.1 o.2 w' ltac:(lia) ltac:(lia) ltac:(by rewrite shape_piece) Ho ltac:(lia)) as Hb.
      eapply within_mono; [|exact Hb]. intros r ->. rewrite batch_blocks. destruct (Hk k) as [-> _]. done. }
  intros rs w' Hr. apply (outputs_map F) in Hr as ->. apply within_ret. cbn [fst snd].
  destruct (Hk 0%nat) as (_ & Hgl & Hgp). split; [|f_equal].
  - rewrite <- !list_fmap_compose. f_equal.
    + unfold compose, F. cbn.
      transitivity (concat (split_rows n g')); [unfold split_rows; by rewrite Hgl|by apply concat_split].
    + unfold compose. destruct (decide (gps = [])) as [->|Hgps]; [clearbody ks; by destruct ks|].
      assert ((λ k, (F k).1.2) <$> ks = (λ k, Some (piece n k <$> gps)) <$> ks) as ->
        by (apply list_fmap_ext; intros; unfold F; by destruct gps).
      assert (existsb (λ p, match p with None => true | Some _ => false end) ((λ k, Some (piece n k <$> gps)) <$> ks) = false) as ->
        by (clear; clearbody ks; by induction ks).
      assert (omap id ((λ k, Some (piece n k <$> gps)) <$> ks) = (λ k, piece n k <$> gps) <$> ks) as ->.
      { clear. clearbody ks. induction ks as [|k ks IH]; [done|]. cbn. by rewrite <- IH. }
      rewrite (cat_layers_map (λ k, piece n k)) by exact Hks.
      transitivity (Some gps); [|by destruct gps]. f_equal.
      rewrite <- (list_fmap_id gps) at 2. apply list_fmap_ext. intros i q Hq.
      apply list_elem_of_lookup_2 in Hq. rewrite Forall_forall in Hgp.
      transitivity (concat (split_rows n q)); [unfold split_rows; by rewrite (Hgp q Hq)|by apply concat_split].
  - rewrite Hs. rewrite <- list_fmap_compose. clear -HF. clearbody ks. induction HF as [|k o ks outs Ho HF IH]; [done|]. cbn. f_equal. exact IH.
Qed.

(** A second backward pass on the same context finds its sequences used up. *)
Lemma second_backward_raises n ctx g w : batch_size g = Ok n → (0 < n)%nat → length g = length x → ctx_ok n ctx →
  autograd_backward N max_retries retries
    (mkCtx (prompt_batches ctx) (intermediate_inputs ctx) ((λ _, []) <$> sequences ctx)) g w = (w, Raise AssertionError).
Proof.
  intros Hn Hpos Hg (Hps & outs & Hi & Hs & HF). unfold autograd_backward. rewrite Hn, lift_ok_bind. cbn zeta.
  cbn [prompt_batches intermediate_inputs sequences]. pose proof (Forall2_length _ _ _ HF) as Hlen. rewrite length_seq in Hlen.
  rewrite Hi, Hs. rewrite (bind_ok _ _ w w tt).
  2: { unfold zlen. rewrite !length_fmap, split_rows_length, Hg, <- Hlen, Z.eqb_refl. done. }
  assert (split_rows n g = (λ k, piece n k g) <$> seq 0 (num_pieces n (length x))) as -> by (unfold split_rows; by rewrite Hg).
  rewrite Hps. assert (∃ m, num_pieces n (length x) = S m) as [m Em] by (exists (Nat.pred (num_pieces n (length x))); unfold num_pieces; lia).
  rewrite Em in *. cbn [seq] in *. inversion HF as [|? [inters spans] ? outs' Ho HF']; subst. destruct Ho as [Ht Hin]. cbn in Ht, Hin.
  cbn. unfold sequential_backward at 1. destruct spans as [|sp spans]; [cbn in Ht; lia|]. cbn in Hin. subst inters. done.
Qed.
End batch_proofs.

(** ** Clients over the servers of this repository *)

Class RoutesLaws (W P T : Type) `{Routes W P} `{BlockModel W T} : Prop := {
  rt_make_sequence_law b e (w : W) : call_ok w (rt_make_sequence b e w) (λ l, b < e →
    ∃ init last, l = init ++ [last] ∧ tiles b (start last) init ∧ start last < e ≤ end_ last);
  rt_failure_law o (w : W) : (pass_failures (rt_on_failure o w) ≤ pass_failures w)%nat;
  rt_success_law p (w : W) : (pass_failures (rt_on_success p w) ≤ pass_failures w)%nat;
}.

#[export] Instance servers_remote_laws {W P T Pr GP} `{BL : BackendLaws W T Pr GP} `{RT : Routes W P} `{!RoutesLaws W P T} :
  RemoteLaws W P T Pr GP.
Proof.
  split.
  - apply BL.
  - apply rt_make_sequence_law.
  - intros sp x ps w n Hlt Hx Hfit. apply run_rpc_forward_spec; [|done].
    intros E. apply (f_equal length) in E. rewrite length_seqZ in E. cbn in E. lia.
  - intros sp x g ps w n Hlt Hx Hfit. apply run_rpc_backward_spec; [|by rewrite length_seqZ|done].
    intros E. apply (f_equal length) in E. rewrite length_seqZ in E. cbn in E. lia.
  - apply rt_failure_law.
  - apply rt_success_law.
Qed.

Lemma batch_size_pos {R Q G} `{HiddenOps (list R) (list Q) (list G)} x n : batch_size x = Ok n → (0 < n)%nat.
Proof.
  unfold batch_size. destruct (py_index (shape x) 1) as [k|]; cbn; [|done]. destruct (k =? 0); [done|]. intros [= <-]. lia.
Qed.

(** ** Properties *)

(** C20: The backward call of a server. On a chain of blocks, with one prompt per block or
    none, [run_rpc_backward] runs the forward chain again and returns the gradient of its
    inputs by the chain rule, and the gradients of the prompts in the order of the blocks;
    it raises only if a backend does. *)
Theorem server_chain_rule {W T Pr GP} `{BackendLaws W T Pr GP} bs (x g : T) (prompts : option (list Pr)) (w : W) :
  bs ≠ [] → prompts_fit (length bs) prompts → zlen (shape x) = 3 →
  call_ok w (run_rpc_backward bs x g prompts w) (λ r,
    let (g', gps) := chain_bwd (blocks_of bs prompts) x g in
    r = (g', match gps with [] => [] | _ => [gps] end)).
Proof. apply run_rpc_backward_spec. Qed.

(** C21: A training step over a failing swarm. A forward pass cut into batches and a
    backward pass over its context, with routes through servers that run the chains above,
    return the output of all the blocks on the whole input, the gradient of the input by
    the chain rule through all the blocks, and the gradients of the prompts of all blocks
    in order (none without prompts), whatever servers fail and however routes are rebuilt
    in either pass; an exception means that the retries are bounded or that more calls
    failed than the fuel allows. *)
Theorem training_step {W P R Q G} `{BL : BackendLaws W (list R) (list Q) (list G)} `{RT : Routes W P}
    `{!RoutesLaws W P (list R)} `{!RowLaws W R Q G} N max_retries retries prompts (x g : list R) n (w : W) :
  0 < N → match prompts with
          | None => True
          | Some ps => length ps = Z.to_nat N ∧ Forall (λ p, length p = length x) ps
          end →
  zlen (shape x) = 3 → batch_size x = Ok n → batch_size g = Ok n → length g = length x →
  within max_retries retries w
    ((f ← autograd_forward (P := P) N max_retries retries x prompts;
      b ← autograd_backward (P := P) N max_retries retries f.2 g;
      mret (f.1, b.1)) w)
    (λ r, r = (chain_fwd (blocks prompts 0 N) x,
               let (g', gps) := chain_bwd (blocks prompts 0 N) x g in (g', match gps with [] => None | _ => Some gps end))).
Proof.
  intros HN Hps Hx Hn Hng Hg. pose proof (batch_size_pos _ _ Hn) as Hpos.
  eapply within_bind; [by apply (autograd_forward_spec N max_retries retries HN prompts x Hps Hx n)|].
  intros [y ctx] w' [Hy Hctx]. cbn in Hy, Hctx. subst y.
  eapply within_bind; [by apply (autograd_backward_spec N max_retries retries HN prompts x Hps Hx n)|].
  intros [gr ctx'] w2 [Hgr _]. cbn in Hgr. subst gr. by apply within_ret.
Qed.

(** ** Squares *)

(** Block [b] squares each row and adds [b]; prompts are added to the rows. *)
#[local] Instance sq_ops : HiddenOps (list Z) (list Z) (list Z) := {
  shape x := [zlen x; 512; 1];
  add_prompt p x := if decide (length p = length x) then zip_with Z.add x p else x;
  prompt_grad _ g := g;
}.
#[local] Instance sq_model : BlockModel (list bool) (list Z) := {
  fwd b x := (λ r, r * r + b) <$> x;
  bwd _ x g := zip_with (λ r d, 2 * r * d) x g;
  pass_failures w := length (List.filter (λ b, b) w);
}.
(** The next call fails where the script says so. *)
Definition scripted {A} (r : A) : M (list bool) A := λ w,
  match w with true :: w' => (w', Raise RuntimeError) | _ => (tail w, Ok r) end.
#[local] Instance sq_backends : Backends (list bool) (list Z) := {
  be_forward b x := scripted (fwd b x);
  be_backward b x g := scripted (bwd b x g);
}.
#[local] Instance sq_routes : Routes (list bool) Z := {
  rt_make_sequence b e := scripted (ex_route b e);
  rt_on_failure _ w := w;
  rt_on_success _ w := w;
}.

Lemma scripted_ok {A} (r : A) w (Q : A → Prop) : Q r → call_ok w (scripted r w) Q.
Proof. destruct w as [|[] w]; intros ?; (split; [cbn; lia|]); done || (cbn; lia). Qed.

#[local] Instance sq_laws : BackendLaws (list bool) (list Z) (list Z) (list Z).
Proof.
  split; [split|..].
  - intros b x. cbn. unfold zlen. by rewrite length_fmap.
  - intros p x. cbn. case_decide; [|done]. unfold zlen. rewrite length_zip_with. do 2 f_equal. lia.
  - intros b x w. by apply scripted_ok.
  - intros b x g w. by apply scripted_ok.
Qed.

#[local] Instance sq_routes_laws : RoutesLaws (list bool) Z (list Z).
Proof.
  split; [|done..]. intros b e w. apply scripted_ok. intros Hbe. unfold ex_route. destruct (Z.ltb_spec (b + 1) e).
  - eexists [_], _. split; [reflexivity|]. cbn. lia.
  - eexists [], _. split; [reflexivity|]. cbn. lia.
Qed.

#[local] Instance sq_rows : RowLaws (list bool) Z Z Z.
Proof.
  split.
  - intros b n k x. unfold piece. cbn. by rewrite fmap_take, fmap_drop.
  - intros b n k x g Hg. unfold piece. cbn. by rewrite <- zip_with_take, <- zip_with_drop.
  - intros n k p x Hp. unfold piece. cbn. rewrite !decide_True by (rewrite ?length_take, ?length_drop; congruence).
    by rewrite <- zip_with_take, <- zip_with_drop.
  - done.
  - intros b x. cbn. by rewrite length_fmap.
  - intros b x g Hg. cbn. rewrite length_zip_with. lia.
  - intros p x. cbn. case_decide; [|done]. rewrite length_zip_with. lia.
  - done.
  - done.
Qed.

Definition sq_script : list bool := [false; true; false; false; false; true; false; false; false; false; true; false; true].
Definition sq_prompts : option (list (list Z)) := Some [[1; 0; 2]; [0; 1; 0]; [3; 1; 1]].

Definition sq_step : M (list bool) (list Z * (list Z * option (list (list Z)))) :=
  f ← autograd_forward (P := Z) 3 None 9 [1; 2; 3] sq_prompts;
  b ← autograd_backward (P := Z) 3 None 9 f.2 [1; 1; 1];
  mret (f.1, b.1).

Lemma server_chain_rule_witness :
  (run_rpc_backward [0; 1] [2; 1] [1; 1] None []).2 = Ok ([32; 4], [] : list (list (list Z))).
Proof.
  pose proof (server_chain_rule [0; 1] [2; 1] [1; 1] None ([] : list bool) ltac:(discriminate) I ltac:(reflexivity)) as Hs.
  destruct (run_rpc_backward _ _ _ _ _) as [w [r|e]]; destruct Hs as [_ Hs]; [|cbn in Hs; lia].
  cbn [snd]. f_equal. rewrite Hs. vm_compute. reflexivity.
Defined.

Lemma training_step_witness :
  batch_size [1; 2; 3] = Ok 2%nat ∧
  ∃ w', sq_step sq_script = (w', Ok ([402; 731; 393131],
    ([1280; 2160; 627000], Some [[1280; 2160; 627000]; [320; 540; 62700]; [40; 54; 1254]]))).
Proof.
  split; [reflexivity|].
  pose proof (training_step (P := Z) 3 None 9 sq_prompts [1; 2; 3] [1; 1; 1] 2 sq_script eq_refl
    ltac:(split; [reflexivity|repeat (constructor; [reflexivity|]); constructor]) eq_refl eq_refl eq_refl eq_refl) as Hs.
  fold sq_step in Hs. destruct (sq_step sq_script) as [w' [r|e]]; destruct Hs as [_ Hs].
  - exists w'. f_equal. f_equal. rewrite Hs. vm_compute. reflexivity.
  - exfalso. destruct Hs as [Hs|Hs]; [by apply Hs|cbn in Hs; lia].
Defined.
