(* ===== verification/SpecTree.v ===== *)
(** * Speculative decoding trees (models/llama/spe_dec_tree.py)

    Draft-token trees as the code builds them: node objects in a heap with parent
    pointers and child lists, grown a layer at a time, linearised depth first into
    parent indices, from which the tree attention masks are computed. A node's
    identity is its index in the heap; [node_id], a random UUID nothing reads, is
    left out. Boolean tensors are a shape and a function of the indices, with torch's
    slice assignment on them. *)

From stdpp Require Import numbers base strings relations list.
From Stdlib Require Import ZArith Lia.
From S2P Require Import Prelude Dict Floats.

(** ** Nodes and trees *)

Record TreeNode := mkNode {
  token_id : Z;
  probability : float;
  depth : Z;
  children : list nat;
  parent : option nat;
  position_in_sequence : Z;
}.
#[export] Instance TreeNode_inhabited : Inhabited TreeNode := populate (mkNode 0 float_one 0 [] None (-1)).

Notation heap := (list TreeNode).

Definition set_children (cs : list nat) (n : TreeNode) : TreeNode :=
  mkNode (token_id n) (probability n) (depth n) cs (parent n) (position_in_sequence n).
Definition set_position (pos : Z) (n : TreeNode) : TreeNode :=
  mkNode (token_id n) (probability n) (depth n) (children n) (parent n) pos.

Definition add_child (self : nat) (tok : Z) (prob : float) (h : heap) : heap * nat :=
  let child := mkNode tok prob (depth (h !!! self) + 1) [] (Some self) (-1) in
  let i := length h in
  (alter (λ n, set_children (children n ++ [i]) n) self (h ++ [child]), i).

Fixpoint add_children (self : nat) (candidates : list (Z * float)) (h : heap) : heap * list nat :=
  match candidates with
  | [] => (h, [])
  | (tok, prob) :: candidates' =>
      let '(h1, child) := add_child self tok prob h in
      let '(h2, cs) := add_children self candidates' h1 in
      (h2, child :: cs)
  end.

(** The nodes from [n] up to, not including, the root: the loops of
    [get_path_from_root] and [get_path_nodes_from_root] before the reversal. *)
Fixpoint climb (fuel : nat) (h : heap) (n : nat) : list nat :=
  match fuel with
  | O => []
  | S fuel =>
      match parent (h !!! n) with
      | Some p => n :: climb fuel h p
      | None => []
      end
  end.

Definition get_path_nodes_from_root (h : heap) (n : nat) : list nat := reverse (climb (length h) h n).
Definition get_path_from_root (h : heap) (n : nat) : list Z :=
  (λ i, token_id (h !!! i)) <$> get_path_nodes_from_root h n.

Definition is_leaf (h : heap) (n : nat) : bool := (length (children (h !!! n)) =? 0)%nat.

Fixpoint leaf_node_paths (fuel : nat) (h : heap) (n : nat) : list (list nat) :=
  match fuel with
  | O => []
  | S fuel =>
      if is_leaf h n then [get_path_nodes_from_root h n]
      else mjoin (leaf_node_paths fuel h <$> children (h !!! n))
  end.
Definition get_all_leaf_node_paths (h : heap) (n : nat) : list (list nat) := leaf_node_paths (length h) h n.

Fixpoint leaf_paths (fuel : nat) (h : heap) (n : nat) : list (list Z) :=
  match fuel with
  | O => []
  | S fuel =>
      if is_leaf h n then [get_path_from_root h n]
      else mjoin (leaf_paths fuel h <$> children (h !!! n))
  end.
Definition get_all_leaf_paths (h : heap) (n : nat) : list (list Z) := leaf_paths (length h) h n.

(** The root is node 0. *)
Record SpeculativeTree := mkTree {
  nodes : heap;
  request_id : string;
  max_depth : Z;
  total_nodes : Z;
}.

Definition new_tree (root_token : Z) (request_id : string) : SpeculativeTree :=
  mkTree [mkNode root_token float_one 0 [] None (-1)] request_id 0 1.

Fixpoint nodes_at (fuel : nat) (h : heap) (d current_depth : Z) (n : nat) : list nat :=
  match fuel with
  | O => []
  | S fuel =>
      if current_depth =? d then [n]
      else if current_depth <? d then mjoin (nodes_at fuel h d (current_depth + 1) <$> children (h !!! n))
      else []
  end.
Definition get_nodes_at_depth (t : SpeculativeTree) (d : Z) : list nat :=
  if d =? 0 then [0%nat] else nodes_at (length (nodes t)) (nodes t) d 0 0.

Fixpoint grow (layer : list (nat * list (Z * float))) (h : heap) : heap * list nat :=
  match layer with
  | [] => (h, [])
  | (p, candidates) :: layer' =>
      let '(h1, cs) := add_children p candidates h in
      let '(h2, cs') := grow layer' h1 in
      (h2, cs ++ cs')
  end.

Definition add_layer (parent_nodes : list nat) (candidates_per_node : list (list (Z * float)))
    : M SpeculativeTree (list nat) :=
  λ t,
  if (length parent_nodes =? length candidates_per_node)%nat then
    let '(h, new_nodes) := grow (zip parent_nodes candidates_per_node) (nodes t) in
    let t' :=
      match new_nodes with
      | [] => mkTree h (request_id t) (max_depth t) (total_nodes t)
      | n :: ns =>
          let deepest := foldl (λ m i, Z.max m (depth (h !!! i))) (depth (h !!! n)) ns in
          mkTree h (request_id t) (Z.max (max_depth t) deepest) (total_nodes t + zlen new_nodes)
      end in
    (t', Ok new_nodes)
  else (t, Raise ValueError).

Definition get_all_paths (t : SpeculativeTree) : list (list Z) := get_all_leaf_paths (nodes t) 0.

(** ** Linearisation *)

Record lin_state := mkLin {
  lin_heap : heap;
  linearized_nodes : list nat;
  parent_indices : list Z;
  position_map : dict nat Z;
}.

Definition visit (n p : nat) (st : lin_state) : lin_state :=
  let pos := zlen (linearized_nodes st) in
  let pm := dict_set (position_map st) n pos in
  mkLin (alter (set_position pos) n (lin_heap st)) (linearized_nodes st ++ [n])
    (parent_indices st ++ [default (-1) (dict_get pm p)]) pm.

Fixpoint dfs_with_positions (fuel : nat) (n : nat) (st : lin_state) : lin_state :=
  match fuel with
  | O => st
  | S fuel =>
      let st1 := match parent (lin_heap st !!! n) with Some p => visit n p st | None => st end in
      foldl (λ st c, dfs_with_positions fuel c st) st1 (children (lin_heap st1 !!! n))
  end.

Definition linearize_tree_with_positions (t : SpeculativeTree) : SpeculativeTree * (list nat * list Z) :=
  let st := dfs_with_positions (length (nodes t)) 0 (mkLin (nodes t) [] [] []) in
  (mkTree (lin_heap st) (request_id t) (max_depth t) (total_nodes t),
   (linearized_nodes st, parent_indices st)).

(** ** Boolean matrices *)

Record mask := mkMask { m_rows : Z; m_cols : Z; m_at : Z → Z → bool }.

Definition zeros (r c : Z) : mask := mkMask r c (λ _ _, false).
Definition eye (n : Z) : mask := mkMask n n (λ i j, i =? j).

Definition in_slice (a b i : Z) : bool := (a <=? i) && (i <? b).

(** [m[r0:r1, c0:c1] = True] *)
Definition fill (m : mask) (r c : Z * Z) : mask :=
  let (r0, r1) := (slice_bound (m_rows m) r.1, slice_bound (m_rows m) r.2) in
  let (c0, c1) := (slice_bound (m_cols m) c.1, slice_bound (m_cols m) c.2) in
  mkMask (m_rows m) (m_cols m) (λ i j, (in_slice r0 r1 i && in_slice c0 c1 j) || m_at m i j).

(** [m[r0:r1, c0:c1] = src]: each extent of [src] is the slice's or 1. *)
Definition assign (m : mask) (r c : Z * Z) (src : mask) : res mask :=
  let (r0, r1) := (slice_bound (m_rows m) r.1, slice_bound (m_rows m) r.2) in
  let (c0, c1) := (slice_bound (m_cols m) c.1, slice_bound (m_cols m) c.2) in
  if ((m_rows src =? Z.max 0 (r1 - r0)) || (m_rows src =? 1))
     && ((m_cols src =? Z.max 0 (c1 - c0)) || (m_cols src =? 1))
  then Ok (mkMask (m_rows m) (m_cols m) (λ i j,
         if in_slice r0 r1 i && in_slice c0 c1 j
         then m_at src (if m_rows src =? 1 then 0 else i - r0) (if m_cols src =? 1 then 0 else j - c0)
         else m_at m i j))
  else Raise TorchError.

(** A row or column index: negative ones count from the end. *)
Definition index_of (n i : Z) : res Z :=
  if (0 <=? i) && (i <? n) then Ok i
  else if (i <? 0) && (0 <=? n + i) then Ok (n + i) else Raise IndexError.

(** [m[i, j] = True] *)
Definition set_cell (m : mask) (i j : Z) : res mask :=
  i ← index_of (m_rows m) i; j ← index_of (m_cols m) j; Ok (fill m (i, i + 1) (j, j + 1)).

(** [a | b], an extent of 1 broadcast. *)
Definition mask_or (a b : mask) : res mask :=
  let compat x y := (x =? y) || (x =? 1) || (y =? 1) in
  let extent x y := if x =? 1 then y else x in
  let at_ m i j := m_at m (if m_rows m =? 1 then 0 else i) (if m_cols m =? 1 then 0 else j) in
  if compat (m_rows a) (m_rows b) && compat (m_cols a) (m_cols b)
  then Ok (mkMask (extent (m_rows a) (m_rows b)) (extent (m_cols a) (m_cols b))
             (λ i j, at_ a i j || at_ b i j))
  else Raise TorchError.

(** ** Attention masks between tree tokens *)

(** [j = parent; while j >= 0: append(j); j = parent_indices[j]] *)
Fixpoint ancestor_row (fuel : nat) (parents : list Z) (j : Z) : res (list Z) :=
  match fuel with
  | O => Raise OutOfFuel
  | S fuel =>
      if 0 <=? j then
        p ← of_option IndexError (py_index parents j);
        row ← ancestor_row fuel parents p;
        Ok (j :: row)
      else Ok []
  end.

Definition build_ancestor_matrix_optimized (parents : list Z) : res mask :=
  let n := zlen parents in
  if n =? 0 then Ok (zeros 0 0)
  else
    rows ← mapM (ancestor_row (S (length parents)) parents) parents;
    if forallb (λ row, (length row =? 0)%nat) rows then Ok (zeros n n)
    else
      let idx := mjoin (imap (λ i row, pair (Z.of_nat i) <$> row) rows) in
      Ok (mkMask n n (λ i j, existsb (λ rc, (rc.1 =? i) && (rc.2 =? j)) idx)).

Definition build_incremental_tree_attention_mask (past_len tree_len : Z) (parents : list Z) : res mask :=
  if tree_len =? 0 then Ok (zeros 0 past_len)
  else if 0 <? zlen parents then
    ancestor_matrix ← build_ancestor_matrix_optimized parents;
    mask_or ancestor_matrix (eye tree_len)
  else Ok (eye tree_len).

(** The marks of row [i]: itself, then each parent, up to the first negative one. *)
Fixpoint mark_path (fuel : nat) (parents : list Z) (i current : Z) (m : mask) : res mask :=
  match fuel with
  | O => Raise OutOfFuel
  | S fuel =>
      if 0 <=? current then
        p ← of_option IndexError (py_index parents current);
        if 0 <=? p then m' ← set_cell m i p; mark_path fuel parents i p m' else Ok m
      else Ok m
  end.

Fixpoint mark_rows (fuel : nat) (parents : list Z) (rows : list Z) (m : mask) : res mask :=
  match rows with
  | [] => Ok m
  | i :: rows' => m1 ← set_cell m i i; m2 ← mark_path fuel parents i i m1; mark_rows fuel parents rows' m2
  end.

Definition build_tree_attention_mask_with_root (tree_len : Z) (parents : list Z) : res mask :=
  mark_rows (S (length parents)) parents (py_range 0 tree_len) (zeros tree_len tree_len).

(** ** Batches *)

(** [ids.int().argmax()] of the validity mask: the first valid index, 0 when none is. *)
Definition first_valid_idx (ids : list Z) : nat :=
  match list_find (λ v, 0 ≤ v) ids with Some (k, _) => k | None => 0%nat end.

Definition clamp (lo hi v : Z) : Z := Z.min hi (Z.max lo v).

Fixpoint set_positions (vs : list Z) (l : list bool) : res (list bool) :=
  match vs with
  | [] => Ok l
  | v :: vs' => i ← index_of (zlen l) v; set_positions vs' (<[Z.to_nat i := true]> l)
  end.

Definition compute_single_cache_valid_mask (ids : list Z) (cache_len : Z) : res (list bool) :=
  (* argmax of an empty tensor raises *)
  root_position ← of_option TorchError (ids !! first_valid_idx ids);
  let committed := Z.to_nat (slice_bound cache_len root_position) in
  let cache_valid_mask := imap (λ k _, bool_decide (k < committed)%nat) (replicate (Z.to_nat cache_len) tt) in
  set_positions (clamp 0 (cache_len - 1) <$> filter (λ v, 0 ≤ v) ids) cache_valid_mask.

(** [cache_valid_mask.unsqueeze(0).expand(rows, cache_len)] *)
Definition expand (rows : Z) (v : list bool) : mask :=
  mkMask rows (zlen v) (λ _ j, default false (v !! Z.to_nat j)).

(** The mask of one tree in the prefill phase, before and after padding. *)
Definition prefill_inputs (past_len curr_seq_len tree_len : Z) (parents : list Z) : res mask :=
  let total_len := past_len + tree_len in
  let m := zeros total_len total_len in
  let prompt_len := if 0 <? curr_seq_len then curr_seq_len - 1 else 0 in
  let root_pos := prompt_len in
  m ← (if 0 <? prompt_len
       then assign m (0, prompt_len) (0, prompt_len) (mkMask prompt_len prompt_len (λ i j, j <=? i))
       else Ok m);
  m ← (if 0 <? prompt_len
       then i ← index_of (m_rows m) root_pos; Ok (fill m (i, i + 1) (0, prompt_len))
       else Ok m);
  m ← set_cell m root_pos root_pos;
  if 0 <? tree_len then
    let m := if 0 <? prompt_len then fill m (past_len, past_len + tree_len) (0, prompt_len) else m in
    j ← index_of (m_cols m) root_pos;
    let m := fill m (past_len, past_len + tree_len) (j, j + 1) in
    tree_mask ← build_tree_attention_mask_with_root tree_len parents;
    assign m (past_len, past_len + tree_len) (past_len, past_len + tree_len) tree_mask
  else Ok m.

Definition prefill_mask (past_len curr_seq_len tree_len max_tree_size : Z) (parents : list Z) : res mask :=
  let total_len := past_len + tree_len in
  m ← prefill_inputs past_len curr_seq_len tree_len parents;
  if tree_len <? max_tree_size then
    let total_padded_len := past_len + max_tree_size in
    padded ← assign (zeros total_padded_len total_padded_len) (0, total_len) (0, total_len) m;
    Ok (if 0 <? curr_seq_len then fill padded (total_len, total_padded_len) (0, curr_seq_len) else padded)
  else Ok m.

(** The mask of one tree in the generation phase, before and after padding. *)
Definition generation_inputs (cache_len tree_len : Z) (parents : list Z) (cache_valid_mask : list bool) : res mask :=
  let inputs_len := tree_len + 1 in
  let total_len := cache_len + inputs_len in
  let m := zeros inputs_len total_len in
  m ← assign m (0, 1) (0, cache_len) (expand 1 cache_valid_mask);
  m ← set_cell m 0 cache_len;
  if 0 <? tree_len then
    m ← assign m (1, inputs_len) (0, cache_len) (expand tree_len cache_valid_mask);
    j ← index_of (m_cols m) cache_len;
    let m := fill m (1, inputs_len) (j, j + 1) in
    tree_mask ← build_tree_attention_mask_with_root tree_len parents;
    assign m (1, inputs_len) (cache_len + 1, total_len) tree_mask
  else Ok m.

Definition generation_mask (cache_len tree_len max_tree_size : Z) (parents : list Z)
    (cache_valid_mask : list bool) : res mask :=
  let inputs_len := tree_len + 1 in
  let total_len := cache_len + inputs_len in
  m ← generation_inputs cache_len tree_len parents cache_valid_mask;
  let max_inputs_len := max_tree_size + 1 in
  if inputs_len <? max_inputs_len then
    let pad_len := max_inputs_len - inputs_len in
    let total_padded_len := cache_len + max_inputs_len in
    padded ← assign (zeros max_inputs_len total_padded_len) (0, inputs_len) (0, total_len) m;
    assign padded (inputs_len, max_inputs_len) (0, cache_len) (expand pad_len cache_valid_mask)
  else Ok m.

Record batch_args := mkBatchArgs {
  ba_past_len : Z;  (** [input_ids.shape[1]] *)
  ba_pad_token_id : Z;
  ba_seq_lengths : option (list Z);
  ba_is_prefill : bool;
  ba_kv_cache_position_ids : option (list (list Z));
}.

Definition cache_len_of (a : batch_args) : Z :=
  match ba_kv_cache_position_ids a with
  | Some rows =>
      if ba_is_prefill a then 0
      else
        match filter (λ v, 0 ≤ v) (mjoin rows) with
        | [] => 0
        | v :: vs => foldl Z.max v vs + 1
        end
  | None => 0
  end.

(** One iteration of the loop over the trees. *)
Definition tree_row (a : batch_args) (cache_len max_tree_size : Z) (i : nat) (t : SpeculativeTree)
    : res (SpeculativeTree * (list Z * mask * list (list nat))) :=
  curr_seq_len ← match ba_seq_lengths a with
                 | Some lens => of_option IndexError (lens !! i)
                 | None => Ok (ba_past_len a)
                 end;
  let '(t', (lin, parents)) := linearize_tree_with_positions t in
  let tree_token_ids := (λ n, token_id (nodes t' !!! n)) <$> lin in
  let tree_len := zlen tree_token_ids in
  let padded_tokens :=
    tree_token_ids ++ replicate (Z.to_nat (max_tree_size - tree_len)) (ba_pad_token_id a) in
  m ← (if ba_is_prefill a then prefill_mask (ba_past_len a) curr_seq_len tree_len max_tree_size parents
       else
         rows ← of_option TypeError (ba_kv_cache_position_ids a);
         row ← of_option IndexError (rows !! i);
         valid ← compute_single_cache_valid_mask row cache_len;
         generation_mask cache_len tree_len max_tree_size parents valid);
  Ok (t', (padded_tokens, m, get_all_leaf_node_paths (nodes t') 0)).

Fixpoint tree_rows (a : batch_args) (cache_len max_tree_size : Z) (i : nat) (ts : list SpeculativeTree)
    : res (list (SpeculativeTree * (list Z * mask * list (list nat)))) :=
  match ts with
  | [] => Ok []
  | t :: ts' =>
      r ← tree_row a cache_len max_tree_size i t;
      rs ← tree_rows a cache_len max_tree_size (S i) ts';
      Ok (r :: rs)
  end.

Definition tree_batch : Type := list (list Z) * option (list mask) * list (list (list nat)).

(** The trees it leaves (with their positions written) and the tensors it returns. *)
Definition prepare_incremental_tree_batch (trees : list SpeculativeTree) (a : batch_args)
    : res (list SpeculativeTree * tree_batch) :=
  match filter (λ t, 1 < total_nodes t) trees with
  | [] => Ok (trees, ((λ _, []) <$> trees, None, (λ _, []) <$> trees))
  | t :: ts =>
      let max_tree_size := foldl Z.max (total_nodes t - 1) ((λ t, total_nodes t - 1) <$> ts) in
      rows ← tree_rows a (cache_len_of a) max_tree_size 0 trees;
      let tokens := (λ r, r.2.1.1) <$> rows in
      let masks := (λ r, r.2.1.2) <$> rows in
      match tokens, masks with
      | l :: _, m :: _ =>
          (* torch.tensor refuses ragged rows, torch.cat unequal masks *)
          if negb (forallb (λ l', (length l' =? length l)%nat) tokens) then Raise ValueError
          else if negb (forallb (λ m', (m_rows m' =? m_rows m) && (m_cols m' =? m_cols m)) masks) then Raise TorchError
          else Ok (rows.*1, (tokens, Some masks, (λ r, r.2.2) <$> rows))
      | _, _ => Ok (rows.*1, (tokens, None, []))
      end
  end.

(** ** Well-formed trees *)

Record heap_wf (h : heap) : Prop := mkHeapWf {
  hw_root : ∃ r, h !! 0%nat = Some r ∧ parent r = None ∧ depth r = 0;
  hw_up i n : h !! i = Some n → i ≠ 0%nat →
    ∃ p q, parent n = Some p ∧ (p < i)%nat ∧ h !! p = Some q ∧ i ∈ children q ∧ depth n = depth q + 1;
  hw_down i n c : h !! i = Some n → c ∈ children n → ∃ m, h !! c = Some m ∧ parent m = Some i;
  hw_nodup i n : h !! i = Some n → NoDup (children n);
}.

Record tree_wf (t : SpeculativeTree) : Prop := mkTreeWf {
  tw_heap : heap_wf (nodes t);
  tw_total : total_nodes t = zlen (nodes t);
  tw_depth_le i n : nodes t !! i = Some n → depth n ≤ max_depth t;
  tw_depth_max : ∃ i n, nodes t !! i = Some n ∧ depth n = max_depth t;
}.

(** The trees a drafter builds: layers under nodes of the tree, linearised now and then. *)
Inductive grown : SpeculativeTree → Prop :=
| grown_new tok rid : grown (new_tree tok rid)
| grown_layer t ps cands :
    grown t → Forall (λ p, (p < length (nodes t))%nat) ps → grown (fst (add_layer ps cands t))
| grown_linearized t : grown t → grown (fst (linearize_tree_with_positions t)).

Definition pstep (h : heap) (i p : nat) : Prop := ∃ n, h !! i = Some n ∧ parent n = Some p.
(** [n] is [i] or an ancestor of [i]. *)
Definition anc (h : heap) : nat → nat → Prop := rtc (pstep h).

Fixpoint preorder (fuel : nat) (h : heap) (n : nat) : list nat :=
  match fuel with
  | O => []
  | S fuel => n :: mjoin (preorder fuel h <$> children (h !!! n))
  end.

Lemma total_lookup (h : heap) i n : h !! i = Some n → h !!! i = n.
Proof. intros H. by apply list_lookup_total_correct. Qed.

Lemma add_child_lookup self tok prob (h : heap) i :
  (self < length h)%nat →
  (add_child self tok prob h).1 !! i =
    if decide (i = length h) then Some (mkNode tok prob (depth (h !!! self) + 1) [] (Some self) (-1))
    else if decide (i = self) then (λ n, set_children (children n ++ [length h]) n) <$> h !! i
    else h !! i.
Proof.
  intros Hs. unfold add_child. cbn [fst]. case_decide as Hi; [subst|].
  - rewrite list_lookup_alter_ne by lia. by rewrite list_lookup_middle.
  - assert ((h ++ [mkNode tok prob (depth (h !!! self) + 1) [] (Some self) (-1)]) !! i = h !! i) as Hh.
    { destruct (decide (i < length h)%nat); [by apply lookup_app_l|].
      rewrite !lookup_ge_None_2; [done|lia|rewrite length_app; simpl; lia]. }
    case_decide; [subst; by rewrite list_lookup_alter_eq, Hh|].
    by rewrite list_lookup_alter_ne, Hh by done.
Qed.

Lemma add_child_length self tok prob (h : heap) :
  length (add_child self tok prob h).1 = S (length h) ∧ (add_child self tok prob h).2 = length h.
Proof. unfold add_child. cbn [fst snd]. rewrite length_alter, length_app. simpl. lia. Qed.

Lemma down_lt h i n c : heap_wf h → h !! i = Some n → c ∈ children n → (i < c < length h)%nat.
Proof.
  intros Hwf Hi Hc. destruct (hw_down h Hwf i n c Hi Hc) as (m & Hm & Hp).
  apply lookup_lt_Some in Hm as ?. split; [|done].
  destruct (decide (c = 0%nat)) as [->|Hne].
  { destruct (hw_root h Hwf) as (r & Hr & Hpr & _). simplify_eq. }
  destruct (hw_up h Hwf c m Hm Hne) as (p & q & Hp' & ? & _). by simplify_eq.
Qed.

Lemma add_child_wf self tok prob h :
  heap_wf h → (self < length h)%nat → heap_wf (add_child self tok prob h).1.
Proof.
  intros Hwf Hs. pose proof (add_child_lookup self tok prob h) as L.
  destruct (lookup_lt_is_Some_2 h self Hs) as [sd Hsn].
  assert (0 < length h)%nat by lia. split.
  - destruct (hw_root h Hwf) as (r & Hr & Hpr & Hd). rewrite L by done.
    rewrite decide_False by lia. case_decide; [|by exists r]. rewrite Hr. simpl. by eexists.
  - intros i n. rewrite L by done. repeat case_decide; subst.
    + intros [= <-] _. exists self, (set_children (children (h !!! self) ++ [length h]) (h !!! self)).
      simpl. split; [done|]. split; [lia|]. rewrite L by done.
      rewrite decide_False, decide_True, Hsn by lia. rewrite (total_lookup h self sd Hsn). simpl. split; [done|].
      split; [|done]. apply elem_of_app. right. by left.
    + rewrite Hsn. intros [= <-] Hne. destruct (hw_up h Hwf self sd Hsn Hne) as (p & q & Hp & Hlt & Hq & Hin & Hd).
      exists p, q. rewrite L by done. rewrite !decide_False by lia. done.
    + intros Hi Hne. destruct (hw_up h Hwf i n Hi Hne) as (p & q & Hp & Hlt & Hq & Hin & Hd).
      apply lookup_lt_Some in Hi as ?. rewrite <- (total_lookup _ _ _ Hq) in *.
      destruct (decide (p = self)) as [->|].
      * exists self, (set_children (children sd ++ [length h]) sd).
        rewrite L by done. rewrite decide_False, decide_True, Hsn by lia. simpl.
        rewrite (total_lookup _ _ _ Hsn) in *. repeat split; try done. apply elem_of_app. by left.
      * exists p, (h !!! p). rewrite L by done. rewrite !decide_False by lia.
        repeat split; try done. by rewrite <- (total_lookup _ _ _ Hq) in Hq.
  - intros i n c. rewrite L by done. repeat case_decide; subst.
    + intros [= <-]. simpl. by intros ?%not_elem_of_nil.
    + rewrite Hsn. intros [= <-]. simpl. rewrite elem_of_app, list_elem_of_singleton. intros [Hc| ->].
      * destruct (hw_down h Hwf self sd c Hsn Hc) as (m & Hm & Hp).
        pose proof (down_lt h self sd c Hwf Hsn Hc). exists m. rewrite L by done. by rewrite !decide_False by lia.
      * eexists. rewrite L by done. by rewrite decide_True.
    + intros Hi Hc. destruct (hw_down h Hwf i n c Hi Hc) as (m & Hm & Hp).
      pose proof (down_lt h i n c Hwf Hi Hc). rewrite L by done. rewrite decide_False by lia.
      case_decide; [subst; rewrite Hm; simpl; by eexists|by exists m].
  - intros i n. rewrite L by done. repeat case_decide; subst.
    + intros [= <-]. simpl. apply NoDup_nil_2.
    + rewrite Hsn. intros [= <-]. simpl. apply NoDup_app. split; [by eapply hw_nodup|].
      split; [|apply NoDup_singleton]. intros c Hc ->%list_elem_of_singleton.
      pose proof (down_lt h self sd _ Hwf Hsn Hc). lia.
    + intros Hi. by eapply hw_nodup.
Qed.

(** ** Growing a layer *)

(** What a run of [add_child]s leaves: a well-formed longer heap whose old nodes keep
    token, depth and parent, the new ones are [new]. *)
Record extends (h h' : heap) (new : list nat) : Prop := mkExtends {
  ex_wf : heap_wf h';
  ex_new : new = seq (length h) (length h' - length h);
  ex_len : (length h ≤ length h')%nat;
  ex_old i n : h !! i = Some n → ∃ n', h' !! i = Some n' ∧ token_id n' = token_id n ∧
    probability n' = probability n ∧ depth n' = depth n ∧ parent n' = parent n ∧
    children n `prefix_of` children n';
}.

Lemma extends_refl h : heap_wf h → extends h h [].
Proof.
  intros Hwf. split; [done|by rewrite Nat.sub_diag|done|]. intros i n Hn. exists n.
  repeat split; done.
Qed.

Lemma extends_trans h1 h2 h3 l1 l2 : extends h1 h2 l1 → extends h2 h3 l2 → extends h1 h3 (l1 ++ l2).
Proof.
  intros [H1 -> L1 O1] [H2 -> L2 O2]. split; [done| |lia|].
  - replace (length h3 - length h1)%nat with ((length h2 - length h1) + (length h3 - length h2))%nat by lia.
    rewrite seq_app. do 2 f_equal. lia.
  - intros i n (n2 & Hn2 & ? & ? & ? & ? & Hp)%O1. destruct (O2 i n2 Hn2) as (n3 & Hn3 & ? & ? & ? & ? & Hp').
    exists n3. repeat split; try congruence. by etrans.
Qed.

Lemma add_child_extends self tok prob h : heap_wf h → (self < length h)%nat →
  extends h (add_child self tok prob h).1 [(add_child self tok prob h).2].
Proof.
  intros Hwf Hs. destruct (add_child_length self tok prob h) as [Hl Hi]. split.
  - by apply add_child_wf.
  - rewrite Hl, Hi, Nat.sub_succ_l, Nat.sub_diag by lia. done.
  - lia.
  - intros i n Hn. apply lookup_lt_Some in Hn as ?. rewrite add_child_lookup by done.
    rewrite decide_False by lia. case_decide; rewrite Hn; simpl; eexists; (split; [done|]); simpl;
      repeat split; try done. by apply prefix_app_r.
Qed.

Lemma add_children_extends self cands h : heap_wf h → (self < length h)%nat →
  extends h (add_children self cands h).1 (add_children self cands h).2 ∧
  length (add_children self cands h).2 = length cands.
Proof.
  revert h. induction cands as [|[tok prob] cands IH]; intros h Hwf Hs; cbn [add_children]; [split; [by apply extends_refl|done]|].
  pose proof (add_child_extends self tok prob h Hwf Hs) as He.
  destruct (add_child self tok prob h) as [h1 c]. cbn [fst snd] in He.
  destruct (IH h1) as [He2 Hl]; [apply He|pose proof (ex_len _ _ _ He); lia|].
  destruct (add_children self cands h1) as [h2 cs]. simpl in *.
  split; [exact (extends_trans _ _ _ _ _ He He2)|lia].
Qed.

Lemma grow_extends layer h : heap_wf h → Forall (λ pc, (pc.1 < length h)%nat) layer →
  extends h (grow layer h).1 (grow layer h).2.
Proof.
  revert h. induction layer as [|[p cands] layer IH]; intros h Hwf HF; simpl; [by apply extends_refl|].
  apply Forall_cons in HF as [Hp HF]. simpl in Hp.
  destruct (add_children_extends p cands h Hwf Hp) as [He _].
  destruct (add_children p cands h) as [h1 cs]. simpl in He.
  assert (Forall (λ pc, (pc.1 < length h1)%nat) layer) as HF'.
  { eapply Forall_impl; [done|]. simpl. intros. pose proof (ex_len _ _ _ He). lia. }
  pose proof (IH h1 (ex_wf _ _ _ He) HF') as He2.
  destruct (grow layer h1) as [h2 cs']. simpl in *. exact (extends_trans _ _ _ _ _ He He2).
Qed.

Lemma new_tree_wf tok rid : tree_wf (new_tree tok rid).
Proof.
  split; simpl; [split| | |].
  - by eexists.
  - intros [|i] n; simpl; [done|by rewrite lookup_nil].
  - intros [|i] n c; simpl; [|by rewrite lookup_nil]. intros [= <-]. simpl. by intros ?%not_elem_of_nil.
  - intros [|i] n; simpl; [|by rewrite lookup_nil]. intros [= <-]. apply NoDup_nil_2.
  - done.
  - intros [|i] n; simpl; [|by rewrite lookup_nil]. by intros [= <-].
  - by exists 0%nat, (mkNode tok float_one 0 [] None (-1)).
Qed.

Lemma foldl_max_spec {A} (f : A → Z) l m :
  (∀ x, x ∈ l → f x ≤ foldl (λ m i, Z.max m (f i)) m l) ∧ m ≤ foldl (λ m i, Z.max m (f i)) m l ∧
  (foldl (λ m i, Z.max m (f i)) m l = m ∨ ∃ x, x ∈ l ∧ foldl (λ m i, Z.max m (f i)) m l = f x).
Proof.
  revert m. induction l as [|y l IH]; intros m; simpl.
  - split; [by intros ? ?%not_elem_of_nil|]. split; [lia|by left].
  - destruct (IH (Z.max m (f y))) as (H1 & H2 & H3). split; [|split].
    + intros x [->|Hx]%elem_of_cons; [lia|by apply H1].
    + lia.
    + destruct H3 as [->|(x & Hx & ->)]; [|right; exists x; split; [by right|done]].
      destruct (Z.max_spec m (f y)) as [[_ ->]|[_ ->]]; [right; exists y; split; [by left|done]|by left].
Qed.

Lemma zip_fst_Forall {A B} (P : A → Prop) (l : list A) (k : list B) :
  Forall P l → Forall (λ x, P x.1) (zip l k).
Proof. intros HF. revert k. induction HF; intros [|y k]; simpl; constructor; auto. Qed.

Lemma add_layer_wf ps cands t :
  tree_wf t → Forall (λ p, (p < length (nodes t))%nat) ps → tree_wf (fst (add_layer ps cands t)).
Proof.
  intros [Hh Ht Hle Hmax] HF. unfold add_layer. destruct (_ =? _)%nat; [|done].
  pose proof (grow_extends (zip ps cands) (nodes t) Hh (zip_fst_Forall _ _ _ HF)) as He.
  destruct (grow (zip ps cands) (nodes t)) as [h new]. simpl in He. destruct He as [Hwf Hnew Hlen Hold].
  destruct new as [|n ns]; simpl.
  - assert (length h = length (nodes t)) as Hl.
    { apply (f_equal length) in Hnew. rewrite length_seq in Hnew. simpl in Hnew. lia. }
    split; simpl; [done|unfold zlen in *; lia| |].
    + intros i m Hm. destruct (lookup_lt_is_Some_2 (nodes t) i) as [m' Hm']; [apply lookup_lt_Some in Hm; lia|].
      destruct (Hold i m' Hm') as (m2 & Hm2 & _ & _ & Hd & _). simplify_eq. rewrite Hd. by eapply Hle.
    + destruct Hmax as (i & m & Hm & Hd). destruct (Hold i m Hm) as (m2 & ? & _ & _ & Hd' & _).
      exists i, m2. split; [done|lia].
  - set (D := foldl _ _ _).
    destruct (foldl_max_spec (λ i, depth (h !!! i)) ns (depth (h !!! n))) as (H1 & H2 & H3). fold D in H1, H2, H3.
    assert (∀ i, i ∈ n :: ns ↔ length (nodes t) ≤ i < length h)%nat as Hin.
    { intros i. rewrite Hnew, elem_of_seq. lia. }
    split; simpl; [done| | |].
    + rewrite Ht. apply (f_equal length) in Hnew. rewrite length_seq in Hnew. simpl in Hnew. unfold zlen. simpl. lia.
    + intros i m Hm. destruct (decide (i < length (nodes t))%nat) as [Hi|Hi].
      * destruct (lookup_lt_is_Some_2 (nodes t) i Hi) as [m' Hm'].
        destruct (Hold i m' Hm') as (m2 & Hm2 & _ & _ & Hd & _). simplify_eq. rewrite Hd. specialize (Hle i m' Hm'). lia.
      * assert (i ∈ n :: ns) as Hii by (apply Hin; apply lookup_lt_Some in Hm; lia).
        apply elem_of_cons in Hii as [->|Hii]; [|specialize (H1 i Hii); simpl in H1];
          rewrite (total_lookup _ _ _ Hm) in *; lia.
    + destruct (Z.max_spec (max_depth t) D) as [[Hlt ->]|[Hge ->]].
      * assert (∃ i, i ∈ n :: ns ∧ D = depth (h !!! i)) as (i & Hi & HD).
        { destruct H3 as [->|(x & Hx & ->)]; [exists n; split; [by left|done]|exists x; split; [by right|done]]. }
        apply Hin in Hi. destruct (lookup_lt_is_Some_2 h i) as [m Hm]; [lia|].
        exists i, m. by rewrite HD, (total_lookup _ _ _ Hm).
      * destruct Hmax as (i & m & Hm & Hd). destruct (Hold i m Hm) as (m2 & ? & _ & _ & Hd' & _).
        exists i, m2. split; [done|lia].
Qed.

(** ** Depth-first order *)

Section preorder.
Context (h : heap) (Hwf : heap_wf h).

Lemma pstep_lt i p : pstep h i p → (p < i < length h)%nat ∧ i ∈ children (h !!! p).
Proof.
  intros (n & Hn & Hp). apply lookup_lt_Some in Hn as Hlt.
  destruct (decide (i = 0%nat)) as [->|Hne].
  { destruct (hw_root h Hwf) as (r & Hr & Hpr & _). by simplify_eq. }
  destruct (hw_up h Hwf i n Hn Hne) as (p' & q & ? & ? & Hq & Hin & _). simplify_eq.
  split; [lia|]. by rewrite (total_lookup _ _ _ Hq).
Qed.

Lemma pstep_inj i p q : pstep h i p → pstep h i q → p = q.
Proof. intros (n & ? & ?) (m & ? & ?). congruence. Qed.

Lemma child_pstep n c : (n < length h)%nat → c ∈ children (h !!! n) → pstep h c n.
Proof.
  intros Hn Hc. destruct (lookup_lt_is_Some_2 h n Hn) as [m Hm]. rewrite (total_lookup _ _ _ Hm) in Hc.
  destruct (hw_down h Hwf n m c Hm Hc) as (m' & ? & ?). by exists m'.
Qed.

Lemma parent_pstep n p : (n < length h)%nat → parent (h !!! n) = Some p → pstep h n p.
Proof. intros [m Hm]%lookup_lt_is_Some_2. rewrite (total_lookup _ _ _ Hm). by exists m. Qed.

Lemma children_NoDup n : (n < length h)%nat → NoDup (children (h !!! n)).
Proof.
  intros [m Hm]%lookup_lt_is_Some_2. rewrite (total_lookup _ _ _ Hm). by eapply hw_nodup.
Qed.

Lemma anc_le i n : anc h i n → (n ≤ i)%nat.
Proof. induction 1 as [|i p n Hs _ IH]; [lia|]. apply pstep_lt in Hs. lia. Qed.

Lemma anc_root i : (i < length h)%nat → anc h i 0.
Proof.
  induction i as [i IH] using lt_wf_ind. intros Hi. destruct (decide (i = 0%nat)) as [->|Hne]; [apply rtc_refl|].
  destruct (lookup_lt_is_Some_2 h i Hi) as [n Hn].
  destruct (hw_up h Hwf i n Hn Hne) as (p & q & Hp & Hlt & _).
  eapply rtc_l; [by exists n|]. apply IH; lia.
Qed.

Lemma anc_linear i a b : anc h i a → anc h i b → anc h a b ∨ anc h b a.
Proof.
  intros Ha. revert b. induction Ha as [|i p a Hs Ha IH]; intros b Hb; [by left|].
  inversion Hb as [|? p' ? Hs' Hb']; subst.
  - right. by eapply rtc_l.
  - rewrite (pstep_inj _ _ _ Hs' Hs) in Hb'. by apply IH.
Qed.

Lemma preorder_sound f n i : (n < length h)%nat → i ∈ preorder f h n → anc h i n ∧ (i < length h)%nat.
Proof.
  revert n. induction f as [|f IH]; intros n Hn; simpl; [by intros ?%not_elem_of_nil|].
  rewrite elem_of_cons, list_elem_of_join. intros [->|(l & Hi & Hl)]; [split; [apply rtc_refl|done]|].
  apply list_elem_of_fmap in Hl as (c & -> & Hc). apply child_pstep in Hc as Hs; [|done].
  destruct (IH c) as [Ha Hlt]; [apply pstep_lt in Hs; lia|done|]. split; [|done].
  eapply rtc_r; [exact Ha|done].
Qed.

Lemma preorder_complete f n i : anc h i n → (i - n < f)%nat → i ∈ preorder f h n.
Proof.
  revert n. induction f as [|f IH]; intros n Ha Hf; [lia|]. simpl. rewrite elem_of_cons, list_elem_of_join.
  apply rtc_inv_r in Ha as [->|(c & Hc & Hs)]; [by left|right].
  apply pstep_lt in Hs as ?. apply anc_le in Hc as ?.
  exists (preorder f h c). split; [apply IH; [done|lia]|]. apply list_elem_of_fmap. exists c. split; [done|].
  by apply pstep_lt.
Qed.

Lemma NoDup_join {A B} (g : A → list B) (l : list A) :
  NoDup l → (∀ x, x ∈ l → NoDup (g x)) → (∀ x y b, x ∈ l → y ∈ l → b ∈ g x → b ∈ g y → x = y) →
  NoDup (mjoin (g <$> l)).
Proof.
  induction 1 as [|x l Hx Hl IH]; intros Hnd Hd; simpl; [apply NoDup_nil_2|].
  apply NoDup_app. split; [apply Hnd; by left|]. split.
  - intros b Hb Hb'. apply list_elem_of_join in Hb' as (k & Hbk & Hk).
    apply list_elem_of_fmap in Hk as (y & -> & Hy). apply Hx.
    rewrite (Hd x y b); [done|by left|by right|done|done].
  - apply IH; [intros; apply Hnd; by right|]. intros y z b Hy Hz. apply Hd; by right.
Qed.

Lemma preorder_NoDup f n : (n < length h)%nat → NoDup (preorder f h n).
Proof.
  revert n. induction f as [|f IH]; intros n Hn; simpl; [apply NoDup_nil_2|].
  apply NoDup_cons. split.
  - intros Hin. apply list_elem_of_join in Hin as (l & Hi & Hl).
    apply list_elem_of_fmap in Hl as (c & -> & Hc). apply child_pstep, pstep_lt in Hc as [? _]; [|done].
    apply preorder_sound in Hi as [?%anc_le _]; lia.
  - apply NoDup_join; [by apply children_NoDup| |].
    + intros c Hc. apply IH. apply child_pstep, pstep_lt in Hc as [? _]; lia.
    + intros c d i Hc Hd Hi1 Hi2. apply child_pstep in Hc as Hsc; [|done]. apply child_pstep in Hd as Hsd; [|done].
      pose proof (pstep_lt _ _ Hsc) as [? _]. pose proof (pstep_lt _ _ Hsd) as [? _].
      apply preorder_sound in Hi1 as [H1 _]; [|lia]. apply preorder_sound in Hi2 as [H2 _]; [|lia].
      assert (∀ a b, pstep h a n → pstep h b n → anc h a b → a = b) as Hab.
      { intros a b Ha Hb Hanc. inversion Hanc as [|? p ? Hs Hr]; subst; [done|].
        rewrite (pstep_inj _ _ _ Hs Ha) in Hr. apply anc_le in Hr. apply pstep_lt in Hb. lia. }
      destruct (anc_linear i c d H1 H2); [by apply Hab|symmetry; by apply Hab].
Qed.

Lemma preorder_all i : i ∈ preorder (length h) h 0 ↔ (i < length h)%nat.
Proof.
  destruct (hw_root h Hwf) as (r & Hr & _). apply lookup_lt_Some in Hr. split.
  - by intros [_ ?]%preorder_sound.
  - intros Hi. apply preorder_complete; [by apply anc_root|lia].
Qed.

(** ** Depths, paths and leaves *)

Lemma climb_fuel f g n : (n < f)%nat → (n < g)%nat → (n < length h)%nat → climb f h n = climb g h n.
Proof.
  revert g n. induction f as [|f IH]; intros g n Hf Hg Hn; [lia|]. destruct g as [|g]; [lia|]. simpl.
  destruct (parent (h !!! n)) as [p|] eqn:Hp; [|done].
  assert (pstep h n p) as Hs%pstep_lt by (apply parent_pstep; [lia|done]).
  f_equal. apply IH; lia.
Qed.

Lemma path_unfold n : (n < length h)%nat →
  get_path_nodes_from_root h n =
    match parent (h !!! n) with Some p => get_path_nodes_from_root h p ++ [n] | None => [] end.
Proof.
  intros Hn. unfold get_path_nodes_from_root. destruct (length h) as [|f] eqn:Hf; [lia|]. simpl.
  destruct (parent (h !!! n)) as [p|] eqn:Hp; [|done]. rewrite reverse_cons. do 2 f_equal.
  assert (pstep h n p) as Hs%pstep_lt by (apply parent_pstep; [lia|done]).
  change (climb f h p = climb (S f) h p). apply climb_fuel; lia.
Qed.

Lemma depth_up i p : pstep h i p → depth (h !!! i) = depth (h !!! p) + 1.
Proof.
  intros Hs. pose proof (pstep_lt _ _ Hs) as [? _]. destruct Hs as (n & Hn & Hp).
  destruct (hw_up h Hwf i n Hn) as (p' & q & ? & ? & Hq & _ & Hd); [lia|]. simplify_eq.
  by rewrite (total_lookup _ _ _ Hn), (total_lookup _ _ _ Hq).
Qed.

Lemma root_depth : depth (h !!! 0%nat) = 0 ∧ parent (h !!! 0%nat) = None.
Proof. destruct (hw_root h Hwf) as (r & Hr & ? & ?). by rewrite (total_lookup _ _ _ Hr). Qed.

Lemma up_pstep n : (n < length h)%nat → n ≠ 0%nat → ∃ p, parent (h !!! n) = Some p ∧ pstep h n p.
Proof.
  intros [m Hm]%lookup_lt_is_Some_2 Hne. destruct (hw_up h Hwf n m Hm Hne) as (p & q & Hp & _).
  exists p. rewrite (total_lookup _ _ _ Hm). split; [done|by exists m].
Qed.

Lemma path_length n : (n < length h)%nat → zlen (get_path_nodes_from_root h n) = depth (h !!! n).
Proof.
  induction n as [n IH] using lt_wf_ind. intros Hn. rewrite path_unfold by done.
  destruct (decide (n = 0%nat)) as [->|Hne].
  { destruct root_depth as [Hd Hp]. by rewrite Hp, Hd. }
  destruct (up_pstep n Hn Hne) as (p & Hp & Hs). rewrite Hp, zlen_app, (depth_up _ _ Hs).
  pose proof (pstep_lt _ _ Hs) as [? _]. rewrite IH by lia. done.
Qed.

Lemma anc_depth i n : anc h i n → depth (h !!! n) ≤ depth (h !!! i) ∧ (depth (h !!! n) = depth (h !!! i) → i = n).
Proof.
  induction 1 as [|i p n Hs _ [IH1 IH2]]; [done|]. apply depth_up in Hs. split; [lia|]. intros; lia.
Qed.

Lemma filter_join {A} (P : A → Prop) `{∀ x, Decision (P x)} (ls : list (list A)) :
  filter P (mjoin ls) = mjoin (filter P <$> ls).
Proof. induction ls as [|l ls IH]; simpl; [done|]. by rewrite filter_app, IH. Qed.

Lemma fmap_join {A B} (f : A → B) (ls : list (list A)) : f <$> mjoin ls = mjoin (fmap f <$> ls).
Proof. induction ls as [|l ls IH]; simpl; [done|]. by rewrite fmap_app, IH. Qed.

Lemma nodes_at_filter f d n : (n < length h)%nat →
  nodes_at f h d (depth (h !!! n)) n = filter (λ i, depth (h !!! i) = d) (preorder f h n).
Proof.
  revert n. induction f as [|f IH]; intros n Hn; simpl; [done|]. rewrite filter_cons, filter_join.
  assert (∀ c, c ∈ children (h !!! n) →
    nodes_at f h d (depth (h !!! n) + 1) c = filter (λ i, depth (h !!! i) = d) (preorder f h c)) as Hch.
  { intros c Hc%child_pstep; [|done]. rewrite <- (depth_up c n Hc). apply IH. apply pstep_lt in Hc. lia. }
  assert (d ≤ depth (h !!! n) → mjoin (filter (λ i, depth (h !!! i) = d) <$> (preorder f h <$> children (h !!! n))) = []) as Hnil.
  { intros Hd. rewrite <- filter_join. apply filter_empty, Forall_forall. intros i Hi Hdi.
    apply list_elem_of_join in Hi as (l & Hi & Hl). apply list_elem_of_fmap in Hl as (c & -> & Hc).
    apply child_pstep in Hc; [|done]. apply preorder_sound in Hi as [[? _]%anc_depth _]; [|apply pstep_lt in Hc; lia].
    apply depth_up in Hc. lia. }
  case_decide as Hd.
  - rewrite (proj2 (Z.eqb_eq _ _) Hd), Hnil by lia. done.
  - rewrite (proj2 (Z.eqb_neq _ _) Hd). destruct (Z.ltb_spec (depth (h !!! n)) d); [|by rewrite Hnil by lia].
    f_equal. rewrite <- list_fmap_compose. apply Forall_fmap_ext_1, Forall_forall. exact Hch.
Qed.

Lemma leaf_paths_filter f n :
  leaf_node_paths f h n = get_path_nodes_from_root h <$> filter (λ i, children (h !!! i) = []) (preorder f h n) ∧
  leaf_paths f h n = get_path_from_root h <$> filter (λ i, children (h !!! i) = []) (preorder f h n).
Proof.
  revert n. induction f as [|f IH]; intros n; simpl; [done|]. unfold is_leaf. rewrite filter_cons, filter_join.
  destruct (children (h !!! n)) as [|c cs] eqn:Hc; simpl; [done|].
  rewrite !fmap_app, !fmap_join. destruct (IH c) as [-> ->].
  split; f_equal; rewrite <- !list_fmap_compose; f_equal; apply list_fmap_ext; intros; apply IH.
Qed.
End preorder.

(** ** Linearisation *)

Definition strip (h : heap) : heap := set_position 0 <$> h.

Lemma strip_lookup h h' i : strip h = strip h' → set_position 0 <$> h !! i = set_position 0 <$> h' !! i.
Proof. unfold strip. intros E. by rewrite <- !list_lookup_fmap, E. Qed.

Lemma strip_total h h' i : strip h = strip h' →
  token_id (h !!! i) = token_id (h' !!! i) ∧ depth (h !!! i) = depth (h' !!! i) ∧
  children (h !!! i) = children (h' !!! i) ∧ parent (h !!! i) = parent (h' !!! i).
Proof.
  intros E. pose proof (strip_lookup h h' i E) as L. rewrite !list_lookup_total_alt.
  destruct (h !! i) as [n|], (h' !! i) as [n'|]; simpl in L; try done. unfold set_position in L. by simplify_eq/=.
Qed.

Lemma strip_length h h' : strip h = strip h' → length h = length h'.
Proof. intros E%(f_equal length). unfold strip in E. by rewrite !length_fmap in E. Qed.

Lemma strip_some h h' i n : strip h = strip h' → h !! i = Some n →
  ∃ n', h' !! i = Some n' ∧ token_id n' = token_id n ∧ depth n' = depth n ∧ children n' = children n ∧
    parent n' = parent n.
Proof.
  intros E Hn. pose proof (strip_lookup h h' i E) as L. rewrite Hn in L.
  destruct (h' !! i) as [n'|]; simpl in L; [|done]. exists n'. unfold set_position in L. by simplify_eq/=.
Qed.

Lemma strip_heap_wf h h' : strip h = strip h' → heap_wf h → heap_wf h'.
Proof.
  intros E [Hr Hu Hd Hn]. pose proof (λ i n, strip_some h' h i n (eq_sym E)) as B.
  pose proof (λ i n, strip_some h h' i n E) as F. split.
  - destruct Hr as (r & Hr & Hp & Hdp). destruct (F _ _ Hr) as (r' & Hr' & _ & Hd' & _ & Hp').
    exists r'. split; [done|]. split; congruence.
  - intros i n Hi Hne. destruct (B _ _ Hi) as (n0 & Hi0 & _ & Hd0 & _ & Hp0).
    destruct (Hu i n0 Hi0 Hne) as (p & q & Hp & Hlt & Hq & Hin & Hdq).
    destruct (F _ _ Hq) as (q' & Hq' & _ & Hdq' & Hcq' & _). exists p, q'.
    split; [congruence|]. split; [done|]. split; [done|]. rewrite Hcq'. split; [done|lia].
  - intros i n c Hi Hc. destruct (B _ _ Hi) as (n0 & Hi0 & _ & _ & Hc0 & _). rewrite <- Hc0 in Hc.
    destruct (Hd i n0 c Hi0 Hc) as (m & Hm & Hpm). destruct (F _ _ Hm) as (m' & Hm' & _ & _ & _ & Hp').
    exists m'. split; [done|congruence].
  - intros i n Hi. destruct (B _ _ Hi) as (n0 & Hi0 & _ & _ & Hc0 & _). rewrite <- Hc0. by eapply Hn.
Qed.

Definition pos_map (l : list nat) : dict nat Z := imap (λ k n, (n, Z.of_nat k)) l.

Lemma pos_map_keys l : dict_keys (pos_map l) = l.
Proof.
  unfold dict_keys, pos_map. rewrite fmap_imap. apply list_eq. intros i. rewrite list_lookup_imap.
  by destruct (l !! i).
Qed.

Lemma pos_map_get l k n : NoDup l → l !! k = Some n → dict_get (pos_map l) n = Some (Z.of_nat k).
Proof.
  intros Hnd Hk. apply dict_get_elem; [unfold dict_wf; by rewrite pos_map_keys|].
  apply list_elem_of_lookup. exists k. unfold pos_map. by rewrite list_lookup_imap, Hk.
Qed.

Lemma pos_map_None l n : n ∉ l → dict_get (pos_map l) n = None.
Proof. intros. apply dict_get_None. by rewrite pos_map_keys. Qed.

(** The [k]-th parent index: the parent's position, which is smaller, or -1 for the root. *)
Definition parent_index_ok (h : heap) (lin : list nat) (parents : list Z) (k n : nat) : Prop :=
  ∃ p, parent (h !!! n) = Some p ∧
    ((p = 0%nat ∧ parents !! k = Some (-1)) ∨
     ∃ j, (j < k)%nat ∧ lin !! j = Some p ∧ parents !! k = Some (Z.of_nat j)).

Record lin_ok (h0 : heap) (st : lin_state) : Prop := mkLinOk {
  lo_heap : strip (lin_heap st) = strip h0;
  lo_pm : position_map st = pos_map (linearized_nodes st);
  lo_len : length (parent_indices st) = length (linearized_nodes st);
  lo_par k n : linearized_nodes st !! k = Some n →
    (n < length h0)%nat ∧ parent_index_ok h0 (linearized_nodes st) (parent_indices st) k n;
  lo_pos k n : linearized_nodes st !! k = Some n → position_in_sequence (lin_heap st !!! n) = Z.of_nat k;
}.

Section linearize.
Context (h0 : heap) (Hwf : heap_wf h0).
Implicit Types st : lin_state.

Definition has_parent_in (lin : list nat) (n : nat) : Prop :=
  ∃ p, parent (h0 !!! n) = Some p ∧ (p = 0%nat ∨ p ∈ lin).

Lemma alter_total (f : TreeNode → TreeNode) (h : heap) (i j : nat) : (i < length h)%nat →
  alter f i h !!! j = if decide (i = j) then f (h !!! j) else h !!! j.
Proof.
  intros [m Hm]%lookup_lt_is_Some_2. rewrite !list_lookup_total_alt. case_decide; subst.
  - by rewrite list_lookup_alter_eq, Hm.
  - by rewrite list_lookup_alter_ne.
Qed.

Lemma visit_ok st n p :
  lin_ok h0 st → NoDup (linearized_nodes st ++ [n]) → 0%nat ∉ linearized_nodes st ++ [n] → (n < length h0)%nat →
  parent (h0 !!! n) = Some p → (p = 0%nat ∨ p ∈ linearized_nodes st) → lin_ok h0 (visit n p st).
Proof.
  intros [Hh Hpm Hlen Hpar Hpos] Hnd H0 Hn Hp Hin.
  assert (n ∉ linearized_nodes st) as Hnew.
  { apply NoDup_app in Hnd as (_ & Hd & _). intros Hin'. apply (Hd n Hin'). by left. }
  assert (dict_set (position_map st) n (zlen (linearized_nodes st)) = pos_map (linearized_nodes st ++ [n])) as Hset.
  { rewrite Hpm, dict_set_new by (by apply pos_map_None). unfold pos_map. rewrite imap_app. simpl.
    by rewrite Nat.add_0_r. }
  pose proof (strip_length _ _ Hh) as Hl. unfold visit. rewrite Hset. split; simpl.
  - rewrite <- Hh. unfold strip. apply list_eq. intros i. rewrite !list_lookup_fmap.
    destruct (decide (n = i)) as [->|]; [|by rewrite list_lookup_alter_ne].
    rewrite list_lookup_alter_eq. by destruct (lin_heap st !! i).
  - done.
  - rewrite !length_app. simpl. lia.
  - intros k m [Hk|[Hge Hk]]%lookup_app_Some.
    + destruct (Hpar k m Hk) as (? & q & Hq & Hor). split; [done|]. exists q. split; [done|].
      apply lookup_lt_Some in Hk. destruct Hor as [[? Hpi]|(j & Hj & Hlj & Hpi)]; [left|right; exists j];
        repeat split; try done; apply lookup_app_l_Some; done.
    + apply list_lookup_singleton_Some in Hk as [Hk <-]. split; [done|]. exists p. split; [done|].
      rewrite lookup_app_r by lia. rewrite Hlen, Hk. simpl.
      destruct (decide (p ∈ linearized_nodes st)) as [Hpi|Hpi].
      * right. apply list_elem_of_lookup in Hpi as [j Hj]. exists j. apply lookup_lt_Some in Hj as ?.
        rewrite (pos_map_get _ j p); [|done|by apply lookup_app_l_Some].
        split; [lia|]. split; [by apply lookup_app_l_Some|done].
      * left. destruct Hin as [->|?]; [|done]. split; [done|]. by rewrite pos_map_None.
  - intros k m [Hk|[Hge Hk]]%lookup_app_Some; rewrite alter_total by lia.
    + rewrite decide_False; [by apply Hpos|]. intros ->. apply Hnew. apply list_elem_of_lookup. eauto.
    + apply list_lookup_singleton_Some in Hk as [Hk <-]. rewrite decide_True by done. simpl. unfold zlen. lia.
Qed.

Lemma preorder_pos f n i : n ≠ 0%nat → (n < length h0)%nat → i ∈ preorder f h0 n → i ≠ 0%nat.
Proof. intros Hne Hn [Ha%anc_le _]%preorder_sound; [lia|done..]. Qed.

Lemma dfs_fold_ok f cs st :
  (∀ n st, n ≠ 0%nat → (n < length h0)%nat → lin_ok h0 st → 0%nat ∉ linearized_nodes st →
     NoDup (linearized_nodes st ++ preorder f h0 n) → has_parent_in (linearized_nodes st) n →
     lin_ok h0 (dfs_with_positions f n st) ∧
     linearized_nodes (dfs_with_positions f n st) = linearized_nodes st ++ preorder f h0 n) →
  lin_ok h0 st → 0%nat ∉ linearized_nodes st →
  NoDup (linearized_nodes st ++ mjoin (preorder f h0 <$> cs)) →
  (∀ c, c ∈ cs → c ≠ 0%nat ∧ (c < length h0)%nat ∧ has_parent_in (linearized_nodes st) c) →
  let st' := foldl (λ st c, dfs_with_positions f c st) st cs in
  lin_ok h0 st' ∧ linearized_nodes st' = linearized_nodes st ++ mjoin (preorder f h0 <$> cs).
Proof.
  intros IH. revert st. induction cs as [|c cs IHcs]; intros st Hok H0 Hnd Hcs; simpl.
  { by rewrite app_nil_r. }
  destruct (Hcs c) as (Hc0 & Hcl & Hcp); [by left|]. simpl in Hnd. rewrite (assoc_L (++)) in Hnd.
  destruct (IH c st) as [Hok' Hl']; [done|done|done|done|by apply NoDup_app in Hnd as (? & _)|done|].
  destruct (IHcs (dfs_with_positions f c st)) as [Hok2 Hl2].
  - done.
  - rewrite Hl', elem_of_app. intros [?|Hi]; [done|]. by eapply preorder_pos in Hi.
  - by rewrite Hl'.
  - intros d Hd. destruct (Hcs d) as (? & ? & p & Hp & Hor); [by right|]. repeat split; [done..|].
    exists p. split; [done|]. rewrite Hl', elem_of_app. destruct Hor; [by left|right; by left].
  - split; [done|]. by rewrite Hl2, Hl', (assoc_L (++)).
Qed.

Lemma dfs_ok f n st :
  n ≠ 0%nat → (n < length h0)%nat → lin_ok h0 st → 0%nat ∉ linearized_nodes st →
  NoDup (linearized_nodes st ++ preorder f h0 n) → has_parent_in (linearized_nodes st) n →
  lin_ok h0 (dfs_with_positions f n st) ∧
  linearized_nodes (dfs_with_positions f n st) = linearized_nodes st ++ preorder f h0 n.
Proof.
  revert n st. induction f as [|f IH]; intros n st Hne Hn Hok H0 Hnd (p & Hp & Hin); cbn [dfs_with_positions preorder].
  { by rewrite app_nil_r. }
  destruct (strip_total _ _ n (lo_heap _ _ Hok)) as (_ & _ & _ & ->). rewrite Hp.
  cbn [preorder] in Hnd. rewrite cons_middle, (assoc_L (++)) in Hnd.
  assert (lin_ok h0 (visit n p st)) as Hv.
  { apply visit_ok; [done|by apply NoDup_app in Hnd as (? & _)| |done..].
    rewrite elem_of_app, list_elem_of_singleton. intros [?|?]; [done|congruence]. }
  destruct (strip_total _ _ n (lo_heap _ _ Hv)) as (_ & _ & -> & _).
  destruct (dfs_fold_ok f (children (h0 !!! n)) (visit n p st)) as [Hok' Hl']; [exact IH|done| |done| |].
  - simpl. rewrite elem_of_app, list_elem_of_singleton. intros [?|?]; [done|congruence].
  - intros c Hc%child_pstep; [|done..]. pose proof (pstep_lt _ Hwf _ _ Hc) as [? _].
    split; [lia|]. split; [lia|]. exists n. split.
    + destruct Hc as (m & Hm & ?). by rewrite (total_lookup _ _ _ Hm).
    + right. simpl. apply elem_of_app. right. by left.
  - split; [done|]. rewrite Hl'. simpl. by rewrite <- (assoc_L (++)).
Qed.

Lemma linearize_ok :
  let st := dfs_with_positions (length h0) 0 (mkLin h0 [] [] []) in
  lin_ok h0 st ∧ 0%nat :: linearized_nodes st = preorder (length h0) h0 0.
Proof.
  pose proof (preorder_NoDup h0 Hwf (length h0) 0) as Hnd.
  destruct (hw_root h0 Hwf) as (r & Hr & Hp & _). apply lookup_lt_Some in Hr as Hlt.
  destruct (length h0) as [|f] eqn:Hf; [lia|]. cbn [dfs_with_positions preorder lin_heap] in *.
  rewrite (total_lookup _ _ _ Hr), Hp. cbn [lin_heap]. rewrite (total_lookup _ _ _ Hr).
  specialize (Hnd ltac:(lia)). rewrite (total_lookup _ _ _ Hr) in Hnd. apply NoDup_cons in Hnd as [_ Hnd].
  destruct (dfs_fold_ok f (children r) (mkLin h0 [] [] [])) as [Hok Hl].
  - intros. by apply dfs_ok.
  - by split.
  - apply not_elem_of_nil.
  - done.
  - intros c Hc. destruct (hw_down h0 Hwf 0 r c Hr Hc) as (m & Hm & Hpm).
    pose proof (down_lt h0 0 r c Hwf Hr Hc). split; [lia|]. split; [lia|].
    exists 0%nat. rewrite (total_lookup _ _ _ Hm). split; [done|by left].
  - split; [done|]. f_equal. by rewrite Hl.
Qed.
End linearize.

Lemma linearize_perm h st : heap_wf h → 0%nat :: linearized_nodes st = preorder (length h) h 0 →
  linearized_nodes st ≡ₚ seq 1 (length h - 1).
Proof.
  intros Hwf Hl. destruct (hw_root h Hwf) as (r & Hr & _). apply lookup_lt_Some in Hr.
  pose proof (preorder_NoDup h Hwf (length h) 0 Hr) as Hnd. rewrite <- Hl in Hnd.
  apply NoDup_cons in Hnd as [H0 Hnd].
  apply NoDup_Permutation; [done|apply NoDup_seq|]. intros i.
  pose proof (preorder_all h Hwf i) as Hi. rewrite <- Hl, elem_of_cons in Hi. rewrite elem_of_seq.
  split.
  - intros Hin. split; [destruct i; [done|lia]|]. apply proj1 in Hi. specialize (Hi (or_intror Hin)). lia.
  - intros [? ?]. apply proj2 in Hi. destruct Hi as [->|?]; [lia|lia|done].
Qed.

Lemma linearize_wf t : tree_wf t → tree_wf (fst (linearize_tree_with_positions t)).
Proof.
  intros [Hh Ht Hle Hmax]. unfold linearize_tree_with_positions. simpl.
  destruct (linearize_ok (nodes t) Hh) as [Hok _]. set (st := dfs_with_positions _ _ _) in *.
  pose proof (lo_heap _ _ Hok) as E. split; simpl.
  - by eapply strip_heap_wf.
  - rewrite Ht. unfold zlen. by rewrite (strip_length _ _ E).
  - intros i n Hn. destruct (strip_some _ _ i n E Hn) as (n' & Hn' & _ & Hd & _). rewrite <- Hd. by eapply Hle.
  - destruct Hmax as (i & n & Hn & Hd). destruct (strip_some _ _ i n (eq_sym E) Hn) as (n' & Hn' & _ & Hd' & _).
    exists i, n'. split; [done|lia].
Qed.

Lemma grown_wf t : grown t → tree_wf t.
Proof. induction 1; [apply new_tree_wf|by apply add_layer_wf|by apply linearize_wf]. Qed.

(** What the masks need of the parent indices. *)
Definition parents_ok (l : list Z) : Prop := ∀ k v, l !! k = Some v → v < Z.of_nat k.

Lemma lin_parents_ok h st : lin_ok h st → parents_ok (parent_indices st).
Proof.
  intros Hok k v Hv. apply lookup_lt_Some in Hv as Hk. rewrite (lo_len _ _ Hok) in Hk.
  apply lookup_lt_is_Some_2 in Hk as [n Hn]. destruct (lo_par _ _ Hok k n Hn) as (_ & p & _ & [[_ Hp]|(j & Hj & _ & Hp)]);
    simplify_eq; lia.
Qed.

(** ** Matrix operations *)

Lemma slice_bound_in n i : 0 ≤ i ≤ n → slice_bound n i = i.
Proof. intros. unfold slice_bound. rewrite (proj2 (Z.ltb_ge i 0)) by lia. apply Z.min_l; lia. Qed.

Lemma in_slice_true a b i : in_slice a b i = true ↔ a ≤ i < b.
Proof. unfold in_slice. rewrite andb_true_iff, Z.leb_le, Z.ltb_lt. done. Qed.

Lemma in_slice_case a b i : in_slice a b i = bool_decide (a ≤ i < b).
Proof. apply eq_true_iff_eq. by rewrite in_slice_true, bool_decide_eq_true. Qed.

(** [m'] is [m] with the cells of [P] set. *)
Definition marked (P : Z → Z → Prop) (m m' : mask) : Prop :=
  m_rows m' = m_rows m ∧ m_cols m' = m_cols m ∧
  ∀ a b, m_at m' a b = true ↔ P a b ∨ m_at m a b = true.

Lemma marked_trans P Q m1 m2 m3 : marked P m1 m2 → marked Q m2 m3 → marked (λ a b, P a b ∨ Q a b) m1 m3.
Proof. intros (? & ? & H1) (? & ? & H2). split; [congruence|]. split; [congruence|]. intros a b. rewrite H2, H1. tauto. Qed.

Lemma marked_ext P Q m m' : marked P m m' → (∀ a b, P a b ↔ Q a b) → marked Q m m'.
Proof. intros (? & ? & H1) HQ. split; [done|]. split; [done|]. intros a b. by rewrite H1, HQ. Qed.

Lemma fill_marked m r0 r1 c0 c1 :
  0 ≤ r0 ≤ m_rows m → 0 ≤ r1 ≤ m_rows m → 0 ≤ c0 ≤ m_cols m → 0 ≤ c1 ≤ m_cols m →
  marked (λ a b, r0 ≤ a < r1 ∧ c0 ≤ b < c1) m (fill m (r0, r1) (c0, c1)).
Proof.
  intros. split; [done|]. split; [done|]. intros a b. simpl. rewrite !slice_bound_in by done.
  by rewrite orb_true_iff, andb_true_iff, !in_slice_true.
Qed.

Lemma set_cell_marked m i j : 0 ≤ i < m_rows m → 0 ≤ j < m_cols m →
  ∃ m', set_cell m i j = Ok m' ∧ marked (λ a b, a = i ∧ b = j) m m'.
Proof.
  intros. unfold set_cell, index_of.
  rewrite (proj2 (Z.leb_le 0 i)), (proj2 (Z.ltb_lt i _)), (proj2 (Z.leb_le 0 j)), (proj2 (Z.ltb_lt j _)) by lia.
  simpl. eexists. split; [done|]. eapply marked_ext; [apply fill_marked; lia|]. intros; simpl; lia.
Qed.

(** ** The parent walks *)

(** [p] is the parent of [i], both tree tokens. *)
Definition up (l : list Z) (i p : Z) : Prop := 0 ≤ i ∧ 0 ≤ p ∧ l !! Z.to_nat i = Some p.
(** [j] is [i] or an ancestor of [i]. *)
Definition on_path (l : list Z) : Z → Z → Prop := rtc (up l).

Section walks.
Context (l : list Z) (Hl : parents_ok l).

Lemma up_lt i p : up l i p → 0 ≤ p < i ∧ i < zlen l.
Proof.
  intros (Hi & Hp & Hlk). apply lookup_lt_Some in Hlk as ?. apply Hl in Hlk. unfold zlen. lia.
Qed.

Lemma tc_up_cases i v j : l !! Z.to_nat i = Some v → 0 ≤ i → (tc (up l) i j ↔ 0 ≤ v ∧ on_path l v j).
Proof.
  intros Hv Hi. split.
  - intros Htc.
    inversion Htc as [? ? (_ & ? & ?)|? p ? (_ & ? & ?) Ht]; simplify_eq.
    + split; [done|apply rtc_refl].
    + split; [done|by apply tc_rtc].
  - intros [Hp Hr]. eapply tc_rtc_r; [by apply tc_once|done].
Qed.

Lemma on_path_cases i j : on_path l i j ↔ i = j ∨ tc (up l) i j.
Proof.
  split; [apply rtc_tc|]. intros [->|?]; [apply rtc_refl|by apply tc_rtc].
Qed.

Lemma on_path_le i j : on_path l i j → j ≤ i.
Proof. induction 1 as [|i p j Hu _ IH]; [lia|]. apply up_lt in Hu. lia. Qed.

Lemma on_path_nonneg i j : 0 ≤ i → on_path l i j → 0 ≤ j.
Proof. intros Hi Hp. induction Hp as [|i p j Hu _ IH]; [done|]. apply up_lt in Hu. lia. Qed.

Lemma parent_at i : 0 ≤ i < zlen l → ∃ v, of_option IndexError (py_index l i) = Ok v ∧ l !! Z.to_nat i = Some v.
Proof.
  intros Hi. rewrite py_index_nonneg by lia.
  destruct (lookup_lt_is_Some_2 l (Z.to_nat i)) as [v Hv]; [unfold zlen in Hi; lia|]. exists v. by rewrite Hv.
Qed.

Lemma ancestor_row_spec fuel j : j < zlen l → (Z.to_nat (j + 2) ≤ fuel)%nat → (1 ≤ fuel)%nat →
  ∃ row, ancestor_row fuel l j = Ok row ∧ ∀ b, b ∈ row ↔ 0 ≤ j ∧ on_path l j b.
Proof.
  revert j. induction fuel as [|fuel IH]; intros j Hj Hf H1; [lia|]. cbn [ancestor_row].
  destruct (Z.leb_spec 0 j) as [H0|H0].
  - destruct (parent_at j) as (v & -> & Hv); [lia|]. simpl. apply Hl in Hv as Hlt.
    destruct (IH v) as (row & -> & Hrow); [lia..|]. simpl. exists (j :: row). split; [done|].
    intros b. rewrite elem_of_cons, Hrow, (on_path_cases j b), (tc_up_cases j v b Hv H0). intuition lia.
  - exists []. split; [done|]. intros b. split; [by intros ?%not_elem_of_nil|lia].
Qed.

Lemma mark_path_spec fuel i cur m :
  0 ≤ cur < zlen l → (Z.to_nat (cur + 1) ≤ fuel)%nat → 0 ≤ i < m_rows m → cur < m_cols m →
  ∃ m', mark_path fuel l i cur m = Ok m' ∧ marked (λ a b, a = i ∧ tc (up l) cur b) m m'.
Proof.
  revert cur m. induction fuel as [|fuel IH]; intros cur m Hc Hf Hi Hn; [lia|]. cbn [mark_path].
  rewrite (proj2 (Z.leb_le 0 cur)) by lia. destruct (parent_at cur) as (v & -> & Hv); [done|].
  simpl. apply Hl in Hv as Hlt. destruct (Z.leb_spec 0 v) as [H0|H0].
  - destruct (set_cell_marked m i v) as (m1 & -> & Hm1); [lia..|]. simpl.
    destruct (IH v m1) as (m2 & -> & Hm2); [lia|lia|destruct Hm1 as (-> & _); lia|destruct Hm1 as (_ & -> & _); lia|].
    exists m2. split; [done|]. eapply marked_ext; [exact (marked_trans _ _ _ _ _ Hm1 Hm2)|].
    intros a b. simpl. rewrite (tc_up_cases cur v b Hv), on_path_cases by lia. naive_solver.
  - exists m. split; [done|]. split; [done|]. split; [done|]. intros a b.
    rewrite (tc_up_cases cur v b Hv) by lia. intuition lia.
Qed.

Lemma mark_rows_spec rows m :
  Forall (λ i, 0 ≤ i < zlen l) rows → m_rows m = zlen l → m_cols m = zlen l →
  ∃ m', mark_rows (S (length l)) l rows m = Ok m' ∧ marked (λ a b, a ∈ rows ∧ on_path l a b) m m'.
Proof.
  intros HF. revert m. induction HF as [|i rows Hi HF IH]; intros m Hr Hc; cbn [mark_rows].
  - exists m. split; [done|]. split; [done|]. split; [done|]. intros a b.
    split; [by right|]. intros [[?%not_elem_of_nil _]|?]; done.
  - destruct (set_cell_marked m i i) as (m1 & -> & Hm1); [lia..|]. cbn [mbind res_bind].
    assert (m_rows m1 = zlen l ∧ m_cols m1 = zlen l) as [Hr1 Hc1] by (destruct Hm1 as (-> & -> & _); done).
    destruct (mark_path_spec (S (length l)) i i m1) as (m2 & -> & Hm2); [done|unfold zlen in Hi; lia|lia|lia|]. cbn [mbind res_bind].
    assert (m_rows m2 = zlen l ∧ m_cols m2 = zlen l) as [Hr2 Hc2] by (destruct Hm2 as (-> & -> & _); done).
    destruct (IH m2 Hr2 Hc2) as (m3 & -> & Hm3). exists m3. split; [done|].
    eapply marked_ext; [exact (marked_trans _ _ _ _ _ (marked_trans _ _ _ _ _ Hm1 Hm2) Hm3)|].
    intros a b. simpl. rewrite elem_of_cons, !on_path_cases. naive_solver.
Qed.

Lemma with_root_spec :
  ∃ m, build_tree_attention_mask_with_root (zlen l) l = Ok m ∧ m_rows m = zlen l ∧ m_cols m = zlen l ∧
    ∀ a b, m_at m a b = true ↔ 0 ≤ a < zlen l ∧ on_path l a b.
Proof.
  unfold build_tree_attention_mask_with_root, py_range.
  destruct (mark_rows_spec (seqZ 0 (zlen l - 0)) (zeros (zlen l) (zlen l))) as (m & -> & Hr & Hc & Hat); [|done..|].
  - apply Forall_forall. intros i Hi%elem_of_seqZ. lia.
  - exists m. split; [done|]. split; [done|]. split; [done|]. intros a b. rewrite Hat, elem_of_seqZ. simpl.
    intuition lia.
Qed.

Lemma ancestor_matrix_spec :
  ∃ m, build_ancestor_matrix_optimized l = Ok m ∧ m_rows m = zlen l ∧ m_cols m = zlen l ∧
    ∀ a b, m_at m a b = true ↔ 0 ≤ a ∧ tc (up l) a b.
Proof.
  unfold build_ancestor_matrix_optimized. destruct (Z.eqb_spec (zlen l) 0) as [Hz|Hz].
  { exists (zeros 0 0). rewrite Hz. repeat split; try done. simpl. intros [Ha Htc].
    inversion Htc as [? ? Hu|? ? ? Hu _]; apply up_lt in Hu; lia. }
  assert (Forall (λ v, v < zlen l - 1) l) as Hpar.
  { apply Forall_lookup_2. intros k v Hv. apply lookup_lt_Some in Hv as ?. apply Hl in Hv. unfold zlen. lia. }
  destruct (mapM_total (ancestor_row (S (length l)) l) l) as (rows & -> & HF).
  { intros v Hv. rewrite Forall_forall in Hpar. specialize (Hpar v Hv).
    destruct (ancestor_row_spec (S (length l)) v) as (row & Hrow & _); [lia|unfold zlen in *; lia|lia|by exists row]. }
  assert (∀ a b, 0 ≤ a → (tc (up l) a b ↔ ∃ row, rows !! Z.to_nat a = Some row ∧ b ∈ row)) as Hrows.
  { intros a b Ha. destruct (l !! Z.to_nat a) as [v|] eqn:Hv.
    - destruct (Forall2_lookup_l _ _ _ _ _ HF Hv) as (row & Hrow & Hok).
      rewrite Forall_lookup in Hpar. specialize (Hpar _ _ Hv). cbn beta in *.
      destruct (ancestor_row_spec (S (length l)) v) as (row' & Hrow' & Hin); [lia|unfold zlen in *; lia|lia|].
      rewrite Hok in Hrow'. injection Hrow' as <-. rewrite (tc_up_cases a v b Hv Ha), <- Hin.
      split; [intros; exists row; split; done|intros (r & Hr & Hb)]. rewrite Hr in Hrow. by injection Hrow as <-.
    - split.
      + intros Htc. assert (a < zlen l) by (inversion Htc as [? ? Hu|? ? ? Hu _]; apply up_lt in Hu; lia).
        apply lookup_ge_None in Hv. unfold zlen in *. lia.
      + intros (row & Hrow & _). eapply Forall2_lookup_r in HF as (v & Hv' & _); [|done]. simplify_eq. }
  simpl. destruct (forallb _ rows) eqn:Hall.
  - eexists. split; [done|]. split; [done|]. split; [done|]. intros a b. split; [done|]. intros [Ha Htc].
    apply (Hrows a b Ha) in Htc as (row & Hrow & Hb). rewrite forallb_forall in Hall.
    specialize (Hall row). rewrite Nat.eqb_eq in Hall.
    apply list_elem_of_lookup_2, list_elem_of_In in Hrow. apply Hall in Hrow.
    destruct row; [by apply not_elem_of_nil in Hb|done].
  - eexists. split; [done|]. split; [done|]. split; [done|]. intros a b. simpl. rewrite existsb_exists. split.
    + intros ([r c] & Hin & Heq). simpl in Heq.
      apply andb_true_iff in Heq as [<-%Z.eqb_eq <-%Z.eqb_eq].
      apply list_elem_of_In, list_elem_of_join in Hin as (ps & Hin & Hps).
      apply list_elem_of_lookup in Hps as [k Hk]. rewrite list_lookup_imap in Hk.
      destruct (rows !! k) as [row|] eqn:Hrow; simpl in Hk; [|done]. injection Hk as <-.
      apply list_elem_of_fmap in Hin as (b' & [= -> ->] & Hb). split; [lia|]. apply Hrows; [lia|].
      exists row. by rewrite Nat2Z.id.
    + intros [Ha Htc]. apply (Hrows a b Ha) in Htc as (row & Hrow & Hb). exists (a, b).
      split; [|by rewrite !Z.eqb_refl]. apply list_elem_of_In, list_elem_of_join.
      exists (pair (Z.of_nat (Z.to_nat a)) <$> row). split.
      * apply list_elem_of_fmap. exists b. by rewrite Z2Nat.id.
      * apply list_elem_of_lookup. exists (Z.to_nat a). by rewrite list_lookup_imap, Hrow.
Qed.
End walks.

Lemma assign_spec m r0 r1 c0 c1 src :
  0 ≤ r0 ≤ r1 → r1 ≤ m_rows m → 0 ≤ c0 ≤ c1 → c1 ≤ m_cols m → m_rows src = r1 - r0 → m_cols src = c1 - c0 →
  ∃ m', assign m (r0, r1) (c0, c1) src = Ok m' ∧ m_rows m' = m_rows m ∧ m_cols m' = m_cols m ∧
    ∀ a b, m_at m' a b =
      if bool_decide (r0 ≤ a < r1 ∧ c0 ≤ b < c1) then m_at src (a - r0) (b - c0) else m_at m a b.
Proof.
  intros Hr Hr1 Hc Hc1 Hsr Hsc. unfold assign. cbn [fst snd]. rewrite !slice_bound_in by lia.
  rewrite Hsr, Hsc, (Z.max_r 0 (r1 - r0)), (Z.max_r 0 (c1 - c0)), !Z.eqb_refl by lia. cbn [orb andb].
  eexists. split; [done|]. split; [done|]. split; [done|]. intros a b. cbn [m_at].
  rewrite !in_slice_case, <- bool_decide_and. case_bool_decide; [|done].
  f_equal; [destruct (Z.eqb_spec (r1 - r0) 1)|destruct (Z.eqb_spec (c1 - c0) 1)]; lia.
Qed.

Lemma assign_iff m r0 r1 c0 c1 src :
  0 ≤ r0 ≤ r1 → r1 ≤ m_rows m → 0 ≤ c0 ≤ c1 → c1 ≤ m_cols m → m_rows src = r1 - r0 → m_cols src = c1 - c0 →
  ∃ m', assign m (r0, r1) (c0, c1) src = Ok m' ∧ m_rows m' = m_rows m ∧ m_cols m' = m_cols m ∧
    ∀ a b, m_at m' a b = true ↔
      ((r0 ≤ a < r1 ∧ c0 ≤ b < c1) ∧ m_at src (a - r0) (b - c0) = true) ∨
      (¬ (r0 ≤ a < r1 ∧ c0 ≤ b < c1) ∧ m_at m a b = true).
Proof.
  intros ? ? ? ? ? ?. destruct (assign_spec m r0 r1 c0 c1 src) as (m' & Hm & Hr & Hc & Hat); [done..|].
  exists m'. split; [done|]. split; [done|]. split; [done|]. intros a b. rewrite Hat.
  case_bool_decide; tauto.
Qed.

Lemma index_of_in n i : 0 ≤ i < n → index_of n i = Ok i.
Proof. intros. unfold index_of. by rewrite (proj2 (Z.leb_le 0 i)), (proj2 (Z.ltb_lt i n)) by lia. Qed.

(** ** The two masks of a tree *)

Definition valid_at (v : list bool) (b : Z) : Prop := 0 ≤ b ∧ v !! Z.to_nat b = Some true.

Lemma expand_at rows v a b : 0 ≤ b → m_at (expand rows v) a b = true ↔ valid_at v b.
Proof. intros. unfold valid_at. simpl. destruct (v !! Z.to_nat b) as [[]|]; simpl; naive_solver. Qed.

Lemma valid_at_lt v b : valid_at v b → 0 ≤ b < zlen v.
Proof. intros [? Hb%lookup_lt_Some]. unfold zlen. lia. Qed.

(** What row [a] of a generation mask attends to. *)
Definition gen_attends (parents : list Z) (v : list bool) (a b : Z) : Prop :=
  let cl := zlen v in
  valid_at v b ∨ (b = cl ∧ a ≤ zlen parents) ∨
  (1 ≤ a ≤ zlen parents ∧ cl + 1 ≤ b ∧ on_path parents (a - 1) (b - cl - 1)).

Lemma on_path_lt parents i j : parents_ok parents → 0 ≤ i < zlen parents → on_path parents i j → 0 ≤ j < zlen parents.
Proof. intros Hp Hi Hj. pose proof (on_path_le _ Hp _ _ Hj). apply on_path_nonneg in Hj; [lia|done|lia]. Qed.

Lemma generation_inputs_spec parents v :
  parents_ok parents →
  ∃ m, generation_inputs (zlen v) (zlen parents) parents v = Ok m ∧
    m_rows m = zlen parents + 1 ∧ m_cols m = zlen v + (zlen parents + 1) ∧
    ∀ a b, 0 ≤ a ≤ zlen parents → 0 ≤ b → (m_at m a b = true ↔ gen_attends parents v a b).
Proof.
  intros Hp. unfold generation_inputs. set (tl := zlen parents). set (cl := zlen v). cbv zeta.
  assert (tl = zlen parents) as Etl by done. assert (cl = zlen v) as Ecl by done.
  assert (0 ≤ tl) by apply zlen_nonneg. assert (0 ≤ cl) by apply zlen_nonneg.
  destruct (assign_iff (zeros (tl + 1) (cl + (tl + 1))) 0 1 0 cl (expand 1 v)) as (m1 & -> & R1 & C1 & A1);
    [simpl; unfold cl; lia..|]. cbn [mbind res_bind]. simpl in R1, C1.
  destruct (set_cell_marked m1 0 cl) as (m2 & -> & R2 & C2 & A2); [lia..|]. cbn [mbind res_bind].
  assert (∀ a b, 0 ≤ b → m_at m2 a b = true ↔ a = 0 ∧ (b = cl ∨ valid_at v b)) as A2'.
  { intros a b Hb. rewrite A2, A1, expand_at by lia. cbn [zeros m_at]. rewrite Z.sub_0_r.
    split; [|intros [-> [->|Hv]]; [by left|right; left; apply valid_at_lt in Hv as ?; repeat split; try apply Hv; unfold cl; lia]].
    intros [[-> ->]|[[? Hv]|[? ?]]]; [naive_solver| |done]. split; [lia|by right]. }
  destruct (Z.ltb_spec 0 tl) as [Htl|Htl].
  - destruct (assign_iff m2 1 (tl + 1) 0 cl (expand tl v)) as (m3 & -> & R3 & C3 & A3); [simpl; unfold cl in *; lia..|].
    cbn [mbind res_bind]. rewrite index_of_in by lia. cbn [mbind res_bind].
    destruct (fill_marked m3 1 (tl + 1) cl (cl + 1)) as (R4 & C4 & A4); [lia..|].
    set (m4 := fill _ _ _) in *. clearbody m4.
    destruct (with_root_spec parents Hp) as (tm & Ht & Rt & Ct & At). fold tl in Ht. rewrite Ht. cbn [mbind res_bind].
    destruct (assign_iff m4 1 (tl + 1) (cl + 1) (cl + (tl + 1)) tm) as (m5 & -> & R5 & C5 & A5); [lia..|].
    exists m5. split; [done|]. split; [lia|]. split; [lia|]. intros a b Ha Hb.
    rewrite A5, At, A4, A3, A2' by done. unfold gen_attends. fold tl cl.
    destruct (decide (cl + 1 ≤ b)) as [Hbc|Hbc].
    + assert (¬ valid_at v b) as Hnv by (intros Hv%valid_at_lt; unfold cl in Hbc; lia).
      destruct (decide (1 ≤ a)) as [Ha1|Ha1].
      * replace (b - (cl + 1)) with (b - cl - 1) by lia. split.
        -- intros [(? & ? & ?)|(? & [?|[[? ?]|[? [? [?|?]]]]])]; [right; right; repeat split; try done; lia|lia|lia|lia|lia].
        -- intros [?|[?|(? & ? & Hon)]]; [done|lia|]. left. pose proof (on_path_lt parents (a - 1) _ Hp ltac:(lia) Hon).
           repeat split; try done; unfold tl; lia.
      * split; [|intros [?|[?|?]]; [done|lia|lia]].
        intros [?|(? & [?|[[? ?]|[? [? [?|?]]]]])]; [lia|lia|lia|lia|done].
    + destruct (decide (b = cl)) as [->|Hbn].
      * split; [intros _; right; left; unfold tl; lia|]. intros _. right. split; [lia|].
        destruct (decide (a = 0)) as [->|]; [right; right; split; [lia|by auto]|left; lia].
      * assert (b < cl) by lia. rewrite (expand_at tl v _ (b - 0)), Z.sub_0_r by lia.
        split; [|intros [Hv|[?|?]]; [|lia|lia]].
        -- intros [?|(_ & [?|[[? ?]|(? & ? & [?|?])]])]; [lia|lia|by left|lia|by left].
        -- right. split; [lia|]. right. destruct (decide (a = 0)); [right; split; [lia|by auto]|left; split; [lia|done]].
  - assert (tl = 0) as Htl0 by lia. cbn [mbind res_bind]. exists m2. split; [done|]. split; [lia|]. split; [lia|].
    intros a b Ha Hb. rewrite A2' by done. unfold gen_attends. fold tl cl. split.
    + intros [_ [->|Hv]]; [right; left; unfold tl in *; lia|by left].
    + intros [Hv|[[-> ?]|?]]; [split; [lia|by right]|split; [lia|by left]|lia].
Qed.

Lemma generation_mask_spec parents v mx :
  parents_ok parents → zlen parents ≤ mx →
  ∃ m, generation_mask (zlen v) (zlen parents) mx parents v = Ok m ∧
    m_rows m = mx + 1 ∧ m_cols m = zlen v + (mx + 1) ∧
    ∀ a b, 0 ≤ a ≤ mx → 0 ≤ b → (m_at m a b = true ↔ gen_attends parents v a b).
Proof.
  intros Hp Hmx. destruct (generation_inputs_spec parents v Hp) as (m & Hm & R & C & A).
  unfold generation_mask. rewrite Hm. cbn [mbind res_bind]. clear Hm.
  set (tl := zlen parents) in *. set (cl := zlen v) in *.
  assert (tl = zlen parents) as Etl by done. assert (cl = zlen v) as Ecl by done.
  assert (0 ≤ tl) by apply zlen_nonneg. assert (0 ≤ cl) by apply zlen_nonneg.
  destruct (Z.ltb_spec (tl + 1) (mx + 1)) as [Hlt|Hge].
  - destruct (assign_iff (zeros (mx + 1) (cl + (mx + 1))) 0 (tl + 1) 0 (cl + (tl + 1)) m) as (m1 & -> & R1 & C1 & A1);
      [simpl; lia..|]. cbn [mbind res_bind]. simpl in R1, C1.
    destruct (assign_iff m1 (tl + 1) (mx + 1) 0 cl (expand (mx + 1 - (tl + 1)) v)) as (m2 & -> & R2 & C2 & A2);
      [simpl; unfold cl in *; lia..|].
    exists m2. split; [done|]. split; [lia|]. split; [lia|]. intros a b Ha Hb. rewrite A2, A1, expand_at by lia.
    cbn [zeros m_at]. rewrite !Z.sub_0_r. destruct (decide (a ≤ tl)) as [Hat|Hat].
    + rewrite A by lia. unfold gen_attends. fold tl cl. split; [intuition lia|].
      intros Hg. right. split; [lia|]. left. split; [|exact Hg]. split; [lia|].
      destruct Hg as [Hv%valid_at_lt|[?|(? & ? & Hon)]]; [fold cl in Hv; lia|lia|].
      pose proof (on_path_lt parents (a - 1) _ Hp ltac:(lia) Hon). lia.
    + unfold gen_attends. fold tl cl. split.
      * intros [[_ Hv]|(_ & [[? _]|[_ ?]])]; [by left|lia|done].
      * intros [Hv|[?|?]]; [|lia|lia]. left. split; [|done]. apply valid_at_lt in Hv. fold cl in Hv. lia.
  - assert (mx = tl) as -> by lia. exists m. split; [done|]. split; [lia|]. split; [lia|]. exact A.
Qed.

(** What row [a] of a prefill mask attends to. *)
Definition prefill_attends (past cur : Z) (parents : list Z) (a b : Z) : Prop :=
  (a < cur ∧ b ≤ a) ∨ (past ≤ a ∧ b < cur) ∨
  (past ≤ a < past + zlen parents ∧ past ≤ b ∧ on_path parents (a - past) (b - past)).

Lemma prefill_inputs_spec past cur parents :
  parents_ok parents → 0 < cur ≤ past →
  ∃ m, prefill_inputs past cur (zlen parents) parents = Ok m ∧
    m_rows m = past + zlen parents ∧ m_cols m = past + zlen parents ∧
    ∀ a b, 0 ≤ a < past + zlen parents → 0 ≤ b → (m_at m a b = true ↔ prefill_attends past cur parents a b).
Proof.
  intros Hp Hc. unfold prefill_inputs. set (tl := zlen parents). cbv zeta. assert (tl = zlen parents) as Etl by done.
  rewrite (proj2 (Z.ltb_lt 0 cur)) by lia. assert (0 ≤ tl) by apply zlen_nonneg.
  set (z := zeros (past + tl) (past + tl)).
  assert (∃ m1, (if 0 <? cur - 1 then assign z (0, cur - 1) (0, cur - 1) (mkMask (cur - 1) (cur - 1) (λ i j, j <=? i))
                 else Ok z) = Ok m1 ∧ m_rows m1 = past + tl ∧ m_cols m1 = past + tl ∧
     ∀ a b, 0 ≤ a → 0 ≤ b → (m_at m1 a b = true ↔ a < cur - 1 ∧ b ≤ a)) as (m1 & -> & R1 & C1 & A1).
  { destruct (Z.ltb_spec 0 (cur - 1)).
    - destruct (assign_iff z 0 (cur - 1) 0 (cur - 1) (mkMask (cur - 1) (cur - 1) (λ i j, j <=? i))) as (m1 & -> & R1 & C1 & A1);
        [simpl; lia..|]. exists m1. split; [done|]. split; [done|]. split; [done|]. intros a b ? ?.
      rewrite A1. cbn [m_at z zeros]. rewrite Z.leb_le. intuition lia.
    - exists z. split; [done|]. split; [done|]. split; [done|]. simpl. intuition lia. }
  cbn [mbind res_bind].
  assert (∃ m2, (if 0 <? cur - 1 then i ← index_of (m_rows m1) (cur - 1); Ok (fill m1 (i, i + 1) (0, cur - 1))
                 else Ok m1) = Ok m2 ∧ m_rows m2 = past + tl ∧ m_cols m2 = past + tl ∧
     ∀ a b, 0 ≤ a → 0 ≤ b → (m_at m2 a b = true ↔ (a < cur - 1 ∧ b ≤ a) ∨ (a = cur - 1 ∧ b < cur - 1))) as (m2 & -> & R2 & C2 & A2).
  { destruct (Z.ltb_spec 0 (cur - 1)).
    - rewrite index_of_in by lia. cbn [mbind res_bind].
      destruct (fill_marked m1 (cur - 1) (cur - 1 + 1) 0 (cur - 1)) as (R2 & C2 & A2); [lia..|].
      eexists. split; [done|]. split; [lia|]. split; [lia|]. intros a b ? ?. rewrite A2, A1 by done. intuition lia.
    - exists m1. split; [done|]. split; [done|]. split; [done|]. intros a b ? ?. rewrite A1 by done. intuition lia. }
  cbn [mbind res_bind].
  destruct (set_cell_marked m2 (cur - 1) (cur - 1)) as (m3 & -> & R3 & C3 & A3); [lia..|]. cbn [mbind res_bind].
  assert (∀ a b, 0 ≤ a → 0 ≤ b → m_at m3 a b = true ↔ a < cur ∧ b ≤ a) as A3'.
  { intros a b ? ?. rewrite A3, A2 by done. intuition lia. }
  destruct (Z.ltb_spec 0 tl) as [Htl|Htl].
  - set (m4 := if 0 <? cur - 1 then _ else _).
    assert (m_rows m4 = past + tl ∧ m_cols m4 = past + tl ∧ ∀ a b, 0 ≤ a → 0 ≤ b →
      (m_at m4 a b = true ↔ (past ≤ a < past + tl ∧ b < cur - 1) ∨ (a < cur ∧ b ≤ a))) as (R4 & C4 & A4).
    { unfold m4. destruct (Z.ltb_spec 0 (cur - 1)).
      - destruct (fill_marked m3 past (past + tl) 0 (cur - 1)) as (R4 & C4 & A4); [lia..|].
        split; [lia|]. split; [lia|]. intros a b ? ?. rewrite A4, A3' by done. intuition lia.
      - split; [lia|]. split; [lia|]. intros a b ? ?. rewrite A3' by done. intuition lia. }
    clearbody m4. rewrite index_of_in by lia. cbn [mbind res_bind].
    destruct (fill_marked m4 past (past + tl) (cur - 1) (cur - 1 + 1)) as (R5 & C5 & A5); [lia..|].
    set (m5 := fill _ _ _) in *. clearbody m5.
    destruct (with_root_spec parents Hp) as (tm & Ht & Rt & Ct & At). fold tl in Ht. rewrite Ht. cbn [mbind res_bind].
    destruct (assign_iff m5 past (past + tl) past (past + tl) tm) as (m6 & -> & R6 & C6 & A6); [lia..|].
    exists m6. split; [done|]. split; [lia|]. split; [lia|]. intros a b Ha Hb.
    rewrite A6, At, A5, A4 by lia. unfold prefill_attends. fold tl. split; [intuition lia|].
    intros [?|[?|(? & ? & Hon)]]; [right; lia|right; lia|left].
    pose proof (on_path_lt parents (a - past) _ Hp ltac:(lia) Hon). repeat split; try done; lia.
  - exists m3. split; [done|]. split; [lia|]. split; [lia|]. intros a b Ha Hb. rewrite A3' by lia.
    unfold prefill_attends. fold tl. intuition lia.
Qed.

Lemma prefill_mask_spec past cur parents mx :
  parents_ok parents → 0 < cur ≤ past → zlen parents ≤ mx →
  ∃ m, prefill_mask past cur (zlen parents) mx parents = Ok m ∧
    m_rows m = past + mx ∧ m_cols m = past + mx ∧
    ∀ a b, 0 ≤ a < past + mx → 0 ≤ b → (m_at m a b = true ↔ prefill_attends past cur parents a b).
Proof.
  intros Hp Hc Hmx. destruct (prefill_inputs_spec past cur parents Hp Hc) as (m & Hm & R & C & A).
  unfold prefill_mask. rewrite Hm. cbn [mbind res_bind]. clear Hm. rewrite (proj2 (Z.ltb_lt 0 cur)) by lia.
  set (tl := zlen parents) in *. assert (0 ≤ tl) by apply zlen_nonneg. assert (tl = zlen parents) as Etl by done.
  destruct (Z.ltb_spec tl mx) as [Hlt|Hge].
  - destruct (assign_iff (zeros (past + mx) (past + mx)) 0 (past + tl) 0 (past + tl) m) as (m1 & -> & R1 & C1 & A1);
      [simpl; lia..|]. cbn [mbind res_bind]. simpl in R1, C1.
    destruct (fill_marked m1 (past + tl) (past + mx) 0 cur) as (R2 & C2 & A2); [lia..|].
    eexists. split; [done|]. split; [lia|]. split; [lia|]. intros a b Ha Hb. rewrite A2, A1. cbn [zeros m_at].
    rewrite !Z.sub_0_r. unfold prefill_attends. fold tl. destruct (decide (a < past + tl)) as [Hat|Hat].
    + rewrite A by lia. unfold prefill_attends. fold tl. split; [intuition lia|].
      intros Hg. right. left. split; [|exact Hg].
      destruct Hg as [?|[?|(? & ? & Hon)]]; [lia|lia|].
      pose proof (on_path_lt parents (a - past) _ Hp ltac:(lia) Hon). lia.
    + intuition lia.
  - assert (mx = tl) as -> by lia. exists m. split; [done|]. split; [lia|]. split; [lia|]. exact A.
Qed.

(** ** The cache columns *)

(** [b] is a committed position (below the first kept one) or a kept one. *)
Definition kept (ids : list Z) (b : Z) : Prop :=
  0 ≤ b ∧ (b ∈ ids ∨ ∃ root, head (filter (λ v, 0 ≤ v) ids) = Some root ∧ b < root).

Lemma first_valid_lookup ids root : head (filter (λ v, 0 ≤ v) ids) = Some root → ids !! first_valid_idx ids = Some root.
Proof.
  unfold first_valid_idx. induction ids as [|v ids IH]; [done|]. rewrite filter_cons. simpl.
  case_decide as Hv; simpl; [by intros [= ->]|]. intros Hr. specialize (IH Hr).
  destruct (list_find (λ v, 0 ≤ v) ids) as [[k w]|] eqn:E; simpl; [done|].
  exfalso. rewrite list_find_None, Forall_forall in E. destruct (filter (λ v, 0 ≤ v) ids) as [|w ws] eqn:Ef; [done|].
  assert (w ∈ filter (λ v, 0 ≤ v) ids) as [Hw Hin]%list_elem_of_filter by (rewrite Ef; by left). by apply (E w).
Qed.

Lemma set_positions_spec vs l : Forall (λ v, 0 ≤ v < zlen l) vs →
  ∃ l', set_positions vs l = Ok l' ∧ length l' = length l ∧
    ∀ b, valid_at l' b ↔ (b ∈ vs ∨ valid_at l b).
Proof.
  revert l. induction vs as [|v vs IH]; intros l HF; simpl.
  - exists l. split; [done|]. split; [done|]. intros b. split; [by right|]. intros [?%not_elem_of_nil|?]; done.
  - apply Forall_cons in HF as [Hv HF]. rewrite index_of_in by done. simpl.
    destruct (IH (<[Z.to_nat v := true]> l)) as (l' & -> & Hlen & Hat).
    { unfold zlen. by rewrite length_insert. }
    exists l'. rewrite length_insert in Hlen. split; [done|]. split; [done|]. intros b. rewrite Hat, elem_of_cons.
    unfold valid_at. destruct (decide (Z.to_nat v = Z.to_nat b)) as [E|E].
    + rewrite E, list_lookup_insert_eq by (unfold zlen in Hv; lia). split; [|intros [[->|?]|[? ?]]; [right; split; [lia|done]|by left|by right]].
      intros [?|[Hb _]]; [left; by right|]. left. left. lia.
    + rewrite list_lookup_insert_ne by done. intuition congruence.
Qed.

Lemma cache_valid_spec ids cl root :
  head (filter (λ v, 0 ≤ v) ids) = Some root → Forall (λ v, v < cl) ids →
  ∃ v, compute_single_cache_valid_mask ids cl = Ok v ∧ zlen v = cl ∧ ∀ b, valid_at v b ↔ kept ids b.
Proof.
  intros Hroot Hlt. rewrite Forall_forall in Hlt. unfold compute_single_cache_valid_mask.
  rewrite (first_valid_lookup _ _ Hroot). cbn [of_option mbind res_bind].
  assert (0 ≤ root < cl ∧ root ∈ ids) as [Hr Hrin].
  { destruct (filter (λ v, 0 ≤ v) ids) as [|w ws] eqn:Ef; [done|]. simpl in Hroot. injection Hroot as ->.
    assert (root ∈ filter (λ v, 0 ≤ v) ids) as [Hw Hin]%list_elem_of_filter by (rewrite Ef; by left).
    specialize (Hlt root Hin). simpl in *. split; [lia|done]. }
  rewrite slice_bound_in by lia.
  set (l := imap _ _). assert (length l = Z.to_nat cl) as Hll by (unfold l; by rewrite length_imap, length_replicate).
  assert ((clamp 0 (cl - 1) <$> filter (λ v, 0 ≤ v) ids) = filter (λ v, 0 ≤ v) ids) as ->.
  { rewrite <- (list_fmap_id (filter _ ids)) at 2. apply Forall_fmap_ext_1, Forall_forall.
    intros v [Hv Hin]%list_elem_of_filter. specialize (Hlt v Hin). simpl in *. unfold clamp. lia. }
  destruct (set_positions_spec (filter (λ v, 0 ≤ v) ids) l) as (l' & -> & Hlen & Hat).
  { apply Forall_forall. intros v [Hv Hin]%list_elem_of_filter. specialize (Hlt v Hin). unfold zlen. simpl in *. lia. }
  exists l'. split; [done|]. split; [unfold zlen; lia|]. intros b. rewrite Hat, list_elem_of_filter.
  assert (valid_at l b ↔ 0 ≤ b < root) as ->.
  { unfold valid_at, l. rewrite list_lookup_imap. destruct (decide (0 ≤ b < cl)) as [Hb|Hb].
    - rewrite lookup_replicate_2 by lia. simpl. case_bool_decide; [intuition lia|split; [by intros [_ ?]|lia]].
    - split; [|lia]. intros [Hb0 Hsome]. exfalso.
      destruct (replicate (Z.to_nat cl) () !! Z.to_nat b) as [u|] eqn:E; [|done].
      apply lookup_lt_Some in E. rewrite length_replicate in E. lia. }
  unfold kept. rewrite Hroot. split.
  - intros [[? ?]|[? ?]]; [split; [done|by left]|split; [done|right; eauto]].
  - intros [Hb [Hin|(r & [= <-] & ?)]]; [by left|right; lia].
Qed.

(** ** Parent indices and the tree *)

Section on_path.
Context (h : heap) (Hwf : heap_wf h) (st : lin_state) (Hok : lin_ok h st) (Hnd : NoDup (linearized_nodes st))
  (H0 : 0%nat ∉ linearized_nodes st).

Lemma up_node i n p : linearized_nodes st !! i = Some n →
  up (parent_indices st) (Z.of_nat i) p ↔ ∃ j m, p = Z.of_nat j ∧ linearized_nodes st !! j = Some m ∧ pstep h n m.
Proof.
  intros Hi. destruct (lo_par _ _ Hok i n Hi) as (Hn & q & Hq & Hor).
  pose proof (parent_pstep h n q Hn Hq) as Hs.
  unfold up. rewrite Nat2Z.id. split.
  - intros (_ & Hp & Hlk). destruct Hor as [[_ Hpi]|(j & _ & Hlj & Hpi)]; simplify_eq; [lia|]. by exists j, q.
  - intros (j & m & -> & Hj & Hs'). rewrite (pstep_inj h _ _ _ Hs' Hs) in Hj. split; [lia|]. split; [lia|].
    destruct Hor as [[-> Hpi]|(j' & _ & Hlj & Hpi)].
    + exfalso. apply H0. apply list_elem_of_lookup. eauto.
    + by rewrite Hpi, (NoDup_lookup _ _ _ _ Hnd Hj Hlj).
Qed.

Lemma on_path_anc i n j m : linearized_nodes st !! i = Some n → linearized_nodes st !! j = Some m →
  on_path (parent_indices st) (Z.of_nat i) (Z.of_nat j) ↔ anc h n m.
Proof.
  intros Hi Hj. split.
  - intros Hp. remember (Z.of_nat i) as i' eqn:Ei. remember (Z.of_nat j) as j' eqn:Ej. revert i n Hi Ei.
    induction Hp as [|i' p j' Hu _ IH]; intros i n Hi Ei; subst.
    + apply Nat2Z.inj in Ei as ->. simplify_eq. apply rtc_refl.
    + apply (up_node i n p Hi) in Hu as (k & q & -> & Hk & Hs).
      eapply rtc_l; [done|]. by eapply (IH eq_refl k q).
  - intros Ha. revert i Hi. induction Ha as [m|n p m Hs Ha IH]; intros i Hi.
    + rewrite (NoDup_lookup _ _ _ _ Hnd Hi Hj). apply rtc_refl.
    + destruct (lo_par _ _ Hok i n Hi) as (Hn & q & Hq & Hor).
      pose proof (pstep_inj h _ _ _ (parent_pstep h n q Hn Hq) Hs) as ->.
      destruct Hor as [[-> _]|(k & _ & Hk & _)].
      * exfalso. apply anc_le in Ha; [|done]. assert (m = 0%nat) as -> by lia. apply H0, list_elem_of_lookup. eauto.
      * eapply rtc_l; [apply (up_node i n (Z.of_nat k) Hi); by exists k, p|]. by apply IH.
Qed.
End on_path.

(** ** Batches *)

Lemma lin_row t : tree_wf t →
  let r := linearize_tree_with_positions t in
  zlen r.2.2 = total_nodes t - 1 ∧ zlen r.2.1 = total_nodes t - 1 ∧ parents_ok r.2.2.
Proof.
  intros Ht. unfold linearize_tree_with_positions. simpl. pose proof (tw_heap _ Ht) as Hh.
  destruct (linearize_ok (nodes t) Hh) as [Hok Hl]. set (st := dfs_with_positions _ _ _) in *.
  assert (zlen (linearized_nodes st) = total_nodes t - 1) as E.
  { apply (linearize_perm _ _ Hh) in Hl. apply Permutation_length in Hl. rewrite length_seq in Hl.
    rewrite (tw_total _ Ht). unfold zlen. rewrite Hl. destruct (hw_root _ Hh) as (r & Hr%lookup_lt_Some & _). lia. }
  split; [|split; [done|by eapply lin_parents_ok]]. unfold zlen in *. by rewrite (lo_len _ _ Hok).
Qed.

(** The row of tokens and the paths the batch gets for a tree. *)
Definition row_of (a : batch_args) (mx : Z) (t : SpeculativeTree) (m : mask)
    : SpeculativeTree * (list Z * mask * list (list nat)) :=
  let r := linearize_tree_with_positions t in
  let ids := (λ n, token_id (nodes r.1 !!! n)) <$> r.2.1 in
  (r.1, (ids ++ replicate (Z.to_nat (mx - zlen ids)) (ba_pad_token_id a), m, get_all_leaf_node_paths (nodes r.1) 0)).

Lemma tree_rows_spec a cl mx i ts (P : nat → SpeculativeTree → mask → Prop) :
  (∀ k t, ts !! k = Some t → ∃ m, tree_row a cl mx (i + k) t = Ok (row_of a mx t m) ∧ P (i + k)%nat t m) →
  ∃ ms, tree_rows a cl mx i ts = Ok (zip_with (row_of a mx) ts ms) ∧ length ms = length ts ∧
    ∀ k t m, ts !! k = Some t → ms !! k = Some m → P (i + k)%nat t m.
Proof.
  revert i. induction ts as [|t ts IH]; intros i Hts; cbn [tree_rows].
  - exists []. split; [done|]. split; [done|]. by intros k t m.
  - destruct (Hts 0%nat t eq_refl) as (m & Hm & HP). rewrite Nat.add_0_r in Hm, HP. rewrite Hm. cbn [mbind res_bind].
    destruct (IH (S i)) as (ms & -> & Hlen & Hms).
    { intros k t' Hk. destruct (Hts (S k) t' Hk) as (m' & Hm' & HP'). rewrite Nat.add_succ_r in Hm', HP'. by exists m'. }
    exists (m :: ms). split; [done|]. split; [simpl; lia|].
    intros [|k] t' m'; simpl; [intros [= <-] [= <-]; by rewrite Nat.add_0_r|].
    intros Ht' Hm'. rewrite Nat.add_succ_r. by apply (Hms k).
Qed.

Lemma zip_with_snd {A B C} (f : A → B → C) (g : C → B) l k :
  (∀ x y, g (f x y) = y) → length k = length l → g <$> zip_with f l k = k.
Proof.
  intros Hg. revert k. induction l as [|x l IH]; intros [|y k]; simpl; try done. intros [= Hl]. by rewrite Hg, IH.
Qed.

Lemma zip_with_fst {A B C D} (f : A → B → C) (g : C → D) (g' : A → D) l k :
  (∀ x y, g (f x y) = g' x) → length k = length l → g <$> zip_with f l k = g' <$> l.
Proof.
  intros Hg. revert k. induction l as [|x l IH]; intros [|y k]; simpl; try done. intros [= Hl]. by rewrite Hg, IH.
Qed.

(** The columns every tree is padded to. *)
Definition is_max_tree_size (trees : list SpeculativeTree) (mx : Z) : Prop :=
  0 < mx ∧ (∀ t, t ∈ trees → total_nodes t - 1 ≤ mx) ∧ ∃ t, t ∈ trees ∧ total_nodes t - 1 = mx.

Definition tokens_of (a : batch_args) (mx : Z) (t : SpeculativeTree) : list Z := (row_of a mx t (zeros 0 0)).2.1.1.
Definition leaf_paths_of (a : batch_args) (mx : Z) (t : SpeculativeTree) : list (list nat) :=
  (row_of a mx t (zeros 0 0)).2.2.

Lemma tokens_of_length a mx t : tree_wf t → total_nodes t - 1 ≤ mx → zlen (tokens_of a mx t) = mx.
Proof.
  intros Ht Hmx. destruct (lin_row t Ht) as (_ & Hl & _). unfold tokens_of, row_of. cbn [fst snd].
  set (lin := (linearize_tree_with_positions t).2.1) in *.
  rewrite zlen_app. unfold zlen in *. rewrite length_replicate, !length_fmap. lia.
Qed.

Lemma fold_max_size ts m0 :
  (∀ t, t ∈ ts → total_nodes t - 1 ≤ foldl Z.max m0 ((λ t, total_nodes t - 1) <$> ts)) ∧
  m0 ≤ foldl Z.max m0 ((λ t, total_nodes t - 1) <$> ts) ∧
  (foldl Z.max m0 ((λ t, total_nodes t - 1) <$> ts) = m0 ∨
   ∃ t, t ∈ ts ∧ foldl Z.max m0 ((λ t, total_nodes t - 1) <$> ts) = total_nodes t - 1).
Proof.
  assert (foldl Z.max m0 ((λ t, total_nodes t - 1) <$> ts) =
          foldl (λ m t, Z.max m (total_nodes t - 1)) m0 ts) as ->.
  { revert m0. induction ts as [|t ts IH]; intros m0; simpl; [done|]. apply IH. }
  destruct (foldl_max_spec (λ t, total_nodes t - 1) ts m0) as (H1 & H2 & H3). auto.
Qed.

Lemma max_tree_size_ok trees t ts :
  filter (λ t, 1 < total_nodes t) trees = t :: ts →
  is_max_tree_size trees (foldl Z.max (total_nodes t - 1) ((λ t, total_nodes t - 1) <$> ts)).
Proof.
  intros Hf. destruct (fold_max_size ts (total_nodes t - 1)) as (H1 & H2 & H3).
  set (mx := foldl _ _ _) in *.
  assert (∀ s, s ∈ t :: ts ↔ 1 < total_nodes s ∧ s ∈ trees) as Hin.
  { intros s. by rewrite <- Hf, list_elem_of_filter. }
  assert (1 < total_nodes t ∧ t ∈ trees) as [Ht Htin] by (apply Hin; by left). split; [lia|]. split.
  - intros s Hs. destruct (decide (1 < total_nodes s)) as [Hs1|]; [|lia].
    assert (s ∈ t :: ts) as [->|Hs']%elem_of_cons by (by apply Hin); [lia|by apply H1].
  - destruct H3 as [E|(s & Hs & E)]; [by exists t|]. exists s. split; [|done]. apply Hin. by right.
Qed.

Lemma prepare_spec trees a R C (P : nat → SpeculativeTree → mask → Prop) :
  Forall tree_wf trees → Exists (λ t, 1 < total_nodes t) trees →
  (∀ mx k t, is_max_tree_size trees mx → trees !! k = Some t →
     ∃ m, tree_row a (cache_len_of a) mx k t = Ok (row_of a mx t m) ∧ m_rows m = R mx ∧ m_cols m = C mx ∧ P k t m) →
  ∃ mx ms, is_max_tree_size trees mx ∧ length ms = length trees ∧
    prepare_incremental_tree_batch trees a =
      Ok (fst ∘ linearize_tree_with_positions <$> trees,
          (tokens_of a mx <$> trees, Some ms, leaf_paths_of a mx <$> trees)) ∧
    Forall (λ l, zlen l = mx) (tokens_of a mx <$> trees) ∧
    ∀ k t m, trees !! k = Some t → ms !! k = Some m → m_rows m = R mx ∧ m_cols m = C mx ∧ P k t m.
Proof.
  intros Hwf Hex Hrow. unfold prepare_incremental_tree_batch.
  destruct (filter (λ t, 1 < total_nodes t) trees) as [|t ts] eqn:Hf.
  { exfalso. apply Exists_exists in Hex as (t & Hin & Ht).
    assert (t ∈ filter (λ t, 1 < total_nodes t) trees) as Hc by (by apply list_elem_of_filter).
    rewrite Hf in Hc. by apply not_elem_of_nil in Hc. }
  pose proof (max_tree_size_ok _ _ _ Hf) as Hmx. set (mx := foldl _ _ _) in *. clearbody mx. cbv zeta.
  destruct (tree_rows_spec a (cache_len_of a) mx 0 trees (λ k t m, m_rows m = R mx ∧ m_cols m = C mx ∧ P k t m))
    as (ms & -> & Hlen & Hms); [intros; by apply Hrow|]. cbn [mbind res_bind]. simpl in Hms.
  rewrite (zip_with_fst _ (λ r, r.2.1.1) (tokens_of a mx)) by done.
  rewrite (zip_with_snd _ (λ r, r.2.1.2)) by done.
  rewrite (zip_with_fst _ (λ r, r.2.2) (leaf_paths_of a mx)) by done.
  rewrite (zip_with_fst _ fst (fst ∘ linearize_tree_with_positions)) by done.
  assert (Forall (λ l, zlen l = mx) (tokens_of a mx <$> trees)) as Htok.
  { apply Forall_fmap, Forall_forall. intros s Hs. rewrite Forall_forall in Hwf.
    apply tokens_of_length; [by apply Hwf|by apply Hmx]. }
  assert (Forall (λ m, m_rows m = R mx ∧ m_cols m = C mx) ms) as Hdim.
  { apply Forall_lookup_2. intros k m Hm. apply lookup_lt_Some in Hm as Hk. rewrite Hlen in Hk.
    apply lookup_lt_is_Some_2 in Hk as [s Hs]. destruct (Hms k s m Hs Hm) as (? & ? & _). done. }
  exists mx, ms. split; [done|]. split; [done|]. split; [|done].
  destruct trees as [|s trees]; [done|]. destruct ms as [|m ms]; [done|]. cbn [fmap list_fmap].
  change (tokens_of a mx s :: list_fmap _ _ (tokens_of a mx) trees) with (tokens_of a mx <$> s :: trees).
  rewrite (proj2 (forallb_forall _ _)), (proj2 (forallb_forall _ _)); [done| |].
  - intros m' Hm'%list_elem_of_In. rewrite Forall_forall in Hdim.
    destruct (Hdim m' Hm') as [-> ->]. destruct (Hdim m) as [-> ->]; [by left|]. by rewrite !Z.eqb_refl.
  - intros l Hl%list_elem_of_In. rewrite Forall_forall in Htok. pose proof (Htok l Hl) as Hl1.
    assert (zlen (tokens_of a mx s) = mx) as Hl2 by (apply Htok; by left).
    apply Nat.eqb_eq. unfold zlen in *. lia.
Qed.

Lemma cache_len_lt a ids row v :
  ba_is_prefill a = false → ba_kv_cache_position_ids a = Some ids → row ∈ ids → v ∈ row → v < cache_len_of a.
Proof.
  intros Hpre Hkv Hrow Hv. unfold cache_len_of. rewrite Hkv, Hpre.
  destruct (decide (0 ≤ v)) as [H0|H0].
  - assert (v ∈ filter (λ v, 0 ≤ v) (mjoin ids)) as Hin.
    { apply list_elem_of_filter. split; [done|]. apply list_elem_of_join. eauto. }
    destruct (filter _ (mjoin ids)) as [|w ws]; [by apply not_elem_of_nil in Hin|].
    destruct (foldl_max_spec (λ x : Z, x) ws w) as (H1 & H2 & _). cbn beta in H1, H2.
    apply elem_of_cons in Hin as [->|Hin]; [|specialize (H1 v Hin)]; unfold Z.max in *; lia.
  - destruct (filter (λ v, 0 ≤ v) (mjoin ids)) as [|w ws] eqn:Hf; [lia|].
    assert (w ∈ filter (λ v, 0 ≤ v) (mjoin ids)) as [Hw _]%list_elem_of_filter by (rewrite Hf; by left).
    destruct (foldl_max_spec (λ x : Z, x) ws w) as (_ & H2 & _). cbn beta in H2. unfold Z.max in *; simpl in *; lia.
Qed.

Definition seq_lengths_cover (a : batch_args) (trees : list SpeculativeTree) : Prop :=
  match ba_seq_lengths a with Some lens => (length trees ≤ length lens)%nat | None => True end.

Definition seq_len_at (a : batch_args) (k : nat) : Z :=
  match ba_seq_lengths a with Some lens => default 0 (lens !! k) | None => ba_past_len a end.

Lemma seq_len_lookup a trees k t : seq_lengths_cover a trees → trees !! k = Some t →
  match ba_seq_lengths a with
  | Some lens => of_option IndexError (lens !! k)
  | None => Ok (ba_past_len a)
  end = Ok (seq_len_at a k).
Proof.
  unfold seq_lengths_cover, seq_len_at. destruct (ba_seq_lengths a) as [lens|]; [|done].
  intros Hl Hk%lookup_lt_Some. destruct (lookup_lt_is_Some_2 lens k) as [n ->]; [lia|done].
Qed.

Lemma tree_row_eq a cl mx k t :
  match ba_seq_lengths a with
  | Some lens => of_option IndexError (lens !! k)
  | None => Ok (ba_past_len a)
  end = Ok (seq_len_at a k) →
  tree_row a cl mx k t =
    (let parents := (linearize_tree_with_positions t).2.2 in
     let tl := zlen (linearize_tree_with_positions t).2.1 in
     m ← (if ba_is_prefill a then prefill_mask (ba_past_len a) (seq_len_at a k) tl mx parents
          else
            rows ← of_option TypeError (ba_kv_cache_position_ids a);
            row ← of_option IndexError (rows !! k);
            valid ← compute_single_cache_valid_mask row cl;
            generation_mask cl tl mx parents valid);
     Ok (row_of a mx t m)).
Proof.
  intros Hs. unfold tree_row, row_of. rewrite Hs. cbn [mbind res_bind].
  destruct (linearize_tree_with_positions t) as [t' [lin par]]. cbn [fst snd].
  assert (zlen ((λ n, token_id (nodes t' !!! n)) <$> lin) = zlen lin) as -> by (unfold zlen; by rewrite length_fmap).
  done.
Qed.

(** ** Properties *)

(** Speculative trees. Whatever layers are added under nodes of the tree, and
    however often it is linearised, the counters are right: [total_nodes] is the
    number of nodes and [max_depth] the largest depth; [get_nodes_at_depth] lists
    each node of that depth once; a node's root path is its parent's followed by
    the node, as long as the depth says; and the leaf paths are the root paths of
    the nodes without children, each once, ending in distinct leaves. *)
Lemma grown_tree_layers t :
  grown t →
  let h := nodes t in
  total_nodes t = zlen h ∧
  (∀ d, NoDup (get_nodes_at_depth t d) ∧
        ∀ n, n ∈ get_nodes_at_depth t d ↔ (n < length h)%nat ∧ depth (h !!! n) = d) ∧
  (∀ n, (n < length h)%nat →
     zlen (get_path_nodes_from_root h n) = depth (h !!! n) ∧ 0 ≤ depth (h !!! n) ≤ max_depth t ∧
     match parent (h !!! n) with
     | Some p => (p < n)%nat ∧ get_path_nodes_from_root h n = get_path_nodes_from_root h p ++ [n]
     | None => n = 0%nat
     end) ∧
  (∃ n, (n < length h)%nat ∧ depth (h !!! n) = max_depth t) ∧
  ∃ leaves, NoDup leaves ∧ (∀ n, n ∈ leaves ↔ (n < length h)%nat ∧ children (h !!! n) = []) ∧
    get_all_leaf_node_paths h 0 = get_path_nodes_from_root h <$> leaves ∧
    get_all_paths t = get_path_from_root h <$> leaves.
Proof.
  intros Hg%grown_wf. destruct Hg as [Hh Ht Hle Hmax]. cbv zeta. set (h := nodes t) in *.
  destruct (hw_root h Hh) as (r & Hr & _). apply lookup_lt_Some in Hr as H0.
  destruct (root_depth h Hh) as [Hd0 Hp0].
  split; [done|]. split; [|split; [|split]].
  - intros d. pose proof (preorder_NoDup h Hh (length h) 0 H0) as Hnd.
    assert (get_nodes_at_depth t d = filter (λ i, depth (h !!! i) = d) (preorder (length h) h 0)) as ->.
    { unfold get_nodes_at_depth. fold h. rewrite <- (nodes_at_filter h Hh (length h) d 0 H0), Hd0.
      destruct (Z.eqb_spec d 0) as [->|]; [|done]. destruct (length h); [lia|done]. }
    split; [by apply NoDup_filter|]. intros n. rewrite list_elem_of_filter, (preorder_all h Hh). tauto.
  - intros n Hn. rewrite (path_length h Hh) by done. split; [done|]. split.
    + split; [rewrite <- (path_length h Hh) by done; apply zlen_nonneg|].
      destruct (lookup_lt_is_Some_2 h n Hn) as [m Hm]. rewrite (total_lookup _ _ _ Hm). by eapply Hle.
    + destruct (parent (h !!! n)) as [p|] eqn:Hp.
      * pose proof (parent_pstep h n p Hn Hp) as [? _]%(pstep_lt h Hh). split; [lia|].
        rewrite (path_unfold h Hh) at 1 by done. by rewrite Hp.
      * destruct (decide (n = 0%nat)) as [|Hne]; [done|]. destruct (up_pstep h Hh n Hn Hne) as (p & ? & _). congruence.
  - destruct Hmax as (i & n & Hi & Hd). exists i. apply lookup_lt_Some in Hi as ?.
    by rewrite (total_lookup _ _ _ Hi).
  - exists (filter (λ i, children (h !!! i) = []) (preorder (length h) h 0)).
    split; [apply NoDup_filter; by apply preorder_NoDup|].
    split; [intros n; rewrite list_elem_of_filter, (preorder_all h Hh); tauto|].
    apply (leaf_paths_filter h (length h) 0).
Qed.

(** C10: Linearisation. The depth-first order of a well-formed tree lists every node
    but the root exactly once; the [k]-th parent index is the position of the node's
    parent, which comes earlier, or -1 under the root; each node's recorded position
    is its place in the order and nothing else of the tree changes. Following parent
    indices from one place reaches another exactly when the node there is an ancestor. *)
Theorem linearize_tree t :
  tree_wf t →
  let '(t', (lin, parents)) := linearize_tree_with_positions t in
  tree_wf t' ∧ set_position 0 <$> nodes t' = set_position 0 <$> nodes t ∧
  lin ≡ₚ seq 1 (length (nodes t) - 1) ∧ length parents = length lin ∧ zlen lin = total_nodes t - 1 ∧
  (∀ k n, lin !! k = Some n →
     position_in_sequence (nodes t' !!! n) = Z.of_nat k ∧ parent_index_ok (nodes t) lin parents k n) ∧
  (∀ i n j m, lin !! i = Some n → lin !! j = Some m →
     on_path parents (Z.of_nat i) (Z.of_nat j) ↔ anc (nodes t) n m).
Proof.
  intros Ht. pose proof (linearize_wf t Ht) as Hwf. pose proof (lin_row t Ht) as (_ & Hlen & _).
  unfold linearize_tree_with_positions in *. simpl in *. pose proof (tw_heap _ Ht) as Hh.
  destruct (linearize_ok (nodes t) Hh) as [Hok Hl]. set (st := dfs_with_positions _ _ _) in *.
  pose proof (linearize_perm _ _ Hh Hl) as Hperm.
  split; [done|]. split; [by apply lo_heap|]. split; [done|]. split; [by eapply lo_len|]. split; [done|]. split.
  - intros k n Hk. split; [by eapply lo_pos|]. by apply (lo_par _ _ Hok).
  - intros i n j m Hi Hj. apply on_path_anc; try done.
    + rewrite Hperm. apply NoDup_seq.
    + rewrite Hperm, elem_of_seq. lia.
Qed.

(** The two mask builders agree. For parent indices that point backwards, the
    ancestor matrix is exactly the strict-ancestor relation, its union with the
    identity and the row-by-row mask are the same matrix, a node attending to itself
    and its ancestors; neither walk runs out of range or for ever. *)
Lemma tree_masks_agree past_len parents :
  parents_ok parents → parents ≠ [] →
  ∃ anc_m inc_m root_m,
    build_ancestor_matrix_optimized parents = Ok anc_m ∧
    build_incremental_tree_attention_mask past_len (zlen parents) parents = Ok inc_m ∧
    build_tree_attention_mask_with_root (zlen parents) parents = Ok root_m ∧
    Forall (λ m, m_rows m = zlen parents ∧ m_cols m = zlen parents) [anc_m; inc_m; root_m] ∧
    ∀ a b, 0 ≤ a < zlen parents → 0 ≤ b < zlen parents →
      (m_at anc_m a b = true ↔ tc (up parents) a b) ∧ (m_at root_m a b = true ↔ on_path parents a b) ∧
      m_at inc_m a b = m_at root_m a b.
Proof.
  intros Hp Hne. destruct (ancestor_matrix_spec parents Hp) as (am & Ham & Ra & Ca & Aa).
  destruct (with_root_spec parents Hp) as (rm & Hrm & Rr & Cr & Ar).
  assert (0 < zlen parents) as Hpos by (destruct parents; [done|unfold zlen; simpl; lia]).
  unfold build_incremental_tree_attention_mask.
  rewrite (proj2 (Z.eqb_neq (zlen parents) 0)), (proj2 (Z.ltb_lt 0 _)), Ham by lia. cbn [mbind res_bind].
  unfold mask_or. rewrite Ra, Ca. cbn [eye m_rows m_cols]. rewrite Z.eqb_refl. cbn [orb andb].
  do 3 eexists. split; [done|]. split; [done|]. split; [done|]. split.
  { repeat constructor; simpl; try done; by destruct (_ =? 1). }
  intros a b Ha Hb. split; [rewrite Aa; intuition lia|]. split; [rewrite Ar; intuition lia|].
  apply eq_true_iff_eq. rewrite Ar. simpl. rewrite orb_true_iff.
  assert ((if zlen parents =? 1 then 0 else a) = a) as -> by (destruct (Z.eqb_spec (zlen parents) 1); lia).
  assert ((if zlen parents =? 1 then 0 else b) = b) as -> by (destruct (Z.eqb_spec (zlen parents) 1); lia).
  rewrite Aa, Z.eqb_eq, (on_path_cases parents a b). intuition lia.
Qed.

(** Generation batches. With a kept cache position per tree, the batch of the
    generation phase is built: every tree's tokens in depth-first order padded to the
    largest tree, and one mask per tree in which the root and the padding attend to
    the cache, every tree token to the cache, the root, itself and its ancestors, and
    nothing else: the cache columns seen are the committed prefix and the positions
    kept from the last round; padding rows see no tree token. *)
Lemma generation_batch trees a ids :
  Forall tree_wf trees → Exists (λ t, 1 < total_nodes t) trees → ba_is_prefill a = false →
  seq_lengths_cover a trees → ba_kv_cache_position_ids a = Some ids → (length trees ≤ length ids)%nat →
  Forall (Exists (λ v, 0 ≤ v)) ids →
  ∃ mx ms, is_max_tree_size trees mx ∧ length ms = length trees ∧
    prepare_incremental_tree_batch trees a =
      Ok (fst ∘ linearize_tree_with_positions <$> trees,
          (tokens_of a mx <$> trees, Some ms, leaf_paths_of a mx <$> trees)) ∧
    Forall (λ l, zlen l = mx) (tokens_of a mx <$> trees) ∧
    ∀ k t m row, trees !! k = Some t → ms !! k = Some m → ids !! k = Some row →
      let cl := cache_len_of a in let parents := (linearize_tree_with_positions t).2.2 in
      m_rows m = mx + 1 ∧ m_cols m = cl + (mx + 1) ∧
      ∀ q c, 0 ≤ q ≤ mx → 0 ≤ c → m_at m q c = true ↔
        kept row c ∨ (c = cl ∧ q ≤ zlen parents) ∨
        (1 ≤ q ≤ zlen parents ∧ cl + 1 ≤ c ∧ on_path parents (q - 1) (c - cl - 1)).
Proof.
  intros Hwf Hex Hpre Hseq Hkv Hlen Hids.
  destruct (prepare_spec trees a (λ mx, mx + 1) (λ mx, cache_len_of a + (mx + 1)) (λ k t m,
      ∀ row, ids !! k = Some row → ∀ q c, 0 ≤ q < m_rows m → 0 ≤ c →
        m_at m q c = true ↔
        kept row c ∨ (c = cache_len_of a ∧ q ≤ zlen (linearize_tree_with_positions t).2.2) ∨
        (1 ≤ q ≤ zlen (linearize_tree_with_positions t).2.2 ∧ cache_len_of a + 1 ≤ c ∧
         on_path (linearize_tree_with_positions t).2.2 (q - 1) (c - cache_len_of a - 1))))
    as (mx & ms & Hmx & Hms & Hprep & Htok & Hm); [done|done| |].
  - intros mx k t (_ & Hle & _) Hk. rewrite tree_row_eq by (by eapply seq_len_lookup). rewrite Hpre, Hkv.
    apply list_elem_of_lookup_2 in Hk as Htin. rewrite Forall_forall in Hwf.
    destruct (lin_row t (Hwf t Htin)) as (Hpl & Hll & Hpok). specialize (Hle t Htin).
    destruct (lookup_lt_is_Some_2 ids k) as [row Hrow]; [apply lookup_lt_Some in Hk; lia|].
    cbv zeta. cbn [of_option mbind res_bind]. rewrite Hrow. cbn [of_option mbind res_bind].
    rewrite Forall_lookup in Hids. specialize (Hids k row Hrow).
    apply list_elem_of_lookup_2 in Hrow as Hrin.
    destruct (filter (λ v, 0 ≤ v) row) as [|root vs] eqn:Hf.
    { exfalso. apply Exists_exists in Hids as (v & Hv & Hv0).
      assert (v ∈ filter (λ v, 0 ≤ v) row) as Hc by (by apply list_elem_of_filter).
      rewrite Hf in Hc. by apply not_elem_of_nil in Hc. }
    destruct (cache_valid_spec row (cache_len_of a) root) as (v & -> & Hvl & Hv); [by rewrite Hf| |].
    { apply Forall_forall. intros x Hx. by eapply cache_len_lt. }
    cbn [mbind res_bind]. rewrite Hll, <- Hpl, <- Hvl.
    destruct (generation_mask_spec _ v mx Hpok) as (m & -> & R & C & A); [lia|]. cbn [mbind res_bind].
    exists m. split; [done|]. split; [done|]. split; [lia|]. intros row' Hrow' q c Hq Hc.
    injection Hrow' as <-. rewrite A by lia. unfold gen_attends. by rewrite Hv.
  - exists mx, ms. split; [done|]. split; [done|]. split; [done|]. split; [done|].
    intros k t m row Hk Hmk Hrow. destruct (Hm k t m Hk Hmk) as (R & C & A). split; [done|]. split; [done|].
    intros q c Hq Hc. by apply (A row Hrow); [lia|].
Qed.

(** Prefill batches. When every sequence length is positive and at most the input
    length, the prefill batch is built with the same tokens and paths, and square
    masks: a prompt row, the last of which is the root, attends causally; the rows of
    the input's padding attend to nothing; a tree token attends to the prompt, itself
    and its ancestors; a padding row to the prompt. *)
Lemma prefill_batch trees a :
  Forall tree_wf trees → Exists (λ t, 1 < total_nodes t) trees → ba_is_prefill a = true →
  seq_lengths_cover a trees →
  (∀ k, (k < length trees)%nat → 0 < seq_len_at a k ≤ ba_past_len a) →
  ∃ mx ms, is_max_tree_size trees mx ∧ length ms = length trees ∧
    prepare_incremental_tree_batch trees a =
      Ok (fst ∘ linearize_tree_with_positions <$> trees,
          (tokens_of a mx <$> trees, Some ms, leaf_paths_of a mx <$> trees)) ∧
    Forall (λ l, zlen l = mx) (tokens_of a mx <$> trees) ∧
    ∀ k t m, trees !! k = Some t → ms !! k = Some m →
      let past := ba_past_len a in let cur := seq_len_at a k in
      let parents := (linearize_tree_with_positions t).2.2 in
      m_rows m = past + mx ∧ m_cols m = past + mx ∧
      ∀ q c, 0 ≤ q < past + mx → 0 ≤ c → m_at m q c = true ↔
        (q < cur ∧ c ≤ q) ∨ (past ≤ q ∧ c < cur) ∨
        (past ≤ q < past + zlen parents ∧ past ≤ c ∧ on_path parents (q - past) (c - past)).
Proof.
  intros Hwf Hex Hpre Hseq Hlen.
  destruct (prepare_spec trees a (λ mx, ba_past_len a + mx) (λ mx, ba_past_len a + mx) (λ k t m,
      ∀ q c, 0 ≤ q < m_rows m → 0 ≤ c → m_at m q c = true ↔
        prefill_attends (ba_past_len a) (seq_len_at a k) (linearize_tree_with_positions t).2.2 q c))
    as (mx & ms & Hmx & Hms & Hprep & Htok & Hm); [done|done| |].
  - intros mx k t (_ & Hle & _) Hk. rewrite tree_row_eq by (by eapply seq_len_lookup). rewrite Hpre.
    apply list_elem_of_lookup_2 in Hk as Htin. rewrite Forall_forall in Hwf.
    destruct (lin_row t (Hwf t Htin)) as (Hpl & Hll & Hpok). specialize (Hle t Htin).
    cbv zeta. rewrite Hll, <- Hpl. apply lookup_lt_Some in Hk as Hklt. specialize (Hlen k Hklt).
    destruct (prefill_mask_spec (ba_past_len a) (seq_len_at a k) _ mx Hpok Hlen) as (m & -> & R & C & A); [lia|].
    cbn [mbind res_bind]. exists m. split; [done|]. split; [done|]. split; [done|].
    intros q c Hq Hc. apply A; lia.
  - exists mx, ms. split; [done|]. split; [done|]. split; [done|]. split; [done|].
    intros k t m Hk Hmk. destruct (Hm k t m Hk Hmk) as (R & C & A). split; [done|]. split; [done|].
    intros q c Hq Hc. apply A; lia.
Qed.

(** ** Examples *)

Definition demo_tree : SpeculativeTree :=
  fst (add_layer [1%nat] [[(30, float_one)]] (fst (add_layer [0%nat] [[(10, float_one); (20, float_one)]] (new_tree 5 "r")))).

Lemma demo_grown : grown demo_tree.
Proof.
  unfold demo_tree. apply grown_layer; [apply grown_layer; [apply grown_new|]|]; repeat constructor; simpl; lia.
Qed.

Example demo_lin : (linearize_tree_with_positions demo_tree).2 = ([1; 3; 2]%nat, [-1; 0; -1]).
Proof. reflexivity. Qed.

Definition demo_args (prefill : bool) : batch_args := mkBatchArgs 3 0 None prefill (Some [[2; 4; -1]; [1; -1; -1]]).

Lemma grown_tree_layers_witness : grown demo_tree ∧ total_nodes demo_tree = zlen (nodes demo_tree).
Proof. split; [apply demo_grown|]. apply (grown_tree_layers demo_tree demo_grown). Defined.

Lemma linearize_tree_witness : tree_wf demo_tree ∧ [1; 3; 2]%nat ≡ₚ seq 1 3.
Proof.
  assert (tree_wf demo_tree) as H by (apply grown_wf, demo_grown). split; [exact H|].
  pose proof (linearize_tree demo_tree H) as (_ & _ & Hp & _). exact Hp.
Defined.

Lemma tree_masks_agree_witness :
  parents_ok [-1; 0; -1] ∧
  ∃ am im rm, build_ancestor_matrix_optimized [-1; 0; -1] = Ok am ∧
    build_incremental_tree_attention_mask 0 3 [-1; 0; -1] = Ok im ∧
    build_tree_attention_mask_with_root 3 [-1; 0; -1] = Ok rm.
Proof.
  assert (parents_ok [-1; 0; -1]) as H.
  { intros [|[|[|k]]] v Hv; simpl in Hv; try discriminate Hv; injection Hv as <-; lia. }
  split; [exact H|]. destruct (tree_masks_agree 0 [-1; 0; -1] H) as (am & im & rm & H1 & H2 & H3 & _); [discriminate|].
  exists am, im, rm. exact (conj H1 (conj H2 H3)).
Defined.

Lemma generation_batch_witness :
  ∃ mx r, is_max_tree_size [demo_tree; new_tree 7 "s"] mx ∧
    prepare_incremental_tree_batch [demo_tree; new_tree 7 "s"] (demo_args false) = Ok r.
Proof.
  destruct (generation_batch [demo_tree; new_tree 7 "s"] (demo_args false) [[2; 4; -1]; [1; -1; -1]])
    as (mx & ms & Hmx & _ & Hp & _).
  - constructor; [apply grown_wf, demo_grown|]. constructor; [apply new_tree_wf|constructor].
  - left. reflexivity.
  - reflexivity.
  - exact I.
  - reflexivity.
  - simpl. lia.
  - repeat (constructor; [left; lia|]). constructor.
  - exists mx. eexists. split; [exact Hmx|exact Hp].
Defined.

Lemma prefill_batch_witness :
  ∃ mx r, is_max_tree_size [demo_tree; new_tree 7 "s"] mx ∧
    prepare_incremental_tree_batch [demo_tree; new_tree 7 "s"] (demo_args true) = Ok r.
Proof.
  destruct (prefill_batch [demo_tree; new_tree 7 "s"] (demo_args true)) as (mx & ms & Hmx & _ & Hp & _).
  - constructor; [apply grown_wf, demo_grown|]. constructor; [apply new_tree_wf|constructor].
  - left. reflexivity.
  - reflexivity.
  - exact I.
  - intros k _. unfold seq_len_at. simpl. lia.
  - exists mx. eexists. split; [exact Hmx|exact Hp].
Defined.
