(* ===== verification/SpecDecode.v ===== *)
(** * Shaping and verifying speculative trees (models/llama/spec_decoding_tree_shape.py,
    spec_decoding_verify.py)

    Which frontier nodes the drafter expands next, the acceptance counts it keeps per
    depth, and rejection sampling along a drafted path. Log-probabilities are Python
    floats; the probability vectors belong to torch, so their scalars, the sum and the
    two random draws are parameters. *)

From stdpp Require Import numbers base list.
From Stdlib Require Import ZArith Lia.
From S2P Require Import Prelude Floats.

(** ** The budgeted frontier *)

Record FrontierNode (H : Type) := mkFrontier { node_handle : H; path_log_prob : float; depth : Z }.
Arguments mkFrontier {H} _ _ _.
Arguments node_handle {H} _.
Arguments path_log_prob {H} _.
Arguments depth {H} _.

Section frontier.
Context {H : Type}.
Implicit Types (frontier : list (FrontierNode H)).

Definition select_topk_by_logprob frontier (budget : Z) : list (FrontierNode H) :=
  if budget <=? 0 then []
  else if zlen frontier <=? budget then frontier
  else
    let ranked := py_sorted (λ n, fopp (path_log_prob n)) frontier in
    take (Z.to_nat budget) ranked.

Definition prune_below_threshold frontier (min_log_prob : float) : list (FrontierNode H) :=
  filter (λ n, fleb min_log_prob (path_log_prob n) = true) frontier.

Definition budgeted_expand_plan frontier (budget : Z) (min_log_prob : option float) : list (FrontierNode H) :=
  let pool :=
    match min_log_prob with Some p => prune_below_threshold frontier p | None => frontier end in
  select_topk_by_logprob pool budget.
End frontier.

(** [child_logprob]: [math.log] is the C library's, [ffadd] the float addition. *)
Definition child_logprob (math_log : float → float) (ffadd : float → float → float)
    (parent_path_logprob child_prob : float) : float :=
  if fleb child_prob (SpecFloat.S754_zero false) then SpecFloat.S754_infinity true
  else ffadd parent_path_logprob (math_log child_prob).

(** ** Acceptance counts *)

Record AcceptanceHistogram := mkHist { seen : list Z; accepted : list Z }.

Definition empty (max_depth : Z) : AcceptanceHistogram :=
  mkHist (replicate (Z.to_nat max_depth) 0) (replicate (Z.to_nat max_depth) 0).

(** [l[i] += 1] *)
Definition py_incr (i : Z) (l : list Z) : res (list Z) :=
  let j := if 0 <=? i then i else zlen l + i in
  if (0 <=? j) && (j <? zlen l) then Ok (alter (Z.add 1) (Z.to_nat j) l) else Raise IndexError.

Definition record (depth : Z) (was_accepted : bool) : M AcceptanceHistogram unit :=
  h ← get;
  (if zlen (seen h) <=? depth then
     let pad := replicate (Z.to_nat (depth + 1 - zlen (seen h))) 0 in
     put (mkHist (seen h ++ pad) (accepted h ++ pad))
   else mret tt);;
  h ← get;
  s ← lift (py_incr depth (seen h));
  put (mkHist s (accepted h));;
  if was_accepted then
    a ← lift (py_incr depth (accepted h));
    put (mkHist s a)
  else mret tt.

Fixpoint record_all (checks : list (Z * bool)) : M AcceptanceHistogram unit :=
  match checks with
  | [] => mret tt
  | (d, b) :: checks' => record d b;; record_all checks'
  end.

(** ** Rejection sampling *)

(** What the code asks of torch: [S] the scalars of a distribution, [G] the state of
    the random generator. *)
Class TorchProb (S G : Type) := {
  t_sub : S → S → S;
  t_div : S → S → S;
  t_sum : list S → S;
  t_clamp_min_zero : S → S;   (** [clamp(min=0.0)] *)
  t_clamp_min_tiny : S → S;   (** [clamp(min=1e-20)] *)
  t_clamp_max_one : S → S;    (** [clamp(max=1.0)] *)
  t_nonpos : S → bool;        (** [<= 0] *)
  t_lt : S → S → bool;        (** [<] on the Python floats of [item()] *)
  t_rand : G → G * S;         (** [torch.rand(1).item()] *)
  t_multinomial : list S → M G Z;  (** [torch.multinomial(w, num_samples=1).item()] *)
}.

(** Documented: a sample is an index of the weights. *)
Class TorchProbLaws (S G : Type) `{TorchProb S G} :=
  multinomial_range (w : list S) (g g' : G) i : t_multinomial w g = (g', Ok i) → 0 ≤ i < zlen w.

Section verify.
Context {S G : Type} `{TorchProb S G}.

Record EdgeVerifyResult := mkEdge { e_accepted : bool; sampled_token : Z }.

Definition residual_distribution (p_target p_draft : list S) : list S :=
  let residual := t_clamp_min_zero <$> zip_with t_sub p_target p_draft in
  let total := t_sum residual in
  if t_nonpos total then (λ x, t_div x (t_clamp_min_tiny (t_sum p_target))) <$> p_target
  else (λ x, t_div x total) <$> residual.

Definition verify_edge (p_target p_draft : list S) (draft_token : Z) : M G EdgeVerifyResult :=
  guard_py (zlen p_target =? zlen p_draft) AssertionError;;
  guard_py ((0 <=? draft_token) && (draft_token <? zlen p_target)) AssertionError;;
  q ← lift (of_option IndexError (py_index p_draft draft_token));
  p ← lift (of_option IndexError (py_index p_target draft_token));
  if t_nonpos q then mret (mkEdge true draft_token)
  else
    let accept_prob := t_clamp_max_one (t_div p q) in
    u ← (λ g, let (g', u) := t_rand g in (g', Ok u));
    if t_lt u accept_prob then mret (mkEdge true draft_token)
    else
      let res := residual_distribution p_target p_draft in
      sampled ← t_multinomial res;
      mret (mkEdge false sampled).

(** The loop over the edges: what was committed, how many were accepted, and whether
    an edge was rejected. *)
Fixpoint verify_edges (i : nat) (target_probs draft_probs : list (list S)) (draft_tokens : list Z)
    (n : nat) (committed : list Z) (accepted_len : Z) : M G (list Z * Z * bool) :=
  match n with
  | O => mret (committed, accepted_len, false)
  | Datatypes.S n =>
      pt ← lift (of_option IndexError (target_probs !! i));
      pd ← lift (of_option IndexError (draft_probs !! i));
      tok ← lift (of_option IndexError (draft_tokens !! i));
      result ← verify_edge pt pd tok;
      if e_accepted result
      then verify_edges (Datatypes.S i) target_probs draft_probs draft_tokens n
             (committed ++ [sampled_token result]) (accepted_len + 1)
      else mret (committed ++ [sampled_token result], accepted_len, true)
  end.

Definition verify_path (target_probs draft_probs : list (list S)) (draft_tokens : list Z) : M G (list Z * Z) :=
  let path_len := length target_probs in
  guard_py (length draft_tokens =? path_len)%nat AssertionError;;
  r ← verify_edges 0 target_probs draft_probs draft_tokens path_len [] 0;
  let '(committed, accepted_len, rejected) := r in
  if (rejected : bool) then mret (committed, accepted_len)
  else
    last ← lift (of_option IndexError (py_index target_probs (-1)));
    bonus ← t_multinomial last;
    mret (committed ++ [bonus], accepted_len).
End verify.

(** ** Proofs: the frontier *)

Lemma filter_take_prefix {A} (P : A → Prop) `{∀ x, Decision (P x)} n (l : list A) :
  filter P (take n l) `prefix_of` filter P l.
Proof. rewrite <- (take_drop n l) at 2. rewrite filter_app. by apply prefix_app_r. Qed.

Lemma sorted_take_drop {A} (key : A → float) n l x y :
  key_sorted key l → x ∈ take n l → y ∈ drop n l → fleb (key x) (key y) = true.
Proof.
  revert l. induction n as [|n IH]; intros l Hs Hx Hy; [by apply not_elem_of_nil in Hx|].
  destruct l as [|z l]; [by apply not_elem_of_nil in Hx|]. simpl in *.
  apply Sorting.Sorted.StronglySorted_inv in Hs as [Hs Hf]. apply elem_of_cons in Hx as [->|Hx]; [|by apply (IH l)].
  rewrite list.Forall_forall in Hf. apply Hf. rewrite <- (take_drop n l). apply elem_of_app. by right.
Qed.

Lemma topk_spec {H} (pool : list (FrontierNode H)) budget :
  Forall (λ n, is_num (path_log_prob n) = true) pool →
  let out := select_topk_by_logprob pool budget in
  zlen out = Z.min (Z.max 0 budget) (zlen pool) ∧
  (∃ dropped, out ++ dropped ≡ₚ pool ∧
     ∀ x y, x ∈ out → y ∈ dropped → fleb (path_log_prob y) (path_log_prob x) = true) ∧
  ∀ v, is_num v = true →
    filter (λ n, key_eqb path_log_prob v n = true) out `prefix_of` filter (λ n, key_eqb path_log_prob v n = true) pool.
Proof.
  intros Hn. cbv zeta. unfold select_topk_by_logprob. pose proof (zlen_nonneg pool).
  destruct (Z.leb_spec budget 0) as [Hb|Hb].
  { split; [unfold zlen at 1; simpl; lia|]. split; [|intros; apply prefix_nil].
    exists pool. split; [done|]. by intros x y ?%not_elem_of_nil. }
  destruct (Z.leb_spec (zlen pool) budget) as [Hle|Hgt].
  { split; [lia|]. split; [|done]. exists []. rewrite app_nil_r. split; [done|]. by intros x y _ ?%not_elem_of_nil. }
  set (key := λ n : FrontierNode H, fopp (path_log_prob n)).
  assert (Forall (λ n, is_num (key n) = true) pool) as Hk.
  { eapply Forall_impl; [done|]. intros n. unfold key. by rewrite is_num_opp. }
  split; [|split].
  - unfold zlen in *. rewrite length_take, (Permutation_length (py_sorted_perm key pool)). lia.
  - exists (drop (Z.to_nat budget) (py_sorted key pool)). rewrite take_drop. split; [apply py_sorted_perm|].
    intros x y Hx Hy. rewrite <- fleb_opp.
    + eapply (sorted_take_drop key); [by apply py_sorted_sorted|done|done].
    + rewrite list.Forall_forall in Hn. apply Hn. rewrite <- (py_sorted_perm key pool), <- (take_drop (Z.to_nat budget) (py_sorted key pool)).
      apply elem_of_app. by left.
    + rewrite list.Forall_forall in Hn. apply Hn. rewrite <- (py_sorted_perm key pool), <- (take_drop (Z.to_nat budget) (py_sorted key pool)).
      apply elem_of_app. by right.
  - intros v Hv.
    assert (∀ l, Forall (λ n, is_num (path_log_prob n) = true) l →
      filter (λ n, key_eqb path_log_prob v n = true) l = filter (λ n, key_eqb key (fopp v) n = true) l) as Hkey.
    { induction 1 as [|n l Hnn HF IH]; [done|]. rewrite !filter_cons, IH.
      assert (key_eqb key (fopp v) n = key_eqb path_log_prob v n) as ->; [|done].
      unfold key_eqb, key. rewrite !fleb_opp by done. apply andb_comm. }
    assert (Forall (λ n, is_num (path_log_prob n) = true) (py_sorted key pool)) as Hs by (by rewrite py_sorted_perm).
    rewrite !Hkey; [|done|by apply Forall_take].
    rewrite <- (py_sorted_stable key (fopp v) pool); [apply filter_take_prefix|by rewrite is_num_opp|done].
Qed.

(** ** Proofs: the counts *)

Definition count (P : Z * bool → bool) (checks : list (Z * bool)) : Z := zlen (filter (λ c, P c = true) checks).

(** The counters after [checks], started with [n] depths. *)
Record hist_ok (n : Z) (checks : list (Z * bool)) (h : AcceptanceHistogram) : Prop := mkHistOk {
  ho_len : length (accepted h) = length (seen h);
  ho_min : n ≤ zlen (seen h);
  ho_seen d : default 0 (seen h !! d) = count (λ c, c.1 =? Z.of_nat d) checks;
  ho_accepted d : default 0 (accepted h !! d) = count (λ c, (c.1 =? Z.of_nat d) && c.2) checks;
}.

Lemma count_snoc P checks c : count P (checks ++ [c]) = count P checks + (if P c then 1 else 0).
Proof.
  unfold count. rewrite filter_app, zlen_app, filter_cons, filter_nil.
  destruct (P c); [by rewrite decide_True|by rewrite decide_False].
Qed.

Lemma pad_lookup (l : list Z) k d : default 0 ((l ++ replicate k 0) !! d) = default 0 (l !! d).
Proof.
  destruct (decide (d < length l)%nat); [by rewrite lookup_app_l|].
  rewrite lookup_app_r, (lookup_ge_None_2 l) by lia. destruct (replicate k 0 !! _) eqn:E; [|done].
  apply lookup_replicate in E as [-> _]. done.
Qed.

Lemma py_incr_spec i l : 0 ≤ i < zlen l →
  ∃ l', py_incr i l = Ok l' ∧ length l' = length l ∧
    ∀ d, default 0 (l' !! d) = default 0 (l !! d) + (if i =? Z.of_nat d then 1 else 0).
Proof.
  intros Hi. unfold py_incr. rewrite (proj2 (Z.leb_le 0 i)) by lia.
  rewrite (proj2 (Z.leb_le 0 i)), (proj2 (Z.ltb_lt i _)) by lia. simpl. eexists. split; [done|].
  split; [apply length_alter|]. intros d. destruct (Z.eqb_spec i (Z.of_nat d)) as [->|Hne].
  - rewrite Nat2Z.id, list_lookup_alter_eq. destruct (l !! d) as [v|] eqn:E; simpl; [lia|].
    apply lookup_ge_None in E. unfold zlen in Hi. lia.
  - rewrite list_lookup_alter_ne by lia. lia.
Qed.

Lemma record_spec n checks h d b : 0 ≤ d → hist_ok n checks h →
  ∃ h', record d b h = (h', Ok tt) ∧ hist_ok n (checks ++ [(d, b)]) h'.
Proof.
  intros Hd [Hl Hm Hs Ha]. unfold record. rewrite get_bind.
  assert (∃ h1, (if zlen (seen h) <=? d
     then let pad := replicate (Z.to_nat (d + 1 - zlen (seen h))) 0 in put (mkHist (seen h ++ pad) (accepted h ++ pad))
     else mret tt) h = (h1, Ok tt) ∧ hist_ok n checks h1 ∧ d < zlen (seen h1)) as (h1 & E & [Hl1 Hm1 Hs1 Ha1] & Hd1).
  { destruct (Z.leb_spec (zlen (seen h)) d); [|by exists h].
    set (pad := replicate (Z.to_nat (d + 1 - zlen (seen h))) 0).
    exists (mkHist (seen h ++ pad) (accepted h ++ pad)). split; [reflexivity|].
    split; [split; simpl|simpl; rewrite zlen_app; unfold pad; unfold zlen in *; rewrite length_replicate; lia].
    - by rewrite !length_app, Hl.
    - rewrite zlen_app. pose proof (zlen_nonneg pad). lia.
    - intros k. unfold pad. by rewrite pad_lookup.
    - intros k. unfold pad. by rewrite pad_lookup. }
  rewrite (bind_ok _ _ _ _ _ E), get_bind.
  destruct (py_incr_spec d (seen h1)) as (s & Hsi & Hsl & Hsd); [lia|]. rewrite Hsi, lift_ok_bind, put_bind.
  destruct b.
  - destruct (py_incr_spec d (accepted h1)) as (a & Hai & Hal & Had); [unfold zlen in *; lia|].
    rewrite Hai, lift_ok_bind. eexists. split; [reflexivity|]. split; simpl; [congruence|unfold zlen in *; lia| |].
    + intros k. by rewrite Hsd, Hs1, count_snoc.
    + intros k. rewrite Had, Ha1, count_snoc. simpl. by rewrite andb_true_r.
  - eexists. split; [reflexivity|]. split; simpl; [congruence|unfold zlen in *; lia| |].
    + intros k. by rewrite Hsd, Hs1, count_snoc.
    + intros k. rewrite Ha1, count_snoc. simpl. rewrite andb_false_r. lia.
Qed.

(** ** Proofs: verification *)

Section verify_proofs.
Context {S G : Type} `{TorchProb S G} (tp dp : list (list S)) (toks : list Z).

(** Edge [i]: the distributions, the drafted token and its two probabilities. *)
Definition edge_at (i : nat) (pt pd : list S) (tok : Z) (p q : S) : Prop :=
  tp !! i = Some pt ∧ dp !! i = Some pd ∧ toks !! i = Some tok ∧ zlen pt = zlen pd ∧ 0 ≤ tok ∧
  pd !! Z.to_nat tok = Some q ∧ pt !! Z.to_nat tok = Some p.

(** The edge accepts its token, taking the generator from [g] to [g']. *)
Definition edge_accepts (i : nat) (g g' : G) : Prop :=
  ∃ pt pd tok p q, edge_at i pt pd tok p q ∧
    ((t_nonpos q = true ∧ g' = g) ∨
     (t_nonpos q = false ∧ g' = (t_rand g).1 ∧ t_lt (t_rand g).2 (t_clamp_max_one (t_div p q)) = true)).

(** The edge rejects it and draws [s] from the residual distribution. *)
Definition edge_rejects (i : nat) (g g' : G) (s : Z) : Prop :=
  ∃ pt pd tok p q, edge_at i pt pd tok p q ∧ t_nonpos q = false ∧
    t_lt (t_rand g).2 (t_clamp_max_one (t_div p q)) = false ∧
    t_multinomial (residual_distribution pt pd) (t_rand g).1 = (g', Ok s).

Definition inputs_ok : Prop :=
  length dp = length tp ∧ length toks = length tp ∧
  ∀ i pt pd tok, tp !! i = Some pt → dp !! i = Some pd → toks !! i = Some tok →
    zlen pt = zlen pd ∧ 0 ≤ tok < zlen pt.

Lemma inputs_edge i : inputs_ok → (i < length tp)%nat → ∃ pt pd tok p q, edge_at i pt pd tok p q.
Proof.
  intros (Hd & Ht & Hok) Hi. destruct (lookup_lt_is_Some_2 tp i) as [pt Hpt]; [lia|].
  destruct (lookup_lt_is_Some_2 dp i) as [pd Hpd]; [lia|]. destruct (lookup_lt_is_Some_2 toks i) as [tok Htok]; [lia|].
  destruct (Hok i pt pd tok Hpt Hpd Htok) as [Hl Hr].
  destruct (lookup_lt_is_Some_2 pt (Z.to_nat tok)) as [p Hp]; [unfold zlen in *; lia|].
  destruct (lookup_lt_is_Some_2 pd (Z.to_nat tok)) as [q Hq]; [unfold zlen in *; lia|].
  exists pt, pd, tok, p, q. repeat split; try done; lia.
Qed.

Lemma verify_edge_spec i pt pd tok p q g : edge_at i pt pd tok p q →
  match verify_edge pt pd tok g with
  | (g', Ok r) =>
      if e_accepted r then sampled_token r = tok ∧ edge_accepts i g g'
      else edge_rejects i g g' (sampled_token r)
  | (g', Raise e) => ∃ w g1, t_multinomial w g1 = (g', Raise e)
  end.
Proof.
  intros He. pose proof He as (Htp & Hdp & Htok & Hl & H0 & Hq & Hp). unfold verify_edge.
  apply lookup_lt_Some in Hp as Hlt.
  rewrite (proj2 (Z.eqb_eq _ _) Hl), (proj2 (Z.leb_le 0 tok)), (proj2 (Z.ltb_lt tok _)) by (unfold zlen; lia).
  cbn [andb guard_py]. rewrite !(bind_ok (mret tt) _ g g tt) by done.
  rewrite !py_index_nonneg, Hq, Hp by done. cbn [of_option]. rewrite !lift_ok_bind.
  destruct (t_nonpos q) eqn:Hn.
  { cbn. split; [done|]. exists pt, pd, tok, p, q. split; [done|]. by left. }
  cbv zeta. unfold mbind, M_bind at 1. destruct (t_rand g) as [g1 u] eqn:Hr.
  destruct (t_lt u (t_clamp_max_one (t_div p q))) eqn:Hlt'.
  { cbn. split; [done|]. exists pt, pd, tok, p, q. split; [done|]. right. by rewrite Hr. }
  unfold M_bind. destruct (t_multinomial (residual_distribution pt pd) g1) as [g2 [s|e]] eqn:Hm; cbn.
  - exists pt, pd, tok, p, q. rewrite Hr. done.
  - by exists (residual_distribution pt pd), g1.
Qed.

(** [k] accepted edges from [i] on, through the generator states [gs]. *)
Definition accepted_run (i k : nat) (g : G) (gs : list G) (g' : G) : Prop :=
  length gs = Datatypes.S k ∧ gs !! 0%nat = Some g ∧ gs !! k = Some g' ∧
  ∀ j a b, (j < k)%nat → gs !! j = Some a → gs !! Datatypes.S j = Some b → edge_accepts (i + j) a b.

Lemma accepted_run_cons i k g g1 gs g' : edge_accepts i g g1 → accepted_run (Datatypes.S i) k g1 gs g' →
  accepted_run i (Datatypes.S k) g (g :: gs) g'.
Proof.
  intros He (Hl & H0 & Hk & Hj). split; [simpl; lia|]. split; [done|]. split; [done|].
  intros [|j] a b Hlt; simpl.
  - intros [= <-] Hb. rewrite H0 in Hb. injection Hb as <-. by rewrite Nat.add_0_r.
  - intros Ha Hb. rewrite Nat.add_succ_r. apply (Hj j a b); [lia|done|done].
Qed.

Lemma verify_edges_spec n i c a g : inputs_ok → (i + n = length tp)%nat →
  match verify_edges i tp dp toks n c a g with
  | (g', Ok (c', a', rejected)) =>
      ∃ k gs gk, a' = a + Z.of_nat k ∧ accepted_run i k g gs gk ∧
        if (rejected : bool)
        then (k < n)%nat ∧ ∃ s, c' = c ++ take k (drop i toks) ++ [s] ∧ edge_rejects (i + k) gk g' s
        else k = n ∧ c' = c ++ drop i toks ∧ g' = gk
  | (g', Raise e) => ∃ w g1, t_multinomial w g1 = (g', Raise e)
  end.
Proof.
  intros Hok. revert i c a g. induction n as [|n IH]; intros i c a g Hi; cbn [verify_edges].
  { exists 0%nat, [g], g. split; [lia|]. split.
    { split; [done|]. split; [done|]. split; [done|]. intros; lia. }
    split; [done|]. split; [|done]. rewrite drop_ge, app_nil_r; [done|]. destruct Hok as (_ & -> & _). lia. }
  destruct (inputs_edge i Hok) as (pt & pd & tok & p & q & He); [lia|].
  pose proof He as (Htp & Hdp & Htok & _). rewrite Htp, Hdp, Htok. cbn [of_option]. rewrite !lift_ok_bind.
  pose proof (verify_edge_spec i pt pd tok p q g He) as Hv.
  destruct (verify_edge pt pd tok g) as [g1 [r|e]] eqn:E; [rewrite (bind_ok _ _ _ _ _ E)|by rewrite (bind_raise _ _ _ _ _ E)].
  destruct (e_accepted r) eqn:Hacc.
  - destruct Hv as [-> Hg]. specialize (IH (Datatypes.S i) (c ++ [tok]) (a + 1) g1 ltac:(lia)).
    destruct (verify_edges _ _ _ _ n (c ++ [tok]) (a + 1) g1) as [g' [[[c' a'] rej]|e]]; [|done].
    destruct IH as (k & gs & gk & -> & Hrun & Hrest). exists (Datatypes.S k), (g :: gs), gk. split; [lia|].
    split; [by eapply accepted_run_cons|]. rewrite (drop_S toks tok i Htok).
    destruct rej.
    + destruct Hrest as (Hk & s & -> & Hs). split; [lia|]. exists s. rewrite Nat.add_succ_r. split; [|done].
      simpl. by rewrite <- (assoc_L (++)).
    + destruct Hrest as (-> & -> & ->). split; [done|]. split; [|done]. by rewrite <- (assoc_L (++)).
  - exists 0%nat, [g], g. split; [lia|]. split.
    { split; [done|]. split; [done|]. split; [done|]. intros; lia. }
    split; [lia|]. exists (sampled_token r). rewrite Nat.add_0_r. done.
Qed.
End verify_proofs.

(** ** Properties *)

(** Budgeted expansion. The plan keeps as many nodes as the budget allows (none for
    a non-positive one), all from the frontier and above the threshold; no node left
    out has a larger log-probability than a node kept, and among equal ones the
    earlier are kept, in their order. *)
Lemma budgeted_plan {H} (frontier : list (FrontierNode H)) budget min_log_prob :
  Forall (λ n, is_num (path_log_prob n) = true) frontier →
  let pool := match min_log_prob with
              | Some p => filter (λ n, fleb p (path_log_prob n) = true) frontier | None => frontier end in
  let out := budgeted_expand_plan frontier budget min_log_prob in
  zlen out = Z.min (Z.max 0 budget) (zlen pool) ∧
  (∃ dropped, out ++ dropped ≡ₚ pool ∧
     ∀ x y, x ∈ out → y ∈ dropped → fleb (path_log_prob y) (path_log_prob x) = true) ∧
  ∀ v, is_num v = true →
    filter (λ n, key_eqb path_log_prob v n = true) out `prefix_of` filter (λ n, key_eqb path_log_prob v n = true) pool.
Proof.
  intros Hn. apply topk_spec. destruct min_log_prob as [p|]; [|done].
  rewrite list.Forall_forall in Hn |- *. intros x [_ Hx]%list_elem_of_filter. by apply Hn.
Qed.

(** Acceptance counts. Recording any sequence of checks at non-negative depths in
    an empty histogram succeeds; the two lists stay equally long and grow as needed,
    and at every depth hold how many checks were made there and how many of them were
    accepted. *)
Lemma histogram_counts max_depth checks :
  Forall (λ c, 0 ≤ c.1) checks →
  ∃ h, record_all checks (empty max_depth) = (h, Ok tt) ∧ hist_ok max_depth checks h ∧
    ∀ d, 0 ≤ default 0 (accepted h !! d) ≤ default 0 (seen h !! d).
Proof.
  intros HF.
  assert (∀ done h, hist_ok max_depth done h →
    ∃ h', record_all checks h = (h', Ok tt) ∧ hist_ok max_depth (done ++ checks) h') as Hrec.
  { induction HF as [|[d b] checks Hd HF IH]; intros dn h Hh; cbn [record_all].
    - exists h. by rewrite app_nil_r.
    - destruct (record_spec _ _ h d b Hd Hh) as (h1 & E & Hh1). rewrite (bind_ok _ _ _ _ _ E).
      destruct (IH _ _ Hh1) as (h2 & E2 & Hh2). exists h2. split; [done|]. by rewrite <- (assoc_L (++)) in Hh2. }
  destruct (Hrec [] (empty max_depth)) as (h & E & Hh).
  { assert (∀ k, default 0 (replicate (Z.to_nat max_depth) 0 !! k) = 0) as Hz.
    { intros k. destruct (replicate _ 0 !! k) eqn:Er; [|done]. by apply lookup_replicate in Er as [-> _]. }
    split; simpl; [done|unfold zlen; rewrite length_replicate; lia|intros; apply Hz|intros; apply Hz]. }
  exists h. split; [done|]. split; [done|]. intros d. simpl in Hh.
  rewrite (ho_seen _ _ _ Hh), (ho_accepted _ _ _ Hh). split; [apply zlen_nonneg|].
  unfold count, zlen. apply inj_le. clear. induction checks as [|c checks IH]; [done|].
  rewrite !filter_cons. destruct (c.1 =? Z.of_nat d); simpl; [destruct (c.2)|]; simpl; lia.
Qed.

(** C11: Path verification. On a non-empty path with matching shapes and tokens in the
    vocabulary, the draws are made in order: the accepted tokens are the longest
    prefix of drafted tokens whose edges accept, followed by exactly one token, drawn
    from the residual distribution of the rejecting edge or, after a fully accepted
    path, from the last target distribution; all of it lies in the vocabulary. The
    only errors are those of the sampler. An empty path raises IndexError. *)
Theorem verify_path_commits {S G} `{TorchProbLaws S G} (tp dp : list (list S)) (toks : list Z) (vocab : Z) (g : G) :
  inputs_ok tp dp toks → Forall (λ w, zlen w = vocab) tp →
  match verify_path tp dp toks g with
  | (g', Ok (committed, accepted_len)) =>
      ∃ k s gs gk, accepted_len = Z.of_nat k ∧ (k ≤ length toks)%nat ∧ committed = take k toks ++ [s] ∧
        accepted_run tp dp toks 0 k g gs gk ∧ Forall (λ t, 0 ≤ t < vocab) committed ∧
        if decide (k < length toks)%nat then edge_rejects tp dp toks k gk g' s
        else ∃ w, last tp = Some w ∧ t_multinomial w gk = (g', Ok s)
  | (g', Raise e) =>
      (tp = [] ∧ e = IndexError ∧ g' = g) ∨ (tp ≠ [] ∧ ∃ w g1, t_multinomial w g1 = (g', Raise e))
  end.
Proof.
  intros Hok Hv. pose proof Hok as (Hld & Hlt & Hin). unfold verify_path.
  rewrite Hlt, Nat.eqb_refl. cbn [guard_py]. rewrite (bind_ok (mret tt) _ g g tt) by done.
  assert (∀ k, Forall (λ t, 0 ≤ t < vocab) (take k toks)) as Htoks.
  { intros k. apply Forall_take, Forall_lookup_2. intros i tok Htok. apply lookup_lt_Some in Htok as Hi.
    destruct (lookup_lt_is_Some_2 tp i) as [pt Hpt]; [lia|]. destruct (lookup_lt_is_Some_2 dp i) as [pd Hpd]; [lia|].
    rewrite Forall_lookup in Hv. rewrite <- (Hv i pt Hpt). by eapply Hin. }
  pose proof (verify_edges_spec tp dp toks (length tp) 0 [] 0 g Hok eq_refl) as Hs.
  destruct (verify_edges 0 tp dp toks (length tp) [] 0 g) as [g1 [[[c a] rej]|e]] eqn:E.
  2: { rewrite (bind_raise _ _ _ _ _ E). right. split; [|done]. intros ->. simpl in E. discriminate E. }
  rewrite (bind_ok _ _ _ _ _ E). destruct Hs as (k & gs & gk & -> & Hrun & Hs). destruct rej.
  - destruct Hs as (Hk & s & -> & Hrej). exists k, s, gs, gk. rewrite drop_0. split; [lia|]. split; [lia|].
    split; [done|]. split; [done|]. rewrite decide_True by lia. split; [|done].
    simpl. apply Forall_app. split; [apply Htoks|]. apply Forall_singleton.
    destruct Hrej as (pt & pd & tok & p & q & (Hpt & Hpd & _ & Hl & _) & _ & _ & Hm).
    apply multinomial_range in Hm. rewrite Forall_lookup in Hv. specialize (Hv _ pt Hpt).
    assert (zlen (residual_distribution pt pd) = zlen pt) as Hres; [|lia].
    unfold residual_distribution. destruct (t_nonpos _); unfold zlen in *; rewrite !length_fmap; [done|].
    rewrite length_zip_with. lia.
  - destruct Hs as (-> & -> & ->). simpl. rewrite drop_0. destruct (exists_last_or_nil tp) as [->|(tp' & w & ->)].
    { left. simpl in E. by injection E as -> _. }
    assert (py_index (tp' ++ [w]) (-1) = Some w) as ->.
    { unfold py_index. rewrite zlen_app. unfold zlen. simpl. rewrite (proj2 (Z.leb_le 0 _)) by lia.
      rewrite lookup_app_r by lia. replace (Z.to_nat _ - length tp')%nat with 0%nat by lia. done. }
    cbn [of_option]. rewrite lift_ok_bind. unfold mbind, M_bind. destruct (t_multinomial w gk) as [g2 [s|e]] eqn:Em; simpl.
    + exists (length (tp' ++ [w])), s, gs, gk. split; [done|]. split; [lia|]. rewrite take_ge by lia.
      split; [done|]. split; [done|]. rewrite decide_False by lia. rewrite last_snoc. split; [|eauto].
      apply Forall_app. split; [rewrite <- (take_ge toks (length toks)) by done; apply Htoks|]. apply Forall_singleton.
      apply multinomial_range in Em. apply Forall_app in Hv as [_ Hw]. apply Forall_inv in Hw. simpl in Hw. lia.
    + right. split; [by intros [_ ?]%app_nil|eauto].
Qed.

(** ** Examples *)

(** A sampler over integer weights that reads its draws from a list. *)
#[export] Instance demo_torch : TorchProb Z (list Z) := {|
  t_sub := Z.sub;
  t_div := λ x y, 100 * x / y;
  t_sum := foldr Z.add 0;
  t_clamp_min_zero := Z.max 0;
  t_clamp_min_tiny := Z.max 1;
  t_clamp_max_one := Z.min 100;
  t_nonpos := λ x, x <=? 0;
  t_lt := Z.ltb;
  t_rand := λ g, match g with u :: g' => (g', u) | [] => ([], 0) end;
  t_multinomial := λ w g, match g with
                          | i :: g' => if (0 <=? i) && (i <? zlen w) then (g', Ok i) else (g', Raise RuntimeError)
                          | [] => ([], Raise RuntimeError)
                          end;
|}.

#[export] Instance demo_torch_laws : TorchProbLaws Z (list Z).
Proof.
  intros w [|j g] g' i; simpl; [done|]. destruct ((0 <=? j) && (j <? zlen w)) eqn:E; [|done].
  apply andb_true_iff in E as [?%Z.leb_le ?%Z.ltb_lt]. intros [= _ <-]. lia.
Qed.

Example demo_verify :
  verify_path [[10; 80; 10]; [50; 25; 25]] [[10; 40; 50]; [80; 10; 10]] [1; 0] [50; 90; 2] = ([], Ok ([1; 2], 1)).
Proof. reflexivity. Qed.

Lemma budgeted_plan_witness :
  zlen (budgeted_expand_plan [mkFrontier 0 float_one 0; mkFrontier 1 (fopp float_one) 0; mkFrontier 2 float_one 0] 2 None) = 2.
Proof.
  destruct (budgeted_plan [mkFrontier 0 float_one 0; mkFrontier 1 (fopp float_one) 0; mkFrontier 2 float_one 0] 2 None)
    as [Hl _]; [repeat constructor|exact Hl].
Defined.

Lemma histogram_counts_witness : ∃ h, record_all [(0, true); (3, false)] (empty 2) = (h, Ok tt).
Proof.
  destruct (histogram_counts 2 [(0, true); (3, false)]) as (h & Hh & _); [repeat constructor; simpl; lia|].
  exists h. exact Hh.
Defined.

Lemma verify_path_commits_witness :
  ∃ k s, [1; 2] = take k [1; 0] ++ [s] ∧ 1 = Z.of_nat k.
Proof.
  pose proof (verify_path_commits [[10; 80; 10]; [50; 25; 25]] [[10; 40; 50]; [80; 10; 10]] [1; 0] 3 [50; 90; 2]) as H.
  destruct H as (k & s & gs & gk & Hk & _ & Hc & _); [| |exists k, s; exact (conj Hc Hk)].
  - split; [reflexivity|]. split; [reflexivity|].
    intros [|[|i]] pt pd tok Hpt Hpd Htok; simpl in *; try discriminate Hpt;
      injection Hpt as <-; injection Hpd as <-; injection Htok as <-; (split; [reflexivity|unfold zlen; simpl; lia]).
  - repeat constructor.
Defined.
