(* ===== verification/SpecPrune.v ===== *)
(** * Pruning of draft trees on a server (server/speculative_pruner/, server/backend.py)

    The last block of a server drops the nodes of the draft tree that a small head on its own
    hidden states finds unlikely: the pruner of one loop per row ([SimpleProbabilityPruner]), the
    vectorised one ([AdaptiveNeuralPruner]) and the manager that falls back to keeping all. Both
    keep the nodes whose whole root path passes the pruner's test; the first one also drops tokens
    outside the head's vocabulary, whose descendants it goes on to test.

    The head, [softmax], [topk] and the decision network are parameters, and so are the
    probability features; the running averages of a pruner's training are left out. *)

From stdpp Require Import numbers base list sorting relations strings.
From Stdlib Require Import ZArith Lia.
From S2P Require Import Prelude PySort Floats SpecTree.

(** ** Shared by the pruners *)

(** The indices at which a row holds, [torch.where(row)[0].tolist()]. *)
Definition where_true (row : list bool) : list Z :=
  (λ ib : nat * bool, Z.of_nat ib.1) <$> filter (λ ib, ib.2 = true) (imap pair row).

(** A row filled up to [n] with -1. *)
Definition pad_minus_one (n : Z) (row : list Z) : list Z := row ++ replicate (Z.to_nat (n - zlen row)) (-1).

(** [(row >= 0).sum()] *)
Definition count_valid (row : list Z) : Z := zlen (filter (λ v, 0 ≤ v) row).

Definition max_len (rows : list (list Z)) : Z := foldl Z.max 0 (zlen <$> rows).

Record prune_result := mkPruned {
  keep_indices : list (list Z);   (** padded with -1 *)
  prune_indices : list (list Z);  (** padded with -1 *)
  keep_probs : list (list float);
  keep_mask : list (list bool);
  kept_lengths : list Z;          (** ['valid_lengths'] *)
}.

(** The last [j] below [k] with [f j]. *)
Fixpoint last_below (k : nat) (f : Z → bool) : option Z :=
  match k with
  | O => None
  | S k => if f (Z.of_nat k) then Some (Z.of_nat k) else last_below k f
  end.

(** ** SimpleProbabilityPruner *)

(** [_get_parent_postion_batched]; a node without a parent is its own. *)
Definition get_parent_position (i : nat) (m : mask) (prefix : Z) : Z :=
  default (Z.of_nat i) (last_below i (λ j, m_at m (Z.of_nat i) (j + prefix))).

Class PrunerHead (L : Type) := {
  p_softmax : L → list float;
  p_topk : list float → Z → list Z;  (** the ids of [torch.topk(probs, k=...)] *)
}.

Record row_state := mkRow { r_keep : list bool; r_discarded : list bool; r_scores : list float }.

(** [row[j] = v] for the descendants of [i] *)
Definition mark_below (i : nat) (m : mask) (prefix : Z) {A} (v : A) (row : list A) : list A :=
  imap (λ j x, if (i <? j)%nat && m_at m (Z.of_nat j) (Z.of_nat i + prefix) then v else x) row.

Section simple.
Context {L : Type} `{PrunerHead L}.
Variable (vocab_size : Z).

(** The body of the loop over the nodes. *)
Definition visit_node (m : mask) (prefix : Z) (middle_logits : list L) (draft_tokens : list Z) (i : nat) (st : row_state)
    : res row_state :=
  match i with
  | O => Ok (mkRow (<[0%nat := true]> (r_keep st)) (r_discarded st) (<[0%nat := float_one]> (r_scores st)))
  | S _ =>
      if default false (r_discarded st !! i) then
        Ok (mkRow (<[i := false]> (r_keep st)) (r_discarded st) (<[i := SpecFloat.S754_zero false]> (r_scores st)))
      else
        logits_at_pos ← of_option IndexError (middle_logits !! Z.to_nat (get_parent_position i m prefix));
        let probs := p_softmax logits_at_pos in
        let topk_ids := p_topk probs (Z.min 50 vocab_size) in
        draft_id ← of_option IndexError (draft_tokens !! i);
        if (draft_id <? 0) || (zlen probs <=? draft_id) then
          Ok (mkRow (<[i := false]> (r_keep st)) (<[i := true]> (r_discarded st)) (r_scores st))
        else
          draft_prob ← of_option IndexError (probs !! Z.to_nat draft_id);
          let scores := <[i := draft_prob]> (r_scores st) in
          if bool_decide (draft_id ∈ topk_ids) then Ok (mkRow (r_keep st) (r_discarded st) scores)
          else Ok (mkRow (mark_below i m prefix false (<[i := false]> (r_keep st)))
                 (mark_below i m prefix true (<[i := true]> (r_discarded st))) scores)
  end.

Fixpoint visit_nodes (m : mask) (prefix : Z) (middle_logits : list L) (draft_tokens : list Z) (todo : list nat) (st : row_state)
    : res row_state :=
  match todo with
  | [] => Ok st
  | i :: todo => st' ← visit_node m prefix middle_logits draft_tokens i st; visit_nodes m prefix middle_logits draft_tokens todo st'
  end.

(** One row of the batch. *)
Definition prune_row (m : mask) (prefix : Z) (middle_logits : list L) (draft_tokens : list Z) : res row_state :=
  let seq_len := length middle_logits in
  visit_nodes m prefix middle_logits draft_tokens (seq 0 seq_len)
    (mkRow (replicate seq_len true) (replicate seq_len false) (replicate seq_len (SpecFloat.S754_zero false))).

Record pruner_stats := mkStats { total_branches : Z; pruned_branches : Z }.

(** [SimpleProbabilityPruner.prune_branches] of a batch; the logits are those of the head. *)
Definition simple_prune_branches (middle_logits : list (list L)) (draft_tokens : list (list Z)) (tree_attention_mask : list mask)
    : M pruner_stats prune_result :=
  let batch_size := length middle_logits in
  let seq_len := match middle_logits with row :: _ => zlen row | [] => 0 end in
  rows ← lift (mapM (λ b,
      m ← of_option IndexError (tree_attention_mask !! b);
      logits ← of_option IndexError (middle_logits !! b);
      tokens ← of_option IndexError (draft_tokens !! b);
      prune_row m (m_cols m - seq_len) logits tokens)
    (seq 0 batch_size));
  match rows with
  | [] => mthrow ValueError (* max of nothing *)
  | _ =>
      let batch_keep_indices := where_true ∘ r_keep <$> rows in
      let batch_prune_indices := where_true ∘ fmap negb ∘ r_keep <$> rows in
      let padded_keep_indices := pad_minus_one (max_len batch_keep_indices) <$> batch_keep_indices in
      let padded_prune_indices := pad_minus_one (max_len batch_prune_indices) <$> batch_prune_indices in
      modify (λ st, mkStats (total_branches st + seq_len * Z.of_nat batch_size)
        (pruned_branches st + foldr Z.add 0 (zlen <$> batch_prune_indices)));;
      mret (mkPruned padded_keep_indices padded_prune_indices (r_scores <$> rows) (r_keep <$> rows)
        (count_valid <$> padded_keep_indices))
  end.
End simple.

(** ** AdaptiveNeuralPruner *)

(** [masked_cols.max(dim=-1).values - 1], clamped: the parents of all rows. *)
Definition parent_index (seq_len : nat) (m : mask) (prefix : Z) (i : nat) : Z :=
  let masked_cols := (λ j : nat, if m_at m (Z.of_nat i) (Z.of_nat j + prefix) && (j <? i)%nat then Z.of_nat j + 1 else 0)
    <$> seq 0 seq_len in
  Z.max 0 (foldl Z.max 0 masked_cols - 1).

(** [_propagate_prune_mask_batched], one row of the batch: the discards of the nodes from [i] on. *)
Definition has_discarded_parent (m : mask) (prefix : Z) (discarded : list bool) (i : nat) : bool :=
  existsb (λ jd : nat * bool, m_at m (Z.of_nat i) (Z.of_nat jd.1 + prefix) && jd.2) (imap pair discarded).

Definition propagate_step (m : mask) (prefix : Z) (discarded : list bool) (i : nat) : list bool :=
  <[i := default false (discarded !! i) || has_discarded_parent m prefix discarded i]> discarded.

Definition propagate_prune_mask (initial_keep : list bool) (m : mask) (prefix : Z) : list bool :=
  negb <$> foldl (propagate_step m prefix) (negb <$> initial_keep) (seq 1 (length initial_keep - 1)).

(** The kept positions first, the sentinel [S] behind: [keep_rank.sort(dim=-1)]. *)
Definition sorted_ranks (row : list bool) : list Z :=
  merge_sort Z.le (imap (λ i b, if b : bool then Z.of_nat i else zlen row) row).

(** The first [n] ranks, the sentinel replaced by -1. *)
Definition padded_ranks (n : Z) (row : list bool) : list Z :=
  (λ v, if v =? zlen row then -1 else v) <$> take (Z.to_nat n) (sorted_ranks row).

Definition count_true (row : list bool) : Z := zlen (filter (λ b, b = true) row).

Section adaptive.
Context {L F : Type}.
(** The features of a draft token under the logits of its parent, and the decision network. *)
Variable prob_features : L → Z → res F.
Variable decision_net : F → float.
Variable neural_threshold : float.

(** The decisions of one row. *)
Definition decision_row (m : mask) (prefix : Z) (logits : list L) (draft_tokens : list Z) : res (list float) :=
  inner ← mapM (λ i,
      parent_logits ← of_option TorchError (logits !! Z.to_nat (parent_index (length logits) m prefix i));
      token_id ← of_option TorchError (draft_tokens !! i);
      f ← prob_features parent_logits token_id;
      Ok (decision_net f))
    (seq 1 (length logits - 1));
  Ok (float_one :: inner).

Definition initial_keep_row (decision_probs : list float) : list bool :=
  <[0%nat := true]> (fltb neural_threshold <$> decision_probs).

(** [AdaptiveNeuralPruner.prune_branches] of a batch. *)
Definition adaptive_prune_branches (logits : list (list L)) (draft_tokens : list (list Z)) (tree_attention_mask : list mask)
    : res prune_result :=
  let S := match logits with row :: _ => zlen row | [] => 0 end in
  rows ← mapM (λ b,
      m ← of_option IndexError (tree_attention_mask !! b);
      l ← of_option IndexError (logits !! b);
      tokens ← of_option IndexError (draft_tokens !! b);
      decision_probs ← decision_row m (m_cols m - S) l tokens;
      Ok (decision_probs, propagate_prune_mask (initial_keep_row decision_probs) m (m_cols m - S)))
    (seq 0 (length logits));
  match rows with
  | [] => Raise RuntimeError (* max of an empty tensor *)
  | _ =>
      let final_keep := rows.*2 in
      let valid_lengths := count_true <$> final_keep in
      let prune_mask := fmap negb <$> final_keep in
      Ok (mkPruned (padded_ranks (foldl Z.max 0 valid_lengths) <$> final_keep)
        (padded_ranks (foldl Z.max 0 (count_true <$> prune_mask)) <$> prune_mask)
        rows.*1 final_keep valid_lengths)
  end.
End adaptive.

(** ** The manager *)

Inductive PruningMethod := SIMPLE_PROBABILITY | ADAPTIVE_NEURAL.

(** [PruningMethod(value)] *)
Definition pruning_method (value : string) : res PruningMethod :=
  if bool_decide (value = "simple_probability"%string) then Ok SIMPLE_PROBABILITY
  else if bool_decide (value = "adaptive_neural"%string) then Ok ADAPTIVE_NEURAL
  else Raise ValueError.

Section manager.
(** Pruners: the constructors load weights, so that any of them may raise. *)
Context {P R : Type}.
Variable create_pruner : PruningMethod → res P.
Variable prune_branches : list (list R) → list (list Z) → list mask → M P prune_result.

Record manager := mkManager {
  method : PruningMethod;
  pruner : option P;
  pruner_unavailable : bool;
  total_tokens : Z;
  pruned_tokens : Z;
  iteration : Z;
}.

Definition new_manager (method : PruningMethod) : manager := mkManager method None false 0 0 0.

Definition ensure_pruner : M manager (option P) := λ s,
  match pruner s with
  | Some p => (s, Ok (Some p))
  | None =>
      if pruner_unavailable s then (s, Ok None)
      else match create_pruner (method s) with
           | Ok p => (mkManager (method s) (Some p) false (total_tokens s) (pruned_tokens s) (iteration s), Ok (Some p))
           | Raise _ => (mkManager (method s) None true (total_tokens s) (pruned_tokens s) (iteration s), Ok None)
           end
  end.

Definition build_keep_all_result (hidden_states : list (list R)) : prune_result :=
  let seq_len := match hidden_states with row :: _ => length row | [] => O end in
  let rows {A} (x : A) : list A := (λ _, x) <$> hidden_states in
  mkPruned (rows (seqZ 0 (Z.of_nat seq_len))) (rows []) (rows (replicate seq_len float_one))
    (rows (replicate seq_len true)) (rows (Z.of_nat seq_len)).

(** ['manager_metrics'] of the result: total, pruned and ['keep_rate']. *)
Definition manager_metrics (s : manager) : Z * Z * float :=
  (total_tokens s, pruned_tokens s,
   if 0 <? total_tokens s then fsub float_one (fdiv (float_of_Z (pruned_tokens s)) (float_of_Z (total_tokens s)))
   else float_one).

Definition prune_speculation_tree (norm_hidden_states : list (list R)) (draft_tokens : list (list Z))
    (tree_attention_mask : list mask) : M manager (prune_result * option (Z * Z * float)) :=
  p ← ensure_pruner;
  match p with
  | None => mret (build_keep_all_result norm_hidden_states, None)
  | Some p =>
      s ← get;
      let (p', r) := prune_branches norm_hidden_states draft_tokens tree_attention_mask p in
      let with_pruner total pruned iteration := mkManager (method s) (Some p') (pruner_unavailable s) total pruned iteration in
      put (with_pruner (total_tokens s) (pruned_tokens s) (iteration s));;
      results ← lift r;
      let s' := with_pruner (total_tokens s + zlen draft_tokens) (pruned_tokens s + zlen (prune_indices results)) (iteration s + 1) in
      put s';;
      mret (results, Some (manager_metrics s'))
  end.

(** [switch_method]; no pruner has an [acceptance_history] to carry over. *)
Definition switch_method (value : string) (keep_stats : bool) : M manager unit :=
  (if keep_stats then ensure_pruner else mret None);;
  m ← lift (pruning_method value);
  modify (λ s, mkManager m None false (total_tokens s) (pruned_tokens s) (iteration s));;
  ensure_pruner;;
  mret tt.
End manager.

(** ** The reference: nodes whose root path passes *)

(** Rows given by a function of the position. *)
Definition tab {A} (n : nat) (f : nat → A) : list A := f <$> seq 0 n.

Lemma tab_lookup {A} n (f : nat → A) i : tab n f !! i = if (i <? n)%nat then Some (f i) else None.
Proof.
  unfold tab. rewrite list_lookup_fmap. destruct (Nat.ltb_spec i n).
  - by rewrite lookup_seq_lt by done.
  - by rewrite lookup_seq_ge by done.
Qed.

Lemma tab_length {A} n (f : nat → A) : length (tab n f) = n.
Proof. unfold tab. by rewrite length_fmap, length_seq. Qed.

Lemma tab_ext {A} n (f g : nat → A) : (∀ i, (i < n)%nat → f i = g i) → tab n f = tab n g.
Proof.
  intros Hf. apply list_eq. intros i. rewrite !tab_lookup. destruct (Nat.ltb_spec i n); [|done]. by rewrite Hf.
Qed.

Lemma tab_insert {A} n (f : nat → A) i x : <[i := x]> (tab n f) = tab n (λ j, if (j =? i)%nat then x else f j).
Proof.
  apply list_eq. intros j. destruct (decide (j = i)) as [->|Hne].
  - rewrite tab_lookup, Nat.eqb_refl. destruct (Nat.ltb_spec i n).
    + by rewrite list_lookup_insert_eq by (by rewrite tab_length).
    + apply lookup_ge_None. rewrite length_insert, tab_length. lia.
  - rewrite list_lookup_insert_ne, !tab_lookup, (proj2 (Nat.eqb_neq _ _)) by done. done.
Qed.

Lemma tab_imap {A B} n (f : nat → A) (g : nat → A → B) : imap g (tab n f) = tab n (λ j, g j (f j)).
Proof.
  apply list_eq. intros j. rewrite list_lookup_imap, !tab_lookup. by destruct (Nat.ltb_spec j n).
Qed.

Lemma tab_fmap {A B} n (f : nat → A) (g : A → B) : g <$> tab n f = tab n (λ j, g (f j)).
Proof. unfold tab. by rewrite <- list_fmap_compose. Qed.

Lemma tab_replicate {A} n (x : A) : replicate n x = tab n (λ _, x).
Proof. apply list_eq. intros j. rewrite tab_lookup. destruct (Nat.ltb_spec j n); [by apply lookup_replicate_2|]. by apply lookup_replicate_None. Qed.

Section reference.
Context (m : mask) (prefix : Z) (n : nat).

(** Node [i] attends to itself and to its ancestors. *)
Definition on_root_path (i k : nat) : bool := (k =? i)%nat || (k <? i)%nat && m_at m (Z.of_nat i) (Z.of_nat k + prefix).

(** The mask of a tree: nobody attends ahead, and ancestry is transitive. *)
Record tree_shaped : Prop := mkTreeShaped {
  ts_lower i j : (i < n)%nat → (j < n)%nat → m_at m (Z.of_nat i) (Z.of_nat j + prefix) = true → (j ≤ i)%nat;
  ts_trans i j k : (i < n)%nat → on_root_path i j = true → on_root_path j k = true → on_root_path i k = true;
}.

Context (passes : nat → bool).

(** The node at [k] keeps [i] alive. *)
Definition spares (i k : nat) : bool := negb (on_root_path i k) || (k =? 0)%nat || passes k.

Definition spared_upto (t i : nat) : bool := forallb (spares i) (seq 0 t).

(** A node is kept when every node of its root path, the root excepted, passes. *)
Definition reference_keep : list bool := tab n (λ i, spared_upto (S i) i).

Lemma spared_S t i : spared_upto (S t) i = spared_upto t i && spares i t.
Proof. unfold spared_upto. rewrite seq_S, forallb_app. cbn. by rewrite andb_true_r. Qed.

Lemma spared_spec t i : spared_upto t i = true ↔ ∀ k, (k < t)%nat → spares i k = true.
Proof.
  unfold spared_upto. rewrite forallb_forall. split.
  - intros Ha k Hk. apply Ha. apply in_seq. lia.
  - intros Ha k Hk. apply in_seq in Hk. apply Ha. lia.
Qed.

Lemma not_spared t i : spared_upto t i = false → ∃ k, (k < t)%nat ∧ spares i k = false.
Proof.
  induction t as [|t IH]; [done|]. rewrite spared_S, andb_false_iff. intros [Hs|Hs].
  - destruct (IH Hs) as (k & ? & ?). exists k. split; [lia|done].
  - exists t. split; [lia|done].
Qed.

Lemma spares_false i k : spares i k = false → on_root_path i k = true ∧ k ≠ 0%nat ∧ passes k = false.
Proof.
  unfold spares. intros [[?%negb_false_iff ?%Nat.eqb_neq]%orb_false_iff ?]%orb_false_iff. done.
Qed.

(** Nodes behind [i] do not matter to it. *)
Lemma spared_all i t : (i < t)%nat → spared_upto t i = spared_upto (S i) i.
Proof.
  intros Hi. induction t as [|t IH]; [lia|]. destruct (decide (t = i)) as [->|Hne]; [done|]. rewrite spared_S, IH by lia.
  unfold spares, on_root_path. rewrite (proj2 (Nat.eqb_neq t i)), (proj2 (Nat.ltb_ge t i)) by lia. cbn. apply andb_true_r.
Qed.

Lemma on_root_path_le i k : on_root_path i k = true → (k ≤ i)%nat.
Proof. unfold on_root_path. intros [->%Nat.eqb_eq|[?%Nat.ltb_lt _]%andb_true_iff]%orb_true_iff; lia. Qed.

Lemma reference_lookup i : (i < n)%nat → reference_keep !! i = Some (spared_upto (S i) i).
Proof. intros Hi. unfold reference_keep. rewrite tab_lookup. by rewrite (proj2 (Nat.ltb_lt _ _)). Qed.

Lemma reference_length : length reference_keep = n.
Proof. apply tab_length. Qed.
End reference.

(** ** Both pruners are the reference *)

Lemma last_below_lt k f j : last_below k f = Some j → 0 ≤ j < Z.of_nat k ∧ f j = true.
Proof.
  induction k as [|k IH]; [done|]. cbn [last_below]. destruct (f (Z.of_nat k)) eqn:E; [intros [= <-]; split; [lia|done]|].
  intros Hj. destruct (IH Hj). split; [lia|done].
Qed.

Lemma last_below_None k f : last_below k f = None → ∀ j, (j < k)%nat → f (Z.of_nat j) = false.
Proof.
  induction k as [|k IH]; intros E j Hj; [lia|]. cbn in E. destruct (f (Z.of_nat k)) eqn:Ef; [done|].
  destruct (decide (j = k)) as [->|]; [done|]. apply IH; [done|lia].
Qed.

Section agree.
Context (m : mask) (prefix : Z) (n : nat) (Hts : tree_shaped m prefix n).

Lemma parent_position_in i : (i < n)%nat → 0 ≤ get_parent_position i m prefix < Z.of_nat n.
Proof.
  intros Hi. unfold get_parent_position. destruct (last_below _ _) as [j|] eqn:E; cbn; [|lia].
  apply last_below_lt in E as [? _]. lia.
Qed.

(** *** The loop *)

Section loop.
Context {L : Type} `{PrunerHead L} (vocab_size : Z) (logits : list L) (tokens : list Z).
Hypotheses (Hn : length logits = n) (Htok : length tokens = n).

(** The test of a node: its token is among the likeliest after its parent. *)
Definition in_top (i : nat) : bool :=
  match logits !! Z.to_nat (get_parent_position i m prefix), tokens !! i with
  | Some l, Some t => bool_decide (t ∈ p_topk (p_softmax l) (Z.min 50 vocab_size))
  | _, _ => false
  end.

(** The token of a node has a probability after its parent at all: it is in the head's
    vocabulary. *)
Definition known (i : nat) : bool :=
  match logits !! Z.to_nat (get_parent_position i m prefix), tokens !! i with
  | Some l, Some t => (0 <=? t) && (t <? zlen (p_softmax l))
  | _, _ => false
  end.

(** A node lets its descendants live unless it is known and unlikely. *)
Definition harmless (i : nat) : bool := negb (known i) || in_top i.

(** A node is kept when it is the root, or known and likely itself and below harmless nodes
    only. *)
Definition pruner_keep : list bool :=
  tab n (λ i, spared_upto m prefix harmless (S i) i && ((i =? 0)%nat || known i && in_top i)).

(** The row before node [t]. *)
Let kept_at (t i : nat) : bool := spared_upto m prefix harmless t i && ((i =? 0)%nat || (t <=? i)%nat || known i && in_top i).
Let lost_at (t i : nat) : bool := negb (spared_upto m prefix harmless t i) || ((i <? t)%nat && negb (i =? 0)%nat && negb (known i)).
Let row_at (t : nat) (scores : list float) : row_state := mkRow (tab n (kept_at t)) (tab n (lost_at t)) scores.

(** What one visit does to the rows, as functions of the position. *)
Lemma kept_at_S t i : (0 < t)%nat → kept_at (S t) i =
  kept_at t i && spares m prefix harmless i t && (negb (i =? t)%nat || known t && in_top t).
Proof using Hn Htok Hts.
  intros Ht. unfold kept_at. rewrite spared_S. destruct (Nat.eqb_spec i t) as [->|Hne]; cbn [negb orb].
  - rewrite (proj2 (Nat.eqb_neq t 0)), Nat.leb_refl, (proj2 (Nat.leb_gt (S t) t)) by lia. cbn.
    destruct (spared_upto _ _ _ _ _), (spares _ _ _ _ _), (known t && in_top t); done.
  - replace (S t <=? i)%nat with (t <=? i)%nat; [|destruct (Nat.leb_spec t i), (Nat.leb_spec (S t) i); (done || lia)].
    destruct (spared_upto _ _ _ _ _), (spares _ _ _ _ _), ((i =? 0)%nat || (t <=? i)%nat || _); done.
Qed.

Lemma lost_at_S t i : (0 < t)%nat → lost_at (S t) i =
  lost_at t i || negb (spares m prefix harmless i t) || (i =? t)%nat && negb (known t).
Proof using Hn Htok Hts.
  intros Ht. unfold lost_at. rewrite spared_S, negb_andb. destruct (Nat.eqb_spec i t) as [->|Hne]; cbn [andb].
  - rewrite Nat.ltb_irrefl, (proj2 (Nat.eqb_neq t 0)), (proj2 (Nat.ltb_lt t (S t))) by lia. cbn. by rewrite orb_false_r.
  - replace (i <? S t)%nat with (i <? t)%nat; [|destruct (Nat.ltb_spec i t), (Nat.ltb_spec i (S t)); (done || lia)].
    destruct (negb (spared_upto _ _ _ _ _)), (negb (spares _ _ _ _ _)), ((i <? t)%nat && _ && _); done.
Qed.

(** Below a node that is lost to an ancestor everything is lost already. *)
Lemma lost_below t i : (t < n)%nat → (i < n)%nat → spared_upto m prefix harmless t t = false → spares m prefix harmless i t = false →
  spared_upto m prefix harmless t i = false.
Proof using Hn Htok Hts.
  intros Ht Hi (k & Hk & (Hpk & Hk0 & Hbad)%spares_false)%not_spared (Hp & _)%spares_false. apply not_true_iff_false.
  rewrite spared_spec. intros Ha. specialize (Ha k Hk). unfold spares in Ha.
  by rewrite (ts_trans _ _ _ Hts i t k), (proj2 (Nat.eqb_neq k 0)), Hbad in Ha by done.
Qed.

Lemma spares_known t i : (0 < t)%nat → spares m prefix harmless i t =
  negb (on_root_path m prefix i t) || harmless t.
Proof using Hn Htok Hts. intros Ht. unfold spares. by rewrite (proj2 (Nat.eqb_neq t 0)), orb_false_r by lia. Qed.

Lemma visit_node_ok t scores : (t < n)%nat →
  ∃ scores', visit_node vocab_size m prefix logits tokens t (row_at t scores) = Ok (row_at (S t) scores').
Proof using Hn Htok Hts.
  intros Ht. unfold visit_node, row_at. destruct t as [|t'].
  { eexists. cbn [r_keep r_discarded r_scores]. do 2 f_equal; [rewrite tab_insert|]; apply tab_ext; intros i Hi;
      unfold kept_at, lost_at; rewrite !spared_S; unfold spares; cbn; rewrite orb_true_r; cbn; destruct i as [|i]; cbn;
      by rewrite ?orb_true_r, ?andb_true_r, ?orb_false_r. }
  set (t := S t') in *. assert (0 < t)%nat as H0 by lia. cbn [r_keep r_discarded r_scores].
  rewrite tab_lookup, (proj2 (Nat.ltb_lt _ _)) by done. cbn [default from_option id]. unfold lost_at at 1.
  rewrite Nat.ltb_irrefl. cbn [andb]. rewrite orb_false_r. destruct (spared_upto m prefix harmless t t) eqn:Hst; cbn [negb].
  2:{ eexists. do 2 f_equal; rewrite ?tab_insert; apply tab_ext; intros i Hi; [rewrite kept_at_S by done|rewrite lost_at_S by done].
    - destruct (spares m prefix harmless i t) eqn:Hs.
      + destruct (Nat.eqb_spec i t) as [->|]; [|by rewrite !andb_true_r]. unfold kept_at. by rewrite Hst.
      + unfold kept_at. rewrite (lost_below t i) by done. by destruct (i =? t)%nat.
    - destruct (spares m prefix harmless i t) eqn:Hs.
      + destruct (Nat.eqb_spec i t) as [->|]; [|by rewrite !orb_false_r]. unfold lost_at. by rewrite Hst.
      + unfold lost_at. by rewrite (lost_below t i). }
  destruct (lookup_lt_is_Some_2 logits (Z.to_nat (get_parent_position t m prefix))) as [l Hl].
  { pose proof (parent_position_in t Ht). lia. }
  destruct (lookup_lt_is_Some_2 tokens t) as [tok Htk]; [lia|]. rewrite Hl, Htk. cbn [of_option mbind res_bind].
  assert (Hin : in_top t = bool_decide (tok ∈ p_topk (p_softmax l) (Z.min 50 vocab_size))) by (unfold in_top; by rewrite Hl, Htk).
  assert (Hkn : known t = (0 <=? tok) && (tok <? zlen (p_softmax l))) by (unfold known; by rewrite Hl, Htk).
  assert (Hguard : (tok <? 0) || (zlen (p_softmax l) <=? tok) = negb (known t)) by (rewrite Hkn; lia).
  assert (Hhere : spares m prefix harmless t t = harmless t) by (rewrite spares_known by done; unfold on_root_path; by rewrite Nat.eqb_refl).
  rewrite Hguard. destruct (known t) eqn:Hk; cbn [negb].
  - destruct (lookup_lt_is_Some_2 (p_softmax l) (Z.to_nat tok)) as [pr Hpr]; [unfold zlen in Hkn; lia|]. rewrite Hpr.
    cbn [of_option mbind res_bind]. rewrite <- Hin. unfold harmless in Hhere. rewrite Hk in Hhere. cbn in Hhere.
    destruct (in_top t) eqn:Hit; eexists; do 2 f_equal; unfold mark_below; rewrite ?tab_insert, ?tab_imap;
      apply tab_ext; intros i Hi; rewrite ?kept_at_S, ?lost_at_S, spares_known by done; unfold harmless; rewrite Hk, Hit; cbn [negb orb andb];
      rewrite ?orb_true_r, ?orb_false_r, ?andb_true_r, ?andb_false_r, ?orb_false_r; try done.
    all: unfold on_root_path; rewrite (Nat.eqb_sym t i); destruct (Nat.eqb_spec i t) as [->|Hne]; rewrite ?Nat.ltb_irrefl; cbn [orb andb negb];
      rewrite ?andb_false_r, ?orb_true_r; try done; destruct ((t <? i)%nat && _); cbn; rewrite ?andb_false_r, ?andb_true_r, ?orb_true_r, ?orb_false_r; done.
  - eexists. do 2 f_equal; rewrite ?tab_insert; apply tab_ext; intros i Hi; rewrite ?kept_at_S, ?lost_at_S, spares_known by done;
      unfold harmless; rewrite Hk; cbn [negb orb andb]; rewrite ?orb_true_r, ?andb_true_r, ?orb_false_r; cbn [negb];
      destruct (Nat.eqb_spec i t) as [->|Hne]; cbn; rewrite ?andb_false_r, ?andb_true_r, ?orb_true_r, ?orb_false_r; done.
Qed.

Lemma visit_nodes_ok k t scores : (t + k ≤ n)%nat →
  ∃ scores', visit_nodes vocab_size m prefix logits tokens (seq t k) (row_at t scores) = Ok (row_at (t + k) scores').
Proof using Hn Htok Hts.
  revert t scores. induction k as [|k IH]; intros t scores Hk.
  - exists scores. by rewrite Nat.add_0_r.
  - cbn [seq visit_nodes]. destruct (visit_node_ok t scores) as [sc ->]; [lia|]. cbn [mbind res_bind].
    destruct (IH (S t) sc) as [sc' ->]; [lia|]. exists sc'. by rewrite Nat.add_succ_r.
Qed.

Lemma prune_row_ok : ∃ st, prune_row vocab_size m prefix logits tokens = Ok st ∧ r_keep st = pruner_keep.
Proof using Hn Htok Hts.
  unfold prune_row. rewrite Hn, !tab_replicate.
  destruct (visit_nodes_ok n 0 (tab n (λ _, SpecFloat.S754_zero false))) as [sc Hr]; [lia|].
  assert (Hz : row_at 0 (tab n (λ _, SpecFloat.S754_zero false)) =
    mkRow (tab n (λ _, true)) (tab n (λ _, false)) (tab n (λ _, SpecFloat.S754_zero false))).
  { unfold row_at. f_equal; apply tab_ext; intros i Hi; unfold kept_at, lost_at; cbn; by rewrite ?orb_true_r. }
  rewrite <- Hz. eexists. split; [exact Hr|]. cbn [r_keep row_at].
  apply tab_ext. intros i Hi. unfold kept_at. rewrite spared_all by done. rewrite (proj2 (Nat.leb_gt (0 + n) i)) by lia.
  by rewrite orb_false_r.
Qed.

(** What is kept, node by node. *)
Lemma pruner_keep_spec i : (i < n)%nat → pruner_keep !! i = Some true ↔
  i = 0%nat ∨ known i = true ∧ in_top i = true ∧
    ∀ k, (0 < k < i)%nat → on_root_path m prefix i k = true → known k = true → in_top k = true.
Proof using.
  clear Hn Htok Hts. intros Hi. unfold pruner_keep. rewrite tab_lookup, (proj2 (Nat.ltb_lt _ _)) by done. split.
  - intros [= [Hs Ho]%andb_true_iff]. destruct (Nat.eqb_spec i 0) as [->|]; [by left|right]. cbn in Ho.
    apply andb_true_iff in Ho as [-> ->]. split; [done|]. split; [done|]. intros k Hk Hp Hkn. rewrite spared_spec in Hs.
    specialize (Hs k ltac:(lia)). unfold spares, harmless in Hs. rewrite Hp, Hkn, (proj2 (Nat.eqb_neq k 0)) in Hs by lia. done.
  - intros Hor. f_equal. apply andb_true_iff. split.
    + apply spared_spec. intros k Hk. unfold spares. destruct (on_root_path m prefix i k) eqn:Hp; [|done].
      destruct (Nat.eqb_spec k 0) as [->|]; [by rewrite orb_true_r|]. cbn. unfold harmless.
      destruct Hor as [->|(Hkn & Htp & Ha)]; [lia|]. destruct (decide (k = i)) as [->|]; [by rewrite Htp, orb_true_r|].
      destruct (known k) eqn:E; [|done]. rewrite (Ha k ltac:(lia) Hp E). done.
    + destruct Hor as [->|(-> & -> & _)]; [done|]. by rewrite orb_true_r.
Qed.

(** With every token known the reference is that of the other pruner. *)
Lemma pruner_keep_known : (∀ l t, l ∈ logits → t ∈ tokens → 0 ≤ t < zlen (p_softmax l)) → pruner_keep = reference_keep m prefix n in_top.
Proof using Hn Htok Hts.
  intros Hv. assert (∀ i, (i < n)%nat → known i = true) as Hk.
  { intros i Hi. unfold known. destruct (lookup_lt_is_Some_2 logits (Z.to_nat (get_parent_position i m prefix))) as [l Hl].
    { pose proof (parent_position_in i Hi). lia. }
    destruct (lookup_lt_is_Some_2 tokens i) as [tok Htk]; [lia|]. rewrite Hl, Htk.
    destruct (Hv l tok); [by eapply list_elem_of_lookup_2|by eapply list_elem_of_lookup_2|lia]. }
  apply tab_ext. intros i Hi. rewrite Hk by done. cbn [andb].
  assert (spared_upto m prefix harmless (S i) i = spared_upto m prefix in_top (S i) i) as ->.
  { apply eq_true_iff_eq. rewrite !spared_spec. split; intros Ha k Hlt; specialize (Ha k Hlt); unfold spares, harmless in *;
      rewrite (Hk k) in * by lia; done. }
  destruct (spared_upto m prefix in_top (S i) i) eqn:Hs; [|done]. rewrite spared_spec in Hs. specialize (Hs i ltac:(lia)).
  unfold spares, on_root_path in Hs. rewrite Nat.eqb_refl in Hs. done.
Qed.
End loop.

(** *** The propagation *)

Section propagation.
Context (passes : nat → bool) (Hroot : passes 0%nat = true).

(** The discards before node [t]. *)
Let discards_at (t : nat) : list bool :=
  tab n (λ j, negb (if (j <? t)%nat then spared_upto m prefix passes (S j) j else passes j)).

Lemma propagate_step_ok t : (0 < t < n)%nat → propagate_step m prefix (discards_at t) t = discards_at (S t).
Proof using Hts.
  intros Ht. unfold propagate_step, discards_at at 1 3. rewrite tab_insert. apply tab_ext. intros j Hj.
  destruct (Nat.eqb_spec j t) as [->|Hne].
  2:{ destruct (Nat.ltb_spec j t), (Nat.ltb_spec j (S t)); try done; lia. }
  rewrite tab_lookup, (proj2 (Nat.ltb_lt t n)), Nat.ltb_irrefl, (proj2 (Nat.ltb_lt t (S t))) by lia.
  cbn [default from_option id]. rewrite spared_S. unfold spares at 1, on_root_path at 1. rewrite Nat.eqb_refl.
  cbn [orb negb]. rewrite (proj2 (Nat.eqb_neq t 0)) by lia. cbn [orb].
  destruct (passes t) eqn:Hpt; [cbn [negb orb]; rewrite andb_true_r|by rewrite andb_false_r].
  apply eq_true_iff_eq. unfold has_discarded_parent, discards_at. rewrite existsb_exists, tab_imap, negb_true_iff. split.
  - intros ([k d] & Hin%list_elem_of_In & Hm). unfold tab in Hin. apply list_elem_of_fmap in Hin as (k' & [= -> ->] & Hk).
    apply elem_of_seq in Hk. cbn [fst snd] in Hm. apply andb_true_iff in Hm as [Hm Hd].
    pose proof (ts_lower _ _ _ Hts t k' ltac:(lia) ltac:(lia) Hm) as Hle.
    destruct (Nat.ltb_spec k' t) as [Hlt|?]; [|by replace k' with t in Hd by lia; rewrite Hpt in Hd].
    apply negb_true_iff, not_spared in Hd as (q & Hq & (Hp & Hq0 & Hbad)%spares_false).
    apply not_true_iff_false. rewrite spared_spec. intros Ha. specialize (Ha q ltac:(lia)). unfold spares in Ha.
    rewrite (ts_trans _ _ _ Hts t k' q), (proj2 (Nat.eqb_neq q 0)), Hbad in Ha; [done|done|lia| |done].
    unfold on_root_path. by rewrite (proj2 (Nat.ltb_lt k' t)), Hm, orb_true_r by done.
  - intros (k & Hk & (Hp & Hk0 & Hbad)%spares_false)%not_spared. exists (k, true). split.
    + apply list_elem_of_In. unfold tab. apply list_elem_of_fmap. exists k. split; [|apply elem_of_seq; lia].
      rewrite (proj2 (Nat.ltb_lt k t)), spared_S by lia. f_equal. unfold spares, on_root_path. rewrite Nat.eqb_refl, Hbad.
      cbn. rewrite (proj2 (Nat.eqb_neq k 0)) by done. cbn. by rewrite andb_false_r.
    + cbn [fst snd]. unfold on_root_path in Hp. rewrite (proj2 (Nat.eqb_neq k t)) in Hp by lia. cbn in Hp.
      apply andb_true_iff in Hp as [_ ->]. done.
Qed.

Lemma propagate_ok : (0 < n)%nat → propagate_prune_mask (tab n passes) m prefix = reference_keep m prefix n passes.
Proof using Hts Hroot.
  intros Hn. unfold propagate_prune_mask. rewrite tab_length, tab_fmap.
  assert (tab n (λ j, negb (passes j)) = discards_at 1) as ->.
  { apply tab_ext. intros [|j] _; [|done]. rewrite Hroot. unfold spared_upto, spares. done. }
  assert (∀ k t, (0 < t)%nat → (t + k ≤ n)%nat → foldl (propagate_step m prefix) (discards_at t) (seq t k) = discards_at (t + k)) as Hf.
  { induction k as [|k IH]; intros t Ht Hk; [by rewrite Nat.add_0_r|]. cbn [seq foldl].
    rewrite propagate_step_ok, IH by lia. by rewrite Nat.add_succ_r. }
  rewrite Hf by lia. replace (1 + (n - 1))%nat with n by lia. unfold discards_at. rewrite tab_fmap. apply tab_ext.
  intros i Hi. by rewrite (proj2 (Nat.ltb_lt i n)), negb_involutive.
Qed.
End propagation.

(** *** Parents *)

Lemma last_below_max (i k : nat) (f : Z → bool) :
  foldl Z.max 0 ((λ j : nat, if f (Z.of_nat j) && (j <? i)%nat then Z.of_nat j + 1 else 0) <$> seq 0 k) =
    match last_below (i `min` k) f with Some j => j + 1 | None => 0 end.
Proof using.
  induction k as [|k IH]; [by rewrite Nat.min_0_r|]. rewrite seq_S, fmap_app, foldl_app, IH. cbn [fmap list_fmap foldl Nat.add].
  assert (∀ a, match last_below a f with Some j => j + 1 | None => 0 end ≤ Z.of_nat a ∧
    0 ≤ match last_below a f with Some j => j + 1 | None => 0 end) as Hb.
  { intros a. destruct (last_below a f) as [j|] eqn:E; [apply last_below_lt in E|]; lia. }
  destruct (Nat.ltb_spec k i).
  - rewrite !Nat.min_r by lia. specialize (Hb k). cbn [last_below].
    destruct (f (Z.of_nat k)); cbn [andb]; lia.
  - rewrite !Nat.min_l by lia. rewrite andb_false_r. specialize (Hb i). lia.
Qed.

Lemma parent_index_in i : (i < n)%nat → 0 ≤ parent_index n m prefix i < Z.of_nat n.
Proof using.
  intros Hi. unfold parent_index. rewrite (last_below_max i n (λ j, m_at m (Z.of_nat i) (j + prefix))).
  destruct (last_below _ _) as [j|] eqn:E; [apply last_below_lt in E|]; lia.
Qed.

(** Both lookups of a parent find the same one. *)
Lemma parent_index_ok i k : (i < n)%nat → (k < i)%nat → on_root_path m prefix i k = true →
  parent_index n m prefix i = get_parent_position i m prefix.
Proof using.
  intros Hi Hk Hp. unfold parent_index, get_parent_position. rewrite (last_below_max i n (λ j, m_at m (Z.of_nat i) (j + prefix))).
  rewrite Nat.min_l by lia. destruct (last_below i _) as [j|] eqn:E; cbn; [apply last_below_lt in E; lia|].
  exfalso. unfold on_root_path in Hp. rewrite (proj2 (Nat.eqb_neq k i)) in Hp by lia. cbn in Hp.
  apply andb_true_iff in Hp as [_ Hm]. pose proof (last_below_None _ _ E k Hk). cbn in *. congruence.
Qed.
End agree.

(** ** Padded indices *)

Lemma where_true_snoc row b : where_true (row ++ [b]) = where_true row ++ (if b then [zlen row] else []).
Proof.
  unfold where_true. rewrite imap_app, filter_app, fmap_app. f_equal. cbn. rewrite Nat.add_0_r. by destruct b.
Qed.

Lemma elem_where_true row i : i ∈ where_true row ↔ 0 ≤ i ∧ row !! Z.to_nat i = Some true.
Proof.
  unfold where_true. rewrite list_elem_of_fmap. split.
  - intros ([k b] & -> & [Hb (k' & b' & [= <- <-] & Hk)%elem_of_lookup_imap_1]%list_elem_of_filter). cbn in *. subst b.
    split; [lia|]. by rewrite Nat2Z.id.
  - intros [Hi Hk]. exists (Z.to_nat i, true). cbn. split; [lia|]. apply list_elem_of_filter. split; [done|].
    change (Z.to_nat i, true) with (pair (Z.to_nat i) true). by apply (elem_of_lookup_imap_2 pair).
Qed.

Lemma where_true_sorted row : StronglySorted Z.lt (where_true row).
Proof.
  induction row as [|b row IH] using rev_ind; [constructor|]. rewrite where_true_snoc. apply StronglySorted_app.
  split; [|split; [done|destruct b; repeat constructor]]. intros x y [Hx Hlt%lookup_lt_Some]%elem_where_true.
  destruct b; [|by intros ?%not_elem_of_nil]. intros ->%list_elem_of_singleton. unfold zlen. lia.
Qed.

Lemma where_true_bound row i : i ∈ where_true row → 0 ≤ i < zlen row.
Proof. intros [? ?%lookup_lt_Some]%elem_where_true. unfold zlen. lia. Qed.

Lemma count_true_where row : count_true row = zlen (where_true row).
Proof.
  unfold count_true. induction row as [|b row IH] using rev_ind; [done|].
  rewrite where_true_snoc, filter_app, !zlen_app, IH. by destruct b.
Qed.

Lemma ranks_perm (s : Z) row : ∃ k,
  imap (λ i b, if b : bool then Z.of_nat i else s) row ≡ₚ where_true row ++ replicate k s ∧
  (length (where_true row) + k = length row)%nat.
Proof.
  induction row as [|b row (k & Hp & Hk)] using rev_ind; [by exists 0%nat|].
  rewrite imap_app, where_true_snoc. cbn. rewrite Nat.add_0_r. destruct b.
  - exists k. rewrite Hp, !length_app. cbn. split; [|lia]. unfold zlen. solve_Permutation.
  - exists (S k). rewrite Hp, app_nil_r, !length_app. cbn. split; [|lia]. solve_Permutation.
Qed.

Lemma sorted_ranks_where row : ∃ k, sorted_ranks row = where_true row ++ replicate k (zlen row) ∧
  (length (where_true row) + k = length row)%nat.
Proof.
  destruct (ranks_perm (zlen row) row) as (k & Hp & Hk). exists k. split; [|done].
  apply (StronglySorted_unique Z.le).
  - apply Sorted_StronglySorted; [apply _|]. apply Sorted_merge_sort. intros x y. lia.
  - apply StronglySorted_app. split; [|split].
    + intros x y Hx%where_true_bound [-> _]%elem_of_replicate. lia.
    + pose proof (where_true_sorted row) as Hs. clear -Hs. induction Hs as [|x l Hs IH Hx]; constructor; [done|].
      eapply Forall_impl; [exact Hx|cbn; lia].
    + clear. induction k; constructor; [done|]. apply Forall_forall. intros x [-> _]%elem_of_replicate. done.
  - unfold sorted_ranks. by rewrite merge_sort_Permutation.
Qed.

(** Sorting the ranks lays the kept positions out as the loop does. *)
Lemma padded_ranks_where n row : zlen (where_true row) ≤ n ≤ zlen row →
  padded_ranks n row = pad_minus_one n (where_true row).
Proof.
  intros Hn. unfold padded_ranks, pad_minus_one. destruct (sorted_ranks_where row) as (k & -> & Hk).
  rewrite take_app_ge by (unfold zlen in *; lia). rewrite fmap_app. f_equal.
  - rewrite <- (list_fmap_id (where_true row)) at 2. apply list_fmap_ext. intros i x Hx%list_elem_of_lookup_2%where_true_bound.
    cbn. rewrite (proj2 (Z.eqb_neq _ _)) by lia. done.
  - rewrite take_replicate, fmap_replicate, Z.eqb_refl. f_equal. unfold zlen in *. lia.
Qed.

Lemma count_valid_pad n row : count_valid (pad_minus_one n (where_true row)) = zlen (where_true row).
Proof.
  unfold count_valid, pad_minus_one. rewrite filter_app, filter_keep, filter_empty, app_nil_r; [done| |].
  - apply Forall_forall. intros x [-> _]%elem_of_replicate. lia.
  - apply Forall_forall. intros x Hx%where_true_bound. lia.
Qed.

Lemma max_len_ge rows row : row ∈ rows → zlen row ≤ max_len rows.
Proof.
  intros Hr. unfold max_len. destruct (foldl_max_ge (zlen <$> rows) 0) as (_ & Hm & _). apply Hm.
  apply list_elem_of_fmap. by exists row.
Qed.

Lemma max_len_le rows n : 0 ≤ n → (∀ row, row ∈ rows → zlen row ≤ n) → max_len rows ≤ n.
Proof.
  intros Hn Hr. unfold max_len. destruct (foldl_max_ge (zlen <$> rows) 0) as (_ & _ & [->|Hm]%elem_of_cons); [done|].
  apply list_elem_of_fmap in Hm as (row & -> & Hm). by apply Hr.
Qed.

Lemma where_true_len row : zlen (where_true row) ≤ zlen row.
Proof. destruct (sorted_ranks_where row) as (k & _ & Hk). unfold zlen. lia. Qed.

(** What a pruner answers when it keeps [rows]. *)
Record keeps (rows : list (list bool)) (r : prune_result) : Prop := mkKeeps {
  kp_mask : keep_mask r = rows;
  kp_keep : keep_indices r = pad_minus_one (max_len (where_true <$> rows)) ∘ where_true <$> rows;
  kp_prune : prune_indices r =
    pad_minus_one (max_len (where_true ∘ fmap negb <$> rows)) ∘ where_true ∘ fmap negb <$> rows;
  kp_lengths : kept_lengths r = zlen ∘ where_true <$> rows;
}.

Lemma padded_ranks_all (n : nat) rows : Forall (λ row, length row = n) rows →
  padded_ranks (foldl Z.max 0 (count_true <$> rows)) <$> rows =
    pad_minus_one (max_len (where_true <$> rows)) ∘ where_true <$> rows.
Proof.
  intros Hl. rewrite Forall_forall in Hl. assert (foldl Z.max 0 (count_true <$> rows) = max_len (where_true <$> rows)) as ->.
  { unfold max_len. rewrite <- list_fmap_compose. f_equal. apply list_fmap_ext. intros i row _. apply count_true_where. }
  apply list_fmap_ext. intros i row Hr%list_elem_of_lookup_2. unfold compose. rewrite padded_ranks_where; [done|]. split.
  - apply max_len_ge, list_elem_of_fmap. by exists row.
  - apply max_len_le; [apply zlen_nonneg|]. intros k (row' & -> & Hr')%list_elem_of_fmap.
    pose proof (where_true_len row'). unfold zlen in *. rewrite (Hl row Hr). rewrite (Hl row' Hr') in H. done.
Qed.

(** ** The pruners on a batch *)

(** One sequence: its mask, the head's logits and the tokens. *)
Definition prune_input (L : Type) : Type := mask * list L * list Z.

(** The kept rows of a batch of [n] positions, given each sequence's test. *)
Definition reference_rows {L} (n : nat) (passes : prune_input L → nat → bool) (inputs : list (prune_input L)) : list (list bool) :=
  (λ x, reference_keep x.1.1 (m_cols x.1.1 - Z.of_nat n) n (passes x)) <$> inputs.

Definition well_shaped {L} (n : nat) (x : prune_input L) : Prop :=
  length x.1.2 = n ∧ length x.2 = n ∧ tree_shaped x.1.1 (m_cols x.1.1 - Z.of_nat n) n.

(** A comprehension over the rows of a batch whose parts are three lists. *)
Lemma mapM_rows {L A} (f : mask → list L → list Z → res A) (inputs : list (prune_input L)) ys :
  Forall2 (λ x y, f x.1.1 x.1.2 x.2 = Ok y) inputs ys →
  mapM (λ b,
      m ← of_option IndexError (inputs.*1.*1 !! b);
      l ← of_option IndexError (inputs.*1.*2 !! b);
      t ← of_option IndexError (inputs.*2 !! b);
      f m l t) (seq 0 (length inputs)) = Ok ys.
Proof.
  intros Hf. apply mapM_seq_Ok; [by apply Forall2_length in Hf|]. intros k y Hk.
  destruct (Forall2_lookup_r _ _ _ _ _ Hf Hk) as (x & Hx & Hy). by rewrite !list_lookup_fmap, Hx.
Qed.

Lemma mapM_Forall2 {A B} (f : A → res B) l ys : Forall2 (λ x y, f x = Ok y) l ys → mapM f l = Ok ys.
Proof. induction 1 as [|x y l ys Hx _ IH]; [done|]. cbn. rewrite Hx. cbn. by rewrite IH. Qed.

(** A total function on the elements, with what it gives. *)
Lemma Forall2_choose {A B} (P : A → B → Prop) (l : list A) : (∀ x, x ∈ l → ∃ y, P x y) → ∃ ys, Forall2 P l ys.
Proof.
  induction l as [|x l IH]; intros Hf; [by exists []|]. destruct (Hf x) as [y Hy]; [by left|].
  destruct IH as [ys Hys]; [intros; apply Hf; by right|]. exists (y :: ys). by constructor.
Qed.

Section batch.
Context {L : Type} `{PrunerHead L} (vocab_size : Z) (n : nat) (inputs : list (prune_input L)).
Hypotheses (Hne : inputs ≠ []) (Hn : (0 < n)%nat) (Hws : Forall (well_shaped n) inputs).

Definition prefix_of (x : prune_input L) : Z := m_cols x.1.1 - Z.of_nat n.

Lemma seq_len_n : match inputs.*1.*2 with row :: _ => zlen row | [] => 0 end = Z.of_nat n.
Proof using Hne Hws.
  destruct inputs as [|x l]; [done|]. cbn. apply Forall_cons in Hws as [(Hl & _) _]. unfold zlen. by rewrite Hl.
Qed.

Definition likely (x : prune_input L) : nat → bool := in_top x.1.1 (prefix_of x) vocab_size x.1.2 x.2.
Definition in_vocabulary (x : prune_input L) : nat → bool := known x.1.1 (prefix_of x) x.1.2 x.2.

(** The rows that the simple pruner keeps. *)
Definition simple_rows : list (list bool) := (λ x, pruner_keep x.1.1 (prefix_of x) n vocab_size x.1.2 x.2) <$> inputs.

Lemma simple_keeps st :
  let rows := simple_rows in
  ∃ r, simple_prune_branches vocab_size inputs.*1.*2 inputs.*2 inputs.*1.*1 st =
      (mkStats (total_branches st + Z.of_nat n * Z.of_nat (length inputs))
         (pruned_branches st + foldr Z.add 0 (zlen ∘ where_true ∘ fmap negb <$> rows)), Ok r) ∧ keeps rows r.
Proof using Hne Hws.
  intros rows. pose proof seq_len_n as Hsl. rewrite Forall_forall in Hws.
  destruct (Forall2_choose (λ (x : prune_input L) row, prune_row vocab_size x.1.1 (prefix_of x) x.1.2 x.2 = Ok row ∧
    r_keep row = pruner_keep x.1.1 (prefix_of x) n vocab_size x.1.2 x.2) inputs) as [sts HF].
  { intros x Hx. destruct (Hws x Hx) as (H1 & H2 & H3). by apply prune_row_ok. }
  assert (Hk : rows = r_keep <$> sts).
  { unfold rows, simple_rows. clear -HF. induction HF as [|x row l k [_ Hx] HF IH]; [done|]. by rewrite !fmap_cons, IH, Hx. }
  unfold simple_prune_branches. rewrite Hsl, !length_fmap.
  rewrite (mapM_rows (λ m l t, prune_row vocab_size m (m_cols m - Z.of_nat n) l t) inputs sts).
  2:{ eapply Forall2_impl; [exact HF|]. by intros x row [? _]. }
  rewrite lift_ok_bind. apply Forall2_length in HF. destruct sts as [|row sts]; [by destruct inputs|].
  rewrite modify_bind. eexists. split; [unfold mret, M_ret; do 2 f_equal; rewrite Hk, <- !list_fmap_compose; done|].
  rewrite Hk. split; cbn [keep_mask keep_indices prune_indices kept_lengths]; rewrite <- ?list_fmap_compose; try done.
  apply list_fmap_ext. intros i r _. apply count_valid_pad.
Qed.

(** The vectorised pruner, with features for all tokens. *)
Section adaptive.
Context {F : Type} (prob_features : L → Z → res F) (decision_net : F → float) (neural_threshold : float).

Definition decided (x : prune_input L) (i : nat) : bool :=
  (i =? 0)%nat ||
  match x.1.2 !! Z.to_nat (parent_index n x.1.1 (prefix_of x) i), x.2 !! i with
  | Some l, Some t => match prob_features l t with Ok f => fltb neural_threshold (decision_net f) | Raise _ => false end
  | _, _ => false
  end.

Lemma decision_row_ok x : well_shaped n x → (∀ l t, l ∈ x.1.2 → t ∈ x.2 → ∃ f, prob_features l t = Ok f) →
  ∃ ps, decision_row prob_features decision_net x.1.1 (prefix_of x) x.1.2 x.2 = Ok ps ∧
    initial_keep_row neural_threshold ps = tab n (decided x).
Proof using Hn.
  intros (Hl & Ht & _) Hf. unfold decision_row. rewrite Hl.
  destruct (Forall2_choose (λ (i : nat) p, (parent_logits ← of_option TorchError (x.1.2 !! Z.to_nat (parent_index n x.1.1 (prefix_of x) i));
      token_id ← of_option TorchError (x.2 !! i);
      f ← prob_features parent_logits token_id;
      Ok (decision_net f)) = Ok p ∧ fltb neural_threshold p = decided x i) (seq 1 (n - 1))) as (ps & HF).
  { intros i Hi%elem_of_seq. unfold decided. rewrite (proj2 (Nat.eqb_neq i 0)) by lia. cbn [orb].
    destruct (lookup_lt_is_Some_2 x.1.2 (Z.to_nat (parent_index n x.1.1 (prefix_of x) i))) as [l Hll].
    { pose proof (parent_index_in x.1.1 (prefix_of x) n i). lia. }
    destruct (lookup_lt_is_Some_2 x.2 i) as [t Htt]; [lia|]. rewrite Hll, Htt. cbn [of_option mbind res_bind].
    destruct (Hf l t) as [f ->]; [by eapply list_elem_of_lookup_2|by eapply list_elem_of_lookup_2|]. by eexists. }
  exists (float_one :: ps). rewrite (mapM_Forall2 _ (seq 1 (n - 1)) ps) by (eapply Forall2_impl; [exact HF|by intros ?? [? _]]).
  split; [done|]. unfold initial_keep_row, tab. replace n with (S (n - 1)) at 1 by lia. cbn.
  f_equal. clear -HF. induction HF as [|i p l k [_ Hi] _ IH]; [done|]. by rewrite !fmap_cons, IH, Hi.
Qed.

Lemma adaptive_keeps : Forall (λ x : prune_input L, ∀ l t, l ∈ x.1.2 → t ∈ x.2 → ∃ f, prob_features l t = Ok f) inputs →
  ∃ r, adaptive_prune_branches prob_features decision_net neural_threshold inputs.*1.*2 inputs.*2 inputs.*1.*1 = Ok r ∧
    keeps (reference_rows n decided inputs) r.
Proof using Hn Hne Hws.
  intros Hf. pose proof seq_len_n as Hsl. rewrite Forall_forall in Hws, Hf.
  destruct (Forall2_choose (λ (x : prune_input L) y, (decision_probs ← decision_row prob_features decision_net x.1.1 (prefix_of x) x.1.2 x.2;
      Ok (decision_probs, propagate_prune_mask (initial_keep_row neural_threshold decision_probs) x.1.1 (prefix_of x))) = Ok y ∧
      y.2 = reference_keep x.1.1 (prefix_of x) n (decided x)) inputs) as [ys HF].
  { intros x Hx. destruct (decision_row_ok x (Hws x Hx) (Hf x Hx)) as (ps & -> & Hps). eexists. split; [done|]. cbn [snd].
    rewrite Hps. apply propagate_ok; [apply Hws, Hx|done|done]. }
  assert (Hk : reference_rows n decided inputs = ys.*2).
  { unfold reference_rows. clear -HF. induction HF as [|x y l k [_ Hx] HF IH]; [done|]. by rewrite !fmap_cons, IH, Hx. }
  unfold adaptive_prune_branches. rewrite Hsl, !length_fmap.
  rewrite (mapM_rows (λ m l t, decision_probs ← decision_row prob_features decision_net m (m_cols m - Z.of_nat n) l t;
      Ok (decision_probs, propagate_prune_mask (initial_keep_row neural_threshold decision_probs) m (m_cols m - Z.of_nat n))) inputs ys).
  2:{ eapply Forall2_impl; [exact HF|]. by intros x y [? _]. }
  cbn [mbind res_bind]. apply Forall2_length in HF. destruct ys as [|y ys]; [by destruct inputs|].
  assert (Hlen : Forall (λ row, length row = n) (reference_rows n decided inputs)).
  { apply Forall_forall. intros row (x & -> & _)%list_elem_of_fmap. apply reference_length. }
  eexists. split; [done|]. rewrite <- Hk. split; cbn [keep_mask keep_indices prune_indices kept_lengths].
  - done.
  - by apply (padded_ranks_all n).
  - rewrite (padded_ranks_all n), <- !list_fmap_compose; [done|]. apply Forall_fmap. eapply Forall_impl; [exact Hlen|].
    intros row. cbn. by rewrite length_fmap.
  - apply list_fmap_ext. intros i row _. apply count_true_where.
Qed.

(** Where every node has a parent and the decision is the test of the loop, both keep the same. *)
Lemma decided_likely x : x ∈ inputs →
  (∀ i, (0 < i < n)%nat → ∃ k, (k < i)%nat ∧ on_root_path x.1.1 (prefix_of x) i k = true) →
  (∀ l t, l ∈ x.1.2 → t ∈ x.2 → ∃ f, prob_features l t = Ok f ∧
    fltb neural_threshold (decision_net f) = bool_decide (t ∈ p_topk (p_softmax l) (Z.min 50 vocab_size))) →
  reference_keep x.1.1 (prefix_of x) n (decided x) = reference_keep x.1.1 (prefix_of x) n (likely x).
Proof using Hn Hws.
  intros Hx Hpar Hdec. rewrite Forall_forall in Hws. destruct (Hws x Hx) as (Hl & Ht & _).
  apply tab_ext. intros i Hi. apply eq_true_iff_eq. rewrite !spared_spec.
  assert (∀ k, (k < S i)%nat → spares x.1.1 (prefix_of x) (decided x) i k = spares x.1.1 (prefix_of x) (likely x) i k) as He.
  2:{ split; intros Ha k Hk; specialize (Ha k Hk); specialize (He k Hk); congruence. }
  intros k Hk. unfold spares. destruct (Nat.eqb_spec k 0) as [->|Hk0]; [by rewrite !orb_true_r|]. f_equal.
  destruct (Hpar k) as (j & Hj & Hp); [lia|]. unfold decided, likely, in_top. rewrite (proj2 (Nat.eqb_neq k 0)) by done.
  cbn [orb]. rewrite (parent_index_ok _ _ _ k j) by (lia || done).
  destruct (x.1.2 !! _) as [l|] eqn:El; [|done]. destruct (x.2 !! k) as [t|] eqn:Et; [|done].
  destruct (Hdec l t) as (f & -> & Hd); [by eapply list_elem_of_lookup_2|by eapply list_elem_of_lookup_2|done].
Qed.
End adaptive.
End batch.

(** ** Tree masks *)

(** The columns from [cl] on of a generation mask, the root at [cl]. *)
Definition attends_tree (parents : list Z) (cl mx : Z) (m : mask) : Prop := ∀ a c, 0 ≤ a ≤ mx → cl ≤ c →
  m_at m a c = true ↔ (c = cl ∧ a ≤ zlen parents) ∨ (1 ≤ a ≤ zlen parents ∧ cl + 1 ≤ c ∧ on_path parents (a - 1) (c - cl - 1)).

Section tree_mask.
Context (parents : list Z) (cl : Z) (k : nat) (m : mask).
Hypotheses (Hp : parents_ok parents) (Hm : attends_tree parents cl (Z.of_nat k) m) (Hcl : 0 ≤ cl).

Lemma tree_root_path i j : (i ≤ k)%nat → (Z.of_nat i ≤ zlen parents) → on_root_path m cl i j = true ↔
  j = 0%nat ∨ ((1 ≤ j ≤ i)%nat ∧ on_path parents (Z.of_nat i - 1) (Z.of_nat j - 1)).
Proof using Hp Hm.
  intros Hi Hil. unfold on_root_path. rewrite orb_true_iff, andb_true_iff, Nat.eqb_eq, Nat.ltb_lt, (Hm (Z.of_nat i) (Z.of_nat j + cl)) by lia.
  replace (Z.of_nat j + cl - cl - 1) with (Z.of_nat j - 1) by lia. split.
  - intros [->|(Hlt & [[? _]|(? & ? & Hon)])].
    + destruct (decide (i = 0%nat)); [by left|right]. split; [lia|apply rtc_refl].
    + left. lia.
    + right. split; [lia|done].
  - intros [->|[Hj Hon]].
    + destruct (decide (i = 0%nat)); [left; lia|right]. split; [lia|left]. split; lia.
    + destruct (decide (j = i)); [left; lia|right]. split; [lia|right]. split; [lia|]. split; [lia|done].
Qed.

(** Padding rows attend to nobody. *)
Lemma padding_root_path i j : (i ≤ k)%nat → zlen parents < Z.of_nat i → on_root_path m cl i j = true → j = i.
Proof using Hm.
  intros Hi Hil. unfold on_root_path. rewrite orb_true_iff, andb_true_iff, Nat.eqb_eq, Nat.ltb_lt, (Hm (Z.of_nat i) (Z.of_nat j + cl)) by lia. lia.
Qed.

Lemma tree_mask_shaped : tree_shaped m cl (S k).
Proof using Hp Hm.
  split.
  - intros i j Hi Hj. rewrite (Hm (Z.of_nat i) (Z.of_nat j + cl)) by lia. intros [[? _]|(Hir & Hjr & Hon%(on_path_le _ Hp))]; lia.
  - intros i j l Hi H1 H2. destruct (decide (Z.of_nat i ≤ zlen parents)) as [Hil|Hil].
    2:{ rewrite (padding_root_path i j) in H2 by (done || lia). done. }
    pose proof (on_root_path_le _ _ _ _ H1). rewrite tree_root_path in H1, H2 |- * by lia.
    destruct H2 as [->|[Hl Hol]]; [by left|]. destruct H1 as [->|[Hj Hoj]]; [lia|]. right. split; [lia|].
    unfold on_path in *. by etrans.
Qed.
End tree_mask.

(** The masks the client sends. *)
Lemma generation_mask_attends parents v mx m : (∀ a b, 0 ≤ a ≤ mx → 0 ≤ b → m_at m a b = true ↔ gen_attends parents v a b) →
  attends_tree parents (zlen v) mx m.
Proof.
  intros Hm a c Ha Hc. pose proof (zlen_nonneg v). rewrite (Hm a c) by lia. unfold gen_attends. split.
  - intros [?%valid_at_lt|?]; [lia|done].
  - by right.
Qed.

(** ** What pruning promises *)


(** Two pruners that decide alike node by node give the same indices: the loop that marks
    descendants and the vectorised lookup of parents, propagation of discards and sort of ranks
    are the same function of the trees. *)
Lemma pruners_agree {L F} `{PrunerHead L} vocab_size n (inputs : list (prune_input L)) st
    (prob_features : L → Z → res F) (decision_net : F → float) (neural_threshold : float) :
  inputs ≠ [] → (0 < n)%nat → Forall (well_shaped n) inputs →
  Forall (λ x : prune_input L, ∀ l t, l ∈ x.1.2 → t ∈ x.2 → 0 ≤ t < zlen (p_softmax l)) inputs →
  Forall (λ x, ∀ i, (0 < i < n)%nat → ∃ k, (k < i)%nat ∧ on_root_path x.1.1 (prefix_of n x) i k = true) inputs →
  Forall (λ x : prune_input L, ∀ l t, l ∈ x.1.2 → t ∈ x.2 → ∃ f, prob_features l t = Ok f ∧
    fltb neural_threshold (decision_net f) = bool_decide (t ∈ p_topk (p_softmax l) (Z.min 50 vocab_size))) inputs →
  ∃ r r', (simple_prune_branches vocab_size inputs.*1.*2 inputs.*2 inputs.*1.*1 st).2 = Ok r ∧
    adaptive_prune_branches prob_features decision_net neural_threshold inputs.*1.*2 inputs.*2 inputs.*1.*1 = Ok r' ∧
    keep_indices r = keep_indices r' ∧ prune_indices r = prune_indices r' ∧ keep_mask r = keep_mask r' ∧
    kept_lengths r = kept_lengths r'.
Proof.
  intros Hne Hn Hws Hv Hpar Hdec. destruct (simple_keeps vocab_size n inputs Hne Hws st) as (r & -> & K).
  assert (simple_rows vocab_size n inputs = reference_rows n (likely vocab_size n) inputs) as Es.
  { apply list_fmap_ext. intros i x Hx%list_elem_of_lookup_2. rewrite Forall_forall in Hv, Hws.
    destruct (Hws x Hx) as (? & ? & ?). apply pruner_keep_known; [done..|by apply Hv]. }
  rewrite Es in K.
  destruct (adaptive_keeps n inputs Hne Hn Hws prob_features decision_net neural_threshold) as (r' & -> & K').
  { eapply Forall_impl; [exact Hdec|]. intros x Hx l t Hl Ht. destruct (Hx l t Hl Ht) as (f & ? & _). by exists f. }
  assert (reference_rows n (likely vocab_size n) inputs =
    reference_rows n (decided n prob_features decision_net neural_threshold) inputs) as E.
  { apply list_fmap_ext. intros i x Hx%list_elem_of_lookup_2. rewrite Forall_forall in Hpar, Hdec. symmetry.
    by apply (decided_likely vocab_size n inputs Hn Hws); [|apply Hpar|apply Hdec]. }
  rewrite E in K. destruct K, K'. exists r, r'. split; [done|]. split; [done|]. repeat split; congruence.
Qed.

(** *** The manager *)

Section manager_proofs.
Context {P R : Type} (create_pruner : PruningMethod → res P)
  (prune_branches : list (list R) → list (list Z) → list mask → M P prune_result).

(** A pruner that cannot be made is asked for once; everything is kept from then on. *)
Lemma manager_falls_back s hidden_states draft_tokens masks e : pruner s = None →
  (pruner_unavailable s = true ∨ create_pruner (method s) = Raise e) →
  ∃ s', prune_speculation_tree create_pruner prune_branches hidden_states draft_tokens masks s =
      (s', Ok (build_keep_all_result hidden_states, None)) ∧
    pruner s' = None ∧ pruner_unavailable s' = true ∧ total_tokens s' = total_tokens s.
Proof.
  intros Hp Hor. unfold prune_speculation_tree, ensure_pruner, mbind, M_bind. rewrite Hp.
  destruct (pruner_unavailable s) eqn:Hu; [by exists s|]. destruct Hor as [?| ->]; [done|]. by eexists.
Qed.

(** The counts of tokens are counts of sequences, so that the kept share comes out as none. *)
Lemma manager_counts_rows hidden_states draft_tokens masks :
  (∀ p p' r, prune_branches hidden_states draft_tokens masks p = (p', Ok r) → length (prune_indices r) = length draft_tokens) →
  preserves (λ s, total_tokens s = pruned_tokens s)
    (prune_speculation_tree create_pruner prune_branches hidden_states draft_tokens masks).
Proof.
  intros Hr. apply preserves_bind.
  - intros s Hs. unfold ensure_pruner. destruct (pruner s); [done|]. destruct (pruner_unavailable s); [done|].
    by destruct (create_pruner (method s)).
  - intros [p|]; [|apply preserves_ret]. intros s Hs. rewrite get_bind.
    destruct (prune_branches hidden_states draft_tokens masks p) as [p' [r|e]] eqn:E; rewrite put_bind; [|done].
    rewrite lift_ok_bind, put_bind. apply Hr in E. unfold mret, M_ret. cbn. unfold zlen. lia.
Qed.
End manager_proofs.

Lemma keep_rate_of_full_batch : (manager_metrics (@mkManager unit SIMPLE_PROBABILITY None false 4 4 1)).2 = SpecFloat.S754_zero false.
Proof. vm_compute. reflexivity. Qed.

(** ** Concrete trees *)

#[local] Instance toy_head : PrunerHead (list float) :=
  {| p_softmax := id; p_topk probs _ := where_true (fltb (SpecFloat.S754_zero false) <$> probs) |}.

(** Logits under which the given tokens of ten are likely. *)
Definition likely_tokens (ids : list Z) : list float :=
  tab 10 (λ i, if bool_decide (Z.of_nat i ∈ ids) then float_one else SpecFloat.S754_zero false).

(** The root with the branches 1-2 and 3-4, after two cached positions. *)
Definition toy_mask : mask :=
  match generation_mask 2 4 4 [-1; 0; -1; 2] [true; true] with Ok m => m | Raise _ => zeros 0 0 end.

(** After the root, 7 is likely and 5 is not; after 7, 8 is. *)
Definition toy_input : prune_input (list float) :=
  (toy_mask, [likely_tokens [7]; likely_tokens [6]; likely_tokens []; likely_tokens [8]; likely_tokens []], [1; 5; 6; 7; 8]).

Lemma toy_shape : Forall (well_shaped 5) [toy_input].
Proof.
  apply Forall_singleton. split; [done|]. split; [done|].
  assert (Hp : parents_ok [-1; 0; -1; 2]).
  { intros i v Hi. do 4 (destruct i as [|i]; [injection Hi as <-; lia|]). done. }
  destruct (generation_mask_spec [-1; 0; -1; 2] [true; true] 4 Hp ltac:(done)) as (m & Hm & _ & Hc & Ha).
  assert (toy_mask = m) as Em by (unfold toy_mask;
    assert (generation_mask 2 4 4 [-1; 0; -1; 2] [true; true] = Ok m) as -> by exact Hm; done).
  unfold toy_input. cbn [fst snd]. rewrite Em, Hc. apply (tree_mask_shaped [-1; 0; -1; 2]); try done.
  by apply (generation_mask_attends _ [true; true]).
Qed.

Lemma toy_vocabulary : Forall (λ x : prune_input (list float), ∀ l t, l ∈ x.1.2 → t ∈ x.2 → 0 ≤ t < zlen (p_softmax l)) [toy_input].
Proof.
  apply Forall_singleton.
  intros l t Hl Ht. assert (zlen (p_softmax l) = 10) as ->.
  { cbn in Hl. by repeat (apply elem_of_cons in Hl as [->|Hl]); [..|by apply not_elem_of_nil in Hl]. }
  cbn in Ht. repeat (apply elem_of_cons in Ht as [->|Ht]); [lia..|by apply not_elem_of_nil in Ht].
Qed.

(** With the unknown token 10 at node 1. *)
Definition unknown_input : prune_input (list float) :=
  (toy_mask, [likely_tokens [7]; likely_tokens [6]; likely_tokens []; likely_tokens [8]; likely_tokens []], [1; 10; 6; 7; 8]).


Lemma pruners_agree_witness : ∃ r r',
  (simple_prune_branches 10 [toy_input.1.2] [toy_input.2] [toy_input.1.1] (mkStats 0 0)).2 = Ok r ∧
  adaptive_prune_branches (λ l t, of_option TorchError (l !! Z.to_nat t)) id (SpecFloat.S754_zero false)
    [toy_input.1.2] [toy_input.2] [toy_input.1.1] = Ok r' ∧ keep_indices r = keep_indices r'.
Proof.
  destruct (pruners_agree 10 5 [toy_input] (mkStats 0 0) (λ l t, of_option TorchError (l !! Z.to_nat t)) id
    (SpecFloat.S754_zero false) ltac:(done) ltac:(lia)
    toy_shape toy_vocabulary)
    as (r & r' & E & E' & K & _); [| |by exists r, r'].
  - apply Forall_singleton. intros i Hi. exists 0%nat. split; [lia|].
    destruct i as [|[|[|[|[|i]]]]]; try lia; vm_compute; reflexivity.
  - apply Forall_singleton. intros l t Hl Ht. cbn in Hl, Ht.
    repeat (apply elem_of_cons in Hl as [->|Hl]); try (by apply not_elem_of_nil in Hl);
      repeat (apply elem_of_cons in Ht as [->|Ht]); try (by apply not_elem_of_nil in Ht);
      eexists; split; (vm_compute; reflexivity).
Defined.

(** A draft token outside the head's vocabulary is dropped, the nodes below it are not. *)
Lemma children_of_unknown_token_stay :
  r_keep <$> prune_row 10 toy_mask 2 [likely_tokens [7]; likely_tokens [6]; likely_tokens []; likely_tokens [8]; likely_tokens []]
    [1; 10; 6; 7; 8] = Ok [true; false; true; true; true].
Proof. vm_compute. reflexivity. Qed.

(** In the first step of a session the prompt is in the row: an unlikely prompt token takes
    everything after it along, the tree included. *)
Lemma unlikely_prompt_drops_tree :
  let m := match prefill_mask 3 3 1 1 [-1] with Ok m => m | Raise _ => zeros 0 0 end in
  m_cols m = 4 ∧
  r_keep <$> prune_row 10 m (m_cols m - 4) [likely_tokens [2]; likely_tokens [7]; likely_tokens [4]; likely_tokens []] [1; 2; 3; 4] =
    Ok [true; true; false; false].
Proof. split; vm_compute; reflexivity. Qed.
