(* ===== verification/SpecCache.v ===== *)
(** * The attention cache of speculative steps (server/memory_cache_manager.py, server/backend.py)

    A speculative step runs the target model on a tree of drafted tokens. Before the next
    one, the server keeps the positions of the accepted tokens, as the client names them,
    and moves them together behind the committed prefix. The slab is a list of rows, one
    per sequence of the batch; an entry stands for the keys and values of one position in
    all heads. Segments on several devices, compression and working slots are left out;
    the paged mirror of these writes is in KVCacheManager.v. *)

From stdpp Require Import numbers base list sorting.
From Stdlib Require Import ZArith Lia ZifyBool.
From S2P Require Import Prelude.

(** [x[x >= 0]] of a row of positions; -1 is padding. *)
Definition valid_ids (row : list Z) : list Z := filter (λ v, 0 ≤ v) row.

(** [ids[ids >= 0].max()], [None] when there is none. *)
Definition max_valid (ids : list (list Z)) : option Z :=
  match valid_ids (mjoin ids) with [] => None | v :: vs => Some (foldl Z.max v vs) end.

(** ** Reading and writing the slab *)

Section slab.
Context {E : Type} (zero : E).
Implicit Types (slab kvs : list (list E)) (ids : list (list Z)).

(** The positions of the slab. *)
Definition slab_len slab : Z := match slab with [] => 0 | row :: _ => zlen row end.

(** [cache[start:start + len(cols)] = cols] in one row *)
Definition write_row (start : nat) (row cols : list E) : list E :=
  take start row ++ cols ++ drop (start + length cols) row.

(** The rows [offset, offset + len(kvs)). *)
Definition write_rows (offset start : nat) kvs slab : list (list E) :=
  take offset slab ++ zip_with (write_row start) (take (length kvs) (drop offset slab)) kvs ++
  drop (offset + length kvs) slab.

(** [x[:, :, -n:]] *)
Definition last_cols (n : Z) (row : list E) : list E :=
  if n =? 0 then row else drop (Z.to_nat (zlen row - n)) row.

(** [_write_kvs], on the rows from [batch_offset]. Columns that do not fit make it write
    the last ones over the whole slab; torch broadcasts a single column and refuses
    another number of them. *)
Definition write_kvs (batch_offset start : Z) kvs : M (list (list E)) unit := λ slab,
  let s_total := slab_len slab in
  let s_new := slab_len kvs in
  let o := Z.to_nat batch_offset in
  if zlen slab <? batch_offset + zlen kvs then (slab, Raise TorchError)
  else if (0 <=? start) && (start <? s_total) && (start + s_new <=? s_total) then
    (write_rows o (Z.to_nat start) kvs slab, Ok tt)
  else
    let tail := last_cols s_total <$> kvs in
    if slab_len tail =? s_total then (write_rows o 0 tail slab, Ok tt)
    else if slab_len tail =? 1 then (write_rows o 0 (mjoin ∘ replicate (Z.to_nat s_total) <$> tail) slab, Ok tt)
    else (slab, Raise TorchError).

(** The rows of a micro-batch. *)
Definition batch_rows (batch_offset batch_size : Z) slab : list (list E) :=
  take (Z.to_nat batch_size) (drop (Z.to_nat batch_offset) slab).

(** [select_cache] without hypotheses and positions *)
Definition select_cache (prefix_length batch_offset batch_size : Z) slab : res (option (list (list E))) :=
  if prefix_length <=? 0 then Ok None
  else if slab_len slab <? prefix_length then Raise AssertionError
  else Ok (Some (take (Z.to_nat prefix_length) <$> batch_rows batch_offset batch_size slab)).

(** [select_cache_without_reorder] *)
Definition select_cache_without_reorder ids (batch_offset batch_size : Z) slab : res (option (list (list E)) * Z) :=
  match max_valid ids with
  | None => Ok (None, 0)
  | Some m =>
      let cache_len := m + 1 in
      if slab_len slab <? cache_len then Raise TorchError
      else Ok (Some (take (Z.to_nat cache_len) <$> batch_rows batch_offset batch_size slab), cache_len)
  end.

(** ** Moving the accepted positions together *)

(** The root of a row, the first valid position, and the length after the move. *)
Definition root_position (s_old : Z) (row : list Z) : Z := default s_old (head (valid_ids row)).
Definition valid_length (s_old : Z) (row : list Z) : Z := root_position s_old row + zlen (valid_ids row).

(** A row of [k_new]: the prefix before the root, then the valid positions in their order. *)
Definition gather_row (s_old max_new_length : Z) (cached : list E) (row : list Z) : res (list E) :=
  prefix ← mapM (λ p, of_option IndexError (cached !! Z.to_nat p)) (py_range 0 (root_position s_old row));
  tree ← mapM (λ p, of_option IndexError (cached !! Z.to_nat p)) (valid_ids row);
  Ok (prefix ++ tree ++ replicate (Z.to_nat (max_new_length - valid_length s_old row)) zero).

Definition reorder_and_write_cache (k_pkv : list (list E)) ids (batch_offset : Z) : M (list (list E)) unit := λ slab,
  let s_old := slab_len k_pkv in
  if negb (length k_pkv =? length ids)%nat then (slab, Raise TorchError)
  else match valid_length s_old <$> ids with
  | [] => (slab, Raise TorchError)
  | l :: ls =>
      let max_new_length := foldl Z.max l ls in
      match mapM (λ x : list E * list Z, gather_row s_old max_new_length x.1 x.2) (zip k_pkv ids) with
      | Raise e => (slab, Raise e)
      | Ok k_new => write_kvs batch_offset 0 k_new slab
      end
  end.

(** ** The update after a step *)

(** The body of the [try] of [_do_reorder_task]. *)
Definition reorder_task (new_kvs : list (list E)) (oids : option (list (list Z))) (batch_offset batch_size : Z)
    : M (list (list E)) unit :=
  match oids ≫= max_valid with
  | None => write_kvs batch_offset 0 new_kvs
  | Some max_position =>
      let write_position := max_position + 1 in
      write_kvs batch_offset write_position new_kvs;;
      let new_positions := py_range write_position (write_position + slab_len new_kvs) in
      let extended := (λ row, row ++ new_positions) <$> default [] oids in
      match max_valid extended with
      | None => mthrow TorchError
      | Some m =>
          slab ← get;
          k_pkv ← lift (select_cache (m + 1) batch_offset batch_size slab);
          match k_pkv with
          | None => mret tt
          | Some k_pkv => reorder_and_write_cache k_pkv extended batch_offset
          end
      end
  end.

(** [_do_reorder_task]: an exception is logged and swallowed. *)
Definition do_reorder_task new_kvs oids (batch_offset batch_size : Z) : M (list (list E)) unit := λ slab,
  ((reorder_task new_kvs oids batch_offset batch_size slab).1, Ok tt).

(** The loop of [update_cache_batched]: each row at its own position, cut at the end of the slab. *)
Fixpoint write_each (i : nat) (kv_valid_lengths : list nat) kvs : M (list (list E)) unit :=
  match kvs, kv_valid_lengths with
  | [], _ => mret tt
  | _ :: _, [] => mthrow IndexError
  | cols :: kvs, start :: kv_valid_lengths =>
      slab ← get;
      let actual_len := (Z.to_nat (slab_len slab) `min` (start + length cols) - start)%nat in
      (if decide (actual_len = 0)%nat then mret tt
       else match slab !! i with
       | Some row => modify <[i := write_row start row (take actual_len cols)]>
       | None => mthrow TorchError
       end);;
      write_each (S i) kv_valid_lengths kvs
  end.

(** [update_cache_batched] *)
Definition update_cache_batched kvs (kv_valid_lengths : list nat) : M (list (list E)) unit :=
  match kv_valid_lengths with
  | [] => mthrow IndexError
  | start :: _ =>
      if forallb (Nat.eqb start) kv_valid_lengths then write_kvs 0 (Z.of_nat start) kvs
      else write_each 0 kv_valid_lengths kvs
  end.
End slab.

(** ** Rotary positions *)

(** [dfs_generate]: depths of a complete tree, depth first. *)
Fixpoint tree_depths (width : nat) (remaining : nat) (node_depth : Z) : list Z :=
  node_depth ::
  match remaining with
  | O => []
  | S r => mjoin (replicate width (tree_depths width r (node_depth + 1)))
  end.

(** The template cut to a length, or extended by its last depth. *)
Definition fit_template (template : list Z) (n : Z) : list Z :=
  let t := take (Z.to_nat n) template in
  t ++ replicate (Z.to_nat (n - zlen t)) (default 0 (last template)).

(** [_create_tree_position_ids_with_invalid_cache] with a target length. *)
Definition tree_position_ids (width depth : nat) (prefill_length : list Z) (ids : option (list (list Z)))
    (target_seq_len : Z) : res (list (list Z)) :=
  let template := tree_depths width depth 0 in
  let generation := match ids with Some rows => negb (length (mjoin rows) =? 0)%nat | None => false end in
  if generation then
    Ok ((λ row, (λ d, match max_valid [row] with Some m => m + 1 | None => 0 end + d) <$>
          fit_template template target_seq_len) <$> default [] ids)
  else
    let prompt_part_len := target_seq_len - zlen template in
    if prompt_part_len <? 0 then
      if (target_seq_len =? 0) && (zlen template =? 1) then Ok ((λ _, []) <$> prefill_length) else Raise TorchError
    else Ok ((λ p, py_range 0 prompt_part_len ++ ((λ d, p + d) <$> template)) <$> prefill_length).

(** The positions [inference_step] asks for: a chain of five, from the last prompt token. *)
Definition spec_rotary_position_ids (prefill_length : list Z) (ids : option (list (list Z))) (seq_len : Z) : res (list (list Z)) :=
  tree_position_ids 1 4 (Z.pred <$> prefill_length) ids seq_len.

Lemma tree_depths_chain (depth : nat) d : tree_depths 1 depth d = seqZ d (Z.of_nat (S depth)).
Proof.
  revert d. induction depth as [|n IH]; intros d; rewrite seqZ_cons by lia; cbn [tree_depths].
  - by replace (Z.pred (Z.of_nat 1)) with 0 by lia.
  - cbn [replicate]. cbn [mjoin list_join]. rewrite app_nil_r, IH. f_equal. f_equal; lia.
Qed.

(** In the generation phase column [i] of every tree is taken to be at depth [min i 4]. *)
Lemma spec_rotary_generation prefill_length ids seq_len : mjoin ids ≠ [] → 0 ≤ seq_len →
  spec_rotary_position_ids prefill_length (Some ids) seq_len =
    Ok ((λ row, (λ i, match max_valid [row] with Some m => m + 1 | None => 0 end + Z.min i 4) <$> py_range 0 seq_len) <$> ids).
Proof.
  intros Hne H0. unfold spec_rotary_position_ids, tree_position_ids. rewrite tree_depths_chain.
  destruct (mjoin ids) eqn:Hj; [done|]. cbn [length Nat.eqb negb]. f_equal. cbn [default from_option id].
  apply list_fmap_ext. intros k row _.
  assert (fit_template (seqZ 0 (Z.of_nat 5)) seq_len = (λ i, Z.min i 4) <$> py_range 0 seq_len) as ->;
    [|by rewrite <- list_fmap_compose].
  apply list_eq. intros i. unfold fit_template, py_range. rewrite list_lookup_fmap.
  replace (seqZ 0 (Z.of_nat 5)) with [0; 1; 2; 3; 4] by done. cbn [last default from_option id].
  destruct (decide (Z.of_nat i < seq_len)) as [Hi|Hi].
  - rewrite lookup_seqZ_lt by lia. cbn [fmap option_fmap option_map]. destruct (decide (i < 5)%nat) as [H5|H5].
    + rewrite lookup_app_l by (rewrite length_take; cbn; lia). rewrite lookup_take_lt by lia.
      do 5 (destruct i as [|i]; [done|]). lia.
    + rewrite lookup_app_r by (rewrite length_take; cbn; lia). rewrite lookup_replicate_2.
      * f_equal. lia.
      * unfold zlen. rewrite length_take. cbn. lia.
  - rewrite lookup_seqZ_ge by lia. apply lookup_ge_None. rewrite length_app, length_take, length_replicate. unfold zlen.
    rewrite length_take. cbn. lia.
Qed.

(** ** Reading rows *)

Section proofs.
Context {E : Type} (zero : E).
Implicit Types (row cols : list E) (slab kvs : list (list E)) (ids : list (list Z)).

(** The entries of a row at some positions. *)
Definition picks row (ps : list Z) : list E := omap (λ p, row !! Z.to_nat p) ps.

Lemma picks_ok row ps : Forall (λ p, 0 ≤ p < zlen row) ps →
  mapM (λ p, of_option IndexError (row !! Z.to_nat p)) ps = Ok (picks row ps) ∧ length (picks row ps) = length ps.
Proof.
  unfold zlen. induction 1 as [|p ps Hp _ [IH1 IH2]]; [done|].
  destruct (lookup_lt_is_Some_2 row (Z.to_nat p)) as [e He]; [lia|].
  unfold picks in *. cbn. rewrite He. cbn. rewrite IH1. split; [done|]. cbn. by rewrite IH2.
Qed.

Lemma picks_app row ps qs : picks row (ps ++ qs) = picks row ps ++ picks row qs.
Proof. apply omap_app. Qed.

Lemma picks_range row (a n : nat) : picks row (seqZ (Z.of_nat a) (Z.of_nat n)) = take n (drop a row).
Proof.
  unfold picks. revert a row. induction n as [|n IH]; intros a row; [by rewrite take_0|].
  rewrite seqZ_cons by lia. replace (Z.pred (Z.of_nat (S n))) with (Z.of_nat n) by lia.
  replace (Z.succ (Z.of_nat a)) with (Z.of_nat (S a)) by lia. cbn. rewrite Nat2Z.id, IH.
  destruct (row !! a) as [e|] eqn:Ha.
  - by rewrite (drop_S row e a Ha).
  - apply lookup_ge_None in Ha. by rewrite !drop_ge, !take_nil by lia.
Qed.

Lemma picks_ext row row' ps : (∀ p, p ∈ ps → row !! Z.to_nat p = row' !! Z.to_nat p) → picks row ps = picks row' ps.
Proof.
  unfold picks. induction ps as [|p ps IH]; intros Hp; [done|]. cbn. rewrite (Hp p) by left.
  rewrite IH; [done|]. intros q Hq. apply Hp. by right.
Qed.

Lemma write_row_0 row cols : write_row 0 row cols = cols ++ drop (length cols) row.
Proof. done. Qed.

Lemma write_row_length (start : nat) row cols : (start + length cols ≤ length row)%nat →
  length (write_row start row cols) = length row.
Proof. intros H. unfold write_row. rewrite !length_app, length_take, length_drop. lia. Qed.

Lemma write_row_before (start : nat) row cols i : (i < start)%nat → (start ≤ length row)%nat →
  write_row start row cols !! i = row !! i.
Proof. intros Hi Hs. unfold write_row. rewrite lookup_app_l by (rewrite length_take; lia). by apply lookup_take_lt. Qed.

Lemma write_row_take (start : nat) row cols : (start ≤ length row)%nat →
  take (start + length cols) (write_row start row cols) = take start row ++ cols.
Proof.
  intros Hs. unfold write_row. rewrite app_assoc, take_app_length'; [done|].
  rewrite length_app, length_take. lia.
Qed.

(** ** Writing rows *)

(** A slab of [n] positions. *)
Definition sized (n : nat) slab : Prop := Forall (λ row, length row = n) slab.

Lemma sized_len n slab : sized n slab → slab ≠ [] → slab_len slab = Z.of_nat n.
Proof. intros [|row slab' <- _]; done. Qed.

Lemma write_rows_lookup (o start : nat) kvs slab k : (o + length kvs ≤ length slab)%nat →
  write_rows o start kvs slab !! k =
    match slab !! k, (if decide (o ≤ k)%nat then kvs !! (k - o)%nat else None) with
    | Some row, Some cols => Some (write_row start row cols)
    | r, _ => r
    end.
Proof.
  intros Hle. unfold write_rows. set (z := zip_with _ _ _).
  assert (Hz : length z = length kvs) by (unfold z; rewrite length_zip_with, length_take, length_drop; lia).
  destruct (decide (o ≤ k)%nat) as [Hk|Hk].
  - rewrite lookup_app_r by (rewrite length_take; lia). rewrite length_take, (Nat.min_l o) by lia.
    destruct (kvs !! (k - o)%nat) as [cols|] eqn:Hc.
    + apply lookup_lt_Some in Hc as Hlt. rewrite lookup_app_l by lia. unfold z. rewrite lookup_zip_with, Hc.
      rewrite lookup_take_lt by lia. rewrite lookup_drop. replace (o + (k - o))%nat with k by lia.
      by destruct (slab !! k).
    + apply lookup_ge_None in Hc. rewrite lookup_app_r by lia. rewrite lookup_drop, Hz.
      replace (o + length kvs + (k - o - length kvs))%nat with k by lia. by destruct (slab !! k).
  - rewrite lookup_app_l by (rewrite length_take; lia). rewrite lookup_take_lt by lia. by destruct (slab !! k).
Qed.

Lemma write_kvs_fits (o start n s : nat) kvs slab : sized s slab → sized n kvs → kvs ≠ [] → (0 < n)%nat →
  (o + length kvs ≤ length slab)%nat → (start + n ≤ s)%nat →
  write_kvs (Z.of_nat o) (Z.of_nat start) kvs slab = (write_rows o start kvs slab, Ok tt).
Proof.
  intros Hs Hk Hne Hn Hle Hfit. assert (slab ≠ []) by (destruct slab, kvs; cbn in Hle; (done || lia)).
  unfold write_kvs. rewrite (sized_len s slab), (sized_len n kvs), Nat2Z.id by done.
  unfold zlen. rewrite (proj2 (Z.ltb_ge _ _)) by lia.
  rewrite (proj2 (Z.leb_le 0 _)), (proj2 (Z.ltb_lt (Z.of_nat start) _)), (proj2 (Z.leb_le (_ + _) _)) by lia.
  cbn. by rewrite Nat2Z.id.
Qed.

Lemma write_rows_sized (o start n s : nat) kvs slab : sized s slab → sized n kvs → (start + n ≤ s)%nat →
  (o + length kvs ≤ length slab)%nat →
  sized s (write_rows o start kvs slab) ∧ length (write_rows o start kvs slab) = length slab.
Proof.
  intros Hs Hk Hfit Hle. unfold sized in *. rewrite Forall_lookup in Hs, Hk. split.
  - apply Forall_lookup. intros k row'. rewrite write_rows_lookup by done.
    destruct (slab !! k) as [row|] eqn:Hr; [|done]. destruct (decide _); [|intros [= <-]; eauto].
    destruct (kvs !! (k - o)%nat) as [cols|] eqn:Hc; intros [= <-]; [|eauto].
    rewrite write_row_length; [eauto|]. rewrite (Hk _ _ Hc), (Hs _ _ Hr). done.
  - unfold write_rows. rewrite !length_app, length_zip_with, !length_take, !length_drop. lia.
Qed.

Lemma batch_rows_lookup (o b : nat) slab k :
  batch_rows (Z.of_nat o) (Z.of_nat b) slab !! k = if decide (k < b)%nat then slab !! (o + k)%nat else None.
Proof.
  unfold batch_rows. rewrite !Nat2Z.id. destruct (decide _) as [Hk|Hk].
  - rewrite lookup_take_lt by done. apply lookup_drop.
  - apply lookup_ge_None. rewrite length_take. lia.
Qed.

(** ** Rows with positions of their own *)

Lemma write_each_run (s i : nat) kv_valid_lengths kvs slab : sized s slab → length kv_valid_lengths = length kvs →
  (i + length kvs ≤ length slab)%nat →
  Forall2 (λ start cols, (start + length cols ≤ s)%nat) kv_valid_lengths kvs →
  ∃ slab', write_each i kv_valid_lengths kvs slab = (slab', Ok tt) ∧ sized s slab' ∧ length slab' = length slab ∧
    ∀ k, slab' !! k = if decide (i ≤ k)%nat then
        match slab !! k, kv_valid_lengths !! (k - i)%nat, kvs !! (k - i)%nat with
        | Some row, Some start, Some cols => Some (write_row start row cols)
        | r, _, _ => r
        end else slab !! k.
Proof.
  revert i kv_valid_lengths slab. induction kvs as [|cols kvs IH]; intros i [|start lens] slab Hs Hl Hi HF; try done.
  { exists slab. split; [done|]. split; [done|]. split; [done|]. intros k. destruct (decide _); [|done]. by destruct (slab !! k). }
  apply Forall2_cons in HF as [Hc HF]. cbn [length] in *. cbn [write_each]. rewrite get_bind.
  destruct (lookup_lt_is_Some_2 slab i) as [row Hr]; [lia|]. pose proof (list.Forall_lookup_1 _ _ _ _ Hs Hr) as Hrl. cbn in Hrl.
  rewrite (sized_len s) by (done || (intros ->; done)). rewrite Nat2Z.id.
  replace (s `min` (start + length cols) - start)%nat with (length cols) by lia. rewrite take_ge by done.
  set (row' := write_row start row cols). set (slab1 := if decide (length cols = 0)%nat then slab else <[i := row']> slab).
  assert (Hs1 : sized s slab1 ∧ length slab1 = length slab ∧ slab1 !! i = Some row' ∧ ∀ k, k ≠ i → slab1 !! k = slab !! k).
  { unfold slab1, sized. destruct (decide _) as [E0|_].
    - split; [done|]. split; [done|]. split; [|done]. rewrite Hr. f_equal. unfold row', write_row.
      apply length_zero_iff_nil in E0 as ->. cbn. by rewrite Nat.add_0_r, take_drop.
    - split; [apply Forall_insert; [done|]; unfold row'; rewrite write_row_length; lia|]. rewrite length_insert. split; [done|].
      split; [by apply list_lookup_insert_eq; lia|]. intros k Hk. by apply list_lookup_insert_ne. }
  destruct Hs1 as (Hs1 & Hl1 & H1 & H2). destruct (IH (S i) lens slab1) as (slab' & Hrun & Hs' & Hl' & Hk); [done|lia|lia|done|].
  exists slab'. split; [|split; [done|]; split; [lia|]].
  - unfold slab1 in Hrun. destruct (decide _); [exact Hrun|]. rewrite Hr, modify_bind. exact Hrun.
  - intros k. rewrite Hk. destruct (decide (k = i)) as [->|Hne].
    + rewrite decide_False, decide_True, H1, Hr, Nat.sub_diag by lia. done.
    + rewrite H2 by done. destruct (decide (S i ≤ k)%nat).
      * rewrite decide_True by lia. by replace (k - i)%nat with (S (k - S i)) by lia.
      * by rewrite decide_False by lia.
Qed.

(** Both paths write each row at its own position when there is room. *)
Lemma batched_writes (s n : nat) kv_valid_lengths kvs slab : sized s slab → sized n kvs → kvs ≠ [] → (0 < n)%nat →
  length kv_valid_lengths = length kvs → (length kvs ≤ length slab)%nat →
  Forall (λ start, (start + n ≤ s)%nat) kv_valid_lengths →
  ∃ slab', update_cache_batched kvs kv_valid_lengths slab = (slab', Ok tt) ∧
    ∀ k, slab' !! k = match slab !! k, kv_valid_lengths !! k, kvs !! k with
      | Some row, Some start, Some cols => Some (write_row start row cols)
      | r, _, _ => r
      end.
Proof.
  intros Hs Hk Hne Hn Hl Hle Hfit. unfold update_cache_batched. destruct kv_valid_lengths as [|start lens]; [by destruct kvs|].
  destruct (forallb _ _) eqn:He.
  - rewrite forallb_forall in He. apply Forall_inv in Hfit as Hf0.
    exists (write_rows 0 start kvs slab). split; [by apply (write_kvs_fits 0 start n s)|]. intros k.
    rewrite write_rows_lookup by lia. rewrite decide_True, Nat.sub_0_r by lia.
    destruct (slab !! k), (kvs !! k) as [cols|] eqn:Hc; try done.
    + destruct (lookup_lt_is_Some_2 (start :: lens) k) as [x Hx]; [apply lookup_lt_Some in Hc; lia|].
      rewrite Hx. specialize (He x). rewrite Nat.eqb_eq in He. rewrite He; [done|].
      apply list_elem_of_In. by eapply list_elem_of_lookup_2.
    + by destruct ((start :: lens) !! k).
  - destruct (write_each_run s 0 (start :: lens) kvs slab) as (slab' & Hrun & _ & _ & H); [done..| |].
    + apply Forall2_same_length_lookup_2; [done|]. intros i x cols Hx Hc. unfold sized in Hk.
      rewrite Forall_lookup in Hk. rewrite Forall_lookup in Hfit. rewrite (Hk _ _ Hc). by apply (Hfit i).
    + exists slab'. split; [exact Hrun|]. intros k. rewrite H, decide_True, Nat.sub_0_r by lia. done.
Qed.

(** ** The largest position *)

Lemma elem_valid (row : list Z) p : p ∈ valid_ids row ↔ p ∈ row ∧ 0 ≤ p.
Proof. unfold valid_ids. rewrite list_elem_of_filter. tauto. Qed.

Lemma elem_mjoin_valid ids p : p ∈ valid_ids (mjoin ids) ↔ ∃ row : list Z, row ∈ ids ∧ p ∈ valid_ids row.
Proof.
  rewrite elem_valid, list_elem_of_join. split.
  - intros [(row & Hp & Hr) H0]. exists row. rewrite elem_valid. done.
  - intros (row & Hr & [Hp H0]%elem_valid). split; [by exists row|done].
Qed.

Lemma max_valid_Some ids m :
  max_valid ids = Some m ↔
  (∃ row : list Z, row ∈ ids ∧ m ∈ valid_ids row) ∧ (∀ (row : list Z) p, row ∈ ids → p ∈ valid_ids row → p ≤ m).
Proof.
  unfold max_valid. pose proof (elem_mjoin_valid ids) as He. destruct (valid_ids (mjoin ids)) as [|v vs].
  - split; [done|]. intros [Hm _]. apply He, not_elem_of_nil in Hm as [].
  - destruct (foldl_max_ge vs v) as (H1 & H2 & H3).
    assert (Hle : ∀ (row : list Z) p, row ∈ ids → p ∈ valid_ids row → p ≤ foldl Z.max v vs).
    { intros row p Hr Hp. assert (p ∈ v :: vs) as [->|Hv]%elem_of_cons by (apply He; eauto); [done|by apply H2]. }
    split.
    + intros [= <-]. split; [by apply He|done].
    + intros [Hm Hall]. f_equal. apply Z.le_antisymm.
      * apply He in H3 as (row & Hr & Hp). eauto.
      * destruct Hm as (row & Hr & Hp). eauto.
Qed.

Lemma valid_ids_app (l k : list Z) : valid_ids (l ++ k) = valid_ids l ++ valid_ids k.
Proof. apply filter_app. Qed.

Lemma valid_ids_range a b : 0 ≤ a → valid_ids (py_range a b) = py_range a b.
Proof.
  intros Ha. unfold py_range. assert (Hl : ∀ x, x ∈ seqZ a (b - a) → 0 ≤ x) by (intros x Hx%elem_of_seqZ; lia).
  unfold valid_ids. induction (seqZ a (b - a)) as [|x l IH]; [done|]. rewrite filter_cons_True.
  - rewrite IH; [done|]. intros y Hy. apply Hl. by right.
  - apply Hl. by left.
Qed.
End proofs.

(** ** The move *)

Section reorder.
Context {E : Type} (zero : E).
Implicit Types (row cols : list E) (slab kvs : list (list E)) (ids : list (list Z)).

(** Where the accepted entries of a row start when the next round is written at [w], and
    what the row holds after the move. *)
Definition row_root (w : Z) (idr : list Z) : Z := root_position w idr.
Definition moved (w : Z) row (idr : list Z) cols : list E :=
  take (Z.to_nat (row_root w idr)) row ++ picks row (valid_ids idr) ++ cols.

Lemma moved_length w row (idr : list Z) cols : 0 ≤ row_root w idr → row_root w idr ≤ zlen row →
  Forall (λ p, 0 ≤ p < zlen row) (valid_ids idr) →
  zlen (moved w row idr cols) = row_root w idr + zlen (valid_ids idr) + zlen cols.
Proof.
  intros H0 Hr Hv. destruct (picks_ok row _ Hv) as [_ Hl]. unfold moved, zlen in *.
  rewrite !length_app, length_take, Hl. lia.
Qed.

(** The row [row] with the new columns at [w], gathered by its positions and the new ones. *)
Lemma gather_moved (w n : nat) (mx : Z) row (idr : list Z) cols : (w + n ≤ length row)%nat → length cols = n → (0 < n)%nat →
  Forall (λ p, 0 ≤ p < Z.of_nat w) (valid_ids idr) →
  let s_old := Z.of_nat (w + n) in
  let ext := idr ++ py_range (Z.of_nat w) s_old in
  gather_row zero s_old mx (take (w + n) (write_row w row cols)) ext =
    Ok (moved (Z.of_nat w) row idr cols ++ replicate (Z.to_nat (mx - zlen (moved (Z.of_nat w) row idr cols))) zero) ∧
  zlen (moved (Z.of_nat w) row idr cols) = valid_length s_old ext.
Proof.
  intros Hle Hc Hn Hv s_old ext. unfold zlen in *. set (cached := take (w + n) (write_row w row cols)).
  assert (Hcl : length cached = (w + n)%nat).
  { unfold cached. rewrite length_take, write_row_length by lia. lia. }
  assert (Hve : valid_ids ext = valid_ids idr ++ seqZ (Z.of_nat w) (Z.of_nat n)).
  { unfold ext. rewrite valid_ids_app, valid_ids_range by lia. unfold py_range. do 2 f_equal. lia. }
  assert (Hroot : root_position s_old ext = row_root (Z.of_nat w) idr).
  { unfold root_position, row_root, root_position. rewrite Hve. destruct (valid_ids idr) as [|v vs]; [|done].
    rewrite seqZ_cons by lia. done. }
  assert (Hr : 0 ≤ row_root (Z.of_nat w) idr ≤ Z.of_nat w).
  { unfold row_root, root_position. destruct Hv as [|v vs Hv _]; cbn; lia. }
  assert (Hpre : ∀ p, 0 ≤ p < Z.of_nat w → cached !! Z.to_nat p = row !! Z.to_nat p).
  { intros p Hp. unfold cached. rewrite lookup_take_lt by lia. apply write_row_before; lia. }
  assert (Hnew : picks cached (seqZ (Z.of_nat w) (Z.of_nat n)) = cols).
  { rewrite picks_range. unfold cached. rewrite <- Hc, write_row_take by lia.
    rewrite drop_app_length' by (rewrite length_take; lia). by rewrite take_ge. }
  assert (Hlen : zlen (moved (Z.of_nat w) row idr cols) = valid_length s_old ext).
  { rewrite moved_length; unfold zlen; [|lia|lia|eapply Forall_impl; [exact Hv|]; cbn; lia].
    unfold valid_length, zlen. rewrite Hroot, Hve, length_app, length_seqZ. lia. }
  split; [|exact Hlen]. unfold gather_row.
  rewrite Hroot, Hve. unfold py_range. rewrite Z.sub_0_r.
  destruct (picks_ok cached (seqZ 0 (row_root (Z.of_nat w) idr))) as [-> _].
  { apply Forall_forall. intros x Hx%elem_of_seqZ. unfold zlen. lia. }
  cbn [mbind res_bind]. destruct (picks_ok cached (valid_ids idr ++ seqZ (Z.of_nat w) (Z.of_nat n))) as [-> _].
  { apply Forall_app. split; [eapply Forall_impl; [exact Hv|]; unfold zlen; cbn; lia|].
    apply Forall_forall. intros x Hx%elem_of_seqZ. unfold zlen. lia. }
  cbn [mbind res_bind].
  assert (picks cached (seqZ 0 (row_root (Z.of_nat w) idr)) = take (Z.to_nat (row_root (Z.of_nat w) idr)) row) as ->.
  { rewrite (picks_ext cached row) by (intros p Hp%elem_of_seqZ; apply Hpre; lia).
    pose proof (picks_range row 0 (Z.to_nat (row_root (Z.of_nat w) idr))) as Hp.
    rewrite drop_0, Z2Nat.id in Hp by lia. exact Hp. }
  rewrite picks_app, Hnew, (picks_ext cached row (valid_ids idr)).
  2:{ intros p Hp. rewrite Forall_forall in Hv. apply Hpre. by apply Hv. }
  unfold zlen in Hlen |- *. rewrite Hlen. unfold moved. by rewrite <- !app_assoc.
Qed.

(** Positions in increasing order leave no room for more entries than positions. *)
Lemma sorted_room (l : list Z) (a m : Z) : StronglySorted Z.lt (a :: l) → Forall (λ p, p ≤ m) (a :: l) →
  a + zlen (a :: l) ≤ m + 1.
Proof.
  unfold zlen. revert a. induction l as [|b l IH]; intros a Hs Hle; [apply Forall_inv in Hle; cbn; lia|].
  apply StronglySorted_inv in Hs as [Hs Hab%Forall_inv]. apply Forall_inv_tail in Hle as Hle'.
  specialize (IH b Hs Hle'). cbn [length] in *. lia.
Qed.

Lemma moved_room (w : nat) row (idr : list Z) cols : StronglySorted Z.lt (valid_ids idr) →
  Forall (λ p, 0 ≤ p < Z.of_nat w) (valid_ids idr) → (w ≤ length row)%nat →
  zlen (moved (Z.of_nat w) row idr cols) ≤ Z.of_nat w + zlen cols.
Proof.
  intros Hs Hv Hle. unfold zlen in *. pose proof (moved_length (Z.of_nat w) row idr cols) as Hm. unfold zlen in Hm.
  unfold row_root, root_position in Hm. destruct (valid_ids idr) as [|v vs] eqn:Hi; cbn [head default] in Hm.
  - rewrite Hm by (cbn; lia || done). cbn. lia.
  - apply Forall_inv in Hv as Hv0. rewrite Hm; [|cbn; lia|cbn; lia|eapply Forall_impl; [exact Hv|cbn; lia]].
    assert (v + zlen (v :: vs) ≤ Z.of_nat w - 1 + 1); [|unfold zlen in *; cbn [default from_option id]; lia].
    apply sorted_room; [done|]. eapply Forall_impl; [exact Hv|cbn; lia].
Qed.

(** One row of the gathered cache. *)
Definition regathered (w : nat) (mx : Z) (x : list E * list Z * list E) : list E :=
  let new := moved (Z.of_nat w) x.1.1 x.1.2 x.2 in new ++ replicate (Z.to_nat (mx - zlen new)) zero.

(** The rows of the micro-batch with their positions and their new columns. *)
Definition inputs (o b : nat) slab ids kvs : list (list E * list Z * list E) :=
  zip (zip (batch_rows (Z.of_nat o) (Z.of_nat b) slab) ids) kvs.

Lemma inputs_lookup (o : nat) slab ids kvs k x : inputs o (length kvs) slab ids kvs !! k = Some x ↔
  slab !! (o + k)%nat = Some x.1.1 ∧ ids !! k = Some x.1.2 ∧ kvs !! k = Some x.2.
Proof.
  unfold inputs. rewrite lookup_zip_with, bind_Some. setoid_rewrite bind_Some. setoid_rewrite lookup_zip_with.
  setoid_rewrite bind_Some. setoid_rewrite bind_Some. setoid_rewrite batch_rows_lookup. destruct x as [[row idr] cols]. cbn.
  split.
  - intros (? & (r & Hr & i & Hi & [= <-]) & c & Hc & [= -> -> ->]). destruct (decide _); [|done]. done.
  - intros (Hr & Hi & Hc). apply lookup_lt_Some in Hc as Hk. eexists. split.
    + exists row. rewrite decide_True by done. split; [done|]. exists idr. done.
    + exists cols. done.
Qed.

Lemma inputs_length (o : nat) slab ids kvs : (o + length kvs ≤ length slab)%nat → length ids = length kvs →
  length (inputs o (length kvs) slab ids kvs) = length kvs.
Proof.
  intros Hle Hl. unfold inputs, batch_rows.
  rewrite !length_zip_with, length_take, length_drop, !Nat2Z.id. lia.
Qed.

(** What [select_cache] reads after the write of the new columns, with the extended positions. *)
Lemma read_back (o w n : nat) slab ids kvs : (o + length kvs ≤ length slab)%nat → length ids = length kvs →
  zip (take (w + n) <$> batch_rows (Z.of_nat o) (zlen kvs) (write_rows o w kvs slab))
    ((λ idr, idr ++ py_range (Z.of_nat w) (Z.of_nat (w + n))) <$> ids) =
  (λ x, (take (w + n) (write_row w x.1.1 x.2), x.1.2 ++ py_range (Z.of_nat w) (Z.of_nat (w + n))))
    <$> inputs o (length kvs) slab ids kvs.
Proof.
  intros Hle Hl. apply list_eq. intros k. rewrite lookup_zip_with, !list_lookup_fmap. unfold zlen.
  rewrite batch_rows_lookup.
  destruct (inputs o (length kvs) slab ids kvs !! k) as [x|] eqn:Hx.
  - apply inputs_lookup in Hx as (Hr & Hi & Hc). apply lookup_lt_Some in Hc as Hk. rewrite decide_True by done.
    rewrite write_rows_lookup, Hr, decide_True by lia. replace (o + k - o)%nat with k by lia. rewrite Hc, Hi. done.
  - apply lookup_ge_None in Hx. rewrite inputs_length in Hx by done. by rewrite decide_False by lia.
Qed.

Lemma mapM_fmap {A B C} (f : B → res C) (g : A → B) (l : list A) : mapM f (g <$> l) = mapM (f ∘ g) l.
Proof. induction l as [|x l IH]; [done|]. cbn. destruct (f (g x)); [cbn; by rewrite IH|done]. Qed.

(** Positions that can be moved: in increasing order below the write position. *)
Definition movable (w : nat) ids : Prop :=
  Forall (λ idr, StronglySorted Z.lt (valid_ids idr) ∧ Forall (λ p, 0 ≤ p < Z.of_nat w) (valid_ids idr)) ids.

Lemma max_valid_movable ids m : max_valid ids = Some m →
  Forall (λ idr, StronglySorted Z.lt (valid_ids idr)) ids → 0 ≤ m ∧ movable (Z.to_nat (m + 1)) ids.
Proof.
  intros [(r & Hr & Hm) Hle]%max_valid_Some Hs. apply elem_valid in Hm as [_ H0]. split; [done|].
  unfold movable. rewrite Forall_forall in Hs |- *. intros idr Hi. split; [by apply Hs|]. apply Forall_forall.
  intros p Hp. specialize (Hle idr p Hi Hp). apply elem_valid in Hp. lia.
Qed.

Lemma max_valid_extended (w n : nat) ids : movable w ids → ids ≠ [] → (0 < n)%nat →
  max_valid ((λ idr, idr ++ py_range (Z.of_nat w) (Z.of_nat (w + n))) <$> ids) = Some (Z.of_nat (w + n) - 1).
Proof.
  intros Hv Hne Hn. unfold movable in Hv. rewrite Forall_forall in Hv. apply max_valid_Some. split.
  - destruct ids as [|idr ids]; [done|]. eexists. split; [by left|]. rewrite valid_ids_app, valid_ids_range by lia.
    apply elem_of_app. right. unfold py_range. apply elem_of_seqZ. lia.
  - intros row p (idr & -> & Hi)%list_elem_of_fmap. rewrite valid_ids_app, valid_ids_range by lia.
    intros [Hp|Hp]%elem_of_app; [|unfold py_range in Hp; apply elem_of_seqZ in Hp; lia].
    destruct (Hv idr Hi) as [_ Hb]. rewrite Forall_forall in Hb. specialize (Hb p Hp). cbn in Hb. lia.
Qed.

Lemma inputs_moved (o w n s : nat) slab ids kvs x : sized s slab → sized n kvs → (w + n ≤ s)%nat →
  movable w ids → x ∈ inputs o (length kvs) slab ids kvs →
  length x.1.1 = s ∧ length x.2 = n ∧ StronglySorted Z.lt (valid_ids x.1.2) ∧
  Forall (λ p, 0 ≤ p < Z.of_nat w) (valid_ids x.1.2).
Proof.
  intros Hs Hk Hfit Hv Hx. apply list_elem_of_lookup in Hx as [k Hx]. apply inputs_lookup in Hx as (Hr & Hi & Hc).
  unfold movable, sized in *. rewrite Forall_lookup in Hs, Hk. rewrite Forall_lookup in Hv. destruct (Hv _ _ Hi). eauto 10.
Qed.

Section step.
Context (o w n s : nat) slab ids kvs.
Hypotheses (Hs : sized s slab) (Hk : sized n kvs) (Hne : kvs ≠ []) (Hn : (0 < n)%nat)
  (Hle : (o + length kvs ≤ length slab)%nat) (Hl : length ids = length kvs) (Hfit : (w + n ≤ s)%nat)
  (Hv : movable w ids).

Let xs := inputs o (length kvs) slab ids kvs.
Let slab1 := write_rows o w kvs slab.
Let ext := (λ idr, idr ++ py_range (Z.of_nat w) (Z.of_nat (w + n))) <$> ids.
Let kp := take (w + n) <$> batch_rows (Z.of_nat o) (zlen kvs) slab1.
Let new_length (x : list E * list Z * list E) : Z := zlen (moved (Z.of_nat w) x.1.1 x.1.2 x.2).

Lemma step_input x : x ∈ xs → 0 < new_length x ≤ Z.of_nat (w + n) ∧
  ∀ mx, gather_row zero (Z.of_nat (w + n)) mx (take (w + n) (write_row w x.1.1 x.2))
      (x.1.2 ++ py_range (Z.of_nat w) (Z.of_nat (w + n))) = Ok (regathered w mx x) ∧
    new_length x = valid_length (Z.of_nat (w + n)) (x.1.2 ++ py_range (Z.of_nat w) (Z.of_nat (w + n))).
Proof.
  intros Hx. destruct (inputs_moved o w n s slab ids kvs x) as (H1 & H2 & H3 & H4); [done..|]. split.
  - pose proof (moved_room w x.1.1 x.1.2 x.2 H3 H4) as Hm. unfold new_length. unfold zlen in *. split; [|lia].
    unfold moved. rewrite !length_app. lia.
  - intros mx. apply (gather_moved w n mx x.1.1 x.1.2 x.2); (done || lia).
Qed.

Lemma step_lengths : valid_length (Z.of_nat (w + n)) <$> ext = new_length <$> xs.
Proof.
  apply list_eq. intros k. unfold ext. rewrite !list_lookup_fmap. destruct (xs !! k) as [x|] eqn:Hx.
  - pose proof (list_elem_of_lookup_2 _ _ _ Hx) as Hin. apply inputs_lookup in Hx as (_ & -> & _). cbn.
    by destruct (proj2 (step_input x Hin) 0) as [_ ->].
  - apply lookup_ge_None in Hx. unfold xs in Hx. rewrite inputs_length in Hx by done.
    by rewrite (proj2 (lookup_ge_None ids k)) by lia.
Qed.

Lemma step_max : ∃ l ls, valid_length (Z.of_nat (w + n)) <$> ext = l :: ls ∧
  0 < foldl Z.max l ls ≤ Z.of_nat (w + n) ∧ Forall (λ x, new_length x ≤ foldl Z.max l ls) xs.
Proof.
  rewrite step_lengths. destruct (new_length <$> xs) as [|l ls] eqn:Hvl.
  { apply (f_equal length) in Hvl. unfold xs in Hvl. rewrite length_fmap, inputs_length in Hvl by done.
    by destruct kvs. }
  exists l, ls. destruct (foldl_max_ge ls l) as (Hf1 & Hf2 & Hf3). split; [done|]. split.
  - rewrite <- Hvl in Hf3. apply list_elem_of_fmap in Hf3 as (x & -> & Hx). by apply step_input.
  - apply Forall_forall. intros x Hx. assert (new_length x ∈ l :: ls) as [->|]%elem_of_cons; [|done|by apply Hf2].
    rewrite <- Hvl. apply list_elem_of_fmap. by exists x.
Qed.

Lemma step_written : sized s slab1 ∧ length slab1 = length slab ∧ slab1 ≠ [].
Proof.
  destruct (write_rows_sized o w n s kvs slab) as [H1 H2]; [done..|]. split; [done|]. split; [done|].
  intros E0. unfold slab1 in E0. rewrite E0 in H2. destruct kvs, slab; (done || cbn in *; lia).
Qed.

Lemma step_read : select_cache (Z.of_nat (w + n)) (Z.of_nat o) (zlen kvs) slab1 = Ok (Some kp).
Proof.
  destruct step_written as (H1 & H2 & H3). unfold select_cache. rewrite (proj2 (Z.leb_gt _ 0)) by lia.
  rewrite (sized_len s) by done. rewrite (proj2 (Z.ltb_ge _ _)) by lia. by rewrite Nat2Z.id.
Qed.

Lemma step_prefix : sized (w + n) kp ∧ length kp = length kvs ∧ slab_len kp = Z.of_nat (w + n).
Proof.
  destruct step_written as (H1 & H2 & _).
  assert (Hkp : length kp = length kvs).
  { unfold kp, batch_rows. rewrite length_fmap, length_take, length_drop, Nat2Z.id. unfold zlen. lia. }
  assert (Hkps : sized (w + n) kp).
  { apply list.Forall_fmap. eapply Forall_impl; [apply Forall_take, Forall_drop, H1|]. intros r Hr.
    cbn in *. rewrite length_take, Hr. lia. }
  split; [done|]. split; [done|]. apply sized_len; [done|]. intros E0. rewrite E0 in Hkp. by destruct kvs.
Qed.

Lemma step_gather mx :
  mapM (λ x : list E * list Z, gather_row zero (Z.of_nat (w + n)) mx x.1 x.2) (zip kp ext) = Ok (regathered w mx <$> xs).
Proof.
  assert (Hrb : zip kp ext = _) by (by apply read_back). rewrite Hrb. rewrite mapM_fmap. apply mapM_Ok.
  intros x Hx. cbn. apply (proj2 (step_input x Hx) mx).
Qed.

Lemma step_regathered (mx : nat) : Forall (λ x, new_length x ≤ Z.of_nat mx) xs → sized mx (regathered w (Z.of_nat mx) <$> xs).
Proof.
  intros Hx. apply list.Forall_fmap. eapply Forall_impl; [exact Hx|]. intros x Hlx. unfold regathered. cbn in *.
  unfold new_length, zlen in *. rewrite length_app, length_replicate. lia.
Qed.

Lemma reorder_runs : max_valid ids = Some (Z.of_nat w - 1) →
  ∃ mx : nat, (0 < mx ≤ s)%nat ∧ Forall (λ x, new_length x ≤ Z.of_nat mx) xs ∧
    reorder_task zero kvs (Some ids) (Z.of_nat o) (zlen kvs) slab =
      (write_rows o 0 (regathered w (Z.of_nat mx) <$> xs) slab1, Ok tt).
Proof.
  intros Hm. destruct step_max as (l & ls & Hvl & Hmb & Hmx). destruct step_written as (H1 & H2 & H3).
  destruct step_prefix as (H4 & H5 & H6). exists (Z.to_nat (foldl Z.max l ls)). rewrite Z2Nat.id by lia.
  split; [lia|]. split; [done|].
  assert (Hw : write_kvs (Z.of_nat o) (Z.of_nat w) kvs slab = (slab1, Ok tt)) by (apply (write_kvs_fits o w n s); done).
  assert (Hext : max_valid ext = Some (Z.of_nat (w + n) - 1)).
  { apply max_valid_extended; [done| |done]. intros ->. destruct kvs; [done|]. cbn in Hl. lia. }
  unfold reorder_task. cbn [mbind option_bind]. rewrite Hm.
  replace (Z.of_nat w - 1 + 1) with (Z.of_nat w) by lia. cbv zeta. rewrite (bind_ok _ _ _ _ _ Hw).
  rewrite (sized_len n kvs) by done. rewrite <- Nat2Z.inj_add. cbn [default from_option id]. fold ext.
  rewrite Hext, get_bind. replace (Z.of_nat (w + n) - 1 + 1) with (Z.of_nat (w + n)) by lia.
  rewrite step_read, lift_ok_bind. unfold reorder_and_write_cache. rewrite H6.
  assert (length kp = length ext) as -> by (unfold ext; rewrite length_fmap; lia). rewrite Nat.eqb_refl. cbn [negb].
  rewrite Hvl, step_gather. apply (write_kvs_fits o 0 (Z.to_nat (foldl Z.max l ls)) s); try done.
  - pose proof (step_regathered (Z.to_nat (foldl Z.max l ls))) as Hr. rewrite Z2Nat.id in Hr by lia. auto.
  - intros E0. apply (f_equal length) in E0. unfold xs in E0. rewrite length_fmap, inputs_length in E0 by done.
    by destruct kvs.
  - lia.
  - unfold xs. rewrite length_fmap, inputs_length by done. lia.
  - lia.
Qed.
End step.

(** The step, row by row. *)
Lemma reorder_result (o n s : nat) slab ids kvs (m : Z) :
  sized s slab → sized n kvs → kvs ≠ [] → (0 < n)%nat →
  (o + length kvs ≤ length slab)%nat → length ids = length kvs →
  max_valid ids = Some m → m + 1 + Z.of_nat n ≤ Z.of_nat s → Forall (λ idr, StronglySorted Z.lt (valid_ids idr)) ids →
  ∃ slab', reorder_task zero kvs (Some ids) (Z.of_nat o) (zlen kvs) slab = (slab', Ok tt) ∧
    sized s slab' ∧ length slab' = length slab ∧
    (∀ k, (k < o)%nat ∨ (o + length kvs ≤ k)%nat → slab' !! k = slab !! k) ∧
    (∀ k row idr cols, slab !! (o + k)%nat = Some row → ids !! k = Some idr → kvs !! k = Some cols →
      let root := default (m + 1) (head (valid_ids idr)) in
      ∃ rest, slab' !! (o + k)%nat =
        Some (take (Z.to_nat root) row ++ omap (λ p, row !! Z.to_nat p) (valid_ids idr) ++ cols ++ rest)).
Proof.
  intros Hs Hk Hne Hn Hle Hl Hm Hfit Hsrt. destruct (max_valid_movable ids m Hm Hsrt) as [H0 Hv].
  set (w := Z.to_nat (m + 1)). assert (Hw : Z.of_nat w = m + 1) by lia.
  destruct (reorder_runs o w n s slab ids kvs) as (mx & Hb & Hx & Hrun); try done; [lia|rewrite Hm; f_equal; lia|].
  set (xs := inputs o (length kvs) slab ids kvs) in *.
  assert (Hlx : length (regathered w (Z.of_nat mx) <$> xs) = length kvs).
  { unfold xs. by rewrite length_fmap, inputs_length. }
  destruct (step_written o w n s slab ids kvs) as (H1 & H2 & _); try done; [lia|].
  eexists. split; [exact Hrun|]. destruct (write_rows_sized o 0 mx s (regathered w (Z.of_nat mx) <$> xs)
    (write_rows o w kvs slab)) as [H3 H4]; [done|apply (step_regathered o w n s); (done || lia)|lia|lia|].
  split; [done|]. split; [lia|]. split.
  - intros k Hout. rewrite !write_rows_lookup by lia. destruct (decide _) as [Hok|Hok]; [|by destruct (slab !! k)].
    rewrite (proj2 (lookup_ge_None (regathered w (Z.of_nat mx) <$> xs) (k - o))), (proj2 (lookup_ge_None kvs (k - o))) by lia.
    by destruct (slab !! k).
  - intros k row idr cols Hr Hi Hc. cbv zeta. exists
      (replicate (Z.to_nat (Z.of_nat mx - zlen (moved (Z.of_nat w) row idr cols))) zero ++ drop mx (write_row w row cols)).
    rewrite !write_rows_lookup by lia. rewrite Hr, !decide_True by lia. replace (o + k - o)%nat with k by lia.
    assert (Hin : xs !! k = Some (row, idr, cols)) by (by apply inputs_lookup).
    assert (length ((regathered w (Z.of_nat mx)) (row, idr, cols)) = mx) as Hrl.
    { apply list.Forall_lookup_1 with (i := k) (x := (row, idr, cols)) in Hx; [|done]. unfold regathered, zlen in *. cbn in *.
      rewrite length_app, length_replicate. lia. }
    rewrite Hc, list_lookup_fmap, Hin. cbn [fmap option_fmap option_map]. rewrite write_row_0, Hrl. unfold regathered at 1. cbn. unfold moved, row_root, root_position.
    rewrite Hw. unfold picks. by rewrite <- !app_assoc.
Qed.

(** C27: After a speculative step the server neither raises nor loses anything: the sequences
    outside the micro-batch keep their entries and the slab its shape, and each sequence of
    the micro-batch starts with its committed prefix before its root, then exactly the accepted
    entries in their order, then the entries of the new tree, with no gap between them. *)
Theorem reorder_compacts (o n s : nat) slab ids kvs (m : Z) :
  sized s slab → sized n kvs → kvs ≠ [] → (0 < n)%nat →
  (o + length kvs ≤ length slab)%nat → length ids = length kvs →
  max_valid ids = Some m → m + 1 + Z.of_nat n ≤ Z.of_nat s → Forall (λ idr, StronglySorted Z.lt (valid_ids idr)) ids →
  ∃ slab', reorder_task zero kvs (Some ids) (Z.of_nat o) (zlen kvs) slab = (slab', Ok tt) ∧
    do_reorder_task zero kvs (Some ids) (Z.of_nat o) (zlen kvs) slab = (slab', Ok tt) ∧
    sized s slab' ∧ length slab' = length slab ∧
    (∀ k, (k < o)%nat ∨ (o + length kvs ≤ k)%nat → slab' !! k = slab !! k) ∧
    (∀ k row idr cols, slab !! (o + k)%nat = Some row → ids !! k = Some idr → kvs !! k = Some cols →
      let root := default (m + 1) (head (valid_ids idr)) in
      ∃ rest, slab' !! (o + k)%nat =
        Some (take (Z.to_nat root) row ++ omap (λ p, row !! Z.to_nat p) (valid_ids idr) ++ cols ++ rest)).
Proof.
  intros Hs Hk Hne Hn Hle Hl Hm Hfit Hsrt.
  destruct (reorder_result o n s slab ids kvs m) as (slab' & Hrun & Hrest); [done..|]. exists slab'.
  split; [done|]. split; [|done]. unfold do_reorder_task. by rewrite Hrun.
Qed.
End reorder.

Lemma reorder_compacts_witness : ∃ slab',
  reorder_task 0 [[70; 71]; [80; 81]] (Some [[1; 3; -1]; [2; -1; -1]]) 1 2
    [[9; 9; 9; 9; 9; 9; 9]; [10; 11; 12; 13; 0; 0; 0]; [20; 21; 22; 23; 0; 0; 0]] = (slab', Ok tt) ∧
  slab' !! 0%nat = Some [9; 9; 9; 9; 9; 9; 9] ∧
  ∃ rest, slab' !! 1%nat = Some ([10] ++ [11; 13] ++ [70; 71] ++ rest).
Proof.
  destruct (reorder_compacts 0 1 2 7 [[9; 9; 9; 9; 9; 9; 9]; [10; 11; 12; 13; 0; 0; 0]; [20; 21; 22; 23; 0; 0; 0]]
    [[1; 3; -1]; [2; -1; -1]] [[70; 71]; [80; 81]] 3) as (slab' & H1 & _ & _ & _ & H2 & H3).
  all: [> repeat constructor|repeat constructor|done|lia|cbn; lia|done|vm_compute; reflexivity|lia
        |repeat constructor; vm_compute; repeat constructor|].
  exists slab'. split; [exact H1|]. split; [apply H2; lia|].
  destruct (H3 0%nat [10; 11; 12; 13; 0; 0; 0] [1; 3; -1] [70; 71]) as [rest Hr]; [done..|]. exists rest. exact Hr.
Defined.
