(* ===== verification/SpecRestore.v ===== *)
(** * Kept rows between servers and client (server/backend.py, server/block_functions.py)

    The last block of a speculative step sends the hidden states of the kept positions as one
    row of vectors, together with the kept indices; whoever needs the tree again lays them out in
    zeros ([restore_hidden_states] on a server, its copy in client/inference_session.py in the
    session). Micro-batches are flattened one by one and merged.

    Hidden vectors are abstract. Tensors of two dimensions are lists of rows of one length. *)

From stdpp Require Import numbers base list sorting.
From Stdlib Require Import ZArith Lia.
From S2P Require Import Prelude SpecTree SpecCache SpecPrune.

(** A tensor of hidden states, by its number of dimensions before the last. *)
Inductive hidden (R : Type) :=
  | Vectors (rows : list R)               (** [N, H] *)
  | Batched (groups : list (list R))      (** [G, N, H] *)
  | OtherShape.
Arguments Vectors {R} rows.
Arguments Batched {R} groups.
Arguments OtherShape {R}.

(** The size of the second dimension. *)
Definition width {A} (rows : list (list A)) : Z := match rows with row :: _ => zlen row | [] => 0 end.

Definition total_valid (keep : list (list Z)) : Z := foldr Z.add 0 (count_valid <$> keep).

(** [(batch_idx[valid_mask], keep_indices[valid_mask])] *)
Definition valid_pairs (keep : list (list Z)) : list (nat * Z) :=
  mjoin (imap (λ b row, pair b <$> filter (λ v, 0 ≤ v) row) keep).

Section kept_rows.
Context {R : Type} (zero : R) (is_zero : R → bool).

(** ** Flattening *)

(** [original_hidden_states[batch_idx[valid_mask], keep_indices[valid_mask], :]] *)
Definition flatten_hidden_states (original : list (list R)) (keep : list (list Z)) : res (list R) :=
  mapM (λ bj : nat * Z,
    row ← of_option IndexError (original !! bj.1);
    of_option IndexError (row !! Z.to_nat bj.2)) (valid_pairs keep).

(** ** Restoring *)

(** [row[keep >= 0]] *)
Definition masked {A} (keep : list Z) (row : list A) : list A := (filter (λ vx : Z * A, 0 ≤ vx.1) (zip keep row)).*2.

Definition flatten_hidden_with_keep_layout (groups : list (list R)) (keep : list (list Z)) : res (list R) :=
  if (zlen groups =? zlen keep) && (width groups =? width keep) then Ok (mjoin (zip_with masked keep groups))
  else
    let num_groups := zlen groups in
    let total_batch := zlen keep in
    if (0 <? num_groups) && (total_batch mod num_groups =? 0) then
      let batch_per_group := total_batch / num_groups in
      grouped_rows ← mapM (λ group_idx : nat,
          let keep_chunk := py_slice keep (Z.of_nat group_idx * batch_per_group) ((Z.of_nat group_idx + 1) * batch_per_group) in
          let valid_count := total_valid keep_chunk in
          if valid_count =? 0 then Ok []
          else
            group_hidden ← of_option IndexError (groups !! group_idx);
            if zlen group_hidden <? valid_count then Raise ValueError
            else Ok (take (Z.to_nat valid_count) group_hidden))
        (seq 0 (length groups));
      Ok (mjoin grouped_rows)
    else
      let flat_hidden_local := mjoin groups in
      let expected_valid := total_valid keep in
      Ok (if (expected_valid <? zlen flat_hidden_local) && forallb is_zero (drop (Z.to_nat expected_valid) flat_hidden_local)
          then take (Z.to_nat expected_valid) flat_hidden_local else flat_hidden_local).

(** [restored[valid_batch_idx, valid_seq_idx, :] = flat_hidden] *)
Fixpoint scatter (pairs : list (nat * Z)) (flat_hidden : list R) (restored : list (list R)) : res (list (list R)) :=
  match pairs, flat_hidden with
  | (b, j) :: pairs, x :: flat_hidden =>
      row ← of_option IndexError (restored !! b);
      if j <? zlen row then scatter pairs flat_hidden (<[b := <[Z.to_nat j := x]> row]> restored) else Raise IndexError
  | _, _ => Ok restored
  end.

Definition restore_hidden_states (flattened_hidden_states : hidden R) (keep : list (list Z)) (original_seq_len : Z)
    : res (list (list R)) :=
  flat_hidden ← match flattened_hidden_states with
                | Vectors rows => Ok rows
                | Batched groups => flatten_hidden_with_keep_layout groups keep
                | OtherShape => Raise ValueError
                end;
  let restored := replicate (length keep) (replicate (Z.to_nat original_seq_len) zero) in
  if negb (zlen flat_hidden =? total_valid keep) then Raise ValueError
  else scatter (valid_pairs keep) flat_hidden restored.

(** [InferenceSession._restore_hidden_states], the client's copy. *)
Definition session_restore_hidden_states : hidden R → list (list Z) → Z → res (list (list R)) := restore_hidden_states.

(** Shapes of the tensors, [None] for what is not one. *)
Definition should_restore_spec_hidden_states (hidden_states keep draft_tokens : option (list Z)) : bool :=
  match hidden_states, keep, draft_tokens with
  | Some (actual_batch :: actual_seq :: _ :: _), Some (expected_batch :: _ :: _), Some (d0 :: d1 :: ds) =>
      let expected_seq := default d1 (last ds) in
      negb (actual_batch =? expected_batch) || negb (actual_seq =? expected_seq)
  | _, _, _ => false
  end.

(** ** The end of a step *)

(** What the request brings: a tensor by its dimensions, those after the first two laid out row
    by row. *)
Inductive keep_arg :=
  | KMissing
  | KScalar (v : Z)
  | KVector (vs : list Z)
  | KTable (rows : list (list Z))
  | KDeep (rows : list (list Z)).

Definition normalize_keep_indices (keep : keep_arg) (batch_size seq_len : Z) : list (list Z) :=
  let expand row := replicate (Z.to_nat batch_size) row in
  let default_keep := expand (seqZ 0 seq_len) in
  let fit rows :=
    if (zlen rows =? 1) && (1 <? batch_size) then expand (default [] (head rows))
    else if zlen rows =? batch_size then rows else default_keep in
  match keep with
  | KMissing => default_keep
  | KScalar v => fit (expand [v])
  | KVector [] => default_keep
  | KVector vs => fit (expand vs)
  | KTable rows | KDeep rows => if (length (mjoin rows) =? 0)%nat then default_keep else fit rows
  end.

(** The tail of [inference_step]: hidden states, kept indices and where they are in the cache.
    [prune] is [prune_draft_tree] of the normed states. *)
Definition step_output {S} (is_spec_decoding need_pruning is_last_block : bool) (prune : M S (list (list Z)))
    (keep : keep_arg) (output_hidden_states : list (list R)) (cache_len : Z)
    : M S (hidden R * list (list Z) * list (list Z)) :=
  let normalized := normalize_keep_indices keep (zlen output_hidden_states) (width output_hidden_states) in
  keep_indices ← (if is_spec_decoding && need_pruning && is_last_block then prune else mret normalized);
  output ← (if is_spec_decoding && is_last_block then
              valid_hidden_states ← lift (flatten_hidden_states output_hidden_states keep_indices);
              mret (Batched [valid_hidden_states])
            else mret (Batched output_hidden_states));
  let last_keep_indices := map (λ row, map (λ v, v + cache_len) row) keep_indices in
  mret (output, keep_indices, last_keep_indices).

(** ** Micro-batches *)

(** [merge_microbatch_keep_indices] of tables: rows of all, padded to one length. *)
Definition merge_keep_tables (outputs : list (option (list (list Z)))) : option (list (list Z)) :=
  match omap id outputs with
  | [] => None
  | [out] => Some out
  | outs => Some (pad_minus_one (foldl Z.max 0 (width <$> outs)) <$> mjoin outs)
  end.

(** [_merge_inference_microbatch_hidden_states]; [merge_outputs] is the merge of all other steps
    (Microbatch.v). *)
Fixpoint flattened_chunks (outs : list (hidden R)) : option (list (list R)) :=
  match outs with
  | [] => Some []
  | Batched [rows] :: outs | Vectors rows :: outs => chunks ← flattened_chunks outs; Some (rows :: chunks)
  | _ => None
  end.

Definition merge_inference_microbatch_hidden_states (merge_outputs : list (hidden R) → res (hidden R))
    (outputs : list (option (hidden R))) (is_spec_dec is_last_block : bool) : res (option (hidden R)) :=
  match omap id outputs with
  | [] => Ok None
  | valid_outputs =>
      if negb is_spec_dec || negb is_last_block then r ← merge_outputs valid_outputs; Ok (Some r)
      else match flattened_chunks valid_outputs with
           | None => r ← merge_outputs valid_outputs; Ok (Some r)
           | Some chunks => Ok (Some (Batched [mjoin chunks]))
           end
  end.
End kept_rows.

(** ** Flattening and restoring *)

Section proofs.
Context {R : Type} (zero : R) (is_zero : R → bool).
Implicit Types (row : list R) (original : list (list R)) (ks : list Z) (keep : list (list Z)).

(** A row with the vectors of the kept positions in their places and zeros elsewhere. *)
Definition kept_row row ks : list R := imap (λ j x, if bool_decide (Z.of_nat j ∈ ks) then x else zero) row.
Definition kept_rows original keep : list (list R) := zip_with kept_row original keep.

(** Indices of a batch of [n] positions. *)
Record indices_of (n : nat) original keep : Prop := mkIndices {
  ix_batch : length original = length keep;
  ix_rows : Forall (λ row, length row = n) original;
  ix_bound : Forall (Forall (λ v, v < Z.of_nat n)) keep;
}.

(** The positions [b], [b+1], ... of a batch. *)
Definition pairs_from (b : nat) keep : list (nat * Z) := mjoin (imap (λ i ks, pair (b + i)%nat <$> valid_ids ks) keep).

Lemma pairs_from_cons b ks keep : pairs_from b (ks :: keep) = (pair b <$> valid_ids ks) ++ pairs_from (S b) keep.
Proof.
  unfold pairs_from. cbn. rewrite Nat.add_0_r. do 2 f_equal. apply imap_ext. intros i x _. cbn. by rewrite Nat.add_succ_r.
Qed.

Lemma valid_pairs_from keep : valid_pairs keep = pairs_from 0 keep.
Proof. done. Qed.

Definition flat_rows original keep : list R := mjoin (zip_with (λ row ks, picks row (valid_ids ks)) original keep).

Lemma valid_in n ks : Forall (λ v, v < Z.of_nat n) ks → Forall (λ v, 0 ≤ v < Z.of_nat n) (valid_ids ks).
Proof. rewrite !Forall_forall. intros Hk v [Hv ?]%elem_valid. specialize (Hk v Hv). lia. Qed.

Lemma indices_cons n row original ks keep : indices_of n (row :: original) (ks :: keep) ↔
  length row = n ∧ Forall (λ v, v < Z.of_nat n) ks ∧ indices_of n original keep.
Proof.
  split.
  - intros [H1 [? H2]%Forall_cons [? H3]%Forall_cons]. cbn in H1. split; [done|]. split; [done|]. split; [lia|done|done].
  - intros (H1 & H2 & [H3 H4 H5]). split; [cbn; lia|by constructor|by constructor].
Qed.

Lemma flatten_ok n original keep : indices_of n original keep →
  flatten_hidden_states original keep = Ok (flat_rows original keep).
Proof.
  intros Hi. unfold flatten_hidden_states. rewrite valid_pairs_from.
  apply mapM_Forall2. assert (∀ pre, Forall2 (λ (bj : nat * Z) x, (row ← of_option IndexError ((pre ++ original) !! bj.1);
    of_option IndexError (row !! Z.to_nat bj.2)) = Ok x) (pairs_from (length pre) keep) (flat_rows original keep)) as Hp; [|apply (Hp [])].
  revert keep Hi. induction original as [|row original IH]; intros keep Hi pre.
  { destruct keep; [done|]. by destruct Hi. }
  destruct keep as [|ks keep]; [by destruct Hi|]. apply indices_cons in Hi as (Hl & Hk & Hi).
  rewrite pairs_from_cons. unfold flat_rows. cbn [zip_with mjoin list_join]. fold (flat_rows original keep).
  apply valid_in in Hk.
  specialize (IH keep Hi (pre ++ [row])). rewrite length_app, Nat.add_1_r, <- (assoc_L (++)) in IH. cbn [app] in IH.
  apply Forall2_app; [|exact IH].
  clear -Hl Hk. induction Hk as [|v vs Hv Hk IHk]; [constructor|]. unfold picks in *. cbn.
  destruct (lookup_lt_is_Some_2 row (Z.to_nat v)) as [x Hx]; [lia|]. rewrite Hx. constructor; [|done].
  cbn [fst snd]. rewrite list_lookup_middle by done. cbn. by rewrite Hx.
Qed.

Lemma flat_rows_len n original keep : indices_of n original keep → zlen (flat_rows original keep) = total_valid keep.
Proof.
  revert keep. induction original as [|row original IH]; intros [|ks keep] Hi; try done; try by destruct Hi.
  apply indices_cons in Hi as (Hl & Hk & Hi). unfold flat_rows, total_valid in *. cbn [zip_with mjoin list_join fmap list_fmap foldr].
  rewrite zlen_app, IH by done. f_equal. unfold count_valid, zlen. f_equal. apply picks_ok. unfold zlen. rewrite Hl. by apply valid_in.
Qed.

(** One row written over another where the indices say. *)
Definition over row (vs : list Z) row' : list R := imap (λ j xy, if bool_decide (Z.of_nat j ∈ vs) then xy.1 else xy.2) (zip row row').

Lemma over_lookup row vs row' j : length row' = length row →
  over row vs row' !! j = if bool_decide (Z.of_nat j ∈ vs) then row !! j else row' !! j.
Proof.
  intros Hl. unfold over. rewrite list_lookup_imap, lookup_zip_with. destruct (row !! j) as [x|] eqn:Hx.
  - destruct (lookup_lt_is_Some_2 row' j) as [y Hy]; [apply lookup_lt_Some in Hx; lia|]. rewrite Hy. cbn. by case_bool_decide.
  - apply lookup_ge_None in Hx as Hge. rewrite (lookup_ge_None_2 row' j) by lia. cbn. by case_bool_decide.
Qed.

Lemma over_length row vs row' : length row' = length row → length (over row vs row') = length row.
Proof. intros Hl. unfold over. rewrite length_imap, length_zip_with. lia. Qed.

Lemma scatter_row b row vs cur pairs flat out : out !! b = Some cur → length cur = length row →
  Forall (λ v, 0 ≤ v < zlen row) vs →
  scatter ((pair b <$> vs) ++ pairs) (picks row vs ++ flat) out = scatter pairs flat (<[b := over row vs cur]> out).
Proof.
  intros Ho Hl Hv. revert cur out Ho Hl. induction Hv as [|v vs Hv Hvs IH]; intros cur out Ho Hl.
  - cbn. rewrite list_insert_id; [done|]. rewrite Ho. f_equal. apply list_eq. intros j. by rewrite over_lookup, bool_decide_false by (done || apply not_elem_of_nil).
  - unfold picks in *. cbn. unfold zlen in Hv. destruct (lookup_lt_is_Some_2 row (Z.to_nat v)) as [x Hx]; [lia|].
    rewrite Hx. cbn. rewrite Ho. cbn [of_option mbind res_bind]. unfold zlen. rewrite (proj2 (Z.ltb_lt _ _)) by lia.
    rewrite (IH (<[Z.to_nat v := x]> cur)).
    + rewrite list_insert_insert_eq. do 2 f_equal. apply list_eq. intros j. rewrite !over_lookup by (rewrite ?length_insert; done).
      destruct (decide (j = Z.to_nat v)) as [->|Hne].
      * rewrite list_lookup_insert_eq by lia. rewrite (bool_decide_true (_ ∈ v :: vs)) by (rewrite Z2Nat.id by lia; by left).
        rewrite Hx. by case_bool_decide.
      * rewrite list_lookup_insert_ne by done. assert (Z.of_nat j ∈ v :: vs ↔ Z.of_nat j ∈ vs) as Hiff.
        { rewrite elem_of_cons. split; [intros [?|?]; [lia|done]|by right]. }
        by rewrite (bool_decide_ext _ _ Hiff).
    + rewrite list_lookup_insert_eq; [done|]. by apply lookup_lt_Some in Ho.
    + by rewrite length_insert.
Qed.

Lemma over_zeros row ks : Forall (λ v, v < zlen row) ks → over row (valid_ids ks) (replicate (length row) zero) = kept_row row ks.
Proof.
  intros Hk. apply list_eq. intros j. rewrite over_lookup by (by rewrite length_replicate). unfold kept_row.
  rewrite list_lookup_imap. assert (Z.of_nat j ∈ valid_ids ks ↔ Z.of_nat j ∈ ks) as Hiff by (rewrite elem_valid; intuition lia).
  rewrite (bool_decide_ext _ _ Hiff). destruct (row !! j) as [x|] eqn:Hx; cbn.
  - rewrite lookup_replicate_2 by (by eapply lookup_lt_Some). by case_bool_decide.
  - apply lookup_ge_None in Hx as Hge. rewrite (lookup_ge_None_2 (replicate _ _)) by (rewrite length_replicate; lia). by case_bool_decide.
Qed.

Lemma scatter_ok n original keep : indices_of n original keep →
  scatter (valid_pairs keep) (flat_rows original keep) (replicate (length keep) (replicate n zero)) = Ok (kept_rows original keep).
Proof.
  intros Hi. rewrite valid_pairs_from.
  assert (∀ pre, scatter (pairs_from (length pre) keep) (flat_rows original keep) (pre ++ replicate (length keep) (replicate n zero)) =
    Ok (pre ++ kept_rows original keep)) as Hp; [|apply (Hp [])].
  revert keep Hi. induction original as [|row original IH]; intros keep Hi pre.
  { destruct keep; [done|]. by destruct Hi. }
  destruct keep as [|ks keep]; [by destruct Hi|]. apply indices_cons in Hi as (Hl & Hk & Hi).
  rewrite pairs_from_cons. unfold flat_rows. cbn [zip_with mjoin list_join length replicate]. fold (flat_rows original keep).
  rewrite (scatter_row _ row _ (replicate n zero)).
  - unfold kept_rows. cbn [zip_with]. fold (kept_rows original keep). rewrite insert_app_r_alt, Nat.sub_diag by done. cbn.
    specialize (IH keep Hi (pre ++ [kept_row row ks])). rewrite length_app, Nat.add_1_r, <- !(assoc_L (++)) in IH. cbn [app] in IH.
    rewrite <- over_zeros in IH |- *; [rewrite Hl in IH |- *; exact IH|unfold zlen; by rewrite Hl..].
  - by apply list_lookup_middle.
  - by rewrite length_replicate.
  - unfold zlen. rewrite Hl. by apply valid_in.
Qed.

(** One group of all kept vectors is read as they come. *)
Lemma one_group_layout keep (flat : list R) : zlen flat = total_valid keep → Forall (λ ks, zlen ks = width keep) keep →
  flatten_hidden_with_keep_layout is_zero [flat] keep = Ok flat.
Proof.
  intros Hf Hw. unfold flatten_hidden_with_keep_layout. change (zlen [flat]) with 1.
  destruct ((1 =? zlen keep) && _) eqn:E.
  - apply andb_true_iff in E as [E1%Z.eqb_eq E2%Z.eqb_eq]. destruct keep as [|ks [|? ?]]; [done| |unfold zlen in E1; cbn in E1; lia].
    cbn in E2. cbn. rewrite app_nil_r. f_equal. unfold total_valid in Hf. cbn in Hf. unfold count_valid in Hf.
    assert (Hall : Forall (λ v, 0 ≤ v) ks).
    { apply Forall_forall. intros v Hv. destruct (decide (0 ≤ v)) as [|Hn]; [done|].
      pose proof (length_filter_lt (λ v, 0 ≤ v) ks v Hv Hn). unfold zlen in *. lia. }
    clear -Hall E2. unfold masked. assert (length ks = length flat) as El by (unfold zlen in E2; cbn in E2; lia). clear E2.
    revert flat El. induction Hall as [|v ks Hv _ IH]; intros [|x flat] El; try done. cbn [zip_with].
    rewrite filter_cons_True by done. cbn. f_equal. apply IH. by injection El.
  - cbn [Z.ltb]. rewrite Z.mod_1_r. cbn [andb Z.eqb Z.compare]. rewrite Z.div_1_r. cbn [length seq mapM].
    assert (py_slice keep (Z.of_nat 0 * zlen keep) ((Z.of_nat 0 + 1) * zlen keep) = keep) as ->.
    { pose proof (zlen_nonneg keep). rewrite py_slice_nonneg by lia. change (Z.to_nat (Z.of_nat 0 * zlen keep)) with 0%nat.
      rewrite drop_0. apply take_ge. unfold zlen. lia. }
    destruct (Z.eqb_spec (total_valid keep) 0) as [H0|H0].
    + cbn. destruct flat; [done|]. unfold zlen in Hf. cbn in Hf. lia.
    + cbn. rewrite Hf, Z.ltb_irrefl. cbn. rewrite app_nil_r. rewrite <- Hf. unfold zlen. by rewrite Nat2Z.id, firstn_all.
Qed.

Lemma restore_flattened n original keep : indices_of n original keep → Forall (λ ks, zlen ks = width keep) keep →
  restore_hidden_states zero is_zero (Batched [flat_rows original keep]) keep (Z.of_nat n) = Ok (kept_rows original keep).
Proof.
  intros Hi Hw. pose proof (flat_rows_len n original keep Hi) as Hf. unfold restore_hidden_states.
  rewrite one_group_layout by done. cbn [mbind res_bind]. rewrite Hf, Z.eqb_refl, Nat2Z.id. cbn [negb]. by apply scatter_ok.
Qed.

(** ** Micro-batches *)

(** The micro-batches of a step: hidden states and kept indices. *)
Implicit Types (parts : list (list (list R) * list (list Z))).

Definition part_ok (n : nat) (p : list (list R) * list (list Z)) : Prop :=
  indices_of n p.1 p.2 ∧ Forall (λ ks, zlen ks = width p.2) p.2.

Lemma valid_pad (w : Z) ks : valid_ids (pad_minus_one w ks) = valid_ids ks.
Proof.
  unfold valid_ids, pad_minus_one. rewrite filter_app, (filter_empty _ (replicate _ _)), app_nil_r; [done|].
  apply Forall_forall. intros x [-> _]%elem_of_replicate. lia.
Qed.

Lemma mjoin_cons {A} (l : list A) ls : mjoin (l :: ls) = l ++ mjoin ls.
Proof. done. Qed.

Lemma flat_rows_parts (w : Z) parts : Forall (λ p, length p.1 = length p.2) parts →
  flat_rows (mjoin parts.*1) (pad_minus_one w <$> mjoin parts.*2) = mjoin ((λ p, flat_rows p.1 p.2) <$> parts).
Proof.
  induction 1 as [|[o k] parts Hl _ IH]; [done|]. cbn [fst snd] in Hl. rewrite !fmap_cons, !mjoin_cons. cbn [fst snd]. rewrite <- IH. unfold flat_rows.
  rewrite fmap_app, zip_with_app, join_app by (by rewrite length_fmap). f_equal. clear -Hl.
  revert k Hl. induction o as [|row o IHo]; intros [|ks k] Hl; try done. cbn. rewrite valid_pad. f_equal. apply IHo. by injection Hl.
Qed.

Lemma kept_row_pad (w : Z) row ks : kept_row row (pad_minus_one w ks) = kept_row row ks.
Proof.
  apply imap_ext. intros j x _. unfold pad_minus_one. assert (Z.of_nat j ∈ ks ++ replicate (Z.to_nat (w - zlen ks)) (-1) ↔ Z.of_nat j ∈ ks) as Hiff.
  { rewrite elem_of_app, elem_of_replicate. split; [intros [?|[? _]]; [done|lia]|by left]. }
  by rewrite (bool_decide_ext _ _ Hiff).
Qed.

Lemma kept_rows_parts (w : Z) parts : Forall (λ p, length p.1 = length p.2) parts →
  kept_rows (mjoin parts.*1) (pad_minus_one w <$> mjoin parts.*2) = mjoin ((λ p, kept_rows p.1 p.2) <$> parts).
Proof.
  induction 1 as [|[o k] parts Hl _ IH]; [done|]. cbn [fst snd] in Hl. rewrite !fmap_cons, !mjoin_cons. cbn [fst snd]. rewrite <- IH. unfold kept_rows.
  rewrite fmap_app, zip_with_app by (by rewrite length_fmap). f_equal. clear -Hl.
  revert k Hl. induction o as [|row o IHo]; intros [|ks k] Hl; try done. cbn. rewrite kept_row_pad. f_equal. apply IHo. by injection Hl.
Qed.

Lemma pad_to_length (w : Z) ks : zlen ks ≤ w → zlen (pad_minus_one w ks) = w.
Proof. intros Hw. unfold pad_minus_one, zlen in *. rewrite length_app, length_replicate. lia. Qed.

(** The merged indices are those of the whole batch, of one width. *)
Lemma merged_indices n parts : parts ≠ [] → Forall (part_ok n) parts → ∃ w keep,
  merge_keep_tables (Some <$> parts.*2) = Some keep ∧ keep = pad_minus_one w <$> mjoin parts.*2 ∧
  indices_of n (mjoin parts.*1) keep ∧ Forall (λ ks, zlen ks = width keep) keep.
Proof.
  intros Hne Hp. set (w := foldl Z.max 0 (width <$> parts.*2)).
  assert (Hw : ∀ ks, ks ∈ mjoin parts.*2 → zlen ks ≤ w).
  { intros ks (k & Hks & Hk)%list_elem_of_join. apply list_elem_of_fmap in Hk as (p & -> & Hk).
    rewrite Forall_forall in Hp. destruct (Hp p Hk) as [_ Hwd]. rewrite Forall_forall in Hwd. rewrite (Hwd ks Hks).
    apply foldl_max_ge. apply list_elem_of_fmap. exists p.2. split; [done|]. apply list_elem_of_fmap. by exists p. }
  exists w, (pad_minus_one w <$> mjoin parts.*2). split; [|split; [done|split]].
  - unfold merge_keep_tables. assert (omap id (Some <$> parts.*2) = parts.*2) as ->.
    { clear. induction parts as [|p parts IH]; [done|]. cbn. by rewrite IH. }
    destruct parts as [|p [|q parts]]; [done| |done]. cbn. f_equal. rewrite app_nil_r.
    apply Forall_singleton in Hp as [_ Hwd]. rewrite <- (list_fmap_id p.2) at 1. apply list_fmap_ext.
    intros i ks Hks%list_elem_of_lookup_2. rewrite Forall_forall in Hwd. specialize (Hwd ks Hks). unfold pad_minus_one, w. cbn.
    pose proof (zlen_nonneg ks). replace (Z.to_nat _) with 0%nat by lia. by rewrite app_nil_r.
  - clear Hne Hw. generalize w. clear w. intros w.
    induction Hp as [|p parts [[H1 H2 H3] _] _ [I1 I2 I3]]; [by split|]. rewrite !fmap_cons, !mjoin_cons. split.
    + rewrite fmap_app, !length_app, I1, !length_fmap. lia.
    + by apply Forall_app.
    + rewrite fmap_app. apply Forall_app. split; [|done]. apply Forall_fmap. eapply Forall_impl; [exact H3|].
      intros ks Hks. cbn. apply Forall_app. split; [done|]. apply Forall_forall. intros x [-> _]%elem_of_replicate. lia.
  - apply Forall_fmap, Forall_forall. intros ks Hks. cbn. rewrite pad_to_length by (by apply Hw).
    destruct (mjoin parts.*2) as [|ks' rest] eqn:E; [by apply not_elem_of_nil in Hks|]. cbn.
    rewrite pad_to_length; [done|]. apply Hw. by left.
Qed.

Lemma flattened_chunks_ok (flats : list (list R)) : flattened_chunks ((λ f, Batched [f]) <$> flats) = Some flats.
Proof. induction flats as [|f flats IH]; [done|]. cbn in *. by rewrite IH. Qed.

Lemma merge_chunks merge_outputs (flats : list (list R)) : flats ≠ [] →
  merge_inference_microbatch_hidden_states merge_outputs ((λ flat, Some (Batched [flat])) <$> flats) true true =
    Ok (Some (Batched [mjoin flats])).
Proof.
  intros Hne. unfold merge_inference_microbatch_hidden_states.
  assert (omap id ((λ flat : list R, Some (Batched [flat])) <$> flats) = (λ f, Batched [f]) <$> flats) as ->.
  { clear. induction flats as [|f flats IH]; [done|]. cbn in *. by rewrite IH. }
  pose proof (flattened_chunks_ok flats) as Hc. destruct flats as [|f flats]; [done|]. rewrite fmap_cons in Hc |- *. cbn [negb orb].
  by rewrite Hc.
Qed.
End proofs.

(** C31: The vectors a last block sends of a step, whole or in micro-batches of different sizes
    and numbers of kept nodes, are put back by the server behind it and by the client: every
    kept position has its vector, every other one zeros. *)
Theorem kept_rows_survive {R} (zero : R) is_zero merge_outputs n (parts : list (list (list R) * list (list Z))) :
  parts ≠ [] → Forall (part_ok n) parts → ∃ flats keep,
  Forall2 (λ p flat, flatten_hidden_states p.1 p.2 = Ok flat) parts flats ∧
  merge_inference_microbatch_hidden_states merge_outputs ((λ flat, Some (Batched [flat])) <$> flats) true true =
    Ok (Some (Batched [mjoin flats])) ∧
  merge_keep_tables (Some <$> parts.*2) = Some keep ∧
  let restored := mjoin ((λ p, kept_rows zero p.1 p.2) <$> parts) in
  restore_hidden_states zero is_zero (Batched [mjoin flats]) keep (Z.of_nat n) = Ok restored ∧
  session_restore_hidden_states zero is_zero (Batched [mjoin flats]) keep (Z.of_nat n) = Ok restored.
Proof.
  intros Hne Hp. destruct (merged_indices n parts Hne Hp) as (w & keep & Hk & -> & Hi & Hw).
  assert (Hl : Forall (λ p : list (list R) * list (list Z), length p.1 = length p.2) parts).
  { eapply Forall_impl; [exact Hp|]. by intros p [[? _ _] _]. }
  exists ((λ p, flat_rows p.1 p.2) <$> parts), (pad_minus_one w <$> mjoin parts.*2). split; [|split; [|split; [done|]]].
  - apply Forall2_fmap_r, Forall_Forall2_diag. eapply Forall_impl; [exact Hp|]. intros p [Hi' _]. by apply (flatten_ok n).
  - apply merge_chunks. by destruct parts.
  - cbv zeta. unfold session_restore_hidden_states. rewrite <- (flat_rows_parts w), <- (kept_rows_parts zero w) by done.
    split; by apply restore_flattened.
Qed.

Lemma kept_rows_survive_witness :
  let parts := [([[10; 11; 12]; [20; 21; 22]], [[0; 2]; [0; -1]]); ([[30; 31; 32]], [[0; 1; 2]])] in
  restore_hidden_states 0 (λ x, x =? 0) (Batched [[10; 12; 20; 30; 31; 32]]) [[0; 2; -1]; [0; -1; -1]; [0; 1; 2]] 3 =
    Ok [[10; 0; 12]; [20; 0; 0]; [30; 31; 32]].
Proof.
  intros parts.
  destruct (kept_rows_survive 0 (λ x, x =? 0) (λ _, Raise ValueError) 3 parts) as (flats & keep & HF & _ & Hk & Hr & _); [done| |].
  - unfold parts. repeat constructor; cbn; lia.
  - cbn in Hk. injection Hk as <-. assert (mjoin flats = [10; 12; 20; 30; 31; 32]) as Ef; [|rewrite Ef in Hr; exact Hr].
    inversion HF as [|? ? ? ? E1 HF1]; subst. inversion HF1 as [|? ? ? ? E2 HF2]; subst. inversion HF2; subst.
    vm_compute in E1, E2. injection E1 as <-. by injection E2 as <-.
Defined.

(** Groups are taken to be of equal size: of micro-batches of three sequences and of one, the
    vectors go to other sequences. *)
Lemma uneven_groups_mixed_up :
  restore_hidden_states 0 (λ x, x =? 0) (Batched [[10; 20; 30]; [40; 0; 0]]) [[0]; [0]; [0]; [0]] 1 =
    Ok [[10]; [20]; [40]; [0]].
Proof. vm_compute. reflexivity. Qed.
