(* ===== verification/SpecVerify.v ===== *)
(** * The client of speculative generation (models/llama/speculative_model.py)

    One round of [generate] with [do_sample=False]: the trees of the drafter are run by the
    swarm in one forward call, each root-to-leaf path is compared with the greedy choice of the
    target model, the longest agreeing prefix is accepted together with one more token, and the
    positions to keep in the remote caches are named. The loop around it stops at the token
    budget or at the stopping criteria.

    The forward call of the session is an argument here; SpecGenerate.v gives it. Rows of logits
    are abstract, and [torch.multinomial] is a parameter. The streamer, the timing, the window of
    the session's position and sampled verification (SpecDecode.v has its core) are left out. *)

From stdpp Require Import numbers base list.
From Stdlib Require Import ZArith Lia ZifyBool.
From S2P Require Import Prelude SpecTree SpecDecode SpecCache.

(** What the client does with the logits of one position. *)
Class LogitsOps (L : Type) := {
  t_argmax : L → Z;      (** [torch.argmax(...).item()] *)
  t_all_zero : L → bool; (** [torch.all(l == 0)] *)
  t_draw : L → Z;        (** a draw of [torch.multinomial(softmax(l), 1)] *)
}.

Section client.
Context {L : Type} `{LogitsOps L}.
Implicit Types (logits_row : list L).

(** A logits processor sees the token ids so far. *)
Definition process_logits (logits_processor : list (list Z → L → L)) (input_ids : list Z) (l : L) : L :=
  foldl (λ l processor, processor input_ids l) l logits_processor.

(** ** Verification of one sequence *)

(** The loop over a path: accepted tokens, their positions in the cache, and the depth of the
    first disagreement. *)
Fixpoint walk_path (h : heap) (seq_len tree_root_position : Z) (predicted_row : list Z) (depth_idx : Z)
    (node_path : list nat) : res (list Z * list Z * option Z) :=
  match node_path with
  | [] => Ok ([], [], None)
  | n :: node_path =>
      let node := h !!! n in
      p ← of_option Exception (parent node);
      let pos := position_in_sequence (h !!! p) + 1 in
      if (seq_len <=? pos) || (zlen predicted_row <=? pos) then Ok ([], [], None)
      else
        predicted_token ← of_option IndexError (py_index predicted_row pos);
        if predicted_token =? token_id node then
          r ← walk_path h seq_len tree_root_position predicted_row (depth_idx + 1) node_path;
          Ok (token_id node :: r.1.1, (tree_root_position + position_in_sequence node + 1) :: r.1.2, r.2)
        else Ok ([], [], Some depth_idx)
  end.

Record best_path := mkBest {
  best_score : Z;
  best_verified : list Z;
  best_positions : list Z;
  best_path_depth_accepts : Z;
  best_path_rejected_at : option Z;
}.

(** One turn of the loop over the paths. *)
Definition better (b : best_path) (r : list Z * list Z * option Z) : best_path :=
  if best_score b <? zlen r.1.1 then mkBest (zlen r.1.1) r.1.1 r.1.2 (zlen r.1.1) r.2 else b.

Fixpoint best_of_paths (h : heap) (seq_len tree_root_position : Z) (predicted_row : list Z) (node_paths : list (list nat))
    (b : best_path) : res best_path :=
  match node_paths with
  | [] => Ok b
  | node_path :: node_paths =>
      r ← walk_path h seq_len tree_root_position predicted_row 0 node_path;
      best_of_paths h seq_len tree_root_position predicted_row node_paths (better b r)
  end.

(** What the acceptance histogram is told. *)
Definition histogram_checks (b : best_path) : list (Z * bool) :=
  ((λ d, (d, true)) <$> py_range 0 (best_path_depth_accepts b)) ++
  match best_path_rejected_at b with Some d => [(d, false)] | None => [] end.

(** [_ensure_non_empty_logits] *)
Definition ensure_non_empty_logits logits_row (token_logits : list L) : list L :=
  match token_logits with
  | [] => let fallback_start := Z.max 0 (zlen logits_row - 1) in py_slice logits_row fallback_start (fallback_start + 1)
  | _ => token_logits
  end.

Record extraction := mkExtraction {
  x_verified : list Z;
  x_positions : list Z;
  x_llm_token : Z;
  x_checks : list (Z * bool);
}.

(** The body of the loop of [_extract_best_verified_paths_fixed] over the batch. *)
Definition extract_row (h : heap) (node_paths : list (list nat)) logits_row (input_ids : list Z)
    (logits_processor : list (list Z → L → L)) (tree_len actual_len : Z) (is_first_iteration : bool) : res extraction :=
  let seq_len := zlen logits_row in
  let fallback_pos := Z.max 0 (seq_len - tree_len) in
  let real_fallback_pos := if is_first_iteration then actual_len else fallback_pos in
  let tree_root_position := actual_len - 1 in
  let predicted_row := t_argmax <$> logits_row in
  b ← best_of_paths h seq_len tree_root_position predicted_row node_paths (mkBest (-1) [] [] 0 None);
  let finish verified positions llm_token :=
    mkExtraction verified (tree_root_position :: positions) llm_token (histogram_checks b) in
  match last (best_verified b), last (best_positions b) with
  | Some last_token, Some p =>
      final_logits ← of_option IndexError (py_index logits_row (p - tree_root_position));
      if t_all_zero final_logits then
        Ok (finish (removelast (best_verified b)) (removelast (best_positions b)) last_token)
      else
        Ok (finish (best_verified b) (best_positions b) (t_argmax (process_logits logits_processor input_ids final_logits)))
  | _, _ =>
      let final_logits := ensure_non_empty_logits logits_row
        (py_slice logits_row (real_fallback_pos - 1) real_fallback_pos) in
      l ← of_option IndexError (head final_logits);
      Ok (finish (best_verified b) (best_positions b) (t_argmax (process_logits logits_processor input_ids l)))
  end.

(** ** The batch *)

Record verification := mkVerification {
  verified_tokens : option (list (list Z));  (** padded with -1 *)
  kv_cache_positions : list (list Z);        (** padded with -1 *)
  llm_generated_tokens : list Z;
  valid_lengths : list Z;
  checks : list (Z * bool);
}.

Definition pad_row (n : Z) (row : list Z) : list Z := row ++ replicate (Z.to_nat (n - zlen row)) (-1).
Definition max_length (rows : list (list Z)) : Z := foldl Z.max 0 (zlen <$> rows).

Definition extract_best_verified_paths_fixed (logits : list (list L)) (heaps : list heap) (batch_node_paths : list (list (list nat)))
    (input_ids : list (list Z)) (logits_processor : list (list Z → L → L)) (tree_len : Z) (seq_lengths : list Z)
    (is_first_iteration : bool) : res verification :=
  rows ← mapM (λ batch_idx,
      actual_len ← of_option IndexError (seq_lengths !! batch_idx);
      logits_row ← of_option IndexError (logits !! batch_idx);
      node_paths ← of_option IndexError (batch_node_paths !! batch_idx);
      h ← of_option IndexError (heaps !! batch_idx);
      extract_row h node_paths logits_row (default [] (input_ids !! batch_idx)) logits_processor tree_len actual_len is_first_iteration)
    (seq 0 (length logits));
  match rows with
  | [] => Raise RuntimeError (* torch.stack of nothing *)
  | _ =>
      let max_verified_len := max_length (x_verified <$> rows) in
      Ok (mkVerification
        (if 0 <? max_verified_len then Some (pad_row max_verified_len ∘ x_verified <$> rows) else None)
        (pad_row (max_length (x_positions <$> rows)) ∘ x_positions <$> rows)
        (x_llm_token <$> rows) ((λ x, zlen (x_verified x)) <$> rows) (mjoin (x_checks <$> rows)))
  end.

(** ** The new token ids *)

(** The source of an assignment to [n] cells of a row. *)
Definition fit_cells (n : Z) (src : list Z) : res (list Z) :=
  if zlen src =? n then Ok src
  else match src with [x] => Ok (replicate (Z.to_nat n) x) | _ => Raise TorchError end.

(** The body of the loop of [_update_input_ids_with_padding]. *)
Definition update_row (pad_token_id new_max_len : Z) (row : list Z) (verified : option (list Z)) (llm_token v_len old_len : Z)
    : res (list Z) :=
  kept ← fit_cells old_len (take (Z.to_nat old_len) row);
  added ← match verified with
          | Some v => if 0 <? v_len then v' ← fit_cells v_len (take (Z.to_nat v_len) v); Ok (v' ++ [llm_token]) else Ok [llm_token]
          | None => Ok [llm_token]
          end;
  Ok (kept ++ added ++ replicate (Z.to_nat (new_max_len - zlen kept - zlen added)) pad_token_id).

Definition update_input_ids_with_padding (current_input_ids : list (list Z)) (verified_tokens : option (list (list Z)))
    (llm_generated_token valid_lengths seq_lengths : list Z) (pad_token_id : Z) : res (list (list Z) * list Z) :=
  let new_seq_lengths := zip_with (λ old_len v_len, old_len + (v_len + 1)) seq_lengths valid_lengths in
  match new_seq_lengths with
  | [] => Raise RuntimeError (* max of nothing *)
  | l :: ls =>
      let new_max_len := foldl Z.max l ls in
      rows ← mapM (λ i,
          row ← of_option IndexError (current_input_ids !! i);
          llm_token ← of_option IndexError (llm_generated_token !! i);
          v_len ← of_option IndexError (valid_lengths !! i);
          old_len ← of_option IndexError (seq_lengths !! i);
          verified ← match verified_tokens with
                     | Some vs => v ← of_option IndexError (vs !! i); Ok (Some v)
                     | None => Ok None
                     end;
          update_row pad_token_id new_max_len row verified llm_token v_len old_len)
        (seq 0 (length current_input_ids));
      Ok (rows, new_seq_lengths)
  end.
End client.

(** ** A round and the loop *)

Section rounds.
Context {L S : Type} `{LogitsOps L}.

(** The forward call of the session: positions to keep, token ids, tree masks. It refuses
    [use_cache=False]. *)
Variable forward_call : option (list (list Z)) → list (list Z) → option (list mask) → M S (list (list L)).
Definition model_call (use_cache : bool) kv_cache_position_ids input_ids attention_mask : M S (list (list L)) :=
  if use_cache then forward_call kv_cache_position_ids input_ids attention_mask else mthrow AssertionError.

(** [_fallback_generation_with_forward]; any exception gives the end-of-sequence token. *)
Definition fallback_generation_with_forward (input_ids : list (list Z)) (logits_processor : list (list Z → L → L))
    (kv_cache_position_ids : option (list (list Z))) (seq_lengths : list Z) (eos_token_id : Z) : M S (list Z) := λ s,
  let body : M S (list Z) :=
    last_tokens ← lift (mapM (λ x : list Z * Z, t ← of_option IndexError (py_index x.1 (x.2 - 1)); Ok [t]) (zip input_ids seq_lengths));
    logits ← model_call true kv_cache_position_ids last_tokens None;
    lift (mapM (λ x : list L * list Z,
      l ← of_option IndexError (last x.1); Ok (t_draw (process_logits logits_processor x.2 l))) (zip logits input_ids)) in
  match body s with
  | (s', Ok tokens) => (s', Ok tokens)
  | (s', Raise _) => (s', Ok (replicate (length input_ids) eos_token_id))
  end.

Record gen_config := mkConfig {
  drafter : list (list Z) → list Z → list SpeculativeTree;  (** [build_trees_parallel] with its beam *)
  logits_processors : list (list Z → L → L);
  stopping_criteria : list (list Z) → list bool;
  has_eos_stopping_criteria : bool;
  pad_token_id : Z;
  eos_token_id : Z;
  use_kv_cache : bool;
  max_new_tokens : Z;
}.

Record gen_state := mkGen {
  current_input_ids : list (list Z);
  seq_lengths : list Z;
  kept_positions : option (list (list Z));   (** [past_key_values.kv_cache_position_ids] *)
  llm_generated_token : option (list Z);
  is_first_iteration : bool;
  unfinished_sequences : list bool;
  acceptance_histogram : option AcceptanceHistogram;
}.

(** A round without tree tokens. *)
Definition fallback_round (cfg : gen_config) (st : gen_state) : M S verification :=
  let input_ids := current_input_ids st in
  fallback_token ← fallback_generation_with_forward input_ids (logits_processors cfg) (kept_positions st) (seq_lengths st) (eos_token_id cfg);
  mret (mkVerification None ((λ _, [0]) <$> input_ids) fallback_token ((λ _, 0) <$> input_ids) []).

(** [_verify_trees_with_forward] *)
Definition verify_trees_with_forward (cfg : gen_config) (st : gen_state) (trees : list SpeculativeTree) : M S verification :=
  let input_ids := current_input_ids st in
  let args := mkBatchArgs (match input_ids with row :: _ => zlen row | [] => 0 end) 0 (Some (seq_lengths st))
    (is_first_iteration st) (kept_positions st) in
  batch ← lift (prepare_incremental_tree_batch trees args);
  let '(trees', (tree_tokens, attention_mask, batch_node_paths)) := batch in
  let tree_len := match tree_tokens with row :: _ => zlen row | [] => 0 end in
  match attention_mask with
  | None => fallback_round cfg st
  | Some masks =>
      if tree_len =? 0 then fallback_round cfg st
      else
        logits ←
          (if negb (use_kv_cache cfg) then model_call false (kept_positions st) tree_tokens (Some masks)
           else if is_first_iteration st then
             max_seq_len ← lift (match seq_lengths st with [] => Raise RuntimeError | l :: ls => Ok (foldl Z.max l ls) end);
             model_call true (kept_positions st)
               (zip_with (λ row tree, py_slice row 0 max_seq_len ++ tree) input_ids tree_tokens) (Some masks)
           else
             let full_sequence := match llm_generated_token st with
               | None => tree_tokens
               | Some tokens => zip_with (λ t tree, t :: tree) tokens tree_tokens
               end in
             model_call true (kept_positions st) full_sequence (Some masks));
        lift (extract_best_verified_paths_fixed logits (nodes <$> trees') batch_node_paths input_ids (logits_processors cfg)
          tree_len (seq_lengths st) (is_first_iteration st))
  end.

(** Without the cache a batch with tree tokens always fails. *)
Lemma no_cache_raises cfg st trees trees' tree_tokens masks paths s :
  let args := mkBatchArgs (match current_input_ids st with row :: _ => zlen row | [] => 0 end) 0 (Some (seq_lengths st))
    (is_first_iteration st) (kept_positions st) in
  prepare_incremental_tree_batch trees args = Ok (trees', (tree_tokens, Some masks, paths)) →
  match tree_tokens with row :: _ => zlen row | [] => 0 end ≠ 0 → use_kv_cache cfg = false →
  verify_trees_with_forward cfg st trees s = (s, Raise AssertionError).
Proof.
  intros args Hp Hl Hc. unfold verify_trees_with_forward. fold args. rewrite Hp, lift_ok_bind, (proj2 (Z.eqb_neq _ 0) Hl), Hc. done.
Qed.

(** [t * unfinished + pad * (1 - unfinished)] *)
Definition mask_finished (pad : Z) (unfinished : bool) (t : Z) : Z := if unfinished then t else pad.

(** Done to every row when a stopping criterion has an end-of-sequence token. *)
Definition if_eos {A} (cfg : gen_config) (st : gen_state) (f : bool → A → A) (rows : list A) : list A :=
  if has_eos_stopping_criteria cfg then zip_with f (unfinished_sequences st) rows else rows.

(** The body of the loop of [_sample_with_session]. *)
Definition spec_iteration (cfg : gen_config) (st : gen_state) : M S gen_state :=
  let spec_trees := drafter cfg (current_input_ids st) (seq_lengths st) in
  v ← verify_trees_with_forward cfg st spec_trees;
  let verified := if_eos cfg st (λ u (row : list Z), mask_finished (pad_token_id cfg) u <$> row) <$> verified_tokens v in
  let llm_token := if_eos cfg st (mask_finished (pad_token_id cfg)) (llm_generated_tokens v) in
  updated ← lift (update_input_ids_with_padding (current_input_ids st) verified llm_token (valid_lengths v)
    (seq_lengths st) (pad_token_id cfg));
  mret (mkGen updated.1 updated.2 (Some (kv_cache_positions v)) (Some llm_token) false
    (zip_with (λ u stop, u && negb stop) (unfinished_sequences st) (stopping_criteria cfg updated.1))
    ((λ h, (record_all (checks v) h).1) <$> acceptance_histogram st)).

(** [while not finished and seq_lengths.min() - initial_len < max_new_tokens] *)
Definition keep_going (cfg : gen_config) (initial_len : Z) (finished : bool) (st : gen_state) : res bool :=
  if finished then Ok false
  else match seq_lengths st with
  | [] => Raise RuntimeError
  | l :: ls => Ok (foldl Z.min l ls - initial_len <? max_new_tokens cfg)
  end.

Fixpoint spec_loop (fuel : nat) (cfg : gen_config) (initial_len : Z) (finished : bool) (st : gen_state) : M S gen_state :=
  go ← lift (keep_going cfg initial_len finished st);
  if negb go then mret st
  else match fuel with
  | O => mthrow OutOfFuel
  | Datatypes.S fuel =>
      st' ← spec_iteration cfg st;
      spec_loop fuel cfg initial_len (forallb negb (unfinished_sequences st')) st'
  end.

(** The tokens [_sample_with_session] counts as the length of a prompt. *)
Definition ignore_token_ids : list Z := [0; 2].
Definition prompt_length (row : list Z) : Z := zlen (filter (λ t, t ∉ ignore_token_ids) row).

Definition initial_state (input_ids : list (list Z)) (histogram : option AcceptanceHistogram) : gen_state :=
  mkGen input_ids (prompt_length <$> input_ids) None None true ((λ _, true) <$> input_ids) histogram.

(** [_sample_with_session] *)
Definition sample_with_session (fuel : nat) (cfg : gen_config) (input_ids : list (list Z)) (histogram : option AcceptanceHistogram)
    : M S (list (list Z)) :=
  let initial_len := match input_ids with row :: _ => zlen row | [] => 0 end in
  st ← spec_loop fuel cfg initial_len false (initial_state input_ids histogram);
  mret (current_input_ids st).
End rounds.
