(* ===== verification/SpecGenerate.v ===== *)
(** * Speculative generation against the server caches (models/llama/speculative_model.py, server/backend.py)

    SpecVerify.v's client with the forward call of SpecCache.v's server: what a round leaves in
    the caches, what it accepts, and that this is what greedy decoding of the target model emits.

    The blocks of the target model are a parameter: the entry and the logits of a position are a
    function of the entries it attends to, of its token and of its rotary position, and the heads,
    layers and servers they pass through are one step. Pruning on the server is off. *)

From stdpp Require Import numbers base list sorting relations.
From Stdlib Require Import ZArith Lia ZifyBool.
From S2P Require Import Prelude SpecDecode SpecTree SpecCache SpecVerify.

(** ** The target model *)

(** The entries a query row attends to, among those from column [c] on. *)
Fixpoint visible {E} (m : mask) (q c : Z) (entries : list E) : list E :=
  match entries with
  | [] => []
  | e :: entries => (if m_at m q c then [e] else []) ++ visible m q (c + 1) entries
  end.

(** [run_blocks past mask inputs]: entries and logits of new positions, given as tokens with their
    rotary positions, after the cached ones; [cell] is one position of it. *)
Class TargetModel (E L : Type) := {
  run_blocks : list E → mask → list (Z * Z) → list (E * L);
  cell : list E → Z → Z → E * L;
}.

(** Under a mask of the right size in which no position attends to a later one. *)
Definition causal (n_past n_new : Z) (m : mask) : Prop :=
  m_rows m = n_new ∧ m_cols m = n_past + n_new ∧
  ∀ q c, 0 ≤ q < n_new → 0 ≤ c → m_at m q c = true → c ≤ n_past + q.

(** Documented: masked attention. *)
Class TargetModelLaws (E L : Type) `{TargetModel E L} := run_blocks_cell past m inputs :
  causal (zlen past) (zlen inputs) m →
  length (run_blocks past m inputs) = length inputs ∧
  ∀ q t r, inputs !! q = Some (t, r) →
    run_blocks past m inputs !! q =
      Some (cell (visible m (Z.of_nat q) 0 (past ++ take q (run_blocks past m inputs).*1)) t r).

(** ** A step of the server *)

Section server.
Context {E L : Type} `{TargetModel E L} (zero : E).
Implicit Types (slab : list (list E)) (ids : list (list Z)).

(** [full_mask[:, :rows, :cols]] *)
Definition crop (rows cols : Z) (m : mask) : mask := mkMask (Z.min rows (m_rows m)) (Z.min cols (m_cols m)) (m_at m).

(** The cached entries of the batch and their number. *)
Definition select_past (prefix_length : Z) (kv_cache_position_ids : option (list (list Z))) (batch_size : Z) slab
    : res (option (list (list E)) * Z) :=
  match kv_cache_position_ids with
  | Some ids =>
      if (length (mjoin ids) =? 0)%nat then
        kv ← select_cache prefix_length 0 batch_size slab; Ok (kv, match kv with Some rows => slab_len rows | None => 0 end)
      else select_cache_without_reorder ids 0 batch_size slab
  | None => kv ← select_cache prefix_length 0 batch_size slab; Ok (kv, match kv with Some rows => slab_len rows | None => 0 end)
  end.

(** [inference_step] of a speculative request, over all blocks. *)
Definition spec_inference_step (prefill_length : list Z) (prefix_length : Z) (kv_cache_position_ids : option (list (list Z)))
    (input_ids : list (list Z)) (tree_attention_mask : list mask) : M (list (list E)) (list (list L)) :=
  let seq_len := match input_ids with row :: _ => zlen row | [] => 0 end in
  slab ← get;
  past ← lift (select_past prefix_length kv_cache_position_ids (zlen input_ids) slab);
  let k_pkv := default (replicate (length input_ids) []) past.1 in
  rotary_position_ids ← lift (spec_rotary_position_ids prefill_length kv_cache_position_ids seq_len);
  outs ← lift (mapM (λ b,
      cached ← of_option TorchError (k_pkv !! b);
      m ← of_option TorchError (tree_attention_mask !! b);
      tokens ← of_option TorchError (input_ids !! b);
      rotary ← of_option TorchError (rotary_position_ids !! b);
      Ok (run_blocks cached (crop seq_len (past.2 + seq_len) m) (zip tokens rotary)))
    (seq 0 (length input_ids)));
  do_reorder_task zero ((λ o : list (E * L), o.*1) <$> outs) kv_cache_position_ids 0 (zlen input_ids);;
  mret ((λ o : list (E * L), o.*2) <$> outs).

(** The session's forward call. A call without a mask is a parameter. Only the first step of a
    session comes without positions to keep; the cache is empty then. *)
Definition session_forward (unmasked_call : option (list (list Z)) → list (list Z) → M (list (list E)) (list (list L)))
    (prefill_length : list Z) (kv_cache_position_ids : option (list (list Z))) (input_ids : list (list Z))
    (attention_mask : option (list mask)) : M (list (list E)) (list (list L)) :=
  match attention_mask with
  | Some masks => spec_inference_step prefill_length 0 kv_cache_position_ids input_ids masks
  | None => unmasked_call kv_cache_position_ids input_ids
  end.

(** [generate] from the opening of the session; the slabs come from the servers. *)
Definition generate `{LogitsOps L} unmasked_call (fuel : nat) (cfg : gen_config) (input_ids : list (list Z))
    (histogram : option AcceptanceHistogram) : M (list (list E)) (list (list Z)) :=
  sample_with_session (session_forward unmasked_call (prompt_length <$> input_ids)) fuel cfg input_ids histogram.
End server.

(** ** Greedy decoding *)

Section greedy.
Context {E L : Type} `{TargetModel E L} `{LogitsOps L}.
Implicit Types (s ctx : list Z).

(** The entries of a token sequence, each after those before it. *)
Definition entries_of s : list E := foldl (λ es t, es ++ [(cell es t (zlen es)).1]) [] s.

(** The last position of a sequence. *)
Definition cell_of s : E * L := cell (entries_of (removelast s)) (default 0 (last s)) (zlen s - 1).

(** The next [n] tokens of the greedy continuation. *)
Fixpoint greedy (n : nat) s : list Z :=
  match n with
  | O => []
  | S n => let t := t_argmax (cell_of s).2 in t :: greedy n (s ++ [t])
  end.

Lemma entries_of_snoc s t : entries_of (s ++ [t]) = entries_of s ++ [(cell_of (s ++ [t])).1].
Proof.
  unfold cell_of. rewrite removelast_last, last_snoc. unfold entries_of at 1. rewrite foldl_app. cbn.
  fold (entries_of s). assert (Hl : zlen (entries_of s) = zlen s); [|rewrite Hl; rewrite zlen_app; unfold zlen; cbn; repeat f_equal; lia].
  clear t. induction s as [|t s IH] using rev_ind; [done|]. unfold entries_of. rewrite foldl_app. cbn.
  fold (entries_of s). rewrite !zlen_app, IH. done.
Qed.

Lemma entries_of_length s : zlen (entries_of s) = zlen s.
Proof. induction s as [|t s IH] using rev_ind; [done|]. rewrite entries_of_snoc, !zlen_app, IH. done. Qed.

Lemma cell_of_snoc s t : cell_of (s ++ [t]) = cell (entries_of s) t (zlen s).
Proof. unfold cell_of. rewrite removelast_last, last_snoc, zlen_app. cbn. f_equal. unfold zlen. cbn. lia. Qed.

Lemma greedy_length n s : length (greedy n s) = n.
Proof. revert s. induction n as [|n IH]; intros s; cbn; [done|]. by rewrite IH. Qed.

Lemma greedy_add a b s : greedy (a + b) s = greedy a s ++ greedy b (s ++ greedy a s).
Proof.
  revert s. induction a as [|a IH]; intros s; cbn; [by rewrite app_nil_r|]. rewrite IH. by rewrite <- app_assoc.
Qed.
End greedy.

(** ** What a query sees *)

Section visible.
Context {E : Type}.
Implicit Types (es : list E) (ps : list Z).

Lemma visible_picks_from m q c es ps : StronglySorted Z.lt ps → (∀ p, p ∈ ps → c ≤ p < c + zlen es) →
  (∀ p, c ≤ p < c + zlen es → m_at m q p = true ↔ p ∈ ps) →
  visible m q c es = omap (λ p, es !! Z.to_nat (p - c)) ps.
Proof.
  revert c ps. induction es as [|e es IH]; intros c ps Hs Hb Hm.
  { destruct ps as [|p ps]; [done|]. specialize (Hb p ltac:(by left)). unfold zlen in Hb. cbn in Hb. lia. }
  rewrite zlen_cons in Hb, Hm. pose proof (zlen_nonneg es).
  assert (Htail : ∀ ps', StronglySorted Z.lt ps' → (∀ p, p ∈ ps' → c + 1 ≤ p) → (∀ p, p ∈ ps' → p ∈ ps) →
    (∀ p, p ∈ ps → c < p → p ∈ ps') → visible m q (c + 1) es = omap (λ p, (e :: es) !! Z.to_nat (p - c)) ps').
  { intros ps' Hs' Hlo Hsub Hsup. rewrite (IH (c + 1) ps' Hs').
    - clear -Hlo. induction ps' as [|p ps' IHp]; [done|]. cbn. rewrite IHp by (intros p' Hp'; apply Hlo; by right).
      specialize (Hlo p ltac:(by left)). replace (Z.to_nat (p - c)) with (S (Z.to_nat (p - (c + 1)))) by lia. done.
    - intros p Hp. specialize (Hlo p Hp). specialize (Hb p (Hsub p Hp)). lia.
    - intros p Hp. rewrite Hm by lia. split; [intros Hp'; apply Hsup; [done|lia]|apply Hsub]. }
  cbn [visible]. destruct (m_at m q c) eqn:Hc.
  - apply Hm in Hc; [|lia]. destruct ps as [|p ps]; [by apply not_elem_of_nil in Hc|].
    apply StronglySorted_inv in Hs as [Hs Hp]. rewrite Forall_forall in Hp.
    assert (p = c) as ->.
    { apply elem_of_cons in Hc as [->|Hc]; [done|]. specialize (Hp c Hc). specialize (Hb p ltac:(by left)). lia. }
    rewrite (Htail ps Hs).
    + cbn. by replace (Z.to_nat (c - c)) with 0%nat by lia.
    + intros p' Hp'. specialize (Hp p' Hp'). lia.
    + intros p' Hp'. by right.
    + intros p' [->|Hp']%elem_of_cons Hlt; [lia|done].
  - cbn. apply Htail; [done| |done|done]. intros p Hp. specialize (Hb p Hp) as Hbp.
    assert (p ≠ c); [|lia]. intros ->. apply Hm in Hp; [congruence|lia].
Qed.

(** A query sees the entries at the columns its row marks, in order. *)
Lemma visible_picks m q es ps : StronglySorted Z.lt ps → (∀ p, p ∈ ps → 0 ≤ p < zlen es) →
  (∀ p, 0 ≤ p < zlen es → m_at m q p = true ↔ p ∈ ps) → visible m q 0 es = picks es ps.
Proof.
  intros Hs Hb Hm. rewrite (visible_picks_from m q 0 es ps); [|done|exact Hb|exact Hm].
  unfold picks. induction ps as [|p ps _]; [done|]. cbn. rewrite Z.sub_0_r.
  assert (∀ l : list Z, omap (λ p, es !! Z.to_nat (p - 0)) l = omap (λ p, es !! Z.to_nat p) l) as ->; [|done].
  intros l. induction l as [|x l IHl]; [done|]. cbn. by rewrite Z.sub_0_r, IHl.
Qed.

Lemma picks_app_l es es' ps : Forall (λ p, 0 ≤ p < zlen es) ps → picks (es ++ es') ps = picks es ps.
Proof.
  intros Hp. apply picks_ext. intros p Hin. rewrite Forall_forall in Hp. specialize (Hp p Hin).
  apply lookup_app_l. unfold zlen in Hp. lia.
Qed.

(** Positions after the first [n] entries. *)
Lemma picks_app_r {A} es es' (f : A → Z) (g : A → E) (xs : list A) :
  (∀ x, x ∈ xs → 0 ≤ f x ∧ es' !! Z.to_nat (f x) = Some (g x)) →
  picks (es ++ es') ((λ x, zlen es + f x) <$> xs) = g <$> xs.
Proof.
  unfold picks. induction xs as [|x xs IH]; intros Hx; [done|]. cbn. destruct (Hx x) as [H0 Hg]; [by left|].
  rewrite lookup_app_r by (unfold zlen; lia). replace (Z.to_nat (zlen es + f x) - length es)%nat with (Z.to_nat (f x)) by (unfold zlen; lia).
  rewrite Hg. f_equal. apply IH. intros y Hy. apply Hx. by right.
Qed.
End visible.

(** ** A linearised tree *)

(** Where the input of a node is among the inputs of its row; the root is the first. *)
Definition slot (h : heap) (n : nat) : Z := position_in_sequence (h !!! n) + 1.

Record laid_out (h : heap) (lin : list nat) (parents : list Z) : Prop := mkLaidOut {
  la_wf : heap_wf h;
  la_root : slot h 0 = 0;
  la_all n : (0 < n < length h)%nat → ∃ k, lin !! k = Some n;
  la_node k n : lin !! k = Some n → (0 < n < length h)%nat ∧ slot h n = Z.of_nat (S k);
  la_path i n j m : lin !! i = Some n → lin !! j = Some m → on_path parents (Z.of_nat i) (Z.of_nat j) ↔ anc h n m;
  la_up n p : parent (h !!! n) = Some p → (n < length h)%nat → slot h p < slot h n;
  la_parent k n p : lin !! k = Some n → parent (h !!! n) = Some p → parents !! k = Some (slot h p - 1);
  la_len : length parents = length lin;
  la_ok : parents_ok parents;
}.

(** Growing and linearising leave the root's position alone. *)
Lemma add_children_root self cs h : (0 < length h)%nat →
  slot (add_children self cs h).1 0 = slot h 0 ∧ (0 < length (add_children self cs h).1)%nat.
Proof.
  revert h. induction cs as [|[tok pr] cs IHc]; intros h H0; [done|]. cbn. set (h1 := alter _ _ _).
  assert (slot h1 0 = slot h 0 ∧ (0 < length h1)%nat) as [E1 E2].
  { unfold h1, slot. split; [|rewrite length_alter, length_app; lia]. rewrite !list_lookup_total_alt.
    destruct (lookup_lt_is_Some_2 h 0 H0) as [r Hr]. destruct (decide (self = 0%nat)) as [->|Hne].
    - rewrite list_lookup_alter_eq, lookup_app_l, Hr by lia. done.
    - rewrite list_lookup_alter_ne, lookup_app_l, Hr by lia. done. }
  specialize (IHc h1 E2). destruct (add_children self cs h1). cbn in *. rewrite <- E1. done.
Qed.

Lemma grow_root l h : (0 < length h)%nat → slot (grow l h).1 0 = slot h 0 ∧ (0 < length (grow l h).1)%nat.
Proof.
  revert h. induction l as [|[p cs] l IHl]; intros h H0; [done|]. cbn.
  destruct (add_children_root p cs h H0) as [E1 E2]. destruct (add_children p cs h) as [h1 c1]. cbn in E1, E2.
  specialize (IHl h1 E2). destruct (grow l h1). cbn in *. rewrite <- E1. done.
Qed.

Section dfs_root.
Context (h0 : heap) (Hwf : heap_wf h0).

(** The heap of a walk that started from [h0]: the same parents, the root where it was. *)
Definition walked (st : lin_state) : Prop :=
  slot (lin_heap st) 0 = slot h0 0 ∧ ∀ m, parent (lin_heap st !!! m) = parent (h0 !!! m).

Lemma visit_walked n p st : walked st → parent (lin_heap st !!! n) = Some p → walked (visit n p st).
Proof.
  intros [E1 E2] Hpar. destruct (root_depth _ Hwf) as [_ Hr].
  assert (n ≠ 0%nat) by (intros ->; rewrite E2, Hr in Hpar; done). unfold walked, visit, slot in *. cbn. split.
  - rewrite <- E1. by rewrite !list_lookup_total_alt, list_lookup_alter_ne.
  - intros m. rewrite <- E2, !list_lookup_total_alt. destruct (decide (n = m)) as [->|Hne].
    + rewrite list_lookup_alter_eq. by destruct (lin_heap st !! m).
    + by rewrite list_lookup_alter_ne.
Qed.

Lemma dfs_walked f n st : walked st → walked (dfs_with_positions f n st).
Proof.
  revert n st. induction f as [|f IHf]; intros n st Hw; [done|]. cbn [dfs_with_positions].
  set (st1 := match parent (lin_heap st !!! n) with Some p => visit n p st | None => st end).
  assert (Hw1 : walked st1).
  { unfold st1. destruct (parent (lin_heap st !!! n)) as [p|] eqn:Hpar; [by apply visit_walked|done]. }
  generalize (children (lin_heap st1 !!! n)). intros l. revert Hw1. generalize st1.
  induction l as [|c l IHl]; intros st2 Hw2; [done|]. cbn. by apply IHl, IHf.
Qed.
End dfs_root.

Lemma grown_root t : grown t → slot (nodes t) 0 = 0.
Proof.
  intros Hg. induction Hg as [tok rid|t ps cands Hg IH Hps|t Hg IH]; [done| |];
    pose proof (grown_wf _ Hg) as [Hh _ _ _].
  - unfold add_layer. destruct (length ps =? length cands)%nat; [|exact IH].
    destruct (grow_root (zip ps cands) (nodes t)) as [E _].
    { destruct (hw_root _ Hh) as (r & Hr & _). by apply lookup_lt_Some in Hr. }
    destruct (grow _ _) as [h' new]. cbn in E. rewrite <- IH, <- E. by destruct new.
  - rewrite <- IH. unfold linearize_tree_with_positions. cbn. by apply (dfs_walked (nodes t) Hh).
Qed.

Lemma linearized_laid_out t : grown t →
  let r := linearize_tree_with_positions t in laid_out (nodes r.1) r.2.1 r.2.2.
Proof.
  intros Hg. pose proof (grown_root _ (grown_linearized t Hg)) as Hroot. pose proof (grown_wf _ Hg) as Ht.
  pose proof (linearize_wf t Ht) as Hwf. pose proof (tw_heap _ Ht) as Hh.
  unfold linearize_tree_with_positions in *. cbn in *. destruct (linearize_ok (nodes t) Hh) as [Hok Hl].
  set (st := dfs_with_positions _ _ _) in *. pose proof (linearize_perm _ _ Hh Hl) as Hperm.
  pose proof (lo_heap _ _ Hok) as Hstrip. pose proof (strip_length _ _ Hstrip) as Hlen.
  assert (Hanc : ∀ n m, anc (nodes t) n m ↔ anc (lin_heap st) n m).
  { assert (∀ h h', strip h = strip h' → ∀ n m, anc h n m → anc h' n m) as Hone; [|split; by eapply Hone].
    intros h h' Es n m. unfold anc. apply rtc_congruence with (f := id). intros a b (x & Hx & Hp).
    destruct (strip_some _ _ a x Es Hx) as (x' & Hx' & _ & _ & _ & Hp'). exists x'. split; [exact Hx'|by rewrite Hp']. }
  assert (Hnode : ∀ k n, linearized_nodes st !! k = Some n → (0 < n < length (lin_heap st))%nat ∧ slot (lin_heap st) n = Z.of_nat (S k)).
  { intros k n Hk. split.
    - apply list_elem_of_lookup_2 in Hk. rewrite Hperm, elem_of_seq in Hk. lia.
    - unfold slot. rewrite (lo_pos _ _ Hok k n Hk). lia. }
  assert (Hall : ∀ n, (0 < n < length (lin_heap st))%nat → ∃ k, linearized_nodes st !! k = Some n).
  { intros n Hn. apply list_elem_of_lookup. rewrite Hperm, elem_of_seq. lia. }
  split; try done.
  - by apply tw_heap in Hwf.
  - intros i n j m Hi Hj. rewrite <- Hanc. apply on_path_anc; try done.
    + rewrite Hperm. apply NoDup_seq.
    + rewrite Hperm, elem_of_seq. lia.
  - intros n p Hp Hn. destruct (decide (n = 0%nat)) as [->|Hn0].
    { destruct (root_depth _ (tw_heap _ Hwf)) as [_ Hr]. cbn in Hr. congruence. }
    destruct (Hall n) as [k Hk]; [lia|]. destruct (lo_par _ _ Hok k n Hk) as (_ & q & Hq & Hor).
    destruct (strip_total _ _ n Hstrip) as (_ & _ & _ & Hpar). rewrite Hp in Hpar. rewrite <- Hpar in Hq. injection Hq as <-.
    destruct (Hnode k n Hk) as [_ ->]. destruct Hor as [[-> _]|(j & Hj & Hjp & _)]; [rewrite Hroot; lia|].
    destruct (Hnode j p Hjp) as [_ ->]. lia.
  - intros k n p Hk Hp. destruct (lo_par _ _ Hok k n Hk) as (_ & q & Hq & Hor).
    destruct (strip_total _ _ n Hstrip) as (_ & _ & _ & Hpar). rewrite Hp in Hpar. rewrite <- Hpar in Hq. injection Hq as <-.
    destruct Hor as [[-> ->]|(j & Hj & Hjp & ->)]; [rewrite Hroot; done|].
    destruct (Hnode j p Hjp) as [_ ->]. f_equal. lia.
  - by apply lo_len in Hok.
  - by eapply lin_parents_ok.
Qed.

(** ** Paths *)

Section paths.
Context (h : heap) (lin : list nat) (parents : list Z) (Hla : laid_out h lin parents).

(** The nodes of a list hang below [cur], each below the one before. *)
Fixpoint hangs (cur : nat) (ns : list nat) : Prop :=
  match ns with
  | [] => True
  | n :: ns => parent (h !!! n) = Some cur ∧ (0 < n < length h)%nat ∧ hangs n ns
  end.

Lemma hangs_snoc cur ns n : hangs cur (ns ++ [n]) ↔
  hangs cur ns ∧ parent (h !!! n) = Some (default cur (last ns)) ∧ (0 < n < length h)%nat.
Proof.
  revert cur. induction ns as [|m ns IH]; intros cur; cbn [hangs app]; [cbn; tauto|]. rewrite IH.
  replace (default cur (last (m :: ns))) with (default m (last ns)); [tauto|]. destruct ns; [done|].
  rewrite last_cons_cons. by destruct (last (n0 :: ns)) eqn:El; [|apply last_None in El].
Qed.

Lemma path_hangs n : (n < length h)%nat →
  hangs 0 (get_path_nodes_from_root h n) ∧ default 0%nat (last (get_path_nodes_from_root h n)) = n.
Proof.
  pose proof (la_wf _ _ _ Hla) as Hwf. induction n as [n IH] using lt_wf_ind. intros Hn. rewrite path_unfold by done.
  destruct (decide (n = 0%nat)) as [->|Hne]; [by destruct (root_depth h Hwf) as [_ ->]|].
  destruct (up_pstep h Hwf n Hn Hne) as (p & Hp & Hs). rewrite Hp. apply pstep_lt in Hs as [Hlt _]; [|done].
  destruct (IH p) as [H1 H2]; [lia|lia|]. rewrite hangs_snoc, H2, last_snoc. split; [|done].
  split; [done|]. split; [done|lia].
Qed.

(** Such a list below the root is the root path of its last node. *)
Lemma hangs_path ns n : hangs 0 (ns ++ [n]) → get_path_nodes_from_root h n = ns ++ [n].
Proof.
  pose proof (la_wf _ _ _ Hla) as Hwf. revert n. induction ns as [|ns m IH] using rev_ind; intros n (H1 & Hp & Hn)%hangs_snoc.
  - cbn in Hp. rewrite path_unfold, Hp by (done || lia). rewrite path_unfold by (done || lia).
    by destruct (root_depth h Hwf) as [_ ->].
  - rewrite last_snoc in Hp. rewrite path_unfold, Hp by (done || lia). cbn. by rewrite IH.
Qed.

(** The nodes on the path to [n], the root first. *)
Definition trail (n : nat) : list nat := 0%nat :: get_path_nodes_from_root h n.

Lemma path_parent n p : parent (h !!! n) = Some p → (n < length h)%nat →
  get_path_nodes_from_root h n = get_path_nodes_from_root h p ++ [n] ∧ (p < n)%nat.
Proof.
  intros Hp Hn. pose proof (la_wf _ _ _ Hla) as Hwf. split; [rewrite path_unfold by done; by rewrite Hp|].
  pose proof (parent_pstep h n p Hn Hp) as Hs. apply pstep_lt in Hs; [|done]. lia.
Qed.

Lemma trail_anc n m : (n < length h)%nat → m ∈ trail n ↔ anc h n m.
Proof.
  pose proof (la_wf _ _ _ Hla) as Hwf. revert m. induction n as [n IH] using lt_wf_ind. intros m Hn.
  unfold trail in *. destruct (decide (n = 0%nat)) as [->|Hne].
  - rewrite path_unfold by done. destruct (root_depth h Hwf) as [_ ->]. rewrite list_elem_of_singleton. split.
    + intros ->. apply rtc_refl.
    + intros Ha. apply anc_le in Ha; [lia|done].
  - destruct (up_pstep h Hwf n Hn Hne) as (p & Hp & Hs). destruct (path_parent n p Hp Hn) as [-> Hlt].
    rewrite app_comm_cons, elem_of_app, list_elem_of_singleton, (IH p) by lia. split.
    + intros [Ha| ->]; [by eapply rtc_l|apply rtc_refl].
    + intros Ha. inversion Ha as [|? q ? Hs' Ha']; subst; [by right|]. left. by rewrite (pstep_inj h _ _ _ Hs Hs').
Qed.

Lemma slot_bounds n : (n < length h)%nat → 0 ≤ slot h n ≤ zlen lin ∧ (slot h n = 0 → n = 0%nat).
Proof.
  intros Hn. destruct (decide (n = 0%nat)) as [->|Hne].
  - rewrite (la_root _ _ _ Hla). unfold zlen. lia.
  - destruct (la_all _ _ _ Hla n) as [k Hk]; [lia|]. destruct (la_node _ _ _ Hla k n Hk) as [_ ->].
    apply lookup_lt_Some in Hk. unfold zlen. lia.
Qed.

Lemma trail_sorted n : (n < length h)%nat →
  StronglySorted Z.lt (slot h <$> trail n) ∧ Forall (λ z, z ≤ slot h n) (slot h <$> trail n).
Proof.
  pose proof (la_wf _ _ _ Hla) as Hwf. induction n as [n IH] using lt_wf_ind. intros Hn. unfold trail in *.
  destruct (decide (n = 0%nat)) as [->|Hne].
  - rewrite path_unfold by done. destruct (root_depth h Hwf) as [_ ->]. cbn. split; [repeat constructor|]. by constructor.
  - destruct (up_pstep h Hwf n Hn Hne) as (p & Hp & Hs). destruct (path_parent n p Hp Hn) as [-> Hlt].
    destruct (IH p) as [H1 H2]; [lia|lia|]. pose proof (la_up _ _ _ Hla n p Hp Hn) as Hup.
    rewrite app_comm_cons, fmap_app. cbn [fmap list_fmap] in *. split.
    + apply StronglySorted_app. split; [|split; [done|repeat constructor]].
      intros x y Hx ->%list_elem_of_singleton. rewrite Forall_forall in H2. specialize (H2 x Hx). lia.
    + apply Forall_app. split; [|by repeat constructor]. eapply Forall_impl; [exact H2|cbn; lia].
Qed.

(** Root paths are the paths the client gets. *)
Lemma leaf_path_trail ns : ns ∈ get_all_leaf_node_paths h 0 → ∃ n, (n < length h)%nat ∧ ns = get_path_nodes_from_root h n.
Proof.
  pose proof (la_wf _ _ _ Hla) as Hwf. unfold get_all_leaf_node_paths. destruct (leaf_paths_filter h (length h) 0) as [-> _].
  intros (n & -> & Hn)%list_elem_of_fmap. apply list_elem_of_filter in Hn as [_ Hn].
  apply preorder_all in Hn; [|done]. by exists n.
Qed.
(** Nodes below the root, after it, are the trail of the last one. *)
Lemma acc_trail acc : hangs 0 acc → let n := default 0%nat (last acc) in
  (n < length h)%nat ∧ 0%nat :: acc = trail n ∧ depth (h !!! n) = zlen acc.
Proof.
  pose proof (la_wf _ _ _ Hla) as Hwf. intros Hh. cbv zeta.
  assert (H0 : (0 < length h)%nat) by (destruct (hw_root h Hwf) as (r & Hr & _); by apply lookup_lt_Some in Hr).
  assert (Hn : (default 0%nat (last acc) < length h)%nat ∧ 0%nat :: acc = trail (default 0%nat (last acc))).
  { destruct (exists_last_or_nil acc) as [->|(d & n & ->)].
    - cbn. split; [done|]. unfold trail. rewrite path_unfold by done. by destruct (root_depth h Hwf) as [_ ->].
    - rewrite last_snoc. cbn. unfold trail. rewrite (hangs_path d n Hh).
      apply hangs_snoc in Hh as (_ & _ & ?). split; [lia|done]. }
  destruct Hn as [Hn Ht]. split; [done|]. split; [done|]. rewrite <- (path_length h Hwf) by done.
  unfold trail in Ht. injection Ht as Ht. by rewrite <- Ht.
Qed.
End paths.

(** ** A round of one sequence *)

(** The columns the cache keeps of a row of positions. *)
Definition kept_columns (ids : list Z) : list Z := py_range 0 (default 0 (head (valid_ids ids))) ++ valid_ids ids.

Lemma kept_columns_kept ids c : valid_ids ids ≠ [] → kept ids c ↔ c ∈ kept_columns ids.
Proof.
  intros Hne. unfold kept, kept_columns, py_range. rewrite elem_of_app, elem_of_seqZ, elem_valid.
  fold (valid_ids ids). destruct (valid_ids ids) as [|root vs]; [done|]. cbn. split.
  - intros [H0 [Hin|(r & [= <-] & Hlt)]]; [by right|left; lia].
  - intros [?|[Hin H0]]; [split; [lia|right; exists root; split; [done|lia]]|split; [done|by left]].
Qed.

Lemma py_range_sorted a b : StronglySorted Z.lt (py_range a b).
Proof.
  unfold py_range. remember (Z.to_nat (b - a)) as k eqn:Hk. revert a Hk. induction k as [|k IH]; intros a Hk.
  - rewrite seqZ_nil by lia. constructor.
  - rewrite seqZ_cons by lia. replace (Z.pred (b - a)) with (b - Z.succ a) by lia. constructor; [apply IH; lia|].
    apply Forall_forall. intros x Hx%elem_of_seqZ. lia.
Qed.

Section round.
Context {E L : Type} `{TM : TargetModel E L} `{TML : !TargetModelLaws E L} `{LO : LogitsOps L}.
Context (h : heap) (lin : list nat) (parents : list Z) (Hla : laid_out h lin parents).
Context (ctx : list Z) (llm : Z) (padding rots ids : list Z) (past : list E) (m : mask).

Let s := ctx ++ [llm].
Let toks := llm :: ((λ n, token_id (h !!! n)) <$> lin) ++ padding.
Let mx := zlen lin + zlen padding.
Let cl := zlen past.
Let outs := run_blocks past m (zip toks rots).

Hypotheses (Hrots : length rots = length toks) (Hrows : m_rows m = mx + 1) (Hcols : m_cols m = cl + (mx + 1)).
Hypothesis Hmask : ∀ q c, 0 ≤ q ≤ mx → 0 ≤ c → m_at m q c = true ↔
  kept ids c ∨ (c = cl ∧ q ≤ zlen parents) ∨ (1 ≤ q ≤ zlen parents ∧ cl + 1 ≤ c ∧ on_path parents (q - 1) (c - cl - 1)).
Hypotheses (Hids : valid_ids ids ≠ []) (Hsorted : StronglySorted Z.lt (kept_columns ids))
  (Hbound : Forall (λ p, 0 ≤ p < cl) (kept_columns ids)) (Hcache : picks past (kept_columns ids) = entries_of ctx).
Hypothesis Hrot : ∀ n r, (n < length h)%nat → rots !! Z.to_nat (slot h n) = Some r → ∀ es t,
  zlen es = zlen ctx + depth (h !!! n) → cell es t r = cell es t (zlen es).

Lemma inputs_len : zlen (zip toks rots) = mx + 1.
Proof. unfold toks, mx, zlen in *. rewrite length_zip_with, Hrots. cbn. rewrite length_app, length_fmap. lia. Qed.

Lemma round_causal : causal (zlen past) (zlen (zip toks rots)) m.
Proof.
  rewrite inputs_len. split; [done|]. split; [done|]. intros q c Hq H0 Hc. fold cl.
  apply Hmask in Hc; [|lia|done]. destruct Hc as [Hk|[[-> _]|(Hq' & Hc' & Hp)]]; [|lia|].
  - apply kept_columns_kept in Hk; [|done]. rewrite Forall_forall in Hbound. specialize (Hbound c Hk). cbn in Hbound. lia.
  - apply (on_path_le _ (la_ok _ _ _ Hla)) in Hp. lia.
Qed.

Lemma outs_len : zlen outs = mx + 1.
Proof. rewrite <- inputs_len. unfold zlen, outs. f_equal. apply run_blocks_cell, round_causal. Qed.

(** The input of a node. *)
Lemma token_at n : (n < length h)%nat → toks !! Z.to_nat (slot h n) = Some (if decide (n = 0%nat) then llm else token_id (h !!! n)).
Proof.
  intros Hn. destruct (decide (n = 0%nat)) as [->|Hne]; [by rewrite (la_root _ _ _ Hla)|].
  destruct (la_all _ _ _ Hla n) as [k Hk]; [lia|]. destruct (la_node _ _ _ Hla k n Hk) as [_ ->].
  rewrite Nat2Z.id. unfold toks. rewrite lookup_cons. apply lookup_lt_Some in Hk as Hlt. rewrite lookup_app_l by (by rewrite length_fmap).
  by rewrite list_lookup_fmap, Hk.
Qed.

(** The columns a node sees besides the kept ones: the inputs on its path, itself excepted. *)
Lemma node_sees n p c : (0 < n < length h)%nat → parent (h !!! n) = Some p → 0 ≤ c < cl + slot h n →
  m_at m (slot h n) c = true ↔ c ∈ kept_columns ids ++ ((λ i, cl + slot h i) <$> trail h p).
Proof.
  intros Hn Hp Hc. destruct (la_all _ _ _ Hla n) as [k Hk]; [done|]. destruct (la_node _ _ _ Hla k n Hk) as [_ Hs].
  destruct (slot_bounds h lin parents Hla n) as [Hsb _]; [lia|]. pose proof (zlen_nonneg padding).
  assert (Hlp : zlen parents = zlen lin) by (unfold zlen; by rewrite (la_len _ _ _ Hla)).
  destruct (path_parent h lin parents Hla n p Hp) as [Htr Hlt]; [lia|].
  rewrite Hmask, elem_of_app, <- kept_columns_kept, list_elem_of_fmap by (done || lia). apply or_iff_compat_l. split.
  - intros [[-> _]|(Hq & Hcl & Hon)].
    + exists 0%nat. rewrite (la_root _ _ _ Hla). split; [lia|by left].
    + rewrite Hs in Hon. replace (Z.of_nat (S k) - 1) with (Z.of_nat k) in Hon by lia.
      assert (0 ≤ c - cl - 1 < Z.of_nat k) by lia.
      destruct (lookup_lt_is_Some_2 lin (Z.to_nat (c - cl - 1))) as [x Hx]; [apply lookup_lt_Some in Hk; lia|].
      replace (c - cl - 1) with (Z.of_nat (Z.to_nat (c - cl - 1))) in Hon by lia.
      apply (la_path _ _ _ Hla k n _ x Hk Hx) in Hon. destruct (la_node _ _ _ Hla _ x Hx) as [Hxb Hxs]. exists x.
      split; [lia|]. apply (trail_anc h lin parents Hla n) in Hon; [|lia]. unfold trail in *. rewrite Htr in Hon.
      rewrite app_comm_cons in Hon. apply elem_of_app in Hon as [Hon| ->%list_elem_of_singleton]; [done|lia].
  - intros (x & -> & Hx). destruct (decide (x = 0%nat)) as [->|Hx0]; [left; rewrite (la_root _ _ _ Hla); lia|right].
    assert (Hxn : x ∈ trail h n) by (unfold trail in *; rewrite Htr, app_comm_cons; apply elem_of_app; by left).
    apply (trail_anc h lin parents Hla) in Hxn; [|lia]. pose proof (anc_le h (la_wf _ _ _ Hla) _ _ Hxn).
    destruct (la_all _ _ _ Hla x) as [j Hj]; [lia|]. destruct (la_node _ _ _ Hla j x Hj) as [_ Hxs].
    split; [lia|]. split; [lia|]. apply (la_path _ _ _ Hla k n j x Hk Hj) in Hxn.
    rewrite Hs, Hxs. replace (Z.of_nat (S k) - 1) with (Z.of_nat k) by lia.
    by replace (cl + Z.of_nat (S j) - cl - 1) with (Z.of_nat j) by lia.
Qed.

(** The root sees the kept ones only. *)
Lemma root_sees c : 0 ≤ c < cl → m_at m 0 c = true ↔ c ∈ kept_columns ids.
Proof.
  intros Hc. pose proof (zlen_nonneg lin). pose proof (zlen_nonneg padding).
  rewrite Hmask, <- kept_columns_kept by (done || lia). intuition lia.
Qed.

(** The word from the start of the sequence to a node. *)
Definition reached (n : nat) : list Z := s ++ get_path_from_root h n.

Lemma reached_root : (0 < length h)%nat → reached 0 = s.
Proof using Hla.
  intros H0. unfold reached, get_path_from_root. rewrite path_unfold by (apply (la_wf _ _ _ Hla) || done).
  destruct (root_depth h (la_wf _ _ _ Hla)) as [_ ->]. apply app_nil_r.
Qed.

Lemma reached_step n p : parent (h !!! n) = Some p → (n < length h)%nat → reached n = reached p ++ [token_id (h !!! n)].
Proof using Hla.
  intros Hp Hn. destruct (path_parent h lin parents Hla n p Hp Hn) as [E1 _].
  unfold reached, get_path_from_root. rewrite E1, fmap_app. cbn. by rewrite (assoc_L (++)).
Qed.

Lemma reached_length n : (n < length h)%nat → zlen (reached n) = zlen ctx + 1 + SpecTree.depth (h !!! n).
Proof.
  intros Hn. unfold reached, s, get_path_from_root. rewrite !zlen_app.
  rewrite <- (path_length h (la_wf _ _ _ Hla) n Hn). unfold zlen. rewrite length_fmap. cbn. lia.
Qed.

(** The entries up to a node, in the order of its trail. *)
Lemma entries_reached n : (n < length h)%nat →
  entries_of (reached n) = entries_of ctx ++ ((λ i, (cell_of (reached i)).1) <$> trail h n).
Proof.
  induction n as [n IH] using lt_wf_ind. intros Hn. pose proof (la_wf _ _ _ Hla) as Hwf. unfold trail in *.
  destruct (decide (n = 0%nat)) as [->|Hne].
  - rewrite path_unfold by done. destruct (root_depth h Hwf) as [_ ->]. rewrite reached_root by lia. cbn.
    rewrite reached_root by lia. unfold s. by rewrite entries_of_snoc.
  - destruct (up_pstep h Hwf n Hn Hne) as (p & Hp & _). destruct (path_parent h lin parents Hla n p Hp Hn) as [-> Hlt].
    rewrite (reached_step n p Hp Hn), entries_of_snoc, IH by lia. rewrite app_comm_cons, fmap_app, <- (assoc_L (++)).
    cbn. by rewrite <- (reached_step n p Hp Hn).
Qed.

Lemma shifted_sorted a l : StronglySorted Z.lt (slot h <$> l) → StronglySorted Z.lt ((λ i, a + slot h i) <$> l).
Proof.
  induction l as [|x l IHl]; [constructor|]. cbn. intros [H1 H2]%StronglySorted_inv.
  constructor; [by apply IHl|]. rewrite Forall_forall in H2 |- *. intros y (i & -> & Hi)%list_elem_of_fmap.
  specialize (H2 (slot h i) ltac:(apply list_elem_of_fmap; by exists i)). lia.
Qed.

(** Each node's output is that of the sequence it stands for. *)
Lemma out_at n : (n < length h)%nat → outs !! Z.to_nat (slot h n) = Some (cell_of (reached n)).
Proof.
  induction n as [n IH] using lt_wf_ind. intros Hn. pose proof (la_wf _ _ _ Hla) as Hwf.
  pose proof (token_at n Hn) as Ht. destruct (slot_bounds h lin parents Hla n Hn) as [Hsb _].
  pose proof outs_len as Hol. pose proof (zlen_nonneg padding).
  destruct (lookup_lt_is_Some_2 rots (Z.to_nat (slot h n))) as [r Hr].
  { apply lookup_lt_Some in Ht. lia. }
  destruct (run_blocks_cell past m (zip toks rots) round_causal) as [_ Hrun]. fold outs in Hrun.
  rewrite (Hrun (Z.to_nat (slot h n)) _ r) by (rewrite lookup_zip_with, Ht; cbn; by rewrite Hr). clear Hrun.
  rewrite Z2Nat.id by lia. f_equal. destruct (decide (n = 0%nat)) as [->|Hne].
  - rewrite (la_root _ _ _ Hla). cbn [Z.to_nat take]. rewrite app_nil_r.
    rewrite (visible_picks m 0 past (kept_columns ids)); [|done|by apply Forall_forall|by apply root_sees].
    rewrite Hcache, (Hrot 0 r Hn Hr). 2:{ destruct (root_depth h Hwf) as [-> _]. rewrite entries_of_length. lia. }
    rewrite reached_root by done. unfold s. by rewrite cell_of_snoc, entries_of_length.
  - destruct (up_pstep h Hwf n Hn Hne) as (p & Hp & Hstep). destruct (path_parent h lin parents Hla n p Hp Hn) as [_ Hlt].
    pose proof (la_up _ _ _ Hla n p Hp Hn) as Hup. destruct (trail_sorted h lin parents Hla p ltac:(lia)) as [Hts Htb].
    rewrite Forall_forall in Htb, Hbound.
    assert (Htr : ∀ x, x ∈ trail h p → (x < n)%nat ∧ 0 ≤ slot h x ≤ slot h p).
    { intros x Hx. pose proof (proj1 (trail_anc h lin parents Hla p x ltac:(lia)) Hx) as Ha.
      apply (anc_le h Hwf) in Ha. split; [lia|]. split; [apply (slot_bounds h lin parents Hla); lia|].
      apply Htb, list_elem_of_fmap. by exists x. }
    set (q := Z.to_nat (slot h n)). assert (Hlen : zlen (past ++ take q outs.*1) = cl + slot h n).
    { rewrite zlen_app. fold cl. unfold zlen in *. rewrite length_take, length_fmap. lia. }
    rewrite (visible_picks m (slot h n) _ (kept_columns ids ++ ((λ i, cl + slot h i) <$> trail h p))).
    + rewrite picks_app, picks_app_l, Hcache by (by apply Forall_forall). unfold cl.
      rewrite (picks_app_r past (take q outs.*1) (slot h) (λ i, (cell_of (reached i)).1)).
      2:{ intros x Hx. destruct (Htr x Hx). split; [lia|]. rewrite lookup_take_lt by lia.
          rewrite list_lookup_fmap, IH by lia. done. }
      rewrite <- entries_reached by lia. rewrite (Hrot n r Hn Hr).
      * by rewrite (reached_step n p Hp Hn), cell_of_snoc, entries_of_length.
      * rewrite entries_of_length, reached_length, (depth_up h Hwf n p Hstep) by lia. lia.
    + apply StronglySorted_app. split; [|split; [done|by apply shifted_sorted]].
      intros x y Hx (i & -> & Hi)%list_elem_of_fmap. specialize (Hbound x Hx). destruct (Htr i Hi). cbn in Hbound. lia.
    + intros c [Hc|(i & -> & Hi)%list_elem_of_fmap]%elem_of_app; rewrite Hlen; [specialize (Hbound c Hc); cbn in Hbound; lia|].
      destruct (Htr i Hi). assert (0 ≤ cl) by apply zlen_nonneg. lia.
    + intros c Hc. rewrite Hlen in Hc. apply node_sees; [lia|done|done].
Qed.

Let root_position := zlen ctx.

Lemma reached_path acc : hangs h 0 acc → s ++ ((λ n, token_id (h !!! n)) <$> acc) = reached (default 0%nat (last acc)).
Proof using Hla.
  intros Hh. destruct (exists_last_or_nil acc) as [->|(d & n & ->)].
  - cbn. rewrite app_nil_r, reached_root; [done|]. destruct (hw_root h (la_wf _ _ _ Hla)) as (r & Hr & _).
    by apply lookup_lt_Some in Hr.
  - rewrite last_snoc. unfold reached, get_path_from_root. cbn [default from_option id].
    by rewrite (hangs_path h lin parents Hla d n Hh).
Qed.

(** ** The cache afterwards *)

Lemma picks_prefix (es es' : list E) : picks (es ++ es') (py_range 0 (zlen es)) = es.
Proof using.
  unfold py_range. rewrite Z.sub_0_r. unfold zlen. change 0 with (Z.of_nat 0). rewrite picks_range, drop_0.
  by rewrite take_app_length.
Qed.

(** The positions of the accepted nodes, in a cache that holds the sequence so far and the new
    entries after it, are where the entries of the extended sequence are. *)
Lemma accepted_columns acc ids' rest : hangs h 0 acc →
  valid_ids ids' = (λ n, root_position + slot h n) <$> 0%nat :: acc →
  let row' := entries_of ctx ++ outs.*1 ++ rest in
  valid_ids ids' ≠ [] ∧ StronglySorted Z.lt (kept_columns ids') ∧
  Forall (λ p, 0 ≤ p < zlen ctx + mx + 1) (kept_columns ids') ∧
  picks row' (kept_columns ids') = entries_of (s ++ ((λ n, token_id (h !!! n)) <$> acc)) ∧
  zlen (kept_columns ids') = zlen s + zlen acc.
Proof.
  intros Hh Hv row'. destruct (acc_trail h lin parents Hla acc Hh) as (Hn & Ht & Hd). set (n := default 0%nat (last acc)) in *.
  destruct (trail_sorted h lin parents Hla n Hn) as [Hts Htb]. pose proof (la_wf _ _ _ Hla) as Hwf.
  assert (Hk : kept_columns ids' = py_range 0 (zlen ctx) ++ ((λ n, zlen ctx + slot h n) <$> trail h n)).
  { unfold kept_columns. rewrite Hv, Ht. unfold trail at 1. cbn [fmap list_fmap head default from_option id].
    by rewrite (la_root _ _ _ Hla), Z.add_0_r. }
  assert (Hslot : ∀ x, x ∈ trail h n → (x < length h)%nat ∧ 0 ≤ slot h x ≤ zlen lin).
  { intros x Hx. apply (trail_anc h lin parents Hla n x Hn) in Hx. apply (anc_le h Hwf) in Hx.
    split; [lia|]. apply (slot_bounds h lin parents Hla). lia. }
  pose proof (zlen_nonneg padding). pose proof (zlen_nonneg ctx).
  split; [by rewrite Hv|]. rewrite Hk. split; [|split; [|split]].
  - apply StronglySorted_app. split; [|split; [|by apply shifted_sorted]].
    + intros x y Hx%elem_of_seqZ (i & -> & Hi)%list_elem_of_fmap. destruct (Hslot i Hi). lia.
    + apply py_range_sorted.
  - apply Forall_app. split; apply Forall_forall.
    + intros x Hx%elem_of_seqZ. unfold mx, zlen in *. lia.
    + intros x (i & -> & Hi)%list_elem_of_fmap. destruct (Hslot i Hi). unfold mx. lia.
  - rewrite picks_app. unfold row'. rewrite <- (entries_of_length ctx) at 1. rewrite picks_prefix.
    rewrite <- (entries_of_length ctx). rewrite (picks_app_r _ _ (slot h) (λ i, (cell_of (reached i)).1)).
    + rewrite <- entries_reached by done. by rewrite reached_path.
    + intros x Hx. destruct (Hslot x Hx) as [Hxl Hxs]. split; [lia|].
      pose proof (out_at x Hxl) as Ho. rewrite lookup_app_l by (rewrite length_fmap; by eapply lookup_lt_Some).
      by rewrite list_lookup_fmap, Ho.
  - rewrite zlen_app. unfold py_range, s. rewrite zlen_app. rewrite <- Ht. unfold zlen. rewrite length_seqZ, length_fmap. cbn. lia.
Qed.
End round.

(** ** What is accepted *)

Section client_row.
Context {E L : Type} `{TM : TargetModel E L} `{LO : LogitsOps L}.
Context (h : heap) (lin : list nat) (parents : list Z) (Hla : laid_out h lin parents) (ctx : list Z) (llm : Z).
Let s := ctx ++ [llm].
Let root_position := zlen ctx.
#[local] Notation reached := (reached h ctx llm).

(** A verified prefix: nodes that hang below the root, with the greedy tokens. *)
Definition verified_path (acc : list nat) : Prop :=
  hangs h 0 acc ∧ greedy (length acc) s = (λ n, token_id (h !!! n)) <$> acc.

(** The last accepted token is what the target model chose after those before it. *)
Lemma verified_snoc d n : verified_path (d ++ [n]) →
  verified_path d ∧ (n < length h)%nat ∧ token_id (h !!! n) = t_argmax (cell_of (reached (default 0%nat (last d)))).2.
Proof using Hla.
  intros [Hh Hg]. apply hangs_snoc in Hh as (Hh & _ & Hn).
  rewrite length_app, fmap_app, greedy_add in Hg. apply app_inj_1 in Hg as [Hg1 Hg2]; [|by rewrite greedy_length, length_fmap].
  split; [by split|]. split; [exact (proj2 Hn)|]. rewrite <- (reached_path h lin parents Hla) by done. fold s. rewrite Hg1 in Hg2. cbn in Hg2. by injection Hg2.
Qed.

(** The accepted tokens and the next one are greedy. *)
Lemma extracted_greedy acc : verified_path acc →
  greedy (S (length acc)) s =
    ((λ n, token_id (h !!! n)) <$> acc) ++ [t_argmax (cell_of (reached (default 0%nat (last acc)))).2].
Proof using Hla.
  intros [Hh Hg]. rewrite <- Nat.add_1_r, greedy_add, Hg.
  unfold s. by rewrite (reached_path h lin parents Hla ctx llm acc).
Qed.

(** The rows of logits the client gets: those of the nodes that are [alive], and [zl] for the
    nodes dropped on the way, which leave no descendant alive. *)
Section row_of_logits.
Context (mx : Z) (alive : nat → bool) (zl : L) (logits_row : list L).
Hypothesis Hrow : ∀ n, (n < length h)%nat →
  logits_row !! Z.to_nat (slot h n) = Some (if alive n then (cell_of (reached n)).2 else zl).
Hypotheses (Hrl : zlen logits_row = mx + 1) (Halive : alive 0%nat = true)
  (Hzl : ∀ n, alive n = false → t_all_zero zl = true)
  (Hdead : ∀ n p, (n < length h)%nat → parent (h !!! n) = Some p → alive p = false → token_id (h !!! n) ≠ t_argmax zl).

Lemma predicted_at n : (n < length h)%nat →
  py_index (t_argmax <$> logits_row) (slot h n) = Some (t_argmax (if alive n then (cell_of (reached n)).2 else zl)) ∧
  py_index logits_row (slot h n) = Some (if alive n then (cell_of (reached n)).2 else zl) ∧ slot h n < zlen logits_row.
Proof using Hla Hrow.
  intros Hn. destruct (slot_bounds h lin parents Hla n Hn) as [[Hsb _] _]. pose proof (Hrow n Hn) as Ho.
  rewrite !py_index_nonneg, list_lookup_fmap, Ho by exact Hsb. split; [done|]. split; [done|].
  apply lookup_lt_Some in Ho. unfold zlen. apply Z2Nat.inj_lt; [exact Hsb|apply Nat2Z.is_nonneg|by rewrite Nat2Z.id].
Qed.

(** The walk from a node that is not alive. *)
Lemma walk_path_dead cur depth_idx ns : (cur < length h)%nat → hangs h cur ns → alive cur = false →
  ∃ r, walk_path h (zlen logits_row) root_position (t_argmax <$> logits_row) depth_idx ns = Ok ([], [], r).
Proof using Hla Hrow Hdead.
  intros Hcur Hh Hd. destruct ns as [|n ns]; [by exists None|]. destruct Hh as (Hp & [_ Hn] & _). cbn [walk_path].
  rewrite Hp. cbn [of_option mbind res_bind]. destruct (predicted_at cur Hcur) as (Hpred & _ & Hlt). fold (slot h cur).
  rewrite Hpred, Hd. destruct (_ || _); [by exists None|]. cbn [of_option mbind res_bind].
  rewrite (proj2 (Z.eqb_neq _ _)); [by exists (Some depth_idx)|]. intros Heq. by apply (Hdead n cur Hn Hp Hd).
Qed.

(** The walk along the rest of a path from a node it has reached; all but the last one accepted
    are alive. *)
Lemma walk_path_ok cur depth_idx ns : (cur < length h)%nat → hangs h cur ns → alive cur = true →
  ∃ k r, walk_path h (zlen logits_row) root_position (t_argmax <$> logits_row) depth_idx ns =
      Ok ((λ n, token_id (h !!! n)) <$> take k ns, (λ n, root_position + slot h n) <$> take k ns, r) ∧
    (k ≤ length ns)%nat ∧ greedy k (reached cur) = (λ n, token_id (h !!! n)) <$> take k ns ∧
    Forall (λ n, alive n = true) (removelast (take k ns)).
Proof using Hla Hrow Hdead.
  clear Halive. revert cur depth_idx. induction ns as [|n ns IH]; intros cur depth_idx Hcur Hh Ha.
  { exists 0%nat, None. repeat split; [apply Nat.le_0_l|constructor]. }
  destruct Hh as (Hp & [_ Hn] & Hh). cbn [walk_path]. rewrite Hp. cbn [of_option mbind res_bind].
  destruct (predicted_at cur Hcur) as (Hpred & _ & Hlt). fold (slot h cur). rewrite Hpred, Ha.
  assert (Hlen : zlen (t_argmax <$> logits_row) = zlen logits_row) by (unfold zlen; by rewrite length_fmap).
  rewrite Hlen, (proj2 (Z.leb_gt _ _) Hlt). cbn [orb of_option mbind res_bind].
  destruct (Z.eqb_spec (t_argmax (cell_of (reached cur)).2) (token_id (h !!! n))) as [Heq|Hne].
  2:{ exists 0%nat, (Some depth_idx). repeat split; [apply Nat.le_0_l|constructor]. }
  assert (Hpos : root_position + position_in_sequence (h !!! n) + 1 = root_position + slot h n) by (unfold slot; ring).
  destruct (alive n) eqn:Han.
  - destruct (IH n (depth_idx + 1) Hn Hh Han) as (k & r & -> & Hk & Hg & Hf). exists (S k), r.
    cbn [mbind res_bind]. split; [|split; [|split]].
    + cbn [fst snd take fmap list_fmap]. by rewrite Hpos.
    + cbn. by apply le_n_S.
    + cbn. rewrite Heq, <- Hg, (reached_step h lin parents Hla ctx llm n cur Hp) by done. done.
    + cbn [take]. destruct (take k ns) as [|x l] eqn:Htk; [constructor|]. by constructor.
  - destruct (walk_path_dead n (depth_idx + 1) ns Hn Hh Han) as (r & ->). exists 1%nat, r.
    cbn [mbind res_bind take fst snd fmap list_fmap]. rewrite take_0. cbn [fmap list_fmap]. split; [by rewrite Hpos|].
    split; [cbn; apply le_n_S, Nat.le_0_l|]. split; [cbn; by rewrite Heq|constructor].
Qed.

Lemma hangs_take cur k ns : hangs h cur ns → hangs h cur (take k ns).
Proof using.
  revert cur k. induction ns as [|n ns IH]; intros cur [|k] Hh; [done|done|done|]. cbn in *.
  destruct Hh as (? & ? & ?). auto.
Qed.

(** The best path so far is a verified prefix. *)
Definition good_best (b : best_path) : Prop := ∃ acc, verified_path acc ∧ Forall (λ n, alive n = true) (removelast acc) ∧
  best_verified b = (λ n, token_id (h !!! n)) <$> acc ∧ best_positions b = (λ n, root_position + slot h n) <$> acc.

Lemma best_of_paths_ok paths b : (∀ ns, ns ∈ paths → ∃ n, (n < length h)%nat ∧ ns = get_path_nodes_from_root h n) →
  good_best b → ∃ b', best_of_paths h (zlen logits_row) root_position (t_argmax <$> logits_row) paths b = Ok b' ∧ good_best b'.
Proof using Hla Hrow Halive Hdead.
  revert b. induction paths as [|ns paths IH]; intros b Hns Hb; [by exists b|]. cbn [best_of_paths].
  destruct (Hns ns) as (n & Hn & ->); [by left|]. destruct (path_hangs h lin parents Hla n Hn) as [Hh _].
  assert (H0 : (0 < length h)%nat) by (eapply Nat.le_lt_trans; [apply Nat.le_0_l|exact Hn]).
  destruct (walk_path_ok 0 0 (get_path_nodes_from_root h n) H0 Hh Halive) as (k & r & -> & Hk & Hg & Hf).
  cbn [mbind res_bind]. apply IH; [intros; apply Hns; by right|]. unfold better. cbn [fst snd].
  destruct (_ <? _); [|done]. exists (take k (get_path_nodes_from_root h n)). split; [|done]. split; [by apply hangs_take|].
  rewrite length_take_le by done. unfold verified_path, s. by rewrite <- (reached_root h lin parents Hla ctx llm H0).
Qed.

Hypothesis Hnz : ∀ es t r, t_all_zero (cell es t r).2 = false.

(** The extraction takes a prefix of the greedy continuation and one more token of it, all along
    nodes that are alive. *)
Lemma extract_row_alive paths input_row tree_len : tree_len = mx →
  (∀ ns, ns ∈ paths → ∃ n, (n < length h)%nat ∧ ns = get_path_nodes_from_root h n) →
  ∃ acc checks, verified_path acc ∧ Forall (λ n, alive n = true) acc ∧
    extract_row h paths logits_row input_row [] tree_len (zlen s) false =
      Ok (mkExtraction ((λ n, token_id (h !!! n)) <$> acc) ((λ n, root_position + slot h n) <$> 0%nat :: acc)
        (t_argmax (cell_of (reached (default 0%nat (last acc)))).2) checks).
Proof using Hla Hrow Hrl Halive Hzl Hdead Hnz.
  intros -> Hpaths. pose proof (la_wf _ _ _ Hla) as Hwf.
  assert (H0 : (0 < length h)%nat) by (destruct (hw_root h Hwf) as (r & Hr & _); by apply lookup_lt_Some in Hr).
  unfold extract_row. replace (zlen s - 1) with root_position by (unfold s, root_position; rewrite zlen_app; change (zlen [llm]) with 1; ring).
  destruct (best_of_paths_ok paths (mkBest (-1) [] [] 0 None)) as (b & -> & acc & Hdone & Hf & Hbv & Hbp); [done|exists []; repeat split; constructor|].
  cbn [mbind res_bind]. rewrite Hbv, Hbp.
  destruct (exists_last_or_nil acc) as [->|(d & n & ->)].
  - exists [], (histogram_checks b). split; [done|]. split; [constructor|].
    rewrite fmap_cons, (la_root _ _ _ Hla), Z.add_0_r.
    cbn [fmap list_fmap last]. rewrite Hrl. replace (mx + 1 - mx) with 1 by ring. change (Z.max 0 1) with 1.
    destruct (predicted_at 0 H0) as (_ & Hl & Hlt). rewrite (la_root _ _ _ Hla) in Hl, Hlt. rewrite Halive in Hl.
    change (1 - 1) with 0. destruct logits_row as [|l ls]; [done|]. cbn in Hl. injection Hl as ->.
    rewrite py_slice_nonneg; [done|done|]. rewrite zlen_cons. pose proof (zlen_nonneg ls). clear -H. lia.
  - destruct (verified_snoc d n Hdone) as (Hd & Hn & Htok). rewrite removelast_last in Hf.
    rewrite !fmap_last, !last_snoc. cbn [fmap option_fmap option_map].
    replace (root_position + slot h n - root_position) with (slot h n) by ring.
    destruct (predicted_at n Hn) as (_ & -> & _). cbn [of_option mbind res_bind].
    destruct (alive n) eqn:Han.
    + exists (d ++ [n]), (histogram_checks b). split; [done|]. split; [apply Forall_app; split; [done|by apply Forall_singleton]|].
      unfold cell_of at 1. rewrite Hnz, last_snoc, fmap_cons, (la_root _ _ _ Hla), Z.add_0_r. done.
    + exists d, (histogram_checks b). split; [done|]. split; [done|].
      rewrite (Hzl n Han), !fmap_app. cbn [fmap list_fmap]. rewrite !removelast_last, (la_root _ _ _ Hla), Z.add_0_r, Htok. done.
Qed.
End row_of_logits.
End client_row.

(** The cached row of a sequence: the kept columns hold the entries of all but its last token.
    [contiguous] caches keep exactly a prefix. *)
Record coherent_row {E L} `{TargetModel E L} (contiguous : bool) (s ids : list Z) (row : list E) : Prop := mkCoherent {
  co_ids : valid_ids ids ≠ [];
  co_sorted : StronglySorted Z.lt (kept_columns ids);
  co_bound : Forall (λ p, 0 ≤ p < zlen row) (kept_columns ids);
  co_entries : picks row (kept_columns ids) = entries_of (removelast s);
  co_length : zlen s = zlen (kept_columns ids) + 1;
  co_contiguous : contiguous = true → max_valid [ids] = Some (zlen s - 2);
}.

(** The rotary positions a row gets are right for these trees: a chain of at most four nodes below
    the root. *)
Definition unbranched (t : SpeculativeTree) : Prop :=
  let parents := (linearize_tree_with_positions t).2.2 in
  parents = seqZ (-1) (zlen parents) ∧ zlen parents ≤ 4.

Lemma unbranched_depth t : grown t → unbranched t →
  let h := nodes (linearize_tree_with_positions t).1 in
  ∀ n, (n < length h)%nat → slot h n = depth (h !!! n) ∧ 0 ≤ slot h n ≤ 4.
Proof.
  intros Hg [Hpar H4]. pose proof (linearized_laid_out t Hg) as Hla. cbv zeta in *.
  set (h := nodes _) in *. set (lin := (linearize_tree_with_positions t).2.1) in *.
  set (parents := (linearize_tree_with_positions t).2.2) in *. pose proof (la_wf _ _ _ Hla) as Hwf.
  pose proof (la_len _ _ _ Hla) as Hlen.
  intros n Hn. split.
  2:{ pose proof (slot_bounds h lin parents Hla n Hn). unfold zlen in *. lia. }
  induction n as [n IH] using lt_wf_ind. destruct (decide (n = 0%nat)) as [->|Hne].
  { rewrite (la_root _ _ _ Hla). by destruct (root_depth h Hwf) as [-> _]. }
  destruct (up_pstep h Hwf n Hn Hne) as (p & Hp & Hs). pose proof (pstep_lt h Hwf _ _ Hs) as [Hlt _].
  rewrite (depth_up h Hwf n p Hs), <- IH by lia. destruct (la_all _ _ _ Hla n) as [k Hk]; [lia|].
  destruct (la_node _ _ _ Hla k n Hk) as [_ ->].
  pose proof (la_parent _ _ _ Hla k n p Hk Hp) as Hpk. rewrite Hpar, lookup_seqZ_lt in Hpk.
  - injection Hpk as Hpk. lia.
  - apply lookup_lt_Some in Hk. unfold zlen. lia.
Qed.

(** ** One sequence of a round *)

(** What the mask of a round lets a row see. *)
Definition round_mask (ids parents : list Z) (cl mx : Z) (m : mask) : Prop :=
  m_rows m = mx + 1 ∧ m_cols m = cl + (mx + 1) ∧
  ∀ q c, 0 ≤ q ≤ mx → 0 ≤ c → m_at m q c = true ↔
    kept ids c ∨ (c = cl ∧ q ≤ zlen parents) ∨ (1 ≤ q ≤ zlen parents ∧ cl + 1 ≤ c ∧ on_path parents (q - 1) (c - cl - 1)).

(** The rotary positions of a row of [n] inputs. *)
Definition row_rotary (ids : list Z) (n : Z) : list Z :=
  (λ i, match max_valid [ids] with Some p => p + 1 | None => 0 end + Z.min i 4) <$> py_range 0 n.

Section row.
Context {E L : Type} `{TM : TargetModel E L} `{TML : !TargetModelLaws E L} `{LO : LogitsOps L}.
Hypothesis Hnz : ∀ es t r, t_all_zero (cell (TargetModel := TM) es t r).2 = false.

(** The rotary positions do not matter, or the trees are such that they are right. *)
Definition rotary_right (contiguous : bool) (t : SpeculativeTree) : Prop :=
  if contiguous then unbranched t else ∀ es t r r', cell (TargetModel := TM) es t r = cell es t r'.

Context (contiguous : bool) (ctx : list Z) (llm : Z) (ids : list Z) (row : list E) (t : SpeculativeTree)
  (padding : list Z) (m : mask) (cl : Z).
Let r := linearize_tree_with_positions t.
Let h := nodes r.1.
Let mx := zlen r.2.1 + zlen padding.
Let past := take (Z.to_nat cl) row.
Let rots := row_rotary ids (mx + 1).
Let s := ctx ++ [llm].
Let outs := run_blocks past m (zip (llm :: ((λ n, token_id (h !!! n)) <$> r.2.1) ++ padding) rots).
Hypotheses (Hco : coherent_row contiguous s ids row) (Hg : grown t) (Hrr : rotary_right contiguous t)
  (Hcl : Forall (λ p, p < cl) (valid_ids ids)) (Hclr : cl ≤ zlen row) (Hmask : round_mask ids r.2.2 cl mx m).

Lemma row_laid_out : laid_out h r.2.1 r.2.2.
Proof. exact (linearized_laid_out t Hg). Qed.

Lemma row_columns : Forall (λ p, 0 ≤ p < cl) (kept_columns ids) ∧ 0 ≤ cl.
Proof.
  destruct Hco as [Hids _ Hbound _ _ _]. unfold kept_columns in *. apply Forall_app in Hbound as [Hb1 Hb2].
  destruct (valid_ids ids) as [|v vs] eqn:Hv; [done|]. apply Forall_inv in Hcl as Hv1. apply Forall_inv in Hb2 as Hv2. cbn in Hv2.
  split; [|lia]. apply Forall_app. split.
  - apply Forall_forall. intros p Hp%elem_of_seqZ. cbn in Hp. lia.
  - apply Forall_and. split; [|done]. eapply Forall_impl; [exact Hb2|cbn; lia].
Qed.

Lemma row_past : zlen past = cl ∧ picks past (kept_columns ids) = entries_of ctx.
Proof.
  destruct row_columns as [Hkcl H0]. destruct Hco as [_ _ _ Hentries _ _]. split.
  - unfold past, zlen in *. rewrite length_take. lia.
  - unfold s in Hentries. rewrite removelast_last in Hentries. rewrite <- Hentries. apply picks_ext. intros p Hp.
    rewrite Forall_forall in Hkcl. specialize (Hkcl p Hp). cbn in Hkcl. apply lookup_take_lt. lia.
Qed.

Lemma row_rots : length rots = length (llm :: ((λ n, token_id (h !!! n)) <$> r.2.1) ++ padding).
Proof.
  unfold rots, row_rotary, py_range. rewrite length_fmap, length_seqZ. cbn [length]. rewrite length_app, length_fmap.
  unfold mx, zlen. lia.
Qed.

Lemma row_rotary_right n rt : (n < length h)%nat → rots !! Z.to_nat (slot h n) = Some rt → ∀ es t,
  zlen es = zlen ctx + depth (h !!! n) → cell (TargetModel := TM) es t rt = cell es t (zlen es).
Proof.
  intros Hn Hrt es tk Hes. destruct contiguous eqn:Hc; [|apply Hrr].
  destruct (unbranched_depth t Hg Hrr n Hn) as [Hd Hsl]. fold r h in Hd, Hsl.
  unfold rots, row_rotary, py_range in Hrt. rewrite list_lookup_fmap, lookup_seqZ_lt in Hrt.
  - cbn [fmap option_fmap option_map] in Hrt. injection Hrt as <-. rewrite (co_contiguous _ _ _ _ Hco) by done. f_equal. unfold s. rewrite zlen_app.
    change (zlen [llm]) with 1. rewrite Hes, <- Hd. lia.
  - destruct (slot_bounds h r.2.1 r.2.2 row_laid_out n Hn) as [Hsb _]. pose proof (zlen_nonneg padding). unfold mx. lia.
Qed.

Lemma row_outs : zlen outs = mx + 1.
Proof.
  destruct row_columns as [Hkcl H0]. destruct row_past as [Hpl Hpp]. destruct Hmask as (Hrows & Hcols & Hm).
  rewrite <- Hpl in Hkcl, Hcols, Hm.
  exact (outs_len h r.2.1 r.2.2 row_laid_out llm padding rots ids past m row_rots Hrows Hcols Hm (co_ids _ _ _ _ Hco) Hkcl).
Qed.

(** The committed prefix and the accepted entries are the entries of the sequence so far. *)
Lemma row_compacted : take (Z.to_nat (default 0 (head (valid_ids ids)))) row ++ picks row (valid_ids ids) = entries_of ctx.
Proof.
  destruct row_columns as [Hkcl _]. destruct Hco as [_ _ _ Hentries _ _]. unfold s in Hentries. rewrite removelast_last in Hentries.
  rewrite <- Hentries. unfold kept_columns. rewrite picks_app. f_equal. unfold py_range. rewrite Z.sub_0_r.
  pose proof (picks_range row 0 (Z.to_nat (default 0 (head (valid_ids ids))))) as Hp. rewrite drop_0 in Hp. rewrite <- Hp.
  unfold kept_columns in Hkcl. apply Forall_app in Hkcl as [_ Hv]. destruct (valid_ids ids) as [|v vs]; [done|].
  apply Forall_inv in Hv. cbn in Hv |- *. by rewrite Z2Nat.id by lia.
Qed.

(** What the client needs of the logits it gets: those of the nodes [alive], among them the root,
    and [zl] for the others, after which no draft token looks predicted. *)
Record delivered (alive : nat → bool) (zl : L) (logits_row : list L) : Prop := mkDelivered {
  dl_len : length logits_row = length outs;
  dl_row n : (n < length h)%nat → logits_row !! Z.to_nat (slot h n) = if alive n then outs.*2 !! Z.to_nat (slot h n) else Some zl;
  dl_root : alive 0%nat = true;
  dl_zero n : alive n = false → t_all_zero zl = true;
  dl_dead n p : (n < length h)%nat → parent (h !!! n) = Some p → alive p = false → token_id (h !!! n) ≠ t_argmax zl;
}.

(** One sequence of a round: it is extended by greedy tokens, and the moved cache is coherent. *)
Lemma row_round_delivered alive zl logits_row input_row : delivered alive zl logits_row →
  ∃ x, extract_row h (get_all_leaf_node_paths h 0) logits_row input_row [] mx (zlen s) false = Ok x ∧
    greedy (S (length (x_verified x))) s = x_verified x ++ [x_llm_token x] ∧
    zlen (x_verified x) ≤ zlen r.2.1 ∧ Forall (λ p, 0 ≤ p < zlen s + zlen r.2.1) (x_positions x) ∧
    ∀ ids' rest, valid_ids ids' = x_positions x →
      coherent_row contiguous (s ++ x_verified x ++ [x_llm_token x]) ids'
        (take (Z.to_nat (default 0 (head (valid_ids ids)))) row ++ picks row (valid_ids ids) ++ outs.*1 ++ rest).
Proof.
  intros [Hdl Hdr Hdroot Hdz Hdd]. destruct row_columns as [Hkcl H0]. destruct row_past as [Hpl Hpp]. destruct Hmask as (Hrows & Hcols & Hm).
  rewrite <- Hpl in Hkcl, Hcols, Hm. pose proof row_laid_out as Hla. pose proof (zlen_nonneg ctx) as Hc0.
  destruct (extract_row_alive h r.2.1 r.2.2 Hla ctx llm mx alive zl logits_row)
    with (paths := get_all_leaf_node_paths h 0) (input_row := input_row) (tree_len := mx) as (acc & checks & Hver & _ & Hx); try done.
  { intros n Hn. pose proof (out_at h r.2.1 r.2.2 Hla ctx llm padding rots ids past m row_rots Hrows Hcols Hm
      (co_ids _ _ _ _ Hco) (co_sorted _ _ _ _ Hco) Hkcl Hpp row_rotary_right n Hn) as Ho. fold outs in Ho.
    rewrite Hdr, list_lookup_fmap, Ho by done. by destruct (alive n). }
  { pose proof row_outs. unfold zlen in *. by rewrite Hdl. }
  { intros ns Hns. by apply (leaf_path_trail h r.2.1 r.2.2 Hla). }
  fold s outs in Hx. eexists. split; [exact Hx|]. cbn [x_verified x_positions x_llm_token]. clear Hx.
  pose proof Hver as [Hh _]. destruct (acc_trail h r.2.1 r.2.2 Hla acc Hh) as (Hn & Ht & Hd).
  set (n := default 0%nat (last acc)) in *.
  assert (Hsl : ∀ x, x ∈ 0%nat :: acc → 0 ≤ slot h x ≤ zlen r.2.1).
  { intros x Hx. rewrite Ht in Hx. apply (trail_anc h r.2.1 r.2.2 Hla n x Hn) in Hx. apply (anc_le h (la_wf _ _ _ Hla)) in Hx.
    apply (slot_bounds h r.2.1 r.2.2 Hla). lia. }
  assert (Hsz : zlen s = zlen ctx + 1) by (unfold s; by rewrite zlen_app).
  split; [|split; [|split]].
  - rewrite length_fmap. exact (extracted_greedy h r.2.1 r.2.2 Hla ctx llm acc Hver).
  - destruct (trail_sorted h r.2.1 r.2.2 Hla n Hn) as [Hts _]. rewrite <- Ht in Hts. rewrite fmap_cons in Hts.
    apply (sorted_room _ _ (zlen r.2.1)) in Hts.
    + rewrite (la_root _ _ _ Hla) in Hts. unfold zlen in *. cbn [length] in Hts. rewrite length_fmap in *. lia.
    + rewrite <- fmap_cons. apply Forall_forall. intros z (x & -> & Hx)%list_elem_of_fmap. by apply Hsl.
  - apply Forall_forall. intros p (x & -> & Hx)%list_elem_of_fmap. specialize (Hsl x Hx). lia.
  - intros ids' rest Hv.
    assert (take (Z.to_nat (default 0 (head (valid_ids ids)))) row ++ picks row (valid_ids ids) ++ outs.*1 ++ rest =
      entries_of ctx ++ outs.*1 ++ rest) as -> by (by rewrite <- row_compacted, <- (assoc_L (++))).
    destruct (accepted_columns h r.2.1 r.2.2 Hla ctx llm padding rots ids past m row_rots Hrows Hcols Hm (co_ids _ _ _ _ Hco)
      (co_sorted _ _ _ _ Hco) Hkcl Hpp row_rotary_right acc ids' rest Hh Hv) as (C1 & C2 & C3 & C4 & C5).
    fold outs s in C4, C5. assert (Hfl : zlen ((λ n, token_id (h !!! n)) <$> acc) = zlen acc) by (unfold zlen; by rewrite length_fmap).
    assert (Hsl' : zlen (s ++ ((λ n, token_id (h !!! n)) <$> acc) ++ [t_argmax (cell_of (reached h ctx llm n)).2]) =
      zlen ctx + zlen acc + 2) by (rewrite !zlen_app, Hsz, Hfl; unfold zlen; cbn; lia).
    split; [done|done| |rewrite (assoc_L (++) s), removelast_last; exact C4| |].
    + eapply Forall_impl; [exact C3|]. intros p Hp. cbn in *. rewrite !zlen_app, entries_of_length.
      pose proof row_outs as Ho. unfold zlen in Ho |- *. rewrite length_fmap. unfold mx, zlen in *. lia.
    + lia.
    + intros Hct. rewrite Hct in Hrr. destruct (unbranched_depth t Hg Hrr n Hn) as [Hdn _]. fold r h in Hdn.
      destruct (trail_sorted h r.2.1 r.2.2 Hla n Hn) as [_ Htb]. rewrite Forall_forall in Htb.
      assert (Hself : n ∈ trail h n) by (apply (trail_anc h r.2.1 r.2.2 Hla); [done|apply rtc_refl]).
      replace (zlen _ - 2) with (zlen ctx + slot h n) by lia. apply max_valid_Some. split.
      * exists ids'. split; [by left|]. rewrite Hv, Ht. apply list_elem_of_fmap. by exists n.
      * intros ids0 p ->%list_elem_of_singleton. rewrite Hv, Ht. intros (x & -> & Hx)%list_elem_of_fmap.
        specialize (Htb (slot h x) ltac:(apply list_elem_of_fmap; by exists x)). lia.
Qed.

Lemma row_round input_row :
  ∃ x, extract_row h (get_all_leaf_node_paths h 0) outs.*2 input_row [] mx (zlen s) false = Ok x ∧
    greedy (S (length (x_verified x))) s = x_verified x ++ [x_llm_token x] ∧
    zlen (x_verified x) ≤ zlen r.2.1 ∧ Forall (λ p, 0 ≤ p < zlen s + zlen r.2.1) (x_positions x) ∧
    ∀ ids' rest, valid_ids ids' = x_positions x →
      coherent_row contiguous (s ++ x_verified x ++ [x_llm_token x]) ids'
        (take (Z.to_nat (default 0 (head (valid_ids ids)))) row ++ picks row (valid_ids ids) ++ outs.*1 ++ rest).
Proof.
  apply (row_round_delivered (λ _, true) (cell_of (reached h ctx llm 0)).2). split; try done. by rewrite length_fmap.
Qed.
End row.

(** ** The server's side of a round *)

Section server_round.
Context {E L : Type} `{TM : TargetModel E L} (zero : E).
Implicit Types (slab : list (list E)) (ids toks : list (list Z)) (masks : list mask).

(** The outputs of one row. *)
Definition row_outputs (cl n : Z) (row : list E) (m : mask) (tokens idr : list Z) : list (E * L) :=
  run_blocks (take (Z.to_nat cl) row) (crop n (cl + n) m) (zip tokens (row_rotary idr n)).

Lemma lookup_all {A} (l : list A) k n : length l = n → (k < n)%nat → ∃ x, l !! k = Some x.
Proof. intros <- Hk. by apply lookup_lt_is_Some_2. Qed.

Lemma server_round (n cap : nat) prefill prefix slab ids toks masks p :
  ids ≠ [] → length toks = length ids → length masks = length ids → (0 < n)%nat → sized n toks → sized cap slab →
  (length ids ≤ length slab)%nat → max_valid ids = Some p → p + 1 + Z.of_nat n ≤ Z.of_nat cap →
  Forall (λ idr, StronglySorted Z.lt (valid_ids idr)) ids →
  (∀ k row m tk idr, slab !! k = Some row → masks !! k = Some m → toks !! k = Some tk → ids !! k = Some idr →
    length (row_outputs (p + 1) (Z.of_nat n) row m tk idr) = n) →
  ∃ slab' outs, spec_inference_step zero prefill prefix (Some ids) toks masks slab =
      (slab', Ok ((λ o : list (E * L), o.*2) <$> outs)) ∧
    length outs = length ids ∧ sized cap slab' ∧ length slab' = length slab ∧
    ∀ k row m tk idr, slab !! k = Some row → masks !! k = Some m → toks !! k = Some tk → ids !! k = Some idr →
      outs !! k = Some (row_outputs (p + 1) (Z.of_nat n) row m tk idr) ∧
      ∃ rest, slab' !! k = Some (take (Z.to_nat (default (p + 1) (head (valid_ids idr)))) row ++
        picks row (valid_ids idr) ++ (row_outputs (p + 1) (Z.of_nat n) row m tk idr).*1 ++ rest).
Proof.
  intros Hne Hlt Hlm Hn Htoks Hslab Hle Hmax Hcap Hsrt Hout.
  assert (Hp0 : 0 ≤ p) by (apply max_valid_Some in Hmax as [(r & _ & [_ ?]%elem_valid) _]; done).
  assert (Hmj : mjoin ids ≠ []).
  { intros E0. unfold max_valid in Hmax. rewrite E0 in Hmax. done. }
  assert (Hsl : match toks with row :: _ => zlen row | [] => 0 end = Z.of_nat n).
  { destruct toks as [|tk toks]; [by destruct ids|]. apply Forall_inv in Htoks. unfold zlen. by rewrite Htoks. }
  assert (Hsne : slab ≠ []) by (destruct slab, ids; cbn in Hle; (done || lia)).
  set (outs := (λ x : list E * mask * list Z * list Z, row_outputs (p + 1) (Z.of_nat n) x.1.1.1 x.1.1.2 x.1.2 x.2) <$>
    zip (zip (zip (take (length ids) slab) masks) toks) ids).
  assert (Hol : length outs = length ids).
  { unfold outs. rewrite length_fmap, !length_zip_with, length_take. lia. }
  assert (Hok : ∀ k row m tk idr, slab !! k = Some row → masks !! k = Some m → toks !! k = Some tk → ids !! k = Some idr →
    outs !! k = Some (row_outputs (p + 1) (Z.of_nat n) row m tk idr)).
  { intros k row m tk idr Hr Hm Ht Hi. apply lookup_lt_Some in Hi as Hk. unfold outs.
    rewrite list_lookup_fmap, !lookup_zip_with, lookup_take_lt, Hr, Hm, Ht, Hi by done. done. }
  assert (Hrows : ∀ k, (k < length ids)%nat → ∃ row m tk idr, slab !! k = Some row ∧ masks !! k = Some m ∧ toks !! k = Some tk ∧ ids !! k = Some idr).
  { intros k Hk. destruct (lookup_lt_is_Some_2 slab k) as [row ?]; [lia|]. destruct (lookup_lt_is_Some_2 masks k) as [m ?]; [lia|].
    destruct (lookup_lt_is_Some_2 toks k) as [tk ?]; [lia|]. destruct (lookup_lt_is_Some_2 ids k) as [idr ?]; [lia|]. eauto 10. }
  assert (Hkvs : sized n ((λ o : list (E * L), o.*1) <$> outs)).
  { apply list.Forall_fmap, Forall_lookup. intros k o Ho. cbn. rewrite length_fmap. apply lookup_lt_Some in Ho as Hk.
    destruct (Hrows k) as (row & m & tk & idr & H1 & H2 & H3 & H4); [lia|].
    rewrite (Hok k row m tk idr H1 H2 H3 H4) in Ho. injection Ho as <-. by eapply Hout. }
  destruct (reorder_result zero 0 n cap slab ids ((λ o : list (E * L), o.*1) <$> outs) p) as (slab' & Hrun & Hs' & Hl' & _ & Hrest);
    try done; [intros E0%(f_equal length); rewrite length_fmap, Hol in E0; by destruct ids|rewrite length_fmap; lia|by rewrite length_fmap|].
  exists slab', outs. split; [|split; [done|split; [done|split; [done|]]]].
  2:{ intros k row m tk idr H1 H2 H3 H4. split; [by apply Hok|].
      destruct (Hrest k row idr ((row_outputs (p + 1) (Z.of_nat n) row m tk idr).*1) H1 H4) as [rest Hr].
      - rewrite list_lookup_fmap, (Hok k row m tk idr) by done. done.
      - by exists rest. }
  unfold spec_inference_step. rewrite Hsl, get_bind. unfold select_past. destruct (mjoin ids) as [|z zs] eqn:Hz; [done|]. cbn [length Nat.eqb].
  unfold select_cache_without_reorder. rewrite Hmax, (sized_len cap) by done. rewrite (proj2 (Z.ltb_ge _ _)) by lia.
  rewrite lift_ok_bind. cbn [fst snd default from_option id].
  rewrite spec_rotary_generation by (rewrite ?Hz; done || lia). rewrite lift_ok_bind.
  rewrite (mapM_seq_Ok _ outs); [|lia|].
  2:{ intros k o Ho. apply lookup_lt_Some in Ho as Hk. destruct (Hrows k) as (row & m & tk & idr & H1 & H2 & H3 & H4); [lia|].
      rewrite (Hok k row m tk idr H1 H2 H3 H4) in Ho. injection Ho as <-. rewrite !list_lookup_fmap. unfold batch_rows, zlen.
      rewrite Nat2Z.id, drop_0, lookup_take_lt, H1, H2, H3, H4 by lia. done. }
  rewrite lift_ok_bind. assert (Hz' : zlen toks = zlen ((λ o : list (E * L), o.*1) <$> outs)).
  { unfold zlen. rewrite length_fmap. lia. }
  assert (Hdo : do_reorder_task zero ((λ o : list (E * L), o.*1) <$> outs) (Some ids) 0 (zlen toks) slab = (slab', Ok tt)).
  { unfold do_reorder_task. rewrite Hz'. change 0 with (Z.of_nat 0). by rewrite Hrun. }
  by rewrite (bind_ok _ _ _ _ _ Hdo).
Qed.
End server_round.
