(* ===== verification/SpecRounds.v ===== *)
(** * Rounds of speculative generation (models/llama/speculative_model.py)

    The state between two rounds, in the client and in the caches of the server, and what a round
    does to it: every sequence grows by greedy tokens of the target model and the state is again
    one the next round can start from. From that, the loop, and [generate] from a prompt. *)

From stdpp Require Import numbers base list sorting relations.
From Stdlib Require Import ZArith Lia ZifyBool.
From S2P Require Import Prelude SpecDecode SpecTree SpecCache SpecVerify SpecGenerate.

(** ** A round of the batch *)

Section batch.
Context {E L : Type} `{TM : TargetModel E L} `{TML : !TargetModelLaws E L} `{LO : LogitsOps L} (zero : E).
Hypothesis Hnz : ∀ es t r, t_all_zero (cell (TargetModel := TM) es t r).2 = false.

(** The state between two rounds: what the client keeps and what the slab of the server holds,
    for the sequences [ss] with trees of at most [T] drafted tokens. *)
Record coherent (contiguous : bool) (T : Z) (cap : nat) (slab : list (list E)) (st : gen_state)
    (ids : list (list Z)) (llms : list Z) (ss : list (list Z)) : Prop := mkCoherentState {
  c_first : is_first_iteration st = false;
  c_kept : kept_positions st = Some ids;
  c_llm : llm_generated_token st = Some llms;
  c_ids_len : length ids = length ss;
  c_llms_len : length llms = length ss;
  c_inputs_len : length (current_input_ids st) = length ss;
  c_ne : ss ≠ [];
  c_lens : SpecVerify.seq_lengths st = zlen <$> ss;
  c_inputs k s row : ss !! k = Some s → current_input_ids st !! k = Some row → take (length s) row = s;
  c_slab : sized cap slab;
  c_slab_len : (length ss ≤ length slab)%nat;
  c_rows k s idr row : ss !! k = Some s → ids !! k = Some idr → slab !! k = Some row → coherent_row contiguous s idr row;
  c_room k s idr : ss !! k = Some s → ids !! k = Some idr → Forall (λ p, p < zlen s + T) (valid_ids idr);
  c_last k s : ss !! k = Some s → llms !! k = last s;
}.

(** A drafter that answers with one tree per sequence, not all of them bare roots. *)
Definition good_trees (contiguous : bool) (T : Z) (n : nat) (trees : list SpeculativeTree) : Prop :=
  length trees = n ∧ Forall grown trees ∧ Exists (λ t, 1 < total_nodes t) trees ∧
  Forall (λ t, total_nodes t - 1 ≤ T) trees ∧ Forall (rotary_right (TM := TM) contiguous) trees.

Lemma valid_pad_row n l : Forall (λ p, 0 ≤ p) l → valid_ids (pad_row n l) = l.
Proof.
  intros Hl. unfold pad_row. rewrite valid_ids_app.
  assert (valid_ids (replicate (Z.to_nat (n - zlen l)) (-1)) = []) as ->.
  { induction (Z.to_nat (n - zlen l)) as [|k IH]; [done|]. rewrite replicate_S. unfold valid_ids in *.
    rewrite filter_cons_False by lia. exact IH. }
  rewrite app_nil_r. unfold valid_ids. induction Hl as [|p l Hp _ IH]; [done|]. by rewrite filter_cons_True, IH.
Qed.

Lemma max_length_le (rows : list (list Z)) k row : rows !! k = Some row → zlen row ≤ max_length rows.
Proof.
  intros Hr. unfold max_length. destruct (foldl_max_ge (zlen <$> rows) 0) as (_ & Hm & _). apply Hm.
  apply list_elem_of_fmap. exists row. split; [done|]. by eapply list_elem_of_lookup_2.
Qed.

Lemma take_pad_row n l : take (length l) (pad_row n l) = l.
Proof. unfold pad_row. by rewrite take_app_length. Qed.

(** The sequences after a round. *)
Definition extended (s : list Z) (x : extraction) : list Z := s ++ x_verified x ++ [x_llm_token x].

Definition verification_of (xs : list extraction) : verification :=
  mkVerification
    (if 0 <? max_length (x_verified <$> xs) then Some (pad_row (max_length (x_verified <$> xs)) ∘ x_verified <$> xs) else None)
    (pad_row (max_length (x_positions <$> xs)) ∘ x_positions <$> xs)
    (x_llm_token <$> xs) ((λ x, zlen (x_verified x)) <$> xs) (mjoin (x_checks <$> xs)).

Lemma extract_batch (logits : list (list L)) heaps paths inputs ps tl lens first xs :
  length xs = length logits → xs ≠ [] →
  (∀ k x, xs !! k = Some x → ∃ n l ns h, lens !! k = Some n ∧ logits !! k = Some l ∧ paths !! k = Some ns ∧
     heaps !! k = Some h ∧ extract_row h ns l (default [] (inputs !! k)) ps tl n first = Ok x) →
  extract_best_verified_paths_fixed logits heaps paths inputs ps tl lens first = Ok (verification_of xs).
Proof.
  intros Hl Hne Hx. unfold extract_best_verified_paths_fixed. rewrite (mapM_seq_Ok _ xs); [|done|].
  - cbn [mbind res_bind]. by destruct xs.
  - intros k x Hk. destruct (Hx k x Hk) as (n & l & ns & h & -> & -> & -> & -> & He). exact He.
Qed.

Lemma fit_cells_ok n (src : list Z) : zlen src = n → fit_cells n src = Ok src.
Proof. intros <-. unfold fit_cells. by rewrite Z.eqb_refl. Qed.

Lemma update_row_ok pad mx row s x n : take (length s) row = s → zlen (extended s x) ≤ mx →
  let v := if 0 <? n then Some (pad_row n (x_verified x)) else None in (n ≤ 0 → x_verified x = []) →
  update_row pad mx row v (x_llm_token x) (zlen (x_verified x)) (zlen s) =
    Ok (extended s x ++ replicate (Z.to_nat (mx - zlen (extended s x))) pad).
Proof.
  intros Hrow Hmx v Hn. unfold update_row. replace (Z.to_nat (zlen s)) with (length s) by (unfold zlen; lia).
  rewrite Hrow, fit_cells_ok by done. cbn [mbind res_bind].
  assert (Hadd : (match v with
      | Some v => if 0 <? zlen (x_verified x) then v' ← fit_cells (zlen (x_verified x)) (take (Z.to_nat (zlen (x_verified x))) v); Ok (v' ++ [x_llm_token x]) else Ok [x_llm_token x]
      | None => Ok [x_llm_token x] end) = Ok (x_verified x ++ [x_llm_token x])).
  { unfold v. destruct (Z.ltb_spec 0 n) as [Hn0|Hn0]; [|by rewrite (Hn Hn0)].
    replace (Z.to_nat (zlen (x_verified x))) with (length (x_verified x)) by (unfold zlen; lia).
    rewrite take_pad_row, fit_cells_ok by done. cbn [mbind res_bind].
    destruct (Z.ltb_spec 0 (zlen (x_verified x))) as [|H0]; [done|]. destruct (x_verified x); [done|]. unfold zlen in H0. cbn in H0. lia. }
  rewrite Hadd. cbn [mbind res_bind]. unfold extended. rewrite <- !(assoc_L (++)). do 5 f_equal.
  rewrite !zlen_app. lia.
Qed.

(** The new token ids hold the extended sequences. *)
Lemma update_batch pad inputs ss xs : length inputs = length ss → length xs = length ss → ss ≠ [] →
  (∀ k s row, ss !! k = Some s → inputs !! k = Some row → take (length s) row = s) →
  let v := verification_of xs in
  ∃ rows, update_input_ids_with_padding inputs (verified_tokens v) (llm_generated_tokens v) (valid_lengths v) (zlen <$> ss) pad =
      Ok (rows, zlen <$> zip_with extended ss xs) ∧ length rows = length ss ∧
    ∀ k s' row, zip_with extended ss xs !! k = Some s' → rows !! k = Some row → take (length s') row = s'.
Proof.
  intros Hli Hlx Hne Hrow v. unfold update_input_ids_with_padding. cbn [v verification_of verified_tokens llm_generated_tokens valid_lengths].
  assert (Hnew : zip_with (λ old_len v_len, old_len + (v_len + 1)) (zlen <$> ss) ((λ x, zlen (x_verified x)) <$> xs) =
    zlen <$> zip_with extended ss xs).
  { apply list_eq. intros k. rewrite list_lookup_fmap, !lookup_zip_with, !list_lookup_fmap.
    destruct (ss !! k) as [s|]; [|done]. destruct (xs !! k) as [x|]; [|done]. cbn. f_equal. unfold extended.
    rewrite !zlen_app. change (zlen [x_llm_token x]) with 1. lia. }
  rewrite Hnew. destruct (zlen <$> zip_with extended ss xs) as [|l ls] eqn:Hls.
  { destruct ss as [|s ss]; [done|]. destruct xs; done. }
  cbv zeta. set (mx := foldl Z.max l ls).
  assert (Hmx : ∀ k s x, ss !! k = Some s → xs !! k = Some x → zlen (extended s x) ≤ mx).
  { intros k s x Hs Hx. destruct (foldl_max_ge ls l) as (H1 & H2 & _).
    assert (zlen (extended s x) ∈ l :: ls) as [->|]%elem_of_cons; [|exact H1|by apply H2].
    rewrite <- Hls. apply list_elem_of_fmap. exists (extended s x). split; [done|].
    apply (list_elem_of_lookup_2 _ k). by rewrite lookup_zip_with, Hs, Hx. }
  exists ((λ s', s' ++ replicate (Z.to_nat (mx - zlen s')) pad) <$> zip_with extended ss xs). split; [|split].
  - rewrite (mapM_seq_Ok _ ((λ s', s' ++ replicate (Z.to_nat (mx - zlen s')) pad) <$> zip_with extended ss xs)); [done| |].
    { rewrite length_fmap, length_zip_with. lia. }
    intros k row'. rewrite list_lookup_fmap, lookup_zip_with.
    destruct (ss !! k) as [s|] eqn:Hs; [|done]. destruct (xs !! k) as [x|] eqn:Hx; [|done]. cbn. intros [= <-].
    destruct (lookup_lt_is_Some_2 inputs k) as [row Hr]; [apply lookup_lt_Some in Hs; lia|].
    rewrite Hr, !list_lookup_fmap, Hs, Hx. cbn [fmap option_fmap option_map of_option mbind res_bind].
    rewrite <- (update_row_ok pad mx row s x (max_length (x_verified <$> xs))); [|by eapply Hrow|by eapply Hmx|].
    + destruct (0 <? max_length (x_verified <$> xs)); [|done]. cbn [mbind res_bind]. rewrite list_lookup_fmap, Hx. done.
    + intros H0. pose proof (max_length_le (x_verified <$> xs) k (x_verified x)) as Hm.
      rewrite list_lookup_fmap, Hx in Hm. specialize (Hm eq_refl). destruct (x_verified x); [done|]. unfold zlen in Hm. cbn in Hm. lia.
  - rewrite length_fmap, length_zip_with. lia.
  - intros k s' row Hs' Hr. rewrite list_lookup_fmap, Hs' in Hr. cbn in Hr. injection Hr as <-. by rewrite take_app_length.
Qed.

(** One sequence, with the inputs and the mask the batch gives it. *)
Lemma batch_row contiguous a mx cl s idr row t m : ba_pad_token_id a = 0 →
  coherent_row contiguous s idr row → grown t → rotary_right (TM := TM) contiguous t → total_nodes t - 1 ≤ mx → 0 < mx →
  Forall (λ p, p < cl) (valid_ids idr) → cl ≤ zlen row →
  m_rows m = mx + 1 → m_cols m = cl + (mx + 1) →
  (∀ q c, 0 ≤ q ≤ mx → 0 ≤ c → m_at m q c = true ↔
    kept idr c ∨ (c = cl ∧ q ≤ zlen (linearize_tree_with_positions t).2.2) ∨
    (1 ≤ q ≤ zlen (linearize_tree_with_positions t).2.2 ∧ cl + 1 ≤ c ∧
     on_path (linearize_tree_with_positions t).2.2 (q - 1) (c - cl - 1))) →
  let outs := row_outputs cl (mx + 1) row m (default 0 (last s) :: tokens_of a mx t) idr in
  zlen outs = mx + 1 ∧ ∀ input_row,
    ∃ x, extract_row (nodes (linearize_tree_with_positions t).1) (leaf_paths_of a mx t) outs.*2 input_row [] mx (zlen s) false = Ok x ∧
      extended s x = s ++ greedy (S (length (x_verified x))) s ∧ last (extended s x) = Some (x_llm_token x) ∧
      zlen (x_verified x) ≤ total_nodes t - 1 ∧ Forall (λ p, 0 ≤ p < zlen s + (total_nodes t - 1)) (x_positions x) ∧
      ∀ ids' rest, valid_ids ids' = x_positions x →
        coherent_row contiguous (extended s x) ids'
          (take (Z.to_nat (default 0 (head (valid_ids idr)))) row ++ picks row (valid_ids idr) ++ outs.*1 ++ rest).
Proof.
  intros Hpad Hco Hg Hrr Hmx H0 Hcl Hclr Hr Hc Hm outs.
  destruct (lin_row t (grown_wf t Hg)) as (Hl1 & Hl2 & _). set (r := linearize_tree_with_positions t) in *.
  set (padding := replicate (Z.to_nat (mx - zlen ((λ n, token_id (nodes r.1 !!! n)) <$> r.2.1))) 0).
  assert (Htl : zlen ((λ n, token_id (nodes r.1 !!! n)) <$> r.2.1) = zlen r.2.1) by (unfold zlen; by rewrite length_fmap).
  assert (Hmxl : zlen r.2.1 + zlen padding = mx).
  { unfold padding. rewrite Htl. unfold zlen at 2. rewrite length_replicate. lia. }
  assert (Hs : ∃ ctx llm, s = ctx ++ [llm]).
  { destruct (exists_last_or_nil s) as [->|(ctx & llm & ->)]; [|eauto]. exfalso. pose proof (co_length _ _ _ _ Hco) as Hlen.
    unfold zlen in Hlen. cbn in Hlen. lia. }
  destruct Hs as (ctx & llm & ->).
  assert (Hmask : round_mask idr r.2.2 cl (zlen r.2.1 + zlen padding) (crop (mx + 1) (cl + (mx + 1)) m)).
  { rewrite Hmxl. split; [|split]; cbn; [lia|lia|exact Hm]. }
  assert (Ho : outs = run_blocks (take (Z.to_nat cl) row) (crop (mx + 1) (cl + (mx + 1)) m)
    (zip (llm :: ((λ n, token_id (nodes r.1 !!! n)) <$> r.2.1) ++ padding) (row_rotary idr (zlen r.2.1 + zlen padding + 1)))).
  { unfold outs, row_outputs. rewrite last_snoc, Hmxl. cbn [default from_option id]. unfold tokens_of, row_of. cbn [fst snd].
    fold r. rewrite Hpad. done. }
  split.
  - pose proof (row_outs contiguous ctx llm idr row t padding _ cl Hco Hg Hcl Hclr Hmask) as Hro. fold r in Hro.
    by rewrite <- Ho, Hmxl in Hro.
  - intros input_row. destruct (row_round Hnz contiguous ctx llm idr row t padding _ cl Hco Hg Hrr Hcl Hclr Hmask input_row)
      as (x & Hx & Hgr & Hv & Hp & Hco'). fold r in Hx, Hv, Hp, Hco'. rewrite <- Ho in Hx, Hco'. rewrite Hmxl in Hx.
    exists x. split; [exact Hx|]. split; [unfold extended; by rewrite Hgr|]. split; [unfold extended; by rewrite (assoc_L (++)), last_snoc|].
    split; [lia|]. split; [eapply Forall_impl; [exact Hp|]; intros p [? ?]; lia|]. exact Hco'.
Qed.

(** A list from a witness for each index. *)
Lemma choose_list {A} (P : nat → A → Prop) n : (∀ k, (k < n)%nat → ∃ x, P k x) →
  ∃ xs, length xs = n ∧ ∀ k x, xs !! k = Some x → P k x.
Proof.
  induction n as [|n IH]; intros Hp; [by exists []|]. destruct IH as (xs & Hl & Hxs); [intros; apply Hp; lia|].
  destruct (Hp n) as [y Hy]; [lia|]. exists (xs ++ [y]). split; [rewrite length_app; cbn; lia|]. intros k x.
  destruct (decide (k < n)%nat) as [Hk|Hk]; [rewrite lookup_app_l by lia; apply Hxs|].
  intros Hx. apply lookup_lt_Some in Hx as Hlt. rewrite length_app in Hlt. cbn in Hlt. assert (k = n) as -> by lia.
  rewrite lookup_app_r, Hl, Nat.sub_diag in Hx by lia. by injection Hx as <-.
Qed.

Section rounds.
Context (contiguous : bool) (T : Z) (cap : nat) (slab : list (list E)) (st : gen_state) (ids : list (list Z)) (llms : list Z)
  (ss : list (list Z)) (trees : list SpeculativeTree).
Hypotheses (Hco : coherent contiguous T cap slab st ids llms ss) (Htr : good_trees contiguous T (length ss) trees)
  (Hcap : ∀ s, s ∈ ss → zlen s + 2 * T + 1 ≤ Z.of_nat cap).

Let args : batch_args := mkBatchArgs (match current_input_ids st with row :: _ => zlen row | [] => 0 end) 0 (Some (SpecVerify.seq_lengths st))
  (is_first_iteration st) (kept_positions st).

(** What the server keeps of a sequence. *)
Lemma kept_row k idr : ids !! k = Some idr → ∃ s row, ss !! k = Some s ∧ slab !! k = Some row ∧ coherent_row contiguous s idr row.
Proof.
  intros Hi. destruct (lookup_lt_is_Some_2 ss k) as [s Hs]; [rewrite <- (c_ids_len _ _ _ _ _ _ _ _ Hco); by eapply lookup_lt_Some|].
  destruct (lookup_lt_is_Some_2 slab k) as [row Hr].
  { pose proof (c_slab_len _ _ _ _ _ _ _ _ Hco). apply lookup_lt_Some in Hs. lia. }
  exists s, row. split; [done|]. split; [done|]. by eapply (c_rows _ _ _ _ _ _ _ _ Hco).
Qed.

Lemma round_prepared : ∃ mx ms p, 0 < mx ≤ T ∧ length ms = length ss ∧ (∀ t, t ∈ trees → total_nodes t - 1 ≤ mx) ∧
  prepare_incremental_tree_batch trees args = Ok (fst ∘ linearize_tree_with_positions <$> trees,
    (tokens_of args mx <$> trees, Some ms, leaf_paths_of args mx <$> trees)) ∧
  Forall (λ l, zlen l = mx) (tokens_of args mx <$> trees) ∧
  max_valid ids = Some p ∧ 0 ≤ p ∧ p + 1 + (mx + 1) ≤ Z.of_nat cap ∧
  ∀ k t m idr, trees !! k = Some t → ms !! k = Some m → ids !! k = Some idr →
    m_rows m = mx + 1 ∧ m_cols m = p + 1 + (mx + 1) ∧
    ∀ q c, 0 ≤ q ≤ mx → 0 ≤ c → m_at m q c = true ↔
      kept idr c ∨ (c = p + 1 ∧ q ≤ zlen (linearize_tree_with_positions t).2.2) ∨
      (1 ≤ q ≤ zlen (linearize_tree_with_positions t).2.2 ∧ p + 1 + 1 ≤ c ∧
       on_path (linearize_tree_with_positions t).2.2 (q - 1) (c - (p + 1) - 1)).
Proof.
  destruct Htr as (Hlt & Hgr & Hex & HT & _). pose proof Hco as [Hfirst Hkept _ Hil _ _ Hne Hlens _ _ _ _ Hroom _].
  assert (Hex0 : ∀ k idr, ids !! k = Some idr → Exists (λ v, 0 ≤ v) idr).
  { intros k idr Hi. destruct (kept_row k idr Hi) as (s & row & _ & _ & Hcr). destruct (valid_ids idr) as [|v vs] eqn:Hv.
    - by destruct (co_ids _ _ _ _ Hcr).
    - assert (v ∈ valid_ids idr) as [Hin H0]%elem_valid by (rewrite Hv; by left). apply Exists_exists. eauto. }
  destruct (generation_batch trees args ids) as (mx & ms & (Hmx0 & Hmx1 & t0 & Ht0 & Hmx2) & Hms & Hprep & Htok & Hm).
  - eapply Forall_impl; [exact Hgr|]. intros t. apply grown_wf.
  - done.
  - done.
  - unfold seq_lengths_cover, args. cbn. rewrite Hlens, length_fmap, Hlt. lia.
  - done.
  - lia.
  - apply Forall_lookup. exact Hex0.
  - destruct (lookup_lt_is_Some_2 ids 0) as [idr Hi]; [rewrite Hil; destruct ss; [done|cbn; lia]|].
    destruct (max_valid ids) as [p|] eqn:Hp.
    2:{ exfalso. specialize (Hex0 0%nat idr Hi). apply Exists_exists in Hex0 as (v & Hv & H0).
        unfold max_valid in Hp. destruct (valid_ids (mjoin ids)) eqn:Hj; [|done].
        assert (v ∈ valid_ids (mjoin ids)) as Hin.
        { apply elem_mjoin_valid. exists idr. split; [by eapply list_elem_of_lookup_2|]. by apply elem_valid. }
        rewrite Hj in Hin. by apply not_elem_of_nil in Hin. }
    assert (Hcl : cache_len_of args = p + 1).
    { unfold cache_len_of, args. cbn. rewrite Hkept, Hfirst. unfold max_valid, valid_ids in Hp.
      destruct (filter _ (mjoin ids)); [done|]. by injection Hp as ->. }
    apply max_valid_Some in Hp as Hps. destruct Hps as [(r & Hr & Hpr) _].
    apply list_elem_of_lookup in Hr as (j & Hj). destruct (kept_row j r Hj) as (s & row & Hs & _ & _).
    pose proof (Hroom j s r Hs Hj) as Hrm. rewrite Forall_forall in Hrm. specialize (Hrm p Hpr). cbn in Hrm.
    specialize (Hcap s ltac:(by eapply list_elem_of_lookup_2)). apply elem_valid in Hpr as [_ Hp0].
    rewrite Forall_forall in HT. specialize (HT t0 Ht0). cbn in HT.
    exists mx, ms, p. split; [lia|]. split; [lia|]. split; [exact Hmx1|]. split; [exact Hprep|]. split; [exact Htok|]. split; [done|].
    split; [done|]. split; [lia|]. intros k t m idr' Ht Hmk Hik. specialize (Hm k t m idr' Ht Hmk Hik). cbv zeta in Hm.
    rewrite Hcl in Hm. exact Hm.
Qed.

(** The outputs of a row of the batch, and what its extraction gives. *)
Definition outs_of (mx p : Z) s t m idr row : list (E * L) :=
  row_outputs (p + 1) (mx + 1) row m (default 0 (last s) :: tokens_of args mx t) idr.

Record row_facts (mx p : Z) (s : list Z) (t : SpeculativeTree) (m : mask) (idr : list Z) (row : list E) (input_row : list Z)
    (x : extraction) : Prop := mkRowFacts {
  rf_extract : extract_row (nodes (linearize_tree_with_positions t).1) (leaf_paths_of args mx t)
    (outs_of mx p s t m idr row).*2 input_row [] mx (zlen s) false = Ok x;
  rf_greedy : extended s x = s ++ greedy (Datatypes.S (length (x_verified x))) s;
  rf_last : last (extended s x) = Some (x_llm_token x);
  rf_verified : zlen (x_verified x) ≤ T;
  rf_positions : Forall (λ q, 0 ≤ q < zlen s + T) (x_positions x);
  rf_cache ids' rest : valid_ids ids' = x_positions x → coherent_row contiguous (extended s x) ids'
    (take (Z.to_nat (default 0 (head (valid_ids idr)))) row ++ picks row (valid_ids idr) ++ (outs_of mx p s t m idr row).*1 ++ rest);
}.

(** The masks of the batch. *)
Definition masks_ok (mx p : Z) (ms : list mask) : Prop :=
  ∀ k t m idr, trees !! k = Some t → ms !! k = Some m → ids !! k = Some idr →
    m_rows m = mx + 1 ∧ m_cols m = p + 1 + (mx + 1) ∧
    ∀ q c, 0 ≤ q ≤ mx → 0 ≤ c → m_at m q c = true ↔
      kept idr c ∨ (c = p + 1 ∧ q ≤ zlen (linearize_tree_with_positions t).2.2) ∨
      (1 ≤ q ≤ zlen (linearize_tree_with_positions t).2.2 ∧ p + 1 + 1 ≤ c ∧
       on_path (linearize_tree_with_positions t).2.2 (q - 1) (c - (p + 1) - 1)).

Lemma round_row mx (ms : list mask) p : 0 < mx ≤ T → (∀ t, t ∈ trees → total_nodes t - 1 ≤ mx) → max_valid ids = Some p → 0 ≤ p →
  p + 1 + (mx + 1) ≤ Z.of_nat cap → masks_ok mx p ms →
  ∀ k s t m idr row, ss !! k = Some s → trees !! k = Some t → ms !! k = Some m → ids !! k = Some idr → slab !! k = Some row →
    zlen (outs_of mx p s t m idr row) = mx + 1 ∧ ∀ input_row, ∃ x, row_facts mx p s t m idr row input_row x.
Proof.
  intros Hmx Hle Hp Hp0 Hpc Hm k s t m idr row Hs Ht Hmk Hi Hr.
  destruct Htr as (Hlt & Hgr & _ & HT & Hrr). pose proof (list_elem_of_lookup_2 _ _ _ Ht) as Hin.
  rewrite Forall_forall in Hgr, HT, Hrr. destruct (Hm k t m idr Ht Hmk Hi) as (M1 & M2 & M3).
  pose proof (c_rows _ _ _ _ _ _ _ _ Hco k s idr row Hs Hi Hr) as Hcr.
  assert (Hrl : zlen row = Z.of_nat cap).
  { pose proof (c_slab _ _ _ _ _ _ _ _ Hco) as Hsz. unfold sized in Hsz. rewrite Forall_lookup in Hsz. unfold zlen. by rewrite (Hsz k row Hr). }
  destruct (batch_row contiguous args mx (p + 1) s idr row t m eq_refl Hcr (Hgr t Hin) (Hrr t Hin)
    (Hle t Hin) ltac:(lia)) as [H1 H2]; [|lia|exact M1|exact M2|exact M3|].
  { apply max_valid_Some in Hp as [_ Hmax]. apply Forall_forall. intros q Hq.
    pose proof (Hmax idr q ltac:(by eapply list_elem_of_lookup_2) Hq). cbn. lia. }
  split; [exact H1|]. intros input_row. destruct (H2 input_row) as (x & Hx & Hg & Hl & Hv & Hpos & Hnew).
  specialize (HT t Hin). cbn in HT. exists x. split; [exact Hx|exact Hg|exact Hl|lia| |exact Hnew].
  eapply Forall_impl; [exact Hpos|]; intros q [? ?]; lia.
Qed.

(** The sequences before the round, their kept positions as the server sees them. *)
Lemma round_sorted : Forall (λ idr, StronglySorted Z.lt (valid_ids idr)) ids.
Proof.
  apply Forall_lookup. intros k idr Hi. destruct (kept_row k idr Hi) as (s & row & _ & _ & Hcr).
  pose proof (co_sorted _ _ _ _ Hcr) as Hso. unfold kept_columns in Hso. by apply StronglySorted_app in Hso as (_ & _ & ?).
Qed.

Section served.
Context (mx p : Z) (ms : list mask).
Hypotheses (Hmx : 0 < mx ≤ T) (Hms : length ms = length ss) (Hle : ∀ t, t ∈ trees → total_nodes t - 1 ≤ mx)
  (Htok : Forall (λ l, zlen l = mx) (tokens_of args mx <$> trees)) (Hp : max_valid ids = Some p) (Hp0 : 0 ≤ p)
  (Hpc : p + 1 + (mx + 1) ≤ Z.of_nat cap) (Hmask : masks_ok mx p ms).

Let toks : list (list Z) := zip_with (λ t tree, t :: tree) llms (tokens_of args mx <$> trees).

Lemma round_at k : (k < length ss)%nat → ∃ s t m idr row, ss !! k = Some s ∧ trees !! k = Some t ∧ ms !! k = Some m ∧
  ids !! k = Some idr ∧ slab !! k = Some row ∧ toks !! k = Some (default 0 (last s) :: tokens_of args mx t).
Proof.
  intros Hk. destruct Htr as (Hlt & _). pose proof Hco as [_ _ _ Hil Hll _ _ _ _ _ Hsll _ _ Hlast].
  destruct (lookup_lt_is_Some_2 ss k) as [s Hs]; [lia|]. destruct (lookup_lt_is_Some_2 trees k) as [t Ht]; [lia|].
  destruct (lookup_lt_is_Some_2 ms k) as [m Hm]; [lia|]. destruct (lookup_lt_is_Some_2 ids k) as [idr Hi]; [lia|].
  destruct (lookup_lt_is_Some_2 slab k) as [row Hr]; [lia|]. exists s, t, m, idr, row. do 5 (split; [done|]).
  unfold toks. rewrite lookup_zip_with, list_lookup_fmap, Ht. pose proof (Hlast k s Hs) as Hl.
  destruct (lookup_lt_is_Some_2 llms k) as [l Hlk]; [lia|]. rewrite Hlk in Hl |- *. cbn. by rewrite <- Hl.
Qed.

Lemma toks_length : length toks = length ss.
Proof.
  destruct Htr as (Hlt & _). unfold toks. rewrite length_zip_with, length_fmap, (c_llms_len _ _ _ _ _ _ _ _ Hco). lia.
Qed.

Lemma round_served prefill : ∃ slab' outs, spec_inference_step zero prefill 0 (Some ids) toks ms slab =
    (slab', Ok ((λ o : list (E * L), o.*2) <$> outs)) ∧ length outs = length ss ∧ sized cap slab' ∧ length slab' = length slab ∧
  ∀ k s t m idr row, ss !! k = Some s → trees !! k = Some t → ms !! k = Some m → ids !! k = Some idr → slab !! k = Some row →
    outs !! k = Some (outs_of mx p s t m idr row) ∧
    ∃ rest, slab' !! k = Some (take (Z.to_nat (default 0 (head (valid_ids idr)))) row ++ picks row (valid_ids idr) ++
      (outs_of mx p s t m idr row).*1 ++ rest).
Proof.
  pose proof Hco as [_ _ _ Hil _ _ Hne _ _ Hslab Hsll _ _ _]. pose proof toks_length as Htl.
  assert (Hn : Z.of_nat (Z.to_nat (mx + 1)) = mx + 1) by lia.
  destruct (server_round zero (Z.to_nat (mx + 1)) cap prefill 0 slab ids toks ms p) as (slab' & outs & Hsrv & Hol & Hs' & Hl' & Houts);
    rewrite ?Hn in *; [by destruct ids, ss|lia|lia|lia| |done|lia|done|lia|apply round_sorted| |].
  - apply Forall_lookup. intros k tk Htk. destruct (round_at k) as (s & t & m & idr & row & _ & Ht & _ & _ & _ & Hk).
    { apply lookup_lt_Some in Htk. lia. }
    rewrite Htk in Hk. injection Hk as ->. rewrite Forall_forall in Htok. cbn [length].
    specialize (Htok (tokens_of args mx t) ltac:(apply list_elem_of_fmap; exists t; split; [done|by eapply list_elem_of_lookup_2])).
    unfold zlen in Htok. lia.
  - intros k row m tk idr Hr Hm Htk Hi. destruct (round_at k) as (s & t & m' & idr' & row' & Hs & Ht & Hm' & Hi' & Hr' & Hk).
    { apply lookup_lt_Some in Htk. lia. }
    simplify_eq. destruct (round_row mx ms p Hmx Hle Hp Hp0 Hpc Hmask k s t m idr row Hs Ht Hm Hi Hr) as [Ho _].
    unfold outs_of, zlen in Ho. lia.
  - exists slab', outs. split; [done|]. split; [lia|]. split; [done|]. split; [done|]. intros k s t m idr row Hs Ht Hm Hi Hr.
    destruct (round_at k) as (s' & t' & m' & idr' & row' & Hs'' & Ht' & Hm' & Hi' & Hr' & Hk); [by eapply lookup_lt_Some|].
    simplify_eq. destruct (Houts k row m _ idr Hr Hm Hk Hi) as (H1 & rest & H2). split; [exact H1|]. exists rest. rewrite H2.
    destruct (kept_row k idr Hi) as (? & ? & _ & _ & Hcr). pose proof (co_ids _ _ _ _ Hcr) as Hne'.
    by destruct (valid_ids idr).
Qed.
End served.

(** The call of a round, and what is extracted from it. *)
Lemma round_verified cfg unmasked prefill : logits_processors cfg = [] → use_kv_cache cfg = true →
  ∃ slab' xs, verify_trees_with_forward (session_forward zero unmasked prefill) cfg st trees slab =
      (slab', Ok (verification_of xs)) ∧
    length xs = length ss ∧ sized cap slab' ∧ length slab' = length slab ∧
    ∀ k s x, ss !! k = Some s → xs !! k = Some x →
      extended s x = s ++ greedy (Datatypes.S (length (x_verified x))) s ∧ last (extended s x) = Some (x_llm_token x) ∧
      zlen (x_verified x) ≤ T ∧ Forall (λ q, 0 ≤ q < zlen s + T) (x_positions x) ∧
      ∃ row', slab' !! k = Some row' ∧ ∀ ids', valid_ids ids' = x_positions x → coherent_row contiguous (extended s x) ids' row'.
Proof.
  intros Hps Huse. destruct round_prepared as (mx & ms & p & Hmx & Hms & Hle & Hprep & Htok & Hp & Hp0 & Hpc & Hmask).
  pose proof Hco as [Hfirst Hkept Hllm Hil Hll Hinl Hne Hlens _ _ _ _ _ _]. pose proof Htr as (Hlt & _).
  destruct (round_served mx p ms Hmx Hms Hle Htok Hp Hp0 Hpc Hmask prefill) as (slab' & outs & Hsrv & Hol & Hs' & Hl' & Houts).
  pose proof (round_row mx ms p Hmx Hle Hp Hp0 Hpc Hmask) as Hrow.
  destruct (choose_list (λ k x, ∀ s t m idr row, ss !! k = Some s → trees !! k = Some t → ms !! k = Some m →
      ids !! k = Some idr → slab !! k = Some row → row_facts mx p s t m idr row (default [] (current_input_ids st !! k)) x) (length ss))
    as (xs & Hxl & Hxs).
  { intros k Hk. destruct (round_at mx ms Hms k Hk) as (s & t & m & idr & row & H1 & H2 & H3 & H4 & H5 & _).
    destruct (Hrow k s t m idr row H1 H2 H3 H4 H5) as [_ Hx]. destruct (Hx (default [] (current_input_ids st !! k))) as [x Hrf].
    exists x. intros. by simplify_eq. }
  exists slab', xs. split; [|split; [done|split; [done|split; [done|]]]].
  2:{ intros k s x Hs Hx. destruct (round_at mx ms Hms k) as (s' & t & m & idr & row & H1 & H2 & H3 & H4 & H5 & _).
      { by eapply lookup_lt_Some. }
      rewrite Hs in H1. injection H1 as <-. destruct (Hxs k x Hx s t m idr row Hs H2 H3 H4 H5) as [_ R1 R2 R3 R4 R5].
      destruct (Houts k s t m idr row Hs H2 H3 H4 H5) as (_ & rest & Hr). do 4 (split; [done|]). eexists. split; [exact Hr|].
      intros ids' Hv. by apply R5. }
  unfold verify_trees_with_forward. fold args. rewrite Hprep, lift_ok_bind.
  assert (Htl : match tokens_of args mx <$> trees with row :: _ => zlen row | [] => 0 end = mx).
  { destruct trees as [|t ts]; [destruct ss; done|]. apply Forall_inv in Htok. exact Htok. }
  rewrite Htl, (proj2 (Z.eqb_neq mx 0)), Huse, Hfirst, Hllm by lia. cbn [negb]. cbv zeta. unfold model_call.
  rewrite Hkept. cbn [session_forward]. rewrite (bind_ok _ _ _ _ _ Hsrv). unfold lift. f_equal. rewrite Hps.
  apply extract_batch; [rewrite length_fmap; lia|intros ->; destruct ss; done|].
  intros k x Hx. destruct (round_at mx ms Hms k) as (s & t & m & idr & row & H1 & H2 & H3 & H4 & H5 & _).
  { apply lookup_lt_Some in Hx. lia. }
  destruct (Houts k s t m idr row H1 H2 H3 H4 H5) as (Ho & _).
  exists (zlen s), (outs_of mx p s t m idr row).*2, (leaf_paths_of args mx t), (nodes (linearize_tree_with_positions t).1).
  rewrite Hlens, !list_lookup_fmap, H1, H2, Ho. do 4 (split; [done|]).
  by apply (Hxs k x Hx s t m idr row H1 H2 H3 H4 H5).
Qed.

(** A round: every sequence is extended by greedy tokens and the state stays coherent. *)
Lemma round_ok cfg unmasked prefill : drafter cfg (current_input_ids st) (SpecVerify.seq_lengths st) = trees →
  logits_processors cfg = [] → has_eos_stopping_criteria cfg = false → use_kv_cache cfg = true →
  ∃ slab' st' ids' llms' ns, spec_iteration (session_forward zero unmasked prefill) cfg st slab = (slab', Ok st') ∧
    length ns = length ss ∧ Forall (λ n, (1 ≤ n)%nat ∧ Z.of_nat n ≤ T + 1) ns ∧
    coherent contiguous T cap slab' st' ids' llms' (zip_with (λ s n, s ++ greedy n s) ss ns).
Proof.
  intros Hdr Hps Heos Huse. destruct (round_verified cfg unmasked prefill Hps Huse) as (slab' & xs & Hver & Hxl & Hs' & Hl' & Hxs).
  pose proof Hco as [_ _ _ _ _ Hinl Hne Hlens Hins _ Hsll _ _ _].
  destruct (update_batch (pad_token_id cfg) (current_input_ids st) ss xs Hinl Hxl Hne Hins) as (rows & Hup & Hrl & Hrows).
  set (ns := (λ x, Datatypes.S (length (x_verified x))) <$> xs).
  assert (Hss : zip_with (λ s n, s ++ greedy n s) ss ns = zip_with extended ss xs).
  { apply list_eq. intros k. unfold ns. rewrite !lookup_zip_with, list_lookup_fmap.
    destruct (ss !! k) as [s|] eqn:Hs; [|done]. destruct (xs !! k) as [x|] eqn:Hx; [|done]. cbn. f_equal.
    by destruct (Hxs k s x Hs Hx) as [-> _]. }
  eexists slab', _, ((λ x, pad_row (max_length (x_positions <$> xs)) (x_positions x)) <$> xs), (x_llm_token <$> xs), ns.
  split; [|split; [|split]].
  - unfold spec_iteration. rewrite Hdr, (bind_ok _ _ _ _ _ Hver). unfold if_eos. rewrite Heos.
    replace ((λ rows : list (list Z), rows) <$> verified_tokens (verification_of xs)) with (verified_tokens (verification_of xs))
      by (by destruct (verified_tokens _)).
    rewrite Hlens, Hup, lift_ok_bind. reflexivity.
  - unfold ns. by rewrite length_fmap.
  - unfold ns. apply Forall_fmap, Forall_lookup. intros k x Hx. destruct (lookup_lt_is_Some_2 ss k) as [s Hs].
    { apply lookup_lt_Some in Hx. lia. }
    destruct (Hxs k s x Hs Hx) as (_ & _ & Hv & _). unfold zlen in Hv. cbn. lia.
  - rewrite Hss. 
    assert (Hat : ∀ k s', zip_with extended ss xs !! k = Some s' → ∃ s x, ss !! k = Some s ∧ xs !! k = Some x ∧ s' = extended s x).
    { intros k s'. rewrite lookup_zip_with. destruct (ss !! k) as [s|]; [|done]. destruct (xs !! k) as [x|]; [|done]. cbn.
      intros [= <-]. eauto. }
    assert (Hvp : ∀ k s x, ss !! k = Some s → xs !! k = Some x →
      valid_ids (pad_row (max_length (x_positions <$> xs)) (x_positions x)) = x_positions x).
    { intros k s x Hs Hx. apply valid_pad_row. destruct (Hxs k s x Hs Hx) as (_ & _ & _ & Hp & _).
      eapply Forall_impl; [exact Hp|]. intros q [? ?]; done. }
    split; cbn [SpecVerify.is_first_iteration kept_positions SpecVerify.llm_generated_token current_input_ids SpecVerify.seq_lengths fst snd];
      rewrite ?length_fmap, ?length_zip_with; try done; try lia.
    + by destruct ss, xs.
    + intros k s' idr row (s & x & Hs & Hx & ->)%Hat Hi Hr. rewrite list_lookup_fmap, Hx in Hi. injection Hi as <-.
      destruct (Hxs k s x Hs Hx) as (_ & _ & _ & _ & row' & Hr' & Hc). rewrite Hr' in Hr. injection Hr as <-.
      apply Hc. by eapply Hvp.
    + intros k s' idr (s & x & Hs & Hx & ->)%Hat Hi. rewrite list_lookup_fmap, Hx in Hi. injection Hi as <-.
      rewrite (Hvp k s x Hs Hx). destruct (Hxs k s x Hs Hx) as (_ & _ & _ & Hp & _).
      eapply Forall_impl; [exact Hp|]. intros q [_ Hq]. unfold extended. rewrite zlen_app. pose proof (zlen_nonneg (x_verified x ++ [x_llm_token x])). cbn. lia.
    + intros k s' (s & x & Hs & Hx & ->)%Hat. rewrite list_lookup_fmap, Hx. by destruct (Hxs k s x Hs Hx) as (_ & -> & _).
Qed.
End rounds.

(** ** The loop *)

Section loop.
Context (contiguous : bool) (T : Z) (cap : nat) (cfg : @gen_config L) (initial_len : Z).

(** What the loop needs of its configuration: a drafter of good trees, and plain greedy decoding. *)
Record greedy_config : Prop := mkGreedyConfig {
  gc_drafts inputs lens : lens ≠ [] → Forall2 (λ (row : list Z) n, 0 < n ≤ zlen row) inputs lens → good_trees contiguous T (length lens) (drafter cfg inputs lens);
  gc_processors : logits_processors cfg = [];
  gc_eos : has_eos_stopping_criteria cfg = false;
  gc_cache : use_kv_cache cfg = true;
}.
Hypothesis Hcfg : greedy_config.

Lemma keep_going_spec st (ss : list (list Z)) : SpecVerify.seq_lengths st = zlen <$> ss → ss ≠ [] →
  keep_going cfg initial_len false st = Ok true ∧ (∃ s, s ∈ ss ∧ zlen s - initial_len < max_new_tokens cfg) ∨
  keep_going cfg initial_len false st = Ok false ∧ Forall (λ s, initial_len + max_new_tokens cfg ≤ zlen s) ss.
Proof.
  intros Hl Hne. unfold keep_going. rewrite Hl. destruct ss as [|s ss]; [done|]. rewrite fmap_cons.
  assert (Hmin : ∀ (l : list Z) a, (∃ x, x ∈ a :: l ∧ x = foldl Z.min a l) ∧ ∀ x, x ∈ a :: l → foldl Z.min a l ≤ x).
  { induction l as [|y l IH]; intros a; cbn [foldl]; [split; [exists a; split; [by left|done]|intros x [->|[]%not_elem_of_nil]%elem_of_cons; lia]|].
    destruct (IH (Z.min a y)) as ((z & Hz & Hze) & Hle). split.
    - exists z. split; [|done]. apply elem_of_cons in Hz as [->|Hz]; [|by do 2 right].
      destruct (Z.min_spec a y) as [[_ ->]|[_ ->]]; [by left|by right; left].
    - intros x Hx. pose proof (Hle (Z.min a y) ltac:(by left)) as H1. apply elem_of_cons in Hx as [->|Hx]; [lia|].
      apply elem_of_cons in Hx as [->|Hx]; [lia|]. apply Hle. by right. }
  destruct (Hmin (zlen <$> ss) (zlen s)) as ((x & Hx & Hxe) & Hle). rewrite <- fmap_cons in Hx, Hle.
  destruct (Z.ltb_spec (foldl Z.min (zlen s) (zlen <$> ss) - initial_len) (max_new_tokens cfg)) as [Hlt|Hge]; [left|right]; split; try done.
  - apply list_elem_of_fmap in Hx as (s' & -> & Hin). exists s'. split; [done|]. by rewrite Hxe.
  - apply Forall_forall. intros s' Hin. specialize (Hle (zlen s') ltac:(by apply list_elem_of_fmap; exists s')). cbn. lia.
Qed.

Lemma greedy_again ss (ns ns' : list nat) : length ns = length ss →
  zip_with (λ s n, s ++ greedy n s) (zip_with (λ s n, s ++ greedy n s) ss ns) ns' =
  zip_with (λ s n, s ++ greedy n s) ss (zip_with Nat.add ns ns').
Proof.
  revert ns ns'. induction ss as [|s ss IH]; intros [|n ns] [|n' ns'] Hl; try done. cbn in *. injection Hl as Hl.
  rewrite IH by done. f_equal. rewrite greedy_add. by rewrite (assoc_L (++)).
Qed.

(** The rows hold the sequences. *)
Lemma coherent_rows_long slab st ids llms ss : coherent contiguous T cap slab st ids llms ss →
  Forall2 (λ (row : list Z) n, 0 < n ≤ zlen row) (current_input_ids st) (zlen <$> ss).
Proof using.
  intros Hco. apply Forall2_same_length_lookup_2; [rewrite length_fmap; apply Hco|]. intros k row n Hrow Hn.
  rewrite list_lookup_fmap in Hn. destruct (ss !! k) as [s|] eqn:Hs; [|done]. injection Hn as <-.
  pose proof (c_inputs _ _ _ _ _ _ _ _ Hco k s row Hs Hrow) as Ht. apply lookup_lt_Some in Hs as Hlt.
  pose proof Hco as [_ _ _ Hil _ _ _ _ _ _ Hsl _ _ _].
  destruct (lookup_lt_is_Some_2 ids k) as [idr Hi]; [lia|]. destruct (lookup_lt_is_Some_2 slab k) as [r Hr]; [lia|].
  pose proof (co_length _ _ _ _ (c_rows _ _ _ _ _ _ _ _ Hco k s idr r Hs Hi Hr)). pose proof (zlen_nonneg (kept_columns idr)).
  split; [lia|]. apply (f_equal length) in Ht. rewrite length_take in Ht. unfold zlen. lia.
Qed.

Lemma spec_loop_ok unmasked prefill fuel : ∀ finished slab st ids llms ss,
  coherent contiguous T cap slab st ids llms ss → (finished = true → forallb negb (unfinished_sequences st) = true) →
  (∀ s, s ∈ ss → zlen s + Z.of_nat fuel * (T + 1) + 2 * T + 1 ≤ Z.of_nat cap) →
  (∀ s, s ∈ ss → initial_len + max_new_tokens cfg - zlen s ≤ Z.of_nat fuel) →
  ∃ slab' st' ids' llms' ns, spec_loop (session_forward zero unmasked prefill) fuel cfg initial_len finished st slab = (slab', Ok st') ∧
    length ns = length ss ∧ coherent contiguous T cap slab' st' ids' llms' (zip_with (λ s n, s ++ greedy n s) ss ns) ∧
    (Forall (λ s, initial_len + max_new_tokens cfg ≤ zlen s) (zip_with (λ s n, s ++ greedy n s) ss ns) ∨
     forallb negb (unfinished_sequences st') = true).
Proof.
  assert (Hzero : ∀ ss : list (list Z), zip_with (λ s n, s ++ greedy n s) ss (replicate (length ss) 0%nat) = ss).
  { induction ss as [|s ss IH]; [done|]. cbn. rewrite app_nil_r. by f_equal. }
  induction fuel as [|fuel IH]; intros finished slab st ids llms ss Hco Hfin Hroom Hfuel.
  all: destruct finished; [exists slab, st, ids, llms, (replicate (length ss) 0%nat); rewrite Hzero, length_replicate; by eauto 6|].
  all: destruct (keep_going_spec st ss (c_lens _ _ _ _ _ _ _ _ Hco) (c_ne _ _ _ _ _ _ _ _ Hco)) as [[Hk (s & Hs & Hlt)]|[Hk Hall]];
    cbn [spec_loop]; rewrite Hk, lift_ok_bind; cbn [negb];
    [|exists slab, st, ids, llms, (replicate (length ss) 0%nat); rewrite Hzero, length_replicate; by eauto 6].
  { specialize (Hfuel s Hs). lia. }
  assert (Hne : ss ≠ []) by apply Hco.
  assert (Htr : good_trees contiguous T (length ss) (drafter cfg (current_input_ids st) (SpecVerify.seq_lengths st))).
  { pose proof (gc_drafts Hcfg (current_input_ids st) (SpecVerify.seq_lengths st)) as Hd.
    rewrite (c_lens _ _ _ _ _ _ _ _ Hco), length_fmap in Hd. rewrite (c_lens _ _ _ _ _ _ _ _ Hco). apply Hd; [by destruct ss|].
    by apply (coherent_rows_long slab st ids llms). }
  assert (HT : 0 ≤ T).
  { destruct Htr as (_ & _ & Hex & HTt & _). apply Exists_exists in Hex as (t & Ht & H1). rewrite Forall_forall in HTt.
    specialize (HTt t Ht). cbn in HTt. lia. }
  destruct (round_ok contiguous T cap slab st ids llms ss _ Hco Htr) with (cfg := cfg) (unmasked := unmasked) (prefill := prefill)
    as (slab1 & st1 & ids1 & llms1 & ns1 & Hit & Hn1 & Hns1 & Hco1); [|done|apply Hcfg..|].
  { intros s' Hs'. specialize (Hroom s' Hs'). nia. }
  assert (Hgrow : ∀ s1, s1 ∈ zip_with (λ s n, s ++ greedy n s) ss ns1 → ∃ s0, s0 ∈ ss ∧ zlen s0 + 1 ≤ zlen s1 ≤ zlen s0 + (T + 1)).
  { intros s1 (k & Hk1)%list_elem_of_lookup. rewrite lookup_zip_with in Hk1. destruct (ss !! k) as [s0|] eqn:Hs0; [|done].
    destruct (ns1 !! k) as [n|] eqn:Hn; [|done]. cbn in Hk1. injection Hk1 as <-. exists s0. split; [by eapply list_elem_of_lookup_2|].
    rewrite Forall_lookup in Hns1. destruct (Hns1 k n Hn). assert (zlen (greedy n s0) = Z.of_nat n) by (unfold zlen; by rewrite greedy_length). rewrite zlen_app. lia. }
  destruct (IH (forallb negb (unfinished_sequences st1)) slab1 st1 ids1 llms1 _ Hco1)
    as (slab2 & st2 & ids2 & llms2 & ns2 & Hl & Hn2 & Hco2 & Hend); [done| | |].
  - intros s1 (s0 & Hs0 & Hle)%Hgrow. specialize (Hroom s0 Hs0). lia.
  - intros s1 (s0 & Hs0 & Hle)%Hgrow. specialize (Hfuel s0 Hs0). lia.
  - rewrite (greedy_again ss ns1 ns2 Hn1) in Hco2, Hend. exists slab2, st2, ids2, llms2, (zip_with Nat.add ns1 ns2).
    split; [by rewrite (bind_ok _ _ _ _ _ Hit)|]. split; [|done]. rewrite length_zip_with. rewrite length_zip_with in Hn2. lia.
Qed.

(** What is read off a coherent state. *)
Lemma coherent_inputs slab st ids llms ss (ns : list nat) : length ns = length ss →
  coherent contiguous T cap slab st ids llms (zip_with (λ s n, s ++ greedy n s) ss ns) →
  ∀ k s n, ss !! k = Some s → ns !! k = Some n →
    ∃ row, current_input_ids st !! k = Some row ∧ take (length s + n) row = s ++ greedy n s.
Proof.
  intros Hn Hco k s n Hs Hk. assert (Hz : zip_with (λ s n, s ++ greedy n s) ss ns !! k = Some (s ++ greedy n s)).
  { by rewrite lookup_zip_with, Hs, Hk. }
  destruct (lookup_lt_is_Some_2 (current_input_ids st) k) as [row Hr].
  { rewrite (c_inputs_len _ _ _ _ _ _ _ _ Hco). by eapply lookup_lt_Some. }
  exists row. split; [done|]. pose proof (c_inputs _ _ _ _ _ _ _ _ Hco k _ _ Hz Hr) as Ht.
  by rewrite length_app, greedy_length in Ht.
Qed.
End loop.
End batch.
