(* ===== verification/SpecDrafter.v ===== *)
(** * The drafter of speculative generation (models/llama/spec_decoding_drafter.py)

    Which draft model belongs to a target, and the trees it drafts: the sequences of a batch are
    split over workers; a worker runs the prefixes of its sequences once and then, depth by depth,
    the root paths of the frontier of all its trees in one left-padded batch with masks.

    The draft model, [torch.topk] and the softmax are parameters. The threads of a call write
    disjoint cells of the result, in an order that is a parameter of the definition. An
    exception in a worker leaves the cells of its sequences empty. *)

From stdpp Require Import numbers base strings list.
From Stdlib Require Import ZArith Lia ZifyBool.
From S2P Require Import Prelude Dict PyStr Floats SpecDecode SpecTree.
Notation depth := SpecTree.depth.

(** ** Which draft model *)

Definition DEFAULT_DRAFTER : string := "JackFram/llama-160m".
Definition DRAFTER_REGISTRY : dict string (list string) := [
  ("llama", ["JackFram/llama-160m"; "JackFram/llama-68m"]);
  ("llama3", ["meta-llama/Llama-3.2-1B-Instruct"; "meta-llama/Llama-3.2-1B"]);
  ("qwen3", ["Qwen/Qwen3-0.6B"; "Qwen/Qwen3-1.7B"]);
  ("qwen3_moe", ["Qwen/Qwen3-0.6B"; "Qwen/Qwen3-1.7B"]);
  ("bloom", ["bigscience/bloom-560m"; "bigscience/bloom-1b1"]);
  ("falcon", ["tiiuae/Falcon3-1B-Instruct"; "tiiuae/falcon-rw-1b"]);
  ("mixtral", ["mistralai/Mistral-7B-v0.3"]);
  ("gemma4", [DEFAULT_DRAFTER])]%string.

(** [sub in s] *)
Definition str_in (sub s : string) : bool := if String.index 0 sub s then true else false.

(** [d[mt][0]] and the source of the choice. *)
Definition registry_entry (mt : string) : res (string * string) :=
  ids ← of_option KeyError (dict_get DRAFTER_REGISTRY mt);
  id ← of_option IndexError (head ids);
  Ok (id, ("registry:" +:+ mt)%string).

Definition select_drafter_for_target (env : environ) (target_model_type target_name_or_path : option string) : res (string * string) :=
  let env_override := env_get env "BLOOMBEE_DRAFTER" "" in
  if negb (env_override =? "")%string then Ok (env_override, "env"%string)
  else
    let mt := py_lower (default ""%string target_model_type) in
    let path := default ""%string target_name_or_path in
    let lower_path := py_lower path in
    if (mt =? "llama")%string && negb (path =? "")%string && (str_in "llama-3" lower_path || str_in "llama3" lower_path)
    then registry_entry "llama3"
    else match dict_get DRAFTER_REGISTRY mt with
    | Some _ => registry_entry mt
    | None => Ok (DEFAULT_DRAFTER, "default"%string)
    end.

(** Every choice but an override is a model of the target's family or the default. *)
Lemma select_drafter_known env mt path : env_get env "BLOOMBEE_DRAFTER" ""%string = ""%string →
  ∃ id src, select_drafter_for_target env mt path = Ok (id, src) ∧
    (id = DEFAULT_DRAFTER ∨ ∃ family ids, dict_get DRAFTER_REGISTRY family = Some ids ∧ head ids = Some id ∧
      src = ("registry:" +:+ family)%string).
Proof.
  intros He. unfold select_drafter_for_target. rewrite He. cbn [String.eqb negb].
  assert (Hent : ∀ family ids, dict_get DRAFTER_REGISTRY family = Some ids → ∃ id, head ids = Some id ∧
    registry_entry family = Ok (id, ("registry:" +:+ family)%string)).
  { intros family ids Hf. assert (Hh : ∃ id, head ids = Some id).
    { unfold dict_get, DRAFTER_REGISTRY in Hf. repeat (cbn in Hf; case_decide; [injection Hf as <-; by eexists|]). done. }
    destruct Hh as [id Hid]. exists id. split; [done|]. unfold registry_entry. by rewrite Hf; cbn; rewrite Hid. }
  destruct (_ && _ && _).
  - destruct (Hent "llama3"%string _ eq_refl) as (id & Hid & ->). do 2 eexists. split; [done|]. right.
    exists "llama3"%string. eexists. split; [reflexivity|done].
  - destruct (dict_get DRAFTER_REGISTRY _) as [ids|] eqn:Hd; [|do 2 eexists; split; [done|by left]].
    destruct (Hent _ _ Hd) as (id & Hid & ->). do 2 eexists. split; [done|]. right. eauto.
Qed.

#[local] Instance float_eq_dec : EqDecision float.
Proof. unfold float. solve_decision. Defined.

(** ** Padded batches *)

(** [torch.stack] of rows *)
Definition stack {A} (rows : list (list A)) : res (list (list A)) :=
  match rows with
  | [] => Raise RuntimeError
  | row :: _ => if forallb (λ r, zlen r =? zlen row) rows then Ok rows else Raise RuntimeError
  end.

(** A row of the mask of a depth: the prefix without its padding, and the path. *)
Definition path_mask (total prefix_pad_len pf_len path_len : Z) : list bool :=
  (λ c, ((prefix_pad_len <=? c) && (c <? prefix_pad_len + pf_len)) || (total - path_len <=? c)) <$> py_range 0 total.

Definition pad_left {A} (x : A) (n : Z) (row : list A) : list A := replicate (Z.to_nat (n - zlen row)) x ++ row.

Definition max_len {A} (rows : list (list A)) : Z := foldr Z.max 0 (zlen <$> rows).

(** The tokens a mask lets through. *)
Definition attended (tokens : list Z) (m : list bool) : list Z := (λ x : Z * bool, x.1) <$> filter (λ x, x.2 = true) (zip tokens m).

(** ** The draft model *)

(** [ssm_prefix] runs prefixes with their masks and keeps the cache; [ssm_logits] runs one row per
    frontier node, the cache of its sequence before it, and gives the logits of the last column. *)
Class DraftModel (C L : Type) := {
  ssm_prefix : list (list Z) → list (list bool) → C;
  ssm_logits : option (C * list nat) → list (list Z) → list (list bool) → list L;
  logits_of : list Z → L;     (** the logits after a token sequence *)
  vocab_size : Z;
  t_topk : Z → L → list Z;    (** the indices of [torch.topk] *)
  t_prob : L → Z → float;     (** [softmax(l)[i]] *)
}.

(** Documented: rows of a batch do not influence each other, masked positions are not attended to,
    and [topk] gives as many distinct indices as it is asked for. *)
Class DraftModelLaws (C L : Type) `{DraftModel C L} := {
  ssm_cached prefixes pmasks idx paths masks : length idx = length paths → length masks = length paths →
    length (ssm_logits (Some (ssm_prefix prefixes pmasks, idx)) paths masks) = length paths ∧
    ∀ i j prefix pmask path m, idx !! i = Some j → prefixes !! j = Some prefix → pmasks !! j = Some pmask →
      paths !! i = Some path → masks !! i = Some m → zlen m = zlen prefix + zlen path → take (length prefix) m = pmask →
      last m = Some true →
      ssm_logits (Some (ssm_prefix prefixes pmasks, idx)) paths masks !! i = Some (logits_of (attended (prefix ++ path) m));
  ssm_uncached paths masks : length masks = length paths →
    length (ssm_logits None paths masks) = length paths ∧
    ∀ i path m, paths !! i = Some path → masks !! i = Some m → zlen m = zlen path → last m = Some true →
      ssm_logits None paths masks !! i = Some (logits_of (attended path m));
  topk_length k l : 0 ≤ k ≤ vocab_size → zlen (t_topk k l) = k ∧ NoDup (t_topk k l);
}.

Section drafter.
Context {C L : Type} `{DM : DraftModel C L}.
Variable math_log : float → float.

(** [torch.topk] of a batch refuses more indices than there are. *)
Definition topk (k : Z) (rows : list L) : res (list (list Z)) :=
  if vocab_size <? k then Raise RuntimeError else Ok (t_topk k <$> rows).

(** [_node_path_log_prob], from the node up. *)
Fixpoint path_log_sum (h : heap) (ns : list nat) (total : float) : float :=
  match ns with
  | [] => total
  | n :: ns =>
      if fltb (SpecFloat.S754_zero false) (probability (h !!! n)) then path_log_sum h ns (fadd total (math_log (probability (h !!! n))))
      else fopp float_inf
  end.
Definition node_path_log_prob (h : heap) (n : nat) : float := path_log_sum h (climb (length h) h n) (SpecFloat.S754_zero false).

(** A scalar width, or one per depth. *)
Inductive BeamWidth := Uniform (w : Z) | WidthPlan (ws : list Z).

Record draft_config := mkDraft {
  beam_width : BeamWidth;
  draft_max_depth : Z;
  tree_budget : option Z;
  tree_min_log_prob : option float;
  draft_pad_token_id : Z;
}.

Definition depth_limit (cfg : draft_config) : Z :=
  match beam_width cfg with Uniform _ => draft_max_depth cfg | WidthPlan ws => Z.min (draft_max_depth cfg) (zlen ws) end.
Definition width_at (cfg : draft_config) (d : Z) : Z :=
  match beam_width cfg with Uniform w => w | WidthPlan ws => default 0 (ws !! Z.to_nat d) end.

Notation candidates := (list (Z * float)).

(** What is kept of a sequence's candidates under a budget or a threshold. *)
Definition prune_candidates (cfg : draft_config) (d : Z) (h : heap) (per_node : list (nat * candidates)) : list (nat * candidates) :=
  match tree_budget cfg, tree_min_log_prob cfg with
  | None, None => per_node
  | budget, min_log_prob =>
      let frontier := mjoin ((λ nc : nat * candidates,
        let parent_log := node_path_log_prob h nc.1 in
        (λ c : Z * float,
          let cand_log := fadd parent_log (if fltb (SpecFloat.S754_zero false) c.2 then math_log c.2 else fopp float_inf) in
          mkFrontier (nc.1, c.1, c.2) cand_log (d + 1)) <$> nc.2) <$> per_node) in
      let survivors := budgeted_expand_plan frontier (default (zlen frontier) budget) min_log_prob in
      let kept_handles := node_handle <$> survivors in
      filter (λ nc, nc.2 ≠ []) ((λ nc, (nc.1, filter (λ c, (nc.1, c.1, c.2) ∈ kept_handles) nc.2)) <$> per_node)
  end.

(** The frontier of all trees: position of the sequence, node. *)
Definition node_mapping (d : Z) (trees : list SpeculativeTree) : list (nat * nat) :=
  mjoin (imap (λ j t, pair j <$> get_nodes_at_depth t d) trees).

(** The candidates of one tree's nodes. *)
Definition per_node (j : nat) (results : list ((nat * nat) * candidates)) : list (nat * candidates) :=
  (λ x, (x.1.2, x.2)) <$> filter (λ x, x.1.1 = j) results.

Definition grow_tree (cfg : draft_config) (d : Z) (results : list ((nat * nat) * candidates)) (j : nat) (t : SpeculativeTree)
    : SpeculativeTree * bool :=
  let pn := prune_candidates cfg d (nodes t) (per_node j results) in
  match add_layer pn.*1 pn.*2 t with
  | (t', Ok new_nodes) => (t', negb (length new_nodes =? 0)%nat)
  | (t', Raise _) => (t', false)
  end.

(** One turn of the loop over the depths: the trees, and whether to go on. *)
Definition expand_depth (cfg : draft_config) (valid_inputs : list (list Z)) (prefix_lengths : list Z) (prefix_cache : option C)
    (d : Z) (trees : list SpeculativeTree) : res (list SpeculativeTree * bool) :=
  let mapping := node_mapping d trees in
  all_paths ← mapM (λ jn : nat * nat,
    valid ← of_option KeyError (valid_inputs !! jn.1);
    root_token ← of_option IndexError (last valid);
    t ← of_option KeyError (trees !! jn.1);
    Ok (root_token :: get_path_from_root (nodes t) jn.2)) mapping;
  match all_paths with
  | [] => Ok (trees, false)
  | _ =>
      let max_path_len := max_len all_paths in
      let pf_lens := (λ jn : nat * nat, default 0 (prefix_lengths !! jn.1)) <$> mapping in
      let max_pf_len := foldr Z.max 0 pf_lens in
      let total_mask_len := max_pf_len + max_path_len in
      let batch_paths := pad_left (draft_pad_token_id cfg) max_path_len <$> all_paths in
      let batch_path_masks := zip_with (λ path pf_len, path_mask total_mask_len (max_pf_len - pf_len) pf_len (zlen path)) all_paths pf_lens in
      let all_logits := ssm_logits ((λ c, (c, mapping.*1)) <$> prefix_cache) batch_paths batch_path_masks in
      let depth_width := width_at cfg d in
      if depth_width <=? 0 then Ok (trees, false)
      else
        all_top_k ← topk depth_width all_logits;
        let cands := zip_with (λ l top, (λ tok, (tok, t_prob l tok)) <$> top) all_logits all_top_k in
        let grown := imap (grow_tree cfg d (zip mapping cands)) trees in
        Ok (grown.*1, existsb snd grown)
  end.

Fixpoint expand (n : nat) (cfg : draft_config) (valid_inputs : list (list Z)) (prefix_lengths : list Z) (prefix_cache : option C)
    (d : Z) (trees : list SpeculativeTree) : res (list SpeculativeTree) :=
  match n with
  | O => Ok trees
  | S n =>
      r ← expand_depth cfg valid_inputs prefix_lengths prefix_cache d trees;
      if (r.2 : bool) then expand n cfg valid_inputs prefix_lengths prefix_cache (d + 1) r.1 else Ok r.1
  end.

(** The cache of the prefixes. *)
Definition prefix_pass (cfg : draft_config) (valid_inputs : list (list Z)) (prefix_lengths : list Z) : res (option C) :=
  let max_prefix_len := foldr Z.max 0 prefix_lengths in
  if max_prefix_len =? 0 then Ok None
  else
    let rows := zip_with (λ valid pf_len,
      replicate (Z.to_nat (max_prefix_len - pf_len)) (draft_pad_token_id cfg) ++ (if 0 <? pf_len then removelast valid else []))
      valid_inputs prefix_lengths in
    let masks := (λ pf_len, replicate (Z.to_nat (max_prefix_len - pf_len)) false ++ replicate (Z.to_nat pf_len) true) <$> prefix_lengths in
    rows ← stack rows;
    masks ← stack masks;
    Ok (Some (ssm_prefix rows masks)).

(** [_build_trees_batched] of a worker's sequences; the trees are named after their sequence. *)
Definition build_trees_batched (cfg : draft_config) (batch_indices : list nat) (input_ids : list (list Z)) (seq_lengths : list Z)
    (name : nat → string) : res (list (nat * SpeculativeTree)) :=
  rows ← mapM (λ b,
    actual_len ← of_option IndexError (seq_lengths !! b);
    row ← of_option IndexError (input_ids !! b);
    let valid := py_slice row 0 actual_len in
    root_token ← of_option IndexError (last valid);
    Ok (valid, Z.max (actual_len - 1) 0, new_tree root_token (name b))) batch_indices;
  let valid_inputs := (λ r : list Z * Z * SpeculativeTree, r.1.1) <$> rows in
  let prefix_lengths := (λ r : list Z * Z * SpeculativeTree, r.1.2) <$> rows in
  prefix_cache ← prefix_pass cfg valid_inputs prefix_lengths;
  trees ← expand (Z.to_nat (depth_limit cfg)) cfg valid_inputs prefix_lengths prefix_cache 0 (snd <$> rows);
  Ok (zip batch_indices trees).

(** [build_trees_parallel]: the sequences of worker [w], and the cells of the result once the
    workers have run, in the order [order]. *)
Definition worker_range (batch_size chunk_size : Z) (w : nat) : list nat :=
  seq (Z.to_nat (Z.of_nat w * chunk_size)) (Z.to_nat (Z.min (Z.of_nat w * chunk_size + chunk_size) batch_size - Z.of_nat w * chunk_size)).

Definition write_results (r : res (list (nat * SpeculativeTree))) (cells : list (option SpeculativeTree)) : list (option SpeculativeTree) :=
  match r with
  | Ok results => foldl (λ cells bt, <[bt.1 := Some bt.2]> cells) cells results
  | Raise _ => cells
  end.

Definition build_trees_parallel (cfg : draft_config) (num_workers : nat) (order : list nat) (input_ids : list (list Z))
    (seq_lengths : list Z) (name : nat → string) : res (list (option SpeculativeTree)) :=
  let batch_size := zlen input_ids in
  if (num_workers =? 0)%nat then Raise ZeroDivisionError
  else
    let chunk_size := (batch_size + Z.of_nat num_workers - 1) / Z.of_nat num_workers in
    Ok (foldl (λ cells w,
          if Z.of_nat w * chunk_size <? batch_size
          then write_results (build_trees_batched cfg (worker_range batch_size chunk_size w) input_ids seq_lengths name) cells
          else cells) (replicate (length input_ids) None) order).
End drafter.

(** ** Padding and masks *)

Section padding.
Lemma attended_app (x y : list Z) m1 m2 : length x = length m1 → attended (x ++ y) (m1 ++ m2) = attended x m1 ++ attended y m2.
Proof. intros Hl. unfold attended. rewrite zip_with_app by done. by rewrite filter_app, fmap_app. Qed.

Lemma attended_false (x : list Z) n : attended x (replicate n false) = [].
Proof.
  unfold attended. revert n. induction x as [|a x IH]; intros [|n]; try done. rewrite replicate_S. cbn [zip_with].
  rewrite filter_cons_False by done. apply IH.
Qed.

Lemma attended_true (x : list Z) : attended x (replicate (length x) true) = x.
Proof.
  unfold attended. induction x as [|a x IH]; [done|]. cbn [length]. rewrite replicate_S. cbn [zip_with].
  rewrite filter_cons_True by done. rewrite fmap_cons. by rewrite IH.
Qed.

Lemma py_range_split f (a n m : Z) : 0 ≤ n → 0 ≤ m →
  (f : Z → bool) <$> py_range a (a + (n + m)) = (f <$> py_range a (a + n)) ++ (f <$> py_range (a + n) (a + n + m)).
Proof.
  intros Hn Hm. unfold py_range. replace (a + (n + m) - a) with (n + m) by lia. replace (a + n - a) with n by lia.
  replace (a + n + m - (a + n)) with m by lia. by rewrite seqZ_app, fmap_app.
Qed.

Lemma py_range_const (f : Z → bool) b (a n : Z) : 0 ≤ n → (∀ c, a ≤ c < a + n → f c = b) → f <$> py_range a (a + n) = replicate (Z.to_nat n) b.
Proof.
  intros Hn Hf. apply list_eq. intros i. unfold py_range. rewrite list_lookup_fmap.
  destruct (decide (Z.of_nat i < n)).
  - rewrite lookup_seqZ_lt, lookup_replicate_2 by lia. cbn. f_equal. apply Hf. lia.
  - rewrite lookup_seqZ_ge by lia. symmetry. apply lookup_replicate_None. lia.
Qed.

Lemma path_mask_eq (mp ml pf pl : Z) : 0 ≤ pf ≤ mp → 0 ≤ pl ≤ ml →
  path_mask (mp + ml) (mp - pf) pf pl =
    replicate (Z.to_nat (mp - pf)) false ++ replicate (Z.to_nat pf) true ++ replicate (Z.to_nat (ml - pl)) false ++ replicate (Z.to_nat pl) true.
Proof.
  intros Hpf Hpl. unfold path_mask. set (f := λ c, _).
  replace (mp + ml) with (0 + ((mp - pf) + (pf + ((ml - pl) + pl)))) at 1 by lia.
  rewrite !py_range_split by lia. f_equal; [|f_equal; [|f_equal]].
  - apply py_range_const; [lia|]. intros c Hc. unfold f. lia.
  - apply (py_range_const f true); [lia|]. intros c Hc. unfold f. lia.
  - apply (py_range_const f false); [lia|]. intros c Hc. unfold f. lia.
  - apply (py_range_const f true); [lia|]. intros c Hc. unfold f. lia.
Qed.

Lemma zlen_pad_left {A} (x : A) n row : zlen row ≤ n → zlen (pad_left x n row) = n.
Proof. intros Hn. unfold pad_left, zlen in *. rewrite length_app, length_replicate. lia. Qed.

(** A row of a depth attends to the sequence up to its root and to the path. *)
Lemma attended_row (pad : Z) (pre path : list Z) (mp ml : Z) : zlen pre ≤ mp → zlen path ≤ ml →
  attended ((replicate (Z.to_nat (mp - zlen pre)) pad ++ pre) ++ pad_left pad ml path)
    (path_mask (mp + ml) (mp - zlen pre) (zlen pre) (zlen path)) = pre ++ path.
Proof.
  intros Hp Hl. pose proof (zlen_nonneg pre). pose proof (zlen_nonneg path). rewrite path_mask_eq by lia. unfold pad_left.
  rewrite <- !(assoc_L (++)). rewrite !attended_app by (rewrite ?length_replicate; unfold zlen; lia). rewrite !attended_false.
  unfold zlen. by rewrite !Nat2Z.id, !attended_true.
Qed.

Lemma path_mask_last mp ml pf pl : 0 ≤ pf ≤ mp → 0 < pl ≤ ml → last (path_mask (mp + ml) (mp - pf) pf pl) = Some true.
Proof.
  intros Hpf Hpl. rewrite path_mask_eq by lia. replace (Z.to_nat pl) with (S (Z.to_nat (pl - 1))) by lia.
  rewrite replicate_S_end, !(assoc_L (++)). apply last_snoc.
Qed.

Lemma path_mask_length mp ml pf pl : 0 ≤ pf ≤ mp → 0 ≤ pl ≤ ml → zlen (path_mask (mp + ml) (mp - pf) pf pl) = mp + ml.
Proof. intros. unfold path_mask, py_range, zlen. rewrite length_fmap, length_seqZ. lia. Qed.

Lemma path_mask_prefix mp ml pf pl : 0 ≤ pf ≤ mp → 0 ≤ pl ≤ ml →
  take (Z.to_nat mp) (path_mask (mp + ml) (mp - pf) pf pl) = replicate (Z.to_nat (mp - pf)) false ++ replicate (Z.to_nat pf) true.
Proof.
  intros. rewrite path_mask_eq by done. rewrite (assoc_L (++)). apply take_app_length'. rewrite length_app, !length_replicate. lia.
Qed.

Lemma foldr_max_spec (l : list Z) : 0 ≤ foldr Z.max 0 l ∧ (∀ x, x ∈ l → x ≤ foldr Z.max 0 l) ∧
  (foldr Z.max 0 l = 0 ∨ foldr Z.max 0 l ∈ l).
Proof.
  induction l as [|y l (H0 & H1 & H2)]; cbn; [split; [lia|]; split; [by intros ? ?%not_elem_of_nil|by left]|].
  split; [lia|]. split; [intros x [->|Hx]%elem_of_cons; [lia|specialize (H1 x Hx); lia]|].
  destruct (Z.max_spec y (foldr Z.max 0 l)) as [[? ->]|[? ->]].
  - destruct H2 as [?|?]; [left; lia|right; by right].
  - right. by left.
Qed.

(** Lists with the same elements have the same maximum. *)
Lemma foldr_max_ext (l k : list Z) : (∀ x, x ∈ l ↔ x ∈ k) → foldr Z.max 0 l = foldr Z.max 0 k.
Proof.
  intros H. destruct (foldr_max_spec l) as (A0 & A1 & A2), (foldr_max_spec k) as (B0 & B1 & B2).
  apply Z.le_antisymm.
  - destruct A2 as [->|A2]; [done|]. apply B1. by apply H.
  - destruct B2 as [->|B2]; [done|]. apply A1. by apply H.
Qed.

Lemma filter_fmap {A B} (f : A → B) (P : B → Prop) `{∀ x, Decision (P x)} (l : list A) : filter P (f <$> l) = f <$> filter (λ x, P (f x)) l.
Proof. induction l as [|x l IH]; [done|]. rewrite fmap_cons, !filter_cons. case_decide; rewrite IH; done. Qed.

(** The rows of one sequence among those of all. *)
Lemma per_sequence_from {A B} (f : A → list B) (l : list A) k j x : l !! j = Some x →
  filter (λ y : nat * B, y.1 = (k + j)%nat) (mjoin (imap (λ j x, pair (k + j)%nat <$> f x) l)) = pair (k + j)%nat <$> f x.
Proof.
  revert k j. induction l as [|a l IH]; intros k j Hx; [done|]. cbn [imap mjoin list_join]. rewrite filter_app.
  assert (Himap : imap ((λ j x, pair (k + j)%nat <$> f x) ∘ S) l = imap (λ j x, pair (S k + j)%nat <$> f x) l).
  { apply imap_ext. intros i y _. cbn. by rewrite Nat.add_succ_r. }
  rewrite Himap. destruct j as [|j].
  - injection Hx as <-. rewrite filter_keep, filter_empty, app_nil_r; [done| |].
    + apply Forall_forall. intros y (ys & Hy & (i & z & -> & _)%elem_of_lookup_imap)%list_elem_of_join.
      apply list_elem_of_fmap in Hy as (b & -> & _). cbn. lia.
    + apply Forall_forall. intros y (b & -> & _)%list_elem_of_fmap. done.
  - rewrite filter_empty.
    + rewrite Nat.add_succ_r. apply (IH (S k) j Hx).
    + apply Forall_forall. intros y (b & -> & _)%list_elem_of_fmap. cbn. lia.
Qed.

Lemma per_sequence {A B} (f : A → list B) (l : list A) j x : l !! j = Some x →
  filter (λ y : nat * B, y.1 = j) (mjoin (imap (λ j x, pair j <$> f x) l)) = pair j <$> f x.
Proof. apply (per_sequence_from f l 0 j x). Qed.
End padding.

(** ** Layers *)

Section layers.
Lemma add_children_depth self cs h : heap_wf h → (self < length h)%nat →
  (∀ i, (i < length h)%nat → depth ((add_children self cs h).1 !!! i) = depth (h !!! i)) ∧
  (∀ i, (length h ≤ i < length (add_children self cs h).1)%nat → depth ((add_children self cs h).1 !!! i) = depth (h !!! self) + 1) ∧
  length (add_children self cs h).1 = (length h + length cs)%nat.
Proof.
  revert h. induction cs as [|[tok p] cs IH]; intros h Hwf Hs; cbn [add_children]; [cbn; split; [done|]; split; lia|].
  pose proof (add_child_extends self tok p h Hwf Hs) as He. pose proof (add_child_length self tok p h) as [Hl _].
  assert (Hd : ∀ i, (i < S (length h))%nat → depth ((add_child self tok p h).1 !!! i) =
    if decide (i = length h) then depth (h !!! self) + 1 else depth (h !!! i)).
  { intros i Hi. rewrite list_lookup_total_alt, (add_child_lookup self tok p h i Hs). case_decide as E1; [done|].
    destruct (lookup_lt_is_Some_2 h i) as [n Hn]; [lia|]. case_decide as E2; rewrite Hn; cbn; by rewrite (total_lookup _ _ _ Hn). }
  destruct (add_child self tok p h) as [h1 c]. cbn [fst snd] in *.
  destruct (IH h1) as (H1 & H2 & H3); [apply He|lia|]. destruct (add_children self cs h1) as [h2 cs']. cbn [fst snd] in *.
  assert (Hself : depth (h1 !!! self) = depth (h !!! self)).
  { rewrite Hd by lia. case_decide; [lia|done]. }
  split; [|split].
  - intros i Hi. rewrite H1, Hd by lia. case_decide; [lia|done].
  - intros i Hi. destruct (decide (i = length h)) as [->|].
    + rewrite H1, Hd by lia. by rewrite decide_True.
    + rewrite H2 by lia. by rewrite Hself.
  - cbn. lia.
Qed.

Lemma grow_depth d layer h : heap_wf h → Forall (λ pc : nat * list (Z * float), (pc.1 < length h)%nat ∧ depth (h !!! pc.1) = d) layer →
  (∀ i, (i < length h)%nat → depth ((grow layer h).1 !!! i) = depth (h !!! i)) ∧
  (∀ i, (length h ≤ i < length (grow layer h).1)%nat → depth ((grow layer h).1 !!! i) = d + 1) ∧
  length (grow layer h).1 = (length h + sum_list (length ∘ snd <$> layer))%nat.
Proof.
  revert h. induction layer as [|[p cs] layer IH]; intros h Hwf HF; cbn [grow]; [cbn; split; [done|]; split; lia|].
  apply Forall_cons in HF as [[Hp Hdp] HF]. cbn in Hp, Hdp.
  destruct (add_children_depth p cs h Hwf Hp) as (A1 & A2 & A3). destruct (add_children_extends p cs h Hwf Hp) as [He _].
  destruct (add_children p cs h) as [h1 new]. cbn [fst snd] in *.
  destruct (IH h1) as (B1 & B2 & B3); [apply He| |].
  { eapply Forall_impl; [exact HF|]. intros [q cs'] [Hq Hd]. cbn in *. split; [lia|]. by rewrite A1. }
  destruct (grow layer h1) as [h2 new']. cbn [fst snd] in *. split; [|split].
  - intros i Hi. rewrite B1, A1 by lia. done.
  - intros i Hi. destruct (decide (i < length h1)%nat); [|apply B2; lia]. rewrite B1, A2 by lia. by rewrite Hdp.
  - cbn. lia.
Qed.

(** A tree whose deepest layer is the one to expand. *)
Definition layered (d : Z) (t : SpeculativeTree) : Prop := grown t ∧ SpecTree.max_depth t = d.

Lemma layered_new tok rid : layered 0 (new_tree tok rid).
Proof. split; [apply grown_new|done]. Qed.

Lemma layered_frontier d t : layered d t → get_nodes_at_depth t d ≠ [] ∧
  Forall (λ n, (n < length (nodes t))%nat ∧ depth (nodes t !!! n) = d) (get_nodes_at_depth t d).
Proof.
  intros [Hg Hd]. destruct (grown_tree_layers t Hg) as (_ & Hat & _ & (n & Hn & Hdn) & _). destruct (Hat d) as [_ Hin]. split.
  - intros E. assert (n ∈ get_nodes_at_depth t d) as H by (apply Hin; lia). rewrite E in H. by apply not_elem_of_nil in H.
  - apply Forall_forall. intros m Hm. by apply Hin.
Qed.

Lemma layer_size (w : nat) (ns : list nat) (cands : list (list (Z * float))) : length cands = length ns →
  Forall (λ c, length c = w) cands → sum_list (length ∘ snd <$> zip ns cands) = (w * length ns)%nat.
Proof.
  intros Hl Hc. revert ns Hl. induction Hc as [|c cands Hc _ IH]; intros ns Hl; destruct ns as [|n ns]; try discriminate Hl.
  - cbn. lia.
  - cbn in Hl. specialize (IH ns ltac:(lia)). cbn in *. rewrite IH, Hc. lia.
Qed.

(** A layer of [w] candidates under each node of the frontier. *)
Lemma add_layer_layered d t (w : nat) (cands : list (list (Z * float))) : layered d t → (0 < w)%nat →
  length cands = length (get_nodes_at_depth t d) → Forall (λ c, length c = w) cands →
  ∃ t' new, add_layer (get_nodes_at_depth t d) cands t = (t', Ok new) ∧ new ≠ [] ∧ layered (d + 1) t' ∧
    length (get_nodes_at_depth t' (d + 1)) = (w * length (get_nodes_at_depth t d))%nat ∧
    total_nodes t' = total_nodes t + Z.of_nat (w * length (get_nodes_at_depth t d)).
Proof.
  intros Hla Hw Hlen Hcands. destruct (layered_frontier d t Hla) as [Hne Hfr]. destruct Hla as [Hg Hd].
  pose proof (grown_wf t Hg) as Hwf. set (ns := get_nodes_at_depth t d) in *.
  assert (Hg' : grown (add_layer ns cands t).1).
  { apply grown_layer; [done|]. eapply Forall_impl; [exact Hfr|]. by intros n [? _]. }
  assert (Hzip : Forall (λ pc : nat * list (Z * float), (pc.1 < length (nodes t))%nat ∧ depth (nodes t !!! pc.1) = d) (zip ns cands)).
  { by apply (zip_fst_Forall (λ n, (n < length (nodes t))%nat ∧ depth (nodes t !!! n) = d)). }
  destruct (grow_depth d (zip ns cands) (nodes t) (tw_heap _ Hwf) Hzip) as (G1 & G2 & G3).
  assert (Hsum : sum_list (length ∘ snd <$> zip ns cands) = (w * length ns)%nat).
  { by apply layer_size. }
  assert (He : extends (nodes t) (grow (zip ns cands) (nodes t)).1 (grow (zip ns cands) (nodes t)).2).
  { apply grow_extends; [apply Hwf|]. eapply Forall_impl; [exact Hzip|]. by intros pc [? _]. }
  pose proof (grown_wf _ Hg') as Hwf'. revert Hg' Hwf'. unfold add_layer. rewrite Hlen, Nat.eqb_refl.
  destruct (grow (zip ns cands) (nodes t)) as [h new]. cbn [fst snd] in *. rewrite Hsum in G3.
  assert (Hns : (0 < length ns)%nat) by (destruct ns; [done|cbn; lia]).
  pose proof (ex_new _ _ _ He) as Hnew. destruct new as [|m new].
  { exfalso. apply (f_equal length) in Hnew. rewrite length_seq in Hnew. cbn in Hnew. nia. }
  set (t' := mkTree h (request_id t) _ _). intros Hg' Hwf'. exists t', (m :: new). split; [done|]. split; [done|].
  assert (Hold : ∀ i, (i < length (nodes t))%nat → depth (h !!! i) ≤ d).
  { intros i Hi. rewrite G1 by done. destruct (lookup_lt_is_Some_2 (nodes t) i Hi) as [n Hn].
    rewrite (total_lookup _ _ _ Hn), <- Hd. by eapply (tw_depth_le _ Hwf). }
  assert (Hmax : SpecTree.max_depth t' = d + 1).
  { apply Z.le_antisymm.
    - destruct (tw_depth_max _ Hwf') as (i & n & Hn & <-). change (nodes t') with h in Hn. rewrite <- (total_lookup _ _ _ Hn).
      apply lookup_lt_Some in Hn. destruct (decide (i < length (nodes t))%nat); [specialize (Hold i); lia|]. rewrite G2 by lia. lia.
    - destruct (lookup_lt_is_Some_2 h (length (nodes t))) as [n Hn]; [nia|]. rewrite <- (G2 (length (nodes t))) by nia.
      rewrite (total_lookup _ _ _ Hn). by eapply (tw_depth_le _ Hwf'). }
  split; [by split|]. destruct (grown_tree_layers t' Hg') as (Htot & Hat & _). destruct (Hat (d + 1)) as [Hnd Hmem]. split.
  - assert (get_nodes_at_depth t' (d + 1) ≡ₚ seq (length (nodes t)) (w * length ns)) as ->; [|by rewrite length_seq].
    apply NoDup_Permutation; [done|apply NoDup_seq|]. intros i. rewrite Hmem, elem_of_seq. change (nodes t') with h. split.
    + intros [Hi Hdi]. destruct (decide (i < length (nodes t))%nat); [specialize (Hold i); lia|lia].
    + intros Hi. split; [lia|]. apply G2. lia.
  - rewrite Htot, (tw_total _ Hwf). change (nodes t') with h. unfold zlen. lia.
Qed.
End layers.

(** ** Each sequence is drafted on its own *)

Section per_sequence.
Context {C L : Type} `{DM : DraftModel C L} `{DML : !DraftModelLaws C L}.
Variable math_log : float → float.

(** The candidates after a token sequence. *)
Definition candidates_after (w : Z) (ctx : list Z) : list (Z * float) :=
  (λ tok, (tok, t_prob (logits_of ctx) tok)) <$> t_topk w (logits_of ctx).

Definition draft_layer (w d : Z) (ctx : list Z) (t : SpeculativeTree) : SpeculativeTree :=
  let ns := get_nodes_at_depth t d in
  (add_layer ns ((λ n, candidates_after w (ctx ++ get_path_from_root (nodes t) n)) <$> ns) t).1.

(** The tree of one sequence. *)
Fixpoint draft_tree (n : nat) (cfg : draft_config) (ctx : list Z) (d : Z) (t : SpeculativeTree) : SpeculativeTree :=
  match n with
  | O => t
  | S n => let w := width_at cfg d in if w <=? 0 then t else draft_tree n cfg ctx (d + 1) (draft_layer w d ctx t)
  end.

Lemma candidates_length w ctx : 0 ≤ w ≤ vocab_size → length (candidates_after w ctx) = Z.to_nat w.
Proof.
  intros Hw. unfold candidates_after. rewrite length_fmap. destruct (topk_length w (logits_of ctx) Hw) as [Hl _].
  unfold zlen in Hl. lia.
Qed.

Lemma draft_layer_ok w d ctx t : 0 < w ≤ vocab_size → layered d t →
  ∃ new, add_layer (get_nodes_at_depth t d) ((λ n, candidates_after w (ctx ++ get_path_from_root (nodes t) n)) <$> get_nodes_at_depth t d) t =
    (draft_layer w d ctx t, Ok new) ∧ new ≠ [] ∧ layered (d + 1) (draft_layer w d ctx t) ∧
  length (get_nodes_at_depth (draft_layer w d ctx t) (d + 1)) = (Z.to_nat w * length (get_nodes_at_depth t d))%nat ∧
  total_nodes (draft_layer w d ctx t) = total_nodes t + w * zlen (get_nodes_at_depth t d).
Proof.
  intros Hw Hla. destruct (add_layer_layered d t (Z.to_nat w)
    ((λ n, candidates_after w (ctx ++ get_path_from_root (nodes t) n)) <$> get_nodes_at_depth t d) Hla) as (t' & new & Hadd & Hne & Hla' & Hlen & Htot).
  - lia.
  - by rewrite length_fmap.
  - apply Forall_fmap, Forall_forall. intros n _. apply candidates_length. lia.
  - unfold draft_layer. rewrite Hadd. cbn [fst]. exists new. do 4 (split; [done|]). rewrite Htot. unfold zlen. lia.
Qed.

Lemma cands_eq {A} (w : Z) (g : A → list Z) (l : list A) :
  zip l (zip_with (λ (l : L) (top : list Z), (λ tok, (tok, t_prob l tok)) <$> top) ((λ a, logits_of (g a)) <$> l)
    (t_topk w <$> ((λ a, logits_of (g a)) <$> l))) = (λ a, (a, candidates_after w (g a))) <$> l.
Proof. induction l as [|a l IH]; [done|]. rewrite !fmap_cons. cbn [zip_with]. f_equal. exact IH. Qed.

(** *** A depth *)

Section depth.
Context (cfg : draft_config) (vs : list (list Z)) (trees : list SpeculativeTree) (d w : Z).
Hypotheses (Hb : tree_budget cfg = None) (Hp : tree_min_log_prob cfg = None) (Hw : width_at cfg d = w) (Hwv : 0 < w ≤ vocab_size).
Hypotheses (Hvs : Forall (λ v, v ≠ []) vs) (Hlen : length trees = length vs) (Hne : trees ≠ []) (Hla : Forall (layered d) trees).

Let pfs : list Z := (λ v, zlen v - 1) <$> vs.
Let mpf : Z := foldr Z.max 0 pfs.
Let mapping := node_mapping d trees.

(** The prefixes with their padding, and their masks. *)
Definition padded_prefix (mp : Z) (v : list Z) : list Z := replicate (Z.to_nat (mp - (zlen v - 1))) (draft_pad_token_id cfg) ++ removelast v.
Definition prefix_mask (mp : Z) (v : list Z) : list bool :=
  replicate (Z.to_nat (mp - (zlen v - 1))) false ++ replicate (Z.to_nat (zlen v - 1)) true.
Definition prefix_cached (cache : option C) : Prop :=
  cache = if mpf =? 0 then None else Some (ssm_prefix (padded_prefix mpf <$> vs) (prefix_mask mpf <$> vs)).

Lemma mapping_elem j n : (j, n) ∈ mapping → ∃ t v, trees !! j = Some t ∧ vs !! j = Some v ∧ n ∈ get_nodes_at_depth t d.
Proof.
  unfold mapping, node_mapping. intros (l & Hl & (j' & t & -> & Ht)%elem_of_lookup_imap)%list_elem_of_join.
  apply list_elem_of_fmap in Hl as (n' & [= -> ->] & Hn). destruct (lookup_lt_is_Some_2 vs j') as [v Hv].
  { apply lookup_lt_Some in Ht. lia. }
  eauto.
Qed.

Lemma mapping_all j t : trees !! j = Some t → ∃ n, (j, n) ∈ mapping.
Proof.
  intros Ht. rewrite Forall_lookup in Hla. destruct (layered_frontier d t (Hla j t Ht)) as [Hn _].
  destruct (get_nodes_at_depth t d) as [|n ns] eqn:E; [done|]. exists n. unfold mapping, node_mapping.
  apply list_elem_of_join. exists (pair j <$> get_nodes_at_depth t d). split; [rewrite E; by left|].
  apply elem_of_lookup_imap. eauto.
Qed.

(** The path of a frontier node, from the root, and the sequence it stands for. *)
Definition node_path (jn : nat * nat) : list Z :=
  match vs !! jn.1, trees !! jn.1 with
  | Some v, Some t => default 0 (last v) :: get_path_from_root (nodes t) jn.2
  | _, _ => []
  end.
Definition context_of (jn : nat * nat) : list Z := removelast (default [] (vs !! jn.1)) ++ node_path jn.

Lemma mapping_facts j n : (j, n) ∈ mapping → ∃ t v, trees !! j = Some t ∧ vs !! j = Some v ∧ v ≠ [] ∧ pfs !! j = Some (zlen v - 1) ∧
  node_path (j, n) = default 0 (last v) :: get_path_from_root (nodes t) n ∧ context_of (j, n) = v ++ get_path_from_root (nodes t) n ∧
  zlen (removelast v) = zlen v - 1.
Proof.
  intros (t & v & Ht & Hv & _)%mapping_elem. exists t, v. rewrite Forall_lookup in Hvs. pose proof (Hvs j v Hv) as Hvne.
  assert (Hnp : node_path (j, n) = default 0 (last v) :: get_path_from_root (nodes t) n) by (unfold node_path; cbn; by rewrite Hv, Ht).
  split; [done|]. split; [done|]. split; [done|]. split; [unfold pfs; by rewrite list_lookup_fmap, Hv|]. split; [done|].
  destruct (exists_last Hvne) as (v' & x & ->). split.
  - unfold context_of. cbn [fst snd]. rewrite Hv, Hnp, last_snoc. cbn [default from_option id]. rewrite removelast_last. by rewrite <- (assoc_L (++)).
  - rewrite removelast_last, zlen_app. change (zlen [x]) with 1. lia.
Qed.

Lemma paths_ok : mapM (λ jn : nat * nat,
    valid ← of_option KeyError (vs !! jn.1);
    root_token ← of_option IndexError (last valid);
    t ← of_option KeyError (trees !! jn.1);
    Ok (root_token :: get_path_from_root (nodes t) jn.2)) mapping = Ok (node_path <$> mapping).
Proof.
  apply mapM_Ok. intros [j n] Hin. destruct (mapping_facts j n Hin) as (t & v & Ht & Hv & Hvne & _ & -> & _). cbn. rewrite Hv. cbn.
  destruct (exists_last Hvne) as (v' & x & ->). rewrite last_snoc. cbn. by rewrite Ht.
Qed.

Lemma pf_max : foldr Z.max 0 ((λ jn : nat * nat, default 0 (pfs !! jn.1)) <$> mapping) = mpf.
Proof.
  apply foldr_max_ext. intros x. split.
  - intros ([j n] & -> & Hin)%list_elem_of_fmap. destruct (mapping_facts j n Hin) as (t & v & _ & _ & _ & Hpf & _).
    cbn. rewrite Hpf. by eapply list_elem_of_lookup_2.
  - intros (j & Hj)%list_elem_of_lookup. apply lookup_lt_Some in Hj as Hlt. unfold pfs in Hlt. rewrite length_fmap in Hlt.
    destruct (lookup_lt_is_Some_2 trees j) as [t Ht]; [lia|]. destruct (mapping_all j t Ht) as [n Hin].
    apply list_elem_of_fmap. exists (j, n). split; [cbn; by rewrite Hj|done].
Qed.

Lemma logits_ok cache : prefix_cached cache →
  let mpl := max_len (node_path <$> mapping) in
  ssm_logits ((λ c, (c, mapping.*1)) <$> cache) (pad_left (draft_pad_token_id cfg) mpl <$> (node_path <$> mapping))
    (zip_with (λ path pf_len, path_mask (mpf + mpl) (mpf - pf_len) pf_len (zlen path)) (node_path <$> mapping)
      ((λ jn : nat * nat, default 0 (pfs !! jn.1)) <$> mapping)) =
  (λ jn, logits_of (context_of jn)) <$> mapping.
Proof.
  intros Hc mpl. set (paths := pad_left _ mpl <$> _). set (masks := zip_with _ _ _).
  assert (Hpl : length paths = length mapping) by (unfold paths; by rewrite !length_fmap).
  assert (Hml : length masks = length mapping) by (unfold masks; rewrite length_zip_with, !length_fmap; lia).
  assert (Hat : ∀ i j n, mapping !! i = Some (j, n) → ∃ v path m, vs !! j = Some v ∧ paths !! i = Some path ∧ masks !! i = Some m ∧
    path = pad_left (draft_pad_token_id cfg) mpl (node_path (j, n)) ∧
    m = path_mask (mpf + mpl) (mpf - zlen (removelast v)) (zlen (removelast v)) (zlen (node_path (j, n))) ∧
    zlen (removelast v) = zlen v - 1 ∧ 0 ≤ zlen (removelast v) ≤ mpf ∧ 0 < zlen (node_path (j, n)) ≤ mpl).
  { intros i j n Hi. apply list_elem_of_lookup_2 in Hi as Hin.
    destruct (mapping_facts j n Hin) as (t & v & Ht & Hv & Hvne & Hpf & Hnp & _ & Hrl). exists v. do 2 eexists. split; [done|].
    unfold paths, masks. rewrite lookup_zip_with, !list_lookup_fmap, Hi. cbn [fmap option_fmap option_map fst default from_option id].
    rewrite Hpf. cbn [mbind option_bind default from_option id]. do 4 (split; [done || by rewrite Hrl|]). split; [done|]. split.
    - pose proof (zlen_nonneg (removelast v)). destruct (foldr_max_spec pfs) as (_ & Hm & _). specialize (Hm (zlen v - 1) ltac:(by eapply list_elem_of_lookup_2)).
      fold mpf in Hm. lia.
    - split; [rewrite Hnp; unfold zlen; cbn; lia|]. unfold mpl, max_len. destruct (foldr_max_spec (zlen <$> (node_path <$> mapping))) as (_ & Hm & _).
      apply Hm. apply list_elem_of_fmap. eexists. split; [done|]. apply list_elem_of_fmap. eauto. }
  unfold prefix_cached in Hc. destruct (Z.eqb_spec mpf 0) as [H0|H0]; subst cache; cbn [fmap option_fmap option_map].
  - destruct (ssm_uncached paths masks) as [Hl Hrow]; [lia|]. apply list_eq. intros i. rewrite list_lookup_fmap.
    destruct (mapping !! i) as [[j n]|] eqn:Hi; [|apply lookup_ge_None; apply lookup_ge_None in Hi; lia].
    destruct (Hat i j n Hi) as (v & path & m & Hv & Hpath & Hm & -> & -> & Hrl & Hb1 & Hb2). cbn.
    assert (Hnil : removelast v = []) by (apply nil_length_inv; unfold zlen in *; lia).
    rewrite (Hrow i _ _ Hpath Hm).
    + do 2 f_equal. pose proof (attended_row (draft_pad_token_id cfg) (removelast v) (node_path (j, n)) mpf mpl ltac:(lia) ltac:(lia)) as Ha.
      rewrite Hnil in Ha |- *. rewrite H0 in Ha |- *. cbn in Ha. unfold context_of. cbn [fst]. rewrite Hv. cbn [default from_option id]. rewrite Hnil. exact Ha.
    + rewrite path_mask_length by lia. rewrite zlen_pad_left by lia. lia.
    + apply path_mask_last; lia.
  - destruct (ssm_cached (padded_prefix mpf <$> vs) (prefix_mask mpf <$> vs) mapping.*1 paths masks) as [Hl Hrow]; [by rewrite length_fmap|lia|].
    apply list_eq. intros i. rewrite list_lookup_fmap. destruct (mapping !! i) as [[j n]|] eqn:Hi; [|apply lookup_ge_None; apply lookup_ge_None in Hi; lia].
    destruct (Hat i j n Hi) as (v & path & m & Hv & Hpath & Hm & -> & -> & Hrl & Hb1 & Hb2). cbn.
    assert (Hpp : length (padded_prefix mpf v) = Z.to_nat mpf).
    { unfold padded_prefix. rewrite length_app, length_replicate. unfold zlen in *. lia. }
    etrans; [eapply (Hrow i j (padded_prefix mpf v) (prefix_mask mpf v)); [| | |exact Hpath|exact Hm|..]|].
    + by rewrite list_lookup_fmap, Hi.
    + by rewrite list_lookup_fmap, Hv.
    + by rewrite list_lookup_fmap, Hv.
    + rewrite path_mask_length by lia. rewrite zlen_pad_left by lia. unfold zlen at 1. lia.
    + rewrite Hpp, path_mask_prefix by lia. unfold prefix_mask. by rewrite <- Hrl.
    + apply path_mask_last; lia.
    + do 2 f_equal. unfold padded_prefix. rewrite <- Hrl. rewrite attended_row by lia. unfold context_of. cbn [fst]. by rewrite Hv.
Qed.

Lemma grow_tree_ok j t v : trees !! j = Some t → vs !! j = Some v →
  grow_tree math_log cfg d ((λ jn, (jn, candidates_after w (context_of jn))) <$> mapping) j t = (draft_layer w d v t, true).
Proof.
  intros Ht Hv. unfold grow_tree.
  assert (Hpn : per_node j ((λ jn, (jn, candidates_after w (context_of jn))) <$> mapping) =
    (λ n, (n, candidates_after w (v ++ get_path_from_root (nodes t) n))) <$> get_nodes_at_depth t d).
  { unfold per_node. rewrite filter_fmap, <- list_fmap_compose.
    pose proof (per_sequence (λ t, get_nodes_at_depth t d) trees j t Ht) as Hps. unfold mapping, node_mapping. cbn [fst]. rewrite Hps.
    rewrite <- list_fmap_compose. apply list_fmap_ext. intros i n Hn. cbn.
    assert (Hin : (j, n) ∈ mapping).
    { unfold mapping, node_mapping. apply list_elem_of_join. exists (pair j <$> get_nodes_at_depth t d). split.
      - apply list_elem_of_fmap. exists n. split; [done|]. by eapply list_elem_of_lookup_2.
      - apply elem_of_lookup_imap. eauto. }
    destruct (mapping_facts j n Hin) as (t' & v' & Ht' & Hv' & _ & _ & _ & -> & _). rewrite Ht in Ht'. rewrite Hv in Hv'. by simplify_eq. }
  rewrite Hpn. unfold prune_candidates. rewrite Hb, Hp, <- !list_fmap_compose. 
  assert (fst ∘ (λ n, (n, candidates_after w (v ++ get_path_from_root (nodes t) n))) <$> get_nodes_at_depth t d = get_nodes_at_depth t d) as ->.
  { rewrite <- (list_fmap_id (get_nodes_at_depth t d)) at 2. by apply list_fmap_ext. }
  rewrite Forall_lookup in Hla. destruct (draft_layer_ok w d v t Hwv (Hla j t Ht)) as (new & Hadd & Hne' & _).
  change (snd ∘ _) with (λ n, candidates_after w (v ++ get_path_from_root (nodes t) n)). rewrite Hadd. by destruct new.
Qed.

(** A turn of the loop adds a layer to every tree and goes on. *)
Lemma expand_depth_ok cache : prefix_cached cache →
  expand_depth math_log cfg vs pfs cache d trees = Ok (zip_with (draft_layer w d) vs trees, true).
Proof.
  intros Hc. unfold expand_depth. fold mapping. rewrite paths_ok. cbn [mbind res_bind].
  assert (Hmne : node_path <$> mapping ≠ []).
  { intros H0. destruct (lookup_lt_is_Some_2 trees 0) as [t Ht]; [pose proof (nil_length_inv trees); destruct (length trees) eqn:E; [tauto|lia]|].
    destruct (mapping_all 0 t Ht) as [n Hin].
    apply (f_equal length) in H0. rewrite length_fmap in H0. apply nil_length_inv in H0. rewrite H0 in Hin. by apply not_elem_of_nil in Hin. }
  destruct (node_path <$> mapping) as [|p ps] eqn:Hps; [done|]. rewrite <- Hps. clear Hmne Hps p ps.
  rewrite pf_max, (logits_ok cache Hc), Hw. rewrite (proj2 (Z.leb_gt _ _)) by lia. unfold topk. rewrite (proj2 (Z.ltb_ge _ _)) by lia.
  cbn [mbind res_bind].
  rewrite (cands_eq w context_of mapping). set (grown' := imap _ trees).
  assert (Hg : grown' = (λ t, (t, true)) <$> zip_with (draft_layer w d) vs trees).
  { apply list_eq. intros j. unfold grown'. rewrite list_lookup_imap, list_lookup_fmap, lookup_zip_with.
    destruct (trees !! j) as [t|] eqn:Ht.
    - destruct (lookup_lt_is_Some_2 vs j) as [v Hv]; [apply lookup_lt_Some in Ht; lia|]. rewrite Hv. cbn. by rewrite (grow_tree_ok j t v Ht Hv).
    - destruct (vs !! j) as [v|] eqn:Hv; [|done]. apply lookup_lt_Some in Hv. apply lookup_ge_None in Ht. lia. }
  rewrite Hg. f_equal. f_equal.
  - rewrite <- list_fmap_compose. rewrite <- (list_fmap_id (zip_with _ _ _)) at 2. by apply list_fmap_ext.
  - destruct (zip_with (draft_layer w d) vs trees) eqn:E; [|done]. exfalso. apply (f_equal length) in E.
    rewrite length_zip_with in E. cbn in E. apply Hne, nil_length_inv. lia.
Qed.
End depth.

(** *** The loop over the depths *)

Lemma prefix_pass_ok cfg vs : Forall (λ v, v ≠ []) vs → vs ≠ [] →
  ∃ cache, prefix_pass cfg vs ((λ v, zlen v - 1) <$> vs) = Ok cache ∧ prefix_cached cfg vs cache.
Proof.
  intros Hvs Hne. unfold prefix_pass, prefix_cached. set (mp := foldr Z.max 0 _). destruct (Z.eqb_spec mp 0); [by eexists|].
  assert (Hin : ∀ v, v ∈ vs → 0 ≤ zlen v - 1 ≤ mp).
  { intros v Hv. rewrite Forall_forall in Hvs. specialize (Hvs v Hv). destruct (foldr_max_spec ((λ v, zlen v - 1) <$> vs)) as (_ & Hm & _).
    split; [destruct v; [done|unfold zlen; cbn; lia]|]. apply Hm. apply list_elem_of_fmap. eauto. }
  assert (Hr : zip_with (λ valid pf_len, replicate (Z.to_nat (mp - pf_len)) (draft_pad_token_id cfg) ++ (if 0 <? pf_len then removelast valid else []))
    vs ((λ v, zlen v - 1) <$> vs) = padded_prefix cfg mp <$> vs).
  { generalize mp as mp'. clear -Hvs. intros mp'. induction Hvs as [|v l Hv _ IH]; [done|]. rewrite !fmap_cons. cbn [zip_with]. f_equal; [|exact IH].
    unfold padded_prefix. f_equal. destruct (Z.ltb_spec 0 (zlen v - 1)); [done|]. destruct v as [|x [|y v]]; [done|done|unfold zlen in *; cbn in *; lia]. }
  rewrite Hr. rewrite <- list_fmap_compose. change (_ ∘ _) with (prefix_mask mp).
  assert (Hst : ∀ A (f : list Z → list A), (∀ v, v ∈ vs → zlen (f v) = mp) → stack (f <$> vs) = Ok (f <$> vs)).
  { intros A f Hf. clear Hr Hvs. destruct vs as [|v l]; [done|]. unfold stack. rewrite fmap_cons.
    assert (forallb (λ r, zlen r =? zlen (f v)) (f v :: (f <$> l)) = true) as ->; [|done].
    apply forallb_forall. intros r Hr. rewrite <- fmap_cons in Hr. apply list_elem_of_In, list_elem_of_fmap in Hr as (v' & -> & Hv').
    rewrite !Hf; [lia|by left|done]. }
  rewrite Hst; [cbn [mbind res_bind]; rewrite Hst; [by eexists|]|].
  - intros v Hv. specialize (Hin v Hv). rewrite Forall_forall in Hvs. specialize (Hvs v Hv). destruct (exists_last Hvs) as (v' & x & ->).
    unfold padded_prefix. rewrite removelast_last. unfold zlen in *. rewrite length_app, length_replicate. rewrite length_app in *. cbn in *. lia.
  - intros v Hv%Hin. unfold prefix_mask, zlen in *. rewrite length_app, !length_replicate. lia.
Qed.

(** Widths that can be drafted. *)
Definition widths_ok (cfg : draft_config) (n : nat) (d : Z) : Prop :=
  ∀ i, (i < n)%nat → width_at cfg (d + Z.of_nat i) ≤ vocab_size.

Lemma expand_ok cfg vs cache n d trees : tree_budget cfg = None → tree_min_log_prob cfg = None → prefix_cached cfg vs cache →
  Forall (λ v, v ≠ []) vs → length trees = length vs → trees ≠ [] → Forall (layered d) trees → widths_ok cfg n d →
  expand math_log n cfg vs ((λ v, zlen v - 1) <$> vs) cache d trees = Ok (zip_with (λ v t, draft_tree n cfg v d t) vs trees).
Proof.
  intros Hb Hp Hc Hvs. revert d trees. induction n as [|n IH]; intros d trees Hlen Hne Hla Hwo.
  - cbn [expand draft_tree]. f_equal. clear -Hlen. revert vs Hlen. induction trees as [|t l IH]; intros [|v vs] Hl; try done.
    cbn. f_equal. apply IH. by injection Hl.
  - cbn [expand]. pose proof (Hwo 0%nat ltac:(lia)) as Hw0. rewrite Z.add_0_r in Hw0.
    destruct (Z.leb_spec (width_at cfg d) 0) as [Hw|Hw].
    + assert (Hstop : expand_depth math_log cfg vs ((λ v, zlen v - 1) <$> vs) cache d trees = Ok (trees, false)).
      { unfold expand_depth. rewrite (paths_ok vs trees d Hvs Hlen). cbn [mbind res_bind]. destruct (node_path vs trees <$> _); [done|].
        by rewrite (proj2 (Z.leb_le _ _) Hw). }
      rewrite Hstop. cbn. f_equal. cbn [draft_tree]. rewrite (proj2 (Z.leb_le _ _) Hw). clear -Hlen. revert vs Hlen.
      induction trees as [|t l IH]; intros [|v vs] Hl; try done. cbn. f_equal. apply IH. by injection Hl.
    + rewrite (expand_depth_ok cfg vs trees d (width_at cfg d) Hb Hp eq_refl ltac:(lia) Hvs Hlen Hne Hla cache Hc). cbn [mbind res_bind snd fst].
      rewrite IH.
      * f_equal. apply list_eq. intros j. rewrite !lookup_zip_with. destruct (vs !! j) as [v|]; [|done]. cbn.
        destruct (trees !! j) as [t|]; [|done]. cbn. by rewrite (proj2 (Z.leb_gt _ _) Hw).
      * rewrite length_zip_with. lia.
      * destruct vs, trees; done.
      * apply Forall_lookup. intros j t. rewrite lookup_zip_with. destruct (vs !! j) as [v|]; [|done]. cbn.
        destruct (trees !! j) as [t0|] eqn:Ht; [|done]. cbn. intros [= <-]. rewrite Forall_lookup in Hla.
        by destruct (draft_layer_ok (width_at cfg d) d v t0 ltac:(lia) (Hla j t0 Ht)) as (_ & _ & _ & ? & _).
      * intros i Hi. pose proof (Hwo (S i) ltac:(lia)) as Hwi. by replace (d + 1 + Z.of_nat i) with (d + Z.of_nat (S i)) by lia.
Qed.

(** *** A worker, and all workers *)

(** The tree of one sequence, by itself. *)
Definition draft_sequence (cfg : draft_config) (v : list Z) (name : string) : SpeculativeTree :=
  draft_tree (Z.to_nat (depth_limit cfg)) cfg v 0 (new_tree (default 0 (last v)) name).

(** Sequences of tokens, each at least one long, in rows that may be longer. *)
Definition rows_ok (input_ids : list (list Z)) (seq_lengths : list Z) : Prop :=
  Forall2 (λ row n, 0 < n ≤ zlen row) input_ids seq_lengths.
Definition valid_rows (input_ids : list (list Z)) (seq_lengths : list Z) : list (list Z) :=
  zip_with (λ row n, take (Z.to_nat n) row) input_ids seq_lengths.

Lemma valid_rows_at input_ids seq_lengths b : rows_ok input_ids seq_lengths → (b < length input_ids)%nat →
  ∃ row n v, input_ids !! b = Some row ∧ seq_lengths !! b = Some n ∧ valid_rows input_ids seq_lengths !! b = Some v ∧
    v = py_slice row 0 n ∧ v ≠ [] ∧ zlen v = n.
Proof.
  intros Hok Hb. destruct (lookup_lt_is_Some_2 input_ids b Hb) as [row Hrow].
  destruct (Forall2_lookup_l _ _ _ b row Hok Hrow) as (n & Hn & Hrange). exists row, n, (take (Z.to_nat n) row).
  split; [done|]. split; [done|]. split; [unfold valid_rows; by rewrite lookup_zip_with, Hrow, Hn|].
  rewrite py_slice_nonneg by lia. rewrite Z.sub_0_r. split; [done|].
  assert (Hl : zlen (take (Z.to_nat n) row) = n) by (unfold zlen in *; rewrite length_take; lia).
  split; [|done]. intros E. rewrite E in Hl. unfold zlen in Hl. cbn in Hl. lia.
Qed.

Section workers.
Context (cfg : draft_config) (input_ids : list (list Z)) (seq_lengths : list Z) (name : nat → string).
Hypotheses (Hb : tree_budget cfg = None) (Hp : tree_min_log_prob cfg = None)
  (Hrows : rows_ok input_ids seq_lengths) (Hwo : widths_ok cfg (Z.to_nat (depth_limit cfg)) 0).

Definition drafted (b : nat) : SpeculativeTree := draft_sequence cfg (default [] (valid_rows input_ids seq_lengths !! b)) (name b).

Lemma batched_ok bs : bs ≠ [] → Forall (λ b, (b < length input_ids)%nat) bs →
  build_trees_batched math_log cfg bs input_ids seq_lengths name = Ok ((λ b, (b, drafted b)) <$> bs).
Proof.
  intros Hne Hbs. rewrite Forall_forall in Hbs. set (v := λ b, default [] (valid_rows input_ids seq_lengths !! b)).
  assert (Hv : ∀ b, b ∈ bs → v b ≠ []).
  { intros b Hin. destruct (valid_rows_at _ _ b Hrows (Hbs b Hin)) as (row & n & w & _ & _ & Hw & _ & Hwne & _). unfold v. by rewrite Hw. }
  unfold build_trees_batched.
  rewrite (mapM_Ok _ (λ b, (v b, zlen (v b) - 1, new_tree (default 0 (last (v b))) (name b)))).
  2:{ intros b Hin. destruct (valid_rows_at _ _ b Hrows (Hbs b Hin)) as (row & n & w & Hrow & Hn & Hw & Hsl & Hwne & Hwl).
      rewrite Hrow, Hn. cbn [of_option mbind res_bind]. rewrite <- Hsl. unfold v. rewrite Hw. cbn [default from_option id].
      destruct (exists_last Hwne) as (w' & x & Ew). rewrite Ew at 1. rewrite last_snoc. cbn [of_option mbind res_bind]. rewrite Ew, last_snoc.
      rewrite Z.max_l; [by rewrite <- Hwl, Ew|]. rewrite <- Hwl, Ew, zlen_app. pose proof (zlen_nonneg w'). change (zlen [x]) with 1. lia. }
  cbn [mbind res_bind]. rewrite <- !list_fmap_compose.
  change ((λ r : list Z * Z * SpeculativeTree, r.1.1) ∘ _) with v. change ((λ r : list Z * Z * SpeculativeTree, r.1.2) ∘ _) with ((λ w, zlen w - 1) ∘ v).
  rewrite (list_fmap_compose v (λ w, zlen w - 1)). set (vs := v <$> bs). set (ts := _ <$> bs).
  assert (Hvs : Forall (λ v, v ≠ []) vs) by (apply Forall_fmap, Forall_forall; exact Hv).
  assert (Hvne : vs ≠ []) by (by destruct bs).
  destruct (prefix_pass_ok cfg vs Hvs Hvne) as (cache & -> & Hcache). cbn [mbind res_bind].
  rewrite (expand_ok cfg vs cache (Z.to_nat (depth_limit cfg)) 0 ts Hb Hp Hcache Hvs); [| | | |exact Hwo].
  - cbn [mbind res_bind]. f_equal. apply list_eq. intros i. unfold vs, ts. rewrite list_lookup_fmap, !lookup_zip_with, !list_lookup_fmap.
    by destruct (bs !! i) as [b|].
  - unfold ts, vs. by rewrite !length_fmap.
  - unfold ts. by destruct bs.
  - apply Forall_fmap, Forall_forall. intros b _. apply layered_new.
Qed.

(** The cells once some workers have run. *)
Definition cells_ok (done : nat → Prop) (cells : list (option SpeculativeTree)) : Prop :=
  length cells = length input_ids ∧ ∀ b, (b < length input_ids)%nat →
    (cells !! b = Some None ∨ cells !! b = Some (Some (drafted b))) ∧ (done b → cells !! b = Some (Some (drafted b))).

Lemma write_results_ok finished bs cells : Forall (λ b, (b < length input_ids)%nat) bs → cells_ok finished cells →
  cells_ok (λ b, finished b ∨ b ∈ bs) (write_results (Ok ((λ b, (b, drafted b)) <$> bs)) cells).
Proof.
  unfold write_results. revert cells finished. induction bs as [|b bs IH]; intros cells finished Hbs [Hl Hc]; cbn [fmap list_fmap foldl].
  - split; [done|]. intros b Hlt. destruct (Hc b Hlt) as [H1 H2]. split; [done|]. intros [?|?%not_elem_of_nil]; [by apply H2|done].
  - apply Forall_cons in Hbs as [Hlb Hbs]. destruct (IH (<[b := Some (drafted b)]> cells) (λ b', finished b' ∨ b' = b) Hbs) as [Hl' Hc'].
    { split; [by rewrite length_insert|]. intros b' Hlt. destruct (Hc b' Hlt) as [H1 H2]. destruct (decide (b' = b)) as [->|Hne].
      - rewrite list_lookup_insert_eq by lia. split; [by right|done].
      - rewrite list_lookup_insert_ne by done. split; [done|]. intros [?|?]; [by apply H2|done]. }
    split; [done|]. intros b' Hlt. destruct (Hc' b' Hlt) as [H1 H2]. split; [done|]. intros [Hd|[->|Hin]%elem_of_cons]; apply H2; [by left; left|left; by right|by right].
Qed.

Lemma worker_range_spec (workers w b : nat) : (0 < workers)%nat →
  let chunk := (zlen input_ids + Z.of_nat workers - 1) / Z.of_nat workers in
  b ∈ worker_range (zlen input_ids) chunk w → (b < length input_ids)%nat.
Proof.
  intros Hw chunk. unfold worker_range. rewrite elem_of_seq. assert (0 ≤ chunk) by (apply Z.div_pos; unfold zlen; lia).
  assert (0 ≤ Z.of_nat w * chunk) by nia. unfold zlen in *. lia.
Qed.

(** Every sequence belongs to a worker. *)
Lemma worker_of (workers b : nat) : (0 < workers)%nat → (b < length input_ids)%nat →
  let chunk := (zlen input_ids + Z.of_nat workers - 1) / Z.of_nat workers in
  ∃ w, (w < workers)%nat ∧ Z.of_nat w * chunk < zlen input_ids ∧ b ∈ worker_range (zlen input_ids) chunk w.
Proof.
  intros Hw Hlb chunk. unfold zlen in *. set (B := Z.of_nat (length input_ids)) in *.
  assert (Hc : 0 < chunk ∧ B ≤ chunk * Z.of_nat workers).
  { unfold chunk. pose proof (Z.div_mod (B + Z.of_nat workers - 1) (Z.of_nat workers) ltac:(lia)) as Hd.
    pose proof (Z.mod_pos_bound (B + Z.of_nat workers - 1) (Z.of_nat workers) ltac:(lia)). split; [|nia].
    apply Z.div_str_pos. lia. }
  exists (Z.to_nat (Z.of_nat b / chunk)). pose proof (Z.div_mod (Z.of_nat b) chunk ltac:(lia)) as Hd.
  pose proof (Z.mod_pos_bound (Z.of_nat b) chunk ltac:(lia)). assert (0 ≤ Z.of_nat b / chunk) by (apply Z.div_pos; lia).
  assert (Z.of_nat b / chunk < Z.of_nat workers) by (apply Z.div_lt_upper_bound; lia).
  split; [lia|]. rewrite Z2Nat.id by lia. split; [nia|]. unfold worker_range. rewrite elem_of_seq, Z2Nat.id by lia. unfold B in *. lia.
Qed.

Lemma parallel_ok (workers : nat) order : (0 < workers)%nat → order ≡ₚ seq 0 workers →
  build_trees_parallel math_log cfg workers order input_ids seq_lengths name =
    Ok (Some <$> imap (λ b v, draft_sequence cfg v (name b)) (valid_rows input_ids seq_lengths)).
Proof.
  intros Hw Hord. unfold build_trees_parallel. rewrite (proj2 (Nat.eqb_neq _ 0)) by lia. f_equal.
  set (chunk := (zlen input_ids + Z.of_nat workers - 1) / Z.of_nat workers).
  set (step := λ (cells : list (option SpeculativeTree)) (w : nat), _).
  assert (Hgen : ∀ ws cells finished, cells_ok finished cells →
    cells_ok (λ b, finished b ∨ ∃ w, w ∈ ws ∧ Z.of_nat w * chunk < zlen input_ids ∧ b ∈ worker_range (zlen input_ids) chunk w) (foldl step cells ws)).
  { induction ws as [|w ws IH]; intros cells finished Hc; cbn [foldl].
    - destruct Hc as [Hl Hc]. split; [done|]. intros b Hlb. destruct (Hc b Hlb) as [H1 H2]. split; [done|].
      intros [?|(w & ?%not_elem_of_nil & _)]; [by apply H2|done].
    - assert (Hr : Forall (λ b, (b < length input_ids)%nat) (worker_range (zlen input_ids) chunk w)).
      { apply Forall_forall. intros b. by apply worker_range_spec. }
      assert (Hstep : cells_ok (λ b, finished b ∨ (Z.of_nat w * chunk < zlen input_ids ∧ b ∈ worker_range (zlen input_ids) chunk w)) (step cells w)).
      { unfold step. destruct (Z.ltb_spec (Z.of_nat w * chunk) (zlen input_ids)) as [Hlt|Hge].
        - destruct (worker_range (zlen input_ids) chunk w) as [|b0 bs0] eqn:E0.
          + exfalso. apply (f_equal length) in E0. unfold worker_range in E0. rewrite length_seq in E0. cbn in E0.
            assert (0 < chunk); [|lia]. assert (0 ≤ chunk) by (apply Z.div_pos; unfold zlen; lia).
            apply Z.div_str_pos. assert (0 ≤ Z.of_nat w * chunk) by nia. lia.
          + rewrite <- E0 in Hr |- *. rewrite batched_ok; [|by rewrite E0|done]. destruct (write_results_ok finished _ cells Hr Hc) as [Hl' Hc'].
            split; [done|]. intros b Hlb. destruct (Hc' b Hlb) as [H1 H2]. split; [done|]. intros [?|[_ ?]]; apply H2; [by left|by right].
        - destruct Hc as [Hl Hc]. split; [done|]. intros b Hlb. destruct (Hc b Hlb) as [H1 H2]. split; [done|]. intros [?|[? _]]; [by apply H2|lia]. }
      destruct (IH (step cells w) _ Hstep) as [Hl' Hc']. split; [done|]. intros b Hlb. destruct (Hc' b Hlb) as [H1 H2]. split; [done|].
      intros [Hd|(w' & [->|Hin]%elem_of_cons & Hlt & Hin')]; apply H2; [by left; left|by left; right|right; eauto]. }
  destruct (Hgen order (replicate (length input_ids) None) (λ _, False)) as [Hl Hc].
  { split; [by rewrite length_replicate|]. intros b Hlb. rewrite lookup_replicate_2 by done. split; [by left|done]. }
  apply list_eq. intros b. rewrite list_lookup_fmap, list_lookup_imap. destruct (decide (b < length input_ids)%nat) as [Hlb|Hge].
  - destruct (Hc b Hlb) as [_ ->].
    + destruct (valid_rows_at _ _ b Hrows Hlb) as (row & n & v & _ & _ & Hv & _). unfold drafted. by rewrite Hv.
    + right. destruct (worker_of workers b Hw Hlb) as (w & Hlw & Hlt & Hin). exists w. split; [|done].
      rewrite Hord. apply elem_of_seq. lia.
  - rewrite lookup_ge_None_2 by lia. unfold valid_rows. rewrite lookup_zip_with, (lookup_ge_None_2 input_ids) by lia. done.
Qed.
End workers.
End per_sequence.
