(* ===== verification/SpecPrompt.v ===== *)
(** * Speculative generation from a prompt (models/llama/speculative_model.py)

    The first round runs the prompt and the tree together in an empty cache. It compares the
    tree with the predictions of the prompt's positions instead of those of the tree's, so the
    state after it is one SpecRounds.v can start from when the first token of each path differs from the
    prediction after the first prompt token; an example shows what happens otherwise. With that,
    [generate] emits the greedy continuation of the prompt. *)

From stdpp Require Import numbers base strings list sorting relations.
From Stdlib Require Import ZArith Lia ZifyBool.
From S2P Require Import Prelude Floats SpecDecode SpecTree SpecCache SpecVerify SpecGenerate SpecRounds.

(** ** The prompt in an empty cache *)

Lemma visible_all {X} (m' : mask) q c (es : list X) : (∀ i, c ≤ i < c + zlen es → m_at m' q i = true) → visible m' q c es = es.
Proof.
  revert c. induction es as [|e es IH]; intros c Hc; [done|]. cbn [visible].
  assert (Hl : zlen (e :: es) = zlen es + 1) by (unfold zlen; cbn; lia). pose proof (zlen_nonneg es).
  rewrite Hc by lia. cbn. f_equal. apply IH. intros i Hi. apply Hc. lia.
Qed.

Section prompt.
Context {E L : Type} `{TM : TargetModel E L} `{TML : !TargetModelLaws E L} `{LO : LogitsOps L}.
Context (s toks rots : list Z) (m : mask).
Let n := zlen s.
Let outs := run_blocks [] m (zip (s ++ toks) rots).
Hypotheses (Hrots : length rots = length (s ++ toks)) (Hcausal : causal 0 (zlen (s ++ toks)) m).
Hypothesis Hmask : ∀ q c, 0 ≤ q < n → 0 ≤ c → m_at m q c = true ↔ c ≤ q.
Hypothesis Hrot : ∀ q r, Z.of_nat q < n → rots !! q = Some r → ∀ es t, cell es t r = cell es t (Z.of_nat q).

Lemma prompt_inputs : zlen (zip (s ++ toks) rots) = zlen (s ++ toks).
Proof using Hrots. unfold zlen. rewrite length_zip_with, Hrots. lia. Qed.

Lemma prompt_run : length outs = length (s ++ toks) ∧ ∀ q t r, zip (s ++ toks) rots !! q = Some (t, r) →
  outs !! q = Some (cell (visible m (Z.of_nat q) 0 (take q outs.*1)) t r).
Proof using Hrots Hcausal TML.
  destruct (run_blocks_cell [] m (zip (s ++ toks) rots)) as [H1 H2]; [by rewrite prompt_inputs|].
  split; [|exact H2]. fold outs in H1. rewrite H1, length_zip_with, Hrots. lia.
Qed.

Lemma prompt_at (q : nat) : Z.of_nat q < n → outs !! q = Some (cell_of (take (S q) s)) ∧ take (S q) outs.*1 = entries_of (take (S q) s).
Proof using Hrots Hcausal Hmask Hrot TML.
  destruct prompt_run as [Hlen Hat]. rewrite length_app in Hlen.
  induction q as [q IH] using lt_wf_ind. intros Hq. unfold n, zlen in Hq.
  destruct (lookup_lt_is_Some_2 s q) as [t Ht]; [lia|]. destruct (lookup_lt_is_Some_2 rots q) as [r Hr]; [rewrite Hrots, length_app; lia|].
  assert (Hprev : take q outs.*1 = entries_of (take q s)).
  { destruct q as [|q]; [done|]. apply IH; unfold n, zlen; lia. }
  assert (Hout : outs !! q = Some (cell_of (take (S q) s))).
  { rewrite (Hat q t r) by (rewrite lookup_zip_with, lookup_app_l, Ht, Hr by lia; done). f_equal.
    rewrite (take_S_r s q t Ht), cell_of_snoc, Hprev, visible_all.
    - rewrite (Hrot q r) by (unfold n, zlen; lia || done). f_equal. unfold zlen. rewrite length_take. lia.
    - intros i Hi. rewrite entries_of_length in Hi. unfold zlen in Hi. rewrite length_take in Hi. apply Hmask; unfold n, zlen; lia. }
  split; [done|]. rewrite (take_S_r outs.*1 q (cell_of (take (S q) s)).1) by (by rewrite list_lookup_fmap, Hout).
  by rewrite Hprev, (take_S_r s q t Ht), entries_of_snoc.
Qed.

(** The first tokens of the tree are compared with the prediction after the first prompt token. *)
Lemma prompt_extract h lin parents (Hla : laid_out h lin parents) (input_row : list Z) tree_len :
  0 < n → (∀ c, (c < length h)%nat → parent (h !!! c) = Some 0%nat → token_id (h !!! c) ≠ t_argmax (cell_of (take 1 s)).2) →
  ∃ checks, extract_row h (get_all_leaf_node_paths h 0) outs.*2 input_row [] tree_len n true =
    Ok (mkExtraction [] [n - 1] (t_argmax (cell_of s).2) checks).
Proof using Hrots Hcausal Hmask Hrot TML.
  intros Hn Hmiss. destruct prompt_run as [Hlen _]. rewrite length_app in Hlen.
  assert (Hseq : zlen outs.*2 = zlen s + zlen toks) by (unfold zlen; rewrite length_fmap; lia). pose proof (zlen_nonneg toks).
  assert (Hat : ∀ q, (Z.of_nat q < n) → outs.*2 !! q = Some (cell_of (take (S q) s)).2).
  { intros q Hq. destruct (prompt_at q Hq) as [Ho _]. by rewrite list_lookup_fmap, Ho. }
  assert (Hwalk : ∀ paths b, (∀ ns, ns ∈ paths → ∃ k, (k < length h)%nat ∧ ns = get_path_nodes_from_root h k) →
    best_verified b = [] → best_positions b = [] →
    ∃ b', best_of_paths h (zlen outs.*2) (n - 1) (t_argmax <$> outs.*2) paths b = Ok b' ∧ best_verified b' = [] ∧ best_positions b' = []).
  { induction paths as [|ns paths IH]; intros b Hns Hv Hp; [by exists b|]. cbn [best_of_paths].
    assert (∃ r, walk_path h (zlen outs.*2) (n - 1) (t_argmax <$> outs.*2) 0 ns = Ok ([], [], r)) as [r ->].
    { destruct (Hns ns) as (k & Hk & ->); [by left|]. destruct (path_hangs h lin parents Hla k Hk) as [Hh _].
      destruct (get_path_nodes_from_root h k) as [|c ns']; [by eexists|]. destruct Hh as (Hc & Hcl & _). cbn [walk_path].
      rewrite Hc. cbn [of_option mbind res_bind]. fold (slot h 0). rewrite (la_root _ _ _ Hla).
      assert (zlen (t_argmax <$> outs.*2) = zlen outs.*2) as -> by (unfold zlen; by rewrite !length_fmap).
      rewrite (proj2 (Z.leb_gt _ _)) by (fold n in Hseq; lia). cbn [orb]. rewrite py_index_nonneg by lia. change (Z.to_nat 0) with 0%nat.
      rewrite list_lookup_fmap, (Hat 0%nat) by lia. cbn [fmap option_fmap option_map of_option mbind res_bind].
      rewrite (proj2 (Z.eqb_neq _ _)) by (intros Heq; by apply (Hmiss c); [lia|done|]). by eexists. }
    cbn [mbind res_bind]. apply IH; [intros; apply Hns; by right| |]; unfold better; cbn [fst snd]; by destruct (_ <? _). }
  unfold extract_row. destruct (Hwalk (get_all_leaf_node_paths h 0) (mkBest (-1) [] [] 0 None)) as (b & -> & Hv & Hp); [|done..|].
  { intros ns Hns. by apply (leaf_path_trail h lin parents Hla). }
  cbn [mbind res_bind]. rewrite Hv, Hp. cbn [last]. rewrite py_slice_nonneg by (fold n in Hseq; lia).
  replace (Z.to_nat (n - (n - 1))) with 1%nat by lia.
  pose proof (Hat (Z.to_nat (n - 1)) ltac:(lia)) as Hl. replace (S (Z.to_nat (n - 1))) with (length s) in Hl by (unfold n, zlen in *; lia).
  rewrite firstn_all in Hl. rewrite (drop_S _ _ _ Hl). cbn. eauto.
Qed.
End prompt.

(** ** The first round *)

Section first.
Context {E L : Type} `{TM : TargetModel E L} `{TML : !TargetModelLaws E L} `{LO : LogitsOps L} (zero : E).
Context (contiguous : bool) (T : Z) (cap : nat) (slab : list (list E)) (n : Z) (ss : list (list Z)) (trees : list SpeculativeTree).

(** Prompts of one length without the tokens [prompt_length] leaves out, and room for them. *)
Record prompts_ok : Prop := mkPromptsOk {
  po_ne : ss ≠ [];
  po_pos : 0 < n;
  po_len : Forall (λ s, zlen s = n ∧ prompt_length s = n) ss;
  po_slab : sized cap slab;
  po_slab_len : (length ss ≤ length slab)%nat;
  po_room : n + T ≤ Z.of_nat cap;
}.

(** The largest tree is one the rotary positions of the first step are made for. *)
Definition first_fits : Prop :=
  Exists (λ t, 5 ≤ n + (total_nodes t - 1)) trees ∧ (contiguous = true → Exists (λ t, total_nodes t = 5) trees).

(** No path starts with the prediction after the first prompt token. *)
Definition misses (s : list Z) (t : SpeculativeTree) : Prop :=
  let h := nodes (linearize_tree_with_positions t).1 in
  ∀ c, (c < length h)%nat → parent (h !!! c) = Some 0%nat → token_id (h !!! c) ≠ t_argmax (cell_of (take 1 s)).2.

Hypotheses (Hpo : prompts_ok) (Htr : good_trees (TM := TM) contiguous T (length ss) trees) (Hfit : first_fits)
  (Hmiss : ∀ k s t, ss !! k = Some s → trees !! k = Some t → misses s t).

Let args : batch_args := mkBatchArgs n 0 (Some (prompt_length <$> ss)) true None.

Lemma first_lens : prompt_length <$> ss = replicate (length ss) n.
Proof using Hpo.
  pose proof (po_len Hpo) as Hl. clear Hpo Htr Hfit Hmiss args. induction Hl as [|s l [_ H] _ IH]; [done|]. cbn. by rewrite H, IH.
Qed.

Lemma first_prepared : ∃ mx ms, 0 < mx ≤ T ∧ 5 ≤ n + mx ∧ (contiguous = true → mx = 4) ∧ length ms = length ss ∧
  (∀ t, t ∈ trees → total_nodes t - 1 ≤ mx) ∧
  prepare_incremental_tree_batch trees args = Ok (fst ∘ linearize_tree_with_positions <$> trees,
    (tokens_of args mx <$> trees, Some ms, leaf_paths_of args mx <$> trees)) ∧
  Forall (λ l, zlen l = mx) (tokens_of args mx <$> trees) ∧
  ∀ k t m, trees !! k = Some t → ms !! k = Some m → causal 0 (n + mx) (crop (n + mx) (0 + (n + mx)) m) ∧
    ∀ q c, 0 ≤ q < n → 0 ≤ c → m_at m q c = true ↔ c ≤ q.
Proof.
  destruct Htr as (Hlt & Hgr & Hex & HT & Hrr). destruct Hpo as [Hne Hn Hlen _ _ Hroom].
  assert (Hcur : ∀ k, (k < length trees)%nat → seq_len_at args k = n).
  { intros k Hk. unfold seq_len_at, args. cbn. rewrite first_lens. by rewrite lookup_replicate_2 by lia. }
  destruct (prefill_batch trees args) as (mx & ms & (Hmx0 & Hmx1 & t0 & Ht0 & Hmx2) & Hms & Hprep & Htok & Hm).
  - eapply Forall_impl; [exact Hgr|]. intros t. apply grown_wf.
  - done.
  - done.
  - unfold seq_lengths_cover, args. cbn. rewrite length_fmap, Hlt. lia.
  - intros k Hk. rewrite Hcur by done. unfold args. cbn. lia.
  - rewrite Forall_forall in HT, Hrr, Hgr. destruct Hfit as [Hf1 Hf2]. apply Exists_exists in Hf1 as (t1 & Ht1 & Hf1).
    pose proof (Hmx1 t1 Ht1). pose proof (HT t0 Ht0) as HT0. cbn in HT0.
    exists mx, ms. split; [lia|]. split; [lia|]. split; [|split; [lia|split; [exact Hmx1|split; [exact Hprep|split; [exact Htok|]]]]].
    + intros Hct. apply Exists_exists in Hf2 as (t2 & Ht2 & Hf2); [|done]. pose proof (Hmx1 t2 Ht2). rewrite Hct in Hrr.
      specialize (Hrr t0 Ht0). cbn in Hrr. destruct Hrr as [_ H4].
      destruct (lin_row t0 (grown_wf t0 (Hgr t0 Ht0))) as (Hp & Hl & _). lia.
    + intros k t m Ht Hmk. specialize (Hm k t m Ht Hmk). cbv zeta in Hm.
      rewrite Hcur in Hm by (by eapply lookup_lt_Some). unfold args in Hm. cbn [ba_past_len] in Hm. destruct Hm as (R & C & A).
      pose proof (Hgr t ltac:(by eapply list_elem_of_lookup_2)) as Hg. destruct (lin_row t (grown_wf t Hg)) as (_ & _ & Hpok).
      split; [split; [cbn; lia|split; [cbn; lia|]]|].
      * intros q c Hq H0 Hc. cbn in Hc. apply A in Hc; [|lia|done]. destruct Hc as [?|[?|(? & ? & Hp)]]; [lia|lia|].
        apply (on_path_le _ Hpok) in Hp. lia.
      * intros q c Hq H0. rewrite A by lia. lia.
Qed.

(** The rotary positions of the first step. *)
Definition first_rotary (mx : Z) : list Z := py_range 0 (n + mx - 5) ++ ((λ d, n - 1 + d) <$> tree_depths 1 4 0).

Lemma first_rotary_spec mx : 5 ≤ n + mx →
  spec_rotary_position_ids (prompt_length <$> ss) None (n + mx) = Ok (replicate (length ss) (first_rotary mx)) ∧
  zlen (first_rotary mx) = n + mx ∧
  (mx = 4 → ∀ q r, Z.of_nat q < n → first_rotary mx !! q = Some r → r = Z.of_nat q).
Proof using Hpo.
  intros H5. assert (Hd : tree_depths 1 4 0 = [0; 1; 2; 3; 4]) by done. split; [|split].
  - unfold spec_rotary_position_ids, tree_position_ids. cbv zeta. rewrite first_lens, Hd.
    change (zlen [0; 1; 2; 3; 4]) with 5. rewrite (proj2 (Z.ltb_ge _ _)) by lia. unfold first_rotary. by rewrite Hd, !fmap_replicate.
  - unfold first_rotary. rewrite Hd, zlen_app. unfold py_range, zlen. rewrite length_seqZ. cbn. lia.
  - intros -> q r Hq. unfold first_rotary. rewrite Hd. unfold py_range. destruct (decide (Z.of_nat q < n - 1)) as [Hlt|Hge].
    + rewrite lookup_app_l by (rewrite length_seqZ; lia). rewrite lookup_seqZ_lt by lia. intros [= <-]. lia.
    + rewrite lookup_app_r by (rewrite length_seqZ; lia). rewrite length_seqZ.
      replace (q - Z.to_nat (n + 4 - 5 - 0))%nat with 0%nat by lia. cbn. intros [= <-]. lia.
Qed.

(** The outputs of a row. *)
Definition first_outs (mx : Z) (s : list Z) (t : SpeculativeTree) (m : mask) : list (E * L) :=
  run_blocks [] (crop (n + mx) (0 + (n + mx)) m) (zip (s ++ tokens_of args mx t) (first_rotary mx)).

Section served.
Context (mx : Z) (ms : list mask).
Hypotheses (Hmx : 0 < mx ≤ T) (H5 : 5 ≤ n + mx) (Hm4 : contiguous = true → mx = 4) (Hms : length ms = length ss)
  (Htok : Forall (λ l, zlen l = mx) (tokens_of args mx <$> trees)).
Hypothesis Hmask : ∀ k t m, trees !! k = Some t → ms !! k = Some m → causal 0 (n + mx) (crop (n + mx) (0 + (n + mx)) m) ∧
  ∀ q c, 0 ≤ q < n → 0 ≤ c → m_at m q c = true ↔ c ≤ q.

Lemma first_at k : (k < length ss)%nat → ∃ s t m row, ss !! k = Some s ∧ trees !! k = Some t ∧ ms !! k = Some m ∧ slab !! k = Some row ∧
  zlen s = n ∧ zlen (tokens_of args mx t) = mx.
Proof using Hpo Htr Hms Htok Hm4.
  intros Hk. destruct Htr as (Hlt & _). destruct Hpo as [_ _ Hl _ Hsl _].
  destruct (lookup_lt_is_Some_2 ss k) as [s Hs]; [lia|]. destruct (lookup_lt_is_Some_2 trees k) as [t Ht]; [lia|].
  destruct (lookup_lt_is_Some_2 ms k) as [m Hm]; [lia|]. destruct (lookup_lt_is_Some_2 slab k) as [row Hr]; [lia|].
  exists s, t, m, row. do 4 (split; [done|]). rewrite Forall_lookup in Hl. split; [by apply (Hl k)|].
  rewrite Forall_lookup in Htok. apply (Htok k). by rewrite list_lookup_fmap, Ht.
Qed.

Lemma first_row k s t m : ss !! k = Some s → trees !! k = Some t → ms !! k = Some m →
  length (first_outs mx s t m) = Z.to_nat (n + mx) ∧ take (Z.to_nat n) (first_outs mx s t m).*1 = entries_of s ∧
  ∀ input_row, ∃ checks, extract_row (nodes (linearize_tree_with_positions t).1) (leaf_paths_of args mx t) (first_outs mx s t m).*2
    input_row [] mx n true = Ok (mkExtraction [] [n - 1] (t_argmax (cell_of s).2) checks).
Proof using Hpo Htr Hms Htok Hmask H5 Hm4 Hmiss TML.
  intros Hs Ht Hm. destruct (first_at k) as (s' & t' & m' & row & Hs' & Ht' & Hm' & _ & Hsl & Htl); [by eapply lookup_lt_Some|].
  rewrite Hs in Hs'; rewrite Ht in Ht'; rewrite Hm in Hm'. injection Hs' as <-; injection Ht' as <-; injection Hm' as <-.
  destruct (Hmask k t m Ht Hm) as [Hca Hat]. pose proof (po_pos Hpo) as Hn. destruct (first_rotary_spec mx H5) as (_ & Hrl & Hr4).
  assert (Hlen : zlen (s ++ tokens_of args mx t) = n + mx) by (rewrite zlen_app; lia).
  assert (Hg : grown t).
  { destruct Htr as (_ & Hgr & _). rewrite Forall_lookup in Hgr. by apply (Hgr k). }
  assert (Hl' : length (first_rotary mx) = length (s ++ tokens_of args mx t)) by (unfold zlen in *; lia).
  assert (Hca' : causal 0 (zlen (s ++ tokens_of args mx t)) (crop (n + mx) (0 + (n + mx)) m)) by (by rewrite Hlen).
  assert (Hat' : ∀ q c, 0 ≤ q < zlen s → 0 ≤ c → m_at (crop (n + mx) (0 + (n + mx)) m) q c = true ↔ c ≤ q) by (rewrite Hsl; exact Hat).
  assert (Hrot : ∀ q r, Z.of_nat q < zlen s → first_rotary mx !! q = Some r → ∀ es tk,
    cell (TargetModel := TM) es tk r = cell es tk (Z.of_nat q)).
  { intros q r Hq Hr es tk. rewrite Hsl in Hq. destruct Htr as (_ & _ & _ & _ & Hrr). rewrite Forall_lookup in Hrr.
    specialize (Hrr k t Ht). unfold rotary_right in Hrr. destruct contiguous; [|apply Hrr].
    by rewrite (Hr4 (Hm4 eq_refl) q r Hq Hr). }
  split; [|split].
  - destruct (prompt_run s (tokens_of args mx t) (first_rotary mx) _ Hl' Hca') as [Hrun _]. unfold first_outs. rewrite Hrun. unfold zlen in Hlen. lia.
  - destruct (prompt_at s (tokens_of args mx t) (first_rotary mx) _ Hl' Hca' Hat' Hrot (Z.to_nat (n - 1))) as [_ Ho]; [lia|].
    unfold first_outs. replace (S (Z.to_nat (n - 1))) with (length s) in Ho by (unfold zlen in *; lia).
    replace (Z.to_nat n) with (length s) by (unfold zlen in *; lia). by rewrite firstn_all in Ho.
  - intros input_row. pose proof (Hmiss k s t Hs Ht) as Hmi. unfold misses in Hmi.
    destruct (prompt_extract s (tokens_of args mx t) (first_rotary mx) _ Hl' Hca' Hat' Hrot _ _ _ (linearized_laid_out t Hg) input_row mx)
      as [checks Hx]; [lia|exact Hmi|]. exists checks. rewrite Hsl in Hx. exact Hx.
Qed.

Let toks : list (list Z) := zip_with (λ row tree, py_slice row 0 n ++ tree) ss (tokens_of args mx <$> trees).

Lemma first_toks k s t : ss !! k = Some s → trees !! k = Some t → toks !! k = Some (s ++ tokens_of args mx t).
Proof.
  intros Hs Ht. unfold toks. rewrite lookup_zip_with, list_lookup_fmap, Hs, Ht. cbn. do 2 f_equal.
  pose proof (po_len Hpo) as Hl. rewrite Forall_lookup in Hl. destruct (Hl k s Hs) as [Hsl _]. pose proof (po_pos Hpo).
  rewrite py_slice_nonneg by lia. rewrite drop_0. apply firstn_all2. unfold zlen in Hsl. lia.
Qed.

Lemma first_served : ∃ slab' outs, spec_inference_step zero (prompt_length <$> ss) 0 None toks ms slab =
    (slab', Ok ((λ o : list (E * L), o.*2) <$> outs)) ∧ length outs = length ss ∧ sized cap slab' ∧ length slab' = length slab ∧
  ∀ k s t m, ss !! k = Some s → trees !! k = Some t → ms !! k = Some m →
    outs !! k = Some (first_outs mx s t m) ∧ ∃ rest, slab' !! k = Some (entries_of s ++ rest).
Proof using Hpo Htr Hms Htok Hmask H5 Hm4 Hmiss Hmx TML.
  destruct Htr as (Hlt & _). pose proof Hpo as [Hne Hn _ Hslab Hsll Hroom].
  destruct (first_rotary_spec mx H5) as (Hrotary & _).
  assert (Htl : length toks = length ss) by (unfold toks; rewrite length_zip_with, length_fmap; lia).
  assert (Hseq : match toks with row :: _ => zlen row | [] => 0 end = n + mx).
  { destruct (first_at 0) as (s & t & m & row & Hs & Ht & _ & _ & Hsl & Htl'); [destruct (length ss) eqn:E0; [by apply nil_length_inv in E0|lia]|].
    pose proof (first_toks 0 s t Hs Ht) as H0. destruct toks as [|row' rows]; [done|]. injection H0 as ->. rewrite zlen_app. lia. }
  set (outs := (λ x : list Z * SpeculativeTree * mask, first_outs mx x.1.1 x.1.2 x.2) <$> zip (zip ss trees) ms).
  assert (Hol : length outs = length ss) by (unfold outs; rewrite length_fmap, !length_zip_with; lia).
  assert (Hok : ∀ k s t m, ss !! k = Some s → trees !! k = Some t → ms !! k = Some m → outs !! k = Some (first_outs mx s t m)).
  { intros k s t m H1 H2 H3. unfold outs. by rewrite list_lookup_fmap, !lookup_zip_with, H1, H2, H3. }
  assert (Hkvs : sized (Z.to_nat (n + mx)) ((λ o : list (E * L), o.*1) <$> outs)).
  { apply list.Forall_fmap, Forall_lookup. intros k o Ho. cbn. rewrite length_fmap. destruct (first_at k) as (s & t & m & row & H1 & H2 & H3 & _).
    { apply lookup_lt_Some in Ho. lia. }
    rewrite (Hok k s t m H1 H2 H3) in Ho. injection Ho as <-. by apply (first_row k). }
  assert (Hwr : write_kvs 0 0 ((λ o : list (E * L), o.*1) <$> outs) slab =
    (write_rows 0 0 ((λ o : list (E * L), o.*1) <$> outs) slab, Ok tt)).
  { apply (write_kvs_fits 0 0 (Z.to_nat (n + mx)) cap); try done; [|lia|rewrite length_fmap; lia|lia].
    intros E0%(f_equal length). rewrite length_fmap, Hol in E0. by apply Hne, nil_length_inv. }
  destruct (write_rows_sized 0 0 (Z.to_nat (n + mx)) cap ((λ o : list (E * L), o.*1) <$> outs) slab) as [Hs' Hl'];
    [done|done|lia|rewrite length_fmap; lia|].
  eexists _, outs. split; [|split; [done|split; [exact Hs'|split; [exact Hl'|]]]].
  2:{ intros k s t m H1 H2 H3. split; [by apply Hok|]. destruct (first_at k) as (_ & _ & _ & row & _ & _ & _ & Hr & _); [by eapply lookup_lt_Some|].
      rewrite write_rows_lookup by (rewrite length_fmap; lia). rewrite Hr, Nat.sub_0_r, decide_True by lia.
      rewrite list_lookup_fmap, (Hok k s t m H1 H2 H3). cbn [fmap option_fmap option_map]. rewrite write_row_0.
      destruct (first_row k s t m H1 H2 H3) as (_ & He & _). set (cols := (first_outs mx s t m).*1) in *.
      exists (drop (Z.to_nat n) cols ++ drop (length cols) row). f_equal. by rewrite <- He, (assoc_L (++)), take_drop. }
  unfold spec_inference_step. rewrite Hseq, get_bind. unfold select_past, select_cache. cbn [Z.leb Z.compare mbind res_bind].
  rewrite lift_ok_bind. cbn [fst snd default from_option id]. rewrite Hrotary, lift_ok_bind.
  rewrite (mapM_seq_Ok _ outs); [|lia|].
  2:{ intros k o Ho. destruct (first_at k) as (s & t & m & row & H1 & H2 & H3 & _); [apply lookup_lt_Some in Ho; lia|].
      rewrite (Hok k s t m H1 H2 H3) in Ho. injection Ho as <-. rewrite !lookup_replicate_2, (first_toks k s t H1 H2), H3 by (apply lookup_lt_Some in H1; lia).
      done. }
  rewrite lift_ok_bind.
  assert (Hdo : do_reorder_task zero ((λ o : list (E * L), o.*1) <$> outs) None 0 (zlen toks) slab =
    (write_rows 0 0 ((λ o : list (E * L), o.*1) <$> outs) slab, Ok tt)).
  { unfold do_reorder_task, reorder_task. cbn [mbind option_bind]. by rewrite Hwr. }
  by rewrite (bind_ok _ _ _ _ _ Hdo).
Qed.
End served.

Lemma first_coherent s rest mxp : zlen s = n →
  coherent_row (H := TM) contiguous (s ++ greedy 1 s) (pad_row mxp [n - 1]) (entries_of s ++ rest).
Proof using Hpo.
  intros Hs. pose proof (po_pos Hpo) as Hn. assert (Hv : valid_ids (pad_row mxp [n - 1]) = [n - 1]) by (apply valid_pad_row; repeat constructor; lia).
  assert (Hk : kept_columns (pad_row mxp [n - 1]) = py_range 0 (zlen s)).
  { unfold kept_columns. rewrite Hv. cbn. unfold py_range. rewrite Hs. replace (n - 0) with (n - 1 - 0 + 1) by lia.
    rewrite seqZ_app by lia. f_equal. rewrite (seqZ_cons _ 1) by lia. by replace (0 + (n - 1 - 0)) with (n - 1) by lia. }
  split; rewrite ?Hk.
  - by rewrite Hv.
  - apply py_range_sorted.
  - apply Forall_forall. intros p. unfold py_range. rewrite elem_of_seqZ, zlen_app, entries_of_length. pose proof (zlen_nonneg rest). lia.
  - cbn [greedy]. rewrite removelast_last, <- (entries_of_length s). apply picks_prefix.
  - cbn [greedy]. rewrite zlen_app. unfold py_range. unfold zlen. rewrite length_seqZ. cbn. lia.
  - intros _. cbn [greedy]. rewrite zlen_app, Hs. unfold zlen at 1. cbn [length]. unfold max_valid. cbn [mjoin list_join]. rewrite app_nil_r, Hv.
    cbn. f_equal. lia.
Qed.

(** After the first round every prompt has one more token, the greedy one. *)
Lemma first_round cfg unmasked hist : drafter cfg ss (prompt_length <$> ss) = trees →
  logits_processors cfg = [] → has_eos_stopping_criteria cfg = false → use_kv_cache cfg = true →
  ∃ slab' st' ids llms, spec_iteration (session_forward zero unmasked (prompt_length <$> ss)) cfg (initial_state ss hist) slab = (slab', Ok st') ∧
    coherent contiguous T cap slab' st' ids llms ((λ s, s ++ greedy 1 s) <$> ss).
Proof.
  intros Hdr Hps Heos Huse. destruct first_prepared as (mx & ms & Hmx & H5 & Hm4 & Hms & Hle & Hprep & Htok & Hmask).
  pose proof Hpo as [Hne Hn Hlens Hslab Hsll Hroom]. pose proof Htr as (Hlt & _).
  destruct (first_served mx ms Hmx H5 Hm4 Hms Htok Hmask) as (slab' & outs & Hsrv & Hol & Hs' & Hl' & Houts).
  pose proof (first_row mx ms H5 Hm4 Hms Htok Hmask) as Hrow.
  assert (Hzl : prompt_length <$> ss = zlen <$> ss).
  { apply list_fmap_ext. intros k s Hs. rewrite Forall_lookup in Hlens. by destruct (Hlens k s Hs) as [-> ->]. }
  assert (Hlen : ∀ k s, ss !! k = Some s → zlen s = n) by (intros k s Hs; rewrite Forall_lookup in Hlens; by apply (Hlens k)).
  destruct (choose_list (λ k x, ∀ s t m, ss !! k = Some s → trees !! k = Some t → ms !! k = Some m → ∃ checks,
      x = mkExtraction [] [n - 1] (t_argmax (cell_of s).2) checks ∧
      extract_row (nodes (linearize_tree_with_positions t).1) (leaf_paths_of args mx t) (first_outs mx s t m).*2 s [] mx n true = Ok x)
    (length ss)) as (xs & Hxl & Hxs).
  { intros k Hk. destruct (first_at mx ms Hm4 Hms Htok k Hk) as (s & t & m & row & H1 & H2 & H3 & _).
    destruct (Hrow k s t m H1 H2 H3) as (_ & _ & Hx). destruct (Hx s) as [checks Hc].
    exists (mkExtraction [] [n - 1] (t_argmax (cell_of s).2) checks). intros. simplify_eq. eauto. }
  assert (Hx : ∀ k x, xs !! k = Some x → ∃ s checks, ss !! k = Some s ∧ x = mkExtraction [] [n - 1] (t_argmax (cell_of s).2) checks).
  { intros k x Hk. destruct (first_at mx ms Hm4 Hms Htok k) as (s & t & m & row & H1 & H2 & H3 & _); [apply lookup_lt_Some in Hk; lia|].
    destruct (Hxs k x Hk s t m H1 H2 H3) as (checks & -> & _). eauto. }
  assert (Hver : verify_trees_with_forward (session_forward zero unmasked (prompt_length <$> ss)) cfg (initial_state ss hist) trees slab =
    (slab', Ok (verification_of xs))).
  { unfold verify_trees_with_forward, initial_state.
    cbn [current_input_ids SpecVerify.is_first_iteration kept_positions SpecVerify.seq_lengths].
    replace (match ss with row :: _ => zlen row | [] => 0 end) with n.
    2:{ symmetry. assert (∀ l : list (list Z), l ≠ [] → Forall (λ s, zlen s = n ∧ prompt_length s = n) l →
          match l with row :: _ => zlen row | [] => 0 end = n) as Hz by (by intros [|s0 l] ? Hf; [done|apply Forall_inv in Hf as [? ?]]).
        by apply Hz. }
    fold args. rewrite Hprep, lift_ok_bind.
    assert (Htl : match tokens_of args mx <$> trees with row :: _ => zlen row | [] => 0 end = mx).
    { destruct (first_at mx ms Hm4 Hms Htok 0) as (s & t & m & row & _ & Ht & _ & _ & _ & Htl).
      { destruct (length ss) eqn:E0; [by apply nil_length_inv in E0|lia]. }
      pose proof (list_lookup_fmap (tokens_of args mx) trees 0) as H0. rewrite Ht in H0.
      destruct (tokens_of args mx <$> trees); [done|]. by injection H0 as ->. }
    rewrite Htl, (proj2 (Z.eqb_neq mx 0)), Huse by lia. cbn [negb].
    assert (Hmax : (match prompt_length <$> ss with [] => Raise RuntimeError | l :: ls => Ok (foldl Z.max l ls) end : res Z) = Ok n).
    { rewrite first_lens. destruct (length ss) eqn:E0; [by apply nil_length_inv in E0|]. rewrite replicate_S. f_equal.
      clear. induction n0 as [|n0 IH]; [done|]. cbn. by rewrite Z.max_id. }
    rewrite Hmax, (bind_ok _ _ slab slab' ((λ o : list (E * L), o.*2) <$> outs)) by (rewrite lift_ok_bind; exact Hsrv).
    unfold lift. f_equal.
    rewrite Hps. apply extract_batch; [rewrite length_fmap; lia|intros ->; by apply Hne, nil_length_inv|].
    intros k x Hk. destruct (first_at mx ms Hm4 Hms Htok k) as (s & t & m & row & H1 & H2 & H3 & _); [apply lookup_lt_Some in Hk; lia|].
    destruct (Houts k s t m H1 H2 H3) as (Ho & _). destruct (Hxs k x Hk s t m H1 H2 H3) as (checks & _ & He).
    exists n, (first_outs mx s t m).*2, (leaf_paths_of args mx t), (nodes (linearize_tree_with_positions t).1).
    rewrite first_lens, !list_lookup_fmap, H2, Ho, H1, lookup_replicate_2 by (apply lookup_lt_Some in H1; lia). done. }
  destruct (update_batch (pad_token_id cfg) ss ss xs eq_refl Hxl Hne) as (rows & Hup & Hrl & Hrows).
  { intros k s row H1 H2. rewrite H1 in H2. injection H2 as <-. apply firstn_all. }
  assert (Hss : zip_with extended ss xs = (λ s, s ++ greedy 1 s) <$> ss).
  { apply list_eq. intros k. rewrite lookup_zip_with, list_lookup_fmap. destruct (ss !! k) as [s|] eqn:Hs; [|done].
    destruct (lookup_lt_is_Some_2 xs k) as [x Hk]; [apply lookup_lt_Some in Hs; lia|]. rewrite Hk. cbn.
    destruct (Hx k x Hk) as (s' & checks & Hs0 & ->). rewrite Hs in Hs0. by injection Hs0 as <-. }
  eexists slab', _, ((λ x, pad_row (max_length (x_positions <$> xs)) (x_positions x)) <$> xs), (x_llm_token <$> xs). split.
  { unfold spec_iteration.
    change (current_input_ids (initial_state ss hist)) with ss.
    change (SpecVerify.seq_lengths (initial_state ss hist)) with (prompt_length <$> ss). rewrite Hdr, (bind_ok _ _ _ _ _ Hver).
    unfold if_eos. rewrite Heos.
    replace ((λ rows : list (list Z), rows) <$> verified_tokens (verification_of xs)) with (verified_tokens (verification_of xs))
      by (by destruct (verified_tokens _)).
    rewrite Hzl, Hup, lift_ok_bind. reflexivity. }
  rewrite <- Hss.
  split; cbn [SpecVerify.is_first_iteration kept_positions SpecVerify.llm_generated_token current_input_ids SpecVerify.seq_lengths fst snd];
    rewrite ?length_fmap, ?length_zip_with; try done; try lia.
  + intros E0%(f_equal length). rewrite length_zip_with in E0. cbn in E0. destruct (length ss) eqn:E1; [by apply nil_length_inv in E1|lia].
  + intros k s' idr row Hs'' Hi Hr. rewrite Hss, list_lookup_fmap in Hs''. destruct (ss !! k) as [s|] eqn:Hs; [|done].
    cbn in Hs''. injection Hs'' as <-. rewrite list_lookup_fmap in Hi. destruct (xs !! k) as [x|] eqn:Hk; [|done]. cbn in Hi. injection Hi as <-.
    destruct (Hx k x Hk) as (s0 & checks & Hs0 & ->). rewrite Hs in Hs0. injection Hs0 as <-. cbn [x_positions].
    destruct (first_at mx ms Hm4 Hms Htok k) as (s0 & t & m & row0 & H1 & H2 & H3 & _); [by eapply lookup_lt_Some|].
    rewrite Hs in H1. injection H1 as <-. destruct (Houts k s t m Hs H2 H3) as (_ & rest & Hrest). rewrite Hrest in Hr. injection Hr as <-.
    by apply first_coherent, (Hlen k).
  + intros k s' idr Hs'' Hi. rewrite Hss, list_lookup_fmap in Hs''. destruct (ss !! k) as [s|] eqn:Hs; [|done].
    cbn in Hs''. injection Hs'' as <-. rewrite list_lookup_fmap in Hi. destruct (xs !! k) as [x|] eqn:Hk; [|done]. cbn in Hi. injection Hi as <-.
    destruct (Hx k x Hk) as (s0 & checks & Hs0 & ->). cbn [x_positions]. rewrite valid_pad_row by (repeat constructor; lia).
    repeat constructor. rewrite zlen_app, (Hlen k s Hs). unfold zlen. cbn. lia.
  + intros k s' Hs''. rewrite Hss, list_lookup_fmap in Hs''. destruct (ss !! k) as [s|] eqn:Hs; [|done]. cbn in Hs''. injection Hs'' as <-.
    rewrite list_lookup_fmap, last_snoc. destruct (lookup_lt_is_Some_2 xs k) as [x Hk]; [apply lookup_lt_Some in Hs; lia|].
    rewrite Hk. destruct (Hx k x Hk) as (s0 & checks & Hs0 & ->). rewrite Hs in Hs0. by injection Hs0 as <-.
Qed.
End first.

(** ** Stopping criteria that never stop *)

Section never_stops.
Context {L S : Type} `{LO : LogitsOps L} (forward_call : option (list (list Z)) → list (list Z) → option (list mask) → M S (list (list L))).
Context (cfg : @gen_config L) (Hstop : ∀ rows, stopping_criteria cfg rows = replicate (length rows) false).

Lemma updated_length pad inputs v llm lens vl u : update_input_ids_with_padding inputs v llm vl lens pad = Ok u → length u.1 = length inputs.
Proof.
  unfold update_input_ids_with_padding. destruct (zip_with _ lens vl); [done|]. cbv zeta.
  destruct (mapM _ (seq 0 (length inputs))) as [rows|] eqn:Hm; [|done]. intros [= <-]. cbn.
  apply mapM_res_length in Hm. by rewrite Hm, length_seq.
Qed.

Lemma iteration_unfinished st s s' st' : spec_iteration forward_call cfg st s = (s', Ok st') →
  unfinished_sequences st = replicate (length (current_input_ids st)) true →
  unfinished_sequences st' = replicate (length (current_input_ids st')) true.
Proof using Hstop.
  intros (s1 & v & _ & (s2 & u & Hu & Hr)%bind_inv_ok)%bind_inv_ok Hst. unfold mret, M_ret in Hr. injection Hr as <- <-.
  cbn [unfinished_sequences current_input_ids]. unfold lift in Hu. injection Hu as _ Hu. apply updated_length in Hu as Hlen.
  rewrite Hstop, Hst, Hlen. generalize (length (current_input_ids st)). clear. induction n as [|n IH]; [done|]. cbn. by rewrite IH.
Qed.

Lemma never_stops fuel initial_len finished st s s' st' :
  spec_loop forward_call fuel cfg initial_len finished st s = (s', Ok st') →
  unfinished_sequences st = replicate (length (current_input_ids st)) true →
  unfinished_sequences st' = replicate (length (current_input_ids st')) true.
Proof using Hstop.
  revert finished st s. induction fuel as [|fuel IH]; intros finished st s Hl Hst; cbn [spec_loop] in Hl;
    apply bind_inv_ok in Hl as (s1 & go & _ & Hl); destruct go; cbn [negb] in Hl; try done.
  1,3: unfold mret, M_ret in Hl; by injection Hl as <- <-.
  apply bind_inv_ok in Hl as (s2 & st1 & Hit & Hl). eapply IH; [exact Hl|]. by eapply iteration_unfinished.
Qed.
End never_stops.

(** ** Generation *)

Section generation.
Context {E L : Type} `{TM : TargetModel E L} `{TML : !TargetModelLaws E L} `{LO : LogitsOps L} (zero : E).
Hypothesis Hnz : ∀ es t r, t_all_zero (cell (TargetModel := TM) es t r).2 = false.
Context (contiguous : bool) (T : Z) (cap fuel : nat) (cfg : @gen_config L).

(** From a state between two rounds: with the cache space and the fuel for the token budget, the
    loop ends without an error, every sequence is then extended by greedy tokens of the target
    model, and either each has the budget or the stopping criteria ended it. *)
Lemma speculation_is_greedy unmasked prefill initial_len slab st ids llms ss :
  greedy_config (TM := TM) contiguous T cfg → coherent (TM := TM) contiguous T cap slab st ids llms ss →
  (∀ s, s ∈ ss → zlen s + Z.of_nat fuel * (T + 1) + 2 * T + 1 ≤ Z.of_nat cap) →
  (∀ s, s ∈ ss → initial_len + max_new_tokens cfg - zlen s ≤ Z.of_nat fuel) →
  ∃ slab' st' (ns : list nat),
    spec_loop (session_forward zero unmasked prefill) fuel cfg initial_len false st slab = (slab', Ok st') ∧ length ns = length ss ∧
    (∀ k s n, ss !! k = Some s → ns !! k = Some n →
      ∃ row, current_input_ids st' !! k = Some row ∧ take (length s + n) row = s ++ greedy n s) ∧
    ((∀ k s n, ss !! k = Some s → ns !! k = Some n → initial_len + max_new_tokens cfg ≤ zlen s + Z.of_nat n) ∨
     forallb negb (unfinished_sequences st') = true).
Proof.
  intros Hcfg Hco Hroom Hfuel. destruct (spec_loop_ok zero Hnz contiguous T cap cfg initial_len Hcfg unmasked prefill fuel false
    slab st ids llms ss Hco) as (slab' & st' & ids' & llms' & ns & Hl & Hn & Hco' & Hend); [done..|].
  exists slab', st', ns. split; [done|]. split; [done|]. split; [by eapply coherent_inputs|]. destruct Hend as [Hend|]; [left|by right].
  intros k s n Hs Hk. rewrite Forall_lookup in Hend. specialize (Hend k (s ++ greedy n s)).
  rewrite lookup_zip_with, Hs, Hk in Hend. specialize (Hend eq_refl). rewrite zlen_app in Hend. unfold zlen at 2 in Hend.
  by rewrite greedy_length in Hend.
Qed.

Lemma generate_result unmasked n slab ss hist :
  let trees := drafter cfg ss (prompt_length <$> ss) in
  greedy_config (TM := TM) contiguous T cfg → prompts_ok T cap slab n ss → first_fits contiguous n trees →
  (∀ k s t, ss !! k = Some s → trees !! k = Some t → misses (TM := TM) s t) →
  0 < max_new_tokens cfg ≤ Z.of_nat fuel → n + Z.of_nat fuel * (T + 1) + 2 * T + 1 ≤ Z.of_nat cap →
  ∃ slab' st' ids' llms' (ns : list nat),
    spec_loop (session_forward zero unmasked (prompt_length <$> ss)) fuel cfg n false (initial_state ss hist) slab = (slab', Ok st') ∧
    length ns = length ss ∧ coherent (TM := TM) contiguous T cap slab' st' ids' llms' (zip_with (λ s m, s ++ greedy m s) ss ns) ∧
    (Forall (λ m, max_new_tokens cfg ≤ Z.of_nat m) ns ∨ forallb negb (unfinished_sequences st') = true).
Proof.
  intros trees Hcfg Hpo Hfit Hmiss Hmax Hcap. pose proof Hpo as [Hne Hn Hlens _ _ _].
  assert (Hpl : prompt_length <$> ss ≠ []) by (by destruct ss).
  assert (Htr : good_trees (TM := TM) contiguous T (length ss) trees).
  { pose proof (gc_drafts _ _ _ Hcfg ss _ Hpl) as Hd. rewrite length_fmap in Hd. apply Hd.
    apply Forall2_same_length_lookup_2; [by rewrite length_fmap|]. intros k s m Hs Hm. rewrite list_lookup_fmap, Hs in Hm. injection Hm as <-.
    rewrite Forall_lookup in Hlens. destruct (Hlens k s Hs) as [-> ->]. lia. }
  assert (HT : 0 < T).
  { destruct Htr as (_ & _ & Hex & HTt & _). apply Exists_exists in Hex as (t & Ht & H1). rewrite Forall_forall in HTt.
    specialize (HTt t Ht). cbn in HTt. lia. }
  destruct fuel as [|fuel']; [lia|].
  destruct (first_round zero contiguous T cap slab n ss trees Hpo Htr Hfit Hmiss cfg unmasked hist eq_refl (gc_processors _ _ _ Hcfg)
    (gc_eos _ _ _ Hcfg) (gc_cache _ _ _ Hcfg)) as (slab1 & st1 & ids1 & llms1 & Hit & Hco1).
  assert (Hg : ∀ s, s ∈ (λ s, s ++ greedy 1 s) <$> ss → zlen s = n + 1).
  { intros s (s0 & -> & Hin)%list_elem_of_fmap. rewrite Forall_forall in Hlens. destruct (Hlens s0 Hin) as [<- _]. by rewrite zlen_app. }
  destruct (spec_loop_ok zero Hnz contiguous T cap cfg n Hcfg unmasked (prompt_length <$> ss) fuel'
    (forallb negb (unfinished_sequences st1)) slab1 st1 ids1 llms1 _ Hco1) as (slab2 & st2 & ids2 & llms2 & ns & Hl & Hns & Hco2 & Hend).
  { done. }
  { intros s Hs%Hg. nia. }
  { intros s Hs%Hg. lia. }
  rewrite length_fmap in Hns.
  assert (Hz : zip_with (λ s m, s ++ greedy m s) ((λ s, s ++ greedy 1 s) <$> ss) ns = zip_with (λ s m, s ++ greedy m s) ss (S <$> ns)).
  { clear -Hns. revert ns Hns. induction ss as [|s l IH]; intros [|m ns] Hns; try done. injection Hns as Hns.
    rewrite !fmap_cons. cbn [zip_with]. rewrite IH by done. f_equal. rewrite <- (assoc_L (++)). by rewrite <- greedy_add. }
  exists slab2, st2, ids2, llms2, (S <$> ns). split; [|split; [by rewrite length_fmap|split; [by rewrite <- Hz|]]].
  - cbn [spec_loop]. assert (keep_going cfg n false (initial_state ss hist) = Ok true) as ->; [|rewrite lift_ok_bind; cbn [negb]; by rewrite (bind_ok _ _ _ _ _ Hit)].
    assert (Hsl : SpecVerify.seq_lengths (initial_state ss hist) = zlen <$> ss).
    { cbn. apply list_fmap_ext. intros k s Hs. rewrite Forall_lookup in Hlens. by destruct (Hlens k s Hs) as [-> ->]. }
    destruct (keep_going_spec cfg n (initial_state ss hist) ss Hsl Hne) as [[? _]|[_ Hall]]; [done|].
    exfalso. rewrite Forall_forall in Hall, Hlens. destruct ss as [|s l]; [done|]. specialize (Hall s ltac:(by left)).
    destruct (Hlens s ltac:(by left)) as [Hs _]. cbn in Hall. lia.
  - destruct Hend as [Hend|]; [left|by right]. apply Forall_fmap, Forall_lookup. intros k m Hk. rewrite Forall_lookup in Hend.
    destruct (lookup_lt_is_Some_2 ss k) as [s Hs]; [apply lookup_lt_Some in Hk; lia|]. rewrite Forall_lookup in Hlens.
    destruct (Hlens k s Hs) as [Hsl _]. specialize (Hend k (s ++ greedy (S m) s)).
    rewrite Hz, lookup_zip_with, Hs, list_lookup_fmap, Hk in Hend. specialize (Hend eq_refl). rewrite zlen_app in Hend.
    unfold zlen at 2 in Hend. rewrite greedy_length in Hend. cbn. lia.
Qed.

(** Speculative generation is greedy decoding. For prompts of one length without the token
    ids the length count leaves out, trees a drafter can grow, no logits processors and stopping
    criteria that do not stop, cache slabs with room for the budget and the trees, rotary
    positions that are right for the trees, and no drafted path that starts with the prediction
    after the first prompt token, [generate] returns without an error, and every sequence it
    returns is its prompt followed by at least the token budget of greedy tokens of the model. *)
Lemma generate_is_greedy unmasked n slab ss hist :
  let trees := drafter cfg ss (prompt_length <$> ss) in
  greedy_config (TM := TM) contiguous T cfg → prompts_ok T cap slab n ss → first_fits contiguous n trees →
  (∀ k s t, ss !! k = Some s → trees !! k = Some t → misses (TM := TM) s t) →
  0 < max_new_tokens cfg ≤ Z.of_nat fuel → n + Z.of_nat fuel * (T + 1) + 2 * T + 1 ≤ Z.of_nat cap →
  (∀ rows, stopping_criteria cfg rows = replicate (length rows) false) →
  ∃ slab' out (ns : list nat), generate zero unmasked fuel cfg ss hist slab = (slab', Ok out) ∧ length ns = length ss ∧
    Forall (λ m, max_new_tokens cfg ≤ Z.of_nat m) ns ∧
    ∀ k s m, ss !! k = Some s → ns !! k = Some m → ∃ row, out !! k = Some row ∧ take (length s + m) row = s ++ greedy m s.
Proof.
  intros trees Hcfg Hpo Hfit Hmiss Hmax Hcap Hstop. pose proof Hpo as [Hne Hn Hlens _ _ _].
  destruct (generate_result unmasked n slab ss hist Hcfg Hpo Hfit Hmiss Hmax Hcap) as (slab' & st' & ids' & llms' & ns & Hl & Hns & Hco & Hend).
  exists slab', (current_input_ids st'), ns. split; [|split; [done|split; [|by eapply coherent_inputs]]].
  - unfold generate, sample_with_session. replace (match ss with row :: _ => zlen row | [] => 0 end) with n; [by rewrite (bind_ok _ _ _ _ _ Hl)|].
    destruct ss as [|s l]; [done|]. apply Forall_inv in Hlens as [? _]. done.
  - destruct Hend as [|Hend]; [done|]. exfalso.
    pose proof (never_stops _ cfg Hstop fuel n false (initial_state ss hist) slab slab' st' Hl) as Hu.
    rewrite Hu in Hend; [|cbn; apply list_eq; intros k; rewrite list_lookup_fmap; destruct (ss !! k) as [s|] eqn:Hs;
      [rewrite lookup_replicate_2 by (by eapply lookup_lt_Some); done|symmetry; apply lookup_replicate_None; by apply lookup_ge_None in Hs]].
    rewrite (c_inputs_len _ _ _ _ _ _ _ _ Hco), length_zip_with, Hns, Nat.min_id in Hend. destruct ss; done.
Qed.
End generation.

(** ** A small model *)

Section toy.
Definition toy_cell (es : list Z) (t r : Z) : Z * Z := (t + r, (foldr Z.add 0 es + t + 2 * r) mod 5 + 3).
Definition toy_run (past : list Z) (m : mask) (inputs : list (Z * Z)) : list (Z * Z) :=
  foldl (λ acc i, acc ++ [toy_cell (visible m (zlen acc) 0 (past ++ acc.*1)) i.1 i.2]) [] inputs.
#[local] Instance toy_model : TargetModel Z Z := {| run_blocks := toy_run; cell := toy_cell |}.
#[local] Instance toy_logits : LogitsOps Z := {| t_argmax := id; t_all_zero := λ _, false; t_draw := id |}.

#[local] Instance toy_laws : TargetModelLaws Z Z.
Proof.
  intros past m inputs _. cbn [run_blocks cell toy_model].
  induction inputs as [|[t r] inputs [IH1 IH2]] using rev_ind; [done|]. unfold toy_run in *. rewrite foldl_app. cbn [foldl].
  set (acc := foldl _ [] inputs) in *. split; [rewrite !length_app; cbn; lia|]. intros q t' r' Hq.
  destruct (decide (q < length inputs)%nat) as [Hlt|Hge].
  - rewrite lookup_app_l in Hq by done. rewrite lookup_app_l by lia. rewrite fmap_app, take_app_le by (rewrite length_fmap; lia). by apply IH2.
  - apply lookup_lt_Some in Hq as Hl. rewrite length_app in Hl. cbn in Hl. assert (q = length inputs) as -> by lia.
    rewrite lookup_app_r, Nat.sub_diag in Hq by lia. injection Hq as <- <-. rewrite lookup_app_r, IH1, Nat.sub_diag by lia.
    rewrite fmap_app, take_app_length' by (by rewrite length_fmap). unfold zlen. by rewrite IH1.
Qed.

(** A chain of four drafted tokens. *)
Definition chain_tree (a b c d : Z) : SpeculativeTree :=
  (add_layer [3%nat] [[(d, float_one)]] (add_layer [2%nat] [[(c, float_one)]] (add_layer [1%nat] [[(b, float_one)]]
    (add_layer [0%nat] [[(a, float_one)]] (new_tree 0 "r")).1).1).1).1.

Lemma chain_grown a b c d : grown (chain_tree a b c d).
Proof. repeat (apply grown_layer; [|repeat constructor; cbn; lia]). apply grown_new. Qed.

Definition toy_config (trees : list (list Z) → list Z → list SpeculativeTree) (max_new : Z) : @gen_config Z :=
  mkConfig trees [] (λ rows, replicate (length rows) false) false 0 2 true max_new.
Definition toy_prompts : list (list Z) := [[3; 4]; [5; 6]].
Definition toy_trees (a b c d : Z) (inputs : list (list Z)) (lens : list Z) := replicate (length lens) (chain_tree a b c d).
Definition toy_slab : list (list Z) := replicate 2 (replicate 40 0).
Definition toy_generate a b c d := generate 0 (λ _ _, mthrow RuntimeError) 4 (toy_config (toy_trees a b c d) 4) toy_prompts None toy_slab.


Lemma toy_nz : ∀ (es : list Z) (t r : Z), t_all_zero (cell es t r).2 = false.
Proof. done. Qed.

Lemma toy_good a b c d n : (0 < n)%nat → good_trees (E := Z) (L := Z) true 4 n (replicate n (chain_tree a b c d)).
Proof.
  intros Hn. assert (Hall : ∀ P : SpeculativeTree → Prop, P (chain_tree a b c d) → Forall P (replicate n (chain_tree a b c d))).
  { intros P HP. by apply Forall_replicate. }
  split; [by rewrite length_replicate|]. split; [by apply Hall, chain_grown|]. split; [|split].
  - destruct n; [lia|]. by left.
  - by apply Hall.
  - by apply Hall.
Qed.

Lemma toy_greedy_config a b c d max_new : greedy_config (E := Z) true 4 (toy_config (toy_trees a b c d) max_new).
Proof. split; try done. intros inputs lens Hl _. apply toy_good. destruct lens; [done|cbn; lia]. Qed.

Lemma toy_prompts_ok : prompts_ok 4 40 toy_slab 2 toy_prompts.
Proof. split; try done; repeat constructor. Qed.

Lemma toy_fits a b c d : first_fits true 2 (replicate 2 (chain_tree a b c d)).
Proof. split; [|intros _]; by left. Qed.

Lemma toy_misses k s t : toy_prompts !! k = Some s → replicate 2 (chain_tree 7 5 3 3) !! k = Some t → misses (E := Z) s t.
Proof.
  intros Hs Ht. apply lookup_replicate in Ht as [-> _]. unfold misses. cbv zeta. intros c Hc Hp.
  assert (c = 1%nat) as ->.
  { do 5 (destruct c as [|c]; [vm_compute in Hp; congruence|]). vm_compute in Hc. lia. }
  destruct k as [|[|k]]; [by injection Hs as <-|by injection Hs as <-|done].
Qed.

Lemma speculation_is_greedy_witness : ∃ slab st ids llms ss,
  coherent (E := Z) true 4 40 slab st ids llms ss ∧
  ∃ slab' st', spec_loop (session_forward 0 (λ _ _, mthrow RuntimeError) [2; 2]) 4 (toy_config (toy_trees 7 5 3 3) 4) 2 false st slab
    = (slab', Ok st').
Proof.
  destruct (first_round (E := Z) 0 true 4 40 toy_slab 2 toy_prompts _ toy_prompts_ok (toy_good 7 5 3 3 2 ltac:(lia)) (toy_fits 7 5 3 3) toy_misses
    (toy_config (toy_trees 7 5 3 3) 4) (λ _ _, mthrow RuntimeError) None eq_refl eq_refl eq_refl eq_refl) as (slab & st & ids & llms & _ & Hco).
  exists slab, st, ids, llms, ((λ s, s ++ greedy 1 s) <$> toy_prompts). split; [exact Hco|].
  destruct (speculation_is_greedy (E := Z) 0 toy_nz true 4 40 4 (toy_config (toy_trees 7 5 3 3) 4) (λ _ _, mthrow RuntimeError) [2; 2] 2
    slab st ids llms _ (toy_greedy_config 7 5 3 3 4) Hco) as (slab' & st' & ns & Hl & _).
  - intros s [->|[->|[]%not_elem_of_nil]%elem_of_cons]%elem_of_cons; vm_compute; discriminate.
  - intros s [->|[->|[]%not_elem_of_nil]%elem_of_cons]%elem_of_cons; vm_compute; discriminate.
  - exists slab', st'. exact Hl.
Defined.

Lemma generate_is_greedy_witness : ∃ slab' out (ns : list nat), toy_generate 7 5 3 3 = (slab', Ok out) ∧ length ns = 2%nat ∧
  ∃ row m, out !! 1%nat = Some row ∧ 4 ≤ Z.of_nat m ∧ take (2 + m) row = [5; 6] ++ greedy m [5; 6].
Proof.
  destruct (generate_is_greedy (E := Z) 0 toy_nz true 4 40 4 (toy_config (toy_trees 7 5 3 3) 4) (λ _ _, mthrow RuntimeError) 2 toy_slab toy_prompts None
    (toy_greedy_config 7 5 3 3 4) toy_prompts_ok (toy_fits 7 5 3 3) toy_misses) as (slab' & out & ns & Hg & Hn & Hm & Hout).
  - cbn. lia.
  - lia.
  - intros rows. reflexivity.
  - exists slab', out, ns. split; [exact Hg|]. split; [exact Hn|]. destruct (lookup_lt_is_Some_2 ns 1) as [m Hk]; [rewrite Hn; cbn; lia|].
    destruct (Hout 1%nat [5; 6] m eq_refl Hk) as (row & Hr & Ht). exists row, m. split; [exact Hr|]. split; [|exact Ht].
    rewrite Forall_lookup in Hm. exact (Hm 1%nat m Hk).
Defined.

(** A path that starts with the prediction after the first prompt token, [5] here: its token is
    accepted and the second sequence is not the greedy one. *)
Lemma first_step_misaligned : (toy_generate 3 5 3 3).2 = Ok [[3; 4; 7; 7; 3; 6]; [5; 6; 3; 6; 7; 4]] ∧
  greedy 4 [3; 4] = [7; 7; 3; 6] ∧ greedy 4 [5; 6] = [6; 5; 4; 3].
Proof. vm_compute. done. Qed.
End toy.
