(* ===== verification/SpecDrafted.v ===== *)
(** * Speculative generation with the drafter

    The trees SpecDrafter.v drafts are trees the rounds of SpecRounds.v can be run with: grown layer
    by layer, with as many tokens as the widths say, and chains when every width is one. So
    [generate] with the drafter emits the greedy continuation of the target model, whatever the
    draft model proposes, however many workers draft and in whatever order they finish. *)

From stdpp Require Import numbers base strings list.
From Stdlib Require Import ZArith Lia ZifyBool.
From S2P Require Import Prelude Floats SpecDecode SpecTree SpecCache SpecVerify SpecGenerate SpecRounds SpecDrafter SpecPrompt.

(** ** The size and shape of drafted trees *)

(** The drafted tokens under a frontier of [running] nodes: the sum of the products of the widths. *)
Fixpoint tree_size (n : nat) (cfg : draft_config) (d running : Z) : Z :=
  match n with
  | O => 0
  | S n =>
      let w := width_at cfg d in
      if w <=? 0 then 0 else running * w + tree_size n cfg (d + 1) (running * w)
  end.

Section shape.
Context {C DL : Type} `{DM : DraftModel C DL} `{DML : !DraftModelLaws C DL}.

Lemma draft_tree_ok n cfg ctx d t : widths_ok cfg n d → layered d t →
  grown (draft_tree n cfg ctx d t) ∧
  total_nodes (draft_tree n cfg ctx d t) = total_nodes t + tree_size n cfg d (zlen (get_nodes_at_depth t d)).
Proof.
  revert d t. induction n as [|n IH]; intros d t Hw Hla; cbn [draft_tree tree_size].
  { split; [apply Hla|lia]. }
  pose proof (Hw 0%nat ltac:(lia)) as Hw0. rewrite Z.add_0_r in Hw0.
  destruct (Z.leb_spec (width_at cfg d) 0) as [Hle|Hgt]; [split; [apply Hla|lia]|].
  assert (Hwv : 0 < width_at cfg d ≤ vocab_size) by lia.
  destruct (draft_layer_ok (C:=C) (L:=DL) (width_at cfg d) d ctx t Hwv Hla) as (_ & _ & _ & Hla' & Hlen & Htot).
  destruct (IH (d + 1) (draft_layer (width_at cfg d) d ctx t)) as [Hg Ht]; [|done|].
  { intros i Hi. specialize (Hw (S i) ltac:(lia)). by replace (d + 1 + Z.of_nat i) with (d + Z.of_nat (S i)) by lia. }
  split; [done|]. rewrite Ht, Htot. unfold zlen. rewrite Hlen, Nat2Z.inj_mul, Z2Nat.id by lia. rewrite (Z.mul_comm (width_at cfg d)). lia.
Qed.

Lemma draft_sequence_ok cfg v name : widths_ok cfg (Z.to_nat (depth_limit cfg)) 0 →
  grown (draft_sequence cfg v name) ∧ total_nodes (draft_sequence cfg v name) = 1 + tree_size (Z.to_nat (depth_limit cfg)) cfg 0 1.
Proof. intros Hw. apply (draft_tree_ok _ _ _ 0 (new_tree _ _) Hw (layered_new _ _)). Qed.

(** Widths of one make a chain. *)
Lemma candidates_one ctx : 1 ≤ vocab_size → ∃ c, candidates_after 1 ctx = [c].
Proof.
  intros Hv. assert (H1 : 0 ≤ 1 ≤ vocab_size) by lia. pose proof (candidates_length 1 ctx H1) as Hl. destruct (candidates_after 1 ctx) as [|c [|]]; try done. by exists c.
Qed.

Lemma chain_unbranched n cfg ctx root name : (n ≤ 4)%nat → (∀ i, (i < n)%nat → width_at cfg (Z.of_nat i) = 1) → 1 ≤ vocab_size →
  unbranched (draft_tree n cfg ctx 0 (new_tree root name)).
Proof.
  intros Hn Hw Hv.
  assert (Hstep : ∀ d m t, width_at cfg d = 1 → get_nodes_at_depth t d = [m] → ∃ c, draft_layer (width_at cfg d) d ctx t = (add_layer [m] [[c]] t).1).
  { intros d m t Hwd Hm. unfold draft_layer. rewrite Hwd, Hm. cbn [fmap list_fmap].
    destruct (candidates_one (ctx ++ get_path_from_root (nodes t) m) Hv) as [c ->]. by exists c. }
  destruct n as [|n]; [split; done|]. cbn [draft_tree]. assert (W0 : width_at cfg 0 = 1) by apply (Hw 0%nat ltac:(lia)).
  destruct (Hstep 0 0%nat (new_tree root name) W0 eq_refl) as [[t0 p0] ->]. rewrite W0. change (1 <=? 0) with false. cbn [andb].
  destruct n as [|n]; [split; done|]. cbn [draft_tree]. assert (W1 : width_at cfg 1 = 1) by apply (Hw 1%nat ltac:(lia)).
  destruct (Hstep (0 + 1) 1%nat (add_layer [0%nat] [[(t0, p0)]] (new_tree root name)).1 W1 eq_refl) as [[t1 p1] ->].
  change (0 + 1) with 1. rewrite W1. change (1 <=? 0) with false. cbn [andb].
  destruct n as [|n]; [split; done|]. cbn [draft_tree]. assert (W2 : width_at cfg 2 = 1) by apply (Hw 2%nat ltac:(lia)).
  match goal with |- context [draft_layer _ (1 + 1) ctx ?t] => destruct (Hstep (1 + 1) 2%nat t W2 eq_refl) as [[t2 p2] ->] end.
  change (1 + 1) with 2. rewrite W2. change (1 <=? 0) with false. cbn [andb].
  destruct n as [|n]; [split; done|]. cbn [draft_tree]. assert (W3 : width_at cfg 3 = 1) by apply (Hw 3%nat ltac:(lia)).
  match goal with |- context [draft_layer _ (2 + 1) ctx ?t] => destruct (Hstep (2 + 1) 3%nat t W3 eq_refl) as [[t3 p3] ->] end.
  change (2 + 1) with 3. rewrite W3. change (1 <=? 0) with false. cbn [andb].
  destruct n as [|n]; [split; done|lia].
Qed.
End shape.

(** ** Generation *)

Section drafted.
Context {E L C DL : Type} `{TM : TargetModel E L} `{TML : !TargetModelLaws E L} `{LO : LogitsOps L}
  `{DM : DraftModel C DL} `{DML : !DraftModelLaws C DL} (math_log : float → float) (zero : E).
Hypothesis Hnz : ∀ es t r, t_all_zero (cell (TargetModel := TM) es t r).2 = false.

(** The drafter a call of [generate] is given. *)
Definition drafter_of (dcfg : draft_config) (workers : nat) (order : list nat) (input_ids : list (list Z)) (seq_lengths : list Z)
    : list SpeculativeTree :=
  match build_trees_parallel math_log dcfg workers order input_ids seq_lengths (λ b, ("req_" +:+ pretty.pretty b)%string) with
  | Ok cells => omap id cells
  | Raise _ => []
  end.

(** Trees without pruning, of at least one layer; if rotary positions matter, chains of at most four. *)
Record drafts_ok (contiguous : bool) (dcfg : draft_config) (workers : nat) (order : list nat) : Prop := mkDraftsOk {
  do_budget : tree_budget dcfg = None;
  do_threshold : tree_min_log_prob dcfg = None;
  do_workers : (0 < workers)%nat;
  do_order : order ≡ₚ seq 0 workers;
  do_depth : 0 < depth_limit dcfg;
  do_widths i : (i < Z.to_nat (depth_limit dcfg))%nat → 0 < width_at dcfg (Z.of_nat i) ≤ vocab_size;
  do_shape : if contiguous then depth_limit dcfg ≤ 4 ∧ ∀ i, (i < Z.to_nat (depth_limit dcfg))%nat → width_at dcfg (Z.of_nat i) = 1
    else ∀ es t r r', cell (TargetModel := TM) es t r = cell es t r';
}.

Definition draft_size (dcfg : draft_config) : Z := tree_size (Z.to_nat (depth_limit dcfg)) dcfg 0 1.

Lemma drafter_of_ok contiguous dcfg workers order input_ids seq_lengths : drafts_ok contiguous dcfg workers order →
  rows_ok input_ids seq_lengths →
  drafter_of dcfg workers order input_ids seq_lengths =
    imap (λ b v, draft_sequence dcfg v ("req_" +:+ pretty.pretty b)%string) (valid_rows input_ids seq_lengths).
Proof.
  intros Hdo Hrows. unfold drafter_of.
  rewrite (parallel_ok math_log dcfg input_ids seq_lengths _ (do_budget _ _ _ _ Hdo) (do_threshold _ _ _ _ Hdo) Hrows); [|
    |apply (do_workers _ _ _ _ Hdo)|apply (do_order _ _ _ _ Hdo)].
  - induction (imap _ _) as [|t l IH]; [done|]. rewrite fmap_cons. cbn. f_equal. exact IH.
  - intros i Hi. rewrite Z.add_0_l. apply (do_widths _ _ _ _ Hdo i Hi).
Qed.

Lemma draft_size_pos contiguous dcfg workers order : drafts_ok contiguous dcfg workers order → 0 < draft_size dcfg.
Proof.
  intros Hdo. unfold draft_size. pose proof (do_depth _ _ _ _ Hdo). pose proof (do_widths _ _ _ _ Hdo) as Hw.
  assert (Hnn : ∀ n d r, 0 ≤ r → 0 ≤ tree_size n dcfg d r).
  { induction n as [|n IH]; intros d r Hr; cbn [tree_size]; [lia|]. destruct (Z.leb_spec (width_at dcfg d) 0); [lia|].
    specialize (IH (d + 1) (r * width_at dcfg d) ltac:(nia)). nia. }
  destruct (Z.to_nat (depth_limit dcfg)) as [|n] eqn:En; [lia|]. cbn [tree_size]. specialize (Hw 0%nat ltac:(lia)). change (Z.of_nat 0) with 0 in Hw.
  rewrite (proj2 (Z.leb_gt _ _)) by lia. specialize (Hnn n (0 + 1) (1 * width_at dcfg 0) ltac:(lia)). lia.
Qed.

(** The drafter always answers with good trees. *)
Lemma drafter_good contiguous dcfg workers order input_ids seq_lengths : drafts_ok contiguous dcfg workers order →
  seq_lengths ≠ [] → rows_ok input_ids seq_lengths →
  good_trees (TM := TM) contiguous (draft_size dcfg) (length seq_lengths) (drafter_of dcfg workers order input_ids seq_lengths).
Proof.
  intros Hdo Hne Hrows. rewrite (drafter_of_ok contiguous) by done. pose proof (Forall2_length _ _ _ Hrows) as Hlen.
  assert (Hvl : length (valid_rows input_ids seq_lengths) = length seq_lengths) by (unfold valid_rows; rewrite length_zip_with; lia).
  assert (Hw : widths_ok dcfg (Z.to_nat (depth_limit dcfg)) 0).
  { intros i Hi. rewrite Z.add_0_l. apply (do_widths _ _ _ _ Hdo i Hi). }
  assert (Hall : ∀ t, t ∈ imap (λ b v, draft_sequence dcfg v ("req_" +:+ pretty.pretty b)%string) (valid_rows input_ids seq_lengths) →
    grown t ∧ total_nodes t = 1 + draft_size dcfg ∧ ∃ v name, t = draft_sequence dcfg v name).
  { intros t (b & v & -> & _)%elem_of_lookup_imap. destruct (draft_sequence_ok dcfg v ("req_" +:+ pretty.pretty b)%string Hw) as [H1 H2].
    split; [done|]. split; [done|]. eauto. }
  pose proof (draft_size_pos _ _ _ _ Hdo) as Hpos. split; [by rewrite length_imap|]. split; [|split; [|split]].
  - apply Forall_forall. intros t Ht. by apply Hall.
  - destruct (valid_rows input_ids seq_lengths) as [|v l] eqn:Hv; [destruct seq_lengths; [done|cbn in Hvl; lia]|].
    cbn [imap]. left. destruct (draft_sequence_ok dcfg v ("req_" +:+ pretty.pretty 0%nat)%string Hw) as [_ ->]. unfold draft_size in Hpos. lia.
  - apply Forall_forall. intros t Ht. destruct (Hall t Ht) as (_ & -> & _). lia.
  - apply Forall_forall. intros t Ht. destruct (Hall t Ht) as (_ & _ & v & name & ->). pose proof (do_shape _ _ _ _ Hdo) as Hsh.
    unfold rotary_right. destruct contiguous; [|exact Hsh]. destruct Hsh as [H4 H1]. apply chain_unbranched; [lia|done|].
    pose proof (do_widths _ _ _ _ Hdo 0%nat ltac:(pose proof (do_depth _ _ _ _ Hdo); lia)). lia.
Qed.

(** A greedy configuration with the drafter. *)
Definition drafted_config (dcfg : draft_config) (workers : nat) (order : list nat) (stopping : list (list Z) → list bool)
    (pad eos max_new : Z) : @gen_config L :=
  mkConfig (drafter_of dcfg workers order) [] stopping false pad eos true max_new.

Lemma drafted_greedy_config contiguous dcfg workers order stopping pad eos max_new : drafts_ok contiguous dcfg workers order →
  greedy_config (TM := TM) contiguous (draft_size dcfg) (drafted_config dcfg workers order stopping pad eos max_new).
Proof. intros Hdo. split; try done. intros inputs lens Hne Hrows. by apply drafter_good. Qed.

(** Drafting. Whatever the number of workers and the order in which they finish, each
    sequence of the batch gets the tree it would be drafted alone: layers of the draft model's
    best candidates after each root path, without influence from padding or from other
    sequences. The tree is grown layer by layer and has one node more than the sum of the
    products of the widths. *)
Lemma drafts_alone dcfg workers order input_ids seq_lengths name :
  tree_budget dcfg = None → tree_min_log_prob dcfg = None → (0 < workers)%nat → order ≡ₚ seq 0 workers →
  rows_ok input_ids seq_lengths → widths_ok dcfg (Z.to_nat (depth_limit dcfg)) 0 →
  let trees := imap (λ b v, draft_sequence dcfg v (name b)) (valid_rows input_ids seq_lengths) in
  build_trees_parallel math_log dcfg workers order input_ids seq_lengths name = Ok (Some <$> trees) ∧
  Forall (λ t, grown t ∧ total_nodes t = 1 + draft_size dcfg) trees.
Proof using DML.
  intros Hb Hp Hw Hord Hrows Hwo trees. split; [by apply parallel_ok|].
  apply Forall_forall. intros t (b & v & -> & _)%elem_of_lookup_imap. by apply draft_sequence_ok.
Qed.

(** C28: Speculative generation with the drafter is greedy decoding. For prompts of one length
    without the token ids the length count leaves out, drafting without pruning, no logits
    processors and stopping criteria that do not stop, cache slabs with room for the budget and
    the trees, chains of four where rotary positions matter, and no drafted path that starts
    with the prediction after the first prompt token, [generate] returns without an error, and
    every sequence it returns is its prompt followed by at least the token budget of greedy
    tokens of the target model, whatever the draft model proposes. *)
Theorem drafted_generation_is_greedy contiguous dcfg workers order stopping pad eos max_new (cap fuel : nat) unmasked n slab ss hist :
  let T := draft_size dcfg in let cfg := drafted_config dcfg workers order stopping pad eos max_new in
  drafts_ok contiguous dcfg workers order → prompts_ok T cap slab n ss → 5 ≤ n + T → (contiguous = true → T = 4) →
  (∀ k s t, ss !! k = Some s → drafter_of dcfg workers order ss (prompt_length <$> ss) !! k = Some t → misses (TM := TM) s t) →
  0 < max_new ≤ Z.of_nat fuel → n + Z.of_nat fuel * (T + 1) + 2 * T + 1 ≤ Z.of_nat cap →
  (∀ rows, stopping rows = replicate (length rows) false) →
  ∃ slab' out (ns : list nat), generate zero unmasked fuel cfg ss hist slab = (slab', Ok out) ∧ length ns = length ss ∧
    Forall (λ m, max_new ≤ Z.of_nat m) ns ∧
    ∀ k s m, ss !! k = Some s → ns !! k = Some m → ∃ row, out !! k = Some row ∧ take (length s + m) row = s ++ greedy m s.
Proof.
  intros T cfg Hdo Hpo H5 H4 Hmiss Hmax Hcap Hstop.
  assert (Hrows : rows_ok ss (prompt_length <$> ss)).
  { pose proof (po_len _ _ _ _ _ Hpo) as Hl. pose proof (po_pos _ _ _ _ _ Hpo). apply Forall2_same_length_lookup_2; [by rewrite length_fmap|].
    intros k s m Hs Hm. rewrite list_lookup_fmap, Hs in Hm. injection Hm as <-. rewrite Forall_lookup in Hl. destruct (Hl k s Hs) as [-> ->]. lia. }
  assert (Hsize : ∃ t, t ∈ drafter_of dcfg workers order ss (prompt_length <$> ss) ∧ total_nodes t = 1 + T).
  { rewrite (drafter_of_ok contiguous) by done. pose proof (po_ne _ _ _ _ _ Hpo) as Hne.
    destruct (valid_rows_at _ _ 0 Hrows) as (row & m & v & _ & _ & Hv & _); [destruct ss; [done|cbn; lia]|].
    exists (draft_sequence dcfg v ("req_" +:+ pretty.pretty 0%nat)%string). split; [apply elem_of_lookup_imap; eauto|].
    apply draft_sequence_ok. intros i Hi. rewrite Z.add_0_l. apply (do_widths _ _ _ _ Hdo i Hi). }
  destruct Hsize as (t & Ht & Hsz).
  apply (generate_is_greedy zero Hnz contiguous T cap fuel cfg unmasked n slab ss hist); try done.
  - by apply drafted_greedy_config.
  - split; [|intros Hc; specialize (H4 Hc)]; apply Exists_exists; exists t; (split; [exact Ht|lia]).
Qed.
End drafted.

(** ** A small draft model *)

Section toy.
Definition toy_ssm (cache : option (list (list Z) * list (list bool) * list nat)) (paths : list (list Z)) (masks : list (list bool)) : list (list Z) :=
  imap (λ i path,
    let prefix := match cache with Some (rows, _, idx) => default [] (idx !! i ≫= λ j, rows !! j) | None => [] end in
    attended (prefix ++ path) (default [] (masks !! i))) paths.
#[local] Instance toy_draft_model : DraftModel (list (list Z) * list (list bool)) (list Z) := {|
  ssm_prefix rows masks := (rows, masks);
  ssm_logits := toy_ssm;
  logits_of := id;
  vocab_size := 10;
  t_topk k l := seqZ (foldr Z.add 0 l mod 3 + 4) k;
  t_prob _ _ := float_one;
|}.
#[local] Instance toy_draft_laws : DraftModelLaws (list (list Z) * list (list bool)) (list Z).
Proof.
  split.
  - intros prefixes pmasks idx paths masks _ _. split; [apply length_imap|].
    intros i j prefix pmask path m Hi Hj _ Hp Hm _ _ _. cbn. unfold toy_ssm. rewrite list_lookup_imap, Hp. cbn. rewrite Hi. cbn. by rewrite Hj, Hm.
  - intros paths masks _. split; [apply length_imap|]. intros i path m Hp Hm _ _. cbn. unfold toy_ssm. rewrite list_lookup_imap, Hp. cbn. by rewrite Hm.
  - intros k l Hk. cbn in *. split; [unfold zlen; rewrite length_seqZ; lia|apply NoDup_seqZ].
Qed.

Definition toy_log (x : float) : float := x.
Definition toy_dcfg : draft_config := mkDraft (WidthPlan [1; 1; 1; 1]) 8 None None 0.
Definition bushy_dcfg : draft_config := mkDraft (Uniform 2) 2 None None 0.

Lemma drafts_alone_witness : ∃ trees, build_trees_parallel toy_log bushy_dcfg 2 [1; 0]%nat [[3; 4]; [5; 6; 0]; [7; 0; 0]] [2; 2; 1] (λ _, ""%string)
  = Ok (Some <$> trees) ∧ Forall (λ t, total_nodes t = 7) trees.
Proof.
  destruct (drafts_alone toy_log bushy_dcfg 2 [1; 0]%nat [[3; 4]; [5; 6; 0]; [7; 0; 0]] [2; 2; 1] (λ _, ""%string)) as [H1 H2].
  - reflexivity.
  - reflexivity.
  - lia.
  - apply (Permutation_swap 0%nat 1%nat []).
  - repeat (constructor; [vm_compute; split; [done|discriminate]|]). constructor.
  - intros i _. vm_compute. discriminate.
  - eexists. split; [exact H1|]. eapply Forall_impl; [exact H2|]. intros t [_ Ht]. exact Ht.
Defined.

#[local] Existing Instance toy_model.
#[local] Existing Instance toy_logits.
#[local] Existing Instance toy_laws.

Lemma toy_drafts_ok : drafts_ok (E := Z) (L := Z) true toy_dcfg 2 [0; 1]%nat.
Proof.
  split; try done; try lia. 
  - intros i Hi. change (Z.to_nat (depth_limit toy_dcfg)) with 4%nat in Hi. do 4 (destruct i as [|i]; [vm_compute; split; [done|discriminate]|]). lia.
  - split; [done|]. intros i Hi. change (Z.to_nat (depth_limit toy_dcfg)) with 4%nat in Hi. do 4 (destruct i as [|i]; [done|]). lia.
Qed.

(** [misses], decided *)
Definition missesb (s : list Z) (t : SpeculativeTree) : bool :=
  let h := nodes (linearize_tree_with_positions t).1 in
  forallb (λ c, negb (bool_decide (parent (h !!! c) = Some 0%nat) && (token_id (h !!! c) =? t_argmax (cell_of (take 1 s)).2))) (seq 0 (length h)).

Lemma missesb_misses s t : missesb s t = true → misses (E := Z) s t.
Proof.
  unfold missesb, misses. cbv zeta. rewrite forallb_forall. intros Hall c Hc Hp Ht.
  specialize (Hall c ltac:(apply in_seq; lia)). rewrite bool_decide_true, Ht, Z.eqb_refl in Hall by done. done.
Qed.

Lemma forallb_zip_lookup {A B} (f : A * B → bool) (l : list A) (m : list B) k a b :
  forallb f (zip l m) = true → l !! k = Some a → m !! k = Some b → f (a, b) = true.
Proof.
  rewrite forallb_forall. intros Hall Ha Hb. apply Hall, list_elem_of_In, (list_elem_of_lookup_2 _ k). by rewrite lookup_zip_with, Ha, Hb.
Qed.

Lemma toy_trees_miss : forallb (λ x : list Z * SpeculativeTree, missesb x.1 x.2)
  (zip toy_prompts (drafter_of toy_log toy_dcfg 2 [0; 1]%nat toy_prompts (prompt_length <$> toy_prompts))) = true.
Proof. vm_compute. reflexivity. Qed.

Lemma toy_drafts_miss k s t : toy_prompts !! k = Some s →
  drafter_of toy_log toy_dcfg 2 [0; 1]%nat toy_prompts (prompt_length <$> toy_prompts) !! k = Some t → misses (E := Z) s t.
Proof. intros Hs Ht. apply missesb_misses. exact (forallb_zip_lookup _ _ _ _ _ _ toy_trees_miss Hs Ht). Qed.

Lemma drafted_generation_is_greedy_witness : ∃ slab' out (ns : list nat),
  generate 0 (λ _ _, mthrow RuntimeError) 4 (drafted_config toy_log toy_dcfg 2 [0; 1]%nat (λ rows, replicate (length rows) false) 0 2 4) toy_prompts None
    toy_slab = (slab', Ok out) ∧ length ns = 2%nat ∧
  ∃ row m, out !! 1%nat = Some row ∧ 4 ≤ Z.of_nat m ∧ take (2 + m) row = [5; 6] ++ greedy m [5; 6].
Proof.
  destruct (drafted_generation_is_greedy (E := Z) toy_log 0 toy_nz true toy_dcfg 2 [0; 1]%nat (λ rows, replicate (length rows) false) 0 2 4 40 4
    (λ _ _, mthrow RuntimeError) 2 toy_slab toy_prompts None toy_drafts_ok toy_prompts_ok) as (slab' & out & ns & Hg & Hn & Hm & Hout).
  - vm_compute. discriminate.
  - reflexivity.
  - exact toy_drafts_miss.
  - lia.
  - vm_compute. discriminate.
  - intros rows. reflexivity.
  - exists slab', out, ns. split; [exact Hg|]. split; [exact Hn|]. destruct (lookup_lt_is_Some_2 ns 1) as [m Hk]; [rewrite Hn; cbn; lia|].
    destruct (Hout 1%nat [5; 6] m eq_refl Hk) as (row & Hr & Ht). exists row, m. split; [exact Hr|]. split; [|exact Ht].
    rewrite Forall_lookup in Hm. exact (Hm 1%nat m Hk).
Defined.
End toy.
