(* ===== verification/SpecPruned.v ===== *)
(** * Speculative generation with pruning on the server

    SpecGenerate.v's round of one sequence when the last block prunes (SpecPrune.v), sends the
    kept vectors (SpecRestore.v) and the client verifies what it has laid out again
    (SpecVerify.v): the accepted tokens are still the greedy ones, if no draft token is the one
    a row of zeros seems to predict and the rotary positions are right (chains, or a model that
    does not use them). Two small models show what happens without that condition,
    and when the pruner drops the end of a prompt. *)

From stdpp Require Import numbers base list sorting relations.
From Stdlib Require Import ZArith Lia ZifyBool.
From S2P Require Import Prelude Floats SpecDecode SpecTree SpecPrune SpecCache SpecRestore SpecVerify SpecGenerate SpecPrompt.

Section delivery.
Context {HL HV : Type} `{PrunerHead HL} (zv : HV) (is_zero : HV → bool) (rms_norm : HV → HV) (mid_head : HV → HL)
  (create_pruner : PruningMethod → res pruner_stats) (vocab_size : Z).
Notation pruner_manager := (@manager pruner_stats).

(** The simple pruner on normed hidden states. *)
Definition prune_hidden (norm_hidden_states : list (list HV)) (draft_tokens : list (list Z)) (tree_attention_mask : list mask)
    : M pruner_stats prune_result :=
  simple_prune_branches vocab_size ((λ row : list HV, mid_head <$> row) <$> norm_hidden_states) draft_tokens tree_attention_mask.

(** [prune_draft_tree]; the copy the manager gets of the indices is read nowhere. *)
Definition prune_draft_tree (norm_hidden_states : list (list HV)) (draft_tokens : list (list Z)) (tree_attention_mask : list mask)
    : M pruner_manager (list (list Z)) :=
  results ← prune_speculation_tree create_pruner prune_hidden norm_hidden_states draft_tokens tree_attention_mask;
  mret (keep_indices results.1).

(** One sequence on its way through the last block to the client: its vectors after the block,
    and what the client lays out. *)
Definition pruned_delivery (m : mask) (tokens : list Z) (hidden_states : list HV) (cache_len : Z) : M pruner_manager (list HV) :=
  sent ← step_output true true true (prune_draft_tree [rms_norm <$> hidden_states] [tokens] [m]) KMissing [hidden_states] cache_len;
  rows ← lift (session_restore_hidden_states zv is_zero sent.1.1 sent.1.2 (zlen tokens));
  mret (default [] (head rows)).

Context (n : nat) (m : mask) (tokens : list Z) (hidden_states : list HV) (cache_len : Z).
Let x : prune_input HL := (m, mid_head <$> (rms_norm <$> hidden_states), tokens).
Hypotheses (Hn : (0 < n)%nat) (Hws : well_shaped n x).

(** With a pruner the reference's nodes are kept, without one all are. *)
Lemma prune_draft_tree_ok s : ∃ s' keep,
  prune_draft_tree [rms_norm <$> hidden_states] [tokens] [m] s = (s', Ok [keep]) ∧
  (keep = where_true (pruner_keep m (prefix_of n x) n vocab_size x.1.2 x.2) ∨ keep = seqZ 0 (Z.of_nat n)).
Proof using Hn Hws.
  unfold prune_draft_tree, prune_speculation_tree.
  destruct (ensure_pruner create_pruner s) as [s1 [[p|]|e]] eqn:Ee.
  - set (keep := where_true _).
    destruct (simple_keeps vocab_size n [x] ltac:(done) ltac:(by apply Forall_singleton) p) as (r & Hr & K).
    assert (Hr' : ∃ p', prune_hidden [rms_norm <$> hidden_states] [tokens] [m] p = (p', Ok r)) by (eexists; exact Hr).
    destruct Hr' as [p' Hr']. pose proof (kp_keep _ _ K) as Hk.
    change (keep_indices r = [pad_minus_one (max_len [keep]) keep]) in Hk.
    assert (Hpad : pad_minus_one (max_len [keep]) keep = keep).
    { unfold pad_minus_one, max_len. cbn. pose proof (zlen_nonneg keep). replace (Z.to_nat _) with 0%nat by lia. apply app_nil_r. }
    rewrite Hpad in Hk. unfold mbind at 1, M_bind at 1. rewrite (bind_ok _ _ _ _ _ Ee), get_bind, Hr', put_bind, lift_ok_bind, put_bind.
    unfold mret, M_ret. cbn [fst]. rewrite Hk. eexists _, keep. split; [done|by left].
  - unfold mbind at 1, M_bind at 1. rewrite (bind_ok _ _ _ _ _ Ee). eexists s1, _. split; [done|]. right.
    destruct Hws as (Hl & _). unfold x in Hl. cbn in Hl. rewrite length_fmap in Hl. by rewrite Hl.
  - exfalso. unfold ensure_pruner in Ee. destruct (pruner s); [done|]. destruct (pruner_unavailable s); [done|].
    by destruct (create_pruner (method s)).
Qed.

(** The client gets the kept vectors in their places; the root is kept. *)
Lemma pruned_delivery_ok s : ∃ s' keep,
  pruned_delivery m tokens hidden_states cache_len s = (s', Ok (kept_row zv hidden_states keep)) ∧ 0 ∈ keep.
Proof using Hn Hws.
  destruct (prune_draft_tree_ok s) as (s' & keep & Hp & Hor). exists s', keep. pose proof Hws as (Hl & Ht & _).
  unfold x in Hl. cbn in Hl, Ht. rewrite !length_fmap in Hl.
  assert (Hk : Forall (λ v, v < Z.of_nat n) keep ∧ 0 ∈ keep).
  { destruct Hor as [->| ->].
    - split; [|apply elem_where_true; split; [done|]; apply pruner_keep_spec; [done|by left]].
      apply Forall_forall. intros v Hvk%where_true_bound. unfold zlen, pruner_keep in Hvk. rewrite tab_length in Hvk. lia.
    - split; [apply Forall_forall; intros v Hvk%elem_of_seqZ; lia|apply elem_of_seqZ; lia]. }
  destruct Hk as [Hb Hroot]. split; [|done].
  assert (Hi : indices_of n [hidden_states] [keep]) by (split; [done|by apply Forall_singleton|by apply Forall_singleton]).
  unfold pruned_delivery, step_output. cbn [andb]. unfold mbind at 1, M_bind at 1. rewrite (bind_ok _ _ _ _ _ Hp), (flatten_ok n) by done.
  unfold mbind, M_bind, lift, mret, M_ret. cbn [fst snd]. unfold session_restore_hidden_states, zlen at 1. rewrite Ht.
  rewrite restore_flattened; [done|done|by apply Forall_singleton].
Qed.
End delivery.

(** ** The round *)

Section round.
Context {E L HL HV : Type} `{TM : TargetModel E L} `{TML : !TargetModelLaws E L} `{LO : LogitsOps L} `{PH : PrunerHead HL}.
Context (zv : HV) (is_zero : HV → bool) (lm_head : HV → L) (rms_norm : HV → HV) (mid_head : HV → HL)
  (create_pruner : PruningMethod → res pruner_stats) (vocab_size : Z).

(** The logits of a vector of zeros. *)
Hypotheses (Hzv : t_all_zero (lm_head zv) = true) (Hnz : ∀ es t r, t_all_zero (cell (TargetModel := TM) es t r).2 = false).

Context (contiguous : bool) (ctx : list Z) (llm : Z) (ids : list Z) (row : list E) (t : SpeculativeTree)
  (padding : list Z) (m : mask) (cl : Z).
Let r := linearize_tree_with_positions t.
Let h := nodes r.1.
Let mx := zlen r.2.1 + zlen padding.
Let toks := llm :: ((λ n, token_id (h !!! n)) <$> r.2.1) ++ padding.
Let past := take (Z.to_nat cl) row.
Let s := ctx ++ [llm].
Let outs := run_blocks past m (zip toks (row_rotary ids (mx + 1))).
Let n := S (Z.to_nat mx).
Hypotheses (Hco : coherent_row contiguous s ids row) (Hg : grown t) (Hrr : rotary_right (TM := TM) contiguous t)
  (Hcl : Forall (λ p, p < cl) (valid_ids ids)) (Hclr : cl ≤ zlen row) (Hmask : round_mask ids r.2.2 cl mx m).

Context (hidden_states : list HV).
Let middle_logits := mid_head <$> (rms_norm <$> hidden_states).
Let x : prune_input HL := (m, middle_logits, toks).
Hypotheses (Hhid : outs.*2 = lm_head <$> hidden_states)
  (Htok : ∀ i, (0 < i < length h)%nat → token_id (h !!! i) ≠ t_argmax (lm_head zv)).

Lemma mx_nonneg : 0 ≤ mx.
Proof using. apply Z.add_nonneg_nonneg; apply zlen_nonneg. Qed.

Lemma hidden_len : length hidden_states = n.
Proof using All.
  pose proof (row_outs contiguous ctx llm ids row t padding m cl Hco Hg Hcl Hclr Hmask) as Ho.
  apply (f_equal length) in Hhid. rewrite !length_fmap in Hhid. rewrite <- Hhid. change (zlen outs = mx + 1) in Ho.
  unfold zlen at 1 in Ho. pose proof mx_nonneg. unfold n. lia.
Qed.

Lemma pruned_shape : well_shaped n x.
Proof using All.
  pose proof mx_nonneg as H0. destruct Hmask as (_ & Hcols & Hm).
  destruct (row_columns contiguous ctx llm ids row t padding cl Hco Hcl) as [Hkc Hcl0].
  split; [unfold x, middle_logits; cbn; rewrite !length_fmap; apply hidden_len|]. split.
  - unfold x, toks, n, mx, zlen. cbn [snd length]. rewrite length_app, length_fmap. lia.
  - unfold x. cbn [fst snd]. assert (m_cols m - Z.of_nat n = cl) as -> by (unfold n; lia).
    pose proof (linearized_laid_out t Hg) as Hla. apply (tree_mask_shaped r.2.2); [exact (la_ok _ _ _ Hla)|].
    intros a c Ha Hc. rewrite Hm by lia. split; [|by right]. intros [Hk|?]; [|done]. exfalso.
    apply kept_columns_kept in Hk; [|exact (co_ids _ _ _ _ Hco)]. rewrite Forall_forall in Hkc. specialize (Hkc c Hk). cbn in Hkc. lia.
Qed.

Lemma pruned_delivered st : ∃ st' restored alive,
  pruned_delivery zv is_zero rms_norm mid_head create_pruner vocab_size m toks hidden_states cl st = (st', Ok restored) ∧
  delivered llm ids row t padding m cl alive (lm_head zv) (lm_head <$> restored).
Proof using All.
  pose proof (linearized_laid_out t Hg) as Hla. pose proof hidden_len as Hhl. pose proof mx_nonneg as Hmx0.
  destruct (pruned_delivery_ok zv is_zero rms_norm mid_head create_pruner vocab_size n m toks hidden_states cl
    ltac:(unfold n; lia) pruned_shape st) as (st' & keep & Hd & Hroot).
  exists st', (kept_row zv hidden_states keep), (λ i, bool_decide (slot h i ∈ keep)). split; [exact Hd|]. split.
  - unfold kept_row. rewrite length_fmap, length_imap. apply (f_equal length) in Hhid. rewrite !length_fmap in Hhid. by rewrite <- Hhid.
  - intros i Hi. destruct (slot_bounds h r.2.1 r.2.2 Hla i Hi) as [Hsb _].
    assert (Hlt : (Z.to_nat (slot h i) < n)%nat) by (unfold n, mx; pose proof (zlen_nonneg padding); lia).
    destruct (lookup_lt_is_Some_2 hidden_states (Z.to_nat (slot h i))) as [v Hvv]; [lia|].
    fold r. fold h. fold mx. fold toks past. fold outs. rewrite Hhid, !list_lookup_fmap. unfold kept_row. rewrite list_lookup_imap, Hvv.
    cbn [fmap option_fmap option_map]. rewrite Z2Nat.id by lia. by destruct (bool_decide (slot h i ∈ keep)).
  - rewrite (la_root _ _ _ Hla : slot h 0 = 0). by apply bool_decide_true.
  - done.
  - intros i p Hi Hp _. apply Htok. split; [|exact Hi]. destruct (decide (i = 0%nat)) as [->|]; [|lia].
    destruct (root_depth _ (la_wf _ _ _ Hla)) as [_ Hr0]. fold r h in Hr0. fold r h in Hp. congruence.
Qed.
End round.


(** ** Small models *)

Section small.
#[local] Existing Instance toy_model.
#[local] Existing Instance toy_laws.
#[local] Existing Instance toy_head.

(** Logits are the number of the predicted token; none is the row of zeros. *)
#[local] Instance zero_logits : LogitsOps Z := {| t_argmax := id; t_all_zero l := l =? 0; t_draw := id |}.

(** After [5; 6] the model goes on with 6, 5, 4 and 3; the head does not expect the 4. *)
Definition small_tree : SpeculativeTree := chain_tree 6 5 4 3.
Definition small_mask : mask :=
  match generation_mask 1 4 4 [-1; 0; 1; 2] [true] with Ok m => m | Raise _ => zeros 0 0 end.
Definition small_row : list Z := entries_of [5] ++ [0; 0].
Definition small_head (v : Z) : list float := likely_tokens (if v =? 4 then [8] else [v]).
Definition small_outs : list (Z * Z) := run_blocks (take 1 small_row) small_mask (zip [6; 6; 5; 4; 3] (row_rotary [0] 5)).

Lemma small_coherent : coherent_row true [5; 6] [0] small_row.
Proof. split; try done; repeat constructor; done. Qed.

Lemma small_round_mask : round_mask [0] [-1; 0; 1; 2] 1 4 small_mask.
Proof.
  assert (Hp : parents_ok [-1; 0; 1; 2]).
  { intros i v Hi. do 4 (destruct i as [|i]; [injection Hi as <-; lia|]). done. }
  destruct (generation_mask_spec [-1; 0; 1; 2] [true] 4 Hp ltac:(done)) as (m & Hm & Hr & Hc & Ha).
  assert (small_mask = m) as -> by (unfold small_mask; assert (generation_mask 1 4 4 [-1; 0; 1; 2] [true] = Ok m) as -> by exact Hm; done).
  split; [done|]. split; [done|]. intros q c Hq H0. rewrite Ha by done. unfold gen_attends.
  assert (valid_at [true] c ↔ kept [0] c) as Hk; [|rewrite Hk; done].
  rewrite kept_columns_kept by done. change (kept_columns [0]) with [0]. rewrite list_elem_of_singleton. split.
  - intros Hv%valid_at_lt. change (zlen [true]) with 1 in Hv. lia.
  - intros ->. by split.
Qed.

Definition small_delivery : M (@manager pruner_stats) (list Z) :=
  pruned_delivery 0 (λ v, v =? 0) id small_head (λ _, Ok (mkStats 0 0)) 10 small_mask [6; 6; 5; 4; 3] small_outs.*2 1.


(** A draft token equal to the one zeros name, below a dropped node, passes for predicted. *)
Lemma token_below_pruned_accepted :
  let t := (linearize_tree_with_positions (chain_tree 6 0 0 3)).1 in
  (λ x, (x_verified x, x_llm_token x)) <$>
    extract_row (nodes t) (get_all_leaf_node_paths (nodes t) 0) [6; 0; 0; 0; 0] [5; 6] [] 4 2 false = Ok ([6; 0], 0).
Proof. vm_compute. reflexivity. Qed.

(** When the pruner drops the end of the prompt, the first token is the one zeros name. *)
Lemma pruned_prompt_gives_zero :
  let t := (linearize_tree_with_positions (chain_tree 6 5 4 3)).1 in
  (λ x, (x_verified x, x_llm_token x)) <$>
    extract_row (nodes t) (get_all_leaf_node_paths (nodes t) 0) [5; 0; 0; 0; 0; 0] [5; 6] [] 4 2 true = Ok ([], 0).
Proof. vm_compute. reflexivity. Qed.
End small.
