(* ===== verification/Decode.v ===== *)
(** * An ordinary inference step of the server (server/backend.py)

    A step without speculation appends the new positions of every row to its attention cache. The
    rows of a live batch may be at positions of their own: the step then masks what each row has not
    written, and writes the rows of the active mask only, one run of equal positions at a time.

    SpecCache.v has the caches, SpecGenerate.v the target model: the heads and layers of all blocks
    are one step of it. Recurrent blocks with a state of another kind, the reuse of buffers between
    steps and the profile of a step are left out. *)

From stdpp Require Import numbers base list.
From Stdlib Require Import ZArith Lia ZifyBool.
From S2P Require Import Prelude SpecTree SpecDecode SpecCache SpecVerify SpecGenerate.

(** ** Rows at positions of their own *)

(** [_active_mask_list]: the mask has one flag per row, or it is not used. *)
Definition active_mask_list (value : option (list bool)) (expected_batch : Z) : option (list bool) :=
  match value with
  | Some mask => if (expected_batch <=? 0) || negb (zlen mask =? expected_batch) then None else Some mask
  | None => None
  end.

(** [_row_position_list] of a tensor *)
Definition row_position_list (value : option (list Z)) (expected_batch : Z) : option (list Z) :=
  match value with
  | Some raw =>
      if (expected_batch <=? 0) || negb (zlen raw =? expected_batch) || existsb (λ pos, pos <? 0) raw then None else Some raw
  | None => None
  end.

(** The loop of [_active_position_row_runs] from row [index] on, with the run that is open: its
    first row and its position. *)
Fixpoint row_runs (index : nat) (start : option (nat * Z)) (mask : list bool) (row_positions : list Z) : list (nat * nat * Z) :=
  match mask, row_positions with
  | active :: mask, position :: row_positions =>
      match active, start with
      | true, None => row_runs (S index) (Some (index, position)) mask row_positions
      | true, Some (first, start_position) =>
          if position =? start_position then row_runs (S index) start mask row_positions
          else (first, index, start_position) :: row_runs (S index) (Some (index, position)) mask row_positions
      | false, Some (first, start_position) => (first, index, start_position) :: row_runs (S index) None mask row_positions
      | false, None => row_runs (S index) None mask row_positions
      end
  | _, _ => match start with Some (first, start_position) => [(first, index, start_position)] | None => [] end
  end.

Definition active_position_row_runs (mask : list bool) (row_positions : list Z) : list (nat * nat * Z) :=
  row_runs 0 None mask row_positions.

(** A row of [_live_decode_attention_mask_for_row_positions]: what the row has written, and itself. *)
Definition live_decode_attention_mask (cache_len position : Z) : mask :=
  mkMask 1 (cache_len + 1) (λ _ c, (c <? Z.min (Z.max position 0) cache_len) || (c =? cache_len)).

(** A row of [_live_decode_position_ids_for_row_positions] *)
Definition live_decode_position_ids (position chunk_length offset : Z) : list Z :=
  (λ i, position + i) <$> py_range offset (offset + chunk_length).

(** [_slice_kv_rows] *)
Definition slice_kv_rows {E} (new_kvs : list (list E)) (row_start row_end : nat) : list (list E) :=
  take (row_end - row_start) (drop row_start new_kvs).

(** A row of [_create_causal_attention_mask]. *)
Definition create_causal_attention_mask (src_len past_key_values_length : Z) : option mask :=
  let current_token_count := src_len - past_key_values_length in
  if current_token_count <=? 0 then None
  else if past_key_values_length =? 0 then Some (mkMask src_len src_len (λ q c, c <=? q))
  else Some (mkMask current_token_count src_len (λ q c, c <=? q + past_key_values_length)).

(** The cached scores of a step of one position: everything is seen. *)
Definition decode_mask (cache_len : Z) : mask := mkMask 1 (cache_len + 1) (λ _ c, c <? cache_len + 1).

(** [_estimate_max_chunk_length]; the bytes of a position are those of all heads of the batch. *)
Definition estimate_max_chunk_length (max_chunk_size_bytes num_heads dtype_bytes batch_size prefix_length seq_length : Z) : res Z :=
  let worst_case_length := prefix_length + seq_length in
  let attn_bytes_per_token := num_heads * batch_size * dtype_bytes * worst_case_length in
  if attn_bytes_per_token =? 0 then Raise ZeroDivisionError else Ok (Z.max 1 (max_chunk_size_bytes / attn_bytes_per_token)).

(** ** The step *)

(** The part of [InferenceMetadata] an ordinary step reads. The micro-batch of a request is its
    rows, as the client sends it. *)
Record step_info := mkInfo {
  si_prefix_length : Z;
  si_batch_offset : Z;
  si_active_mask : option (list bool);
  si_prefill_length : option (list Z);
}.

(** The part of the backend's configuration that sets the length of a chunk. *)
Record chunking := mkChunking {
  max_chunk_size_bytes : Z;
  max_shard_num_heads : Z;
  backend_dtype_bytes : Z;
}.

Section step.
Context {E L : Type} `{TargetModel E L}.
Implicit Types (slab new_kvs : list (list E)) (input_ids : list (list Z)).

(** The writes of [_finalize_cache_update] for the runs of the active rows. *)
Fixpoint write_runs (batch_offset : Z) new_kvs (runs : list (nat * nat * Z)) : M (list (list E)) unit :=
  match runs with
  | [] => mret tt
  | (row_start, row_end, start_position) :: runs =>
      write_kvs (batch_offset + Z.of_nat row_start) start_position (slice_kv_rows new_kvs row_start row_end);;
      write_runs batch_offset new_kvs runs
  end.

Definition finalize_cache_update new_kvs (cache_len : Z) (info : step_info) : M (list (list E)) unit :=
  let expected_batch := zlen new_kvs in
  match active_mask_list (si_active_mask info) expected_batch with
  | Some active_rows =>
      let positions := default (replicate (length new_kvs) cache_len) (row_position_list (si_prefill_length info) expected_batch) in
      write_runs (si_batch_offset info) new_kvs (active_position_row_runs active_rows positions)
  | None => write_kvs (si_batch_offset info) cache_len new_kvs
  end.

(** The positions of the rows, when a step of one position has an active mask and knows them. *)
Definition live_row_positions (info : step_info) (batch_size seq_len : Z) : option (list Z) :=
  if seq_len =? 1 then
    match active_mask_list (si_active_mask info) batch_size with
    | Some _ => row_position_list (si_prefill_length info) batch_size
    | None => None
    end
  else None.

(** The attention mask of row [b]. *)
Definition row_mask (live : option (list Z)) (b : nat) (cache_len seq_len : Z) : res mask :=
  match live with
  | Some positions => p ← of_option IndexError (positions !! b); Ok (live_decode_attention_mask cache_len p)
  | None =>
      if seq_len =? 1 then Ok (decode_mask cache_len)
      else of_option Exception (create_causal_attention_mask (seq_len + cache_len) cache_len)
  end.

(** The positions of a chunk of row [b]. *)
Definition row_position_ids (live : option (list Z)) (b : nat) (cache_len chunk_length offset : Z) : res (list Z) :=
  match live with
  | Some positions => p ← of_option IndexError (positions !! b); Ok (live_decode_position_ids p chunk_length offset)
  | None => Ok ((λ i, i + (cache_len + offset)) <$> py_range 0 chunk_length)
  end.

(** One chunk of all rows: every chunk has the entries cached before the step as its past. *)
Definition run_chunk (live : option (list Z)) (k_pkv : list (list E)) (cache_len seq_len : Z) input_ids (chunk_length offset : Z) :
    res (list (list (E * L))) :=
  mapM (λ b,
    cached ← of_option TorchError (k_pkv !! b);
    m ← row_mask live b cache_len seq_len;
    tokens ← of_option TorchError (input_ids !! b);
    position_ids ← row_position_ids live b cache_len chunk_length offset;
    Ok (run_blocks cached m (zip (py_slice tokens offset (offset + chunk_length)) position_ids)))
  (seq 0 (length input_ids)).

(** The loop over the chunks: the outputs so far, row by row, and the entries of the last chunk. *)
Fixpoint run_chunks (live : option (list Z)) (k_pkv : list (list E)) (cache_len seq_len max_chunk_length : Z) input_ids
    (offsets : list Z) (output : list (list L)) (new_kvs : option (list (list E))) : res (list (list L) * option (list (list E))) :=
  match offsets with
  | [] => Ok (output, new_kvs)
  | offset :: offsets =>
      let chunk_length := Z.min max_chunk_length (seq_len - offset) in
      outs ← run_chunk live k_pkv cache_len seq_len input_ids chunk_length offset;
      run_chunks live k_pkv cache_len seq_len max_chunk_length input_ids offsets
        (zip_with app output ((λ o : list (E * L), o.*2) <$> outs)) (Some ((λ o : list (E * L), o.*1) <$> outs))
  end.

(** [range(0, seq_len, step)] *)
Definition chunk_offsets (seq_len step : Z) : list Z := (λ i, step * i) <$> py_range 0 ((seq_len + step - 1) / step).

(** [inference_step] of an ordinary request, over all blocks. Without a single chunk there are no
    entries to write. *)
Definition inference_step (cfg : chunking) (info : step_info) input_ids : M (list (list E)) (list (list L)) :=
  let batch_size := zlen input_ids in
  let seq_len := match input_ids with row :: _ => zlen row | [] => 0 end in
  let live := live_row_positions info batch_size seq_len in
  let select_prefix_length := match live with Some (p :: ps) => foldl Z.max p ps | _ => si_prefix_length info end in
  max_chunk_length ← lift (estimate_max_chunk_length (max_chunk_size_bytes cfg) (max_shard_num_heads cfg)
    (backend_dtype_bytes cfg) batch_size (si_prefix_length info) seq_len);
  slab ← get;
  kv ← lift (select_cache select_prefix_length (si_batch_offset info) batch_size slab);
  let cache_len := match kv with Some rows => slab_len rows | None => 0 end in
  let k_pkv := default (replicate (length input_ids) []) kv in
  r ← lift (run_chunks live k_pkv cache_len seq_len max_chunk_length input_ids (chunk_offsets seq_len max_chunk_length)
              (replicate (length input_ids) []) None);
  new_kvs ← lift (of_option Exception r.2);
  finalize_cache_update new_kvs cache_len info;;
  mret r.1.
End step.

(** ** What the runs write *)

Section runs.
Context {E : Type}.
Implicit Types (slab kvs : list (list E)) (ps : list Z).

(** Where the open run writes row [k], and the runs from row [i] on. *)
Definition open_target (start : option (nat * Z)) (k : nat) : option Z :=
  match start with Some (first, q) => if decide (first ≤ k)%nat then Some q else None | None => None end.

Definition run_target (i : nat) (start : option (nat * Z)) (mask : list bool) ps (k : nat) : option Z :=
  if decide (k < i)%nat then open_target start k
  else match mask !! (k - i)%nat, ps !! (k - i)%nat with Some true, Some p => Some p | _, _ => None end.

Lemma run_target_cons i start active mask p ps k : run_target i start (active :: mask) (p :: ps) k =
  if decide (k < i)%nat then open_target start k
  else if decide (k = i) then if active then Some p else None else run_target (S i) None mask ps k.
Proof.
  unfold run_target. destruct (decide (k < i)%nat) as [|Hge]; [done|]. destruct (decide (k = i)) as [->|Hne].
  - rewrite Nat.sub_diag. by destruct active.
  - rewrite decide_False by lia. by replace (k - i)%nat with (S (k - S i)) by lia.
Qed.

Lemma run_target_open i start mask ps k : run_target (S i) start mask ps k =
  if decide (k ≤ i)%nat then open_target start k else run_target (S i) None mask ps k.
Proof. unfold run_target. destruct (decide (k < S i)%nat); [by rewrite decide_True by lia|by rewrite decide_False by lia]. Qed.

(** The slab row by row, after writing [kvs] from row [o] on at the targets. *)
Definition filled (o : nat) (target : nat → option Z) kvs slab (j : nat) : option (list E) :=
  row ← slab !! j;
  Some (match (if decide (o ≤ j)%nat then target (j - o)%nat else None), kvs !! (j - o)%nat with
        | Some p, Some cols => write_row (Z.to_nat p) row cols
        | _, _ => row
        end).

Lemma slice_kv_rows_lookup kvs a b k : slice_kv_rows kvs a b !! k = if decide (k < b - a)%nat then kvs !! (a + k)%nat else None.
Proof.
  unfold slice_kv_rows. destruct (decide _).
  - by rewrite lookup_take_lt, lookup_drop.
  - apply lookup_ge_None. rewrite length_take. lia.
Qed.

Lemma write_run (s o a b : nat) q kvs slab : sized s slab → sized 1 kvs → (o + length kvs ≤ length slab)%nat →
  (a < b ≤ length kvs)%nat → 0 ≤ q < Z.of_nat s →
  ∃ slab', write_kvs (Z.of_nat o + Z.of_nat a) q (slice_kv_rows kvs a b) slab = (slab', Ok tt) ∧ sized s slab' ∧
    length slab' = length slab ∧ ∀ j, slab' !! j = filled o (λ k, if decide (a ≤ k < b)%nat then Some q else None) kvs slab j.
Proof.
  intros Hs Hk Ho Hab Hq. assert (Hl : length (slice_kv_rows kvs a b) = (b - a)%nat) by (unfold slice_kv_rows; rewrite length_take, length_drop; lia).
  assert (Hk1 : sized 1 (slice_kv_rows kvs a b)) by (apply Forall_take, Forall_drop, Hk).
  exists (write_rows (o + a) (Z.to_nat q) (slice_kv_rows kvs a b) slab). rewrite <- Nat2Z.inj_add.
  split; [|split; [|split]].
  - rewrite <- (Z2Nat.id q) at 1 by lia. eapply write_kvs_fits; eauto; [|lia..]. intros E0. rewrite E0 in Hl. cbn in Hl. lia.
  - eapply write_rows_sized; eauto; lia.
  - eapply write_rows_sized; eauto; lia.
  - intros j. rewrite write_rows_lookup by lia. unfold filled. destruct (slab !! j) as [row|]; [cbn|done].
    destruct (decide (o + a ≤ j)%nat) as [H1|H1].
    + rewrite slice_kv_rows_lookup. destruct (decide (j - (o + a) < b - a)%nat) as [H2|H2].
      * rewrite decide_True, decide_True by lia. replace (a + (j - (o + a)))%nat with (j - o)%nat by lia. by destruct (kvs !! _).
      * destruct (decide (o ≤ j)%nat); [rewrite decide_False by lia|]; done.
    + destruct (decide (o ≤ j)%nat); [rewrite decide_False by lia|]; done.
Qed.

Lemma filled_twice o t t' kvs slab slab' j : (∀ i, slab' !! i = filled o t kvs slab i) → (∀ k, t k = None ∨ t' k = None) →
  filled o t' kvs slab' j = filled o (λ k, match t k with Some p => Some p | None => t' k end) kvs slab j.
Proof.
  intros H Hd. unfold filled at 1. rewrite H. unfold filled. destruct (slab !! j) as [row|]; [cbn|done].
  destruct (decide (o ≤ j)%nat); [|by destruct (kvs !! (j - o)%nat)]. specialize (Hd (j - o)%nat).
  destruct (t (j - o)%nat), (t' (j - o)%nat), (kvs !! (j - o)%nat); destruct Hd; done.
Qed.

Lemma filled_ext o t t' kvs slab j : (∀ k, (k < length kvs)%nat → t k = t' k) → filled o t kvs slab j = filled o t' kvs slab j.
Proof.
  intros H. unfold filled. destruct (slab !! j); [cbn|done]. destruct (decide (o ≤ j)%nat); [|done].
  destruct (kvs !! (j - o)%nat) eqn:Hk; [|by destruct (t _), (t' _)]. apply lookup_lt_Some in Hk. by rewrite H.
Qed.

#[local] Ltac same_target start' :=
  intros; rewrite ?run_target_cons, (run_target_open _ start'); unfold open_target; repeat case_decide; (done || lia).

Lemma write_row_runs (s o : nat) kvs mask : ∀ ps i start slab, sized s slab → sized 1 kvs → (o + length kvs ≤ length slab)%nat →
  length ps = length mask → (i + length mask = length kvs)%nat → Forall (λ p, 0 ≤ p < Z.of_nat s) ps →
  (∀ f q, start = Some (f, q) → (f < i)%nat ∧ 0 ≤ q < Z.of_nat s) →
  ∃ slab', write_runs (Z.of_nat o) kvs (row_runs i start mask ps) slab = (slab', Ok tt) ∧ sized s slab' ∧
    length slab' = length slab ∧ ∀ j, slab' !! j = filled o (run_target i start mask ps) kvs slab j.
Proof.
  induction mask as [|active mask IH]; intros ps i start slab Hs Hk Ho Hl Hi Hps Hst.
  - destruct ps; [|done]. cbn in Hi. rewrite Nat.add_0_r in Hi. cbn [row_runs].
    destruct start as [[f q]|].
    + destruct (Hst f q eq_refl). destruct (write_run s o f i q kvs slab) as (slab' & H1 & H2 & H3 & H4); try done; [lia|].
      exists slab'. cbn [write_runs]. rewrite (bind_ok _ _ _ _ _ H1). split; [done|]. split; [done|]. split; [done|].
      intros j. rewrite H4. apply filled_ext. intros k Hlt. unfold run_target, open_target. repeat case_decide; (done || lia).
    + exists slab. split; [done|]. split; [done|]. split; [done|]. intros j. unfold filled, run_target, open_target.
      destruct (slab !! j); [cbn|done]. repeat case_match; done.
  - destruct ps as [|p ps]; [done|]. injection Hl as Hl. apply Forall_cons in Hps as [Hp Hps]. cbn [length] in Hi.
    assert (Hcons : ∀ start', (∀ k, (k < length kvs)%nat → run_target (S i) start' mask ps k = run_target i start (active :: mask) (p :: ps) k) →
      row_runs i start (active :: mask) (p :: ps) = row_runs (S i) start' mask ps →
      (∀ f q, start' = Some (f, q) → (f < S i)%nat ∧ 0 ≤ q < Z.of_nat s) →
      ∃ slab', write_runs (Z.of_nat o) kvs (row_runs i start (active :: mask) (p :: ps)) slab = (slab', Ok tt) ∧ sized s slab' ∧
        length slab' = length slab ∧ ∀ j, slab' !! j = filled o (run_target i start (active :: mask) (p :: ps)) kvs slab j).
    { intros start' Ht Hr Hst'. rewrite Hr. destruct (IH ps (S i) start' slab) as (slab' & H1 & H2 & H3 & H4); try done; [lia|].
      exists slab'. split; [done|]. split; [done|]. split; [done|]. intros j. rewrite H4. by apply filled_ext. }
    assert (Hemit : ∀ f q start', start = Some (f, q) →
      (∀ k, (k < length kvs)%nat → run_target i start (active :: mask) (p :: ps) k =
         if decide (f ≤ k < i)%nat then Some q else run_target (S i) start' mask ps k) →
      (∀ k, (f ≤ k < i)%nat → run_target (S i) start' mask ps k = None) →
      row_runs i start (active :: mask) (p :: ps) = (f, i, q) :: row_runs (S i) start' mask ps →
      (∀ f q, start' = Some (f, q) → (f < S i)%nat ∧ 0 ≤ q < Z.of_nat s) →
      ∃ slab', write_runs (Z.of_nat o) kvs (row_runs i start (active :: mask) (p :: ps)) slab = (slab', Ok tt) ∧ sized s slab' ∧
        length slab' = length slab ∧ ∀ j, slab' !! j = filled o (run_target i start (active :: mask) (p :: ps)) kvs slab j).
    { intros f q start' -> Ht Hn Hr Hst'. rewrite Hr. destruct (Hst f q eq_refl).
      destruct (write_run s o f i q kvs slab) as (slab1 & H1 & H2 & H3 & H4); try done; [lia|].
      destruct (IH ps (S i) start' slab1) as (slab2 & G1 & G2 & G3 & G4); try done; [lia..|].
      exists slab2. cbn [write_runs]. rewrite (bind_ok _ _ _ _ _ H1). split; [done|]. split; [done|]. split; [lia|].
      intros j. rewrite G4. rewrite (filled_twice o _ _ kvs slab slab1 j H4).
      - apply filled_ext. intros k Hlt. rewrite Ht by done. by destruct (decide (f ≤ k < i)%nat).
      - intros k. destruct (decide (f ≤ k < i)%nat) as [Hk'|]; [right; by apply Hn|by left]. }
    destruct active, start as [[f q]|]; cbn [row_runs] in *; try destruct (Hst f q eq_refl).
    + destruct (Z.eqb_spec p q) as [->|Hpq].
      * apply (Hcons (Some (f, q))); [same_target (Some (f, q))|done|intros ? ? [= <- <-]; lia].
      * apply (Hemit f q (Some (i, p))); [done|same_target (Some (i, p))..|done|intros ? ? [= <- <-]; lia].
    + apply (Hcons (Some (i, p))); [same_target (Some (i, p))|done|intros ? ? [= <- <-]; lia].
    + apply (Hemit f q None); [done|same_target (@None (nat * Z))..|done|done].
    + apply (Hcons None); [same_target (@None (nat * Z))|done|done].
Qed.
End runs.

(** ** A row of a step *)

Section rows.
Context {E L : Type} `{TM : TargetModel E L} `{TML : !TargetModelLaws E L}.
Implicit Types (s ts : list Z) (slab : list (list E)).

(** Entries and logits of the tokens [ts] after [s]. *)
Fixpoint cells_of s ts : list (E * L) :=
  match ts with [] => [] | t :: ts => cell_of (s ++ [t]) :: cells_of (s ++ [t]) ts end.

Lemma cells_of_snoc s ts t : cells_of s (ts ++ [t]) = cells_of s ts ++ [cell_of (s ++ ts ++ [t])].
Proof. revert s. induction ts as [|t' ts IH]; intros s; cbn; [done|]. rewrite IH. by rewrite <- app_assoc. Qed.

Lemma cells_of_length s ts : length (cells_of s ts) = length ts.
Proof. revert s. induction ts; intros s; cbn; [done|]. by f_equal. Qed.

Lemma entries_of_app s ts : entries_of (s ++ ts) = entries_of s ++ (cells_of s ts).*1.
Proof.
  induction ts as [|t ts IH] using rev_ind; [by rewrite !app_nil_r|].
  by rewrite app_assoc, entries_of_snoc, IH, cells_of_snoc, fmap_app, <- !app_assoc.
Qed.

Lemma visible_take (m : mask) q c n (es : list E) : (∀ i, 0 ≤ i < zlen es → m_at m q (c + i) = (i <? n)) →
  visible m q c es = take (Z.to_nat n) es.
Proof.
  revert c n. induction es as [|e es IH]; intros c n H; cbn [visible]; [by rewrite take_nil|].

  rewrite (IH (c + 1) (n - 1)).
  2:{ intros i Hi. replace (c + 1 + i) with (c + (i + 1)) by lia. rewrite H by (unfold zlen in *; cbn; lia). lia. }
  replace (m_at m q c) with (0 <? n) by (rewrite <- (H 0) by (unfold zlen; cbn; lia); f_equal; lia).
  destruct (Z.ltb_spec 0 n) as [Hn|Hn].
  - by replace (Z.to_nat n) with (S (Z.to_nat (n - 1))) by lia.
  - replace (Z.to_nat n) with 0%nat by lia. by replace (Z.to_nat (n - 1)) with 0%nat by lia.
Qed.

(** Positions that see all before them run as the model does. *)
Lemma run_seeing_all s ts (m : mask) : causal (zlen s) (zlen ts) m →
  (∀ q c, 0 ≤ q < zlen ts → 0 ≤ c < zlen s + q → m_at m q c = true) →
  run_blocks (entries_of s) m (zip ts (seqZ (zlen s) (zlen ts))) = cells_of s ts.
Proof using TML.
  intros Hm Hall. set (inp := zip _ _).
  assert (Hil : length inp = length ts) by (unfold inp; rewrite length_zip_with, length_seqZ; unfold zlen; lia).
  destruct (run_blocks_cell (entries_of s) m inp) as [Hl Hcell].
  { rewrite (entries_of_length s). unfold zlen in *. by rewrite Hil. }
  enough (Hq : ∀ q, (q ≤ length ts)%nat → take q (run_blocks (entries_of s) m inp) = cells_of s (take q ts)).
  { specialize (Hq (length ts) (le_n _)). rewrite firstn_all in Hq. rewrite <- Hq, <- Hil, <- Hl. by rewrite firstn_all. }
  induction q as [|q IH]; intros Hq; [done|]. specialize (IH ltac:(lia)).
  destruct (lookup_lt_is_Some_2 ts q Hq) as [t Ht].
  assert (Hi : inp !! q = Some (t, zlen s + Z.of_nat q)).
  { unfold inp. rewrite lookup_zip_with, Ht. cbn. rewrite (proj2 (lookup_seqZ _ _ _ (zlen s + Z.of_nat q))); [done|]. unfold zlen. lia. }
  rewrite (take_S_r _ _ _ (Hcell q t (zlen s + Z.of_nat q) Hi)), (take_S_r _ _ _ Ht), cells_of_snoc, IH. do 2 f_equal.
  rewrite app_assoc, cell_of_snoc. f_equal.
  - rewrite <- fmap_take, IH, <- entries_of_app. rewrite (visible_take _ _ _ (zlen s + Z.of_nat q)).
    + apply take_ge. pose proof (entries_of_length (s ++ take q ts)) as He. rewrite zlen_app in He. unfold zlen in *.
      rewrite length_take in He. lia.
    + intros i Hi'. rewrite entries_of_length, zlen_app in Hi'. unfold zlen in Hi' at 2. rewrite length_take in Hi'.
      rewrite Hall by (unfold zlen in *; lia). symmetry. apply Z.ltb_lt. unfold zlen in *. lia.
  - rewrite zlen_app. unfold zlen. rewrite length_take. lia.
Qed.

Lemma run_live_row s t row (cache_len : Z) : take (length s) row = entries_of s → zlen s ≤ cache_len → zlen row = cache_len →
  run_blocks row (live_decode_attention_mask cache_len (zlen s)) [(t, zlen s)] = [cell_of (s ++ [t])].
Proof using TML.
  intros Hrow Hle Hlen. destruct (run_blocks_cell row (live_decode_attention_mask cache_len (zlen s)) [(t, zlen s)]) as [Hl Hcell].
  { split; [done|]. split; [unfold zlen in *; cbn in *; lia|]. intros q c Hq Hc. cbn in *. unfold zlen in *. cbn in *. lia. }
  specialize (Hcell 0%nat t (zlen s) eq_refl). destruct (run_blocks _ _ _) as [|x [|]]; try done. injection Hcell as ->.
  f_equal. rewrite cell_of_snoc. f_equal. cbn [fmap list_fmap take]. rewrite app_nil_r.
  rewrite (visible_take _ _ _ (zlen s)); [unfold zlen; by rewrite Nat2Z.id|].
  intros i Hi. cbn. unfold zlen in *. lia.
Qed.
End rows.

(** ** Whole steps *)

Section steps.
Context {E L : Type} `{TM : TargetModel E L} `{TML : !TargetModelLaws E L}.
Implicit Types (s ts : list Z) (slab : list (list E)) (input_ids : list (list Z)) (row : list E).

(** The cache row starts with the entries of [s]. *)
Definition caches s row : Prop := take (length s) row = entries_of s.

Definition chunking_wf (cfg : chunking) : Prop := 0 < max_shard_num_heads cfg ∧ 0 < backend_dtype_bytes cfg.

Lemma chunk_estimate cfg (b p n : Z) : chunking_wf cfg → 0 < b → 0 ≤ p → 0 < n →
  ∃ mx, estimate_max_chunk_length (max_chunk_size_bytes cfg) (max_shard_num_heads cfg) (backend_dtype_bytes cfg) b p n = Ok mx ∧
    1 ≤ mx ∧ mx = Z.max 1 (max_chunk_size_bytes cfg / (max_shard_num_heads cfg * b * backend_dtype_bytes cfg * (p + n))).
Proof.
  intros [H1 H2] Hb Hp Hn. unfold estimate_max_chunk_length. set (d := _ * _ * _ * _).
  assert (0 < d) by (unfold d; repeat apply Z.mul_pos_pos; lia). rewrite (proj2 (Z.eqb_neq _ _)) by lia. eexists. split; [done|]. lia.
Qed.

Lemma run_one_chunk live (k_pkv : list (list E)) cache_len seq_len mx input_ids (outs : list (list (E * L))) :
  0 < seq_len ≤ mx → length outs = length input_ids →
  run_chunk live k_pkv cache_len seq_len input_ids seq_len 0 = Ok outs →
  run_chunks live k_pkv cache_len seq_len mx input_ids (chunk_offsets seq_len mx) (replicate (length input_ids) []) None =
    Ok ((λ o : list (E * L), o.*2) <$> outs, Some ((λ o : list (E * L), o.*1) <$> outs)).
Proof.
  intros Hn Hl Hr. assert (Hc : chunk_offsets seq_len mx = [0]).
  { unfold chunk_offsets. replace ((seq_len + mx - 1) / mx) with 1; [change (py_range 0 1) with [0]; cbn [fmap list_fmap]; f_equal; lia|].
    apply (Z.div_unique_pos _ _ _ (seq_len - 1)); lia. }
  rewrite Hc. cbn [run_chunks]. rewrite Z.sub_0_r, Z.min_r by lia. rewrite Hr. cbn. do 2 f_equal. rewrite <- Hl. clear.
  induction outs as [|o outs IH]; cbn; [done|]. by f_equal.
Qed.

Lemma single_chunk_step cfg info input_ids slab mx kv (outs : list (list (E * L))) slab' (n : nat) :
  let b := zlen input_ids in
  let live := live_row_positions info b (Z.of_nat n) in
  sized n input_ids → input_ids ≠ [] → (0 < n)%nat → Z.of_nat n ≤ mx →
  estimate_max_chunk_length (max_chunk_size_bytes cfg) (max_shard_num_heads cfg) (backend_dtype_bytes cfg) b (si_prefix_length info) (Z.of_nat n) = Ok mx →
  select_cache (match live with Some (p :: ps) => foldl Z.max p ps | _ => si_prefix_length info end) (si_batch_offset info) b slab = Ok kv →
  length outs = length input_ids →
  run_chunk live (default (replicate (length input_ids) []) kv) (match kv with Some rows => slab_len rows | None => 0 end)
    (Z.of_nat n) input_ids (Z.of_nat n) 0 = Ok outs →
  finalize_cache_update ((λ o : list (E * L), o.*1) <$> outs) (match kv with Some rows => slab_len rows | None => 0 end) info slab = (slab', Ok tt) →
  inference_step cfg info input_ids slab = (slab', Ok ((λ o : list (E * L), o.*2) <$> outs)).
Proof.
  intros b live Hs Hne Hn Hmx He Hsel Hl Hr Hf. unfold inference_step. fold b.
  assert (Hsl : match input_ids with row :: _ => zlen row | [] => 0 end = Z.of_nat n).
  { destruct input_ids as [|r rs]; [done|]. apply Forall_inv in Hs. unfold zlen. by rewrite Hs. }
  rewrite Hsl, He, lift_ok_bind, get_bind. fold live. rewrite Hsel, lift_ok_bind.
  rewrite (run_one_chunk _ _ _ _ _ _ outs) by (done || lia). rewrite lift_ok_bind. cbn [fst snd of_option].
  rewrite lift_ok_bind, (bind_ok _ _ _ _ _ Hf). done.
Qed.

(** The cached rows of the batch and their length. *)
Lemma select_rows (cap o b : nat) (p : Z) slab : sized cap slab → (o + b ≤ length slab)%nat → (0 < b)%nat → 0 ≤ p ≤ Z.of_nat cap →
  ∃ kv, select_cache p (Z.of_nat o) (Z.of_nat b) slab = Ok kv ∧
    (match kv with Some rows => slab_len rows | None => 0 end) = p ∧
    ∀ k row, (k < b)%nat → slab !! (o + k)%nat = Some row → default (replicate b []) kv !! k = Some (take (Z.to_nat p) row).
Proof.
  intros Hs Ho Hb Hp. assert (slab ≠ []) by (intros ->; cbn in Ho; lia). unfold select_cache. destruct (Z.leb_spec p 0) as [Hp0|Hp0].
  - exists None. split; [done|]. split; [lia|]. intros k row Hk _. cbn. replace p with 0 by lia. cbn. by rewrite lookup_replicate_2.
  - rewrite (sized_len cap) by done. rewrite (proj2 (Z.ltb_ge _ _)) by lia. eexists. split; [done|].
    set (rows := batch_rows _ _ _).
    assert (Hrows : ∀ k, (k < b)%nat → rows !! k = slab !! (o + k)%nat) by (intros k Hk; unfold rows; rewrite batch_rows_lookup; by rewrite decide_True).
    split.
    + destruct rows as [|row rows']; [specialize (Hrows 0%nat Hb); cbn in Hrows; symmetry in Hrows; apply lookup_ge_None in Hrows; lia|].
      cbn. specialize (Hrows 0%nat Hb). cbn in Hrows. unfold zlen. rewrite length_take.
      unfold sized in Hs. rewrite Forall_lookup in Hs. rewrite (Hs (o + 0)%nat row) by done. lia.
    + intros k row Hk Hr. cbn. rewrite list_lookup_fmap, Hrows, Hr by done. done.
Qed.

Lemma zip_with_fmap_out {A B C D} (f : A → B → C) (g : C → D) (l : list A) (k : list B) :
  g <$> zip_with f l k = zip_with (λ x y, g (f x y)) l k.
Proof. revert k. induction l as [|x l IH]; intros [|y k]; cbn; [done..|]. by rewrite IH. Qed.

Lemma live_position_id (p : Z) : live_decode_position_ids p 1 0 = [p].
Proof. unfold live_decode_position_ids. change (py_range 0 (0 + 1)) with [0]. cbn [fmap list_fmap]. f_equal. lia. Qed.

(** What writing one position does to a row. *)
Lemma write_row_caches s ts row : caches s row → (length s ≤ length row)%nat →
  caches (s ++ ts) (write_row (length s) row (cells_of s ts).*1).
Proof.
  intros Hc Hl. unfold caches. rewrite entries_of_app, length_app. rewrite <- (cells_of_length s ts) at 1.
  rewrite <- (length_fmap fst (cells_of s ts)) at 1. rewrite write_row_take by done. by rewrite Hc.
Qed.

(** The server knows the positions of the rows of a live step. *)
Lemma live_positions info (active : list bool) (seqs : list (list Z)) (b : Z) : 0 < b → si_active_mask info = Some active →
  si_prefill_length info = Some (zlen <$> seqs) → zlen active = b → zlen seqs = b →
  active_mask_list (si_active_mask info) b = Some active ∧ row_position_list (si_prefill_length info) b = Some (zlen <$> seqs) ∧
  live_row_positions info b 1 = Some (zlen <$> seqs).
Proof.
  intros Hb Ha Hp Hla Hls.
  assert (H1 : active_mask_list (si_active_mask info) b = Some active).
  { rewrite Ha. unfold active_mask_list. rewrite (proj2 (Z.leb_gt _ _)) by lia. by rewrite Hla, Z.eqb_refl. }
  assert (H2 : row_position_list (si_prefill_length info) b = Some (zlen <$> seqs)).
  { rewrite Hp. unfold row_position_list. rewrite (proj2 (Z.leb_gt _ _)) by lia.
    replace (zlen (zlen <$> seqs)) with b by (unfold zlen in *; by rewrite length_fmap). rewrite Z.eqb_refl.
    destruct (existsb _ _) eqn:He; [|done]. apply existsb_exists in He as (x & Hx & Hlt).
    apply list_elem_of_In, list_elem_of_fmap in Hx as (s & -> & _). pose proof (zlen_nonneg s). lia. }
  split; [done|]. split; [done|]. unfold live_row_positions. by rewrite H1, H2.
Qed.

(** The longest of the rows. *)
Lemma longest_row (s0 : list Z) (ss : list (list Z)) : let mx := foldl Z.max (zlen s0) (zlen <$> ss) in
  (∀ s, s ∈ s0 :: ss → zlen s ≤ mx) ∧ ∃ s, s ∈ s0 :: ss ∧ mx = zlen s.
Proof.
  intros mx. destruct (foldl_max_ge (zlen <$> ss) (zlen s0)) as (H1 & H2 & H3). fold mx in H1, H2, H3. split.
  - intros s [->|Hin]%elem_of_cons; [done|]. apply H2. by apply list_elem_of_fmap_2.
  - apply elem_of_cons in H3 as [E0|(s & E0 & Hin)%list_elem_of_fmap]; [exists s0|exists s]; (split; [|done]); [by left|by right].
Qed.

(** A step of rows at positions of their own: every row runs after what it has written itself, the
    active rows keep their new entry, the others and the rest of the slab stay. *)
Lemma ragged_step cfg info slab toks (seqs : list (list Z)) (active : list bool) (o cap : nat) :
  chunking_wf cfg → 0 ≤ si_prefix_length info → si_batch_offset info = Z.of_nat o → si_active_mask info = Some active →
  si_prefill_length info = Some (zlen <$> seqs) → length active = length toks → length seqs = length toks → toks ≠ [] →
  sized cap slab → (o + length toks ≤ length slab)%nat →
  (∀ k s row, seqs !! k = Some s → slab !! (o + k)%nat = Some row → caches s row ∧ (length s < cap)%nat) →
  ∃ slab', inference_step cfg info ((λ t, [t]) <$> toks) slab =
      (slab', Ok (zip_with (λ s t, [(cell_of (s ++ [t])).2]) seqs toks)) ∧
    sized cap slab' ∧ length slab' = length slab ∧
    (∀ k s t, seqs !! k = Some s → toks !! k = Some t → active !! k = Some true →
      ∃ row', slab' !! (o + k)%nat = Some row' ∧ caches (s ++ [t]) row') ∧
    (∀ j, (∀ k, j = (o + k)%nat → active !! k ≠ Some true) → slab' !! j = slab !! j).
Proof using TML.
  intros Hcf Hpl Ho Ham Hpr Hla Hls Hne Hs Hfit Hrows. set (b := length toks) in *.
  set (outs := zip_with (λ s t, [cell_of (s ++ [t])]) seqs toks).
  assert (Hol : length outs = b) by (unfold outs; rewrite length_zip_with; lia).
  assert (Hb : zlen ((λ t, [t]) <$> toks) = Z.of_nat b) by (unfold zlen; by rewrite length_fmap).
  assert (Hb0 : (0 < b)%nat) by (unfold b; destruct toks; [done|cbn; lia]).
  destruct (live_positions info active seqs (Z.of_nat b)) as (Ham' & Hpr' & Hlive); [lia|done|done|unfold zlen; lia|unfold zlen; lia|].
  assert (∃ s0 ss, seqs = s0 :: ss) as (s0 & ss & Hseqs) by (destruct seqs; [cbn in Hls; lia|eauto]).
  destruct (longest_row s0 ss) as [Hmge Hmin]. set (mx := foldl Z.max (zlen s0) (zlen <$> ss)) in *. rewrite <- Hseqs in Hmge, Hmin.
  assert (Hget : ∀ k s, seqs !! k = Some s → ∃ row, slab !! (o + k)%nat = Some row ∧ caches s row ∧ (length s < cap)%nat ∧ length row = cap).
  { intros k s Hk. apply lookup_lt_Some in Hk as Hlt. destruct (lookup_lt_is_Some_2 slab (o + k)%nat) as [row Hr]; [lia|].
    exists row. destruct (Hrows k s row Hk Hr). unfold sized in Hs. rewrite Forall_lookup in Hs. eauto. }
  assert (Hmx : 0 ≤ mx ≤ Z.of_nat cap).
  { destruct Hmin as (s & [k Hk]%list_elem_of_lookup_1 & ->). destruct (Hget k s Hk) as (row & _ & _ & ? & _). unfold zlen. lia. }
  destruct (select_rows cap o b mx slab) as (kv & Hsel & Hcl & Hkv); [done|done|done|lia|].
  assert (Hkvs : sized 1 ((λ o : list (E * L), o.*1) <$> outs)).
  { apply list.Forall_fmap, Forall_lookup. intros k x Hx. by apply lookup_zip_with_Some in Hx as (? & ? & -> & _). }
  destruct (write_row_runs cap o ((λ o : list (E * L), o.*1) <$> outs) active (zlen <$> seqs) 0 None slab) as (slab' & Hw & Hs' & Hl' & Hj);
    try done; [rewrite length_fmap, Hol; lia|rewrite length_fmap; lia|rewrite length_fmap; lia| |].
  { apply list.Forall_fmap, Forall_lookup. intros k s Hk. destruct (Hget k s Hk) as (row & _ & _ & ? & _). cbn. unfold zlen. lia. }
  destruct (chunk_estimate cfg (Z.of_nat b) (si_prefix_length info) 1) as (mxc & Hest & Hmc & _); [done|lia|done|lia|].
  exists slab'. split; [|split; [done|split; [done|split]]].
  - replace (zip_with (λ s t, [(cell_of (s ++ [t])).2]) seqs toks) with ((λ o : list (E * L), o.*2) <$> outs).
    2:{ unfold outs. by rewrite zip_with_fmap_out. }
    apply (single_chunk_step _ _ _ _ mxc kv outs slab' 1); rewrite ?Hb, ?length_fmap, ?Hol; fold b; try done; try lia.
    + apply list.Forall_fmap, Forall_forall. done.
    + intros E0%(f_equal length). rewrite length_fmap in E0. cbn in E0. lia.
    + change (Z.of_nat 1) with 1. rewrite Hlive, Ho, Hseqs. exact Hsel.
    + rewrite Hcl. change (Z.of_nat 1) with 1. rewrite Hlive. apply mapM_seq_Ok; [by rewrite length_fmap|]. intros k x Hx.
      apply lookup_zip_with_Some in Hx as (s & t & -> & Hsk & Htk). apply lookup_lt_Some in Htk as Hlt.
      destruct (Hget k s Hsk) as (row & Hr & Hc & ? & Hrl).
      rewrite (Hkv k row) by done. unfold row_mask, row_position_ids. rewrite !list_lookup_fmap, Hsk, Htk.
      cbn [fmap option_fmap option_map of_option mbind res_bind]. f_equal.
      assert (Hsm : zlen s ≤ mx) by (apply Hmge; by eapply list_elem_of_lookup_2).
      change (Z.of_nat 1) with 1. rewrite live_position_id. change (zip _ _) with [(t, zlen s)].
      apply run_live_row; [|done|unfold zlen; rewrite length_take; lia].
      rewrite take_take, Nat.min_l by (unfold zlen in Hsm; lia). exact Hc.
    + unfold finalize_cache_update. replace (zlen _) with (Z.of_nat b) by (unfold zlen; rewrite length_fmap; lia).
      rewrite Ham', Hpr', Ho. exact Hw.
  - intros k s t Hsk Htk Hak. destruct (Hget k s Hsk) as (row & Hr & Hc & ? & Hrl). eexists. split.
    + rewrite Hj. unfold filled. rewrite Hr. cbn [mbind option_bind]. rewrite decide_True by lia. replace (o + k - o)%nat with k by lia.
      unfold run_target. rewrite decide_False, Nat.sub_0_r by lia. rewrite Hak, !list_lookup_fmap, Hsk.
      unfold outs. rewrite lookup_zip_with, Hsk, Htk. cbn [fmap option_fmap option_map mbind option_bind]. unfold zlen. by rewrite Nat2Z.id.
    + apply (write_row_caches s [t]); [done|lia].
  - intros j Hnot. rewrite Hj. unfold filled. destruct (slab !! j) as [row|]; [cbn [mbind option_bind]|done]. f_equal.
    destruct (decide (o ≤ j)%nat) as [Hoj|]; [|done]. unfold run_target. rewrite decide_False, Nat.sub_0_r by lia.
    specialize (Hnot (j - o)%nat ltac:(lia)). destruct (active !! (j - o)%nat) as [[]|]; done.
Qed.

Lemma uniform_mask s ts (p n : nat) : length s = p → length ts = n → (0 < n)%nat →
  ∃ m, (∀ b, row_mask None b (Z.of_nat p) (Z.of_nat n) = Ok m) ∧ causal (zlen s) (zlen ts) m ∧
    ∀ q c, 0 ≤ q < zlen ts → 0 ≤ c < zlen s + q → m_at m q c = true.
Proof.
  intros Hs Ht Hn. unfold row_mask, zlen. rewrite Hs, Ht. destruct (Z.eqb_spec (Z.of_nat n) 1) as [E0|E0].
  - eexists. split; [done|]. split; [|intros q c Hq Hc; cbn; lia]. split; [cbn; lia|]. split; [cbn; lia|]. intros q c Hq Hc. cbn. lia.
  - unfold create_causal_attention_mask. rewrite (proj2 (Z.leb_gt _ _)) by lia. destruct (Z.eqb_spec (Z.of_nat p) 0) as [E1|E1].
    + eexists. split; [done|]. split; [split; [cbn; lia|split; [cbn; lia|intros q c Hq Hc; cbn; lia]]|intros q c Hq Hc; cbn; lia].
    + eexists. split; [done|]. split; [split; [cbn; lia|split; [cbn; lia|intros q c Hq Hc; cbn; lia]]|intros q c Hq Hc; cbn; lia].
Qed.

Lemma py_slice_all {A} (l : list A) n : length l = n → py_slice l 0 (0 + Z.of_nat n) = l.
Proof. intros <-. rewrite Z.add_0_l, py_slice_nonneg by (unfold zlen; lia). rewrite Z.sub_0_r, Nat2Z.id, drop_0. apply firstn_all. Qed.

Lemma chunk_positions (p n : Z) : (λ i, i + (p + 0)) <$> py_range 0 n = seqZ p n.
Proof.
  unfold py_range. rewrite Z.sub_0_r. replace (seqZ p n) with (seqZ (p + 0) n) by (f_equal; lia).
  rewrite <- fmap_add_seqZ. apply list_fmap_ext. intros _ x _. lia.
Qed.

(** A step of rows at one position, in one chunk. *)
Lemma uniform_step cfg info slab input_ids (seqs : list (list Z)) (o cap n p : nat) mx :
  si_prefix_length info = Z.of_nat p → si_batch_offset info = Z.of_nat o → si_active_mask info = None →
  length seqs = length input_ids → input_ids ≠ [] → sized n input_ids → (0 < n)%nat → sized p seqs →
  estimate_max_chunk_length (max_chunk_size_bytes cfg) (max_shard_num_heads cfg) (backend_dtype_bytes cfg)
    (zlen input_ids) (si_prefix_length info) (Z.of_nat n) = Ok mx → Z.of_nat n ≤ mx →
  sized cap slab → (o + length input_ids ≤ length slab)%nat → (p + n ≤ cap)%nat →
  (∀ k s row, seqs !! k = Some s → slab !! (o + k)%nat = Some row → caches s row) →
  ∃ slab', inference_step cfg info input_ids slab = (slab', Ok (zip_with (λ s ts, (cells_of s ts).*2) seqs input_ids)) ∧
    sized cap slab' ∧ length slab' = length slab ∧
    (∀ k s ts, seqs !! k = Some s → input_ids !! k = Some ts →
      ∃ row', slab' !! (o + k)%nat = Some row' ∧ caches (s ++ ts) row') ∧
    (∀ j, (j < o ∨ o + length input_ids ≤ j)%nat → slab' !! j = slab !! j).
Proof using TML.
  intros Hpl Ho Ham Hls Hne Hsn Hn Hsp Hest Hmx Hs Hfit Hcap Hrows. set (b := length input_ids) in *.
  set (outs := zip_with cells_of seqs input_ids).
  assert (Hol : length outs = b) by (unfold outs; rewrite length_zip_with; lia).
  assert (Hb0 : (0 < b)%nat) by (unfold b; destruct input_ids; [done|cbn; lia]).
  assert (Hlive : ∀ m, live_row_positions info (zlen input_ids) m = None) by (intros m; unfold live_row_positions; rewrite Ham; by destruct (m =? 1)).
  unfold sized in Hsn, Hsp. rewrite Forall_lookup in Hsn, Hsp.
  assert (Hget : ∀ k s, seqs !! k = Some s → ∃ row, slab !! (o + k)%nat = Some row ∧ caches s row).
  { intros k s Hk. apply lookup_lt_Some in Hk as Hlt. destruct (lookup_lt_is_Some_2 slab (o + k)%nat) as [row Hr]; [lia|]. eauto. }
  destruct (select_rows cap o b (Z.of_nat p) slab) as (kv & Hsel & Hcl & Hkv); [done|done|done|lia|].
  set (kvs := (λ o : list (E * L), o.*1) <$> outs).
  assert (Hkl : length kvs = b) by (unfold kvs; by rewrite length_fmap).
  assert (Hkvs : sized n kvs).
  { apply list.Forall_fmap, Forall_lookup. intros k x Hx. apply lookup_zip_with_Some in Hx as (s & ts & -> & _ & Ht).
    cbn. rewrite length_fmap, cells_of_length. eauto. }
  exists (write_rows o p kvs slab). destruct (write_rows_sized o p n cap kvs slab) as [Hs' Hl']; [done|done|lia|lia|].
  split; [|split; [done|split; [done|split]]].
  - replace (zip_with _ _ _) with ((λ o : list (E * L), o.*2) <$> outs) by (unfold outs; by rewrite zip_with_fmap_out).
    apply (single_chunk_step _ _ _ _ mx kv outs _ n); rewrite ?Hlive, ?Hol; try done; [by apply Forall_lookup|by rewrite Hpl, Ho| |].
    + rewrite Hcl. apply mapM_seq_Ok; [done|]. intros k x Hx. apply lookup_zip_with_Some in Hx as (s & ts & -> & Hsk & Htk).
      apply lookup_lt_Some in Htk as Hlt. destruct (Hget k s Hsk) as (row & Hr & Hc).
      fold b. rewrite (Hkv k row) by done. specialize (Hsp k s Hsk). specialize (Hsn k ts Htk).
      destruct (uniform_mask s ts p n) as (m & Hm & Hcausal & Hsee); [done..|]. unfold row_position_ids. rewrite Htk.
      cbn [of_option mbind res_bind]. rewrite Hm. cbn [mbind res_bind]. f_equal. rewrite Nat2Z.id.
      rewrite chunk_positions, (py_slice_all ts n) by done. rewrite <- Hsp. unfold caches in Hc. rewrite Hc. rewrite <- Hsn. by apply run_seeing_all.
    + unfold finalize_cache_update. fold kvs. rewrite Ham, Hcl, Ho. cbn [active_mask_list].
      eapply write_kvs_fits; eauto; [intros E0; rewrite E0 in Hkl; cbn in Hkl; lia|lia].
  - intros k s ts Hsk Htk. destruct (Hget k s Hsk) as (row & Hr & Hc). eexists. split.
    + rewrite write_rows_lookup, Hr, decide_True by lia. replace (o + k - o)%nat with k by lia. unfold kvs, outs.
      by rewrite list_lookup_fmap, lookup_zip_with, Hsk, Htk.
    + rewrite <- (Hsp k s Hsk). apply write_row_caches; [done|]. unfold sized in Hs. rewrite Forall_lookup in Hs.
      rewrite (Hs _ _ Hr), (Hsp k s Hsk). lia.
  - intros j Hj. rewrite write_rows_lookup by lia. destruct (decide (o ≤ j)%nat); [|by destruct (slab !! j)].
    rewrite (proj2 (lookup_ge_None kvs _)) by lia. by destruct (slab !! j).
Qed.
End steps.
