(* ===== verification/LiveSession.v ===== *)
(** * A session's steps with live rows (client/inference_session.py, server/block_functions.py)

    A generation call may stage the rows of a tick before a step. The staged batch then says which
    rows of the session's batch the step computes: the request carries their offset, the flags of the
    active rows and the rows' positions, and the server of Decode.v runs the rows there. After the
    step the call records the tick.

    One server holds all blocks, and a step that fails is not tried again here: InferenceSession.v has
    the chain of servers and the recovery. The reuse of prefixes is off: PrefixHandoff.v has it. *)

From stdpp Require Import numbers base strings pretty list sets.
From Stdlib Require Import ZArith Lia ZifyBool.
From S2P Require Import Prelude Dict PyStr PyVal ContinuousBatching PrefixHandoff SpecTree SpecCache SpecVerify SpecGenerate Decode.

Open Scope string_scope.
Open Scope list_scope.
Open Scope Z_scope.

(** ** Staged and recorded ticks *)

(** A staged batch; the last fields are absent unless the caller gives them. *)
Record staged_batch := mkStaged {
  st_tick : Z;
  st_request_ids : list string;
  st_positions : list Z;
  st_input_token_ids : list Z;
  st_active_mask : option (list bool);
  st_batch_offset : option Z;
  st_full_batch_size : option Z;
  st_micro_batch_size : option Z;
}.

(** A recorded tick, without the fingerprints of its logits. *)
Record tick_record := mkTick {
  tr_tick : Z;
  tr_request_ids : list string;
  tr_positions : list Z;
  tr_input_token_ids : list Z;
  tr_active_mask : option (list bool);
  tr_output_token_ids : option (list Z);
}.

(** The part of an [InferenceSession] and of its server session that a generation call changes,
    with the server's cache. *)
Record session (E : Type) := mkSession {
  slab : list (list E);
  position : Z;
  server_position : Z;
  max_length : Z;
  output_ids : option (list (list Z));
  tick_batches : list tick_record;
  pending_tick_batch : option staged_batch;
  live_full_batch_size : Z;
}.
Arguments mkSession {E}.
Arguments slab {E}.
Arguments position {E}.
Arguments server_position {E}.
Arguments max_length {E}.
Arguments output_ids {E}.
Arguments tick_batches {E}.
Arguments pending_tick_batch {E}.
Arguments live_full_batch_size {E}.

Section session.
Context {E L : Type} `{TargetModel E L}.
Context (cfg : chunking) (is_live_continuous_batching_enabled : bool).
Implicit Types (s : session E) (input_ids : list (list Z)).

Definition new_session (slab : list (list E)) (max_length : Z) : session E := mkSession slab 0 0 max_length None [] None 0.
Definition set_slab (x : list (list E)) s := mkSession x (position s) (server_position s) (max_length s) (output_ids s) (tick_batches s) (pending_tick_batch s) (live_full_batch_size s).
Definition set_positions (p q : Z) s := mkSession (slab s) p q (max_length s) (output_ids s) (tick_batches s) (pending_tick_batch s) (live_full_batch_size s).
Definition set_output_ids (x : list (list Z)) s := mkSession (slab s) (position s) (server_position s) (max_length s) (Some x) (tick_batches s) (pending_tick_batch s) (live_full_batch_size s).
Definition add_tick (x : tick_record) s := mkSession (slab s) (position s) (server_position s) (max_length s) (output_ids s) (tick_batches s ++ [x]) (pending_tick_batch s) (live_full_batch_size s).
Definition set_pending (x : option staged_batch) s := mkSession (slab s) (position s) (server_position s) (max_length s) (output_ids s) (tick_batches s) x (live_full_batch_size s).
Definition set_live_full (x : Z) s := mkSession (slab s) (position s) (server_position s) (max_length s) (output_ids s) (tick_batches s) (pending_tick_batch s) x.

(** [_normalize_live_continuous_tick_rows] *)
Definition normalize_tick_rows s (rows : list LiveDecodeRow) (active_mask : option (list bool)) (output_token_ids : option (list Z)) :
    res tick_record :=
  if negb is_live_continuous_batching_enabled then Raise RuntimeError
  else
    match rows with
    | [] => Raise ValueError
    | row0 :: _ =>
        let tick := row_tick row0 in
        let request_ids := row_request_id <$> rows in
        let fits {A} (o : option (list A)) := match o with Some l => zlen l =? zlen rows | None => true end in
        if existsb (λ row, negb (row_tick row =? tick)) rows then Raise ValueError
        else if match last (tick_batches s) with Some b => tick <? tr_tick b | None => false end then Raise ValueError
        else if negb (bool_decide (NoDup request_ids)) then Raise ValueError
        else if negb (fits active_mask) || negb (fits output_token_ids) then Raise ValueError
        else Ok (mkTick tick request_ids (row_position <$> rows) (row_input_token_id <$> rows) active_mask output_token_ids)
    end.

(** [stage_live_continuous_tick_rows] *)
Definition stage_tick_rows (rows : list LiveDecodeRow) : M (session E) unit :=
  s ← get;
  b ← lift (normalize_tick_rows s rows None None);
  modify (set_pending (Some (mkStaged (tr_tick b) (tr_request_ids b) (tr_positions b) (tr_input_token_ids b) None None None None))).

(** [stage_live_continuous_tick_batch] *)
Definition stage_tick_batch (batch : staged_batch) : M (session E) unit :=
  match st_active_mask batch with
  | Some mask => guard_py (zlen mask =? zlen (st_request_ids batch)) ValueError
  | None => mret tt
  end;;
  modify (set_pending (Some batch)).

(** [record_live_continuous_tick_rows] *)
Definition record_tick_rows (rows : list LiveDecodeRow) (active_mask : option (list bool)) (output_token_ids : list Z) : M (session E) unit :=
  s ← get;
  b ← lift (normalize_tick_rows s rows active_mask (Some output_token_ids));
  modify (add_tick b).

(** ** A step *)

(** The fields of a staged batch in the request. *)
Definition staged_dict (b : staged_batch) : metadata :=
  [("tick", VInt (st_tick b)); ("request_ids", VList (VStr <$> st_request_ids b));
   ("positions", VList (VInt <$> st_positions b)); ("input_token_ids", VList (VInt <$> st_input_token_ids b))] ++
  match st_active_mask b with Some mask => [("active_mask", VList (VBool <$> mask))] | None => [] end ++
  match st_batch_offset b with Some n => [("batch_offset", VInt n)] | None => [] end ++
  match st_full_batch_size b with Some n => [("full_batch_size", VInt n)] | None => [] end ++
  match st_micro_batch_size b with Some n => [("micro_batch_size", VInt n)] | None => [] end.

(** [_consume_live_continuous_batching_metadata], the fields the server's step reads *)
Definition consume_live_metadata (b : staged_batch) : metadata :=
  [("request_count", VInt (zlen (st_request_ids b))); ("tick_batches", VList [VDict (staged_dict b)]);
   ("live_server_proven", VBool false)].

(** The full size of the staged batch, 0 without one. *)
Definition pending_full_batch_size s : Z :=
  match pending_tick_batch s with Some b => default (live_full_batch_size s) (st_full_batch_size b) | None => live_full_batch_size s end.

Definition pending_batch_offset s : Z :=
  match pending_tick_batch s with Some b => default 0 (st_batch_offset b) | None => 0 end.

(** A staged batch that is a part of the session's batch. *)
Definition pending_live_microbatch_active s (rows : Z) : bool :=
  (0 <? pending_full_batch_size s) && ((rows <? pending_full_batch_size s) || (0 <? pending_batch_offset s)).

(** The position of the first row; [session_position] when there is none. *)
Definition live_row_position (prefill_length : option (list Z)) (session_position : Z) : Z :=
  match prefill_length with Some (p :: _) => p | _ => session_position end.

(** The request's metadata. *)
Definition request_metadata s (rows start_from_position : Z) : metadata :=
  let logical_full_batch_size := Z.max rows (Z.max (live_full_batch_size s) (Z.max (pending_full_batch_size s) 1)) in
  let base := [("full_batch_size", VInt logical_full_batch_size); ("micro_batch_size", VInt rows);
               ("start_from_position", VInt start_from_position)] in
  match pending_tick_batch s with
  | None => base
  | Some b =>
      let md := dict_set base "live_continuous_batching" (VDict (consume_live_metadata b)) in
      let md := match st_batch_offset b with Some n => dict_set md "batch_offset" (VInt n) | None => md end in
      let md := match st_full_batch_size b with Some n => dict_set md "full_batch_size" (VInt n) | None => md end in
      match st_micro_batch_size b with Some n => dict_set md "micro_batch_size" (VInt n) | None => md end
  end.

(** [iterate_rpc_inference] on one request: the merged pools, the batch in one piece. *)
Definition serve_step (max_length : Z) (md : metadata) (prefill_length : list Z) input_ids : M (list (list E)) (list (list L)) :=
  let batch_size := zlen input_ids in
  let length_increment := match input_ids with row :: _ => zlen row | [] => 0 end in
  prefix_length ← lift (of_option KeyError (match dict_get md "start_from_position" with Some (VInt p) => Some p | _ => None end));
  guard_py (prefix_length + length_increment <=? max_length) ValueError;;
  let kwargs := fullbatch_metadata_kwargs md batch_size in
  inference_step cfg (mkInfo prefix_length (fb_batch_offset kwargs) (live_active_mask_from_step_metadata md batch_size) (Some prefill_length)) input_ids.

Definition on_slab {A} (m : M (list (list E)) A) : M (session E) A := λ s, let (x, r) := m (slab s) in (set_slab x s, r).

(** [InferenceSession.step] over its one server session's [step]. *)
Definition session_step (prefill_length : option (list Z)) input_ids : M (session E) (list (list L)) :=
  s ← get;
  let rows := zlen input_ids in
  let n_input_tokens := match input_ids with row :: _ => zlen row | [] => 0 end in
  let active := pending_live_microbatch_active s rows in
  let position_for_limit := if active then live_row_position prefill_length (position s) else position s in
  guard_py (position_for_limit + n_input_tokens <=? max_length s) ValueError;;
  let prefill := default (replicate (length input_ids) 0) prefill_length in
  let live_position := if active then live_row_position (Some prefill) (server_position s) else server_position s in
  outs ← on_slab (serve_step (max_length s) (request_metadata s rows live_position) prefill input_ids);
  modify (set_pending None);;
  modify (set_positions
    (if active then Z.max (position s) (position_for_limit + n_input_tokens) else position s + n_input_tokens)
    (if active then Z.max (server_position s) (live_position + n_input_tokens) else server_position s + n_input_tokens));;
  mret outs.

(** [live_continuous_batching_report] *)
Record live_report := mkReport {
  lr_opt_in_enabled : bool;
  lr_request_count : Z;
  lr_total_decode_batches : Z;
  lr_tick_batches : list tick_record;
}.

(** The request ids in the order they are first seen. *)
Definition seen_request_ids (batches : list tick_record) : list string :=
  foldl (λ seen id, if bool_decide (id ∈ seen) then seen else seen ++ [id]) [] (batches ≫= tr_request_ids).

Definition live_continuous_batching_report s : live_report :=
  mkReport is_live_continuous_batching_enabled (zlen (seen_request_ids (tick_batches s))) (zlen (tick_batches s)) (tick_batches s).
End session.

(** ** What the server reads of a request *)

Section requests.
Context {E L : Type} `{TM : TargetModel E L} `{TML : !TargetModelLaws E L}.
Context (cfg : chunking).
Implicit Types (s : session E) (input_ids seqs : list (list Z)).

(** Nothing is staged, or rows without a place in a larger batch. *)
Definition plain s : Prop := live_full_batch_size s = 0 ∧
  match pending_tick_batch s with
  | Some b => st_active_mask b = None ∧ st_batch_offset b = None ∧ st_full_batch_size b = None ∧ st_micro_batch_size b = None
  | None => True
  end.

Lemma plain_request s (rows p : Z) : plain s →
  pending_live_microbatch_active s rows = false ∧ dict_get (request_metadata s rows p) "start_from_position" = Some (VInt p) ∧
  fb_batch_offset (fullbatch_metadata_kwargs (request_metadata s rows p) rows) = 0 ∧
  live_active_mask_from_step_metadata (request_metadata s rows p) rows = None.
Proof.
  intros [Hf Hp]. unfold pending_live_microbatch_active, pending_full_batch_size, request_metadata, live_active_mask_from_step_metadata.
  destruct (pending_tick_batch s) as [[]|]; cbn in Hp; [destruct Hp as (-> & -> & -> & ->)|]; cbn [st_full_batch_size default from_option]; rewrite Hf;
    (split; [done|]; split; [done|]; split; [done|]; by destruct (rows <=? 0)).
Qed.

(** A staged group of [g] rows from row [o] of a batch of [n]. *)
Definition staged_group s (o g n : nat) : Prop := live_full_batch_size s = Z.of_nat n ∧
  ∃ b, pending_tick_batch s = Some b ∧ st_batch_offset b = Some (Z.of_nat o) ∧ st_full_batch_size b = Some (Z.of_nat n) ∧
    st_micro_batch_size b = Some (Z.of_nat g) ∧ st_active_mask b = Some ((λ i, bool_decide (o ≤ i < o + g)%nat) <$> seq 0 n).

Lemma group_flags (o g n : nat) : (o + g ≤ n)%nat →
  py_slice ((λ i, bool_decide (o ≤ i < o + g)%nat) <$> seq 0 n) (Z.of_nat o) (Z.of_nat o + Z.of_nat g) = replicate g true.
Proof.
  intros Hle. rewrite py_slice_nonneg by (unfold zlen; rewrite ?length_fmap, ?length_seq; lia).
  replace (Z.to_nat (Z.of_nat o + Z.of_nat g - Z.of_nat o)) with g by lia. rewrite Nat2Z.id. apply list_eq. intros i.
  destruct (decide (i < g)%nat) as [Hi|Hi].
  - rewrite lookup_take_lt, lookup_drop, list_lookup_fmap by done. rewrite lookup_seq_lt by lia. cbn. rewrite bool_decide_true by lia.
    by rewrite lookup_replicate_2.
  - rewrite (proj2 (lookup_ge_None _ _)) by (rewrite length_take; lia). symmetry. apply lookup_ge_None. rewrite length_replicate. lia.
Qed.

Lemma py_slice_fmap {A B} (f : A → B) (l : list A) a b : py_slice (f <$> l) a b = f <$> py_slice l a b.
Proof. unfold py_slice, zlen. rewrite length_fmap. by rewrite <- fmap_drop, <- fmap_take. Qed.

Lemma group_request s (o g n : nat) (p : Z) : staged_group s o g n → (0 < g)%nat → (o + g ≤ n)%nat →
  pending_live_microbatch_active s (Z.of_nat g) = (g <? n)%nat ∧
  dict_get (request_metadata s (Z.of_nat g) p) "start_from_position" = Some (VInt p) ∧
  fb_batch_offset (fullbatch_metadata_kwargs (request_metadata s (Z.of_nat g) p) (Z.of_nat g)) = Z.of_nat o ∧
  fb_micro_batch_size (fullbatch_metadata_kwargs (request_metadata s (Z.of_nat g) p) (Z.of_nat g)) = Z.of_nat g ∧
  live_active_mask_from_step_metadata (request_metadata s (Z.of_nat g) p) (Z.of_nat g) = Some (replicate g true).
Proof.
  intros (Hfull & b & Hb & Hof & Hfl & Hmi & Hact) Hg Hle.
  unfold pending_live_microbatch_active, pending_full_batch_size, pending_batch_offset, request_metadata.
  rewrite Hb, Hof, Hfl, Hmi. cbn [default from_option id].
  set (md := dict_set _ _ (VInt (Z.of_nat g))).
  assert (Hoff : get_default md "batch_offset" (VInt 0) = VInt (Z.of_nat o)) by done.
  assert (Hoff' : get_default md "batch_offset" (get_default md "offset" (VInt 0)) = VInt (Z.of_nat o)) by done.
  assert (Hmic : ∀ v, get_default md "micro_batch_size" v = VInt (Z.of_nat g)) by done.
  split; [lia|]. split; [done|]. split; [|split].
  - unfold fullbatch_metadata_kwargs. rewrite Hoff'. cbn [to_int py_int_of fb_batch_offset]. destruct (Z.ltb_spec (Z.of_nat o) 0); lia.
  - unfold fullbatch_metadata_kwargs. cbn [fb_micro_batch_size]. rewrite Hmic. cbn [to_int py_int_of].
    rewrite (proj2 (Z.leb_gt (Z.of_nat g) 0)) by lia. done.
  - unfold live_active_mask_from_step_metadata. rewrite (proj2 (Z.leb_gt (Z.of_nat g) 0)) by lia. rewrite Hoff, Hmic.
    assert (Hl : as_dict (dict_get md "live_continuous_batching") = Some (consume_live_metadata b)) by done.
    assert (Hm : as_list (dict_get (staged_dict b) "active_mask") = Some (VBool <$> ((λ i, bool_decide (o ≤ i < o + g)%nat) <$> seq 0 n))).
    { unfold staged_dict. by rewrite Hact. }
    rewrite Hl. change (as_list (dict_get (consume_live_metadata b) "tick_batches")) with (Some [VDict (staged_dict b)]).
    change (Some (consume_live_metadata b) ≫= _) with
      (raw_mask ← as_list (dict_get (staged_dict b) "active_mask");
       if zlen raw_mask =? Z.of_nat g then Some (truthy <$> raw_mask)
       else if (to_int (VInt (Z.of_nat o)) 0 <? 0) || negb (to_int (VInt (Z.of_nat g)) (Z.of_nat g) =? Z.of_nat g) then None
       else if zlen raw_mask <? to_int (VInt (Z.of_nat o)) 0 + Z.of_nat g then None
       else Some (truthy <$> py_slice raw_mask (to_int (VInt (Z.of_nat o)) 0) (to_int (VInt (Z.of_nat o)) 0 + Z.of_nat g))).
    rewrite Hm. cbn [mbind option_bind to_int py_int_of].
    set (flags := (λ i, bool_decide _) <$> _).
    assert (Hfn : zlen (VBool <$> flags) = Z.of_nat n) by (unfold zlen, flags; by rewrite !length_fmap, length_seq).
    assert (Hst : ∀ l : list bool, truthy <$> (VBool <$> l) = l).
    { intros l. rewrite <- list_fmap_compose. rewrite <- list_fmap_id. by apply list_fmap_ext. }
    rewrite Hfn. destruct (Z.eqb_spec (Z.of_nat n) (Z.of_nat g)) as [E0|E0].
    + assert (o = 0 ∧ n = g)%nat as [-> ->] by lia. rewrite Hst. f_equal. rewrite <- (group_flags 0 g g) by lia. fold flags.
      symmetry. apply (py_slice_all flags g). unfold flags. by rewrite length_fmap, length_seq.
    + rewrite (proj2 (Z.ltb_ge (Z.of_nat o) 0)), Z.eqb_refl by lia. cbn [negb orb]. rewrite (proj2 (Z.ltb_ge (Z.of_nat n) _)) by lia.
      rewrite py_slice_fmap, Hst. unfold flags. by rewrite group_flags.
Qed.
(** A later server of the chain, which the client calls with nothing staged, takes the group for the
    first rows of its cache, without active rows. *)
Lemma later_server_reads_first_rows s (g n : nat) (p : Z) : live_full_batch_size s = Z.of_nat n → pending_tick_batch s = None → (0 < g)%nat →
  fb_batch_offset (fullbatch_metadata_kwargs (request_metadata s (Z.of_nat g) p) (Z.of_nat g)) = 0 ∧
  live_active_mask_from_step_metadata (request_metadata s (Z.of_nat g) p) (Z.of_nat g) = None.
Proof.
  intros Hf Hp Hg. unfold request_metadata. rewrite Hp. split; [done|]. unfold live_active_mask_from_step_metadata. by destruct (_ <=? 0).
Qed.

(** ** Steps *)

Lemma guard_pass {S A} (b : bool) e (f : unit → M S A) (x : S) : b = true → (guard_py b e ≫= f) x = f tt x.
Proof. by intros ->. Qed.

(** A step of [n] positions after [p] of a batch of [b] rows runs in one chunk. *)
Definition one_chunk (b p n : Z) : Prop :=
  ∃ mx, estimate_max_chunk_length (max_chunk_size_bytes cfg) (max_shard_num_heads cfg) (backend_dtype_bytes cfg) b p n = Ok mx ∧ n ≤ mx.

Lemma one_position_one_chunk (b p : Z) : chunking_wf cfg → 0 < b → 0 ≤ p → one_chunk b p 1.
Proof. intros Hc Hb Hp. destruct (chunk_estimate cfg b p 1) as (mx & H1 & H2 & _); [done|lia|lia|lia|]. by exists mx. Qed.

Lemma on_slab_Ok {A} (m : M (list (list E)) A) s x a : m (slab s) = (x, Ok a) → on_slab m s = (set_slab x s, Ok a).
Proof. intros Hm. unfold on_slab. by rewrite Hm. Qed.

Lemma serve_Ok ml md prefill input_ids slab p r : dict_get md "start_from_position" = Some (VInt p) →
  p + (match input_ids with row :: _ => zlen row | [] => 0 end) ≤ ml →
  inference_step cfg (mkInfo p (fb_batch_offset (fullbatch_metadata_kwargs md (zlen input_ids)))
    (live_active_mask_from_step_metadata md (zlen input_ids)) (Some prefill)) input_ids slab = r →
  serve_step cfg ml md prefill input_ids slab = r.
Proof.
  intros Hp Hml Hr. unfold serve_step. rewrite Hp. cbn [of_option]. rewrite lift_ok_bind. rewrite guard_pass by lia. exact Hr.
Qed.

(** The session after a step. *)
Definition stepped (x : list (list E)) (p q : Z) s : session E := set_positions p q (set_pending None (set_slab x s)).

Lemma sized_head (n : nat) input_ids : sized n input_ids → input_ids ≠ [] → match input_ids with row :: _ => zlen row | [] => 0 end = Z.of_nat n.
Proof. intros Hs Hne. destruct input_ids as [|r rs]; [done|]. apply Forall_inv in Hs. unfold zlen. by rewrite Hs. Qed.

Lemma singles_head (toks : list Z) : toks ≠ [] → match (λ t, [t]) <$> toks with row :: _ => zlen row | [] => 0 end = 1.
Proof. by destruct toks. Qed.

Lemma plain_step s input_ids seqs (cap n p : nat) : plain s → position s = Z.of_nat p → server_position s = Z.of_nat p →
  Z.of_nat (p + n) ≤ max_length s → length seqs = length input_ids → input_ids ≠ [] → sized n input_ids → (0 < n)%nat →
  sized p seqs → one_chunk (zlen input_ids) (Z.of_nat p) (Z.of_nat n) → sized cap (slab s) →
  length input_ids = length (slab s) → (p + n ≤ cap)%nat → (∀ k q row, seqs !! k = Some q → slab s !! k = Some row → caches q row) →
  ∃ slab', session_step cfg None input_ids s =
      (stepped slab' (Z.of_nat (p + n)) (Z.of_nat (p + n)) s, Ok (zip_with (λ q ts, (cells_of q ts).*2) seqs input_ids)) ∧
    sized cap slab' ∧ length slab' = length (slab s) ∧
    ∀ k q ts row, seqs !! k = Some q → input_ids !! k = Some ts → slab' !! k = Some row → caches (q ++ ts) row.
Proof using TML.
  intros Hpl Hp Hq Hml Hls Hne Hn Hn0 Hsp (mx & Hest & Hmx) Hs Hlen Hcap Hrows.
  destruct (plain_request s (zlen input_ids) (server_position s) Hpl) as (Hact & Hst & Hoff & Hmask).
  set (md := request_metadata s (zlen input_ids) (server_position s)) in *.
  destruct (uniform_step cfg (mkInfo (server_position s) (fb_batch_offset (fullbatch_metadata_kwargs md (zlen input_ids)))
    (live_active_mask_from_step_metadata md (zlen input_ids)) (Some (replicate (length input_ids) 0))) (slab s) input_ids seqs 0 cap n p mx)
    as (slab' & Hrun & Hs' & Hl' & Hc & _); try done; [by cbn; rewrite Hq|lia|].
  exists slab'. split; [|split; [done|split; [done|]]].
  2:{ intros k q ts row Hk Ht Hr. destruct (Hc k q ts Hk Ht) as (row' & Hr' & ?). cbn in Hr'. by simplify_eq. }
  unfold session_step. rewrite get_bind, Hact, (sized_head n) by done. rewrite Hp, guard_pass by lia.
  cbn [default from_option]. fold md.
  assert (Hserve : serve_step cfg (max_length s) md (replicate (length input_ids) 0) input_ids (slab s) =
    (slab', Ok (zip_with (λ q ts, (cells_of q ts).*2) seqs input_ids))).
  { apply (serve_Ok _ _ _ _ _ (server_position s)); [done|rewrite (sized_head n) by done; lia|exact Hrun]. }
  rewrite (bind_ok _ _ _ _ _ (on_slab_Ok _ _ _ _ Hserve)).
  rewrite !modify_bind. unfold stepped. by rewrite Hq, Nat2Z.inj_add.
Qed.

(** A step of a staged group, every row after its own tokens. *)
Lemma group_step s seqs toks (o g n cap : nat) : staged_group s o g n → chunking_wf cfg → length toks = g → length seqs = g → (0 < g)%nat →
  (o + g ≤ n)%nat → length (slab s) = n → sized cap (slab s) → 0 ≤ server_position s →
  (∀ p, zlen <$> head seqs = Some p → p + 1 ≤ max_length s ∧ (g = n → position s = p ∧ server_position s = p)) →
  (∀ k q row, seqs !! k = Some q → slab s !! (o + k)%nat = Some row → caches q row ∧ (length q < cap)%nat) →
  ∃ slab', session_step cfg (Some (zlen <$> seqs)) ((λ t, [t]) <$> toks) s =
      (stepped slab' (Z.max (position s) (from_option zlen 0 (head seqs) + 1)) (Z.max (server_position s) (from_option zlen 0 (head seqs) + 1)) s,
       Ok (zip_with (λ q t, [(cell_of (q ++ [t])).2]) seqs toks)) ∧
    sized cap slab' ∧ length slab' = n ∧
    (∀ k q t row, seqs !! k = Some q → toks !! k = Some t → slab' !! (o + k)%nat = Some row → caches (q ++ [t]) row) ∧
    (∀ j, (j < o ∨ o + g ≤ j)%nat → slab' !! j = slab s !! j).
Proof using TML.
  intros Hst Hcf Hlt Hls Hg Hle Hsl Hs Hsp Hhd Hrows.
  destruct seqs as [|q0 qs] eqn:Eseqs; [cbn in Hls; lia|]. rewrite <- Eseqs in *.
  assert (Hh : head seqs = Some q0) by (by rewrite Eseqs). assert (Hmap : zlen <$> seqs = zlen q0 :: (zlen <$> qs)) by (by rewrite Eseqs).
  destruct (Hhd (zlen q0)) as [Hlim Hfull]; [by rewrite Hh|]. rewrite Hh. cbn [from_option].
  assert (Hz : zlen ((λ t : Z, [t]) <$> toks) = Z.of_nat g) by (unfold zlen; by rewrite length_fmap, Hlt).
  set (lp := if (g <? n)%nat then zlen q0 else server_position s).
  destruct (group_request s o g n lp Hst Hg Hle) as (Hact & Hstart & Hoff & _ & Hmask).
  set (md := request_metadata s (Z.of_nat g) lp) in *.
  assert (Hlp : 0 ≤ lp ∧ lp + 1 ≤ max_length s).
  { unfold lp. pose proof (zlen_nonneg q0). destruct (Nat.ltb_spec g n); [lia|]. destruct Hfull as [_ ->]; lia. }
  destruct (ragged_step cfg (mkInfo lp (fb_batch_offset (fullbatch_metadata_kwargs md (Z.of_nat g)))
    (live_active_mask_from_step_metadata md (Z.of_nat g)) (Some (zlen <$> seqs))) (slab s) toks seqs (replicate g true) o cap)
    as (slab' & Hrun & Hs' & Hl' & Hc & Hrest); try done; [cbn; lia|rewrite length_replicate; lia|lia|intros ->; cbn in Hlt; lia|lia|].
  exists slab'. split; [|split; [done|split; [lia|split]]].
  - unfold session_step. rewrite get_bind, Hz, Hact.
    rewrite singles_head by (intros ->; cbn in Hlt; lia).
    rewrite Hmap. cbn [live_row_position default from_option id]. rewrite <- Hmap.
    replace (if (g <? n)%nat then zlen q0 else position s) with (zlen q0) by (destruct (Nat.ltb_spec g n); [done|destruct Hfull; lia]).
    rewrite guard_pass by lia. fold lp md.
    assert (Hserve : serve_step cfg (max_length s) md (zlen <$> seqs) ((λ t, [t]) <$> toks) (slab s) =
      (slab', Ok (zip_with (λ q t, [(cell_of (q ++ [t])).2]) seqs toks))).
    { apply (serve_Ok _ _ _ _ _ lp); [done| |by rewrite Hz].
      rewrite singles_head by (intros ->; cbn in Hlt; lia). lia. }
    rewrite (bind_ok _ _ _ _ _ (on_slab_Ok _ _ _ _ Hserve)). rewrite !modify_bind. unfold stepped, lp.
    destruct (Nat.ltb_spec g n); [done|]. destruct Hfull as [-> ->]; [lia|]. by rewrite Z.max_r by lia.
  - intros k q t row Hk Ht Hr. destruct (Hc k q t Hk Ht) as (row' & Hr' & ?); [|by simplify_eq].
    apply lookup_replicate_2. apply lookup_lt_Some in Ht. lia.
  - intros j Hj. apply Hrest. intros k -> Hk. apply lookup_replicate in Hk as [_ ?]. lia.
Qed.
End requests.
