(* ===== verification/RemoteGeneration.v ===== *)
(** * Greedy generation on the client (client/remote_generation.py)

    Two loops without the machinery of transformers, over the session steps of LiveSession.v: the fast
    loop, and the loop that stages and records its ticks. LateArrivals.v has the scheduler of rows
    that arrive later, GenerateCall.v the choice between the loops and the generic generator.

    The theorems compare the loops with greedy decoding of the target model, row by row, for prompts
    that fit one inference chunk of the server. *)

From stdpp Require Import numbers base strings pretty list sets sorting.
From Stdlib Require Import ZArith Lia ZifyBool.
From S2P Require Import Prelude Dict PyVal ContinuousBatching SpecTree SpecCache SpecVerify SpecGenerate SpecPrompt Decode LiveSession.

Open Scope string_scope.
Open Scope list_scope.
Open Scope Z_scope.

(** ** The loops *)

Section loops.
Context {E L : Type} `{TargetModel E L} `{LogitsOps L}.
Context (cfg : chunking) (is_live_continuous_batching_enabled : bool).
Implicit Types (input_ids : list (list Z)) (eos_set : list Z) (done : list bool).

#[local] Notation session_step := (session_step cfg).
#[local] Notation stage_tick_rows := (stage_tick_rows is_live_continuous_batching_enabled).
#[local] Notation record_tick_rows := (record_tick_rows is_live_continuous_batching_enabled).

(** The greedy token at the last position of every row. *)
Definition next_ids (logits : list (list L)) : res (list Z) :=
  mapM (λ row : list L, l ← of_option IndexError (last row); Ok (t_argmax l)) logits.

Definition is_eos eos_set (t : Z) : bool := bool_decide (t ∈ eos_set).

Definition append_ids (output : list (list Z)) (next_id : list Z) : list (list Z) := zip_with (λ row t, row ++ [t]) output next_id.

(** The loop of [_fast_generate_greedy]. *)
Fixpoint fast_loop (max_new_tokens : nat) eos_set (pad_token_id : option Z) (step_ids output : list (list Z)) done :
    M (session E) (list (list Z)) :=
  match max_new_tokens with
  | O => mret output
  | S n =>
      logits ← session_step None step_ids;
      next_id ← lift (next_ids logits);
      let done := zip_with orb done (is_eos eos_set <$> next_id) in
      let next_id :=
        match eos_set, pad_token_id with
        | _ :: _, Some pad => zip_with (λ (d : bool) t, if d then pad else t) done next_id
        | _, _ => next_id
        end in
      let output := append_ids output next_id in
      if (match eos_set with [] => false | _ :: _ => forallb id done end) then mret output
      else fast_loop n eos_set pad_token_id ((λ t, [t]) <$> next_id) output done
  end.

Definition prompt_width input_ids : Z := match input_ids with row :: _ => zlen row | [] => 0 end.

(** [max_new_tokens] as the call gives it, or from [max_length]. *)
Definition resolve_max_new_tokens (max_new_tokens max_length : option Z) (prompt_len : Z) : res Z :=
  match max_new_tokens, max_length with
  | Some n, _ => Ok n
  | None, Some m => Ok (Z.max 0 (m - prompt_len))
  | None, None => Raise AssertionError
  end.

(** [_fast_generate_greedy] inside its session: a session that has tokens is fed the newest only. *)
Definition fast_generate_greedy (max_new_tokens max_length : option Z) (pad_token_id : option Z) eos_set input_ids :
    M (session E) (list (list Z)) :=
  max_new_tokens ← lift (resolve_max_new_tokens max_new_tokens max_length (prompt_width input_ids));
  s ← get;
  let '(output, step_ids) :=
    match output_ids s with
    | Some prev =>
        if 0 <? prompt_width prev then
          if 0 <? prompt_width input_ids then (zip_with app prev input_ids, last_cols 1 <$> input_ids)
          else (prev, last_cols 1 <$> prev)
        else (input_ids, input_ids)
    | None => (input_ids, input_ids)
    end in
  output ← fast_loop (Z.to_nat max_new_tokens) eos_set pad_token_id step_ids output (replicate (length input_ids) false);
  modify (set_output_ids output);;
  mret output.

(** ** The loop that reports its ticks *)

Definition request_id (batch_idx : nat) : string := "generate-" +:+ pretty (Z.of_nat batch_idx).

(** The rows of a tick: every row at the tick's own position, with its newest token. *)
Definition tick_rows (tick : Z) (step_ids : list (list Z)) : res (list LiveDecodeRow) :=
  mapM (λ i, t ← of_option IndexError (last (step_ids !!! i)); Ok (mkRow (request_id i) tick tick t)) (seq 0 (length step_ids)).

(** The loop of [_live_continuous_generate_impl], from [tick] on. *)
Fixpoint live_loop (n : nat) (tick : Z) eos_set (step_ids output : list (list Z)) done : M (session E) (list (list Z)) :=
  match n with
  | O => mret output
  | S n =>
      rows ← lift (tick_rows tick step_ids);
      stage_tick_rows rows;;
      logits ← session_step None step_ids;
      next_id ← lift (next_ids logits);
      let done := zip_with orb done (is_eos eos_set <$> next_id) in
      record_tick_rows rows None next_id;;
      let output := append_ids output next_id in
      if (match eos_set with [] => false | _ :: _ => forallb id done end) then mret output
      else live_loop n (tick + 1) eos_set ((λ t, [t]) <$> next_id) output done
  end.
End loops.

(** ** What greedy decoding emits *)

(** [g] with its first end-of-sequence token and all after it replaced by [pad]. *)
Fixpoint freeze (eos_set : list Z) (pad : Z) (g : list Z) : list Z :=
  match g with
  | [] => []
  | t :: g => if is_eos eos_set t then replicate (S (length g)) pad else t :: freeze eos_set pad g
  end.

Definition frozen (eos_set : list Z) (pad_token_id : option Z) (g : list Z) : list Z :=
  match pad_token_id with Some pad => freeze eos_set pad g | None => g end.

Definition ended (eos_set g : list Z) : bool := existsb (is_eos eos_set) g.

Lemma freeze_snoc eos_set pad g t : freeze eos_set pad (g ++ [t]) = freeze eos_set pad g ++ [if ended eos_set (g ++ [t]) then pad else t].
Proof.
  induction g as [|x g IH]; cbn; [by destruct (is_eos eos_set t)|]. destruct (is_eos eos_set x); cbn.
  - rewrite length_app, Nat.add_1_r. cbn. by rewrite replicate_cons_app.
  - by rewrite IH.
Qed.

Lemma ended_snoc eos_set g t : ended eos_set (g ++ [t]) = ended eos_set g || is_eos eos_set t.
Proof. unfold ended. rewrite existsb_app. cbn. by rewrite orb_false_r. Qed.

Lemma ended_no_eos g : ended [] g = false.
Proof.
  unfold ended. induction g as [|t g IH]; [done|]. cbn [existsb]. rewrite IH. unfold is_eos.
  rewrite bool_decide_false by apply not_elem_of_nil. done.
Qed.

(** What [frozen] leaves alone, and what it fills. *)
Lemma freeze_length eos_set pad g : length (freeze eos_set pad g) = length g.
Proof. induction g as [|t g IH]; [done|]. cbn. destruct (is_eos eos_set t); cbn; [by rewrite length_replicate|by rewrite IH]. Qed.

Lemma frozen_length eos_set pad_token_id g : length (frozen eos_set pad_token_id g) = length g.
Proof. destruct pad_token_id; [apply freeze_length|done]. Qed.

Lemma frozen_not_ended eos_set pad_token_id g : ended eos_set g = false → frozen eos_set pad_token_id g = g.
Proof.
  destruct pad_token_id as [pad|]; [|done]. cbn. induction g as [|t g IH]; [done|]. cbn. intros [-> He]%orb_false_iff.
  by rewrite IH.
Qed.

Lemma freeze_at_eos eos_set pad g k e : g !! k = Some e → is_eos eos_set e = true → ended eos_set (take k g) = false →
  take k (freeze eos_set pad g) = take k g ∧ drop (S k) (freeze eos_set pad g) = replicate (length g - S k) pad.
Proof.
  revert k. induction g as [|t g IH]; intros [|k]; [done..| |]; cbn.
  - intros [= ->] -> _. cbn. by rewrite !drop_0, Nat.sub_0_r.
  - intros Hk He [Ht Hend]%orb_false_iff. rewrite Ht. destruct (IH k Hk He Hend) as [H1 H2]. cbn in *. by rewrite H1, H2.
Qed.

Section fast.
Context {E L : Type} `{TM : TargetModel E L} `{TML : !TargetModelLaws E L} `{LO : LogitsOps L}.
Context (cfg : chunking).
Implicit Types (s : session E) (prompts seqs step_ids : list (list Z)) (row : list Z).

Lemma greedy_snoc k row : greedy (S k) row = greedy k row ++ [t_argmax (cell_of (row ++ greedy k row)).2].
Proof. rewrite <- Nat.add_1_r, greedy_add. done. Qed.

Lemma next_ids_cells (seqs step_ids : list (list Z)) : Forall (λ ts, ts ≠ []) step_ids →
  next_ids (zip_with (λ q ts, (cells_of q ts).*2) seqs step_ids) = Ok (zip_with (λ q ts, t_argmax (cell_of (q ++ ts)).2) seqs step_ids).
Proof.
  intros Hne. revert seqs. induction Hne as [|ts step_ids Hts _ IH]; intros [|q seqs]; try done.
  change (zip_with ?f (q :: seqs) (ts :: step_ids)) with (f q ts :: zip_with f seqs step_ids).
  unfold next_ids in *. cbn [mapM]. destruct (exists_last Hts) as (ts' & t & ->).
  rewrite cells_of_snoc, fmap_app. cbn [fmap list_fmap]. rewrite last_snoc. cbn [of_option mbind res_bind].
  by rewrite IH.
Qed.

(** Every row has met an end-of-sequence token in its next [j]. *)
Definition all_ended eos_set prompts (j : nat) : bool :=
  match eos_set with [] => false | _ :: _ => forallb (λ row, ended eos_set (greedy j row)) prompts end.

(** After [k] tokens, [p] of each row's context are in its cache. *)
Record fast_state (eos_set : list Z) (pad_token_id : option Z) prompts (cap p n k : nat) s seqs step_ids : Prop := mkFastState {
  fs_plain : plain s;
  fs_position : position s = Z.of_nat p ∧ server_position s = Z.of_nat p;
  fs_seqs : sized p seqs ∧ length seqs = length prompts;
  fs_steps : sized n step_ids ∧ length step_ids = length prompts;
  fs_slab : sized cap (slab s) ∧ length (slab s) = length prompts;
  fs_cached : ∀ (r : nat) q (cached : list E), seqs !! r = Some q → slab s !! r = Some cached → caches q cached;
  fs_context : ∀ r row q ts, prompts !! r = Some row → seqs !! r = Some q → step_ids !! r = Some ts →
    (is_Some pad_token_id ∧ ended eos_set (greedy k row) = true) ∨ q ++ ts = row ++ greedy k row;
}.

Definition fast_row eos_set pad_token_id (k : nat) row : list Z := row ++ frozen eos_set pad_token_id (greedy k row).

Definition fast_output eos_set pad_token_id prompts (k : nat) : list (list Z) := fast_row eos_set pad_token_id k <$> prompts.

Definition fast_done eos_set prompts (k : nat) : list bool := (λ row, ended eos_set (greedy k row)) <$> prompts.

(** One pass of the loop. *)
Lemma fast_pass eos_set pad_token_id prompts (cap p n k : nat) s seqs step_ids : chunking_wf cfg → prompts ≠ [] → (0 < n)%nat →
  fast_state eos_set pad_token_id prompts cap p n k s seqs step_ids → one_chunk cfg (zlen prompts) (Z.of_nat p) (Z.of_nat n) →
  (p + n ≤ cap)%nat → Z.of_nat (p + n) ≤ max_length s →
  ∃ s' raw, session_step cfg None step_ids s = (s', Ok (zip_with (λ q ts, (cells_of q ts).*2) seqs step_ids)) ∧
    next_ids (zip_with (λ q ts, (cells_of q ts).*2) seqs step_ids) = Ok raw ∧ length raw = length prompts ∧
    let done := fast_done eos_set prompts (S k) in
    let next := match eos_set, pad_token_id with
      | _ :: _, Some pad => zip_with (λ (d : bool) t, if d then pad else t) done raw
      | _, _ => raw
      end in
    zip_with orb (fast_done eos_set prompts k) (is_eos eos_set <$> raw) = done ∧
    append_ids (fast_output eos_set pad_token_id prompts k) next = fast_output eos_set pad_token_id prompts (S k) ∧
    fast_state eos_set pad_token_id prompts cap (p + n) 1 (S k) s' (zip_with app seqs step_ids) ((λ t, [t]) <$> next) ∧
    max_length s' = max_length s.
Proof using TML.
  intros Hcf Hne Hn [Hpl [Hp Hq] [Hs Hsl] [Ht Htl] [Hb Hbl] Hc Hctx] Hchunk Hcap Hml.
  assert (Hsne : step_ids ≠ []) by (intros ->; destruct prompts; done).
  destruct (plain_step cfg s step_ids seqs cap n p) as (slab' & Hrun & Hs' & Hl' & Hc'); try done; [lia|by unfold zlen; rewrite Htl|lia|].
  set (raw := zip_with (λ q ts, t_argmax (cell_of (q ++ ts)).2) seqs step_ids).
  assert (Hrl : length raw = length prompts) by (unfold raw; rewrite length_zip_with; lia).
  exists (stepped slab' (Z.of_nat (p + n)) (Z.of_nat (p + n)) s), raw. split; [done|]. split; [|split; [done|]].
  { apply next_ids_cells. eapply Forall_impl; [exact Ht|]. cbn. intros ts Hts ->. cbn in Hts. lia. }
  intros done next.
  assert (Hrows : ∀ r row, prompts !! r = Some row → ∃ q ts, seqs !! r = Some q ∧ step_ids !! r = Some ts ∧
    raw !! r = Some (t_argmax (cell_of (q ++ ts)).2) ∧
    ((is_Some pad_token_id ∧ ended eos_set (greedy k row) = true) ∨
     (q ++ ts = row ++ greedy k row ∧ greedy (S k) row = greedy k row ++ [t_argmax (cell_of (q ++ ts)).2]))).
  { intros r row Hr. apply lookup_lt_Some in Hr as Hlt. destruct (lookup_lt_is_Some_2 seqs r) as [q Hqr]; [lia|].
    destruct (lookup_lt_is_Some_2 step_ids r) as [ts Htr]; [lia|]. exists q, ts. split; [done|]. split; [done|]. split.
    - unfold raw. by rewrite lookup_zip_with, Hqr, Htr.
    - destruct (Hctx r row q ts Hr Hqr Htr) as [?|E0]; [by left|right]. split; [done|]. by rewrite greedy_snoc, <- E0. }
  assert (Hdone : zip_with orb (fast_done eos_set prompts k) (is_eos eos_set <$> raw) = done).
  { apply list_eq. intros r. unfold done, fast_done. rewrite lookup_zip_with, !list_lookup_fmap. destruct (prompts !! r) as [row|] eqn:Hr; [|done].
    destruct (Hrows r row Hr) as (q & ts & _ & _ & -> & Hcase). cbn [fmap option_fmap option_map mbind option_bind]. f_equal. destruct Hcase as [[_ He]|[_ ->]].
    - rewrite greedy_snoc, ended_snoc, He. done.
    - by rewrite ended_snoc. }
  assert (Hnext : ∀ r row, prompts !! r = Some row → ∃ t, next !! r = Some t ∧
    fast_row eos_set pad_token_id (S k) row = fast_row eos_set pad_token_id k row ++ [t] ∧
    ((is_Some pad_token_id ∧ ended eos_set (greedy (S k) row) = true) ∨ greedy (S k) row = greedy k row ++ [t])).
  { intros r row Hr. destruct (Hrows r row Hr) as (q & ts & _ & _ & Hraw & Hcase). unfold fast_row.
    set (t' := t_argmax (cell_of (row ++ greedy k row)).2). pose proof (greedy_snoc k row) as Hg. fold t' in Hg.
    destruct pad_token_id as [pad|]; cbn [frozen].
    2:{ destruct Hcase as [[[] _]|[E0 _]]; [done|]. rewrite E0 in Hraw. fold t' in Hraw. exists t'. split; [by destruct eos_set|].
        rewrite Hg, app_assoc. split; [done|by right]. }
    exists (if ended eos_set (greedy (S k) row) then pad else t'). split; [|split].
    - unfold next. destruct eos_set as [|e es].
      + rewrite ended_no_eos. destruct Hcase as [[_ Hend]|[E0 _]]; [by rewrite ended_no_eos in Hend|]. by rewrite E0 in Hraw.
      + rewrite lookup_zip_with. unfold done, fast_done. rewrite list_lookup_fmap, Hr, Hraw. cbn [fmap option_fmap option_map mbind option_bind]. f_equal.
        destruct Hcase as [[_ Hend]|[E0 _]]; [rewrite Hg, ended_snoc, Hend; done|]. by rewrite E0.
    - rewrite Hg, freeze_snoc, <- Hg. by rewrite app_assoc.
    - destruct (ended eos_set (greedy (S k) row)) eqn:He; [left; eauto|by right]. }
  split; [done|]. split; [|split; [|done]].
  - apply list_eq. intros r. unfold append_ids, fast_output. rewrite lookup_zip_with, !list_lookup_fmap.
    destruct (prompts !! r) as [row|] eqn:Hr; [|done]. destruct (Hnext r row Hr) as (t & -> & Hf & _).
    cbn [fmap option_fmap option_map mbind option_bind]. by rewrite Hf.
  - assert (Hnl : length next = length prompts).
    { unfold next. destruct eos_set, pad_token_id; try done. rewrite length_zip_with. unfold done, fast_done. rewrite length_fmap. lia. }
    split; [by destruct Hpl|done|split|split|split; [done|cbn; lia]| |].
    + unfold sized in *. rewrite Forall_lookup in *. intros r x Hx. apply lookup_zip_with_Some in Hx as (q & ts & -> & Hqr & Htr).
      rewrite length_app. rewrite (Hs r q), (Ht r ts) by done. lia.
    + rewrite length_zip_with. lia.
    + by apply list.Forall_fmap, Forall_forall.
    + rewrite length_fmap. lia.
    + intros r x cached Hx Hr. apply lookup_zip_with_Some in Hx as (q & ts & -> & Hqr & Htr). by eapply Hc'.
    + intros r row x ts' Hr Hx Hts. apply lookup_zip_with_Some in Hx as (q & ts & -> & Hqr & Htr). rewrite list_lookup_fmap in Hts.
      destruct (Hnext r row Hr) as (t & Htn & _ & Hcase). rewrite Htn in Hts. injection Hts as <-.
      destruct (Hctx r row q ts Hr Hqr Htr) as [[? Hend]|E0]; [left; split; [done|by rewrite greedy_snoc, ended_snoc, Hend]|].
      destruct Hcase as [?|Hg]; [by left|right]. by rewrite Hg, app_assoc, E0.
Qed.

Lemma all_ended_done eos_set prompts k : all_ended eos_set prompts k =
  match eos_set with [] => false | _ :: _ => forallb id (fast_done eos_set prompts k) end.
Proof. unfold all_ended, fast_done. destruct eos_set; [done|]. induction prompts; [done|]. cbn [forallb fmap list_fmap]. by rewrite IHprompts. Qed.

(** The loop stops after [n] tokens, or earlier when every row has ended. *)
Lemma fast_loop_spec eos_set pad_token_id prompts (cap : nat) : chunking_wf cfg → prompts ≠ [] → ∀ n p w k s seqs step_ids,
  (0 < w)%nat → fast_state eos_set pad_token_id prompts cap p w k s seqs step_ids →
  one_chunk cfg (zlen prompts) (Z.of_nat p) (Z.of_nat w) → (p + w + n ≤ S cap)%nat → Z.of_nat (p + w + n) ≤ max_length s + 1 →
  ∃ s' m, fast_loop cfg n eos_set pad_token_id step_ids (fast_output eos_set pad_token_id prompts k) (fast_done eos_set prompts k) s =
      (s', Ok (fast_output eos_set pad_token_id prompts (k + m))) ∧ (m ≤ n)%nat ∧
    (m = n ∨ all_ended eos_set prompts (k + m) = true) ∧ (∀ j, (0 < j < m)%nat → all_ended eos_set prompts (k + j) = false).
Proof using TML.
  intros Hcf Hne. induction n as [|n IH]; intros p w k s seqs step_ids Hw Hst Hch Hcap Hml.
  { exists s, 0%nat. rewrite Nat.add_0_r. split; [done|]. split; [done|]. split; [by left|]. lia. }
  destruct (fast_pass eos_set pad_token_id prompts cap p w k s seqs step_ids) as (s' & raw & Hrun & Hnx & Hrl & Hd & Ho & Hst' & Hmx); try done; [lia..|].
  cbn [fast_loop]. rewrite (bind_ok _ _ _ _ _ Hrun), Hnx, lift_ok_bind, Hd. cbv zeta. rewrite Ho.
  rewrite <- all_ended_done. destruct (all_ended eos_set prompts (S k)) eqn:He.
  - exists s', 1%nat. rewrite Nat.add_1_r. split; [done|]. split; [lia|]. split; [by right|]. lia.
  - destruct (IH (p + w)%nat 1%nat (S k) s' (zip_with app seqs step_ids) _ ltac:(lia) Hst') as (s'' & m & Hr & Hm & Hend & Hbefore); [|lia..|].
    { apply one_position_one_chunk; [done| |lia]. unfold zlen. destruct prompts; [done|cbn; lia]. }
    exists s'', (S m). rewrite Nat.add_succ_r. split; [exact Hr|]. split; [lia|]. split; [destruct Hend; [left; lia|by right]|].
    intros [|j] Hj; [lia|]. rewrite Nat.add_succ_r. destruct j as [|j]; [by rewrite Nat.add_0_r|]. apply (Hbefore (S j)). lia.
Qed.
End fast.

Section fast_theorem.
Context {E L : Type} `{TM : TargetModel E L} `{TML : !TargetModelLaws E L} `{LO : LogitsOps L}.

(** In a new session the fast loop continues every row greedily, with the tokens from the first
    end-of-sequence token on, itself included, replaced by the padding token if there is one. *)
Lemma fast_generation_freezes cfg eos_set pad_token_id (prompts : list (list Z)) (n max_new cap : nat) (slab : list (list E)) ml :
  chunking_wf cfg → prompts ≠ [] → sized n prompts → (0 < n)%nat → sized cap slab → length slab = length prompts →
  (n + max_new ≤ S cap)%nat → Z.of_nat (n + max_new) ≤ ml + 1 → one_chunk cfg (zlen prompts) 0 (Z.of_nat n) →
  ∃ s m, fast_generate_greedy cfg (Some (Z.of_nat max_new)) None pad_token_id eos_set prompts (new_session slab ml) =
      (s, Ok ((λ row, row ++ frozen eos_set pad_token_id (greedy m row)) <$> prompts)) ∧
    (m ≤ max_new)%nat ∧ (m = max_new ∨ all_ended eos_set prompts m = true) ∧
    (∀ j, (0 < j < m)%nat → all_ended eos_set prompts j = false).
Proof using TML.
  intros Hcf Hne Hn Hn0 Hs Hl Hcap Hml Hch.
  assert (Hst : fast_state eos_set pad_token_id prompts cap 0 n 0 (new_session slab ml) (replicate (length prompts) []) prompts).
  { split; try done.
    - split; [|apply length_replicate]. apply Forall_replicate. done.
    - intros r q cached Hq _. apply lookup_replicate in Hq as [-> _]. done.
    - intros r row q ts Hr Hq Ht. apply lookup_replicate in Hq as [-> _]. right. cbn. rewrite app_nil_r. by simplify_eq. }
  destruct (fast_loop_spec cfg eos_set pad_token_id prompts cap Hcf Hne max_new 0 n 0 _ _ _ Hn0 Hst Hch) as (s' & m & Hrun & Hm & Hend & Hbefore);
    [lia|cbn; lia|].
  assert (Ho : fast_output eos_set pad_token_id prompts 0 = prompts).
  { unfold fast_output, fast_row. cbn. rewrite <- list_fmap_id. apply list_fmap_ext. intros _ row _. destruct pad_token_id; cbn; by rewrite app_nil_r. }
  assert (Hd : fast_done eos_set prompts 0 = replicate (length prompts) false).
  { unfold fast_done. cbn. clear. induction prompts; [done|]. cbn. by f_equal. }
  rewrite Ho, Hd in Hrun. exists (set_output_ids (fast_output eos_set pad_token_id prompts m) s'), m. split; [|done].
  unfold fast_generate_greedy. cbn [resolve_max_new_tokens]. rewrite lift_ok_bind, get_bind. cbn [new_session output_ids].
  rewrite Nat2Z.id. by rewrite (bind_ok _ _ _ _ _ Hrun).
Qed.

(** C33: In a new session of [ml] positions, with prompts of one length that fit one inference
    chunk of the server, cache slabs with room and a session long enough, the fast loop continues
    every row greedily: it returns after [m] tokens, all it may generate or as soon as every row
    has met an end-of-sequence token; a row without one is its prompt and [m] greedy tokens of the
    target model; in any other row the tokens before its first end-of-sequence token are the
    greedy ones, and those after it are padding when there is a padding token. *)
Theorem fast_generation_is_greedy cfg eos_set pad_token_id (prompts : list (list Z)) (n max_new cap : nat) (slab : list (list E)) ml :
  chunking_wf cfg → prompts ≠ [] → sized n prompts → (0 < n)%nat → sized cap slab → length slab = length prompts →
  (n + max_new ≤ S cap)%nat → Z.of_nat (n + max_new) ≤ ml + 1 → one_chunk cfg (zlen prompts) 0 (Z.of_nat n) →
  ∃ s m outs, fast_generate_greedy cfg (Some (Z.of_nat max_new)) None pad_token_id eos_set prompts (new_session slab ml) = (s, Ok outs) ∧
    (m ≤ max_new)%nat ∧ (m = max_new ∨ all_ended eos_set prompts m = true) ∧
    (∀ j, (0 < j < m)%nat → all_ended eos_set prompts j = false) ∧
    Forall2 (λ row out, ∃ new, let g := greedy m row in out = row ++ new ∧ length new = m ∧
      (ended eos_set g = false → new = g) ∧
      ∀ k e, g !! k = Some e → is_eos eos_set e = true → ended eos_set (take k g) = false →
        take k new = take k g ∧
        match pad_token_id with Some pad => drop (S k) new = replicate (m - S k) pad | None => True end) prompts outs.
Proof using TML.
  intros Hcf Hne Hn Hn0 Hs Hl Hcap Hml Hch.
  destruct (fast_generation_freezes cfg eos_set pad_token_id prompts n max_new cap slab ml) as (s & m & Hrun & Hm & Hend & Hbefore); try done.
  eexists s, m, _. split; [exact Hrun|]. do 3 (split; [done|]). apply Forall2_fmap_r, Forall_Forall2_diag, Forall_forall. intros row _.
  exists (frozen eos_set pad_token_id (greedy m row)). cbv zeta. split; [done|]. split; [by rewrite frozen_length, greedy_length|].
  split; [apply frozen_not_ended|]. intros k e Hk He Hb.
  destruct pad_token_id as [pad|]; [|done]. destruct (freeze_at_eos eos_set pad _ k e Hk He Hb) as [H1 H2].
  by rewrite greedy_length in H2.
Qed.
End fast_theorem.

(** ** The loop that reports its ticks *)

Section live.
Context {E L : Type} `{TM : TargetModel E L} `{LO : LogitsOps L}.
Context (cfg : chunking).
Implicit Types (s t : session E) (step_ids : list (list Z)).

Lemma run_chunks_length live (k_pkv : list (list E)) cl n mx input_ids offsets (output out : list (list L)) kvs kvs' : length output = length input_ids →
  run_chunks live k_pkv cl n mx input_ids offsets output kvs = Ok (out, kvs') → length out = length input_ids.
Proof.
  revert output kvs. induction offsets as [|off offsets IH]; intros output kvs Hl; cbn [run_chunks]; [by intros [= <- _]|].
  destruct (run_chunk _ _ _ _ _ _ _) as [outs|] eqn:Hr; [|done]. cbn [mbind res_bind]. apply IH.
  apply mapM_res_length in Hr. rewrite length_seq in Hr. rewrite length_zip_with, length_fmap. lia.
Qed.

(** Two sessions that differ in what is reported only. *)
Definition same_server s t : Prop := slab s = slab t ∧ position s = position t ∧ server_position s = server_position t ∧ max_length s = max_length t.

Lemma inference_step_length info input_ids slab slab' (out : list (list L)) :
  inference_step cfg info input_ids slab = (slab', Ok out) → length out = length input_ids.
Proof.
  unfold inference_step. intros Hr. py_inv. injection Hr as _ <-.
  match goal with H : run_chunks _ _ _ _ _ _ _ _ _ = Ok ?x |- _ => destruct x as [o k]; apply run_chunks_length in H; [exact H|apply length_replicate] end.
Qed.

(** A plain step sees the server's side of the session only. *)
Lemma plain_step_same s t step_ids : plain s → plain t → same_server s t →
  let '(s', r) := session_step cfg None step_ids s in
  let '(t', r') := session_step cfg None step_ids t in
  r = r' ∧ (is_ok r = true → same_server s' t' ∧ plain s' ∧ plain t' ∧ tick_batches s' = tick_batches s) ∧
  ∀ out, r = Ok out → length out = length step_ids.
Proof.
  intros Hs Ht (H1 & H2 & H3 & H4).
  destruct (plain_request s (zlen step_ids) (server_position s) Hs) as (Ha & Hst & Ho & Hm).
  destruct (plain_request t (zlen step_ids) (server_position t) Ht) as (Ha' & Hst' & Ho' & Hm').
  unfold session_step. rewrite !get_bind, Ha, Ha'. rewrite <- H2, <- H4.
  destruct (position s + _ <=? max_length s); [|done]. cbn [guard_py]. unfold on_slab, serve_step, mbind, M_bind, mret, M_ret, lift.
  cbn [default from_option]. rewrite Hst, Hst', Ho, Ho', Hm, Hm', <- H1, <- H3. cbn [of_option].
  destruct (server_position s + _ <=? max_length s); [|done]. cbn [guard_py mret M_ret].
  destruct (inference_step _ _ _ _) as [x [out|e]] eqn:Hr; [|done]. cbn.
  split; [done|]. split; [|intros ? [= <-]; by eapply inference_step_length]. intros _.
  split; [done|]. split; [by destruct Hs|]. split; [by destruct Ht|done].
Qed.

Lemma request_ids_distinct (B : nat) : NoDup (request_id <$> seq 0 B).
Proof. apply NoDup_fmap_2; [|apply NoDup_seq]. intros i j Hij. unfold request_id in Hij. by simplify_eq. Qed.

(** Rows of one tick that is not before the last recorded one are accepted. *)
Lemma normalize_accepts s rows active_mask output_token_ids (tick : Z) : rows ≠ [] → Forall (λ row, row_tick row = tick) rows →
  NoDup (row_request_id <$> rows) → (∀ b, last (tick_batches s) = Some b → tr_tick b ≤ tick) →
  (∀ l, active_mask = Some l → length l = length rows) → (∀ l, output_token_ids = Some l → length l = length rows) →
  normalize_tick_rows true s rows active_mask output_token_ids =
    Ok (mkTick tick (row_request_id <$> rows) (row_position <$> rows) (row_input_token_id <$> rows) active_mask output_token_ids).
Proof.
  intros Hne Ht Hnd Hlast Hm Ho. unfold normalize_tick_rows. cbn [negb]. destruct rows as [|row0 rows]; [done|].
  assert (Ht0 : row_tick row0 = tick) by (by inversion Ht). rewrite Ht0.
  replace (existsb _ _) with false.
  2:{ symmetry. apply not_true_iff_false. intros (row & Hin & Hneq)%existsb_exists. rewrite Forall_forall in Ht. rewrite (Ht row) in Hneq by (by apply list_elem_of_In). lia. }
  replace (match last (tick_batches s) with Some b => tick <? tr_tick b | None => false end) with false.
  2:{ destruct (last (tick_batches s)) as [b|] eqn:Hb; [|done]. specialize (Hlast b eq_refl). lia. }
  rewrite bool_decide_true by done. cbn [negb].
  replace (match active_mask with Some l => zlen l =? zlen (row0 :: rows) | None => true end) with true.
  2:{ destruct active_mask as [l|]; [|done]. unfold zlen. rewrite (Hm l eq_refl). lia. }
  replace (match output_token_ids with Some l => zlen l =? zlen (row0 :: rows) | None => true end) with true; [done|].
  destruct output_token_ids as [l|]; [|done]. unfold zlen. rewrite (Ho l eq_refl). lia.
Qed.

Lemma tick_rows_ok tick step_ids : Forall (λ ts, ts ≠ []) step_ids → ∃ rows, tick_rows tick step_ids = Ok rows ∧ length rows = length step_ids ∧
  Forall (λ row, row_tick row = tick) rows ∧ row_request_id <$> rows = request_id <$> seq 0 (length step_ids).
Proof.
  intros Hne. exists ((λ i, mkRow (request_id i) tick tick (default 0 (last (step_ids !!! i)))) <$> seq 0 (length step_ids)).
  split; [|split; [by rewrite length_fmap, length_seq|split]].
  - unfold tick_rows. apply mapM_Ok. intros i Hi. apply elem_of_seq in Hi.
    destruct (lookup_lt_is_Some_2 step_ids i) as [ts Hts]; [lia|]. rewrite (list_lookup_total_correct _ _ _ Hts).
    rewrite Forall_lookup in Hne. specialize (Hne i ts Hts). destruct (last ts) eqn:Hl; [done|]. by apply last_None in Hl.
  - apply list.Forall_fmap, Forall_forall. done.
  - rewrite <- list_fmap_compose. done.
Qed.

Lemma live_loop_same n : ∀ tick eos_set step_ids output done s t, step_ids ≠ [] → Forall (λ ts, ts ≠ []) step_ids →
  length output = length step_ids → plain s → plain t → same_server s t → (∀ b, last (tick_batches s) = Some b → tr_tick b < tick) →
  let '(s', r) := live_loop cfg true n tick eos_set step_ids output done s in
  (fast_loop cfg n eos_set None step_ids output done t).2 = r ∧
  ∀ out, r = Ok out → ∃ k, length (tick_batches s') = (length (tick_batches s) + k)%nat ∧
    length <$> out = (λ row : list Z, length row + k)%nat <$> output.
Proof.
  induction n as [|n IH]; intros tick eos_set step_ids output done s t Hne Hrows Hlo Hs Ht Hst Hlast.
  { cbn. split; [done|]. intros out [= <-]. exists 0%nat. split; [lia|]. apply list_fmap_ext. intros _ row _. lia. }
  cbn [live_loop fast_loop]. destruct (tick_rows_ok tick step_ids Hrows) as (rows & -> & Hrl & Hrt & Hri). rewrite lift_ok_bind.
  assert (Hrne : rows ≠ []) by (intros ->; by destruct step_ids).
  assert (Hnd : NoDup (row_request_id <$> rows)) by (rewrite Hri; apply request_ids_distinct).
  set (s1 := set_pending (Some (mkStaged tick (row_request_id <$> rows) (row_position <$> rows) (row_input_token_id <$> rows) None None None None)) s).
  assert (Hstage : stage_tick_rows true rows s = (s1, Ok tt)).
  { unfold stage_tick_rows. rewrite get_bind, (normalize_accepts s rows None None tick), lift_ok_bind; try done.
    intros b Hb. specialize (Hlast b Hb). lia. }
  rewrite (bind_ok _ _ _ _ _ Hstage).
  pose proof (plain_step_same s1 t step_ids) as Hsame. destruct (session_step cfg None step_ids s1) as [s2 r] eqn:Hr1.
  destruct (session_step cfg None step_ids t) as [t2 r2] eqn:Hr2.
  destruct Hsame as (<- & Hok & Hlen); [by destruct Hs|done|by destruct Hst as (? & ? & ? & ?)|].
  destruct r as [logits|e]; [|rewrite (bind_raise _ _ _ _ _ Hr1), (bind_raise _ _ _ _ _ Hr2); done].
  rewrite (bind_ok _ _ _ _ _ Hr1), (bind_ok _ _ _ _ _ Hr2). destruct Hok as (Hss & Hp2 & Hpt2 & Htb); [done|].
  specialize (Hlen _ eq_refl). destruct (next_ids logits) as [next|e] eqn:Hnx; [|done]. rewrite !lift_ok_bind.
  apply mapM_res_length in Hnx. rewrite Hlen in Hnx.
  replace (match eos_set with [] | _ => next end) with next by (by destruct eos_set).
  set (b := mkTick tick (row_request_id <$> rows) (row_position <$> rows) (row_input_token_id <$> rows) None (Some next)).
  assert (Hrec : record_tick_rows true rows None next s2 = (add_tick b s2, Ok tt)).
  { unfold record_tick_rows. rewrite get_bind, (normalize_accepts s2 rows None (Some next) tick), lift_ok_bind; try done.
    - rewrite Htb. intros b' Hb'. specialize (Hlast b' Hb'). lia.
    - intros l [= <-]. lia. }
  rewrite (bind_ok _ _ _ _ _ Hrec).
  assert (Hone : length <$> append_ids output next = (λ row : list Z, length row + 1)%nat <$> output).
  { apply list_eq. intros i. unfold append_ids. rewrite !list_lookup_fmap, lookup_zip_with. destruct (output !! i) as [row|] eqn:Hi; [|done].
    apply lookup_lt_Some in Hi. destruct (lookup_lt_is_Some_2 next i) as [t' ->]; [lia|]. cbn. by rewrite length_app. }
  destruct (match eos_set with [] => false | _ :: _ => _ end).
  - cbn. split; [done|]. intros out [= <-]. exists 1%nat. rewrite length_app, Htb. done.
  - specialize (IH (tick + 1) eos_set ((λ x : Z, [x]) <$> next) (append_ids output next) (zip_with orb done (is_eos eos_set <$> next)) (add_tick b s2) t2).
    destruct (live_loop _ _ _ _ _ _ _ _ _) as [s3 r3]. destruct IH as [H1 H2].
    + intros E0%(f_equal length). rewrite length_fmap in E0. destruct step_ids; cbn in *; [done|lia].
    + apply list.Forall_fmap, Forall_forall. done.
    + unfold append_ids. rewrite length_zip_with, length_fmap. lia.
    + by destruct Hp2.
    + done.
    + by destruct Hss as (? & ? & ? & ?).
    + intros b' Hb'. cbn in Hb'. rewrite last_snoc in Hb'. injection Hb' as <-. cbn. lia.
    + split; [done|]. intros out Ho. destruct (H2 out Ho) as (k & Hk & Hf). exists (S k). cbn in Hk. rewrite length_app, Htb in Hk. cbn in Hk.
      split; [lia|]. rewrite Hf. assert (Hc : ∀ l : list (list Z), (λ row : list Z, length row + k)%nat <$> l = (λ n, n + k)%nat <$> (length <$> l))
        by (intros l; by rewrite <- list_fmap_compose).
      rewrite Hc, Hone, <- list_fmap_compose. apply list_fmap_ext. intros _ row _. cbn. lia.
Qed.
End live.

(** ** On a small model *)

Section toy.
#[local] Existing Instance toy_model.
#[local] Existing Instance toy_logits.
#[local] Existing Instance toy_laws.

Definition toy_chunking : chunking := mkChunking 1000 1 2.

Lemma fast_generation_is_greedy_witness : ∃ s m outs,
  fast_generate_greedy (E := Z) (L := Z) toy_chunking (Some 4) None (Some 0) [6] toy_prompts (new_session toy_slab 6) = (s, Ok outs) ∧
  (m ≤ 4)%nat ∧ (m = 4%nat ∨ all_ended (E := Z) (L := Z) [6] toy_prompts m = true) ∧
  Forall2 (λ row out, ∃ new, out = row ++ new ∧ length new = m) toy_prompts outs.
Proof.
  destruct (fast_generation_is_greedy (E := Z) (L := Z) toy_chunking [6] (Some 0) toy_prompts 2 4 40 toy_slab 6) as (s & m & outs & Hr & Hm & He & _ & Hf);
    [done|done|by repeat constructor|lia|by repeat constructor|done|lia|lia| |].
  - eexists. split; [reflexivity|]. vm_compute. discriminate.
  - exists s, m, outs. split; [exact Hr|]. split; [exact Hm|]. split; [exact He|].
    eapply Forall2_impl; [exact Hf|]. intros row out (new & -> & Hl & _). exists new. split; [reflexivity|exact Hl].
Defined.

(** A second call in a session feeds the newest token of its prompt only: the last token of the first
    call and the rest of the new prompt never reach the servers. *)
Lemma resumed_prompt_is_cut :
  let first := fast_generate_greedy (E := Z) (L := Z) toy_chunking (Some 2) None None [] [[3; 4]] (new_session (take 1 toy_slab) 40) in
  let second := fast_generate_greedy (E := Z) (L := Z) toy_chunking (Some 2) None None [] [[7; 8]] first.1 in
  first.2 = Ok [[3; 4] ++ greedy (E := Z) (L := Z) 2 [3; 4]] ∧
  let all := ([3; 4] ++ greedy (E := Z) (L := Z) 2 [3; 4]) ++ [7; 8] in
  second.2 ≠ Ok [all ++ greedy (E := Z) (L := Z) 2 all] ∧ position second.1 = 5.
Proof. vm_compute. split; [done|]. split; [discriminate|done]. Qed.

(** With a padding token the end-of-sequence token itself is replaced. *)
Lemma eos_is_replaced : freeze [5] 0 [7; 5; 9] = [7; 0; 0] ∧ frozen [5] None [7; 5; 9] = [7; 5; 9].
Proof. vm_compute. done. Qed.

(** A prompt longer than a chunk: the cache keeps the last chunk's entry, where the first one belongs. *)
Lemma long_prompt_loses_entries :
  let step := inference_step (E := Z) (L := Z) (mkChunking 8 1 2) (mkInfo 0 0 None None) [[3; 4; 5]] [replicate 6 0] in
  estimate_max_chunk_length 8 1 2 1 0 3 = Ok 1 ∧ (∃ out, step.2 = Ok out) ∧
  drop 1 <$> step.1 = [replicate 5 0] ∧ length (entries_of (E := Z) (L := Z) [3; 4; 5]) = 3%nat.
Proof. vm_compute. eauto. Qed.
End toy.
