(* ===== verification/LateArrivals.v ===== *)
(** * Rows that arrive at ticks of their own (client/remote_generation.py)

    The token-level scheduler behind live continuous batching: rows with a prompt of one token join at
    their arrival tick, and the active rows of a tick run in groups of neighbours at one position,
    every group a staged step of LiveSession.v. [live_generate] is the call that chooses between the
    scheduler and the loop of RemoteGeneration.v. *)

From stdpp Require Import numbers base strings pretty list sets sorting.
From Stdlib Require Import ZArith Lia ZifyBool.
From S2P Require Import Prelude ContinuousBatching SpecTree SpecCache SpecVerify SpecGenerate SpecPrompt Decode LiveSession RemoteGeneration.

Open Scope Z_scope.

Section loops.
Context {E L : Type} `{TM : TargetModel E L} `{LO : LogitsOps L}.
Context (cfg : chunking) (is_live_continuous_batching_enabled : bool).

#[local] Notation session_step := (session_step cfg).
#[local] Notation record_tick_rows := (record_tick_rows is_live_continuous_batching_enabled).
#[local] Notation live_loop := (live_loop cfg is_live_continuous_batching_enabled).

(** ** Rows that arrive at ticks of their own *)

(** The scheduler's state. *)
Record sched := mkSched {
  generated_by_row : list (list Z);
  row_done : list bool;
  pending : list nat;
  active : list nat;
  active_set : list nat;
  tick : Z;
}.

Section late.
Context (input_ids : list (list Z)) (max_new_tokens : nat) (eos_set : list Z) (arrival_ticks : list Z).
Implicit Types (st : sched).

Definition batch_size : nat := length input_ids.
Definition arrival (row_idx : nat) : Z := arrival_ticks !!! row_idx.

(** [sorted(range(batch_size), key=lambda idx: (arrival_ticks[idx], idx))] *)
Fixpoint insert_arrival (i : nat) (l : list nat) : list nat :=
  match l with
  | [] => [i]
  | j :: l' => if arrival i <? arrival j then i :: l else j :: insert_arrival i l'
  end.
Definition by_arrival : list nat := foldl (λ l i, insert_arrival i l) [] (seq 0 batch_size).

Definition init_sched : sched :=
  mkSched (replicate batch_size []) (replicate batch_size false) by_arrival [] []
    (match arrival_ticks with [] => 0 | a :: rest => foldl Z.min a rest end).

(** The rows whose tick has come join the active ones. *)
Fixpoint admit_arrivals (pend act act_set : list nat) (row_done : list bool) (tick : Z) : list nat * list nat * list nat :=
  match pend with
  | row_idx :: pend' =>
      if arrival row_idx <=? tick then
        if negb (bool_decide (row_idx ∈ act_set)) && negb (row_done !!! row_idx)
        then admit_arrivals pend' (act ++ [row_idx]) (act_set ++ [row_idx]) row_done tick
        else admit_arrivals pend' act act_set row_done tick
      else (pend, act, act_set)
  | [] => (pend, act, act_set)
  end.

(** At most [n] rows leave the active ones; those not done run in this tick. *)
Fixpoint take_active (n : nat) (act act_set : list nat) (row_done : list bool) : list nat * list nat * list nat :=
  match n, act with
  | S n, row_idx :: act =>
      let '(rows, act', act_set') := take_active n act (filter (λ r, r ≠ row_idx) act_set) row_done in
      (if negb (row_done !!! row_idx) then row_idx :: rows else rows, act', act_set')
  | _, _ => ([], act, act_set)
  end.

(** The newest token of a row. *)
Definition input_token (generated : list (list Z)) (row_idx : nat) : Z :=
  default (default 0 (last (input_ids !!! row_idx))) (last (generated !!! row_idx)).

Definition row_position_of (generated : list (list Z)) (row_idx : nat) : Z := zlen (generated !!! row_idx).

(** Neighbouring rows at one position are computed together. *)
Definition add_to_groups (generated : list (list Z)) (groups : list (list nat)) (row_idx : nat) : list (list nat) :=
  match last groups with
  | Some ((first :: _) as group) =>
      if negb (row_idx =? S (List.last group 0))%nat || negb (row_position_of generated row_idx =? row_position_of generated first)
      then groups ++ [[row_idx]]
      else removelast groups ++ [group ++ [row_idx]]
  | _ => groups ++ [[row_idx]]
  end.

Definition compute_groups (generated : list (list Z)) (row_indices : list nat) : list (list nat) :=
  foldl (add_to_groups generated) [] row_indices.

Definition live_rows (generated : list (list Z)) (tick : Z) : list LiveDecodeRow :=
  (λ i, mkRow (request_id i) tick (row_position_of generated i) (input_token generated i)) <$> seq 0 batch_size.

(** One compute group: its rows are staged, run, and their tokens noted. *)
Definition run_group (generated : list (list Z)) (tick : Z) (group : list nat) (output_tokens : list Z) : M (session E) (list Z) :=
  let rows := live_rows generated tick in
  let compute_batch_size := zlen group in
  stage_tick_batch (mkStaged tick (row_request_id <$> rows) (row_position <$> rows) (row_input_token_id <$> rows)
    (Some ((λ i, bool_decide (i ∈ group)) <$> seq 0 batch_size)) (Z.of_nat <$> head group) (Some (Z.of_nat batch_size)) (Some compute_batch_size));;
  logits ← session_step (Some (row_position_of generated <$> group)) ((λ i, [input_token generated i]) <$> group);
  if zlen logits <? compute_batch_size then mthrow RuntimeError
  else
    next_id ← lift (next_ids (take (length group) logits));
    mret (foldl (λ out (it : nat * Z), <[it.1 := it.2]> out) output_tokens (zip group next_id)).

Fixpoint run_groups (generated : list (list Z)) (tick : Z) (groups : list (list nat)) (output_tokens : list Z) : M (session E) (list Z) :=
  match groups with
  | [] => mret output_tokens
  | group :: groups =>
      output_tokens ← run_group generated tick group output_tokens;
      run_groups generated tick groups output_tokens
  end.

(** The rows of the tick take their tokens; those that go on are active again. *)
Fixpoint take_tokens (row_indices : list nat) (output_tokens : list Z) (generated : list (list Z)) (row_done : list bool)
    (act act_set : list nat) : list (list Z) * list bool * list nat * list nat :=
  match row_indices with
  | [] => (generated, row_done, act, act_set)
  | row_idx :: rest =>
      let token_id := output_tokens !!! row_idx in
      let generated := <[row_idx := generated !!! row_idx ++ [token_id]]> generated in
      let row_done := if is_eos eos_set token_id then <[row_idx := true]> row_done else row_done in
      if negb (row_done !!! row_idx) && (length (generated !!! row_idx) <? max_new_tokens)%nat
      then take_tokens rest output_tokens generated row_done (act ++ [row_idx]) (act_set ++ [row_idx])
      else take_tokens rest output_tokens generated row_done act act_set
  end.

(** What a pass of the scheduler's loop does. *)
Inductive pass := Again (st : sched) | Stop (st : sched).

Definition late_pass st : M (session E) pass :=
  let '(pend, act, act_set) := admit_arrivals (pending st) (active st) (active_set st) (row_done st) (tick st) in
  match act with
  | [] =>
      mret (match pend with
            | row_idx :: _ => Again (mkSched (generated_by_row st) (row_done st) pend act act_set (Z.max (tick st + 1) (arrival row_idx)))
            | [] => Stop (mkSched (generated_by_row st) (row_done st) pend act act_set (tick st))
            end)
  | _ :: _ =>
      let '(row_indices, act, act_set) := take_active batch_size act act_set (row_done st) in
      match row_indices with
      | [] => mret (Again (mkSched (generated_by_row st) (row_done st) pend act act_set (tick st + 1)))
      | _ :: _ =>
          let row_indices := merge_sort Nat.le row_indices in
          let generated := generated_by_row st in
          let rows := live_rows generated (tick st) in
          output_tokens ← run_groups generated (tick st) (compute_groups generated row_indices) (row_input_token_id <$> rows);
          record_tick_rows rows (Some ((λ i, bool_decide (i ∈ row_indices)) <$> seq 0 batch_size)) output_tokens;;
          let '(generated, row_done, act, act_set) := take_tokens row_indices output_tokens generated (row_done st) act act_set in
          mret (Again (mkSched generated row_done pend act act_set (tick st + 1)))
      end
  end.

(** The scheduler's loop. *)
Fixpoint late_loop (fuel : nat) st : M (session E) sched :=
  if existsb (λ tokens : list Z, (length tokens <? max_new_tokens)%nat) (generated_by_row st) then
    match fuel with
    | O => mthrow OutOfFuel
    | S fuel =>
        p ← late_pass st;
        match p with Again st => late_loop fuel st | Stop st => mret st end
    end
  else mret st.

(** The rows of the result: a row that stopped early is filled with the last token of its prompt. *)
Definition output_rows (generated : list (list Z)) : list (list Z) :=
  zip_with (λ row g : list Z,
    row ++ take max_new_tokens (g ++ replicate (max_new_tokens - length g) (default 0 (last row)))) input_ids generated.

(** [_live_continuous_generate_late_arrival_impl] *)
Definition late_arrival_generate (fuel : nat) : M (session E) (list (list Z)) :=
  modify (set_live_full (Z.of_nat batch_size));;
  st ← late_loop fuel init_sched;
  let output := output_rows (generated_by_row st) in
  modify (set_output_ids output);;
  mret output.
End late.

(** [_live_continuous_generate_impl] inside its session. *)
Definition live_generate (fuel : nat) (max_new_tokens max_length : option Z) eos_set (live_arrival_ticks : option (list Z)) input_ids :
    M (session E) (list (list Z)) :=
  guard_py (0 <? zlen input_ids) RuntimeError;;
  max_new_tokens ← lift (resolve_max_new_tokens max_new_tokens max_length (prompt_width input_ids));
  guard_py (0 <=? max_new_tokens) ValueError;;
  let same_arrival :=
    output ← live_loop (Z.to_nat max_new_tokens) 0 eos_set input_ids input_ids (replicate (length input_ids) false);
    modify (set_output_ids output);;
    mret output in
  match live_arrival_ticks with
  | None => same_arrival
  | Some ticks =>
      if negb (zlen ticks =? zlen input_ids) || existsb (λ t, t <? 0) ticks then mthrow ValueError
      else if existsb (λ t, 0 <? t) ticks then
        if negb (prompt_width input_ids =? 1) then mthrow RuntimeError
        else late_arrival_generate input_ids (Z.to_nat max_new_tokens) eos_set ticks fuel
      else same_arrival
  end.
End loops.

Section live_theorem.
Context {E L : Type} `{TM : TargetModel E L} `{LO : LogitsOps L}.

(** Whatever the servers and the model do, the loop that reports its ticks returns what the fast loop
    returns without a padding token, errors included; a row of its result has one new token for
    every tick in the session's report. *)
Lemma live_generation_matches_fast cfg eos_set (prompts : list (list Z)) max_new slab ml fuel ticks :
  prompts ≠ [] → Forall (λ row, row ≠ []) prompts → 0 ≤ max_new → ticks = None ∨ ticks = Some (replicate (length prompts) 0) →
  let '(s, r) := live_generate cfg true fuel (Some max_new) None eos_set ticks prompts (new_session slab ml) in
  (fast_generate_greedy cfg (Some max_new) None None eos_set prompts (new_session slab ml)).2 = r ∧
  ∀ out, r = Ok out →
    zlen <$> out = (λ row, zlen row + lr_total_decode_batches (live_continuous_batching_report true s)) <$> prompts.
Proof.
  intros Hne Hrows Hmn Hticks. set (s0 := new_session slab ml).
  pose proof (live_loop_same cfg (Z.to_nat max_new) 0 eos_set prompts prompts (replicate (length prompts) false) s0 s0 Hne Hrows eq_refl) as Hloop.
  assert (Hlive : live_generate cfg true fuel (Some max_new) None eos_set ticks prompts s0 =
    (output ← live_loop cfg true (Z.to_nat max_new) 0 eos_set prompts prompts (replicate (length prompts) false);
     modify (set_output_ids output);; mret output) s0).
  { unfold live_generate. rewrite guard_pass by (unfold zlen; destruct prompts; [done|cbn; lia]). cbn [resolve_max_new_tokens].
    rewrite lift_ok_bind, guard_pass by lia. destruct Hticks as [->| ->]; [done|]. unfold zlen at 1. rewrite length_replicate, Z.eqb_refl.
    assert (Hz : ∀ f : Z → bool, f 0 = false → existsb f (replicate (length prompts) 0) = false).
    { intros f Hf. clear -Hf. induction prompts; [done|]. cbn. by rewrite Hf. }
    rewrite !Hz by done. done. }
  rewrite Hlive. unfold fast_generate_greedy. cbn [resolve_max_new_tokens]. rewrite lift_ok_bind, get_bind. cbn [s0 new_session output_ids].
  fold s0. unfold mbind, M_bind. destruct (live_loop _ _ _ _ _ _ _ _ _) as [s1 r1]. destruct Hloop as [H1 H2]; [by split|by split|done|done|].
  destruct (fast_loop _ _ _ _ _ _ _ _) as [t1 r2]. cbn in H1. subst r2. destruct r1 as [out|e]; [|done]. cbn. split; [done|].
  intros ? [= <-]. destruct (H2 out eq_refl) as (k & Hk & Hout). cbn in Hk.
  assert (Hz : ∀ l : list (list Z), zlen <$> l = Z.of_nat <$> (length <$> l)) by (intros l; by rewrite <- list_fmap_compose).
  rewrite Hz, Hout, <- list_fmap_compose. apply list_fmap_ext. intros _ row _. unfold zlen. cbn. lia.
Qed.
End live_theorem.

(** ** Late arrivals: the scheduler's bookkeeping *)

Section scheduler.
Context (arrival_ticks : list Z).

Lemma by_arrival_perm (B : nat) (input_ids : list (list Z)) : by_arrival input_ids arrival_ticks ≡ₚ seq 0 (length input_ids).
Proof.
  unfold by_arrival, batch_size. set (l := seq 0 _). clearbody l.
  assert (Hins : ∀ i k, insert_arrival arrival_ticks i k ≡ₚ i :: k).
  { intros i k. induction k as [|j k IH]; cbn; [done|]. destruct (_ <? _); [done|]. rewrite IH. constructor. }
  assert (H : ∀ acc, foldl (λ k i, insert_arrival arrival_ticks i k) acc l ≡ₚ l ++ acc).
  { induction l as [|i l IH]; intros acc; cbn; [done|]. rewrite IH, Hins. by rewrite Permutation_middle. }
  rewrite H. by rewrite app_nil_r.
Qed.

(** The rows that arrive are the first of the pending ones. *)
Lemma admit_spec pend : ∀ act act_set row_done tick, NoDup pend → (∀ r, r ∈ pend → r ∉ act_set ∧ row_done !!! r = false) →
  ∃ pre rest, pend = pre ++ rest ∧ admit_arrivals arrival_ticks pend act act_set row_done tick = (rest, act ++ pre, act_set ++ pre) ∧
    match rest with row_idx :: _ => tick < arrival arrival_ticks row_idx | [] => True end.
Proof.
  induction pend as [|r pend IH]; intros act act_set row_done tick Hnd Hp; cbn [admit_arrivals].
  { exists [], []. by rewrite !app_nil_r. }
  apply NoDup_cons in Hnd as [Hr Hnd]. destruct (Z.leb_spec (arrival arrival_ticks r) tick) as [Ha|Ha].
  2:{ exists [], (r :: pend). by rewrite !app_nil_r. }
  destruct (Hp r) as [Hns Hd]; [by left|]. rewrite bool_decide_false, Hd by done. cbn [negb andb].
  destruct (IH (act ++ [r]) (act_set ++ [r]) row_done tick Hnd) as (pre & rest & -> & -> & Hrest).
  { intros x Hx. destruct (Hp x) as [? ?]; [by right|]. split; [|done]. rewrite elem_of_app, list_elem_of_singleton. naive_solver. }
  exists (r :: pre), rest. by rewrite <- !app_assoc.
Qed.

Lemma take_active_spec act : ∀ n act_set row_done, (length act ≤ n)%nat → (∀ r, r ∈ act → row_done !!! r = false) →
  take_active n act act_set row_done = (act, [], filter (λ r, r ∉ act) act_set).
Proof.
  induction act as [|r act IH]; intros n act_set row_done Hn Hd.
  { destruct n; cbn [take_active]; rewrite filter_keep; try done; apply Forall_forall; intros x _; apply not_elem_of_nil. }
  destruct n as [|n]; [cbn in Hn; lia|]. cbn [take_active]. rewrite (IH n), (Hd r) by (first [by left | cbn in Hn; lia | intros x Hx; apply Hd; by right]).
  cbn [negb]. rewrite list_filter_filter. do 2 f_equal. apply list_filter_iff. intros x. rewrite not_elem_of_cons. tauto.
Qed.

(** A group is a run of neighbouring rows at one position. *)
Definition group_of (generated : list (list Z)) (group : list nat) : Prop :=
  ∃ a g p, group = seq a (S g) ∧ ∀ r, r ∈ group → row_position_of generated r = p.

Lemma compute_groups_spec generated rows : mjoin (compute_groups generated rows) = rows ∧ Forall (group_of generated) (compute_groups generated rows).
Proof.
  unfold compute_groups. induction rows as [|x rows [IH1 IH2]] using rev_ind; [done|]. rewrite foldl_app. cbn [foldl].
  set (gs := foldl _ [] rows) in *. clearbody gs. subst rows. unfold add_to_groups.
  assert (Hnew : mjoin (gs ++ [[x]]) = mjoin gs ++ [x] ∧ Forall (group_of generated) (gs ++ [[x]])).
  { split; [by rewrite join_app|]. apply Forall_app. split; [done|]. apply Forall_singleton. exists x, 0%nat, (row_position_of generated x).
    split; [done|]. intros r ->%list_elem_of_singleton. done. }
  destruct (last gs) as [[|f g]|] eqn:Hl; [done| |done]. apply last_Some in Hl as (gs' & ->). rewrite removelast_last.
  apply Forall_app in IH2 as [Hgs (a & n & p & Hg & Hp)%Forall_singleton].
  assert (f = a) as -> by (cbn in Hg; congruence).
  assert (Hlast : List.last (a :: g) 0%nat = (a + n)%nat).
  { rewrite Hg, seq_S. apply last_last. }
  destruct (Nat.eqb_spec x (S (List.last (a :: g) 0%nat))) as [Hx|]; cbn [negb orb]; [|done].
  destruct (Z.eqb_spec (row_position_of generated x) (row_position_of generated a)) as [Hpx|]; cbn [negb]; [|done].
  split; [rewrite !join_app; cbn; by rewrite !app_nil_r, <- app_assoc|]. apply Forall_app. split; [done|]. apply Forall_singleton.
  exists a, (S n), p. split; [rewrite Hg, (seq_S (S n)); do 2 f_equal; lia|].
  intros r [Hr| ->%list_elem_of_singleton]%elem_of_app; [by apply Hp|]. rewrite Hpx. apply Hp. by left.
Qed.

(** Writing the tokens of the rows [rows]. *)
Lemma put_tokens (f : nat → Z) rows : ∀ out : list Z,
  foldl (λ o (it : nat * Z), <[it.1 := it.2]> o) out (zip rows (f <$> rows)) = imap (λ r t, if bool_decide (r ∈ rows) then f r else t) out.
Proof.
  induction rows as [|x rows IH]; intros out; cbn [zip zip_with foldl fmap list_fmap].
  - apply list_eq. intros i. rewrite list_lookup_imap. by destruct (out !! i).
  - rewrite IH. cbn [fst snd]. apply list_eq. intros i. rewrite !list_lookup_imap, list_lookup_insert. case_decide as Hi.
    + destruct Hi as [<- Hi]. destruct (lookup_lt_is_Some_2 out x Hi) as [t ->]. cbn. f_equal.
      rewrite (bool_decide_true (x ∈ x :: rows)) by (by left). by destruct (bool_decide _).
    + destruct (out !! i) as [t|] eqn:Ho; [|done]. cbn. f_equal. apply lookup_lt_Some in Ho.
      rewrite (bool_decide_ext (i ∈ x :: rows) (i ∈ rows)); [done|]. rewrite elem_of_cons. naive_solver.
Qed.
End scheduler.

(** ** Late arrivals: the rows of a tick *)

Section ticks.
Context {E L : Type} `{TM : TargetModel E L} `{TML : !TargetModelLaws E L} `{LO : LogitsOps L}.
Context (cfg : chunking) (Hcf : chunking_wf cfg) (toks : list Z) (cap : nat) (ml : Z).
Implicit Types (s : session E) (ctx : nat → list Z) (generated : list (list Z)).

#[local] Notation prompts := ((λ t : Z, [t]) <$> toks).
#[local] Notation B := (length toks).

(** The cache of every row [r] starts with the entries of [ctx r]; the session is where its longest row is. *)
Record served ctx s : Prop := mkServed {
  sv_full : live_full_batch_size s = Z.of_nat B;
  sv_position : server_position s = position s ∧ (∀ r, (r < B)%nat → zlen (ctx r) ≤ position s) ∧
    (position s = 0 ∨ ∃ r, (r < B)%nat ∧ position s = zlen (ctx r));
  sv_slab : sized cap (slab s) ∧ length (slab s) = B;
  sv_cached : ∀ r cached, slab s !! r = Some cached → caches (ctx r) cached;
  sv_max_length : max_length s = ml;
}.

(** The contexts after the rows [rows] ran. *)
Definition advance generated (rows : list nat) ctx (r : nat) : list Z :=
  if bool_decide (r ∈ rows) then ctx r ++ [input_token prompts generated r] else ctx r.

(** The token a row of [rows] emits. *)
Definition emitted generated ctx (r : nat) : Z := t_argmax (cell_of (ctx r ++ [input_token prompts generated r])).2.

Lemma next_ids_of (f : nat → L) (rows : list nat) : next_ids ((λ r, [f r]) <$> rows) = Ok ((λ r, t_argmax (f r)) <$> rows).
Proof. unfold next_ids. rewrite mapM_fmap. apply mapM_Ok. done. Qed.

Lemma zip_with_rows {A C D} (f : A → C → D) (u : nat → A) (v : nat → C) (rows : list nat) :
  zip_with f (u <$> rows) (v <$> rows) = (λ r, f (u r) (v r)) <$> rows.
Proof. induction rows; [done|]. cbn. by f_equal. Qed.

Lemma run_group_spec generated tk (group : list nat) ctx s out (a g : nat) p : group = seq a (S g) → (a + S g ≤ B)%nat → served ctx s →
  (∀ r, r ∈ group → zlen (ctx r) = p ∧ row_position_of generated r = p) → p + 1 ≤ ml → p < Z.of_nat cap →
  ∃ s', run_group cfg prompts generated tk group out s =
      (s', Ok (imap (λ r t, if bool_decide (r ∈ group) then emitted generated ctx r else t) out)) ∧
    served (advance generated group ctx) s' ∧ tick_batches s' = tick_batches s.
Proof using TML Hcf.
  intros Hg Hab [Hfull (Hsp & Hmax & Hatt) (Hs & Hl) Hc Hmle] Hp Hml Hcap.
  assert (Hin : ∀ r, r ∈ group ↔ (a ≤ r < a + S g)%nat) by (intros r; rewrite Hg; apply elem_of_seq).
  set (batch := mkStaged tk (row_request_id <$> live_rows prompts generated tk) (row_position <$> live_rows prompts generated tk)
    (row_input_token_id <$> live_rows prompts generated tk) (Some ((λ i, bool_decide (i ∈ group)) <$> seq 0 (batch_size prompts)))
    (Z.of_nat <$> head group) (Some (Z.of_nat (batch_size prompts))) (Some (zlen group))).
  set (s1 := set_pending (Some batch) s).
  assert (Hbs : batch_size prompts = B) by (unfold batch_size; by rewrite length_fmap).
  assert (Hstage : stage_tick_batch batch s = (s1, Ok tt)).
  { unfold stage_tick_batch, batch. cbn [st_active_mask st_request_ids]. rewrite guard_pass; [done|].
    apply Z.eqb_eq. unfold zlen, live_rows. by rewrite !length_fmap. }
  assert (Hsg : staged_group s1 a (S g) B).
  { split; [done|]. exists batch. split; [done|]. unfold batch. cbn. rewrite Hbs, Hg. split; [done|]. split; [done|]. split; [unfold zlen; by rewrite length_seq|].
    f_equal. apply list_fmap_ext. intros _ i _. apply bool_decide_ext. by rewrite elem_of_seq. }
  assert (Hzp : 0 ≤ p) by (destruct (Hp a) as [<- _]; [rewrite Hin; lia|apply zlen_nonneg]).
  destruct (group_step cfg s1 (ctx <$> group) (input_token prompts generated <$> group) a (S g) B cap) as (slab' & Hrun & Hs' & Hl' & Hnew & Hold);
    try done; try (rewrite length_fmap, Hg, length_seq; lia); [lia| | | |].
  - cbn. rewrite Hsp. destruct Hatt as [->|(r & _ & ->)]; [done|apply zlen_nonneg].
  - intros q. rewrite Hg. cbn. intros [= <-]. destruct (Hp a) as [-> _]; [rewrite Hin; lia|]. rewrite Hmle, Hsp. split; [done|].
    intros Hfg. assert (position s = p) as ->; [|done]. destruct Hatt as [E0|(r & Hr & ->)].
    + destruct (Hp a) as [Hz _]; [rewrite Hin; lia|]. specialize (Hmax a ltac:(lia)). lia.
    + apply Hp. rewrite Hin. lia.
  - intros k q cached Hk Hr. rewrite list_lookup_fmap in Hk. destruct (group !! k) as [r|] eqn:Hgk; [|done]. injection Hk as <-.
    rewrite Hg in Hgk. apply lookup_seq in Hgk as [-> Hlt]. split; [by apply (Hc (a + k)%nat)|].
    destruct (Hp (a + k)%nat) as [Hz _]; [rewrite Hin; lia|]. unfold zlen in Hz. lia.
  - assert (Hpos : zlen <$> (ctx <$> group) = row_position_of generated <$> group).
    { rewrite <- list_fmap_compose. apply list_fmap_ext. intros i r Hr. cbn. destruct (Hp r) as [-> ->]; [by eapply list_elem_of_lookup_2|done]. }
    assert (Hids : (λ t : Z, [t]) <$> (input_token prompts generated <$> group) = (λ i, [input_token prompts generated i]) <$> group)
      by (by rewrite <- list_fmap_compose).
    assert (Hhead : from_option zlen 0 (head (ctx <$> group)) = p).
    { rewrite Hg. cbn. apply Hp. rewrite Hin. lia. }
    rewrite Hpos, Hids, zip_with_rows, Hhead in Hrun.
    exists (stepped slab' (Z.max (position s1) (p + 1)) (Z.max (server_position s1) (p + 1)) s1). split; [|split; [|done]].
    + unfold run_group. fold batch. rewrite (bind_ok _ _ _ _ _ Hstage), (bind_ok _ _ _ _ _ Hrun).
      rewrite (proj2 (Z.ltb_ge _ _)) by (unfold zlen; rewrite length_fmap; lia).
      rewrite take_ge by (rewrite length_fmap; lia). rewrite next_ids_of, lift_ok_bind. unfold emitted. by rewrite <- put_tokens.
    + assert (Hadv : ∀ r, r ∈ group → zlen (advance generated group ctx r) = p + 1).
      { intros r Hr. unfold advance. rewrite bool_decide_true, zlen_app by done. destruct (Hp r Hr) as [-> _]. done. }
      assert (Hadv' : ∀ r, r ∉ group → advance generated group ctx r = ctx r) by (intros r Hr; unfold advance; by rewrite bool_decide_false).
      split; [done| |split; [done|cbn; lia]| |done].
      * cbn. rewrite Hsp. split; [done|]. split.
        -- intros r Hr. destruct (decide (r ∈ group)) as [Hrg|Hrg]; [rewrite Hadv by done; lia|]. rewrite Hadv' by done. specialize (Hmax r Hr). lia.
        -- right. destruct (Z.le_gt_cases (position s) (p + 1)) as [Hle|Hgt].
           ++ exists a. split; [lia|]. rewrite Hadv by (rewrite Hin; lia). lia.
           ++ destruct Hatt as [E0|(r & Hr & E0)]; [lia|]. exists r. split; [done|]. rewrite Hadv'; [lia|]. intros Hrg. destruct (Hp r Hrg). lia.
      * cbn. intros r cached Hr. destruct (decide (r ∈ group)) as [Hrg|Hrg].
        -- unfold advance. rewrite bool_decide_true by done. apply Hin in Hrg as Hrange.
           apply (Hnew (r - a)%nat); rewrite ?list_lookup_fmap, ?Hg, ?lookup_seq_lt by lia; cbn; try (do 2 f_equal; lia).
           replace (a + (r - a))%nat with r by lia. done.
        -- rewrite Hadv' by done. apply Hc. rewrite <- Hr. symmetry. apply Hold. rewrite Hin in Hrg. lia.
Qed.
Lemma served_ext ctx ctx' s : (∀ r, ctx r = ctx' r) → served ctx s → served ctx' s.
Proof.
  intros He [H1 (H2 & H3 & H4) H5 H6 H7]. split; [done| |done| |done].
  - split; [done|]. split; [intros r Hr; rewrite <- He; by apply H3|]. destruct H4 as [|(r & Hr & E0)]; [by left|right; exists r; by rewrite <- He].
  - intros r cached Hr. rewrite <- He. by apply H6.
Qed.

Lemma run_groups_spec generated tk groups : ∀ ctx s out, Forall (group_of generated) groups → NoDup (mjoin groups) →
  (∀ r, r ∈ mjoin groups → (r < B)%nat ∧ zlen (ctx r) = row_position_of generated r ∧
    row_position_of generated r + 1 ≤ ml ∧ row_position_of generated r < Z.of_nat cap) → served ctx s →
  ∃ s', run_groups cfg prompts generated tk groups out s =
      (s', Ok (imap (λ r t, if bool_decide (r ∈ mjoin groups) then emitted generated ctx r else t) out)) ∧
    served (advance generated (mjoin groups) ctx) s' ∧ tick_batches s' = tick_batches s.
Proof using TML Hcf.
  induction groups as [|group groups IH]; intros ctx s out Hgs Hnd Hrows Hsv.
  { exists s. cbn [run_groups mjoin list_join]. split; [|split; [|done]].
    - unfold mret, M_ret. do 2 f_equal. apply list_eq. intros i. rewrite list_lookup_imap. by destruct (out !! i).
    - eapply served_ext; [|done]. done. }
  apply Forall_cons in Hgs as [(a & g & p & Hg & Hpos) Hgs]. cbn [mjoin list_join] in *.
  apply NoDup_app in Hnd as (_ & Hdis & Hnd).
  assert (Hrg : ∀ r, r ∈ group → r ∈ group ++ mjoin groups) by (intros r Hr; apply elem_of_app; by left).
  assert (Hin : ∀ r, r ∈ group ↔ (a ≤ r < a + S g)%nat) by (intros r; rewrite Hg; apply elem_of_seq).
  assert (Ha : a ∈ group) by (apply Hin; lia).
  destruct (Hrows a (Hrg a Ha)) as (_ & _ & H3 & H4). rewrite (Hpos a Ha) in H3, H4.
  destruct (run_group_spec generated tk group ctx s out a g p) as (s1 & Hrun & Hsv1 & Htb1); try done.
  { destruct (Hrows (a + g)%nat) as [? _]; [apply Hrg, Hin; lia|lia]. }
  { intros r Hr. destruct (Hrows r (Hrg r Hr)) as (_ & -> & _). split; by apply Hpos. }
  assert (Hout : ∀ r, r ∈ mjoin groups → r ∉ group) by (intros r Hr Hr'; by apply (Hdis r)).
  assert (Hkeep : ∀ r, r ∈ mjoin groups → advance generated group ctx r = ctx r) by (intros r Hr; unfold advance; rewrite bool_decide_false; auto).
  destruct (IH (advance generated group ctx) s1 (imap (λ r t, if bool_decide (r ∈ group) then emitted generated ctx r else t) out))
    as (s2 & Hrun2 & Hsv2 & Htb2); try done.
  { intros r Hr. rewrite (Hkeep r Hr). apply Hrows. apply elem_of_app. by right. }
  exists s2. cbn [run_groups]. rewrite (bind_ok _ _ _ _ _ Hrun), Hrun2. split; [|split; [|by rewrite Htb2]].
  - do 2 f_equal. apply list_eq. intros i. rewrite !list_lookup_imap. destruct (out !! i); [|done]. cbn [fmap option_fmap option_map]. f_equal.
    destruct (decide (i ∈ mjoin groups)) as [Hi|Hi].
    + rewrite !bool_decide_true by (done || (apply elem_of_app; by right)). unfold emitted. by rewrite (Hkeep i Hi).
    + rewrite (bool_decide_false (i ∈ mjoin groups)) by done. rewrite (bool_decide_ext (i ∈ group ++ mjoin groups) (i ∈ group)); [done|].
      rewrite elem_of_app. naive_solver.
  - eapply served_ext; [|exact Hsv2]. intros r. unfold advance at 1. destruct (decide (r ∈ mjoin groups)) as [Hi|Hi].
    + rewrite bool_decide_true, (Hkeep r Hi) by done. unfold advance. rewrite bool_decide_true; [done|]. apply elem_of_app. by right.
    + rewrite bool_decide_false by done. unfold advance. f_equal. rewrite (bool_decide_ext _ (r ∈ group ++ mjoin groups)); [done|]. rewrite elem_of_app. naive_solver.
Qed.
End ticks.

(** ** Late arrivals: what a tick changes *)

Section tokens.
Context (max_new_tokens : nat) (eos_set : list Z).
Implicit Types (generated : list (list Z)) (row_done : list bool).

Definition next_generated (rows : list nat) (out : list Z) generated : list (list Z) :=
  imap (λ r g, if bool_decide (r ∈ rows) then g ++ [out !!! r] else g) generated.

Definition next_done (rows : list nat) (out : list Z) row_done : list bool :=
  imap (λ r (d : bool), if bool_decide (r ∈ rows) then d || is_eos eos_set (out !!! r) else d) row_done.

(** The row is active again in the next tick. *)
Definition goes_on (out : list Z) generated row_done (r : nat) : bool :=
  negb ((row_done !!! r : bool) || is_eos eos_set (out !!! r)) && (S (length (generated !!! r)) <? max_new_tokens)%nat.

Lemma insert_imap {A} (rows : list nat) (f : nat → A → A) x (l : list A) y : x ∉ rows → l !! x = Some y →
  imap (λ r a, if bool_decide (r ∈ rows) then f r a else a) (<[x := f x y]> l) = imap (λ r a, if bool_decide (r ∈ x :: rows) then f r a else a) l.
Proof.
  intros Hx Hl. apply list_eq. intros i. rewrite !list_lookup_imap, list_lookup_insert. case_decide as Hi.
  - destruct Hi as [<- _]. rewrite Hl. cbn [fmap option_fmap option_map]. f_equal. rewrite bool_decide_false, bool_decide_true by (done || by left). done.
  - destruct (l !! i) as [a|] eqn:Ha; [|done]. cbn [fmap option_fmap option_map]. f_equal. apply lookup_lt_Some in Ha as Hlt.
    assert (x ≠ i) by naive_solver. rewrite (bool_decide_ext (i ∈ x :: rows) (i ∈ rows)); [done|]. rewrite elem_of_cons. naive_solver.
Qed.

Lemma take_tokens_spec rows : ∀ out generated row_done act act_set, NoDup rows →
  (∀ r, r ∈ rows → (r < length generated)%nat ∧ (r < length row_done)%nat) →
  take_tokens max_new_tokens eos_set rows out generated row_done act act_set =
    (next_generated rows out generated, next_done rows out row_done,
     act ++ filter (λ r, goes_on out generated row_done r = true) rows, act_set ++ filter (λ r, goes_on out generated row_done r = true) rows).
Proof.
  induction rows as [|x rows IH]; intros out generated row_done act act_set Hnd Hr; cbn [take_tokens].
  { assert (Hn : ∀ A (f : nat → A → A) (l : list A), imap (λ r a, if bool_decide (r ∈ @nil nat) then f r a else a) l = l).
    { intros A f l. apply list_eq. intros i. rewrite list_lookup_imap. by destruct (l !! i). }
    unfold next_generated, next_done. by rewrite !Hn, !app_nil_r. }
  apply NoDup_cons in Hnd as [Hx Hnd]. destruct (Hr x) as [Hg Hd]; [by left|].
  destruct (lookup_lt_is_Some_2 generated x Hg) as [g Hgx]. destruct (lookup_lt_is_Some_2 row_done x Hd) as [d Hdx].
  set (generated1 := <[x := generated !!! x ++ [out !!! x]]> generated).
  assert (Hd1 : (if is_eos eos_set (out !!! x) then <[x := true]> row_done else row_done) = <[x := d || is_eos eos_set (out !!! x)]> row_done).
  { destruct (is_eos eos_set (out !!! x)); [by rewrite orb_true_r|]. rewrite orb_false_r. symmetry. by apply list_insert_id. }
  rewrite Hd1. set (row_done1 := <[x := _]> row_done).
  assert (Hgl : generated1 !!! x = g ++ [out !!! x]).
  { unfold generated1. rewrite list_lookup_total_insert_eq by done. by rewrite (list_lookup_total_correct _ _ _ Hgx). }
  assert (Hdl : row_done1 !!! x = d || is_eos eos_set (out !!! x)) by (unfold row_done1; by rewrite list_lookup_total_insert_eq).
  assert (Hgo : negb (row_done1 !!! x) && (length (generated1 !!! x) <? max_new_tokens)%nat = goes_on out generated row_done x).
  { unfold goes_on. rewrite Hgl, Hdl, (list_lookup_total_correct _ _ _ Hgx), (list_lookup_total_correct _ _ _ Hdx), length_app, Nat.add_1_r. done. }
  assert (Hsame : ∀ r, r ∈ rows → goes_on out generated1 row_done1 r = goes_on out generated row_done r).
  { intros r Hrr. assert (x ≠ r) by naive_solver. unfold goes_on, generated1, row_done1. by rewrite !list_lookup_total_insert_ne. }
  assert (Hf : filter (λ r, goes_on out generated1 row_done1 r = true) rows = filter (λ r, goes_on out generated row_done r = true) rows).
  { clear -Hsame. induction rows as [|r rows IH]; [done|]. rewrite !filter_cons, (Hsame r) by (by left). rewrite IH; [done|]. intros; apply Hsame. by right. }
  assert (Hng : next_generated rows out generated1 = next_generated (x :: rows) out generated).
  { unfold next_generated, generated1. rewrite (list_lookup_total_correct _ _ _ Hgx). by apply (insert_imap rows (λ r g, g ++ [out !!! r]) x generated g). }
  assert (Hnd' : next_done rows out row_done1 = next_done (x :: rows) out row_done).
  { unfold next_done, row_done1. by apply (insert_imap rows (λ r d, d || is_eos eos_set (out !!! r)) x row_done d). }
  rewrite Hgo, filter_cons. destruct (goes_on out generated row_done x).
  - rewrite decide_True by done. rewrite IH by (try done; intros r Hrr; unfold generated1, row_done1; rewrite !length_insert; apply Hr; by right).
    by rewrite Hf, Hng, Hnd', <- !app_assoc.
  - rewrite decide_False by done. rewrite IH by (try done; intros r Hrr; unfold generated1, row_done1; rewrite !length_insert; apply Hr; by right).
    by rewrite Hf, Hng, Hnd'.
Qed.
End tokens.

(** ** Late arrivals: the loop *)

Section late_proof.
Context {E L : Type} `{TM : TargetModel E L} `{TML : !TargetModelLaws E L} `{LO : LogitsOps L}.
Context (cfg : chunking) (toks : list Z) (cap : nat) (ml : Z).
Context (max_new_tokens : nat) (eos_set : list Z) (arrival_ticks : list Z).
Implicit Types (s : session E) (generated : list (list Z)) (st : sched).

#[local] Notation prompts := ((λ t : Z, [t]) <$> toks).
#[local] Notation B := (length toks).

(** What is in the cache of row [r]: its prompt and its tokens but the newest. *)
Definition context generated (r : nat) : list Z := removelast (toks !!! r :: generated !!! r).

Lemma context_input generated r : (r < B)%nat →
  context generated r ++ [input_token prompts generated r] = toks !!! r :: generated !!! r ∧ zlen (context generated r) = row_position_of generated r.
Proof.
  intros Hr. destruct (lookup_lt_is_Some_2 toks r Hr) as [t Ht].
  assert (Hp : prompts !!! r = [t]) by (apply list_lookup_total_correct; by rewrite list_lookup_fmap, Ht).
  unfold context, input_token, row_position_of. rewrite Hp, (list_lookup_total_correct _ _ _ Ht). generalize (generated !!! r). intros g.
  induction g as [|x g _] using rev_ind; [done|]. rewrite last_snoc. cbn [default from_option id]. rewrite app_comm_cons, removelast_last.
  split; [done|]. unfold zlen. rewrite length_app. cbn. lia.
Qed.

(** The tokens of a row: greedy, none after an end-of-sequence token. *)
Definition row_progress (t : Z) (g : list Z) (d : bool) : Prop :=
  g = greedy (length g) [t] ∧ (length g ≤ max_new_tokens)%nat ∧ ended eos_set (removelast g) = false ∧ d = ended eos_set g.

Lemma progress_next t g x : row_progress t g false → (length g < max_new_tokens)%nat → x = t_argmax (cell_of (t :: g)).2 →
  row_progress t (g ++ [x]) (is_eos eos_set x).
Proof.
  intros (Hg & _ & _ & He) Hl Hx. unfold row_progress. rewrite length_app, Nat.add_1_r. split; [|split; [cbn; lia|split]].
  - rewrite greedy_snoc, <- Hg. by rewrite Hx.
  - by rewrite removelast_last.
  - by rewrite ended_snoc, <- He.
Qed.

(** Before a pass every row waits, is active or has finished. *)
Record late_inv st s : Prop := mkLateInv {
  li_lengths : length (generated_by_row st) = B ∧ length (row_done st) = B;
  li_progress : ∀ r, (r < B)%nat → row_progress (toks !!! r) (generated_by_row st !!! r) (row_done st !!! r);
  li_nodup : NoDup (pending st ++ active st);
  li_open : ∀ r, r ∈ pending st ++ active st → (r < B)%nat ∧ row_done st !!! r = false ∧ (length (generated_by_row st !!! r) < max_new_tokens)%nat;
  li_closed : ∀ r, (r < B)%nat → r ∈ pending st ++ active st ∨ row_done st !!! r = true ∨ length (generated_by_row st !!! r) = max_new_tokens;
  li_active_set : active_set st = active st;
  li_served : served toks cap ml (context (generated_by_row st)) s;
  li_ticks : ∀ b, last (tick_batches s) = Some b → tr_tick b < tick st;
}.

(** Tokens still to come, and a pass that only moves the clock. *)
Definition to_come generated : nat := sum_list_with (λ g : list Z, max_new_tokens - length g)%nat generated.
Definition clock_moves st : nat :=
  match active st, pending st with [], r :: _ => if arrival arrival_ticks r <=? tick st then 0 else 1 | _, _ => 0 end.
Definition measure st : nat := 2 * to_come (generated_by_row st) + clock_moves st.

Lemma clock_moves_le st : (clock_moves st ≤ 1)%nat.
Proof. unfold clock_moves. destruct (active st), (pending st); [lia| |lia..]. destruct (_ <=? _); lia. Qed.

Lemma to_come_decreases generated out rows r : r ∈ rows → (r < length generated)%nat → (length (generated !!! r) < max_new_tokens)%nat →
  (S (to_come (next_generated rows out generated)) ≤ to_come generated)%nat.
Proof.
  intros Hr Hl Hlt. unfold to_come, next_generated. set (f := λ (i : nat) (g : list Z), if bool_decide (i ∈ rows) then g ++ [out !!! i] else g).
  assert (Hle : ∀ l (f : nat → list Z → list Z), (∀ i g, (length g ≤ length (f i g))%nat) →
    (sum_list_with (λ g : list Z, max_new_tokens - length g) (imap f l) ≤ sum_list_with (λ g : list Z, max_new_tokens - length g) l)%nat).
  { intros l. induction l as [|g l IH]; intros h Hh; cbn; [done|]. specialize (Hh 0%nat g) as Hg. specialize (IH (h ∘ S) (λ i, Hh (S i))). cbn in *. lia. }
  assert (Hf : ∀ i g, (length g ≤ length (f i g))%nat) by (intros i g; unfold f; destruct (bool_decide _); rewrite ?length_app; lia).
  assert (Hfr : length (f r (generated !!! r)) = S (length (generated !!! r))).
  { unfold f. rewrite bool_decide_true, length_app by done. cbn. lia. }
  clearbody f. clear Hr. revert r f Hl Hlt Hf Hfr. induction generated as [|g l IH]; intros r f Hl Hlt Hf Hfr; [cbn in Hl; lia|].
  cbn [imap sum_list_with]. destruct r as [|r].
  - cbn in Hfr, Hlt. specialize (Hle l (f ∘ S) (λ i, Hf (S i))). cbn in *. lia.
  - cbn in Hfr, Hlt, Hl. specialize (IH r (f ∘ S) ltac:(lia) Hlt (λ i, Hf (S i)) Hfr). specialize (Hf 0%nat g). cbn in *. lia.
Qed.

Lemma next_generated_total rows out generated r : (r < length generated)%nat →
  next_generated rows out generated !!! r = if bool_decide (r ∈ rows) then generated !!! r ++ [out !!! r] else generated !!! r.
Proof.
  intros Hr. destruct (lookup_lt_is_Some_2 generated r Hr) as [g Hg]. rewrite (list_lookup_total_correct _ _ _ Hg).
  apply list_lookup_total_correct. unfold next_generated. by rewrite list_lookup_imap, Hg.
Qed.

Lemma next_done_total rows out (row_done : list bool) r : (r < length row_done)%nat →
  next_done eos_set rows out row_done !!! r = if bool_decide (r ∈ rows) then (row_done !!! r : bool) || is_eos eos_set (out !!! r) else row_done !!! r.
Proof.
  intros Hr. destruct (lookup_lt_is_Some_2 row_done r Hr) as [d Hd]. rewrite (list_lookup_total_correct _ _ _ Hd).
  apply list_lookup_total_correct. unfold next_done. by rewrite list_lookup_imap, Hd.
Qed.

(** [g] up to its first end-of-sequence token. *)
Fixpoint up_to_eos (g : list Z) : list Z :=
  match g with [] => [] | t :: g => t :: (if is_eos eos_set t then [] else up_to_eos g) end.

Lemma up_to_eos_app g rest : ended eos_set (removelast g) = false → up_to_eos (g ++ rest) = if ended eos_set g then g else g ++ up_to_eos rest.
Proof.
  induction g as [|t g IH]; [done|]. destruct g as [|t' g].
  - intros _. cbn. rewrite orb_false_r. by destruct (is_eos eos_set t).
  - intros He. change (removelast (t :: t' :: g)) with (t :: removelast (t' :: g)) in He. cbn [ended existsb] in He. apply orb_false_iff in He as [Ht He].
    change (up_to_eos ((t :: t' :: g) ++ rest)) with (t :: (if is_eos eos_set t then [] else up_to_eos ((t' :: g) ++ rest))).
    change (ended eos_set (t :: t' :: g)) with (is_eos eos_set t || ended eos_set (t' :: g)).
    rewrite Ht, (IH He). by destruct (ended eos_set (t' :: g)).
Qed.

Lemma finished_row t g d : row_progress t g d → d = true ∨ length g = max_new_tokens → g = up_to_eos (greedy max_new_tokens [t]).
Proof.
  intros (Hg & Hl & He & ->) Hfin. replace max_new_tokens with (length g + (max_new_tokens - length g))%nat at 1 by lia.
  rewrite greedy_add, <- Hg, up_to_eos_app by done. destruct (ended eos_set g); [done|]. destruct Hfin as [|Hfin]; [done|].
  rewrite Hfin, Nat.sub_diag. cbn. by rewrite app_nil_r.
Qed.

Context (Hcf : chunking_wf cfg) (Htoks : toks ≠ []) (Hml : Z.of_nat max_new_tokens ≤ ml) (Hcap : (max_new_tokens ≤ cap)%nat).

Lemma live_rows_facts generated tk : let rows := live_rows prompts generated tk in
  rows ≠ [] ∧ length rows = B ∧ Forall (λ row, row_tick row = tk) rows ∧ NoDup (row_request_id <$> rows).
Proof using Htoks.
  intros rows. assert (Hl : length rows = B) by (unfold rows, live_rows, batch_size; by rewrite !length_fmap, length_seq).
  split; [intros E0; rewrite E0 in Hl; by destruct toks|]. split; [done|]. split; [by apply list.Forall_fmap, Forall_forall|].
  unfold rows, live_rows. rewrite <- list_fmap_compose. apply request_ids_distinct.
Qed.

(** A pass with active rows. *)
Lemma compute_pass st s rows pend : late_inv st s → pending st ++ active st ≡ₚ pend ++ rows → rows ≠ [] → 
  let generated := generated_by_row st in
  let sorted := merge_sort Nat.le rows in
  let live := live_rows prompts generated (tick st) in
  ∃ s1 s2 out, run_groups cfg prompts generated (tick st) (compute_groups generated sorted) (row_input_token_id <$> live) s = (s1, Ok out) ∧
    record_tick_rows true live (Some ((λ i, bool_decide (i ∈ sorted)) <$> seq 0 (batch_size prompts))) out s1 = (s2, Ok tt) ∧
    take_tokens max_new_tokens eos_set sorted out generated (row_done st) [] [] =
      (next_generated sorted out generated, next_done eos_set sorted out (row_done st),
       filter (λ r, goes_on max_new_tokens eos_set out generated (row_done st) r = true) sorted,
       filter (λ r, goes_on max_new_tokens eos_set out generated (row_done st) r = true) sorted) ∧
    let go := filter (λ r, goes_on max_new_tokens eos_set out generated (row_done st) r = true) sorted in
    let st' := mkSched (next_generated sorted out generated) (next_done eos_set sorted out (row_done st)) pend go go (tick st + 1) in
    late_inv st' s2 ∧ (measure st' < measure st)%nat.
Proof using All.
  intros [[Hgl Hdl] Hprog Hnd Hopen Hclosed Has Hsv Hticks] Hperm Hne generated sorted live.
  assert (Hsort : sorted ≡ₚ rows) by apply merge_sort_Permutation.
  assert (Hnd' : NoDup (pend ++ sorted)) by (rewrite Hsort, <- Hperm; done).
  assert (Hmem : ∀ r, r ∈ pend ++ sorted ↔ r ∈ pending st ++ active st) by (intros r; by rewrite Hsort, Hperm).
  apply NoDup_app in Hnd' as (Hndp & Hdis & Hnds).
  assert (Hrow : ∀ r, r ∈ sorted → (r < B)%nat ∧ row_done st !!! r = false ∧ (length (generated !!! r) < max_new_tokens)%nat).
  { intros r Hr. apply Hopen, Hmem, elem_of_app. by right. }
  destruct (compute_groups_spec generated sorted) as [Hjoin Hgroups].
  destruct (run_groups_spec cfg Hcf toks cap ml generated (tick st) (compute_groups generated sorted) (context generated) s (row_input_token_id <$> live))
    as (s1 & Hrun & Hsv1 & Htb1); try done.
  { by rewrite Hjoin. }
  { rewrite Hjoin. intros r Hr. destruct (Hrow r Hr) as (Hb & _ & Hlt). split; [done|]. split; [by apply context_input|]. unfold row_position_of, zlen. lia. }
  rewrite Hjoin in Hrun, Hsv1. set (out := imap _ _) in Hrun.
  destruct (live_rows_facts generated (tick st)) as (Hlne & Hll & Hlt & Hlid). fold live in Hlne, Hll, Hlt, Hlid.
  assert (Hol : length out = B) by (unfold out; by rewrite length_imap, length_fmap).
  assert (Hout : ∀ r, r ∈ sorted → out !!! r = t_argmax (cell_of (toks !!! r :: generated !!! r)).2).
  { intros r Hr. destruct (Hrow r Hr) as (Hb & _). destruct (lookup_lt_is_Some_2 (row_input_token_id <$> live) r) as [x Hx]; [rewrite length_fmap; lia|].
    apply list_lookup_total_correct. unfold out. rewrite list_lookup_imap, Hx. cbn [fmap option_fmap option_map]. rewrite bool_decide_true by done.
    unfold emitted. by rewrite (proj1 (context_input generated r Hb)). }
  clearbody out.
  set (b := mkTick (tick st) (row_request_id <$> live) (row_position <$> live) (row_input_token_id <$> live)
    (Some ((λ i, bool_decide (i ∈ sorted)) <$> seq 0 (batch_size prompts))) (Some out)).
  assert (Hrec : record_tick_rows true live (Some ((λ i, bool_decide (i ∈ sorted)) <$> seq 0 (batch_size prompts))) out s1 = (add_tick b s1, Ok tt)).
  { unfold record_tick_rows. rewrite get_bind, (normalize_accepts s1 live _ _ (tick st)), lift_ok_bind; try done.
    - rewrite Htb1. intros b' Hb'. specialize (Hticks b' Hb'). lia.
    - intros l [= <-]. rewrite Hll. unfold batch_size. by rewrite !length_fmap, length_seq.
    - intros l [= <-]. lia. }
  exists s1, (add_tick b s1), out. split; [done|]. split; [done|]. split.
  { rewrite take_tokens_spec; [done|done|]. intros r Hr. fold generated in Hgl. destruct (Hrow r Hr). lia. }
  intros go st'.
  assert (Hng : ∀ r, (r < B)%nat → next_generated sorted out generated !!! r = if bool_decide (r ∈ sorted) then generated !!! r ++ [out !!! r] else generated !!! r).
  { intros r Hr. apply next_generated_total. unfold generated. lia. }
  assert (Hnd2 : ∀ r, (r < B)%nat → next_done eos_set sorted out (row_done st) !!! r =
    if bool_decide (r ∈ sorted) then (row_done st !!! r : bool) || is_eos eos_set (out !!! r) else row_done st !!! r).
  { intros r Hr. apply next_done_total. lia. }
  assert (Hgo : ∀ r, r ∈ go ↔ goes_on max_new_tokens eos_set out generated (row_done st) r = true ∧ r ∈ sorted) by (intros r; unfold go; by rewrite list_elem_of_filter).
  split.
  - split; cbn [generated_by_row row_done pending active active_set tick st']; [|..|done| |].
    + unfold next_generated, next_done, generated. rewrite !length_imap. done.
    + intros r Hr. rewrite Hng, Hnd2 by done. destruct (decide (r ∈ sorted)) as [Hrs|Hrs].
      * rewrite !bool_decide_true by done. destruct (Hrow r Hrs) as (_ & Hd & Hl). rewrite Hd. specialize (Hprog r Hr). rewrite Hd in Hprog.
        apply progress_next; [done|done|by apply Hout].
      * rewrite !bool_decide_false by done. by apply Hprog.
    + apply NoDup_app. split; [done|]. split; [|by apply NoDup_filter]. intros r Hr [_ Hs]%Hgo. by apply (Hdis r).
    + intros r [Hr|[Hg Hr]%Hgo]%elem_of_app.
      * destruct (Hopen r) as (Hb & Hd & Hl); [apply Hmem, elem_of_app; by left|].
        assert (Hrs : r ∉ sorted) by (by apply Hdis). rewrite Hng, Hnd2, !bool_decide_false by done. done.
      * destruct (Hrow r Hr) as (Hb & Hd & Hl). rewrite Hng, Hnd2, !bool_decide_true by done. unfold goes_on in Hg. rewrite length_app. cbn. split; [done|]. lia.
    + intros r Hr. rewrite Hng, Hnd2, elem_of_app, Hgo by done. destruct (decide (r ∈ sorted)) as [Hrs|Hrs].
      * rewrite !bool_decide_true by done. destruct (Hrow r Hrs) as (_ & Hd & Hl). unfold goes_on. rewrite Hd, length_app. cbn [orb length].
        destruct (is_eos eos_set (out !!! r)); [by right; left|]. cbn [negb andb]. destruct (Nat.ltb_spec (S (length (generated !!! r))) max_new_tokens); [left; right; done|].
        right; right. lia.
      * rewrite !bool_decide_false by done. destruct (Hclosed r Hr) as [Hpa|?]; [|by right]. apply Hmem, elem_of_app in Hpa as [?|?]; [left; by left|done].
    + assert (Hsv2 : served toks cap ml (advance toks generated sorted (context generated)) (add_tick b s1)) by (destruct Hsv1; by split).
      eapply served_ext; [|exact Hsv2]. intros r. unfold advance. destruct (decide (r ∈ sorted)) as [Hrs|Hrs].
      * destruct (Hrow r Hrs) as (Hb & _). rewrite bool_decide_true by done. rewrite (proj1 (context_input generated r Hb)).
        unfold context at 1. rewrite Hng, bool_decide_true by done. by rewrite app_comm_cons, removelast_last.
      * rewrite bool_decide_false by done. unfold context. f_equal. f_equal. destruct (decide (r < B)%nat) as [Hr|Hr].
        -- by rewrite Hng, bool_decide_false.
        -- rewrite !list_lookup_total_alt. unfold next_generated. rewrite list_lookup_imap.
           rewrite (proj2 (lookup_ge_None generated r)) by (unfold generated; lia). done.
    + cbn. rewrite last_snoc. intros b' [= <-]. cbn. lia.
  - assert (∃ r0, r0 ∈ sorted) as [r0 Hr0].
    { assert (∃ r0, r0 ∈ rows) as [r0 Hr0] by (destruct rows as [|r0 rs]; [done|exists r0; by left]). exists r0. by rewrite Hsort. }
    destruct (Hrow r0 Hr0) as (Hb & _ & Hl).
    pose proof (to_come_decreases generated out sorted r0 Hr0 ltac:(unfold generated; lia) Hl) as Hdec.
    pose proof (clock_moves_le st'). unfold measure. change (generated_by_row st') with (next_generated sorted out generated). fold generated. lia.
Qed.
(** A pass ends the loop with every row finished, or comes closer to that. *)
Lemma pass_spec st s : late_inv st s →
  (∃ st' s', late_pass cfg true prompts max_new_tokens eos_set arrival_ticks st s = (s', Ok (Again st')) ∧ late_inv st' s' ∧ (measure st' < measure st)%nat) ∨
  (∃ st', late_pass cfg true prompts max_new_tokens eos_set arrival_ticks st s = (s, Ok (Stop st')) ∧ late_inv st' s ∧ pending st' ++ active st' = []).
Proof using All.
  intros Hinv. pose proof Hinv as [[Hgl Hdl] Hprog Hnd Hopen Hclosed Has Hsv Hticks]. apply NoDup_app in Hnd as (Hndp & Hdis & Hnda).
  destruct (admit_spec arrival_ticks (pending st) (active st) (active_set st) (row_done st) (tick st) Hndp) as (pre & rest & Hpend & Hadmit & Hrest).
  { intros r Hr. rewrite Has. split; [by apply Hdis|]. apply Hopen, elem_of_app. by left. }
  assert (Hperm : pending st ++ active st ≡ₚ rest ++ active st ++ pre) by (rewrite Hpend; solve_Permutation).
  unfold late_pass. rewrite Hadmit, Has. destruct (active st ++ pre) as [|r0 rows] eqn:Hact.
  - apply app_nil in Hact as [Ha ->]. cbn [app] in Hpend. subst rest. destruct (pending st) as [|r pend] eqn:Hp.
    + right. eexists. split; [done|]. split; [|done]. by destruct st; cbn in *; subst.
    + left. eexists _, s. split; [done|]. split; [split; cbn [generated_by_row row_done pending active active_set tick]; try done|].
      * rewrite app_nil_r. done.
      * intros r' Hr'. apply Hopen. by rewrite Ha.
      * intros r' Hr'. specialize (Hclosed r' Hr'). by rewrite Ha in Hclosed.
      * intros b Hb. specialize (Hticks b Hb). lia.
      * unfold measure, clock_moves. cbn [generated_by_row pending active tick]. rewrite Ha, Hp.
        rewrite (proj2 (Z.leb_le _ _)), (proj2 (Z.leb_gt _ _)) by lia. lia.
  - left. set (act := r0 :: rows) in *.
    assert (Hmem : ∀ r, r ∈ act → r ∈ pending st ++ active st) by (intros r Hr; rewrite Hperm; apply elem_of_app; by right).
    assert (Hlen : (length act ≤ batch_size prompts)%nat).
    { unfold batch_size. rewrite length_fmap, <- (length_seq B 0). apply submseteq_length, NoDup_submseteq.
      - assert (Hnd : NoDup (rest ++ act)) by (rewrite <- Hperm; apply NoDup_app; done). by apply NoDup_app in Hnd as (_ & _ & ?).
      - intros r Hr. apply elem_of_seq. destruct (Hopen r (Hmem r Hr)). lia. }
    rewrite take_active_spec; [|done|intros r Hr; by apply Hopen, Hmem]. rewrite filter_empty by (apply Forall_forall; intros r Hr Hn; by apply Hn).
    destruct (compute_pass st s act rest Hinv Hperm) as (s1 & s2 & out & Hrun & Hrec & Htt & Hinv' & Hmeas); [done|].
    eexists _, s2. split; [|split; [exact Hinv'|exact Hmeas]]. unfold act at 1. fold act.
    rewrite (bind_ok _ _ _ _ _ Hrun), (bind_ok _ _ _ _ _ Hrec). by rewrite Htt.
Qed.

(** Enough fuel takes the loop to its end. *)
Lemma late_loop_spec fuel : ∀ st s, late_inv st s → (measure st < fuel)%nat →
  ∃ st' s', late_loop cfg true prompts max_new_tokens eos_set arrival_ticks fuel st s = (s', Ok st') ∧ late_inv st' s' ∧
    ∀ r, (r < B)%nat → row_done st' !!! r = true ∨ length (generated_by_row st' !!! r) = max_new_tokens.
Proof using All.
  induction fuel as [|fuel IH]; intros st s Hinv Hf; [lia|]. cbn [late_loop]. destruct (existsb _ _) eqn:He.
  - destruct (pass_spec st s Hinv) as [(st' & s' & Hp & Hinv' & Hm)|(st' & Hp & Hinv' & Hnone)]; rewrite (bind_ok _ _ _ _ _ Hp).
    + apply IH; [done|lia].
    + exists st', s. split; [done|]. split; [done|]. intros r Hr. destruct Hinv' as [_ _ _ _ Hc _ _ _]. destruct (Hc r Hr) as [Hin|?]; [|done].
      rewrite Hnone in Hin. by apply elem_of_nil in Hin.
  - exists st, s. split; [done|]. split; [done|]. intros r Hr. right. destruct Hinv as [[Hgl _] Hprog _ _ _ _ _ _].
    destruct (Hprog r Hr) as (_ & Hle & _). destruct (lookup_lt_is_Some_2 (generated_by_row st) r) as [g Hg]; [lia|].
    rewrite (list_lookup_total_correct _ _ _ Hg) in *. destruct (decide (length g < max_new_tokens)%nat) as [Hlt|]; [|lia].
    exfalso. apply not_true_iff_false in He. apply He. apply existsb_exists. exists g. split; [|by apply Nat.ltb_lt].
    apply list_elem_of_In. by eapply list_elem_of_lookup_2.
Qed.

End late_proof.

Section late_theorem.
Context {E L : Type} `{TM : TargetModel E L} `{TML : !TargetModelLaws E L} `{LO : LogitsOps L}.

Lemma init_inv (slab : list (list E)) toks cap ml max_new_tokens eos_set ticks : (0 < max_new_tokens)%nat →
  sized cap slab → length slab = length toks →
  late_inv toks cap ml max_new_tokens eos_set (init_sched ((λ t : Z, [t]) <$> toks) ticks)
    (set_live_full (Z.of_nat (batch_size ((λ t : Z, [t]) <$> toks))) (new_session slab ml)).
Proof.
  intros Hmn Hs Hl. assert (Hb : batch_size ((λ t : Z, [t]) <$> toks) = length toks) by (unfold batch_size; by rewrite length_fmap).
  assert (Hba : by_arrival ((λ t : Z, [t]) <$> toks) ticks ≡ₚ seq 0 (length toks)) by (rewrite (by_arrival_perm ticks 0), length_fmap; done).
  assert (Hrep : ∀ {A} `{!Inhabited A} (x : A) r, (r < length toks)%nat → replicate (length toks) x !!! r = x).
  { intros A ? x r Hr. apply list_lookup_total_correct. by apply lookup_replicate_2. }
  assert (Hctx : ∀ r, context toks (replicate (length toks) []) r = []).
  { intros r. unfold context. destruct (decide (r < length toks)%nat); [by rewrite Hrep|].
    rewrite (list_lookup_total_alt (replicate _ _)), (proj2 (lookup_ge_None _ _)) by (rewrite length_replicate; lia). done. }
  unfold init_sched. rewrite Hb. split; cbn [generated_by_row row_done pending active active_set tick].
  - by rewrite !length_replicate.
  - intros r Hr. rewrite !Hrep by done. split; [done|]. cbn. split; [lia|done].
  - rewrite app_nil_r, Hba. apply NoDup_seq.
  - intros r. rewrite app_nil_r, Hba, elem_of_seq. intros Hr. rewrite !Hrep by lia. cbn. split; [lia|done].
  - intros r Hr. left. rewrite app_nil_r, Hba. apply elem_of_seq. lia.
  - done.
  - split; try done.
    + split; [done|]. split; [intros r Hr; by rewrite Hctx|by left].
    + intros r cached _. by rewrite Hctx.
  - cbn. done.
Qed.

Lemma to_come_init n max_new_tokens : to_come max_new_tokens (replicate n []) = (n * max_new_tokens)%nat.
Proof. unfold to_come. induction n as [|n IH]; [done|]. cbn [replicate sum_list_with length]. rewrite IH. lia. Qed.

(** C32: Rows with a prompt of one token that arrive at any ticks: each row of the result continues its own
    prompt greedily up to its first end-of-sequence token and is filled up with its prompt's token,
    whatever the arrivals of the others. The scheduler ends within two passes for every token of
    the batch, and two more. *)
Theorem late_arrivals_are_greedy cfg (toks : list Z) (cap : nat) (slab : list (list E)) ml (max_new_tokens : nat) eos_set ticks fuel :
  chunking_wf cfg → toks ≠ [] → sized cap slab → length slab = length toks → (max_new_tokens ≤ cap)%nat → Z.of_nat max_new_tokens ≤ ml →
  length ticks = length toks → Forall (λ t, 0 ≤ t) ticks → Exists (λ t, 0 < t) ticks → (2 * (length toks * max_new_tokens) + 1 < fuel)%nat →
  ∃ s, live_generate cfg true fuel (Some (Z.of_nat max_new_tokens)) None eos_set (Some ticks) ((λ t, [t]) <$> toks) (new_session slab ml) =
    (s, Ok ((λ t, let g := up_to_eos eos_set (greedy max_new_tokens [t]) in t :: g ++ replicate (max_new_tokens - length g) t) <$> toks)).
Proof using TML.
  intros Hcf Hne Hs Hl Hcap Hml Hlt Hpos Hlate Hfuel. set (prompts := (λ t, [t]) <$> toks).
  assert (Hlp : length prompts = length toks) by (unfold prompts; by rewrite length_fmap).
  set (s0 := set_live_full (Z.of_nat (batch_size prompts)) (new_session slab ml)).
  assert (Hloop : ∃ st' s', late_loop cfg true prompts max_new_tokens eos_set ticks fuel (init_sched prompts ticks) s0 = (s', Ok st') ∧
    ∀ r t, toks !! r = Some t → generated_by_row st' !! r = Some (up_to_eos eos_set (greedy max_new_tokens [t]))).
  { destruct max_new_tokens as [|n].
    - exists (init_sched prompts ticks), s0. assert (Hex : ∀ l : list (list Z), existsb (λ tokens, (length tokens <? 0)%nat) l = false) by (induction l; done).
      split; [destruct fuel; cbn [late_loop]; by rewrite Hex|]. intros r t Ht. cbn. apply lookup_replicate_2. unfold batch_size. rewrite Hlp.
      by apply lookup_lt_Some in Ht.
    - pose proof (init_inv slab toks cap ml (S n) eos_set ticks ltac:(lia) Hs Hl) as Hinv. fold prompts s0 in Hinv.
      destruct (late_loop_spec cfg toks cap ml (S n) eos_set ticks Hcf Hne Hml Hcap fuel _ _ Hinv) as (st' & s' & Hrun & Hinv' & Hfin).
      { unfold measure. cbn [init_sched generated_by_row]. unfold batch_size. fold prompts. rewrite Hlp, to_come_init.
        assert (clock_moves ticks (init_sched prompts ticks) ≤ 1)%nat by apply clock_moves_le. lia. }
      exists st', s'. split; [done|]. intros r t Ht. apply lookup_lt_Some in Ht as Hr. destruct Hinv' as [[Hgl _] Hprog _ _ _ _ _ _].
      rewrite <- (list_lookup_total_correct _ _ _ Ht). erewrite <- finished_row; [|by apply Hprog|by apply Hfin].
      apply list_lookup_lookup_total_lt. lia. }
  destruct Hloop as (st' & s' & Hrun & Hrows). eexists. unfold live_generate.
  rewrite guard_pass by (unfold zlen; rewrite Hlp; destruct toks; [done|cbn; lia]). cbn [resolve_max_new_tokens]. rewrite lift_ok_bind, guard_pass by lia.
  replace (zlen ticks =? zlen prompts) with true by (unfold zlen; rewrite Hlp; lia).
  replace (existsb (λ t, t <? 0) ticks) with false.
  2:{ symmetry. apply not_true_iff_false. intros (x & Hx%list_elem_of_In & Hlt')%existsb_exists. rewrite Forall_forall in Hpos. specialize (Hpos x Hx). lia. }
  replace (existsb (λ t, 0 <? t) ticks) with true.
  2:{ symmetry. apply existsb_exists. apply Exists_exists in Hlate as (x & Hx & ?). exists x. split; [by apply list_elem_of_In|lia]. }
  replace (prompt_width prompts) with 1 by (unfold prompts; by destruct toks). cbn [negb orb Z.eqb Pos.eqb]. rewrite Nat2Z.id.
  unfold late_arrival_generate. rewrite modify_bind. fold s0. rewrite (bind_ok _ _ _ _ _ Hrun). rewrite modify_bind. unfold mret, M_ret. do 2 f_equal.
  apply list_eq. intros r. unfold output_rows. rewrite lookup_zip_with. unfold prompts. rewrite !list_lookup_fmap.
  destruct (toks !! r) as [t|] eqn:Ht; [|done]. rewrite (Hrows r t Ht). cbn [fmap option_fmap option_map mbind option_bind last default from_option id].
  f_equal. cbn [app]. f_equal. apply take_ge. rewrite length_app, length_replicate.
  assert (Hle : ∀ g, (length (up_to_eos eos_set g) ≤ length g)%nat) by (induction g as [|x g IH]; cbn; [done|]; destruct (is_eos _ _); cbn; lia).
  specialize (Hle (greedy max_new_tokens [t])). rewrite greedy_length in Hle. lia.
Qed.
End late_theorem.

(** ** On a small model *)

Section toy.
#[local] Existing Instance toy_model.
#[local] Existing Instance toy_logits.
#[local] Existing Instance toy_laws.

Lemma live_generation_matches_fast_witness :
  let '(s, r) := live_generate (E := Z) (L := Z) toy_chunking true 0 (Some 3) None [] None toy_prompts (new_session toy_slab 5) in
  (fast_generate_greedy (E := Z) (L := Z) toy_chunking (Some 3) None None [] toy_prompts (new_session toy_slab 5)).2 = r ∧
  ∀ out, r = Ok out →
    zlen <$> out = (λ row, zlen row + lr_total_decode_batches (live_continuous_batching_report true s)) <$> toy_prompts.
Proof. apply (live_generation_matches_fast (E := Z) (L := Z) toy_chunking [] toy_prompts 3 toy_slab 5 0 None); [done|by repeat constructor|lia|by left]. Defined.

Lemma late_arrivals_are_greedy_witness : ∃ s,
  live_generate (E := Z) (L := Z) toy_chunking true 20 (Some 3) None [6] (Some [2; 0; 2]) [[3]; [4]; [5]] (new_session (replicate 3 (replicate 8 0)) 4) =
    (s, Ok ((λ t, let g := up_to_eos [6] (greedy (E := Z) (L := Z) 3 [t]) in t :: g ++ replicate (3 - length g) t) <$> [3; 4; 5])).
Proof.
  apply (late_arrivals_are_greedy toy_chunking [3; 4; 5] 8 (replicate 3 (replicate 8 0)) 4 3 [6] [2; 0; 2] 20);
    [done|done|by repeat constructor|done|lia|lia|done|by repeat constructor|by constructor|cbn; lia].
Defined.
End toy.
