(* ===== verification/GenerateCall.v ===== *)
(** * Which generator a call takes (client/remote_generation.py)

    [generate] of a remote model: the loop that reports its ticks when live batching is enabled and the
    call is plain, the fast loop when that is enabled and the call is plain, and the generator of
    transformers otherwise, which is a parameter here. The generic path runs in a session that may
    already have tokens: it hands all tokens to the generator and skips the ones that have run. *)

From stdpp Require Import numbers base strings list sets.
From Stdlib Require Import ZArith Lia ZifyBool.
From S2P Require Import Prelude Dict PyStr PyVal Observation SpecCache LiveSession RemoteGeneration.

Open Scope string_scope.
Open Scope list_scope.
Open Scope Z_scope.

(** ** Eligibility *)

(** The prompt of a call: nothing, a tensor of rank 2, or something else. *)
Inductive prompt_arg :=
| NoPrompt
| Rank2 (rows : list (list Z))
| OtherPrompt.

Definition _LIVE_CONTINUOUS_KNOWN_KWARGS : list string :=
  ["max_length"; "max_new_tokens"; "do_sample"; "pad_token_id"; "eos_token_id"; "bos_token_id"; "use_cache"; "num_beams";
   "num_return_sequences"; "return_dict_in_generate"; "attention_mask"; "logits_processor"; "stopping_criteria";
   "generation_config"; "live_arrival_ticks"].

Definition _FAST_GENERATE_KNOWN_KWARGS : list string :=
  ["max_length"; "max_new_tokens"; "do_sample"; "pad_token_id"; "eos_token_id"; "bos_token_id"; "use_cache";
   "output_hidden_states"; "output_attentions"; "return_dict_in_generate"; "past_key_values"].

(** [kwargs.get(k)] is given and not None. *)
Definition given (kwargs : metadata) (k : string) : bool := match get_some kwargs k with Some _ => true | None => false end.

(** [kwargs.get(k, False)] is true. *)
Definition flag (kwargs : metadata) (k : string) : bool := truthy (get_default kwargs k VNone).

(** [kwargs.get(k, 1) != 1] *)
Definition not_one (kwargs : metadata) (k : string) : bool := negb (py_eqb (get_default kwargs k (VInt 1)) (VInt 1)).

Definition unknown_kwargs (kwargs : metadata) (known : list string) : list string :=
  filter (λ k, k ∉ known) (dict_keys kwargs).

(** The identity of a session. *)
Abbreviation session_id := nat (only parsing).

(** [_live_continuous_generate_eligible], for the class's own implementation *)
Definition live_continuous_generate_eligible (env : environ) (inputs : prompt_arg) (has_args : bool) (kwargs : metadata)
    (active_session session : option session_id) (tuning_mode : value) : bool :=
  if negb (flag_set env LIVE_CONTINUOUS_BATCHING_ENV_FLAG) then false
  else
    match inputs with
    | Rank2 rows =>
        if zlen rows <? 1 then false
        else if (let max_batch_raw := env_get env "BLOOMBEE_LIVE_CONTINUOUS_MAX_BATCH_SIZE" "" in
                 if String.eqb max_batch_raw "" then false
                 else match py_int max_batch_raw with Some n => n <? zlen rows | None => true end) then false
        else if has_args then false
        else if (match active_session with Some _ => negb (bool_decide (session = active_session)) | None => false end) then false
        else if flag kwargs "do_sample" then false
        else if not_one kwargs "num_beams" then false
        else if not_one kwargs "num_return_sequences" then false
        else if given kwargs "attention_mask" then false
        else if flag kwargs "logits_processor" then false
        else if flag kwargs "stopping_criteria" then false
        else if flag kwargs "return_dict_in_generate" then false
        else if given kwargs "generation_config" then false
        else if negb (bool_decide (unknown_kwargs kwargs _LIVE_CONTINUOUS_KNOWN_KWARGS = [])) then false
        else if negb (given kwargs "max_new_tokens") && negb (given kwargs "max_length") then false
        else negb (truthy tuning_mode)
    | _ => false
    end.

(** [_fast_generate_eligible] *)
Definition fast_generate_eligible (_FAST_GENERATE_ENABLED : bool) (inputs : prompt_arg) (has_args : bool) (kwargs : metadata)
    (tuning_mode : value) : bool :=
  if negb _FAST_GENERATE_ENABLED then false
  else
    match inputs with
    | Rank2 rows =>
        if has_args then false
        else if flag kwargs "do_sample" then false
        else if not_one kwargs "num_beams" then false
        else if not_one kwargs "num_return_sequences" then false
        else if given kwargs "attention_mask" then false
        else if flag kwargs "logits_processor" then false
        else if flag kwargs "stopping_criteria" then false
        else if flag kwargs "output_hidden_states" || flag kwargs "output_attentions" then false
        else if flag kwargs "return_dict_in_generate" then false
        else if given kwargs "generation_config" then false
        else if negb (bool_decide (unknown_kwargs kwargs ("generation_config" :: _FAST_GENERATE_KNOWN_KWARGS) = [])) then false
        else if negb (given kwargs "max_new_tokens") && negb (given kwargs "max_length") then false
        else negb (truthy tuning_mode)
    | _ => false
    end.

(** [_fix_generate_kwargs] *)
Definition fix_generate_kwargs (kwargs : metadata) : metadata :=
  let kwargs := match dict_get kwargs "max_length" with Some VNone => dict_del kwargs "max_length" | _ => kwargs end in
  match dict_get kwargs "do_sample" with
  | Some (VInt n) => dict_set kwargs "do_sample" (VBool (truthy (VInt n)))
  | Some (VBool b) => dict_set kwargs "do_sample" (VBool b)
  | _ => kwargs
  end.

Inductive route := LiveRoute | FastRoute | GenericRoute.

(** The choice of [generate], after it has fixed the keyword arguments. *)
Definition choose_route (env : environ) (_FAST_GENERATE_ENABLED : bool) (inputs : prompt_arg) (has_args : bool) (kwargs : metadata)
    (active_session session : option session_id) (tuning_mode : value) : route :=
  let kwargs := fix_generate_kwargs kwargs in
  if live_continuous_generate_eligible env inputs has_args kwargs active_session session tuning_mode then LiveRoute
  else if fast_generate_eligible _FAST_GENERATE_ENABLED inputs has_args kwargs tuning_mode then FastRoute
  else GenericRoute.

(** The length of a new session of the generic path. *)
Definition session_max_length (pre_seq_len : Z) (max_length max_new_tokens : option Z) (input_width : Z) : res Z :=
  match max_length, max_new_tokens with
  | Some m, None => Ok (pre_seq_len + m)
  | None, Some n => Ok (pre_seq_len + (input_width + n))
  | _, _ => Raise AssertionError
  end.

(** ** The generic path in its session *)

Section generic.
Context {E : Type}.
(** The generator of transformers: it sees all tokens and may call the session, after [skipped]
    positions; the first argument is the position the cache object reports. *)
Context (hf_generate : Z → Z → list (list Z) → M (session E) (list (list Z))).

(** [RemotePastKeyValues.get_seq_length] after [update_seen]. *)
Definition seen_tokens (session_position : Z) : Z := session_position.

(** The body of [generate] from [with context_manager] on. *)
Definition generic_generate (inputs : option (list (list Z))) : M (session E) (list (list Z)) :=
  s ← get;
  let n_prev_tokens := match output_ids s with Some prev => prompt_width prev | None => 0 end in
  let '(inputs, skipped) :=
    if 0 <? n_prev_tokens then
      (match inputs with
       | Some rows => zip_with app (default [] (output_ids s)) rows
       | None => default [] (output_ids s)
       end, Z.max 0 (n_prev_tokens - 1))
    else (default [] inputs, 0) in
  sequences ← hf_generate (seen_tokens (position s)) skipped inputs;
  modify (set_output_ids sequences);;
  mret ((λ row, drop (Z.to_nat n_prev_tokens) row) <$> sequences).
End generic.

(** ** What the routes promise *)

(** The keyword arguments leave greedy decoding as it is. *)
Definition plain_greedy (kwargs : metadata) : Prop :=
  flag kwargs "do_sample" = false ∧ not_one kwargs "num_beams" = false ∧ not_one kwargs "num_return_sequences" = false ∧
  given kwargs "attention_mask" = false ∧ flag kwargs "logits_processor" = false ∧ flag kwargs "stopping_criteria" = false ∧
  flag kwargs "return_dict_in_generate" = false ∧ given kwargs "generation_config" = false ∧
  (given kwargs "max_new_tokens" = true ∨ given kwargs "max_length" = true) ∧
  ∀ k, k ∈ dict_keys kwargs → k ∈ _LIVE_CONTINUOUS_KNOWN_KWARGS ++ _FAST_GENERATE_KNOWN_KWARGS.

Lemma known_kwargs kwargs known k : bool_decide (unknown_kwargs kwargs known = []) = true → k ∈ dict_keys kwargs → k ∈ known.
Proof.
  intros Hu%bool_decide_eq_true Hk. destruct (decide (k ∈ known)) as [|Hn]; [done|]. exfalso.
  assert (Hin : k ∈ unknown_kwargs kwargs known) by (unfold unknown_kwargs; by rewrite list_elem_of_filter). rewrite Hu in Hin. by apply elem_of_nil in Hin.
Qed.

#[local] Ltac split_guards Hel :=
  repeat match type of Hel with
  | (if ?b then false else _) = true => let Hb := fresh "Hb" in destruct b eqn:Hb; [discriminate Hel|]
  end.

Lemma live_is_plain env inputs has_args kwargs active_session session tuning_mode :
  live_continuous_generate_eligible env inputs has_args kwargs active_session session tuning_mode = true →
  (∃ rows, inputs = Rank2 rows) ∧ has_args = false ∧ truthy tuning_mode = false ∧ plain_greedy kwargs.
Proof.
  unfold live_continuous_generate_eligible. intros Hel. split_guards Hel. destruct inputs as [|rows|]; [done| |done]. split_guards Hel.
  split; [eauto|]. split; [done|]. split; [by destruct (truthy tuning_mode)|]. unfold plain_greedy. repeat (split; [done|]). split.
  - match goal with H : negb _ && negb _ = false |- _ => apply andb_false_iff in H as [H|H]; apply negb_false_iff in H; [by left|by right] end.
  - intros k Hk. apply elem_of_app. left. eapply known_kwargs; [|done]. by apply negb_false_iff.
Qed.

Lemma fast_is_plain fast inputs has_args kwargs tuning_mode : fast_generate_eligible fast inputs has_args kwargs tuning_mode = true →
  (∃ rows, inputs = Rank2 rows) ∧ has_args = false ∧ truthy tuning_mode = false ∧ plain_greedy kwargs.
Proof.
  unfold fast_generate_eligible. intros Hel. split_guards Hel. destruct inputs as [|rows|]; [done| |done]. split_guards Hel.
  split; [eauto|]. split; [done|]. split; [by destruct (truthy tuning_mode)|]. unfold plain_greedy. repeat (split; [done|]). split.
  - match goal with H : negb _ && negb _ = false |- _ => apply andb_false_iff in H as [H|H]; apply negb_false_iff in H; [by left|by right] end.
  - intros k Hk. assert (Hin : k ∈ "generation_config" :: _FAST_GENERATE_KNOWN_KWARGS) by (eapply known_kwargs; [|done]; by apply negb_false_iff).
    apply elem_of_app. apply elem_of_cons in Hin as [->|Hin]; [left|by right]. unfold _LIVE_CONTINUOUS_KNOWN_KWARGS. set_solver.
Qed.

(** A call that bypasses the generator of transformers has a prompt of rank 2, no positional
    arguments, a length, and asks for nothing but greedy decoding: no sampling, beams, masks,
    processors, criteria or configuration, no argument the loops do not know, and no tuned prefix. *)
Lemma bypass_is_plain_greedy env fast inputs has_args kwargs active_session session tuning_mode :
  choose_route env fast inputs has_args kwargs active_session session tuning_mode ≠ GenericRoute →
  (∃ rows, inputs = Rank2 rows) ∧ has_args = false ∧ truthy tuning_mode = false ∧ plain_greedy (fix_generate_kwargs kwargs).
Proof.
  unfold choose_route. destruct (live_continuous_generate_eligible _ _ _ _ _ _ _) eqn:Hl; [intros _; by eapply live_is_plain|].
  destruct (fast_generate_eligible _ _ _ _ _) eqn:Hf; [intros _; by eapply fast_is_plain|done].
Qed.

Definition plain_call : metadata := [("max_new_tokens", VInt 4); ("do_sample", VInt 0); ("max_length", VNone)].

Lemma bypass_is_plain_greedy_witness :
  choose_route (λ _, None) true (Rank2 [[3; 4]]) false plain_call None None VNone = FastRoute ∧ plain_greedy (fix_generate_kwargs plain_call).
Proof.
  split; [reflexivity|].
  apply (bypass_is_plain_greedy (λ _, None) true (Rank2 [[3; 4]]) false plain_call None None VNone). vm_compute. discriminate.
Defined.

(** A generator that extends the tokens it is given returns the new prompt and the new tokens. *)
Lemma generic_returns_new_tokens {E} hf_generate (s s' : session E) prev rows new : output_ids s = Some prev → 0 < prompt_width prev →
  sized (Z.to_nat (prompt_width prev)) prev → length rows = length prev → length new = length prev →
  hf_generate (position s) (prompt_width prev - 1) (zip_with app prev rows) s = (s', Ok (zip_with app (zip_with app prev rows) new)) →
  generic_generate hf_generate (Some rows) s = (set_output_ids (zip_with app (zip_with app prev rows) new) s', Ok (zip_with app rows new)).
Proof.
  intros Ho Hw Hs Hr Hn Hg. unfold generic_generate. rewrite get_bind, Ho. rewrite (proj2 (Z.ltb_lt _ _)) by done. cbn [default from_option id].
  rewrite Z.max_r by lia. unfold seen_tokens. rewrite (bind_ok _ _ _ _ _ Hg), modify_bind. unfold mret, M_ret. do 2 f_equal.
  apply list_eq. intros i. rewrite list_lookup_fmap, !lookup_zip_with. unfold sized in Hs. rewrite Forall_lookup in Hs.
  destruct (prev !! i) as [p|] eqn:Hp.
  - destruct (rows !! i) as [r|], (new !! i) as [n|]; try done. cbn. rewrite <- app_assoc, drop_app_length'; [done|]. by rewrite (Hs i p Hp).
  - apply lookup_ge_None in Hp. rewrite (proj2 (lookup_ge_None rows i)) by lia. done.
Qed.
