(* ===== verification/Bytes.v ===== *)
(** * Byte strings

    What the wire formats use of [bytes]: big-endian integers ([struct] formats "!B",
    "!I", "!Q"), prefixes, and extended slices [b[i::k]] read and assigned. *)

From stdpp Require Import numbers base list.
From Stdlib Require Import ZArith Lia.
From Stdlib Require Strings.Byte.
From S2P Require Import Prelude.

Notation byte := Byte.byte.
Notation bytes := (list Byte.byte).

#[export] Instance byte_eq_dec : EqDecision byte := Strings.Byte.byte_eq_dec.

Definition byte_of_Z (z : Z) : byte := default Byte.x00 (Byte.of_N (Z.to_N z)).
Definition Z_of_byte (b : byte) : Z := Z.of_N (Byte.to_N b).

(** The [w] bytes of [z], most significant first. *)
Fixpoint be_bytes (w : nat) (z : Z) : bytes :=
  match w with
  | O => []
  | S w => be_bytes w (z / 256) ++ [byte_of_Z (z mod 256)]
  end.
Definition be_val (b : bytes) : Z := foldl (λ a x, 256 * a + Z_of_byte x) 0 b.

(** [struct.pack] of one unsigned field of [w] bytes. *)
Definition pack_uint (w : nat) (z : Z) : res bytes :=
  if (0 <=? z) && (z <? 256 ^ Z.of_nat w) then Ok (be_bytes w z) else Raise StructError.

(** [b.startswith(p)] *)
Definition startswith (p b : bytes) : bool := bool_decide (take (length p) b = p).

Section stride.
Context {A : Type}.

(** [l[skip::k]] *)
Fixpoint stride (skip k : nat) (l : list A) : list A :=
  match l with
  | [] => []
  | x :: l' => match skip with O => x :: stride (k - 1) k l' | S s => stride s k l' end
  end.

(** [l[skip::k] = vs], None when the sizes differ (ValueError). *)
Fixpoint assign_stride (skip k : nat) (vs l : list A) : option (list A) :=
  match l with
  | [] => match vs with [] => Some [] | _ => None end
  | x :: l' =>
      match skip with
      | O => match vs with
             | v :: vs' => cons v <$> assign_stride (k - 1) k vs' l'
             | [] => None
             end
      | S s => cons x <$> assign_stride s k vs l'
      end
  end.

Lemma assign_stride_length skip k vs l l' : assign_stride skip k vs l = Some l' → length l' = length l.
Proof.
  revert skip vs l'. induction l as [|x l IH]; intros skip vs l'; simpl.
  - destruct vs; [|done]. by intros [= <-].
  - destruct skip; [destruct vs; [done|]|]; intros (m & Hm & ->)%fmap_Some; simpl; f_equal; by eapply IH.
Qed.
End stride.

Lemma byte_roundtrip z : 0 ≤ z < 256 → Z_of_byte (byte_of_Z z) = z.
Proof.
  intros Hz. unfold Z_of_byte, byte_of_Z.
  destruct (Byte.of_N (Z.to_N z)) as [b|] eqn:E; simpl.
  - apply Byte.to_of_N in E. rewrite E. lia.
  - apply Byte.of_N_None_iff in E. lia.
Qed.

Lemma Z_of_byte_bound b : 0 ≤ Z_of_byte b < 256.
Proof. unfold Z_of_byte. pose proof (Byte.to_N_bounded b). lia. Qed.

Lemma be_bytes_length w z : length (be_bytes w z) = w.
Proof. revert z. induction w as [|w IH]; intros z; simpl; [done|]. rewrite length_app, IH. simpl. lia. Qed.

Lemma be_roundtrip w z : 0 ≤ z < 256 ^ Z.of_nat w → be_val (be_bytes w z) = z.
Proof.
  unfold be_val. revert z. induction w as [|w IH]; intros z Hz; simpl; [change (256 ^ Z.of_nat 0) with 1 in Hz; lia|].
  rewrite Nat2Z.inj_succ, Z.pow_succ_r in Hz by lia.
  rewrite foldl_app. simpl. rewrite IH.
  - rewrite byte_roundtrip by (apply Z.mod_pos_bound; lia). pose proof (Z.div_mod z 256 ltac:(lia)). lia.
  - split; [apply Z.div_pos; lia|]. apply Z.div_lt_upper_bound; lia.
Qed.

Lemma pack_uint_Ok w z b : pack_uint w z = Ok b → b = be_bytes w z ∧ 0 ≤ z < 256 ^ Z.of_nat w.
Proof.
  unfold pack_uint. destruct (_ && _) eqn:E; [|done]. intros [= <-].
  apply andb_true_iff in E as [?%Z.leb_le ?%Z.ltb_lt]. done.
Qed.

Lemma startswith_app p b : startswith p (p ++ b) = true.
Proof. unfold startswith. apply bool_decide_eq_true. by rewrite take_app_length. Qed.
