(* ===== verification/LosslessTransport.v ===== *)
(** * The lossless transport wrapper (utils/lossless_transport.py)

    Serialized tensors cross the network wrapped in a header (magic, version,
    algorithm, original size) around a compressed payload: the whole buffer, or the
    high byte of every element and the other bytes as two streams. The compressors
    (zstandard with and without a dictionary, zlib, ZipNN) are an interface; the
    switches, the choice of a wrapper, the wire format and the decoders are the
    code's. The environment and the configuration file are fixed for a process, so
    the cached readers are functions of them. Timings, logs and statistics are left
    out. *)

From stdpp Require Import numbers base strings pretty list.
From Stdlib Require Import ZArith Ascii Lia.
From S2P Require Import Prelude Dict PyStr Bytes.

(** ** Switches *)

(** A value of the configuration file. *)
Inductive cfgval := CInt (n : Z) | CStr (s : string).

Definition cfg_int (v : cfgval) : option Z := match v with CInt n => Some n | CStr s => py_int s end.
(** [bool(int(v))], or [bool(v)] when that raises. *)
Definition cfg_bool (v : cfgval) : bool :=
  match cfg_int v with
  | Some n => negb (n =? 0)
  | None => match v with CInt n => negb (n =? 0) | CStr s => negb (String.eqb s "") end
  end.
Definition cfg_str (v : cfgval) : string := match v with CInt n => pretty n | CStr s => s end.

(** utils/lossless_wrapper_config.py *)
Definition lossless_wrapper_config (name : string) : option cfgval :=
  match name with
  | "ENABLE_LOSSLESS_WRAPPER" => Some (CInt 0)
  | "LOSSLESS_ALGO" => Some (CStr "zstd")
  | "LOSSLESS_LEVEL" => Some (CInt 1)
  | "LOSSLESS_LAYOUT" => Some (CStr "byte_split")
  | "LOSSLESS_SINGLE_PATH" => Some (CInt 1)
  | "LOSSLESS_LAYOUT_TARGETS" => Some (CStr "*:*:hidden_states")
  | "LOSSLESS_MIN_BYTES" => Some (CInt 49152)
  | "LOSSLESS_MIN_GAIN_BYTES" => Some (CInt 2048)
  | "ALLOW_ENV_OVERRIDE" => Some (CInt 1)
  | "COMP_ZIPNN_PROFILE" => Some (CInt 0)
  | _ => None
  end%string.

(** A process: its environment, its configuration module (None when the import
    failed) and its byte order. *)
Record process := mkProcess {
  p_env : environ;
  p_cfg : option (string → option cfgval);
  p_little_endian : bool;
}.

Definition get_env_bool (env : environ) (name dflt : string) : bool :=
  bool_decide (py_lower (py_strip (env_get env name dflt)) ∈ ["1"; "true"; "yes"; "on"]%string).

Definition get_env_int (env : environ) (name : string) (dflt : Z) : Z :=
  match env name with Some v => default dflt (py_int v) | None => dflt end.

Definition get_cfg (p : process) (name : string) (dflt : cfgval) : cfgval :=
  match p_cfg p with Some c => default dflt (c name) | None => dflt end.

Definition allow_env_override (p : process) : bool := cfg_bool (get_cfg p "ALLOW_ENV_OVERRIDE" (CInt 1)).

(** The environment variable, when it may override. *)
Definition override (p : process) (name : string) : bool :=
  allow_env_override p && match p_env p name with Some _ => true | None => false end.

Definition lossless_send_enabled (p : process) : bool :=
  let cfg_val := get_cfg p "ENABLE_LOSSLESS_WRAPPER" (CInt 0) in
  if override p "BLOOMBEE_LOSSLESS_WRAPPER" then get_env_bool (p_env p) "BLOOMBEE_LOSSLESS_WRAPPER" "0"
  else cfg_bool cfg_val.

(** A string setting: the environment's or the file's, stripped and lower-cased. *)
Definition string_setting (p : process) (cfg_name : string) (dflt : string) (env_name : string) : string :=
  let cfg_val := cfg_str (get_cfg p cfg_name (CStr dflt)) in
  let v := if allow_env_override p then env_get (p_env p) env_name cfg_val else cfg_val in
  py_lower (py_strip v).

Definition lossless_algo (p : process) : string :=
  string_setting p "LOSSLESS_ALGO" "zstd" "BLOOMBEE_LOSSLESS_ALGO".
Definition lossless_layout (p : process) : string :=
  string_setting p "LOSSLESS_LAYOUT" "byte_split" "BLOOMBEE_LOSSLESS_LAYOUT".

Definition lossless_level (p : process) : Z :=
  let cfg_val := get_cfg p "LOSSLESS_LEVEL" (CInt 1) in
  if override p "BLOOMBEE_LOSSLESS_LEVEL" then get_env_int (p_env p) "BLOOMBEE_LOSSLESS_LEVEL" 1
  else default 3 (cfg_int cfg_val).

Definition lossless_single_path_enabled (p : process) : bool :=
  let cfg_val := get_cfg p "LOSSLESS_SINGLE_PATH" (CInt 1) in
  if override p "BLOOMBEE_LOSSLESS_SINGLE_PATH" then get_env_bool (p_env p) "BLOOMBEE_LOSSLESS_SINGLE_PATH" "1"
  else cfg_bool cfg_val.

Definition lossless_min_bytes (p : process) : Z :=
  let cfg_val := get_cfg p "LOSSLESS_MIN_BYTES" (CInt 4096) in
  if override p "BLOOMBEE_LOSSLESS_MIN_BYTES"
  then Z.max 0 (get_env_int (p_env p) "BLOOMBEE_LOSSLESS_MIN_BYTES" 4096)
  else match cfg_int cfg_val with Some n => Z.max 0 n | None => 4096 end.

Definition lossless_min_gain_bytes (p : process) : Z :=
  let cfg_val := get_cfg p "LOSSLESS_MIN_GAIN_BYTES" (CInt 32) in
  if override p "BLOOMBEE_LOSSLESS_MIN_GAIN_BYTES"
  then Z.max 0 (get_env_int (p_env p) "BLOOMBEE_LOSSLESS_MIN_GAIN_BYTES" 32)
  else match cfg_int cfg_val with Some n => Z.max 0 n | None => 32 end.

Definition max_decoded_bytes (p : process) : Z :=
  Z.max 1 (get_env_int (p_env p) "BLOOMBEE_LOSSLESS_MAX_DECODED_BYTES" (Z.shiftl 1 30)).

(** ** Which tensors *)

(** What the caller says of the tensor: source, channel, tensor_name, phase, blocks. *)
Definition debug_context : Type := option (dict string string).

(** [str(debug_context.get(key, "")).strip()], "" without a context *)
Definition context_value (ctx : debug_context) (key : string) : string :=
  match ctx with
  | Some d => py_strip (default ""%string (dict_get d key))
  | None => ""%string
  end.
Definition no_context (ctx : debug_context) : bool := match ctx with Some (_ :: _) => false | _ => true end.

Definition match_target_pattern (actual pattern : string) : bool :=
  bool_decide (pattern ∈ ["*"; ""]%string) || String.eqb actual pattern.

Definition context_matches_target_specs (ctx : debug_context) (target_specs : list string) : bool :=
  if no_context ctx then false
  else
    let source := py_lower (context_value ctx "source") in
    let channel := py_lower (context_value ctx "channel") in
    let tensor_name := py_lower (context_value ctx "tensor_name") in
    existsb (λ spec,
      match py_split ":"%char spec with
      | [a; b; c] =>
          match_target_pattern source a && match_target_pattern channel b && match_target_pattern tensor_name c
      | _ => false
      end) target_specs.

Definition lossless_layout_targets (p : process) : list string :=
  let cfg_val := cfg_str (get_cfg p "LOSSLESS_LAYOUT_TARGETS" (CStr "*:*:hidden_states")) in
  let v := if allow_env_override p then env_get (p_env p) "BLOOMBEE_LOSSLESS_LAYOUT_TARGETS" cfg_val else cfg_val in
  py_lower <$> split_items v.

Definition context_matches_lossless_layout_target (p : process) (ctx : debug_context) : bool :=
  context_matches_target_specs ctx (lossless_layout_targets p).

Definition lossless_hybrid_dict_blocks (p : process) : list string :=
  split_items (env_get (p_env p) "BLOOMBEE_LOSSLESS_HYBRID_DICT_BLOCKS" "0:20").

Definition adaptive_hybrid_prefers_zstd_dict (p : process) (ctx : debug_context) : bool :=
  String.eqb (py_lower (context_value ctx "phase")) "prefill"
  && String.eqb (py_lower (context_value ctx "source")) "client"
  && String.eqb (py_lower (context_value ctx "channel")) "rpc_inference"
  && String.eqb (py_lower (context_value ctx "tensor_name")) "hidden_states"
  && bool_decide (context_value ctx "blocks" ∈ lossless_hybrid_dict_blocks p).

Inductive dtype := Float16 | BFloat16 | Float32 | OtherDtype (element_size : Z).
#[export] Instance dtype_eq_dec : EqDecision dtype.
Proof. solve_decision. Defined.

Record tensor_meta := mkMeta { t_dtype : dtype; t_numel : Z }.

Definition element_size (t : tensor_meta) : Z :=
  match t_dtype t with Float16 | BFloat16 => 2 | Float32 => 4 | OtherDtype n => n end.

Definition zipnn_dtype_name (d : dtype) : option string :=
  match d with
  | Float16 => Some "float16" | BFloat16 => Some "bfloat16" | Float32 => Some "float32" | OtherDtype _ => None
  end%string.

Definition wire_truncate_fp16_enabled (p : process) : bool := get_env_bool (p_env p) "BLOOMBEE_WIRE_TRUNCATE_FP16" "0".
Definition wire_truncate_targets (p : process) : list string :=
  py_lower <$> split_items (env_get (p_env p) "BLOOMBEE_WIRE_TRUNCATE_TARGETS" "client:rpc_inference:hidden_states").
Definition wire_truncate_phases (p : process) : list string :=
  py_lower <$> split_items (env_get (p_env p) "BLOOMBEE_WIRE_TRUNCATE_PHASES" "prefill,decode,spec_decode").

Definition context_matches_wire_target (p : process) (ctx : debug_context) : bool :=
  let phase := if no_context ctx then ""%string else py_lower (context_value ctx "phase") in
  let phases := wire_truncate_phases p in
  if negb (bool_decide (phases = [])) && negb (String.eqb phase "") && negb (bool_decide (phase ∈ phases))
  then false
  else context_matches_target_specs ctx (wire_truncate_targets p).

Definition should_wire_truncate_fp16 (p : process) (t : option tensor_meta) (ctx : debug_context) : bool :=
  if negb (wire_truncate_fp16_enabled p) then false
  else
    match t with
    | Some t => if decide (t_dtype t = Float32) then context_matches_wire_target p ctx else false
    | None => false
    end.

(** [compression_none]: the tensor was serialized without hivemind's own compression. *)
Definition supports_byte_split_layout (p : process) (t : option tensor_meta) (compression_none : bool)
    (raw_size : Z) (ctx : debug_context) : bool :=
  if negb (bool_decide (lossless_layout p ∈ ["byte_split"; "byte_split_high_only"]%string)) then false
  else if negb (bool_decide (lossless_algo p ∈
        ["zstd"; "zstd_dict"; "zstd_dict_byte_split"; "zstd_dict_byte_split_zstd";
         "adaptive_hybrid"; "hybrid_adaptive"; "phase_aware_dict"]%string)) then false
  else if negb (p_little_endian p) then false
  else if negb compression_none then false
  else
    match t with
    | None => false
    | Some t =>
        match t_dtype t with
        | OtherDtype _ => false
        | _ =>
            if negb (raw_size =? t_numel t * element_size t) then false
            else context_matches_lossless_layout_target p ctx
        end
    end.

(** ** Byte lanes *)

(** The high byte of every element, and the others in order. *)
Definition split_high_byte_lane (raw : bytes) (elem_size : Z) : res (bytes * bytes) :=
  if elem_size =? 2 then Ok (stride 1 2 raw, stride 0 2 raw)
  else if elem_size =? 4 then
    let extracted := stride 3 4 raw in
    let remaining := replicate (length raw - length extracted) Byte.x00 in
    remaining ← of_option ValueError (assign_stride 0 3 (stride 0 4 raw) remaining);
    remaining ← of_option ValueError (assign_stride 1 3 (stride 1 4 raw) remaining);
    remaining ← of_option ValueError (assign_stride 2 3 (stride 2 4 raw) remaining);
    Ok (extracted, remaining)
  else Raise ValueError.

Definition reconstruct_high_byte_lane (extracted remaining : bytes) (elem_size original_size : Z) : res bytes :=
  if (elem_size <=? 0) || negb (original_size mod elem_size =? 0) then Raise ValueError
  else
    let numel := original_size / elem_size in
    let extracted_size := numel in
    let remaining_size := original_size - extracted_size in
    if negb (zlen extracted =? extracted_size) then Raise ValueError
    else if negb (zlen remaining =? remaining_size) then Raise ValueError
    else
      let out := replicate (Z.to_nat original_size) Byte.x00 in
      if elem_size =? 2 then
        out ← of_option ValueError (assign_stride 0 2 remaining out);
        of_option ValueError (assign_stride 1 2 extracted out)
      else if elem_size =? 4 then
        out ← of_option ValueError (assign_stride 0 4 (stride 0 3 remaining) out);
        out ← of_option ValueError (assign_stride 1 4 (stride 1 3 remaining) out);
        out ← of_option ValueError (assign_stride 2 4 (stride 2 3 remaining) out);
        of_option ValueError (assign_stride 3 4 extracted out)
      else Raise ValueError.

(** ** Compressors *)

(** What [zlib.decompressobj().decompress(payload, limit)] returns and leaves. *)
Record zlib_out := mkZlibOut { z_raw : bytes; z_unconsumed_tail : bytes; z_eof : bool; z_unused_data : bytes }.

Class Codecs (D : Type) := {
  zstd : bool;                                     (** the package is importable *)
  zstd_level_ok : Z → bool;                        (** [ZstdCompressor(level)] does not raise *)
  zstd_compress : Z → bytes → res bytes;
  zstd_decompress : bytes → Z → res bytes;         (** with [max_output_size] *)
  zstd_dict : bytes → option D;                    (** [ZstdCompressionDict], None when it raises *)
  zstd_dict_compress : D → Z → bytes → res bytes;
  zstd_dict_decompress : D → bytes → Z → res bytes;
  zlib_compress : Z → bytes → res bytes;
  zlib_decompressobj : bytes → Z → res zlib_out;
  zipnn : bool;
  zipnn_compress : string → Z → bytes → res bytes;
  zipnn_decompress : bytes → res bytes;
  read_file : string → option bytes;
}.

Definition MAGIC : bytes := [Byte.x42; Byte.x42; Byte.x4c; Byte.x43].  (* BBLC *)
Definition VERSION : Z := 1.
Definition ALGO_ZSTD : Z := 1.
Definition ALGO_ZLIB : Z := 2.
Definition ALGO_ZSTD_BYTE_SPLIT : Z := 3.
Definition ALGO_ZIPNN : Z := 4.
Definition ALGO_ZSTD_DICT_BYTE_SPLIT : Z := 5.
Definition ALGO_ZSTD_BYTE_SPLIT_HIGH_ONLY : Z := 6.
Definition ALGO_ZSTD_DICT_BYTE_SPLIT_PREFILL : Z := 7.
Definition ALGO_ZSTD_DICT_BYTE_SPLIT_DECODE : Z := 8.
Definition HEADER_SIZE : nat := 14.
Definition BYTE_SPLIT_PAYLOAD_SIZE : nat := 5.

(** [struct.Struct("!4sBBQ").pack(_MAGIC, _VERSION, algo_id, original_size)] *)
Definition pack_header (algo_id original_size : Z) : res bytes :=
  v ← pack_uint 1 VERSION; a ← pack_uint 1 algo_id; s ← pack_uint 8 original_size;
  Ok (MAGIC ++ v ++ a ++ s).
(** [struct.Struct("!BI").pack(elem_size, size)] *)
Definition pack_payload (elem_size size : Z) : res bytes :=
  e ← pack_uint 1 elem_size; s ← pack_uint 4 size; Ok (e ++ s).

Section transport.
Context {D : Type} `{Codecs D}.

Definition lossless_zstd_dict_path (p : process) : string :=
  py_strip (env_get (p_env p) "BLOOMBEE_LOSSLESS_ZSTD_DICT_PATH" "").
Definition path_or_default (p : process) (name : string) : string :=
  let v := py_strip (env_get (p_env p) name "") in
  if String.eqb v "" then lossless_zstd_dict_path p else v.
Definition lossless_zstd_dict_path_prefill (p : process) : string :=
  path_or_default p "BLOOMBEE_LOSSLESS_ZSTD_DICT_PATH_PREFILL".
Definition lossless_zstd_dict_path_decode (p : process) : string :=
  path_or_default p "BLOOMBEE_LOSSLESS_ZSTD_DICT_PATH_DECODE".

Definition get_zstd_dict (dict_path : string) : option D :=
  if negb zstd || String.eqb dict_path "" then None
  else
    match read_file dict_path with
    | Some (b :: data) => zstd_dict (b :: data)
    | _ => None
    end.

(** The dictionary compressor of a level, None without a dictionary. *)
Definition get_zstd_dict_compressor (dict_path : string) (level : Z) : res (option D) :=
  match get_zstd_dict dict_path with
  | None => Ok None
  | Some d => if zstd_level_ok level then Ok (Some d) else Raise ValueError
  end.

Definition compress_with_algo (raw : bytes) (algo : string) (level : Z) : res (Z * bytes) :=
  if bool_decide (algo ∈ [""; "none"; "off"; "disabled"]%string) then Ok (0, raw)
  else if String.eqb algo "zstd" then
    if negb zstd then Ok (0, raw)
    else if negb (zstd_level_ok level) then Raise ValueError
    else compressed ← zstd_compress level raw; Ok (ALGO_ZSTD, compressed)
  else if String.eqb algo "zlib" then
    let zlib_level := Z.max (-1) (Z.min level 9) in
    compressed ← zlib_compress zlib_level raw; Ok (ALGO_ZLIB, compressed)
  else Ok (0, raw).

Definition compress_buffer (p : process) (raw : bytes) : res (Z * bytes) :=
  compress_with_algo raw (lossless_algo p) (lossless_level p).

Definition build_plain_wrapper (p : process) (raw : bytes) : res (Z * bytes) :=
  '(algo_id, compressed) ← compress_buffer p raw;
  if algo_id =? 0 then Ok (0, raw)
  else header ← pack_header algo_id (zlen raw); Ok (algo_id, header ++ compressed).

Definition build_zipnn_wrapper (p : process) (raw : bytes) (t : option tensor_meta) : res bytes :=
  dtype_name ← of_option ValueError (t ≫= λ t, zipnn_dtype_name (t_dtype t));
  if negb zipnn then Raise RuntimeError
  else
    payload ← zipnn_compress dtype_name (lossless_level p) raw;
    header ← pack_header ALGO_ZIPNN (zlen raw);
    Ok (header ++ payload).

Definition build_zstd_byte_split_wrapper (p : process) (raw : bytes) (elem_size : Z) : res bytes :=
  '(extracted_raw, remaining_raw) ← split_high_byte_lane raw elem_size;
  '(extracted_algo, extracted_comp) ← compress_with_algo extracted_raw "zstd" (lossless_level p);
  '(remaining_algo, remaining_comp) ← compress_with_algo remaining_raw "zstd" (lossless_level p);
  if negb (extracted_algo =? ALGO_ZSTD) || negb (remaining_algo =? ALGO_ZSTD) then Raise RuntimeError
  else
    sizes ← pack_payload elem_size (zlen extracted_comp);
    header ← pack_header ALGO_ZSTD_BYTE_SPLIT (zlen raw);
    Ok (header ++ sizes ++ extracted_comp ++ remaining_comp).

Definition build_zstd_byte_split_high_only_wrapper (p : process) (raw : bytes) (elem_size : Z) : res bytes :=
  '(extracted_raw, remaining_raw) ← split_high_byte_lane raw elem_size;
  '(extracted_algo, extracted_comp) ← compress_with_algo extracted_raw "zstd" (lossless_level p);
  if negb (extracted_algo =? ALGO_ZSTD) then Raise RuntimeError
  else
    sizes ← pack_payload elem_size (zlen extracted_comp);
    header ← pack_header ALGO_ZSTD_BYTE_SPLIT_HIGH_ONLY (zlen raw);
    Ok (header ++ sizes ++ extracted_comp ++ remaining_raw).

Definition build_dict_byte_split_wrapper_with (d : D) (level : Z) (raw : bytes) (elem_size algo_id : Z) : res bytes :=
  '(extracted_raw, remaining_raw) ← split_high_byte_lane raw elem_size;
  extracted_comp ← zstd_dict_compress d level extracted_raw;
  remaining_comp ← zstd_dict_compress d level remaining_raw;
  sizes ← pack_payload elem_size (zlen extracted_comp);
  header ← pack_header algo_id (zlen raw);
  Ok (header ++ sizes ++ extracted_comp ++ remaining_comp).

(** The three dictionary wrappers, by the path of their dictionary. *)
Definition build_dict_wrapper (p : process) (dict_path : string) (raw : bytes) (elem_size algo_id : Z) : res bytes :=
  compressor ← get_zstd_dict_compressor dict_path (lossless_level p);
  d ← of_option RuntimeError compressor;
  build_dict_byte_split_wrapper_with d (lossless_level p) raw elem_size algo_id.
Definition build_zstd_dict_byte_split_wrapper (p : process) (raw : bytes) (elem_size : Z) : res bytes :=
  build_dict_wrapper p (lossless_zstd_dict_path p) raw elem_size ALGO_ZSTD_DICT_BYTE_SPLIT.
Definition build_zstd_dict_byte_split_prefill_wrapper (p : process) (raw : bytes) (elem_size : Z) : res bytes :=
  build_dict_wrapper p (lossless_zstd_dict_path_prefill p) raw elem_size ALGO_ZSTD_DICT_BYTE_SPLIT_PREFILL.
Definition build_zstd_dict_byte_split_decode_wrapper (p : process) (raw : bytes) (elem_size : Z) : res bytes :=
  build_dict_wrapper p (lossless_zstd_dict_path_decode p) raw elem_size ALGO_ZSTD_DICT_BYTE_SPLIT_DECODE.

(** ** Decoders *)

Definition decompress_zlib_capped (payload : bytes) (original_size : Z) : res bytes :=
  if original_size <? 0 then Raise ValueError
  else
    o ← zlib_decompressobj payload (original_size + 1);
    if (original_size <? zlen (z_raw o)) || negb (zlen (z_unconsumed_tail o) =? 0) then Raise ValueError
    else if negb (z_eof o) then Raise ValueError
    else if negb (zlen (z_unused_data o) =? 0) then Raise ValueError
    else Ok (z_raw o).

Definition decompress_with_algo (algo_id : Z) (payload : bytes) (original_size : Z) : res bytes :=
  raw ← (if algo_id =? ALGO_ZSTD then
           if negb zstd then Raise RuntimeError else zstd_decompress payload original_size
         else if algo_id =? ALGO_ZLIB then decompress_zlib_capped payload original_size
         else if algo_id =? ALGO_ZIPNN then
           if negb zipnn then Raise RuntimeError else zipnn_decompress payload
         else Raise ValueError);
  if negb (zlen raw =? original_size) then Raise ValueError else Ok raw.

Definition decompress_buffer (algo_id : Z) (payload : bytes) (original_size : Z) : res bytes :=
  decompress_with_algo algo_id payload original_size.

(** The start of the three byte-split decoders: element size and the two segments. *)
Definition split_payload (payload : bytes) (original_size : Z) : res (Z * bytes * bytes) :=
  if zlen payload <? Z.of_nat BYTE_SPLIT_PAYLOAD_SIZE then Raise ValueError
  else
    let elem_size := be_val (take 1 payload) in
    let extracted_comp_size := be_val (take 4 (drop 1 payload)) in
    let extracted_start := Z.of_nat BYTE_SPLIT_PAYLOAD_SIZE in
    let extracted_end := extracted_start + extracted_comp_size in
    if zlen payload <? extracted_end then Raise ValueError
    else if negb (original_size mod Z.max 1 elem_size =? 0) then Raise ValueError
    else Ok (elem_size, py_slice payload extracted_start extracted_end, drop (Z.to_nat extracted_end) payload).

(** [original_size // elem_size] *)
Definition py_floordiv (a b : Z) : res Z := if b =? 0 then Raise ZeroDivisionError else Ok (a / b).

Definition decode_dict_byte_split_with (d : D) (payload : bytes) (original_size : Z) : res bytes :=
  '(elem_size, extracted_comp, remaining_comp) ← split_payload payload original_size;
  extracted_raw_size ← py_floordiv original_size elem_size;
  let remaining_raw_size := original_size - extracted_raw_size in
  extracted_raw ← zstd_dict_decompress d extracted_comp extracted_raw_size;
  remaining_raw ← zstd_dict_decompress d remaining_comp remaining_raw_size;
  reconstruct_high_byte_lane extracted_raw remaining_raw elem_size original_size.

Definition decode_with_dict (dict_path : string) (payload : bytes) (original_size : Z) : res bytes :=
  d ← of_option RuntimeError (get_zstd_dict dict_path);
  decode_dict_byte_split_with d payload original_size.

Definition decode_zstd_dict_byte_split_payload (p : process) (payload : bytes) (original_size : Z) : res bytes :=
  decode_with_dict (lossless_zstd_dict_path p) payload original_size.

Definition decode_zstd_dict_byte_split_phase_payload (p : process) (payload : bytes) (original_size : Z)
    (phase : string) : res bytes :=
  if String.eqb phase "prefill" then decode_with_dict (lossless_zstd_dict_path_prefill p) payload original_size
  else if String.eqb phase "decode" then decode_with_dict (lossless_zstd_dict_path_decode p) payload original_size
  else Raise ValueError.

Definition decode_zstd_byte_split_payload (payload : bytes) (original_size : Z) : res bytes :=
  '(elem_size, extracted_comp, remaining_comp) ← split_payload payload original_size;
  extracted_raw_size ← py_floordiv original_size elem_size;
  let remaining_raw_size := original_size - extracted_raw_size in
  extracted_raw ← decompress_with_algo ALGO_ZSTD extracted_comp extracted_raw_size;
  remaining_raw ← decompress_with_algo ALGO_ZSTD remaining_comp remaining_raw_size;
  reconstruct_high_byte_lane extracted_raw remaining_raw elem_size original_size.

Definition decode_zstd_byte_split_high_only_payload (payload : bytes) (original_size : Z) : res bytes :=
  '(elem_size, extracted_comp, remaining_raw) ← split_payload payload original_size;
  extracted_raw_size ← py_floordiv original_size elem_size;
  let remaining_raw_size := original_size - extracted_raw_size in
  if negb (zlen remaining_raw =? remaining_raw_size) then Raise ValueError
  else
    extracted_raw ← decompress_with_algo ALGO_ZSTD extracted_comp extracted_raw_size;
    reconstruct_high_byte_lane extracted_raw remaining_raw elem_size original_size.

(** [None]: not a wrapper. *)
Definition parse_wrapper (buffer : bytes) (strict : bool) : res (option (Z * Z * bytes)) :=
  if (length buffer <? HEADER_SIZE)%nat then Ok None
  else if negb (startswith MAGIC buffer) then Ok None
  else
    let version := be_val (take 1 (drop 4 buffer)) in
    let algo_id := be_val (take 1 (drop 5 buffer)) in
    let original_size := be_val (take 8 (drop 6 buffer)) in
    if negb (version =? VERSION) then (if strict then Raise ValueError else Ok None)
    else Ok (Some (algo_id, original_size, drop HEADER_SIZE buffer)).

(** ** Wrapping and unwrapping *)

(** A serialized tensor: its bytes and its other protobuf fields. *)
Record Tensor (F : Type) := mkTensor { buffer : bytes; fields : F }.
Arguments mkTensor {F} _ _.
Arguments buffer {F} _.
Arguments fields {F} _.

(** The runtime self-check on 4096 bytes of a fixed pattern. *)
Definition zipnn_probe : bytes := (λ k, byte_of_Z (Z.land (Z.of_nat k * 73 + 11) 255)) <$> seq 0 4096.
Definition zipnn_lossless_dtype_supported (dtype_name : string) : bool :=
  if negb zipnn then false
  else
    match zipnn_compress dtype_name 3 zipnn_probe with
    | Raise _ => false
    | Ok compressed =>
        match zipnn_decompress compressed with
        | Raise _ => false
        | Ok restored => bool_decide (restored = zipnn_probe)
        end
    end.

Definition supports_zipnn_transport (p : process) (t : option tensor_meta) (compression_none : bool)
    (raw_size : Z) (ctx : debug_context) : bool :=
  if negb zipnn then false
  else if negb compression_none then false
  else
    match t with
    | None => false
    | Some t =>
        match zipnn_dtype_name (t_dtype t) with
        | None => false
        | Some dtype_name =>
            if negb (raw_size =? t_numel t * element_size t) then false
            else if negb (context_matches_lossless_layout_target p ctx) then false
            else zipnn_lossless_dtype_supported dtype_name
        end
    end.

Definition zipnn_skip_reason (p : process) (t : option tensor_meta) (compression_none : bool)
    (raw_size : Z) (ctx : debug_context) : string :=
  (if negb zipnn then "zipnn_unavailable"
   else if negb compression_none then "zipnn_hivemind_compressed"
   else
     match t with
     | None => "zipnn_missing_tensor"
     | Some t =>
         match zipnn_dtype_name (t_dtype t) with
         | None => "zipnn_unsupported_dtype"
         | Some dtype_name =>
             if negb (raw_size =? t_numel t * element_size t)%Z then "zipnn_size_mismatch"
             else if negb (context_matches_lossless_layout_target p ctx) then "zipnn_target_mismatch"
             else if negb (zipnn_lossless_dtype_supported dtype_name) then "zipnn_lossless_verification_failed"
             else "zipnn_unsupported"
         end
     end)%string.

Definition candidate : Type := string * Z * bytes.

(** [try: candidates.append((label, algo_id, build())) except Exception: pass] *)
Definition try_candidate (label : string) (algo_id : Z) (build : res bytes) : list candidate :=
  match build with Ok w => [(label, algo_id, w)] | Raise _ => [] end.

Definition plain_candidate (p : process) (raw : bytes) : res (list candidate) :=
  '(algo_id, wrapped) ← build_plain_wrapper p raw;
  Ok (if algo_id =? 0 then [] else [("plain"%string, algo_id, wrapped)]).

(** The candidates of the selected algorithm, and the reason given when there is none. *)
Definition candidates_of (p : process) (raw : bytes) (t : option tensor_meta) (compression_none : bool)
    (ctx : debug_context) : res (list candidate * string) :=
  let selected_algo := lossless_algo p in
  let esize := match t with Some t => element_size t | None => 2 end in
  let split_ok := supports_byte_split_layout p t compression_none (zlen raw) ctx in
  let zipnn_ok := supports_zipnn_transport p t compression_none (zlen raw) ctx in
  let skip_reason := zipnn_skip_reason p t compression_none (zlen raw) ctx in
  let zipnn_try := if zipnn_ok then try_candidate "zipnn" ALGO_ZIPNN (build_zipnn_wrapper p raw t) else [] in
  let dict_try :=
    if split_ok
    then try_candidate "zstd_dict_byte_split" ALGO_ZSTD_DICT_BYTE_SPLIT (build_zstd_dict_byte_split_wrapper p raw esize)
    else [] in
  if String.eqb selected_algo "zipnn" then Ok (zipnn_try, skip_reason)
  else if bool_decide (selected_algo ∈ ["zstd_dict"; "zstd_dict_byte_split"; "zstd_dict_byte_split_zstd"]%string) then
    Ok (dict_try, "zstd_dict_byte_split_unsupported"%string)
  else if String.eqb selected_algo "phase_aware_dict" then
    let phase_val := if no_context ctx then ""%string else py_lower (context_value ctx "phase") in
    let dict_for path := get_zstd_dict_compressor path (lossless_level p) in
    first ← (if split_ok && String.eqb phase_val "prefill" then
               c ← dict_for (lossless_zstd_dict_path_prefill p);
               Ok (match c with
                   | Some _ => try_candidate "zstd_dict_byte_split_prefill" ALGO_ZSTD_DICT_BYTE_SPLIT_PREFILL
                                 (build_zstd_dict_byte_split_prefill_wrapper p raw esize)
                   | None => []
                   end)
             else if split_ok && String.eqb phase_val "decode" then
               c ← dict_for (lossless_zstd_dict_path_decode p);
               Ok (match c with
                   | Some _ => try_candidate "zstd_dict_byte_split_decode" ALGO_ZSTD_DICT_BYTE_SPLIT_DECODE
                                 (build_zstd_dict_byte_split_decode_wrapper p raw esize)
                   | None => []
                   end)
             else Ok []);
    let cands :=
      match first with
      | [] => if split_ok
              then try_candidate "byte_split" ALGO_ZSTD_BYTE_SPLIT (build_zstd_byte_split_wrapper p raw esize) else []
      | _ => first
      end in
    Ok (cands, "phase_aware_dict_unsupported"%string)
  else if bool_decide (selected_algo ∈ ["adaptive_hybrid"; "hybrid_adaptive"]%string) then
    let prefers := adaptive_hybrid_prefers_zstd_dict p ctx in
    let first := if prefers then dict_try else [] in
    let cands := match first with [] => zipnn_try | _ => first end in
    Ok (cands, if prefers then "adaptive_hybrid_dict_unsupported"%string else skip_reason)
  else
    let high_only := String.eqb (lossless_layout p) "byte_split_high_only" in
    let build_split :=
      if high_only then build_zstd_byte_split_high_only_wrapper p raw esize
      else build_zstd_byte_split_wrapper p raw esize in
    let split_label := (if high_only then "byte_split_high_only" else "byte_split")%string in
    let split_id := if high_only then ALGO_ZSTD_BYTE_SPLIT_HIGH_ONLY else ALGO_ZSTD_BYTE_SPLIT in
    cands ← (if lossless_single_path_enabled p && String.eqb selected_algo "zstd" && split_ok then
               match try_candidate split_label split_id build_split with
               | [] => plain_candidate p raw
               | cands => Ok cands
               end
             else
               plain ← plain_candidate p raw;
               Ok (plain ++ (if split_ok then try_candidate split_label split_id build_split else [])));
    Ok (cands, "compressor_not_applied"%string).

(** [min(candidates, key=lambda item: len(item[2]))]: the first of the shortest. *)
Definition shortest (c : candidate) (cs : list candidate) : candidate :=
  foldl (λ m c, if zlen c.2 <? zlen m.2 then c else m) c cs.

(** The tensor to send and the reason recorded. *)
Definition wrap_serialized_tensor_impl {F} (p : process) (st : Tensor F) (t : option tensor_meta)
    (compression_none : bool) (ctx : debug_context) : res (Tensor F * string) :=
  if negb (lossless_send_enabled p) then Ok (st, "disabled"%string)
  else
    let raw := buffer st in
    if (length raw =? 0)%nat then Ok (st, "empty"%string)
    else if zlen raw <? lossless_min_bytes p then Ok (st, "below_min_bytes"%string)
    else
      parsed ← parse_wrapper raw false;
      match parsed with
      | Some _ => Ok (st, "already_wrapped"%string)
      | None =>
          '(cands, none_reason) ← candidates_of p raw t compression_none ctx;
          match cands with
          | [] => Ok (st, none_reason)
          | c :: cs =>
              let wrapped_buffer := (shortest c cs).2 in
              if zlen raw <=? zlen wrapped_buffer + lossless_min_gain_bytes p then Ok (st, "min_gain_not_met"%string)
              else Ok (mkTensor wrapped_buffer (fields st), "applied"%string)
          end
      end.

Definition wrap_serialized_tensor {F} (p : process) (st : Tensor F) : res (Tensor F) :=
  '(wrapped, _) ← wrap_serialized_tensor_impl p st None true None;
  Ok wrapped.

Definition decode_payload (p : process) (algo_id original_size : Z) (payload : bytes) : res bytes :=
  if algo_id =? ALGO_ZSTD_BYTE_SPLIT then decode_zstd_byte_split_payload payload original_size
  else if algo_id =? ALGO_ZSTD_DICT_BYTE_SPLIT then decode_zstd_dict_byte_split_payload p payload original_size
  else if algo_id =? ALGO_ZSTD_DICT_BYTE_SPLIT_PREFILL then
    decode_zstd_dict_byte_split_phase_payload p payload original_size "prefill"
  else if algo_id =? ALGO_ZSTD_DICT_BYTE_SPLIT_DECODE then
    decode_zstd_dict_byte_split_phase_payload p payload original_size "decode"
  else if algo_id =? ALGO_ZSTD_BYTE_SPLIT_HIGH_ONLY then decode_zstd_byte_split_high_only_payload payload original_size
  else decompress_buffer algo_id payload original_size.

Definition unwrap_serialized_tensor {F} (p : process) (st : Tensor F) : res (Tensor F) :=
  parsed ← parse_wrapper (buffer st) true;
  match parsed with
  | None => Ok st
  | Some (algo_id, original_size, payload) =>
      if max_decoded_bytes p <? original_size then Raise ValueError
      else
        raw_buffer ← decode_payload p algo_id original_size payload;
        Ok (mkTensor raw_buffer (fields st))
  end.
End transport.
Arguments mkTensor {F} _ _.
Arguments buffer {F} _.
Arguments fields {F} _.

(** ** Proofs: byte lanes *)

Definition pairs (raw : bytes) : Prop := ∃ n, length raw = (2 * n)%nat.
Definition quads (raw : bytes) : Prop := ∃ n, length raw = (4 * n)%nat.

Lemma lanes2 n raw : length raw = (2 * n)%nat →
  length (stride 1 2 raw) = n ∧ length (stride 0 2 raw) = n ∧
  ∃ out, assign_stride 0 2 (stride 0 2 raw) (replicate (2 * n) Byte.x00) = Some out ∧
    assign_stride 1 2 (stride 1 2 raw) out = Some raw.
Proof.
  revert raw. induction n as [|n IH]; intros raw Hl.
  - destruct raw; [|simpl in Hl; lia]. split; [done|]. split; [done|]. by exists [].
  - destruct raw as [|a [|b raw]]; [simpl in Hl; lia|simpl in Hl; lia|].
    destruct (IH raw) as (H1 & H2 & out & H3 & H4); [simpl in Hl; lia|].
    replace (2 * S n)%nat with (S (S (2 * n))) by lia. simpl in *. split; [lia|]. split; [lia|].
    exists (a :: Byte.x00 :: out). rewrite H3. simpl. by rewrite H4.
Qed.

Lemma lanes4 n raw : length raw = (4 * n)%nat →
  length (stride 3 4 raw) = n ∧
  ∃ r1 r2 rem, assign_stride 0 3 (stride 0 4 raw) (replicate (3 * n) Byte.x00) = Some r1 ∧
    assign_stride 1 3 (stride 1 4 raw) r1 = Some r2 ∧ assign_stride 2 3 (stride 2 4 raw) r2 = Some rem ∧
    length rem = (3 * n)%nat ∧
    ∃ o1 o2 o3, assign_stride 0 4 (stride 0 3 rem) (replicate (4 * n) Byte.x00) = Some o1 ∧
      assign_stride 1 4 (stride 1 3 rem) o1 = Some o2 ∧ assign_stride 2 4 (stride 2 3 rem) o2 = Some o3 ∧
      assign_stride 3 4 (stride 3 4 raw) o3 = Some raw.
Proof.
  revert raw. induction n as [|n IH]; intros raw Hl.
  - destruct raw; [|simpl in Hl; lia]. split; [done|]. exists [], [], []. split; [done|]. split; [done|]. split; [done|].
    split; [done|]. by exists [], [], [].
  - destruct raw as [|a [|b [|c [|d raw]]]]; [simpl in Hl; lia..|].
    destruct (IH raw) as (H1 & r1 & r2 & rem & R1 & R2 & R3 & Hrl & o1 & o2 & o3 & O1 & O2 & O3 & O4); [simpl in Hl; lia|].
    replace (3 * S n)%nat with (S (S (S (3 * n)))) by lia. replace (4 * S n)%nat with (S (S (S (S (4 * n))))) by lia.
    simpl in *. split; [lia|].
    exists (a :: Byte.x00 :: Byte.x00 :: r1), (a :: b :: Byte.x00 :: r2), (a :: b :: c :: rem).
    rewrite R1. simpl. rewrite R2. simpl. rewrite R3. simpl. split; [done|]. split; [done|]. split; [done|].
    split; [lia|].
    exists (a :: Byte.x00 :: Byte.x00 :: Byte.x00 :: o1), (a :: b :: Byte.x00 :: Byte.x00 :: o2), (a :: b :: c :: Byte.x00 :: o3).
    rewrite O1. simpl. rewrite O2. simpl. rewrite O3. simpl. rewrite O4. done.
Qed.

(** A whole number of elements of a size the lanes support. *)
Definition elements_of (e : Z) (raw : bytes) : Prop := (e = 2 ∨ e = 4) ∧ zlen raw mod e = 0.

Lemma lanes_roundtrip e raw ex rem :
  elements_of e raw → split_high_byte_lane raw e = Ok (ex, rem) →
  zlen ex = zlen raw / e ∧ zlen rem = zlen raw - zlen raw / e ∧
  reconstruct_high_byte_lane ex rem e (zlen raw) = Ok raw.
Proof.
  intros [He Hm]. set (n := Z.to_nat (zlen raw / e)).
  assert (length raw = (Z.to_nat e * n)%nat) as Hl.
  { unfold n. pose proof (Z.div_mod (zlen raw) e ltac:(lia)). pose proof (zlen_nonneg raw).
    assert (0 ≤ zlen raw / e) by (apply Z.div_pos; lia). unfold zlen in *. nia. }
  assert (zlen raw / e = Z.of_nat n) as Hd.
  { unfold n. rewrite Z2Nat.id; [done|]. pose proof (zlen_nonneg raw). apply Z.div_pos; lia. }
  unfold split_high_byte_lane, reconstruct_high_byte_lane. rewrite Hd.
  destruct He as [-> | ->]; cbn [Z.eqb Pos.eqb] in *.
  - change (Z.to_nat 2) with 2%nat in Hl. destruct (lanes2 n raw Hl) as (H1 & H2 & out & H3 & H4).
    intros [= <- <-]. unfold zlen in *. split; [lia|]. split; [lia|].
    change (2 <=? 0) with false. rewrite Hm. cbn [orb negb Z.eqb].
    rewrite H1, H2, Z.eqb_refl. replace (Z.of_nat n =? Z.of_nat (length raw) - Z.of_nat n) with true by (symmetry; apply Z.eqb_eq; lia).
    cbn [negb]. rewrite Nat2Z.id, Hl, H3. cbn [of_option mbind res_bind]. by rewrite H4.
  - change (Z.to_nat 4) with 4%nat in Hl.
    destruct (lanes4 n raw Hl) as (H1 & r1 & r2 & rm & R1 & R2 & R3 & Hrl & o1 & o2 & o3 & O1 & O2 & O3 & O4).
    rewrite H1, Hl. replace (4 * n - n)%nat with (3 * n)%nat by lia. rewrite R1. cbn [of_option mbind res_bind].
    rewrite R2. cbn [of_option mbind res_bind]. rewrite R3. cbn [of_option mbind res_bind].
    intros [= <- <-]. unfold zlen in *. split; [lia|]. split; [lia|].
    change (4 <=? 0) with false. rewrite Hm. cbn [orb negb Z.eqb].
    rewrite H1, Hrl, Z.eqb_refl.
    replace (Z.of_nat (3 * n) =? Z.of_nat (length raw) - Z.of_nat n) with true by (symmetry; apply Z.eqb_eq; lia).
    cbn [negb]. rewrite Nat2Z.id, Hl, O1. cbn [of_option mbind res_bind].
    rewrite O2. cbn [of_option mbind res_bind]. rewrite O3. cbn [of_option mbind res_bind]. by rewrite O4.
Qed.

Lemma reconstruct_length ex rem e n raw : 0 ≤ n → reconstruct_high_byte_lane ex rem e n = Ok raw → zlen raw = n.
Proof.
  intros Hn. unfold reconstruct_high_byte_lane. destruct (_ || _); [done|]. destruct (negb _); [done|].
  destruct (negb _); [done|].
  assert (∀ (l l' : bytes) k s vs, length l = Z.to_nat n → of_option ValueError (assign_stride s k vs l) = Ok l' → length l' = Z.to_nat n) as Hlen.
  { intros l l' k s vs Hl Ho. apply of_option_Ok in Ho. apply assign_stride_length in Ho. congruence. }
  assert (∀ m A (f : bytes → res A) r, (m ≫= f) = Ok r → ∃ a, m = Ok a ∧ f a = Ok r) as Hb.
  { intros [a|e'] A f r; simpl; [eauto|done]. }
  pose proof (length_replicate (Z.to_nat n) Byte.x00) as H0.
  destruct (e =? 2); [|destruct (e =? 4); [|done]].
  - intros (o & Ho & Hr)%Hb. apply Hlen in Ho; [|done]. apply Hlen in Hr; [|done]. unfold zlen. lia.
  - intros (o1 & Ho1 & (o2 & Ho2 & (o3 & Ho3 & Hr)%Hb)%Hb)%Hb.
    apply Hlen in Ho1; [|done]. apply Hlen in Ho2; [|done]. apply Hlen in Ho3; [|done]. apply Hlen in Hr; [|done].
    unfold zlen. lia.
Qed.

(** ** Proofs: the wire format *)

Lemma res_bind_Ok {A B} (m : res A) (f : A → res B) b : (m ≫= f) = Ok b ↔ ∃ a, m = Ok a ∧ f a = Ok b.
Proof. destruct m as [a|e]; simpl; split; [eauto|by intros (? & [= <-] & ?)|done|by intros (? & ? & _)]. Qed.

Lemma pack_header_Ok a n h : pack_header a n = Ok h →
  h = MAGIC ++ be_bytes 1 VERSION ++ be_bytes 1 a ++ be_bytes 8 n ∧
  0 ≤ a < 256 ^ Z.of_nat 1 ∧ 0 ≤ n < 256 ^ Z.of_nat 8.
Proof.
  unfold pack_header. intros (v & [-> _]%pack_uint_Ok & (b & [-> Ha]%pack_uint_Ok & (s & [-> Hs]%pack_uint_Ok & [= <-])%res_bind_Ok)%res_bind_Ok)%res_bind_Ok.
  done.
Qed.

Lemma pack_payload_Ok e k h : pack_payload e k = Ok h →
  h = be_bytes 1 e ++ be_bytes 4 k ∧ 0 ≤ e < 256 ^ Z.of_nat 1 ∧ 0 ≤ k < 256 ^ Z.of_nat 4.
Proof.
  unfold pack_payload. intros (eb & [-> He]%pack_uint_Ok & (kb & [-> Hk]%pack_uint_Ok & [= <-])%res_bind_Ok)%res_bind_Ok.
  done.
Qed.

Lemma parse_pack a n h payload strict : pack_header a n = Ok h →
  parse_wrapper (h ++ payload) strict = Ok (Some (a, n, payload)).
Proof.
  intros (-> & Ha & Hs)%pack_header_Ok.
  unfold parse_wrapper. pose proof (be_bytes_length 8 n) as Hl. pose proof (be_roundtrip 8 n Hs) as Hv.
  pose proof (be_roundtrip 1 a Ha) as Hav. pose proof (be_bytes_length 1 a) as Hal.
  set (nb := be_bytes 8 n) in *. clearbody nb. set (ab := be_bytes 1 a) in *. clearbody ab.
  destruct ab as [|x [|? ?]]; [done| |done].
  assert (length nb + length payload ≥ 8)%nat by lia.
  destruct (Nat.ltb_spec (length ((MAGIC ++ be_bytes 1 VERSION ++ [x] ++ nb) ++ payload)) HEADER_SIZE) as [Hlt|_].
  { rewrite !length_app in Hlt. simpl in Hlt. unfold HEADER_SIZE in Hlt. lia. }
  rewrite <- !app_assoc, startswith_app. cbn [negb].
  change (be_bytes 1 VERSION) with [Byte.x01]. unfold MAGIC, HEADER_SIZE. cbn [app take drop].
  change (negb (be_val [Byte.x01] =? VERSION)) with false. cbn iota.
  rewrite take_0, drop_0, Hav, take_app_length', drop_app_length', Hv by lia. done.
Qed.

Lemma pack_header_size a n h : pack_header a n = Ok h → length h = HEADER_SIZE.
Proof.
  intros (-> & Ha & Hs)%pack_header_Ok.
  by rewrite !length_app, !be_bytes_length.
Qed.

Lemma split_payload_pack e k h (c r : bytes) n : pack_payload e k = Ok h → k = zlen c → n mod Z.max 1 e = 0 →
  split_payload (h ++ c ++ r) n = Ok (e, c, r).
Proof.
  intros (-> & He & Hk)%pack_payload_Ok -> Hm.
  unfold split_payload. pose proof (be_bytes_length 4 (zlen c)) as Hl. pose proof (be_roundtrip 4 (zlen c) Hk) as Hv.
  pose proof (be_roundtrip 1 e He) as Hev. pose proof (be_bytes_length 1 e) as Hel.
  set (kb := be_bytes 4 (zlen c)) in *. clearbody kb. set (eb := be_bytes 1 e) in *. clearbody eb.
  destruct eb as [|x [|? ?]]; [done| |done].
  set (pl := (([x] ++ kb) ++ c ++ r)).
  assert (zlen pl = 5 + zlen c + zlen r) as Hpl.
  { unfold pl, zlen. rewrite !length_app. simpl. lia. }
  assert (take 1 pl = [x] ∧ take 4 (drop 1 pl) = kb ∧ drop 5 pl = c ++ r) as (-> & -> & Hd5).
  { unfold pl. split; [done|]. rewrite <- app_assoc. cbn [app drop].
    split; [rewrite drop_0; by apply take_app_length'|by apply drop_app_length']. }
  rewrite Hev, Hv. pose proof (zlen_nonneg c). pose proof (zlen_nonneg r). cbv zeta.
  change (Z.of_nat BYTE_SPLIT_PAYLOAD_SIZE) with 5. rewrite Hpl, (proj2 (Z.ltb_ge _ _)) by lia.
  rewrite (proj2 (Z.ltb_ge _ _)) by lia. rewrite Hm. cbn [Z.eqb negb].
  rewrite py_slice_nonneg by lia. change (Z.to_nat 5) with 5%nat. rewrite Hd5.
  replace (Z.to_nat (5 + zlen c - 5)) with (length c) by (unfold zlen; lia). rewrite take_app_length.
  replace (Z.to_nat (5 + zlen c)) with (5 + length c)%nat by (unfold zlen; lia).
  rewrite <- drop_drop, Hd5, drop_app_length. done.
Qed.

(** Documented behaviour of the compressors: decompressing with room for the original
    gives it back; zlib then has seen the end of the stream and nothing else. ZipNN is
    lossless for the dtypes of its self-check. *)
Class CodecLaws (D : Type) `{Codecs D} := {
  zstd_law level x y n : zstd_compress level x = Ok y → zlen x ≤ n → zstd_decompress y n = Ok x;
  zstd_dict_law d level x y n : zstd_dict_compress d level x = Ok y → zlen x ≤ n → zstd_dict_decompress d y n = Ok x;
  zlib_law level x y n : zlib_compress level x = Ok y → zlen x < n → zlib_decompressobj y n = Ok (mkZlibOut x [] true []);
  zipnn_law dt level x y :
    zipnn_lossless_dtype_supported dt = true → zipnn_compress dt level x = Ok y → zipnn_decompress y = Ok x;
}.

Section proofs.
Context {D : Type} `{CodecLaws D}.

(** A buffer [q] decodes to [raw]. *)
Definition decodes_to (q : process) (raw w : bytes) : Prop :=
  ∃ a payload, parse_wrapper w true = Ok (Some (a, zlen raw, payload)) ∧
    decode_payload q a (zlen raw) payload = Ok raw.

Definition same_dictionaries (p q : process) : Prop :=
  get_zstd_dict (lossless_zstd_dict_path p) = get_zstd_dict (lossless_zstd_dict_path q) ∧
  get_zstd_dict (lossless_zstd_dict_path_prefill p) = get_zstd_dict (lossless_zstd_dict_path_prefill q) ∧
  get_zstd_dict (lossless_zstd_dict_path_decode p) = get_zstd_dict (lossless_zstd_dict_path_decode q).

Lemma compress_roundtrip raw algo level a c : compress_with_algo raw algo level = Ok (a, c) → a ≠ 0 →
  (a = ALGO_ZSTD ∨ a = ALGO_ZLIB) ∧ decompress_with_algo a c (zlen raw) = Ok raw.
Proof.
  unfold compress_with_algo. destruct (bool_decide _); [by intros [= <- <-]|].
  destruct (String.eqb algo "zstd").
  { destruct zstd eqn:Hz; cbn [negb]; [|by intros [= <- <-]]. destruct (zstd_level_ok level); cbn [negb]; [|done].
    intros (y & Hy & [= <- <-])%res_bind_Ok _. split; [by left|]. unfold decompress_with_algo. rewrite Hz.
    cbn [negb Z.eqb ALGO_ZSTD Pos.eqb]. rewrite (zstd_law _ _ _ _ Hy) by lia. cbn [mbind res_bind]. by rewrite Z.eqb_refl. }
  destruct (String.eqb algo "zlib"); [|by intros [= <- <-]].
  intros (y & Hy & [= <- <-])%res_bind_Ok _. split; [by right|]. unfold decompress_with_algo, decompress_zlib_capped.
  change (ALGO_ZLIB =? ALGO_ZSTD) with false. change (ALGO_ZLIB =? ALGO_ZLIB) with true. cbn iota.
  pose proof (zlen_nonneg raw). rewrite (proj2 (Z.ltb_ge (zlen raw) 0)) by lia.
  rewrite (zlib_law _ _ _ _ Hy) by lia. cbn [mbind res_bind z_raw z_unconsumed_tail z_eof z_unused_data].
  rewrite Z.ltb_irrefl. change (zlen (A := Byte.byte) [] =? 0) with true. cbn [negb orb mbind res_bind].
  by rewrite Z.eqb_refl.
Qed.

Lemma zstd_only raw level a c : compress_with_algo raw "zstd" level = Ok (a, c) → negb (a =? ALGO_ZSTD) = false →
  decompress_with_algo ALGO_ZSTD c (zlen raw) = Ok raw.
Proof.
  intros Hc Ha. apply negb_false_iff, Z.eqb_eq in Ha as ->. by apply (compress_roundtrip raw "zstd" level).
Qed.

Lemma plain_decodes p q raw a w : build_plain_wrapper p raw = Ok (a, w) → a ≠ 0 → decodes_to q raw w.
Proof.
  unfold build_plain_wrapper. intros ([a' c] & Hc & Hw)%res_bind_Ok Ha. cbn beta iota in Hw.
  destruct (Z.eqb_spec a' 0); [by injection Hw as <- _|].
  apply res_bind_Ok in Hw as (h & Hh & [= <- <-]). destruct (compress_roundtrip _ _ _ _ _ Hc) as [Ho Hd]; [done|].
  exists a', c. split; [by apply parse_pack|]. unfold decode_payload, decompress_buffer.
  by destruct Ho as [-> | ->].
Qed.

Lemma elements_floordiv e raw : elements_of e raw →
  py_floordiv (zlen raw) e = Ok (zlen raw / e) ∧ zlen raw mod Z.max 1 e = 0.
Proof. intros [[-> | ->] Hm]; (split; [done|]); exact Hm. Qed.

Lemma byte_split_decodes p q raw e w : elements_of e raw → build_zstd_byte_split_wrapper p raw e = Ok w → decodes_to q raw w.
Proof.
  intros He. unfold build_zstd_byte_split_wrapper.
  intros ([ex rm] & Hs & ([a1 c1] & H1 & ([a2 c2] & H2 & Hw)%res_bind_Ok)%res_bind_Ok)%res_bind_Ok. cbn beta iota in Hw.
  destruct (negb (a1 =? ALGO_ZSTD)) eqn:E1; [done|]. destruct (negb (a2 =? ALGO_ZSTD)) eqn:E2; [done|]. simpl in Hw.
  apply res_bind_Ok in Hw as (sz & Hsz & (h & Hh & [= <-])%res_bind_Ok).
  destruct (lanes_roundtrip e raw ex rm He Hs) as (Hle & Hlr & Hrec). destruct (elements_floordiv e raw He) as [Hf Hm].
  exists ALGO_ZSTD_BYTE_SPLIT, (sz ++ c1 ++ c2). split; [by apply parse_pack|].
  change (decode_payload q ALGO_ZSTD_BYTE_SPLIT (zlen raw)) with (λ pl, decode_zstd_byte_split_payload pl (zlen raw)).
  cbn beta. unfold decode_zstd_byte_split_payload. rewrite (split_payload_pack e (zlen c1) sz) by done.
  cbn [mbind res_bind]. rewrite Hf. cbn [mbind res_bind].
  rewrite <- Hle, (zstd_only _ _ _ _ H1 E1). cbn [mbind res_bind].
  rewrite Hle, <- Hlr, (zstd_only _ _ _ _ H2 E2). cbn [mbind res_bind]. exact Hrec.
Qed.

Lemma high_only_decodes p q raw e w : elements_of e raw → build_zstd_byte_split_high_only_wrapper p raw e = Ok w →
  decodes_to q raw w.
Proof.
  intros He. unfold build_zstd_byte_split_high_only_wrapper.
  intros ([ex rm] & Hs & ([a1 c1] & H1 & Hw)%res_bind_Ok)%res_bind_Ok. cbn beta iota in Hw.
  destruct (negb (a1 =? ALGO_ZSTD)) eqn:E1; [done|].
  apply res_bind_Ok in Hw as (sz & Hsz & (h & Hh & [= <-])%res_bind_Ok).
  destruct (lanes_roundtrip e raw ex rm He Hs) as (Hle & Hlr & Hrec). destruct (elements_floordiv e raw He) as [Hf Hm].
  exists ALGO_ZSTD_BYTE_SPLIT_HIGH_ONLY, (sz ++ c1 ++ rm). split; [by apply parse_pack|].
  change (decode_payload q ALGO_ZSTD_BYTE_SPLIT_HIGH_ONLY (zlen raw)) with (λ pl, decode_zstd_byte_split_high_only_payload pl (zlen raw)).
  cbn beta. unfold decode_zstd_byte_split_high_only_payload. rewrite (split_payload_pack e (zlen c1) sz) by done.
  cbn [mbind res_bind]. rewrite Hf. cbn [mbind res_bind].
  rewrite Hlr, Z.eqb_refl. cbn [negb]. rewrite <- Hle, (zstd_only _ _ _ _ H1 E1). cbn [mbind res_bind]. exact Hrec.
Qed.

Lemma dict_decodes p path raw e algo w : elements_of e raw → build_dict_wrapper p path raw e algo = Ok w →
  ∃ payload, parse_wrapper w true = Ok (Some (algo, zlen raw, payload)) ∧
    decode_with_dict path payload (zlen raw) = Ok raw.
Proof.
  intros He. unfold build_dict_wrapper, get_zstd_dict_compressor, decode_with_dict.
  destruct (get_zstd_dict path) as [d|]; [|done]. destruct (zstd_level_ok _); [|done]. cbn [mbind res_bind of_option].
  unfold build_dict_byte_split_wrapper_with.
  intros ([ex rm] & Hs & (c1 & H1 & (c2 & H2 & (sz & Hsz & (h & Hh & [= <-])%res_bind_Ok)%res_bind_Ok)%res_bind_Ok)%res_bind_Ok)%res_bind_Ok.
  destruct (lanes_roundtrip e raw ex rm He Hs) as (Hle & Hlr & Hrec). destruct (elements_floordiv e raw He) as [Hf Hm].
  exists (sz ++ c1 ++ c2). split; [by apply parse_pack|]. unfold decode_dict_byte_split_with.
  rewrite (split_payload_pack e (zlen c1) sz) by done. cbn [mbind res_bind]. rewrite Hf. cbn [mbind res_bind].
  rewrite (zstd_dict_law _ _ _ _ _ H1) by lia. cbn [mbind res_bind].
  rewrite (zstd_dict_law _ _ _ _ _ H2) by lia. cbn [mbind res_bind]. exact Hrec.
Qed.

Lemma zipnn_decodes p q raw t none ctx w :
  supports_zipnn_transport p t none (zlen raw) ctx = true → build_zipnn_wrapper p raw t = Ok w → decodes_to q raw w.
Proof.
  unfold supports_zipnn_transport, build_zipnn_wrapper. destruct zipnn eqn:Hz; cbn [negb]; [|done].
  destruct none; cbn [negb]; [|done]. destruct t as [t|]; [|done]. simpl.
  destruct (zipnn_dtype_name (t_dtype t)) as [dt|]; [|done]. simpl. destruct (negb _); [done|]. destruct (negb _); [done|].
  intros Hok (y & Hy & (h & Hh & [= <-])%res_bind_Ok)%res_bind_Ok.
  exists ALGO_ZIPNN, y. split; [by apply parse_pack|]. unfold decode_payload, decompress_buffer, decompress_with_algo.
  rewrite Hz. cbn. rewrite (zipnn_law _ _ _ _ Hok Hy). cbn [mbind res_bind]. by rewrite Z.eqb_refl.
Qed.

Lemma supports_elements p t none raw ctx :
  supports_byte_split_layout p t none (zlen raw) ctx = true →
  elements_of (match t with Some t => element_size t | None => 2 end) raw.
Proof.
  unfold supports_byte_split_layout. repeat (destruct (negb _); [done|]). destruct t as [t|]; [|done].
  intros Hs. assert ((element_size t = 2 ∨ element_size t = 4) ∧ zlen raw = t_numel t * element_size t) as [He E].
  { revert Hs. unfold element_size. destruct (t_dtype t); try done;
      (match goal with |- (if negb (?x =? ?y) then _ else _) = _ → _ => destruct (Z.eqb_spec x y) as [E|] end; [|done]); auto. }
  split; [done|]. rewrite E. apply Z.mod_mul. lia.
Qed.

Lemma try_Forall (P : candidate → Prop) label a b : (∀ w, b = Ok w → P (label, a, w)) → Forall P (try_candidate label a b).
Proof. unfold try_candidate. destruct b; intros HP; [constructor; [by apply HP|constructor]|constructor]. Qed.

Lemma if_Forall {A} (P : A → Prop) (c : bool) l : (c = true → Forall P l) → Forall P (if c then l else []).
Proof. destruct c; [auto|constructor]. Qed.

Lemma dict_candidate p q path label raw t none ctx algo :
  supports_byte_split_layout p t none (zlen raw) ctx = true →
  (∀ payload, decode_payload q algo (zlen raw) payload = decode_with_dict path payload (zlen raw)) →
  Forall (λ c, decodes_to q raw c.2) (try_candidate label algo
    (build_dict_wrapper p path raw (match t with Some t => element_size t | None => 2 end) algo)).
Proof.
  intros Hs Hq. apply try_Forall. intros w Hw. apply dict_decodes in Hw as (payload & Hp & Hd); [|by eapply supports_elements].
  exists algo, payload. split; [done|]. by rewrite Hq.
Qed.

Lemma plain_candidate_Forall p q raw cs : plain_candidate p raw = Ok cs → Forall (λ c, decodes_to q raw c.2) cs.
Proof.
  unfold plain_candidate. intros ([a w] & Hw & [= <-])%res_bind_Ok.
  destruct (Z.eqb_spec a 0); [constructor|]. constructor; [by eapply plain_decodes|constructor].
Qed.

Lemma candidates_decode p q raw t none ctx cs r : same_dictionaries p q →
  candidates_of p raw t none ctx = Ok (cs, r) → Forall (λ c, decodes_to q raw c.2) cs.
Proof.
  intros (Hd0 & Hdp & Hdd). unfold candidates_of. cbv zeta.
  set (split_ok := supports_byte_split_layout p t none (zlen raw) ctx).
  set (zipnn_ok := supports_zipnn_transport p t none (zlen raw) ctx).
  set (esize := match t with Some t => element_size t | None => 2 end).
  set (zipnn_try := if zipnn_ok then _ else []). set (dict_try := if split_ok then _ else []).
  assert (split_ok = true → elements_of esize raw) as Hel by (intros; by eapply supports_elements).
  assert (Forall (λ c, decodes_to q raw c.2) zipnn_try) as Hz.
  { apply if_Forall. intros Hz. apply try_Forall. intros w Hw. by eapply zipnn_decodes. }
  assert (Forall (λ c, decodes_to q raw c.2) dict_try) as Hd.
  { apply if_Forall. intros Hs. apply (dict_candidate p q _ _ raw t none ctx _ Hs).
    intros payload. unfold decode_with_dict. by rewrite Hd0. }
  assert (∀ label, split_ok = true → Forall (λ c, decodes_to q raw c.2)
    (try_candidate label ALGO_ZSTD_BYTE_SPLIT (build_zstd_byte_split_wrapper p raw esize))) as Hbs.
  { intros label Hs. apply try_Forall. intros w Hw. eapply byte_split_decodes; eauto. }
  destruct (String.eqb _ "zipnn"); [by intros [= <- _]|]. destruct (bool_decide _); [by intros [= <- _]|].
  destruct (String.eqb _ "phase_aware_dict").
  { intros (first & Hfirst & [= <- _])%res_bind_Ok.
    assert (Forall (λ c, decodes_to q raw c.2) first) as HF; [|destruct first; [by apply if_Forall, Hbs|done]].
    destruct (split_ok && String.eqb _ "prefill") eqn:E1.
    - apply andb_true_iff in E1 as [Hs _]. apply res_bind_Ok in Hfirst as ([d|] & _ & [= <-]); [|constructor].
      apply (dict_candidate p q _ _ raw t none ctx _ Hs). intros payload. unfold decode_with_dict. by rewrite Hdp.
    - destruct (split_ok && String.eqb _ "decode") eqn:E2; [|by injection Hfirst as <-].
      apply andb_true_iff in E2 as [Hs _]. apply res_bind_Ok in Hfirst as ([d|] & _ & [= <-]); [|constructor].
      apply (dict_candidate p q _ _ raw t none ctx _ Hs). intros payload. unfold decode_with_dict. by rewrite Hdd. }
  destruct (bool_decide _).
  { intros [= <- _]. destruct (adaptive_hybrid_prefers_zstd_dict p ctx); [|done]. by destruct dict_try. }
  set (high_only := String.eqb (lossless_layout p) "byte_split_high_only").
  set (bsplit := if high_only then build_zstd_byte_split_high_only_wrapper p raw esize else _).
  assert (∀ label a, split_ok = true → Forall (λ c, decodes_to q raw c.2) (try_candidate label a bsplit)) as Hsplit.
  { intros label a Hs. apply try_Forall. intros w. unfold bsplit. destruct high_only; intros Hw;
      [by eapply high_only_decodes; eauto|by eapply byte_split_decodes; eauto]. }
  intros (cands & Hc & [= <- _])%res_bind_Ok.
  destruct (_ && _ && split_ok) eqn:E.
  - apply andb_true_iff in E as [_ Hs]. specialize (Hsplit (if high_only then "byte_split_high_only" else "byte_split")%string
      (if high_only then ALGO_ZSTD_BYTE_SPLIT_HIGH_ONLY else ALGO_ZSTD_BYTE_SPLIT) Hs).
    destruct (try_candidate _ _ bsplit); [by eapply plain_candidate_Forall|by injection Hc as <-].
  - apply res_bind_Ok in Hc as (plain & Hp & [= <-]). apply Forall_app. split; [by eapply plain_candidate_Forall|].
    apply if_Forall. intros Hs. by apply Hsplit.
Qed.

Lemma shortest_in c cs : shortest c cs ∈ c :: cs.
Proof.
  unfold shortest. revert c. induction cs as [|d cs IH]; intros c; simpl; [by left|].
  destruct (_ <? _); [right; apply IH|]. specialize (IH c). apply elem_of_cons in IH as [->|?]; [by left|right; by right].
Qed.

Lemma shortest_least c cs : ∀ d, d ∈ c :: cs → zlen (shortest c cs).2 ≤ zlen d.2.
Proof.
  unfold shortest. revert c. induction cs as [|e cs IH]; intros c d.
  - intros ->%list_elem_of_singleton. simpl. lia.
  - simpl. destruct (Z.ltb_spec (zlen e.2) (zlen c.2)) as [Hlt|Hge]; intros [->|Hd]%elem_of_cons.
    + specialize (IH e e). transitivity (zlen e.2); [apply IH; by left|lia].
    + by apply IH.
    + apply IH. by left.
    + apply elem_of_cons in Hd as [->|Hd]; [|apply IH; by right].
      transitivity (zlen c.2); [apply IH; by left|lia].
Qed.

Lemma wrap_cases {F} p (st : Tensor F) t none ctx st' reason :
  wrap_serialized_tensor_impl p st t none ctx = Ok (st', reason) →
  (st' = st ∧ reason ≠ "applied"%string) ∨
  (reason = "applied"%string ∧ lossless_send_enabled p = true ∧ lossless_min_bytes p ≤ zlen (buffer st) ∧
   parse_wrapper (buffer st) false = Ok None ∧
   ∃ c cs r, candidates_of p (buffer st) t none ctx = Ok (c :: cs, r) ∧
     st' = mkTensor (shortest c cs).2 (fields st) ∧
     zlen (buffer st') + lossless_min_gain_bytes p < zlen (buffer st)).
Proof.
  unfold wrap_serialized_tensor_impl. destruct (lossless_send_enabled p); cbn [negb]; [|intros [= <- <-]; by left].
  destruct (_ =? 0)%nat; [intros [= <- <-]; by left|]. destruct (Z.ltb_spec (zlen (buffer st)) (lossless_min_bytes p)); [intros [= <- <-]; by left|].
  intros (parsed & Hp & Hw)%res_bind_Ok. destruct parsed as [?|]; [injection Hw as <- <-; by left|].
  apply res_bind_Ok in Hw as ([cands r] & Hc & Hw). cbn beta iota in Hw. destruct cands as [|c cs].
  { injection Hw as <- <-. left. split; [done|]. intros ->.
    unfold candidates_of, zipnn_skip_reason in Hc. cbv zeta in Hc.
    repeat match type of Hc with
    | (if ?b then _ else _) = _ => destruct b
    | (_ ≫= _) = Ok _ => apply res_bind_Ok in Hc as (? & _ & Hc)
    end; try (injection Hc as _ Hr; repeat case_match; discriminate Hr). }
  destruct (Z.leb_spec (zlen (buffer st)) (zlen (shortest c cs).2 + lossless_min_gain_bytes p));
    injection Hw as <- <-; [by left|]. right. repeat split; try done. exists c, cs, r. done.
Qed.

Lemma decompress_length a payload n raw : decompress_with_algo a payload n = Ok raw → zlen raw = n.
Proof.
  unfold decompress_with_algo. intros (r & _ & Hr)%res_bind_Ok. destruct (Z.eqb_spec (zlen r) n) as [E|]; [|done].
  by injection Hr as <-.
Qed.

Lemma decode_dict_length path n payload raw : 0 ≤ n → decode_with_dict path payload n = Ok raw → zlen raw = n.
Proof.
  intros Hn. unfold decode_with_dict, decode_dict_byte_split_with.
  intros (d & _ & ([[e c] r] & _ & (x & _ & (y & _ & (z & _ & Hr)%res_bind_Ok)%res_bind_Ok)%res_bind_Ok)%res_bind_Ok)%res_bind_Ok.
  by apply reconstruct_length in Hr.
Qed.

Lemma decode_length p a n payload raw : 0 ≤ n → decode_payload p a n payload = Ok raw → zlen raw = n.
Proof.
  intros Hn. unfold decode_payload, decompress_buffer.
  destruct (a =? ALGO_ZSTD_BYTE_SPLIT).
  { unfold decode_zstd_byte_split_payload.
    intros ([[e c] r] & _ & (x & _ & (y & _ & (z & _ & Hr)%res_bind_Ok)%res_bind_Ok)%res_bind_Ok)%res_bind_Ok.
    by apply reconstruct_length in Hr. }
  destruct (a =? ALGO_ZSTD_DICT_BYTE_SPLIT); [by apply decode_dict_length|].
  destruct (a =? ALGO_ZSTD_DICT_BYTE_SPLIT_PREFILL); [by apply decode_dict_length|].
  destruct (a =? ALGO_ZSTD_DICT_BYTE_SPLIT_DECODE); [by apply decode_dict_length|].
  destruct (a =? ALGO_ZSTD_BYTE_SPLIT_HIGH_ONLY); [|by apply decompress_length].
  unfold decode_zstd_byte_split_high_only_payload.
  intros ([[e c] r] & _ & (x & _ & Hz)%res_bind_Ok)%res_bind_Ok. cbv zeta in Hz. destruct (negb _); [done|].
  apply res_bind_Ok in Hz as (z & _ & Hr). by apply reconstruct_length in Hr.
Qed.

Lemma be_val_nonneg b : 0 ≤ be_val b.
Proof.
  unfold be_val. assert (∀ a, 0 ≤ a → 0 ≤ foldl (λ a x, 256 * a + Z_of_byte x) a b) as Hf; [|by apply Hf].
  induction b as [|x b IH]; intros a Ha; simpl; [done|]. apply IH. pose proof (Z_of_byte_bound x). lia.
Qed.

Lemma parse_nonneg b strict a n payload : parse_wrapper b strict = Ok (Some (a, n, payload)) → 0 ≤ n.
Proof.
  unfold parse_wrapper. destruct (_ <? _)%nat; [done|]. destruct (negb _); [done|].
  destruct (negb _); [by destruct strict|]. intros [= _ <- _]. apply be_val_nonneg.
Qed.
End proofs.

(** ** Properties *)

(** C12: Lossless. Whatever the sender's settings, tensor and context, if wrapping
    succeeds then the receiver, holding the same dictionaries and allowing that size,
    unwraps the message to exactly the original tensor, for every algorithm and
    layout, provided the original bytes do not themselves look like a wrapper. *)
Theorem wrap_unwrap_roundtrip {D F} `{CodecLaws D} (p q : process) (st st' : Tensor F) t none ctx reason :
  same_dictionaries p q → zlen (buffer st) ≤ max_decoded_bytes q →
  parse_wrapper (buffer st) true = Ok None →
  wrap_serialized_tensor_impl p st t none ctx = Ok (st', reason) →
  unwrap_serialized_tensor q st' = Ok st.
Proof.
  intros Hd Hmax Hraw Hw. unfold unwrap_serialized_tensor.
  destruct (wrap_cases _ _ _ _ _ _ _ Hw) as [[-> _]|(_ & _ & _ & _ & c & cs & r & Hc & -> & _)].
  - by rewrite Hraw.
  - pose proof (candidates_decode p q _ _ _ _ _ _ Hd Hc) as HF. rewrite Forall_forall in HF.
    destruct (HF _ (shortest_in c cs)) as (a & payload & Hp & Hdec). cbn [buffer fields]. rewrite Hp.
    cbn [mbind res_bind]. rewrite (proj2 (Z.ltb_ge _ _)) by done. rewrite Hdec. cbn [mbind res_bind].
    by destruct st.
Qed.

(** C13: Bounded decoding. Unwrapping any received tensor, however malformed, either
    raises, or leaves a message that is not a wrapper as it is, or yields a buffer of
    exactly the declared size, which is never above the receiver's limit; the other
    fields are untouched. *)
Theorem unwrap_bounded {D F} `{Codecs D} (p : process) (st st' : Tensor F) :
  unwrap_serialized_tensor p st = Ok st' →
  fields st' = fields st ∧
  ((parse_wrapper (buffer st) true = Ok None ∧ st' = st) ∨
   ∃ a n payload, parse_wrapper (buffer st) true = Ok (Some (a, n, payload)) ∧
     zlen (buffer st') = n ∧ 0 ≤ n ≤ max_decoded_bytes p).
Proof.
  unfold unwrap_serialized_tensor. intros (parsed & Hp & Hu)%res_bind_Ok. destruct parsed as [[[a n] payload]|].
  - destruct (Z.ltb_spec (max_decoded_bytes p) n); [done|]. apply res_bind_Ok in Hu as (raw & Hr & [= <-]).
    split; [done|]. right. exists a, n, payload. split; [done|]. pose proof (parse_nonneg _ _ _ _ _ Hp).
    split; [by apply (decode_length p a n payload)|lia].
  - injection Hu as <-. split; [done|by left].
Qed.

(** When a wrapper is sent. Wrapping changes nothing but the buffer, and that only
    when enabled, on a large enough buffer that does not parse as a wrapper, to the
    first shortest candidate of the selected algorithm, and then it saves more than
    the configured gain; otherwise the tensor is sent as it is. *)
Lemma wrap_saves {D F} `{Codecs D} (p : process) (st st' : Tensor F) t none ctx reason :
  wrap_serialized_tensor_impl p st t none ctx = Ok (st', reason) →
  fields st' = fields st ∧
  if String.eqb reason "applied" then
    lossless_send_enabled p = true ∧ lossless_min_bytes p ≤ zlen (buffer st) ∧
    parse_wrapper (buffer st) false = Ok None ∧
    zlen (buffer st') + lossless_min_gain_bytes p < zlen (buffer st) ∧
    ∃ cs r c, candidates_of p (buffer st) t none ctx = Ok (cs, r) ∧ c ∈ cs ∧ buffer st' = c.2 ∧
      ∀ d, d ∈ cs → zlen c.2 ≤ zlen d.2
  else st' = st.
Proof.
  intros Hw. destruct (wrap_cases _ _ _ _ _ _ _ Hw) as [[-> Hr]|(-> & He & Hm & Hp & c & cs & r & Hc & -> & Hg)].
  - split; [done|]. destruct (String.eqb_spec reason "applied"); [done|done].
  - split; [done|]. rewrite String.eqb_refl. split; [done|]. split; [done|]. split; [done|]. split; [done|].
    exists (c :: cs), r, (shortest c cs). split; [done|]. split; [apply shortest_in|]. split; [done|].
    apply shortest_least.
Qed.

(** A tensor whose own bytes spell a header with element size zero. *)
Definition looks_wrapped : bytes :=
  MAGIC ++ be_bytes 1 VERSION ++ be_bytes 1 ALGO_ZSTD_BYTE_SPLIT ++ be_bytes 8 0 ++ be_bytes 1 0 ++ be_bytes 4 0.

(** Collisions. A raw buffer that begins with the magic bytes is not escaped: with
    the wrapper's version every sender, whatever its settings, sends it as it is and
    every receiver decodes it as a wrapper, here dividing by a zero element size,
    which the guard before the division lets through; with another version the
    receiver refuses it. *)
Lemma raw_magic_collides {D F} `{Codecs D} (p q : process) (f : F) t none ctx :
  (∃ reason, wrap_serialized_tensor_impl p (mkTensor looks_wrapped f) t none ctx =
     Ok (mkTensor looks_wrapped f, reason)) ∧
  unwrap_serialized_tensor q (mkTensor looks_wrapped f) = Raise ZeroDivisionError ∧
  ∀ (v : Byte.byte) (rest : bytes), Z_of_byte v ≠ VERSION → (9 ≤ length rest)%nat →
    unwrap_serialized_tensor q (mkTensor (MAGIC ++ v :: rest) f) = Raise ValueError.
Proof.
  split; [|split].
  - unfold wrap_serialized_tensor_impl. destruct (lossless_send_enabled p); cbn [negb buffer]; [|by eexists].
    change (length looks_wrapped =? 0)%nat with false. cbn iota.
    destruct (_ <? _); [by eexists|]. change (parse_wrapper looks_wrapped false) with
      (Ok (Some (ALGO_ZSTD_BYTE_SPLIT, 0, be_bytes 1 0 ++ be_bytes 4 0)) : res (option (Z * Z * bytes))).
    cbn [mbind res_bind]. by eexists.
  - unfold unwrap_serialized_tensor. cbn [buffer]. change (parse_wrapper looks_wrapped true) with
      (Ok (Some (ALGO_ZSTD_BYTE_SPLIT, 0, be_bytes 1 0 ++ be_bytes 4 0)) : res (option (Z * Z * bytes))).
    cbn [mbind res_bind]. assert (0 < max_decoded_bytes q) by (unfold max_decoded_bytes; lia).
    rewrite (proj2 (Z.ltb_ge _ _)) by lia. reflexivity.
  - intros v rest Hv Hl. unfold unwrap_serialized_tensor, parse_wrapper. cbn [buffer].
    rewrite startswith_app. unfold MAGIC, HEADER_SIZE.
    destruct (Nat.ltb_spec (length ([Byte.x42; Byte.x42; Byte.x4c; Byte.x43] ++ v :: rest)) 14) as [Hlt|_]; [simpl in Hlt; lia|].
    cbn [app take drop negb]. rewrite take_0. change (be_val [v]) with (Z_of_byte v).
    by rewrite (proj2 (Z.eqb_neq _ _) Hv).
Qed.

(** ** Examples *)

(** Compressors that shorten runs of zero bytes, the dictionary a prefix that is dropped. *)
Definition demo_compress (raw : bytes) : bytes :=
  if bool_decide (raw = replicate (length raw) Byte.x00 ∧ (length raw < 256)%nat)
  then [Byte.x00; byte_of_Z (zlen raw)] else Byte.x01 :: raw.
Definition demo_decompress (b : bytes) : bytes :=
  match b with
  | [Byte.x00; n] => replicate (Z.to_nat (Z_of_byte n)) Byte.x00
  | _ :: raw => raw
  | [] => []
  end.

Lemma demo_law raw : demo_decompress (demo_compress raw) = raw.
Proof.
  unfold demo_compress. case_bool_decide as E; [|done]. destruct E as [E Hl]. simpl.
  rewrite byte_roundtrip by (unfold zlen; lia). unfold zlen. by rewrite Nat2Z.id.
Qed.

#[export] Instance demo_codecs : Codecs unit := {|
  zstd := true;
  zstd_level_ok := λ l, l <? 23;
  zstd_compress := λ _ x, Ok (demo_compress x);
  zstd_decompress := λ y _, Ok (demo_decompress y);
  zstd_dict := λ _, Some tt;
  zstd_dict_compress := λ _ _ x, Ok (demo_compress x);
  zstd_dict_decompress := λ _ y _, Ok (demo_decompress y);
  zlib_compress := λ _ x, Ok (demo_compress x);
  zlib_decompressobj := λ y _, Ok (mkZlibOut (demo_decompress y) [] true []);
  zipnn := false;
  zipnn_compress := λ _ _ x, Ok x;
  zipnn_decompress := λ y, Ok y;
  read_file := λ _, None;
|}.

#[export] Instance demo_codec_laws : CodecLaws unit.
Proof.
  split; simpl.
  - intros level x y n [= <-] _. by rewrite demo_law.
  - intros d level x y n [= <-] _. by rewrite demo_law.
  - intros level x y n [= <-] _. by rewrite demo_law.
  - by intros dt level x y Hz [= <-].
Qed.

Definition demo_process : process :=
  mkProcess (λ name, if String.eqb name "BLOOMBEE_LOSSLESS_WRAPPER" then Some "1"%string
                     else if String.eqb name "BLOOMBEE_LOSSLESS_MIN_BYTES" then Some "16"%string
                     else if String.eqb name "BLOOMBEE_LOSSLESS_MIN_GAIN_BYTES" then Some "8"%string else None)
    (Some lossless_wrapper_config) true.
Definition demo_context : debug_context := Some [("tensor_name", "hidden_states")]%string.
(** Forty zero half-precision numbers and the message they become. *)
Definition demo_tensor : Tensor unit := mkTensor (replicate 80 Byte.x00) tt.
Definition demo_meta : option tensor_meta := Some (mkMeta Float16 40).
Definition demo_wrapped : Tensor unit :=
  mkTensor (MAGIC ++ be_bytes 1 1 ++ be_bytes 1 3 ++ be_bytes 8 80 ++ be_bytes 1 2 ++ be_bytes 4 2
            ++ [Byte.x00; byte_of_Z 40; Byte.x00; byte_of_Z 40]) tt.

Example demo_wrap :
  wrap_serialized_tensor_impl demo_process demo_tensor demo_meta true demo_context = Ok (demo_wrapped, "applied"%string).
Proof. vm_compute. reflexivity. Qed.

Lemma wrap_unwrap_roundtrip_witness :
  wrap_serialized_tensor_impl demo_process demo_tensor demo_meta true demo_context = Ok (demo_wrapped, "applied"%string) ∧
  unwrap_serialized_tensor demo_process demo_wrapped = Ok demo_tensor.
Proof.
  split; [vm_compute; reflexivity|].
  apply (wrap_unwrap_roundtrip demo_process demo_process demo_tensor demo_wrapped demo_meta true demo_context "applied").
  - split; [reflexivity|]. split; reflexivity.
  - vm_compute. discriminate.
  - vm_compute. reflexivity.
  - vm_compute. reflexivity.
Defined.

Lemma unwrap_bounded_witness : zlen (buffer demo_tensor) ≤ max_decoded_bytes demo_process.
Proof.
  destruct (unwrap_bounded demo_process demo_wrapped demo_tensor) as [_ [[Hn _]|(a & n & pl & _ & Hl & Hb)]];
    [vm_compute; reflexivity|vm_compute in Hn; discriminate Hn|rewrite Hl; apply Hb].
Defined.

Lemma wrap_saves_witness : zlen (buffer demo_wrapped) + 8 < zlen (buffer demo_tensor).
Proof.
  destruct (wrap_saves demo_process demo_tensor demo_wrapped demo_meta true demo_context "applied") as [_ H];
    [vm_compute; reflexivity|]. apply H.
Defined.
