(* ===== verification/Quant.v ===== *)
(** * Quantised numbers

    The floating formats of torch over [spec_float], rounding to integer codes, and two
    four-bit codes in a byte. ExpertQuant.v uses them. *)

From stdpp Require Import numbers base list.
From Stdlib Require Import ZArith Lia SpecFloat.
From S2P Require Import Prelude Floats.

(** ** Formats *)

Record format := mkFormat { prec : Z; emax : Z }.
Definition float16 : format := mkFormat 11 16.
Definition bfloat16 : format := mkFormat 8 128.
Definition float32 : format := mkFormat 24 128.

Definition fzero : float := S754_zero false.

(** [x.to(dtype)] *)
Definition to_format (f : format) (x : float) : float :=
  match x with
  | S754_finite s m e => binary_normalize (prec f) (emax f) (if s then Zneg m else Zpos m) e s
  | _ => x
  end.

Definition of_int (f : format) (n : Z) : float := binary_normalize (prec f) (emax f) n 0 false.

Definition div_in (f : format) : float → float → float := SFdiv (prec f) (emax f).
Definition mul_in (f : format) : float → float → float := SFmul (prec f) (emax f).
Definition add_in (f : format) : float → float → float := SFadd (prec f) (emax f).
Definition sub_in (f : format) : float → float → float := SFsub (prec f) (emax f).

(** [torch.abs], and the maximum and the minimum of torch, where NaN wins *)
Definition fabs (x : float) : float := SFabs x.
Definition torch_max (x y : float) : float :=
  match x, y with
  | S754_nan, _ | _, S754_nan => S754_nan
  | _, _ => if fltb x y then y else x
  end.
Definition torch_min (x y : float) : float :=
  match x, y with
  | S754_nan, _ | _, S754_nan => S754_nan
  | _, _ => if fltb y x then y else x
  end.

(** [amax] of a non-empty row *)
Definition amax (l : list float) : res float :=
  match l with [] => Raise IndexError | x :: l => Ok (foldl torch_max x l) end.
Definition amin (l : list float) : res float :=
  match l with [] => Raise IndexError | x :: l => Ok (foldl torch_min x l) end.

(** ** Codes *)

(** [torch.round] of [m * 2^e], ties to even *)
Definition round_even (m e : Z) : Z :=
  if 0 <=? e then m * 2 ^ e
  else
    let d := m / 2 ^ (- e) in
    let r := m mod 2 ^ (- e) in
    if 2 * r <? 2 ^ (- e) then d
    else if 2 ^ (- e) <? 2 * r then d + 1
    else if Z.even d then d else d + 1.

(** [torch.round(x).clamp(lo, hi)] as an integer; [of_nan] is what the cast of NaN to an
    integer type gives, which torch leaves to the machine. *)
Definition code (of_nan lo hi : Z) (x : float) : Z :=
  match x with
  | S754_nan => of_nan
  | S754_infinity s => if s then lo else hi
  | S754_zero _ => Z.max lo (Z.min hi 0)
  | S754_finite s m e => Z.max lo (Z.min hi (round_even (if s then Zneg m else Zpos m) e))
  end.

Lemma code_range of_nan lo hi x : lo ≤ hi → lo ≤ of_nan ≤ hi → lo ≤ code of_nan lo hi x ≤ hi.
Proof. intros ??. destruct x as [s|[]| |s m e]; simpl; lia. Qed.

Lemma code_range_num of_nan lo hi x : lo ≤ hi → is_num x = true → lo ≤ code of_nan lo hi x ≤ hi.
Proof. intros ??. destruct x as [s|[]| |s m e]; simpl; try done; lia. Qed.

(** The code is a nearest integer: no integer is closer than half a unit. *)
Lemma round_even_nearest m k : 0 ≤ k → 2 * Z.abs (round_even m (- k) * 2 ^ k - m) ≤ 2 ^ k.
Proof.
  intros Hk. unfold round_even. rewrite Z.opp_involutive.
  assert (0 < 2 ^ k) as Hp by (apply Z.pow_pos_nonneg; lia).
  pose proof (Z.div_mod m (2 ^ k)) as Hm. pose proof (Z.mod_pos_bound m (2 ^ k) Hp) as Hb.
  destruct (Z.leb_spec 0 (- k)) as [Hle|Hgt].
  - assert (k = 0) as -> by lia. change (2 ^ - 0) with 1. change (2 ^ 0) with 1 in *. lia.
  - destruct (Z.ltb_spec (2 * (m mod 2 ^ k)) (2 ^ k)), (Z.ltb_spec (2 ^ k) (2 * (m mod 2 ^ k))), (Z.even (m / 2 ^ k)); nia.
Qed.

(** ** Rounding a tie goes to the even neighbour *)
Lemma round_even_tie m k : 0 < k → 2 * (m mod 2 ^ k) = 2 ^ k → Z.even (round_even m (- k)) = true.
Proof.
  intros Hk Ht. unfold round_even. rewrite Z.opp_involutive.
  destruct (Z.leb_spec 0 (- k)); [lia|].
  destruct (Z.ltb_spec (2 * (m mod 2 ^ k)) (2 ^ k)); [lia|].
  destruct (Z.ltb_spec (2 ^ k) (2 * (m mod 2 ^ k))); [lia|].
  destruct (Z.even (m / 2 ^ k)) eqn:E; [done|]. by rewrite Z.add_1_r, Z.even_succ, <- Z.negb_even, E.
Qed.

(** ** Integer types *)

(** [.to(torch.uint8)] and [.to(torch.int8)] of an integer *)
Definition to_uint8 (n : Z) : Z := n mod 256.
Definition to_int8 (n : Z) : Z := (n + 128) mod 256 - 128.

Lemma to_uint8_id n : 0 ≤ n < 256 → to_uint8 n = n.
Proof. apply Z.mod_small. Qed.
Lemma to_int8_id n : -128 ≤ n < 128 → to_int8 n = n.
Proof. intros. unfold to_int8. rewrite Z.mod_small; lia. Qed.

(** ** Two codes in a byte *)

(** [low | (high << 4)] in uint8 *)
Definition pack_byte (low high : Z) : Z := Z.lor low (to_uint8 (Z.shiftl high 4)).
Definition low_nibble (b : Z) : Z := Z.land b 15.
Definition high_nibble (b : Z) : Z := Z.shiftr b 4.

(** A property of two four-bit numbers is a finite check. *)
Lemma nibbles_ind (P : Z → Z → bool) :
  forallb (λ a, forallb (P a) (seqZ 0 16)) (seqZ 0 16) = true → ∀ a b, 0 ≤ a < 16 → 0 ≤ b < 16 → P a b = true.
Proof.
  intros Hall a b Ha Hb. rewrite forallb_forall in Hall.
  specialize (Hall a). rewrite <- list_elem_of_In, elem_of_seqZ in Hall.
  specialize (Hall ltac:(lia)). rewrite forallb_forall in Hall.
  apply Hall. rewrite <- list_elem_of_In. apply elem_of_seqZ. lia.
Qed.

Lemma low_pack a b : 0 ≤ a < 16 → 0 ≤ b < 16 → low_nibble (pack_byte a b) = a.
Proof.
  intros Ha Hb. apply Z.eqb_eq. revert a b Ha Hb.
  apply (nibbles_ind (λ a b, low_nibble (pack_byte a b) =? a)). vm_compute. done.
Qed.
Lemma high_pack a b : 0 ≤ a < 16 → 0 ≤ b < 16 → high_nibble (pack_byte a b) = b.
Proof.
  intros Ha Hb. apply Z.eqb_eq. revert a b Ha Hb.
  apply (nibbles_ind (λ a b, high_nibble (pack_byte a b) =? b)). vm_compute. done.
Qed.
Lemma pack_is_byte a b : 0 ≤ a < 16 → 0 ≤ b < 16 → 0 ≤ pack_byte a b < 256.
Proof.
  intros Ha Hb. cut ((0 <=? pack_byte a b) && (pack_byte a b <? 256) = true); [lia|]. revert a b Ha Hb.
  apply (nibbles_ind (λ a b, (0 <=? pack_byte a b) && (pack_byte a b <? 256))). vm_compute. done.
Qed.

(** ** Elements at even and at odd places *)

(** [l[0::2]], [l[1::2]], and [stack((x, y), -1).flatten(-2)] *)
Fixpoint evens {A} (l : list A) : list A :=
  match l with x :: _ :: l => x :: evens l | [x] => [x] | [] => [] end.
Definition odds {A} (l : list A) : list A := evens (tail l).
Fixpoint interleave {A} (l k : list A) : list A :=
  match l, k with x :: l, y :: k => x :: y :: interleave l k | _, _ => [] end.

Lemma pair_ind {A} (P : list A → Prop) : P [] → (∀ x, P [x]) → (∀ x y l, P l → P (x :: y :: l)) → ∀ l, P l.
Proof.
  intros H0 H1 H2. fix IH 1. intros [|x [|y l]]; [done|done|]. apply H2, IH.
Qed.

Lemma odds_cons2 {A} (x y : A) l : odds (x :: y :: l) = y :: odds l.
Proof. unfold odds. simpl. by destruct l as [|z [|]]. Qed.

Lemma interleave_split {A} (l : list A) : Z.even (zlen l) = true → interleave (evens l) (odds l) = l.
Proof.
  induction l as [|x|x y l IH] using pair_ind; [done|done|]. rewrite !zlen_cons. intros He.
  rewrite odds_cons2. simpl. rewrite IH; [done|].
  by replace (1 + (1 + zlen l)) with (2 + zlen l) in He by lia; rewrite Z.even_add in He; destruct (Z.even (zlen l)).
Qed.

Lemma evens_length {A} (l : list A) : zlen (evens l) = (zlen l + 1) / 2.
Proof.
  induction l as [|x|x y l IH] using pair_ind; [done|done|]. simpl. rewrite !zlen_cons, IH.
  replace (1 + (1 + zlen l) + 1) with (zlen l + 1 + 1 * 2) by lia. rewrite Z.div_add; lia.
Qed.
Lemma odds_length {A} (l : list A) : zlen (odds l) = zlen l / 2.
Proof.
  induction l as [|x|x y l IH] using pair_ind; [done|done|]. rewrite odds_cons2, !zlen_cons, IH.
  replace (1 + (1 + zlen l)) with (zlen l + 1 * 2) by lia. rewrite Z.div_add; lia.
Qed.

Lemma Forall_evens {A} (P : A → Prop) l : Forall P l → Forall P (evens l).
Proof. induction l as [|x|x y l IH] using pair_ind; [done|done|]. inversion_clear 1 as [|? ? ? Hl]. inversion_clear Hl. simpl. auto. Qed.
Lemma Forall_odds {A} (P : A → Prop) l : Forall P l → Forall P (odds l).
Proof. intros Hl. apply Forall_evens. destruct l; [done|]. by inversion_clear Hl. Qed.

Lemma interleave_fmap {A B} (f : A → B) l k : f <$> interleave l k = interleave (f <$> l) (f <$> k).
Proof. revert k. induction l as [|x l IH]; intros [|y k]; try done. simpl. by rewrite <- IH. Qed.
