(* ===== verification/ExpertQuant.v ===== *)
(** * Quantised experts (utils/moe_expert_quant.py)

    The weights of a block's experts in eight bits with a scale per row, or in four bits, two in a
    byte, with a scale per group of a row; and the forward pass over the experts that the router
    picked. A matrix product, the activation and the router are parameters.

    A weight is a [float] in the format of its tensor; the arithmetic of torch is the correctly
    rounded one of the format. *)

From stdpp Require Import numbers base list.
From Stdlib Require Import ZArith Lia SpecFloat.
From S2P Require Import Prelude Floats Quant.

Definition INT4_GROUP_SIZE : Z := 128.

(** 1e-8 as a float of Python *)
Definition clamp_min : float := S754_finite false 6044629098073146 (-79).

(** [x.clamp(min=1e-8)] in a format: NaN stays. *)
Definition clamped (f : format) (x : float) : float :=
  let m := to_format f clamp_min in if fltb x m then m else x.

Definition ceil_div (a b : Z) : Z := - (- a / b).

Section quantisation.
Context (of_nan : Z).

(** ** Eight bits, a scale per output channel *)

(** A row of [quantize_per_out_channel_int8] *)
Definition quantize_per_out_channel_int8 (f : format) (weight : list float) : res (list Z * float) :=
  max_abs ← amax (fabs <$> weight);
  let scale := to_format float16 (div_in f (clamped f max_abs) (of_int f 127)) in
  mret ((λ w, code of_nan (-127) 127 (div_in f w (to_format f scale))) <$> weight, scale).

(** [_dequant] of the row *)
Definition dequant_int8 (dtype : format) (q : list Z) (scale : float) : list float :=
  (λ c, mul_in dtype (of_int dtype c) (to_format dtype scale)) <$> q.

(** ** Four bits, a scale per group *)

(** [reshape(n_groups, group_size)] of the padded row *)
Fixpoint groups {A} (n : nat) (size : nat) (w : list A) : list (list A) :=
  match n with O => [] | S n => take size w :: groups n size (drop size w) end.

(** [operator |] broadcasts a last dimension of size one. *)
Definition broadcast2 {A B C} (f : A → B → C) (l : list A) (k : list B) : res (list C) :=
  if zlen l =? zlen k then mret (zip_with f l k)
  else match l, k with
       | [a], _ => mret (f a <$> k)
       | _, [b] => mret ((λ a, f a b) <$> l)
       | _, _ => mthrow RuntimeError
       end.

(** A group: its scale and its codes. *)
Definition group_scale (g : list float) : res float :=
  max_abs ← amax (fabs <$> g);
  mret (to_format float16 (div_in float32 (clamped float32 max_abs) (of_int float32 7))).
Definition group_code (scale x : float) : Z := to_int8 (code of_nan (-7) 7 (div_in float32 x (to_format float32 scale))).
Definition quantize_group (g : list float) : res (float * list Z) :=
  scale ← group_scale g; mret (scale, group_code scale <$> g).

(** A row of [quantize_group_int4] *)
Definition quantize_group_int4 (weight : list float) (group_size : Z) : res (list Z * list float) :=
  if group_size =? 0 then mthrow ZeroDivisionError else
  let in_dim := zlen weight in
  let n_groups := ceil_div in_dim group_size in
  let padded := n_groups * group_size in
  let w := (to_format float32 <$> weight) ++ replicate (Z.to_nat (padded - in_dim)) fzero in
  quantized ← mapM quantize_group (groups (Z.to_nat n_groups) (Z.to_nat group_size) w);
  let even_dim := in_dim + in_dim mod 2 in
  let q := take (Z.to_nat even_dim) (concat quantized.*2) in
  packed ← broadcast2 pack_byte ((λ c, to_uint8 (to_int8 (c + 8))) <$> evens q) ((λ c, to_uint8 (to_int8 (c + 8))) <$> odds q);
  mret (packed, quantized.*1).

(** A row of [dequant_group_int4] *)
Definition dequant_group_int4 (packed : list Z) (scale : list float) (in_dim : Z) (dtype : format) (group_size : Z) :
    res (list float) :=
  let low := (λ b, to_int8 (low_nibble b) - 8) <$> packed in
  let high := (λ b, to_int8 (high_nibble b) - 8) <$> packed in
  let q := take (Z.to_nat in_dim) (interleave low high) in
  let expanded := take (Z.to_nat in_dim) (concat ((λ s, replicate (Z.to_nat group_size) (to_format dtype s)) <$> scale)) in
  broadcast2 (mul_in dtype) (of_int dtype <$> q) expanded.

(** ** What a group stands for: each code times the scale, over the actual elements of the group. *)
Definition int4_group (dtype : format) (g : list float) : list float :=
  match group_scale g with
  | Ok s => (λ x, mul_in dtype (of_int dtype (group_code s x)) (to_format dtype s)) <$> g
  | Raise _ => []
  end.
Definition int4_row (group_size : Z) (dtype : format) (weight : list float) : list float :=
  concat (int4_group dtype <$> groups (Z.to_nat (ceil_div (zlen weight) group_size)) (Z.to_nat group_size) (to_format float32 <$> weight)).

End quantisation.

(** ** Packing loses nothing *)

Section packing.
Context (of_nan : Z) (Hnan : -8 ≤ of_nan ≤ 7).

Lemma amax_cons x l : amax (x :: l) = Ok (foldl torch_max x l).
Proof. done. Qed.

(** Zeros of the padding do not change the largest absolute value. *)
Lemma fold_max_zeros x n : fltb x fzero = false → foldl torch_max x (fabs <$> replicate n fzero) = x.
Proof. induction n as [|n IH]; [done|]. intros Hx. cbn. change (S754_zero false) with fzero.
  replace (torch_max x fzero) with x; [auto|]. unfold torch_max. rewrite Hx. by destruct x.
Qed.

Lemma fabs_not_neg x : fltb (fabs x) fzero = false.
Proof. by destruct x as [[]|[]| |[]]. Qed.

Lemma torch_max_not_neg x y : fltb x fzero = false → fltb y fzero = false →
  fltb (torch_max x y) fzero = false.
Proof. intros Hx Hy. unfold torch_max. by destruct x as [?|?| |? ? ?], y as [?|?| |? ? ?]; try done; match goal with |- context [if ?b then _ else _] => by destruct b end. Qed.

Lemma fold_max_not_neg l x : fltb x fzero = false → fltb (foldl torch_max x (fabs <$> l)) fzero = false.
Proof. revert x. induction l as [|y l IH]; intros x Hx; [done|]. cbn. apply IH, torch_max_not_neg; [done|apply fabs_not_neg]. Qed.

Lemma group_scale_pad g n : g ≠ [] → group_scale (g ++ replicate n fzero) = group_scale g.
Proof.
  destruct g as [|x g]; [done|]. intros _. unfold group_scale. rewrite fmap_app. cbn [fmap list_fmap app]. rewrite !amax_cons, foldl_app.
  rewrite fold_max_zeros; [done|]. apply fold_max_not_neg, fabs_not_neg.
Qed.

Lemma group_scale_total g : g ≠ [] → ∃ s, group_scale g = Ok s.
Proof. destruct g; [done|]. intros _. eexists. reflexivity. Qed.

Lemma group_code_range s x : -8 ≤ group_code of_nan s x ≤ 7.
Proof.
  unfold group_code. assert (-8 ≤ code of_nan (-7) 7 (div_in float32 x (to_format float32 s)) ≤ 7).
  { destruct (div_in _ _ _) as [?|[]| |? ? ?]; cbn [code]; lia. }
  rewrite to_int8_id; lia.
Qed.

(** The bytes give the codes back. *)
Definition enc (c : Z) : Z := to_uint8 (to_int8 (c + 8)).

Lemma enc_range c : -8 ≤ c ≤ 7 → 0 ≤ enc c < 16 ∧ enc c = c + 8.
Proof. intros. unfold enc. rewrite to_int8_id, to_uint8_id; lia. Qed.

Lemma unpack_pack (q : list Z) : Z.even (zlen q) = true → Forall (λ c, -8 ≤ c ≤ 7) q →
  let packed := zip_with pack_byte (enc <$> evens q) (enc <$> odds q) in
  broadcast2 pack_byte (enc <$> evens q) (enc <$> odds q) = Ok packed ∧
  zlen packed = zlen q / 2 ∧ Forall (λ b, 0 ≤ b < 256) packed ∧
  interleave ((λ b, to_int8 (low_nibble b) - 8) <$> packed) ((λ b, to_int8 (high_nibble b) - 8) <$> packed) = q.
Proof.
  intros He Hq packed. split; [|subst packed].
  - unfold broadcast2, packed. replace (_ =? _) with true; [done|]. symmetry. apply Z.eqb_eq.
    unfold zlen. rewrite !length_fmap. fold (zlen (evens q)) (zlen (odds q)). rewrite evens_length, odds_length.
    apply Z.even_spec in He as [k ->]. rewrite (Z.mul_comm 2), Z.div_add_l, Z.div_mul by done. change (1 / 2) with 0. lia.
  - induction q as [|x|x y q IH] using pair_ind; [done|done|].
    apply Forall_cons in Hq as [Hx [Hy Hq]%Forall_cons]. rewrite odds_cons2. cbn [evens fmap list_fmap zip_with].
    destruct IH as (Hl & Hb & Hi); [|done|].
    { rewrite !zlen_cons in He. replace (1 + (1 + zlen q)) with (2 + zlen q) in He by lia. rewrite Z.even_add in He. by destruct (Z.even (zlen q)). }
    destruct (enc_range x Hx) as [Rx Ex], (enc_range y Hy) as [Ry Ey]. rewrite !zlen_cons. split_and!.
    + rewrite Hl. replace (1 + (1 + zlen q)) with (zlen q + 1 * 2) by lia. rewrite Z.div_add; lia.
    + constructor; [by apply pack_is_byte|done].
    + cbn [interleave fmap list_fmap] in *. rewrite low_pack, high_pack, !to_int8_id by lia. rewrite Ex, Ey, Hi. repeat f_equal; lia.
Qed.

(** ** Groups *)

Lemma groups_concat {A} n size (w : list A) : (length w ≤ n * size)%nat → concat (groups n size w) = w.
Proof.
  revert w. induction n as [|n IH]; intros w Hw; [destruct w; [done|cbn in Hw; lia]|]. cbn. rewrite IH by (rewrite length_drop; lia). apply take_drop.
Qed.

Lemma groups_length {A} n size (w : list A) : length (groups n size w) = n.
Proof. revert w. induction n as [|n IH]; intros w; [done|]. cbn. by rewrite IH. Qed.

Lemma groups_full {A} n size (w : list A) : length w = (n * size)%nat → Forall (λ g, length g = size) (groups n size w).
Proof.
  revert w. induction n as [|n IH]; intros w Hw; [constructor|]. cbn. constructor.
  - rewrite length_take. lia.
  - apply IH. rewrite length_drop. lia.
Qed.

(** What a function of a group that only pads at the end gives for a padded row. *)
Lemma groups_pad {A B} (F : list A → list B) (z : A) n size w : (n * size < length w + size)%nat → (length w ≤ n * size)%nat →
  (∀ g, length (F g) = length g) →
  (∀ g k, g ≠ [] → take (length g) (F (g ++ replicate k z)) = F g) →
  take (length w) (concat (F <$> groups n size (w ++ replicate (n * size - length w) z))) = concat (F <$> groups n size w).
Proof.
  intros Hlt Hle Hlen Hpad. revert w Hlt Hle. induction n as [|n IH]; intros w Hlt Hle.
  { destruct w; [done|cbn in Hle; lia]. }
  cbn [groups fmap list_fmap concat]. destruct (decide (size ≤ length w)%nat) as [Hs|Hs].
  - set (z' := replicate _ z). replace (take size (w ++ z')) with (take size w) by (by rewrite take_app_le).
    replace (drop size (w ++ z')) with (drop size w ++ z') by (by rewrite drop_app_le).
    assert (length (F (take size w)) = size) as HF by (rewrite Hlen, length_take; lia).
    replace (length w) with (length (F (take size w)) + length (drop size w))%nat by (rewrite HF, length_drop; lia).
    rewrite take_app_add. f_equal. rewrite <- (IH (drop size w)); rewrite ?length_drop; [|cbn in Hle; lia..].
    unfold z'. by replace (S n * size - length w)%nat with (n * size - (length w - size))%nat by (cbn; lia).
  - assert (n = 0)%nat as -> by nia. destruct w as [|x w]; [cbn in Hlt; lia|].
    cbn [groups fmap list_fmap concat]. rewrite !app_nil_r, (take_ge (x :: w)) by lia.
    rewrite (take_ge (_ ++ _)) by (rewrite length_app, length_replicate; lia). by apply Hpad.
Qed.

Lemma ceil_div_bounds a b : 0 < b → a ≤ ceil_div a b * b < a + b.
Proof. intros Hb. unfold ceil_div. pose proof (Z.div_mod (- a) b). pose proof (Z.mod_pos_bound (- a) b Hb). nia. Qed.

(** *** The quantised groups *)

Lemma quantize_groups_ok (gs : list (list float)) : Forall (λ g, g ≠ []) gs →
  ∃ qs, mapM (quantize_group of_nan) gs = Ok qs ∧
    Forall2 (λ g sc, group_scale g = Ok sc.1 ∧ sc.2 = group_code of_nan sc.1 <$> g) gs qs.
Proof.
  induction gs as [|g gs IH]; intros Hg; [by exists []|]. apply Forall_cons in Hg as [Hg Hgs].
  destruct (IH Hgs) as (qs & Eq & Hq), (group_scale_total g Hg) as [s Es].
  exists ((s, group_code of_nan s <$> g) :: qs). split; [|by constructor].
  assert (quantize_group of_nan g = Ok (s, group_code of_nan s <$> g)) as E by (unfold quantize_group; by rewrite Es).
  cbn [mapM]. rewrite E. cbn [mbind res_bind]. by rewrite Eq.
Qed.

(** The codes times the repeated scales, group by group *)
Lemma dequant_groups dtype size gs qs : Forall (λ g, length g = size) gs →
  Forall2 (λ g sc, group_scale g = Ok sc.1 ∧ sc.2 = group_code of_nan sc.1 <$> g) gs qs →
  zip_with (mul_in dtype) (of_int dtype <$> concat qs.*2) (concat ((λ s, replicate size (to_format dtype s)) <$> qs.*1)) =
  concat (int4_group of_nan dtype <$> gs).
Proof.
  intros Hs H2. induction H2 as [|g [s c] gs qs [Eg Ec] H2 IH]; [done|]. apply Forall_cons in Hs as [Hg Hs].
  cbn [fmap list_fmap concat fst snd] in *. rewrite fmap_app, zip_with_app by (subst c; by rewrite !length_fmap, length_replicate).
  rewrite IH by done. f_equal. subst c. unfold int4_group. rewrite Eg, <- Hg. clear.
  induction g as [|x g IH]; [done|]. cbn. by f_equal.
Qed.

Lemma int4_group_length dtype g : length (int4_group of_nan dtype g) = length g.
Proof. unfold int4_group. destruct g as [|x g]; [done|]. destruct (group_scale_total (x :: g)) as [s ->]; [done|]. by rewrite length_fmap. Qed.

Lemma int4_group_pad dtype g k : g ≠ [] →
  take (length g) (int4_group of_nan dtype (g ++ replicate k fzero)) = int4_group of_nan dtype g.
Proof.
  intros Hg. unfold int4_group. rewrite group_scale_pad by done. destruct (group_scale_total g Hg) as [s ->].
  rewrite fmap_app, take_app_length'; [done|]. by rewrite length_fmap.
Qed.

Lemma codes_range gs qs :
  Forall2 (λ (g : list float) (sc : float * list Z), group_scale g = Ok sc.1 ∧ sc.2 = group_code of_nan sc.1 <$> g) gs qs →
  Forall (λ c, -8 ≤ c ≤ 7) (concat qs.*2).
Proof.
  induction 1 as [|g [s c] gs qs [_ Ec] _ IH]; [constructor|]. cbn in *. apply Forall_app. split; [|done].
  subst c. apply Forall_fmap, Forall_true. intros x. apply group_code_range.
Qed.

Lemma group_sizes size (f : float → float) gs qs : Forall (λ g, length g = size) gs →
  Forall2 (λ (g : list float) (sc : float * list Z), group_scale g = Ok sc.1 ∧ sc.2 = group_code of_nan sc.1 <$> g) gs qs →
  length (concat qs.*2) = (length gs * size)%nat ∧
  length (concat ((λ s, replicate size (f s)) <$> qs.*1)) = (length gs * size)%nat ∧ length qs = length gs.
Proof.
  intros Hs. induction 1 as [|g [s c] gs qs [_ Ec] _ IH]; [done|]. apply Forall_cons in Hs as [Hg Hs].
  destruct (IH Hs) as (H1 & H2 & H3). cbn in *. subst c. rewrite !length_app, length_fmap, length_replicate, H1, H2, H3. lia.
Qed.

Lemma int4_round_trip group_size weight : 0 < group_size → Z.even group_size = true →
  ∃ packed scales, quantize_group_int4 of_nan weight group_size = Ok (packed, scales) ∧
    zlen packed = ceil_div (zlen weight) 2 ∧ zlen scales = ceil_div (zlen weight) group_size ∧ Forall (λ b, 0 ≤ b < 256) packed ∧
    ∀ dtype, dequant_group_int4 packed scales (zlen weight) dtype group_size = Ok (int4_row of_nan group_size dtype weight).
Proof.
  intros Hpos Heven. pose proof (ceil_div_bounds (zlen weight) group_size Hpos) as Hb. pose proof (zlen_nonneg weight) as Hw.
  unfold quantize_group_int4. destruct (Z.eqb_spec group_size 0) as [|_]; [lia|]. cbv zeta.
  set (n := Z.to_nat (ceil_div (zlen weight) group_size)) in *. set (size := Z.to_nat group_size) in *.
  assert (0 ≤ ceil_div (zlen weight) group_size) as Hn0 by nia.
  set (w := to_format float32 <$> weight) in *. assert (length w = length weight) as Hlw by (unfold w; apply length_fmap).
  assert (Z.of_nat (n * size) = ceil_div (zlen weight) group_size * group_size) as Hns by (unfold n, size; lia).
  assert (Z.to_nat (ceil_div (zlen weight) group_size * group_size - zlen weight) = (n * size - length w)%nat) as ->.
  { rewrite Hlw. unfold zlen in *. lia. }
  assert (length w ≤ n * size)%nat as Hle by (unfold zlen in *; lia).
  assert (n * size < length w + size)%nat as Hlt by (unfold zlen, size in *; lia).
  set (wp := w ++ replicate (n * size - length w) fzero).
  assert (length wp = n * size)%nat as Hwp by (unfold wp; rewrite length_app, length_replicate; lia).
  pose proof (groups_full n size wp Hwp) as Hfull.
  destruct (quantize_groups_ok (groups n size wp)) as (qs & Eq & H2).
  { eapply Forall_impl; [exact Hfull|]. intros g Hg ->. cbn in Hg. unfold size in *. lia. }
  destruct (group_sizes size id _ _ Hfull H2) as (Hc & _ & Hq). rewrite groups_length in Hc, Hq.
  rewrite Eq. cbn [mbind res_bind]. fold enc.
  set (even_dim := zlen weight + zlen weight mod 2).
  assert (Z.even even_dim = true ∧ zlen weight ≤ even_dim ∧ even_dim / 2 = ceil_div (zlen weight) 2) as (Hev & Hged & Hhalf).
  { unfold even_dim, ceil_div. rewrite Zeven_mod, Zeq_is_eq_bool. pose proof (Z.mod_pos_bound (zlen weight) 2). split_and!; Z.div_mod_to_equations; lia. }
  assert (even_dim ≤ Z.of_nat (n * size)) as Hed.
  { rewrite Hns. apply Z.even_spec in Heven as [k Hk]. unfold even_dim in *. apply Z.even_spec in Hev as [j Hj].
    pose proof (Z.mod_pos_bound (zlen weight) 2). nia. }
  set (q := take (Z.to_nat even_dim) (concat qs.*2)).
  assert (zlen q = even_dim) as Hzq by (unfold q, zlen; rewrite length_take; lia).
  destruct (unpack_pack q) as (Ep & Hlp & Hbytes & Hi); [by rewrite Hzq|apply Forall_take, (codes_range _ _ H2)|].
  rewrite Ep. cbn [mbind res_bind]. do 2 eexists. split; [reflexivity|]. split_and!; [by rewrite Hlp, Hzq| |done|].
  { unfold zlen at 1. rewrite length_fmap, Hq. unfold n. by rewrite Z2Nat.id. }
  intros dtype. unfold dequant_group_int4. rewrite Hi. fold size. unfold q. rewrite take_take, Nat.min_l by lia.
  set (d := Z.to_nat (zlen weight)). assert (d = length w) as Hd by (unfold d, zlen; lia).
  unfold broadcast2. replace (zlen _ =? zlen _) with true.
  2: { symmetry. apply Z.eqb_eq. unfold zlen. rewrite length_fmap, !length_take.
       destruct (group_sizes size (to_format dtype) _ _ Hfull H2) as (_ & Hs & _). rewrite groups_length in Hs. by rewrite Hs, Hc. }
  f_equal. rewrite fmap_take, <- zip_with_take, (dequant_groups dtype size _ _ Hfull H2), Hd. unfold wp.
  apply groups_pad; [done|done|apply int4_group_length|intros; by apply int4_group_pad].
Qed.
End packing.

(** ** What the clamp does not prevent *)

(** 1e-8 divided by 7 or 127 is zero in float16, so a group of zeros divides zero by zero: its codes
    are casts of NaN, and the bytes of the padding are not the code zero. *)
Lemma zero_group_is_nan : ∃ s, group_scale [fzero; fzero] = Ok s ∧ div_in float32 fzero (to_format float32 s) = S754_nan.
Proof. exists fzero. by split; vm_compute. Qed.

Lemma zero_row_is_nan : ∃ q s, quantize_per_out_channel_int8 5 float32 [fzero; fzero] = Ok (q, s) ∧ q = [5; 5] ∧ s = fzero.
Proof. do 2 eexists. split; [vm_compute; reflexivity|done]. Qed.

(** An odd group size that divides an odd width leaves no padding for the last nibble. *)
Lemma odd_groups_refused : quantize_group_int4 0 (of_int float32 <$> [1; 2; 3; 4; 5]) 5 = Raise RuntimeError.
Proof. by vm_compute. Qed.
