(* ===== verification/Experts.v ===== *)
(** * The pass over the routed experts (utils/moe_expert_quant.py)

    [_RoutedExpertsForwardMixin.forward] over a store of expert weights: plain, of eight bits and of
    four bits. Every pick of the router contributes once to its token, in the order of the experts;
    a store of four bits computes with exactly the quantised weights.

    A matrix product on a row and the activation are parameters; sums and products by elements are
    those of the format. *)

From Stdlib Require Sorting.Sorted.
From stdpp Require Import numbers base list strings.
From Stdlib Require Import ZArith Lia SpecFloat.
From S2P Require Import Prelude Dict Floats Quant ExpertQuant.

Definition matrix : Type := list (list float).

(** What the pass asks of a store: the number of experts and two matrices for each. *)
Class ExpertStore (S : Type) := {
  num_experts : S → nat;
  gate_up_weight : S → nat → format → res matrix;
  down_weight : S → nat → format → res matrix;
}.

(** ** The pass *)

Section forward.
Context (linear : matrix → list float → list float) (act_fn : float → float).
(** The formats of the hidden states and of their product with the router's weights *)
Context (dtype promoted : format).

(** [chunk(2, dim=-1)] into two names *)
Definition chunk2 (l : list float) : res (list float * list float) :=
  let n := Z.to_nat (ceil_div (zlen l) 2) in
  if (zlen l <? 2) then mthrow ValueError else mret (take n l, drop n l).

(** [self.act_fn(gate) * up] *)
Definition gated (gate_up : list float) : res (list float) :=
  gu ← chunk2 gate_up;
  broadcast2 (mul_in dtype) (act_fn <$> gu.1) gu.2.

(** One row of what an expert adds: [top_k_weights[token_idx, top_k_pos]] times its output. *)
Definition expert_row (gate_up_w down_w : matrix) (h : list float) (w : float) : res (list float) :=
  x ← gated (linear gate_up_w h);
  mret ((λ v, to_format dtype (mul_in promoted v w)) <$> linear down_w x).

(** One row of [index_add_] *)
Definition index_add (final : list (list float)) (token : nat) (row : list float) : res (list (list float)) :=
  old ← of_option IndexError (final !! token);
  if zlen old =? zlen row then mret (<[token := zip_with (add_in dtype) old row]> final) else mthrow RuntimeError.

Fixpoint index_add_rows (final : list (list float)) (l : list (nat * list float)) : res (list (list float)) :=
  match l with
  | [] => mret final
  | (token, row) :: l => final ← index_add final token row; index_add_rows final l
  end.

Section routed.
Context {S : Type} `{!ExpertStore S} (store : S) (hidden : list (list float)) (top_k_index : list (list Z)) (top_k_weights : list (list float)).

Definition top_k : nat := match top_k_index with row :: _ => length row | [] => 0 end.
Definition pick (token k : nat) : option Z := top_k_index !! token ≫= (.!! k).

(** [torch.where(expert_mask[expert_idx])]: positions and tokens, position first *)
Definition expert_where (e : nat) : list (nat * nat) :=
  concat ((λ k, (λ t, (k, t)) <$> filter (λ t, pick t k = Some (Z.of_nat e)) (seq 0 (length top_k_index))) <$> seq 0 top_k).

(** [expert_mask.sum(dim=(-1, -2)) > 0] *)
Definition expert_hit : list nat :=
  filter (λ e, existsb (existsb (Z.eqb (Z.of_nat e))) top_k_index = true) (seq 0 (num_experts store)).

(** The body of the loop *)
Definition run_expert (final : list (list float)) (e : nat) : res (list (list float)) :=
  let places := expert_where e in
  gate_up_w ← gate_up_weight store e dtype;
  down_w ← down_weight store e dtype;
  rows ← mapM (λ kt : nat * nat,
    h ← of_option IndexError (hidden !! kt.2);
    w ← of_option IndexError (top_k_weights !! kt.2 ≫= (.!! kt.1));
    expert_row gate_up_w down_w h w) places;
  index_add_rows final (zip places.*2 rows).

Fixpoint run_experts (final : list (list float)) (hit : list nat) : res (list (list float)) :=
  match hit with
  | [] => mret final
  | e :: hit => final ← run_expert final e; run_experts final hit
  end.

(** [one_hot(top_k_index, num_classes=num_experts)] refuses other classes. *)
Definition one_hot_ok : bool :=
  forallb (forallb (λ c, (0 <=? c) && (c <? Z.of_nat (num_experts store)))) top_k_index.

Definition forward : res (list (list float)) :=
  if negb one_hot_ok then mthrow RuntimeError
  else run_experts ((λ h, replicate (length h) fzero) <$> hidden) expert_hit.

(** ** What a token gets *)

(** The picks of a token in the order of the experts *)
Definition picked_by (token e : nat) : list nat := filter (λ k, pick token k = Some (Z.of_nat e)) (seq 0 top_k).
Definition picks (token : nat) : list (nat * nat) :=
  concat ((λ e, (λ k, (e, k)) <$> picked_by token e) <$> seq 0 (num_experts store)).

(** What pick [k] of expert [e] adds to the token: the expert's output times the router's weight. *)
Definition contribution (half : nat) (token : nat) (h : list float) (ek : nat * nat) : list float :=
  match gate_up_weight store ek.1 dtype, down_weight store ek.1 dtype, top_k_weights !! token ≫= (.!! ek.2) with
  | Ok gate_up_w, Ok down_w, Some w =>
      let gu := linear gate_up_w h in
      (λ v, to_format dtype (mul_in promoted v w)) <$> linear down_w (zip_with (mul_in dtype) (act_fn <$> take half gu) (drop half gu))
  | _, _, _ => []
  end.

Definition add_rows : list float → list float → list float := zip_with (add_in dtype).
Definition expert_sum (half : nat) (token : nat) (h : list float) : list float :=
  foldl add_rows (replicate (length h) fzero) (contribution half token h <$> picks token).
End routed.

(** ** The order of the picks *)

(** Elements filed by key come out once each. *)
Lemma filed_once {A} (key : A → nat) (l : list A) n :
  concat ((λ e, filter (λ x, key x = e) l) <$> seq 0 n) ≡ₚ filter (λ x, key x < n)%nat l.
Proof.
  induction n as [|n IH].
  - simpl. rewrite filter_empty; [done|]. apply Forall_true. lia.
  - rewrite seq_S, fmap_app, concat_app, IH. cbn [fmap list_fmap concat]. rewrite app_nil_r. simpl. clear IH.
    induction l as [|x l IH]; [done|]. rewrite !filter_cons.
    destruct (decide (key x < n)%nat), (decide (key x = n)), (decide (key x < S n)%nat); try lia; simpl; rewrite <- ?Permutation_middle, IH; done.
Qed.

Lemma fmap_concat {A B} (f : A → B) (l : list (list A)) : f <$> concat l = concat (fmap (M:=list) f <$> l).
Proof. induction l as [|x l IH]; [done|]. cbn. by rewrite fmap_app, IH. Qed.

(** Skipping the empty lists changes nothing. *)
Lemma concat_filter {A B} (P : A → Prop) `{∀ x, Decision (P x)} (F : A → list B) l :
  (∀ x, ¬ P x → F x = []) → concat (F <$> filter P l) = concat (F <$> l).
Proof.
  intros HF. induction l as [|x l IH]; [done|]. rewrite filter_cons. destruct (decide (P x)) as [Hx|Hx]; cbn; rewrite IH; [done|].
  by rewrite HF.
Qed.

(** Each belongs to the expert it is filed under, and experts come in increasing order. *)
Lemma picks_are {S : Type} `{!ExpertStore S} (store : S) top_k_index token :
  Forall (λ ek : nat * nat, pick top_k_index token ek.2 = Some (Z.of_nat ek.1)) (picks store top_k_index token).
Proof.
  unfold picks. apply Forall_concat, Forall_fmap, Forall_true. intros e. apply Forall_fmap, list.Forall_forall.
  intros k [Hk _]%list_elem_of_filter. done.
Qed.

Lemma sorted_blocks (F : nat → nat) a n : Sorting.Sorted.StronglySorted le (concat ((λ e, replicate (F e) e) <$> seq a n)).
Proof.
  revert a. induction n as [|n IH]; intros a; [constructor|]. cbn. induction (F a) as [|m IHm]; [apply IH|].
  cbn. constructor; [done|]. apply Forall_app. split; [apply Forall_replicate; lia|].
  apply Forall_concat, Forall_fmap, Forall_seq. intros e He. apply Forall_replicate. lia.
Qed.

Lemma picks_sorted {S : Type} `{!ExpertStore S} (store : S) top_k_index token :
  Sorting.Sorted.StronglySorted le (picks store top_k_index token).*1.
Proof.
  unfold picks. rewrite fmap_concat, <- list_fmap_compose.
  replace (concat _) with (concat ((λ e, replicate (length (picked_by top_k_index token e)) e) <$> seq 0 (num_experts store))); [apply sorted_blocks|].
  f_equal. apply list_fmap_ext. intros _ e _. cbn. generalize (picked_by top_k_index token e).
  intros l. induction l as [|k l IH]; [done|]. cbn. by rewrite IH.
Qed.

Lemma filter_ext_in {A} (P Q : A → Prop) `{∀ x, Decision (P x)} `{∀ x, Decision (Q x)} (l : list A) :
  (∀ x, x ∈ l → P x ↔ Q x) → filter P l = filter Q l.
Proof.
  induction l as [|x l IH]; intros Hx; [done|]. rewrite !filter_cons. specialize (IH (λ y Hy, Hx y (list_elem_of_further _ _ _ Hy))).
  destruct (decide (P x)) as [HP|HP], (decide (Q x)) as [HQ|HQ]; rewrite ?IH; try done; exfalso; [apply HQ|apply HP]; by apply (Hx x); [left|].
Qed.

(** The places of one token among those of all *)
Definition of_token (token : nat) (kt : nat * nat) : option nat := if decide (kt.2 = token) then Some kt.1 else None.

Lemma of_token_row (P : nat → Prop) `{∀ t, Decision (P t)} (l : list nat) token k : NoDup l → token ∈ l →
  omap (of_token token) ((λ t, (k, t)) <$> filter P l) = if decide (P token) then [k] else [].
Proof.
  assert (∀ l', token ∉ l' → omap (of_token token) ((λ t, (k, t)) <$> filter P l') = []) as Hno.
  { intros l'. induction l' as [|t l' IH]; [done|]. rewrite not_elem_of_cons, filter_cons. intros [Ht Hl].
    destruct (decide (P t)); [|auto]. cbn. unfold of_token at 1. simpl. rewrite decide_False by done. auto. }
  induction 1 as [|t l Ht Hl IH]; [by intros ?%elem_of_nil|]. intros [->|Hin]%elem_of_cons; rewrite filter_cons.
  - destruct (decide (P t)); [|by apply Hno]. cbn. unfold of_token at 1. simpl. rewrite decide_True by done. by rewrite Hno.
  - destruct (decide (P t)); [|auto]. cbn. unfold of_token at 1. simpl. rewrite decide_False; [auto|]. by intros ->.
Qed.

Lemma omap_concat {A B} (f : A → option B) (l : list (list A)) : omap f (concat l) = concat (omap (M:=list) f <$> l).
Proof. induction l as [|x l IH]; [done|]. cbn. by rewrite omap_app, IH. Qed.

Lemma where_of_token top_k_index e token : (token < length top_k_index)%nat →
  omap (of_token token) (expert_where top_k_index e) = picked_by top_k_index token e.
Proof.
  intros Ht. unfold expert_where, picked_by. rewrite omap_concat. generalize (top_k top_k_index); intros K.
  generalize (seq 0 K); intros ks. induction ks as [|k ks IH]; [done|]. cbn [fmap list_fmap concat].
  rewrite IH, of_token_row by (try apply NoDup_seq; apply elem_of_seq; lia). rewrite filter_cons. by destruct (decide _).
Qed.

(** ** The pass computes the sums *)

Section correct.
Context {S : Type} `{!ExpertStore S} (store : S) (hidden : list (list float)) (top_k_index : list (list Z)) (top_k_weights : list (list float)).
Context (half width : nat).

(** The shapes the router and the store give *)
Record routed_ok : Prop := mkRoutedOk {
  ro_width : Forall (λ h, length h = width) hidden;
  ro_index : length top_k_index = length hidden ∧ Forall (λ row, length row = top_k top_k_index) top_k_index;
  ro_weights : length top_k_weights = length hidden ∧ Forall (λ row, length row = top_k top_k_index) top_k_weights;
  ro_experts : Forall (Forall (λ c, 0 ≤ c < Z.of_nat (num_experts store))) top_k_index;
  ro_half : (0 < half)%nat;
  ro_store : ∀ e, (e < num_experts store)%nat → ∃ gate_up_w down_w,
    gate_up_weight store e dtype = Ok gate_up_w ∧ length gate_up_w = (half + half)%nat ∧
    down_weight store e dtype = Ok down_w ∧ length down_w = width;
  ro_linear : ∀ W x, length (linear W x) = length W;
}.

Definition contrib : nat → list float → nat * nat → list float := contribution store top_k_weights half.

Lemma expert_row_ok gate_up_w down_w h w : (∀ W x, length (linear W x) = length W) → (0 < half)%nat → length gate_up_w = (half + half)%nat →
  expert_row gate_up_w down_w h w =
  Ok ((λ v, to_format dtype (mul_in promoted v w)) <$>
      linear down_w (zip_with (mul_in dtype) (act_fn <$> take half (linear gate_up_w h)) (drop half (linear gate_up_w h)))).
Proof.
  intros Hlin Hhalf Hg. unfold expert_row, gated, chunk2.
  assert (zlen (linear gate_up_w h) = 2 * Z.of_nat half) as Hz by (unfold zlen; rewrite Hlin; lia).
  rewrite Hz. destruct (Z.ltb_spec (2 * Z.of_nat half) 2); [lia|].
  assert (Z.to_nat (ceil_div (2 * Z.of_nat half) 2) = half) as ->.
  { unfold ceil_div. rewrite Z.mul_comm, <- Z.mul_opp_l, Z.div_mul by done. lia. }
  cbn [mbind res_bind mret res_ret fst snd]. unfold broadcast2.
  replace (zlen _ =? zlen _) with true; [done|]. symmetry. apply Z.eqb_eq. unfold zlen in *.
  rewrite length_fmap, length_take, length_drop. lia.
Qed.

Definition row_of (token : nat) (tr : nat * list float) : option (list float) := if decide (tr.1 = token) then Some tr.2 else None.

Lemma index_add_rows_ok l : ∀ final, Forall (λ f, length f = width) final →
  Forall (λ tr : nat * list float, (tr.1 < length final)%nat ∧ length tr.2 = width) l →
  ∃ final', index_add_rows final l = Ok final' ∧ length final' = length final ∧ Forall (λ f, length f = width) final' ∧
    ∀ token f, final !! token = Some f → final' !! token = Some (foldl add_rows f (omap (row_of token) l)).
Proof.
  induction l as [|[t row] l IH]; intros final Hf Hl; [by exists final|]. apply Forall_cons in Hl as [[Ht Hrow] Hl]. cbn in Ht, Hrow.
  destruct (lookup_lt_is_Some_2 final t Ht) as [old Hold]. pose proof (Forall_lookup_1 _ _ _ _ Hf Hold) as Hlo. cbn in Hlo.
  assert (length (add_rows old row) = width) as Hadd by (unfold add_rows; rewrite length_zip_with; lia).
  destruct (IH (<[t := add_rows old row]> final)) as (final' & E & Hlen & Hf' & Hget).
  { by apply Forall_insert. }
  { by rewrite length_insert. }
  rewrite length_insert in Hlen. exists final'. split_and!; [|done|done|].
  - cbn [index_add_rows]. unfold index_add. rewrite Hold. cbn [of_option mbind res_bind].
    replace (zlen old =? zlen row) with true by (symmetry; apply Z.eqb_eq; unfold zlen; lia). exact E.
  - intros token f Htok. cbn. unfold row_of at 1. cbn [fst snd]. case_decide as Hd; [subst t|].
    + rewrite Hold in Htok. injection Htok as ->. cbn. apply Hget. by rewrite list_lookup_insert_eq.
    + apply Hget. by rewrite list_lookup_insert_ne.
Qed.

Lemma rows_of_token (g : nat * nat → list float) token (places : list (nat * nat)) :
  omap (row_of token) (zip places.*2 (g <$> places)) = (λ k, g (k, token)) <$> omap (of_token token) places.
Proof.
  induction places as [|[k t] places IH]; [done|]. cbn. unfold row_of at 1, of_token at 1. cbn [fst snd]. case_decide; [subst t; cbn|]; by rewrite IH.
Qed.

Context (Hok : routed_ok).

Lemma run_expert_ok e final : (e < num_experts store)%nat → length final = length hidden → Forall (λ f, length f = width) final →
  ∃ final', run_expert store hidden top_k_index top_k_weights final e = Ok final' ∧ length final' = length hidden ∧
    Forall (λ f, length f = width) final' ∧
    ∀ token h f, hidden !! token = Some h → final !! token = Some f →
      final' !! token = Some (foldl add_rows f ((λ k, contrib token h (e, k)) <$> picked_by top_k_index token e)).
Proof.
  intros He Hlen Hf. destruct Hok as [Hw [Hi Hik] [Hwt Hwk] Hex Hhalf Hst Hlin].
  destruct (Hst e He) as (gu & dn & Egu & Lgu & Edn & Ldn).
  set (g := λ kt : nat * nat, contrib kt.2 (default [] (hidden !! kt.2)) (e, kt.1)).
  set (places := expert_where top_k_index e).
  assert (Forall (λ kt : nat * nat, (kt.2 < length hidden)%nat ∧ (kt.1 < top_k top_k_index)%nat) places) as Hp.
  { unfold places, expert_where. apply Forall_concat, Forall_fmap, Forall_seq. intros k Hk. cbn.
    apply Forall_fmap, list.Forall_forall. intros t [_ Ht%elem_of_seq]%list_elem_of_filter. cbn. lia. }
  assert (∀ kt, kt ∈ places → (h ← of_option IndexError (hidden !! kt.2); w ← of_option IndexError (top_k_weights !! kt.2 ≫= (.!! kt.1));
    expert_row gu dn h w) = Ok (g kt)) as Hrow.
  { intros [k t] Hin. rewrite list.Forall_forall in Hp. destruct (Hp _ Hin) as [Ht Hk]. cbn in Ht, Hk |- *.
    destruct (lookup_lt_is_Some_2 hidden t Ht) as [h Eh].
    destruct (lookup_lt_is_Some_2 top_k_weights t) as [ws Ews]; [lia|].
    pose proof (Forall_lookup_1 _ _ _ _ Hwk Ews) as Hl. cbn in Hl.
    destruct (lookup_lt_is_Some_2 ws k) as [w Ew]; [lia|].
    unfold g, contrib, contribution. cbn [fst snd]. rewrite Eh, Ews, Egu, Edn. cbn [default mbind option_bind]. rewrite Ew.
    cbn [of_option mbind res_bind]. by rewrite expert_row_ok. }
  assert (Forall (λ r, length r = width) (g <$> places)) as Hgw.
  { apply Forall_fmap, list.Forall_forall. intros kt Hin. pose proof (Hrow kt Hin) as E.
    destruct (hidden !! kt.2) as [h|]; [|done]. destruct (top_k_weights !! kt.2 ≫= _) as [w|]; [|done]. cbn [of_option mbind res_bind] in E.
    rewrite expert_row_ok in E by done. injection E as E. cbn. by rewrite <- E, length_fmap, Hlin. }
  destruct (index_add_rows_ok (zip places.*2 (g <$> places)) final Hf) as (final' & E & Hl' & Hf' & Hget).
  { rewrite Hlen. clear -Hp Hgw. induction places as [|[k t] ps IH]; [constructor|]. cbn in *.
    apply Forall_cons in Hp as [[??] Hp], Hgw as [??]. constructor; [done|auto]. }
  exists final'. split_and!; [|lia|done|].
  - unfold run_expert. fold places. rewrite Egu, Edn. cbn [mbind res_bind].
    rewrite (mapM_Ok _ g) by exact Hrow. cbn [mbind res_bind]. exact E.
  - intros token h f Hh Hfin. rewrite (Hget _ _ Hfin). do 2 f_equal. unfold places. rewrite rows_of_token, where_of_token.
    + apply list_fmap_ext. intros _ k _. unfold g. cbn. by rewrite Hh.
    + rewrite Hi. by eapply lookup_lt_Some.
Qed.

Lemma run_experts_ok hit : ∀ final, Forall (λ e, (e < num_experts store)%nat) hit → length final = length hidden → Forall (λ f, length f = width) final →
  ∃ final', run_experts store hidden top_k_index top_k_weights final hit = Ok final' ∧ length final' = length hidden ∧
    ∀ token h f, hidden !! token = Some h → final !! token = Some f →
      final' !! token = Some (foldl add_rows f (contrib token h <$> concat ((λ e, (λ k, (e, k)) <$> picked_by top_k_index token e) <$> hit))).
Proof.
  induction hit as [|e hit IH]; intros final Hhit Hlen Hf; [by exists final|]. apply Forall_cons in Hhit as [He Hhit].
  destruct (run_expert_ok e final He Hlen Hf) as (f1 & E1 & L1 & W1 & G1), (IH f1 Hhit L1 W1) as (f2 & E2 & L2 & G2).
  exists f2. split_and!; [|done|].
  - cbn. by rewrite E1.
  - intros token h f Hh Hfin. rewrite (G2 _ _ _ Hh (G1 _ _ _ Hh Hfin)). cbn. by rewrite fmap_app, foldl_app, <- list_fmap_compose.
Qed.

Lemma picked_by_miss e : existsb (existsb (Z.eqb (Z.of_nat e))) top_k_index ≠ true → ∀ token, picked_by top_k_index token e = [].
Proof.
  intros Hno token. apply filter_empty, Forall_true. intros k Hk. apply Hno. unfold pick in Hk.
  destruct (top_k_index !! token) as [row|] eqn:Er; [|done]. cbn in Hk. apply existsb_exists. exists row.
  split; [by apply list_elem_of_In, list_elem_of_lookup; eauto|]. apply existsb_exists. exists (Z.of_nat e).
  split; [by apply list_elem_of_In, list_elem_of_lookup; eauto|by apply Z.eqb_refl].
Qed.

(** The pass succeeds, and each token gets the sum over its picks in the order of the experts. *)
Lemma forward_ok : ∃ out, forward store hidden top_k_index top_k_weights = Ok out ∧ length out = length hidden ∧
  ∀ token h, hidden !! token = Some h → out !! token = Some (expert_sum store top_k_index top_k_weights half token h).
Proof.
  unfold forward. replace (one_hot_ok store top_k_index) with true.
  2: { symmetry. unfold one_hot_ok. rewrite !forallb_forall. intros row Hrow. rewrite forallb_forall. intros c Hc.
       destruct Hok as [_ _ _ Hex _ _ _]. rewrite list.Forall_forall in Hex. specialize (Hex row ltac:(by apply list_elem_of_In)).
       rewrite list.Forall_forall in Hex. specialize (Hex c ltac:(by apply list_elem_of_In)). cbn in Hex. lia. }
  cbn [negb]. destruct (run_experts_ok (expert_hit store top_k_index) ((λ h, replicate (length h) fzero) <$> hidden)) as (out & E & L & G).
  - apply list.Forall_forall. intros e [_ He%elem_of_seq]%list_elem_of_filter. lia.
  - apply length_fmap.
  - apply Forall_fmap. eapply Forall_impl; [apply Hok|]. intros h Hh. cbn in Hh |- *. by rewrite length_replicate.
  - exists out. split_and!; [done|done|]. intros token h Hh. rewrite (G token h (replicate (length h) fzero) Hh).
    + unfold expert_sum, picks. do 3 f_equal. unfold expert_hit. apply concat_filter. intros e He. by rewrite picked_by_miss.
    + by rewrite list_lookup_fmap, Hh.
Qed.

(** The picks of a token are all its positions, once each. *)
Lemma picks_perm token : (token < length hidden)%nat → (picks store top_k_index token).*2 ≡ₚ seq 0 (top_k top_k_index).
Proof.
  intros Ht. destruct Hok as [_ [Hi Hik] _ Hex _ _ _]. destruct (lookup_lt_is_Some_2 top_k_index token) as [row Er]; [lia|].
  pose proof (Forall_lookup_1 _ _ _ _ Hik Er) as Hl. pose proof (Forall_lookup_1 _ _ _ _ Hex Er) as Hr. cbn in Hl, Hr.
  set (key := λ k, Z.to_nat (default 0 (row !! k))).
  assert (∀ k, k ∈ seq 0 (top_k top_k_index) → ∃ c, row !! k = Some c ∧ 0 ≤ c < Z.of_nat (num_experts store)) as Hk.
  { intros k Hk%elem_of_seq. destruct (lookup_lt_is_Some_2 row k) as [c Ec]; [lia|]. exists c. split; [done|]. by apply (Forall_lookup_1 _ _ _ _ Hr Ec). }
  unfold picks. rewrite fmap_concat, <- list_fmap_compose.
  replace (concat _) with (concat ((λ e, filter (λ k, key k = e) (seq 0 (top_k top_k_index))) <$> seq 0 (num_experts store))).
  2: { f_equal. apply list_fmap_ext. intros _ e _. cbn. rewrite <- list_fmap_compose. unfold compose. cbn. rewrite list_fmap_id.
    symmetry. apply filter_ext_in. intros k Hin. destruct (Hk k Hin) as (c & Ec & ?). unfold pick, key. rewrite Er. cbn. rewrite Ec. cbn.
    split; [intros [= ->]; lia|intros <-; f_equal; lia]. }
  rewrite filed_once, filter_keep; [done|]. apply list.Forall_forall. intros k Hin. destruct (Hk k Hin) as (c & Ec & ?). unfold key. rewrite Ec. cbn. lia.
Qed.
End correct.

(** Stores that answer alike compute alike, errors included. *)
Lemma forward_ext {S1 S2 : Type} `{!ExpertStore S1} `{!ExpertStore S2} (s1 : S1) (s2 : S2) hidden top_k_index top_k_weights :
  num_experts s1 = num_experts s2 →
  (∀ e, gate_up_weight s1 e dtype = gate_up_weight s2 e dtype ∧ down_weight s1 e dtype = down_weight s2 e dtype) →
  forward s1 hidden top_k_index top_k_weights = forward s2 hidden top_k_index top_k_weights.
Proof.
  intros Hn Hw. unfold forward, one_hot_ok, expert_hit. rewrite Hn. destruct (negb _); [done|].
  generalize ((λ h, replicate (length h) fzero) <$> hidden). generalize (filter (λ e, existsb (existsb (Z.eqb (Z.of_nat e))) top_k_index = true) (seq 0 (num_experts s2))).
  intros hit. induction hit as [|e hit IH]; intros final; [done|]. cbn [run_experts].
  assert (run_expert s1 hidden top_k_index top_k_weights final e = run_expert s2 hidden top_k_index top_k_weights final e) as ->.
  { unfold run_expert. by destruct (Hw e) as [-> ->]. }
  destruct (run_expert s2 _ _ _ final e); cbn; auto.
Qed.
End forward.

(** C35: with indices and weights of the right shapes the pass over the experts never raises, and the row of a token
    is the sum, in the format of the hidden states and in the order of the experts, of one gated product per
    pick of its router: every pick counts once, at its own weight, whatever the other tokens picked. *)
Theorem routed_experts_sum {S : Type} `{!ExpertStore S} linear act_fn dtype promoted (store : S) hidden top_k_index top_k_weights half width :
  routed_ok linear dtype store hidden top_k_index top_k_weights half width →
  ∃ out, forward linear act_fn dtype promoted store hidden top_k_index top_k_weights = Ok out ∧ length out = length hidden ∧
    ∀ token h, hidden !! token = Some h →
      (picks store top_k_index token).*2 ≡ₚ seq 0 (top_k top_k_index) ∧
      Forall (λ ek : nat * nat, pick top_k_index token ek.2 = Some (Z.of_nat ek.1)) (picks store top_k_index token) ∧
      Sorting.Sorted.StronglySorted le (picks store top_k_index token).*1 ∧
      out !! token = Some (foldl (add_rows dtype) (replicate (length h) fzero)
        (contribution linear act_fn dtype promoted store top_k_weights half token h <$> picks store top_k_index token)).
Proof.
  intros Hok. destruct (forward_ok linear act_fn dtype promoted store hidden top_k_index top_k_weights half width Hok) as (out & E & L & G).
  exists out. split; [done|]. split; [done|]. intros token h Hh. split; [|split; [|split]].
  - eapply picks_perm; [exact Hok|]. by eapply lookup_lt_Some.
  - apply picks_are.
  - apply picks_sorted.
  - by apply G.
Qed.

(** ** An example: two experts with one hidden unit each, two tokens, two picks each *)

Definition ex_f (n : Z) : float := of_int float32 n.
Definition ex_dot (W : matrix) (x : list float) : list float :=
  (λ r, foldl (add_in float32) fzero (zip_with (mul_in float32) r x)) <$> W.

Record ex_store_t := mkExStore { ex_gate : list matrix; ex_down : list matrix }.
#[local] Instance ex_experts : ExpertStore ex_store_t := {|
  num_experts s := length (ex_gate s);
  gate_up_weight s e _ := of_option IndexError (ex_gate s !! e);
  down_weight s e _ := of_option IndexError (ex_down s !! e);
|}.
Definition ex_store : ex_store_t :=
  mkExStore [[[ex_f 1; ex_f 2]; [ex_f 3; ex_f 1]]; [[ex_f 2; ex_f 0]; [ex_f 1; ex_f 1]]] [[[ex_f 1]; [ex_f 2]]; [[ex_f 3]; [ex_f 1]]].
Definition ex_hidden : matrix := [[ex_f 1; ex_f 2]; [ex_f 3; ex_f 1]].

Lemma ex_routed_ok : routed_ok ex_dot float32 ex_store ex_hidden [[1; 0]; [0; 1]] [[ex_f 2; ex_f 1]; [ex_f 1; ex_f 3]] 1 2.
Proof.
  split.
  - by repeat constructor.
  - by split; repeat constructor.
  - by split; repeat constructor.
  - repeat constructor; cbn; lia.
  - lia.
  - intros [|[|e]] He; [do 2 eexists; split_and!; reflexivity..|cbn in He; lia].
  - intros W x. unfold ex_dot. by rewrite length_fmap.
Qed.

Lemma routed_experts_sum_witness : ∃ out, forward ex_dot (λ x, x) float32 float32 ex_store ex_hidden [[1; 0]; [0; 1]] [[ex_f 2; ex_f 1]; [ex_f 1; ex_f 3]] = Ok out ∧
  picks ex_store [[1; 0]; [0; 1]] 0 = [(0, 1); (1, 0)]%nat ∧ out !! 0%nat = Some [ex_f 61; ex_f 62].
Proof.
  destruct (routed_experts_sum ex_dot (λ x, x) float32 float32 ex_store ex_hidden _ _ _ _ ex_routed_ok) as (out & E & _ & G).
  exists out. split; [exact E|]. split; [reflexivity|]. destruct (G 0%nat _ eq_refl) as (_ & _ & _ & ->). vm_compute. reflexivity.
Defined.
