(* ===== verification/ExpertStores.v ===== *)
(** * Stores of expert weights (utils/moe_expert_quant.py)

    The eight-bit and the four-bit replacement of a block's experts, how they are built from the
    fused tensors and what they answer, the swap over the modules of a block, and the size that
    server/block_utils.py expects. *)

From stdpp Require Import numbers base list strings.
From Stdlib Require Import ZArith Lia SpecFloat.
From S2P Require Import Prelude Dict Floats Quant ExpertQuant Experts.

(** The fused tensors of the experts of a block: one matrix per expert, a row per output. *)
Record fused_experts := mkFused {
  gate_up_proj : list matrix; down_proj : list matrix; hidden_dim : Z; intermediate_dim : Z;
}.

(** ** The replacements *)

Record int8_experts := mkInt8 {
  e8_num_experts : nat;
  gate_up_proj_q : list (list (list Z)); gate_up_proj_scale8 : list (list float);
  down_proj_q : list (list (list Z)); down_proj_scale8 : list (list float);
}.

Record int4_experts := mkInt4 {
  e4_num_experts : nat; e4_hidden_dim : Z; e4_intermediate_dim : Z; group_size : Z;
  gate_up_proj_packed : list (list (list Z)); gate_up_proj_scale : list (list (list float));
  down_proj_packed : list (list (list Z)); down_proj_scale : list (list (list float));
}.

Section stores.
Context (of_nan : Z).

(** A tensor quantised by rows: the codes and the scales, of the tensor's shape but for the last dimension. *)
Definition quantize_tensor {A B} (quantize : list float → res (A * B)) (t : list matrix) : res (list (list A) * list (list B)) :=
  rows ← mapM (mapM quantize) t; mret (fmap (M:=list) fst <$> rows, fmap (M:=list) snd <$> rows).

(** [QuantizedQwen3MoeExperts.from_experts] *)
Definition int8_from_experts (f : format) (experts : fused_experts) : res int8_experts :=
  gate_up ← quantize_tensor (quantize_per_out_channel_int8 of_nan f) (gate_up_proj experts);
  down ← quantize_tensor (quantize_per_out_channel_int8 of_nan f) (down_proj experts);
  mret (mkInt8 (length (gate_up_proj experts)) gate_up.1 gate_up.2 down.1 down.2).

(** [QuantizedQwen3MoeExpertsInt4.from_experts] *)
Definition int4_from_experts (size : Z) (experts : fused_experts) : res int4_experts :=
  gate_up ← quantize_tensor (λ w, quantize_group_int4 of_nan w size) (gate_up_proj experts);
  down ← quantize_tensor (λ w, quantize_group_int4 of_nan w size) (down_proj experts);
  mret (mkInt4 (length (gate_up_proj experts)) (hidden_dim experts) (intermediate_dim experts) size gate_up.1 gate_up.2 down.1 down.2).

(** The rows of one expert, dequantised *)
Definition dequant_expert {A B} (dequant : A → B → res (list float)) (codes : list (list A)) (scales : list (list B)) (e : nat) : res matrix :=
  q ← of_option IndexError (codes !! e);
  s ← of_option IndexError (scales !! e);
  mapM (λ qs : A * B, dequant qs.1 qs.2) (zip q s).

#[export] Instance int8_store : ExpertStore int8_experts := {|
  num_experts s := e8_num_experts s;
  gate_up_weight s e dtype := dequant_expert (λ q sc, mret (dequant_int8 dtype q sc)) (gate_up_proj_q s) (gate_up_proj_scale8 s) e;
  down_weight s e dtype := dequant_expert (λ q sc, mret (dequant_int8 dtype q sc)) (down_proj_q s) (down_proj_scale8 s) e;
|}.

#[export] Instance int4_store : ExpertStore int4_experts := {|
  num_experts s := e4_num_experts s;
  gate_up_weight s e dtype :=
    dequant_expert (λ p sc, dequant_group_int4 p sc (e4_hidden_dim s) dtype (group_size s)) (gate_up_proj_packed s) (gate_up_proj_scale s) e;
  down_weight s e dtype :=
    dequant_expert (λ p sc, dequant_group_int4 p sc (e4_intermediate_dim s) dtype (group_size s)) (down_proj_packed s) (down_proj_scale s) e;
|}.

(** The weights as they are: the store of the original module. *)
#[export] Instance fused_store : ExpertStore fused_experts := {|
  num_experts s := length (gate_up_proj s);
  gate_up_weight s e dtype := of_option IndexError (gate_up_proj s !! e);
  down_weight s e dtype := of_option IndexError (down_proj s !! e);
|}.

(** ** The shapes of fused tensors *)

Record fused_ok (half width : nat) (x : fused_experts) : Prop := mkFusedOk {
  fo_hidden : hidden_dim x = Z.of_nat width; fo_inter : intermediate_dim x = Z.of_nat half;
  fo_count : length (down_proj x) = length (gate_up_proj x);
  fo_gate : Forall (λ m : matrix, length m = (half + half)%nat ∧ Forall (λ r, length r = width) m) (gate_up_proj x);
  fo_down : Forall (λ m : matrix, length m = width ∧ Forall (λ r, length r = half) m) (down_proj x);
}.

(** What a tensor quantised by rows gives back for one expert, when the rows do. *)
Lemma dequant_quantized {A B} (quantize : list float → res (A * B)) (dequant : A → B → res (list float)) (target : list float → list float) t :
  (∀ m r, m ∈ t → r ∈ m → ∃ ab, quantize r = Ok ab ∧ dequant ab.1 ab.2 = Ok (target r)) →
  ∃ q s, quantize_tensor quantize t = Ok (q, s) ∧
    ∀ e, dequant_expert dequant q s e = of_option IndexError (fmap (M:=list) target <$> t !! e).
Proof.
  intros Hrow. unfold quantize_tensor.
  destruct (mapM_total (mapM quantize) t) as (rows & Er & Hrows).
  { intros m Hm. destruct (mapM_total quantize m) as (ys & Ey & _); [|eauto]. intros r Hr. destruct (Hrow m r Hm Hr) as (ab & ? & _). eauto. }
  rewrite Er. do 2 eexists. split; [reflexivity|]. intros e. unfold dequant_expert. cbn [fst snd].
  rewrite !list_lookup_fmap. destruct (t !! e) as [m|] eqn:Em.
  - destruct (Forall2_lookup_l _ _ _ _ _ Hrows Em) as (ys & Ey & Hm). rewrite Ey. cbn [fmap option_fmap option_map of_option mbind res_bind].
    assert (m ∈ t) as Hin by (by eapply list_elem_of_lookup_2).
    assert (∃ abs, mapM quantize m = Ok abs ∧ Forall2 (λ r ab, quantize r = Ok ab) m abs) as (abs & Eabs & Habs).
    { apply mapM_total. intros r Hr. destruct (Hrow m r Hin Hr) as (ab & ? & _). eauto. }
    rewrite Eabs in Hm. injection Hm as <-. rewrite zip_fst_snd.
    assert (∀ r ab, r ∈ m → quantize r = Ok ab → dequant ab.1 ab.2 = Ok (target r)) as Hd.
    { intros r ab Hr E. destruct (Hrow m r Hin Hr) as (ab' & E' & Ed). rewrite E in E'. by injection E' as ->. }
    clear -Habs Hd. induction Habs as [|r ab m abs Hr Habs IH]; [done|]. cbn [mapM fmap list_fmap].
    rewrite (Hd r ab) by (done || by left). cbn [mbind res_bind]. rewrite IH by (intros; apply Hd; [by right|done]). done.
  - replace (rows !! e) with (@None (list (A * B))); [done|]. symmetry. apply lookup_ge_None_2.
    apply lookup_ge_None_1 in Em. apply Forall2_length in Hrows. lia.
Qed.

(** ** Four bits *)

Lemma int4_store_ok size experts half width : fused_ok half width experts → -8 ≤ of_nan ≤ 7 → 0 < size → Z.even size = true →
  ∃ st, int4_from_experts size experts = Ok st ∧ num_experts st = length (gate_up_proj experts) ∧
    ∀ e dtype,
      gate_up_weight st e dtype = of_option IndexError (fmap (M:=list) (int4_row of_nan size dtype) <$> gate_up_proj experts !! e) ∧
      down_weight st e dtype = of_option IndexError (fmap (M:=list) (int4_row of_nan size dtype) <$> down_proj experts !! e).
Proof.
  intros [Hh Hi _ Hg Hd] Hnan Hpos Heven.
  assert (∀ (t : list matrix) n, Forall (λ m : matrix, Forall (λ r, length r = n) m) t → ∀ dtype, ∃ q s,
    quantize_tensor (λ w, quantize_group_int4 of_nan w size) t = Ok (q, s) ∧
    ∀ e, dequant_expert (λ p sc, dequant_group_int4 p sc (Z.of_nat n) dtype size) q s e =
      of_option IndexError (fmap (M:=list) (int4_row of_nan size dtype) <$> t !! e)) as Hq.
  { intros t n Ht dtype. apply dequant_quantized. intros m r Hm Hr.
    destruct (int4_round_trip of_nan Hnan size r Hpos Heven) as (p & sc & E & _ & _ & _ & Edq). exists (p, sc). split; [done|]. cbn.
    rewrite list.Forall_forall in Ht. specialize (Ht m Hm). rewrite list.Forall_forall in Ht. rewrite <- (Ht r Hr). apply Edq. }
  assert (Forall (λ m : matrix, Forall (λ r, length r = width) m) (gate_up_proj experts)) as Hg' by (eapply Forall_impl; [exact Hg|naive_solver]).
  assert (Forall (λ m : matrix, Forall (λ r, length r = half) m) (down_proj experts)) as Hd' by (eapply Forall_impl; [exact Hd|naive_solver]).
  destruct (Hq _ _ Hg' float32) as (q1 & s1 & E1 & _), (Hq _ _ Hd' float32) as (q2 & s2 & E2 & _).
  unfold int4_from_experts. rewrite E1, E2. eexists. split; [reflexivity|]. split; [done|]. intros e dtype.
  destruct (Hq _ _ Hg' dtype) as (q1' & s1' & E1' & G1), (Hq _ _ Hd' dtype) as (q2' & s2' & E2' & G2).
  rewrite E1 in E1'. rewrite E2 in E2'. injection E1' as <- <-. injection E2' as <- <-. cbn. rewrite Hh, Hi. done.
Qed.

(** ** Eight bits *)

(** What a row of eight bits stands for *)
Definition int8_row (f dtype : format) (w : list float) : list float :=
  match quantize_per_out_channel_int8 of_nan f w with Ok (q, scale) => dequant_int8 dtype q scale | Raise _ => [] end.

Lemma int8_row_length f dtype w : w ≠ [] → length (int8_row f dtype w) = length w.
Proof.
  intros Hw. destruct w as [|x w]; [done|]. unfold int8_row, quantize_per_out_channel_int8. rewrite fmap_cons, amax_cons.
  cbn [mbind res_bind mret res_ret]. unfold dequant_int8. by rewrite !length_fmap.
Qed.

Lemma int8_store_ok f experts half width : fused_ok half width experts → (0 < half)%nat → (0 < width)%nat →
  ∃ st, int8_from_experts f experts = Ok st ∧ num_experts st = length (gate_up_proj experts) ∧
    ∀ e dtype,
      gate_up_weight st e dtype = of_option IndexError (fmap (M:=list) (int8_row f dtype) <$> gate_up_proj experts !! e) ∧
      down_weight st e dtype = of_option IndexError (fmap (M:=list) (int8_row f dtype) <$> down_proj experts !! e).
Proof.
  intros [_ _ _ Hg Hd] Hhalf Hwidth.
  assert (∀ (t : list matrix) n, (0 < n)%nat → Forall (λ m : matrix, Forall (λ r, length r = n) m) t → ∀ dtype, ∃ q s,
    quantize_tensor (quantize_per_out_channel_int8 of_nan f) t = Ok (q, s) ∧
    ∀ e, dequant_expert (λ q sc, mret (dequant_int8 dtype q sc)) q s e = of_option IndexError (fmap (M:=list) (int8_row f dtype) <$> t !! e)) as Hq.
  { intros t n Hn Ht dtype. apply dequant_quantized. intros m r Hm Hr.
    rewrite list.Forall_forall in Ht. specialize (Ht m Hm). rewrite list.Forall_forall in Ht. specialize (Ht r Hr). destruct r as [|x r]; [cbn in Ht; lia|].
    assert (∃ ab, quantize_per_out_channel_int8 of_nan f (x :: r) = Ok ab) as [ab E] by (eexists; reflexivity).
    exists ab. split; [done|]. unfold int8_row. rewrite E. by destruct ab. }
  assert (Forall (λ m : matrix, Forall (λ r, length r = width) m) (gate_up_proj experts)) as Hg' by (eapply Forall_impl; [exact Hg|naive_solver]).
  assert (Forall (λ m : matrix, Forall (λ r, length r = half) m) (down_proj experts)) as Hd' by (eapply Forall_impl; [exact Hd|naive_solver]).
  destruct (Hq _ _ Hwidth Hg' float32) as (q1 & s1 & E1 & _), (Hq _ _ Hhalf Hd' float32) as (q2 & s2 & E2 & _).
  unfold int8_from_experts. rewrite E1, E2. eexists. split; [reflexivity|]. split; [done|]. intros e dtype.
  destruct (Hq _ _ Hwidth Hg' dtype) as (q1' & s1' & E1' & G1), (Hq _ _ Hhalf Hd' dtype) as (q2' & s2' & E2' & G2).
  rewrite E1 in E1'. rewrite E2 in E2'. injection E1' as <- <-. injection E2' as <- <-. split; [apply G1|apply G2].
Qed.

(** ** Sizes *)

Lemma Ok_inj {A} (a b : A) : Ok a = Ok b → a = b.
Proof. by intros [= ->]. Qed.

(** [numel() * element_size()] of codes of one byte and of the scales of two bytes *)
Definition rows_numel {A} (t : list (list (list A))) : Z := foldr (λ m acc, foldr (λ r acc, zlen r + acc) 0 m + acc) 0 t.
Definition int4_bytes (st : int4_experts) : Z :=
  rows_numel (gate_up_proj_packed st) + 2 * rows_numel (gate_up_proj_scale st) +
  (rows_numel (down_proj_packed st) + 2 * rows_numel (down_proj_scale st)).

(** What [_quantized_block_bytes] counts for one fused tensor of [rows] rows with NF4 *)
Definition nf4_tensor_bytes (rows in_dim : Z) : Z := rows * ((in_dim + 1) / 2) + rows * ceil_div in_dim INT4_GROUP_SIZE * 2.

Lemma quantized_numel size (t : list matrix) n rows q s : -8 ≤ of_nan ≤ 7 → 0 < size → Z.even size = true →
  Forall (λ m : matrix, length m = rows ∧ Forall (λ r, length r = n) m) t →
  quantize_tensor (λ w, quantize_group_int4 of_nan w size) t = Ok (q, s) →
  rows_numel q = zlen t * Z.of_nat rows * ceil_div (Z.of_nat n) 2 ∧
  rows_numel s = zlen t * Z.of_nat rows * ceil_div (Z.of_nat n) size.
Proof.
  intros Hnan Hpos Heven. unfold quantize_tensor. revert q s. induction t as [|m t IH]; intros q s Ht; [by intros [= <- <-]|].
  apply Forall_cons in Ht as [[<- Hm] Ht]. cbn [mapM]. destruct (mapM _ m) as [ys|] eqn:Ey; [|done]. cbn [mbind res_bind].
  specialize (IH (fmap (M:=list) fst <$> match mapM (mapM (λ w, quantize_group_int4 of_nan w size)) t with Ok r => r | _ => [] end)
    (fmap (M:=list) snd <$> match mapM (mapM (λ w, quantize_group_int4 of_nan w size)) t with Ok r => r | _ => [] end) Ht).
  destruct (mapM _ t) as [rs|]; [|done]. destruct (IH eq_refl) as [IHq IHs]. cbn [mbind res_bind mret res_ret].
  intros [<- <-]%Ok_inj%pair_eq. unfold rows_numel in *. rewrite !fmap_cons. cbn [foldr]. rewrite IHq, IHs, !zlen_cons.
  assert (foldr (λ r acc, zlen r + acc) 0 ys.*1 = zlen m * ceil_div (Z.of_nat n) 2 ∧
          foldr (λ r acc, zlen r + acc) 0 ys.*2 = zlen m * ceil_div (Z.of_nat n) size) as [-> ->]; [|fold (zlen m); lia].
  clear -Ey Hm Hnan Hpos Heven. revert ys Ey. induction m as [|r m IH]; intros ys; [by intros [= <-]|].
  apply Forall_cons in Hm as [Hr Hm]. destruct (int4_round_trip of_nan Hnan size r Hpos Heven) as (p & sc & E & Lp & Ls & _).
  cbn [mapM]. rewrite E. cbn [mbind res_bind]. destruct (mapM _ m) as [zs|]; [|done]. cbn [mbind res_bind mret res_ret].
  intros [= <-]. destruct (IH Hm zs eq_refl) as [I1 I2]. cbn [fmap list_fmap foldr fst snd]. rewrite I1, I2, Lp, Ls, zlen_cons.
  assert (zlen r = Z.of_nat n) as -> by (unfold zlen; lia). lia.
Qed.

(** The estimate of the block's size counts the bytes of the store. *)
Lemma int4_bytes_estimated experts half width st : fused_ok half width experts → -8 ≤ of_nan ≤ 7 →
  int4_from_experts INT4_GROUP_SIZE experts = Ok st →
  int4_bytes st = nf4_tensor_bytes (zlen (gate_up_proj experts) * Z.of_nat (half + half)) (Z.of_nat width) +
                  nf4_tensor_bytes (zlen (down_proj experts) * Z.of_nat width) (Z.of_nat half).
Proof.
  intros [_ _ _ Hg Hd] Hnan. unfold int4_from_experts.
  destruct (quantize_tensor _ (gate_up_proj experts)) as [[q1 s1]|] eqn:E1; [|done].
  destruct (quantize_tensor _ (down_proj experts)) as [[q2 s2]|] eqn:E2; [|done]. intros [= <-].
  destruct (quantized_numel _ _ _ _ _ _ Hnan (eq_refl : 0 < INT4_GROUP_SIZE) eq_refl Hg E1) as [N1 M1].
  destruct (quantized_numel _ _ _ _ _ _ Hnan (eq_refl : 0 < INT4_GROUP_SIZE) eq_refl Hd E2) as [N2 M2].
  unfold int4_bytes, nf4_tensor_bytes. cbn [gate_up_proj_packed gate_up_proj_scale down_proj_packed down_proj_scale fst snd]. rewrite N1, M1, N2, M2.
  assert (∀ n, ceil_div n 2 = (n + 1) / 2) as Hc by (intros n; unfold ceil_div; Z.div_mod_to_equations; lia).
  rewrite !Hc. lia.
Qed.

(** ** The swap *)

(** A module by its full name; [FusedExperts] has the two fused tensors of rank 3. A fused module has no fused
    module below it. *)
Inductive nn_module :=
| FusedExperts (x : fused_experts)
| Int8Experts (x : int8_experts)
| Int4Experts (x : int4_experts)
| OtherModule.

Definition ends_with (s suffix : string) : bool :=
  let l := String.list_ascii_of_string s in let k := String.list_ascii_of_string suffix in
  (length k <=? length l)%nat && bool_decide (drop (length l - length k) l = k).

Inductive scheme := SchemeInt8 | SchemeInt4.
Definition read_scheme (s : string) : res scheme :=
  if String.eqb s "int8" then Ok SchemeInt8 else if String.eqb s "int4" then Ok SchemeInt4 else Raise ValueError.

Definition factory (f : format) (s : scheme) (x : fused_experts) : res nn_module :=
  match s with
  | SchemeInt8 => q ← int8_from_experts f x; mret (Int8Experts q)
  | SchemeInt4 => q ← int4_from_experts INT4_GROUP_SIZE x; mret (Int4Experts q)
  end.

Fixpoint swap_modules (f : format) (s : scheme) (names : list (string * nn_module)) (block : dict string nn_module) (swapped : list string) :
    res (dict string nn_module * list string) :=
  match names with
  | [] => mret (block, swapped)
  | (name, FusedExperts x) :: names =>
      if ends_with name "experts" then
        quantized ← factory f s x;
        swap_modules f s names (dict_set block name quantized) (swapped ++ [name])
      else swap_modules f s names block swapped
  | _ :: names => swap_modules f s names block swapped
  end.

(** [quantize_qwen3_moe_block_experts]; the sizes of the report are those of the modules. *)
Definition quantize_qwen3_moe_block_experts (f : format) (scheme_name : string) (block : dict string nn_module) :
    res (dict string nn_module * list string) :=
  s ← read_scheme scheme_name;
  r ← swap_modules f s block block [];
  if decide (r.2 = []) then mthrow ValueError else mret r.

Definition fused_experts_at (block : dict string nn_module) (name : string) : option fused_experts :=
  match dict_get block name with Some (FusedExperts x) => if ends_with name "experts" then Some x else None | _ => None end.

(** What the loop leaves under a name *)
Definition swapped_to (f : format) (s : scheme) (m : nn_module) (name : string) (old new : option nn_module) : Prop :=
  match m with
  | FusedExperts x => if ends_with name "experts" then ∃ q, factory f s x = Ok q ∧ new = Some q else new = old
  | _ => new = old
  end.

Definition is_swapped (nm : string * nn_module) : bool :=
  match nm.2 with FusedExperts _ => ends_with nm.1 "experts" | _ => false end.

Lemma swap_modules_spec f s names : NoDup names.*1 → ∀ block swapped block' swapped',
  swap_modules f s names block swapped = Ok (block', swapped') →
  (∀ name, name ∉ names.*1 → dict_get block' name = dict_get block name) ∧
  Forall (λ nm, swapped_to f s nm.2 nm.1 (dict_get block nm.1) (dict_get block' nm.1)) names ∧
  swapped' = swapped ++ (filter (λ nm, is_swapped nm = true) names).*1.
Proof.
  induction names as [|[n m] names IH]; intros Hnd block swapped block' swapped'.
  - intros [= <- <-]. split_and!; [done|done|by rewrite app_nil_r].
  - inversion_clear Hnd as [|? ? Hn Hnd']. intros E.
    assert (∃ b, swap_modules f s names b (swapped ++ if is_swapped (n, m) then [n] else []) = Ok (block', swapped') ∧
      (∀ name, name ≠ n → dict_get b name = dict_get block name) ∧ swapped_to f s m n (dict_get block n) (dict_get b n)) as (b & Eb & Hb & Hm).
    { cbn in E. unfold is_swapped, swapped_to. cbn [fst snd]. destruct m as [x|x|x|]; try destruct (ends_with n "experts");
        try (exists block; by rewrite app_nil_r).
      destruct (factory f s x) as [q|] eqn:Eq; [|done]. exists (dict_set block n q). split; [done|]. split.
      - intros name Hne. by apply dict_get_set_ne.
      - exists q. by rewrite dict_get_set_eq. }
    destruct (IH Hnd' _ _ _ _ Eb) as (I1 & I2 & I3). split_and!.
    + intros name [Hne Hin]%not_elem_of_cons. rewrite I1 by done. by apply Hb.
    + constructor; [cbn; by rewrite (I1 n Hn)|]. rewrite list.Forall_forall in I2 |- *. intros nm Hin.
      rewrite <- Hb; [by apply I2|]. intros <-. apply Hn, list_elem_of_fmap. by exists nm.
    + rewrite I3, filter_cons. destruct (is_swapped (n, m)); cbn; rewrite <- app_assoc; done.
Qed.

(** Every fused module of experts of the block is replaced, the rest stays, and there was one; else the call raises. *)
Lemma swap_fails_closed f name block : dict_wf block →
  match quantize_qwen3_moe_block_experts f name block with
  | Ok (block', swapped) => ∃ s, read_scheme name = Ok s ∧ swapped ≠ [] ∧ swapped = (filter (λ nm, is_swapped nm = true) block).*1 ∧
      Forall (λ nm, swapped_to f s nm.2 nm.1 (Some nm.2) (dict_get block' nm.1)) block
  | Raise e => e = ValueError ∨ ∃ s nm x, read_scheme name = Ok s ∧ nm ∈ block ∧ nm.2 = FusedExperts x ∧ factory f s x = Raise e
  end.
Proof.
  intros Hwf. unfold quantize_qwen3_moe_block_experts. destruct (read_scheme name) as [s|e] eqn:Es; cbn [mbind res_bind].
  2: { left. unfold read_scheme in Es. do 2 (destruct (String.eqb _ _); [done|]). by injection Es as <-. }
  destruct (swap_modules f s block block []) as [[block' swapped]|e] eqn:E; cbn [mbind res_bind].
  - destruct (swap_modules_spec _ _ _ Hwf _ _ _ _ E) as (_ & H2 & ->). cbn [snd].
    destruct (decide _) as [Hnil|Hnil]; [by left|]. exists s. split_and!; [done|done|done|].
    rewrite list.Forall_forall in H2 |- *. intros [n m] Hin. specialize (H2 _ Hin). cbn in H2 |- *. by rewrite (dict_get_elem _ _ _ Hwf Hin) in H2.
  - right. exists s. assert (∀ names b sw, swap_modules f s names b sw = Raise e → ∃ nm x, nm ∈ names ∧ nm.2 = FusedExperts x ∧ factory f s x = Raise e) as H.
    { clear E. induction names as [|[n m] names IH]; intros b sw; [done|]. cbn.
      assert (∀ b' sw', swap_modules f s names b' sw' = Raise e → ∃ nm x, nm ∈ (n, m) :: names ∧ nm.2 = FusedExperts x ∧ factory f s x = Raise e) as Hr.
      { intros b' sw' Hr. destruct (IH _ _ Hr) as (nm & x & ? & ?). exists nm, x. split; [by right|done]. }
      destruct m as [x|x|x|]; eauto. destruct (ends_with n "experts"); [|eauto]. destruct (factory f s x) as [q|e'] eqn:Eq; cbn; [eauto|].
      intros [= <-]. exists (n, FusedExperts x), x. split; [by left|done]. }
    destruct (H _ _ _ E) as (nm & x & ?). eauto.
Qed.
End stores.

(** C36: the packing of two codes to a byte, the grouping and the padding lose nothing: whatever the inputs, a packed
    store returns (or raises) what the original module would with the weights rounded group by group. *)
Theorem packed_experts_exact of_nan size experts half width : fused_ok half width experts → -8 ≤ of_nan ≤ 7 → 0 < size → Z.even size = true →
  ∃ st, int4_from_experts of_nan size experts = Ok st ∧
    ∀ linear act_fn dtype promoted hidden top_k_index top_k_weights,
      forward linear act_fn dtype promoted st hidden top_k_index top_k_weights =
      forward linear act_fn dtype promoted
        (mkFused (fmap (M:=list) (int4_row of_nan size dtype) <$> gate_up_proj experts) (fmap (M:=list) (int4_row of_nan size dtype) <$> down_proj experts)
                 (hidden_dim experts) (intermediate_dim experts)) hidden top_k_index top_k_weights.
Proof.
  intros Hok Hnan Hpos Heven. destruct (int4_store_ok of_nan size experts half width Hok Hnan Hpos Heven) as (st & E & Hn & Hw).
  exists st. split; [done|]. intros linear act_fn dtype promoted hidden top_k_index top_k_weights. apply forward_ext.
  - rewrite Hn. cbn. by rewrite length_fmap.
  - intros e. destruct (Hw e dtype) as [-> ->]. cbn. by rewrite !list_lookup_fmap.
Qed.

(** ** An example: one expert, width two *)

Definition ex_fused : fused_experts :=
  mkFused [[[ex_f 1; ex_f 2]; [ex_f 3; ex_f 7]]] [[[ex_f 1]; [ex_f 5]]] 2 1.

Lemma ex_fused_ok : fused_ok 1 2 ex_fused.
Proof. split; by repeat constructor. Qed.

Lemma packed_experts_exact_witness : ∃ st, int4_from_experts 0 128 ex_fused = Ok st ∧
  gate_up_proj_packed st = [[[252]; [251]]] ∧ int4_bytes st = 12 ∧
  forward ex_dot (λ x, x) float32 float32 st [[ex_f 1; ex_f 2]] [[0]] [[ex_f 1]] =
  forward ex_dot (λ x, x) float32 float32
    (mkFused [int4_row 0 128 float32 <$> [[ex_f 1; ex_f 2]; [ex_f 3; ex_f 7]]] [int4_row 0 128 float32 <$> [[ex_f 1]; [ex_f 5]]] 2 1)
    [[ex_f 1; ex_f 2]] [[0]] [[ex_f 1]].
Proof.
  destruct (packed_experts_exact 0 128 ex_fused 1 2 ex_fused_ok) as (st & E & G); [lia|lia|reflexivity|].
  exists st. split; [exact E|]. rewrite <- (G ex_dot (λ x, x) float32 float32).
  assert (Ok st = int4_from_experts 0 128 ex_fused) as Est by (by rewrite E). vm_compute in Est. injection Est as ->.
  split_and!; vm_compute; reflexivity.
Defined.
