(* ===== verification/ServerLoop.v ===== *)
(** * The life of a server (server/server.py)

    [Server] picks blocks, opens a [ModuleContainer] for them, watches it, and opens another one when
    the swarm is out of balance. The container's [ModuleAnnouncerThread] tells the DHT of the state
    that it reads from an object it shares with the main thread. The two threads are the step
    relation [step]; the DHT is what this server has stored there.

    The choice of blocks is BlockSelection.v's. Loading a block, the health of the processes and the
    requests to stop are what the environment decides; pings, expiration times and the other fields
    of an announcement are left out. *)

From stdpp Require Import numbers base gmap sets strings pretty list relations.
From Stdlib Require Import ZArith Ascii Lia ZifyBool SpecFloat.
From S2P Require Import Prelude Dict PyStr PySort Floats SwarmInfo BlockSelection.

(** ** How many blocks, and which *)

(** [block_indices.split(":")], two integers *)
Definition parse_block_indices (s : string) : res (Z * Z) :=
  match py_split ":" s with
  | [a; b] => a ← of_option ValueError (py_int a); b ← of_option ValueError (py_int b); mret (a, b)
  | _ => Raise ValueError
  end.

(** [(self.strict_block_indices, self.num_blocks)] *)
Definition init_blocks (num_hidden_layers : Z) (num_blocks : option Z) (block_indices : option string) (choose : res Z) :
    res (option (list Z) * Z) :=
  match num_blocks, block_indices with
  | Some _, Some _ => mthrow AssertionError
  | Some n, None => mret (None, Z.min n num_hidden_layers)
  | None, None => n ← choose; mret (None, Z.min n num_hidden_layers)
  | None, Some s => ab ← parse_block_indices s; let r := py_range ab.1 ab.2 in mret (Some r, zlen r)
  end.

(** [math.floor] of a float; an infinity and NaN have none. *)
Definition math_floor (x : float) : res Z :=
  match x with
  | S754_zero _ => Ok 0
  | S754_finite s m e => let v := if s then Zneg m else Zpos m in Ok (if 0 <=? e then v * 2 ^ e else v / 2 ^ (- e))
  | _ => Raise ValueError
  end.

Inductive device_type := Cuda | Mps | Cpu.
Definition device_eqb (a b : device_type) : bool := match a, b with Cuda, Cuda | Mps, Mps | Cpu, Cpu => true | _, _ => false end.

Definition gib : Z := 1024 ^ 3.

(** The memory of the devices: [torch.cuda.get_device_properties(device).total_memory] of each of the
    parallel ones, or of the one device (for MPS that of the machine). *)
Definition total_memory (device : device_type) (parallel : list Z) (own : Z) : res Z :=
  match parallel with
  | m1 :: m2 :: ms =>
      if negb (device_eqb device Cuda) then mthrow AssertionError
      else
        let least := foldl Z.min m1 (m2 :: ms) in let most := foldl Z.max m1 (m2 :: ms) in
        ratio ← py_div (float_of_Z most) (float_of_Z least);
        if fltb (S754_finite false 6755399441055744 (-52)) ratio then mthrow ValueError else mret (least * zlen parallel)
  | _ => mret own
  end.

(** [_choose_num_blocks]: [block_size] is [get_block_size], [adapters] the memory per block of the adapters if there are any. *)
Definition choose_num_blocks (device : device_type) (parallel : list Z) (own hidden_size block_size cache_bytes : Z) (adapters : option Z)
    (num_hidden_layers : Z) : res Z :=
  if device_eqb device Cpu then mthrow AssertionError
  else
    let num_devices := match parallel with [] => 1 | _ => zlen parallel end in
    total ← total_memory device parallel own;
    let autograd_memory := fmul (fdiv (float_of_Z (2 * gib * num_devices)) (float_of_Z 14336)) (float_of_Z hidden_size) in
    let total_memory_per_block := block_size + cache_bytes + default 0 adapters in
    quotient ← py_div (fsub (float_of_Z total) autograd_memory) (float_of_Z total_memory_per_block);
    num_blocks ← math_floor quotient;
    if num_blocks <? 1 then mthrow AssertionError else mret (Z.min num_blocks num_hidden_layers).

(** The defaults of the lengths, and [_cache_bytes_per_block] *)
Definition resolve_inference_max_length (num_key_value_groups : Z) (given : option Z) : Z :=
  default (if 1 <? num_key_value_groups then 8192 else 4096) given.
Definition cache_bytes_per_block (hidden_size num_key_value_groups dtype_bytes inference_max_length : Z) (attn_cache_tokens : option Z) : Z :=
  2 * hidden_size * default inference_max_length attn_cache_tokens / num_key_value_groups * dtype_bytes.

(** The budget of the cache manager that the container makes *)
Definition container_cache_tokens (inference_max_length : Z) (attn_cache_tokens : option Z) : Z := inference_max_length.

Section server.
Context {P : Type} `{PeerIds P} (peer : P) (dht_prefix : string).
(** [self.strict_block_indices], [self.num_blocks], [self.balance_quality] *)
Context (strict : option (list Z)) (num_blocks : Z) (balance_quality : float).
(** numpy's generator *)
Context {G : Type} (shuffle : list P → G → G * list P).

Definition choose_blocks (infos : list (RemoteModuleInfo P)) : res (list Z) :=
  match strict with Some r => mret r | None => choose_best_blocks num_blocks infos end.

Definition should_choose (fuel : nat) (infos : list (RemoteModuleInfo P)) : M G bool :=
  match strict with Some _ => mret false | None => should_choose_other_blocks shuffle fuel peer infos balance_quality end.

(** ** The shared objects *)

Definition module_uid (i : Z) : string := (dht_prefix +:+ "." +:+ pretty i)%string.

(** What the announcer reads of [server_info] *)
Record announcement := mkAnn { an_state : ServerState; an_start : Z; an_end : Z }.
Definition set_state (s : ServerState) (a : announcement) : announcement := mkAnn s (an_start a) (an_end a).

(** [server_info.start_block = min(block_indices)], [end_block = max(block_indices) + 1] *)
Definition block_range (blocks : list Z) : Z * Z :=
  match blocks with [] => (0, 0) | b :: bs => (foldl Z.min b bs, foldl Z.max b bs + 1) end.
Definition joining (blocks : list Z) : announcement := mkAnn JOINING (block_range blocks).1 (block_range blocks).2.

(** Where the announcer is in its loop: at its top; past the pings; with the values that
    [declare_active_modules] stores; past the store; waiting for the trigger or the period. *)
Inductive ann_phase := Top | Pinged | Declaring (a : announcement) | Declared (a : announcement) | Waiting | Finished.
Record announcer := mkAnnouncer { a_blocks : list Z; a_phase : ann_phase }.

(** Whether the loop of [run] goes on after the container is shut down *)
Inductive reason := Restart | Leave.
Inductive main_phase :=
| Choosing
| Loading (blocks : list Z) (loaded : nat)
| Serving (blocks : list Z)
| Closing (blocks : list Z) (r : reason)
| Ended.

(** [w_backends]: the blocks that answer. Two fields are not of the program: [w_loaded] are the
    containers that have loaded all their blocks, [w_lost] that an announcer has left without having
    told the DHT that its blocks are offline. *)
Record world := mkWorld {
  w_main : main_phase; w_info : announcement; w_ann : option announcer; w_dht : gmap string announcement;
  w_backends : list Z; w_loaded : list (list Z); w_lost : bool;
}.

Definition init : world := mkWorld Choosing (mkAnn JOINING 0 0) None ∅ [] [] false.

Definition set_main (m : main_phase) (i : announcement) (w : world) : world :=
  mkWorld m i (w_ann w) (w_dht w) (w_backends w) (w_loaded w) (w_lost w).
Definition set_backends (b : list Z) (w : world) : world :=
  mkWorld (w_main w) (w_info w) (w_ann w) (w_dht w) b (w_loaded w) (w_lost w).

(** [declare_active_modules] stores the values under every uid. *)
Definition declare (blocks : list Z) (a : announcement) (dht : gmap string announcement) : gmap string announcement :=
  foldr (λ i, <[module_uid i := a]>) dht blocks.

Definition is_offline (a : announcement) : bool := match an_state a with OFFLINE => true | _ => false end.

(** ** The announcer's loop

    [recheck = false] is the code: after the store it reads the shared state again to decide whether
    to leave. [true] decides by the state that it has stored. *)
Definition announcer_step (recheck : bool) (a : announcer) (w : world) : world :=
  let go ph dht lost := mkWorld (w_main w) (w_info w) (Some (mkAnnouncer (a_blocks a) ph)) dht (w_backends w) (w_loaded w) lost in
  match a_phase a with
  | Top => go Pinged (w_dht w) (w_lost w)
  | Pinged => go (Declaring (w_info w)) (w_dht w) (w_lost w)
  | Declaring v => go (Declared v) (declare (a_blocks a) v (w_dht w)) (w_lost w)
  | Declared v =>
      if is_offline (if recheck then v else w_info w) then go Finished (w_dht w) (w_lost w || negb (is_offline v))
      else go Waiting (w_dht w) (w_lost w)
  | Waiting => go Top (w_dht w) (w_lost w)
  | Finished => w
  end.

(** ** The two threads *)

Inductive step (recheck : bool) : world → world → Prop :=
| step_open w infos blocks :
    (* create: the announcer starts, with the state JOINING *)
    w_main w = Choosing → choose_blocks infos = Ok blocks → blocks ≠ [] →
    step recheck w (mkWorld (Loading blocks 0) (joining blocks) (Some (mkAnnouncer blocks Top)) (w_dht w) (w_backends w) (w_loaded w) (w_lost w))
| step_no_blocks w infos r :
    (* the choice raises, or there is no block and the announcer's constructor raises *)
    w_main w = Choosing → choose_blocks infos = r → (∃ e, r = Raise e) ∨ r = Ok [] →
    step recheck w (set_main Ended (w_info w) w)
| step_load w blocks k i :
    w_main w = Loading blocks k → blocks !! k = Some i →
    step recheck w (set_backends (w_backends w ++ [i]) (set_main (Loading blocks (S k)) (w_info w) w))
| step_load_fails w blocks k :
    (* the backends shut down, OFFLINE is announced, the exception goes on *)
    w_main w = Loading blocks k →
    step recheck w (set_backends [] (set_main (Closing blocks Leave) (set_state OFFLINE (w_info w)) w))
| step_online w blocks :
    w_main w = Loading blocks (length blocks) →
    step recheck w (mkWorld (Serving blocks) (set_state ONLINE (w_info w)) (w_ann w) (w_dht w) (w_backends w) (blocks :: w_loaded w) (w_lost w))
| step_stop w blocks :
    (* [stop] is set, or a check raises *)
    w_main w = Serving blocks →
    step recheck w (set_main (Closing blocks Leave) (set_state OFFLINE (w_info w)) w)
| step_crash w blocks :
    (* a process is not alive *)
    w_main w = Serving blocks →
    step recheck w (set_main (Closing blocks Restart) (set_state OFFLINE (w_info w)) w)
| step_rebalance w blocks fuel infos g g' :
    w_main w = Serving blocks → should_choose fuel infos g = (g', Ok true) →
    step recheck w (set_main (Closing blocks Restart) (set_state OFFLINE (w_info w)) w)
| step_closed w blocks r a :
    (* the announcer has joined; the handlers, the pools and the backends shut down *)
    w_main w = Closing blocks r → w_ann w = Some a → a_phase a = Finished →
    step recheck w (mkWorld (match r with Restart => Choosing | Leave => Ended end) (w_info w) None (w_dht w) [] (w_loaded w) (w_lost w))
| step_announcer w a :
    w_ann w = Some a → step recheck w (announcer_step recheck a w).

Definition reachable (recheck : bool) : world → Prop := rtc (step recheck) init.

(** ** The invariant *)

Definition uids (blocks : list Z) : list string := module_uid <$> blocks.

Lemma declare_get blocks a dht u : declare blocks a dht !! u = if decide (u ∈ uids blocks) then Some a else dht !! u.
Proof.
  unfold declare. induction blocks as [|i blocks IH]; [done|]. cbn [foldr uids fmap list_fmap]. rewrite lookup_insert, IH.
  destruct (decide (module_uid i = u)) as [<-|Hne].
  - rewrite decide_True; [done|]. by left.
  - destruct (decide (u ∈ uids blocks)) as [Hin|Hin]; [rewrite decide_True; [done|by right]|].
    rewrite decide_False; [done|]. intros [->|?]%elem_of_cons; done.
Qed.

(** An announcement that says ONLINE is that of a container that has loaded all its blocks. *)
Definition online_ok (loaded : list (list Z)) (blocks : list Z) (a : announcement) : Prop :=
  an_state a = ONLINE → blocks ∈ loaded ∧ (an_start a, an_end a) = block_range blocks.

(** What the announcer of an open container has in hand *)
Definition phase_ok (w : world) (a : announcer) : Prop :=
  match a_phase a with
  | Declaring v => online_ok (w_loaded w) (a_blocks a) v ∧ (an_state v = OFFLINE → an_state (w_info w) = OFFLINE)
  | Declared v => online_ok (w_loaded w) (a_blocks a) v ∧ (an_state v = OFFLINE → an_state (w_info w) = OFFLINE) ∧
                  ∀ u, u ∈ uids (a_blocks a) → w_dht w !! u = Some v
  | Finished => an_state (w_info w) = OFFLINE ∧
                (w_lost w = false → ∀ u v, u ∈ uids (a_blocks a) → w_dht w !! u = Some v → an_state v = OFFLINE)
  | _ => True
  end.

Definition open_ok (w : world) (blocks : list Z) (state : ServerState) : Prop :=
  ∃ a, w_ann w = Some a ∧ a_blocks a = blocks ∧ phase_ok w a ∧ an_state (w_info w) = state ∧
    (an_start (w_info w), an_end (w_info w)) = block_range blocks ∧ (strict = Some blocks ∨ strict = None).

Record inv (recheck : bool) (w : world) : Prop := mkInv {
  inv_main : match w_main w with
    | Choosing | Ended => w_ann w = None ∧ w_backends w = []
    | Loading blocks k => open_ok w blocks JOINING ∧ (k ≤ length blocks)%nat ∧ w_backends w = take k blocks
    | Serving blocks => open_ok w blocks ONLINE ∧ blocks ∈ w_loaded w ∧ w_backends w = blocks
    | Closing blocks _ => open_ok w blocks OFFLINE
    end;
  inv_online : ∀ u v, w_dht w !! u = Some v → an_state v = ONLINE → ∃ blocks, u ∈ uids blocks ∧ online_ok (w_loaded w) blocks v;
  inv_quiet : w_lost w = false → ∀ u v, w_dht w !! u = Some v → an_state v ≠ OFFLINE → ∃ blocks, a_blocks <$> w_ann w = Some blocks ∧ u ∈ uids blocks;
  inv_recheck : recheck = true → w_lost w = false;
}.

Lemma is_offline_true v : is_offline v = true → an_state v = OFFLINE.
Proof. unfold is_offline. by destruct (an_state v). Qed.

Lemma online_ok_more loaded blocks blocks' a : online_ok loaded blocks a → online_ok (blocks' :: loaded) blocks a.
Proof. intros Ho Ha. destruct (Ho Ha). split; [by right|done]. Qed.

Lemma inv_init recheck : inv recheck init.
Proof. split; [done|intros u v; cbn [w_dht init]; by rewrite lookup_empty..|done]. Qed.

(** A step of the main thread that only changes what it is at, the state and the backends *)
Lemma phase_ok_info w a m i b : phase_ok w a → a_phase a ≠ Finished → (an_state (w_info w) = OFFLINE → an_state i = OFFLINE) →
  phase_ok (set_backends b (set_main m i w)) a.
Proof. unfold phase_ok. destruct (a_phase a); naive_solver. Qed.

Lemma not_finished w a blocks st : open_ok w blocks st → w_ann w = Some a → st ≠ OFFLINE → a_phase a ≠ Finished.
Proof. intros (a' & Ea & _ & Hp & Hs & _) E Hst Hf. rewrite E in Ea. injection Ea as <-. unfold phase_ok in Hp. rewrite Hf in Hp. naive_solver. Qed.

(** Closing a container *)
Lemma inv_close recheck w blocks st r b : inv recheck w → open_ok w blocks st → st ≠ OFFLINE →
  inv recheck (set_backends b (set_main (Closing blocks r) (set_state OFFLINE (w_info w)) w)).
Proof.
  intros [_ Hon Hq Hl] Hopen Hst. split; cbn; [|done..].
  pose proof Hopen as (a & Ea & Hb & Hp & Hs & Hr & Hst').
  exists a. split_and!; cbn; [done|done| |done|done|done]. apply phase_ok_info; [done|by eapply not_finished|done].
Qed.

(** Another open phase with the same announcement *)
Lemma inv_announcer recheck w a blocks st : inv recheck w → w_ann w = Some a → open_ok w blocks st →
  let w' := announcer_step recheck a w in
  open_ok w' blocks st ∧ w_main w' = w_main w ∧ w_backends w' = w_backends w ∧ w_loaded w' = w_loaded w ∧
  (∀ u v, w_dht w' !! u = Some v → an_state v = ONLINE → ∃ blocks, u ∈ uids blocks ∧ online_ok (w_loaded w') blocks v) ∧
  (w_lost w' = false → ∀ u v, w_dht w' !! u = Some v → an_state v ≠ OFFLINE → ∃ blocks, a_blocks <$> w_ann w' = Some blocks ∧ u ∈ uids blocks) ∧
  (recheck = true → w_lost w' = false).
Proof.
  intros [Hm Hon Hq Hl] Ea (a' & Ea' & Hb & Hp & Hs & Hr & Hst). rewrite Ea in Ea'. injection Ea' as <-.
  assert (online_ok (w_loaded w) (a_blocks a) (w_info w)) as Hinfo.
  { intros Ho. split; [|by rewrite Hb]. destruct (w_main w) as [|bs k|bs|bs r|]; [naive_solver| | | |naive_solver].
    - destruct Hm as ((a' & E & _ & _ & Hs' & _) & _). congruence.
    - destruct Hm as ((a' & E & Hb' & _) & Hin & _). rewrite Ea in E. injection E as <-. by rewrite Hb'.
    - destruct Hm as (a' & E & _ & _ & Hs' & _). congruence. }
  assert (∀ ph, a_blocks <$> Some (mkAnnouncer (a_blocks a) ph) = a_blocks <$> w_ann w) as Hbl by (intros ph; by rewrite Ea).
  unfold announcer_step, phase_ok in *. destruct (a_phase a) as [| |v|v| |] eqn:Eph; cbn [w_main w_info w_ann w_dht w_backends w_loaded w_lost]; rewrite ?Hbl.
  - split; [exists (mkAnnouncer (a_blocks a) Pinged); by split_and!|by split_and!].
  - split; [exists (mkAnnouncer (a_blocks a) (Declaring (w_info w))); by split_and!|by split_and!].
  - destruct Hp as [Hv Hoff]. split; [|split_and!; try done].
    + exists (mkAnnouncer (a_blocks a) (Declared v)). split_and!; try done. unfold phase_ok. cbn. split_and!; [done|done|].
      intros u Hu. by rewrite declare_get, decide_True.
    + intros u v'. rewrite declare_get. case_decide; [|apply Hon]. intros [= <-] Ho. by exists (a_blocks a).
    + intros L u v'. rewrite declare_get, Ea. case_decide; [intros _ _; by exists (a_blocks a)|]. rewrite Ea in Hq. by apply Hq.
  - destruct Hp as (Hv & Hoff & Hdht).
    destruct (is_offline (if recheck then v else w_info w)) eqn:E; cbn [w_main w_info w_ann w_dht w_backends w_loaded w_lost]; rewrite ?Hbl.
    2: { split; [exists (mkAnnouncer (a_blocks a) Waiting); by split_and!|by split_and!]. }
    assert (an_state (w_info w) = OFFLINE) as Hio.
    { destruct recheck; [apply Hoff|]; by apply is_offline_true. }
    split; [|split_and!; try done].
    + exists (mkAnnouncer (a_blocks a) Finished). split_and!; try done. unfold phase_ok. cbn. split; [done|].
      intros [_ Hv0%negb_false_iff]%orb_false_iff u v' Hu Hg. rewrite (Hdht u Hu) in Hg. injection Hg as <-. by apply is_offline_true.
    + intros [L _]%orb_false_iff. by apply Hq.
    + intros ->. rewrite (Hl eq_refl). apply negb_false_iff. exact E.
  - split; [exists (mkAnnouncer (a_blocks a) Top); by split_and!|by split_and!].
  - split; [|by split_and!]. exists a. split_and!; try done. unfold phase_ok. by rewrite Eph.
Qed.

Lemma step_inv recheck w w' : inv recheck w → step recheck w w' → inv recheck w'.
Proof.
  intros Hinv Hstep. pose proof Hinv as [Hm Hon Hq Hl].
  destruct Hstep as [w infos blocks Em Hc Hne|w infos r Em Hc Hr|w blocks k i Em Hi|w blocks k Em|w blocks Em|w blocks Em|w blocks Em|w blocks ??? ? Em _
    |w blocks r a Em Ea Hf|w a Ea]; try rewrite Em in Hm.
  - destruct Hm as [Ha Hb]. rewrite Ha in Hq. split; cbn; [|done| |done].
    + split_and!; [|lia|by rewrite take_0]. exists (mkAnnouncer blocks Top). split_and!; try done.
      * symmetry. apply surjective_pairing.
      * unfold choose_blocks in Hc. destruct strict as [r|]; [left|by right]. by injection Hc as ->.
    + intros L u v Hg Ho. by destruct (Hq L u v Hg Ho) as (? & ? & ?).
  - by split.
  - destruct Hm as (Ho & Hk & Hb). split; cbn; [|done..]. split_and!.
    + pose proof Ho as (a & Ea & Hbl & Hp & Hs & Hr & Hst). by exists a.
    + apply lookup_lt_Some in Hi. lia.
    + by rewrite Hb, (take_S_r _ _ _ Hi).
  - destruct Hm as (Ho & Hk & Hb). by eapply inv_close.
  - destruct Hm as (Ho & Hk & Hb). split; cbn; [| |done|done].
    + split_and!; [|by left|by rewrite Hb, take_ge].
      pose proof Ho as (a & Ea & Hbl & Hp & Hs & Hr & Hst). exists a. split_and!; try done.
      pose proof (not_finished _ _ _ _ Ho Ea ltac:(done)) as Hnf. unfold phase_ok in *. destruct (a_phase a); try done.
      * destruct Hp as [Hv Hoff]. split; [by apply online_ok_more|]. intros E. specialize (Hoff E). congruence.
      * destruct Hp as (Hv & Hoff & Hg). split_and!; [by apply online_ok_more| |done]. intros E. specialize (Hoff E). congruence.
    + intros u v Hg Hv. destruct (Hon u v Hg Hv) as (bs & ? & ?). exists bs. split; [done|]. by apply online_ok_more.
  - destruct Hm as (Ho & _). by apply (inv_close recheck w blocks ONLINE Leave (w_backends w)).
  - destruct Hm as (Ho & _). by apply (inv_close recheck w blocks ONLINE Restart (w_backends w)).
  - destruct Hm as (Ho & _). by apply (inv_close recheck w blocks ONLINE Restart (w_backends w)).
  - destruct Hm as (a' & Ea' & Hbl & Hp & Hs & _). rewrite Ea in Ea'. injection Ea' as <-. unfold phase_ok in Hp. rewrite Hf in Hp. destruct Hp as [_ Hp].
    split; cbn; [by destruct r|done| |done]. intros L u v Hg Hv. exfalso. rewrite Ea in Hq. destruct (Hq L u v Hg Hv) as (bs & [= <-] & Hu).
    apply Hv. by apply (Hp L u v).
  - destruct (w_main w) as [|bs k|bs|bs r|] eqn:Em.
    + destruct Hm as [Hm _]. congruence.
    + destruct Hm as (Ho & ? & ?). destruct (inv_announcer _ _ _ _ _ Hinv Ea Ho) as (? & E1 & E2 & E3 & ? & ? & ?).
      split; [rewrite E1, Em, E2; by split_and!|done..].
    + destruct Hm as (Ho & ? & ?). destruct (inv_announcer _ _ _ _ _ Hinv Ea Ho) as (? & E1 & E2 & E3 & ? & ? & ?).
      split; [rewrite E1, Em, E2, E3; by split_and!|done..].
    + destruct (inv_announcer _ _ _ _ _ Hinv Ea Hm) as (? & E1 & E2 & E3 & ? & ? & ?). split; [by rewrite E1, Em|done..].
    + destruct Hm as [Hm _]. congruence.
Qed.

Lemma reachable_inv recheck w : reachable recheck w → inv recheck w.
Proof.
  apply (rtc_ind_r (inv recheck) init); [apply inv_init|]. intros x y _ Hs Hi. by eapply step_inv.
Qed.

(** ** Closing ends *)

Fixpoint run_announcer (recheck : bool) (n : nat) (w : world) : world :=
  match n, w_ann w with
  | S n, Some a => run_announcer recheck n (announcer_step recheck a w)
  | _, _ => w
  end.

Lemma run_announcer_steps recheck n w : rtc (step recheck) w (run_announcer recheck n w).
Proof.
  revert w. induction n as [|n IH]; intros w; cbn; [done|]. destruct (w_ann w) as [a|] eqn:E; [|done].
  eapply rtc_l; [by apply step_announcer|apply IH].
Qed.

(** Whether the announcer has in hand values that are not OFFLINE *)
Definition overtaken (ph : ann_phase) : bool :=
  match ph with Declaring v | Declared v => negb (is_offline v) | _ => false end.

Lemma is_offline_of v : an_state v = OFFLINE → is_offline v = true.
Proof. unfold is_offline. by intros ->. Qed.

(** Once OFFLINE is set, five steps of the announcer end its loop, whatever it was at, so [join] returns;
    and unless values of another state were in its hand, its blocks are then declared OFFLINE. *)
Lemma closing_ends w blocks r : reachable false w → w_main w = Closing blocks r →
  ∃ a a', w_ann w = Some a ∧ w_ann (run_announcer false 5 w) = Some a' ∧ a_phase a' = Finished ∧
    (a_phase a ≠ Finished → overtaken (a_phase a) = false →
     ∀ u, u ∈ uids blocks → an_state <$> w_dht (run_announcer false 5 w) !! u = Some OFFLINE).
Proof.
  intros Hr%reachable_inv Em. destruct Hr as [Hm _ _ _]. rewrite Em in Hm. destruct Hm as (a & Ea & Hb & Hp & Hs & _).
  exists a. destruct w as [m i an dht b l lost]. cbn [w_ann w_info w_main] in *. subst an m blocks. pose proof (is_offline_of _ Hs) as Hoff.
  unfold phase_ok in Hp. destruct a as [bs ph]. cbn [a_phase a_blocks w_dht w_info] in *.
  set (W := λ ph dht lost, mkWorld (Closing bs r) i (Some (mkAnnouncer bs ph)) dht b l lost).
  assert (∀ n ph dht lost, run_announcer false (S n) (W ph dht lost) = run_announcer false n (announcer_step false (mkAnnouncer bs ph) (W ph dht lost))) as HS by done.
  assert (∀ dht lost, announcer_step false (mkAnnouncer bs Top) (W Top dht lost) = W Pinged dht lost) as H1 by done.
  assert (∀ dht lost, announcer_step false (mkAnnouncer bs Pinged) (W Pinged dht lost) = W (Declaring i) dht lost) as H2 by done.
  assert (∀ v dht lost, announcer_step false (mkAnnouncer bs (Declaring v)) (W (Declaring v) dht lost) = W (Declared v) (declare bs v dht) lost) as H3 by done.
  assert (∀ v dht lost, announcer_step false (mkAnnouncer bs (Declared v)) (W (Declared v) dht lost) = W Finished dht (lost || negb (is_offline v))) as H4.
  { intros v d lo. unfold announcer_step, W. cbn [a_phase w_info]. by rewrite Hoff. }
  assert (∀ dht lost, announcer_step false (mkAnnouncer bs Waiting) (W Waiting dht lost) = W Top dht lost) as H5 by done.
  assert (∀ n dht lost, run_announcer false n (W Finished dht lost) = W Finished dht lost) as H6 by (intros n; induction n as [|n IH]; intros; [done|]; rewrite HS; apply IH).
  fold (W ph dht lost). destruct ph as [| |v|v| |]; repeat first [rewrite H6 | rewrite HS; first [rewrite H5 | rewrite H1 | rewrite H2 | rewrite H3 | rewrite H4]];
    eexists; (split; [done|]); (split; [reflexivity|]); (split; [done|]); intros Hnf Hov u Hu; subst W; cbn [w_dht].
  - rewrite declare_get, decide_True by done. cbn. by rewrite Hs.
  - rewrite declare_get, decide_True by done. cbn. by rewrite Hs.
  - rewrite declare_get, decide_True by done. cbn. f_equal. apply is_offline_true. by apply negb_false_iff.
  - destruct Hp as (_ & _ & Hg). rewrite (Hg u Hu). cbn. f_equal. apply is_offline_true. by apply negb_false_iff.
  - rewrite declare_get, decide_True by done. cbn. by rewrite Hs.
  - done.
Qed.
End server.

(** ** How many blocks fit *)

Lemma choose_num_blocks_range device parallel own hidden_size block_size cache_bytes adapters num_hidden_layers n :
  1 ≤ num_hidden_layers →
  choose_num_blocks device parallel own hidden_size block_size cache_bytes adapters num_hidden_layers = Ok n →
  1 ≤ n ≤ num_hidden_layers ∧ device ≠ Cpu.
Proof.
  intros Hl. unfold choose_num_blocks. destruct (device_eqb device Cpu) eqn:Ed; [done|].
  destruct (total_memory _ _ _) as [total|]; [|done]. cbn [mbind res_bind].
  destruct (py_div _ _) as [q|]; [|done]. cbn [mbind res_bind]. destruct (math_floor q) as [k|]; [|done]. cbn [mbind res_bind].
  destruct (Z.ltb_spec k 1); [done|]. intros [= <-]. split; [lia|]. by destruct device.
Qed.

(** C34: in every interleaving of the server and its announcer, the announcer is the one of the blocks being served; an
    entry of the DHT that says ONLINE names a block of a container that loaded all its blocks, with its range; and, as
    long as no announcer left without a word, every entry not OFFLINE is of the blocks served now. An announcer that
    decides by what it has stored never leaves without a word. *)
Theorem announcements_true {P} `{PeerIds P} (peer : P) dht_prefix strict num_blocks balance_quality {G} (shuffle : list P → G → G * list P) recheck w :
  reachable peer dht_prefix strict num_blocks balance_quality shuffle recheck w →
  match w_main w with
  | Choosing | Ended => w_ann w = None ∧ w_backends w = []
  | Loading blocks k => a_blocks <$> w_ann w = Some blocks ∧ an_state (w_info w) = JOINING ∧ w_backends w = take k blocks
  | Serving blocks => a_blocks <$> w_ann w = Some blocks ∧ an_state (w_info w) = ONLINE ∧ w_backends w = blocks
  | Closing blocks _ => a_blocks <$> w_ann w = Some blocks ∧ an_state (w_info w) = OFFLINE
  end ∧
  (∀ blocks, a_blocks <$> w_ann w = Some blocks → strict = Some blocks ∨ strict = None) ∧
  (∀ u v, w_dht w !! u = Some v → an_state v = ONLINE →
    ∃ blocks, u ∈ uids dht_prefix blocks ∧ blocks ∈ w_loaded w ∧ (an_start v, an_end v) = block_range blocks) ∧
  (w_lost w = false → ∀ u v, w_dht w !! u = Some v → an_state v ≠ OFFLINE →
    ∃ blocks, a_blocks <$> w_ann w = Some blocks ∧ u ∈ uids dht_prefix blocks) ∧
  (recheck = true → w_lost w = false).
Proof.
  intros [Hm Hon Hq Hl]%reachable_inv. split_and!; [| | |exact Hq|exact Hl].
  - destruct (w_main w); [done| | | |done].
    + destruct Hm as ((a & -> & <- & _ & ? & _) & _ & ?). by split_and!.
    + destruct Hm as ((a & -> & <- & _ & ? & _) & _ & ?). by split_and!.
    + destruct Hm as (a & -> & <- & _ & ? & _). by split_and!.
  - intros blocks Hb. destruct (w_main w) as [|bs k|bs|bs r|].
    + destruct Hm as [Hm _]. by rewrite Hm in Hb.
    + destruct Hm as ((a & E & <- & _ & _ & _ & Hst) & _). rewrite E in Hb. by injection Hb as <-.
    + destruct Hm as ((a & E & <- & _ & _ & _ & Hst) & _). rewrite E in Hb. by injection Hb as <-.
    + destruct Hm as (a & E & <- & _ & _ & _ & Hst). rewrite E in Hb. by injection Hb as <-.
    + destruct Hm as [Hm _]. by rewrite Hm in Hb.
  - intros u v Hg Hv. destruct (Hon u v Hg Hv) as (bs & Hu & Ho). destruct (Ho Hv). eauto.
Qed.

(** ** The OFFLINE that is lost *)

Section example.
#[local] Existing Instance z_peers.
Definition ex_shuffle0 (l : list Z) (g : unit) : unit * list Z := (g, l).
Definition ex_reachable := reachable 7 "m" (Some [4]) 1 float_one ex_shuffle0.

Definition ex_serving : world := Eval vm_compute in
  run_announcer "m" false 3
    (mkWorld (Serving [4]) (mkAnn ONLINE 4 5) (Some (mkAnnouncer [4] Top)) ∅ [4] [[4]] false).

Lemma ex_serving_reachable : ex_reachable false ex_serving.
Proof.
  unfold ex_reachable, reachable.
  eapply rtc_l; [eapply (step_open _ _ _ _ _ _ _ _ [] [4]); done|].
  eapply rtc_l; [by eapply (step_load _ _ _ _ _ _ _ _ [4] 0 4)|].
  eapply rtc_l; [by eapply (step_online _ _ _ _ _ _ _ _ [4])|].
  change ex_serving with (run_announcer "m" false 3
    (mkWorld (Serving [4]) (mkAnn ONLINE 4 5) (Some (mkAnnouncer [4] Top)) ∅ [4] [[4]] false)).
  apply run_announcer_steps.
Qed.

(** The announcer has stored ONLINE, the server is told to stop, the announcer reads OFFLINE and leaves:
    the server has ended and the DHT still says that its block is online. *)
Lemma offline_is_lost : ∃ w, ex_reachable false w ∧ w_main w = Ended ∧ an_state <$> w_dht w !! "m.4"%string = Some ONLINE.
Proof.
  eexists. split.
  - unfold ex_reachable, reachable. etrans; [apply ex_serving_reachable|].
    eapply rtc_l; [by eapply (step_stop _ _ _ _ _ _ _ _ [4])|].
    eapply rtc_l; [by eapply step_announcer|]. eapply rtc_l; [by eapply (step_closed _ _ _ _ _ _ _ _ [4] Leave)|]. apply rtc_refl.
  - split; vm_compute; reflexivity.
Qed.

Lemma announcements_true_witness : ex_reachable false ex_serving ∧ w_main ex_serving = Serving [4] ∧ w_backends ex_serving = [4] ∧
  an_state (w_info ex_serving) = ONLINE.
Proof.
  split; [exact ex_serving_reachable|]. split; [reflexivity|].
  destruct (announcements_true 7 "m" (Some [4]) 1 float_one ex_shuffle0 false ex_serving ex_serving_reachable) as [(_ & Hs & Hb) _].
  by split.
Defined.

(** 24 GiB of memory, blocks of 1 GiB with the cache: 23 blocks fit next to what a backward pass needs. *)
Example choose_num_blocks_ex : choose_num_blocks Cuda [] (24 * gib) 4096 (gib - 2 ^ 27) (2 ^ 27) None 32 = Ok 23 ∧
  choose_num_blocks Cpu [] (24 * gib) 4096 gib 0 None 32 = Raise AssertionError.
Proof. split; vm_compute; reflexivity. Qed.
End example.
