(* ===== verification/Decimal.v ===== *)
(** * Decimal numbers in strings

    What Python writes for an integer that is not negative, [int] reads back; its characters are
    digits, so that a separator splits a text of numbers where it was put. *)

From stdpp Require Import numbers base strings pretty list.
From Stdlib Require Import ZArith Ascii Lia.
From S2P Require Import Prelude PyStr.

Notation chars := String.list_ascii_of_string.

Definition is_digit (c : ascii) : Prop := is_Some (digit_val c).

Lemma digit_char d : (d < 10)%N → digit_val (pretty_N_char d) = Some (Z.of_N d).
Proof.
  intros Hd. assert (d = 0 ∨ d = 1 ∨ d = 2 ∨ d = 3 ∨ d = 4 ∨ d = 5 ∨ d = 6 ∨ d = 7 ∨ d = 8 ∨ d = 9)%N as H by lia.
  repeat (destruct H as [->|H]; [reflexivity|]). by subst d.
Qed.

Lemma digits_go x : ∀ s, (0 < x)%N → (Forall is_digit (chars s) → Forall is_digit (chars (pretty_N_go x s))) ∧
  ∀ acc b, ∃ k, parse_digits acc b (chars (pretty_N_go x s)) = parse_digits (acc * 10 ^ Z.of_nat k + Z.of_N x) true (chars s).
Proof.
  induction (N.lt_wf_0 x) as [x _ IH]; intros s Hx. rewrite pretty_N_go_step by done.
  set (c := pretty_N_char (x `mod` 10)). assert (x `mod` 10 < 10)%N as Hm by (by apply N.mod_lt).
  pose proof (digit_char _ Hm) as Hc. fold c in Hc. pose proof (N.div_mod x 10 ltac:(done)) as Hd.
  assert (∀ acc b, parse_digits acc b (chars (String c s)) = parse_digits (10 * acc + Z.of_N (x `mod` 10)) true (chars s)) as Hone.
  { intros acc b. cbn. by rewrite Hc. }
  destruct (decide (x `div` 10 = 0)%N) as [E0|Hne].
  - rewrite E0. change (pretty_N_go 0 (String c s)) with (String c s). split; [constructor; [by eexists|done]|].
    intros acc b. exists 1%nat. rewrite Hone. f_equal. lia.
  - destruct (IH (x `div` 10)%N) with (s := String c s) as [H1 H2]; [apply N.div_lt; lia|lia|]. split.
    + intros Hs. apply H1. constructor; [by eexists|done].
    + intros acc b. destruct (H2 acc b) as [k ->]. exists (S k). rewrite Hone. f_equal. rewrite Nat2Z.inj_succ, Z.pow_succ_r by lia. lia.
Qed.

Lemma pretty_digits n : 0 ≤ n → Forall is_digit (chars (pretty n)).
Proof.
  intros Hn. destruct n as [|p|p]; [by repeat (constructor; [by eexists|])| |lia].
  change (pretty (Zpos p)) with (pretty_N_go (Npos p) ""). by apply digits_go.
Qed.

Lemma parse_pretty n : 0 ≤ n → parse_digits 0 false (chars (pretty n)) = Some n.
Proof.
  intros Hn. destruct n as [|p|p]; [done| |lia].
  change (pretty (Zpos p)) with (pretty_N_go (Npos p) ""). destruct (digits_go (Npos p) "" ltac:(lia)) as [_ H].
  destruct (H 0 false) as [k ->]. cbn. done.
Qed.

Lemma digit_not_space c : is_digit c → is_space c = false.
Proof. intros [d Hd]. destruct c as [[] [] [] [] [] [] [] []]; try done; vm_compute in Hd; done. Qed.

Lemma strip_digits l : Forall is_digit l → strip_chars l = l.
Proof.
  intros Hl. unfold strip_chars. assert (∀ k, Forall is_digit k → drop_spaces k = k) as Hd.
  { intros [|c k]; [done|]. intros [Hc _]%Forall_cons. cbn. by rewrite digit_not_space. }
  rewrite (Hd l Hl), Hd by (by apply Forall_reverse). apply reverse_involutive.
Qed.

(** [int(str(n)) = n] *)
Lemma py_int_pretty n : 0 ≤ n → py_int (pretty n) = Some n.
Proof.
  intros Hn. unfold py_int. rewrite strip_digits by (by apply pretty_digits). pose proof (parse_pretty n Hn) as Hp.
  pose proof (pretty_digits n Hn) as Hd. destruct (chars (pretty n)) as [|c l]; [done|].
  apply Forall_cons in Hd as [[d Hd] _].
  destruct c as [[] [] [] [] [] [] [] []]; try exact Hp; vm_compute in Hd; done.
Qed.

(** *** Splitting *)

Lemma chars_app s t : chars (s +:+ t) = chars s ++ chars t.
Proof. induction s as [|c s IH]; [done|]. simpl. by f_equal. Qed.

Lemma split_chars_none c l : ∀ cur, Forall (λ x, x ≠ c) l → split_chars c cur l = [reverse cur ++ l].
Proof.
  induction l as [|x l IH]; intros cur Hl; [by rewrite app_nil_r|]. apply Forall_cons in Hl as [Hx Hl]. cbn.
  destruct (Ascii.eqb_spec x c); [done|]. rewrite IH by done. by rewrite reverse_cons, <- app_assoc.
Qed.

Lemma split_chars_one c l k : ∀ cur, Forall (λ x, x ≠ c) l → Forall (λ x, x ≠ c) k →
  split_chars c cur (l ++ c :: k) = [reverse cur ++ l; k].
Proof.
  induction l as [|x l IH]; intros cur Hl Hk; cbn.
  - rewrite Ascii.eqb_refl, split_chars_none by done. by rewrite app_nil_r.
  - apply Forall_cons in Hl as [Hx Hl]. destruct (Ascii.eqb_spec x c); [done|]. rewrite IH by done. by rewrite reverse_cons, <- app_assoc.
Qed.

(** [f"{a}:{b}".split(":")] *)
Lemma split_two_numbers c a b : ¬ is_digit c → 0 ≤ a → 0 ≤ b →
  py_split c (pretty a +:+ String c (pretty b)) = [pretty a; pretty b].
Proof.
  intros Hc Ha Hb. unfold py_split. rewrite chars_app. cbn [String.list_ascii_of_string].
  rewrite split_chars_one by (eapply Forall_impl; [by apply pretty_digits|by intros x Hx ->]). cbn.
  by rewrite !String.string_of_list_ascii_of_string.
Qed.
