(* ===== verification/LayerPlan.v ===== *)
(** * Which peer gets which layers (mvp_capabilities/layer_planner.py, chain_scheduler.py)

    The planner gives the layers of a model to the peers in the order of their names, as many to each
    as its free memory holds, and writes the commands that start the servers; the scheduler sends
    requests through the plan in waves. Memory is in binary64 floats as the code computes it. The
    texts that explain a plan are left out.

    A peer is what its capability file holds, a dictionary of JSON values; [float] of a string and
    [repr] are parameters. *)

From stdpp Require Import numbers base strings pretty list.
From Stdlib Require Import ZArith Ascii Lia ZifyBool SpecFloat.
From S2P Require Import Prelude Dict PyStr PySort Floats PyVal Decimal SwarmInfo BlockSelection ServerLoop.

(** ** Floats *)

(** [math.floor], [round]: the multiple of [10^-n] nearest to the exact value of [x], ties to even, as a float *)
Definition round_half_even (num den : Z) : Z :=
  let q := num / den in let r := num mod den in
  if 2 * r <? den then q else if den <? 2 * r then q + 1 else if Z.even q then q else q + 1.
Definition round_digits (n : Z) (x : float) : float :=
  match x with
  | S754_finite s m e =>
      let k := if 0 <=? e then Zpos m * 2 ^ e * 10 ^ n else round_half_even (Zpos m * 10 ^ n) (2 ^ (- e)) in
      match k with
      | Zpos p => SFdiv 53 1024 (S754_finite s p 0) (S754_finite false (Z.to_pos (10 ^ n)) 0)
      | _ => S754_zero s
      end
  | _ => x
  end.

Section planner.
Context (parse : string → res float) (repr : value → string).

(** [x or y] where [x] is what [get] gives *)
Definition py_or (x : option value) (y : option value) : option value :=
  match x with Some v => if truthy v then Some v else y | None => y end.

(** [d.get(k) or {}], of which the caller takes [get]: a value that is not a dictionary has no [get]. *)
Definition get_dict (d : metadata) (k : string) : res metadata :=
  match dict_get d k with
  | Some (VDict m) => mret m
  | Some v => if truthy v then mthrow Exception else mret []
  | None => mret []
  end.

(** [_as_float(value)], [_as_int(value)] with the default 0: TypeError and ValueError give the default, an overflow does not. *)
Definition as_float (v : option value) : res float :=
  match v with
  | None | Some VNone => mret float_zero
  | Some (VInt n) => match float_of_Z n with S754_infinity _ => mthrow Exception | f => mret f end
  | Some v => match py_float_of parse v with Ok f => mret f | Raise _ => mret float_zero end
  end.
Definition as_int (v : option value) : res Z :=
  match v with
  | None | Some VNone => mret 0
  | Some (VFloat (S754_infinity _)) => mthrow Exception
  | Some v => match py_int_of v with Ok n => mret n | Raise _ => mret 0 end
  end.

(** [_peer_free_gb], [_model_required_gb] *)
Definition peer_free_gb (peer : metadata) : res float :=
  memory ← get_dict peer "memory";
  accelerator ← get_dict peer "accelerator";
  let unified := match dict_get accelerator "unified_memory" with Some v => truthy v | None => false end in
  as_float (match get_some memory "free_gb" with
            | Some v => Some v
            | None => if unified then get_some accelerator "vram_free_gb" else None
            end).
Definition model_required_gb (model : metadata) : res float :=
  as_float (py_or (dict_get model "recommended_min_free_mem_gb") (dict_get model "min_total_mem_gb")).

Definition hostname_of (d : metadata) : string :=
  py_str repr (default (VStr "unknown") (py_or (dict_get d "hostname") None)).

(** ** The plan *)

Record assignment := mkAssignment {
  hostname : string; start_layer : Z; end_layer : Z; layer_count : Z; free_gb : float; capacity_layers : Z;
}.
Record layer_plan := mkPlan {
  supported : bool; num_layers : Z; required_free_gb : float; per_layer_required_gb : float;
  assigned_layers : Z; missing_layers : Z; assignments : list assignment;
}.

(** [int(math.floor(free_gb / per_layer_required_gb))] *)
Definition capacity (per_layer free : float) : res Z :=
  if fltb float_zero per_layer then q ← py_div free per_layer; math_floor q else mret 0.

(** The loop over the peers: the next layer, and the assignments *)
Fixpoint place (per_layer : float) (num_layers next_layer : Z) (peers : list metadata) : res (Z * list assignment) :=
  match peers with
  | [] => mret (next_layer, [])
  | peer :: peers =>
      if num_layers <=? next_layer then mret (next_layer, [])
      else
        raw ← peer_free_gb peer;
        let free := round_digits 4 raw in
        capacity_layers ← capacity per_layer free;
        if capacity_layers <=? 0 then place per_layer num_layers next_layer peers
        else
          let layer_count := Z.min capacity_layers (num_layers - next_layer) in
          let end_layer := next_layer + layer_count in
          rest ← place per_layer num_layers end_layer peers;
          mret (rest.1, mkAssignment (hostname_of peer) next_layer end_layer layer_count (round_digits 2 free) capacity_layers :: rest.2)
  end.

Definition sorted_peers (peers : list metadata) : list metadata :=
  sort_by (λ a b, String.ltb (hostname_of a) (hostname_of b)) peers.

Definition plan_layer_placement (peers : list metadata) (model : metadata) : res layer_plan :=
  num_layers ← as_int (py_or (dict_get model "num_layers") (dict_get model "num_hidden_layers"));
  required ← model_required_gb model;
  if (num_layers <=? 0) || fleb required float_zero then
    mret (mkPlan false num_layers required float_zero 0 (Z.max num_layers 0) [])
  else
    per_layer ← py_div required (float_of_Z num_layers);
    placed ← place per_layer num_layers 0 (sorted_peers peers);
    let missing := Z.max (num_layers - placed.1) 0 in
    mret (mkPlan (missing =? 0) num_layers (round_digits 2 required) (round_digits 4 per_layer) placed.1 missing placed.2).

(** ** The commands *)

Record launch := mkLaunch { l_hostname : string; port : Z; block_range_text : string; launch_command : string }.

(** [s.upper()] of ASCII *)
Definition upper_ascii (c : ascii) : ascii :=
  let n := nat_of_ascii c in if ((97 <=? n) && (n <=? 122))%nat then ascii_of_nat (n - 32) else c.
Definition py_upper (s : string) : string := String.string_of_list_ascii (upper_ascii <$> String.list_ascii_of_string s).

(** [" ".join(parts)] *)
Definition join_words (l : list string) : string := String.concat " " l.

Definition server_command (model_id block_range device dtype : string) (port : Z) (dht_prefix initial_peer quant_type : option string) : string :=
  join_words (concat [
    ["PYTHONPATH=.:src"; "python -m bloombee.cli.run_server"; model_id; "--block_indices " +:+ block_range; "--device " +:+ device;
     "--torch_dtype " +:+ dtype; "--port " +:+ pretty port];
    match quant_type with Some q => ["--quant_type " +:+ py_upper q] | None => [] end;
    match dht_prefix with Some p => ["--dht_prefix " +:+ p] | None => [] end;
    [match initial_peer with Some p => "--initial_peers '" +:+ p +:+ "'" | None => "--new_swarm" end]])%string.

Definition launch_of (model_id device dtype : string) (base_port : Z) (dht_prefix quant_type seed : option string) (index : nat) (a : assignment) : launch :=
  let range := (pretty (start_layer a) +:+ ":" +:+ pretty (end_layer a))%string in
  let port := base_port + Z.of_nat index in
  let initial_peer := if (index =? 0)%nat then None else (λ h, "<SEED_MULTIADDR_FROM_" +:+ h +:+ ">")%string <$> seed in
  mkLaunch (hostname a) port range (server_command model_id range device dtype port dht_prefix initial_peer quant_type).

(** [attach_launch_commands]: the host of the first assignment is the seed of the others. *)
Definition attach_launch_commands (model_id device dtype : string) (base_port : Z) (dht_prefix quant_type : option string) (l : list assignment) : list launch :=
  imap (launch_of model_id device dtype base_port dht_prefix quant_type (hostname <$> head l)) l.

(** ** The scheduler *)

(** [_waves]: slices of [max_parallel] requests *)
Fixpoint waves {A} (fuel : nat) (max_parallel : nat) (ids : list A) : list (list A) :=
  match fuel, ids with
  | S fuel, _ :: _ => take max_parallel ids :: waves fuel max_parallel (drop max_parallel ids)
  | _, _ => []
  end.

Record schedule := mkSchedule {
  s_waves : list (list nat); s_stages : list string; s_chains : list (nat * list string); s_scheduled_tokens : Z;
  s_peak : Z; s_health : list string;
}.

(** [build_chain_schedule] on a supported plan with at least one assignment: a request is its number; [s_health] are the
    keys of [peer_health]. *)
Definition build_chain_schedule (p : layer_plan) (request_count max_parallel prompt_tokens max_new_tokens : Z) : res (option schedule) :=
  if request_count <? 0 then mthrow ValueError
  else if max_parallel <=? 0 then mthrow ValueError
  else if (prompt_tokens <? 0) || (max_new_tokens <? 0) then mthrow ValueError
  else match supported p, assignments p with
       | true, _ :: _ =>
           let ids := seq 0 (Z.to_nat request_count) in
           let stages := hostname <$> assignments p in
           mret (Some (mkSchedule (waves (Z.to_nat request_count) (Z.to_nat max_parallel) ids) stages ((λ r, (r, stages)) <$> ids)
             (request_count * (prompt_tokens + max_new_tokens)) (if request_count =? 0 then 0 else Z.min max_parallel request_count)
             (dict_keys (foldl (λ d h, dict_set d h tt) [] stages))))
       | _, _ => mret None
       end.

(** ** The assignments tile the model *)

Definition layers_of (a : assignment) : list Z := py_range (start_layer a) (end_layer a).
Definition assignment_ok (a : assignment) : Prop :=
  0 ≤ start_layer a ∧ end_layer a = start_layer a + layer_count a ∧ 1 ≤ layer_count a ≤ capacity_layers a.
Definition peer_capacity (per_layer : float) (peer : metadata) : res Z :=
  raw ← peer_free_gb peer; capacity per_layer (round_digits 4 raw).
Definition zsum (l : list Z) : Z := foldr Z.add 0 l.

Lemma py_range_app a b c : a ≤ b ≤ c → py_range a b ++ py_range b c = py_range a c.
Proof. intros H. unfold py_range. replace (c - a) with ((b - a) + (c - b)) by lia. rewrite seqZ_app by lia. by replace (a + (b - a)) with b by lia. Qed.

Lemma place_spec per_layer n peers : ∀ next fin l, place per_layer n next peers = Ok (fin, l) → 0 ≤ next ≤ n →
  next ≤ fin ≤ n ∧ concat (layers_of <$> l) = py_range next fin ∧ Forall assignment_ok l ∧
  hostname <$> l `sublist_of` hostname_of <$> peers ∧
  (fin < n → ∃ caps, mapM (peer_capacity per_layer) peers = Ok caps ∧ fin = next + zsum (Z.max 0 <$> caps)).
Proof.
  induction peers as [|peer peers IH]; intros next fin l; cbn [place].
  - intros [= <- <-] Hn. split_and!; [lia..| |done|done|intros _; exists []; cbn; split; [done|lia]].
    unfold py_range. by rewrite Z.sub_diag.
  - destruct (Z.leb_spec n next) as [Hle|Hlt].
    { intros [= <- <-] Hn. split_and!; [lia..| |done|apply sublist_nil_l|lia]. unfold py_range. by rewrite Z.sub_diag. }
    destruct (peer_free_gb peer) as [raw|] eqn:Eraw; [|done]. cbn [mbind res_bind].
    destruct (capacity per_layer (round_digits 4 raw)) as [cap|] eqn:Ecap; [|done]. cbn [mbind res_bind].
    assert (peer_capacity per_layer peer = Ok cap) as Epc by (unfold peer_capacity; by rewrite Eraw).
    assert (∀ nx, (fin < n → ∃ caps, mapM (peer_capacity per_layer) peers = Ok caps ∧ fin = nx + zsum (Z.max 0 <$> caps)) → (fin < n → nx = next + Z.max 0 cap) →
      fin < n → ∃ caps, mapM (peer_capacity per_layer) (peer :: peers) = Ok caps ∧ fin = next + zsum (Z.max 0 <$> caps)) as Hcaps.
    { intros nx H Hnx Hf. destruct (H Hf) as (caps & E & ->). exists (cap :: caps). cbn. rewrite Epc. cbn. rewrite E. cbn.
      split; [done|]. specialize (Hnx Hf). fold (zsum (Z.max 0 <$> caps)). lia. }
    destruct (Z.leb_spec cap 0) as [Hc|Hc].
    + intros E Hn. destruct (IH _ _ _ E Hn) as (H1 & H2 & H3 & H4 & H5). split; [lia|]. split; [done|]. split; [done|]. split; [by apply sublist_cons|].
      apply (Hcaps next); [done|lia].
    + destruct (place per_layer n (next + Z.min cap (n - next)) peers) as [[fin' l']|] eqn:E; [|done]. cbn [mbind res_bind mret res_ret fst snd].
      intros [= <- <-] Hn. destruct (IH _ _ _ E ltac:(lia)) as (H1 & H2 & H3 & H4 & H5). split; [lia|]. split; [|split; [|split; [by apply sublist_skip|]]].
      * cbn. rewrite H2. unfold layers_of at 1. cbn. apply py_range_app. lia.
      * constructor; [|done]. unfold assignment_ok. cbn. lia.
      * apply (Hcaps (next + Z.min cap (n - next))); [done|]. lia.
Qed.

(** ** What the launched servers serve *)

Lemma range_text_parses a b : 0 ≤ a → 0 ≤ b → parse_block_indices (pretty a +:+ ":" +:+ pretty b) = Ok (a, b).
Proof.
  intros Ha Hb. unfold parse_block_indices. change (":" +:+ pretty b)%string with (String ":" (pretty b)). rewrite (split_two_numbers ":"%char) by (try done; by intros [d Hd]).
  by rewrite !py_int_pretty.
Qed.

Lemma launched_blocks model_id device dtype base_port dht_prefix quant_type seed layers choose l i : Forall assignment_ok l →
  mapM (λ x, init_blocks layers None (Some (block_range_text x)) choose)
    (imap (λ j, launch_of model_id device dtype base_port dht_prefix quant_type seed (i + j)) l) =
  Ok ((λ a, (Some (layers_of a), layer_count a)) <$> l).
Proof.
  intros Hl. revert i. induction Hl as [|a l Ha Hl IH]; intros i; [done|]. destruct Ha as (Hs & He & Hc). 
  assert (∀ j, init_blocks layers None (Some (block_range_text (launch_of model_id device dtype base_port dht_prefix quant_type seed j a))) choose =
    Ok (Some (layers_of a), layer_count a)) as Ha.
  { intros j. unfold init_blocks. cbn [block_range_text launch_of]. rewrite range_text_parses by lia. cbn. do 2 f_equal.
    unfold zlen, py_range. rewrite length_seqZ. lia. }
  change (imap ?f (a :: l)) with (f 0%nat a :: imap (f ∘ S) l). cbn [mapM]. rewrite Ha. cbn [mbind res_bind].
  assert (imap ((λ j, launch_of model_id device dtype base_port dht_prefix quant_type seed (i + j)) ∘ S) l =
          imap (λ j, launch_of model_id device dtype base_port dht_prefix quant_type seed (S i + j)) l) as ->.
  { apply imap_ext. intros j x _. cbn. by rewrite Nat.add_succ_r. }
  by rewrite IH.
Qed.

(** ** Waves *)

Lemma waves_nil {A} fuel max_parallel : (0 < max_parallel)%nat →
  concat (waves fuel max_parallel (@nil A)) = [] ∧ Forall (λ w, (0 < length w ≤ max_parallel)%nat) (waves fuel max_parallel (@nil A)) ∧
  zlen (waves fuel max_parallel (@nil A)) = (zlen (@nil A) + Z.of_nat max_parallel - 1) / Z.of_nat max_parallel.
Proof.
  intros Hm. assert (waves fuel max_parallel (@nil A) = []) as -> by (by destruct fuel). split; [done|]. split; [done|].
  change (zlen (@nil (list A))) with 0. change (zlen (@nil A)) with 0. rewrite Z.div_small; lia.
Qed.

Lemma waves_spec {A} max_parallel : (0 < max_parallel)%nat → ∀ (ids : list A) fuel, (length ids ≤ fuel)%nat →
  concat (waves fuel max_parallel ids) = ids ∧
  Forall (λ w, (0 < length w ≤ max_parallel)%nat) (waves fuel max_parallel ids) ∧
  zlen (waves fuel max_parallel ids) = (zlen ids + Z.of_nat max_parallel - 1) / Z.of_nat max_parallel.
Proof.
  intros Hm ids fuel. revert ids. induction fuel as [|fuel IH]; intros ids Hf.
  { destruct ids; [|cbn in Hf; lia]. by apply waves_nil. }
  destruct ids as [|x ids]; [by apply waves_nil|].
  cbn [waves]. destruct (IH (drop max_parallel (x :: ids))) as (H1 & H2 & H3); [rewrite length_drop; cbn in *; lia|].
  split_and!.
  - cbn [concat]. rewrite H1. apply take_drop.
  - constructor; [|done]. rewrite length_take. cbn. lia.
  - rewrite zlen_cons, H3. unfold zlen. rewrite length_drop. set (k := length (x :: ids)). assert (0 < k)%nat by (cbn in k; lia).
    destruct (decide (max_parallel ≤ k)%nat) as [Hk|Hk].
    + rewrite Nat2Z.inj_sub by done. replace (Z.of_nat k + Z.of_nat max_parallel - 1) with (Z.of_nat k - Z.of_nat max_parallel + Z.of_nat max_parallel - 1 + 1 * Z.of_nat max_parallel) by lia.
      rewrite Z.div_add by lia. lia.
    + replace (k - max_parallel)%nat with 0%nat by lia.
      replace (Z.of_nat k + Z.of_nat max_parallel - 1) with (Z.of_nat k - 1 + 1 * Z.of_nat max_parallel) by lia.
      rewrite Z.div_add, !Z.div_small by lia. lia.
Qed.

(** Every request runs once, in waves of at most [max_parallel], through every stage of the plan. *)
Lemma schedule_covers p requests max_parallel prompt new s :
  build_chain_schedule p requests max_parallel prompt new = Ok (Some s) →
  concat (s_waves s) = seq 0 (Z.to_nat requests) ∧ Forall (λ w, 0 < zlen w ≤ max_parallel) (s_waves s) ∧
  zlen (s_waves s) = (requests + max_parallel - 1) / max_parallel ∧
  s_chains s = (λ r, (r, hostname <$> assignments p)) <$> seq 0 (Z.to_nat requests) ∧ supported p = true.
Proof.
  unfold build_chain_schedule. destruct (Z.ltb_spec requests 0); [done|]. destruct (Z.leb_spec max_parallel 0); [done|].
  destruct (_ || _); [done|]. destruct (supported p) eqn:Es; [|done]. destruct (assignments p) eqn:Ea; [done|].
  intros [= <-]. cbn [s_waves s_chains].
  destruct (waves_spec (Z.to_nat max_parallel) ltac:(lia) (seq 0 (Z.to_nat requests)) (Z.to_nat requests)) as (H1 & H2 & H3); [by rewrite length_seq|].
  split_and!; [done| | |done|done].
  - eapply Forall_impl; [exact H2|]. intros w Hw. cbn in Hw. unfold zlen. lia.
  - rewrite H3. unfold zlen. rewrite length_seq, !Z2Nat.id by lia. done.
Qed.
End planner.

(** C37: the servers that the commands of a plan start accept the block ranges written in them and serve, each within
    the capacity of its peer and in the order of the names, the layers from 0 on without a gap or an overlap; the plan
    counts the missing ones, and a supported plan misses none. *)
Theorem launched_servers_cover parse repr peers model p model_id device dtype base_port dht_prefix quant_type layers choose :
  plan_layer_placement parse repr peers model = Ok p →
  mapM (λ x, init_blocks layers None (Some (block_range_text x)) choose)
    (attach_launch_commands model_id device dtype base_port dht_prefix quant_type (assignments p)) =
    Ok ((λ a, (Some (layers_of a), layer_count a)) <$> assignments p) ∧
  concat (layers_of <$> assignments p) = py_range 0 (assigned_layers p) ∧
  Forall (λ a, 1 ≤ layer_count a ≤ capacity_layers a) (assignments p) ∧
  (hostname <$> assignments p) `sublist_of` (hostname_of repr <$> sorted_peers repr peers) ∧
  assigned_layers p = Z.max (num_layers p) 0 - missing_layers p ∧ 0 ≤ missing_layers p ∧
  (supported p = true → 0 < num_layers p ∧ missing_layers p = 0).
Proof.
  unfold plan_layer_placement. destruct (as_int _) as [n|]; [|done]. cbn [mbind res_bind].
  destruct (model_required_gb _ _) as [required|]; [|done]. cbn [mbind res_bind].
  destruct (Z.leb_spec n 0) as [Hn|Hn]; cbn [orb].
  { intros [= <-]. cbn [assignments assigned_layers num_layers missing_layers supported]. repeat (split; [done || apply sublist_nil_l || lia|]). done. }
  destruct (fleb required float_zero).
  { intros [= <-]. cbn [assignments assigned_layers num_layers missing_layers supported]. repeat (split; [done || apply sublist_nil_l || lia|]). done. }
  destruct (py_div _ _) as [per_layer|]; [|done]. cbn [mbind res_bind].
  destruct (place _ _ _ _ _ _) as [[fin l]|] eqn:E; [|done]. cbn [mbind res_bind mret res_ret fst snd]. intros [= <-].
  destruct (place_spec _ _ _ _ _ _ _ _ E) as (H1 & H2 & H3 & H4 & _); [lia|]. cbn [assignments assigned_layers num_layers missing_layers supported].
  split; [by apply (launched_blocks _ _ _ _ _ _ _ _ _ _ 0)|]. split; [done|]. split; [|split; [done|split; [lia|split; [lia|lia]]]].
  eapply Forall_impl; [exact H3|]. by intros a (? & ? & ?).
Qed.

(** ** An example: two laptops of 20 GB, a model of 60 GB in 48 layers *)

Definition ex_peer (host : string) (gb : Z) : metadata := [("hostname", VStr host); ("memory", VDict [("free_gb", VInt gb)])]%string.
Definition ex_model : metadata := [("num_layers", VInt 48); ("min_total_mem_gb", VInt 60)]%string.
Definition ex_peers : list metadata := [ex_peer "m4-b" 20; ex_peer "m4-a" 20; ex_peer "m4-c" 30].

Definition no_parse (_ : string) : res float := Raise ValueError.
Definition ex_plan : layer_plan := Eval vm_compute in
  match plan_layer_placement no_parse (λ _, ""%string) ex_peers ex_model with
  | Ok p => p | Raise _ => mkPlan false 0 float_zero float_zero 0 0 [] end.

Lemma launched_servers_cover_witness :
  plan_layer_placement no_parse (λ _, ""%string) ex_peers ex_model = Ok ex_plan ∧ supported ex_plan = true ∧
  block_range_text <$> attach_launch_commands "m" "mps" "float16" 31337 None None (assignments ex_plan) = ["0:16"; "16:32"; "32:48"]%string ∧
  concat (layers_of <$> assignments ex_plan) = py_range 0 48.
Proof.
  assert (plan_layer_placement no_parse (λ _, ""%string) ex_peers ex_model = Ok ex_plan) as E by (vm_compute; reflexivity).
  split; [exact E|]. split; [reflexivity|]. split; [vm_compute; reflexivity|].
  destruct (launched_servers_cover _ _ _ _ _ "m" "mps" "float16" 31337 None None 48 (Raise ValueError) E) as (_ & H & _). exact H.
Defined.

(** Two stages on peers of one name have one entry in the health table: the load of the second is not shown. *)
Example same_name_one_entry :
  match build_chain_schedule (mkPlan true 2 float_zero float_zero 2 0
    [mkAssignment "a" 0 1 1 float_zero 1; mkAssignment "a" 1 2 1 float_zero 1]) 3 2 5 5 with
  | Ok (Some s) => s_waves s = [[0; 1]; [2]]%nat ∧ s_stages s = ["a"; "a"]%string ∧ s_health s = ["a"]%string
  | _ => False end.
Proof. vm_compute. done. Qed.
