(* ===== verification/GpuStreams.v ===== *)
(** * Copies on device streams

    torch.cuda runs what the host enqueues on a stream in order, and what it enqueues on different
    streams in any order that respects the events they wait for. The host may wait for an event.

    An operation is a simultaneous assignment of cells. If conflicting operations are ordered by a
    stream or an event, then every schedule ends in the memory of the program order. The cache
    manager of KVOffload.v runs on this. *)

From stdpp Require Import base numbers list.
From Stdlib Require Import ZArith Lia.
From S2P Require Import Prelude.

(** The stream that computes, and the two of the cache manager *)
Inductive stream := Compute | Offload | Prefetch.
#[export] Instance stream_eq_dec : EqDecision stream.
Proof. solve_decision. Defined.

Section streams.
Context {L V : Type}.

Definition memory : Type := L → V.
Definition mem_eq : relation memory := pointwise_relation L (=).
Notation "m ≈ n" := (mem_eq m n) (at level 70).

#[export] Instance mem_eq_equiv : Equivalence mem_eq.
Proof. split; [by intros m l|intros m n H l; symmetry; apply H|intros m n k H1 H2 l; by rewrite (H1 l)]. Qed.

(** What a cell gets: a value, or the content of a cell. *)
Inductive source := Value (v : V) | From (l : L).
Definition action : Type := L → option source.

Definition exec (a : action) (m : memory) : memory :=
  λ l, match a l with None => m l | Some (Value v) => v | Some (From l') => m l' end.

#[export] Instance exec_proper : Proper ((=) ==> mem_eq ==> mem_eq) exec.
Proof. intros a ? <- m n H l. unfold exec. destruct (a l) as [[]|]; [done|apply H|apply H]. Qed.

Definition writes (a : action) (l : L) : Prop := is_Some (a l).
Definition reads (a : action) (l : L) : Prop := ∃ l', a l' = Some (From l).
Definition conflict (a b : action) : Prop := ∃ l, (writes a l ∧ (writes b l ∨ reads b l)) ∨ (reads a l ∧ writes b l).

Lemma exec_commute a b m : ¬ conflict a b → exec a (exec b m) ≈ exec b (exec a m).
Proof.
  intros Hn l. unfold exec. destruct (a l) as [sa|] eqn:Ea, (b l) as [sb|] eqn:Eb.
  - exfalso. apply Hn. exists l. left. split; [by eexists|left; by eexists].
  - destruct sa as [v|l']; [done|]. destruct (b l') as [sb|] eqn:Eb'; [|done].
    exfalso. apply Hn. exists l'. right. split; [by exists l|by eexists].
  - destruct sb as [v|l']; [done|]. destruct (a l') as [sa|] eqn:Ea'; [|done].
    exfalso. apply Hn. exists l'. left. split; [by eexists|right; by exists l].
  - done.
Qed.

(** ** Devices *)

Record op := mkOp { o_id : nat; o_stream : stream; o_waits : list nat; o_action : action }.
(** The memory, the operations not yet done in the order of their enqueueing, and the next number *)
Record device := mkDevice { d_memory : memory; d_pending : list op; d_next : nat }.

(** [q] cannot start before [p] is done. *)
Definition blocks (p q : op) : bool := bool_decide (o_stream p = o_stream q) || bool_decide (o_id p ∈ o_waits q).
Definition ready (before : list op) (q : op) : bool := forallb (λ p, negb (blocks p q)) before.

(** The device does the [k]-th operation that is left, if it can start. *)
Definition run_one (d : device) (k : nat) : device :=
  match d_pending d !! k with
  | Some q =>
      if ready (take k (d_pending d)) q then mkDevice (exec (o_action q) (d_memory d)) (delete k (d_pending d)) (d_next d) else d
  | None => d
  end.
Definition run (schedule : list nat) (d : device) : device := foldl run_one d schedule.

Definition enqueue (s : stream) (waits : list nat) (a : action) (d : device) : nat * device :=
  (d_next d, mkDevice (d_memory d) (d_pending d ++ [mkOp (d_next d) s waits a]) (S (d_next d))).

(** The host waits for an operation: the device goes on by its schedule and, if that does not do the operation, in order. *)
Definition position (id : nat) (l : list op) : option nat := fst <$> list_find (λ p, o_id p = id) l.
Definition synchronize (id : nat) (schedule : list nat) (d : device) : device :=
  let d := run schedule d in
  match position id (d_pending d) with Some n => run (replicate (S n) O) d | None => d end.

(** The numbers of the operations of a stream that are left: what [wait_stream] waits for *)
Definition on_stream (s : stream) (d : device) : list nat := o_id <$> filter (λ p, o_stream p = s) (d_pending d).

(** Everything done in the order of the program *)
Definition settle (m : memory) (l : list op) : memory := foldl (λ m q, exec (o_action q) m) m l.
Definition final (d : device) : memory := settle (d_memory d) (d_pending d).

#[export] Instance settle_proper : Proper (mem_eq ==> (=) ==> mem_eq) settle.
Proof. intros m n H l ? <-. revert m n H. induction l as [|q l IH]; intros m n H; [done|]. cbn. apply IH. by rewrite H. Qed.

Lemma settle_app m l k : settle m (l ++ k) = settle (settle m l) k.
Proof. apply foldl_app. Qed.

Lemma final_enqueue s waits a d : final (enqueue s waits a d).2 = exec a (final d).
Proof. unfold final, enqueue. cbn. by rewrite settle_app. Qed.

(** Conflicting operations are ordered, directly or by one between them. *)
Definition ordered (l : list op) : Prop :=
  ∀ i j p q, (i < j)%nat → l !! i = Some p → l !! j = Some q → conflict (o_action p) (o_action q) →
    blocks p q = true ∨ ∃ k r, (i < k < j)%nat ∧ l !! k = Some r ∧ blocks p r = true ∧ blocks r q = true.

Lemma ready_spec k (l : list op) q : ready (take k l) q = true ↔ ∀ i p, (i < k)%nat → l !! i = Some p → blocks p q = false.
Proof.
  unfold ready. rewrite forallb_forall. split.
  - intros H i p Hi Hp. specialize (H p). rewrite negb_true_iff in H. apply H. apply list_elem_of_In.
    apply (list_elem_of_lookup_2 _ i). by rewrite lookup_take_lt.
  - intros H p Hp%list_elem_of_In. apply list_elem_of_lookup in Hp as [i Hi].
    apply lookup_take_Some in Hi as [Hi Hlt]. rewrite negb_true_iff. by eapply H.
Qed.

(** Where an operation that is left was before one was done *)
Lemma delete_lookup_before {A} (l : list A) k i x : delete k l !! i = Some x →
  ∃ i', l !! i' = Some x ∧ i' ≠ k ∧ i' = (if decide (i < k)%nat then i else S i).
Proof.
  destruct (decide (i < k)%nat) as [Hlt|Hge].
  - rewrite list_lookup_delete_lt by done. intros H. exists i. split; [done|lia].
  - rewrite list_lookup_delete_ge by lia. intros H. exists (S i). split; [done|lia].
Qed.

Lemma delete_lookup_after {A} (l : list A) k i x : l !! i = Some x → i ≠ k →
  delete k l !! (if decide (i < k)%nat then i else pred i) = Some x.
Proof.
  intros H Hne. destruct (decide (i < k)%nat) as [Hlt|Hge]; [by rewrite list_lookup_delete_lt|].
  rewrite list_lookup_delete_ge by lia. by replace (S (pred i)) with i by lia.
Qed.

Lemma run_one_ordered d k : ordered (d_pending d) → ordered (d_pending (run_one d k)).
Proof.
  intros Ho. unfold run_one. destruct (d_pending d !! k) as [x|] eqn:Ek; [|done].
  destruct (ready _ x) eqn:Er; [|done]. cbn. rewrite ready_spec in Er.
  intros i j p q Hij Hi Hj Hc. apply delete_lookup_before in Hi as (i' & Hi & Hik & Ei), Hj as (j' & Hj & Hjk & Ej).
  destruct (Ho i' j' p q) as [?|(n & r & Hn & Hr & H1 & H2)]; [|done..|by left|].
  { repeat case_decide; lia. }
  destruct (decide (n = k)) as [->|Hnk].
  - assert (r = x) as -> by congruence. rewrite (Er i' p) in H1; [done|lia|done].
  - right. exists (if decide (n < k)%nat then n else pred n), r.
    split; [repeat case_decide; lia|]. split; [by apply delete_lookup_after|done].
Qed.

Lemma settle_swap q l m : (∀ p, p ∈ l → ¬ conflict (o_action p) (o_action q)) →
  settle (exec (o_action q) m) l ≈ exec (o_action q) (settle m l).
Proof.
  revert m. induction l as [|p l IH]; intros m H; [done|]. cbn. rewrite exec_commute by (apply H; by left).
  apply IH. intros r Hr. apply H. by right.
Qed.

Lemma run_one_final d k : ordered (d_pending d) → final (run_one d k) ≈ final d.
Proof.
  intros Ho. unfold run_one. destruct (d_pending d !! k) as [x|] eqn:Ek; [|done].
  destruct (ready _ x) eqn:Er; [|done]. unfold final. cbn. rewrite ready_spec in Er.
  rewrite delete_take_drop. rewrite <-(take_drop_middle (d_pending d) k x Ek) at 3. rewrite !settle_app. cbn.
  rewrite settle_swap; [done|]. intros p Hp Hc. apply list_elem_of_lookup in Hp as [i Hi].
  apply lookup_take_Some in Hi as [Hi Hik].
  destruct (Ho i k p x) as [Hb|(n & r & Hn & Hr & _ & Hb)]; [done..| |].
  - by rewrite (Er i p) in Hb.
  - by rewrite (Er n r) in Hb by (done || lia).
Qed.

(** ** Well-formed devices *)

Record device_wf (d : device) : Prop := mkDeviceWf {
  wf_ordered : ordered (d_pending d);
  wf_unique : NoDup (o_id <$> d_pending d);
  wf_fresh : ∀ p, p ∈ d_pending d → (o_id p < d_next d)%nat;
}.

(** What every operation of the device keeps, a schedule and a wait keep. *)
Lemma run_keeps (P : device → Prop) : (∀ d k, P d → P (run_one d k)) → ∀ schedule d, P d → P (run schedule d).
Proof. intros H schedule. induction schedule as [|k schedule IH]; intros d Hd; [done|]. apply IH, H, Hd. Qed.

Lemma synchronize_keeps (P : device → Prop) : (∀ d k, P d → P (run_one d k)) → ∀ id schedule d, P d → P (synchronize id schedule d).
Proof.
  intros H id schedule d Hd. unfold synchronize. destruct (position _ _) as [n|]; [apply (run_keeps _ H)|]; by apply run_keeps.
Qed.

Lemma run_one_pending d k : d_pending (run_one d k) = d_pending d ∨ d_pending (run_one d k) = delete k (d_pending d).
Proof. unfold run_one. destruct (_ !! k); [|by left]. destruct (ready _ _); [by right|by left]. Qed.

Lemma run_one_next d k : d_next (run_one d k) = d_next d.
Proof. unfold run_one. destruct (_ !! k); [|done]. by destruct (ready _ _). Qed.

Lemma run_one_wf d k : device_wf d → device_wf (run_one d k).
Proof.
  intros [Ho Hu Hf]. split; [by apply run_one_ordered| |rewrite run_one_next];
    destruct (run_one_pending d k) as [->| ->]; try done.
  - eapply sublist_NoDup; [exact Hu|]. apply fmap_sublist, sublist_delete.
  - intros p Hp. apply Hf. eapply elem_of_sublist; [exact Hp|apply sublist_delete].
Qed.

Lemma run_one_Forall P d k : Forall P (d_pending d) → Forall P (d_pending (run_one d k)).
Proof.
  intros H. destruct (run_one_pending d k) as [->| ->]; [done|]. rewrite Forall_forall in H |- *.
  intros p Hp. apply H. eapply elem_of_sublist; [exact Hp|apply sublist_delete].
Qed.

(** Enqueueing what is ordered after every pending operation it conflicts with *)
Lemma enqueue_wf s waits a d : device_wf d →
  (∀ i p, d_pending d !! i = Some p → conflict (o_action p) a →
     o_stream p = s ∨ o_id p ∈ waits ∨
     ∃ j q, (i < j)%nat ∧ d_pending d !! j = Some q ∧ blocks p q = true ∧ o_id q ∈ waits) →
  device_wf (enqueue s waits a d).2.
Proof.
  intros [Ho Hu Hf] Hc. unfold enqueue. cbn. split; cbn.
  - intros i j p q Hij Hi Hj Hconf. apply lookup_snoc_Some in Hj as [[Hlt Hj]|[-> <-]].
    + apply lookup_snoc_Some in Hi as [[_ Hi]|[-> _]]; [|lia].
      destruct (Ho i j p q Hij Hi Hj Hconf) as [?|(k & r & ? & Hr & ? & ?)]; [by left|].
      right. exists k, r. split; [done|]. split; [|done]. apply lookup_app_l_Some. done.
    + apply lookup_snoc_Some in Hi as [[_ Hi]|[-> _]]; [|lia]. unfold blocks in *. cbn in *.
      destruct (Hc i p Hi Hconf) as [?|[?|(j & q & ? & Hq & Hb & Hw)]].
      * left. by rewrite bool_decide_true.
      * left. by rewrite orb_comm, bool_decide_true.
      * right. exists j, q. split; [split; [done|by eapply lookup_lt_Some]|]. split; [by apply lookup_app_l_Some|]. split; [done|].
        by rewrite orb_comm, bool_decide_true.
  - rewrite fmap_app. apply NoDup_app. split; [done|]. split; [|apply NoDup_singleton].
    intros x Hx. apply list_elem_of_fmap in Hx as (p & -> & Hp). apply Hf in Hp. intros H. apply list_elem_of_singleton in H. cbn in H. lia.
  - intros p Hp. apply elem_of_app in Hp as [Hp|Hp]; [apply Hf in Hp; lia|]. apply list_elem_of_singleton in Hp as ->. cbn. lia.
Qed.

(** ** Events *)

(** Every pending operation of a kind is done before the one of an event. *)
Definition behind (X : op → Prop) (event : option nat) (d : device) : Prop :=
  ∀ i p, d_pending d !! i = Some p → X p →
    ∃ id j q, event = Some id ∧ d_pending d !! j = Some q ∧ o_id q = id ∧ (i = j ∨ (i < j)%nat ∧ blocks p q = true).
Definition quiet (X : op → Prop) (d : device) : Prop := ∀ p, p ∈ d_pending d → ¬ X p.

Lemma run_one_behind X event d k : behind X event d → behind X event (run_one d k).
Proof.
  intros H. unfold run_one. destruct (d_pending d !! k) as [x|] eqn:Ek; [|done].
  destruct (ready _ x) eqn:Er; [|done]. rewrite ready_spec in Er. intros i p Hi HX. cbn in *.
  apply delete_lookup_before in Hi as (i' & Hi & Hik & Ei). destruct (H i' p Hi HX) as (id & j & q & -> & Hj & Hid & Hor).
  assert (j ≠ k) as Hjk.
  { intros ->. assert (q = x) as -> by congruence. destruct Hor as [?|[? Hb]]; [done|]. by rewrite (Er i' p) in Hb. }
  exists id, (if decide (j < k)%nat then j else pred j), q. split; [done|]. split; [by apply delete_lookup_after|]. split; [done|].
  destruct Hor as [->|[? ?]]; [left|right; split; [|done]]; repeat case_decide; lia.
Qed.

Lemma run_one_quiet X d k : quiet X d → quiet X (run_one d k).
Proof. unfold quiet. rewrite <-!Forall_forall. apply run_one_Forall. Qed.

Lemma behind_none X d : behind X None d → quiet X d.
Proof. intros H p [i Hi]%list_elem_of_lookup HX. by destruct (H i p Hi HX) as (? & ? & ? & [=] & _). Qed.

Lemma quiet_behind X event d : quiet X d → behind X event d.
Proof. intros H i p Hi HX. destruct (H p); [by eapply list_elem_of_lookup_2|done]. Qed.

(** A new event after everything pending *)
Lemma enqueue_behind X s waits a d :
  (∀ p, p ∈ d_pending d → X p → o_stream p = s ∨ o_id p ∈ waits) →
  behind X (Some (enqueue s waits a d).1) (enqueue s waits a d).2.
Proof.
  intros H i p Hi HX. unfold enqueue in *. cbn in *. exists (d_next d), (length (d_pending d)), (mkOp (d_next d) s waits a).
  split; [done|]. split; [by rewrite list_lookup_middle|]. split; [done|].
  apply lookup_snoc_Some in Hi as [[Hlt Hi]|[-> _]]; [right; split; [done|]|by left]. unfold blocks. cbn.
  destruct (H p) as [?|?]; [by eapply list_elem_of_lookup_2|done|by rewrite bool_decide_true|by rewrite orb_comm, bool_decide_true].
Qed.

Lemma enqueue_other_behind X event s waits a d : ¬ X (mkOp (d_next d) s waits a) → behind X event d → behind X event (enqueue s waits a d).2.
Proof.
  intros Hn H i p Hi HX. unfold enqueue in *. cbn in *. apply lookup_snoc_Some in Hi as [[Hlt Hi]|[-> <-]]; [|done].
  destruct (H i p Hi HX) as (id & j & q & -> & Hj & Hid & Hor). exists id, j, q. split_and!; [done|by apply lookup_app_l_Some|done|done].
Qed.

Lemma run_front n d : (n ≤ length (d_pending d))%nat → d_pending (run (replicate n O) d) = drop n (d_pending d).
Proof.
  revert d. induction n as [|n IH]; intros d Hn; [done|]. cbn [replicate run foldl]. unfold run_one at 2.
  destruct (d_pending d) as [|q l] eqn:E; [cbn in Hn; lia|]. cbn. apply (IH (mkDevice _ l _)). cbn in *. lia.
Qed.

(** After the wait the operation is done, and with it what is done before it. *)
Lemma synchronize_done id schedule d : device_wf d → ∀ p, p ∈ d_pending (synchronize id schedule d) → o_id p ≠ id.
Proof.
  intros Hwf p. unfold synchronize, position. apply (run_keeps _ run_one_wf schedule) in Hwf. set (d' := run schedule d) in *.
  destruct (list_find _ (d_pending d')) as [[n q]|] eqn:E; cbn [fmap option_fmap option_map fst].
  - apply list_find_Some in E as (Hn & <- & _). rewrite run_front by (apply lookup_lt_Some in Hn; lia).
    intros [i Hi]%list_elem_of_lookup Heq. rewrite lookup_drop in Hi. destruct Hwf as [_ Hu _].
    assert (S n + i = n)%nat; [|lia]. eapply NoDup_lookup; [exact Hu| |by rewrite list_lookup_fmap, Hn]. by rewrite list_lookup_fmap, Hi, <-Heq.
  - intros Hp Heq. apply list_find_None in E. rewrite Forall_forall in E. by apply (E p Hp).
Qed.

Lemma synchronize_quiet X id schedule d : device_wf d → behind X (Some id) d → quiet X (synchronize id schedule d).
Proof.
  intros Hwf Hb p Hp HX. pose proof (synchronize_done id schedule d Hwf) as Hdone.
  apply (synchronize_keeps _ (run_one_behind X (Some id)) id schedule) in Hb. apply list_elem_of_lookup in Hp as [i Hi].
  destruct (Hb i p Hi HX) as (id' & j & q & [= <-] & Hj & Hid & _). by apply (Hdone q); [eapply list_elem_of_lookup_2|].
Qed.

(** What a schedule or a wait does to a device: it does operations, and not in a way that changes where the program
    order ends. *)
Record settles (d d' : device) : Prop := mkSettles {
  st_wf : device_wf d';
  st_sub : ∀ p, p ∈ d_pending d' → p ∈ d_pending d;
  st_next : d_next d' = d_next d;
  st_behind : ∀ X event, behind X event d → behind X event d';
  st_final : final d' ≈ final d;
}.

Lemma settles_keeps (f : device → device) d : (∀ P : device → Prop, (∀ d k, P d → P (run_one d k)) → ∀ d, P d → P (f d)) →
  device_wf d → settles d (f d).
Proof.
  intros Hf Hwf. split.
  - by apply (Hf _ run_one_wf).
  - apply Forall_forall. apply (Hf (λ d', Forall (λ p, p ∈ d_pending d) (d_pending d'))); [intros ? ?; apply run_one_Forall|by apply Forall_forall].
  - apply (Hf (λ d', d_next d' = d_next d)); [intros ? ? <-; apply run_one_next|done].
  - intros X event. by apply (Hf _ (run_one_behind X event)).
  - apply (Hf (λ d', device_wf d' ∧ final d' ≈ final d)); [|done].
    intros d' k [Hwf' Hm]. split; [by apply run_one_wf|]. rewrite run_one_final; [done|apply Hwf'].
Qed.

Lemma run_settles schedule d : device_wf d → settles d (run schedule d).
Proof. apply (settles_keeps (run schedule)). intros P H. by apply run_keeps. Qed.

Lemma synchronize_settles id schedule d : device_wf d → settles d (synchronize id schedule d).
Proof. apply (settles_keeps (synchronize id schedule)). intros P H. by apply synchronize_keeps. Qed.

Lemma settles_quiet X d d' : settles d d' → quiet X d → quiet X d'.
Proof. intros Hs Hq p Hp. apply Hq. by apply Hs. Qed.

Lemma settles_refl d : device_wf d → settles d d.
Proof. intros Hwf. by apply (run_settles []). Qed.

Lemma settles_trans d1 d2 d3 : settles d1 d2 → settles d2 d3 → settles d1 d3.
Proof.
  intros [_ Hs1 Hn1 Hb1 Hf1] [Hw Hs2 Hn2 Hb2 Hf2]. split; [done|by auto|congruence|by auto|by etrans].
Qed.

(** An operation that the host has waited for leaves the rest as it was. *)
Lemma done_sub s waits a d d' : settles (enqueue s waits a d).2 d' → (∀ q, q ∈ d_pending d' → o_id q ≠ d_next d) →
  ∀ q, q ∈ d_pending d' → q ∈ d_pending d.
Proof.
  intros Hs Hd q Hq. pose proof (st_sub _ _ Hs q Hq) as H. cbn in H. apply elem_of_app in H as [H|H]; [done|].
  apply list_elem_of_singleton in H as ->. by destruct (Hd _ Hq).
Qed.

Lemma done_behind X event s waits a d d' : settles (enqueue s waits a d).2 d' → (∀ q, q ∈ d_pending d' → o_id q ≠ d_next d) →
  behind X event d → behind X event d'.
Proof.
  intros Hs Hd Hb. assert (behind (λ q, X q ∧ o_id q ≠ d_next d) event d') as H.
  { apply Hs. apply enqueue_other_behind; [by intros [_ ?]|]. intros i p Hi [HX _]. by apply (Hb i p). }
  intros i p Hi HX. apply (H i p Hi). split; [done|]. eapply Hd, list_elem_of_lookup_2, Hi.
Qed.

Lemma done_final s waits a d d' l : settles (enqueue s waits a d).2 d' → final d' l = exec a (final d) l.
Proof. intros Hs. rewrite (st_final _ _ Hs l). by rewrite final_enqueue. Qed.
End streams.
Arguments source : clear implicits.
Arguments memory : clear implicits.
Arguments action : clear implicits.
Arguments op : clear implicits.
Arguments device : clear implicits.
