(* ===== verification/KVOffload.v ===== *)
(** * Micro-batches that share working slots (server/memory_cache_manager.py)

    When the cache of a block holds fewer rows than the batch, its micro-batches take turns in a few
    working slots of the slab: a write copies the micro-batch's rows to a staging buffer in host
    memory, and the next read of it copies them back. With asynchronous transfers the copies are
    operations on two streams of their own (GpuStreams.v), and events order them.

    One cell stands for the key and the value of one position and one row (a head of a sequence).
    Mixed caches (MixedCache.v has them), compressed ones, the reads by position ids (SpecCache.v), logs and byte
    counts are left out. *)

From stdpp Require Import base numbers list gmap.
From Stdlib Require Import ZArith Lia.
From S2P Require Import Prelude Microbatch KVCacheManager GpuStreams.

(** ** The state *)

(** A cell of a slab (cache, position, row), of a staging buffer (cache, micro-batch, position, row),
    and of the result of a read. *)
Inductive cell := Gpu (c s r : Z) | Cpu (c mb s r : Z) | Out (id : nat) (s r : Z).

(** The active cache: [id(k_data)], its positions and rows, and [is_cuda] *)
Record slab := mkSlab { sl_id : Z; sl_seq : Z; sl_bh : Z; sl_cuda : bool }.

(** New keys and values: the rows of a column, and the columns, one per position *)
Record new_kvs (V : Type) := mkKvs { n_bh : Z; n_cols : list (list V) }.
Arguments mkKvs {V} n_bh n_cols.
Arguments n_bh {V} n.
Arguments n_cols {V} n.

Section manager.
Context {V : Type}.

(** [_mb_cpu_staging] has the extents of a buffer and the staged prefix. [k_oracle] is not of the
    program: what the device does before each thing the host does. *)
Record manager := mkManager {
  k_staging : gmap (Z * Z) (Z * Z * Z);
  k_current : gmap (Z * Z) Z;
  k_pending : gmap (Z * Z) Z;
  k_offload_events : gmap (Z * Z) nat;
  k_prefetch_events : gmap (Z * Z) nat;
  k_device : device cell V;
  k_oracle : list (list nat);
}.

Definition set_staging x (w : manager) := mkManager x (k_current w) (k_pending w) (k_offload_events w) (k_prefetch_events w) (k_device w) (k_oracle w).
Definition set_current x (w : manager) := mkManager (k_staging w) x (k_pending w) (k_offload_events w) (k_prefetch_events w) (k_device w) (k_oracle w).
Definition set_pending x (w : manager) := mkManager (k_staging w) (k_current w) x (k_offload_events w) (k_prefetch_events w) (k_device w) (k_oracle w).
Definition set_offload_events x (w : manager) := mkManager (k_staging w) (k_current w) (k_pending w) x (k_prefetch_events w) (k_device w) (k_oracle w).
Definition set_prefetch_events x (w : manager) := mkManager (k_staging w) (k_current w) (k_pending w) (k_offload_events w) x (k_device w) (k_oracle w).
Definition set_device x (w : manager) := mkManager (k_staging w) (k_current w) (k_pending w) (k_offload_events w) (k_prefetch_events w) x (k_oracle w).

Definition new_manager (memory : cell → V) (oracle : list (list nat)) : manager :=
  mkManager ∅ ∅ ∅ ∅ ∅ (mkDevice memory [] O) oracle.

Notation MM := (M manager).

(** What the device does in the meantime *)
Definition next_schedule : MM (list nat) := λ w,
  match k_oracle w with
  | [] => (w, Ok [])
  | s :: o => (mkManager (k_staging w) (k_current w) (k_pending w) (k_offload_events w) (k_prefetch_events w) (k_device w) o, Ok s)
  end.

Definition launch (st : stream) (waits : list nat) (a : action cell V) : MM nat :=
  s ← next_schedule;
  w ← get;
  let r := enqueue st waits a (run s (k_device w)) in
  put (set_device r.2 w) ;; mret r.1.
(** [event.synchronize()] *)
Definition wait_for (id : nat) : MM unit :=
  s ← next_schedule;
  modify (λ w, set_device (synchronize id s (k_device w)) w).
(** The operations that [wait_stream] or [stream.synchronize()] waits for *)
Definition stream_ops (st : stream) : MM (list nat) := w ← get; mret (on_stream st (k_device w)).

(** ** Copies *)

(** [copy_] broadcasts an extent of one; other extents must agree. *)
Definition can_copy (dst_s dst_r src_s src_r : Z) : bool :=
  ((src_s =? dst_s) || (src_s =? 1)) && ((src_r =? dst_r) || (src_r =? 1)).
Definition src_index (extent i : Z) : Z := if extent =? 1 then 0 else i.
Definition inside (lo n i : Z) : bool := (lo <=? i) && (i <? lo + n).

(** [k_cpu[:n].copy_(k_data[:n, row:row + src_r])] *)
Definition copy_out (c mb row dst_s dst_r src_s src_r : Z) : action cell V := λ l,
  match l with
  | Cpu c' mb' s r =>
      if (c' =? c) && (mb' =? mb) && inside 0 dst_s s && inside 0 dst_r r
      then Some (From (Gpu c (src_index src_s s) (row + src_index src_r r))) else None
  | _ => None
  end.
(** [k_data[:n, row:row + dst_r].copy_(k_cpu[:n, :src_r])] *)
Definition copy_in (c mb row dst_s dst_r src_s src_r : Z) : action cell V := λ l,
  match l with
  | Gpu c' s r =>
      if (c' =? c) && inside 0 dst_s s && inside row dst_r r
      then Some (From (Cpu c mb (src_index src_s s) (src_index src_r (r - row)))) else None
  | _ => None
  end.
(** The rows [row:row + n] of the positions [:prefix], as a new tensor *)
Definition read_slab (id : nat) (c row n prefix : Z) : action cell V := λ l,
  match l with
  | Out id' s r => if (id' =? id)%nat && inside 0 prefix s && inside 0 n r then Some (From (Gpu c s (row + r))) else None
  | _ => None
  end.
(** [dst[start:start + dst_s, row:row + dst_r] = src[:, src_row:src_row + src_r]] *)
Definition write_slab (c start row dst_s dst_r src_row src_s src_r : Z) (cols : list (list V)) : action cell V := λ l,
  match l with
  | Gpu c' s r =>
      if (c' =? c) && inside start dst_s s && inside row dst_r r
      then Value <$> (cols !! Z.to_nat (src_index src_s (s - start)) ≫= (.!! Z.to_nat (src_row + src_index src_r (r - row)))) else None
  | _ => None
  end.

Section operations.
Context (p : policy) (cfg : block_config).
(** [num_attention_heads]; [_async_kv_transfer] *)
Context (H : Z) (async : bool).

Definition heads1 : Z := Z.max 1 H.

(** ** Waiting *)

(** [_get_slot_state_key_for_mb] *)
Definition slot_state_key_for_mb (sl : slab) (mb : Z) : Z * Z :=
  let '(slot, _, _, _) := resolve_working_slot p mb (sl_bh sl / heads1) (Some (get_working_slot_batch_size p)) in (sl_id sl, slot).

Definition sync_prefetch (sl : slab) (mb : Z) : MM unit :=
  if negb async then mret tt
  else
    w ← get;
    (match k_prefetch_events w !! (sl_id sl, mb) with
     | Some event => modify (λ w, set_prefetch_events (delete (sl_id sl, mb) (k_prefetch_events w)) w) ;; wait_for event
     | None => mret tt
     end) ;;
    w ← get;
    let key := slot_state_key_for_mb sl mb in
    if decide (k_pending w !! key = Some mb)
    then put (set_pending (delete key (k_pending w)) (set_current (<[key := mb]> (k_current w)) w))
    else mret tt.

Definition sync_offload (sl : slab) (mb : Z) : MM unit :=
  if negb async then mret tt
  else
    w ← get;
    match k_offload_events w !! (sl_id sl, mb) with
    | Some event => modify (λ w, set_offload_events (delete (sl_id sl, mb) (k_offload_events w)) w) ;; wait_for event
    | None => mret tt
    end.

Fixpoint wait_all (events : list nat) : MM unit :=
  match events with [] => mret tt | e :: events => wait_for e ;; wait_all events end.

(** [sync_prefetch()], [sync_offload()] of everything *)
Definition sync_prefetch_all : MM unit :=
  if negb async then mret tt
  else
    w ← get;
    wait_all (map_to_list (k_prefetch_events w)).*2 ;;
    modify (λ w, set_pending ∅ (set_current (k_pending w ∪ k_current w) (set_prefetch_events ∅ w))).
Definition sync_offload_all : MM unit :=
  if negb async then mret tt else ids ← stream_ops Offload; wait_all ids.

Definition clear_offload_state : MM unit :=
  w ← get;
  (if async && negb (bool_decide (k_staging w = ∅)) then sync_offload_all else mret tt) ;;
  modify (λ w, set_staging ∅ (set_current ∅ (set_pending ∅ (set_offload_events ∅ (set_prefetch_events ∅ w))))).

(** ** Transfers *)

(** [(working_slot, slot_batch_start, active_batch_size)] of an offload *)
Definition offload_slot (mb cap : Z) (slot rows : option Z) : Z * Z * Z :=
  match slot with
  | None => let '(w, start, active, _) := resolve_working_slot p mb cap rows in (w, start, active)
  | Some w =>
      let size := get_working_slot_batch_size p in
      let start := w * size in
      let capacity := Z.max 0 (Z.min size (cap - start)) in
      (w, start, match rows with Some n => if n <=? 0 then capacity else Z.min n capacity | None => capacity end)
  end.

(** The exceptions of the body are logged and swallowed: a copy of extents that do not agree does nothing. *)
Definition offload_microbatch_kv (sl : slab) (mb prefix_length : Z) (slot rows : option Z) : MM unit :=
  if negb (sl_cuda sl) then mret tt
  else
    let key := (sl_id sl, mb) in
    let '(w_slot, start, active) := offload_slot mb (sl_bh sl / H) slot rows in
    let row := start * H in
    let bh_len := Z.max 0 (active * H) in
    let bh_len := if bh_len <=? 0 then 0 else Z.max 0 (Z.min (row + bh_len) (sl_bh sl) - row) in
    if bh_len <=? 0 then mret tt
    else
      let prefix_length := if prefix_length <=? 0 then sl_seq sl else prefix_length in
      w ← get;
      let buffer := default (sl_seq sl, bh_len, 0) (k_staging w !! key) in
      put (set_staging (<[key := buffer]> (k_staging w)) w) ;;
      let '(s_cpu, bh_cpu, _) := buffer in
      let dst_s := Z.min prefix_length s_cpu in
      let src_s := Z.min prefix_length (sl_seq sl) in
      if negb (can_copy dst_s bh_cpu src_s bh_len) then mret tt
      else
        let copy := copy_out (sl_id sl) mb row dst_s bh_cpu src_s bh_len in
        (if async then
           computed ← stream_ops Compute;
           event ← launch Offload computed copy;
           modify (λ w, set_offload_events (<[key := event]> (k_offload_events w)) w)
         else
           event ← launch Compute [] copy;
           wait_for event ;;
           modify (λ w, set_offload_events (delete key (k_offload_events w)) w)) ;;
        modify (λ w, set_staging (<[key := (s_cpu, bh_cpu, prefix_length)]> (k_staging w))
                       (set_pending (delete (sl_id sl, w_slot) (k_pending w))
                          (set_current (<[(sl_id sl, w_slot) := mb]> (k_current w)) w))).

Definition sync_other (sync : slab → Z → MM unit) (sl : slab) (mb : Z) (other : option Z) : MM unit :=
  match other with Some o => if o =? mb then mret tt else sync sl o | None => mret tt end.

Definition prefetch_microbatch_kv (sl : slab) (mb : Z) : MM unit :=
  let key := (sl_id sl, mb) in
  w ← get;
  match k_staging w !! key with
  | None => mret tt
  | Some (s_cpu, bh_cpu, prefix_length) =>
      if negb (sl_cuda sl) || (prefix_length <=? 0) then mret tt
      else
        let '(w_slot, start, active, _) := resolve_working_slot p mb (sl_bh sl / heads1) (Some (bh_cpu / heads1)) in
        let row := start * H in
        let bh_len := Z.max 0 (active * H) in
        let bh_len := if bh_len <=? 0 then 0 else Z.max 0 (Z.min (row + bh_len) (sl_bh sl) - row) in
        if bh_len <=? 0 then mret tt
        else
          let slot_key := (sl_id sl, w_slot) in
          let current := k_current w !! slot_key in
          sync_other sync_prefetch sl mb (k_pending w !! slot_key) ;;
          sync_other sync_offload sl mb current ;;
          let dst_s := Z.min prefix_length (sl_seq sl) in
          let src_s := Z.min prefix_length s_cpu in
          let src_r := Z.min bh_len bh_cpu in
          if negb (can_copy dst_s bh_len src_s src_r) then mret tt
          else
            let copy := copy_in (sl_id sl) mb row dst_s bh_len src_s src_r in
            if async then
              w ← get;
              event ← launch Prefetch (option_list (k_offload_events w !! key)) copy;
              modify (λ w, set_pending (<[slot_key := mb]> (k_pending w)) (set_prefetch_events (<[key := event]> (k_prefetch_events w)) w))
            else
              event ← launch Compute [] copy;
              wait_for event ;;
              modify (λ w, set_pending (delete slot_key (k_pending w))
                             (set_current (<[slot_key := mb]> (k_current w)) (set_prefetch_events (delete key (k_prefetch_events w)) w)))
  end.

(** ** Reading *)

(** The rows that a read or a write of a micro-batch takes *)
Definition multiplexed (sl : slab) (full_batch_size : Z) : bool := (0 <? full_batch_size) && (sl_bh sl / H <? full_batch_size).

(** Rows of the slab for a read: the first, and how many *)
Definition select_rows (sl : slab) (batch_offset full_batch_size micro_batch_size : Z) : MM (Z * Z) :=
  let cap := sl_bh sl / H in
  if (0 <? full_batch_size) && (0 <? micro_batch_size) then
    if multiplexed sl full_batch_size then
      let mb := compute_microbatch_index p batch_offset (Some micro_batch_size) (Some full_batch_size) in
      let '(slot, start, active, _) := resolve_working_slot p mb cap (Some micro_batch_size) in
      w ← get;
      let current := k_current w !! (sl_id sl, slot) in
      let pending := k_pending w !! (sl_id sl, slot) in
      (if decide (current = Some mb) then
         if decide (pending = Some mb) then sync_prefetch sl mb else mret tt
       else
         (match current with Some c => sync_offload sl c | None => mret tt end) ;;
         (if decide (pending = Some mb) then mret tt else prefetch_microbatch_kv sl mb) ;;
         sync_prefetch sl mb) ;;
      let actual := if 0 <? active then active else cap in
      mret (start * H, Z.min (start * H + actual * H) (sl_bh sl) - start * H)
    else mret (batch_offset * H, Z.min (batch_offset * H + micro_batch_size * H) (sl_bh sl) - batch_offset * H)
  else mret (0, sl_bh sl).

(** [select_cache] without position ids: the tensor that was read, its sequences and the heads of each *)
Definition select_cache (sl : slab) (prefix_length batch_offset full_batch_size micro_batch_size : Z) : MM (option (nat * Z * Z)) :=
  if prefix_length <=? 0 then mret None
  else if sl_seq sl <? prefix_length then mthrow AssertionError
  else if H =? 0 then mthrow ZeroDivisionError
  else
    rows ← select_rows sl batch_offset full_batch_size micro_batch_size;
    let bh := Z.max 0 rows.2 in
    w ← get;
    let id := d_next (k_device w) in
    id ← launch Compute [] (read_slab id (sl_id sl) rows.1 bh prefix_length);
    let heads := if bh <? H then bh else H in
    if heads =? 0 then mthrow ZeroDivisionError
    else if negb (bh mod heads =? 0) then mthrow AssertionError
    else mret (Some (id, bh / heads, heads)).

(** ** Writing *)

(** [general_copy] into the slab; [rows]: first row and number of rows of the target, [src]: those of the source *)
Definition general_copy (sl : slab) (start n row rows src_row src_rows : Z) (cols : list (list V)) : MM unit :=
  let rows := Z.max 0 (Z.min (row + rows) (sl_bh sl) - row) in
  if negb (can_copy n rows (zlen cols) src_rows) then mthrow RuntimeError
  else launch Compute [] (write_slab (sl_id sl) start row n rows src_row (zlen cols) src_rows cols) ;; mret tt.

(** The loop over the sequences of a source with fewer heads than the slab *)
Fixpoint copy_heads (sl : slab) (start n row source_heads : Z) (cols : list (list V)) (batch : list nat) : MM unit :=
  match batch with
  | [] => mret tt
  | b :: batch =>
      general_copy sl start n (row + Z.of_nat b * H) source_heads (Z.of_nat b * source_heads) source_heads cols ;;
      copy_heads sl start n row source_heads cols batch
  end.

(** The first row and the number of rows of a write, and the slot and its active rows if slots are shared *)
Definition write_rows (sl : slab) (span batch_offset full_batch_size micro_batch_size : Z) : MM (Z * Z * option (Z * Z)) :=
  if 0 <? full_batch_size then
    if multiplexed sl full_batch_size then
      let mb := compute_microbatch_index p batch_offset (Some micro_batch_size) (Some full_batch_size) in
      let '(slot, start, active, _) := resolve_working_slot p mb (sl_bh sl / H) (Some micro_batch_size) in
      w ← get;
      sync_other sync_prefetch sl mb (k_pending w !! (sl_id sl, slot)) ;;
      w ← get;
      sync_other sync_offload sl mb (k_current w !! (sl_id sl, slot)) ;;
      mret (start * H, span, Some (slot, active))
    else mret (batch_offset * H, Z.min (batch_offset * H + span) (sl_bh sl) - batch_offset * H, None)
  else if span <=? sl_bh sl then mret (0, span, None) else mthrow AssertionError.

Definition write_kvs (sl : slab) (kvs : new_kvs V) (start_position batch_offset full_batch_size micro_batch_size : Z) : MM unit :=
  if H =? 0 then mthrow ZeroDivisionError
  else
    let source_heads := source_heads_per_batch cfg H (n_bh kvs) full_batch_size micro_batch_size in
    if negb (n_bh kvs mod source_heads =? 0) then mthrow AssertionError
    else
      let source_batch_size := n_bh kvs / source_heads in
      let span := if source_heads <? H then source_batch_size * H else n_bh kvs in
      rows ← write_rows sl span batch_offset full_batch_size micro_batch_size;
      let '(row, n_rows, slot) := rows in
      let s_new := zlen (n_cols kvs) in
      let fits := (0 <=? start_position) && (start_position <? sl_seq sl) && (start_position + s_new <=? sl_seq sl) in
      (* out of bounds: [key_t[:, :, -S_total:]] over all positions *)
      let cols := if fits then n_cols kvs else py_slice (n_cols kvs) (- sl_seq sl) s_new in
      let start := if fits then start_position else 0 in
      let n := if fits then s_new else sl_seq sl in
      (if source_heads <? H then copy_heads sl start n row source_heads cols (seq 0 (Z.to_nat source_batch_size))
       else general_copy sl start n row n_rows 0 (n_bh kvs) cols) ;;
      match slot with
      | Some (w_slot, active) =>
          let mb := compute_microbatch_index p batch_offset (Some micro_batch_size) (Some full_batch_size) in
          offload_microbatch_kv sl mb (start + n) (Some w_slot) (Some active)
      | None => mret tt
      end.

(** A block's step on a micro-batch: the cached prefix, and the new entries behind it *)
Definition block_step (sl : slab) (batch_offset full_batch_size micro_batch_size prefix_length : Z) (kvs : new_kvs V) : MM (option (nat * Z * Z)) :=
  read ← select_cache sl prefix_length batch_offset full_batch_size micro_batch_size;
  write_kvs sl kvs prefix_length batch_offset full_batch_size micro_batch_size ;;
  mret read.
End operations.
End manager.
