(* ===== verification/SharedSlots.v ===== *)
(** * Micro-batches in shared slots keep their entries

    The invariant of the cache manager of KVOffload.v between the steps of a block and inside one, and
    that every step reads what its micro-batch has written, whatever the device does first. *)

From stdpp Require Import base numbers list gmap.
From Stdlib Require Import ZArith Lia.
From S2P Require Import Prelude PyStr Microbatch KVCacheManager GpuStreams KVOffload.

Lemma inside_spec lo n i : inside lo n i = true ↔ lo ≤ i < lo + n.
Proof. unfold inside. rewrite andb_true_iff, Z.leb_le, Z.ltb_lt. lia. Qed.

Lemma src_index_inside n i : 0 ≤ i < n → src_index n i = i.
Proof. intros H. unfold src_index. destruct (Z.eqb_spec n 1); lia. Qed.

Lemma can_copy_same s r : can_copy s r s r = true.
Proof. unfold can_copy. by rewrite !Z.eqb_refl. Qed.

Section slots.
Context {V : Type} (p : policy) (cfg : block_config) (H : Z) (async : bool) (env : environ).
(** The heads that a block writes per sequence, the active cache of each block, and the batch it serves *)
Context (kv : Z) (slab_of : Z → slab) (full_of : Z → Z).

Notation manager := (@manager V).
Notation MM := (M manager).

Definition size1 : Z := get_working_slot_batch_size p.
Definition cap (c : Z) : Z := sl_bh (slab_of c) / H.

(** The [k]-th micro-batch of a block's batch *)
Definition range_of (c : Z) (k : nat) : Z * Z := default (0, 0) (compute_micro_batch_ranges env (full_of c) !! k).
Definition offset_of (c : Z) (k : nat) : Z := (range_of c k).1.
Definition size_of (c : Z) (k : nat) : Z := (range_of c k).2 - (range_of c k).1.
Definition slot_of (c : Z) (k : nat) : Z := Z.of_nat k mod get_working_slot_count p (cap c).
Definition row_of (c : Z) (k : nat) : Z := slot_of c k * size1 * H.
(** A micro-batch of the split that fits into its slot *)
Definition valid (c : Z) (k : nat) : Prop :=
  is_Some (compute_micro_batch_ranges env (full_of c) !! k) ∧ size_of c k ≤ Z.min size1 (cap c - slot_of c k * size1).

(** The blocks have caches on the GPU that hold fewer sequences than the batch. *)
Record shared : Prop := mkShared {
  sh_heads : 0 < kv ≤ H;
  sh_micro : 0 < get_micro_batch_size env;
  sh_policy : gpu_batch_size p = get_micro_batch_size env;
  sh_slab : ∀ c, sl_id (slab_of c) = c ∧ sl_cuda (slab_of c) = true ∧ 0 < cap c < full_of c;
}.

(** What a row of a slab holds at a position, when [h] has been written: the rows of a sequence past its heads are unused. *)
Definition content (h : list (list V)) (s r : Z) : option V :=
  if r mod H <? kv then h !! Z.to_nat s ≫= (.!! Z.to_nat (r / H * kv + r mod H)) else None.

Definition in_slot (w r : Z) : Prop := w * size1 * H ≤ r < (w + 1) * size1 * H.
Definition touches_slot (c w : Z) (q : op cell V) : Prop :=
  ∃ s r, in_slot w r ∧ (writes (o_action q) (Gpu c s r) ∨ reads (o_action q) (Gpu c s r)).
Definition touches_stage (c b : Z) (q : op cell V) : Prop :=
  ∃ s r, writes (o_action q) (Cpu c b s r) ∨ reads (o_action q) (Cpu c b s r).

Definition gpu_holds (d : device cell V) (c : Z) (k : nat) (h : list (list V)) : Prop :=
  ∀ s r v, 0 ≤ s → 0 ≤ r < size_of c k * H → content h s r = Some v → final d (Gpu c s (row_of c k + r)) = v.
Definition cpu_holds (d : device cell V) (c : Z) (k : nat) (h : list (list V)) : Prop :=
  ∀ s r v, 0 ≤ s → 0 ≤ r < size_of c k * H → content h s r = Some v → final d (Cpu c (Z.of_nat k) s r) = v.

(** What a pending copy to the staging may read *)
Definition staged_before (o : option (Z * nat)) (hist : Z → nat → list (list V)) (w : manager) (c slot s : Z) : Prop :=
  match o with
  | Some (c', k) => if decide (c = c' ∧ slot = slot_of c' k) then s < zlen (hist c k)
                    else ∃ k', k_current w !! (c, slot) = Some (Z.of_nat k') ∧ s < zlen (hist c k')
  | None => ∃ k', k_current w !! (c, slot) = Some (Z.of_nat k') ∧ s < zlen (hist c k')
  end.
Definition is_open (o : option (Z * nat)) (c slot : Z) : Prop :=
  match o with Some (c', k) => c = c' ∧ slot = slot_of c' k | None => False end.

(** [hist]: what the micro-batches of the blocks have written; [outs]: what the reads have to give.
    Inside the step of a micro-batch, [o], its slot is open: it holds the micro-batch's entries. *)
Record inv (o : option (Z * nat)) (hist : Z → nat → list (list V)) (outs : nat → Z → Z → option V) (w : manager) : Prop := mkInv {
  i_wf : device_wf (k_device w);
  i_streams : ∀ q, q ∈ d_pending (k_device w) → if async then o_stream q ≠ Prefetch else o_stream q = Compute;
  i_settled : k_pending w = ∅ ∧ k_prefetch_events w = ∅;
  i_slots : async = true → ∀ c slot, ¬ is_open o c slot →
    behind (touches_slot c slot) (k_current w !! (c, slot) ≫= λ b, k_offload_events w !! (c, b)) (k_device w);
  i_stages : async = true → ∀ c b, behind (touches_stage c b) (k_offload_events w !! (c, b)) (k_device w);
  i_offloads : async = true → ∀ q, q ∈ d_pending (k_device w) → o_stream q = Offload →
    (∀ l, writes (o_action q) l → ∃ c b s r, l = Cpu c b s r) ∧
    (∀ l, reads (o_action q) l → ∃ c slot s r, l = Gpu c s r ∧ in_slot slot r ∧ staged_before o hist w c slot s);
  i_current : ∀ c slot b, k_current w !! (c, slot) = Some b → ¬ is_open o c slot →
    ∃ k, b = Z.of_nat k ∧ valid c k ∧ slot_of c k = slot ∧ gpu_holds (k_device w) c k (hist c k);
  i_staged : ∀ c k, hist c k ≠ [] → valid c k ∧ zlen (hist c k) ≤ sl_seq (slab_of c) ∧
    k_staging w !! (c, Z.of_nat k) = Some (sl_seq (slab_of c), size_of c k * H, zlen (hist c k)) ∧ cpu_holds (k_device w) c k (hist c k);
  i_only : ∀ c b, is_Some (k_staging w !! (c, b)) → ∃ k, b = Z.of_nat k ∧ hist c k ≠ [];
  i_outs : ∀ id s r v, outs id s r = Some v → (id < d_next (k_device w))%nat ∧ final (k_device w) (Out id s r) = v;
  i_open : ∀ c k, o = Some (c, k) → hist c k ≠ [] →
    k_current w !! (c, slot_of c k) = Some (Z.of_nat k) ∧ gpu_holds (k_device w) c k (hist c k);
}.

(** The invariant speaks of a device up to what schedules and waits do to it. *)
Lemma inv_settles o hist outs w w' : inv o hist outs w → settles (k_device w) (k_device w') →
  k_staging w' = k_staging w → k_current w' = k_current w → k_pending w' = k_pending w →
  k_offload_events w' = k_offload_events w → k_prefetch_events w' = k_prefetch_events w → inv o hist outs w'.
Proof.
  intros [Hwf Hst Hp Hsl Hsg Hof Hcu Hsd Hon Hou Hop] [Swf Ssub Snext Sb Sf] Es Ec Ep Eo Ee. split.
  - done.
  - intros q Hq. by apply Hst, Ssub.
  - by rewrite Ep, Ee.
  - intros Ha c slot Ho. rewrite Ec, Eo. by apply Sb, Hsl.
  - intros Ha c b. rewrite Eo. by apply Sb, Hsg.
  - intros Ha q Hq Hs. destruct (Hof Ha q (Ssub _ Hq) Hs) as [Hw Hr]. split; [done|]. intros l Hl.
    destruct (Hr l Hl) as (c & slot & s & r & -> & Hin & Hb). exists c, slot, s, r. split_and!; [done..|].
    unfold staged_before in *. by rewrite Ec.
  - intros c slot b. rewrite Ec. intros E Ho. destruct (Hcu c slot b E Ho) as (k & -> & Hv & Hk & Hg). exists k. split_and!; [done..|].
    intros s r v ? ? Hc. rewrite <-(Hg s r v) by done. apply Sf.
  - intros c k Hne. destruct (Hsd c k Hne) as (Hv & Hl & E & Hc). split_and!; [done..|by rewrite Es|].
    intros s r v ? ? Hv'. rewrite <-(Hc s r v) by done. apply Sf.
  - intros c b. rewrite Es. apply Hon.
  - intros id s r v E. destruct (Hou id s r v E) as [? <-]. rewrite Snext. split; [done|apply Sf].
  - intros c k E Hne. destruct (Hop c k E Hne) as [Hc Hg]. rewrite Ec. split; [done|].
    intros s r v ? ? Hv'. rewrite <-(Hg s r v) by done. apply Sf.
Qed.

(** ** The steps of the host *)

(** The state after a launch: the device went on, then got the operation. *)
Lemma launch_spec st waits a (w : manager) : device_wf (k_device w) → ∃ w1, settles (k_device w) (k_device w1) ∧
  k_staging w1 = k_staging w ∧ k_current w1 = k_current w ∧ k_pending w1 = k_pending w ∧
  k_offload_events w1 = k_offload_events w ∧ k_prefetch_events w1 = k_prefetch_events w ∧
  launch st waits a w = (set_device (enqueue st waits a (k_device w1)).2 w1, Ok (d_next (k_device w))).
Proof.
  intros Hwf.
  exists (mkManager (k_staging w) (k_current w) (k_pending w) (k_offload_events w) (k_prefetch_events w)
    (run (default [] (head (k_oracle w))) (k_device w)) (tail (k_oracle w))).
  pose proof (run_settles (default [] (head (k_oracle w))) _ Hwf) as Hs.
  split; [exact Hs|]. split_and!; [done..|]. rewrite <-(st_next _ _ Hs).
  by destruct w as [? ? ? ? ? d [|sch oracle]].
Qed.

Lemma wait_for_spec id (w : manager) : device_wf (k_device w) → ∃ w1, wait_for id w = (w1, Ok tt) ∧ settles (k_device w) (k_device w1) ∧
  k_staging w1 = k_staging w ∧ k_current w1 = k_current w ∧ k_pending w1 = k_pending w ∧
  k_offload_events w1 = k_offload_events w ∧ k_prefetch_events w1 = k_prefetch_events w ∧
  (∀ X, behind X (Some id) (k_device w) → quiet X (k_device w1)) ∧ (∀ q, q ∈ d_pending (k_device w1) → o_id q ≠ id).
Proof.
  intros Hwf. unfold wait_for. destruct w as [? ? ? ? ? d [|sch oracle]]; cbn in *; eexists; (split; [reflexivity|]); cbn;
    (split; [by apply synchronize_settles|]); split_and!; try done.
  - intros X. by apply synchronize_quiet.
  - intros q. by apply synchronize_done.
  - intros X. by apply synchronize_quiet.
  - intros q. by apply synchronize_done.
Qed.

(** ** Where micro-batches live *)

Section proofs.
Context (Hsh : shared).

Lemma heads_pos : 0 < H.
Proof. pose proof (sh_heads Hsh). lia. Qed.

Lemma size1_eq : size1 = get_micro_batch_size env.
Proof. unfold size1, get_working_slot_batch_size. rewrite (sh_policy Hsh). pose proof (sh_micro Hsh). lia. Qed.

Lemma size1_pos : 0 < size1.
Proof. rewrite size1_eq. apply Hsh. Qed.

Lemma cap_bound c : cap c * H ≤ sl_bh (slab_of c).
Proof. unfold cap. pose proof (Z.mul_div_le (sl_bh (slab_of c)) H heads_pos). lia. Qed.

Lemma slot_nonneg c k : 0 ≤ slot_of c k.
Proof. apply Z.mod_pos_bound. unfold get_working_slot_count. destruct (_ <=? 0); lia. Qed.

Lemma valid_range c k : valid c k →
  0 ≤ offset_of c k ∧ 0 < size_of c k ≤ size1 ∧ slot_of c k * size1 + size_of c k ≤ cap c ∧
  compute_microbatch_index p (offset_of c k) (Some (size_of c k)) (Some (full_of c)) = Z.of_nat k.
Proof.
  intros [[[a b] E] Hfit]. pose proof (sh_micro Hsh) as Hm. unfold offset_of, size_of, range_of in *. rewrite E in *. cbn in *.
  split; [|split; [|split; [lia|]]].
  - unfold compute_micro_batch_ranges in E. destruct (_ <=? 0); [done|]. rewrite (proj2 (Z.leb_gt _ _)) in E by done.
    apply ranges_from_lookup in E as (-> & _ & _); [lia|done].
  - rewrite size1_eq. unfold compute_micro_batch_ranges in E. destruct (_ <=? 0); [done|]. rewrite (proj2 (Z.leb_gt _ _)) in E by done.
    apply ranges_from_lookup in E as (Ha & Hb & ?); [lia|done].
  - by apply (microbatch_index_of_range env); [|apply Hsh|].
Qed.

Lemma resolve_slot c k n :
  resolve_working_slot p (Z.of_nat k) (cap c) (Some n) =
  (slot_of c k, slot_of c k * size1,
   if n <=? 0 then Z.max 0 (Z.min size1 (cap c - slot_of c k * size1)) else Z.min n (Z.max 0 (Z.min size1 (cap c - slot_of c k * size1))),
   Z.max 0 (Z.min size1 (cap c - slot_of c k * size1))).
Proof. unfold resolve_working_slot, slot_of. by rewrite Z.max_r by lia. Qed.

Lemma resolve_active c k : valid c k →
  (if size_of c k <=? 0 then Z.max 0 (Z.min size1 (cap c - slot_of c k * size1))
   else Z.min (size_of c k) (Z.max 0 (Z.min size1 (cap c - slot_of c k * size1)))) = size_of c k.
Proof. intros Hv. destruct (valid_range c k Hv) as (_ & ? & ? & _). destruct Hv as [_ ?]. destruct (Z.leb_spec (size_of c k) 0); lia. Qed.

Lemma row_in_slot c k r : valid c k → 0 ≤ r < size_of c k * H → in_slot (slot_of c k) (row_of c k + r).
Proof. intros Hv Hr. destruct (valid_range c k Hv) as (_ & ? & ? & _). pose proof heads_pos. unfold in_slot, row_of. nia. Qed.

Lemma row_bound c k : valid c k → 0 ≤ row_of c k ∧ row_of c k + size_of c k * H ≤ sl_bh (slab_of c).
Proof.
  intros Hv. destruct (valid_range c k Hv) as (_ & ? & ? & _). pose proof heads_pos. pose proof (cap_bound c). pose proof (slot_nonneg c k).
  pose proof size1_pos. unfold row_of. nia.
Qed.

Lemma slot_rows c k : valid c k →
  (if Z.max 0 (size_of c k * H) <=? 0 then 0
   else Z.max 0 (Z.min (slot_of c k * size1 * H + Z.max 0 (size_of c k * H)) (sl_bh (slab_of c)) - slot_of c k * size1 * H)) = size_of c k * H ∧
  0 < size_of c k * H.
Proof.
  intros Hv. destruct (row_bound c k Hv). destruct (valid_range c k Hv) as (_ & ? & ? & _). pose proof heads_pos. unfold row_of in *.
  assert (0 < size_of c k * H) by nia. split; [|done]. destruct (Z.leb_spec (Z.max 0 (size_of c k * H)) 0); lia.
Qed.

Lemma in_slot_inj w1 w2 r : in_slot w1 r → in_slot w2 r → w1 = w2.
Proof. unfold in_slot. pose proof heads_pos. pose proof size1_pos. intros. assert (0 < size1 * H) by nia. nia. Qed.

(** ** Waiting for the staging of a micro-batch *)

Lemma inv_drop_event o hist outs (w : manager) c b : inv o hist outs w →
  (async = true → ∀ X, behind X (k_offload_events w !! (c, b)) (k_device w) → quiet X (k_device w)) →
  inv o hist outs (set_offload_events (delete (c, b) (k_offload_events w)) w).
Proof.
  intros [Hwf Hst Hp Hsl Hsg Hof Hcu Hsd Hon Hou Hop] Hq. split; cbn; try done.
  - intros Ha c' slot Ho. specialize (Hsl Ha c' slot Ho). destruct (k_current w !! (c', slot)) as [b'|]; cbn in *; [|done].
    destruct (decide ((c', b') = (c, b))) as [[= -> ->]|Hne]; [by apply quiet_behind, Hq|]. by rewrite lookup_delete_ne.
  - intros Ha c' b'. specialize (Hsg Ha c' b').
    destruct (decide ((c', b') = (c, b))) as [[= -> ->]|Hne]; [by apply quiet_behind, Hq|]. by rewrite lookup_delete_ne.
Qed.

Lemma sync_offload_spec o hist outs (w : manager) c b : inv o hist outs w → ∃ w',
  sync_offload async (slab_of c) b w = (w', Ok tt) ∧ inv o hist outs w' ∧ settles (k_device w) (k_device w') ∧
  k_staging w' = k_staging w ∧ k_current w' = k_current w ∧ k_pending w' = k_pending w ∧ k_prefetch_events w' = k_prefetch_events w ∧
  (∀ c' b', (c', b') ≠ (c, b) → k_offload_events w' !! (c', b') = k_offload_events w !! (c', b')) ∧
  (async = true → ∀ X, behind X (k_offload_events w !! (c, b)) (k_device w) → quiet X (k_device w')).
Proof.
  intros Hi. destruct (sh_slab Hsh c) as [Hid _]. unfold sync_offload. rewrite Hid.
  pose proof (settles_refl _ (i_wf _ _ _ _ Hi)) as Hr.
  destruct async eqn:Ha; cbn [negb]; [|by exists w].
  rewrite get_bind. destruct (k_offload_events w !! (c, b)) as [e|] eqn:Ee.
  2: { exists w. split; [done|]. split; [done|]. split; [done|]. split_and!; try done. intros _ X. apply behind_none. }
  rewrite modify_bind. set (w0 := set_offload_events (delete (c, b) (k_offload_events w)) w).
  destruct (wait_for_spec e w0 (i_wf _ _ _ _ Hi)) as (w1 & E & Hs & E1 & E2 & E3 & E4 & E5 & Hq & Hdone).
  exists w1. split; [done|]. cbn in *. assert (inv o hist outs (set_offload_events (k_offload_events w) w1)) as Hi1.
  { eapply inv_settles; [exact Hi|done..]. }
  split; [|split_and!; try done].
  - apply (inv_drop_event _ _ _ _ c b) in Hi1.
    + cbn in Hi1. assert (set_offload_events (delete (c, b) (k_offload_events w)) (set_offload_events (k_offload_events w) w1) = w1) as <-; [|done].
      cbn in E4. rewrite <-E4. by destruct w1.
    + cbn. rewrite Ee. intros _ X HX. intros q [n Hn]%list_elem_of_lookup Hxq.
      destruct (HX n q Hn Hxq) as (id & j & q' & [= <-] & Hj & Hid' & _). eapply Hdone; [eapply list_elem_of_lookup_2, Hj|done].
  - intros c' b' Hne. rewrite E4. by rewrite lookup_delete_ne by congruence.
Qed.

(** ** Opening the slot of a micro-batch *)

Lemma inv_opens hist outs (w : manager) c k : inv None hist outs w →
  (hist c k ≠ [] → k_current w !! (c, slot_of c k) = Some (Z.of_nat k)) →
  (async = true → k_current w !! (c, slot_of c k) = Some (Z.of_nat k) ∨ quiet (touches_slot c (slot_of c k)) (k_device w)) →
  inv (Some (c, k)) hist outs w.
Proof.
  intros [Hwf Hst Hp Hsl Hsg Hof Hcu Hsd Hon Hou _] Hcur Hq. split; try done.
  - intros Ha c' slot _. apply (Hsl Ha c' slot). intros [].
  - intros Ha q Hin Hs. destruct (Hof Ha q Hin Hs) as [Hw Hr]. split; [done|]. intros l Hl.
    destruct (Hr l Hl) as (c' & slot & s & r & -> & Hslot & k' & Hk' & Hlt). exists c', slot, s, r. split_and!; [done..|].
    cbn. case_decide as Hd; [|by exists k']. destruct Hd as [-> ->]. destruct (Hq Ha) as [Hk|Hquiet].
    + rewrite Hk in Hk'. by injection Hk' as <-%Nat2Z.inj.
    + destruct (Hquiet q Hin). exists s, r. split; [done|by right].
  - intros c' slot b E _. apply Hcu; [done|]. intros [].
  - intros c' k' [= <- <-] Hne. specialize (Hcur Hne). split; [done|].
    destruct (Hcu _ _ _ Hcur) as (k' & <-%Nat2Z.inj & _ & _ & Hg); [intros []|done].
Qed.

Lemma sync_current_spec hist outs (w : manager) c k : inv None hist outs w → ∃ w',
  sync_other (sync_offload async) (slab_of c) (Z.of_nat k) (k_current w !! (c, slot_of c k)) w = (w', Ok tt) ∧ inv None hist outs w' ∧
  k_staging w' = k_staging w ∧ k_current w' = k_current w ∧
  (async = true → k_current w !! (c, slot_of c k) = Some (Z.of_nat k) ∨ quiet (touches_slot c (slot_of c k)) (k_device w')).
Proof.
  intros Hi. unfold sync_other. destruct (k_current w !! (c, slot_of c k)) as [b|] eqn:Ec.
  - destruct (Z.eqb_spec b (Z.of_nat k)) as [->|Hne]; [exists w; split_and!; try done; by left|].
    destruct (sync_offload_spec None hist outs w c b Hi) as (w' & E & Hi' & _ & E1 & E2 & _ & _ & _ & Hq).
    exists w'. split_and!; try done. intros Ha. right. apply Hq; [done|].
    pose proof (i_slots _ _ _ _ Hi Ha c (slot_of c k)) as Hb. rewrite Ec in Hb. apply Hb. intros [].
  - exists w. split_and!; try done. intros Ha. right. apply behind_none.
    pose proof (i_slots _ _ _ _ Hi Ha c (slot_of c k)) as Hb. rewrite Ec in Hb. apply Hb. intros [].
Qed.

(** The copy back, as the manager launches it *)
Definition restore (c : Z) (k : nat) (n : Z) : action cell V :=
  copy_in c (Z.of_nat k) (row_of c k) n (size_of c k * H) n (size_of c k * H).

Lemma restore_writes c k n l : valid c k → writes (restore c k n) l → ∃ s r, l = Gpu c s (row_of c k + r) ∧
  0 ≤ s < n ∧ 0 ≤ r < size_of c k * H ∧ restore c k n l = Some (From (Cpu c (Z.of_nat k) s r)).
Proof.
  intros Hv [x Hx]. pose proof Hx as Hx'. unfold restore, copy_in in Hx. destruct l as [c' s r|c' b s r|id s r]; try done.
  destruct (_ && _ && _) eqn:E; [|done]. apply andb_true_iff in E as [[Ec Es]%andb_true_iff Er].
  apply Z.eqb_eq in Ec as ->. apply inside_spec in Es, Er. injection Hx as <-. rewrite !src_index_inside in Hx' by lia.
  exists s, (r - row_of c k). replace (row_of c k + (r - row_of c k)) with r by lia. split_and!; try lia; done.
Qed.

Lemma restore_at c k n s r : 0 ≤ s < n → 0 ≤ r < size_of c k * H →
  restore c k n (Gpu c s (row_of c k + r)) = Some (From (Cpu c (Z.of_nat k) s r)).
Proof.
  intros Hs Hr. unfold restore, copy_in. rewrite Z.eqb_refl, (proj2 (inside_spec 0 n s)), (proj2 (inside_spec _ _ _)) by lia. cbn.
  rewrite !src_index_inside by lia. by replace (row_of c k + r - row_of c k) with r by lia.
Qed.

Lemma restore_reads c k n l : valid c k → reads (restore c k n) l → ∃ s r, l = Cpu c (Z.of_nat k) s r.
Proof. intros Hv [l' Hl]. destruct (restore_writes c k n l' Hv) as (s & r & _ & _ & _ & E); [by eexists|]. rewrite E in Hl. injection Hl as <-. eauto. Qed.

Lemma content_short h s r v : 0 ≤ s → content h s r = Some v → s < zlen h.
Proof.
  unfold content. intros Hs. destruct (_ <? _); [|done]. destruct (h !! Z.to_nat s) as [row|] eqn:E; [|done]. intros _.
  apply lookup_lt_Some in E. unfold zlen. lia.
Qed.

Definition restore_stream : stream := if async then Prefetch else Compute.

Lemma restore_wf hist outs (w : manager) c k n : inv None hist outs w → valid c k →
  (async = true → quiet (touches_slot c (slot_of c k)) (k_device w)) →
  device_wf (enqueue restore_stream (if async then option_list (k_offload_events w !! (c, Z.of_nat k)) else []) (restore c k n) (k_device w)).2.
Proof.
  intros Hi Hv Hq. apply enqueue_wf; [apply Hi|]. intros i q Hiq (l & Hc).
  pose proof (list_elem_of_lookup_2 _ _ _ Hiq) as Hin. pose proof (i_streams _ _ _ _ Hi q Hin) as Hs.
  unfold restore_stream. destruct async eqn:Ha; [|by left]. right.
  assert (writes (o_action q) l ∨ reads (o_action q) l) as Htouch by naive_solver.
  assert (writes (restore c k n) l ∨ reads (restore c k n) l) as [Hwr|Hrd] by naive_solver.
  - destruct (restore_writes _ _ _ _ Hv Hwr) as (s & r & -> & _ & Hr & _). destruct (Hq eq_refl q Hin).
    exists s, (row_of c k + r). split; [by apply row_in_slot|done].
  - destruct (restore_reads _ _ _ _ Hv Hrd) as (s & r & ->).
    destruct (i_stages _ _ _ _ Hi Ha c (Z.of_nat k) i q Hiq) as (id & j & q' & -> & Hj & <- & Hor); [by exists s, r|]. cbn.
    destruct Hor as [->|[Hlt Hb]]; [left|right].
    + assert (q = q') as -> by congruence. by left.
    + exists j, q'. split_and!; [done..|]. by left.
Qed.

Lemma restore_misses c k n c' k' s r : valid c k → valid c' k' → 0 ≤ r < size_of c' k' * H → ¬ is_open (Some (c, k)) c' (slot_of c' k') →
  restore c k n (Gpu c' s (row_of c' k' + r)) = None.
Proof.
  intros Hv Hv' Hr Ho. destruct (restore c k n _) as [x|] eqn:E; [|done]. exfalso.
  destruct (restore_writes c k n (Gpu c' s (row_of c' k' + r)) Hv) as (s1 & r1 & [= -> _ Heq] & _ & Hr1 & _); [by eexists|].
  apply Ho. split; [done|]. eapply in_slot_inj; [by apply row_in_slot|]. rewrite Heq. by apply row_in_slot.
Qed.

Lemma restore_inv hist outs (w w' : manager) c k waits : inv None hist outs w → valid c k → hist c k ≠ [] →
  (async = true → quiet (touches_slot c (slot_of c k)) (k_device w)) →
  settles (enqueue restore_stream waits (restore c k (zlen (hist c k))) (k_device w)).2 (k_device w') →
  (∀ q, q ∈ d_pending (k_device w') → o_id q ≠ d_next (k_device w)) →
  k_staging w' = k_staging w → k_current w' = <[(c, slot_of c k) := Z.of_nat k]> (k_current w) →
  k_pending w' = ∅ → k_prefetch_events w' = ∅ → k_offload_events w' = k_offload_events w →
  inv (Some (c, k)) hist outs w'.
Proof.
  intros [Hwf Hst Hp Hsl Hsg Hof Hcu Hsd Hon Hou _] Hv Hne Hq Hs Hd Es Ec Ep Ee Eo.
  pose proof (done_sub _ _ _ _ _ Hs Hd) as Hsub.
  assert (∀ l, final (k_device w') l = exec (restore c k (zlen (hist c k))) (final (k_device w)) l) as Hf by (intros l; by eapply done_final).
  split; rewrite ?Es, ?Ep, ?Ee; try done.
  - apply Hs.
  - intros q Hin. by apply Hst, Hsub.
  - intros Ha c' slot Ho. rewrite Ec, Eo, lookup_insert_ne by (intros [= <- <-]; by apply Ho).
    eapply done_behind; [done..|]. apply Hsl; [done|]. intros [].
  - intros Ha c' b. rewrite Eo. eapply done_behind; [done..|]. by apply Hsg.
  - intros Ha q Hin Hstr. apply Hsub in Hin. destruct (Hof Ha q Hin Hstr) as [Hw Hr]. split; [done|]. intros l Hl.
    destruct (Hr l Hl) as (c' & slot & s & r & -> & Hslot & Hb). exists c', slot, s, r. split_and!; [done..|]. cbn in *. case_decide as Ho.
    + destruct Ho as [-> ->]. destruct (Hq Ha q Hin). exists s, r. split; [done|by right].
    + by rewrite Ec, lookup_insert_ne by (intros [= <- <-]; by apply Ho).
  - intros c' slot b. rewrite Ec. intros E Ho. rewrite lookup_insert_ne in E by (intros [= <- <-]; by apply Ho).
    destruct (Hcu c' slot b E) as (k' & -> & Hv' & <- & Hg); [intros []|]. exists k'. split_and!; [done..|].
    intros s r v Hs' Hr Hc. rewrite Hf. unfold exec. rewrite restore_misses by done. by apply Hg.
  - intros c' k' Hne'. destruct (Hsd c' k' Hne') as (Hv' & Hl & E & Hc). split_and!; [done..|].
    intros s r v Hs' Hr Hcv. rewrite Hf. unfold exec. cbn. by apply Hc.
  - intros id s r v E. destruct (Hou id s r v E) as [? <-]. split; [|by rewrite Hf].
    rewrite (st_next _ _ Hs). cbn. lia.
  - intros c' k' [= <- <-] _. split; [by rewrite Ec, lookup_insert_eq|]. intros s r v Hs' Hr Hcv. pose proof (content_short _ _ _ _ Hs' Hcv).
    rewrite Hf. unfold exec. rewrite restore_at by lia. destruct (Hsd c k Hne) as (_ & _ & _ & Hc). by apply Hc.
Qed.

(** A launch leaves the invariant to the state just before the operation was enqueued. *)
Lemma inv_launch o hist outs st waits a (w : manager) : inv o hist outs w → ∃ w1, inv o hist outs w1 ∧
  k_staging w1 = k_staging w ∧ k_current w1 = k_current w ∧ k_pending w1 = k_pending w ∧
  k_offload_events w1 = k_offload_events w ∧ k_prefetch_events w1 = k_prefetch_events w ∧ settles (k_device w) (k_device w1) ∧
  launch st waits a w = (set_device (enqueue st waits a (k_device w1)).2 w1, Ok (d_next (k_device w1))).
Proof.
  intros Hi. destruct (launch_spec st waits a w (i_wf _ _ _ _ Hi)) as (w1 & Hs & E1 & E2 & E3 & E4 & E5 & E).
  exists w1. rewrite (st_next _ _ Hs). split_and!; try done. by eapply inv_settles.
Qed.

Lemma prefetch_launches hist outs (w : manager) c k : inv None hist outs w → valid c k → hist c k ≠ [] → ∃ w1,
  inv None hist outs w1 ∧ (async = true → k_current w !! (c, slot_of c k) = Some (Z.of_nat k) ∨ quiet (touches_slot c (slot_of c k)) (k_device w1)) ∧
  k_current w1 = k_current w ∧
  prefetch_microbatch_kv p H async (slab_of c) (Z.of_nat k) w =
    (if async then
       event ← launch Prefetch (option_list (k_offload_events w1 !! (c, Z.of_nat k))) (restore c k (zlen (hist c k)));
       modify (λ w, set_pending (<[(c, slot_of c k) := Z.of_nat k]> (k_pending w)) (set_prefetch_events (<[(c, Z.of_nat k) := event]> (k_prefetch_events w)) w))
     else
       event ← launch Compute [] (restore c k (zlen (hist c k)));
       wait_for event ;;
       modify (λ w, set_pending (delete (c, slot_of c k) (k_pending w))
         (set_current (<[(c, slot_of c k) := Z.of_nat k]> (k_current w)) (set_prefetch_events (delete (c, Z.of_nat k) (k_prefetch_events w)) w)))) w1.
Proof.
  intros Hi Hv Hne. destruct (sh_slab Hsh c) as (Hid & Hcuda & _). destruct (i_staged _ _ _ _ Hi c k Hne) as (_ & Hl & Es & _).
  destruct (sync_current_spec _ _ _ c k Hi) as (w1 & E1 & Hi1 & _ & Ec & Hq). exists w1. split; [done|]. split; [done|]. split; [done|].
  unfold prefetch_microbatch_kv. rewrite Hid, get_bind, Es, Hcuda. cbn [negb orb].
  assert (0 < zlen (hist c k)) as Hpos by (unfold zlen; destruct (hist c k); [done|cbn; lia]).
  rewrite (proj2 (Z.leb_gt _ _)) by done. pose proof heads_pos. unfold heads1. rewrite Z.max_r by lia.
  rewrite Z.div_mul by lia. fold (cap c). rewrite resolve_slot, resolve_active by done.
  destruct (slot_rows c k Hv) as [Hrows Hlen]. rewrite Hrows. rewrite (proj2 (Z.leb_gt _ _)) by done.
  rewrite (proj1 (i_settled _ _ _ _ Hi)), lookup_empty. cbn [sync_other].
  erewrite bind_ok by reflexivity. rewrite (bind_ok _ _ _ _ _ E1).
  rewrite Z.min_l by lia. rewrite !Z.min_id, can_copy_same. cbn [negb]. fold (row_of c k). fold (restore c k (zlen (hist c k))).
  destruct async; [|done]. by rewrite get_bind.
Qed.

Lemma slot_key c k : slot_state_key_for_mb p H (slab_of c) (Z.of_nat k) = (c, slot_of c k).
Proof.
  unfold slot_state_key_for_mb, heads1. pose proof heads_pos. rewrite Z.max_r by lia. fold (cap c). rewrite resolve_slot.
  by rewrite (proj1 (sh_slab Hsh c)).
Qed.

Lemma prefetch_spec hist outs (w : manager) c k : inv None hist outs w → valid c k → hist c k ≠ [] →
  k_current w !! (c, slot_of c k) ≠ Some (Z.of_nat k) → ∃ w',
  (prefetch_microbatch_kv p H async (slab_of c) (Z.of_nat k) ;; sync_prefetch p H async (slab_of c) (Z.of_nat k)) w = (w', Ok tt) ∧
  inv (Some (c, k)) hist outs w'.
Proof.
  intros Hi Hv Hne Hcur. destruct (prefetch_launches _ _ _ c k Hi Hv Hne) as (w1 & Hi1 & Hq & Ec & E).
  assert (async = true → quiet (touches_slot c (slot_of c k)) (k_device w1)) as Hquiet.
  { intros Ha. by destruct (Hq Ha). } clear Hq.
  set (waits := if async then option_list (k_offload_events w1 !! (c, Z.of_nat k)) else []).
  destruct (inv_launch None hist outs restore_stream waits (restore c k (zlen (hist c k))) w1 Hi1)
    as (w2 & Hi2 & F1 & F2 & F3 & F4 & F5 & Hs2 & Elaunch).
  assert (async = true → quiet (touches_slot c (slot_of c k)) (k_device w2)) as Hquiet2.
  { intros Ha. eapply settles_quiet; [exact Hs2|by apply Hquiet]. }
  assert (device_wf (enqueue restore_stream waits (restore c k (zlen (hist c k))) (k_device w2)).2) as Hwf2.
  { unfold waits. rewrite <-F4. by eapply restore_wf. }
  destruct (sh_slab Hsh c) as (Hid & _). pose proof (i_settled _ _ _ _ Hi2) as [Hp2 He2].
  unfold restore_stream in Elaunch, Hwf2.
  assert (∀ w3 : manager, settles (enqueue restore_stream waits (restore c k (zlen (hist c k))) (k_device w2)).2 (k_device w3) →
    (∀ q, q ∈ d_pending (k_device w3) → o_id q ≠ d_next (k_device w2)) →
    k_staging w3 = k_staging w2 → k_current w3 = <[(c, slot_of c k) := Z.of_nat k]> (k_current w2) →
    k_pending w3 = ∅ → k_prefetch_events w3 = ∅ → k_offload_events w3 = k_offload_events w2 →
    inv (Some (c, k)) hist outs w3) as Hdone by (intros w3; by apply restore_inv).
  unfold restore_stream in Hdone. unfold mbind at 1. unfold M_bind. rewrite E. unfold waits in *. destruct async eqn:Ha.
  - rewrite (bind_ok _ _ _ _ _ Elaunch). cbn [modify]. unfold sync_prefetch. cbn [negb]. rewrite get_bind, Hid, slot_key. cbn [k_prefetch_events set_pending set_prefetch_events].
    rewrite lookup_insert_eq.
    match goal with |- context [modify ?f ;; wait_for ?e] => set (upd := f); set (ev := e) end.
    match goal with |- context [((modify upd ;; wait_for ev) ≫= ?g) ?x] => set (rest := g); set (w3 := x) end.
    destruct (wait_for_spec ev (upd w3)) as (w4 & E4 & Hs4 & G1 & G2 & G3 & G4 & G5 & _ & Hdone4); [done|].
    rewrite (bind_ok (modify upd ;; wait_for ev) rest w3 w4 tt) by exact E4. subst rest. cbn beta. rewrite get_bind.
    unfold upd, w3 in G1, G2, G3, G4, G5. cbn in G1, G2, G3, G4, G5. rewrite decide_True by (by rewrite G3, lookup_insert_eq).
    eexists. split; [reflexivity|]. apply Hdone; cbn; try done.
    + by rewrite G2.
    + by rewrite G3, delete_insert_eq, Hp2, delete_empty.
    + by rewrite G5, delete_insert_eq, He2, delete_empty.
  - rewrite (bind_ok _ _ _ _ _ Elaunch).
    match goal with |- context [(wait_for ?e ≫= ?g) ?x] => destruct (wait_for_spec e x) as (w4 & E4 & Hs4 & G1 & G2 & G3 & G4 & G5 & _ & Hdone4); [done|] end.
    rewrite (bind_ok _ _ _ _ _ E4). cbn [modify]. unfold sync_prefetch. cbn [negb]. eexists. split; [reflexivity|]. cbn in *.
    apply Hdone; cbn; try done.
    + by rewrite G2.
    + by rewrite G3, Hp2, delete_empty.
    + by rewrite G5, He2, delete_empty.
Qed.

(** ** Reading *)

Lemma shared_multiplexed c : multiplexed H (slab_of c) (full_of c) = true.
Proof. destruct (sh_slab Hsh c) as (_ & _ & ?). unfold multiplexed. fold (cap c). rewrite andb_true_iff, !Z.ltb_lt. lia. Qed.

Lemma select_rows_spec hist outs (w : manager) c k : inv None hist outs w → valid c k → hist c k ≠ [] → ∃ w',
  select_rows p H async (slab_of c) (offset_of c k) (full_of c) (size_of c k) w = (w', Ok (row_of c k, size_of c k * H)) ∧
  inv (Some (c, k)) hist outs w'.
Proof.
  intros Hi Hv Hne. destruct (valid_range c k Hv) as (_ & Hsize & _ & Hindex). destruct (sh_slab Hsh c) as (Hid & _ & ?).
  unfold select_rows. rewrite shared_multiplexed, (proj2 (Z.ltb_lt 0 (full_of c))), (proj2 (Z.ltb_lt 0 (size_of c k))) by lia. cbn [andb].
  rewrite Hindex. fold (cap c). rewrite resolve_slot, resolve_active, get_bind, Hid by done.
  rewrite (proj1 (i_settled _ _ _ _ Hi)), lookup_empty, (proj2 (Z.ltb_lt 0 _)) by lia.
  assert (Z.min (slot_of c k * size1 * H + size_of c k * H) (sl_bh (slab_of c)) - slot_of c k * size1 * H = size_of c k * H) as Hrows.
  { destruct (row_bound c k Hv). unfold row_of in *. lia. }
  rewrite Hrows. destruct (decide (k_current w !! (c, slot_of c k) = Some (Z.of_nat k))) as [Hcur|Hcur].
  - rewrite decide_False by done. exists w. split; [done|]. apply inv_opens; auto.
  - assert (∃ w1, (match k_current w !! (c, slot_of c k) with Some c' => sync_offload async (slab_of c) c' | None => mret tt end) w = (w1, Ok tt) ∧
      inv None hist outs w1 ∧ k_current w1 = k_current w) as (w1 & E1 & Hi1 & Ec).
    { destruct (k_current w !! (c, slot_of c k)) as [b|]; [|by exists w].
      destruct (sync_offload_spec None hist outs w c b Hi) as (w1 & ? & ? & _ & _ & ? & _). by exists w1. }
    destruct (prefetch_spec hist outs w1 c k Hi1 Hv Hne) as (w2 & E2 & Hi2); [by rewrite Ec|]. exists w2. split; [|done].
    rewrite decide_False by done. unfold mbind in E2 |- *. unfold M_bind in E2 |- *. rewrite E1.
    destruct (prefetch_microbatch_kv p H async (slab_of c) (Z.of_nat k) w1) as [w3 [[]|]]; [|done]. by rewrite E2.
Qed.

Lemma read_inv c k hist outs (w : manager) : inv (Some (c, k)) hist outs w → hist c k ≠ [] →
  let id := d_next (k_device w) in
  inv (Some (c, k)) hist (λ i s r, if (i =? id)%nat then (if inside 0 (zlen (hist c k)) s && inside 0 (size_of c k * H) r then content (hist c k) s r else None) else outs i s r)
    (set_device (enqueue Compute [] (read_slab id c (row_of c k) (size_of c k * H) (zlen (hist c k))) (k_device w)).2 w).
Proof.
  intros Hi Hne id. set (a := read_slab _ _ _ _ _).
  pose proof Hi as [Hwf Hst Hp Hsl Hsg Hof Hcu Hsd Hon Hou Hop].
  assert (∀ l, writes a l → ∃ s r, l = Out id s r) as Hw.
  { intros [| |i s r] [x Hx]; try done. cbn in Hx. destruct (Nat.eqb_spec i id) as [->|]; [eauto|done]. }
  assert (∀ l, reads a l → ∃ s r, l = Gpu c s r) as Hr.
  { intros l [[| |i s r] Hx]; try done. cbn in Hx. destruct (_ && _); [|done]. injection Hx as <-. eauto. }
  assert (∀ l, (∀ s r, l ≠ Out id s r) → exec a (final (k_device w)) l = final (k_device w) l) as Hf.
  { intros l Hl. unfold exec. destruct (a l) as [x|] eqn:E; [|done]. destruct (Hw l) as (s & r & ->); [by eexists|]. by destruct (Hl s r). }
  assert (∀ q, q ∈ d_pending (k_device w) → async = true → o_stream q = Compute ∨ ¬ conflict (o_action q) a) as Hcf.
  { intros q Hin Ha. pose proof (Hst q Hin) as Hs. rewrite Ha in Hs. destruct (o_stream q) eqn:Eq; [by left| |done]. right.
    destruct (Hof Ha q Hin Eq) as [Hqw Hqr]. intros (l & [[Hql Hal]|[Hql Hal]]).
    - destruct (Hqw l Hql) as (? & ? & ? & ? & ->). destruct Hal as [(? & ? & [=])%Hw|(? & ? & [=])%Hr].
    - destruct (Hw l Hal) as (? & ? & ->). by destruct (Hqr _ Hql) as (? & ? & ? & ? & [=] & _). }
  split; cbn [k_device set_device k_pending k_prefetch_events k_current k_offload_events k_staging]; try done.
  - apply enqueue_wf; [done|]. intros i q Hiq Hc. left. pose proof (list_elem_of_lookup_2 _ _ _ Hiq) as Hin.
    destruct async eqn:Ha; [by destruct (Hcf q Hin)|by apply Hst].
  - intros q [Hin| ->%list_elem_of_singleton]%elem_of_app; [by apply Hst|]. by destruct async.
  - intros Ha c' slot Ho. apply enqueue_other_behind; [|by apply Hsl]. intros (s & r & Hin & [(? & ? & [=])%Hw|Hx]). cbn in Hx.
    destruct Hx as [[| |i s' r'] Hx]; try done. cbn in Hx. destruct (_ && _) eqn:E; [|done]. injection Hx as <- <- <-.
    apply andb_true_iff in E as [_ E]. apply inside_spec in E. apply Ho. split; [done|].
    destruct (Hsd c k Hne) as (Hv & _). eapply in_slot_inj; [exact Hin|]. apply row_in_slot; [done|lia].
  - intros Ha c' b. apply enqueue_other_behind; [|by apply Hsg]. intros (s & r & [(? & ? & [=])%Hw|(? & ? & [=])%Hr]).
  - intros Ha q [Hin| ->%list_elem_of_singleton]%elem_of_app Hs; [by apply Hof|done].
  - intros c' slot b E Ho. destruct (Hcu c' slot b E Ho) as (k' & -> & ? & ? & Hg). exists k'. split_and!; [done..|].
    intros s r v ? ? ?. rewrite final_enqueue, Hf by done. by apply Hg.
  - intros c' k' Hne'. destruct (Hsd c' k' Hne') as (? & ? & ? & Hc). split_and!; [done..|].
    intros s r v ? ? ?. rewrite final_enqueue, Hf by done. by apply Hc.
  - intros i s r v. rewrite final_enqueue. cbn [enqueue snd d_next]. destruct (Nat.eqb_spec i id) as [->|Hni].
    + destruct (inside 0 (zlen _) s) eqn:E1, (inside 0 (_ * H) r) eqn:E2; try done. cbn [andb]. intros Hc. split; [unfold id; lia|].
      unfold exec, a, read_slab. rewrite Nat.eqb_refl, E1, E2. cbn [andb]. apply inside_spec in E1, E2.
      destruct (Hop c k eq_refl Hne) as [_ Hg]. apply Hg; [lia..|done].
    + intros E. destruct (Hou i s r v E) as [? <-]. split; [lia|]. apply Hf. intros ? ? [= ? _ _]. done.
  - intros c' k' [= <- <-] _. destruct (Hop c k eq_refl Hne) as [? Hg]. split; [done|].
    intros s r v ? ? ?. rewrite final_enqueue, Hf by done. by apply Hg.
Qed.

Definition with_read (outs : nat → Z → Z → option V) (id : nat) (c : Z) (k : nat) (h : list (list V)) : nat → Z → Z → option V :=
  λ i s r, if (i =? id)%nat then (if inside 0 (zlen h) s && inside 0 (size_of c k * H) r then content h s r else None) else outs i s r.

Lemma select_cache_spec hist outs (w : manager) c k : inv None hist outs w → valid c k → hist c k ≠ [] → ∃ w' id,
  select_cache p H async (slab_of c) (zlen (hist c k)) (offset_of c k) (full_of c) (size_of c k) w = (w', Ok (Some (id, size_of c k, H))) ∧
  inv (Some (c, k)) hist (with_read outs id c k (hist c k)) w' ∧
  (∀ i s r v, outs i s r = Some v → with_read outs id c k (hist c k) i s r = Some v).
Proof.
  intros Hi Hv Hne. destruct (valid_range c k Hv) as (_ & Hsize & _ & _). destruct (i_staged _ _ _ _ Hi c k Hne) as (_ & Hl & _).
  pose proof heads_pos. destruct (select_rows_spec hist outs w c k Hi Hv Hne) as (w1 & E1 & Hi1).
  assert (0 < zlen (hist c k)) as Hpos by (unfold zlen; destruct (hist c k); [done|cbn; lia]).
  unfold select_cache. rewrite (proj2 (Z.leb_gt _ _)), (proj2 (Z.ltb_ge _ _)), (proj2 (Z.eqb_neq _ _)) by lia.
  rewrite (bind_ok _ _ _ _ _ E1). cbn [fst snd]. rewrite get_bind, (proj1 (sh_slab Hsh c)), Z.max_r by lia.
  edestruct (inv_launch (Some (c, k)) hist outs Compute [] (read_slab (d_next (k_device w1)) c (row_of c k) (size_of c k * H) (zlen (hist c k))) w1 Hi1)
    as (w2 & Hi2 & _ & _ & _ & _ & _ & Hs2 & E2).
  rewrite (bind_ok _ _ _ _ _ E2). assert (d_next (k_device w1) = d_next (k_device w2)) as -> by (symmetry; apply Hs2).
  assert (size_of c k * H <? H = false) as -> by (apply Z.ltb_ge; nia).
  rewrite (proj2 (Z.eqb_neq H 0)), Z.mod_mul, Z.div_mul, Z.eqb_refl by lia. cbn [negb].
  eexists _, _. split; [reflexivity|]. split; [by apply read_inv|].
  intros i s r v E. unfold with_read. destruct (i_outs _ _ _ _ Hi2 i s r v E) as [Hlt _].
  by rewrite (proj2 (Nat.eqb_neq _ _)) by lia.
Qed.

(** ** Writing *)

Lemma write_inv c k hist outs (w : manager) a : inv (Some (c, k)) hist outs w → valid c k →
  (∀ l, writes a l → ∃ s r, l = Gpu c s (row_of c k + r) ∧ 0 ≤ r < size_of c k * H ∧ zlen (hist c k) ≤ s) → (∀ l, ¬ reads a l) →
  inv (Some (c, k)) hist outs (set_device (enqueue Compute [] a (k_device w)).2 w).
Proof.
  intros [Hwf Hst Hp Hsl Hsg Hof Hcu Hsd Hon Hou Hop] Hv Hw Hr.
  assert (∀ l, (∀ s r, 0 ≤ r < size_of c k * H → zlen (hist c k) ≤ s → l ≠ Gpu c s (row_of c k + r)) →
    exec a (final (k_device w)) l = final (k_device w) l) as Hf.
  { intros l Hl. unfold exec. destruct (a l) as [x|] eqn:E; [|done]. destruct (Hw l) as (s & r & -> & ? & ?); [by eexists|]. by destruct (Hl s r). }
  split; cbn [k_device set_device k_pending k_prefetch_events k_current k_offload_events k_staging]; try done.
  - apply enqueue_wf; [done|]. intros i q Hiq (l & Hc). left. pose proof (list_elem_of_lookup_2 _ _ _ Hiq) as Hin.
    assert (writes a l) as Hwl by naive_solver. assert (writes (o_action q) l ∨ reads (o_action q) l) as Hql by naive_solver.
    destruct async eqn:Ha; [|by apply Hst]. pose proof (Hst q Hin) as Hs. destruct (o_stream q) eqn:Eq; [done| |done]. exfalso.
    destruct (Hof eq_refl q Hin Eq) as [Hqw Hqr]. destruct (Hw l Hwl) as (s & r & -> & Hrow & Hlen). destruct Hql as [Hql|Hql].
    + destruct (Hqw _ Hql) as (? & ? & ? & ? & [=]).
    + destruct (Hqr _ Hql) as (c' & slot & s' & r' & [= <- <- <-] & Hslot & Hb). cbn in Hb. rewrite decide_True in Hb; [lia|].
      split; [done|]. eapply in_slot_inj; [exact Hslot|]. by apply row_in_slot.
  - intros q [Hin| ->%list_elem_of_singleton]%elem_of_app; [by apply Hst|]. by destruct async.
  - intros Ha c' slot Ho. apply enqueue_other_behind; [|by apply Hsl]. intros (s & r & Hin & [Hx|Hx]); [|by eapply Hr]. cbn in Hx.
    destruct (Hw _ Hx) as (s' & r' & [= -> -> ->] & ? & ?). apply Ho. split; [done|]. eapply in_slot_inj; [exact Hin|]. by apply row_in_slot.
  - intros Ha c' b. apply enqueue_other_behind; [|by apply Hsg]. intros (s & r & [(? & ? & [=] & _)%Hw|Hx]). by eapply Hr.
  - intros Ha q [Hin| ->%list_elem_of_singleton]%elem_of_app Hs; [by apply Hof|done].
  - intros c' slot b E Ho. destruct (Hcu c' slot b E Ho) as (k' & -> & Hv' & <- & Hg). exists k'. split_and!; [done..|].
    intros s r v ? ? ?. rewrite final_enqueue, Hf; [by apply Hg|]. intros s' r' ? ? [= <- <- Heq]. apply Ho. split; [done|].
    eapply in_slot_inj; [by apply row_in_slot|]. rewrite Heq. by apply row_in_slot.
  - intros c' k' Hne'. destruct (Hsd c' k' Hne') as (? & ? & ? & Hc). split_and!; [done..|].
    intros s r v ? ? ?. rewrite final_enqueue, Hf by done. by apply Hc.
  - intros i s r v E. rewrite final_enqueue. destruct (Hou i s r v E) as [? <-]. cbn. split; [lia|]. by apply Hf.
  - intros c' k' [= <- <-] Hne. destruct (Hop c k eq_refl Hne) as [? Hg]. split; [done|].
    intros s r v Hs' ? Hc. rewrite final_enqueue, Hf; [by apply Hg|]. intros s' r' ? ? [= <- _]. pose proof (content_short _ _ _ _ Hs' Hc). lia.
Qed.

(** What a write puts into a row of the micro-batch *)
Definition new_entry (cols : list (list V)) (start s r : Z) : option V :=
  if r mod H <? kv then cols !! Z.to_nat (s - start) ≫= (.!! Z.to_nat (r / H * kv + r mod H)) else None.

Definition same_maps (w w' : manager) : Prop :=
  k_staging w' = k_staging w ∧ k_current w' = k_current w ∧ k_pending w' = k_pending w ∧
  k_offload_events w' = k_offload_events w ∧ k_prefetch_events w' = k_prefetch_events w.

Lemma general_copy_spec c k hist outs (w : manager) cols base m src_row : inv (Some (c, k)) hist outs w → valid c k →
  0 ≤ base → 0 < m → base + m ≤ size_of c k * H → ∃ w',
  general_copy (slab_of c) (zlen (hist c k)) (zlen cols) (row_of c k + base) m src_row m cols w = (w', Ok tt) ∧
  inv (Some (c, k)) hist outs w' ∧ same_maps w w' ∧
  ∀ l, final (k_device w') l = exec (write_slab c (zlen (hist c k)) (row_of c k + base) (zlen cols) m src_row (zlen cols) m cols) (final (k_device w)) l.
Proof.
  intros Hi Hv Hb Hm Hbm. destruct (row_bound c k Hv). unfold general_copy.
  assert (Z.max 0 (Z.min (row_of c k + base + m) (sl_bh (slab_of c)) - (row_of c k + base)) = m) as -> by lia.
  rewrite can_copy_same, (proj1 (sh_slab Hsh c)). cbn [negb]. set (a := write_slab _ _ _ _ _ _ _ _ _).
  destruct (inv_launch (Some (c, k)) hist outs Compute [] a w Hi) as (w2 & Hi2 & F1 & F2 & F3 & F4 & F5 & Hs2 & E2).
  rewrite (bind_ok _ _ _ _ _ E2). eexists. split; [reflexivity|]. split; [|split; [by unfold same_maps; cbn|]].
  - apply write_inv; [done..| |].
    + intros [c' s r| |] [x Hx]; try done. cbn in Hx. destruct (_ && _ && _) eqn:E; [|done].
      apply andb_true_iff in E as [[Ec Es]%andb_true_iff Er]. apply Z.eqb_eq in Ec as ->. apply inside_spec in Es, Er.
      exists s, (r - row_of c k). split; [f_equal; lia|]. lia.
    + intros l [[c' s r| |] Hx]; try done. cbn in Hx. destruct (_ && _); [|done]. by destruct (_ ≫= _).
  - intros l. cbn [k_device set_device]. rewrite final_enqueue. unfold exec. destruct (a l) as [[v|l']|]; [done|apply Hs2|apply Hs2].
Qed.

Lemma copy_heads_spec c k hist outs cols batch : valid c k → Forall (λ b, Z.of_nat b < size_of c k) batch →
  Forall (λ col, zlen col = size_of c k * kv) cols → ∀ w : manager, inv (Some (c, k)) hist outs w → ∃ w',
  copy_heads H (slab_of c) (zlen (hist c k)) (zlen cols) (row_of c k) kv cols batch w = (w', Ok tt) ∧
  inv (Some (c, k)) hist outs w' ∧ same_maps w w' ∧
  ∀ s r v, zlen (hist c k) ≤ s → 0 ≤ r → new_entry cols (zlen (hist c k)) s r = Some v →
    Z.to_nat (r / H) ∈ batch ∨ final (k_device w) (Gpu c s (row_of c k + r)) = v → final (k_device w') (Gpu c s (row_of c k + r)) = v.
Proof.
  intros Hv Hb Hcols. pose proof (sh_heads Hsh) as Hk. induction batch as [|b batch IH]; intros w Hi.
  { exists w. split_and!; try done. intros s r v _ _ _ [Hx|?]; [by apply elem_of_nil in Hx|done]. }
  apply Forall_cons in Hb as [Hb1 Hb]. cbn [copy_heads].
  assert ((Z.of_nat b + 1) * H ≤ size_of c k * H) as HbH by (apply Z.mul_le_mono_nonneg_r; lia).
  destruct (general_copy_spec c k hist outs w cols (Z.of_nat b * H) kv (Z.of_nat b * kv) Hi Hv) as (w1 & E1 & Hi1 & (G1 & G2 & G3 & G4 & G5) & Hf); [nia|lia|lia|].
  destruct (IH Hb w1 Hi1) as (w' & E' & Hi' & (G1' & G2' & G3' & G4' & G5') & Hf'). exists w'. rewrite (bind_ok _ _ _ _ _ E1).
  split; [done|]. split; [done|]. split; [unfold same_maps; split_and!; congruence|].
  intros s r v Hs Hr Hn Hor. apply Hf'; [done..|]. destruct (decide (Z.to_nat (r / H) ∈ batch)) as [?|Hnb]; [by left|right]. rewrite Hf.
  unfold exec, write_slab. rewrite Z.eqb_refl. cbn [andb].
  pose proof (Z.div_mod r H ltac:(lia)) as Hdm. pose proof (Z.mod_pos_bound r H ltac:(lia)).
  unfold new_entry in Hn. destruct (Z.ltb_spec (r mod H) kv) as [Hlt|]; [|done].
  destruct (cols !! Z.to_nat (s - zlen (hist c k))) as [col|] eqn:Ecol; [|done]. pose proof (lookup_lt_Some _ _ _ Ecol).
  destruct (decide (r / H = Z.of_nat b)) as [Heq|Hne].
  - rewrite (proj2 (inside_spec _ _ _)) by (unfold zlen in *; lia). rewrite (proj2 (inside_spec (row_of c k + Z.of_nat b * H) kv _)) by nia. cbn [andb].
    rewrite !src_index_inside by (unfold zlen in *; nia). rewrite Ecol. cbn [mbind option_bind].
    replace (Z.of_nat b * kv + (row_of c k + r - (row_of c k + Z.of_nat b * H))) with (r / H * kv + r mod H) by nia. cbn [mbind option_bind] in Hn. by rewrite Hn.
  - assert (inside (row_of c k + Z.of_nat b * H) kv (row_of c k + r) = false) as ->.
    { apply not_true_iff_false. rewrite inside_spec. intros [? ?]. apply Hne. symmetry. apply (Z.div_unique r H (Z.of_nat b) (r - Z.of_nat b * H)); lia. }
    rewrite andb_false_r. pose proof (Z.div_pos r H Hr ltac:(lia)). destruct Hor as [[Hx|Hx]%elem_of_cons|Hx]; [lia|done|done].
Qed.

(** ** Staging the micro-batch closes its slot *)

Definition upd (hist : Z → nat → list (list V)) (c : Z) (k : nat) (h : list (list V)) : Z → nat → list (list V) :=
  λ c' k', if decide (c' = c ∧ k' = k) then h else hist c' k'.

Lemma upd_same hist c k h : upd hist c k h c k = h.
Proof. unfold upd. by rewrite decide_True. Qed.

Lemma upd_other hist c k h c' k' : ¬ (c' = c ∧ k' = k) → upd hist c k h c' k' = hist c' k'.
Proof. intros Hne. unfold upd. by rewrite decide_False. Qed.

Definition stage (c : Z) (k : nat) (n : Z) : action cell V :=
  copy_out c (Z.of_nat k) (row_of c k) n (size_of c k * H) n (size_of c k * H).
Definition stage_stream : stream := if async then Offload else Compute.

Lemma stage_some c k n l x : stage c k n l = Some x → ∃ s r, l = Cpu c (Z.of_nat k) s r ∧ 0 ≤ s < n ∧ 0 ≤ r < size_of c k * H ∧
  x = From (Gpu c s (row_of c k + r)).
Proof.
  unfold stage, copy_out. destruct l as [|c' b s r|]; try done. destruct (_ && _ && _ && _) eqn:E; [|done].
  apply andb_true_iff in E as [[[Ec Eb]%andb_true_iff Es]%andb_true_iff Er]. apply Z.eqb_eq in Ec as ->, Eb as ->. apply inside_spec in Es, Er.
  intros [= <-]. exists s, r. rewrite !src_index_inside by lia. done.
Qed.

Lemma stage_at c k n s r : 0 ≤ s < n → 0 ≤ r < size_of c k * H → stage c k n (Cpu c (Z.of_nat k) s r) = Some (From (Gpu c s (row_of c k + r))).
Proof.
  intros Hs Hr. unfold stage, copy_out. rewrite !Z.eqb_refl, (proj2 (inside_spec 0 n s)), (proj2 (inside_spec 0 _ r)) by lia. cbn.
  by rewrite !src_index_inside by lia.
Qed.

(** Everything pending comes before the staging. *)
Lemma stage_after c k hist outs (w : manager) (waits : list nat) : inv (Some (c, k)) hist outs w →
  (async = true → ∀ q, q ∈ d_pending (k_device w) → o_stream q = Compute → o_id q ∈ waits) →
  ∀ q, q ∈ d_pending (k_device w) → o_stream q = stage_stream ∨ o_id q ∈ waits.
Proof.
  intros Hi Hw q Hq. pose proof (i_streams _ _ _ _ Hi q Hq) as Hs. unfold stage_stream. destruct async eqn:Ha; [|by left].
  destruct (o_stream q) eqn:Eq; [right; by apply Hw|by left|done].
Qed.

Lemma stage_inv c k hist outs (w w' : manager) (waits : list nat) h : inv (Some (c, k)) hist outs w → valid c k →
  zlen (hist c k) ≤ zlen h → h ≠ [] → zlen h ≤ sl_seq (slab_of c) → gpu_holds (k_device w) c k h →
  (async = true → ∀ q, q ∈ d_pending (k_device w) → o_stream q = Compute → o_id q ∈ waits) →
  settles (enqueue stage_stream waits (stage c k (zlen h)) (k_device w)).2 (k_device w') →
  k_staging w' = <[(c, Z.of_nat k) := (sl_seq (slab_of c), size_of c k * H, zlen h)]> (k_staging w) →
  k_current w' = <[(c, slot_of c k) := Z.of_nat k]> (k_current w) → k_pending w' = ∅ → k_prefetch_events w' = ∅ →
  (async = true → k_offload_events w' = <[(c, Z.of_nat k) := d_next (k_device w)]> (k_offload_events w)) →
  inv None (upd hist c k h) outs w'.
Proof.
  intros Hi Hv Hlen Hne Hmax Hg Hw Hs Es Ec Ep Ee Eo. pose proof (stage_after c k hist outs w waits Hi Hw) as Hafter.
  pose proof Hi as [Hwf Hst Hp Hsl Hsg Hof Hcu Hsd Hon Hou Hop].
  assert (∀ l, final (k_device w') l = exec (stage c k (zlen h)) (final (k_device w)) l) as Hf by (intros l; by eapply done_final).
  assert (∀ l, (∀ s r, l ≠ Cpu c (Z.of_nat k) s r) → final (k_device w') l = final (k_device w) l) as Hfo.
  { intros l Hl. rewrite Hf. unfold exec. destruct (stage _ _ _ l) eqn:E; [|done]. apply stage_some in E as (s' & r' & -> & _). by destruct (Hl s' r'). }
  set (new := mkOp (d_next (k_device w)) stage_stream waits (stage c k (zlen h))) in *.
  assert (∀ l x, o_action new l = Some x → stage c k (zlen h) l = Some x) as Hnew by done.
  assert (∀ X c' b, async = true → behind X (k_offload_events w !! (c', b)) (k_device w) → ¬ X new ∨ (c', b) = (c, Z.of_nat k) →
    behind X (k_offload_events w' !! (c', b)) (k_device w')) as Hbehind.
  { intros X c' b Ha Hb Hor. rewrite (Eo Ha). apply Hs. destruct (decide ((c', b) = (c, Z.of_nat k))) as [E|Hn].
    - rewrite E, lookup_insert_eq. apply (enqueue_behind X stage_stream waits). intros q Hq _. by apply Hafter.
    - rewrite lookup_insert_ne by done. destruct Hor as [HX|?]; [|done]. by apply enqueue_other_behind. }
  split; rewrite ?Es, ?Ep, ?Ee; try done.
  - apply Hs.
  - intros q Hq%(st_sub _ _ Hs). cbn in Hq. apply elem_of_app in Hq as [Hq| ->%list_elem_of_singleton]; [by apply Hst|].
    cbn. unfold stage_stream. by destruct async.
  - intros Ha c' slot _. rewrite Ec. destruct (decide ((c', slot) = (c, slot_of c k))) as [[= -> ->]|Hn].
    + rewrite lookup_insert_eq. cbn [mbind option_bind]. rewrite (Eo Ha), lookup_insert_eq. apply Hs.
      apply (enqueue_behind _ stage_stream waits). intros q Hq _. by apply Hafter.
    + rewrite lookup_insert_ne by done.
      assert (¬ touches_slot c' slot new) as Hnt.
      { intros (s & r & Hin & [[x Hx]|[l Hx]]); apply Hnew in Hx; apply stage_some in Hx as (s' & r' & E & _ & Hr & Ex); [done|].
        injection Ex as -> -> ->. apply Hn. f_equal. eapply in_slot_inj; [exact Hin|]. by apply row_in_slot. }
      assert (¬ is_open (Some (c, k)) c' slot) as Ho by (intros [-> ->]; by apply Hn). specialize (Hsl Ha c' slot Ho).
      destruct (k_current w !! (c', slot)) as [b|]; cbn [mbind option_bind] in *; [apply Hbehind; auto|].
      apply Hs. by apply enqueue_other_behind.
  - intros Ha c' b. apply Hbehind; [done|by apply Hsg|]. destruct (decide ((c', b) = (c, Z.of_nat k))) as [?|Hn]; [by right|left].
    intros (s & r & [[x Hx]|[l Hx]]); apply Hnew in Hx; apply stage_some in Hx as (s' & r' & E & _ & _ & Ex); [|done].
    injection E as -> -> _ _. done.
  - intros Ha q Hq%(st_sub _ _ Hs) Hstr. cbn in Hq. apply elem_of_app in Hq as [Hq| ->%list_elem_of_singleton].
    + destruct (Hof Ha q Hq Hstr) as [Hqw Hqr]. split; [done|]. intros l Hl. destruct (Hqr l Hl) as (c' & slot & s & r & -> & Hin & Hb).
      exists c', slot, s, r. split_and!; [done..|]. cbn in Hb |- *. case_decide as Ho.
      * destruct Ho as [-> ->]. exists k. rewrite Ec, lookup_insert_eq, upd_same. split; [done|lia].
      * destruct Hb as (k' & Hk' & Hlt). exists k'. rewrite Ec, lookup_insert_ne by (intros [= <- <-]; by apply Ho). split; [done|].
        unfold upd. case_decide as Hd; [|done]. destruct Hd as [-> ->]. lia.
    + split; cbn.
      * intros l [x Hx]. apply stage_some in Hx as (s & r & -> & _). eauto.
      * intros l [l' Hx]. apply stage_some in Hx as (s & r & _ & Hs' & Hr & [= ->]). exists c, (slot_of c k), s, (row_of c k + r).
        split; [done|]. split; [by apply row_in_slot|]. exists k. rewrite Ec, lookup_insert_eq, upd_same. split; [done|lia].
  - intros c' slot b. rewrite Ec. intros E _. destruct (decide ((c', slot) = (c, slot_of c k))) as [[= -> ->]|Hn].
    + rewrite lookup_insert_eq in E. injection E as <-. exists k. rewrite upd_same. split_and!; [done..|].
      intros s r v ? ? ?. rewrite Hfo by done. by apply Hg.
    + rewrite lookup_insert_ne in E by done. destruct (Hcu c' slot b E) as (k' & -> & Hv' & <- & Hg'); [intros [-> ?]; by apply Hn; f_equal|].
      exists k'. rewrite upd_other by (intros [-> ->]; by apply Hn). split_and!; [done..|]. intros s r v ? ? ?. rewrite Hfo by done. by apply Hg'.
  - intros c' k' Hne'. destruct (decide (c' = c ∧ k' = k)) as [[-> ->]|Hn].
    + rewrite upd_same in *. rewrite lookup_insert_eq. split_and!; [done..|]. intros s r v Hs' Hr Hc. pose proof (content_short _ _ _ _ Hs' Hc).
      rewrite Hf. unfold exec. rewrite stage_at by lia. by apply Hg.
    + rewrite upd_other in * by done. destruct (Hsd c' k' Hne') as (? & ? & ? & Hc).
      rewrite lookup_insert_ne by (intros [= -> ->%Nat2Z.inj]; by apply Hn). split_and!; [done..|].
      intros s r v ? ? ?. rewrite Hfo; [by apply Hc|]. intros s' r' [= -> ->%Nat2Z.inj _ _]. by apply Hn.
  - intros c' b Hb. destruct (decide ((c', b) = (c, Z.of_nat k))) as [[= -> ->]|Hn]; [exists k; by rewrite upd_same|].
    rewrite lookup_insert_ne in Hb by done. destruct (Hon c' b Hb) as (k' & -> & ?). exists k'. split; [done|].
    rewrite upd_other; [done|]. intros [-> ->]. by apply Hn.
  - intros i s r v E. destruct (Hou i s r v E) as [? <-]. rewrite (st_next _ _ Hs). split; [cbn; lia|by apply Hfo].
Qed.

Lemma offload_slot_spec c k : valid c k → offload_slot p (Z.of_nat k) (cap c) (Some (slot_of c k)) (Some (size_of c k)) = (slot_of c k, slot_of c k * size1, size_of c k).
Proof.
  intros Hv. unfold offload_slot. fold size1. pose proof (resolve_active c k Hv) as E. destruct (Z.leb_spec (size_of c k) 0); by rewrite E.
Qed.

Lemma offload_spec c k hist outs (w : manager) h : inv (Some (c, k)) hist outs w → valid c k →
  zlen (hist c k) ≤ zlen h → h ≠ [] → zlen h ≤ sl_seq (slab_of c) → gpu_holds (k_device w) c k h → ∃ w',
  offload_microbatch_kv p H async (slab_of c) (Z.of_nat k) (zlen h) (Some (slot_of c k)) (Some (size_of c k)) w = (w', Ok tt) ∧
  inv None (upd hist c k h) outs w'.
Proof.
  intros Hi Hv Hlen Hne Hmax Hg. destruct (sh_slab Hsh c) as (Hid & Hcuda & _). destruct (i_settled _ _ _ _ Hi) as [Hp He].
  assert (0 < zlen h) as Hpos by (unfold zlen; destruct h; [done|cbn; lia]). destruct (slot_rows c k Hv) as [Hrows Hbh].
  assert (∃ x, default (sl_seq (slab_of c), size_of c k * H, 0) (k_staging w !! (c, Z.of_nat k)) = (sl_seq (slab_of c), size_of c k * H, x)) as [x Hbuf].
  { destruct (k_staging w !! (c, Z.of_nat k)) eqn:E; [|by exists 0]. destruct (i_only _ _ _ _ Hi c (Z.of_nat k)) as (k' & <-%Nat2Z.inj & Hk); [by rewrite E|].
    destruct (i_staged _ _ _ _ Hi c k Hk) as (_ & _ & E' & _). rewrite E in E'. injection E' as ->. by eexists. }
  unfold offload_microbatch_kv. rewrite Hcuda, Hid. cbn [negb]. fold (cap c). rewrite offload_slot_spec, Hrows by done.
  rewrite !(proj2 (Z.leb_gt _ _)) by done. rewrite get_bind, Hbuf, put_bind. rewrite !Z.min_l, can_copy_same by lia. cbn [negb].
  fold (row_of c k). fold (stage c k (zlen h)).
  set (w0 := set_staging _ w). assert (k_device w0 = k_device w) as Hd0 by done.
  set (waits := if async then on_stream Compute (k_device w) else []).
  destruct (launch_spec stage_stream waits (stage c k (zlen h)) w0 (i_wf _ _ _ _ Hi)) as (w1 & Hs1 & F1 & F2 & F3 & F4 & F5 & E1).
  rewrite Hd0 in Hs1. cbn in F1, F2, F3, F4, F5. set (w1b := set_staging (k_staging w) w1).
  assert (inv (Some (c, k)) hist outs w1b) as Hi1 by (by eapply inv_settles).
  assert (gpu_holds (k_device w1b) c k h) as Hg1.
  { intros s r v ? ? ?. rewrite <-(Hg s r v) by done. apply (st_final _ _ Hs1). }
  assert (async = true → ∀ q, q ∈ d_pending (k_device w1b) → o_stream q = Compute → o_id q ∈ waits) as Hw.
  { intros Ha q Hq Hc. unfold waits. rewrite Ha. unfold on_stream. apply list_elem_of_fmap_2. apply list_elem_of_filter. split; [done|]. by apply Hs1. }
  assert (device_wf (enqueue stage_stream waits (stage c k (zlen h)) (k_device w1)).2) as Hwf.
  { apply enqueue_wf; [apply Hs1|]. intros i q Hiq _. destruct (stage_after c k hist outs w1b waits Hi1 Hw q) as [?|?]; [by eapply list_elem_of_lookup_2|by left|right; by left]. }
  unfold stage_stream in E1, Hwf. rewrite Hd0 in E1. rewrite <-(st_next _ _ Hs1) in E1. unfold waits in *.
  assert (∀ w2 : manager, settles (enqueue stage_stream waits (stage c k (zlen h)) (k_device w1b)).2 (k_device w2) →
    k_staging w2 = <[(c, Z.of_nat k) := (sl_seq (slab_of c), size_of c k * H, zlen h)]> (k_staging w) →
    k_current w2 = <[(c, slot_of c k) := Z.of_nat k]> (k_current w) → k_pending w2 = ∅ → k_prefetch_events w2 = ∅ →
    (async = true → k_offload_events w2 = <[(c, Z.of_nat k) := d_next (k_device w1b)]> (k_offload_events w)) →
    inv None (upd hist c k h) outs w2) as Hdone.
  { intros w2 ? ? ? ? ? ?. eapply (stage_inv c k hist outs w1b w2 waits h); try done; cbn; by rewrite ?F2, ?F4. }
  unfold stage_stream, waits in Hdone. destruct async eqn:Ha.
  - unfold stream_ops, get, mbind, M_bind, mret, M_ret. cbv beta iota. rewrite Hd0, E1. cbn [modify].
    eexists. split; [reflexivity|]. apply Hdone; cbn; try done.
    + by rewrite F1, insert_insert_eq.
    + by rewrite F2.
    + by rewrite F3, Hp, delete_empty.
    + by rewrite F5.
    + by rewrite F4.
  - match goal with |- context [launch Compute [] ?a ≫= ?g] => set (rest := g) end.
    unfold mbind, M_bind. rewrite E1. unfold rest, mbind, M_bind.
    match goal with |- context [wait_for ?e ?x] => destruct (wait_for_spec e x) as (w4 & E4 & Hs4 & G1 & G2 & G3 & G4 & G5 & _); [done|] end.
    rewrite E4. cbn [modify]. eexists. split; [reflexivity|]. cbn in *. apply Hdone; cbn; try done.
    + by rewrite G1, F1, insert_insert_eq.
    + by rewrite G2, F2.
    + by rewrite G3, F3, Hp, delete_empty.
    + by rewrite G5, F5.
Qed.

(** ** The step of a block *)

(** A step needs the new entries of every sequence of its micro-batch, and room for them. *)
Record step_ok (c : Z) (k : nat) (h : list (list V)) (kvs : new_kvs V) : Prop := mkStepOk {
  so_valid : valid c k;
  so_rows : n_bh kvs = size_of c k * kv;
  so_cols : Forall (λ col, zlen col = size_of c k * kv) (n_cols kvs);
  so_some : n_cols kvs ≠ [];
  so_room : zlen h + zlen (n_cols kvs) ≤ sl_seq (slab_of c);
}.

Lemma kvs_heads c k h kvs : step_ok c k h kvs → source_heads_per_batch cfg H (n_bh kvs) (full_of c) (size_of c k) = kv.
Proof.
  intros Hok. destruct (valid_range c k (so_valid _ _ _ _ Hok)) as (_ & Hs & _ & _). destruct (sh_slab Hsh c) as (_ & _ & ?).
  pose proof (sh_heads Hsh). unfold source_heads_per_batch. rewrite (so_rows _ _ _ _ Hok), Z.max_r by lia.
  rewrite (proj2 (Z.ltb_lt 0 (full_of c))), (proj2 (Z.ltb_lt 0 (size_of c k))) by lia. cbn [andb].
  rewrite Z.mul_comm, Z.mod_mul, Z.div_mul, Z.eqb_refl by lia.
  by rewrite (proj2 (Z.ltb_lt 0 kv)), (proj2 (Z.leb_le kv H)) by lia.
Qed.

(** The state in which the write of a micro-batch finds the manager: before its first entry nothing has been read. *)
Definition before_write (c : Z) (k : nat) (hist : Z → nat → list (list V)) (outs : nat → Z → Z → option V) (w : manager) : Prop :=
  (hist c k = [] ∧ inv None hist outs w) ∨ (hist c k ≠ [] ∧ inv (Some (c, k)) hist outs w).

Lemma write_rows_spec c k hist outs (w : manager) span : valid c k → before_write c k hist outs w → ∃ w',
  write_rows p H async (slab_of c) span (offset_of c k) (full_of c) (size_of c k) w = (w', Ok (row_of c k, span, Some (slot_of c k, size_of c k))) ∧
  inv (Some (c, k)) hist outs w'.
Proof.
  intros Hv Hb. destruct (valid_range c k Hv) as (_ & Hs & _ & Hindex). destruct (sh_slab Hsh c) as (Hid & _ & ?).
  unfold write_rows. rewrite (proj2 (Z.ltb_lt 0 (full_of c))), shared_multiplexed, Hindex by lia. fold (cap c).
  rewrite resolve_slot, resolve_active, get_bind, Hid by done.
  assert (k_pending w = ∅) as Hp by (destruct Hb as [[_ Hi]|[_ Hi]]; apply Hi). rewrite Hp, lookup_empty. cbn [sync_other].
  erewrite bind_ok by reflexivity. rewrite get_bind. destruct Hb as [[Hnil Hi]|[Hne Hi]].
  - destruct (sync_current_spec hist outs w c k Hi) as (w1 & E1 & Hi1 & _ & Ec & Hq). rewrite (bind_ok _ _ _ _ _ E1).
    exists w1. split; [done|]. apply inv_opens; [done|by rewrite Hnil|by rewrite Ec].
  - destruct (i_open _ _ _ _ Hi c k eq_refl Hne) as [-> _]. cbn [sync_other]. rewrite Z.eqb_refl. by exists w.
Qed.

Lemma copies_spec c k hist outs (w : manager) kvs : inv (Some (c, k)) hist outs w → step_ok c k (hist c k) kvs → ∃ w',
  (if kv <? H then copy_heads H (slab_of c) (zlen (hist c k)) (zlen (n_cols kvs)) (row_of c k) kv (n_cols kvs) (seq 0 (Z.to_nat (size_of c k)))
   else general_copy (slab_of c) (zlen (hist c k)) (zlen (n_cols kvs)) (row_of c k) (size_of c k * kv) 0 (size_of c k * kv) (n_cols kvs)) w = (w', Ok tt) ∧
  inv (Some (c, k)) hist outs w' ∧
  ∀ s r v, zlen (hist c k) ≤ s → 0 ≤ r < size_of c k * H → new_entry (n_cols kvs) (zlen (hist c k)) s r = Some v →
    final (k_device w') (Gpu c s (row_of c k + r)) = v.
Proof.
  intros Hi [Hv Hrows Hcols Hsome Hroom]. pose proof (sh_heads Hsh) as Hk. destruct (valid_range c k Hv) as (_ & Hsz & _).
  destruct (Z.ltb_spec kv H) as [Hlt|Hge].
  - destruct (copy_heads_spec c k hist outs (n_cols kvs) (seq 0 (Z.to_nat (size_of c k))) Hv) with (w := w) as (w' & E & Hi' & _ & Hf); [|done..|].
    { apply Forall_forall. intros b Hb. apply elem_of_seq in Hb. lia. }
    exists w'. split; [done|]. split; [done|]. intros s r v Hs Hr Hn. apply Hf; [done|lia|done|]. left. apply elem_of_seq.
    pose proof (Z.div_pos r H ltac:(lia) ltac:(lia)). assert (r / H < size_of c k) by (apply Z.div_lt_upper_bound; lia). lia.
  - assert (kv = H) as Hkv by lia. destruct (general_copy_spec c k hist outs w (n_cols kvs) 0 (size_of c k * kv) 0 Hi Hv) as (w' & E & Hi' & _ & Hf); [lia|nia|rewrite Hkv; lia|].
    rewrite Z.add_0_r in E, Hf. exists w'. split; [done|]. split; [done|]. intros s r v Hs Hr Hn. rewrite Hf. unfold exec, write_slab.
    unfold new_entry in Hn. destruct (_ <? _); [|done].
    destruct (n_cols kvs !! Z.to_nat (s - zlen (hist c k))) as [col|] eqn:Ecol; [|done]. pose proof (lookup_lt_Some _ _ _ Ecol).
    rewrite Z.eqb_refl, (proj2 (inside_spec _ _ _)), (proj2 (inside_spec (row_of c k) _ _)) by (rewrite ?Hkv; unfold zlen in *; lia). cbn [andb].
    rewrite !src_index_inside by (rewrite ?Hkv; unfold zlen in *; lia). rewrite Ecol. cbn [mbind option_bind] in *.
    replace (0 + (row_of c k + r - row_of c k)) with (r / H * kv + r mod H); [by rewrite Hn|].
    rewrite Hkv. pose proof (Z.div_mod r H ltac:(lia)). lia.
Qed.

Lemma content_app h cols s r : 0 ≤ s → content (h ++ cols) s r = if s <? zlen h then content h s r else new_entry cols (zlen h) s r.
Proof.
  intros Hs. unfold content, new_entry. destruct (Z.ltb_spec s (zlen h)) as [Hlt|Hge].
  - destruct (_ <? _); [|done]. rewrite lookup_app_l; [done|]. unfold zlen in Hlt. lia.
  - destruct (_ <? _); [|done]. rewrite lookup_app_r by (unfold zlen in Hge; lia). do 2 f_equal. unfold zlen. lia.
Qed.

Lemma write_kvs_spec c k hist outs (w : manager) kvs : before_write c k hist outs w → step_ok c k (hist c k) kvs → ∃ w',
  write_kvs p cfg H async (slab_of c) kvs (zlen (hist c k)) (offset_of c k) (full_of c) (size_of c k) w = (w', Ok tt) ∧
  inv None (upd hist c k (hist c k ++ n_cols kvs)) outs w'.
Proof.
  intros Hb Hok. pose proof Hok as [Hv Hrows Hcols Hsome Hroom]. pose proof (sh_heads Hsh) as Hk. pose proof heads_pos.
  destruct (valid_range c k Hv) as (_ & Hsz & _ & Hindex).
  assert (0 < zlen (n_cols kvs)) as Hpos by (unfold zlen; destruct (n_cols kvs); [done|cbn; lia]).
  unfold write_kvs. rewrite (proj2 (Z.eqb_neq H 0)), (kvs_heads c k _ kvs Hok), Hrows by lia.
  rewrite Z.mod_mul, Z.div_mul, Z.eqb_refl by lia. cbn [negb].
  set (span := if kv <? H then size_of c k * H else size_of c k * kv).
  destruct (write_rows_spec c k hist outs w span Hv Hb) as (w1 & E1 & Hi1). rewrite (bind_ok _ _ _ _ _ E1).
  rewrite (proj2 (Z.leb_le 0 _)), (proj2 (Z.ltb_lt _ _)), (proj2 (Z.leb_le _ _)) by (pose proof (zlen_nonneg (hist c k)); lia). cbn [andb].
  destruct (copies_spec c k hist outs w1 kvs Hi1 Hok) as (w2 & E2 & Hi2 & Hf).
  assert ((if kv <? H then copy_heads H (slab_of c) (zlen (hist c k)) (zlen (n_cols kvs)) (row_of c k) kv (n_cols kvs) (seq 0 (Z.to_nat (size_of c k)))
     else general_copy (slab_of c) (zlen (hist c k)) (zlen (n_cols kvs)) (row_of c k) span 0 (size_of c k * kv) (n_cols kvs)) w1 = (w2, Ok tt)) as E2'.
  { unfold span. destruct (kv <? H); exact E2. }
  rewrite (bind_ok _ _ _ _ _ E2'), Hindex, <-zlen_app.
  apply (offload_spec c k hist outs w2); [done..| | | |].
  - rewrite zlen_app. lia.
  - by destruct (hist c k), (n_cols kvs).
  - by rewrite zlen_app.
  - intros s r v Hs Hr Hc. rewrite content_app in Hc by done. destruct (Z.ltb_spec s (zlen (hist c k))) as [Hlt|Hge]; [|by apply Hf].
    destruct (decide (hist c k = [])) as [Hn|Hn]; [rewrite Hn in Hlt; unfold zlen in Hlt; cbn in Hlt; lia|].
    destruct (i_open _ _ _ _ Hi2 c k eq_refl Hn) as [_ Hg]. by apply Hg.
Qed.

Lemma block_step_spec c k hist outs (w : manager) kvs : inv None hist outs w → step_ok c k (hist c k) kvs → ∃ w' outs' read,
  block_step p cfg H async (slab_of c) (offset_of c k) (full_of c) (size_of c k) (zlen (hist c k)) kvs w = (w', Ok read) ∧
  inv None (upd hist c k (hist c k ++ n_cols kvs)) outs' w' ∧ (∀ i s r v, outs i s r = Some v → outs' i s r = Some v) ∧
  match read with
  | None => hist c k = []
  | Some (id, sequences, heads) => hist c k ≠ [] ∧ sequences = size_of c k ∧ heads = H ∧
      ∀ s r v, 0 ≤ s → 0 ≤ r < size_of c k * H → content (hist c k) s r = Some v → outs' id s r = Some v
  end.
Proof.
  intros Hi Hok. pose proof (so_valid _ _ _ _ Hok) as Hv. unfold block_step. destruct (decide (hist c k = [])) as [Hnil|Hne].
  - destruct (write_kvs_spec c k hist outs w kvs) as (w' & E & Hi'); [by left|done|].
    exists w', outs, None. rewrite Hnil in E |- *. unfold select_cache. cbn [zlen length]. rewrite (proj2 (Z.leb_le _ _)) by (unfold zlen; cbn; lia).
    rewrite (bind_ok (mret None) _ w w None) by done. rewrite (bind_ok _ _ _ _ _ E). rewrite Hnil in Hi'. by split_and!.
  - destruct (select_cache_spec hist outs w c k Hi Hv Hne) as (w1 & id & E1 & Hi1 & Hout). rewrite (bind_ok _ _ _ _ _ E1).
    destruct (write_kvs_spec c k hist (with_read outs id c k (hist c k)) w1 kvs) as (w' & E & Hi'); [by right|done|].
    rewrite (bind_ok _ _ _ _ _ E). eexists w', _, _. split; [reflexivity|]. split; [done|]. split; [done|]. split_and!; try done.
    intros s r v Hs Hr Hc. unfold with_read. rewrite Nat.eqb_refl. pose proof (content_short _ _ _ _ Hs Hc).
    by rewrite !(proj2 (inside_spec _ _ _)) by lia.
Qed.
End proofs.

(** ** Runs *)

(** A step: the block, the micro-batch, and its new entries *)
Definition call : Type := Z * nat * new_kvs V.

(** What the steps have written of a micro-batch *)
Definition written (calls : list call) (c : Z) (k : nat) : list (list V) :=
  concat ((λ x : call, n_cols x.2) <$> filter (λ x : call, x.1 = (c, k)) calls).

(** The steps of the blocks in any order; the caller knows how many entries a micro-batch has. *)
Fixpoint serve (before calls : list call) : MM (list (option (nat * Z * Z))) :=
  match calls with
  | [] => mret []
  | x :: calls =>
      let '(c, k, kvs) := x in
      read ← block_step p cfg H async (slab_of c) (offset_of c k) (full_of c) (size_of c k) (zlen (written before c k)) kvs;
      reads ← serve (before ++ [x]) calls;
      mret (read :: reads)
  end.

Lemma written_snoc before c k kvs c' k' :
  written (before ++ [(c, k, kvs)]) c' k' = upd (written before) c k (written before c k ++ n_cols kvs) c' k'.
Proof.
  unfold written, upd. rewrite filter_app, fmap_app, concat_app, filter_cons, filter_nil. case_decide as H1; case_decide as H2; cbn in *; try congruence.
  - destruct H2 as [-> ->]. by rewrite app_nil_r.
  - destruct H2. by injection H1 as -> ->.
  - destruct H2 as [-> ->]. done.
  - by rewrite app_nil_r.
Qed.

Definition read_ok (outs : nat → Z → Z → option V) (c : Z) (k : nat) (h : list (list V)) (read : option (nat * Z * Z)) : Prop :=
  match read with
  | None => h = []
  | Some (id, sequences, heads) => h ≠ [] ∧ sequences = size_of c k ∧ heads = H ∧
      ∀ s r v, 0 ≤ s → 0 ≤ r < size_of c k * H → content h s r = Some v → outs id s r = Some v
  end.

Lemma serve_spec (Hsh : shared) calls : ∀ before hist outs (w : manager), inv None hist outs w →
  (∀ c k, hist c k = written before c k) →
  (∀ i c k kvs, calls !! i = Some (c, k, kvs) → step_ok c k (written (before ++ take i calls) c k) kvs) → ∃ w' hist' outs' reads,
  serve before calls w = (w', Ok reads) ∧ inv None hist' outs' w' ∧ (∀ i s r v, outs i s r = Some v → outs' i s r = Some v) ∧
  length reads = length calls ∧
  ∀ i c k kvs, calls !! i = Some (c, k, kvs) → ∃ read, reads !! i = Some read ∧ read_ok outs' c k (written (before ++ take i calls) c k) read.
Proof.
  induction calls as [|[[c k] kvs] calls IH]; intros before hist outs w Hi Hh Hok.
  { exists w, hist, outs, []. by split_and!. }
  cbn [serve]. pose proof (Hok O c k kvs eq_refl) as Hok0. cbn [take] in Hok0. rewrite app_nil_r, <-Hh in Hok0. rewrite <-Hh.
  destruct (block_step_spec Hsh c k hist outs w kvs Hi Hok0) as (w1 & outs1 & read & E1 & Hi1 & Ho1 & Hr).
  destruct (IH (before ++ [(c, k, kvs)]) _ outs1 w1 Hi1) as (w' & hist' & outs' & reads & E' & Hi' & Ho' & Hlen & Hreads).
  { intros c' k'. rewrite written_snoc. unfold upd. by rewrite !Hh. }
  { intros i c' k' kvs' Hx. rewrite <-app_assoc. apply (Hok (S i)). done. }
  exists w', hist', outs', (read :: reads). rewrite (bind_ok _ _ _ _ _ E1), (bind_ok _ _ _ _ _ E'). split_and!; [done..|by auto|cbn; by rewrite Hlen|].
  intros [|i] c' k' kvs' Hx.
  - injection Hx as <- <- <-. exists read. split; [done|]. cbn [take]. rewrite app_nil_r, <-Hh. unfold read_ok.
    destruct read as [[[id n] hs]|]; [|done]. destruct Hr as (? & ? & ? & Hv). split_and!; [done..|]. intros s r v ? ? ?. by apply Ho', Hv.
  - destruct (Hreads i c' k' kvs' Hx) as (rd & ? & Hrd). exists rd. split; [done|]. by rewrite <-app_assoc in Hrd.
Qed.

Lemma inv_new (memory : cell → V) oracle : inv None (λ _ _, []) (λ _ _ _, None) (new_manager memory oracle).
Proof.
  split; cbn; try done.
  - split; cbn; [done|constructor|]. intros q Hq. by apply elem_of_nil in Hq.
  - intros q Hq. by apply elem_of_nil in Hq.
  - intros Ha q Hq. by apply elem_of_nil in Hq.
  - intros c b [x Hx]. by rewrite lookup_empty in Hx.
Qed.
End slots.

(** C38: micro-batches that take turns in the working slots of caches too small for the batch. Whatever the order of the
    steps of the blocks, with transfers synchronous or not, and whatever the streams of the device do first, no step
    raises, and the tensor that a step reads holds, when the device has done its work, exactly what the earlier steps
    of the same block and micro-batch have written, in every head that the block writes. *)
Theorem shared_slots_keep_entries {V} p cfg H async env kv slab_of full_of (calls : list (@call V)) memory oracle :
  shared p H env kv slab_of full_of →
  (∀ i c k kvs, calls !! i = Some (c, k, kvs) → step_ok p H env kv slab_of full_of c k (written (take i calls) c k) kvs) →
  ∃ w reads, serve p cfg H async env slab_of full_of [] calls (new_manager memory oracle) = (w, Ok reads) ∧ length reads = length calls ∧
    ∀ i c k kvs, calls !! i = Some (c, k, kvs) → ∃ read, reads !! i = Some read ∧
      match read with
      | None => written (take i calls) c k = []
      | Some (id, sequences, heads) => written (take i calls) c k ≠ [] ∧ sequences = size_of env full_of c k ∧ heads = H ∧
          ∀ schedule, d_pending (run schedule (k_device w)) = [] → ∀ s b j v, 0 ≤ s → 0 ≤ b < sequences → 0 ≤ j < kv →
            written (take i calls) c k !! Z.to_nat s ≫= (.!! Z.to_nat (b * kv + j)) = Some v →
            d_memory (run schedule (k_device w)) (Out id s (b * H + j)) = v
      end.
Proof.
  intros Hsh Hok. destruct (serve_spec p cfg H async env kv slab_of full_of Hsh calls [] (λ _ _, []) (λ _ _ _, None) (new_manager memory oracle))
    as (w & hist & outs & reads & E & Hi & _ & Hlen & Hr); [apply inv_new|done|by intros; apply Hok|].
  exists w, reads. split; [done|]. split; [done|]. intros i c k kvs Hx. destruct (Hr i c k kvs Hx) as (read & ? & Hrd). exists read. split; [done|].
  cbn [app] in Hrd. destruct read as [[[id n] hs]|]; [|done]. destruct Hrd as (Hne & -> & -> & Hv). split_and!; [done..|].
  intros schedule Hd s b j v Hs Hb Hj Hl. pose proof (sh_heads _ _ _ _ _ _ Hsh) as Hk.
  assert (outs id s (b * H + j) = Some v) as Ho.
  { assert ((b + 1) * H ≤ size_of env full_of c k * H) by (apply Z.mul_le_mono_nonneg_r; lia).
    apply Hv; [done|nia|]. unfold content. rewrite (Z.add_comm (b * H)), Z.mod_add, Z.div_add, Z.mod_small, Z.div_small by lia.
    rewrite (proj2 (Z.ltb_lt j kv)) by lia. by rewrite Z.add_0_l. }
  eapply i_outs in Ho as [_ <-]; [|exact Hi]. apply i_wf in Hi. rewrite <-(st_final _ _ (run_settles schedule _ Hi)). unfold final. by rewrite Hd.
Qed.

(** ** An example: three sequences in micro-batches of two, a cache for two, two heads of which a block writes one *)

Definition ex_slab (c : Z) : slab := mkSlab c 4 4 true.
Definition ex_full (_ : Z) : Z := 3.
Definition ex_cfg : block_config := mkBlockConfig None (Some 2) 8.
Definition ex_calls : list (@call Z) :=
  [(7, 0%nat, mkKvs 2 [[1; 2]]); (7, 1%nat, mkKvs 1 [[3]]); (7, 0%nat, mkKvs 2 [[4; 5]]); (7, 1%nat, mkKvs 1 [[6]])].

Lemma ex_shared : shared demo_policy 2 demo_env 1 ex_slab ex_full.
Proof. by split. Qed.

Lemma ex_calls_ok i c k kvs : ex_calls !! i = Some (c, k, kvs) → step_ok demo_policy 2 demo_env 1 ex_slab ex_full c k (written (take i ex_calls) c k) kvs.
Proof.
  do 4 (destruct i as [|i]; [intros [= <- <- <-]; split; [split; [by eexists|by vm_compute]|by vm_compute|by repeat constructor|done|by vm_compute]|]).
  done.
Qed.

Definition ex_served (cuda : bool) (schedule : list (list nat)) : @manager Z * res (list (option (nat * Z * Z))) :=
  serve demo_policy ex_cfg 2 true demo_env (λ c, mkSlab c 4 4 cuda) ex_full [] ex_calls (new_manager (λ _, 0) schedule).
Definition ex_read (w : @manager Z) (id : nat) (s r : Z) : Z := final (k_device w) (Out id s r).

Lemma ex_reads : snd (ex_served true [[]; [0; 1]; [1]]%nat) = Ok [None; None; Some (6%nat, 2, 2); Some (11%nat, 1, 2)].
Proof. vm_compute. reflexivity. Qed.

Lemma shared_slots_keep_entries_witness : ∃ w,
  ex_served true [[]; [0; 1]; [1]]%nat = (w, Ok [None; None; Some (6%nat, 2, 2); Some (11%nat, 1, 2)]) ∧
  ∀ schedule, d_pending (run schedule (k_device w)) = [] → d_memory (run schedule (k_device w)) (Out 6 0 2) = 2.
Proof.
  destruct (shared_slots_keep_entries demo_policy ex_cfg 2 true demo_env 1 ex_slab ex_full ex_calls (λ _, 0) [[]; [0; 1]; [1]]%nat ex_shared ex_calls_ok)
    as (w & reads & E & _ & Hr).
  pose proof ex_reads as E'. unfold ex_served in E'. unfold ex_slab in E. rewrite E in E'. injection E' as Ereads. subst reads.
  exists w. split; [exact E|]. intros schedule Hd.
  destruct (Hr 2%nat 7 0%nat (mkKvs 2 [[4; 5]]) eq_refl) as (read & [= <-] & _ & _ & _ & H). specialize (H schedule Hd 0 1 0 2 ltac:(lia) ltac:(lia) ltac:(lia) ltac:(vm_compute; reflexivity)).
  rewrite Z.add_0_r, Z.mul_1_l in H. exact H.
Defined.

(** The same steps with the cache in host memory: nothing is staged, and the first micro-batch reads the second's entry. *)
Lemma host_slots_mix :
  snd (ex_served false []) = Ok [None; None; Some (3%nat, 2, 2); Some (6%nat, 1, 2)] ∧ ex_read (fst (ex_served false [])) 3 0 0 = 3.
Proof. split; vm_compute; reflexivity. Qed.

(** A cache at the address of an earlier one, in a batch with other micro-batches: the copy to the old buffer fails and is
    swallowed. The first micro-batch still counts as the slot's owner and reads the second's entry; the second's next read
    restores what the earlier session had staged. *)
Definition ex_late_calls : list (@call Z) :=
  [(7, 0%nat, mkKvs 2 [[11; 12]]); (7, 1%nat, mkKvs 2 [[13; 14]]); (7, 0%nat, mkKvs 2 [[15; 16]]); (7, 1%nat, mkKvs 2 [[17; 18]])].
Definition ex_late : @manager Z * res (list (option (nat * Z * Z))) :=
  serve demo_policy ex_cfg 2 true demo_env ex_slab (λ _, 4) [] ex_late_calls (fst (ex_served true [])).

Lemma stale_staging_restored :
  snd ex_late = Ok [None; None; Some (19%nat, 2, 2); Some (24%nat, 2, 2)] ∧ ex_read (fst ex_late) 19 0 0 = 13 ∧ ex_read (fst ex_late) 24 0 0 = 3.
Proof. split_and!; vm_compute; reflexivity. Qed.

(** One new column behind the last position: the slice of the tail has one column, and the copy broadcasts it over the cache. *)
Definition ex_overflow : @manager Z * res unit :=
  write_kvs demo_policy ex_cfg 2 true (ex_slab 7) (mkKvs 2 [[21; 22]]) 4 0 0 0 (new_manager (λ _, 0) []).

Lemma overflow_fills_cache : snd ex_overflow = Ok tt ∧ (λ s, final (k_device (fst ex_overflow)) (Gpu 7 s 0)) <$> [0; 1; 2; 3] = [21; 21; 21; 21].
Proof. split; vm_compute; reflexivity. Qed.
