(* ===== verification/MixedCache.v ===== *)
(** * Caches split over devices (handler.py, backend.py, memory_cache.py, memory_cache_manager.py,
    flexgen_utils/pytorch_backend.py)

    How a connection handler sizes the attention cache of a session, how the devices lay it out, and
    how a step of a block reads and writes it when every sequence of the batch has rows of its own.
    With a part of the cache in host memory a slab is a list of segments, each on one device; the
    manager splits its reads and writes by hand, since [general_copy] cuts source and target alike.

    One cell stands for the key and the value of one position and one row (a head of a sequence);
    [None] is memory that nothing has written. Caches on disk, compressed ones and the reads by
    position ids are left out; KVOffload.v has the working slots that micro-batches share. *)

From stdpp Require Import base numbers list gmap.
From Stdlib Require Import ZArith Lia Floats.SpecFloat.
From S2P Require Import Prelude PyStr Floats PyVal Microbatch KVCacheManager GpuStreams KVOffload SharedSlots.

(** ** The size of the cache *)

(** [_allocate_cache]: the sequences that the cache of a session gets *)
Definition alloc_batch_size (env : environ) (p : policy) (batch_size : Z) (logical : option Z) (force_full_batch_alloc : bool) : res Z :=
  let mb := get_micro_batch_config env in
  let max_supported_batch := gpu_batch_size p * Z.max 1 (num_gpu_batches p) in
  let working_slots := Z.max 1 (num_gpu_batches p) in
  let logical_batch_size := match logical with Some n => if 0 <? n then n else batch_size | None => batch_size end in
  if force_full_batch_alloc then Ok logical_batch_size
  else if cfg_enabled mb && (cfg_micro_batch_size mb <? logical_batch_size) && cfg_gpu_multiplexing mb
  then Ok (Z.min logical_batch_size (cfg_micro_batch_size mb * working_slots))
  else if max_supported_batch <? logical_batch_size then Raise AllocationFailed
  else Ok logical_batch_size.

(** [_process_message] and [_kv_cache_shape_from_descriptor]: positions and rows, for the descriptor
    [(batch, heads, head_dim, max_length)] of a block *)
Definition cache_shape (batch heads max_length : Z) : Z * Z :=
  let prompt_len := 1 in
  let gen_len := Z.max 1 max_length in
  (prompt_len + gen_len - 1, batch * heads).

(** [int(bh * percent / 100) // heads * heads] *)
Definition percent_rows (bh percent heads : Z) : res Z :=
  n ← float_trunc (fdiv (float_of_Z (bh * percent)) (float_of_Z 100));
  if heads =? 0 then Raise ZeroDivisionError else Ok (n / heads * heads).

(** The rows on the GPU, in host memory and on disk *)
Definition mixed_lengths (p : policy) (bh heads : Z) : res (list Z) :=
  gpu ← percent_rows bh (cache_gpu_percent p) heads;
  if cache_disk_percent p =? 0 then Ok [gpu; bh - gpu; 0]
  else
    cpu ← percent_rows bh (cache_cpu_percent p) heads;
    Ok [gpu; cpu; bh - gpu - cpu].

(** ** Tensors *)

Section cache.
Context {V : Type}.

(** Positions, rows, content *)
Record tensor := mkTensor { t_s : Z; t_bh : Z; t_at : Z → Z → option V }.

(** A slice of the positions and one of the rows *)
Definition index : Type := (Z * Z) * (Z * Z).
(** First element and length of [i.1:i.2] in an extent *)
Definition bounds (n : Z) (i : Z * Z) : Z * Z := let a := slice_bound n i.1 in (a, Z.max 0 (slice_bound n i.2 - a)).
Definition whole (t : tensor) : index := ((0, t_s t), (0, t_bh t)).

(** [t[i]] *)
Definition view (t : tensor) (i : index) : tensor :=
  let s := bounds (t_s t) i.1 in
  let r := bounds (t_bh t) i.2 in
  mkTensor s.2 r.2 (λ x y, t_at t (s.1 + x) (r.1 + y)).
(** [t[i].copy_(src)] *)
Definition copy_into (t : tensor) (i : index) (src : tensor) : res tensor :=
  let s := bounds (t_s t) i.1 in
  let r := bounds (t_bh t) i.2 in
  if can_copy s.2 r.2 (t_s src) (t_bh src) then
    Ok (mkTensor (t_s t) (t_bh t) (λ x y,
      if inside s.1 s.2 x && inside r.1 r.2 y
      then t_at src (src_index (t_s src) (x - s.1)) (src_index (t_bh src) (y - r.1)) else t_at t x y))
  else Raise RuntimeError.

(** [torch.empty] *)
Definition empty (s bh : Z) : res tensor :=
  if (s <? 0) || (bh <? 0) then Raise RuntimeError else Ok (mkTensor s bh (λ _ _, None)).

(** [torch.cat(l, dim=1)] *)
Fixpoint cat (l : list tensor) : res tensor :=
  match l with
  | [] => Raise RuntimeError
  | [t] => Ok t
  | t :: l =>
      u ← cat l;
      if t_s t =? t_s u
      then Ok (mkTensor (t_s t) (t_bh t + t_bh u) (λ s r, if r <? t_bh t then t_at t s r else t_at u s (r - t_bh t)))
      else Raise RuntimeError
  end.

(** ** Caches *)

(** The rows from [seg_points[i]] to [seg_points[i+1]] *)
Record segment := mkSegment { g_lo : Z; g_hi : Z; g_data : option tensor }.
(** A slab on the device that computes, or on several devices *)
Inductive cache := Plain (t : tensor) | Mixed (s bh : Z) (segs : list segment).

(** [k_cache.shape] *)
Definition positions (c : cache) : Z := match c with Plain t => t_s t | Mixed s _ _ => s end.
Definition rows (c : cache) : Z := match c with Plain t => t_bh t | Mixed _ bh _ => bh end.

(** [TorchMixedDevice.allocate] *)
Fixpoint allocate_segments (s point : Z) (lengths : list Z) : res (list segment) :=
  match lengths with
  | [] => Ok []
  | n :: lengths =>
      data ← if n =? 0 then Ok None else Some <$> empty s n;
      rest ← allocate_segments s (point + n) lengths;
      Ok (mkSegment point (point + n) data :: rest)
  end.
Definition allocate_mixed (s bh : Z) (lengths : list Z) : res cache :=
  if foldr Z.add 0 lengths =? bh then Mixed s bh <$> allocate_segments s 0 lengths else Raise AssertionError.

(** [init_cache_one_gpu_batch] of the device that the policy names; [None]: disks and compressed caches, and host
    memory alone, whose copies go through threads (see below) *)
Definition init_cache (p : policy) (batch heads max_length : Z) : res (option cache) :=
  let shape := cache_shape batch heads max_length in
  d ← get_cache_device p;
  match d with
  | DevGpu => Some ∘ Plain <$> empty shape.1 shape.2
  | DevMixed => lengths ← mixed_lengths p shape.2 heads; Some <$> allocate_mixed shape.1 shape.2 lengths
  | _ => Ok None
  end.

(** The handler's part and the runtime's *)
Definition allocate_cache (env : environ) (p : policy) (batch_size : Z) (logical : option Z) (force : bool) (heads max_length : Z) : res (option cache) :=
  n ← alloc_batch_size env p batch_size logical force;
  init_cache p n heads max_length.

(** ** Copies between devices *)

(** [cut_indices], the rows of an index inside a segment *)
Definition cut_indices (i : index) (start stop base : Z) : index := (i.1, (Z.max i.2.1 start - base, Z.min i.2.2 stop - base)).

(** [general_copy] from a tensor on one device *)
Fixpoint general_copy_segments (segs : list segment) (di : index) (src : tensor) (si : index) : list segment * res unit :=
  match segs with
  | [] => ([], Ok tt)
  | g :: rest =>
      match g_data g with
      | None => let r := general_copy_segments rest di src si in (g :: r.1, r.2)
      | Some t =>
          match copy_into t (cut_indices di (g_lo g) (g_hi g) (g_lo g)) (view src (cut_indices si (g_lo g) (g_hi g) 0)) with
          | Ok t' => let r := general_copy_segments rest di src si in (mkSegment (g_lo g) (g_hi g) (Some t') :: r.1, r.2)
          | Raise e => (segs, Raise e)
          end
      end
  end.
Definition general_copy (di : index) (src : tensor) (si : option index) : M cache unit := λ c,
  let si := default (whole src) si in
  match c with
  | Plain t => match copy_into t di (view src si) with Ok t' => (Plain t', Ok tt) | Raise e => (c, Raise e) end
  | Mixed s bh segs => let r := general_copy_segments segs di src si in (Mixed s bh r.1, r.2)
  end.

(** [_write_to_cache] of a cache on several devices: the rows of the source in order, a piece for every segment *)
Fixpoint write_segments (segs : list segment) (di : index) (src : tensor) (src_s : Z * Z) (src_offset : Z) : list segment * res unit :=
  match segs with
  | [] => ([], Ok tt)
  | g :: rest =>
      let overlap_start := Z.max di.2.1 (g_lo g) in
      let overlap_end := Z.min di.2.2 (g_hi g) in
      match g_data g with
      | Some t =>
          if overlap_start <? overlap_end then
            let overlap_len := overlap_end - overlap_start in
            let piece := view src (src_s, (src_offset, src_offset + overlap_len)) in
            match copy_into t (di.1, (overlap_start - g_lo g, overlap_start - g_lo g + overlap_len)) piece with
            | Ok t' => let r := write_segments rest di src src_s (src_offset + overlap_len) in (mkSegment (g_lo g) (g_hi g) (Some t') :: r.1, r.2)
            | Raise e => (segs, Raise e)
            end
          else let r := write_segments rest di src src_s src_offset in (g :: r.1, r.2)
      | None => let r := write_segments rest di src src_s src_offset in (g :: r.1, r.2)
      end
  end.
Definition write_to_cache (di : index) (src : tensor) (si : option index) : M cache unit := λ c,
  match c with
  | Plain _ => general_copy di src si c
  | Mixed s bh segs => let i := default (whole src) si in let r := write_segments segs di src i.1 i.2.1 in (Mixed s bh r.1, r.2)
  end.

(** The pieces of a read *)
Fixpoint read_segments (segs : list segment) (prefix a b : Z) : list tensor :=
  match segs with
  | [] => []
  | g :: rest =>
      let overlap_start := Z.max a (g_lo g) in
      let overlap_end := Z.min b (g_hi g) in
      match g_data g with
      | Some t =>
          if overlap_start <? overlap_end
          then view t ((0, prefix), (overlap_start - g_lo g, overlap_end - g_lo g)) :: read_segments rest prefix a b
          else read_segments rest prefix a b
      | None => read_segments rest prefix a b
      end
  end.
Definition read_cache (c : cache) (prefix a b : Z) : res tensor :=
  match c with Plain t => Ok (view t ((0, prefix), (a, b))) | Mixed _ _ segs => cat (read_segments segs prefix a b) end.

(** ** A block's step *)

Section step.
Context (p : policy) (cfg : block_config) (H : Z).

(** The rows of a read, first and past the last *)
Definition read_rows (c : cache) (batch_offset full_batch_size micro_batch_size : Z) : Z * Z :=
  let cap := rows c / H in
  if (0 <? full_batch_size) && (0 <? micro_batch_size) then
    if cap <? full_batch_size then
      let mb := compute_microbatch_index p batch_offset (Some micro_batch_size) (Some full_batch_size) in
      let '(_, start, active, _) := resolve_working_slot p mb cap (Some micro_batch_size) in
      let actual := if 0 <? active then active else cap in
      (start * H, Z.min (start * H + actual * H) (rows c))
    else (batch_offset * H, Z.min (batch_offset * H + micro_batch_size * H) (rows c))
  else (0, rows c).

(** [select_cache] without position ids: the tensor that was read, its sequences and the heads of each *)
Definition select_cache (c : cache) (prefix_length batch_offset full_batch_size micro_batch_size : Z) : res (option (tensor * Z * Z)) :=
  if prefix_length <=? 0 then Ok None
  else if positions c <? prefix_length then Raise AssertionError
  else if H =? 0 then Raise ZeroDivisionError
  else
    let r := read_rows c batch_offset full_batch_size micro_batch_size in
    t ← read_cache c prefix_length r.1 r.2;
    let heads := if t_bh t <? H then t_bh t else H in
    if heads =? 0 then Raise ZeroDivisionError
    else if negb (t_bh t mod heads =? 0) then Raise AssertionError
    else Ok (Some (t, t_bh t / heads, heads)).

(** New keys and values as a tensor of positions and rows *)
Definition tensor_of (cols : list (list V)) (bh : Z) : tensor :=
  mkTensor (zlen cols) bh (λ s r, cols !! Z.to_nat s ≫= (.!! Z.to_nat r)).

(** The rows of a write, first and past the last *)
Definition write_range (c : cache) (span batch_offset full_batch_size micro_batch_size : Z) : res (Z * Z) :=
  if 0 <? full_batch_size then
    if rows c / H <? full_batch_size then
      let mb := compute_microbatch_index p batch_offset (Some micro_batch_size) (Some full_batch_size) in
      let '(_, start, _, _) := resolve_working_slot p mb (rows c / H) (Some micro_batch_size) in
      Ok (start * H, start * H + span)
    else Ok (batch_offset * H, Z.min (batch_offset * H + span) (rows c))
  else if span <=? rows c then Ok (0, span) else Raise AssertionError.

(** The loop over the sequences of a source with fewer heads than the slab *)
Fixpoint write_heads (start n row source_heads : Z) (src : tensor) (batch : list nat) : M cache unit :=
  match batch with
  | [] => mret tt
  | b :: batch =>
      let dst := row + Z.of_nat b * H in
      let from := Z.of_nat b * source_heads in
      write_to_cache ((start, start + n), (dst, dst + source_heads)) src (Some ((0, n), (from, from + source_heads))) ;;
      write_heads start n row source_heads src batch
  end.

(** [_write_kvs]; micro-batches that share slots of such a cache are not staged: [offload_microbatch_kv] returns early *)
Definition write_kvs (kvs : new_kvs V) (start_position batch_offset full_batch_size micro_batch_size : Z) : M cache unit :=
  c ← get;
  if H =? 0 then mthrow ZeroDivisionError
  else
    let source_heads := source_heads_per_batch cfg H (n_bh kvs) full_batch_size micro_batch_size in
    if negb (n_bh kvs mod source_heads =? 0) then mthrow AssertionError
    else
      let source_batch_size := n_bh kvs / source_heads in
      let span := if source_heads <? H then source_batch_size * H else n_bh kvs in
      r ← lift (write_range c span batch_offset full_batch_size micro_batch_size);
      let s_new := zlen (n_cols kvs) in
      let fits := (0 <=? start_position) && (start_position <? positions c) && (start_position + s_new <=? positions c) in
      let cols := if fits then n_cols kvs else py_slice (n_cols kvs) (- positions c) s_new in
      let start := if fits then start_position else 0 in
      let n := if fits then s_new else positions c in
      let src := tensor_of cols (n_bh kvs) in
      if source_heads <? H then write_heads start n r.1 source_heads src (seq 0 (Z.to_nat source_batch_size))
      else write_to_cache ((start, start + n), r) src None.

(** The cached prefix of a micro-batch, and its new entries behind it *)
Definition block_step (batch_offset full_batch_size micro_batch_size prefix_length : Z) (kvs : new_kvs V) : M cache (option (tensor * Z * Z)) :=
  c ← get;
  read ← lift (select_cache c prefix_length batch_offset full_batch_size micro_batch_size);
  write_kvs kvs prefix_length batch_offset full_batch_size micro_batch_size ;;
  mret read.

(** [update_cache_batched], the loop over the sequences: each at its own position, through [general_copy] *)
Fixpoint write_batched (src : tensor) (i : Z) (kv_valid_lengths : list Z) : M cache unit :=
  match kv_valid_lengths with
  | [] => mret tt
  | start_pos :: rest =>
      c ← get;
      let end_pos := Z.min (start_pos + t_s src) (positions c) in
      let actual_len := end_pos - start_pos in
      (if actual_len <=? 0 then mret tt
       else general_copy ((start_pos, end_pos), (i * H, (i + 1) * H)) (view src ((0, actual_len), (i * H, (i + 1) * H))) None) ;;
      write_batched src (i + 1) rest
  end.
End step.
End cache.
Arguments tensor : clear implicits.
Arguments segment : clear implicits.
Arguments cache : clear implicits.

(** ** Every layout is a slab *)

Section layout.
Context {V : Type}.

Implicit Types (t : tensor V) (c : cache V) (segs : list (segment V)).

Lemma bounds_in n a b : 0 ≤ a ≤ b → b ≤ n → bounds n (a, b) = (a, b - a).
Proof.
  intros. unfold bounds, slice_bound. cbn [fst snd]. destruct (Z.ltb_spec a 0), (Z.ltb_spec b 0); try lia.
  rewrite !Z.min_l, Z.max_r by lia. done.
Qed.

Lemma view_in t a b x y : 0 ≤ a ≤ b → b ≤ t_s t → 0 ≤ x ≤ y → y ≤ t_bh t →
  view t ((a, b), (x, y)) = mkTensor (b - a) (y - x) (λ s r, t_at t (a + s) (x + r)).
Proof. intros. unfold view. cbn [fst snd]. by rewrite !bounds_in. Qed.

Lemma copy_into_in t src a b x y : 0 ≤ a ≤ b → b ≤ t_s t → 0 ≤ x ≤ y → y ≤ t_bh t → t_s src = b - a → t_bh src = y - x →
  ∃ t', copy_into t ((a, b), (x, y)) src = Ok t' ∧ t_s t' = t_s t ∧ t_bh t' = t_bh t ∧
  ∀ s r, t_at t' s r = if inside a (b - a) s && inside x (y - x) r then t_at src (s - a) (r - x) else t_at t s r.
Proof.
  intros ? ? ? ? Hs Hr. unfold copy_into. cbn [fst snd]. rewrite !bounds_in by done. cbn [fst snd]. unfold can_copy.
  rewrite Hs, Hr, !Z.eqb_refl. cbn [orb andb]. eexists. split; [done|]. cbn. split_and!; [done..|]. intros s r.
  destruct (inside a _ s) eqn:Es; [|done]. destruct (inside x _ r) eqn:Er; [|done]. cbn [andb].
  apply inside_spec in Es, Er. by rewrite !src_index_inside by lia.
Qed.

(** The segments cover the rows from [lo] to [hi]. *)
Fixpoint chain (s lo : Z) segs (hi : Z) : Prop :=
  match segs with
  | [] => lo = hi
  | g :: rest =>
      g_lo g = lo ∧ match g_data g with Some t => t_s t = s ∧ t_bh t = g_hi g - lo ∧ lo < g_hi g | None => g_hi g = lo end ∧ chain s (g_hi g) rest hi
  end.
Fixpoint seg_at segs (s r : Z) : option V :=
  match segs with
  | [] => None
  | g :: rest =>
      if r <? g_hi g then match g_data g with Some t => t_at t s (r - g_lo g) | None => None end else seg_at rest s r
  end.

Lemma chain_le s segs : ∀ lo hi, chain s lo segs hi → lo ≤ hi.
Proof.
  induction segs as [|g segs IH]; intros lo hi; cbn; [lia|]. intros (_ & Hd & Hc%IH). destruct (g_data g); lia.
Qed.

Lemma write_segments_spec s src start n row row_end from segs : ∀ lo hi src_offset,
  chain s lo segs hi → 0 ≤ lo → 0 ≤ start → 0 ≤ n → start + n ≤ s → 0 ≤ row → row_end ≤ hi → 0 ≤ from →
  t_s src = n → from + (row_end - row) ≤ t_bh src → (lo < row_end → src_offset = from + (Z.max row lo - row)) →
  ∃ segs', write_segments segs ((start, start + n), (row, row_end)) src (0, n) src_offset = (segs', Ok tt) ∧ chain s lo segs' hi ∧
  ∀ x y, lo ≤ y → seg_at segs' x y = if inside start n x && inside row (row_end - row) y && (y <? hi) then t_at src (x - start) (from + (y - row)) else seg_at segs x y.
Proof.
  induction segs as [|g segs IH]; intros lo hi src_offset Hc Hlo Hst Hn Hsn Hrow Hend Hfrom Hs Hbh Hoff; cbn [chain] in Hc.
  { exists []. cbn. split; [done|]. split; [done|]. intros x y Hy. destruct (Z.ltb_spec y hi); [lia|]. by rewrite andb_false_r. }
  destruct Hc as (Hg & Hd & Hc). pose proof (chain_le _ _ _ _ Hc) as Hhi. destruct (g_data g) as [t|] eqn:Ed.
  2:{ (* an empty segment *)
    destruct (IH (g_hi g) hi src_offset Hc) as (segs' & E & Hc' & Hat); [lia..|].
    exists (g :: segs'). cbn. rewrite Ed, E. cbn. split; [done|]. split; [by split_and!|]. intros x y Hy. destruct (Z.ltb_spec y (g_hi g)); [lia|].
    rewrite Hat by lia. done. }
  destruct Hd as (Ht & Hb & Hlt). cbn [write_segments fst snd]. rewrite Ed. rewrite Hg in *.
  destruct (Z.ltb_spec (Z.max row lo) (Z.min row_end (g_hi g))) as [Hov|Hov].
  - (* rows of this segment *)
    assert (src_offset = from + (Z.max row lo - row)) as -> by lia.
    set (a := Z.max row lo) in *. set (b := Z.min row_end (g_hi g)) in *.
    rewrite (view_in src) by lia.
    edestruct (copy_into_in t (mkTensor (n - 0) (from + (a - row) + (b - a) - (from + (a - row)))
      (λ s r, t_at src (0 + s) (from + (a - row) + r))) start (start + n) (a - lo) (a - lo + (b - a))) as (t' & E & Ht' & Hb' & Hat'); [cbn; lia..|].
    rewrite E. destruct (IH (g_hi g) hi (from + (a - row) + (b - a)) Hc) as (segs' & E' & Hc' & Hat); [lia..|].
    rewrite E'. eexists. split; [done|]. cbn. split; [split_and!; [done|by rewrite Ht'|by rewrite Hb'|lia|done]|].
    intros x y Hy. destruct (Z.ltb_spec y (g_hi g)) as [Hin|Hout].
    + rewrite Hat'. cbn. rewrite ?Ed, ?Hg. replace (start + n - start) with n by lia. replace (a - lo + (b - a) - (a - lo)) with (b - a) by lia.
      rewrite (proj2 (Z.ltb_lt y hi)), andb_true_r by lia. destruct (inside start n x) eqn:Ex; [|done]. cbn [andb].
      destruct (inside row (row_end - row) y) eqn:Ey.
      * apply inside_spec in Ey. rewrite (proj2 (inside_spec _ _ _)) by lia. f_equal; lia.
      * destruct (inside (a - lo) (b - a) (y - lo)) eqn:Ey'; [|done]. apply inside_spec in Ey'.
        assert (inside row (row_end - row) y = true) by (apply inside_spec; lia). congruence.
    + rewrite Hat by lia. done.
  - destruct (IH (g_hi g) hi src_offset Hc) as (segs' & E' & Hc' & Hat); [lia..|].
    rewrite E'. eexists. split; [done|]. cbn. rewrite Ed. split; [by split_and!|]. intros x y Hy. destruct (Z.ltb_spec y (g_hi g)) as [Hin|Hout]; [|by apply Hat].
    destruct (inside row (row_end - row) y) eqn:Ey; [|by rewrite andb_false_r]. apply inside_spec in Ey. lia.
Qed.

Lemma cat_cons t l : l ≠ [] → cat (t :: l) = (u ← cat l; if t_s t =? t_s u
  then Ok (mkTensor (t_s t) (t_bh t + t_bh u) (λ s r, if r <? t_bh t then t_at t s r else t_at u s (r - t_bh t))) else Raise RuntimeError).
Proof. by destruct l. Qed.

Lemma read_segments_spec s prefix a b segs : ∀ lo hi, chain s lo segs hi → 0 ≤ lo → 0 ≤ prefix ≤ s → 0 ≤ a → b ≤ hi →
  (Z.max a lo < b → ∃ u, cat (read_segments segs prefix a b) = Ok u ∧ t_s u = prefix ∧ t_bh u = b - Z.max a lo ∧
    ∀ x y, 0 ≤ y < b - Z.max a lo → t_at u x y = seg_at segs x (Z.max a lo + y)) ∧
  (b ≤ Z.max a lo → read_segments segs prefix a b = []).
Proof.
  induction segs as [|g segs IH]; intros lo hi Hc Hlo Hp Ha Hb; cbn [chain] in Hc; [split; [lia|done]|].
  destruct Hc as (Hg & Hd & Hc). pose proof (chain_le _ _ _ _ Hc) as Hhi.
  assert (0 ≤ g_hi g) as Hghi by (destruct (g_data g); lia). destruct (IH _ _ Hc Hghi Hp Ha Hb) as [Hsome Hnone].
  cbn [read_segments seg_at]. destruct (g_data g) as [t|] eqn:Ed.
  2:{ rewrite Hd in *. split; [|done]. intros Hlt. destruct (Hsome Hlt) as (u & ? & ? & ? & Hat). exists u. split_and!; [done..|].
      intros x y Hy. destruct (Z.ltb_spec (Z.max a lo + y) lo); [lia|]. by apply Hat. }
  destruct Hd as (Ht & Hbh & Hlt). rewrite Hg.
  destruct (Z.ltb_spec (Z.max a lo) (Z.min b (g_hi g))) as [Hov|Hov]; [|split; intros Hlt'].
  - split; [|lia]. intros _. rewrite view_in by lia. set (piece := mkTensor _ _ _).
    destruct (Z.le_gt_cases b (g_hi g)) as [Hle|Hgt].
    + rewrite Hnone by lia. exists piece. cbn. split_and!; [done|lia|lia|]. intros x y Hy. destruct (Z.ltb_spec (Z.max a lo + y) (g_hi g)); [|lia].
      f_equal; lia.
    + destruct Hsome as (u & E & Hs & Hbu & Hat); [lia|]. rewrite cat_cons by (intros Hn; rewrite Hn in E; done). rewrite E. cbn.
      rewrite Hs, (proj2 (Z.eqb_eq _ _)) by lia. eexists. split; [done|]. cbn. split_and!; [lia|lia|]. intros x y Hy.
      destruct (Z.ltb_spec y (Z.min b (g_hi g) - lo - (Z.max a lo - lo))), (Z.ltb_spec (Z.max a lo + y) (g_hi g)); try lia.
      * f_equal; lia.
      * rewrite Hat by lia. f_equal; lia.
  - destruct Hsome as (u & E & Hs & Hbu & Hat); [lia|]. exists u. split; [done|]. split; [done|]. split; [lia|]. intros x y Hy.
    destruct (Z.ltb_spec (Z.max a lo + y) (g_hi g)); [lia|]. rewrite Hat by lia. f_equal; lia.
  - apply Hnone. lia.
Qed.

(** What a cache holds *)
Definition cell_at c (s r : Z) : option V := match c with Plain t => t_at t s r | Mixed _ _ segs => seg_at segs s r end.
Definition layout_wf c : Prop := match c with Plain t => 0 ≤ t_s t ∧ 0 ≤ t_bh t | Mixed s bh segs => 0 ≤ s ∧ chain s 0 segs bh end.

(** A cache stands for a slab of [S] positions and [B] rows with the content [m]. *)
Record slab_of c (S B : Z) (m : Z → Z → option V) : Prop := mkSlabOf {
  so_wf : layout_wf c;
  so_positions : positions c = S;
  so_bh : rows c = B;
  so_content : ∀ s r, 0 ≤ s < S → 0 ≤ r < B → cell_at c s r = m s r;
}.

(** [m[start:start + n, row:row + k] = f] *)
Definition put_rows (start n row k : Z) (f : Z → Z → option V) (m : Z → Z → option V) : Z → Z → option V :=
  λ s r, if inside start n s && inside row k r then f (s - start) (r - row) else m s r.

Lemma write_to_cache_slab c S B m src si start n row k from : slab_of c S B m → 0 ≤ start → 0 ≤ n → start + n ≤ S → 0 ≤ row → 0 ≤ k → row + k ≤ B →
  t_s src = n → default (whole src) si = ((0, n), (from, from + k)) → 0 ≤ from → from + k ≤ t_bh src → ∃ c',
  write_to_cache ((start, start + n), (row, row + k)) src si c = (c', Ok tt) ∧ slab_of c' S B (put_rows start n row k (λ s r, t_at src s (from + r)) m).
Proof.
  intros [Hwf HS HB Hm] Hst Hn Hsn Hrow Hk Hrk Hs Hi Hf Hfk. unfold write_to_cache, general_copy. rewrite Hi. cbn [fst snd].
  destruct c as [t|s bh segs]; cbn in Hwf, HS, HB, Hm.
  - rewrite view_in by lia. edestruct (copy_into_in t (mkTensor (n - 0) (from + k - from) (λ s r, t_at src (0 + s) (from + r))) start (start + n) row (row + k))
      as (t' & E & Ht & Hb & Hat); [cbn; lia..|]. rewrite E. eexists. split; [done|]. split; [cbn; lia|cbn; lia|cbn; lia|].
    intros s r Hs' Hr. cbn. rewrite Hat. unfold put_rows. cbn. replace (start + n - start) with n by lia. replace (row + k - row) with k by lia.
    destruct (_ && _); [by f_equal|by apply Hm].
  - destruct Hwf as [Hs0 Hc].
    destruct (write_segments_spec s src start n row (row + k) from segs 0 bh from Hc) as (segs' & E & Hc' & Hat); [lia..|].
    rewrite E. eexists. split; [done|]. split; [done|done|done|]. intros x y Hx Hy. cbn. rewrite Hat by lia. unfold put_rows.
    rewrite (proj2 (Z.ltb_lt y bh)), andb_true_r by lia. replace (row + k - row) with k by lia. destruct (_ && _); [done|by apply Hm; lia].
Qed.

Lemma read_cache_slab c S B m prefix a b : slab_of c S B m → 0 ≤ prefix ≤ S → 0 ≤ a < b → b ≤ B → ∃ u,
  read_cache c prefix a b = Ok u ∧ t_s u = prefix ∧ t_bh u = b - a ∧ ∀ s r, 0 ≤ s < prefix → 0 ≤ r < b - a → t_at u s r = m s (a + r).
Proof.
  intros [Hwf HS HB Hm] Hp Ha Hb. destruct c as [t|s bh segs]; cbn in Hwf, HS, HB, Hm |- *.
  - eexists. split; [done|]. rewrite view_in by lia. cbn. split_and!; [lia|done|]. intros s r Hs Hr. rewrite Hm by lia. done.
  - destruct Hwf as [Hs0 Hc]. destruct (read_segments_spec s prefix a b segs 0 bh Hc) as [Hread _]; [lia..|].
    destruct Hread as (u & E & Hu & Hbu & Hat); [lia|]. exists u. split; [done|]. split; [done|]. split; [lia|].
    intros x y Hx Hy. rewrite Hat, Hm by lia. f_equal. lia.
Qed.

(** ** New caches *)

Lemma allocate_segments_chain s lengths : ∀ lo segs, allocate_segments s lo lengths = Ok segs →
  0 ≤ s → chain s lo segs (lo + foldr Z.add 0 lengths) ∧ ∀ x y, seg_at segs x y = None.
Proof.
  induction lengths as [|n lengths IH]; intros lo segs; cbn.
  { intros [= <-] _. split; [cbn; lia|done]. }
  intros E Hs. destruct (Z.eqb_spec n 0) as [->|Hn].
  - cbn in E. destruct (allocate_segments s (lo + 0) lengths) as [rest|] eqn:Er; [|done]. injection E as <-.
    destruct (IH _ _ Er Hs) as [Hc Hat]. cbn. split; [|intros x y; destruct (_ <? _); [done|apply Hat]].
    split_and!; [done|lia|]. by replace (lo + (0 + foldr Z.add 0 lengths)) with (lo + 0 + foldr Z.add 0 lengths) by lia.
  - unfold empty in E. destruct ((s <? 0) || (n <? 0)) eqn:Eneg; [done|]. apply orb_false_iff in Eneg as [_ Hneg%Z.ltb_ge]. cbn in E.
    destruct (allocate_segments s (lo + n) lengths) as [rest|] eqn:Er; [|done]. injection E as <-.
    destruct (IH _ _ Er Hs) as [Hc Hat]. cbn. split; [|intros x y; destruct (_ <? _); [done|apply Hat]].
    split_and!; [done|done|lia|lia|]. by rewrite Z.add_assoc.
Qed.

Lemma init_cache_slab p batch heads max_length c : init_cache p batch heads max_length = Ok (Some c) →
  slab_of c (Z.max 1 max_length) (batch * heads) (λ _ _, None).
Proof.
  unfold init_cache, cache_shape. cbn [fst snd]. replace (1 + Z.max 1 max_length - 1) with (Z.max 1 max_length) by lia.
  destruct (get_cache_device p) as [d|]; [|done]. destruct d; cbn; try done.
  - unfold empty. destruct (_ || _) eqn:En; [done|]. apply orb_false_iff in En as [_ Hn%Z.ltb_ge]. intros [= <-]. split; [cbn; lia|done..].
  - destruct (mixed_lengths p (batch * heads) heads) as [lengths|]; cbn; [|done]. unfold allocate_mixed.
    destruct (Z.eqb_spec (foldr Z.add 0 lengths) (batch * heads)) as [Hsum|]; [|done].
    destruct (allocate_segments _ 0 lengths) as [segs|] eqn:Es; [|done]. intros [= <-].
    apply allocate_segments_chain in Es as [Hc Hat]; [|lia]. rewrite Hsum in Hc. split; [split; [lia|done]|done|done|]. intros s r _ _. apply Hat.
Qed.
End layout.

(** ** Steps on a cache with rows for every sequence *)

Section steps.
Context {V : Type} (p : policy) (cfg : block_config) (H kv : Z).
Context (Hkv : 0 < kv ≤ H).
(** Positions, and sequences, of the cache *)
Context (S n : Z).

Implicit Types (c : cache V) (m : Z → Z → option V).

(** A step of some sequences of the batch: the first, their number, the batch that the caller names (zero for none),
    the entries that each has, and the new ones *)
Record step := mkStep { st_offset : Z; st_size : Z; st_full : Z; st_prefix : Z; st_kvs : new_kvs V }.

(** What a step appends to a sequence, and what steps have written of it *)
Definition entries_of (x : step) (q : Z) : list (list V) :=
  if inside (st_offset x) (st_size x) q
  then (λ col, take (Z.to_nat kv) (drop (Z.to_nat ((q - st_offset x) * kv)) col)) <$> n_cols (st_kvs x) else [].
Definition history (steps : list step) (q : Z) : list (list V) := concat ((λ x, entries_of x q) <$> steps).

(** The sequences are of the cache, have one number of entries, and get as many new ones, for which there is room. *)
Record step_fits (before : list step) (x : step) : Prop := mkStepFits {
  sf_sequences : 0 ≤ st_offset x ∧ 0 < st_size x ∧ st_offset x + st_size x ≤ n;
  sf_full : 0 ≤ st_full x ≤ n;
  sf_single : st_full x = 0 → st_offset x = 0 ∧ source_heads_per_batch cfg H (st_size x * kv) 0 (st_size x) = kv;
  sf_prefix : ∀ q, st_offset x ≤ q < st_offset x + st_size x → zlen (history before q) = st_prefix x;
  sf_rows : n_bh (st_kvs x) = st_size x * kv;
  sf_cols : Forall (λ col, zlen col = st_size x * kv) (n_cols (st_kvs x));
  sf_some : n_cols (st_kvs x) ≠ [];
  sf_room : st_prefix x + zlen (n_cols (st_kvs x)) ≤ S;
}.

Definition run_step (x : step) : M (cache V) (option (tensor V * Z * Z)) :=
  block_step p cfg H (st_offset x) (st_full x) (st_size x) (st_prefix x) (st_kvs x).
Fixpoint run_steps (steps : list step) : M (cache V) (list (option (tensor V * Z * Z))) :=
  match steps with
  | [] => mret []
  | x :: steps => read ← run_step x; reads ← run_steps steps; mret (read :: reads)
  end.

(** The rows of a slab hold the entries of their sequences. *)
Definition holds m (hist : Z → list (list V)) : Prop :=
  ∀ q s h, 0 ≤ q < n → 0 ≤ h < kv → 0 ≤ s < zlen (hist q) → m s (q * H + h) = hist q !! Z.to_nat s ≫= (.!! Z.to_nat h).

Lemma head_row b q h : 0 ≤ h < kv → inside (b * H) kv (q * H + h) = (q =? b).
Proof.
  intros Hh. destruct (Z.eqb_spec q b) as [->|Hne]; [apply inside_spec; lia|].
  destruct (inside _ _ _) eqn:E; [|done]. apply inside_spec in E. exfalso. apply Hne. nia.
Qed.

Lemma block_row o k q h : 0 ≤ h < H → inside (o * H) (k * H) (q * H + h) = inside o k q.
Proof.
  intros Hh. destruct (inside o k q) eqn:E; [apply inside_spec in E; apply inside_spec; nia|].
  destruct (inside (o * H) _ _) eqn:E'; [|done]. apply inside_spec in E'.
  assert (inside o k q = true) by (apply inside_spec; nia). congruence.
Qed.

Lemma mode_rows c m x before : slab_of c S (n * H) m → step_fits before x → rows c / H = n.
Proof. intros Hc Hx. rewrite (so_bh _ _ _ _ Hc). apply Z.div_mul. lia. Qed.

Lemma read_rows_spec c m x before : slab_of c S (n * H) m → step_fits before x → ∃ k,
  read_rows p H c (st_offset x) (st_full x) (st_size x) = (st_offset x * H, (st_offset x + k) * H) ∧ st_size x ≤ k ∧ st_offset x + k ≤ n.
Proof.
  intros Hc Hx. destruct (sf_sequences _ _ Hx) as (Ho & Hs & Hos). pose proof (sf_full _ _ Hx) as Hf. unfold read_rows.
  rewrite (mode_rows c m x before Hc Hx), (so_bh _ _ _ _ Hc), (proj2 (Z.ltb_lt 0 (st_size x))), andb_true_r by done.
  destruct (Z.ltb_spec 0 (st_full x)) as [Hpos|Hz].
  - rewrite (proj2 (Z.ltb_ge n (st_full x))) by lia. exists (st_size x). split; [|lia]. rewrite Z.min_l by nia. f_equal. lia.
  - destruct (sf_single _ _ Hx) as [Hz' _]; [lia|]. exists n. rewrite Hz' in *. split; [f_equal; lia|lia].
Qed.

Lemma select_spec c m hist x before : slab_of c S (n * H) m → holds m hist → step_fits before x → 0 < st_prefix x →
  (∀ q, st_offset x ≤ q < st_offset x + st_size x → zlen (hist q) = st_prefix x) → ∃ t k,
  select_cache p H c (st_prefix x) (st_offset x) (st_full x) (st_size x) = Ok (Some (t, k, H)) ∧ st_size x ≤ k ∧
  t_s t = st_prefix x ∧ t_bh t = k * H ∧
  ∀ s b h, 0 ≤ s < st_prefix x → 0 ≤ b < st_size x → 0 ≤ h < kv → t_at t s (b * H + h) = hist (st_offset x + b) !! Z.to_nat s ≫= (.!! Z.to_nat h).
Proof.
  intros Hc Hm Hx Hpre Hlen. destruct (sf_sequences _ _ Hx) as (Ho & Hs & Hos). pose proof (sf_room _ _ Hx). pose proof (Zle_0_nat (length (n_cols (st_kvs x)))).
  destruct (read_rows_spec c m x before Hc Hx) as (k & Er & Hk & Hkn). unfold select_cache.
  rewrite (proj2 (Z.leb_gt _ _)), (so_positions _ _ _ _ Hc), (proj2 (Z.ltb_ge _ _)), (proj2 (Z.eqb_neq H 0)), Er by (unfold zlen in *; lia). cbn [fst snd].
  destruct (read_cache_slab c S (n * H) m (st_prefix x) (st_offset x * H) ((st_offset x + k) * H) Hc) as (t & E & Ht & Hb & Hat); [unfold zlen in *; lia|nia|nia|].
  rewrite E. cbn. replace ((st_offset x + k) * H - st_offset x * H) with (k * H) in * by lia. rewrite Hb.
  rewrite (proj2 (Z.ltb_ge (k * H) H)), (proj2 (Z.eqb_neq H 0)), Z.mod_mul, Z.div_mul by nia. cbn.
  exists t, k. split_and!; [done..|]. intros s b h Hs' Hb' Hh. rewrite Hat by nia.
  replace (st_offset x * H + (b * H + h)) with ((st_offset x + b) * H + h) by lia. apply Hm; [lia|done|]. rewrite Hlen by lia. done.
Qed.

(** ** Writes *)

Lemma write_heads_spec start len o src batch : 0 ≤ start → 0 ≤ len → start + len ≤ S → 0 ≤ o → t_s src = len → ∀ c m, slab_of c S (n * H) m →
  Forall (λ b, o + Z.of_nat b < n ∧ (Z.of_nat b + 1) * kv ≤ t_bh src) batch → ∃ c' m',
  write_heads H start len (o * H) kv src batch c = (c', Ok tt) ∧ slab_of c' S (n * H) m' ∧
  ∀ s q h, 0 ≤ h < kv → m' s (q * H + h) = if bool_decide (o ≤ q ∧ Z.to_nat (q - o) ∈ batch) && inside start len s
                                             then t_at src (s - start) ((q - o) * kv + h) else m s (q * H + h).
Proof.
  intros Hst Hl Hsl Ho Hs. induction batch as [|b batch IH]; intros c m Hc Hb.
  { exists c, m. split; [done|]. split; [done|]. intros s q h _. rewrite bool_decide_false; [done|]. intros [_ Hin]. by apply elem_of_nil in Hin. }
  apply Forall_cons in Hb as [[Hbn Hbk] Hb]. cbn [write_heads].
  destruct (write_to_cache_slab c S (n * H) m src (Some ((0, len), (Z.of_nat b * kv, Z.of_nat b * kv + kv))) start len (o * H + Z.of_nat b * H) kv (Z.of_nat b * kv) Hc)
    as (c1 & E1 & Hc1); [nia..|done|done|lia|lia|].
  rewrite (bind_ok _ _ _ _ _ E1). destruct (IH c1 _ Hc1 Hb) as (c' & m' & E & Hc' & Hm'). exists c', m'. split; [done|]. split; [done|].
  intros s q h Hh. rewrite Hm' by done. unfold put_rows. rewrite <-Z.mul_add_distr_r, head_row by done.
  destruct (inside start len s); rewrite ?andb_false_r, ?andb_false_l, ?andb_true_r; [|done]. cbn [andb].
  destruct (bool_decide (o ≤ q ∧ Z.to_nat (q - o) ∈ batch)) eqn:Ein.
  - apply bool_decide_eq_true in Ein as [? ?]. rewrite bool_decide_true by (split; [done|by apply list_elem_of_further]). done.
  - apply bool_decide_eq_false in Ein. destruct (Z.eqb_spec q (o + Z.of_nat b)) as [->|Hne].
    + rewrite bool_decide_true by (split; [lia|replace (Z.to_nat (o + Z.of_nat b - o)) with b by lia; apply list_elem_of_here]). f_equal; lia.
    + rewrite bool_decide_false; [done|]. intros [Hoq [Hin|Hin]%elem_of_cons]; [lia|]. by apply Ein.
Qed.

Lemma step_heads x before : step_fits before x → source_heads_per_batch cfg H (n_bh (st_kvs x)) (st_full x) (st_size x) = kv.
Proof.
  intros Hx. destruct (sf_sequences _ _ Hx) as (Ho & Hs & Hos). rewrite (sf_rows _ _ Hx). destruct (Z.eq_dec (st_full x) 0) as [Hz|Hnz].
  { rewrite Hz. by apply (sf_single _ _ Hx). }
  pose proof (sf_full _ _ Hx). unfold source_heads_per_batch. rewrite Z.max_r by lia.
  rewrite (proj2 (Z.ltb_lt 0 (st_full x))), (proj2 (Z.ltb_lt 0 (st_size x))) by lia. cbn [andb].
  rewrite Z.mul_comm, Z.mod_mul, Z.div_mul, Z.eqb_refl by lia. by rewrite (proj2 (Z.ltb_lt 0 kv)), (proj2 (Z.leb_le kv H)) by lia.
Qed.

Lemma write_range_spec c m x before : slab_of c S (n * H) m → step_fits before x →
  write_range p H c (st_size x * H) (st_offset x) (st_full x) (st_size x) = Ok (st_offset x * H, st_offset x * H + st_size x * H).
Proof.
  intros Hc Hx. destruct (sf_sequences _ _ Hx) as (Ho & Hs & Hos). pose proof (sf_full _ _ Hx) as Hf. unfold write_range.
  rewrite (mode_rows c m x before Hc Hx), (so_bh _ _ _ _ Hc). destruct (Z.ltb_spec 0 (st_full x)) as [Hpos|Hz].
  - rewrite (proj2 (Z.ltb_ge n (st_full x))), Z.min_l by nia. done.
  - destruct (sf_single _ _ Hx) as [-> _]; [lia|]. rewrite (proj2 (Z.leb_le _ _)) by nia. done.
Qed.

Lemma slab_write_spec c m x before : slab_of c S (n * H) m → 0 ≤ st_prefix x → step_fits before x → ∃ c' m',
  write_kvs p cfg H (st_kvs x) (st_prefix x) (st_offset x) (st_full x) (st_size x) c = (c', Ok tt) ∧ slab_of c' S (n * H) m' ∧
  ∀ s q h, 0 ≤ h < kv → m' s (q * H + h) = if inside (st_offset x) (st_size x) q && inside (st_prefix x) (zlen (n_cols (st_kvs x))) s
    then n_cols (st_kvs x) !! Z.to_nat (s - st_prefix x) ≫= (.!! Z.to_nat ((q - st_offset x) * kv + h)) else m s (q * H + h).
Proof.
  intros Hc Hpre Hx. destruct (sf_sequences _ _ Hx) as (Ho & Hs & Hos). pose proof (sf_room _ _ Hx) as Hroom.
  assert (0 < zlen (n_cols (st_kvs x))) as Hlen by (pose proof (sf_some _ _ Hx); destruct (n_cols (st_kvs x)); [done|unfold zlen; cbn; lia]).
  unfold write_kvs. rewrite get_bind, (proj2 (Z.eqb_neq H 0)), (step_heads x before Hx), (sf_rows _ _ Hx), Z.mod_mul, Z.div_mul by lia. cbn [negb Z.eqb].
  assert ((if kv <? H then st_size x * H else st_size x * kv) = st_size x * H) as -> by (destruct (Z.ltb_spec kv H); [done|f_equal; lia]).
  rewrite (write_range_spec c m x before Hc Hx). erewrite bind_ok by reflexivity. cbn [fst snd]. rewrite (so_positions _ _ _ _ Hc).
  rewrite (proj2 (Z.leb_le 0 _)), (proj2 (Z.ltb_lt _ S)), (proj2 (Z.leb_le _ S)) by lia. cbn [andb].
  set (src := tensor_of _ _). destruct (Z.ltb_spec kv H) as [Hlt|Hge].
  - destruct (write_heads_spec (st_prefix x) (zlen (n_cols (st_kvs x))) (st_offset x) src (seq 0 (Z.to_nat (st_size x)))) with (c := c) (m := m)
      as (c' & m' & E & Hc' & Hm'); [lia..|done|done|apply Forall_forall; intros b Hb%elem_of_seq; split; [lia|cbn; nia]|].
    exists c', m'. split; [done|]. split; [done|]. intros s q h Hh. rewrite Hm' by done.
    destruct (inside (st_offset x) (st_size x) q) eqn:Eq; [apply inside_spec in Eq|].
    + rewrite bool_decide_true; [done|]. split; [lia|]. apply elem_of_seq. lia.
    + rewrite bool_decide_false; [done|]. intros [? Hin%elem_of_seq]. assert (inside (st_offset x) (st_size x) q = true) by (apply inside_spec; lia). congruence.
  - assert (kv = H) as Heq by lia.
    destruct (write_to_cache_slab c S (n * H) m src None (st_prefix x) (zlen (n_cols (st_kvs x))) (st_offset x * H) (st_size x * H) 0 Hc) as (c' & E & Hc');
      [lia|lia|lia|nia|nia|nia|done|unfold src, whole; cbn; repeat f_equal; lia|lia|unfold src; cbn; lia|].
    eexists c', _. split; [exact E|]. split; [exact Hc'|]. intros s q h Hh. unfold put_rows. rewrite block_row, andb_comm by lia.
    destruct (_ && _) eqn:Ein; [|done]. unfold src. cbn [tensor_of t_at].
    by replace (0 + (q * H + h - st_offset x * H)) with ((q - st_offset x) * kv + h) by (rewrite Heq; lia).
Qed.

(** ** Runs *)

Lemma history_snoc steps x q : history (steps ++ [x]) q = history steps q ++ entries_of x q.
Proof. unfold history. rewrite fmap_app, concat_app. cbn. by rewrite app_nil_r. Qed.

Lemma entries_lookup x q (s h : nat) : inside (st_offset x) (st_size x) q = true → (h < Z.to_nat kv)%nat → 0 < kv →
  entries_of x q !! s ≫= (.!! h) = n_cols (st_kvs x) !! s ≫= (.!! Z.to_nat ((q - st_offset x) * kv + Z.of_nat h)).
Proof.
  intros Hin Hh Hk. unfold entries_of. rewrite Hin, list_lookup_fmap. destruct (n_cols (st_kvs x) !! s) as [col|]; [|done]. cbn.
  rewrite lookup_take_lt, lookup_drop by done. apply inside_spec in Hin. f_equal. nia.
Qed.

Lemma entries_length x q : zlen (entries_of x q) = if inside (st_offset x) (st_size x) q then zlen (n_cols (st_kvs x)) else 0.
Proof. unfold entries_of, zlen. destruct (inside _ _ _); [by rewrite length_fmap|done]. Qed.

(** What a step has read *)
Definition read_ok (hist : Z → list (list V)) (x : step) (read : option (tensor V * Z * Z)) : Prop :=
  match read with
  | None => st_prefix x = 0
  | Some (t, sequences, heads) => st_size x ≤ sequences ∧ heads = H ∧ t_s t = st_prefix x ∧ t_bh t = sequences * H ∧
      ∀ s b h, 0 ≤ s < st_prefix x → 0 ≤ b < st_size x → 0 ≤ h < kv →
        t_at t s (b * H + h) = hist (st_offset x + b) !! Z.to_nat s ≫= (.!! Z.to_nat h)
  end.

Lemma run_step_spec c m before x : slab_of c S (n * H) m → holds m (history before) → step_fits before x → ∃ c' m' read,
  run_step x c = (c', Ok read) ∧ slab_of c' S (n * H) m' ∧ holds m' (history (before ++ [x])) ∧ read_ok (history before) x read.
Proof.
  intros Hc Hm Hx. destruct (sf_sequences _ _ Hx) as (Ho & Hs & Hos).
  assert (0 ≤ st_prefix x) as Hpre by (rewrite <-(sf_prefix _ _ Hx (st_offset x)) by lia; unfold zlen; lia).
  assert (∃ read, select_cache p H c (st_prefix x) (st_offset x) (st_full x) (st_size x) = Ok read ∧ read_ok (history before) x read) as (read & Er & Hread).
  { destruct (Z.eq_dec (st_prefix x) 0) as [Hz|Hnz]; [exists None; split; [by unfold select_cache; rewrite Hz|done]|].
    destruct (select_spec c m (history before) x before Hc Hm Hx) as (t & k & E & ? & ? & ? & ?); [lia|apply (sf_prefix _ _ Hx)|].
    exists (Some (t, k, H)). by split_and!. }
  destruct (slab_write_spec c m x before Hc Hpre Hx) as (c' & m' & Ew & Hc' & Hm'). exists c', m', read.
  unfold run_step, block_step. rewrite get_bind. unfold lift. erewrite bind_ok by (by rewrite Er). rewrite (bind_ok _ _ _ _ _ Ew).
  split_and!; [done|done| |done]. intros q s h Hq Hh Hs'. rewrite history_snoc in *. unfold zlen in Hs'. rewrite length_app in Hs'.
  rewrite Hm' by done. pose proof (entries_length x q) as Hel. destruct (inside (st_offset x) (st_size x) q) eqn:Ein.
  - pose proof Ein as Hr. apply inside_spec in Hr. pose proof (sf_prefix _ _ Hx q Hr) as Hlen. unfold zlen in *.
    destruct (inside (st_prefix x) (Z.of_nat (length (n_cols (st_kvs x)))) s) eqn:Es; cbn [andb].
    + apply inside_spec in Es. rewrite lookup_app_r by lia. replace (Z.to_nat s - length (history before q))%nat with (Z.to_nat (s - st_prefix x)) by lia.
      rewrite entries_lookup by (done || lia). by rewrite Z2Nat.id by lia.
    + assert (¬ (st_prefix x ≤ s)) by (intros ?; assert (inside (st_prefix x) (Z.of_nat (length (n_cols (st_kvs x)))) s = true) by (apply inside_spec; lia); congruence).
      rewrite lookup_app_l by lia. apply Hm; [lia|done|unfold zlen; lia].
  - cbn [andb]. unfold zlen in *. rewrite lookup_app_l by lia. apply Hm; [lia|done|unfold zlen; lia].
Qed.

Lemma slab_steps_spec steps : ∀ before c m, slab_of c S (n * H) m → holds m (history before) →
  (∀ i x, steps !! i = Some x → step_fits (before ++ take i steps) x) → ∃ c' reads,
  run_steps steps c = (c', Ok reads) ∧ length reads = length steps ∧
  ∀ i x, steps !! i = Some x → ∃ read, reads !! i = Some read ∧ read_ok (history (before ++ take i steps)) x read.
Proof.
  induction steps as [|x steps IH]; intros before c m Hc Hm Hok; [by exists c, []|]. cbn [run_steps].
  pose proof (Hok O x eq_refl) as Hx. cbn [take] in Hx. rewrite app_nil_r in Hx.
  destruct (run_step_spec c m before x Hc Hm Hx) as (c1 & m1 & read & E1 & Hc1 & Hm1 & Hread).
  destruct (IH (before ++ [x]) c1 m1 Hc1 Hm1) as (c' & reads & E & Hlen & Hreads).
  { intros i y Hy. rewrite <-app_assoc. by apply (Hok (Datatypes.S i)). }
  exists c', (read :: reads). rewrite (bind_ok _ _ _ _ _ E1), (bind_ok _ _ _ _ _ E). split; [done|]. split; [cbn; by rewrite Hlen|].
  intros [|i] y Hy.
  - injection Hy as <-. exists read. cbn [take]. by rewrite app_nil_r.
  - destruct (Hreads i y Hy) as (r & ? & Hr). exists r. split; [done|]. by rewrite <-app_assoc in Hr.
Qed.
End steps.
Arguments step : clear implicits.

(** ** Allocated caches *)

(** A cache with fewer sequences than the batch is one of whole working slots: every micro-batch has room in its slot. *)
Lemma multiplexed_cache_valid env p H slab_of full_of c k batch_size logical force n :
  0 < H → 0 < get_micro_batch_size env → gpu_batch_size p = get_micro_batch_size env →
  alloc_batch_size env p batch_size logical force = Ok n → sl_bh (slab_of c) = n * H → full_of c = default batch_size logical →
  0 < default batch_size logical → n < full_of c → is_Some (compute_micro_batch_ranges env (full_of c) !! k) → valid p H env slab_of full_of c k.
Proof.
  intros HH Hmb Hp Ha Hbh Hfull Hpos Hlt [[a b] Hk]. split; [by eexists|].
  assert (n = get_micro_batch_size env * Z.max 1 (num_gpu_batches p)) as Hn.
  { unfold alloc_batch_size in Ha. assert ((match logical with Some n => if 0 <? n then n else batch_size | None => batch_size end) = full_of c) as El.
    { rewrite Hfull. destruct logical as [l|]; [|done]. cbn in *. by rewrite (proj2 (Z.ltb_lt 0 l)). }
    rewrite El in Ha. cbn in Ha. destruct force; [injection Ha; lia|]. destruct (_ && _); [injection Ha as <-; lia|].
    destruct (_ <? _); [done|injection Ha; lia]. }
  unfold slot_of, cap, size1. rewrite Hbh, Z.div_mul by lia. unfold get_working_slot_batch_size. rewrite Hp, Z.max_r by lia.
  set (slots := Z.max 1 (num_gpu_batches p)) in *. set (mb := get_micro_batch_size env) in *.
  assert (1 ≤ slots) as Hslots by (unfold slots; lia).
  assert (get_working_slot_count p n = slots) as Hcount.
  { unfold get_working_slot_count, get_working_slot_batch_size. rewrite Hp, (Z.max_r 1 mb) by lia. fold slots.
    assert ((n + mb - 1) / mb = slots) as ->; [|rewrite (proj2 (Z.leb_gt n 0)) by nia; lia]. rewrite Hn. symmetry. apply (Z.div_unique_pos _ _ _ (mb - 1)); lia. }
  rewrite Hcount. pose proof (Z.mod_pos_bound (Z.of_nat k) slots ltac:(lia)).
  assert (size_of env full_of c k ≤ mb) as Hsz.
  { unfold size_of, range_of. rewrite Hk. cbn. unfold compute_micro_batch_ranges in Hk. destruct (_ <=? 0); [done|]. fold mb in Hk. rewrite (proj2 (Z.leb_gt _ _)) in Hk by done.
    apply ranges_from_lookup in Hk as (? & ? & ?); [lia|done]. }
  assert (mb ≤ n - Z.of_nat k mod slots * mb) by nia. lia.
Qed.

(** C39: the attention cache of a session whose sequences all have rows of their own, as the handler sizes it and the
    devices lay it out, on one device or with a part in host memory: whatever the order of the steps, however they
    cut the batch, no step raises, and each reads exactly what the earlier steps have written of its sequences. *)
Theorem allocated_cache_keeps_entries {V} env p cfg H kv batch_size logical force max_length n c (steps : list (step V)) :
  0 < kv ≤ H → alloc_batch_size env p batch_size logical force = Ok n →
  allocate_cache env p batch_size logical force H max_length = Ok (Some c) →
  (∀ i x, steps !! i = Some x → step_fits cfg H kv (Z.max 1 max_length) n (take i steps) x) →
  ∃ c' reads, run_steps p cfg H steps c = (c', Ok reads) ∧ length reads = length steps ∧
    ∀ i x, steps !! i = Some x → ∃ read, reads !! i = Some read ∧
      match read with
      | None => st_prefix x = 0
      | Some (t, sequences, heads) => st_size x ≤ sequences ∧ heads = H ∧ t_s t = st_prefix x ∧ t_bh t = sequences * H ∧
          ∀ s b h, 0 ≤ s < st_prefix x → 0 ≤ b < st_size x → 0 ≤ h < kv →
            t_at t s (b * H + h) = history kv (take i steps) (st_offset x + b) !! Z.to_nat s ≫= (.!! Z.to_nat h)
      end.
Proof.
  intros Hkv Hn Hc Hok. unfold allocate_cache in Hc. rewrite Hn in Hc. apply init_cache_slab in Hc.
  destruct (slab_steps_spec p cfg H kv Hkv (Z.max 1 max_length) n steps [] c _ Hc) as (c' & reads & E & Hlen & Hreads); [|exact Hok|].
  { intros q s h _ _ Hs. unfold history, zlen in Hs. cbn in Hs. lia. }
  exists c', reads. split_and!; [done..|]. intros i x Hx. destruct (Hreads i x Hx) as ([[[t k] h]|] & ? & Hr); eexists; (split; [done|]); exact Hr.
Qed.

(** ** Examples: four sequences of two heads, one of them written, half of the cache in host memory *)

Definition ex_policy : policy := mkPolicy 4 1 50 50 0 false.
Definition ex_block : block_config := mkBlockConfig None (Some 2) 8.
Definition ex_env : environ := λ _, None.
Definition ex_cache : cache Z :=
  match allocate_cache ex_env ex_policy 4 None false 2 5 with Ok (Some c) => c | _ => Plain (mkTensor 0 0 (λ _ _, None)) end.
(** The middle two sequences first, across the border, then the outer ones, then all *)
Definition ex_steps : list (step Z) :=
  [mkStep 1 2 4 0 (mkKvs 2 [[11; 12]; [13; 14]]); mkStep 0 1 4 0 (mkKvs 1 [[21]; [22]]); mkStep 3 1 4 0 (mkKvs 1 [[31]; [32]]);
   mkStep 0 4 4 2 (mkKvs 4 [[41; 42; 43; 44]])].

Lemma ex_steps_fit i x : ex_steps !! i = Some x → step_fits ex_block 2 1 5 4 (take i ex_steps) x.
Proof.
  destruct i as [|[|[|[|i]]]]; [..|done]; (intros [= <-]; split; cbn;
    [lia|lia|lia| |done|repeat first [apply List.Forall_nil|apply List.Forall_cons]; done|done|vm_compute; discriminate]).
  - done.
  - intros q Hq. replace q with 0 by lia. done.
  - intros q Hq. replace q with 3 by lia. done.
  - intros q Hq. assert (q = 0 ∨ q = 1 ∨ q = 2 ∨ q = 3) as [->|[->|[->| ->]]] by lia; done.
Qed.

Definition ex_run : cache Z * res (list (option (tensor Z * Z * Z))) := run_steps ex_policy ex_block 2 ex_steps ex_cache.

Lemma ex_shapes : fmap (M := list) (fmap (M := option) (λ r, (r.1.2, r.2))) <$> snd ex_run = Ok [None; None; None; Some (4, 2)].
Proof. vm_compute. reflexivity. Qed.

Lemma allocated_cache_keeps_entries_witness : ∃ c' reads, run_steps ex_policy ex_block 2 ex_steps ex_cache = (c', Ok reads) ∧
  ∃ t, reads !! 3%nat = Some (Some (t, 4, 2)) ∧ t_at t 1 (2 * 2 + 0) = Some 14.
Proof.
  destruct (allocated_cache_keeps_entries ex_env ex_policy ex_block 2 1 4 None false 5 4 ex_cache ex_steps) as (c' & reads & E & _ & Hr);
    [lia|reflexivity|reflexivity|exact ex_steps_fit|].
  exists c', reads. split; [exact E|]. assert (Hx := Hr 3%nat _ eq_refl). destruct Hx as (read & Hl & Hx). destruct read as [[[t k] h]|]; [|discriminate].
  cbn [st_size st_prefix st_offset] in Hx. destruct Hx as (Hk & -> & _ & Hb & Hx). exists t. rewrite (Hx 1 2 0) by lia. split; [|reflexivity].
  rewrite Hl. pose proof ex_shapes as E3. unfold ex_run in E3. rewrite E in E3. cbn in E3. injection E3 as E3.
  apply (f_equal (.!! 3%nat)) in E3. rewrite list_lookup_fmap, Hl in E3. by injection E3 as ->.
Defined.

(** The batched write of speculative decoding goes through [general_copy], which cuts the target and the source at the
    same rows: on this cache the first sequence already leaves an empty source for rows of the other segment. *)
Lemma batched_write_fails_on_mixed :
  snd (write_batched 2 (tensor_of [[1; 2; 3; 4; 5; 6; 7; 8]] 8) 0 [0; 0; 0; 0] ex_cache) = Raise RuntimeError ∧
  snd (write_batched 2 (tensor_of [[1; 2; 3; 4; 5; 6; 7; 8]] 8) 0 [0; 0; 0; 0] (Plain (mkTensor 5 8 (λ _ _, None)))) = Ok tt.
Proof. split; vm_compute; reflexivity. Qed.

(** A cache in host memory alone: the copy of more than one position is queued for a thread ([submit_copy]), whose copies
    run on a stream of its own ([copy_worker_func]), and nothing waits for it. *)
Definition host_copy {V} (c start row n k : Z) (cols : list (list V)) : M (@manager V) nat :=
  launch (if 1 <? zlen cols then Offload else Compute) [] (write_slab c start row n k 0 (zlen cols) k cols).
Definition host_read {V} (c row k prefix : Z) : M (@manager V) nat :=
  w ← get; launch Compute [] (read_slab (d_next (k_device w)) c row k prefix).

Definition ex_host : @manager Z * res nat := (host_copy 7 0 0 2 1 [[11]; [12]] ;; host_read 7 0 1 2) (new_manager (λ _, 0) []).

(** The read comes first, or the write does. *)
Lemma host_prefill_races : snd ex_host = Ok 1%nat ∧
  (let d := run [1; 0]%nat (k_device (fst ex_host)) in d_pending d = [] ∧ d_memory d (Out 1 0 0) = 0) ∧
  (let d := run [0; 0]%nat (k_device (fst ex_host)) in d_pending d = [] ∧ d_memory d (Out 1 0 0) = 11).
Proof. split_and!; vm_compute; repeat split. Qed.
