(* ===== verification/StepWire.v ===== *)
(** * The messages of a step along a chain (client/inference_session.py, server/block_functions.py,
    server/handler.py)

    A client sends each server of a chain the tensors and the metadata of a step, and a server that
    has computed one pushes a request of its own to the next, built from its outputs, the metadata of
    the step and the first request of its session. The next server takes whichever comes first
    (StepIterator.v), so both have to say the same. They do as long as the tensors that a push takes from the first
    request are those of the step; the examples at the end show steps where they are not.

    The tensors are a parameter. A view is what a server reads of a request before it computes; the
    restoring of pruned vectors is in SpecRestore.v, the replay of a session's history in
    InferenceSession.v, micro-batches in Microbatch.v and PushHandler.v. Dtypes and fields that only carry timings are left out. *)

From stdpp Require Import base numbers strings list.
From Stdlib Require Import ZArith Lia.
From S2P Require Import Prelude Dict PyStr PyVal PrefixHandoff LiveSession.

Open Scope string_scope.
Open Scope list_scope.
Open Scope Z_scope.

Section wire.
Context {T : Type} (shape : T → list Z).
(** [DUMMY], [DUMMY_INT64], [torch.empty(0, dtype=bool)], [torch.tensor(0)] and [torch.tensor([])] *)
Context (DUMMY DUMMY_INT64 EMPTY_BOOL ZERO EMPTY : T).
(** [t.bool().any()], and the first item of a tensor *)
Context (any_true : T → bool) (item0 : T → Z).

Definition numel (l : list Z) : Z := foldr Z.mul 1 l.
Definition is_dummy (t : T) : bool := numel (shape t) =? 0.
Definition normalize_arg (x : option T) : T := default EMPTY x.
Definition dim (i : nat) (t : T) : Z := default 0 (shape t !! i).

(** ** The client *)

(** The arguments of [_ServerInferenceSession.step] *)
Record step_args := mkArgs {
  a_inputs : T; a_prompts : T; a_hypo_ids : T;
  a_tree_attention_mask : option T; a_kv_cache_position_ids : option T; a_draft_tokens : option T;
  a_prefill_length : option T; a_keep_indices : option T;
  a_need_pruning : bool; a_is_spec_dec : bool; a_step_id : value;
}.

(** A session with one server, as far as a request reads it *)
Record server_session := mkServer {
  s_peer : string; s_id : string; s_start : Z; s_end : Z;
  s_stepped : bool; s_metadata : metadata; s_position : Z;
  s_staged : option staged_batch;
}.

Definition infer_batch_dim (x : option T) : Z :=
  match x with None => 0 | Some t => if is_dummy t then 0 else match shape t with [] => 1 | n :: _ => n end end.

Definition n_input_tokens (a : step_args) : Z :=
  if a_is_spec_dec a then match a_kv_cache_position_ids a with None => 0 | Some t => numel (tail (shape t)) end
  else dim 1 (a_inputs a).

(** The part of the batch that a staged tick names *)
Definition live_full_batch_size (s : server_session) : Z :=
  let of_session := to_int (get_default (s_metadata s) "live_continuous_full_batch_size" (VInt 0)) 0 in
  match s_staged s with Some b => default of_session (st_full_batch_size b) | None => of_session end.
Definition live_batch_offset (s : server_session) : Z := match s_staged s with Some b => default 0 (st_batch_offset b) | None => 0 end.
Definition live_microbatch_active (s : server_session) (a : step_args) : bool :=
  (0 <? live_full_batch_size s) && ((dim 0 (a_inputs a) <? live_full_batch_size s) || (0 <? live_batch_offset s)).
Definition live_position (s : server_session) (a : step_args) : Z :=
  if live_microbatch_active s a then
    match a_prefill_length a with None => s_position s | Some t => if is_dummy t then s_position s else item0 t end
  else s_position s.

Definition logical_full_batch_size (s : server_session) (a : step_args) : Z :=
  foldr Z.max 1 [infer_batch_dim (Some (a_inputs a)); infer_batch_dim (Some (a_hypo_ids a)); infer_batch_dim (a_keep_indices a);
    infer_batch_dim (a_prefill_length a); infer_batch_dim (a_draft_tokens a); infer_batch_dim (a_tree_attention_mask a);
    to_int (get_default (s_metadata s) "live_continuous_full_batch_size" (VInt 0)) 0; live_full_batch_size s].

(** The tensors of a request and their layout *)
Definition request_tensors (a : step_args) : list T * string :=
  if a_is_spec_dec a then
    ([a_inputs a; normalize_arg (a_keep_indices a); normalize_arg (a_tree_attention_mask a); normalize_arg (a_kv_cache_position_ids a);
      normalize_arg (a_draft_tokens a); normalize_arg (a_prefill_length a); a_prompts a; a_hypo_ids a], "spec_compact_v1")
  else if negb (is_dummy (a_prompts a)) || negb (is_dummy (a_hypo_ids a)) then
    ([a_inputs a; normalize_arg (a_keep_indices a); normalize_arg (a_prefill_length a); a_prompts a; a_hypo_ids a], "decode_compact_v2")
  else ([a_inputs a; normalize_arg (a_keep_indices a); normalize_arg (a_prefill_length a)], "decode_minimal_v2").

Definition set_if (b : bool) (k : string) (v : value) (md : metadata) : metadata := if b then dict_set md k v else md.

(** [_collect_next_servers] gives the sessions behind that have stepped; in the metadata they are lists of four. *)
Definition server_value (s : server_session) : value := VList [VStr (s_peer s); VStr (s_id s); VInt (s_start s); VInt (s_end s)].
Fixpoint next_servers (behind : list server_session) : list value :=
  match behind with
  | [] => []
  | s :: behind => if s_stepped s then server_value s :: next_servers behind else []
  end.

(** The live fields of a staged tick *)
Definition live_fields (b : staged_batch) (md : metadata) : metadata :=
  let md := dict_set md "live_continuous_batching" (VDict (consume_live_metadata b)) in
  let md := match st_batch_offset b with Some n => dict_set md "batch_offset" (VInt n) | None => md end in
  let md := match st_full_batch_size b with Some n => dict_set md "full_batch_size" (VInt n) | None => md end in
  let md := match st_micro_batch_size b with Some n => dict_set md "micro_batch_size" (VInt n) | None => md end in
  match dict_get md "full_batch_size" with Some (VInt n) => dict_set md "live_continuous_full_batch_size" (VInt n) | _ => md end.

Definition request_metadata (use_server_to_server : bool) (s : server_session) (behind : list server_session) (a : step_args) : metadata :=
  let md := [("session_id", VStr (s_id s)); ("step_id", a_step_id a)] in
  let md := if s_stepped s then md else dict_update md (s_metadata s) in
  let md := match dict_get (s_metadata s) "kv_prefix_reuse" with Some (VDict d) => dict_set md "kv_prefix_reuse" (VDict d) | _ => md end in
  let md := set_if (a_is_spec_dec a) "is_spec_dec" (VInt 1) md in
  let md := set_if (a_need_pruning a) "need_pruning" (VInt 1) md in
  let md := dict_set md "full_batch_size" (VInt (logical_full_batch_size s a)) in
  let md := dict_set md "micro_batch_size" (VInt (dim 0 (a_inputs a))) in
  let md := dict_set md "inference_layout" (VStr (request_tensors a).2) in
  let start := if a_is_spec_dec a then s_position s + n_input_tokens a else live_position s a in
  let md := dict_set md "start_from_position" (VInt start) in
  let next := next_servers behind in
  let md := set_if (use_server_to_server && negb (bool_decide (next = []))) "next_servers" (VList next) md in
  match s_staged s with Some b => live_fields b md | None => md end.

(** ** The server *)

(** What [iterate_rpc_inference] reads of a request before it computes *)
Record step_view := mkView {
  v_hidden : T; v_keep : T; v_prefill : T; v_prompts : T; v_hypo : T;
  v_tree : option T; v_kv_positions : option T; v_draft : option T;
  v_is_spec_dec : bool; v_need_pruning : bool;
  v_position : Z; v_batch : fullbatch; v_active_mask : option (list bool); v_step_id : option value;
}.

Definition inferred_layout (md : metadata) (flat : list T) : string :=
  match dict_get md "inference_layout" with
  | Some (VStr l) => l
  | Some VNone | None =>
      let spec := truthy (get_default md "is_spec_dec" (VInt 0)) in
      if negb spec && (length flat =? 3)%nat then "decode_minimal_v2"
      else if negb spec && (length flat =? 5)%nat then "decode_compact_v2"
      else if spec && (length flat =? 8)%nat then "spec_compact_v1" else ""
  | _ => ""
  end.

(** [pruner]: whether the server has a pruner; [prefix_length]: that of the steps before *)
Definition read_request (pruner : bool) (prefix_length max_length : Z) (flat : list T) (md : metadata) : res step_view :=
  position ← match dict_get md "start_from_position" with Some v => py_int_of v | None => Ok prefix_length end;
  let layout := inferred_layout md flat in
  fields ← (if String.eqb layout "decode_minimal_v2" then
      match flat with h :: k :: p :: _ => Ok (h, k, p, DUMMY, DUMMY_INT64, None, None, None) | _ => Raise ValueError end
    else if String.eqb layout "decode_compact_v2" then
      match flat with h :: k :: p :: pr :: hy :: _ => Ok (h, k, p, pr, hy, None, None, None) | _ => Raise ValueError end
    else if String.eqb layout "spec_compact_v1" then
      match flat with
      | h :: k :: tr :: kv :: d :: p :: pr :: hy :: _ => Ok (h, k, p, pr, hy, Some tr, Some kv, if is_dummy d then None else Some d)
      | _ => Raise ValueError
      end
    else Raise ValueError);
  let '(hidden, keep, prefill, prompts, hypo, tree, kv_positions, draft) := fields in
  let is_spec_dec := truthy (get_default md "is_spec_dec" (VInt 0)) in
  let need_pruning := truthy (get_default md "need_pruning" (VInt 0)) && pruner in
  if negb (length (shape hidden) =? 3)%nat then Raise ValueError
  else
    let increment := match kv_positions with
      | Some kv => if is_spec_dec && negb (is_dummy kv) then numel (tail (shape kv)) else dim 1 hidden
      | None => dim 1 hidden end in
    if max_length <? position + increment then Raise ValueError
    else
      let batch_size := dim 0 hidden in
      Ok (mkView hidden keep prefill prompts hypo tree kv_positions draft is_spec_dec need_pruning position
            (fullbatch_metadata_kwargs md batch_size) (live_active_mask_from_step_metadata md batch_size) (dict_get md "step_id")).

Definition optional_output (x : option T) (empty : T) : T := match x with Some t => if is_dummy t then empty else t | None => empty end.

(** The tensors that a step yields, for its last vectors and kept positions *)
Definition output_tensors (v : step_view) (hidden keep : T) : list T :=
  if v_is_spec_dec v then
    [hidden; keep; ZERO; optional_output (v_tree v) EMPTY_BOOL; optional_output (v_kv_positions v) DUMMY_INT64; optional_output (v_draft v) DUMMY]
  else [hidden; keep].
(** [can_push] *)
Definition can_push (v : step_view) : bool := is_dummy (v_prompts v).

(** ** The push *)

(** The metadata of a step that travel on *)
Definition forwarded_keys : list string :=
  ["step_id"; "max_length"; "is_spec_dec"; "prefill_length"; "full_batch_size"; "micro_batch_size"; "inference_layout"; "start_from_position";
   "points"; "active_adapter"].
Definition forward (md next : metadata) : metadata :=
  foldl (λ acc k, match dict_get md k with Some v => dict_set acc k v | None => acc end) next forwarded_keys.

Definition nth_tensor (l : list T) (i : nat) : res T := of_option IndexError (l !! i).

(** [_push_outputs]: [first] has the tensors of the first request of the session, the one that [rpc_inference] holds. The
    target is a peer, a session and a range of blocks. *)
Definition push_outputs (first outputs : list T) (md : metadata) : res (option (list value * list T * metadata)) :=
  match dict_get md "next_servers" with
  | Some (VList (VList target :: behind)) =>
      let layout := dict_get md "inference_layout" in
      pushed ← match outputs with
        | [h; k] =>
            if is_str layout "decode_minimal_v2" then p ← nth_tensor first 2; Ok ([h; k; p], false)
            else Ok (h :: k :: drop 2 first, false)
        | [h; k; need; tree; kv; draft] =>
            if is_str layout "spec_compact_v1" then
              p ← nth_tensor first 5; pr ← nth_tensor first 6; hy ← nth_tensor first 7;
              Ok ([h; k; tree; kv; draft; p; pr; hy], (0 <? numel (shape need)) && any_true need)
            else Ok (outputs ++ drop 6 first, false)
        | _ => Raise ValueError
        end;
      let next := [("session_id", nth 1 target VNone); ("pushed", VBool true)] in
      let next := match behind with [] => next | _ => dict_set next "next_servers" (VList behind) end in
      let next := forward md next in
      Ok (Some (target, pushed.1, set_if pushed.2 "need_pruning" (VInt 1) next))
  | _ => Ok None
  end.
End wire.

(** ** Chains *)

Section chain.
Context {T : Type} (shape : T → list Z).
Context (DUMMY DUMMY_INT64 EMPTY_BOOL ZERO EMPTY : T) (any_true : T → bool) (item0 : T → Z).

Notation is_dummy := (is_dummy shape).
Notation request_tensors := (request_tensors shape EMPTY).
Notation request_metadata := (request_metadata shape EMPTY item0).
Notation read_request := (read_request shape DUMMY DUMMY_INT64).
Notation push_outputs := (push_outputs shape any_true).
Notation output_tensors := (output_tensors shape DUMMY DUMMY_INT64 EMPTY_BOOL ZERO).
Implicit Types (a : @step_args T) (s : server_session) (md : metadata).

(** A server of the chain: the client's session with it, the tensors of the session's first request, and what its blocks
    make of a step: the last vectors and the kept positions *)
Record node := mkNode {
  n_session : server_session;
  n_first : list T;
  n_run : @step_view T → T * T;
  n_pruner : bool;
  n_max_length : Z;
}.

Definition node_view (n : node) (flat : list T) md : res step_view := read_request (n_pruner n) 0 (n_max_length n) flat md.

(** A step that enters at the first server and is pushed on: what every server reads *)
Fixpoint relay (nodes : list node) (flat : list T) md : list (res step_view) :=
  match nodes with
  | [] => []
  | n :: behind =>
      let view := node_view n flat md in
      view ::
      match view with
      | Raise _ => []
      | Ok v =>
          let out := n_run n v in
          if can_push shape v then
            match push_outputs (n_first n) (output_tensors v out.1 out.2) md, behind with
            | Ok (Some ([_; VStr id; _; _], flat', md')), n' :: _ => if String.eqb id (s_id (n_session n')) then relay behind flat' md' else []
            | _, _ => []
            end
          else []
      end
  end.

(** The client's arguments for the next server *)
Definition next_args a (out : T * T) : step_args :=
  mkArgs out.1 (a_prompts a) (a_hypo_ids a) (a_tree_attention_mask a) (a_kv_cache_position_ids a) (a_draft_tokens a) (a_prefill_length a)
    (if a_is_spec_dec a && a_need_pruning a then Some out.2 else a_keep_indices a) false (a_is_spec_dec a) (a_step_id a).

(** The same step sent to every server by the client *)
Fixpoint direct (nodes : list node) a : list (res step_view) :=
  match nodes with
  | [] => []
  | n :: behind =>
      let view := node_view n (request_tensors a).1 (request_metadata true (n_session n) (map n_session behind) a) in
      view :: match view with Raise _ => [] | Ok v => direct behind (next_args a (n_run n v)) end
  end.

(** ** What a request's metadata say *)

Definition read_keys : list string :=
  ["step_id"; "is_spec_dec"; "need_pruning"; "full_batch_size"; "micro_batch_size"; "inference_layout"; "start_from_position"; "next_servers";
   "batch_offset"; "offset"; "size"; "kv_prefix_reuse_server_observed"; "live_continuous_batching"].
Definition agree md md' : Prop := Forall (λ k, dict_get md k = dict_get md' k) read_keys.

Lemma agree_get k md md' : agree md md' → k ∈ read_keys → dict_get md k = dict_get md' k.
Proof. intros Ha Hk. unfold agree in Ha. rewrite Forall_forall in Ha. by apply Ha. Qed.

Ltac in_keys := unfold read_keys, forwarded_keys; repeat (apply list_elem_of_here || apply list_elem_of_further).
Ltac agree_rewrite H := rewrite ?(agree_get _ _ _ H) by (in_keys).

Lemma fullbatch_agree md md' b : agree md md' → fullbatch_metadata_kwargs md b = fullbatch_metadata_kwargs md' b.
Proof.
  intros Ha. unfold fullbatch_metadata_kwargs, kv_prefix_reuse_metadata_kwargs, get_default.
  rewrite (agree_get "full_batch_size" _ _ Ha), (agree_get "micro_batch_size" _ _ Ha), (agree_get "batch_offset" _ _ Ha), (agree_get "offset" _ _ Ha),
    (agree_get "size" _ _ Ha), (agree_get "kv_prefix_reuse_server_observed" _ _ Ha) by in_keys. done.
Qed.

Lemma active_mask_agree md md' b : agree md md' → live_active_mask_from_step_metadata md b = live_active_mask_from_step_metadata md' b.
Proof.
  intros Ha. unfold live_active_mask_from_step_metadata, get_default.
  by rewrite (agree_get "live_continuous_batching" _ _ Ha), (agree_get "micro_batch_size" _ _ Ha), (agree_get "batch_offset" _ _ Ha) by in_keys.
Qed.

Lemma node_view_agree n flat md md' : agree md md' → node_view n flat md = node_view n flat md'.
Proof.
  intros Ha. unfold node_view, read_request, inferred_layout, get_default.
  rewrite (agree_get "start_from_position" _ _ Ha), (agree_get "inference_layout" _ _ Ha), (agree_get "is_spec_dec" _ _ Ha),
    (agree_get "need_pruning" _ _ Ha), (agree_get "step_id" _ _ Ha) by in_keys.
  destruct (match dict_get md' "start_from_position" with Some v => _ | None => _ end) as [position|]; [|done]. cbn.
  match goal with |- mbind _ ?x = _ => destruct x as [[[[[[[[h k] p] pr] hy] tree] kv] draft]|]; [|done] end. cbn.
  by rewrite (fullbatch_agree _ _ _ Ha), (active_mask_agree _ _ _ Ha).
Qed.

Lemma forward_get md next k : dict_get (forward md next) k =
  if decide (k ∈ forwarded_keys) then match dict_get md k with Some v => Some v | None => dict_get next k end else dict_get next k.
Proof.
  unfold forward. generalize forwarded_keys. intros keys. revert next. induction keys as [|j keys IH]; intros next; [done|]. cbn [foldl]. rewrite IH. clear IH.
  assert (dict_get (match dict_get md j with Some v => dict_set next j v | None => next end) k
    = if decide (j = k) then match dict_get md j with Some v => Some v | None => dict_get next k end else dict_get next k) as ->.
  { destruct (dict_get md j); [by rewrite dict_get_set|by destruct (decide (j = k))]. }
  destruct (decide (j = k)) as [->|Hne].
  - rewrite (decide_True (P := k ∈ k :: keys)) by left. destruct (decide (k ∈ keys)); destruct (dict_get md k); done.
  - destruct (decide (k ∈ keys)) as [Hin|Hin]; [by rewrite (decide_True (P := k ∈ j :: keys)) by by right|].
    rewrite decide_False; [done|]. intros [->|?]%elem_of_cons; done.
Qed.

(** The metadata of a client's request to a server that has stepped, without a staged tick *)
Definition expected s (behind : list server_session) a (k : string) : option value :=
  if String.eqb k "step_id" then Some (a_step_id a)
  else if String.eqb k "is_spec_dec" then if a_is_spec_dec a then Some (VInt 1) else None
  else if String.eqb k "need_pruning" then if a_need_pruning a then Some (VInt 1) else None
  else if String.eqb k "full_batch_size" then Some (VInt (logical_full_batch_size shape s a))
  else if String.eqb k "micro_batch_size" then Some (VInt (dim shape 0 (a_inputs a)))
  else if String.eqb k "inference_layout" then Some (VStr (request_tensors a).2)
  else if String.eqb k "start_from_position" then
    Some (VInt (if a_is_spec_dec a then s_position s + n_input_tokens shape a else live_position shape item0 s a))
  else if String.eqb k "next_servers" then match next_servers behind with [] => None | l => Some (VList l) end
  else None.

(** An open session of ordinary steps: it has stepped, and no rows arrive late in it. *)
Record plain_session s : Prop := mkPlain {
  pl_stepped : s_stepped s = true;
  pl_staged : s_staged s = None;
  pl_live : dict_get (s_metadata s) "live_continuous_full_batch_size" = None;
  pl_reuse : dict_get (s_metadata s) "kv_prefix_reuse" = None;
}.

Lemma set_if_get b k v md k' : dict_get (set_if b k v md) k' = if b && bool_decide (k = k') then Some v else dict_get md k'.
Proof. unfold set_if. destruct b; [|done]. rewrite dict_get_set. by repeat case_decide || case_bool_decide. Qed.

Lemma request_metadata_get s behind a k : plain_session s → k ∈ read_keys → dict_get (request_metadata true s behind a) k = expected s behind a k.
Proof.
  intros [Hs Hst Hl Hr] Hk. unfold request_metadata. rewrite Hs, Hst, Hr. cbn [andb].
  unfold read_keys in Hk. unfold expected.
  repeat (apply elem_of_cons in Hk as [->|Hk]; [rewrite ?set_if_get, ?dict_get_set; cbn; repeat (rewrite ?set_if_get, ?dict_get_set; cbn); destruct (next_servers behind), (a_is_spec_dec a), (a_need_pruning a); try reflexivity|]).
  by apply elem_of_nil in Hk.
Qed.

Context (Hdummy : is_dummy DUMMY = true) (Hzero : any_true ZERO = false).

(** A step without deep prompts; a speculative one has its tree, positions and draft. *)
Record pushable a : Prop := mkPushable {
  pa_prompts : is_dummy (a_prompts a) = true;
  pa_keep : is_Some (a_keep_indices a);
  pa_spec : a_is_spec_dec a = true → ∃ tree kv draft, a_tree_attention_mask a = Some tree ∧ a_kv_cache_position_ids a = Some kv ∧ a_draft_tokens a = Some draft ∧
    is_dummy tree = false ∧ is_dummy kv = false ∧ is_dummy draft = false;
}.

(** The batch is the same along the chain, and only a step that prunes changes the kept positions. *)
Definition runs_whole (n : node) : Prop := ∀ v, let out := n_run n v in
  (v_is_spec_dec v && v_need_pruning v = false → out.2 = v_keep v) ∧ dim shape 0 out.1 = dim shape 0 (v_hidden v) ∧
  infer_batch_dim shape (Some out.1) = infer_batch_dim shape (Some (v_hidden v)) ∧ infer_batch_dim shape (Some out.2) = infer_batch_dim shape (Some (v_keep v)).

(** The tensors of a step that no server computes, those of the first request included, are the same all along. *)
Definition same_rest a (n : node) : Prop :=
  let k := if a_is_spec_dec a then 5%nat else 2%nat in drop k (n_first n) = drop k (request_tensors a).1.

Lemma view_of_request n s behind a md v : plain_session s → pushable a → agree md (request_metadata true s behind a) →
  node_view n (request_tensors a).1 md = Ok v →
  v_hidden v = a_inputs a ∧ v_keep v = normalize_arg EMPTY (a_keep_indices a) ∧ v_is_spec_dec v = a_is_spec_dec a ∧ can_push shape v = true ∧
  v_need_pruning v = a_need_pruning a && n_pruner n ∧
  (a_is_spec_dec a = true → v_tree v = a_tree_attention_mask a ∧ v_kv_positions v = a_kv_cache_position_ids a ∧ v_draft v = a_draft_tokens a).
Proof.
  intros Hs Hp Ha. unfold node_view, read_request, inferred_layout, get_default, can_push.
  rewrite (agree_get "start_from_position" _ _ Ha), (agree_get "inference_layout" _ _ Ha), (agree_get "is_spec_dec" _ _ Ha), (agree_get "need_pruning" _ _ Ha) by in_keys.
  rewrite !request_metadata_get by (done || in_keys). cbn [expected String.eqb Ascii.eqb Bool.eqb default py_int_of mbind res_bind].
  assert (truthy (default (VInt 0) (if a_need_pruning a then Some (VInt 1) else None)) = a_need_pruning a) as -> by by destruct (a_need_pruning a).
  unfold StepWire.request_tensors. destruct (a_is_spec_dec a) eqn:Esp; [|destruct (_ || _) eqn:Ep]; cbn.
  - destruct (pa_spec _ Hp Esp) as (tree & kv & draft & -> & -> & -> & Ht & Hk & Hd). cbn. rewrite Hd.
    destruct (negb (length _ =? _)%nat); [done|]. destruct (_ <? _); [done|]. intros [= <-]. cbn. split_and!; try done; apply Hp.
  - destruct (negb (length _ =? _)%nat); [done|]. destruct (_ <? _); [done|]. intros [= <-]. cbn. split_and!; try done; apply Hp.
  - destruct (negb (length _ =? _)%nat); [done|]. destruct (_ <? _); [done|]. intros [= <-]. cbn. split_and!; done.
Qed.

Lemma next_tensors a out : pushable a → (a_is_spec_dec a && a_need_pruning a = false → out.2 = normalize_arg EMPTY (a_keep_indices a)) →
  request_tensors (next_args a out) = (out.1 :: out.2 :: drop 2 (request_tensors a).1, (request_tensors a).2) ∧ pushable (next_args a out).
Proof.
  intros [Hpr [k Hk] Hsp] Hout. split.
  - rewrite Hk in Hout. cbn in Hout. unfold StepWire.request_tensors. cbn. rewrite Hk.
    destruct (a_is_spec_dec a), (a_need_pruning a); cbn in *; rewrite ?Hout by done; try done; destruct (_ || _); cbn; by rewrite ?Hout by done.
  - split; cbn; [done| |done]. rewrite Hk. by destruct (_ && _).
Qed.

Lemma push_is_next n s s' behind a md v : plain_session s → plain_session s' → s_position s' = s_position s → pushable a → runs_whole n → same_rest a n →
  agree md (request_metadata true s (s' :: behind) a) → node_view n (request_tensors a).1 md = Ok v → ∃ md',
  push_outputs (n_first n) (output_tensors v (n_run n v).1 (n_run n v).2) md =
    Ok (Some ([VStr (s_peer s'); VStr (s_id s'); VInt (s_start s'); VInt (s_end s')], (request_tensors (next_args a (n_run n v))).1, md')) ∧
  agree md' (request_metadata true s' behind (next_args a (n_run n v))).
Proof.
  intros Hs Hs' Hpos Hp Hrun Hrest Ha Hv. destruct (view_of_request n s _ a md v Hs Hp Ha Hv) as (Hh & Hk & Hsp & _ & Hpr & Htree).
  destruct (Hrun v) as (Ho2 & Ho0 & Hob & Hok). rewrite Hk in Ho2, Hok. rewrite Hh in Ho0, Hob. rewrite Hsp, Hpr in Ho2.
  assert (a_is_spec_dec a && a_need_pruning a = false → (n_run n v).2 = normalize_arg EMPTY (a_keep_indices a)) as Ho2'.
  { intros H. apply Ho2. apply andb_false_iff in H as [E|E]; rewrite E; [done|by rewrite andb_false_r]. }
  clear Ho2 Hpr. set (out := n_run n v) in *.
  destruct (next_tensors a out Hp Ho2') as [Hnext Hp']. unfold StepWire.push_outputs.
  rewrite (agree_get "next_servers" _ _ Ha), (agree_get "inference_layout" _ _ Ha) by in_keys.
  rewrite !request_metadata_get by (done || in_keys). cbn [expected String.eqb Ascii.eqb Bool.eqb next_servers]. rewrite (pl_stepped _ Hs'). cbn [server_value].
  match goal with |- ∃ _, mbind ?f ?x = _ ∧ _ => assert (x = Ok ((request_tensors (next_args a out)).1, false)) as -> end.
  { rewrite Hnext. unfold same_rest in Hrest. unfold StepWire.output_tensors. rewrite Hsp. destruct (a_is_spec_dec a) eqn:Esp.
    - destruct (pa_spec _ Hp Esp) as (tree & kv & draft & Et & Ekv & Ed & Ht & Hkv & Hd). destruct (Htree eq_refl) as (-> & -> & ->).
      rewrite Et, Ekv, Ed. unfold optional_output. rewrite Ht, Hkv, Hd, Hzero, andb_false_r. revert Hrest. unfold StepWire.request_tensors. rewrite Esp, Et, Ekv, Ed. cbn.
      intros Hrest. unfold nth_tensor. pose proof (λ i, lookup_drop (n_first n) 5 i) as Hl. rewrite Hrest in Hl.
      pose proof (Hl 0%nat) as H5. pose proof (Hl 1%nat) as H6. pose proof (Hl 2%nat) as H7. cbn in H5, H6, H7. by rewrite <-H5, <-H6, <-H7.
    - cbn [is_str]. revert Hrest. unfold StepWire.request_tensors. rewrite Esp. destruct (_ || _); cbn; intros Hrest; [by rewrite Hrest|].
      unfold nth_tensor. pose proof (lookup_drop (n_first n) 2 0) as H2. rewrite Hrest in H2. cbn in H2. by rewrite <-H2. }
  cbn [mbind res_bind fst snd set_if]. eexists. split; [done|]. apply Forall_forall. intros k Hk'. rewrite forward_get, (request_metadata_get s') by done.
  assert (logical_full_batch_size shape s' (next_args a out) = logical_full_batch_size shape s a) as Hfull.
  { unfold logical_full_batch_size, live_full_batch_size, get_default. rewrite (pl_live _ Hs), (pl_live _ Hs'), (pl_staged _ Hs), (pl_staged _ Hs'). cbn -[infer_batch_dim Z.max].
    rewrite Hob. destruct (pa_keep _ Hp) as [k0 Hk0]. rewrite Hk0 in *. cbn [normalize_arg default from_option] in Hok. destruct (_ && _); by rewrite ?Hok. }
  assert (live_position shape item0 s' (next_args a out) = live_position shape item0 s a) as Hlive.
  { unfold live_position, live_microbatch_active, live_full_batch_size, get_default. rewrite (pl_live _ Hs), (pl_live _ Hs'), (pl_staged _ Hs), (pl_staged _ Hs'). cbn. done. }
  assert (dict_get md k = expected s (s' :: behind) a k) as Hmd by (rewrite (agree_get k _ _ Ha), request_metadata_get by done; done). rewrite Hmd. clear Hmd.
  unfold read_keys in Hk'.
  repeat (apply elem_of_cons in Hk' as [->|Hk']; [
    unfold expected; cbn -[logical_full_batch_size live_position dim StepWire.request_tensors n_input_tokens next_args];
    rewrite ?Hfull, ?Hlive, ?Hpos, ?Hnext; cbn -[logical_full_batch_size live_position dim StepWire.request_tensors]; rewrite ?Ho0; unfold n_input_tokens; cbn [next_args a_is_spec_dec a_kv_cache_position_ids]; destruct (next_servers behind), (a_is_spec_dec a); reflexivity|]).
  by apply elem_of_nil in Hk'.
Qed.

(** ** A pushed step *)

(** A server that a pushed step reaches as the client's would: its session is an ordinary one at the position of the others,
    it has the batch that it gets, and its first request had the tensors of this step that no server computes. *)
Definition reached (p : Z) a (n : node) : Prop := plain_session (n_session n) ∧ s_position (n_session n) = p ∧ runs_whole n ∧ same_rest a n.

(** A session that the client opened with a step like [a]: speculative or not as it is, with its prefill lengths, prompts and
    ancestors. The vectors, the trees, the drafts, the kept positions and the step may differ. *)
Definition opened_alike a (n : node) : Prop := ∃ a0, n_first n = (request_tensors a0).1 ∧ a_is_spec_dec a0 = a_is_spec_dec a ∧
  a_prefill_length a0 = a_prefill_length a ∧ a_prompts a0 = a_prompts a ∧ a_hypo_ids a0 = a_hypo_ids a.

Lemma opened_alike_rest a n : opened_alike a n → same_rest a n.
Proof.
  intros (a0 & Hf & Hsp & Hpl & Hpr & Hhy). unfold same_rest. rewrite Hf. unfold StepWire.request_tensors. rewrite Hsp, Hpl, Hpr, Hhy.
  destruct (a_is_spec_dec a); [done|]. by destruct (_ || _).
Qed.

Lemma same_rest_next a out n : pushable a → (a_is_spec_dec a && a_need_pruning a = false → out.2 = normalize_arg EMPTY (a_keep_indices a)) →
  same_rest a n → same_rest (next_args a out) n.
Proof.
  intros Hp Hout. unfold same_rest. destruct (next_tensors a out Hp Hout) as [-> _]. cbn [fst a_is_spec_dec next_args].
  intros ->. destruct (a_is_spec_dec a); cbn [drop]; by rewrite ?drop_drop.
Qed.

Lemma relay_direct p a nodes md n : pushable a → Forall (reached p a) (n :: nodes) →
  agree md (request_metadata true (n_session n) (map n_session nodes) a) →
  relay (n :: nodes) (request_tensors a).1 md = direct (n :: nodes) a.
Proof.
  revert a md n. induction nodes as [|n' nodes IH]; intros a md n Hp Hall Ha.
  - cbn [relay direct]. rewrite (node_view_agree _ _ _ _ Ha). f_equal. destruct (node_view _ _ _); [|done]. destruct (can_push _ _); [|done].
    by destruct (push_outputs _ _ _) as [[[[[|? [|[] [|? [|? []]]]] ?] ?]|]|].
  - apply Forall_cons in Hall as [(Hs & Hpos & Hrun & Hrest) Hall]. pose proof Hall as Hall'. apply Forall_cons in Hall' as [(Hs' & Hpos' & _ & _) _].
    cbn [relay direct]. fold direct. rewrite <-(node_view_agree _ _ _ _ Ha). f_equal. destruct (node_view n _ md) as [v|] eqn:Hv; [|done].
    destruct (view_of_request _ _ _ _ _ _ Hs Hp Ha Hv) as (_ & Hk & Hsp & -> & Hpr & _).
    destruct (push_is_next n _ (n_session n') (map n_session nodes) a md v Hs Hs' ltac:(congruence) Hp Hrun Hrest Ha Hv) as (md' & -> & Ha').
    rewrite String.eqb_refl.
    assert (a_is_spec_dec a && a_need_pruning a = false → (n_run n v).2 = normalize_arg EMPTY (a_keep_indices a)) as Hout.
    { intros H. rewrite <-Hk. apply (Hrun v). rewrite Hsp, Hpr. apply andb_false_iff in H as [E|E]; rewrite E; [done|by rewrite andb_false_r]. }
    apply IH; [by apply next_tensors| |done].
    eapply Forall_impl; [exact Hall|]. intros m (?&?&?&?). split_and!; try done. by apply same_rest_next.
Qed.

(** C40: A step that the client sends to the first server of a chain, and that every server pushes on, reaches each of them with the
    same vectors, layout, positions, kept positions, masks and batch slice as the client's own request would, and stops where that one
    raises. It does for ordinary and for speculative decoding, whether or not the servers prune, on sessions that have stepped and
    stand at one position and that the client opened with a step of the same kind, with the same prefill lengths, prompts and
    ancestors of the rows, so not when beam search reorders the cache from step to step; without deep prompts, and when no rows arrive
    late. The blocks keep the batch, and only a pruning step changes the kept positions. *)
Theorem pushed_step_is_direct p a n nodes : pushable a →
  Forall (λ n, plain_session (n_session n) ∧ s_position (n_session n) = p ∧ runs_whole n ∧ opened_alike a n) (n :: nodes) →
  relay (n :: nodes) (request_tensors a).1 (request_metadata true (n_session n) (map n_session nodes) a) = direct (n :: nodes) a.
Proof.
  intros Hp Hall. apply (relay_direct p); [done| |by apply Forall_forall]. eapply Forall_impl; [exact Hall|].
  intros m (?&?&?&?). split_and!; try done. by apply opened_alike_rest.
Qed.
End chain.

(** ** Concrete chains *)

(** A tensor is its shape and its items. *)
Notation tensor := (list Z * list Z)%type.
Definition t_item0 (t : tensor) : Z := default 0 (head t.2).
Definition t_any (t : tensor) : bool := existsb (λ x, negb (x =? 0)) t.2.
Definition nothing : tensor := ([0], []).
Definition zero : tensor := ([], [0]).

Definition open_session (peer id : string) (start stop position : Z) : server_session :=
  mkServer peer id start stop true [("max_length", VInt 64)] position None.
(** Blocks that add one to the vectors; one that prunes drops the middle one of three positions. *)
Definition prunes (v : @step_view tensor) : bool :=
  (v_is_spec_dec v && v_need_pruning v) && (bool_decide ((v_hidden v).1 = [1; 3; 1]) && bool_decide ((v_keep v).1 = [1; 3])).
Definition adds_one (v : @step_view tensor) : tensor * tensor :=
  let added := (λ x, x + 1) <$> (v_hidden v).2 in
  if prunes v then (([1; 2; 1], [nth 0 added 0; nth 2 added 0]), ([1; 2], [0; 2])) else (((v_hidden v).1, added), v_keep v).

Definition server_node (s : server_session) (first : list tensor) : @node tensor := mkNode s first adds_one true 64.

Lemma adds_one_whole s first : runs_whole fst (server_node s first).
Proof.
  intros v. cbn [n_run server_node]. unfold adds_one, prunes. destruct (v_is_spec_dec v && v_need_pruning v); [|by split_and!]. cbn [andb].
  destruct (bool_decide ((v_hidden v).1 = _)) eqn:Hh; [|by split_and!]. destruct (bool_decide ((v_keep v).1 = _)) eqn:Hk; [|by split_and!].
  apply bool_decide_eq_true in Hh, Hk. unfold dim, infer_batch_dim, is_dummy. cbn [fst snd andb]. rewrite Hk, Hh. by split_and!.
Qed.

(** A speculative step of three positions, which the first server prunes *)
Definition spec_args : @step_args tensor :=
  mkArgs ([1; 3; 1], [10; 20; 30]) nothing nothing (Some ([1; 3; 3], [1; 0; 0; 1; 1; 0; 1; 0; 1])) (Some ([1; 3], [4; 5; 5])) (Some ([1; 3], [7; 8; 9]))
    (Some ([1], [4])) (Some ([1; 3], [0; 1; 2])) true true (VStr "s7").
Notation run_relay := (relay fst nothing nothing nothing zero t_any).
Notation run_direct := (direct fst nothing nothing nothing t_item0).
Notation client_tensors := (request_tensors fst nothing).
Notation client_metadata := (request_metadata fst nothing t_item0).

(** The first step of its session *)
Definition opening_args : @step_args tensor :=
  mkArgs ([1; 4; 1], [1; 2; 3; 4]) nothing nothing (Some ([1; 4; 4], [1; 0; 0; 0; 1; 1; 0; 0; 1; 1; 1; 0; 1; 1; 1; 1])) (Some ([1; 4], [0; 1; 2; 3]))
    (Some ([1; 4], [5; 6; 7; 8])) (Some ([1], [4])) (Some ([1; 4], [0; 1; 2; 3])) true true (VStr "s1").

Definition two_servers : list (@node tensor) :=
  [server_node (open_session "A" "s-a" 0 4 4) (client_tensors opening_args).1; server_node (open_session "B" "s-b" 4 8 4) (client_tensors opening_args).1].

Lemma pushed_step_is_direct_witness :
  run_relay two_servers (client_tensors spec_args).1 (client_metadata true (open_session "A" "s-a" 0 4 4) [open_session "B" "s-b" 4 8 4] spec_args)
    = run_direct two_servers spec_args ∧
  map (λ r, match r with Ok v => Some ((v_hidden v).2, (v_keep v).2, v_need_pruning v) | Raise _ => None end) (run_direct two_servers spec_args)
    = [Some ([10; 20; 30], [0; 1; 2], true); Some ([11; 31], [0; 2], false)].
Proof.
  split; [|vm_compute; reflexivity].
  apply (pushed_step_is_direct fst nothing nothing nothing zero nothing t_any t_item0 eq_refl eq_refl 4 spec_args
    (server_node (open_session "A" "s-a" 0 4 4) (client_tensors opening_args).1) [server_node (open_session "B" "s-b" 4 8 4) (client_tensors opening_args).1]).
  - split; [reflexivity|by eexists|]. intros _. do 3 eexists. by split_and!.
  - repeat apply Forall_cons_2; [..|apply Forall_nil_2]; (split; [split; reflexivity|]); (split; [reflexivity|]); (split; [apply adds_one_whole|]);
      exists opening_args; split_and!; reflexivity.
Defined.

(** The first request of a greedy session has three tensors. When the client starts to reorder the cache, the push of the step has
    three as well, and the next server raises, where it can read the client's request. *)
Definition greedy_args : @step_args tensor :=
  mkArgs ([2; 1; 1], [10; 20]) nothing nothing None None None (Some ([2], [0; 0])) (Some ([2; 1], [0; 0])) false false (VStr "s1").
Definition reorder_args : @step_args tensor :=
  mkArgs ([2; 1; 1], [10; 20]) nothing ([2], [1; 0]) None None None (Some ([2], [0; 0])) (Some ([2; 1], [0; 0])) false false (VStr "s2").
Definition sessions : server_session * server_session := (open_session "A" "s-a" 0 4 5, open_session "B" "s-b" 4 8 5).
Definition servers_after (a : @step_args tensor) : list (@node tensor) :=
  [server_node sessions.1 (client_tensors a).1; server_node sessions.2 (client_tensors a).1].
Definition hypo_of (r : res (@step_view tensor)) : res (list Z) := v ← r; Ok (v_hypo v).2.

Example stale_first_request :
  hypo_of <$> run_relay (servers_after greedy_args) (client_tensors reorder_args).1 (client_metadata true sessions.1 [sessions.2] reorder_args)
    = [Ok [1; 0]; Raise ValueError] ∧
  hypo_of <$> run_direct (servers_after greedy_args) reorder_args = [Ok [1; 0]; Ok [1; 0]].
Proof. by vm_compute. Qed.

(** If the first request had other ancestors, the next server reorders by those. *)
Example stale_hypo_ids :
  hypo_of <$> run_relay (servers_after (mkArgs ([2; 1; 1], [10; 20]) nothing ([2], [0; 1]) None None None (Some ([2], [0; 0])) (Some ([2; 1], [0; 0])) false false (VStr "s0")))
    (client_tensors reorder_args).1 (client_metadata true sessions.1 [sessions.2] reorder_args) = [Ok [1; 0]; Ok [0; 1]].
Proof. by vm_compute. Qed.

(** A tick of rows 2 and 3 of four, of which row 3 is done: the push to the second server has neither the offset nor the mask. *)
Definition late_tick : staged_batch := mkStaged 3 ["r2"] [5] [7] (Some [false; false; true; false]) (Some 2) (Some 4) (Some 2).
Definition late_session : server_session := mkServer "A" "s-a" 0 4 true [("live_continuous_full_batch_size", VInt 4)] 5 (Some late_tick).
Definition rows_of (r : res (@step_view tensor)) : res (Z * Z * option (list bool)) :=
  v ← r; Ok (fb_batch_offset (v_batch v), fb_full_batch_size (v_batch v), v_active_mask v).

Example pushed_rows_lose_offset :
  rows_of <$> run_relay (servers_after greedy_args) (client_tensors greedy_args).1 (client_metadata true late_session [sessions.2] greedy_args)
    = [Ok (2, 4, Some [true; false]); Ok (0, 4, None)].
Proof. by vm_compute. Qed.
